(* ===== verification/_CoqProject ===== *)
-Q . S2P
Prelude.v
Token.v
Scanner.v
ScannerSpec.v
TokenSource.v
Ast.v
TreeInduction.v
BitUtil.v
Layout.v
Types.v
TypesSpec.v
TypedAst.v
Builtins.v
ErrorReporter.v
SemaChecking.v
SemaBuiltin.v
Sema.v
SemaSpec.v
SemaFacts.v
SemaSound.v
Parser.v
Grammar.v
ParserComplete.v
ParserSound.v
ParserSpec.v
Driver.v
SemaTheorems.v
Buffer.v
Simd.v
Intrinsics.v
VectorLookupTables.v
BitVector.v
BitVectorSpec.v
BitVectorTheorems.v
VectorUtil.v
VectorUtilSpec.v
VectorUtilTheorems.v
TupleIdList.v
TupleIdListSpec.v
DateTime.v
DateTimeSpec.v
DateTimeTheorems.v
Bytecodes.v
FunctionInfo.v
FunctionInfoSpec.v
BytecodeEmitter.v
BytecodeIterator.v
BytecodeSpec.v
BytecodeIteratorSpec.v
CTypes.v
SqlValues.v
SqlFunctions.v
SqlStrings.v
Aggregators.v
ChunkedVector.v
HashTable.v
Sorter.v
CsvReader.v
Memory.v
VmHandlers.v
VM.v
VmSpec.v
BytecodeTheorems.v
GeneratorState.v
GeneratorBuiltins.v
BytecodeGenerator.v
GeneratorSpec.v
GeneratorEmits.v
GeneratorWellFormed.v
GeneratorTheorems.v
TplSemantics.v
TplCore.v
GeneratorCode.v
GeneratorTranslates.v
GeneratorMachine.v
GeneratorRuns.v
GeneratorFunctions.v
GeneratorCorrect.v
