(* ===== verification/Prelude.v ===== *)
(** * TPL: a verified model of its compiler, its virtual machine and the values and containers of its engine

    TPL is the engine of a database: queries are programs in a small language, which is scanned, parsed,
    checked, compiled to bytecode and run by a virtual machine, or compiled further to machine code, over
    vectors of columns.  This development models the C++ under [src/] and proves that its parts do what
    they are for.  The definitions follow the code: one definition for each function, loops as fixpoints,
    integers at their width ([wrapu], [wraps]), an access outside of its array as [None].

    ** The parts

    Front end, [src/parsing/], [src/ast/], [src/sema/], [src/tpl.cpp].
    - [Token], [Scanner]: the tokens, and the scanner as a state machine on characters.  [ScannerSpec]
      defines the lexical grammar [lex] and proves that the scanner follows it.
    - [TokenSource]: what the parser asks of a scanner, as a class, and the scanner as its instance.
    - [Ast], [ErrorReporter], [Parser]: the syntax tree, the error list, and every method of the parser by
      open recursion ([Prod], [call]), closed by [parse] with fuel.
    - [Grammar]: the grammar as a relation.  [ParserComplete] and [ParserSound] prove the two directions,
      [ParserSpec] puts them together with the scanner.
    - [TreeInduction]: induction on the trees, which nest lists of their own kind.
    - [Types]: the types of the language and the context that makes them ([src/ast/context.cpp],
      [src/ast/type.cpp]): sizes, alignments, which types are equal, printing.  [TypesSpec] proves the
      layout of their values.
    - [TypedAst]: the tree with the types that checking attaches, and its induction; [Builtins]: the table of builtin
      functions.
    - [SemaChecking], [SemaBuiltin], [Sema]: semantic analysis, a method for each of the code's, in a monad
      of the state the code changes: errors, scopes, builtin types and the number of created structs.
    - [SemaSpec]: a type system for the language and the relation [elab_expr] of a tree to its checked form.
      [SemaFacts] says what the visitors leave alone, [SemaSound] that the checks are those of the type
      system and that the tree is only annotated; [SemaTheorems] has the theorems.
    - [Driver]: scanner, parser and semantic analysis in sequence, as [CompileAndRun] runs them.

    Bit vectors and tuple ids, [src/include/util/bit_vector.h], [src/util/vector_util.cpp],
    [src/sql/tuple_id_list.cpp].
    - [BitUtil], [Simd]: the instructions of the processor as classes with laws; [Intrinsics] has instances.
    - [BitVector], with [BitVectorSpec] ([denotes]) and [BitVectorTheorems].
    - [VectorUtil], with [VectorLookupTables], [VectorUtilSpec] and [VectorUtilTheorems]: the conversions
      between bit, byte and selection vectors, vectorised and not.
    - [TupleIdList], [TupleIdListSpec]: sets of tuple ids on bit vectors, refined to [gset]s.
    - [Buffer]: writing arrays and little-endian numbers in memory, used by all that follow.
    - [ChunkedVector]: the vector in chunks ([src/include/util/chunked_vector.h]), with its memory and its
      iterators, refined to a list.
    - [HashTable]: the chaining hash table ([src/include/sql/chaining_hash_table.h],
      [src/sql/chaining_hash_table.cpp]): entries in a store that maps addresses to them, the directory with
      tags in its pointers, probes, both iterators; concurrent insertion as a step relation on a list of
      threads ([thread_step], [step]), with a scheduler that runs it ([run]).
    - [Sorter]: sorting and top-k queries ([src/sql/sorter.cpp]), serial and over the sorters of several threads, with
      the heaps of the standard library they use.
    - [CsvReader]: the reader of CSV files ([src/util/csv_reader.cpp]): a parser that jumps between labels and
      looks at blocks of sixteen characters, its sources as a class ([CSVSource]) with strings and files as
      instances, and a reading of the same text character by character ([read_row]).

    Dates and timestamps, [src/sql/runtime_types.cpp]: [DateTime], [DateTimeSpec] (the calendar),
    [DateTimeTheorems].

    Bytecode and virtual machine, [src/vm/].
    - [Bytecodes]: the table of bytecodes ([src/include/vm/bytecodes.h]).
    - [Layout]: the layout of structs ([src/ast/type.cpp]); [FunctionInfo]: references to locals and
      frames; [FunctionInfoSpec]: their layout.
    - [BytecodeEmitter]: labels, emitter and control-flow builders; [BytecodeIterator]: reading back.
    - [CTypes], [Memory]: primitive values and their arithmetic; memory by bytes and its areas.
    - [VmHandlers]: the handlers of the interpreter, grouped as in [src/vm/vm.cpp]; [VM]: frames, calls,
      jumps and the loop.
    - [BytecodeSpec], [BytecodeIteratorSpec], [VmSpec]: programs of instructions, jumps and labels, their
      encoding, and a machine ([run]) that works on them; [BytecodeTheorems]: the theorems.

    Bytecode generator, [src/vm/bytecode_generator.cpp].
    - [GeneratorState]: the fields of the generator as the state of a monad, result scopes, and the methods
      that allocate locals and functions; [GeneratorBuiltins]: the code for the builtin functions;
      [BytecodeGenerator]: the visitors, and [Compile] for a file.
    - [GeneratorSpec]: what a piece of the generator writes, as items of a program ([writes], [gives]), and
      the rules that put pieces together.  [GeneratorEmits] and [GeneratorWellFormed] show piece by piece
      that all of it is well formed; [GeneratorTheorems] has the theorem on files.

    A core of the language, and the compiler on it.
    - [TplSemantics]: what a program means, without bytecode: primitive values, variables, functions.
    - [TplCore]: which programs are in the core.
    - [GeneratorCode]: the code of the core as a relation; [GeneratorTranslates] proves that the generator
      writes this code.
    - [GeneratorMachine], [GeneratorRuns]: the machine on the code, instruction by instruction in a frame,
      and for expressions and statements; [GeneratorFunctions]: where the code of each
      function is; [GeneratorCorrect]: the machine computes what the program means.

    SQL values and functions, [src/include/sql/value.h], [src/include/sql/runtime_types.h],
    [src/sql/functions/], [src/include/sql/operators/], [src/include/sql/aggregators.h].
    - [SqlValues]: values with their NULL flag, three-valued logic, strings with an inlined prefix, blobs,
      decimals.
    - [SqlFunctions]: arithmetic with its overflow checks, comparisons, dates, casts and hashes, and
      the operations of the virtual machine that call them.
    - [SqlStrings]: the string functions and LIKE.  [Aggregators]: counts, sums, extremes and averages.

    ** How they interact

    The parser drives the scanner through [TokenSource]; the theorems about the parser are proved for any
    source of tokens and then for the scanner.  Semantic analysis takes the tree of the parser, and [Driver]
    runs the three; its theorem puts theirs together.  The generator takes the tree of semantic analysis and
    calls the emitter; what it writes is a program of [BytecodeSpec], so the theorem of the interpreter
    applies to it, and the theorem on the core goes from the tree to the memory the machine leaves.  Tuple id lists call bit vectors and the conversions.  The
    interpreter reads what the emitter wrote and the iterator reads the same bytes; both are related to the
    one program the emitter was called for.  What the SQL runtime does when a handler calls it is the
    parameter [runtime] of the machine.

    ** What the theorems show

    - The scanner yields the tokens of the lexical grammar; the parser, built with assertions, accepts the sentences of the grammar
      and no others, with the trees the grammar gives (without assertions it accepts more); the grammar is unambiguous; and on which inputs
      either does not terminate or does not behave as its comments say.
    - A file of supported features that semantic analysis accepts is well typed, and the tree it leaves is the one it was given
      with types and implicit casts added; it changes no type that was attached before, gives back its
      scopes and only adds errors; names keep the types they were declared with.  What [tpl] accepts is a
      sentence of the grammar that the type system types, if it has no construct the checker lets through
      unchecked ([supported_file]: loops over tables, the builtin [@stringConcat], variables without type and value).
    - Values of all types have a size that their alignment divides, unless they are empty structs;
      anonymous structs are different types whenever they are made.
    - Any sequence of operations keeps a bit vector well formed and does to its words what it does to its
      bits, but for ranges that end with the last bit of the last word, which leave the storage; the same for tuple id lists and sets; the conversions
      agree with each other, if their arrays have room and the processor has no AVX-512.
    - The Julian day functions are inverse to each other and count the days; which components make a date or
      a timestamp, and which of them are read back; the texts of dates.
    - Pushing, popping, clearing and cutting off a chunked vector is what it is on a list, and a loop with its
      iterators reads the list.
    - A hash table finds the entries of a hash, last inserted first, iterates over each once and flushes all;
      threads that insert concurrently, in any interleaving, lose none; and they end under any schedule.
    - The parallel sort sorts, whatever the order in which the packages of its merge are done; top-k queries keep the
      least tuples, on one thread and on several.
    - Tables written as CSV are read back wherever the buffers end; the parser reads by blocks what it would read by
      characters; carriage returns with line feeds are two line breaks; an escape character does not keep a delimiter in a cell; and a last row
      that nothing ends is dropped from a file and never stops being read from a string.
    - A frame and a struct place their parts aligned and apart; references to locals round-trip.
    - The emitter resolves all labels; the iterator reads back every instruction; every handler reads the
      operands its bytecode declares; every emission has them; the interpreter on the emitted bytes runs
      the program.
    - Whatever file the generator compiles, if it uses only types and operators that have bytecodes, the module is one well-formed program in which every function
      has its own code and jumps only within it.  A file of the core computes what the reference
      semantics says, stores it where the caller asked, and leaves the rest of memory alone.  Two
      examples outside of the core are compiled wrongly.
    - SQL's logic is the three-valued one; strings compare as their bytes whether they are inlined or not; when
      arithmetic and casts overflow, and what they return then; LIKE decides the patterns it documents; padding, trimming and parts of
      strings, with the inputs on which they read outside of the string or do not end; aggregates
      over parts and their merge agree with the aggregate of the whole, and where they do not.

    ** Fuel and bounds

    The scanner's loops have fuel for the characters that are left, which is shown to be enough
    ([ScannerSpec]); the parser's is any number, with theorems that a large enough one gives the result and
    that on some inputs none does.  Semantic analysis and the functions on types are
    structural; the search for a free struct name has one unit for each name taken.  The interpreter has one unit for each instruction executed; its theorem
    relates runs of equal fuel.  The reference semantics has fuel for loops and a depth for calls: the theorem
    holds for any of both for which there is a result, and says that the machine ends.  Its other bounds are
    those of the machine: [bound] is the size of the largest frame, [depth + 1] of which fit into memory;
    code of less than 2^31 - 1 bytes, at most 2^16 functions, and few enough locals ([few_locals]) that
    their offsets can be encoded.  LIKE has one unit for each character of the pattern, padding one for each
    missing byte, a walk over a chain one for each entry of the table, a heap one for each of its elements, a row of CSV two for each character.
    Concurrent threads take their steps on memory one after the other, each access a step.  Sizes of containers in memory are taken to be below the limit of
    [std::size_t]; everything else wraps where the code wraps.

    ** Parameters

    LLVM's bit and alignment functions ([BitOps], [AlignOps]), the sizes of the C++ classes that are types of
    the language ([CppClasses]), the instructions of the processor ([SimdOps]), the place of a new frame in
    memory and what is in it ([FrameAllocator]), the tables of the catalog ([Catalog]), the runtime the handlers call
    ([Runtime]), the elementary functions of the C library ([Libm]), the hash of XXH3 ([XXH3]), powers of two
    ([PowerOps]), the comparison of strings by one instruction ([StringCompare]), the sort of
    ips4o ([Sorting]), what fresh memory holds
    ([FreshMemory]) and what memory holds when
    it is allocated ([Allocator]): classes, with laws where a theorem needs them ([BitOpsSpec],
    [FrameAllocatorSpec] and so on) and with instances at which the theorems are applied.

    ** Not modelled

    Join and aggregation tables (clients of the hash table and the chunked vector, with partitions and
    callbacks of generated code), weaker orders of memory than one interleaving, vectors and
    the templates that run operations over them (the operations on one element are modelled), the LLVM
    backend (its meaning is LLVM's), the query compiler (it builds trees for the language above from plans whose
    meaning the repository does not state), tables and catalogs, memory pools, files, logging, printing,
    and vendored code. *)
From stdpp Require Export base gmap sets list list_numbers strings.
From Stdlib Require Export ZArith Lia.
From Stdlib Require Export Ascii.

Open Scope Z_scope.

#[global] Arguments Z.eqb : simpl never.
#[global] Arguments Z.ltb : simpl never.
#[global] Arguments Z.leb : simpl never.
#[global] Arguments Z.gtb : simpl never.
#[global] Arguments Z.geb : simpl never.

(** * Tactics *)

(** Turn every boolean comparison of the context into a proposition. *)
Ltac bprop :=
  repeat match goal with
  | H : (_ =? _) = true |- _ => apply Z.eqb_eq in H
  | H : (_ =? _) = false |- _ => apply Z.eqb_neq in H
  | H : (_ <? _) = true |- _ => apply Z.ltb_lt in H
  | H : (_ <? _) = false |- _ => apply Z.ltb_ge in H
  | H : (_ <=? _) = true |- _ => apply Z.leb_le in H
  | H : (_ <=? _) = false |- _ => apply Z.leb_gt in H
  | H : (_ >? _) = true |- _ => rewrite Z.gtb_ltb in H; apply Z.ltb_lt in H
  | H : (_ >? _) = false |- _ => rewrite Z.gtb_ltb in H; apply Z.ltb_ge in H
  | H : (_ >=? _) = true |- _ => rewrite Z.geb_leb in H; apply Z.leb_le in H
  | H : (_ >=? _) = false |- _ => rewrite Z.geb_leb in H; apply Z.leb_gt in H
  | H : (_ && _) = true |- _ => apply andb_true_iff in H; destruct H
  | H : (_ || _) = false |- _ => apply orb_false_iff in H; destruct H
  | H : negb _ = true |- _ => apply negb_true_iff in H
  | H : negb _ = false |- _ => apply negb_false_iff in H
  end.

(** Decide a boolean comparison of the goal by linear arithmetic. *)
Ltac bsolve :=
  repeat match goal with
  | |- context [Z.eqb ?a ?b] =>
      first [ rewrite (proj2 (Z.eqb_eq a b)) by lia | rewrite (proj2 (Z.eqb_neq a b)) by lia ]
  | |- context [Z.ltb ?a ?b] =>
      first [ rewrite (proj2 (Z.ltb_lt a b)) by lia | rewrite (proj2 (Z.ltb_ge a b)) by lia ]
  | |- context [Z.leb ?a ?b] =>
      first [ rewrite (proj2 (Z.leb_le a b)) by lia | rewrite (proj2 (Z.leb_gt a b)) by lia ]
  end.

(** * Machine integers

    A [w]-bit integer is a [Z]; these are the two conversions of C++. *)

Definition wrapu (w z : Z) : Z := z mod 2 ^ w.
Definition wraps (w z : Z) : Z := (z + 2 ^ (w - 1)) mod 2 ^ w - 2 ^ (w - 1).

Definition is_uint (w z : Z) : Prop := 0 <= z < 2 ^ w.
Definition is_sint (w z : Z) : Prop := - 2 ^ (w - 1) <= z < 2 ^ (w - 1).

Lemma pow2_pos w : 0 <= w -> 0 < 2 ^ w.
Proof. intros. apply Z.pow_pos_nonneg; lia. Qed.

Lemma pow2_half w : 0 < w -> 2 ^ w = 2 * 2 ^ (w - 1).
Proof. intros. rewrite <- Z.pow_succ_r by lia. f_equal; lia. Qed.

Lemma wrapu_range w z : 0 <= w -> is_uint w (wrapu w z).
Proof. intros. apply Z.mod_pos_bound, pow2_pos; lia. Qed.

Lemma wrapu_small w z : is_uint w z -> wrapu w z = z.
Proof. apply Z.mod_small. Qed.

Lemma wraps_range w z : 0 < w -> is_sint w (wraps w z).
Proof.
  intros Hw. unfold wraps, is_sint.
  pose proof (Z.mod_pos_bound (z + 2 ^ (w - 1)) (2 ^ w) (pow2_pos w ltac:(lia))).
  pose proof (pow2_half w Hw). lia.
Qed.

Lemma wraps_small w z : 0 < w -> is_sint w z -> wraps w z = z.
Proof.
  intros Hw Hz. unfold wraps, is_sint in *. pose proof (pow2_half w Hw).
  rewrite Z.mod_small by lia. lia.
Qed.

Lemma wraps_wrapu w z : 0 < w -> wraps w (wrapu w z) = wraps w z.
Proof.
  intros Hw. unfold wraps, wrapu. f_equal.
  rewrite Zplus_mod_idemp_l. reflexivity.
Qed.

Lemma wrapu_wraps w z : 0 < w -> wrapu w (wraps w z) = wrapu w z.
Proof.
  intros Hw. unfold wraps, wrapu.
  rewrite Zminus_mod_idemp_l. f_equal. lia.
Qed.

Create HintDb machine.
#[export] Hint Resolve wrapu_range wraps_range pow2_pos : machine.

(** * Bytes and characters *)

(** The code of an ASCII character, and the bytes of a string literal. *)
Definition ch (c : ascii) : Z := Z.of_N (N_of_ascii c).
Arguments ch c%_char.

(** Prove that a character constant is in a range. *)
Ltac ascii := vm_compute; intuition congruence.

Fixpoint bytes (s : string) : list Z :=
  match s with
  | EmptyString => []
  | String c s' => ch c :: bytes s'
  end.

(** [char] is signed on the x86-64 targets the program supports. *)
Definition schar (b : Z) : Z := wraps 8 b.
