(* ===== verification/Token.v ===== *)
(** The tokens of TPL: [src/include/parsing/token.h], and the positions of tokens. *)
From S2P Require Import Prelude.

(** [struct SourcePosition] of [src/include/common/common.h]. *)
Record SourcePosition : Set := mkPos { line : Z; column : Z }.

(** [Token::Type], in the order of the [TOKENS] macro. *)
Inductive TokenType : Set :=
  | LEFT_PAREN | RIGHT_PAREN | LEFT_BRACE | RIGHT_BRACE | LEFT_BRACKET | RIGHT_BRACKET
  | ARROW | BANG | BIT_NOT | COLON | DOT | SEMI | AT
  | EQUAL
  | COMMA | OR | AND | BIT_OR | BIT_XOR | AMPERSAND | BIT_SHL | BIT_SHR
  | PLUS | MINUS | STAR | SLASH | PERCENT
  | BANG_EQUAL | EQUAL_EQUAL | GREATER | GREATER_EQUAL | LESS | LESS_EQUAL
  | IDENTIFIER | BUILTIN_IDENTIFIER | INTEGER | FLOAT | STRING
  | ELSE | FALSE | FOR | FUN | IF | IN | MAP | NIL | RETURN | STRUCT | TRUE | VAR
  | UNINIITIALIZED | WHITESPACE | ERROR | EOS.

#[export] Instance TokenType_eq_dec : EqDecision TokenType.
Proof. solve_decision. Defined.

(** The enumerators in order: the index of a token is its [uint8_t] value. *)
Definition all_tokens : list TokenType :=
  [ LEFT_PAREN; RIGHT_PAREN; LEFT_BRACE; RIGHT_BRACE; LEFT_BRACKET; RIGHT_BRACKET;
    ARROW; BANG; BIT_NOT; COLON; DOT; SEMI; AT;
    EQUAL;
    COMMA; OR; AND; BIT_OR; BIT_XOR; AMPERSAND; BIT_SHL; BIT_SHR;
    PLUS; MINUS; STAR; SLASH; PERCENT;
    BANG_EQUAL; EQUAL_EQUAL; GREATER; GREATER_EQUAL; LESS; LESS_EQUAL;
    IDENTIFIER; BUILTIN_IDENTIFIER; INTEGER; FLOAT; STRING;
    ELSE; FALSE; FOR; FUN; IF; IN; MAP; NIL; RETURN; STRUCT; TRUE; VAR;
    UNINIITIALIZED; WHITESPACE; ERROR; EOS ].

Definition token_index (t : TokenType) : nat :=
  match list_find (fun t' => t = t') all_tokens with Some (i, _) => i | None => 0%nat end.

(** [kTokenStrings]: the third argument of [T] and [K]; [nullptr] is [None]. *)
Definition GetString (t : TokenType) : option (list Z) :=
  match t with
  | LEFT_PAREN => Some (bytes "(") | RIGHT_PAREN => Some (bytes ")")
  | LEFT_BRACE => Some (bytes "{") | RIGHT_BRACE => Some (bytes "}")
  | LEFT_BRACKET => Some (bytes "[") | RIGHT_BRACKET => Some (bytes "]")
  | ARROW => Some (bytes "->") | BANG => Some (bytes "!") | BIT_NOT => Some (bytes "~")
  | COLON => Some (bytes ":") | DOT => Some (bytes ".") | SEMI => Some (bytes ";")
  | AT => Some (bytes "@") | EQUAL => Some (bytes "=")
  | COMMA => Some (bytes ",") | OR => Some (bytes "or") | AND => Some (bytes "and")
  | BIT_OR => Some (bytes "|") | BIT_XOR => Some (bytes "^") | AMPERSAND => Some (bytes "&")
  | BIT_SHL => Some (bytes "<<") | BIT_SHR => Some (bytes ">>")
  | PLUS => Some (bytes "+") | MINUS => Some (bytes "-") | STAR => Some (bytes "*")
  | SLASH => Some (bytes "/") | PERCENT => Some (bytes "%")
  | BANG_EQUAL => Some (bytes "!=") | EQUAL_EQUAL => Some (bytes "==")
  | GREATER => Some (bytes ">") | GREATER_EQUAL => Some (bytes ">=")
  | LESS => Some (bytes "<") | LESS_EQUAL => Some (bytes "<=")
  | IDENTIFIER => Some (bytes "[ident]") | BUILTIN_IDENTIFIER => Some (bytes "@[ident]")
  | INTEGER => Some (bytes "num") | FLOAT => Some (bytes "float") | STRING => Some (bytes "str")
  | ELSE => Some (bytes "else") | FALSE => Some (bytes "false") | FOR => Some (bytes "for")
  | FUN => Some (bytes "fun") | IF => Some (bytes "if") | IN => Some (bytes "in")
  | MAP => Some (bytes "map") | NIL => Some (bytes "nil") | RETURN => Some (bytes "return")
  | STRUCT => Some (bytes "struct") | TRUE => Some (bytes "true") | VAR => Some (bytes "var")
  | UNINIITIALIZED => None | WHITESPACE => None
  | ERROR => Some (bytes "error") | EOS => Some (bytes "eos")
  end.

(** [kTokenPrecedence]. The values are small, so [uint32_t] is [nat]. *)
Definition GetPrecedence (t : TokenType) : nat :=
  match t with
  | COMMA => 1 | OR => 3 | AND => 4 | BIT_OR => 5 | BIT_XOR => 6 | AMPERSAND => 7
  | BANG_EQUAL | EQUAL_EQUAL => 8
  | GREATER | GREATER_EQUAL | LESS | LESS_EQUAL => 9
  | BIT_SHL | BIT_SHR => 10
  | PLUS | MINUS => 11
  | STAR | SLASH | PERCENT => 12
  | _ => 0
  end%nat.

Definition LowestPrecedence : nat := 0.

Definition IsBinaryOp (op : TokenType) : bool :=
  Nat.leb (token_index COMMA) (token_index op) && Nat.leb (token_index op) (token_index PERCENT).

Definition IsCompareOp (op : TokenType) : bool :=
  Nat.leb (token_index BANG_EQUAL) (token_index op) &&
  Nat.leb (token_index op) (token_index LESS_EQUAL).

Definition IsEqualityOp (op : TokenType) : bool :=
  bool_decide (op = BANG_EQUAL) || bool_decide (op = EQUAL_EQUAL).

Definition IsCallOrMemberOrIndex (op : TokenType) : bool :=
  bool_decide (op = LEFT_PAREN) || bool_decide (op = DOT) || bool_decide (op = LEFT_BRACKET).
