(* ===== verification/Scanner.v ===== *)
(** The TPL scanner: [src/include/parsing/scanner.h] and [src/parsing/scanner.cpp].

    The state is the C++ object's: the source, the offset of the next character to
    read, the lookahead character [c0_] as an [int32_t], its position, and the current
    and next token descriptors.  The loops over characters take their fuel from the
    number of characters left, and [ScannerSpec] shows that it is always enough; the
    [do ... while] loop of [Scan] takes an explicit fuel and yields [None] when it runs
    out, because the code itself does not terminate on every input. *)
From S2P Require Import Prelude Token.

(** [struct Scanner::TokenDesc]. *)
Record TokenDesc : Set := mkTokenDesc {
  type : TokenType;
  pos : SourcePosition;
  offset : nat;
  literal : list Z
}.

Definition kEndOfInput : Z := -1.
Definition kNewLine : Z := 10.

Record Scanner : Set := mkScanner {
  source_ : list Z;
  offset_ : nat;
  c0_ : Z;
  c0_pos_ : SourcePosition;
  curr_ : TokenDesc;
  next_ : TokenDesc
}.

Definition source_len_ (s : Scanner) : nat := length (source_ s).

(** Field assignments. *)
Definition set_c0 (v : Z) (s : Scanner) : Scanner :=
  mkScanner (source_ s) (offset_ s) v (c0_pos_ s) (curr_ s) (next_ s).
Definition set_offset (v : nat) (s : Scanner) : Scanner :=
  mkScanner (source_ s) v (c0_ s) (c0_pos_ s) (curr_ s) (next_ s).
Definition set_c0_pos (v : SourcePosition) (s : Scanner) : Scanner :=
  mkScanner (source_ s) (offset_ s) (c0_ s) v (curr_ s) (next_ s).
Definition set_curr (v : TokenDesc) (s : Scanner) : Scanner :=
  mkScanner (source_ s) (offset_ s) (c0_ s) (c0_pos_ s) v (next_ s).
Definition set_next (v : TokenDesc) (s : Scanner) : Scanner :=
  mkScanner (source_ s) (offset_ s) (c0_ s) (c0_pos_ s) (curr_ s) v.
Definition set_next_literal (v : list Z) (s : Scanner) : Scanner :=
  set_next (mkTokenDesc (type (next_ s)) (pos (next_ s)) (offset (next_ s)) v) s.
Definition set_next_type (v : TokenType) (s : Scanner) : Scanner :=
  set_next (mkTokenDesc v (pos (next_ s)) (offset (next_ s)) (literal (next_ s))) s.

(** [Advance]: reading a [char] into an [int32_t] sign-extends it. *)
Definition Advance (s : Scanner) : Scanner :=
  if Nat.eqb (offset_ s) (source_len_ s) then set_c0 kEndOfInput s
  else
    let s1 := set_c0 (schar (nth (offset_ s) (source_ s) 0)) s in
    let s2 := set_offset (S (offset_ s)) s1 in
    set_c0_pos (mkPos (line (c0_pos_ s)) (column (c0_pos_ s) + 1)) s2.

(** How often [Advance] can still change the lookahead. *)
Definition chars_left (s : Scanner) : nat := S (source_len_ s - offset_ s).

#[global] Arguments chars_left : simpl never.

Fixpoint AdvanceUntil_loop (fuel : nat) (p : Z -> bool) (s : Scanner) : Scanner :=
  match fuel with
  | O => s
  | S fuel' =>
      if negb (c0_ s =? kEndOfInput) && negb (p (c0_ s))
      then AdvanceUntil_loop fuel' p (Advance s) else s
  end.
Definition AdvanceUntil (p : Z -> bool) (s : Scanner) : Scanner :=
  AdvanceUntil_loop (chars_left s) p s.

Definition Matches (expected : Z) (s : Scanner) : bool * Scanner :=
  if negb (c0_ s =? expected) then (false, s) else (true, Advance s).

Definition IsInRange (c lower upper : Z) : bool := (c >=? lower) && (c <=? upper).
Definition IsAlpha (c : Z) : bool := IsInRange c (ch "a") (ch "z") || IsInRange c (ch "A") (ch "Z").
Definition IsDigit (c : Z) : bool := IsInRange c (ch "0") (ch "9").
Definition IsIdentifierChar (c : Z) : bool := IsAlpha c || IsDigit c || (c =? ch "_").

Fixpoint SkipWhiteSpace_loop (fuel : nat) (s : Scanner) : Scanner :=
  match fuel with
  | O => s
  | S fuel' =>
      if (c0_ s =? 32) || (c0_ s =? 13) || (c0_ s =? 9) then
        SkipWhiteSpace_loop fuel' (Advance s)
      else if c0_ s =? 10 then
        SkipWhiteSpace_loop fuel' (Advance (set_c0_pos (mkPos (line (c0_pos_ s) + 1) 0) s))
      else s
  end.
Definition SkipWhiteSpace (s : Scanner) : Scanner := SkipWhiteSpace_loop (chars_left s) s.

Definition SkipLineComment (s : Scanner) : Scanner := AdvanceUntil (fun c => c =? kNewLine) s.

(** The inner loop of [SkipBlockComment]: [true] when it met the closing slash. *)
Fixpoint SkipStars_loop (fuel : nat) (s : Scanner) : bool * Scanner :=
  match fuel with
  | O => (false, s)
  | S fuel' =>
      if c0_ s =? ch "*" then
        let s1 := Advance s in
        if c0_ s1 =? ch "/" then (true, Advance s1) else SkipStars_loop fuel' s1
      else (false, s)
  end.

Fixpoint SkipBlockComment_loop (fuel : nat) (s : Scanner) : Scanner :=
  match fuel with
  | O => s
  | S fuel' =>
      if negb (c0_ s =? kEndOfInput) then
        let s1 := AdvanceUntil (fun c => c =? ch "*") s in
        let '(closed, s2) := SkipStars_loop (chars_left s1) s1 in
        if closed then s2 else SkipBlockComment_loop fuel' s2
      else s
  end.
Definition SkipBlockComment (s : Scanner) : Scanner := SkipBlockComment_loop (chars_left s) s.

(** [next_.literal += static_cast<char>(c0_)]. *)
Definition append_c0 (s : Scanner) : Scanner :=
  set_next_literal (literal (next_ s) ++ [wrapu 8 (c0_ s)]) s.

(** A loop that collects characters while they satisfy [p]. *)
Fixpoint Collect_loop (fuel : nat) (p : Z -> bool) (s : Scanner) : Scanner :=
  match fuel with
  | O => s
  | S fuel' => if p (c0_ s) then Collect_loop fuel' p (Advance (append_c0 s)) else s
  end.
Definition Collect (p : Z -> bool) (s : Scanner) : Scanner := Collect_loop (chars_left s) p s.

(** The [KEYWORDS] table, grouped by first character as [GROUP_START] does. *)
Definition KEYWORDS : list (Z * list (list Z * TokenType)) :=
  [ (ch "a", [(bytes "and", AND)]);
    (ch "e", [(bytes "else", ELSE)]);
    (ch "f", [(bytes "false", FALSE); (bytes "for", FOR); (bytes "fun", FUN)]);
    (ch "i", [(bytes "if", IF); (bytes "in", IN)]);
    (ch "m", [(bytes "map", MAP)]);
    (ch "n", [(bytes "nil", NIL)]);
    (ch "o", [(bytes "or", OR)]);
    (ch "r", [(bytes "return", RETURN)]);
    (ch "s", [(bytes "struct", STRUCT)]);
    (ch "t", [(bytes "true", TRUE)]);
    (ch "v", [(bytes "var", VAR)]) ].

Definition kMinKeywordLen : nat := 2.
Definition kMaxKeywordLen : nat := 6.

(** The test of [GROUP_ELEM]: equal lengths, then characters 1 to 5 one at a time. *)
Definition char_eq (i : nat) (str input : list Z) : bool := nth i str 0 =? nth i input 0.
Definition group_elem_matches (str input : list Z) : bool :=
  let keyword_len := length str in
  Nat.eqb keyword_len (length input) && char_eq 1 str input &&
  (Nat.ltb keyword_len 3 || char_eq 2 str input) &&
  (Nat.ltb keyword_len 4 || char_eq 3 str input) &&
  (Nat.ltb keyword_len 5 || char_eq 4 str input) &&
  (Nat.ltb keyword_len 6 || char_eq 5 str input).

Fixpoint group_lookup (group : list (list Z * TokenType)) (input : list Z) : TokenType :=
  match group with
  | [] => IDENTIFIER
  | (str, typ) :: group' => if group_elem_matches str input then typ else group_lookup group' input
  end.

Fixpoint switch_first (groups : list (Z * list (list Z * TokenType))) (input : list Z)
  : TokenType :=
  match groups with
  | [] => IDENTIFIER
  | (c, group) :: groups' =>
      if nth 0 input 0 =? c then group_lookup group input else switch_first groups' input
  end.

Definition CheckIdentifierOrKeyword (input : list Z) : TokenType :=
  let input_len := length input in
  if Nat.ltb input_len kMinKeywordLen || Nat.ltb kMaxKeywordLen input_len then IDENTIFIER
  else switch_first KEYWORDS input.

Definition ScanIdentifierOrKeyword (s : Scanner) : TokenType * Scanner :=
  let identifier_char0 := c0_ s in
  let s1 := Collect (fun c => IsIdentifierChar c && negb (c =? kEndOfInput)) s in
  if (identifier_char0 =? ch "_") || IsInRange identifier_char0 (ch "A") (ch "Z")
  then (IDENTIFIER, s1)
  else (CheckIdentifierOrKeyword (literal (next_ s1)), s1).

Definition ScanNumber (s : Scanner) : TokenType * Scanner :=
  let s1 := Collect IsDigit s in
  if c0_ s1 =? ch "." then
    let s2 := Advance (set_next_literal (literal (next_ s1) ++ bytes ".") s1) in
    (FLOAT, Collect IsDigit s2)
  else (INTEGER, s1).

Fixpoint ScanString_loop (fuel : nat) (s : Scanner) : TokenType * Scanner :=
  match fuel with
  | O => (UNINIITIALIZED, s)
  | S fuel' =>
      if c0_ s =? kEndOfInput then (ERROR, set_next_literal (bytes "Unterminated string") s)
      else
        let escape := c0_ s =? 92 in
        let s1 := Advance (append_c0 s) in
        if (c0_ s1 =? 34) && negb escape then (STRING, Advance s1)
        else ScanString_loop fuel' s1
  end.
Definition ScanString (s : Scanner) : TokenType * Scanner := ScanString_loop (S (chars_left s)) s.

(** The [switch] of [Scan]: one token, or a stretch of white space or a comment. *)
Definition ScanSwitch (s : Scanner) : TokenType * Scanner :=
  let c := c0_ s in
  let s1 := Advance s in
  if c =? ch "@" then
    if IsIdentifierChar (c0_ s1) then (BUILTIN_IDENTIFIER, snd (ScanIdentifierOrKeyword s1))
    else (AT, s1)
  else if c =? ch "{" then (LEFT_BRACE, s1)
  else if c =? ch "}" then (RIGHT_BRACE, s1)
  else if c =? ch "(" then (LEFT_PAREN, s1)
  else if c =? ch ")" then (RIGHT_PAREN, s1)
  else if c =? ch "[" then (LEFT_BRACKET, s1)
  else if c =? ch "]" then (RIGHT_BRACKET, s1)
  else if c =? ch "&" then (AMPERSAND, s1)
  else if c =? ch "|" then (BIT_OR, s1)
  else if c =? ch "^" then (BIT_XOR, s1)
  else if c =? ch "!" then
    let '(m, s2) := Matches (ch "=") s1 in if m then (BANG_EQUAL, s2) else (BANG, s2)
  else if c =? ch "~" then (BIT_NOT, s1)
  else if c =? ch ":" then (COLON, s1)
  else if c =? ch "," then (COMMA, s1)
  else if c =? ch "." then (DOT, s1)
  else if c =? ch ";" then (SEMI, s1)
  else if c =? ch "=" then
    let '(m, s2) := Matches (ch "=") s1 in if m then (EQUAL_EQUAL, s2) else (EQUAL, s2)
  else if c =? ch ">" then
    let '(m, s2) := Matches (ch "=") s1 in
    if m then (GREATER_EQUAL, s2)
    else let '(m', s3) := Matches (ch ">") s2 in if m' then (BIT_SHR, s3) else (GREATER, s3)
  else if c =? ch "<" then
    let '(m, s2) := Matches (ch "=") s1 in
    if m then (LESS_EQUAL, s2)
    else let '(m', s3) := Matches (ch "<") s2 in if m' then (BIT_SHL, s3) else (LESS, s3)
  else if c =? ch "-" then
    let '(m, s2) := Matches (ch ">") s1 in if m then (ARROW, s2) else (MINUS, s2)
  else if c =? ch "%" then (PERCENT, s1)
  else if c =? ch "+" then (PLUS, s1)
  else if c =? ch "/" then
    let '(m, s2) := Matches (ch "/") s1 in
    if m then (WHITESPACE, SkipLineComment s2)
    else let '(m', s3) := Matches (ch "*") s2 in
         if m' then (WHITESPACE, SkipBlockComment s3) else (SLASH, s3)
  else if c =? ch "*" then (STAR, s1)
  else if c =? 34 then ScanString s1
  else if IsDigit c then ScanNumber s
  else if IsIdentifierChar c then ScanIdentifierOrKeyword s
  else if c =? kEndOfInput then (EOS, s)
  else (WHITESPACE, SkipWhiteSpace s).

(** [next_.pos = c0_pos_; next_.offset = offset_], then the switch, until the token is
    not white space. *)
Fixpoint Scan_loop (fuel : nat) (s : Scanner) : option Scanner :=
  match fuel with
  | O => None
  | S fuel' =>
      let s0 := set_next (mkTokenDesc (type (next_ s)) (c0_pos_ s) (offset_ s)
                                      (literal (next_ s))) s in
      let '(t, s1) := ScanSwitch s0 in
      if decide (t = WHITESPACE) then Scan_loop fuel' s1 else Some (set_next_type t s1)
  end.
Definition Scan (fuel : nat) (s : Scanner) : option Scanner :=
  Scan_loop fuel (set_next_literal [] s).

Definition Next (fuel : nat) (s : Scanner) : option (TokenType * Scanner) :=
  match Scan fuel (set_curr (next_ s) s) with
  | Some s' => Some (type (curr_ s'), s')
  | None => None
  end.

Definition Peek (s : Scanner) : TokenType := type (next_ s).
Definition CurrentToken (s : Scanner) : TokenType := type (curr_ s).
Definition CurrentLiteral (s : Scanner) : list Z := literal (curr_ s).
Definition CurrentPosition (s : Scanner) : SourcePosition := pos (curr_ s).

(** The constructor: reset everything, read the first character, scan the first token. *)
Definition uninitialized_desc : TokenDesc := mkTokenDesc UNINIITIALIZED (mkPos 0 0) 0 [].
Definition initial_scanner (source : list Z) : Scanner :=
  Advance (mkScanner source 0 0 (mkPos 1 0) uninitialized_desc uninitialized_desc).
Definition new_Scanner (fuel : nat) (source : list Z) : option Scanner :=
  Scan fuel (initial_scanner source).
