(* ===== verification/ScannerSpec.v ===== *)
(** What the scanner promises: a declarative lexical grammar for TPL ([lex]), and the
    proof that the scanner of [Scanner] produces exactly the tokens the grammar assigns
    to a source.  Also the termination of its loops, the keyword table, and the inputs
    on which scanning does not terminate. *)
From S2P Require Import Prelude Token Scanner.

(** * The lexical grammar *)

(** Bytes the lookahead can tell apart from the end of input: byte 255 is read as the
    [char] -1, which is [kEndOfInput]. *)
Definition byte_ok (b : Z) : Prop := 0 <= b < 255.

Definition is_space (b : Z) : bool := (b =? 32) || (b =? 13) || (b =? 9) || (b =? 10).

Definition next_is (p : Z -> bool) (r : list Z) : bool :=
  match r with [] => false | b :: _ => p b end.

Fixpoint skip_space (t : list Z) : list Z :=
  match t with
  | [] => []
  | b :: t' => if is_space b then skip_space t' else t
  end.

Fixpoint skip_line (t : list Z) : list Z :=
  match t with
  | [] => []
  | b :: t' => if b =? kNewLine then t else skip_line t'
  end.

Fixpoint skip_block (t : list Z) : list Z :=
  match t with
  | [] => []
  | b :: t' =>
      if (b =? ch "*") && next_is (fun c => c =? ch "/") t' then tail t' else skip_block t'
  end.

Definition keyword_table : list (list Z * TokenType) := concat (map snd KEYWORDS).

Fixpoint assoc (w : list Z) (l : list (list Z * TokenType)) : option TokenType :=
  match l with
  | [] => None
  | (k, t) :: l' => if decide (w = k) then Some t else assoc w l'
  end.
Definition keyword_of (w : list Z) : option TokenType := assoc w keyword_table.

(** The tokens whose text is fixed and is not a word. *)
Definition punctuation : list TokenType :=
  [ LEFT_PAREN; RIGHT_PAREN; LEFT_BRACE; RIGHT_BRACE; LEFT_BRACKET; RIGHT_BRACKET;
    ARROW; BANG; BIT_NOT; COLON; DOT; SEMI; AT; EQUAL; COMMA; BIT_OR; BIT_XOR;
    AMPERSAND; BIT_SHL; BIT_SHR; PLUS; MINUS; STAR; SLASH; PERCENT; BANG_EQUAL;
    EQUAL_EQUAL; GREATER; GREATER_EQUAL; LESS; LESS_EQUAL ].

Definition ident_text (w : list Z) : Prop :=
  match w with
  | [] => False
  | b :: _ => IsDigit b = false /\ Forall (fun c => IsIdentifierChar c = true) w
  end.

(** The body of a string literal: never empty, and every quote after the first
    character is escaped. [esc] says whether the previous character is a backslash. *)
Fixpoint string_tail (esc : bool) (w : list Z) : Prop :=
  match w with
  | [] => esc = false
  | b :: w' => (b = 34 -> esc = true) /\ string_tail (b =? 92) w'
  end.
Definition string_body (w : list Z) : Prop :=
  match w with
  | [] => False
  | b :: w' => string_tail (b =? 92) w'
  end.

(** [token_text t l w]: the text [w] is a token of type [t] with the literal [l]. *)
Inductive token_text : TokenType -> list Z -> list Z -> Prop :=
  | tt_punct t w : t ∈ punctuation -> GetString t = Some w -> token_text t [] w
  | tt_ident w : ident_text w -> keyword_of w = None -> token_text IDENTIFIER w w
  | tt_keyword t w : keyword_of w = Some t -> token_text t w w
  | tt_builtin w : w <> [] -> Forall (fun c => IsIdentifierChar c = true) w ->
      token_text BUILTIN_IDENTIFIER w (ch "@" :: w)
  | tt_int w : w <> [] -> Forall (fun c => IsDigit c = true) w -> token_text INTEGER w w
  | tt_float w f : w <> [] -> Forall (fun c => IsDigit c = true) w ->
      Forall (fun c => IsDigit c = true) f ->
      token_text FLOAT (w ++ bytes "." ++ f) (w ++ bytes "." ++ f)
  | tt_string w : string_body w -> token_text STRING w (34 :: w ++ [34]).

(** What must not follow a token for it to be the longest match. *)
Definition boundary (t : TokenType) (r : list Z) : bool :=
  match t with
  | LEFT_PAREN | RIGHT_PAREN | LEFT_BRACE | RIGHT_BRACE | LEFT_BRACKET | RIGHT_BRACKET
  | ARROW | BIT_NOT | COLON | DOT | SEMI | COMMA | BIT_OR | BIT_XOR | AMPERSAND
  | BIT_SHL | BIT_SHR | PLUS | STAR | PERCENT | BANG_EQUAL | EQUAL_EQUAL
  | GREATER_EQUAL | LESS_EQUAL | STRING => true
  | BANG | EQUAL => negb (next_is (fun c => c =? ch "=") r)
  | GREATER => negb (next_is (fun c => (c =? ch "=") || (c =? ch ">")) r)
  | LESS => negb (next_is (fun c => (c =? ch "=") || (c =? ch "<")) r)
  | MINUS => negb (next_is (fun c => c =? ch ">") r)
  | SLASH => negb (next_is (fun c => (c =? ch "/") || (c =? ch "*")) r)
  | INTEGER => negb (next_is (fun c => IsDigit c || (c =? ch ".")) r)
  | FLOAT => negb (next_is IsDigit r)
  | _ => negb (next_is IsIdentifierChar r)
  end.

Inductive lex : list Z -> list (TokenType * list Z) -> Prop :=
  | lex_nil : lex [] []
  | lex_space b r ts : is_space b = true -> lex (skip_space r) ts -> lex (b :: r) ts
  | lex_line r ts : lex (skip_line r) ts -> lex (bytes "//" ++ r) ts
  | lex_block r ts : lex (skip_block r) ts -> lex (bytes "/*" ++ r) ts
  | lex_token t l w r ts : token_text t l w -> boundary t r = true -> lex r ts ->
      lex (w ++ r) ((t, l) :: ts).

(** All the tokens of a source, by calling [Next] until the end of the stream. *)
Fixpoint all_tokens_from (n fuel : nat) (s : Scanner) : option (list (TokenType * list Z)) :=
  match n with
  | O => None
  | S n' =>
      match Next fuel s with
      | None => None
      | Some (t, s') =>
          if decide (t = EOS) then Some []
          else match all_tokens_from n' fuel s' with
               | None => None
               | Some ts => Some ((t, CurrentLiteral s') :: ts)
               end
      end
  end.
Definition tokenize (source : list Z) : option (list (TokenType * list Z)) :=
  let fuel := S (S (length source)) in
  match new_Scanner fuel source with
  | None => None
  | Some s => all_tokens_from fuel fuel s
  end.

(** The characters no token, blank or comment starts with. *)
Definition unsupported (b : Z) : bool :=
  negb (is_space b) && negb (IsIdentifierChar b) &&
  negb (bool_decide (b ∈ bytes "@{}()[]&|^!~:,.;=><-%+/*")) && negb (b =? 34).

(** * The text that is left *)

Definition hd_c0 (r : list Z) : Z := match r with [] => kEndOfInput | b :: _ => schar b end.

(** [view s r]: the scanner [s] has the lookahead and the characters after it equal to [r]. *)
Definition view (s : Scanner) (r : list Z) : Prop :=
  (offset_ s <= source_len_ s)%nat /\ c0_ s = hd_c0 r /\ Forall byte_ok r /\
  match r with
  | [] => offset_ s = source_len_ s
  | _ :: r' => r' = drop (offset_ s) (source_ s)
  end.

(** What the character loops leave alone. *)
Definition frame (s s' : Scanner) : Prop := curr_ s' = curr_ s /\ source_ s' = source_ s.

Lemma frame_refl s : frame s s.
Proof. split; reflexivity. Qed.

Lemma frame_trans s1 s2 s3 : frame s1 s2 -> frame s2 s3 -> frame s1 s3.
Proof. unfold frame. intuition congruence. Qed.
Create HintDb scanner.
#[export] Hint Resolve frame_refl : core.
#[export] Hint Resolve frame_trans : scanner.

Lemma schar_ascii b : 0 <= b < 128 -> schar b = b.
Proof. intros. apply wraps_small; unfold is_sint; simpl; lia. Qed.

Lemma schar_high b : 128 <= b < 256 -> schar b = b - 256.
Proof.
  intros. unfold schar, wraps. change (2 ^ (8 - 1)) with 128. change (2 ^ 8) with 256.
  replace (b + 128) with (b - 128 + 1 * 256) by lia.
  rewrite Z_mod_plus_full, Z.mod_small by lia. lia.
Qed.

Lemma schar_not_end b : byte_ok b -> schar b <> kEndOfInput.
Proof.
  unfold byte_ok, kEndOfInput. intros Hb.
  destruct (Z_lt_le_dec b 128); [rewrite schar_ascii by lia|rewrite schar_high by lia]; lia.
Qed.

Lemma schar_eqb b k : byte_ok b -> 0 <= k < 128 -> (schar b =? k) = (b =? k).
Proof.
  unfold byte_ok. intros Hb Hk.
  destruct (Z_lt_le_dec b 128); [by rewrite schar_ascii by lia|].
  rewrite schar_high by lia. bsolve. done.
Qed.

Lemma schar_in_range b lo hi :
  byte_ok b -> 0 <= lo -> hi < 128 -> IsInRange (schar b) lo hi = IsInRange b lo hi.
Proof.
  unfold byte_ok, IsInRange. intros Hb Hlo Hhi. rewrite !Z.geb_leb.
  destruct (Z_lt_le_dec b 128); [by rewrite schar_ascii by lia|].
  rewrite schar_high by lia. bsolve. by rewrite andb_false_r.
Qed.

Lemma schar_IsDigit b : byte_ok b -> IsDigit (schar b) = IsDigit b.
Proof. intros. apply schar_in_range; auto; ascii. Qed.

Lemma schar_IsIdentifierChar b : byte_ok b -> IsIdentifierChar (schar b) = IsIdentifierChar b.
Proof.
  intros. unfold IsIdentifierChar, IsAlpha.
  rewrite !schar_in_range, schar_IsDigit, schar_eqb by (auto; ascii).
  done.
Qed.

Lemma wrapu_schar b : byte_ok b -> wrapu 8 (schar b) = b.
Proof.
  intros. unfold schar. rewrite wrapu_wraps by lia. apply wrapu_small.
  unfold byte_ok, is_uint in *. simpl. lia.
Qed.

Lemma hd_c0_eqb r k :
  Forall byte_ok r -> 0 <= k < 128 -> (hd_c0 r =? k) = next_is (fun c => c =? k) r.
Proof.
  intros Hr Hk. destruct r as [|b r]; simpl.
  - unfold kEndOfInput. bsolve. done.
  - inversion_clear Hr. by apply schar_eqb.
Qed.

Lemma hd_c0_digit r : Forall byte_ok r -> IsDigit (hd_c0 r) = next_is IsDigit r.
Proof. intros Hr. destruct Hr; simpl; [done|by apply schar_IsDigit]. Qed.

Lemma hd_c0_ident r : Forall byte_ok r -> IsIdentifierChar (hd_c0 r) = next_is IsIdentifierChar r.
Proof. intros Hr. destruct Hr; simpl; [done|by apply schar_IsIdentifierChar]. Qed.

(** * One character *)

Lemma view_bytes s r : view s r -> Forall byte_ok r.
Proof. by intros (_ & _ & ? & _). Qed.

Lemma view_c0 s r : view s r -> c0_ s = hd_c0 r.
Proof. by intros (_ & ? & _ & _). Qed.

Lemma view_length s r : view s r -> (length r <= chars_left s)%nat.
Proof.
  intros (Ho & _ & _ & Hr). unfold chars_left, source_len_ in *. destruct r; simpl; [lia|].
  subst. rewrite length_drop. lia.
Qed.

Lemma Advance_frame s : frame s (Advance s) /\ next_ (Advance s) = next_ s.
Proof. unfold Advance, frame. by destruct (Nat.eqb _ _). Qed.

Lemma Advance_view s r : view s r -> view (Advance s) (tail r).
Proof.
  intros (Ho & Hc & Hb & Hr). unfold Advance, view, source_len_ in *.
  destruct (Nat.eqb_spec (offset_ s) (length (source_ s))) as [He|He]; simpl.
  - destruct r as [|b r]; simpl in *; [auto|]. subst r. rewrite He, drop_all in *.
    repeat split; simpl; auto; lia.
  - destruct r as [|b r]; [congruence|]. inversion Hb as [|? ? Hb1 Hb2]; subst. simpl.
    destruct (drop (offset_ s) (source_ s)) as [|c l] eqn:E.
    { apply (f_equal length) in E. rewrite length_drop in E. simpl in E. lia. }
    assert (source_ s !! offset_ s = Some c) as Hl.
    { rewrite <- (Nat.add_0_r (offset_ s)), <- lookup_drop, E. done. }
    repeat split; auto.
    + lia.
    + simpl. by rewrite (nth_lookup_Some _ _ _ _ Hl).
    + apply (f_equal (drop 1)) in E. rewrite drop_drop in E. simpl in E.
      rewrite drop_0 in E. replace (offset_ s + 1)%nat with (S (offset_ s)) in E by lia. done.
Qed.

Lemma Advance_view_cons s b r : view s (b :: r) -> view (Advance s) r.
Proof. apply Advance_view. Qed.
#[export] Hint Resolve Advance_view_cons : scanner.

Lemma append_c0_view s r : view s r -> view (append_c0 s) r.
Proof. done. Qed.

Lemma view_set_next s r d : view s r -> view (set_next d s) r.
Proof. done. Qed.

(** * The character loops *)

Lemma Collect_loop_spec p w : forall fuel s r,
  (length w <= fuel)%nat -> view s (w ++ r) ->
  Forall (fun b => p (schar b) = true) w -> p (hd_c0 r) = false ->
  let s' := Collect_loop fuel p s in
  view s' r /\ frame s s' /\ literal (next_ s') = literal (next_ s) ++ w.
Proof.
  induction w as [|b w IH]; intros fuel s r Hf Hv Hw Hp; simpl in *.
  - assert (Collect_loop fuel p s = s) as ->.
    { destruct fuel; simpl; [done|]. by rewrite (view_c0 _ _ Hv), Hp. }
    rewrite app_nil_r. auto.
  - destruct fuel as [|fuel]; [lia|]. inversion_clear Hw. simpl.
    pose proof (view_bytes _ _ Hv) as Hb. inversion_clear Hb.
    rewrite (view_c0 _ _ Hv). simpl. rewrite H.
    destruct (IH fuel (Advance (append_c0 s)) r) as (Hv' & Hfr & Hl); auto; [lia| |].
    { eapply Advance_view_cons. apply append_c0_view. apply Hv. }
    split; [done|]. destruct (Advance_frame (append_c0 s)) as [F N]. split.
    + eapply frame_trans; [|apply Hfr]. eapply frame_trans; [|apply F]. split; done.
    + rewrite Hl, N. simpl. rewrite (view_c0 _ _ Hv). simpl.
      rewrite wrapu_schar by done. by rewrite <- app_assoc.
Qed.

Lemma Collect_spec p w s r :
  view s (w ++ r) -> Forall (fun b => p (schar b) = true) w -> p (hd_c0 r) = false ->
  let s' := Collect p s in
  view s' r /\ frame s s' /\ literal (next_ s') = literal (next_ s) ++ w.
Proof.
  intros Hv. apply Collect_loop_spec; [|done].
  apply view_length in Hv. rewrite length_app in Hv. lia.
Qed.

Lemma SkipWhiteSpace_loop_spec r : forall fuel s,
  (length r <= fuel)%nat -> view s r ->
  let s' := SkipWhiteSpace_loop fuel s in
  view s' (skip_space r) /\ frame s s' /\ next_ s' = next_ s.
Proof.
  induction r as [|b r IH]; intros fuel s Hf Hv.
  - assert (SkipWhiteSpace_loop fuel s = s) as ->; [|auto].
    destruct fuel; simpl; [done|]. by rewrite (view_c0 _ _ Hv).
  - destruct fuel as [|fuel]; simpl in Hf; [lia|]. simpl.
    pose proof (view_bytes _ _ Hv) as Hb. inversion_clear Hb as [|? ? Hb1 Hb2].
    rewrite (view_c0 _ _ Hv). simpl. rewrite !schar_eqb by (auto; lia). unfold is_space.
    destruct ((b =? 32) || (b =? 13) || (b =? 9)) eqn:E1.
    + destruct (Advance_frame s) as [F N].
      destruct (IH fuel (Advance s)) as (? & ? & Hn); [lia|eauto with scanner|].
      simpl. rewrite Hn. eauto using frame_trans.
    + destruct (b =? 10) eqn:E2; simpl; [|auto].
      set (s1 := set_c0_pos _ s). destruct (Advance_frame s1) as [F N].
      destruct (IH fuel (Advance s1)) as (? & ? & Hn); [lia|eapply Advance_view_cons, Hv|].
      simpl. rewrite Hn, N. split; [done|]. split; [|done].
      eapply frame_trans; [|done]. eapply frame_trans; [|apply F]. done.
Qed.

(** The text from the first byte that satisfies [p]. *)
Fixpoint until (p : Z -> bool) (t : list Z) : list Z :=
  match t with
  | [] => []
  | b :: t' => if p b then t else until p t'
  end.

Lemma AdvanceUntil_loop_spec k r : forall fuel s,
  0 <= k < 128 -> (length r <= fuel)%nat -> view s r ->
  let s' := AdvanceUntil_loop fuel (fun c => c =? k) s in
  view s' (until (fun c => c =? k) r) /\ frame s s' /\ next_ s' = next_ s.
Proof.
  induction r as [|b r IH]; intros fuel s Hk Hf Hv.
  - assert (AdvanceUntil_loop fuel (fun c => c =? k) s = s) as ->; [|auto].
    destruct fuel; simpl; [done|]. by rewrite (view_c0 _ _ Hv).
  - destruct fuel as [|fuel]; simpl in Hf; [lia|]. simpl.
    pose proof (view_bytes _ _ Hv) as Hb. inversion_clear Hb as [|? ? Hb1 Hb2].
    rewrite (view_c0 _ _ Hv). simpl. rewrite (proj2 (Z.eqb_neq _ _) (schar_not_end _ Hb1)), schar_eqb by auto. simpl.
    destruct (b =? k); simpl; [auto|].
    destruct (Advance_frame s) as [F N].
    destruct (IH fuel (Advance s)) as (? & ? & Hn); [auto|lia|eauto with scanner|].
    rewrite Hn. eauto using frame_trans.
Qed.

Lemma AdvanceUntil_spec k s r :
  0 <= k < 128 -> view s r ->
  let s' := AdvanceUntil (fun c => c =? k) s in
  view s' (until (fun c => c =? k) r) /\ frame s s' /\ next_ s' = next_ s.
Proof. intros. apply AdvanceUntil_loop_spec; eauto using view_length. Qed.

Lemma until_length p r : (length (until p r) <= length r)%nat.
Proof. induction r; simpl; [lia|]. destruct (p a); simpl; lia. Qed.

Lemma skip_space_length r : (length (skip_space r) <= length r)%nat.
Proof. induction r; simpl; [lia|]. destruct (is_space a); simpl; lia. Qed.

Lemma skip_line_until r : skip_line r = until (fun c => c =? kNewLine) r.
Proof. induction r; simpl; [done|]. by rewrite IHr. Qed.

Fixpoint stars (t : list Z) : bool * list Z :=
  match t with
  | [] => (false, [])
  | b :: t' =>
      if b =? ch "*" then
        if next_is (fun c => c =? ch "/") t' then (true, tail t') else stars t'
      else (false, t)
  end.

Lemma skip_block_length r : (length (skip_block r) <= length r)%nat.
Proof.
  induction r as [|b r IH]; simpl; [lia|].
  destruct (_ && _); simpl; [destruct r; simpl in *; lia|lia].
Qed.

Lemma skip_block_until r : skip_block (until (fun c => c =? ch "*") r) = skip_block r.
Proof.
  induction r as [|b r IH]; simpl; [done|]. destruct (b =? ch "*") eqn:E; simpl; rewrite ?E; done.
Qed.

Lemma skip_block_stars r :
  skip_block r = (if fst (stars r) then snd (stars r) else skip_block (snd (stars r))).
Proof.
  induction r as [|b r IH]; simpl; [done|]. destruct (b =? ch "*") eqn:E; simpl; rewrite ?E; simpl.
  - destruct (next_is _ r); simpl; auto.
  - done.
Qed.

Lemma stars_length r : (length (snd (stars r)) <= length r)%nat.
Proof.
  induction r as [|b r IH]; simpl; [lia|]. destruct (b =? ch "*"); simpl; [|lia].
  destruct (next_is _ r); simpl; [destruct r; simpl; lia|lia].
Qed.

Lemma stars_until_length r :
  (length (snd (stars (until (fun c => Z.eqb c (ch "*")) r))) <= pred (length r))%nat.
Proof.
  induction r as [|b r IH]; simpl; [lia|]. destruct (b =? ch "*") eqn:E; simpl.
  - rewrite E. destruct (next_is _ r); simpl.
    + destruct r; simpl; lia.
    + apply stars_length.
  - lia.
Qed.

Lemma SkipStars_loop_spec r : forall fuel s,
  (length r <= fuel)%nat -> view s r ->
  let '(b, s') := SkipStars_loop fuel s in
  b = fst (stars r) /\ view s' (snd (stars r)) /\ frame s s' /\ next_ s' = next_ s.
Proof.
  induction r as [|b r IH]; intros [|fuel] s Hf Hv; simpl in *; try lia; auto.
  - rewrite (view_c0 _ _ Hv). simpl. auto.
  - pose proof (view_bytes _ _ Hv) as Hb. inversion_clear Hb as [|? ? Hb1 Hb2].
    rewrite (view_c0 _ _ Hv). simpl. rewrite schar_eqb by (auto; ascii).
    destruct (b =? ch "*"); [|auto].
    destruct (Advance_frame s) as [F N].
    assert (view (Advance s) r) as Hv1 by eauto with scanner.
    rewrite (view_c0 _ _ Hv1), hd_c0_eqb by (auto; ascii).
    destruct (next_is _ r); simpl.
    + destruct (Advance_frame (Advance s)) as [F' N'].
      rewrite N'. eauto 6 using Advance_view, frame_trans.
    + specialize (IH fuel (Advance s) ltac:(lia) Hv1).
      destruct (SkipStars_loop fuel (Advance s)) as [c s'].
      destruct IH as (? & ? & ? & Hn). rewrite Hn. eauto using frame_trans.
Qed.

Lemma SkipBlockComment_loop_S fuel s :
  SkipBlockComment_loop (S fuel) s =
  if negb (c0_ s =? kEndOfInput) then
    let s1 := AdvanceUntil (fun c => c =? ch "*") s in
    let '(closed, s2) := SkipStars_loop (chars_left s1) s1 in
    if closed then s2 else SkipBlockComment_loop fuel s2
  else s.
Proof. reflexivity. Qed.

Lemma SkipBlockComment_loop_spec : forall fuel r s,
  (length r <= fuel)%nat -> view s r ->
  let s' := SkipBlockComment_loop fuel s in
  view s' (skip_block r) /\ frame s s' /\ next_ s' = next_ s.
Proof.
  induction fuel as [|fuel IH]; intros [|b r] s Hf Hv; simpl in Hf; try lia;
    [auto|..]; cbv zeta; rewrite SkipBlockComment_loop_S, (view_c0 _ _ Hv).
  - auto.
  - pose proof (view_bytes _ _ Hv) as Hb. inversion_clear Hb as [|? ? Hb1 Hb2].
    cbn [hd_c0]. rewrite (proj2 (Z.eqb_neq _ _) (schar_not_end _ Hb1)). cbn [negb].
    destruct (AdvanceUntil_spec (ch "*") s (b :: r)) as (Hv1 & F1 & N1);
      [ascii|done|].
    pose proof (stars_until_length (b :: r)) as Hl. pose proof (skip_block_stars
      (until (fun c => c =? ch "*") (b :: r))) as Hsb. rewrite skip_block_until in Hsb.
    set (s1 := AdvanceUntil _ s) in *. set (r1 := until _ (b :: r)) in *.
    pose proof (SkipStars_loop_spec r1 _ s1 (view_length _ _ Hv1) Hv1) as Hs.
    destruct (SkipStars_loop (chars_left s1) s1) as [c s2].
    destruct Hs as (-> & Hv2 & F2 & N2).
    rewrite Hsb.
    assert (frame s s2) by eauto using frame_trans.
    assert (next_ s2 = next_ s) by congruence.
    destruct (fst (stars r1)); [auto|].
    destruct (IH (snd (stars r1)) s2) as (? & ? & Hn); [simpl in Hl; lia|done|].
    split; [done|]. split; [|congruence]. eauto using frame_trans.
Qed.

Lemma SkipWhiteSpace_spec s r :
  view s r ->
  let s' := SkipWhiteSpace s in
  view s' (skip_space r) /\ frame s s' /\ next_ s' = next_ s.
Proof. intros. apply SkipWhiteSpace_loop_spec; eauto using view_length. Qed.

Lemma SkipLineComment_spec s r :
  view s r ->
  let s' := SkipLineComment s in
  view s' (skip_line r) /\ frame s s' /\ next_ s' = next_ s.
Proof. intros. rewrite skip_line_until. apply AdvanceUntil_spec; [done|done]. Qed.

Lemma SkipBlockComment_spec s r :
  view s r ->
  let s' := SkipBlockComment s in
  view s' (skip_block r) /\ frame s s' /\ next_ s' = next_ s.
Proof. intros. apply SkipBlockComment_loop_spec; eauto using view_length. Qed.

(** * Words and keywords *)

Lemma assoc_app w l1 l2 :
  assoc w (l1 ++ l2) = match assoc w l1 with Some t => Some t | None => assoc w l2 end.
Proof. induction l1 as [|[k t] l1 IH]; simpl; [done|]. by destruct (decide (w = k)). Qed.

Lemma assoc_Some w l t : assoc w l = Some t -> (w, t) ∈ l.
Proof.
  induction l as [|[k t'] l IH]; simpl; [done|]. destruct (decide (w = k)); intros.
  - simplify_eq. constructor.
  - constructor. auto.
Qed.

Lemma assoc_None w l : Forall (fun kt => w <> fst kt) l -> assoc w l = None.
Proof. induction 1 as [|[k t] l Hk _ IH]; simpl in *; [done|]. by rewrite decide_False. Qed.

(** The character-by-character test is equality of words. *)
Lemma group_elem_spec str input :
  nth 0 input 0 = nth 0 str 0 -> (2 <= length str <= 6)%nat ->
  group_elem_matches str input = bool_decide (input = str).
Proof.
  intros H0 Hl. unfold group_elem_matches.
  destruct (Nat.eqb_spec (length str) (length input)) as [El|El]; simpl.
  2: { symmetry. apply bool_decide_false. congruence. }
  destruct str as [|? [|? [|? [|? [|? [|? [|? str]]]]]]]; simpl in Hl; try lia;
    repeat (destruct input as [|? input]; simpl in El; try lia); simpl in H0; subst;
    unfold char_eq; simpl;
    match goal with |- ?b = _ => destruct b eqn:E end; symmetry;
    try (apply bool_decide_true; bprop; congruence);
    apply bool_decide_false; intros ?; simplify_eq; rewrite ?Z.eqb_refl in E; done.
Qed.

Definition group_ok (g : Z * list (list Z * TokenType)) : Prop :=
  Forall (fun kt => nth 0 (fst kt) 0 = fst g /\ (2 <= length (fst kt) <= 6)%nat) (snd g).

Lemma group_lookup_spec c group w :
  group_ok (c, group) -> nth 0 w 0 = c ->
  group_lookup group w = default IDENTIFIER (assoc w group).
Proof.
  unfold group_ok. simpl. intros Hg Hc.
  induction Hg as [|[k t] g [Hk Hl] _ IH]; simpl in *; [done|].
  rewrite group_elem_spec by (congruence || lia).
  case_bool_decide; case_decide; auto; contradiction.
Qed.

Lemma switch_first_spec groups w :
  Forall group_ok groups -> NoDup (map fst groups) ->
  switch_first groups w = default IDENTIFIER (assoc w (concat (map snd groups))).
Proof.
  induction groups as [|[c g] groups IH]; intros Hg Hn; simpl; [done|].
  inversion_clear Hg as [|? ? Hg1 Hg2]. inversion_clear Hn as [|? ? Hn1 Hn2].
  rewrite assoc_app. destruct (Z.eqb_spec (nth 0 w 0) c) as [E|E].
  - rewrite (group_lookup_spec c) by done. destruct (assoc w g); [done|].
    rewrite assoc_None; [done|]. apply Forall_concat, Forall_map, Forall_forall.
    intros [c' g'] Hin. simpl. rewrite Forall_forall in Hg2. specialize (Hg2 _ Hin).
    eapply Forall_impl; [apply Hg2|]. simpl. intros kt [Hk _] ->.
    apply Hn1. apply list_elem_of_In, in_map_iff. exists (c', g').
    split; [simpl; congruence|by apply list_elem_of_In].
  - rewrite IH by done. rewrite (assoc_None w g); [done|].
    eapply Forall_impl; [apply Hg1|]. simpl. intros kt [Hk _] ->. auto.
Qed.

Lemma keyword_table_ok :
  Forall (fun kt => IsInRange (nth 0 (fst kt) 0) (ch "a") (ch "z") = true /\
                    (2 <= length (fst kt) <= 6)%nat /\
                    Forall (fun c => IsIdentifierChar c = true) (fst kt) /\
                    boundary (snd kt) = boundary IDENTIFIER /\ snd kt <> EOS /\ snd kt <> WHITESPACE)
    keyword_table.
Proof. repeat constructor; simpl; try lia; done. Qed.

(** The hand-unrolled keyword test is the table lookup. *)
Lemma CheckIdentifierOrKeyword_spec w :
  CheckIdentifierOrKeyword w = default IDENTIFIER (keyword_of w).
Proof.
  unfold CheckIdentifierOrKeyword, keyword_of, kMinKeywordLen, kMaxKeywordLen.
  destruct (_ || _) eqn:E.
  - rewrite assoc_None; [done|]. eapply Forall_impl; [apply keyword_table_ok|].
    simpl. intros kt (_ & Hl & _) ->.
    apply orb_true_iff in E. rewrite !Nat.ltb_lt in E. lia.
  - apply switch_first_spec; [|by apply (bool_decide_unpack _); vm_compute].
    repeat constructor; simpl; lia || done.
Qed.

Lemma keyword_of_Some w t :
  keyword_of w = Some t ->
  IsInRange (nth 0 w 0) (ch "a") (ch "z") = true /\ w <> [] /\
  Forall (fun c => IsIdentifierChar c = true) w /\
  boundary t = boundary IDENTIFIER /\ t <> EOS /\ t <> WHITESPACE.
Proof.
  intros H. apply assoc_Some in H. pose proof keyword_table_ok as Hk.
  rewrite Forall_forall in Hk. specialize (Hk _ H). simpl in Hk.
  destruct Hk as (? & Hl & ? & ? & ? & ?). repeat split; auto.
  intros ->. simpl in Hl. lia.
Qed.

(** The first character of a word, and what the scanner answers. *)
Definition word_type (w : list Z) : TokenType := default IDENTIFIER (keyword_of w).

Lemma ScanIdentifierOrKeyword_spec s w r :
  w <> [] -> Forall (fun c => IsIdentifierChar c = true) w ->
  next_is IsIdentifierChar r = false -> view s (w ++ r) -> literal (next_ s) = [] ->
  let '(t, s') := ScanIdentifierOrKeyword s in
  t = word_type w /\ view s' r /\ frame s s' /\ literal (next_ s') = w.
Proof.
  intros Hw Hi Hr Hv Hl. unfold ScanIdentifierOrKeyword.
  pose proof (view_bytes _ _ Hv) as Hb. apply Forall_app in Hb as [Hbw Hbr].
  destruct (Collect_spec (fun c => IsIdentifierChar c && negb (c =? kEndOfInput)) w s r)
    as (Hv' & Hf & Hl'); [done| | |].
  { rewrite Forall_forall in *. intros c Hc. rewrite schar_IsIdentifierChar, (Hi c) by auto.
    simpl. apply negb_true_iff, Z.eqb_neq, schar_not_end; auto. }
  { by rewrite hd_c0_ident, Hr. }
  set (s1 := Collect _ s) in *. rewrite Hl, app_nil_l in Hl'.
  destruct w as [|b w]; [done|].
  rewrite (view_c0 _ _ Hv). simpl hd_c0. inversion_clear Hbw as [|? ? Hb1 _].
  rewrite schar_eqb, schar_in_range by (auto; ascii).
  destruct (_ || _) eqn:E; [|by rewrite Hl', CheckIdentifierOrKeyword_spec].
  split; [|auto]. unfold word_type.
  destruct (keyword_of (b :: w)) eqn:Ek; [|done].
  apply keyword_of_Some in Ek as [Ek _]. simpl in Ek. unfold IsInRange in *.
  apply orb_true_iff in E as [E|E]; [apply Z.eqb_eq in E; by subst b|].
  rewrite !Z.geb_leb in *. bprop. unfold ch in *. simpl in *. lia.
Qed.

(** * One run of the switch *)

(** What one run of the switch achieves: the token, the text left, the literal. *)
Definition scans (s : Scanner) (res : TokenType * Scanner) (t : TokenType) (r l : list Z) : Prop :=
  fst res = t /\ view (snd res) r /\ frame s (snd res) /\ literal (next_ (snd res)) = l.

Lemma scans_intro s t s' r l :
  view s' r -> frame s s' -> literal (next_ s') = l -> scans s (t, s') t r l.
Proof. done. Qed.

Lemma Advance_scans s b r t : view s (b :: r) -> literal (next_ s) = [] ->
  scans s (t, Advance s) t r [].
Proof.
  intros Hv Hl. destruct (Advance_frame s) as [F N].
  apply scans_intro; eauto with scanner. by rewrite N.
Qed.

Lemma Matches_spec k s r : view s r -> 0 <= k < 128 ->
  Matches k s = (next_is (fun c => c =? k) r,
                 if next_is (fun c => c =? k) r then Advance s else s).
Proof.
  intros Hv Hk. unfold Matches. rewrite (view_c0 _ _ Hv), hd_c0_eqb by eauto using view_bytes.
  by destruct (next_is _ r).
Qed.

Lemma ScanNumber_int s w r :
  Forall (fun c => IsDigit c = true) w ->
  next_is (fun c => IsDigit c || (c =? ch ".")) r = false ->
  view s (w ++ r) -> literal (next_ s) = [] -> scans s (ScanNumber s) INTEGER r w.
Proof.
  intros Hw Hr Hv Hl. unfold ScanNumber.
  pose proof (view_bytes _ _ Hv) as Hb. apply Forall_app in Hb as [Hbw Hbr].
  assert (next_is IsDigit r = false /\ next_is (fun c => c =? ch ".") r = false) as [Hd Hp].
  { destruct r; simpl in *; [done|]. by apply orb_false_iff in Hr. }
  destruct (Collect_spec IsDigit w s r) as (Hv' & Hf & Hl'); [done| |by rewrite hd_c0_digit|].
  { rewrite Forall_forall in *. intros. rewrite schar_IsDigit; auto. }
  rewrite (view_c0 _ _ Hv'), hd_c0_eqb, Hp by (auto; ascii).
  apply scans_intro; auto. by rewrite Hl', Hl.
Qed.

Lemma ScanNumber_float s w f r :
  Forall (fun c => IsDigit c = true) w -> Forall (fun c => IsDigit c = true) f ->
  next_is IsDigit r = false ->
  view s (w ++ bytes "." ++ f ++ r) -> literal (next_ s) = [] ->
  scans s (ScanNumber s) FLOAT r (w ++ bytes "." ++ f).
Proof.
  intros Hw Hfl Hr Hv Hl. unfold ScanNumber.
  pose proof (view_bytes _ _ Hv) as Hb. rewrite !Forall_app in Hb.
  destruct Hb as (Hbw & _ & Hbf & Hbr).
  destruct (Collect_spec IsDigit w s (bytes "." ++ f ++ r)) as (Hv' & Hf & Hl'); [done| |done|].
  { rewrite Forall_forall in *. intros. rewrite schar_IsDigit; auto. }
  rewrite (view_c0 _ _ Hv').
  change (hd_c0 (bytes "." ++ f ++ r) =? ch ".") with true. cbv iota.
  set (s1 := Collect IsDigit s) in *. set (s2 := set_next_literal _ s1).
  assert (view (Advance s2) (f ++ r)) as Hv2 by (eapply Advance_view_cons; apply Hv').
  destruct (Advance_frame s2) as [F N].
  destruct (Collect_spec IsDigit f (Advance s2) r) as (Hv3 & Hf3 & Hl3);
    [done| |by rewrite hd_c0_digit|].
  { rewrite Forall_forall in *. intros. rewrite schar_IsDigit; auto. }
  apply scans_intro; [done|..].
  - eapply frame_trans; [apply Hf|]. eapply frame_trans; [|apply Hf3].
    eapply frame_trans; [|apply F]. done.
  - rewrite Hl3, N. simpl. by rewrite Hl', Hl, <- app_assoc.
Qed.

Lemma ScanString_loop_spec w : forall fuel b s r,
  (length w < fuel)%nat -> view s (b :: w ++ 34 :: r) -> string_tail (b =? 92) w ->
  scans s (ScanString_loop fuel s) STRING r (literal (next_ s) ++ b :: w).
Proof.
  induction w as [|c w IH]; intros [|fuel] b s r Hf Hv Hs; simpl in Hf; try lia.
  all: pose proof (view_bytes _ _ Hv) as Hb; inversion_clear Hb as [|? ? Hb1 Hb2]; simpl.
  all: rewrite (view_c0 _ _ Hv); simpl hd_c0.
  all: rewrite (proj2 (Z.eqb_neq _ _) (schar_not_end _ Hb1)), schar_eqb by (auto; ascii).
  all: set (s1 := append_c0 s); destruct (Advance_frame s1) as [F N].
  all: assert (frame s (Advance s1)) as F' by (eapply frame_trans; [|apply F]; done).
  all: assert (literal (next_ (Advance s1)) = literal (next_ s) ++ [b]) as Hl
         by (rewrite N; simpl; rewrite (view_c0 _ _ Hv); simpl; by rewrite wrapu_schar).
  all: simpl in Hv; apply (append_c0_view s), Advance_view_cons in Hv; fold s1 in Hv.
  - rewrite (view_c0 _ _ Hv). change (hd_c0 (34 :: r) =? 34) with true. simpl in Hs. rewrite Hs.
    simpl. destruct (Advance_frame (Advance s1)) as [F2 N2].
    apply scans_intro; [eauto with scanner..|]. by rewrite N2.
  - destruct Hs as [Hq Hs]. rewrite (view_c0 _ _ Hv). inversion_clear Hb2.
    simpl hd_c0. rewrite schar_eqb by (auto; ascii).
    replace ((c =? 34) && negb (b =? 92)) with false.
    + destruct (IH fuel c (Advance s1) r) as (? & ? & ? & Hl'); auto; [lia|].
      split; [done|]. rewrite Hl', Hl, <- app_assoc. eauto with scanner.
    + symmetry. destruct (Z.eqb_spec c 34); [|done]. by rewrite Hq.
Qed.

(** Compute the comparisons of [ScanSwitch] with a known lookahead. *)
Ltac run_eqb :=
  repeat match goal with
  | |- context [?a =? ?b] =>
      let v := eval vm_compute in (a =? b) in
      first [ constr_eq v true; change (a =? b) with true
            | constr_eq v false; change (a =? b) with false ]; cbv iota
  end.

(** The same when the lookahead is only known to differ from every case. *)
Ltac ne_char H :=
  repeat match goal with
  | |- context [?b =? ?k] =>
      rewrite (proj2 (Z.eqb_neq b k)) by (intros ?; subst; vm_compute in H; discriminate)
  end.

Lemma Advance2_scans s b c r t : view s (b :: c :: r) -> literal (next_ s) = [] ->
  scans s (t, Advance (Advance s)) t r [].
Proof.
  intros Hv Hl. destruct (Advance_frame s) as [F N]. destruct (Advance_frame (Advance s)) as [F' N'].
  apply scans_intro; eauto with scanner. by rewrite N', N.
Qed.

Lemma next_is_or p q r :
  next_is (fun c => p c || q c) r = false -> next_is p r = false /\ next_is q r = false.
Proof. destruct r; simpl; [done|]. by intros ?%orb_false_iff. Qed.

(** Resolve the [Matches] calls that follow a character. *)
Ltac run_matches Hv1 :=
  repeat (rewrite (Matches_spec _ _ _ Hv1) by ascii; cbn [next_is];
          try match goal with H : next_is _ _ = false |- _ => rewrite H end; run_eqb).

Lemma ScanSwitch_punct s t w r :
  t ∈ punctuation -> GetString t = Some w -> boundary t r = true ->
  view s (w ++ r) -> literal (next_ s) = [] -> scans s (ScanSwitch s) t r [].
Proof.
  intros Ht Hw Hr Hv Hl. pose proof (view_bytes _ _ Hv) as Hb.
  assert (Forall byte_ok r) as Hbr by (apply Forall_app in Hb; apply Hb).
  assert (forall b r', view s (b :: r') -> view (Advance s) r') as Hv1 by eauto with scanner.
  unfold punctuation in Ht. repeat (apply elem_of_cons in Ht as [->|Ht]); [..|by apply elem_of_nil in Ht];
    simpl in Hw; injection Hw as <-; simpl in Hv; simpl boundary in Hr;
    try apply negb_true_iff in Hr; specialize (Hv1 _ _ Hv);
    unfold ScanSwitch; rewrite (view_c0 _ _ Hv); simpl hd_c0; run_eqb;
    try (rewrite (view_c0 _ _ Hv1), hd_c0_ident, Hr by done; by eapply Advance_scans);
    try apply next_is_or in Hr as [Hr Hr'];
    try run_matches Hv1; first [by eapply Advance_scans | by eapply Advance2_scans].
Qed.

Lemma ScanSwitch_space s b r :
  is_space b = true -> view s (b :: r) -> literal (next_ s) = [] ->
  scans s (ScanSwitch s) WHITESPACE (skip_space r) [].
Proof.
  intros Hs Hv Hl.
  destruct (SkipWhiteSpace_spec s (b :: r) Hv) as (Hv' & Hf & Hn).
  cbn [skip_space] in Hv'. rewrite Hs in Hv'.
  assert (b = 32 \/ b = 13 \/ b = 9 \/ b = 10) as Hb.
  { unfold is_space in Hs. rewrite !orb_true_iff, !Z.eqb_eq in Hs. lia. }
  unfold ScanSwitch. rewrite (view_c0 _ _ Hv). cbn [hd_c0].
  destruct Hb as [->|[->|[->| ->]]]; run_eqb; apply scans_intro; auto; by rewrite Hn.
Qed.

Lemma ScanSwitch_comment s c r (skip : list Z -> list Z) :
  (c = ch "/" /\ skip = skip_line) \/ (c = ch "*" /\ skip = skip_block) ->
  view s (ch "/" :: c :: r) -> literal (next_ s) = [] ->
  scans s (ScanSwitch s) WHITESPACE (skip r) [].
Proof.
  intros Hc Hv Hl. assert (view (Advance s) (c :: r)) as Hv1 by eauto with scanner.
  assert (view (Advance (Advance s)) r) as Hv2 by eauto with scanner.
  destruct (Advance_frame s) as [F N]. destruct (Advance_frame (Advance s)) as [F' N'].
  unfold ScanSwitch. rewrite (view_c0 _ _ Hv). cbn [hd_c0]. run_eqb.
  destruct Hc as [[-> ->]|[-> ->]]; run_matches Hv1.
  - destruct (SkipLineComment_spec _ _ Hv2) as (Hv3 & F3 & N3).
    apply scans_intro; [done|eauto using frame_trans|]. by rewrite N3, N', N.
  - destruct (SkipBlockComment_spec _ _ Hv2) as (Hv3 & F3 & N3).
    apply scans_intro; [done|eauto using frame_trans|]. by rewrite N3, N', N.
Qed.

Lemma ScanSwitch_word s w r :
  ident_text w -> next_is IsIdentifierChar r = false -> view s (w ++ r) ->
  literal (next_ s) = [] -> scans s (ScanSwitch s) (word_type w) r w.
Proof.
  intros Hw Hr Hv Hl. destruct w as [|b w]; [done|]. destruct Hw as [Hd Hi].
  pose proof (ScanIdentifierOrKeyword_spec s (b :: w) r ltac:(done) Hi Hr Hv Hl) as Hs.
  inversion_clear Hi as [|? ? Hb1 _].
  pose proof (view_bytes _ _ Hv) as Hb. inversion_clear Hb as [|? ? Hb2 _].
  assert (schar b = b) as Hsb.
  { unfold IsIdentifierChar, IsAlpha, IsDigit, IsInRange in Hb1. rewrite !Z.geb_leb in Hb1.
    apply schar_ascii. rewrite !orb_true_iff, !andb_true_iff, !Z.leb_le, Z.eqb_eq in Hb1.
    unfold ch in Hb1. simpl in Hb1. lia. }
  unfold ScanSwitch. rewrite (view_c0 _ _ Hv). cbn [app hd_c0]. rewrite Hsb.
  ne_char Hb1. rewrite Hd, Hb1. by destruct (ScanIdentifierOrKeyword s).
Qed.

Lemma ScanSwitch_number s b : view s b -> next_is IsDigit b = true -> ScanSwitch s = ScanNumber s.
Proof.
  intros Hv Hd. destruct b as [|b r]; [done|]. simpl in Hd.
  pose proof (view_bytes _ _ Hv) as Hb. inversion_clear Hb as [|? ? Hb2 _].
  assert (schar b = b) as Hsb.
  { unfold IsDigit, IsInRange in Hd. rewrite !Z.geb_leb in Hd. bprop.
    apply schar_ascii. unfold ch in *. simpl in *. lia. }
  unfold ScanSwitch. rewrite (view_c0 _ _ Hv). cbn [hd_c0]. rewrite Hsb.
  ne_char Hd. by rewrite Hd.
Qed.

Lemma ScanSwitch_builtin s w r :
  w <> [] -> Forall (fun c => IsIdentifierChar c = true) w ->
  next_is IsIdentifierChar r = false -> view s (ch "@" :: w ++ r) ->
  literal (next_ s) = [] -> scans s (ScanSwitch s) BUILTIN_IDENTIFIER r w.
Proof.
  intros Hw Hi Hr Hv Hl. assert (view (Advance s) (w ++ r)) as Hv1 by eauto with scanner.
  destruct (Advance_frame s) as [F N].
  unfold ScanSwitch. rewrite (view_c0 _ _ Hv). cbn [hd_c0]. run_eqb.
  rewrite (view_c0 _ _ Hv1), hd_c0_ident by eauto using view_bytes.
  assert (next_is IsIdentifierChar (w ++ r) = true) as ->.
  { destruct w; [done|]. by inversion_clear Hi. }
  pose proof (ScanIdentifierOrKeyword_spec (Advance s) w r Hw Hi Hr Hv1 ltac:(by rewrite N)) as Hs.
  destruct (ScanIdentifierOrKeyword (Advance s)) as [t s2]. destruct Hs as (_ & ? & ? & ?).
  apply scans_intro; eauto using frame_trans.
Qed.

Lemma ScanSwitch_string s w r :
  string_body w -> view s (34 :: (w ++ [34]) ++ r) -> literal (next_ s) = [] ->
  scans s (ScanSwitch s) STRING r w.
Proof.
  intros Hw Hv Hl. destruct w as [|b w]; [done|].
  assert (view (Advance s) (b :: w ++ 34 :: r)) as Hv1.
  { apply Advance_view_cons in Hv. by rewrite <- app_assoc in Hv. }
  destruct (Advance_frame s) as [F N].
  unfold ScanSwitch. rewrite (view_c0 _ _ Hv). cbn [hd_c0]. run_eqb. unfold ScanString.
  pose proof (view_length _ _ Hv1) as Hlen. simpl in Hlen. rewrite length_app in Hlen.
  destruct (ScanString_loop_spec w (S (chars_left (Advance s))) b (Advance s) r)
    as (Ht & ? & ? & Hl'); [lia|done|done|].
  split; [done|]. rewrite N, Hl in Hl'. eauto with scanner.
Qed.

Lemma ScanSwitch_token s t l w r :
  token_text t l w -> boundary t r = true -> view s (w ++ r) -> literal (next_ s) = [] ->
  scans s (ScanSwitch s) t r l.
Proof.
  intros Ht Hr Hv Hl. destruct Ht as [t w Hp Hg|w Hw Hk|t w Hk|w Hw Hi|w Hw Hd|w f Hw Hd Hf|w Hw].
  - by eapply ScanSwitch_punct.
  - replace IDENTIFIER with (word_type w) by (unfold word_type; by rewrite Hk).
    apply ScanSwitch_word; auto. by apply negb_true_iff.
  - replace t with (word_type w) by (unfold word_type; by rewrite Hk).
    apply keyword_of_Some in Hk as (Hr1 & Hw & Hi & Hb & _).
    apply ScanSwitch_word; auto.
    + destruct w as [|b w]; [done|]. split; [|done]. simpl in Hr1.
      unfold IsDigit, IsInRange in *. rewrite !Z.geb_leb in *. bprop.
      unfold ch in *. simpl in *. bsolve. by rewrite andb_false_r.
    + rewrite Hb in Hr. by apply negb_true_iff.
  - apply ScanSwitch_builtin; auto. by apply negb_true_iff.
  - erewrite ScanSwitch_number; [|done|].
    + apply ScanNumber_int; auto. by apply negb_true_iff.
    + destruct w; [done|]. by inversion_clear Hd.
  - rewrite <- !app_assoc in Hv. erewrite ScanSwitch_number; [|done|].
    + apply ScanNumber_float; auto. by apply negb_true_iff.
    + destruct w; [done|]. by inversion_clear Hd.
  - by apply ScanSwitch_string.
Qed.

(** * Scanning a source *)

(** The tokens still to come: the next token is already in [next_]. *)
Definition scanner_stream (s : Scanner) (ts : list (TokenType * list Z)) : Prop :=
  match ts with
  | [] => Peek s = EOS /\ view s []
  | (t, l) :: ts' =>
      Peek s = t /\ literal (next_ s) = l /\ t <> EOS /\ exists r, view s r /\ lex r ts'
  end.

Lemma token_text_facts t l w : token_text t l w -> w <> [] /\ t <> EOS /\ t <> WHITESPACE.
Proof.
  destruct 1 as [t w Hp Hg|w Hw Hk|t w Hk|w Hw Hi|w Hw Hd|w f Hw Hd Hf|w Hw]; try done.
  - unfold punctuation in Hp.
    repeat (apply elem_of_cons in Hp as [->|Hp]); [..|by apply elem_of_nil in Hp];
      simpl in Hg; by simplify_eq.
  - by destruct w.
  - by apply keyword_of_Some in Hk as (_ & ? & _ & _ & ? & ?).
  - by destruct w.
Qed.

Lemma lex_length r ts : lex r ts -> (length ts <= length r)%nat.
Proof.
  induction 1 as [|b r ts _ _ IH|r ts _ IH|r ts _ IH|t l w r ts Ht _ _ IH]; simpl.
  - lia.
  - pose proof (skip_space_length r). lia.
  - pose proof (until_length (fun c => c =? kNewLine) r). rewrite <- skip_line_until in H. lia.
  - pose proof (skip_block_length r). lia.
  - apply token_text_facts in Ht as [Ht _]. rewrite length_app. destruct w; [done|]. simpl. lia.
Qed.

Lemma Scan_loop_S fuel s :
  Scan_loop (S fuel) s =
  (let s0 := set_next (mkTokenDesc (type (next_ s)) (c0_pos_ s) (offset_ s)
                                   (literal (next_ s))) s in
   let '(t, s1) := ScanSwitch s0 in
   if decide (t = WHITESPACE) then Scan_loop fuel s1 else Some (set_next_type t s1)).
Proof. reflexivity. Qed.

(** The effect of one iteration of [Scan], given the effect of the switch. *)
Lemma Scan_loop_step fuel s t r r' l :
  view s r -> literal (next_ s) = [] ->
  (forall s0, view s0 r -> literal (next_ s0) = [] -> scans s0 (ScanSwitch s0) t r' l) ->
  exists s1, view s1 r' /\ frame s s1 /\ literal (next_ s1) = l /\
    Scan_loop (S fuel) s =
      if decide (t = WHITESPACE) then Scan_loop fuel s1 else Some (set_next_type t s1).
Proof.
  intros Hv Hl Hs. rewrite Scan_loop_S. cbv zeta.
  set (s0 := set_next _ s). destruct (Hs s0) as (Ht & Hv1 & Hf & Hl1); [done|done|].
  destruct (ScanSwitch s0) as [t' s1]. simpl in *. subst t'. exists s1. eauto.
Qed.

Lemma Scan_loop_lex : forall fuel r ts s,
  (length r < fuel)%nat -> lex r ts -> view s r -> literal (next_ s) = [] ->
  exists s', Scan_loop fuel s = Some s' /\ frame s s' /\ scanner_stream s' ts.
Proof.
  induction fuel as [|fuel IH]; intros r ts s Hf Hlex Hv Hl; [lia|].
  destruct Hlex as [|b r ts Hb Hlex|r ts Hlex|r ts Hlex|t l w r ts Ht Hb Hlex].
  - destruct (Scan_loop_step fuel s EOS [] [] []) as (s1 & Hv1 & Hf1 & Hl1 & ->); [done|done| |].
    { intros s0 Hv0 Hl0. unfold ScanSwitch. rewrite (view_c0 _ _ Hv0). cbn [hd_c0]. run_eqb.
      by apply scans_intro. }
    simpl. eauto.
  - destruct (Scan_loop_step fuel s WHITESPACE (b :: r) (skip_space r) [])
      as (s1 & Hv1 & Hf1 & Hl1 & ->); [done|done|by intros; eapply ScanSwitch_space|].
    pose proof (skip_space_length r). simpl in Hf.
    destruct (IH (skip_space r) ts s1 ltac:(lia) Hlex Hv1 Hl1) as (s' & -> & ? & ?).
    simpl. eauto using frame_trans.
  - destruct (Scan_loop_step fuel s WHITESPACE (bytes "//" ++ r) (skip_line r) [])
      as (s1 & Hv1 & Hf1 & Hl1 & ->); [done|done| |].
    { intros. eapply (ScanSwitch_comment _ (ch "/")); eauto. }
    pose proof (until_length (fun c => c =? kNewLine) r) as Hu.
    rewrite <- skip_line_until in Hu. simpl in Hf.
    destruct (IH (skip_line r) ts s1 ltac:(lia) Hlex Hv1 Hl1) as (s' & -> & ? & ?).
    simpl. eauto using frame_trans.
  - destruct (Scan_loop_step fuel s WHITESPACE (bytes "/*" ++ r) (skip_block r) [])
      as (s1 & Hv1 & Hf1 & Hl1 & ->); [done|done| |].
    { intros. eapply (ScanSwitch_comment _ (ch "*")); eauto. }
    pose proof (skip_block_length r). simpl in Hf.
    destruct (IH (skip_block r) ts s1 ltac:(lia) Hlex Hv1 Hl1) as (s' & -> & ? & ?).
    simpl. eauto using frame_trans.
  - destruct (Scan_loop_step fuel s t (w ++ r) r l)
      as (s1 & Hv1 & Hf1 & Hl1 & ->); [done|done| |].
    { intros. by apply (ScanSwitch_token _ _ _ w). }
    apply token_text_facts in Ht as (_ & He & Hw). rewrite decide_False by done.
    eexists. split; [done|]. split; [done|]. simpl. eauto 6.
Qed.

(** The interface of the scanner to its client: [Next] hands out the head of the stream. *)
Lemma Next_stream s t l ts :
  scanner_stream s ((t, l) :: ts) ->
  forall fuel, (chars_left s < fuel)%nat ->
  exists s', Next fuel s = Some (t, s') /\ CurrentToken s' = t /\ CurrentLiteral s' = l /\
    source_ s' = source_ s /\ scanner_stream s' ts.
Proof.
  intros (Ht & Hl & He & r & Hv & Hlex) fuel Hfuel. unfold Next, Scan.
  set (s0 := set_next_literal [] (set_curr (next_ s) s)).
  assert (view s0 r) as Hv0 by done. pose proof (view_length _ _ Hv).
  destruct (Scan_loop_lex fuel r ts s0) as (s' & -> & [Hc Hsrc] & Hst); [lia|done..|].
  exists s'. unfold CurrentToken, CurrentLiteral. rewrite Hc. simpl. unfold Peek in Ht.
  rewrite Ht, Hl. auto.
Qed.

Lemma Next_stream_end s :
  scanner_stream s [] -> forall fuel, (0 < fuel)%nat ->
  exists s', Next fuel s = Some (EOS, s') /\ source_ s' = source_ s /\ scanner_stream s' [].
Proof.
  intros (Ht & Hv) fuel Hfuel. unfold Next, Scan.
  set (s0 := set_next_literal [] (set_curr (next_ s) s)).
  destruct (Scan_loop_lex fuel [] [] s0) as (s' & -> & [Hc Hsrc] & Hst);
    [done|constructor|done|done|].
  exists s'. rewrite Hc. simpl. unfold Peek in Ht. rewrite Ht. auto.
Qed.

Lemma initial_view source : Forall byte_ok source -> view (initial_scanner source) source.
Proof.
  intros Hs. unfold initial_scanner. destruct source as [|b r].
  - repeat split; simpl; auto.
  - unfold Advance, view, source_len_. simpl. repeat split; auto. lia.
Qed.

Lemma new_Scanner_stream source ts fuel :
  Forall byte_ok source -> lex source ts -> (length source < fuel)%nat ->
  exists s, new_Scanner fuel source = Some s /\ source_ s = source /\ scanner_stream s ts.
Proof.
  intros Hs Hlex Hf. apply initial_view in Hs. unfold new_Scanner, Scan.
  destruct (Scan_loop_lex fuel source ts (set_next_literal [] (initial_scanner source)))
    as (s' & -> & [_ Hsrc] & Hst); [done..|].
  eexists. split; [done|]. split; [|done]. rewrite Hsrc. unfold initial_scanner, Advance.
  by destruct (Nat.eqb _ _).
Qed.

Lemma all_tokens_stream ts : forall n fuel s,
  (length ts < n)%nat -> (S (length (source_ s)) < fuel)%nat -> scanner_stream s ts ->
  all_tokens_from n fuel s = Some ts.
Proof.
  induction ts as [|[t l] ts IH]; intros [|n] fuel s Hn Hf Hs; simpl in Hn; try lia; simpl.
  - destruct (Next_stream_end s Hs fuel) as (s' & -> & _); [lia|done].
  - destruct (Next_stream _ _ _ _ Hs fuel) as (s' & -> & Ht & Hl & Hsrc & Hs').
    { unfold chars_left, source_len_. lia. }
    destruct Hs as (_ & _ & He & _). rewrite decide_False by done.
    rewrite (IH n fuel s'), Hl; [done|lia|by rewrite Hsrc|done].
Qed.

(** * Progress: when scanning terminates, and when it does not *)

Lemma word_type_not_blank w : word_type w <> WHITESPACE.
Proof.
  unfold word_type. destruct (keyword_of w) eqn:E; [|done]. by apply keyword_of_Some in E as (_&_&_&_&_&?).
Qed.

Lemma ScanIdentifierOrKeyword_not_blank s : fst (ScanIdentifierOrKeyword s) <> WHITESPACE.
Proof.
  unfold ScanIdentifierOrKeyword. destruct (_ || _); simpl; [done|].
  rewrite CheckIdentifierOrKeyword_spec. apply word_type_not_blank.
Qed.

Lemma ScanNumber_not_blank s : fst (ScanNumber s) <> WHITESPACE.
Proof. unfold ScanNumber. by destruct (_ =? _). Qed.

Lemma ScanString_loop_not_blank fuel : forall s, fst (ScanString_loop fuel s) <> WHITESPACE.
Proof. induction fuel; intros s; simpl; [done|]. repeat case_match; simpl; auto. Qed.

(** The switch yields a blank only at a blank, at a comment, or at an unsupported byte. *)
Lemma ScanSwitch_blank s b r :
  view s (b :: r) -> fst (ScanSwitch s) = WHITESPACE ->
  is_space b = true \/ unsupported b = true \/
  exists c r', b = ch "/" /\ r = c :: r' /\ (c = ch "/" \/ c = ch "*").
Proof.
  intros Hv Ht. pose proof (view_bytes _ _ Hv) as Hb. inversion_clear Hb as [|? ? Hb1 Hb2].
  destruct (decide (b = ch "/")) as [->|Hne].
  { right. right. assert (view (Advance s) r) as Hv1 by eauto with scanner.
    revert Ht. unfold ScanSwitch. rewrite (view_c0 _ _ Hv). cbn [hd_c0]. run_eqb.
    rewrite (Matches_spec _ _ _ Hv1) by ascii. destruct r as [|c r]; cbn [next_is].
    - rewrite (Matches_spec _ _ _ Hv1) by ascii. done.
    - destruct (Z.eqb_spec c (ch "/")); [eauto 6|].
      rewrite (Matches_spec _ _ _ Hv1) by ascii. cbn [next_is].
      destruct (Z.eqb_spec c (ch "*")); [eauto 6|done]. }
  destruct (is_space b) eqn:Hs; [auto|]. right. left. unfold unsupported. rewrite Hs. simpl.
  revert Ht. unfold ScanSwitch. rewrite (view_c0 _ _ Hv). cbn [hd_c0].
  rewrite !schar_eqb by (auto; ascii). rewrite schar_IsIdentifierChar, schar_IsDigit by done.
  repeat match goal with
  | |- context [Z.eqb b ?k] => destruct (Z.eqb_spec b k); [intros Ht; exfalso; revert Ht|]
  end; try done; try (unfold Matches; repeat case_match; simpl; done).
  - apply ScanString_loop_not_blank.
  - destruct (IsDigit b); [intros Ht; by apply ScanNumber_not_blank in Ht|].
    destruct (IsIdentifierChar b);
      [intros Ht; by apply ScanIdentifierOrKeyword_not_blank in Ht|].
    intros _. simpl. rewrite andb_true_r. apply negb_true_iff, bool_decide_false.
    rewrite !elem_of_cons, elem_of_nil. intuition congruence.
Qed.

Lemma Forall_skip (P : Z -> Prop) r :
  Forall P r -> Forall P (skip_space r) /\ Forall P (skip_line r) /\ Forall P (skip_block r).
Proof.
  induction 1 as [|b r Hb Hr (IH1 & IH2 & IH3)]; simpl; [auto|].
  repeat case_match; split_and!; auto using Forall_tail; by constructor.
Qed.

(** Every iteration of [Scan] on supported text makes progress or stops. *)
Lemma Scan_loop_supported : forall fuel r s,
  (length r < fuel)%nat -> view s r -> Forall (fun b => unsupported b = false) r ->
  literal (next_ s) = [] -> exists s', Scan_loop fuel s = Some s'.
Proof.
  induction fuel as [|fuel IH]; intros r s Hf Hv Hr Hl; [lia|].
  rewrite Scan_loop_S. cbv zeta. set (s0 := set_next _ s).
  assert (view s0 r) as Hv0 by done. assert (literal (next_ s0) = []) as Hl0 by done.
  clearbody s0. destruct (Forall_skip _ _ Hr) as (R1 & R2 & R3).
  assert (forall skip, scans s0 (ScanSwitch s0) WHITESPACE (skip r) [] ->
            (length (skip r) < length r)%nat -> Forall (fun b => unsupported b = false) (skip r) ->
            exists s', (let '(t, s1) := ScanSwitch s0 in
              if decide (t = WHITESPACE) then Scan_loop fuel s1 else Some (set_next_type t s1))
              = Some s') as Hblank.
  { intros skip (Ht & Hv1 & _ & Hl1) Hlen Hsk. destruct (ScanSwitch s0) as [t s1]. simpl in *.
    subst t. simpl. eapply (IH (skip r)); eauto. lia. }
  destruct (decide (fst (ScanSwitch s0) = WHITESPACE)) as [Ht|Ht].
  2: { destruct (ScanSwitch s0) as [t s1]. simpl in Ht. rewrite decide_False by done. eauto. }
  destruct r as [|b r].
  { exfalso. revert Ht. unfold ScanSwitch. rewrite (view_c0 _ _ Hv0). cbn [hd_c0]. by run_eqb. }
  destruct (ScanSwitch_blank _ _ _ Hv0 Ht) as [Hs|[Hu|(c & r' & -> & -> & Hc)]].
  - apply (Hblank skip_space); [by cbn [skip_space]; rewrite Hs; eapply ScanSwitch_space| |done].
    simpl. rewrite Hs. pose proof (skip_space_length r). lia.
  - inversion_clear Hr. congruence.
  - inversion_clear Hr as [|? ? _ Hr']. inversion_clear Hr' as [|? ? _ Hr].
    destruct (Forall_skip _ _ Hr) as (_ & R2' & R3').
    destruct Hc as [-> | ->].
    + apply (Hblank (fun t => skip_line (tail (tail t)))); simpl; auto.
      * apply (ScanSwitch_comment s0 (ch "/") r' skip_line); auto.
      * pose proof (until_length (fun c => c =? kNewLine) r') as Hu.
        rewrite <- skip_line_until in Hu. lia.
    + apply (Hblank (fun t => skip_block (tail (tail t)))); simpl; auto.
      * apply (ScanSwitch_comment s0 (ch "*") r' skip_block); auto.
      * pose proof (skip_block_length r'). lia.
Qed.

Lemma ScanSwitch_unsupported s b r :
  view s (b :: r) -> unsupported b = true -> ScanSwitch s = (WHITESPACE, s).
Proof.
  intros Hv Hu. pose proof (view_bytes _ _ Hv) as Hb. inversion_clear Hb as [|? ? Hb1 Hb2].
  assert (forall k, unsupported k = false -> (b =? k) = false) as Hne.
  { intros k Hk. apply Z.eqb_neq. congruence. }
  assert (IsIdentifierChar b = false /\ is_space b = false) as [Hi Hs].
  { unfold unsupported in Hu. rewrite !andb_true_iff, !negb_true_iff in Hu. tauto. }
  pose proof Hi as Hd. unfold IsIdentifierChar in Hd. rewrite !orb_false_iff in Hd.
  unfold ScanSwitch. rewrite (view_c0 _ _ Hv). cbn [hd_c0].
  rewrite !schar_eqb by (auto; ascii). rewrite schar_IsIdentifierChar, schar_IsDigit by done.
  rewrite !Hne by (vm_compute; done). rewrite Hi, (proj2 (proj1 Hd)).
  rewrite (proj2 (Z.eqb_neq _ _) (schar_not_end _ Hb1)).
  unfold SkipWhiteSpace, chars_left. cbn [SkipWhiteSpace_loop].
  rewrite (view_c0 _ _ Hv). cbn [hd_c0]. rewrite !schar_eqb by (auto; lia).
  by rewrite !Hne by (vm_compute; done).
Qed.

(** At an unsupported character the [do ... while] loop of [Scan] repeats forever. *)
Lemma Scan_loop_unsupported : forall fuel b r s,
  view s (b :: r) -> unsupported b = true -> Scan_loop fuel s = None.
Proof.
  induction fuel as [|fuel IH]; intros b r s Hv Hu; [done|]. rewrite Scan_loop_S. cbv zeta.
  rewrite (ScanSwitch_unsupported _ b r) by done. simpl. by eapply IH.
Qed.

(** * The properties of the scanner *)

(** C6: The scanner refines the declarative lexical grammar: if the grammar assigns the tokens
    [ts] to a source (longest match, keywords, blanks and comments skipped), then calling
    [Next] until [EOS] yields exactly the types and literals [ts].  The constructor and every
    [Next] terminate. *)
Theorem tokenize_lex source ts :
  Forall byte_ok source -> lex source ts -> tokenize source = Some ts.
Proof.
  intros Hs Hlex. unfold tokenize.
  destruct (new_Scanner_stream source ts (S (S (length source)))) as (s & -> & Hsrc & Hst);
    [done|done|lia|].
  apply all_tokens_stream; [|rewrite Hsrc; lia|done]. apply lex_length in Hlex. lia.
Qed.

(** Scanning terminates on every text made of supported characters: from any state of the
    scanner, as many iterations of the loop of [Scan] as there are characters left, plus one,
    reach the next token. *)
Theorem Scan_terminates s r :
  view s r -> Forall (fun b => unsupported b = false) r ->
  exists s', Scan (S (length r)) s = Some s'.
Proof. intros Hv Hr. apply (Scan_loop_supported _ r); auto. Qed.

(** Scanning does not terminate at a character outside the token set (a hash sign, a dollar
    sign, a byte of a non-ASCII letter, ...): [SkipWhiteSpace] does not move and [Scan]
    loops, whatever the number of iterations. *)
Theorem Scan_unsupported_diverges s b r fuel :
  view s (b :: r) -> unsupported b = true -> Scan fuel s = None.
Proof. intros. by eapply Scan_loop_unsupported. Qed.

(** The keyword test of [CheckIdentifierOrKeyword], unrolled over first character, length and
    single characters, decides membership in the list of the fifteen keywords. *)
Theorem CheckIdentifierOrKeyword_correct w :
  CheckIdentifierOrKeyword w =
  default IDENTIFIER (assoc w
    [ (bytes "and", AND); (bytes "else", ELSE); (bytes "false", FALSE); (bytes "for", FOR);
      (bytes "fun", FUN); (bytes "if", IF); (bytes "in", IN); (bytes "map", MAP);
      (bytes "nil", NIL); (bytes "or", OR); (bytes "return", RETURN); (bytes "struct", STRUCT);
      (bytes "true", TRUE); (bytes "var", VAR) ]).
Proof. apply CheckIdentifierOrKeyword_spec. Qed.

(** An empty string literal is never scanned: the character that follows the opening quote
    is taken into the literal before the closing quote is looked for, so the literal of a
    [STRING] token has at least one character. *)
Theorem ScanString_never_empty s :
  fst (ScanString s) = STRING -> literal (next_ (snd (ScanString s))) <> [].
Proof.
  unfold ScanString. generalize (S (chars_left s)) as fuel. intros fuel. revert s.
  assert (forall s, exists x, literal (next_ (Advance (append_c0 s))) = literal (next_ s) ++ [x]) as Ha.
  { intros s. destruct (Advance_frame (append_c0 s)) as [_ ->]. eexists. reflexivity. }
  induction fuel as [|fuel IH]; intros s; simpl; [done|].
  destruct (_ =? kEndOfInput); simpl; [done|].
  destruct (_ && _); simpl; [|apply IH].
  intros _. destruct (Advance_frame (Advance (append_c0 s))) as [_ ->].
  destruct (Ha s) as [x ->]. by destruct (literal (next_ s)).
Qed.

(** A byte 255 in the source is taken for the end of input: as a signed [char] it is -1,
    the value of [kEndOfInput], and everything after it is ignored. *)
Theorem byte_255_ends_input fuel r :
  exists s, new_Scanner (S fuel) (255 :: r) = Some s /\ Peek s = EOS.
Proof. by eexists. Qed.

(** * Examples and witnesses *)

(** Prove [lex] of a concrete source token by token. *)
Ltac lex_text w :=
  match goal with
  | |- lex ?src _ =>
      let r := eval vm_compute in (drop (length w) src) in
      change src with (w ++ r); apply lex_token
  end.
Ltac lex_blank :=
  apply lex_space; [reflexivity|]; cbn [skip_space];
  repeat match goal with |- context [is_space ?b] =>
    let v := eval vm_compute in (is_space b) in change (is_space b) with v end; cbv iota.
Ltac lex_word str :=
  lex_text (bytes str); [apply tt_ident; [split; [reflexivity|repeat constructor]|reflexivity]|reflexivity|].
Ltac lex_builtin str :=
  lex_text (ch "@" :: bytes str); [apply tt_builtin; [done|repeat constructor]|reflexivity|].
Ltac lex_digits str :=
  lex_text (bytes str); [apply tt_int; [done|repeat constructor]|reflexivity|].
Ltac lex_fixed str :=
  lex_text (bytes str);
  [apply tt_punct; [apply (bool_decide_unpack _); vm_compute; done|reflexivity]|reflexivity|].

Definition sample : list Z := bytes "x = @f(10, 2.5) // call".

Lemma sample_lex : lex sample
  [ (IDENTIFIER, bytes "x"); (EQUAL, []); (BUILTIN_IDENTIFIER, bytes "f"); (LEFT_PAREN, []);
    (INTEGER, bytes "10"); (COMMA, []); (FLOAT, bytes "2.5"); (RIGHT_PAREN, []) ].
Proof.
  unfold sample. lex_word "x"; lex_blank; lex_fixed "="; lex_blank; lex_builtin "f";
    lex_fixed "("; lex_digits "10"; lex_fixed ","; lex_blank.
  lex_text (bytes "2" ++ bytes "." ++ bytes "5");
    [apply (tt_float (bytes "2") (bytes "5")); [done|repeat constructor..]|reflexivity|].
  lex_fixed ")"; lex_blank. apply lex_line. constructor.
Qed.

Lemma tokenize_lex_witness :
  Forall byte_ok sample /\ tokenize sample = Some
    [ (IDENTIFIER, bytes "x"); (EQUAL, []); (BUILTIN_IDENTIFIER, bytes "f"); (LEFT_PAREN, []);
      (INTEGER, bytes "10"); (COMMA, []); (FLOAT, bytes "2.5"); (RIGHT_PAREN, []) ].
Proof.
  assert (Forall byte_ok sample) by (repeat constructor; vm_compute; intuition congruence).
  split; [done|]. apply tokenize_lex; [done|]. apply sample_lex.
Defined.

Lemma sample_view : view (initial_scanner (bytes "a + b")) (bytes "a + b").
Proof. apply initial_view. repeat constructor; vm_compute; intuition congruence. Qed.

Lemma Scan_terminates_witness :
  exists s', Scan (S (length (bytes "a + b"))) (initial_scanner (bytes "a + b")) = Some s'.
Proof. apply Scan_terminates; [apply sample_view|]. repeat constructor. Defined.

Lemma Scan_unsupported_diverges_witness :
  unsupported (ch "#") = true /\
  Scan 1000 (initial_scanner (bytes "# b")) = None.
Proof.
  split; [reflexivity|]. apply (Scan_unsupported_diverges _ (ch "#") (bytes " b")); [|reflexivity].
  apply initial_view. repeat constructor; vm_compute; intuition congruence.
Defined.

Lemma ScanString_never_empty_witness :
  let s := Advance (initial_scanner (34 :: bytes "ab" ++ [34])) in
  fst (ScanString s) = STRING /\ literal (next_ (snd (ScanString s))) <> [].
Proof. split; [reflexivity|]. apply ScanString_never_empty. reflexivity. Defined.
