(* ===== verification/TokenSource.v ===== *)
(** What the parser needs of a scanner, as an interface, and the scanner's implementation.

    The parser calls [Next], [Peek], [CurrentLiteral] and [CurrentPosition] of its
    scanner and nothing else; [TokenSource] is the record of these operations and
    [TokenStream] states what they promise: a source holds a sequence of tokens,
    [Next] hands them out one by one with their literals, and an exhausted source
    keeps answering [EOS]. *)
From S2P Require Import Prelude Token Scanner ScannerSpec.

Abbreviation Lexeme := (TokenType * list Z)%type.

Class TokenSource (S : Type) := {
  ts_next : S -> option (TokenType * S);
  ts_peek : S -> TokenType;
  ts_literal : S -> list Z;
  ts_position : S -> SourcePosition
}.

(** The type of the first token of a sequence. *)
Definition peek (ts : list Lexeme) : TokenType :=
  match ts with [] => EOS | (t, _) :: _ => t end.

Class TokenStream (S : Type) `{TokenSource S} := {
  stream : S -> list Lexeme -> Prop;
  stream_peek s ts : stream s ts -> ts_peek s = peek ts;
  stream_next s t l ts : stream s ((t, l) :: ts) ->
    exists s', ts_next s = Some (t, s') /\ ts_literal s' = l /\ stream s' ts;
  stream_end s : stream s [] -> exists s', ts_next s = Some (EOS, s') /\ stream s' [];
  stream_no_eos s ts : stream s ts -> Forall (fun x => fst x <> EOS) ts
}.

(** [Scan] makes at most one iteration per character left, so this fuel is enough
    wherever any fuel is ([ScannerSpec.Next_stream]). *)
#[export] Instance Scanner_source : TokenSource Scanner := {
  ts_next s := Next (S (chars_left s)) s;
  ts_peek := Peek;
  ts_literal := CurrentLiteral;
  ts_position := CurrentPosition
}.

Lemma lex_no_eos r ts : lex r ts -> Forall (fun x => fst x <> EOS) ts.
Proof.
  induction 1 as [| | | |t l w r ts Ht]; try done.
  constructor; [|done]. by apply token_text_facts in Ht as (_ & ? & _).
Qed.

#[export] Program Instance Scanner_stream : TokenStream Scanner := { stream := scanner_stream }.
Next Obligation. intros s [|[t l] ts] Hs; by destruct Hs. Qed.
Next Obligation.
  intros s t l ts Hs.
  destruct (Next_stream _ _ _ _ Hs (S (chars_left s))) as (s' & ? & _ & ? & _ & ?); [lia|].
  exists s'. auto.
Qed.
Next Obligation.
  intros s Hs. destruct (Next_stream_end s Hs (S (chars_left s))) as (s' & ? & _ & ?); [lia|].
  exists s'. auto.
Qed.
Next Obligation.
  intros s [|[t l] ts] Hs; [done|]. destruct Hs as (_ & _ & He & r & _ & Hr).
  constructor; [done|]. by apply lex_no_eos in Hr.
Qed.

(** A source that reads a list of tokens, with no position: the current literal and the
    tokens to come. *)
Record ListSource : Set := mkList { ls_literal : list Z; ls_tokens : list Lexeme }.

#[export] Instance List_source : TokenSource ListSource := {
  ts_next s :=
    match ls_tokens s with
    | [] => Some (EOS, s)
    | (t, l) :: ts => Some (t, mkList l ts)
    end;
  ts_peek s := peek (ls_tokens s);
  ts_literal := ls_literal;
  ts_position _ := mkPos 0 0
}.

#[export] Program Instance List_stream : TokenStream ListSource := {
  stream s ts := ls_tokens s = ts /\ Forall (fun x => fst x <> EOS) ts
}.
Next Obligation. by intros s ts [<- _]. Qed.
Next Obligation.
  intros s t l ts [Hs Hf]. simpl. rewrite Hs. inversion_clear Hf. eauto.
Qed.
Next Obligation. intros s [Hs _]. simpl. rewrite Hs. eauto. Qed.
Next Obligation. by intros s ts [_ Hf]. Qed.
