(* ===== verification/Ast.v ===== *)
(** The abstract syntax of TPL as the parser builds it: [src/include/ast/ast.h].

    A node is a constructor with the C++ constructor's arguments; a pointer that may be
    null is an [option].  Identifiers are uniqued strings, so their identity is the
    equality of their bytes; the null identifier is [None].  A call, an expression
    statement, a declaration statement and a function literal have no position of their
    own: their constructors copy the position of a child, which [expr_pos] and the
    functions after it compute.  [ImplicitCastExpression] is only built by semantic
    analysis and is not part of the trees the parser produces. *)
From S2P Require Import Prelude Token.
From Stdlib Require Import SpecFloat.

#[local] Set Warnings "-register-all".

Abbreviation Identifier := (list Z).

(** A 32-bit float is a [spec_float] with 24 bits of precision. *)
Inductive LiteralValue : Set :=
  | NilLiteral
  | BoolLiteral (b : bool)
  | IntLiteral (n : Z)
  | FloatLiteral (f : spec_float)
  | StringLiteral (s : Identifier).

Inductive CallKind : Set := Regular | Builtin.

Inductive Expression : Set :=
  | BadExpression (pos : SourcePosition)
  | BinaryOpExpression (pos : SourcePosition) (op : TokenType) (left right : Expression)
  | CallExpression (call_kind : CallKind) (func : Expression) (args : list Expression)
  | ComparisonOpExpression (pos : SourcePosition) (op : TokenType) (left right : Expression)
  | FunctionLiteralExpression (type_repr : Expression) (body : Statement)
  | IdentifierExpression (pos : SourcePosition) (name : Identifier)
  | IndexExpression (pos : SourcePosition) (object index : Expression)
  | LiteralExpression (pos : SourcePosition) (value : LiteralValue)
  | MemberExpression (pos : SourcePosition) (object member : Expression)
  | UnaryOpExpression (pos : SourcePosition) (op : TokenType) (expr : Expression)
  | ArrayTypeRepr (pos : SourcePosition) (len elem_type : option Expression)
  | FunctionTypeRepr (pos : SourcePosition) (params : list FieldDeclaration)
                     (ret_type : option Expression)
  | MapTypeRepr (pos : SourcePosition) (key val : option Expression)
  | PointerTypeRepr (pos : SourcePosition) (base : option Expression)
  | StructTypeRepr (pos : SourcePosition) (fields : list FieldDeclaration)
with FieldDeclaration : Set :=
  | mkFieldDeclaration (pos : SourcePosition) (name : option Identifier)
                       (type_repr : option Expression)
with Statement : Set :=
  | AssignmentStatement (pos : SourcePosition) (dest src : Expression)
  | BlockStatement (pos rbrace_pos : SourcePosition) (statements : list Statement)
  | DeclarationStatement (decl : Declaration)
  | ExpressionStatement (expr : Expression)
  | ForStatement (pos : SourcePosition) (init : option Statement) (cond : option Expression)
                 (next : option Statement) (body : Statement)
  | ForInStatement (pos : SourcePosition) (target iter : Expression) (body : Statement)
  | IfStatement (pos : SourcePosition) (cond : Expression) (then_stmt : Statement)
                (else_stmt : option Statement)
  | ReturnStatement (pos : SourcePosition) (ret : option Expression)
with Declaration : Set :=
  | FunctionDeclaration (pos : SourcePosition) (name : Identifier) (func : Expression)
  | StructDeclaration (pos : SourcePosition) (name : Identifier) (struct_type : Expression)
  | VariableDeclaration (pos : SourcePosition) (name : Identifier)
                        (type_repr init : option Expression).

Inductive File : Set := mkFile (pos : SourcePosition) (decls : list Declaration).

(** [AstNode::Position] of each kind of node. *)
Fixpoint expr_pos (e : Expression) : SourcePosition :=
  match e with
  | BadExpression p | BinaryOpExpression p _ _ _ | ComparisonOpExpression p _ _ _
  | IdentifierExpression p _ | IndexExpression p _ _ | LiteralExpression p _
  | MemberExpression p _ _ | UnaryOpExpression p _ _ | ArrayTypeRepr p _ _
  | FunctionTypeRepr p _ _ | MapTypeRepr p _ _ | PointerTypeRepr p _ | StructTypeRepr p _ => p
  | CallExpression _ func _ => expr_pos func
  | FunctionLiteralExpression type_repr _ => expr_pos type_repr
  end.

Definition decl_pos (d : Declaration) : SourcePosition :=
  match d with
  | FunctionDeclaration p _ _ | StructDeclaration p _ _ | VariableDeclaration p _ _ _ => p
  end.

Definition stmt_pos (s : Statement) : SourcePosition :=
  match s with
  | AssignmentStatement p _ _ | BlockStatement p _ _ | ForStatement p _ _ _ _
  | ForInStatement p _ _ _ | IfStatement p _ _ _ | ReturnStatement p _ => p
  | DeclarationStatement d => decl_pos d
  | ExpressionStatement e => expr_pos e
  end.

(** * Trees without positions *)

Definition no_pos : SourcePosition := mkPos 0 0.

Fixpoint strip (e : Expression) : Expression :=
  match e with
  | BadExpression _ => BadExpression no_pos
  | BinaryOpExpression _ op l r => BinaryOpExpression no_pos op (strip l) (strip r)
  | CallExpression k f args => CallExpression k (strip f) (map strip args)
  | ComparisonOpExpression _ op l r => ComparisonOpExpression no_pos op (strip l) (strip r)
  | FunctionLiteralExpression t b => FunctionLiteralExpression (strip t) (strip_stmt b)
  | IdentifierExpression _ n => IdentifierExpression no_pos n
  | IndexExpression _ o i => IndexExpression no_pos (strip o) (strip i)
  | LiteralExpression _ v => LiteralExpression no_pos v
  | MemberExpression _ o f => MemberExpression no_pos (strip o) (strip f)
  | UnaryOpExpression _ op e => UnaryOpExpression no_pos op (strip e)
  | ArrayTypeRepr _ l t => ArrayTypeRepr no_pos (option_map strip l) (option_map strip t)
  | FunctionTypeRepr _ ps t => FunctionTypeRepr no_pos (map strip_field ps) (option_map strip t)
  | MapTypeRepr _ k v => MapTypeRepr no_pos (option_map strip k) (option_map strip v)
  | PointerTypeRepr _ b => PointerTypeRepr no_pos (option_map strip b)
  | StructTypeRepr _ fs => StructTypeRepr no_pos (map strip_field fs)
  end
with strip_field (f : FieldDeclaration) : FieldDeclaration :=
  match f with
  | mkFieldDeclaration _ n t => mkFieldDeclaration no_pos n (option_map strip t)
  end
with strip_stmt (s : Statement) : Statement :=
  match s with
  | AssignmentStatement _ d e => AssignmentStatement no_pos (strip d) (strip e)
  | BlockStatement _ _ l => BlockStatement no_pos no_pos (map strip_stmt l)
  | DeclarationStatement d => DeclarationStatement (strip_decl d)
  | ExpressionStatement e => ExpressionStatement (strip e)
  | ForStatement _ i c n b =>
      ForStatement no_pos (option_map strip_stmt i) (option_map strip c)
                   (option_map strip_stmt n) (strip_stmt b)
  | ForInStatement _ t i b => ForInStatement no_pos (strip t) (strip i) (strip_stmt b)
  | IfStatement _ c t e =>
      IfStatement no_pos (strip c) (strip_stmt t) (option_map strip_stmt e)
  | ReturnStatement _ r => ReturnStatement no_pos (option_map strip r)
  end
with strip_decl (d : Declaration) : Declaration :=
  match d with
  | FunctionDeclaration _ n f => FunctionDeclaration no_pos n (strip f)
  | StructDeclaration _ n t => StructDeclaration no_pos n (strip t)
  | VariableDeclaration _ n t i =>
      VariableDeclaration no_pos n (option_map strip t) (option_map strip i)
  end.

Definition strip_file (f : File) : File :=
  let '(mkFile _ ds) := f in mkFile no_pos (map strip_decl ds).
