(* ===== verification/TreeInduction.v ===== *)
(** Induction on syntax trees: the trees of [Ast] are nested in lists and options, for which the
    generated principles give no hypothesis. *)
From S2P Require Import Prelude Token Ast.

(** The property of a child, if there is one. *)
Definition on_child {A} (P : A -> Prop) (o : option A) : Prop := match o with Some a => P a | None => True end.

Section tree_ind.
Variables (P : Expression -> Prop) (F : FieldDeclaration -> Prop) (S : Statement -> Prop) (D : Declaration -> Prop).

(** What a visitor of an argument or of a declared function may visit without visiting the node itself. *)
Definition on_parts (e : Expression) : Prop :=
  match e with
  | UnaryOpExpression _ _ e' => P e'
  | FunctionLiteralExpression t b => P t /\ S b
  | _ => True
  end.

Hypothesis Hbad : forall p, P (BadExpression p).
Hypothesis Hbinary : forall p op l r, P l -> P r -> P (BinaryOpExpression p op l r).
Hypothesis Hcall : forall k f args, P f -> Forall (fun a => P a /\ on_parts a) args -> P (CallExpression k f args).
Hypothesis Hcompare : forall p op l r, P l -> P r -> P (ComparisonOpExpression p op l r).
Hypothesis Hfunction : forall t b, P t -> S b -> P (FunctionLiteralExpression t b).
Hypothesis Hidentifier : forall p n, P (IdentifierExpression p n).
Hypothesis Hindex : forall p o i, P o -> P i -> P (IndexExpression p o i).
Hypothesis Hliteral : forall p v, P (LiteralExpression p v).
Hypothesis Hmember : forall p o m, P o -> P m -> P (MemberExpression p o m).
Hypothesis Hunary : forall p op e, P e -> P (UnaryOpExpression p op e).
Hypothesis Harray_type : forall p l t, on_child P l -> on_child P t -> P (ArrayTypeRepr p l t).
Hypothesis Hfunction_type : forall p ps r, Forall F ps -> on_child P r -> P (FunctionTypeRepr p ps r).
Hypothesis Hmap_type : forall p k v, on_child P k -> on_child P v -> P (MapTypeRepr p k v).
Hypothesis Hpointer_type : forall p b, on_child P b -> P (PointerTypeRepr p b).
Hypothesis Hstruct_type : forall p fs, Forall F fs -> P (StructTypeRepr p fs).
Hypothesis Hfield : forall p n t, on_child P t -> F (mkFieldDeclaration p n t).
Hypothesis Hassignment : forall p d s, P d -> P s -> S (AssignmentStatement p d s).
Hypothesis Hblock : forall p rp ss, Forall S ss -> S (BlockStatement p rp ss).
Hypothesis Hdeclaration : forall d, D d -> S (DeclarationStatement d).
Hypothesis Hexpression : forall e, P e -> S (ExpressionStatement e).
Hypothesis Hfor : forall p i c n b, on_child S i -> on_child P c -> on_child S n -> S b -> S (ForStatement p i c n b).
Hypothesis Hfor_in : forall p t i b, P t -> P i -> S b -> S (ForInStatement p t i b).
Hypothesis Hif : forall p c t e, P c -> S t -> on_child S e -> S (IfStatement p c t e).
Hypothesis Hreturn : forall p r, on_child P r -> S (ReturnStatement p r).
Hypothesis Hfunction_decl : forall p n f, P f -> on_parts f -> D (FunctionDeclaration p n f).
Hypothesis Hstruct_decl : forall p n t, P t -> D (StructDeclaration p n t).
Hypothesis Hvariable_decl : forall p n t i, on_child P t -> on_child P i -> D (VariableDeclaration p n t i).

Definition children_ind {A} (R : A -> Prop) (f : forall a, R a) : forall l : list A, Forall R l :=
  fix go l := match l with [] => Forall_nil_2 R | a :: l' => Forall_cons_2 R a l' (f a) (go l') end.
Definition child_ind {A} (R : A -> Prop) (f : forall a, R a) (o : option A) : on_child R o :=
  match o with Some a => f a | None => I end.

Fixpoint Expression_tree_ind (e : Expression) : P e :=
  match e with
  | BadExpression p => Hbad p
  | BinaryOpExpression p op l r => Hbinary p op l r (Expression_tree_ind l) (Expression_tree_ind r)
  | CallExpression k f args => Hcall k f args (Expression_tree_ind f) 
      (children_ind _ (fun a => conj (Expression_tree_ind a)
         match a as a return on_parts a with
         | UnaryOpExpression _ _ e' => Expression_tree_ind e'
         | FunctionLiteralExpression t b => conj (Expression_tree_ind t) (Statement_tree_ind b)
         | _ => I
         end) args)
  | ComparisonOpExpression p op l r => Hcompare p op l r (Expression_tree_ind l) (Expression_tree_ind r)
  | FunctionLiteralExpression t b => Hfunction t b (Expression_tree_ind t) (Statement_tree_ind b)
  | IdentifierExpression p n => Hidentifier p n
  | IndexExpression p o i => Hindex p o i (Expression_tree_ind o) (Expression_tree_ind i)
  | LiteralExpression p v => Hliteral p v
  | MemberExpression p o m => Hmember p o m (Expression_tree_ind o) (Expression_tree_ind m)
  | UnaryOpExpression p op e => Hunary p op e (Expression_tree_ind e)
  | ArrayTypeRepr p l t => Harray_type p l t (child_ind P Expression_tree_ind l) (child_ind P Expression_tree_ind t)
  | FunctionTypeRepr p ps r => Hfunction_type p ps r (children_ind F FieldDeclaration_tree_ind ps) (child_ind P Expression_tree_ind r)
  | MapTypeRepr p k v => Hmap_type p k v (child_ind P Expression_tree_ind k) (child_ind P Expression_tree_ind v)
  | PointerTypeRepr p b => Hpointer_type p b (child_ind P Expression_tree_ind b)
  | StructTypeRepr p fs => Hstruct_type p fs (children_ind F FieldDeclaration_tree_ind fs)
  end
with FieldDeclaration_tree_ind (f : FieldDeclaration) : F f :=
  match f with mkFieldDeclaration p n t => Hfield p n t (child_ind P Expression_tree_ind t) end
with Statement_tree_ind (s : Statement) : S s :=
  match s with
  | AssignmentStatement p d e => Hassignment p d e (Expression_tree_ind d) (Expression_tree_ind e)
  | BlockStatement p rp ss => Hblock p rp ss (children_ind S Statement_tree_ind ss)
  | DeclarationStatement d => Hdeclaration d (Declaration_tree_ind d)
  | ExpressionStatement e => Hexpression e (Expression_tree_ind e)
  | ForStatement p i c n b =>
      Hfor p i c n b (child_ind S Statement_tree_ind i) (child_ind P Expression_tree_ind c)
        (child_ind S Statement_tree_ind n) (Statement_tree_ind b)
  | ForInStatement p t i b => Hfor_in p t i b (Expression_tree_ind t) (Expression_tree_ind i) (Statement_tree_ind b)
  | IfStatement p c t e => Hif p c t e (Expression_tree_ind c) (Statement_tree_ind t) (child_ind S Statement_tree_ind e)
  | ReturnStatement p r => Hreturn p r (child_ind P Expression_tree_ind r)
  end
with Declaration_tree_ind (d : Declaration) : D d :=
  match d with
  | FunctionDeclaration p n f => Hfunction_decl p n f (Expression_tree_ind f)
      match f as f return on_parts f with
      | FunctionLiteralExpression t b => conj (Expression_tree_ind t) (Statement_tree_ind b)
      | UnaryOpExpression _ _ e' => Expression_tree_ind e'
      | _ => I
      end
  | StructDeclaration p n t => Hstruct_decl p n t (Expression_tree_ind t)
  | VariableDeclaration p n t i => Hvariable_decl p n t i (child_ind P Expression_tree_ind t) (child_ind P Expression_tree_ind i)
  end.

(** All four at once. *)
Lemma tree_ind : (forall e, P e) /\ (forall f, F f) /\ (forall s, S s) /\ (forall d, D d).
Proof.
  split; [exact Expression_tree_ind|split; [exact FieldDeclaration_tree_ind|split]];
    [exact Statement_tree_ind|exact Declaration_tree_ind].
Qed.
End tree_ind.
