(* ===== verification/BitUtil.v ===== *)
(** Bit-level operations on words: what [src/include/util/bit_util.h] takes from LLVM and from
    the processor, as an interface, and the reasoning about single bits that its clients
    share.

    [llvm::countTrailingZeros], [llvm::countPopulation] and the [pdep] instruction are not
    part of the source; [BitOps] is the record of the three, and [BitOpsSpec] states their
    documented behaviour on 64-bit words. *)
From S2P Require Import Prelude.

(** The positions of the bits of [v] from [a] up to [b], lowest first. *)
Definition ones (v : Z) (a b : Z) : list Z := filter (fun j => Z.testbit v j = true) (seqZ a (b - a)).

Class BitOps := {
  countTrailingZeros : Z -> Z;
  countPopulation : Z -> Z;
  pdep_u64 : Z -> Z -> Z
}.

Class BitOpsSpec `{BitOps} := {
  ctz_spec v : 0 < v < 2 ^ 64 ->
    0 <= countTrailingZeros v < 64 /\ Z.testbit v (countTrailingZeros v) = true /\
    forall j, 0 <= j < countTrailingZeros v -> Z.testbit v j = false;
  popcount_spec v : is_uint 64 v -> countPopulation v = Z.of_nat (length (ones v 0 64));
  pdep_range src mask : is_uint 64 mask -> is_uint 64 (pdep_u64 src mask);
  pdep_spec src mask j : is_uint 64 mask -> 0 <= j < 64 ->
    Z.testbit (pdep_u64 src mask) j =
      Z.testbit mask j && Z.testbit src (Z.of_nat (length (ones mask 0 j)))
}.

(** [BitUtil::CountTrailingZeros] and [BitUtil::CountPopulation]. *)
Definition CountTrailingZeros `{BitOps} (v : Z) : Z := countTrailingZeros v.
Definition CountPopulation `{BitOps} (v : Z) : Z := countPopulation v.

(** [MathUtil::DivRoundUp]; sizes are far from the limit of [uint64_t]. *)
Definition DivRoundUp (numerator denominator : Z) : Z := (numerator + denominator - 1) / denominator.

(** * Bits of words *)

Lemma testbit_wrapu w z j : 0 <= j < w -> Z.testbit (wrapu w z) j = Z.testbit z j.
Proof. intros Hj. apply Z.mod_pow2_bits_low. lia. Qed.

Lemma uint_high w v j : is_uint w v -> w <= j -> Z.testbit v j = false.
Proof.
  intros [H0 H1] Hj. destruct (Z.eq_dec v 0) as [->|]; [apply Z.testbit_0_l|].
  apply Z.bits_above_log2; [done|]. apply Z.log2_lt_pow2; [lia|].
  eapply Z.lt_le_trans; [done|]. apply Z.pow_le_mono_r; lia.
Qed.

Lemma uint_of_bits w v : 0 <= w -> (forall j, w <= j -> Z.testbit v j = false) -> is_uint w v.
Proof.
  intros Hw Hv. assert (v = wrapu w v) as ->; [|by apply wrapu_range].
  apply Z.bits_inj'. intros j Hj. destruct (Z.lt_ge_cases j w).
  - by rewrite testbit_wrapu by lia.
  - rewrite Hv by done. symmetry. by apply (uint_high w); [apply wrapu_range|].
Qed.

(** Words are equal when their bits are. *)
Lemma uint_ext w u v : is_uint w u -> is_uint w v ->
  (forall j, 0 <= j < w -> Z.testbit u j = Z.testbit v j) -> u = v.
Proof.
  intros Hu Hv Hb. apply Z.bits_inj'. intros j Hj. destruct (Z.lt_ge_cases j w).
  - by apply Hb.
  - by rewrite !(uint_high w).
Qed.

Lemma uint_zero w v : is_uint w v -> (forall j, 0 <= j < w -> Z.testbit v j = false) -> v = 0.
Proof.
  intros Hv Hb. apply (uint_ext w); [done| |].
  - split; [done|]. destruct Hv; lia.
  - intros. by rewrite Hb, Z.testbit_0_l.
Qed.

(** A bitwise operation that keeps zeros keeps the width. *)
Ltac word_bits :=
  apply uint_of_bits; [lia|]; intros ? ?;
  rewrite ?Z.land_spec, ?Z.lor_spec, ?Z.lxor_spec;
  repeat match goal with
  | Hv : is_uint ?w ?v |- context [Z.testbit ?v ?j] => rewrite (uint_high w v j Hv) by lia
  end;
  by rewrite ?andb_false_r.

Lemma land_uint w u v : 0 <= w -> is_uint w u -> is_uint w (Z.land u v).
Proof. intros. word_bits. Qed.
Lemma lor_uint w u v : 0 <= w -> is_uint w u -> is_uint w v -> is_uint w (Z.lor u v).
Proof. intros. word_bits. Qed.
Lemma lxor_uint w u v : 0 <= w -> is_uint w u -> is_uint w v -> is_uint w (Z.lxor u v).
Proof. intros. word_bits. Qed.

#[export] Hint Resolve land_uint lor_uint lxor_uint : machine.

(** [word & (word - 1)] clears the lowest bit of [word]. *)
Lemma clear_lowest v k j : 0 < v -> 0 <= k -> 0 <= j -> Z.testbit v k = true ->
  (forall i, 0 <= i < k -> Z.testbit v i = false) ->
  Z.testbit (Z.land v (v - 1)) j = Z.testbit v j && negb (j =? k).
Proof.
  intros Hv Hk Hj Hbit Hlow.
  assert (v - 1 = Z.lor (Z.clearbit v k) (Z.ones k)) as ->.
  { assert (Z.land (Z.clearbit v k) (Z.ones k) = 0) as Hd.
    { apply Z.bits_inj'. intros i Hi. rewrite Z.land_spec, Z.testbit_0_l, Z.clearbit_eqb by lia.
      destruct (Z.lt_ge_cases i k); [by rewrite Hlow|by rewrite Z.ones_spec_high, andb_false_r]. }
    rewrite <- Z.lxor_lor, <- Z.add_nocarry_lxor by done.
    unfold Z.clearbit. rewrite <- Z.sub_nocarry_ldiff.
    - rewrite Z.shiftl_1_l, Z.ones_equiv. lia.
    - apply Z.bits_inj'. intros i Hi. rewrite Z.ldiff_spec, Z.testbit_0_l, Z.shiftl_1_l.
      destruct (Z.eq_dec i k) as [->|]; [by rewrite Hbit, andb_false_r|].
      by rewrite Z.pow2_bits_false by lia. }
  rewrite Z.land_spec, Z.lor_spec, Z.clearbit_eqb by lia.
  destruct (Z.eqb_spec j k) as [->|Hne].
  - rewrite Hbit, Z.eqb_refl, Z.ones_spec_high by lia. done.
  - rewrite (proj2 (Z.eqb_neq k j)) by lia. simpl. rewrite !andb_true_r.
    destruct (Z.testbit v j) eqn:Hvj; [|done]. by rewrite orb_true_l.
Qed.

(** * Lists of bit positions *)

Lemma filter_nil_iff {A} (P : A -> Prop) `{!forall x, Decision (P x)} (l : list A) :
  (forall x, x ∈ l -> ~ P x) -> filter P l = [].
Proof.
  induction l as [|x l IH]; intros Hl; [done|]. rewrite filter_cons_False.
  - apply IH. intros y Hy. apply Hl. by apply list_elem_of_further.
  - apply Hl. apply list_elem_of_here.
Qed.

Lemma filter_ext_in {A} (P Q : A -> Prop) `{!forall x, Decision (P x), !forall x, Decision (Q x)} (l : list A) :
  (forall x, x ∈ l -> P x <-> Q x) -> filter P l = filter Q l.
Proof.
  induction l as [|x l IH]; intros Hl; [done|].
  assert (P x <-> Q x) as Hx by (apply Hl; apply list_elem_of_here).
  rewrite !filter_cons. rewrite IH by (intros y Hy; apply Hl; by apply list_elem_of_further).
  destruct (decide (P x)), (decide (Q x)); tauto || done.
Qed.

Lemma ones_empty v a b : (forall j, a <= j < b -> Z.testbit v j = false) -> ones v a b = [].
Proof.
  intros Hv. apply filter_nil_iff. intros j Hj%elem_of_seqZ. rewrite Hv by lia. done.
Qed.

Lemma ones_split v a b c : a <= b <= c -> ones v a c = ones v a b ++ ones v b c.
Proof.
  intros Hab. unfold ones. rewrite <- filter_app. f_equal.
  replace (c - a) with ((b - a) + (c - b)) by lia.
  rewrite seqZ_app by lia. by replace (a + (b - a)) with b by lia.
Qed.

Lemma ones_first v a b : a < b -> Z.testbit v a = true -> ones v a b = a :: ones v (a + 1) b.
Proof.
  intros Hab Hv. unfold ones. rewrite seqZ_cons by lia. rewrite filter_cons_True by done.
  unfold Z.succ, Z.pred. by replace (b - a + -1) with (b - (a + 1)) by lia.
Qed.

Lemma ones_ext u v a b : (forall j, a <= j < b -> Z.testbit u j = Z.testbit v j) ->
  ones u a b = ones v a b.
Proof.
  intros Huv. apply filter_ext_in. intros j Hj%elem_of_seqZ. rewrite Huv by lia. done.
Qed.

Lemma elem_of_ones v a b j : j ∈ ones v a b <-> Z.testbit v j = true /\ a <= j < b.
Proof. unfold ones. rewrite list_elem_of_filter, elem_of_seqZ. intuition lia. Qed.
