(* ===== verification/Layout.v ===== *)
(** Placing data in memory: [MathUtil::IsAligned] and [MathUtil::AlignTo] of
    [src/include/util/math_util.h], and the layout of structs, [StructType::LayoutHelper] of
    [src/ast/type.cpp].

    [llvm::alignTo] is not part of the source: [AlignOps] holds it and [AlignOpsSpec] its documented
    behaviour.  [TypeLayout] is what the layouts ask of a type. *)
From S2P Require Import Prelude BitUtil.

Class AlignOps := { alignTo : Z -> Z -> Z }.
Class AlignOpsSpec `{AlignOps} := {
  alignTo_spec v a : 0 <= v -> 0 < a -> v + a <= 2 ^ 64 -> v <= alignTo v a < v + a /\ (a | alignTo v a)
}.

Definition IsAligned (value alignment : Z) : bool := Z.land value (alignment - 1) =? 0.
Definition AlignTo `{AlignOps} (value align : Z) : Z := alignTo value align.

Class TypeLayout (T : Type) := { GetSize : T -> Z; GetAlignment : T -> Z }.

(** What the layouts rely on. *)
Class TypeLayoutSpec (T : Type) `{TypeLayout T} := {
  GetSize_range t : is_uint 32 (GetSize t);
  GetAlignment_pow2 t : exists k, 0 <= k < 32 /\ GetAlignment t = 2 ^ k
}.

(** * The layout of a struct *)

Record LayoutHelper := mkLayoutHelper { size_ : Z; alignment_ : Z; offsets_ : list Z }.

Section layout.
Context `{AlignOps} {T : Type} `{TypeLayout T}.

(** The body of the loop: pad, place the field, go on behind it; [size_] is a [uint32_t]. *)
Definition place_field (l : LayoutHelper) (field : T) : LayoutHelper :=
  let field_align := GetAlignment field in
  let size := if negb (IsAligned (size_ l) field_align) then wrapu 32 (AlignTo (size_ l) field_align) else size_ l in
  {| offsets_ := offsets_ l ++ [size];
     size_ := wrapu 32 (size + GetSize field);
     alignment_ := Z.max (alignment_ l) field_align |}.

Definition new_LayoutHelper (fields : list T) : LayoutHelper :=
  let l := foldl place_field (mkLayoutHelper 0 0 []) fields in
  let alignment := if alignment_ l =? 0 then 1 else alignment_ l in
  {| size_ := if negb (IsAligned (size_ l) alignment) then wrapu 32 (AlignTo (size_ l) alignment) else size_ l;
     alignment_ := alignment;
     offsets_ := offsets_ l |}.

End layout.

(** * Items placed one after the other

    [placed at_ l stop]: the items of [l], each an offset with a size and an alignment, are placed
    from [at_] on, each at the first multiple of its alignment behind the one before, and end at
    [stop]. *)
Fixpoint placed (at_ : Z) (l : list (Z * (Z * Z))) (stop : Z) : Prop :=
  match l with
  | [] => stop = at_
  | (off, (size, align)) :: l' => at_ <= off < at_ + align /\ (align | off) /\ placed (off + size) l' stop
  end.

Lemma placed_snoc at_ l mid off size align :
  placed at_ l mid -> mid <= off < mid + align -> (align | off) ->
  placed at_ (l ++ [(off, (size, align))]) (off + size).
Proof.
  revert at_. induction l as [|[o [s a]] l IH]; intros at_; simpl.
  - intros -> ? ?. done.
  - intros (Ho & Hd & Hp) ? ?. split; [done|split; [done|by apply IH]].
Qed.

Lemma placed_bounds at_ l stop : Forall (fun i => 0 <= i.2.1) l -> placed at_ l stop ->
  at_ <= stop /\ Forall (fun i => at_ <= i.1 /\ i.1 + i.2.1 <= stop) l.
Proof.
  intros Hs. revert at_. induction Hs as [|[o [s a]] l Hsz Hs IH]; intros at_; simpl; [intros ->; split; [lia|done]|].
  intros (Ho & _ & Hp). simpl in Hsz. destruct (IH _ Hp) as [Hle Hall]. split; [lia|].
  constructor; [simpl; lia|]. eapply Forall_impl; [exact Hall|]. simpl. intros i Hi. lia.
Qed.

(** Two items do not overlap, in the order they were placed. *)
Lemma placed_disjoint at_ l stop i j x y : Forall (fun i => 0 <= i.2.1) l -> placed at_ l stop ->
  l !! i = Some x -> l !! j = Some y -> (i < j)%nat -> x.1 + x.2.1 <= y.1.
Proof.
  intros Hs. revert at_ i j. induction Hs as [|[o [s a]] l Hsz Hs IH]; intros at_ i j; simpl; [done|].
  intros (Ho & _ & Hp) Hi Hj Hij. destruct j as [|j]; [lia|]. simpl in Hj. destruct i as [|i].
  - injection Hi as <-. simpl. destruct (placed_bounds _ _ _ Hs Hp) as [_ Hall].
    rewrite Forall_lookup in Hall. by apply Hall in Hj as [? _].
  - simpl in Hi. eapply IH; [done|done|done|lia].
Qed.

Lemma placed_aligned at_ l stop : placed at_ l stop -> Forall (fun i => (i.2.2 | i.1)) l.
Proof.
  revert at_. induction l as [|[o [s a]] l IH]; intros at_; simpl; [done|].
  intros (_ & Hd & Hp). constructor; [done|]. by eapply IH.
Qed.

(** The space an item may need, its padding included. *)
Definition room {T} `{TypeLayout T} (ts : list T) : Z := foldr (fun t n => GetSize t + GetAlignment t + n) 0 ts.

(** * Alignment *)

Lemma IsAligned_pow2 value k : 0 <= k -> IsAligned value (2 ^ k) = true <-> (2 ^ k | value).
Proof.
  intros Hk. unfold IsAligned. rewrite Z.eqb_eq.
  replace (2 ^ k - 1) with (Z.ones k) by (rewrite Z.ones_equiv; lia).
  rewrite Z.land_ones by done. pose proof (pow2_pos k Hk). apply Z.mod_divide. lia.
Qed.

(** The padding step of both layouts puts the next item at the first multiple of its alignment. *)
Lemma pad_spec `{AlignOpsSpec} size k : 0 <= size -> size + 2 ^ k <= 2 ^ 32 -> 0 <= k < 32 ->
  let off := if negb (IsAligned size (2 ^ k)) then AlignTo size (2 ^ k) else size in
  size <= off < size + 2 ^ k /\ (2 ^ k | off).
Proof.
  intros Hs Hmax Hk. cbv zeta. pose proof (pow2_pos k ltac:(lia)). destruct (IsAligned _ _) eqn:Ha; simpl.
  - apply IsAligned_pow2 in Ha; [|lia]. split; [lia|done].
  - apply alignTo_spec; lia.
Qed.

(** * The layout of a struct places its fields *)

Section layout_correct.
Context `{AlignOpsSpec} {T : Type} `{TypeLayoutSpec T}.

Definition info (t : T) : Z * Z := (GetSize t, GetAlignment t).

Lemma GetAlignment_pos t : 0 < GetAlignment t <= 2 ^ 31.
Proof.
  destruct (GetAlignment_pow2 t) as (k & Hk & ->). split; [apply pow2_pos; lia|].
  apply Z.pow_le_mono_r; lia.
Qed.

Lemma room_snoc (ts : list T) t : room (ts ++ [t]) = room ts + GetSize t + GetAlignment t.
Proof. unfold room. induction ts as [|t' ts IH]; simpl; [lia|]. rewrite IH. lia. Qed.

Lemma room_app (ts ts' : list T) : room (ts ++ ts') = room ts + room ts'.
Proof. unfold room. induction ts as [|t ts IH]; simpl; [done|]. rewrite IH. lia. Qed.

Lemma room_nonneg (ts : list T) : 0 <= room ts.
Proof.
  unfold room. induction ts as [|t ts IH]; simpl; [lia|].
  pose proof (GetSize_range t) as [? _]. pose proof (GetAlignment_pos t). lia.
Qed.

(** The larger of two powers of two is a multiple of the other. *)
Lemma pow2_max_divides a b : (exists k, 0 <= k < 32 /\ a = 2 ^ k) -> (exists k, 0 <= k < 32 /\ b = 2 ^ k) ->
  (a | Z.max a b) /\ (b | Z.max a b) /\ exists k, 0 <= k < 32 /\ Z.max a b = 2 ^ k.
Proof.
  assert (forall i j, 0 <= i <= j -> (2 ^ i | 2 ^ j)) as Hd.
  { intros i j Hij. exists (2 ^ (j - i)). rewrite <- Z.pow_add_r by lia. f_equal. lia. }
  intros (i & Hi & ->) (j & Hj & ->). destruct (Z.le_ge_cases i j) as [Hij|Hij].
  - rewrite Z.max_r by (apply Z.pow_le_mono_r; lia). split_and!; [apply Hd; lia|done|by exists j].
  - rewrite Z.max_l by (apply Z.pow_le_mono_r; lia). split_and!; [done|apply Hd; lia|by exists i].
Qed.

Definition aligned_for (ts : list T) (a : Z) : Prop :=
  match ts with [] => a = 0 | _ => exists k, 0 <= k < 32 /\ a = 2 ^ k end /\ Forall (fun t => (GetAlignment t | a)) ts.

Lemma aligned_for_snoc ts a t : aligned_for ts a -> aligned_for (ts ++ [t]) (Z.max a (GetAlignment t)).
Proof.
  intros [Ha Hall]. pose proof (GetAlignment_pos t) as Hp. destruct ts as [|t0 ts].
  - subst a. rewrite Z.max_r by lia. split; [apply GetAlignment_pow2|]. by constructor.
  - destruct (pow2_max_divides a (GetAlignment t) Ha (GetAlignment_pow2 t)) as (H1' & H2' & H3').
    split; [done|]. apply Forall_app. split; [|by constructor].
    eapply Forall_impl; [exact Hall|]. intros t' Ht'. exact (Z.divide_trans _ _ _ Ht' H1').
Qed.

Lemma place_fields (ts : list T) : room ts <= 2 ^ 31 ->
  let l := foldl place_field (mkLayoutHelper 0 0 []) ts in
  placed 0 (zip (offsets_ l) (map info ts)) (size_ l) /\ length (offsets_ l) = length ts /\
  0 <= size_ l <= room ts /\ aligned_for ts (alignment_ l).
Proof.
  induction ts as [|t ts IH] using rev_ind; [intros _; repeat split; try done; simpl; lia|].
  rewrite room_snoc, foldl_app. intros Hroom. cbn [foldl].
  pose proof (GetSize_range t) as [Hs _]. pose proof (GetAlignment_pos t) as Ha.
  destruct IH as (Hp & Hl & Hsz & Hal); [lia|].
  set (l := foldl place_field _ ts) in *. destruct (GetAlignment_pow2 t) as (k & Hk & Ek).
  pose proof (pad_spec (size_ l) k ltac:(lia)) as Hpad. rewrite <- Ek in Hpad. cbv zeta in Hpad.
  destruct Hpad as [Hoff Hdiv]; [lia|done|]. set (off := if negb _ then AlignTo _ _ else _) in *.
  assert ((if negb (IsAligned (size_ l) (GetAlignment t)) then wrapu 32 (AlignTo (size_ l) (GetAlignment t)) else size_ l) = off) as Eoff.
  { subst off. destruct (negb _); [|done]. apply wrapu_small. split; lia. }
  unfold place_field. rewrite Eoff. cbn [offsets_ size_ alignment_]. rewrite wrapu_small by (split; lia).
  split_and!.
  - rewrite map_app, zip_with_app by (by rewrite length_map). simpl.
    apply (placed_snoc 0 _ (size_ l) off (GetSize t) (GetAlignment t)); done.
  - rewrite !length_app, Hl. done.
  - lia.
  - lia.
  - by apply aligned_for_snoc.
Qed.

Lemma LayoutHelper_places (ts : list T) : room ts <= 2 ^ 31 ->
  let l := new_LayoutHelper ts in exists stop,
  placed 0 (zip (offsets_ l) (map info ts)) stop /\ length (offsets_ l) = length ts /\
  stop <= size_ l < stop + alignment_ l /\ (alignment_ l | size_ l) /\
  Forall (fun t => (GetAlignment t | alignment_ l)) ts.
Proof.
  intros Hroom. pose proof (place_fields ts Hroom) as (Hp & Hl & Hsz & Hal).
  unfold new_LayoutHelper. set (l := foldl place_field _ ts) in *. cbn [offsets_ size_ alignment_].
  exists (size_ l). split; [done|]. split; [done|].
  assert (exists k, 0 <= k < 32 /\ (if alignment_ l =? 0 then 1 else alignment_ l) = 2 ^ k) as (k & Hk & Ek).
  { destruct Hal as [Hal _]. destruct ts; [rewrite Hal; by exists 0|]. destruct Hal as (k & Hk & ->).
    exists k. pose proof (pow2_pos k ltac:(lia)). by rewrite (proj2 (Z.eqb_neq _ 0)) by lia. }
  assert (Forall (fun t => (GetAlignment t | if alignment_ l =? 0 then 1 else alignment_ l)) ts) as Hall.
  { destruct Hal as [Hal Hall]. destruct ts; [constructor|]. destruct Hal as (j & Hj & Ej).
    pose proof (pow2_pos j ltac:(lia)). rewrite Ej in *. by rewrite (proj2 (Z.eqb_neq _ 0)) by lia. }
  rewrite Ek in *. pose proof (Z.pow_le_mono_r 2 k 31 ltac:(lia) ltac:(lia)) as Hle.
  destruct (pad_spec (size_ l) k) as [Hoff Hdiv]; [lia|lia|done|].
  destruct (negb _); [rewrite wrapu_small by (split; lia)|]; done.
Qed.

Lemma LayoutHelper_zip (ts : list T) stop : let l := new_LayoutHelper ts in
  placed 0 (zip (offsets_ l) (map info ts)) stop -> length (offsets_ l) = length ts ->
  Forall (fun i : Z * (Z * Z) => 0 <= i.2.1) (zip (offsets_ l) (map info ts)) /\
  forall i t off, ts !! i = Some t -> offsets_ l !! i = Some off -> zip (offsets_ l) (map info ts) !! i = Some (off, info t).
Proof.
  intros l Hp Hl. split.
  - apply Forall_forall. intros [o [s a]] Hi%elem_of_zip_r. simpl in *. apply list_elem_of_fmap in Hi as (t & [= -> ->] & _).
    apply GetSize_range.
  - intros i t off Ht Ho. rewrite lookup_zip_with, Ho. simpl. by rewrite list_lookup_fmap, Ht.
Qed.

(** A field is in the struct, aligned. *)
Lemma LayoutHelper_field (ts : list T) : room ts <= 2 ^ 31 -> let l := new_LayoutHelper ts in
  forall i t off, ts !! i = Some t -> offsets_ l !! i = Some off ->
  0 <= off /\ off + GetSize t <= size_ l /\ (GetAlignment t | off) /\ (GetAlignment t | alignment_ l).
Proof.
  intros Hroom l i t off Ht Ho. destruct (LayoutHelper_places ts Hroom) as (stop & Hp & Hl & Hs & Hd & Ha).
  fold l in Hp, Hl, Hs, Hd, Ha. destruct (LayoutHelper_zip ts stop Hp Hl) as [Hsz Hzip]. specialize (Hzip i t off Ht Ho).
  destruct (placed_bounds _ _ _ Hsz Hp) as [_ Hb]. rewrite Forall_lookup in Hb. specialize (Hb _ _ Hzip) as [? ?].
  pose proof (placed_aligned _ _ _ Hp) as Hal. rewrite Forall_lookup in Hal. specialize (Hal _ _ Hzip).
  rewrite Forall_lookup in Ha. specialize (Ha _ _ Ht). simpl in *. split_and!; try done; lia.
Qed.

End layout_correct.
