(* ===== verification/Types.v ===== *)
(** The types of TPL: [src/include/ast/type.h], [src/ast/type.cpp], [src/ast/type_printer.cpp] and the
    part of [src/ast/context.cpp] that makes types unique.

    The context hands out one object for each type, so two types are the same object when they are made
    of the same parts; a named struct gets a name no other has.  The sizes of the C++ classes that
    builtin types stand for are those of the compiler: [CppClasses]. *)
From stdpp Require Import pretty.
From S2P Require Import Prelude BitUtil Layout Ast.

#[local] Set Warnings "-register-all".

(** * Builtin types: [BUILTIN_TYPE_LIST] *)

Inductive BuiltinKind : Set :=
  | Nil | Bool | Int8 | Int16 | Int32 | Int64 | UInt8 | UInt16 | UInt32 | UInt64 | Int128 | UInt128
  | Float32 | Float64
  | AggregationHashTable | AnalysisStats | AHTIterator | AHTVectorIterator | AHTOverflowPartitionIterator
  | CompactStorage | CSVReader | Date | ExecutionContext | FilterManager | HashTableEntry | JoinHashTable
  | MemoryPool | Sorter | SorterIterator | TableVectorIterator | ThreadStateContainer | Timestamp
  | TupleIdList | VarlenEntry | VarlenHeap | VectorProjection | VectorProjectionIterator
  | CountAggregate | CountStarAggregate | AvgAggregate | IntegerMaxAggregate | IntegerMinAggregate
  | IntegerSumAggregate | RealMaxAggregate | RealMinAggregate | RealSumAggregate | DateMinAggregate
  | DateMaxAggregate | StringMinAggregate | StringMaxAggregate
  | BooleanVal | IntegerVal | RealVal | DecimalVal | StringVal | DateVal | TimestampVal.

#[export] Instance BuiltinKind_eq_dec : EqDecision BuiltinKind.
Proof. solve_decision. Defined.

(** Every kind in the order of the enumeration, with the name TPL code gives it. *)
Definition builtin_types_list : list (BuiltinKind * string) :=
  [(Nil, "nil"); (Bool, "bool"); (Int8, "int8"); (Int16, "int16"); (Int32, "int32"); (Int64, "int64");
   (UInt8, "uint8"); (UInt16, "uint16"); (UInt32, "uint32"); (UInt64, "uint64"); (Int128, "int128");
   (UInt128, "uint128"); (Float32, "float32"); (Float64, "float64");
   (AggregationHashTable, "AggregationHashTable"); (AnalysisStats, "AnalysisStats");
   (AHTIterator, "AHTIterator"); (AHTVectorIterator, "AHTVectorIterator");
   (AHTOverflowPartitionIterator, "AHTOverflowPartitionIterator"); (CompactStorage, "CompactStorage");
   (CSVReader, "CSVReader"); (Date, "Date"); (ExecutionContext, "ExecutionContext");
   (FilterManager, "FilterManager"); (HashTableEntry, "HashTableEntry"); (JoinHashTable, "JoinHashTable");
   (MemoryPool, "MemoryPool"); (Sorter, "Sorter"); (SorterIterator, "SorterIterator");
   (TableVectorIterator, "TableVectorIterator"); (ThreadStateContainer, "ThreadStateContainer");
   (Timestamp, "Timestamp"); (TupleIdList, "TupleIdList"); (VarlenEntry, "VarlenEntry");
   (VarlenHeap, "VarlenHeap"); (VectorProjection, "VectorProjection");
   (VectorProjectionIterator, "VectorProjectionIterator");
   (CountAggregate, "CountAggregate"); (CountStarAggregate, "CountStarAggregate");
   (AvgAggregate, "AvgAggregate"); (IntegerMaxAggregate, "IntegerMaxAggregate");
   (IntegerMinAggregate, "IntegerMinAggregate"); (IntegerSumAggregate, "IntegerSumAggregate");
   (RealMaxAggregate, "RealMaxAggregate"); (RealMinAggregate, "RealMinAggregate");
   (RealSumAggregate, "RealSumAggregate"); (DateMinAggregate, "DateMinAggregate");
   (DateMaxAggregate, "DateMaxAggregate"); (StringMinAggregate, "StringMinAggregate");
   (StringMaxAggregate, "StringMaxAggregate");
   (BooleanVal, "BooleanVal"); (IntegerVal, "IntegerVal"); (RealVal, "RealVal"); (DecimalVal, "DecimalVal");
   (StringVal, "StringVal"); (DateVal, "DateVal"); (TimestampVal, "TimestampVal")]%string.

(** The number of an enumerator, and [kTplNames]. *)
Definition kind_index (k : BuiltinKind) : nat :=
  match list_find (fun e => e.1 = k) builtin_types_list with Some (i, _) => i | None => 0%nat end.
Definition GetTplName (k : BuiltinKind) : string :=
  match list_find (fun e => e.1 = k) builtin_types_list with Some (_, e) => e.2 | None => EmptyString end.
Definition kind_between (lo hi k : BuiltinKind) : bool :=
  Nat.leb (kind_index lo) (kind_index k) && Nat.leb (kind_index k) (kind_index hi).

Definition IsIntegral (k : BuiltinKind) : bool := kind_between Int8 UInt128 k.
Definition IsSqlValue (k : BuiltinKind) : bool := kind_between BooleanVal TimestampVal k.
Definition IsSqlAggregateType (k : BuiltinKind) : bool := kind_between CountAggregate RealSumAggregate k.
Definition IsFloatingPoint (k : BuiltinKind) : bool := match k with Float32 | Float64 => true | _ => false end.

(** What the C++ compiler says of the classes behind the builtin types, and of [std::unordered_map];
    whether a 128-bit integer counts as a signed type is up to its dialect. *)
Class CppClasses := {
  cpp_sizeof : BuiltinKind -> Z;
  cpp_alignof : BuiltinKind -> Z;
  unordered_map_sizeof : Z;
  unordered_map_alignof : Z;
  int128_is_signed : bool
}.
Class CppClassesSpec `{CppClasses} := {
  cpp_sizeof_range k : is_uint 32 (cpp_sizeof k);
  cpp_alignof_pow2 k : exists n, 0 <= n < 32 /\ cpp_alignof k = 2 ^ n;
  cpp_sizeof_multiple k : (cpp_alignof k | cpp_sizeof k);
  unordered_map_sizeof_range : is_uint 32 unordered_map_sizeof;
  unordered_map_sizeof_multiple : (unordered_map_alignof | unordered_map_sizeof);
  unordered_map_alignof_pow2 : exists n, 0 <= n < 32 /\ unordered_map_alignof = 2 ^ n
}.

(** The size of a fundamental type, which is its alignment too. *)
Definition primitive_size (k : BuiltinKind) : option Z :=
  match k with
  | Nil | Bool | Int8 | UInt8 => Some 1
  | Int16 | UInt16 => Some 2
  | Int32 | UInt32 | Float32 => Some 4
  | Int64 | UInt64 | Float64 => Some 8
  | Int128 | UInt128 => Some 16
  | _ => None
  end.
Definition kind_size `{CppClasses} (k : BuiltinKind) : Z := default (cpp_sizeof k) (primitive_size k).
Definition kind_alignment `{CppClasses} (k : BuiltinKind) : Z := default (cpp_alignof k) (primitive_size k).
Definition IsSigned `{CppClasses} (k : BuiltinKind) : bool :=
  match k with Int8 | Int16 | Int32 | Int64 | Float32 | Float64 => true | Int128 => int128_is_signed | _ => false end.

(** * Types *)

(** An array of length 0 is one of unknown length; a struct without a name is anonymous. *)
Inductive TplType : Set :=
  | BuiltinType (kind : BuiltinKind)
  | StringType
  | PointerType (base : TplType)
  | ArrayType (length : Z) (elem_type : TplType)
  | MapType (key_type val_type : TplType)
  | StructType (name : option Identifier) (fields : list (option Identifier * TplType))
  | FunctionType (params : list (option Identifier * TplType)) (ret : TplType).

Section TplType_ind.
Variable P : TplType -> Prop.
Hypothesis Hbuiltin : forall k, P (BuiltinType k).
Hypothesis Hstring : P StringType.
Hypothesis Hpointer : forall b, P b -> P (PointerType b).
Hypothesis Harray : forall n e, P e -> P (ArrayType n e).
Hypothesis Hmap : forall k v, P k -> P v -> P (MapType k v).
Hypothesis Hstruct : forall n fs, Forall (fun f => P f.2) fs -> P (StructType n fs).
Hypothesis Hfunction : forall ps r, Forall (fun f => P f.2) ps -> P r -> P (FunctionType ps r).

Fixpoint TplType_ind' (t : TplType) : P t :=
  let fields := fix fields (fs : list (option Identifier * TplType)) : Forall (fun f => P f.2) fs :=
    match fs with [] => Forall_nil_2 _ | f :: fs' => Forall_cons_2 _ f fs' (TplType_ind' f.2) (fields fs') end in
  match t with
  | BuiltinType k => Hbuiltin k
  | StringType => Hstring
  | PointerType b => Hpointer b (TplType_ind' b)
  | ArrayType n e => Harray n e (TplType_ind' e)
  | MapType k v => Hmap k v (TplType_ind' k) (TplType_ind' v)
  | StructType n fs => Hstruct n fs (fields fs)
  | FunctionType ps r => Hfunction ps r (fields ps) (TplType_ind' r)
  end.
End TplType_ind.

(** Uniqued types are compared by their addresses. *)
Definition fields_eqb (eqb : TplType -> TplType -> bool) : list (option Identifier * TplType) -> list (option Identifier * TplType) -> bool :=
  fix go fs gs :=
    match fs, gs with
    | [], [] => true
    | f :: fs', g :: gs' => bool_decide (f.1 = g.1) && eqb f.2 g.2 && go fs' gs'
    | _, _ => false
    end.
Fixpoint type_eqb (t u : TplType) {struct t} : bool :=
  match t, u with
  | BuiltinType k, BuiltinType k' => bool_decide (k = k')
  | StringType, StringType => true
  | PointerType b, PointerType b' => type_eqb b b'
  | ArrayType n e, ArrayType n' e' => (n =? n') && type_eqb e e'
  | MapType k v, MapType k' v' => type_eqb k k' && type_eqb v v'
  | StructType n fs, StructType n' fs' => bool_decide (n = n') && fields_eqb type_eqb fs fs'
  | FunctionType ps r, FunctionType ps' r' => fields_eqb type_eqb ps ps' && type_eqb r r'
  | _, _ => false
  end.

Lemma fields_eqb_eq eqb fs : Forall (fun f => forall u, eqb f.2 u = true <-> f.2 = u) fs ->
  forall gs, fields_eqb eqb fs gs = true <-> fs = gs.
Proof.
  induction 1 as [|[a t] fs Ht IH IHfs]; intros [|[b u] gs]; cbn; try done.
  rewrite !andb_true_iff, bool_decide_eq_true, Ht, IHfs. cbn. naive_solver.
Qed.

Lemma type_eqb_eq t : forall u, type_eqb t u = true <-> t = u.
Proof.
  induction t as [k| |b IH|n e IH|k v IHk IHv|n fs IH|ps r IHp IHr] using TplType_ind'; intros u;
    destruct u as [k'| |b'|n' e'|k' v'|n' fs'|ps' r']; cbn [type_eqb]; try (split; [discriminate|discriminate]); try done.
  - rewrite bool_decide_eq_true. split; congruence.
  - rewrite IH. split; congruence.
  - rewrite andb_true_iff, IH, Z.eqb_eq. split; [intros [-> ->]|intros [= -> ->]]; done.
  - rewrite andb_true_iff, IHk, IHv. split; [intros [-> ->]|intros [= -> ->]]; done.
  - rewrite andb_true_iff, bool_decide_eq_true, (fields_eqb_eq _ _ IH). split; [intros [-> ->]|intros [= -> ->]]; done.
  - rewrite andb_true_iff, IHr, (fields_eqb_eq _ _ IHp). split; [intros [-> ->]|intros [= -> ->]]; done.
Qed.

#[export] Instance TplType_eq_dec : EqDecision TplType.
Proof. intros t u. destruct (type_eqb t u) eqn:E; [left|right]; rewrite <- type_eqb_eq; congruence. Defined.

(** ** Queries *)

Definition IsSpecificBuiltin (t : TplType) (k : BuiltinKind) : bool :=
  match t with BuiltinType k' => bool_decide (k' = k) | _ => false end.
Definition IsNilType (t : TplType) : bool := IsSpecificBuiltin t Nil.
Definition IsBoolType (t : TplType) : bool := IsSpecificBuiltin t Bool.
Definition IsIntegerType (t : TplType) : bool := match t with BuiltinType k => IsIntegral k | _ => false end.
Definition IsFloatType (t : TplType) : bool := match t with BuiltinType k => IsFloatingPoint k | _ => false end.
Definition IsSqlValueType (t : TplType) : bool := match t with BuiltinType k => IsSqlValue k | _ => false end.
Definition IsSqlAggregatorType (t : TplType) : bool :=
  match t with BuiltinType k => IsSqlAggregateType k | _ => false end.
Definition IsArithmetic (t : TplType) : bool :=
  IsIntegerType t || IsFloatType t || IsSpecificBuiltin t IntegerVal || IsSpecificBuiltin t RealVal ||
  IsSpecificBuiltin t DecimalVal.
Definition IsStringType (t : TplType) : bool := match t with StringType => true | _ => false end.
Definition IsPointerType (t : TplType) : bool := match t with PointerType _ => true | _ => false end.
Definition IsArrayType (t : TplType) : bool := match t with ArrayType _ _ => true | _ => false end.
Definition IsMapType (t : TplType) : bool := match t with MapType _ _ => true | _ => false end.
Definition IsStructType (t : TplType) : bool := match t with StructType _ _ => true | _ => false end.
Definition IsFunctionType (t : TplType) : bool := match t with FunctionType _ _ => true | _ => false end.
Definition GetPointeeType (t : TplType) : option TplType := match t with PointerType b => Some b | _ => None end.
Definition PointerTo (t : TplType) : TplType := PointerType t.
Definition HasUnknownLength (length : Z) : bool := length =? 0.

(** [StructType::LookupFieldByName]: the first field of the name. *)
Definition LookupFieldByName (fields : list (option Identifier * TplType)) (name : option Identifier) : option TplType :=
  snd <$> List.find (fun f => bool_decide (f.1 = name)) fields.

(** ** Sizes *)

Section sizes.
Context `{AlignOps, CppClasses}.

(** A struct is laid out from the sizes and alignments of its fields. *)
#[local] Instance measured : TypeLayout (Z * Z) := {| GetSize := fst; GetAlignment := snd |}.

(** The size and the alignment of a type, [uint32_t]s. *)
Fixpoint measure (t : TplType) : Z * Z :=
  match t with
  | BuiltinType k => (kind_size k, kind_alignment k)
  | StringType | PointerType _ | FunctionType _ _ => (8, 8)
  | ArrayType length elem_type =>
      if length =? 0 then (8, 8)
      else let '(size, align) := measure elem_type in (wrapu 32 (wrapu 64 (size * length)), align)
  | MapType _ _ => (unordered_map_sizeof, unordered_map_alignof)
  | StructType _ fields =>
      let helper := new_LayoutHelper (map (fun f => measure f.2) fields) in (size_ helper, alignment_ helper)
  end.

#[export] Instance TplType_layout : TypeLayout TplType :=
  {| GetSize t := (measure t).1; GetAlignment t := (measure t).2 |}.

Definition field_offsets (fields : list (option Identifier * TplType)) : list Z :=
  offsets_ (new_LayoutHelper (map (fun f => measure f.2) fields)).
(** The offset of a field that does not exist is 0. *)
Definition GetOffsetOfFieldByName (fields : list (option Identifier * TplType)) (name : option Identifier) : Z :=
  match list_find (fun f => f.1 = name) fields with Some (i, _) => nth i (field_offsets fields) 0 | None => 0 end.

End sizes.

(** * The context *)

Record Context := mkContext { named_struct_types : gset Identifier; named_struct_types_unique_id : Z }.
Definition new_Context : Context := mkContext ∅ 0.

(** [impl_->builtin_types]: the names of the builtin types, and three aliases. *)
Definition builtin_type_names : list (Identifier * BuiltinKind) :=
  map (fun e => (bytes e.2, e.1)) builtin_types_list ++
  [(bytes "int", Int32); (bytes "float", Float32); (bytes "void", Nil)].
Definition LookupBuiltinType (name : Identifier) : option TplType :=
  (fun e => BuiltinType e.2) <$> List.find (fun e => bool_decide (e.1 = name)) builtin_type_names.

(** [StructType::Get] without a name. *)
Definition StructType_Get_anonymous (fields : list (option Identifier * TplType)) : TplType :=
  StructType None (match fields with [] => [(Some (bytes "__field$0$"), BuiltinType Int8)] | _ => fields end).

(** [StructType::Get] with a name: the [do] loop tries the numbers of the counter until a name is free. *)
Fixpoint unique_name (fuel : nat) (name : Identifier) (ctx : Context) : option (Identifier * Context) :=
  match fuel with
  | O => None
  | S fuel' =>
      let id := named_struct_types_unique_id ctx in
      let candidate := name ++ bytes "_" ++ bytes (pretty id) in
      let ctx := mkContext (named_struct_types ctx) (id + 1) in
      if decide (candidate ∈ named_struct_types ctx) then unique_name fuel' name ctx else Some (candidate, ctx)
  end.
Definition StructType_Get (name : Identifier) (fields : list (option Identifier * TplType)) (ctx : Context)
  : option (TplType * Context) :=
  '(name, ctx) ← (if decide (name ∈ named_struct_types ctx)
                  then unique_name (S (size (named_struct_types ctx))) name ctx
                  else Some (name, ctx));
  Some (StructType (Some name) fields,
        mkContext ({[name]} ∪ named_struct_types ctx) (named_struct_types_unique_id ctx)).

(** * Printing: [Type::ToString] *)

Fixpoint separated (l : list (list Z)) : list Z :=
  match l with [] => [] | [x] => x | x :: l' => x ++ bytes "," ++ separated l' end.
Fixpoint Type_ToString (t : TplType) : list Z :=
  match t with
  | BuiltinType k => bytes (GetTplName k)
  | FunctionType ps r => bytes "(" ++ separated (map (fun p => Type_ToString p.2) ps) ++ bytes ")->" ++ Type_ToString r
  | StringType => bytes "string"
  | PointerType b => bytes "*" ++ Type_ToString b
  | StructType _ fs => bytes "struct{" ++ separated (map (fun f => Type_ToString f.2) fs) ++ bytes "}"
  | ArrayType n e => bytes "[" ++ (if HasUnknownLength n then bytes "*" else bytes (pretty n)) ++ bytes "]" ++ Type_ToString e
  | MapType k v => bytes "map[" ++ Type_ToString k ++ bytes "]" ++ Type_ToString v
  end.
