(* ===== verification/TypesSpec.v ===== *)
(** The theorems about types: the layout of values of any type in memory, and the names of structs. *)
From stdpp Require Import pretty.
From S2P Require Import Prelude BitUtil Layout Ast Types.

(** * Sizes and alignments *)

Section layout.
Context `{AlignOpsSpec, CppClassesSpec}.

(** What every type's size and alignment satisfy. *)
Definition sane (m : Z * Z) : Prop := is_uint 32 m.1 /\ exists k, 0 <= k < 32 /\ m.2 = 2 ^ k.

Lemma kind_sane k : sane (kind_size k, kind_alignment k).
Proof.
  unfold kind_size, kind_alignment. destruct (primitive_size k) as [n|] eqn:E; cbn [default].
  - assert (exists i, 0 <= i < 5 /\ n = 2 ^ i) as (i & Hi & ->).
    { destruct k; try discriminate E; injection E as <-;
        [by exists 0|by exists 0|by exists 0|by exists 1|by exists 2|by exists 3|by exists 0|by exists 1|by exists 2|by exists 3
        |by exists 4|by exists 4|by exists 2|by exists 3]. }
    split; [|exists i; split; [lia|done]]. change (0 <= 2 ^ i < 2 ^ 32).
    pose proof (pow2_pos i ltac:(lia)). pose proof (Z.pow_lt_mono_r 2 i 32 ltac:(lia) ltac:(lia) ltac:(lia)). lia.
  - split; [apply cpp_sizeof_range|apply cpp_alignof_pow2].
Qed.

(** Placing sane fields makes a sane struct. *)
Lemma place_fields_sane (fields : list TplType) : Forall (fun t => sane (measure t)) fields ->
  let l := foldl place_field (mkLayoutHelper 0 0 []) fields in
  is_uint 32 (size_ l) /\ (alignment_ l = 0 \/ exists k, 0 <= k < 32 /\ alignment_ l = 2 ^ k).
Proof.
  induction fields as [|t fields IH] using rev_ind; [intros _; split; [done|by left]|].
  rewrite Forall_app, Forall_singleton, foldl_app. intros [Hf [_ Ht]]. destruct (IH Hf) as [_ Ha]. cbn [foldl].
  split; [by apply wrapu_range|]. right. cbn [alignment_ place_field GetAlignment TplType_layout].
  destruct Ht as (k & Hk & ->). destruct Ha as [->|(j & Hj & ->)].
  - exists k. split; [done|]. pose proof (pow2_pos k ltac:(lia)). lia.
  - destruct (Z.max_spec (2 ^ j) (2 ^ k)) as [[_ ->]|[_ ->]]; [by exists k|by exists j].
Qed.
Lemma helper_sane (fields : list TplType) : Forall (fun t => sane (measure t)) fields ->
  let l := new_LayoutHelper fields in sane (size_ l, alignment_ l).
Proof.
  intros Hf. destruct (place_fields_sane fields Hf) as [Hs Ha]. unfold new_LayoutHelper. cbn [size_ alignment_].
  split; cbn [fst snd].
  - destruct (negb _); [by apply wrapu_range|done].
  - destruct Ha as [->|(k & Hk & ->)]; [by exists 0|]. exists k. split; [done|]. pose proof (pow2_pos k ltac:(lia)).
    by rewrite (proj2 (Z.eqb_neq _ 0)) by lia.
Qed.

(** A struct is measured by the measures of its fields, as by the fields. *)
Lemma helper_measures (fields : list TplType) :
  @new_LayoutHelper _ _ {| GetSize := fst; GetAlignment := snd |} (map measure fields) = new_LayoutHelper fields.
Proof.
  unfold new_LayoutHelper.
  assert (forall l, foldl (@place_field _ _ {| GetSize := fst; GetAlignment := snd |}) l (map measure fields) =
    foldl place_field l fields) as ->; [|done].
  induction fields as [|t fields IH]; intros l; [done|]. cbn [map foldl]. by rewrite <- IH.
Qed.

Lemma measure_sane t : sane (measure t).
Proof.
  induction t as [k| |b IH|n e IH|k v IHk IHv|n fs IH|ps r IHp IHr] using TplType_ind'; cbn [measure].
  - apply kind_sane.
  - split; [done|by exists 3].
  - split; [done|by exists 3].
  - destruct (n =? 0); [split; [done|by exists 3]|]. destruct (measure e) as [size align] eqn:E. destruct IH as [_ IH].
    split; [by apply wrapu_range|done].
  - split; [apply unordered_map_sizeof_range|apply unordered_map_alignof_pow2].
  - cbv zeta. rewrite <- (map_map snd measure fs), helper_measures. apply helper_sane, Forall_map, IH.
  - split; [done|by exists 3].
Qed.
#[export] Instance TplType_layout_spec : TypeLayoutSpec TplType.
Proof. split; intros t; apply measure_sane. Qed.

(** ** Parts of values *)

(** A part of a value of a type: at an offset, of a type. *)
Inductive part : TplType -> Z -> TplType -> Prop :=
  | part_self t : part t 0 t
  | part_element n e i o u : 0 <= i < n -> part e o u -> part (ArrayType n e) (GetSize e * i + o) u
  | part_field n fs i f off o u : fs !! i = Some f -> field_offsets fs !! i = Some off -> part f.2 o u ->
      part (StructType n fs) (off + o) u.

(** The type is small enough for its size to be a [uint32_t]. *)
Fixpoint fits (t : TplType) : Prop :=
  match t with
  | ArrayType n e => 0 <= n /\ n * GetSize e < 2 ^ 32 /\ fits e
  | StructType _ fs => room (map snd fs) <= 2 ^ 31 /\ fold_right and True (map (fun f => fits f.2) fs)
  | _ => True
  end.

Lemma StructType_measure n fs : measure (StructType n fs) =
  let l := new_LayoutHelper (map snd fs) in (size_ l, alignment_ l).
Proof. cbn [measure]. cbv zeta. by rewrite <- (map_map snd measure fs), helper_measures. Qed.
Lemma StructType_size n fs : GetSize (StructType n fs) = size_ (new_LayoutHelper (map snd fs)).
Proof. exact (f_equal fst (StructType_measure n fs)). Qed.
Lemma StructType_alignment n fs : GetAlignment (StructType n fs) = alignment_ (new_LayoutHelper (map snd fs)).
Proof. exact (f_equal snd (StructType_measure n fs)). Qed.
Lemma field_offsets_helper fs : field_offsets fs = offsets_ (new_LayoutHelper (map snd fs)).
Proof. unfold field_offsets. by rewrite <- (map_map snd measure fs), helper_measures. Qed.
Lemma ArrayType_size n e : 0 < n -> n * GetSize e < 2 ^ 32 -> GetSize (ArrayType n e) = GetSize e * n /\ GetAlignment (ArrayType n e) = GetAlignment e.
Proof.
  intros Hn Hs. pose proof (GetSize_range e) as [He _]. cbn in *. rewrite (proj2 (Z.eqb_neq n 0)) by lia.
  destruct (measure e) as [size align]. cbn in *. rewrite (wrapu_small 64), wrapu_small by (unfold is_uint; lia). done.
Qed.

(** The size of a type is a multiple of its alignment: an array has its elements aligned. *)
Lemma size_multiple t : fits t -> (GetAlignment t | GetSize t).
Proof.
  induction t as [k| |b IH|n e IH|k v IHk IHv|n fs IH|ps r IHp IHr] using TplType_ind'; intros Hfit; try (by exists 1).
  - cbn. unfold kind_size, kind_alignment. destruct (primitive_size k); cbn; [done|apply cpp_sizeof_multiple].
  - cbn [fits] in Hfit. destruct Hfit as (Hn & Hs & He). destruct (Z.eq_dec n 0) as [->|Hn0]; [by exists 1|].
    destruct (ArrayType_size n e) as [-> ->]; [lia|done|]. by apply Z.divide_mul_l, IH.
  - apply unordered_map_sizeof_multiple.
  - destruct Hfit as [Hroom _]. destruct (LayoutHelper_places _ Hroom) as (stop & _ & _ & _ & Hd & _).
    by rewrite StructType_size, StructType_alignment.
Qed.

(** C34: However deep, every part of a value is inside it and aligned: elements of arrays, fields of
    structs, and theirs. *)
Theorem parts_fit t o u : fits t -> part t o u ->
  0 <= o /\ o + GetSize u <= GetSize t /\ (GetAlignment u | o) /\ (GetAlignment u | GetAlignment t).
Proof.
  intros Hfit Hp. induction Hp as [t|n e i o u Hi Hp IH|n fs i f off o u Hf Ho Hp IH].
  - split_and!; [lia|lia|by exists 0|done].
  - cbn [fits] in Hfit. destruct Hfit as (Hn & Hs & He). destruct (ArrayType_size n e) as [-> ->]; [lia|done|].
    destruct (IH He) as (Ho & Hle & Hd & Hda). pose proof (GetSize_range e) as [Hse _]. pose proof (GetSize_range u) as [Hsu _].
    split_and!; [nia|nia| |done]. apply Z.divide_add_r; [|done]. apply Z.divide_mul_l.
    etransitivity; [exact Hda|by apply size_multiple].
  - cbn [fits] in Hfit. destruct Hfit as [Hroom Hall]. rewrite field_offsets_helper in Ho.
    assert (map snd fs !! i = Some f.2) as Hf2 by (by rewrite list_lookup_fmap, Hf).
    destruct (LayoutHelper_field _ Hroom _ _ _ Hf2 Ho) as (H0' & H1' & H2' & H3').
    destruct IH as (Ho' & Hle & Hd & Hda).
    { clear -Hall Hf. revert i Hf. induction fs as [|g fs IH]; intros [|i] Hf; try done; cbn in *.
      - injection Hf as ->. tauto.
      - exact (IH (proj2 Hall) i Hf). }
    rewrite StructType_size, StructType_alignment. split_and!; [lia|lia| |by etransitivity; [exact Hda|]]. apply Z.divide_add_r; [|done].
    etransitivity; [exact Hda|done].
Qed.

End layout.

(** * Names of structs *)

Definition candidate (name : Identifier) (id : Z) : Identifier := name ++ bytes "_" ++ bytes (pretty id).

Lemma bytes_inj s1 : forall s2, bytes s1 = bytes s2 -> s1 = s2.
Proof.
  induction s1 as [|c s1 IH]; intros [|d s2]; try done. cbn [bytes]. intros E. injection E as E Es.
  apply N2Z.inj in E. apply (f_equal ascii_of_N) in E. rewrite !ascii_N_embedding in E. subst d. by rewrite (IH _ Es).
Qed.
Lemma candidate_inj name id id' : candidate name id = candidate name id' -> id = id'.
Proof. intros E. apply app_inv_head, app_inv_head, bytes_inj in E. by apply (inj pretty) in E. Qed.

Lemma unique_name_spec name fuel : forall ctx,
  match unique_name fuel name ctx with
  | Some (n, ctx') => n ∉ named_struct_types ctx /\ named_struct_types ctx' = named_struct_types ctx /\
      exists id, named_struct_types_unique_id ctx <= id /\ n = candidate name id /\ named_struct_types_unique_id ctx' = id + 1
  | None => forall i : nat, (i < fuel)%nat -> candidate name (named_struct_types_unique_id ctx + Z.of_nat i) ∈ named_struct_types ctx
  end.
Proof.
  induction fuel as [|fuel IH]; intros ctx; cbn [unique_name]; [intros i Hi; lia|]. cbv zeta.
  fold (candidate name (named_struct_types_unique_id ctx)). cbn [named_struct_types]. destruct (decide _) as [Hin|Hin].
  - specialize (IH (mkContext (named_struct_types ctx) (named_struct_types_unique_id ctx + 1))). cbn in IH.
    destruct (unique_name _ _ _) as [[n ctx']|].
    + destruct IH as (Hn & Hs & id & Hid & Hc). split; [done|]. split; [done|]. exists id. split; [lia|done].
    + intros [|i] Hi; [by rewrite Z.add_0_r|]. specialize (IH i ltac:(lia)). by replace (named_struct_types_unique_id ctx + Z.of_nat (S i))
        with (named_struct_types_unique_id ctx + 1 + Z.of_nat i) by lia.
  - split; [done|]. split; [done|]. exists (named_struct_types_unique_id ctx). done.
Qed.

(** A name is free before more numbers have been tried than there are structs. *)
Lemma unique_name_Some name ctx : unique_name (S (size (named_struct_types ctx))) name ctx <> None.
Proof.
  intros E. pose proof (unique_name_spec name (S (size (named_struct_types ctx))) ctx) as Hs. rewrite E in Hs.
  set (id := named_struct_types_unique_id ctx) in *.
  set (tried := map (fun i => candidate name (id + Z.of_nat i)) (seq 0 (S (size (named_struct_types ctx))))).
  assert (NoDup tried) as Hnd.
  { apply NoDup_fmap_2_strong; [|apply NoDup_seq]. intros i j _ _ Hc. apply candidate_inj in Hc. lia. }
  assert (list_to_set tried ⊆ named_struct_types ctx) as Hsub.
  { intros n Hn. apply elem_of_list_to_set, list_elem_of_fmap in Hn as (i & -> & Hi). apply Hs. apply elem_of_seq in Hi. lia. }
  apply subseteq_size in Hsub. rewrite size_list_to_set in Hsub by done. unfold tried in Hsub.
  rewrite length_map, length_seq in Hsub. lia.
Qed.

(** A named struct is always made, its name is one no struct had, and it is the name asked for if that was
    free: the loop over numbers ends. *)
Theorem StructType_Get_fresh name fields ctx : exists n ctx',
  StructType_Get name fields ctx = Some (StructType (Some n) fields, ctx') /\
  n ∉ named_struct_types ctx /\ named_struct_types ctx' = {[n]} ∪ named_struct_types ctx /\
  (n = name /\ name ∉ named_struct_types ctx \/ name ∈ named_struct_types ctx /\ exists id, n = candidate name id).
Proof.
  unfold StructType_Get. destruct (decide _) as [Hin|Hout].
  - pose proof (unique_name_Some name ctx) as Hsome. pose proof (unique_name_spec name (S (size (named_struct_types ctx))) ctx) as Hs.
    destruct (unique_name _ _ _) as [[n ctx']|]; [|done]. destruct Hs as (Hn & Hsame & id & _ & -> & _). cbn.
    eexists _, _. split; [done|]. cbn. rewrite Hsame. eauto 10.
  - cbn. exists name. eexists. split; [done|]. cbn. eauto 10.
Qed.

(** * Witnesses *)

#[local] Instance example_align : AlignOps := {| alignTo v a := (v + a - 1) / a * a |}.
#[local] Instance example_align_spec : AlignOpsSpec.
Proof.
  split. intros v a Hv Ha _. cbn. pose proof (Z.div_mod (v + a - 1) a ltac:(lia)) as E.
  pose proof (Z.mod_pos_bound (v + a - 1) a Ha). split; [|by apply Z.divide_factor_r]. rewrite Z.mul_comm. lia.
Qed.
#[local] Instance example_classes : CppClasses :=
  {| cpp_sizeof _ := 24; cpp_alignof _ := 8; unordered_map_sizeof := 56; unordered_map_alignof := 8; int128_is_signed := true |}.
#[local] Instance example_classes_spec : CppClassesSpec.
Proof. split; [done|by exists 3|by exists 3|done|by exists 7|by exists 3]. Qed.

(** [struct { a: int8, b: [3]struct { c: int8, d: int64 } }] *)
Definition inner : TplType := StructType None [(Some (bytes "c"), BuiltinType Int8); (Some (bytes "d"), BuiltinType Int64)].
Definition outer : TplType := StructType None [(Some (bytes "a"), BuiltinType Int8); (Some (bytes "b"), ArrayType 3 inner)].
Lemma parts_fit_witness : part outer 48 (BuiltinType Int64) /\ 48 + GetSize (BuiltinType Int64) <= GetSize outer.
Proof.
  assert (8 + (GetSize inner * 2 + (8 + 0)) = 48) as E by (vm_compute; reflexivity).
  assert (part outer (8 + (GetSize inner * 2 + (8 + 0))) (BuiltinType Int64)) as Hp.
  { apply (part_field _ _ 1 (Some (bytes "b"), ArrayType 3 inner)); [reflexivity|vm_compute; reflexivity|].
    apply part_element; [lia|].
    apply (part_field _ _ 1 (Some (bytes "d"), BuiltinType Int64)); [reflexivity|vm_compute; reflexivity|constructor]. }
  rewrite E in Hp. split; [exact Hp|]. refine (proj1 (proj2 (parts_fit outer 48 (BuiltinType Int64) _ Hp))).
  vm_compute. intuition discriminate.
Defined.
