(* ===== verification/TypedAst.v ===== *)
(** The syntax tree as semantic analysis leaves it: the nodes of [Ast] with the types the checker gives
    them, and the casts it inserts ([src/include/ast/ast.h]).

    [type] is the field [Expression::type_]: null, [None], until the checker has set it. *)
From Stdlib Require Import SpecFloat.
From S2P Require Import Prelude Token Ast Types TreeInduction.

#[local] Set Warnings "-register-all".

(** [CAST_KINDS]. *)
Inductive CastKind : Set :=
  | IntToSqlInt | IntToSqlDecimal | SqlBoolToBool | BoolToSqlBool | IntegralCast | BitCast | FloatToSqlReal
  | SqlIntToSqlReal.

Inductive TExpression : Set :=
  | TBadExpression (pos : SourcePosition)
  | TBinaryOpExpression (pos : SourcePosition) (op : TokenType) (left right : TExpression) (type : option TplType)
  | TCallExpression (call_kind : CallKind) (func : TExpression) (args : list TExpression) (type : option TplType)
  | TComparisonOpExpression (pos : SourcePosition) (op : TokenType) (left right : TExpression) (type : option TplType)
  | TFunctionLiteralExpression (type_repr : TExpression) (body : TStatement) (type : option TplType)
  | TIdentifierExpression (pos : SourcePosition) (name : Identifier) (type : option TplType)
  | TImplicitCastExpression (pos : SourcePosition) (cast_kind : CastKind) (input : TExpression) (type : option TplType)
  | TIndexExpression (pos : SourcePosition) (object index : TExpression) (type : option TplType)
  | TLiteralExpression (pos : SourcePosition) (value : LiteralValue) (type : option TplType)
  | TMemberExpression (pos : SourcePosition) (object member : TExpression) (type : option TplType)
  | TUnaryOpExpression (pos : SourcePosition) (op : TokenType) (input : TExpression) (type : option TplType)
  | TArrayTypeRepr (pos : SourcePosition) (len elem_type : option TExpression) (type : option TplType)
  | TFunctionTypeRepr (pos : SourcePosition) (params : list TFieldDeclaration) (ret_type : option TExpression)
                      (type : option TplType)
  | TMapTypeRepr (pos : SourcePosition) (key val : option TExpression) (type : option TplType)
  | TPointerTypeRepr (pos : SourcePosition) (base : option TExpression) (type : option TplType)
  | TStructTypeRepr (pos : SourcePosition) (fields : list TFieldDeclaration) (type : option TplType)
with TFieldDeclaration : Set :=
  | mkTFieldDeclaration (pos : SourcePosition) (name : option Identifier) (type_repr : option TExpression)
with TStatement : Set :=
  | TAssignmentStatement (pos : SourcePosition) (dest src : TExpression)
  | TBlockStatement (pos rbrace_pos : SourcePosition) (statements : list TStatement)
  | TDeclarationStatement (decl : TDeclaration)
  | TExpressionStatement (expr : TExpression)
  | TForStatement (pos : SourcePosition) (init : option TStatement) (cond : option TExpression)
                  (next : option TStatement) (body : TStatement)
  | TForInStatement (pos : SourcePosition) (target iter : TExpression) (body : TStatement)
  | TIfStatement (pos : SourcePosition) (cond : TExpression) (then_stmt : TStatement) (else_stmt : option TStatement)
  | TReturnStatement (pos : SourcePosition) (ret : option TExpression)
with TDeclaration : Set :=
  | TFunctionDeclaration (pos : SourcePosition) (name : Identifier) (func : TExpression)
  | TStructDeclaration (pos : SourcePosition) (name : Identifier) (struct_type : TExpression)
  | TVariableDeclaration (pos : SourcePosition) (name : Identifier) (type_repr init : option TExpression).

Inductive TFile : Set := mkTFile (pos : SourcePosition) (decls : list TDeclaration).

Definition GetType (e : TExpression) : option TplType :=
  match e with
  | TBadExpression _ => None
  | TBinaryOpExpression _ _ _ _ t | TCallExpression _ _ _ t | TComparisonOpExpression _ _ _ _ t
  | TFunctionLiteralExpression _ _ t | TIdentifierExpression _ _ t | TImplicitCastExpression _ _ _ t
  | TIndexExpression _ _ _ t | TLiteralExpression _ _ t | TMemberExpression _ _ _ t | TUnaryOpExpression _ _ _ t
  | TArrayTypeRepr _ _ _ t | TFunctionTypeRepr _ _ _ t | TMapTypeRepr _ _ _ t | TPointerTypeRepr _ _ t
  | TStructTypeRepr _ _ t => t
  end.

Fixpoint texpr_pos (e : TExpression) : SourcePosition :=
  match e with
  | TBadExpression p | TBinaryOpExpression p _ _ _ _ | TComparisonOpExpression p _ _ _ _
  | TIdentifierExpression p _ _ | TImplicitCastExpression p _ _ _ | TIndexExpression p _ _ _
  | TLiteralExpression p _ _ | TMemberExpression p _ _ _ | TUnaryOpExpression p _ _ _ | TArrayTypeRepr p _ _ _
  | TFunctionTypeRepr p _ _ _ | TMapTypeRepr p _ _ _ | TPointerTypeRepr p _ _ | TStructTypeRepr p _ _ => p
  | TCallExpression _ func _ _ => texpr_pos func
  | TFunctionLiteralExpression type_repr _ _ => texpr_pos type_repr
  end.

(** ** The tree before the checker has seen it *)

Fixpoint untyped (e : Expression) : TExpression :=
  match e with
  | BadExpression p => TBadExpression p
  | BinaryOpExpression p op l r => TBinaryOpExpression p op (untyped l) (untyped r) None
  | CallExpression k f args => TCallExpression k (untyped f) (map untyped args) None
  | ComparisonOpExpression p op l r => TComparisonOpExpression p op (untyped l) (untyped r) None
  | FunctionLiteralExpression t b => TFunctionLiteralExpression (untyped t) (untyped_stmt b) None
  | IdentifierExpression p n => TIdentifierExpression p n None
  | IndexExpression p o i => TIndexExpression p (untyped o) (untyped i) None
  | LiteralExpression p v => TLiteralExpression p v None
  | MemberExpression p o f => TMemberExpression p (untyped o) (untyped f) None
  | UnaryOpExpression p op e => TUnaryOpExpression p op (untyped e) None
  | ArrayTypeRepr p l t => TArrayTypeRepr p (option_map untyped l) (option_map untyped t) None
  | FunctionTypeRepr p ps t => TFunctionTypeRepr p (map untyped_field ps) (option_map untyped t) None
  | MapTypeRepr p k v => TMapTypeRepr p (option_map untyped k) (option_map untyped v) None
  | PointerTypeRepr p b => TPointerTypeRepr p (option_map untyped b) None
  | StructTypeRepr p fs => TStructTypeRepr p (map untyped_field fs) None
  end
with untyped_field (f : FieldDeclaration) : TFieldDeclaration :=
  match f with mkFieldDeclaration p n t => mkTFieldDeclaration p n (option_map untyped t) end
with untyped_stmt (s : Statement) : TStatement :=
  match s with
  | AssignmentStatement p d e => TAssignmentStatement p (untyped d) (untyped e)
  | BlockStatement p rp l => TBlockStatement p rp (map untyped_stmt l)
  | DeclarationStatement d => TDeclarationStatement (untyped_decl d)
  | ExpressionStatement e => TExpressionStatement (untyped e)
  | ForStatement p i c n b =>
      TForStatement p (option_map untyped_stmt i) (option_map untyped c) (option_map untyped_stmt n) (untyped_stmt b)
  | ForInStatement p t i b => TForInStatement p (untyped t) (untyped i) (untyped_stmt b)
  | IfStatement p c t e => TIfStatement p (untyped c) (untyped_stmt t) (option_map untyped_stmt e)
  | ReturnStatement p r => TReturnStatement p (option_map untyped r)
  end
with untyped_decl (d : Declaration) : TDeclaration :=
  match d with
  | FunctionDeclaration p n f => TFunctionDeclaration p n (untyped f)
  | StructDeclaration p n t => TStructDeclaration p n (untyped t)
  | VariableDeclaration p n t i => TVariableDeclaration p n (option_map untyped t) (option_map untyped i)
  end.

(** ** Queries on nodes *)

Definition IsIntegerLiteral (e : TExpression) : bool :=
  match e with TLiteralExpression _ (IntLiteral _) _ => true | _ => false end.
Definition IsStringLiteral (e : TExpression) : bool :=
  match e with TLiteralExpression _ (StringLiteral _) _ => true | _ => false end.
Definition IsNilLiteral (e : TExpression) : bool :=
  match e with TLiteralExpression _ NilLiteral _ => true | _ => false end.

(** A literal a value of the type represents.  An integer type of 128 bits is [None], which is
    unreachable in the code.  A 32-bit float is kept as a double, [FloatVal]; it is representable in
    [Float32] between the least positive normal number and the greatest. *)
Definition FLT_MIN : spec_float := S754_finite false (2 ^ 23) (-149).
Definition FLT_MAX : spec_float := S754_finite false (2 ^ 24 - 1) 104.
Definition in_range (lo n hi : Z) : bool := (lo <=? n) && (n <=? hi).
Definition IsRepresentable (value : LiteralValue) (type : TplType) : option bool :=
  if IsIntegerType type then
    match value, type with
    | IntLiteral n, BuiltinType k =>
        match k with
        | Int8 => Some (in_range (- 2 ^ 7) n (2 ^ 7 - 1))
        | Int16 => Some (in_range (- 2 ^ 15) n (2 ^ 15 - 1))
        | Int32 => Some (in_range (- 2 ^ 31) n (2 ^ 31 - 1))
        | Int64 => Some true
        | UInt8 => Some (in_range 0 n (2 ^ 8 - 1))
        | UInt16 => Some (in_range 0 n (2 ^ 16 - 1))
        | UInt32 => Some (in_range 0 n (2 ^ 32 - 1))
        | UInt64 => Some (0 <=? n)
        | _ => None
        end
    | IntLiteral _, _ => None
    | _, _ => Some false
    end
  else if IsFloatType type then
    match value with
    | FloatLiteral f =>
        Some (if IsSpecificBuiltin type Float32 then SFleb FLT_MIN f && SFleb f FLT_MAX else true)
    | _ => Some false
    end
  else Some (match value with
             | StringLiteral _ => IsStringType type
             | BoolLiteral _ => IsBoolType type
             | NilLiteral => IsPointerType type
             | _ => false
             end).

(** What the last element gives; there must be one. *)
Definition on_last {A B} (f : A -> option B) : list A -> option B :=
  fix go l := match l with [] => None | [a] => f a | _ :: l' => go l' end.

(** [Statement::IsTerminating].  The last statement of a block that has none is out of bounds. *)
Fixpoint IsTerminating (s : TStatement) : option bool :=
  match s with
  | TBlockStatement _ _ stmts => on_last IsTerminating stmts
  | TIfStatement _ _ t (Some e) =>
      b ← IsTerminating t; if (b : bool) then IsTerminating e else Some false
  | TIfStatement _ _ _ None => Some false
  | TReturnStatement _ _ => Some true
  | _ => Some false
  end.

(** * Induction on typed trees, for what visits expressions, statements and declarations: the type representations inside of them have no hypotheses *)

Section tree_ind.
Variables (P : TExpression -> Prop) (S : TStatement -> Prop) (D : TDeclaration -> Prop).

Definition is_type_repr (e : TExpression) : bool :=
  match e with
  | TArrayTypeRepr _ _ _ _ | TFunctionTypeRepr _ _ _ _ | TMapTypeRepr _ _ _ _ | TPointerTypeRepr _ _ _
  | TStructTypeRepr _ _ _ => true
  | _ => false
  end.

Hypothesis Hbad : forall p, P (TBadExpression p).
Hypothesis Hrepr : forall e, is_type_repr e = true -> P e.
Hypothesis Hbinary : forall p op l r t, P l -> P r -> P (TBinaryOpExpression p op l r t).
Hypothesis Hcall : forall k f args t, P f -> Forall P args -> P (TCallExpression k f args t).
Hypothesis Hcompare : forall p op l r t, P l -> P r -> P (TComparisonOpExpression p op l r t).
Hypothesis Hfunction : forall r b t, S b -> P (TFunctionLiteralExpression r b t).
Hypothesis Hidentifier : forall p n t, P (TIdentifierExpression p n t).
Hypothesis Hcast : forall p k e t, P e -> P (TImplicitCastExpression p k e t).
Hypothesis Hindex : forall p o i t, P o -> P i -> P (TIndexExpression p o i t).
Hypothesis Hliteral : forall p v t, P (TLiteralExpression p v t).
Hypothesis Hmember : forall p o m t, P o -> P m -> P (TMemberExpression p o m t).
Hypothesis Hunary : forall p op e t, P e -> P (TUnaryOpExpression p op e t).
Hypothesis Hassignment : forall p d s, P d -> P s -> S (TAssignmentStatement p d s).
Hypothesis Hblock : forall p rp ss, Forall S ss -> S (TBlockStatement p rp ss).
Hypothesis Hdeclaration : forall d, D d -> S (TDeclarationStatement d).
Hypothesis Hexpression : forall e, P e -> S (TExpressionStatement e).
Hypothesis Hfor : forall p i c n b, on_child S i -> on_child P c -> on_child S n -> S b -> S (TForStatement p i c n b).
Hypothesis Hfor_in : forall p t i b, P t -> P i -> S b -> S (TForInStatement p t i b).
Hypothesis Hif : forall p c t e, P c -> S t -> on_child S e -> S (TIfStatement p c t e).
Hypothesis Hreturn : forall p r, on_child P r -> S (TReturnStatement p r).
Hypothesis Hfunction_decl : forall p n f, P f -> D (TFunctionDeclaration p n f).
Hypothesis Hstruct_decl : forall p n t, D (TStructDeclaration p n t).
Hypothesis Hvariable_decl : forall p n t i, on_child P i -> D (TVariableDeclaration p n t i).

Fixpoint TExpression_tree_ind (e : TExpression) : P e :=
  match e with
  | TBadExpression p => Hbad p
  | TBinaryOpExpression p op l r t => Hbinary p op l r t (TExpression_tree_ind l) (TExpression_tree_ind r)
  | TCallExpression k f args t => Hcall k f args t (TExpression_tree_ind f) (children_ind P TExpression_tree_ind args)
  | TComparisonOpExpression p op l r t => Hcompare p op l r t (TExpression_tree_ind l) (TExpression_tree_ind r)
  | TFunctionLiteralExpression r b t => Hfunction r b t (TStatement_tree_ind b)
  | TIdentifierExpression p n t => Hidentifier p n t
  | TImplicitCastExpression p k e t => Hcast p k e t (TExpression_tree_ind e)
  | TIndexExpression p o i t => Hindex p o i t (TExpression_tree_ind o) (TExpression_tree_ind i)
  | TLiteralExpression p v t => Hliteral p v t
  | TMemberExpression p o m t => Hmember p o m t (TExpression_tree_ind o) (TExpression_tree_ind m)
  | TUnaryOpExpression p op e t => Hunary p op e t (TExpression_tree_ind e)
  | TArrayTypeRepr p l b t => Hrepr (TArrayTypeRepr p l b t) eq_refl
  | TFunctionTypeRepr p ps r t => Hrepr (TFunctionTypeRepr p ps r t) eq_refl
  | TMapTypeRepr p k v t => Hrepr (TMapTypeRepr p k v t) eq_refl
  | TPointerTypeRepr p b t => Hrepr (TPointerTypeRepr p b t) eq_refl
  | TStructTypeRepr p fs t => Hrepr (TStructTypeRepr p fs t) eq_refl
  end
with TStatement_tree_ind (s : TStatement) : S s :=
  match s with
  | TAssignmentStatement p d e => Hassignment p d e (TExpression_tree_ind d) (TExpression_tree_ind e)
  | TBlockStatement p rp ss => Hblock p rp ss (children_ind S TStatement_tree_ind ss)
  | TDeclarationStatement d => Hdeclaration d (TDeclaration_tree_ind d)
  | TExpressionStatement e => Hexpression e (TExpression_tree_ind e)
  | TForStatement p i c n b =>
      Hfor p i c n b (child_ind S TStatement_tree_ind i) (child_ind P TExpression_tree_ind c)
        (child_ind S TStatement_tree_ind n) (TStatement_tree_ind b)
  | TForInStatement p t i b => Hfor_in p t i b (TExpression_tree_ind t) (TExpression_tree_ind i) (TStatement_tree_ind b)
  | TIfStatement p c t e => Hif p c t e (TExpression_tree_ind c) (TStatement_tree_ind t) (child_ind S TStatement_tree_ind e)
  | TReturnStatement p r => Hreturn p r (child_ind P TExpression_tree_ind r)
  end
with TDeclaration_tree_ind (d : TDeclaration) : D d :=
  match d with
  | TFunctionDeclaration p n f => Hfunction_decl p n f (TExpression_tree_ind f)
  | TStructDeclaration p n t => Hstruct_decl p n t
  | TVariableDeclaration p n t i => Hvariable_decl p n t i (child_ind P TExpression_tree_ind i)
  end.

(** All three at once. *)
Lemma typed_tree_ind : (forall e, P e) /\ (forall s, S s) /\ (forall d, D d).
Proof. split; [exact TExpression_tree_ind|split; [exact TStatement_tree_ind|exact TDeclaration_tree_ind]]. Qed.
End tree_ind.
