(* ===== verification/Builtins.v ===== *)
(** The builtin functions of TPL: [src/include/ast/builtins.h] and [src/ast/builtins.cpp], and how the
    context finds them ([src/ast/context.cpp]). *)
From S2P Require Import Prelude Ast.

#[local] Set Warnings "-register-all".

(** [enum class Builtin]. *)
Inductive BuiltinFunction : Set :=
  | IntToSql | BoolToSql | FloatToSql | DateToSql | StringToSql | SqlToBool | IsValNull | InitSqlNull
  | ConvertBoolToInteger | ConvertIntegerToReal | ConvertDateToTimestamp | ConvertStringToBool
  | ConvertStringToInt | ConvertStringToReal | ConvertStringToDate | ConvertStringToTime | LNot | Like
  | ExtractYear | Concat | ExecutionContextGetMemoryPool | ExecutionContextGetTLS
  | ThreadStateContainerReset | ThreadStateContainerGetState | ThreadStateContainerIterate
  | ThreadStateContainerClear | TableIterInit | TableIterAdvance | TableIterGetVPI | TableIterClose
  | TableIterParallel | VPIInit | VPIIsFiltered | VPIGetSelectedRowCount | VPIGetVectorProjection
  | VPIHasNext | VPIAdvance | VPISetPosition | VPIMatch | VPIReset | VPIGetBool | VPIGetTinyInt
  | VPIGetSmallInt | VPIGetInt | VPIGetBigInt | VPIGetReal | VPIGetDouble | VPIGetDate | VPIGetString
  | VPIGetPointer | VPISetBool | VPISetTinyInt | VPISetSmallInt | VPISetInt | VPISetBigInt | VPISetReal
  | VPISetDouble | VPISetDate | VPISetString | VPIFree | CompactStorageWriteBool
  | CompactStorageWriteTinyInt | CompactStorageWriteSmallInt | CompactStorageWriteInteger
  | CompactStorageWriteBigInt | CompactStorageWriteReal | CompactStorageWriteDouble
  | CompactStorageWriteDate | CompactStorageWriteTimestamp | CompactStorageWriteString
  | CompactStorageReadBool | CompactStorageReadTinyInt | CompactStorageReadSmallInt
  | CompactStorageReadInteger | CompactStorageReadBigInt | CompactStorageReadReal | CompactStorageReadDouble
  | CompactStorageReadDate | CompactStorageReadTimestamp | CompactStorageReadString | Hash
  | FilterManagerInit | FilterManagerInsertFilter | FilterManagerRunFilters | FilterManagerFree
  | VectorFilterEqual | VectorFilterGreaterThan | VectorFilterGreaterThanEqual | VectorFilterLessThan
  | VectorFilterLessThanEqual | VectorFilterNotEqual | AggHashTableInit | AggHashTableInsert
  | AggHashTableLinkEntry | AggHashTableLookup | AggHashTableProcessBatch | AggHashTableMovePartitions
  | AggHashTableParallelPartitionedScan | AggHashTableFree | AggHashTableIterInit | AggHashTableIterHasNext
  | AggHashTableIterNext | AggHashTableIterGetRow | AggHashTableIterClose | AggPartIterHasNext
  | AggPartIterNext | AggPartIterGetHash | AggPartIterGetRow | AggPartIterGetRowEntry | AggInit | AggAdvance
  | AggMerge | AggReset | AggResult | JoinHashTableInit | JoinHashTableInsert | JoinHashTableBuild
  | JoinHashTableBuildParallel | JoinHashTableLookup | JoinHashTableFree | AnalysisStatsSetColumnCount
  | AnalysisStatsSetColumnBits | HashTableEntryGetHash | HashTableEntryGetRow | HashTableEntryGetNext
  | SorterInit | SorterInsert | SorterInsertTopK | SorterInsertTopKFinish | SorterSort | SorterSortParallel
  | SorterSortTopKParallel | SorterFree | SorterIterInit | SorterIterHasNext | SorterIterNext
  | SorterIterSkipRows | SorterIterGetRow | SorterIterClose | ResultBufferAllocOutRow | ResultBufferFinalize
  | CSVReaderInit | CSVReaderAdvance | CSVReaderGetField | CSVReaderGetRecordNumber | CSVReaderClose | ACos
  | ASin | ATan | ATan2 | Cos | Cot | Sin | Tan | Ctlz | Cttz | SizeOf | OffsetOf | IntCast | PtrCast.

(** [BUILTINS_LIST]: every function with the name TPL code calls it by. *)
Definition BUILTINS_LIST : list (BuiltinFunction * string) :=
  [(IntToSql, "intToSql"); (BoolToSql, "boolToSql"); (FloatToSql, "floatToSql"); (DateToSql, "dateToSql");
   (StringToSql, "stringToSql"); (SqlToBool, "sqlToBool"); (IsValNull, "isValNull");
   (InitSqlNull, "initSqlNull"); (ConvertBoolToInteger, "convertBoolToInt");
   (ConvertIntegerToReal, "convertIntToReal"); (ConvertDateToTimestamp, "convertDateToTime");
   (ConvertStringToBool, "convertStringToBool"); (ConvertStringToInt, "convertStringToInt");
   (ConvertStringToReal, "convertStringToReal"); (ConvertStringToDate, "convertStringToDate");
   (ConvertStringToTime, "convertStringToTime"); (LNot, "lnot"); (Like, "like");
   (ExtractYear, "extractYear"); (Concat, "concat"); (ExecutionContextGetMemoryPool, "execCtxGetMem");
   (ExecutionContextGetTLS, "execCtxGetTLS"); (ThreadStateContainerReset, "tlsReset");
   (ThreadStateContainerGetState, "tlsGetCurrentThreadState"); (ThreadStateContainerIterate, "tlsIterate");
   (ThreadStateContainerClear, "tlsClear"); (TableIterInit, "tableIterInit");
   (TableIterAdvance, "tableIterAdvance"); (TableIterGetVPI, "tableIterGetVPI");
   (TableIterClose, "tableIterClose"); (TableIterParallel, "iterateTableParallel"); (VPIInit, "vpiInit");
   (VPIIsFiltered, "vpiIsFiltered"); (VPIGetSelectedRowCount, "vpiSelectedRowCount");
   (VPIGetVectorProjection, "vpiGetVectorProjection"); (VPIHasNext, "vpiHasNext");
   (VPIAdvance, "vpiAdvance"); (VPISetPosition, "vpiSetPosition"); (VPIMatch, "vpiMatch");
   (VPIReset, "vpiReset"); (VPIGetBool, "vpiGetBool"); (VPIGetTinyInt, "vpiGetTinyInt");
   (VPIGetSmallInt, "vpiGetSmallInt"); (VPIGetInt, "vpiGetInt"); (VPIGetBigInt, "vpiGetBigInt");
   (VPIGetReal, "vpiGetReal"); (VPIGetDouble, "vpiGetDouble"); (VPIGetDate, "vpiGetDate");
   (VPIGetString, "vpiGetString"); (VPIGetPointer, "vpiGetPointer"); (VPISetBool, "vpiSetBool");
   (VPISetTinyInt, "vpiSetTinyInt"); (VPISetSmallInt, "vpiSetSmallInt"); (VPISetInt, "vpiSetInt");
   (VPISetBigInt, "vpiSetBigInt"); (VPISetReal, "vpiSetReal"); (VPISetDouble, "vpiSetDouble");
   (VPISetDate, "vpiSetDate"); (VPISetString, "vpiSetString"); (VPIFree, "vpiFree");
   (CompactStorageWriteBool, "csWriteBool"); (CompactStorageWriteTinyInt, "csWriteTinyInt");
   (CompactStorageWriteSmallInt, "csWriteSmallInt"); (CompactStorageWriteInteger, "csWriteInteger");
   (CompactStorageWriteBigInt, "csWriteBigInt"); (CompactStorageWriteReal, "csWriteReal");
   (CompactStorageWriteDouble, "csWriteDouble"); (CompactStorageWriteDate, "csWriteDate");
   (CompactStorageWriteTimestamp, "csWriteTimestamp"); (CompactStorageWriteString, "csWriteString");
   (CompactStorageReadBool, "csReadBool"); (CompactStorageReadTinyInt, "csReadTinyInt");
   (CompactStorageReadSmallInt, "csReadSmallInt"); (CompactStorageReadInteger, "csReadInteger");
   (CompactStorageReadBigInt, "csReadBigInt"); (CompactStorageReadReal, "csReadReal");
   (CompactStorageReadDouble, "csReadDouble"); (CompactStorageReadDate, "csReadDate");
   (CompactStorageReadTimestamp, "csReadTimestamp"); (CompactStorageReadString, "csReadString");
   (Hash, "hash"); (FilterManagerInit, "filterManagerInit");
   (FilterManagerInsertFilter, "filterManagerInsertFilter");
   (FilterManagerRunFilters, "filterManagerRunFilters"); (FilterManagerFree, "filterManagerFree");
   (VectorFilterEqual, "filterEq"); (VectorFilterGreaterThan, "filterGt");
   (VectorFilterGreaterThanEqual, "filterGe"); (VectorFilterLessThan, "filterLt");
   (VectorFilterLessThanEqual, "filterLe"); (VectorFilterNotEqual, "filterNe");
   (AggHashTableInit, "aggHTInit"); (AggHashTableInsert, "aggHTInsert");
   (AggHashTableLinkEntry, "aggHTLink"); (AggHashTableLookup, "aggHTLookup");
   (AggHashTableProcessBatch, "aggHTProcessBatch"); (AggHashTableMovePartitions, "aggHTMoveParts");
   (AggHashTableParallelPartitionedScan, "aggHTParallelPartScan"); (AggHashTableFree, "aggHTFree");
   (AggHashTableIterInit, "aggHTIterInit"); (AggHashTableIterHasNext, "aggHTIterHasNext");
   (AggHashTableIterNext, "aggHTIterNext"); (AggHashTableIterGetRow, "aggHTIterGetRow");
   (AggHashTableIterClose, "aggHTIterClose"); (AggPartIterHasNext, "aggPartIterHasNext");
   (AggPartIterNext, "aggPartIterNext"); (AggPartIterGetHash, "aggPartIterGetHash");
   (AggPartIterGetRow, "aggPartIterGetRow"); (AggPartIterGetRowEntry, "aggPartIterGetRowEntry");
   (AggInit, "aggInit"); (AggAdvance, "aggAdvance"); (AggMerge, "aggMerge"); (AggReset, "aggReset");
   (AggResult, "aggResult"); (JoinHashTableInit, "joinHTInit"); (JoinHashTableInsert, "joinHTInsert");
   (JoinHashTableBuild, "joinHTBuild"); (JoinHashTableBuildParallel, "joinHTBuildParallel");
   (JoinHashTableLookup, "joinHTLookup"); (JoinHashTableFree, "joinHTFree");
   (AnalysisStatsSetColumnCount, "statsSetColumnCount"); (AnalysisStatsSetColumnBits, "statsSetColumnBits");
   (HashTableEntryGetHash, "htEntryGetHash"); (HashTableEntryGetRow, "htEntryGetRow");
   (HashTableEntryGetNext, "htEntryGetNext"); (SorterInit, "sorterInit"); (SorterInsert, "sorterInsert");
   (SorterInsertTopK, "sorterInsertTopK"); (SorterInsertTopKFinish, "sorterInsertTopKFinish");
   (SorterSort, "sorterSort"); (SorterSortParallel, "sorterSortParallel");
   (SorterSortTopKParallel, "sorterSortTopKParallel"); (SorterFree, "sorterFree");
   (SorterIterInit, "sorterIterInit"); (SorterIterHasNext, "sorterIterHasNext");
   (SorterIterNext, "sorterIterNext"); (SorterIterSkipRows, "sorterIterSkipRows");
   (SorterIterGetRow, "sorterIterGetRow"); (SorterIterClose, "sorterIterClose");
   (ResultBufferAllocOutRow, "resultBufferAllocRow"); (ResultBufferFinalize, "resultBufferFinalize");
   (CSVReaderInit, "csvReaderInit"); (CSVReaderAdvance, "csvReaderAdvance");
   (CSVReaderGetField, "csvReaderGetField"); (CSVReaderGetRecordNumber, "csvReaderGetRecordNumber");
   (CSVReaderClose, "csvReaderClose"); (ACos, "acos"); (ASin, "asin"); (ATan, "atan"); (ATan2, "atan2");
   (Cos, "cos"); (Cot, "cot"); (Sin, "sin"); (Tan, "tan"); (Ctlz, "ctlz"); (Cttz, "cttz");
   (SizeOf, "sizeOf"); (OffsetOf, "offsetOf"); (IntCast, "intCast"); (PtrCast, "ptrCast")]%string.

Definition kBuiltinsCount : Z := Z.of_nat (length BUILTINS_LIST).

(** [Context::IsBuiltinFunction]. *)
Definition IsBuiltinFunction (name : Identifier) : option BuiltinFunction :=
  fst <$> List.find (fun e => bool_decide (bytes e.2 = name)) BUILTINS_LIST.
