(* ===== verification/ErrorReporter.v ===== *)
(** The error reporter: [src/include/sema/error_message.h], [error_reporter.h] and
    [src/sema/error_reporter.cpp].

    The parser and the semantic checks append errors to one reporter; an error is a
    position, a message identifier and the arguments of its message. *)
From S2P Require Import Prelude Token Types.

(** [enum class ErrorMessageId], in the order of [MESSAGE_LIST]. *)
Inductive ErrorMessageId : Set :=
  | UnexpectedToken | DuplicateArgName | DuplicateStructFieldName | AssignmentUsedAsValue
  | InvalidAssignment | ExpectingExpression | ExpectingType | InvalidOperation
  | VariableRedeclared | UndefinedVariable | InvalidBuiltinFunction | NonFunction
  | MismatchedCallArgs | IncorrectCallArgType | IncorrectCallArgType2 | NonBoolIfCondition
  | NonBoolForCondition | NonIntegerArrayLength | NegativeArrayLength | ReturnOutsideFunction
  | UseOfUntypedNil | MissingTypeAndInitialValue | IllegalTypesForBinary
  | MismatchedTypesToBinary | MismatchedReturnType | NonIdentifierIterator
  | NonIdentifierTargetInForInLoop | NonExistingTable | ExpectedIdentifierForMember
  | MemberObjectNotComposite | FieldObjectDoesNotExist | InvalidIndexOperation
  | NonIntegerArrayIndexValue | NegativeArrayIndexValue | OutOfBoundsArrayIndexValue
  | InvalidCastToSqlInt | InvalidCastToSqlDecimal | InvalidCastToSqlDate
  | InvalidSqlCastToBool | MissingReturn | InvalidDeclaration
  | BadComparisonFunctionForSorter | BadArgToPtrCast | BadArgToIntCast | BadArgToIntCast1
  | BadArgToIntCast2 | BadHashArg | MissingArrayLength | NotASQLAggregate
  | BadParallelScanFunction | BadKeyEqualityCheckFunctionForJoinTableLookup
  | IsValNullExpectsSqlValue | NotPointerToSqlValue.

(** [MessageArgument].  The data of the null identifier is no string; a null type is [None]. *)
Inductive MessageArgument : Set :=
  | StringArg (str : list Z)
  | NullStringArg
  | IntArg (integer : Z)
  | PosArg (pos : SourcePosition)
  | TokenArg (type : TokenType)
  | TypeArg (type : option TplType).

Record MessageWithArgs : Set := mkError {
  err_pos : SourcePosition;
  err_id : ErrorMessageId;
  err_args : list MessageArgument
}.

Abbreviation errors := (list MessageWithArgs).

(** [Report] appends to [errors_]. *)
Definition Report (p : SourcePosition) (id : ErrorMessageId) (args : list MessageArgument)
    (es : errors) : errors :=
  es ++ [mkError p id args].

Definition HasErrors (es : errors) : bool := negb (bool_decide (es = [])).
Definition Reset (es : errors) : errors := [].
