(* ===== verification/SemaChecking.v ===== *)
(** The state of semantic analysis, its scopes and its checks: [src/include/sema/sema.h],
    [src/include/sema/scope.h], [src/sema/scope.cpp], [src/sema/sema_checking.cpp].

    The checker is a state monad; [None] is a null pointer that is followed, a cast that does not hold
    or code marked unreachable.  Scope objects are reused from a cache, which their [Init] makes
    unobservable.  The assertions, which a release build leaves out, are left out. *)
From S2P Require Import Prelude Token Ast Types TypedAst ErrorReporter.

(** * Scopes *)

Inductive ScopeKind : Set := BlockScope | FunctionScope | FileScope | LoopScope.
Record Scope := mkScope { scope_kind_ : ScopeKind; declarations_ : gmap (option Identifier) TplType }.

(** A scope with the scopes around it, the innermost first. *)
Definition LookupLocal (scopes : list Scope) (name : option Identifier) : option TplType :=
  match scopes with [] => None | s :: _ => declarations_ s !! name end.
Fixpoint Lookup (scopes : list Scope) (name : option Identifier) : option TplType :=
  match scopes with
  | [] => None
  | s :: outer => match declarations_ s !! name with Some t => Some t | None => Lookup outer name end
  end.
(** [Scope::Declare]; the second result is whether the name was free. *)
Definition Scope_Declare (scopes : list Scope) (decl_name : option Identifier) (type : TplType) : list Scope * bool :=
  match Lookup scopes decl_name with
  | Some _ => (scopes, false)
  | None => match scopes with
            | [] => (scopes, false)
            | s :: outer => (mkScope (scope_kind_ s) (<[decl_name := type]> (declarations_ s)) :: outer, true)
            end
  end.

(** * The state *)

(** [curr_decl_context_]: only the name of a struct declaration is ever asked of it. *)
Inductive DeclContext : Set := NoDeclaration | StructContext (name : Identifier) | OtherDeclaration.

Record Sema := mkSema {
  context_ : Context;
  error_reporter_ : errors;
  scope_ : list Scope;
  curr_func_ : option (option TplType);   (** the type of the function literal that is being checked *)
  curr_decl_context_ : DeclContext
}.
Definition new_Sema (ctx : Context) (es : errors) : Sema := mkSema ctx es [] None NoDeclaration.

Definition M (A : Type) : Type := Sema -> option (A * Sema).
#[export] Instance M_ret : MRet M := fun A a s => Some (a, s).
#[export] Instance M_bind : MBind M := fun A B k m s => match m s with Some (a, s') => k a s' | None => None end.

Definition crash {A} : M A := fun _ => None.
Definition get {A} (f : Sema -> A) : M A := fun s => Some (f s, s).
Definition modify (f : Sema -> Sema) : M unit := fun s => Some (tt, f s).
(** A pointer that is followed. *)
Definition deref {A} (o : option A) : M A := match o with Some a => mret a | None => crash end.

Definition set_errors (es : errors) (s : Sema) : Sema := mkSema (context_ s) es (scope_ s) (curr_func_ s) (curr_decl_context_ s).
Definition set_scopes (sc : list Scope) (s : Sema) : Sema := mkSema (context_ s) (error_reporter_ s) sc (curr_func_ s) (curr_decl_context_ s).
Definition set_context (c : Context) (s : Sema) : Sema := mkSema c (error_reporter_ s) (scope_ s) (curr_func_ s) (curr_decl_context_ s).
Definition set_func (f : option (option TplType)) (s : Sema) : Sema :=
  mkSema (context_ s) (error_reporter_ s) (scope_ s) f (curr_decl_context_ s).
Definition set_decl (d : DeclContext) (s : Sema) : Sema := mkSema (context_ s) (error_reporter_ s) (scope_ s) (curr_func_ s) d.

Definition report (pos : SourcePosition) (id : ErrorMessageId) (args : list MessageArgument) : M unit :=
  modify (fun s => set_errors (Report pos id args (error_reporter_ s)) s).
Definition name_arg (name : option Identifier) : MessageArgument :=
  match name with Some n => StringArg n | None => NullStringArg end.
Definition int_arg (v : Z) : MessageArgument := IntArg (wraps 32 v).

Definition EnterScope (kind : ScopeKind) : M unit := modify (fun s => set_scopes (mkScope kind ∅ :: scope_ s) s).
Definition ExitScope : M unit := modify (fun s => set_scopes (tail (scope_ s)) s).
(** [SemaScope], [FunctionSemaScope] and [DeclarationContextScope] end when their block ends. *)
Definition with_scope {A} (kind : ScopeKind) (m : M A) : M A := EnterScope kind;; a ← m; ExitScope;; mret a.
Definition with_function {A} (type : option TplType) (m : M A) : M A :=
  prev ← get curr_func_; EnterScope FunctionScope;; modify (set_func (Some type));;
  a ← m; ExitScope;; modify (set_func prev);; mret a.
Definition with_declaration {A} (d : DeclContext) (m : M A) : M A :=
  saved ← get curr_decl_context_; modify (set_decl d);; a ← m; modify (set_decl saved);; mret a.

(** A declaration whose result nobody looks at. *)
Definition declare (name : option Identifier) (type : TplType) : M unit :=
  modify (fun s => set_scopes (Scope_Declare (scope_ s) name type).1 s).

(** * Checks *)

Definition builtin_type (k : BuiltinKind) : TplType := BuiltinType k.

(** [CallExpression::GetFuncName]. *)
Definition GetFuncName (func : TExpression) : option Identifier :=
  match func with TIdentifierExpression _ name _ => Some name | _ => None end.

Definition ImplCastExprToType (expr : TExpression) (target_type : TplType) (cast_kind : CastKind) : TExpression :=
  TImplicitCastExpression (texpr_pos expr) cast_kind expr (Some target_type).

Definition ReportIncorrectCallArg (func : TExpression) (args : list TExpression) (index : nat) (expected : MessageArgument)
  (id : ErrorMessageId) : M unit :=
  name ← deref (GetFuncName func);
  arg ← deref (args !! index);
  report (texpr_pos func) id [StringArg name; expected; int_arg (Z.of_nat index); TypeArg (GetType arg)].
Definition ReportIncorrectCallArg_type (func : TExpression) (args : list TExpression) (index : nat) (expected : TplType) : M unit :=
  ReportIncorrectCallArg func args index (TypeArg (Some expected)) IncorrectCallArgType.
Definition ReportIncorrectCallArg_text (func : TExpression) (args : list TExpression) (index : nat) (expected : string) : M unit :=
  ReportIncorrectCallArg func args index (StringArg (bytes expected)) IncorrectCallArgType2.

Definition report_arg_count (func : TExpression) (args : list TExpression) (expected : nat) : M unit :=
  name ← deref (GetFuncName func);
  report (texpr_pos func) MismatchedCallArgs
    [StringArg name; int_arg (Z.of_nat expected); int_arg (Z.of_nat (length args))].
Definition CheckArgCount (func : TExpression) (args : list TExpression) (expected : nat) : M bool :=
  if Nat.eqb (length args) expected then mret true else report_arg_count func args expected;; mret false.
Definition CheckArgCountAtLeast (func : TExpression) (args : list TExpression) (expected : nat) : M bool :=
  if Nat.ltb (length args) expected then report_arg_count func args expected;; mret false else mret true.

(** The conversions of an expression of a type to another, if there is one: a SQL boolean to a primitive
    one, and a pointer to an array to an array of unknown length. *)
Definition implicit_conversion (target_type type : TplType) (expr : TExpression) : bool * TExpression :=
  let sql_bool :=
    if IsBoolType target_type && IsSpecificBuiltin type BooleanVal
    then (true, ImplCastExprToType expr target_type SqlBoolToBool) else (false, expr) in
  match target_type, GetPointeeType type with
  | ArrayType target_length target_elem, Some (ArrayType length elem) =>
      if HasUnknownLength target_length && negb (HasUnknownLength length) && bool_decide (target_elem = elem)
      then (true, ImplCastExprToType expr target_type BitCast) else sql_bool
  | _, _ => sql_bool
  end.

(** Whether the expression can be assigned to the type, and the expression with the cast or the type
    that makes it so. *)
Definition CheckAssignmentConstraints (target_type : TplType) (expr : TExpression) : M (bool * TExpression) :=
  type ← deref (GetType expr);
  if decide (type = target_type) then mret (true, expr)
  else match expr with
  | TLiteralExpression pos value _ =>
      representable ← deref (IsRepresentable value target_type);
      mret (if (representable : bool) then (true, TLiteralExpression pos value (Some target_type)) else (false, expr))
  | _ => mret (implicit_conversion target_type type expr)
  end.

(** The result type of an operation, null when there is none, and its operands. *)
Record CheckResult := mkResult { result_type : option TplType; result_left : TExpression; result_right : TExpression }.

Definition sql_bool_to_bool (expr : TExpression) : M TExpression :=
  type ← deref (GetType expr);
  mret (if IsSpecificBuiltin type BooleanVal then ImplCastExprToType expr (builtin_type Bool) SqlBoolToBool else expr).
Definition CheckLogicalOperands (op : TokenType) (pos : SourcePosition) (left right : TExpression) : M CheckResult :=
  left ← sql_bool_to_bool left;
  right ← sql_bool_to_bool right;
  left_type ← deref (GetType left);
  right_type ← deref (GetType right);
  if IsBoolType left_type && IsBoolType right_type then mret (mkResult (Some (builtin_type Bool)) left right)
  else report pos MismatchedTypesToBinary [TypeArg (Some left_type); TypeArg (Some right_type); TokenArg op];;
       mret (mkResult None left right).

Definition report_illegal_types (pos : SourcePosition) (op : TokenType) (left right : TExpression) : M CheckResult :=
  report pos IllegalTypesForBinary [TokenArg op; TypeArg (GetType left); TypeArg (GetType right)];;
  mret (mkResult None left right).

Definition CheckArithmeticOperands (op : TokenType) (pos : SourcePosition) (left right : TExpression) : M CheckResult :=
  left_type ← deref (GetType left);
  right_type ← deref (GetType right);
  if negb (IsArithmetic left_type) || negb (IsArithmetic right_type) then report_illegal_types pos op left right
  else if decide (left_type = right_type) then mret (mkResult (Some left_type) left right)
  else
    '(ok, right) ← CheckAssignmentConstraints left_type right;
    if (ok : bool) then mret (mkResult (Some left_type) left right)
    else
      '(ok, left) ← CheckAssignmentConstraints right_type left;
      if (ok : bool) then mret (mkResult (Some right_type) left right)
      else report_illegal_types pos op left right.

Definition CheckComparisonOperands (op : TokenType) (pos : SourcePosition) (left right : TExpression) : M CheckResult :=
  left_type ← deref (GetType left);
  right_type ← deref (GetType right);
  '(ok_left, left) ← CheckAssignmentConstraints right_type left;
  '(ok, right) ← (if (ok_left : bool) then mret (true, right) else CheckAssignmentConstraints left_type right);
  if negb ok then report_illegal_types pos op left right
  else
    type ← deref (GetType left);
    if IsPointerType type && negb (IsEqualityOp op) then report_illegal_types pos op left right
    else mret (mkResult (Some (builtin_type (if IsSqlValueType type then BooleanVal else Bool))) left right).
