(* ===== verification/SemaBuiltin.v ===== *)
(** The checks of calls to builtin functions: [src/sema/sema_builtin.cpp].

    Most builtins have a signature, the result type and what each argument must be, that one generic
    check goes through; [signature] functions give it, a group of builtins each, as the code's template
    arguments do.  A check gets the call's function and its resolved arguments, and gives the arguments,
    which implicit casts may have replaced, and the type of the call, null if the check failed. *)
From S2P Require Import Prelude Token Ast Types TypedAst Builtins ErrorReporter SemaChecking.

Definition IsPointerToSpecificBuiltin (type : TplType) (kind : BuiltinKind) : bool :=
  match GetPointeeType type with Some t => IsSpecificBuiltin t kind | None => false end.
Definition IsPointerToSQLValue (type : TplType) : bool :=
  match GetPointeeType type with Some t => IsSqlValueType t | None => false end.
Definition IsPointerToAggregatorValue (type : TplType) : bool :=
  match GetPointeeType type with Some t => IsSqlAggregatorType t | None => false end.

(** * The generic check *)

(** What a parameter of a function that is passed must be. *)
Inductive param_spec : Set := ParamType (t : TplType) | ParamAnyPointer | ParamArray (elem : param_spec) | ParamSqlValue.
(** What an argument must be. *)
Inductive arg_spec : Set :=
  | Exactly (t : TplType) | StringLiteralArg | AnyPointer | SqlValueArg
  | FunctionArg (ret : TplType) (params : list param_spec).

Fixpoint TypeCheck (spec : param_spec) (type : TplType) : bool :=
  match spec with
  | ParamType t => bool_decide (type = t)
  | ParamAnyPointer => IsPointerType type
  | ParamArray elem => match type with ArrayType _ e => TypeCheck elem e | _ => false end
  | ParamSqlValue => IsSqlValueType type
  end.

(** [ArgCheck::Check] of one argument: whether it passes, and the arguments after it. *)
Definition ArgCheck (func : TExpression) (args : list TExpression) (index : nat) (spec : arg_spec) : M (bool * list TExpression) :=
  arg ← deref (args !! index);
  type ← deref (GetType arg);
  match spec with
  | Exactly expected_type =>
      '(ok, arg) ← CheckAssignmentConstraints expected_type arg;
      if (ok : bool) then mret (true, <[index := arg]> args)
      else ReportIncorrectCallArg_type func args index expected_type;; mret (false, args)
  | StringLiteralArg =>
      if IsStringLiteral arg then mret (true, args)
      else ReportIncorrectCallArg_text func args index "string literal";; mret (false, args)
  | AnyPointer =>
      if IsPointerType type then mret (true, args)
      else ReportIncorrectCallArg_text func args index "pointer";; mret (false, args)
  | SqlValueArg =>
      if IsSqlValueType type then mret (true, args)
      else ReportIncorrectCallArg_text func args index "SQL value";; mret (false, args)
  | FunctionArg ret params =>
      match type with
      | FunctionType actual_params actual_ret =>
          if negb (bool_decide (actual_ret = ret)) then
            ReportIncorrectCallArg_text func args index "function return type mismatch";; mret (false, args)
          else if negb (Nat.eqb (length actual_params) (length params)) then
            ReportIncorrectCallArg_text func args index "function argument count mismatch";; mret (false, args)
          else if negb (forallb (fun p => TypeCheck p.1 p.2) (zip params (map snd actual_params))) then
            ReportIncorrectCallArg_text func args index "function argument type mismatch";; mret (false, args)
          else mret (true, args)
      | _ => ReportIncorrectCallArg_text func args index "function";; mret (false, args)
      end
  end.
Fixpoint ArgChecks (func : TExpression) (args : list TExpression) (index : nat) (specs : list arg_spec) : M (bool * list TExpression) :=
  match specs with
  | [] => mret (true, args)
  | spec :: specs' =>
      '(ok, args) ← ArgCheck func args index spec;
      if (ok : bool) then ArgChecks func args (S index) specs' else mret (false, args)
  end.

Abbreviation checked := (list TExpression * option TplType)%type.

Definition GenericBuiltinCheck (sig : TplType * list arg_spec) (func : TExpression) (args : list TExpression) : M checked :=
  ok ← CheckArgCount func args (length sig.2);
  if negb ok then mret (args, None)
  else
    '(ok, args) ← ArgChecks func args 0 sig.2;
    mret (args, if (ok : bool) then Some sig.1 else None).
(** A builtin a group's switch does not list is unreachable. *)
Definition check_signature (sig : option (TplType * list arg_spec)) (func : TExpression) (args : list TExpression) : M checked :=
  match sig with Some sig => GenericBuiltinCheck sig func args | None => crash end.

(** * Signatures *)

Definition val (k : BuiltinKind) : arg_spec := Exactly (builtin_type k).
Definition ptr (k : BuiltinKind) : arg_spec := Exactly (PointerType (builtin_type k)).
Definition byte_ptr : TplType := PointerType (builtin_type UInt8).
Definition byte_array : arg_spec := Exactly (ArrayType 0 (builtin_type UInt8)).
Definition param_ptr (k : BuiltinKind) : param_spec := ParamType (PointerType (builtin_type k)).

Definition SqlConversion_signature (builtin : BuiltinFunction) : option (TplType * list arg_spec) :=
  match builtin with
  | BoolToSql => Some (builtin_type BooleanVal, [val Bool])
  | IntToSql => Some (builtin_type IntegerVal, [val Int32])
  | FloatToSql => Some (builtin_type RealVal, [val Float32])
  | StringToSql => Some (builtin_type StringVal, [StringLiteralArg])
  | DateToSql => Some (builtin_type DateVal, [val Int32; val Int32; val Int32])
  | SqlToBool => Some (builtin_type Bool, [val BooleanVal])
  | ConvertBoolToInteger => Some (builtin_type IntegerVal, [val BooleanVal])
  | ConvertIntegerToReal => Some (builtin_type RealVal, [val IntegerVal])
  | ConvertDateToTimestamp => Some (builtin_type TimestampVal, [val DateVal])
  | ConvertStringToBool => Some (builtin_type BooleanVal, [val StringVal])
  | ConvertStringToInt => Some (builtin_type IntegerVal, [val StringVal])
  | ConvertStringToReal => Some (builtin_type RealVal, [val StringVal])
  | ConvertStringToDate => Some (builtin_type DateVal, [val StringVal])
  | ConvertStringToTime => Some (builtin_type TimestampVal, [val StringVal])
  | _ => None
  end.
Definition StringLike_signature : TplType * list arg_spec := (builtin_type BooleanVal, [val StringVal; val StringVal]).
Definition DateFunction_signature : TplType * list arg_spec := (builtin_type IntegerVal, [val DateVal]).
Definition LNot_signature : TplType * list arg_spec := (builtin_type BooleanVal, [val BooleanVal]).

(** In the type of a function an array parameter is a pointer: so is [uint32_t[]]. *)
Definition AggHashTable_signature (builtin : BuiltinFunction) (num_args : nat) : option (TplType * list arg_spec) :=
  let VectorProcFunc := FunctionArg (builtin_type Nil) [param_ptr VectorProjectionIterator; param_ptr VectorProjectionIterator] in
  let MergeFunc := FunctionArg (builtin_type Nil) [ParamAnyPointer; param_ptr AggregationHashTable; param_ptr AHTOverflowPartitionIterator] in
  let ScanFunc := FunctionArg (builtin_type Nil) [ParamAnyPointer; ParamAnyPointer; param_ptr AggregationHashTable] in
  match builtin with
  | AggHashTableInit => Some (builtin_type Nil, [ptr AggregationHashTable; ptr MemoryPool; val UInt32])
  | AggHashTableInsert =>
      Some (byte_ptr, if Nat.eqb num_args 2 then [ptr AggregationHashTable; val UInt64]
                      else [ptr AggregationHashTable; val UInt64; val Bool])
  | AggHashTableLinkEntry => Some (builtin_type Nil, [ptr AggregationHashTable; ptr HashTableEntry])
  | AggHashTableLookup => Some (PointerType (builtin_type HashTableEntry), [ptr AggregationHashTable; val UInt64])
  | AggHashTableProcessBatch =>
      Some (builtin_type Nil, [ptr AggregationHashTable; ptr VectorProjectionIterator; ptr UInt32; VectorProcFunc; VectorProcFunc; val Bool])
  | AggHashTableMovePartitions => Some (builtin_type Nil, [ptr AggregationHashTable; ptr ThreadStateContainer; val UInt32; MergeFunc])
  | AggHashTableParallelPartitionedScan => Some (builtin_type Nil, [ptr AggregationHashTable; AnyPointer; ptr ThreadStateContainer; ScanFunc])
  | AggHashTableFree => Some (builtin_type Nil, [ptr AggregationHashTable])
  | _ => None
  end.
Definition AggHashTableIter_signature (builtin : BuiltinFunction) : option (TplType * list arg_spec) :=
  match builtin with
  | AggHashTableIterInit => Some (builtin_type Nil, [ptr AHTIterator; ptr AggregationHashTable])
  | AggHashTableIterHasNext => Some (builtin_type Bool, [ptr AHTIterator])
  | AggHashTableIterNext => Some (builtin_type Nil, [ptr AHTIterator])
  | AggHashTableIterGetRow => Some (byte_ptr, [ptr AHTIterator])
  | AggHashTableIterClose => Some (builtin_type Nil, [ptr AHTIterator])
  | _ => None
  end.
Definition AggPartIter_signature (builtin : BuiltinFunction) : option (TplType * list arg_spec) :=
  match builtin with
  | AggPartIterHasNext => Some (builtin_type Bool, [ptr AHTOverflowPartitionIterator])
  | AggPartIterNext => Some (builtin_type Nil, [ptr AHTOverflowPartitionIterator])
  | AggPartIterGetRowEntry => Some (PointerType (builtin_type HashTableEntry), [ptr AHTOverflowPartitionIterator])
  | AggPartIterGetRow => Some (byte_ptr, [ptr AHTOverflowPartitionIterator])
  | AggPartIterGetHash => Some (builtin_type UInt64, [ptr AHTOverflowPartitionIterator])
  | _ => None
  end.
Definition JoinHashTable_signature (builtin : BuiltinFunction) (num_args : nat) : option (TplType * list arg_spec) :=
  let AnalysisFunction := FunctionArg (builtin_type Nil) [ParamType (builtin_type UInt32); ParamArray ParamAnyPointer; ParamAnyPointer] in
  let CompressFunction := FunctionArg (builtin_type Nil) [ParamType (builtin_type UInt32); ParamArray ParamAnyPointer; ParamArray ParamAnyPointer] in
  match builtin with
  | JoinHashTableInit =>
      Some (builtin_type Nil, if Nat.leb num_args 3 then [ptr JoinHashTable; ptr MemoryPool; val UInt32]
                   else [ptr JoinHashTable; ptr MemoryPool; val UInt32; AnalysisFunction; CompressFunction])
  | JoinHashTableInsert => Some (byte_ptr, [ptr JoinHashTable; val UInt64])
  | JoinHashTableBuild => Some (builtin_type Nil, [ptr JoinHashTable])
  | JoinHashTableBuildParallel => Some (builtin_type Nil, [ptr JoinHashTable; ptr ThreadStateContainer; val UInt32])
  | JoinHashTableLookup => Some (PointerType (builtin_type HashTableEntry), [ptr JoinHashTable; val UInt64])
  | JoinHashTableFree => Some (builtin_type Nil, [ptr JoinHashTable])
  | _ => None
  end.
Definition HashTableEntry_signature (builtin : BuiltinFunction) : option (TplType * list arg_spec) :=
  match builtin with
  | HashTableEntryGetHash => Some (builtin_type UInt64, [ptr HashTableEntry])
  | HashTableEntryGetRow => Some (byte_ptr, [ptr HashTableEntry])
  | HashTableEntryGetNext => Some (PointerType (builtin_type HashTableEntry), [ptr HashTableEntry])
  | _ => None
  end.
Definition AnalysisStats_signature (builtin : BuiltinFunction) : option (TplType * list arg_spec) :=
  match builtin with
  | AnalysisStatsSetColumnCount => Some (builtin_type Nil, [ptr AnalysisStats; val UInt32])
  | AnalysisStatsSetColumnBits => Some (builtin_type Nil, [ptr AnalysisStats; val UInt32; val UInt32])
  | _ => None
  end.
Definition ExecutionContext_signature (builtin : BuiltinFunction) : option (TplType * list arg_spec) :=
  match builtin with
  | ExecutionContextGetMemoryPool => Some (PointerType (builtin_type MemoryPool), [ptr ExecutionContext])
  | ExecutionContextGetTLS => Some (PointerType (builtin_type ThreadStateContainer), [ptr ExecutionContext])
  | _ => None
  end.
Definition ThreadStateContainer_signature (builtin : BuiltinFunction) : option (TplType * list arg_spec) :=
  let TLSFunc := FunctionArg (builtin_type Nil) [ParamAnyPointer; ParamAnyPointer] in
  match builtin with
  | ThreadStateContainerClear => Some (builtin_type Nil, [ptr ThreadStateContainer])
  | ThreadStateContainerGetState => Some (byte_ptr, [ptr ThreadStateContainer])
  | ThreadStateContainerReset => Some (builtin_type Nil, [ptr ThreadStateContainer; val UInt32; TLSFunc; TLSFunc; AnyPointer])
  | ThreadStateContainerIterate => Some (builtin_type Nil, [ptr ThreadStateContainer; AnyPointer; TLSFunc])
  | _ => None
  end.
Definition TableIter_signature (builtin : BuiltinFunction) : option (TplType * list arg_spec) :=
  let ScanFunc := FunctionArg (builtin_type Nil) [ParamAnyPointer; ParamAnyPointer; param_ptr TableVectorIterator] in
  match builtin with
  | TableIterInit => Some (builtin_type Nil, [ptr TableVectorIterator; StringLiteralArg])
  | TableIterAdvance => Some (builtin_type Bool, [ptr TableVectorIterator])
  | TableIterGetVPI => Some (PointerType (builtin_type VectorProjectionIterator), [ptr TableVectorIterator])
  | TableIterParallel => Some (builtin_type Nil, [StringLiteralArg; AnyPointer; ptr ThreadStateContainer; ScanFunc])
  | TableIterClose => Some (builtin_type Nil, [ptr TableVectorIterator])
  | _ => None
  end.
Definition VPI_signature (builtin : BuiltinFunction) : option (TplType * list arg_spec) :=
  match builtin with
  | VPIInit => Some (builtin_type Nil, [ptr VectorProjectionIterator; ptr VectorProjection; ptr TupleIdList])
  | VPIFree => Some (builtin_type Nil, [ptr VectorProjectionIterator])
  | VPIIsFiltered | VPIHasNext | VPIAdvance | VPIReset => Some (builtin_type Bool, [ptr VectorProjectionIterator])
  | VPIGetSelectedRowCount => Some (builtin_type UInt32, [ptr VectorProjectionIterator])
  | VPIGetVectorProjection => Some (PointerType (builtin_type VectorProjection), [ptr VectorProjectionIterator])
  | VPISetPosition => Some (builtin_type Bool, [ptr VectorProjectionIterator; val UInt32])
  | VPIMatch => Some (builtin_type Nil, [ptr VectorProjectionIterator; val Bool])
  | VPIGetBool => Some (builtin_type BooleanVal, [ptr VectorProjectionIterator; val UInt32])
  | VPIGetTinyInt | VPIGetSmallInt | VPIGetInt | VPIGetBigInt => Some (builtin_type IntegerVal, [ptr VectorProjectionIterator; val UInt32])
  | VPIGetReal | VPIGetDouble => Some (builtin_type RealVal, [ptr VectorProjectionIterator; val UInt32])
  | VPIGetDate => Some (builtin_type DateVal, [ptr VectorProjectionIterator; val UInt32])
  | VPIGetString => Some (builtin_type StringVal, [ptr VectorProjectionIterator; val UInt32])
  | VPIGetPointer => Some (byte_ptr, [ptr VectorProjectionIterator; val UInt32])
  | VPISetTinyInt | VPISetSmallInt | VPISetInt | VPISetBigInt => Some (builtin_type Nil, [ptr VectorProjectionIterator; val IntegerVal; val UInt32])
  | VPISetReal | VPISetDouble => Some (builtin_type Nil, [ptr VectorProjectionIterator; val RealVal; val UInt32])
  | VPISetDate => Some (builtin_type Nil, [ptr VectorProjectionIterator; val DateVal; val UInt32])
  | VPISetString => Some (builtin_type Nil, [ptr VectorProjectionIterator; val StringVal; val UInt32])
  | _ => None
  end.
Definition CompactStorageWrite_signature (builtin : BuiltinFunction) : option (TplType * list arg_spec) :=
  match builtin with
  | CompactStorageWriteBool => Some (builtin_type Nil, [ptr Bool; byte_array; val UInt32; val BooleanVal])
  | CompactStorageWriteTinyInt => Some (builtin_type Nil, [ptr Int8; byte_array; val UInt32; val IntegerVal])
  | CompactStorageWriteSmallInt => Some (builtin_type Nil, [ptr Int16; byte_array; val UInt32; val IntegerVal])
  | CompactStorageWriteInteger => Some (builtin_type Nil, [ptr Int32; byte_array; val UInt32; val IntegerVal])
  | CompactStorageWriteBigInt => Some (builtin_type Nil, [ptr Int64; byte_array; val UInt32; val IntegerVal])
  | CompactStorageWriteReal => Some (builtin_type Nil, [ptr Float32; byte_array; val UInt32; val RealVal])
  | CompactStorageWriteDouble => Some (builtin_type Nil, [ptr Float64; byte_array; val UInt32; val RealVal])
  | CompactStorageWriteDate => Some (builtin_type Nil, [ptr Date; byte_array; val UInt32; val DateVal])
  | CompactStorageWriteTimestamp => Some (builtin_type Nil, [ptr Timestamp; byte_array; val UInt32; val TimestampVal])
  | CompactStorageWriteString => Some (builtin_type Nil, [ptr VarlenEntry; byte_array; val UInt32; val StringVal])
  | _ => None
  end.
Definition CompactStorageRead_signature (builtin : BuiltinFunction) : option (TplType * list arg_spec) :=
  match builtin with
  | CompactStorageReadBool => Some (builtin_type BooleanVal, [ptr Bool; byte_array; val UInt32])
  | CompactStorageReadTinyInt => Some (builtin_type IntegerVal, [ptr Int8; byte_array; val UInt32])
  | CompactStorageReadSmallInt => Some (builtin_type IntegerVal, [ptr Int16; byte_array; val UInt32])
  | CompactStorageReadInteger => Some (builtin_type IntegerVal, [ptr Int32; byte_array; val UInt32])
  | CompactStorageReadBigInt => Some (builtin_type IntegerVal, [ptr Int64; byte_array; val UInt32])
  | CompactStorageReadReal => Some (builtin_type RealVal, [ptr Float32; byte_array; val UInt32])
  | CompactStorageReadDouble => Some (builtin_type RealVal, [ptr Float64; byte_array; val UInt32])
  | CompactStorageReadDate => Some (builtin_type DateVal, [ptr Date; byte_array; val UInt32])
  | CompactStorageReadTimestamp => Some (builtin_type TimestampVal, [ptr Timestamp; byte_array; val UInt32])
  | CompactStorageReadString => Some (builtin_type StringVal, [ptr VarlenEntry; byte_array; val UInt32])
  | _ => None
  end.
Definition MathTrig_signature (builtin : BuiltinFunction) : option (TplType * list arg_spec) :=
  match builtin with
  | ATan2 => Some (builtin_type RealVal, [val RealVal; val RealVal])
  | Cos | Cot | Sin | Tan | ACos | ASin | ATan => Some (builtin_type RealVal, [val RealVal])
  | _ => None
  end.
Definition ResultBuffer_signature (builtin : BuiltinFunction) : option (TplType * list arg_spec) :=
  match builtin with
  | ResultBufferAllocOutRow => Some (byte_ptr, [ptr ExecutionContext])
  | ResultBufferFinalize => Some (builtin_type Nil, [ptr ExecutionContext])
  | _ => None
  end.
Definition CSVReader_signature (builtin : BuiltinFunction) : option (TplType * list arg_spec) :=
  match builtin with
  | CSVReaderInit => Some (builtin_type Bool, [ptr CSVReader; StringLiteralArg])
  | CSVReaderAdvance => Some (builtin_type Bool, [ptr CSVReader])
  | CSVReaderGetField => Some (builtin_type Nil, [ptr CSVReader; val UInt32; ptr StringVal])
  | CSVReaderGetRecordNumber => Some (builtin_type UInt32, [ptr CSVReader])
  | CSVReaderClose => Some (builtin_type Nil, [ptr CSVReader])
  | _ => None
  end.
Definition Sorter_signature (builtin : BuiltinFunction) : option (TplType * list arg_spec) :=
  let SortFunc := FunctionArg (builtin_type Bool) [ParamAnyPointer; ParamAnyPointer] in
  match builtin with
  | SorterInit => Some (builtin_type Nil, [ptr Sorter; ptr MemoryPool; SortFunc; val UInt32])
  | SorterInsert => Some (byte_ptr, [ptr Sorter])
  | SorterInsertTopK => Some (byte_ptr, [ptr Sorter; val UInt32])
  | SorterInsertTopKFinish => Some (builtin_type Nil, [ptr Sorter; val UInt32])
  | SorterSort => Some (builtin_type Nil, [ptr Sorter])
  | SorterSortParallel => Some (builtin_type Nil, [ptr Sorter; ptr ThreadStateContainer; val UInt32])
  | SorterSortTopKParallel => Some (builtin_type Nil, [ptr Sorter; ptr ThreadStateContainer; val UInt32; val UInt32])
  | SorterFree => Some (builtin_type Nil, [ptr Sorter])
  | _ => None
  end.
Definition SorterIter_signature (builtin : BuiltinFunction) : option (TplType * list arg_spec) :=
  match builtin with
  | SorterIterInit => Some (builtin_type Nil, [ptr SorterIterator; ptr Sorter])
  | SorterIterHasNext => Some (builtin_type Bool, [ptr SorterIterator])
  | SorterIterNext => Some (builtin_type Nil, [ptr SorterIterator])
  | SorterIterSkipRows => Some (builtin_type Nil, [ptr SorterIterator; val UInt32])
  | SorterIterGetRow => Some (byte_ptr, [ptr SorterIterator])
  | SorterIterClose => Some (builtin_type Nil, [ptr SorterIterator])
  | _ => None
  end.

(** * Builtins with checks of their own *)

Definition CheckNullValueCall (func : TExpression) (args : list TExpression) (builtin : BuiltinFunction) : M checked :=
  ok ← CheckArgCount func args 1;
  if negb ok then mret (args, None)
  else
    arg ← deref (args !! 0%nat);
    input_type ← deref (GetType arg);
    match builtin with
    | IsValNull =>
        if IsSqlValueType input_type then mret (args, Some (builtin_type Bool))
        else ReportIncorrectCallArg_text func args 0 "SQL type";; mret (args, None)
    | InitSqlNull =>
        if IsPointerToSQLValue input_type then mret (args, Some (builtin_type Nil))
        else ReportIncorrectCallArg_text func args 0 "pointer to SQL value";; mret (args, None)
    | _ => crash
    end.

(** The first argument that does not satisfy a test of its type, or that has no type. *)
Definition first_bad (good : TplType -> bool) (args : list TExpression) : option TExpression :=
  List.find (fun arg => match GetType arg with Some t => negb (good t) | None => true end) args.

(** The test of the first argument is the wrong way around: with an execution context, nothing is checked
    and the call gets no type. *)
Definition CheckBuiltinConcat (func : TExpression) (args : list TExpression) : M checked :=
  ok ← CheckArgCountAtLeast func args 3;
  if negb ok then mret (args, None)
  else
    arg ← deref (args !! 0%nat);
    type ← deref (GetType arg);
    if IsSpecificBuiltin type ExecutionContext then mret (args, None)
    else match first_bad (fun t => IsSpecificBuiltin t StringVal) (tail args) with
         | Some bad => report (texpr_pos bad) BadHashArg [TypeArg (GetType bad)];; mret (args, None)
         | None => mret (args, Some (builtin_type StringVal))
         end.

Definition report_not_aggregate (func : TExpression) (type : TplType) : M unit :=
  report (texpr_pos func) NotASQLAggregate [TypeArg (Some type)].
Definition CheckBuiltinAggregatorCall (func : TExpression) (args : list TExpression) (builtin : BuiltinFunction) : M checked :=
  match builtin with
  | AggInit | AggReset =>
      match first_bad IsPointerToAggregatorValue args with
      | Some bad => report (texpr_pos func) NotASQLAggregate [TypeArg (GetType bad)];; mret (args, None)
      | None => mret (args, Some (builtin_type Nil))
      end
  | AggAdvance =>
      ok ← CheckArgCount func args 2;
      if negb ok then mret (args, None)
      else
        arg0 ← deref (args !! 0%nat); type0 ← deref (GetType arg0);
        arg1 ← deref (args !! 1%nat); type1 ← deref (GetType arg1);
        if negb (IsPointerToAggregatorValue type0) then report_not_aggregate func type0;; mret (args, None)
        else if negb (IsSqlValueType type1) then
          ReportIncorrectCallArg_text func args 1 "expected SQL value";; mret (args, None)
        else mret (args, Some (builtin_type Nil))
  | AggMerge =>
      ok ← CheckArgCount func args 2;
      if negb ok then mret (args, None)
      else
        arg0 ← deref (args !! 0%nat); type0 ← deref (GetType arg0);
        arg1 ← deref (args !! 1%nat); type1 ← deref (GetType arg1);
        if negb (IsPointerToAggregatorValue type0) then report_not_aggregate func type0;; mret (args, None)
        else if negb (IsPointerToAggregatorValue type1) then report_not_aggregate func type1;; mret (args, None)
        else mret (args, Some (builtin_type Nil))
  | AggResult =>
      ok ← CheckArgCount func args 1;
      if negb ok then mret (args, None)
      else
        arg0 ← deref (args !! 0%nat); type0 ← deref (GetType arg0);
        if negb (IsPointerToAggregatorValue type0) then report_not_aggregate func type0;; mret (args, None)
        else match GetPointeeType type0 with
             | Some (BuiltinType (CountAggregate | CountStarAggregate | IntegerMaxAggregate | IntegerMinAggregate | IntegerSumAggregate)) =>
                 mret (args, Some (builtin_type IntegerVal))
             | Some (BuiltinType (RealMaxAggregate | RealMinAggregate | RealSumAggregate | AvgAggregate)) =>
                 mret (args, Some (builtin_type RealVal))
             | _ => crash
             end
  | _ => crash
  end.

Definition CheckBuiltinHashCall (func : TExpression) (args : list TExpression) : M checked :=
  ok ← CheckArgCountAtLeast func args 1;
  if negb ok then mret (args, None)
  else match first_bad IsSqlValueType args with
       | Some bad => report (texpr_pos bad) BadHashArg [TypeArg (GetType bad)];; mret (args, None)
       | None => mret (args, Some (builtin_type UInt64))
       end.

Definition IsFilterFunction (type : TplType) : bool :=
  match type with
  | FunctionType [p0; p1; p2] _ =>
      IsPointerToSpecificBuiltin p0.2 VectorProjection && IsPointerToSpecificBuiltin p1.2 TupleIdList && IsPointerType p2.2
  | _ => false
  end.
Definition CheckBuiltinFilterManagerCall (func : TExpression) (args : list TExpression) (builtin : BuiltinFunction) : M checked :=
  ok ← CheckArgCountAtLeast func args 1;
  if negb ok then mret (args, None)
  else
    arg0 ← deref (args !! 0%nat); type0 ← deref (GetType arg0);
    if negb (IsPointerToSpecificBuiltin type0 FilterManager) then
      ReportIncorrectCallArg_type func args 0 (PointerType (builtin_type FilterManager));; mret (args, None)
    else match builtin with
    | FilterManagerInit | FilterManagerFree => GenericBuiltinCheck (builtin_type Nil, [ptr FilterManager]) func args
    | FilterManagerInsertFilter =>
        match list_find (fun arg => match GetType arg with Some t => IsFilterFunction t | None => false end = false) (tail args) with
        | Some (i, _) =>
            ReportIncorrectCallArg_text func args (S i) "(*VectorProjection, *TupleIdList, *uint8)->nil";; mret (args, None)
        | None => mret (args, Some (builtin_type Nil))
        end
    | FilterManagerRunFilters => GenericBuiltinCheck (builtin_type Nil, [ptr FilterManager; ptr VectorProjectionIterator]) func args
    | _ => crash
    end.

Definition CheckBuiltinVectorFilterCall (func : TExpression) (args : list TExpression) : M checked :=
  ok ← CheckArgCount func args 4;
  if negb ok then mret (args, None)
  else
    arg0 ← deref (args !! 0%nat); type0 ← deref (GetType arg0);
    arg1 ← deref (args !! 1%nat); type1 ← deref (GetType arg1);
    arg2 ← deref (args !! 2%nat); type2 ← deref (GetType arg2);
    arg3 ← deref (args !! 3%nat); type3 ← deref (GetType arg3);
    if negb (IsPointerToSpecificBuiltin type0 VectorProjection) then
      ReportIncorrectCallArg_type func args 0 (PointerType (builtin_type VectorProjection));; mret (args, None)
    else if negb (IsSpecificBuiltin type1 Int32) && negb (IsSpecificBuiltin type1 UInt32) then
      ReportIncorrectCallArg_type func args 1 (builtin_type Int32);; mret (args, None)
    else if negb (IsSpecificBuiltin type2 Int32) && negb (IsSqlValueType type2) then
      ReportIncorrectCallArg_type func args 2 (builtin_type Int32);; mret (args, None)
    else if negb (IsPointerToSpecificBuiltin type3 TupleIdList) then
      ReportIncorrectCallArg_type func args 3 (PointerType (builtin_type TupleIdList));; mret (args, None)
    else mret (args, Some (builtin_type Nil)).

Definition CheckBuiltinSizeOfCall (func : TExpression) (args : list TExpression) : M checked :=
  ok ← CheckArgCount func args 1;
  mret (args, if (ok : bool) then Some (builtin_type UInt32) else None).

Section signedness.
Context `{CppClasses}.

Definition CheckBuiltinBitsCall (func : TExpression) (args : list TExpression) : M checked :=
  ok ← CheckArgCount func args 1;
  if negb ok then mret (args, None)
  else
    arg0 ← deref (args !! 0%nat); type0 ← deref (GetType arg0);
    match type0 with
    | BuiltinType k =>
        if IsIntegral k && negb (IsSigned k) then mret (args, Some (builtin_type UInt32))
        else ReportIncorrectCallArg_text func args 0 "primitive unsigned integer";; mret (args, None)
    | _ => ReportIncorrectCallArg_text func args 0 "primitive unsigned integer";; mret (args, None)
    end.

(** * The switch of [CheckBuiltinCall], with the arguments resolved *)

Definition CheckBuiltinCall_switch (builtin : BuiltinFunction) (func : TExpression) (args : list TExpression) : M checked :=
  match builtin with
  | BoolToSql | IntToSql | FloatToSql | DateToSql | StringToSql | SqlToBool | ConvertBoolToInteger | ConvertIntegerToReal
  | ConvertDateToTimestamp | ConvertStringToBool | ConvertStringToInt | ConvertStringToReal | ConvertStringToDate
  | ConvertStringToTime => check_signature (SqlConversion_signature builtin) func args
  | IsValNull | InitSqlNull => CheckNullValueCall func args builtin
  | LNot => GenericBuiltinCheck LNot_signature func args
  | Like => GenericBuiltinCheck StringLike_signature func args
  | ExtractYear => GenericBuiltinCheck DateFunction_signature func args
  | Concat => CheckBuiltinConcat func args
  | ExecutionContextGetMemoryPool | ExecutionContextGetTLS => check_signature (ExecutionContext_signature builtin) func args
  | ThreadStateContainerReset | ThreadStateContainerGetState | ThreadStateContainerIterate | ThreadStateContainerClear =>
      check_signature (ThreadStateContainer_signature builtin) func args
  | TableIterInit | TableIterAdvance | TableIterGetVPI | TableIterParallel | TableIterClose =>
      check_signature (TableIter_signature builtin) func args
  | VPIInit | VPIFree | VPIIsFiltered | VPIGetSelectedRowCount | VPIGetVectorProjection | VPIHasNext | VPIAdvance
  | VPISetPosition | VPIMatch | VPIReset | VPIGetBool | VPIGetTinyInt | VPIGetSmallInt | VPIGetInt | VPIGetBigInt
  | VPIGetReal | VPIGetDouble | VPIGetDate | VPIGetString | VPIGetPointer | VPISetBool | VPISetTinyInt | VPISetSmallInt
  | VPISetInt | VPISetBigInt | VPISetReal | VPISetDouble | VPISetDate | VPISetString =>
      check_signature (VPI_signature builtin) func args
  | CompactStorageWriteBool | CompactStorageWriteTinyInt | CompactStorageWriteSmallInt | CompactStorageWriteInteger
  | CompactStorageWriteBigInt | CompactStorageWriteReal | CompactStorageWriteDouble | CompactStorageWriteDate
  | CompactStorageWriteTimestamp | CompactStorageWriteString => check_signature (CompactStorageWrite_signature builtin) func args
  | CompactStorageReadBool | CompactStorageReadTinyInt | CompactStorageReadSmallInt | CompactStorageReadInteger
  | CompactStorageReadBigInt | CompactStorageReadReal | CompactStorageReadDouble | CompactStorageReadDate
  | CompactStorageReadTimestamp | CompactStorageReadString => check_signature (CompactStorageRead_signature builtin) func args
  | Hash => CheckBuiltinHashCall func args
  | FilterManagerInit | FilterManagerInsertFilter | FilterManagerRunFilters | FilterManagerFree =>
      CheckBuiltinFilterManagerCall func args builtin
  | VectorFilterEqual | VectorFilterGreaterThan | VectorFilterGreaterThanEqual | VectorFilterLessThan
  | VectorFilterLessThanEqual | VectorFilterNotEqual => CheckBuiltinVectorFilterCall func args
  | AggHashTableInit | AggHashTableInsert | AggHashTableLinkEntry | AggHashTableLookup | AggHashTableProcessBatch
  | AggHashTableMovePartitions | AggHashTableParallelPartitionedScan | AggHashTableFree =>
      check_signature (AggHashTable_signature builtin (length args)) func args
  | AggHashTableIterInit | AggHashTableIterHasNext | AggHashTableIterNext | AggHashTableIterGetRow | AggHashTableIterClose =>
      check_signature (AggHashTableIter_signature builtin) func args
  | AggPartIterHasNext | AggPartIterNext | AggPartIterGetRow | AggPartIterGetRowEntry | AggPartIterGetHash =>
      check_signature (AggPartIter_signature builtin) func args
  | AggInit | AggAdvance | AggMerge | AggReset | AggResult => CheckBuiltinAggregatorCall func args builtin
  | JoinHashTableInit | JoinHashTableInsert | JoinHashTableBuild | JoinHashTableBuildParallel | JoinHashTableLookup
  | JoinHashTableFree => check_signature (JoinHashTable_signature builtin (length args)) func args
  | HashTableEntryGetHash | HashTableEntryGetRow | HashTableEntryGetNext => check_signature (HashTableEntry_signature builtin) func args
  | AnalysisStatsSetColumnCount | AnalysisStatsSetColumnBits => check_signature (AnalysisStats_signature builtin) func args
  | SorterInit | SorterInsert | SorterInsertTopK | SorterInsertTopKFinish | SorterSort | SorterSortParallel
  | SorterSortTopKParallel | SorterFree => check_signature (Sorter_signature builtin) func args
  | SorterIterInit | SorterIterHasNext | SorterIterNext | SorterIterSkipRows | SorterIterGetRow | SorterIterClose =>
      check_signature (SorterIter_signature builtin) func args
  | ResultBufferAllocOutRow | ResultBufferFinalize => check_signature (ResultBuffer_signature builtin) func args
  | CSVReaderInit | CSVReaderAdvance | CSVReaderGetField | CSVReaderGetRecordNumber | CSVReaderClose =>
      check_signature (CSVReader_signature builtin) func args
  | ACos | ASin | ATan | ATan2 | Cos | Cot | Sin | Tan => check_signature (MathTrig_signature builtin) func args
  | Ctlz | Cttz => CheckBuiltinBitsCall func args
  | SizeOf => CheckBuiltinSizeOfCall func args
  | OffsetOf | IntCast | PtrCast => crash
  end.

End signedness.
