(* ===== verification/Sema.v ===== *)
(** Semantic analysis: the visitors of [src/sema/sema.cpp], [src/sema/sema_decl.cpp],
    [src/sema/sema_stmt.cpp], [src/sema/sema_expr.cpp], [src/sema/sema_type.cpp], and the part of
    [src/sema/sema_builtin.cpp] that visits arguments.

    A visitor gets a node of the parser and gives the node with types and casts; where the code returns
    early, the nodes it has not visited stay [untyped].  Visiting a null node is a crash. *)
From S2P Require Import Prelude Token Ast Types TypedAst Builtins ErrorReporter SemaChecking SemaBuiltin.

(** * Loops over children *)

(** Visit all, whatever comes of it. *)
Definition visit_all {A B} (visit : A -> M B) : list A -> M (list B) :=
  fix go l := match l with [] => mret [] | a :: l' => x ← visit a; xs ← go l'; mret (x :: xs) end.
(** Resolve arguments until one has no type; whether all have one. *)
Definition resolve_args (visit : Expression -> M TExpression) : list Expression -> M (list TExpression * bool) :=
  fix go l :=
    match l with
    | [] => mret ([], true)
    | e :: l' =>
        x ← visit e;
        match GetType x with
        | None => mret (x :: map untyped l', false)
        | Some _ => '(xs, ok) ← go l'; mret (x :: xs, ok)
        end
    end.
(** Visit fields until one has no type; their names and types, unless that happened. *)
Definition field_type (f : TFieldDeclaration) : option (option Identifier * TplType) :=
  match f with mkTFieldDeclaration _ name (Some repr) => (fun t => (name, t)) <$> GetType repr | _ => None end.
Definition resolve_fields (visit : FieldDeclaration -> M TFieldDeclaration)
  : list FieldDeclaration -> M (list TFieldDeclaration * option (list (option Identifier * TplType))) :=
  fix go l :=
    match l with
    | [] => mret ([], Some [])
    | f :: l' =>
        x ← visit f;
        match field_type x with
        | None => mret (x :: map untyped_field l', None)
        | Some t => '(xs, ts) ← go l'; mret (x :: xs, cons t <$> ts)
        end
    end.
(** A child that may be null and is then skipped, and one that may not. *)
Definition visit_optional {A B} (visit : A -> M B) (o : option A) : M (option B) :=
  match o with Some a => x ← visit a; mret (Some x) | None => mret None end.
Definition visit_child (visit : Expression -> M TExpression) (o : option Expression) : M TExpression :=
  match o with Some e => visit e | None => crash end.

(** * Calls *)

(** The arguments of a call checked against the parameters, all of them: the arguments and whether none
    failed. *)
Fixpoint check_call_args (func : TExpression) (params : list (option Identifier * TplType)) (args : list TExpression)
  (arg_num : nat) : M (list TExpression * bool) :=
  match args, params with
  | [], _ => mret ([], true)
  | arg :: args', param :: params' =>
      '(ok, arg') ← CheckAssignmentConstraints param.2 arg;
      (if (ok : bool) then mret tt
       else name ← deref (GetFuncName func);
            report (texpr_pos arg) IncorrectCallArgType
              [StringArg name; TypeArg (Some param.2); int_arg (Z.of_nat arg_num); TypeArg (GetType arg)]);;
      '(rest, ok') ← check_call_args func params' args' (S arg_num);
      mret (arg' :: rest, ok && ok')
  | _ :: _, [] => crash
  end.

(** [HasDuplicatesNames]: the first field whose name came before. *)
Fixpoint duplicate_name (seen : list (option Identifier)) (fields : list FieldDeclaration) : option (option Identifier) :=
  match fields with
  | [] => None
  | mkFieldDeclaration _ name _ :: fields' =>
      if decide (name ∈ seen) then Some name else duplicate_name (name :: seen) fields'
  end.
Definition HasDuplicatesNames (fields : list FieldDeclaration) : option (option Identifier) := duplicate_name [] fields.

(** * The visitors *)

Section visitors.
Context `{CppClasses}.

(** [VisitUnaryOpExpression] after the operand is resolved. *)
Definition UnaryOp_type (pos : SourcePosition) (op : TokenType) (expr_type : TplType) : M (option TplType) :=
  let invalid := report pos InvalidOperation [TokenArg op; TypeArg (Some expr_type)];; mret None in
  match op with
  | BANG => if IsBoolType expr_type then mret (Some expr_type) else invalid
  | BIT_NOT | MINUS => if IsArithmetic expr_type then mret (Some expr_type) else invalid
  | STAR => match expr_type with PointerType base => mret (Some base) | _ => invalid end
  | AMPERSAND => if IsFunctionType expr_type then invalid else mret (Some (PointerTo expr_type))
  | _ => crash
  end.

(** [VisitIndexExpression] after object and index are resolved. *)
Definition Index_type (pos : SourcePosition) (obj_type index_type : TplType) (index : TExpression) : M (option TplType) :=
  if negb (IsArrayType obj_type) && negb (IsMapType obj_type) then
    report pos InvalidIndexOperation [TypeArg (Some obj_type)];; mret None
  else if negb (IsIntegerType index_type) then report pos NonIntegerArrayIndexValue [];; mret None
  else match obj_type with
  | ArrayType length elem_type =>
      match index with
      | TLiteralExpression index_pos (IntLiteral index_val) _ =>
          if index_val <? 0 then report index_pos NegativeArrayIndexValue [int_arg index_val];; mret None
          else if negb (HasUnknownLength length) && (length <=? index_val) then
            report index_pos OutOfBoundsArrayIndexValue [int_arg index_val; int_arg length];; mret None
          else mret (Some elem_type)
      | TLiteralExpression _ _ _ => crash
      | _ => mret (Some elem_type)
      end
  | MapType _ val_type => mret (Some val_type)
  | _ => crash
  end.

(** [VisitMemberExpression] after the object is resolved. *)
Definition Member_type (pos : SourcePosition) (obj_type : TplType) (member : Expression) : M (option TplType) :=
  let obj_type := match obj_type with PointerType base => base | _ => obj_type end in
  match obj_type with
  | StructType _ fields =>
      match member with
      | IdentifierExpression _ name =>
          match LookupFieldByName fields (Some name) with
          | Some member_type => mret (Some member_type)
          | None => report (expr_pos member) FieldObjectDoesNotExist [StringArg name; TypeArg (Some obj_type)];; mret None
          end
      | _ => report (expr_pos member) ExpectedIdentifierForMember [];; mret None
      end
  | _ => report pos MemberObjectNotComposite [TypeArg (Some obj_type)];; mret None
  end.

(** [VisitLiteralExpression]. *)
Definition Literal_type (value : LiteralValue) : M TplType :=
  match value with
  | NilLiteral => mret (builtin_type Nil)
  | BoolLiteral _ => mret (builtin_type Bool)
  | FloatLiteral _ =>
      single ← deref (IsRepresentable value (builtin_type Float32));
      mret (builtin_type (if (single : bool) then Float32 else Float64))
  | IntLiteral _ =>
      int32 ← deref (IsRepresentable value (builtin_type Int32));
      mret (builtin_type (if (int32 : bool) then Int32 else Int64))
  | StringLiteral _ => mret StringType
  end.

Definition Identifier_type (pos : SourcePosition) (name : Identifier) : M (option TplType) :=
  scopes ← get scope_;
  match Lookup scopes (Some name) with
  | Some t => mret (Some t)
  | None => match LookupBuiltinType name with
            | Some t => mret (Some t)
            | None => report pos UndefinedVariable [StringArg name];; mret None
            end
  end.

(** The length of an array type, 0 if it has none. *)
Definition Array_length (len : option Expression) : M (option Z) :=
  match len with
  | None => mret (Some 0)
  | Some (LiteralExpression pos (IntLiteral length)) =>
      if length <? 0 then report pos NegativeArrayLength [];; mret None else mret (Some (wrapu 64 length))
  | Some e => report (expr_pos e) NonIntegerArrayLength [];; mret None
  end.

(** [VisitStructTypeRepr] after the fields are resolved. *)
Definition Struct_type (fields : list (option Identifier * TplType)) : M TplType :=
  decl_context ← get curr_decl_context_;
  match decl_context with
  | StructContext name =>
      ctx ← get context_;
      '(t, ctx) ← deref (StructType_Get name fields ctx);
      modify (set_context ctx);; mret t
  | _ => mret (StructType_Get_anonymous fields)
  end.

(** The end of [VisitFunctionLiteralExpression]: whether the body ends in a return; if it need not, one
    is added. *)
Definition check_terminates (pos : SourcePosition) (ret_type : TplType) (body : TStatement) : M TStatement :=
  match body with
  | TBlockStatement body_pos rbrace_pos stmts =>
      terminating ← (match stmts with [] => mret false | _ => deref (IsTerminating body) end);
      if (terminating : bool) then mret body
      else if negb (IsNilType ret_type) then report rbrace_pos MissingReturn [];; mret body
      else mret (TBlockStatement body_pos rbrace_pos (stmts ++ [TReturnStatement pos None]))
  | _ => crash
  end.

(** Visit the body of a function in its scope, with its parameters declared. *)
Definition check_function (visit_body : M TStatement) (pos : SourcePosition) (func_type : option TplType) : M TStatement :=
  match func_type with
  | Some (FunctionType params ret as t) =>
      with_function (Some t)
        (foldr (fun param rest => declare param.1 param.2;; rest) (mret tt) params;;
         body ← visit_body;
         check_terminates pos ret body)
  | _ => crash
  end.

(** The builtins that visit their arguments themselves, after their number is checked. *)
Definition builtin_call (func : Expression) (args : list TExpression) (type : option TplType) : TExpression :=
  TCallExpression Builtin (untyped func) args type.
Definition CheckBuiltinIntCast (func type_expr input : Expression) (visit_input : M TExpression) : M TExpression :=
  let args := [untyped type_expr; untyped input] in
  match type_expr with
  | IdentifierExpression _ type_name =>
      type ← deref (LookupBuiltinType type_name);
      if negb (IsIntegerType type) then
        report (expr_pos func) BadArgToIntCast1 [StringArg type_name];; mret (builtin_call func args None)
      else
        input ← visit_input;
        let args := [untyped type_expr; input] in
        match GetType input with
        | None => mret (builtin_call func args None)
        | Some resolved_type =>
            if negb (IsIntegerType resolved_type) then
              report (expr_pos func) BadArgToIntCast2 [TypeArg (Some resolved_type)];; mret (builtin_call func args None)
            else mret (builtin_call func args (Some type))
        end
  | _ => report (expr_pos func) BadArgToIntCast [];; mret (builtin_call func args None)
  end.
Definition CheckBuiltinPtrCast (func input : Expression) (visit_type visit_input : M TExpression) : M TExpression :=
  type_expr ← visit_type;
  match GetType type_expr with
  | None => mret (builtin_call func [type_expr; untyped input] None)
  | Some target_type =>
      input ← visit_input;
      match GetType input with
      | None => mret (builtin_call func [type_expr; input] None)
      | Some input_type =>
          if negb (IsPointerType target_type) || negb (IsPointerType input_type) then
            report (expr_pos func) BadArgToPtrCast [TypeArg (Some target_type); int_arg 1];;
            mret (builtin_call func [type_expr; input] None)
          else mret (builtin_call func [type_expr; input] (Some target_type))
      end
  end.
Definition CheckBuiltinOffsetOf (func field : Expression) (visit_object : M TExpression) : M TExpression :=
  object ← visit_object;
  let args := [object; untyped field] in
  match GetType object with
  | Some (StructType _ fields as type) =>
      match field with
      | IdentifierExpression _ field_name =>
          match LookupFieldByName fields (Some field_name) with
          | None => report (expr_pos func) FieldObjectDoesNotExist [StringArg field_name; TypeArg (Some type)];;
                    mret (builtin_call func args None)
          | Some _ => mret (builtin_call func args (Some (builtin_type UInt32)))
          end
      | _ => ReportIncorrectCallArg_text (untyped func) args 1 "identifier expression";; mret (builtin_call func args None)
      end
  | _ => ReportIncorrectCallArg_text (untyped func) args 0 "composite";; mret (builtin_call func args None)
  end.

Fixpoint visit (node : Expression) {struct node} : M TExpression :=
  match node with
  | BadExpression pos => mret (TBadExpression pos)
  | BinaryOpExpression pos op lhs rhs =>
      lhs ← visit lhs; rhs ← visit rhs;
      match GetType lhs, GetType rhs with
      | Some _, Some _ =>
          match op with
          | AND | OR =>
              r ← CheckLogicalOperands op pos lhs rhs;
              mret (TBinaryOpExpression pos op (result_left r) (result_right r) (result_type r))
          | AMPERSAND | BIT_XOR | BIT_OR | BIT_SHL | BIT_SHR | PLUS | MINUS | STAR | SLASH | PERCENT =>
              r ← CheckArithmeticOperands op pos lhs rhs;
              mret (TBinaryOpExpression pos op (result_left r) (result_right r) (result_type r))
          | _ => mret (TBinaryOpExpression pos op lhs rhs None)   (* only logged *)
          end
      | _, _ => mret (TBinaryOpExpression pos op lhs rhs None)
      end
  | ComparisonOpExpression pos op lhs rhs =>
      lhs ← visit lhs; rhs ← visit rhs;
      match GetType lhs, GetType rhs with
      | Some _, Some _ =>
          match op with
          | BANG_EQUAL | EQUAL_EQUAL | GREATER | GREATER_EQUAL | LESS | LESS_EQUAL =>
              r ← CheckComparisonOperands op pos lhs rhs;
              mret (TComparisonOpExpression pos op (result_left r) (result_right r) (result_type r))
          | _ => mret (TComparisonOpExpression pos op lhs rhs None)   (* only logged *)
          end
      | _, _ => mret (TComparisonOpExpression pos op lhs rhs None)
      end
  | CallExpression Builtin func args =>
      let call := builtin_call func in
      name ← deref (GetFuncName (untyped func));
      match IsBuiltinFunction name with
      | None => report (expr_pos func) InvalidBuiltinFunction [StringArg name];; mret (call (map untyped args) None)
      | Some IntCast =>
          ok ← CheckArgCount (untyped func) (map untyped args) 2;
          if negb ok then mret (call (map untyped args) None)
          else match args with
          | [type_expr; input] => CheckBuiltinIntCast func type_expr input (visit input)
          | _ => crash
          end
      | Some PtrCast =>
          ok ← CheckArgCount (untyped func) (map untyped args) 2;
          if negb ok then mret (call (map untyped args) None)
          else match args with
          | [type_expr; input] =>
              match type_expr with
              | UnaryOpExpression pos STAR base =>
                  (* the node becomes a pointer type *)
                  CheckBuiltinPtrCast func input
                    (base ← visit base; mret (TPointerTypeRepr pos (Some base) (PointerTo <$> GetType base))) (visit input)
              | UnaryOpExpression _ _ _ =>
                  report (expr_pos func) BadArgToPtrCast [TypeArg None; int_arg 1];; mret (call (map untyped args) None)
              | _ => CheckBuiltinPtrCast func input (visit type_expr) (visit input)
              end
          | _ => crash
          end
      | Some OffsetOf =>
          ok ← CheckArgCount (untyped func) (map untyped args) 2;
          if negb ok then mret (call (map untyped args) None)
          else match args with
          | [object; field] => CheckBuiltinOffsetOf func field (visit object)
          | _ => crash
          end
      | Some builtin =>
          '(args, ok) ← resolve_args visit args;
          if negb ok then mret (call args None)
          else '(args, type) ← CheckBuiltinCall_switch builtin (untyped func) args; mret (call args type)
      end
  | CallExpression Regular func args =>
      tfunc ← visit func;
      let call args type := TCallExpression Regular tfunc args type in
      match GetType tfunc with
      | None => mret (call (map untyped args) None)
      | Some (FunctionType params ret) =>
          ok ← CheckArgCount tfunc (map untyped args) (length params);
          if negb ok then mret (call (map untyped args) None)
          else
            '(args, ok) ← resolve_args visit args;
            if negb ok then mret (call args None)
            else
              '(args, ok) ← check_call_args tfunc params args 0;
              mret (call args (if (ok : bool) then Some ret else None))
      | Some _ => report (expr_pos func) NonFunction [];; mret (call (map untyped args) None)
      end
  | FunctionLiteralExpression type_repr body =>
      type_repr ← visit type_repr;
      match GetType type_repr with
      | None => mret (TFunctionLiteralExpression type_repr (untyped_stmt body) None)
      | Some type =>
          body ← check_function (visit_stmt body) (texpr_pos type_repr) (Some type);
          mret (TFunctionLiteralExpression type_repr body (Some type))
      end
  | IdentifierExpression pos name => type ← Identifier_type pos name; mret (TIdentifierExpression pos name type)
  | IndexExpression pos object index =>
      object ← visit object; index ← visit index;
      match GetType object, GetType index with
      | Some obj_type, Some index_type =>
          type ← Index_type pos obj_type index_type index; mret (TIndexExpression pos object index type)
      | _, _ => mret (TIndexExpression pos object index None)
      end
  | LiteralExpression pos value => type ← Literal_type value; mret (TLiteralExpression pos value (Some type))
  | MemberExpression pos object member =>
      object ← visit object;
      match GetType object with
      | None => mret (TMemberExpression pos object (untyped member) None)
      | Some obj_type => type ← Member_type pos obj_type member; mret (TMemberExpression pos object (untyped member) type)
      end
  | UnaryOpExpression pos op expr =>
      expr ← visit expr;
      match GetType expr with
      | None => mret (TUnaryOpExpression pos op expr None)
      | Some expr_type => type ← UnaryOp_type pos op expr_type; mret (TUnaryOpExpression pos op expr type)
      end
  | ArrayTypeRepr pos len elem_type =>
      arr_len ← Array_length len;
      match arr_len with
      | None => mret (TArrayTypeRepr pos (option_map untyped len) (option_map untyped elem_type) None)
      | Some arr_len =>
          elem ← visit_child visit elem_type;
          mret (TArrayTypeRepr pos (option_map untyped len) (Some elem) (ArrayType arr_len <$> GetType elem))
      end
  | FunctionTypeRepr pos params ret_type =>
      '(params, param_types) ← resolve_fields visit_field params;
      match param_types with
      | None => mret (TFunctionTypeRepr pos params (option_map untyped ret_type) None)
      | Some param_types =>
          ret ← visit_child visit ret_type;
          mret (TFunctionTypeRepr pos params (Some ret) (FunctionType param_types <$> GetType ret))
      end
  | MapTypeRepr pos key val =>
      key ← visit_child visit key; val ← visit_child visit val;
      mret (TMapTypeRepr pos (Some key) (Some val)
              (match GetType key, GetType val with Some k, Some v => Some (MapType k v) | _, _ => None end))
  | PointerTypeRepr pos base =>
      base ← visit_child visit base;
      mret (TPointerTypeRepr pos (Some base) (PointerTo <$> GetType base))
  | StructTypeRepr pos fields =>
      '(fields, field_types) ← resolve_fields visit_field fields;
      match field_types with
      | None => mret (TStructTypeRepr pos fields None)
      | Some field_types => type ← Struct_type field_types; mret (TStructTypeRepr pos fields (Some type))
      end
  end
with visit_field (node : FieldDeclaration) {struct node} : M TFieldDeclaration :=
  match node with
  | mkFieldDeclaration pos name type_repr =>
      with_declaration OtherDeclaration
        (type_repr ← visit_child visit type_repr; mret (mkTFieldDeclaration pos name (Some type_repr)))
  end
with visit_stmt (node : Statement) {struct node} : M TStatement :=
  match node with
  | AssignmentStatement pos dest src =>
      src ← visit src; dest ← visit dest;
      match GetType src, GetType dest with
      | Some src_type, Some dest_type =>
          '(ok, source) ← CheckAssignmentConstraints dest_type src;
          if negb ok then report pos InvalidAssignment [TypeArg (Some src_type); TypeArg (Some dest_type)];;
                          mret (TAssignmentStatement pos dest src)
          else mret (TAssignmentStatement pos dest source)
      | _, _ => mret (TAssignmentStatement pos dest src)
      end
  | BlockStatement pos rbrace_pos statements =>
      with_scope BlockScope (stmts ← visit_all visit_stmt statements; mret (TBlockStatement pos rbrace_pos stmts))
  | DeclarationStatement decl => decl ← visit_decl decl; mret (TDeclarationStatement decl)
  | ExpressionStatement expr => expr ← visit expr; mret (TExpressionStatement expr)
  | ForStatement pos init cond next body =>
      with_scope LoopScope
        (init ← visit_optional visit_stmt init;
         let rest cond :=
           next ← visit_optional visit_stmt next;
           body ← visit_stmt body;
           mret (TForStatement pos init cond next body) in
         match cond with
         | None => rest None
         | Some cond =>
             cond ← visit cond;
             match GetType cond with
             | None => mret (TForStatement pos init (Some cond) (option_map untyped_stmt next) (untyped_stmt body))
             | Some cond_type =>
                 (if IsBoolType cond_type then mret tt else report (texpr_pos cond) NonBoolForCondition []);;
                 rest (Some cond)
             end
         end)
  | ForInStatement pos target iter body =>
      mret (TForInStatement pos (untyped target) (untyped iter) (untyped_stmt body))   (* not supported, and not visited *)
  | IfStatement pos cond then_stmt else_stmt =>
      cond ← visit cond;
      match GetType cond with
      | None => mret (TIfStatement pos cond (untyped_stmt then_stmt) (option_map untyped_stmt else_stmt))
      | Some cond_type =>
          let cond := if IsSpecificBuiltin cond_type BooleanVal
                      then ImplCastExprToType cond (builtin_type Bool) SqlBoolToBool else cond in
          type ← deref (GetType cond);
          (if IsBoolType type then mret tt else report (texpr_pos cond) NonBoolIfCondition []);;
          then_stmt ← visit_stmt then_stmt;
          else_stmt ← visit_optional visit_stmt else_stmt;
          mret (TIfStatement pos cond then_stmt else_stmt)
      end
  | ReturnStatement pos ret =>
      curr_func ← get curr_func_;
      match curr_func with
      | None => report pos ReturnOutsideFunction [];; mret (TReturnStatement pos (option_map untyped ret))
      | Some func_type =>
          ret ← visit_optional visit ret;
          let return_type := match ret with Some e => GetType e | None => None end in
          match func_type with
          | Some (FunctionType _ expected) =>
              if IsNilType expected then
                (match return_type with
                 | Some t => report pos MismatchedReturnType [TypeArg (Some t); TypeArg (Some expected)]
                 | None => mret tt
                 end);;
                mret (TReturnStatement pos ret)
              else
                match ret, return_type with
                | Some e, Some t =>
                    '(ok, e') ← CheckAssignmentConstraints expected e;
                    if negb ok then report pos MismatchedReturnType [TypeArg (Some t); TypeArg (Some expected)];;
                                    mret (TReturnStatement pos (Some e))
                    else mret (TReturnStatement pos (Some e'))
                | _, _ => report pos MissingReturn [];; mret (TReturnStatement pos ret)
                end
          | _ => crash
          end
      end
  end
with visit_decl (node : Declaration) {struct node} : M TDeclaration :=
  match node with
  | VariableDeclaration pos name type_repr init =>
      scopes ← get scope_;
      match LookupLocal scopes (Some name) with
      | Some _ => report pos VariableRedeclared [StringArg name];;
                  mret (TVariableDeclaration pos name (option_map untyped type_repr) (option_map untyped init))
      | None =>
          with_declaration OtherDeclaration
            (type_repr ← visit_optional visit type_repr;
             init ← visit_optional visit init;
             let declared_type := match type_repr with Some e => GetType e | None => None end in
             let initializer_type := match init with Some e => GetType e | None => None end in
             match declared_type, initializer_type, init with
             | None, None, _ => mret (TVariableDeclaration pos name type_repr init)
             | Some declared, Some initializer, Some e =>
                 '(ok, e') ← CheckAssignmentConstraints declared e;
                 if negb ok then
                   report pos InvalidAssignment [TypeArg (Some declared); TypeArg (Some initializer)];;
                   mret (TVariableDeclaration pos name type_repr init)
                 else declare (Some name) declared;; mret (TVariableDeclaration pos name type_repr (Some e'))
             | None, Some initializer, _ =>
                 if IsNilType initializer then
                   report pos UseOfUntypedNil [];; mret (TVariableDeclaration pos name type_repr init)
                 else declare (Some name) initializer;; mret (TVariableDeclaration pos name type_repr init)
             | Some declared, _, _ => declare (Some name) declared;; mret (TVariableDeclaration pos name type_repr init)
             end)
      end
  | FunctionDeclaration pos name func =>
      with_declaration OtherDeclaration
        match func with
        | FunctionLiteralExpression type_repr body =>
            type_repr' ← visit type_repr;
            let unchecked := TFunctionDeclaration pos name (TFunctionLiteralExpression type_repr' (untyped_stmt body) None) in
            match GetType type_repr', type_repr with
            | None, _ => mret unchecked
            | Some func_type, FunctionTypeRepr _ params _ =>
                match HasDuplicatesNames params with
                | Some dup => report pos DuplicateArgName [name_arg dup; StringArg name];; mret unchecked
                | None =>
                    declare (Some name) func_type;;
                    body ← check_function (visit_stmt body) (texpr_pos type_repr') (Some func_type);
                    mret (TFunctionDeclaration pos name (TFunctionLiteralExpression type_repr' body (Some func_type)))
                end
            | _, _ => crash
            end
        | _ => crash
        end
  | StructDeclaration pos name struct_type =>
      with_declaration (StructContext name)
        (tstruct ← visit struct_type;
         match GetType tstruct, struct_type with
         | None, _ => mret (TStructDeclaration pos name tstruct)
         | Some type, StructTypeRepr _ fields =>
             match HasDuplicatesNames fields with
             | Some dup => report pos DuplicateStructFieldName [name_arg dup; StringArg name];;
                           mret (TStructDeclaration pos name tstruct)
             | None => declare (Some name) type;; mret (TStructDeclaration pos name tstruct)
             end
         | _, _ => crash
         end)
  end.

Definition visit_file (node : File) : M TFile :=
  let '(mkFile pos decls) := node in
  with_scope FileScope (decls ← visit_all visit_decl decls; mret (mkTFile pos decls)).

(** [Run] tells whether there are errors. *)
Definition Run (root : File) : M (TFile * bool) :=
  file ← visit_file root; es ← get error_reporter_; mret (file, HasErrors es).

End visitors.
