(* ===== verification/SemaSpec.v ===== *)
(** What semantic analysis promises: the type system of typed trees, and which trees a source tree may
    be elaborated to.

    The type system has no conversions: both sides of an assignment have one type, arguments have the
    types of the parameters, and a conversion is a cast in the tree.  An environment is what a program
    point sees; a declaration of a name that is visible leaves the visible type. *)
From S2P Require Import Prelude Token Ast Types TypedAst Builtins SemaChecking SemaBuiltin.

#[local] Set Warnings "-register-all".

(** * Environments *)

(** The types of the names in sight, and the names the innermost block declares. *)
Record env := mkEnv { visible : gmap (option Identifier) TplType; own_names : gset (option Identifier) }.
Definition empty_env : env := mkEnv ∅ ∅.
Definition enter (G : env) : env := mkEnv (visible G) ∅.
Definition extend (G : env) (name : option Identifier) (t : TplType) : env :=
  match visible G !! name with
  | Some _ => G
  | None => mkEnv (<[name := t]> (visible G)) ({[name]} ∪ own_names G)
  end.
Definition extend_all (G : env) (params : list (option Identifier * TplType)) : env :=
  foldl (fun G p => extend G p.1 p.2) G params.

(** What an identifier means: a visible name, or else a builtin type. *)
Definition meaning (G : env) (name : Identifier) : option TplType :=
  match visible G !! Some name with Some t => Some t | None => LookupBuiltinType name end.

(** * Builtin functions *)

(** The signature of the builtins that have one, for the number of arguments. *)
Definition builtin_signature (b : BuiltinFunction) (num_args : nat) : option (TplType * list arg_spec) :=
  match b with
  | LNot => Some LNot_signature
  | Like => Some StringLike_signature
  | ExtractYear => Some DateFunction_signature
  | FilterManagerInit | FilterManagerFree => Some (builtin_type Nil, [ptr FilterManager])
  | FilterManagerRunFilters => Some (builtin_type Nil, [ptr FilterManager; ptr VectorProjectionIterator])
  | _ =>
      foldr (fun o rest => match o with Some sig => Some sig | None => rest end) None
        [SqlConversion_signature b; ExecutionContext_signature b; ThreadStateContainer_signature b;
         TableIter_signature b; VPI_signature b; CompactStorageWrite_signature b; CompactStorageRead_signature b;
         AggHashTable_signature b num_args; AggHashTableIter_signature b; AggPartIter_signature b;
         JoinHashTable_signature b num_args; HashTableEntry_signature b; AnalysisStats_signature b;
         Sorter_signature b; SorterIter_signature b; ResultBuffer_signature b; CSVReader_signature b;
         MathTrig_signature b]
  end.

(** An argument of a type is what the signature asks for. *)
Definition meets (arg : TExpression * TplType) (spec : arg_spec) : Prop :=
  match spec with
  | Exactly t => arg.2 = t
  | StringLiteralArg => IsStringLiteral arg.1
  | AnyPointer => IsPointerType arg.2
  | SqlValueArg => IsSqlValueType arg.2
  | FunctionArg ret params =>
      exists actual, arg.2 = FunctionType actual ret /\ Forall2 (fun p a => TypeCheck p a.2) params actual
  end.

(** The value an aggregate yields. *)
Definition aggregate_result (k : BuiltinKind) : option BuiltinKind :=
  match k with
  | CountAggregate | CountStarAggregate | IntegerMaxAggregate | IntegerMinAggregate | IntegerSumAggregate => Some IntegerVal
  | RealMaxAggregate | RealMinAggregate | RealSumAggregate | AvgAggregate => Some RealVal
  | _ => None
  end.

Section builtins.
Context `{CppClasses}.

(** A builtin may be called with arguments of these types, and gives this one. *)
Inductive builtin_accepts : BuiltinFunction -> list (TExpression * TplType) -> TplType -> Prop :=
  | accepts_signature b args ret specs :
      builtin_signature b (length args) = Some (ret, specs) -> Forall2 meets args specs ->
      builtin_accepts b args ret
  | accepts_is_null a t : IsSqlValueType t -> builtin_accepts IsValNull [(a, t)] (builtin_type Bool)
  | accepts_init_null a t : IsSqlValueType t -> builtin_accepts InitSqlNull [(a, PointerType t)] (builtin_type Nil)
  | accepts_aggregates b args : b = AggInit \/ b = AggReset -> Forall (fun a => IsPointerToAggregatorValue a.2) args ->
      builtin_accepts b args (builtin_type Nil)
  | accepts_advance a t a' t' : IsPointerToAggregatorValue t -> IsSqlValueType t' ->
      builtin_accepts AggAdvance [(a, t); (a', t')] (builtin_type Nil)
  | accepts_merge a t a' t' : IsPointerToAggregatorValue t -> IsPointerToAggregatorValue t' ->
      builtin_accepts AggMerge [(a, t); (a', t')] (builtin_type Nil)
  | accepts_result a k v : aggregate_result k = Some v ->
      builtin_accepts AggResult [(a, PointerType (BuiltinType k))] (builtin_type v)
  | accepts_hash args : args <> [] -> Forall (fun a => IsSqlValueType a.2) args ->
      builtin_accepts Hash args (builtin_type UInt64)
  | accepts_filters a args : Forall (fun a => IsFilterFunction a.2) args ->
      builtin_accepts FilterManagerInsertFilter ((a, PointerType (builtin_type FilterManager)) :: args) (builtin_type Nil)
  | accepts_filter b a0 a1 t1 a2 t2 a3 :
      b ∈ [VectorFilterEqual; VectorFilterGreaterThan; VectorFilterGreaterThanEqual; VectorFilterLessThan;
           VectorFilterLessThanEqual; VectorFilterNotEqual] ->
      t1 = builtin_type Int32 \/ t1 = builtin_type UInt32 -> t2 = builtin_type Int32 \/ IsSqlValueType t2 ->
      builtin_accepts b [(a0, PointerType (builtin_type VectorProjection)); (a1, t1); (a2, t2);
                         (a3, PointerType (builtin_type TupleIdList))] (builtin_type Nil)
  | accepts_sizeof a t : builtin_accepts SizeOf [(a, t)] (builtin_type UInt32)
  | accepts_bits b a k : b = Ctlz \/ b = Cttz -> IsIntegral k -> IsSigned k = false ->
      builtin_accepts b [(a, BuiltinType k)] (builtin_type UInt32).

(** * The type system *)

(** A literal has its natural type, or one it was given that represents it. *)
Definition literal_has (value : LiteralValue) (t : TplType) : Prop :=
  (value = NilLiteral /\ t = builtin_type Nil) \/ IsRepresentable value t = Some true.

(** A constant index is in the bounds an array states. *)
Definition index_in_bounds (length : Z) (index : TExpression) : Prop :=
  match index with
  | TLiteralExpression _ (IntLiteral i) _ => 0 <= i /\ (length = 0 \/ i < length)
  | _ => True
  end.

(** Types and pointers to them have members. *)
Inductive struct_of : TplType -> list (option Identifier * TplType) -> Prop :=
  | struct_itself n fs : struct_of (StructType n fs) fs
  | struct_pointer n fs : struct_of (PointerType (StructType n fs)) fs.

Inductive unary_type : TokenType -> TplType -> TplType -> Prop :=
  | unary_not : unary_type BANG (builtin_type Bool) (builtin_type Bool)
  | unary_minus op t : op = BIT_NOT \/ op = MINUS -> IsArithmetic t -> unary_type op t t
  | unary_deref t : unary_type STAR (PointerType t) t
  | unary_address t : IsFunctionType t = false -> unary_type AMPERSAND t (PointerType t).

Definition arithmetic_ops : list TokenType :=
  [AMPERSAND; BIT_XOR; BIT_OR; BIT_SHL; BIT_SHR; PLUS; MINUS; STAR; SLASH; PERCENT].
Definition comparison_ops : list TokenType := [BANG_EQUAL; EQUAL_EQUAL; GREATER; GREATER_EQUAL; LESS; LESS_EQUAL].

(** Every way through the statement ends in a return. *)
Inductive returns : TStatement -> Prop :=
  | returns_return p e : returns (TReturnStatement p e)
  | returns_if p c t e : returns t -> returns e -> returns (TIfStatement p c t (Some e))
  | returns_block p rp ss s : returns s -> returns (TBlockStatement p rp (ss ++ [s])).

Inductive has_type : env -> TExpression -> TplType -> Prop :=
  | T_arithmetic G p op l r t : op ∈ arithmetic_ops -> IsArithmetic t -> has_type G l t -> has_type G r t ->
      has_type G (TBinaryOpExpression p op l r (Some t)) t
  | T_logical G p op l r : op = AND \/ op = OR -> has_type G l (builtin_type Bool) -> has_type G r (builtin_type Bool) ->
      has_type G (TBinaryOpExpression p op l r (Some (builtin_type Bool))) (builtin_type Bool)
  | T_comparison G p op l r t u : op ∈ comparison_ops -> has_type G l t -> has_type G r t ->
      (IsPointerType t -> IsEqualityOp op) -> u = builtin_type (if IsSqlValueType t then BooleanVal else Bool) ->
      has_type G (TComparisonOpExpression p op l r (Some u)) u
  | T_call G f args ps ret : has_type G f (FunctionType ps ret) -> Forall2 (has_type G) args (map snd ps) ->
      has_type G (TCallExpression Regular f args (Some ret)) ret
  | T_builtin G p name b args ts t : IsBuiltinFunction name = Some b -> Forall2 (has_type G) args ts ->
      builtin_accepts b (zip args ts) t ->
      has_type G (TCallExpression Builtin (TIdentifierExpression p name None) args (Some t)) t
  | T_int_cast G p name p' tname e u t : IsBuiltinFunction name = Some IntCast ->
      LookupBuiltinType tname = Some t -> IsIntegerType t -> has_type G e u -> IsIntegerType u ->
      has_type G (TCallExpression Builtin (TIdentifierExpression p name None) [TIdentifierExpression p' tname None; e] (Some t)) t
  | T_ptr_cast G p name te e t u : IsBuiltinFunction name = Some PtrCast ->
      has_type G te (PointerType t) -> has_type G e (PointerType u) ->
      has_type G (TCallExpression Builtin (TIdentifierExpression p name None) [te; e] (Some (PointerType t))) (PointerType t)
  | T_offset_of G p name o n fs p' fname t : IsBuiltinFunction name = Some OffsetOf ->
      has_type G o (StructType n fs) -> LookupFieldByName fs (Some fname) = Some t ->
      has_type G (TCallExpression Builtin (TIdentifierExpression p name None) [o; TIdentifierExpression p' fname None]
                    (Some (builtin_type UInt32))) (builtin_type UInt32)
  | T_function G tr body ps ret G' : has_type G tr (FunctionType ps ret) ->
      stmt_ok (extend_all (enter G) ps) (Some ret) body G' -> returns body ->
      has_type G (TFunctionLiteralExpression tr body (Some (FunctionType ps ret))) (FunctionType ps ret)
  | T_identifier G p name t : meaning G name = Some t -> has_type G (TIdentifierExpression p name (Some t)) t
  | T_index G p o i n t u : has_type G o (ArrayType n t) -> has_type G i u -> IsIntegerType u -> index_in_bounds n i ->
      has_type G (TIndexExpression p o i (Some t)) t
  | T_map_index G p o i k t u : has_type G o (MapType k t) -> has_type G i u -> IsIntegerType u ->
      has_type G (TIndexExpression p o i (Some t)) t
  | T_literal G p v t : literal_has v t -> has_type G (TLiteralExpression p v (Some t)) t
  | T_member G p o t fs p' name u : has_type G o t -> struct_of t fs -> LookupFieldByName fs (Some name) = Some u ->
      has_type G (TMemberExpression p o (TIdentifierExpression p' name None) (Some u)) u
  | T_unary G p op e t u : has_type G e t -> unary_type op t u -> has_type G (TUnaryOpExpression p op e (Some u)) u
  | T_sql_bool G p e : has_type G e (builtin_type BooleanVal) ->
      has_type G (TImplicitCastExpression p SqlBoolToBool e (Some (builtin_type Bool))) (builtin_type Bool)
  | T_array_decay G p e n t : has_type G e (PointerType (ArrayType n t)) -> n <> 0 ->
      has_type G (TImplicitCastExpression p BitCast e (Some (ArrayType 0 t))) (ArrayType 0 t)
  | T_array_type G p elem t : has_type G elem t ->
      has_type G (TArrayTypeRepr p None (Some elem) (Some (ArrayType 0 t))) (ArrayType 0 t)
  | T_sized_array_type G p p' n elem t : 0 <= n -> has_type G elem t ->
      has_type G (TArrayTypeRepr p (Some (TLiteralExpression p' (IntLiteral n) None)) (Some elem) (Some (ArrayType (wrapu 64 n) t)))
        (ArrayType (wrapu 64 n) t)
  | T_function_type G p params ps r ret : Forall2 (field_ok G) params ps -> has_type G r ret ->
      has_type G (TFunctionTypeRepr p params (Some r) (Some (FunctionType ps ret))) (FunctionType ps ret)
  | T_map_type G p k v kt vt : has_type G k kt -> has_type G v vt ->
      has_type G (TMapTypeRepr p (Some k) (Some v) (Some (MapType kt vt))) (MapType kt vt)
  | T_pointer_type G p b t : has_type G b t ->
      has_type G (TPointerTypeRepr p (Some b) (Some (PointerType t))) (PointerType t)
  | T_struct_type G p fields fs : Forall2 (field_ok G) fields fs ->
      has_type G (TStructTypeRepr p fields (Some (StructType_Get_anonymous fs))) (StructType_Get_anonymous fs)
  | T_named_struct_type G p fields fs n : Forall2 (field_ok G) fields fs ->
      has_type G (TStructTypeRepr p fields (Some (StructType (Some n) fs))) (StructType (Some n) fs)
with field_ok : env -> TFieldDeclaration -> option Identifier * TplType -> Prop :=
  | F_field G p name repr t : has_type G repr t -> field_ok G (mkTFieldDeclaration p name (Some repr)) (name, t)
with stmt_ok : env -> option TplType -> TStatement -> env -> Prop :=
  | S_assignment G ret p d s t : has_type G s t -> has_type G d t -> stmt_ok G ret (TAssignmentStatement p d s) G
  | S_block G ret p rp ss G' : stmts_ok (enter G) ret ss G' -> stmt_ok G ret (TBlockStatement p rp ss) G
  | S_declaration G ret d G' : decl_ok G d G' -> stmt_ok G ret (TDeclarationStatement d) G'
  | S_expression G ret e t : has_type G e t -> stmt_ok G ret (TExpressionStatement e) G
  | S_for G ret p i c n b G1 G2 G3 : optional_ok (enter G) ret i G1 ->
      (forall e, c = Some e -> has_type G1 e (builtin_type Bool)) -> optional_ok G1 ret n G2 -> stmt_ok G2 ret b G3 ->
      stmt_ok G ret (TForStatement p i c n b) G
  | S_if G ret p c t e G1 G2 : has_type G c (builtin_type Bool) -> stmt_ok G ret t G1 -> optional_ok G1 ret e G2 ->
      stmt_ok G ret (TIfStatement p c t e) G2
  | S_return_nil G p : stmt_ok G (Some (builtin_type Nil)) (TReturnStatement p None) G
  | S_return G p e t : t <> builtin_type Nil -> has_type G e t -> stmt_ok G (Some t) (TReturnStatement p (Some e)) G
with optional_ok : env -> option TplType -> option TStatement -> env -> Prop :=
  | O_none G ret : optional_ok G ret None G
  | O_some G ret s G' : stmt_ok G ret s G' -> optional_ok G ret (Some s) G'
with stmts_ok : env -> option TplType -> list TStatement -> env -> Prop :=
  | L_nil G ret : stmts_ok G ret [] G
  | L_cons G ret s ss G1 G2 : stmt_ok G ret s G1 -> stmts_ok G1 ret ss G2 -> stmts_ok G ret (s :: ss) G2
with decl_ok : env -> TDeclaration -> env -> Prop :=
  | D_function G p name tr body ps ret G1 : has_type G tr (FunctionType ps ret) -> NoDup (map fst ps) ->
      stmt_ok (extend_all (enter (extend G (Some name) (FunctionType ps ret))) ps) (Some ret) body G1 -> returns body ->
      decl_ok G (TFunctionDeclaration p name (TFunctionLiteralExpression tr body (Some (FunctionType ps ret))))
        (extend G (Some name) (FunctionType ps ret))
  | D_struct G p name tr n fs : has_type G tr (StructType n fs) -> NoDup (map fst fs) ->
      decl_ok G (TStructDeclaration p name tr) (extend G (Some name) (StructType n fs))
  | D_variable G p name tr init t : Some name ∉ own_names G -> has_type G tr t ->
      (forall e, init = Some e -> has_type G e t) ->
      decl_ok G (TVariableDeclaration p name (Some tr) init) (extend G (Some name) t)
  | D_inferred G p name init t : Some name ∉ own_names G -> has_type G init t -> t <> builtin_type Nil ->
      decl_ok G (TVariableDeclaration p name None (Some init)) (extend G (Some name) t).

Inductive decls_ok : env -> list TDeclaration -> env -> Prop :=
  | DL_nil G : decls_ok G [] G
  | DL_cons G d ds G1 G2 : decl_ok G d G1 -> decls_ok G1 ds G2 -> decls_ok G (d :: ds) G2.

Definition file_ok (f : TFile) : Prop :=
  let '(mkTFile _ decls) := f in exists G, decls_ok (enter empty_env) decls G.

End builtins.

(** * Trees the parser makes and the checker sees through *)

(** The checker gives these nodes no type and reports nothing: what the parser could not read, operators
    that are none, [for-in] loops, declarations with neither type nor value, and calls of [@concat], whose
    check is the wrong way around. *)
Fixpoint supported (e : Expression) : bool :=
  match e with
  | BadExpression _ => false
  | BinaryOpExpression _ op l r => bool_decide (op ∈ AND :: OR :: arithmetic_ops) && supported l && supported r
  | CallExpression k f args =>
      match k, f with
      | Builtin, IdentifierExpression _ name => match IsBuiltinFunction name with Some Concat => false | _ => true end
      | Builtin, _ => true
      | Regular, _ => supported f
      end && forallb supported args
  | ComparisonOpExpression _ op l r => bool_decide (op ∈ comparison_ops) && supported l && supported r
  | FunctionLiteralExpression t b => supported t && supported_stmt b
  | IdentifierExpression _ _ | LiteralExpression _ _ => true
  | IndexExpression _ o i => supported o && supported i
  | MemberExpression _ o _ => supported o
  | UnaryOpExpression _ _ e => supported e
  | ArrayTypeRepr _ _ t => from_option supported true t
  | FunctionTypeRepr _ ps r => forallb supported_field ps && from_option supported true r
  | MapTypeRepr _ k v => from_option supported true k && from_option supported true v
  | PointerTypeRepr _ b => from_option supported true b
  | StructTypeRepr _ fs => forallb supported_field fs
  end
with supported_field (f : FieldDeclaration) : bool :=
  match f with mkFieldDeclaration _ _ t => from_option supported true t end
with supported_stmt (s : Statement) : bool :=
  match s with
  | AssignmentStatement _ d e => supported d && supported e
  | BlockStatement _ _ l => forallb supported_stmt l
  | DeclarationStatement d => supported_decl d
  | ExpressionStatement e => supported e
  | ForStatement _ i c n b =>
      from_option supported_stmt true i && from_option supported true c && from_option supported_stmt true n && supported_stmt b
  | ForInStatement _ _ _ _ => false
  | IfStatement _ c t e => supported c && supported_stmt t && from_option supported_stmt true e
  | ReturnStatement _ r => from_option supported true r
  end
with supported_decl (d : Declaration) : bool :=
  match d with
  | FunctionDeclaration _ _ f => supported f
  | StructDeclaration _ _ t => supported t
  | VariableDeclaration _ _ t i =>
      match t, i with None, None => false | _, _ => from_option supported true t && from_option supported true i end
  end.
Definition supported_file (f : File) : bool := let '(mkFile _ ds) := f in forallb supported_decl ds.

(** * Elaboration

    A tree the checker makes of a source tree: the same nodes, with types, with casts around
    expressions, with pointer types for the dereferences that are first arguments of [@ptrCast], and with
    a return at the end of functions. *)
Inductive elab : Expression -> TExpression -> Prop :=
  | E_cast e e' p k t : elab e e' -> elab e (TImplicitCastExpression p k e' t)
  | E_bad p : elab (BadExpression p) (TBadExpression p)
  | E_binary p op l r l' r' t : elab l l' -> elab r r' ->
      elab (BinaryOpExpression p op l r) (TBinaryOpExpression p op l' r' t)
  | E_call k f args f' args' t : elab f f' -> Forall2 elab args args' ->
      elab (CallExpression k f args) (TCallExpression k f' args' t)
  | E_ptr_cast p name q base x base' x' u t : IsBuiltinFunction name = Some PtrCast -> elab base base' -> elab x x' ->
      elab (CallExpression Builtin (IdentifierExpression p name) [UnaryOpExpression q STAR base; x])
        (TCallExpression Builtin (TIdentifierExpression p name None) [TPointerTypeRepr q (Some base') u; x'] t)
  | E_comparison p op l r l' r' t : elab l l' -> elab r r' ->
      elab (ComparisonOpExpression p op l r) (TComparisonOpExpression p op l' r' t)
  | E_function tr b tr' b' t : elab tr tr' -> elab_body b b' ->
      elab (FunctionLiteralExpression tr b) (TFunctionLiteralExpression tr' b' t)
  | E_identifier p n t : elab (IdentifierExpression p n) (TIdentifierExpression p n t)
  | E_index p o i o' i' t : elab o o' -> elab i i' -> elab (IndexExpression p o i) (TIndexExpression p o' i' t)
  | E_literal p v t : elab (LiteralExpression p v) (TLiteralExpression p v t)
  | E_member p o m o' m' t : elab o o' -> elab m m' -> elab (MemberExpression p o m) (TMemberExpression p o' m' t)
  | E_unary p op e e' t : elab e e' -> elab (UnaryOpExpression p op e) (TUnaryOpExpression p op e' t)
  | E_array_type p l e l' e' t : option_Forall2 elab l l' -> option_Forall2 elab e e' ->
      elab (ArrayTypeRepr p l e) (TArrayTypeRepr p l' e' t)
  | E_function_type p ps r ps' r' t : Forall2 elab_field ps ps' -> option_Forall2 elab r r' ->
      elab (FunctionTypeRepr p ps r) (TFunctionTypeRepr p ps' r' t)
  | E_map_type p k v k' v' t : option_Forall2 elab k k' -> option_Forall2 elab v v' ->
      elab (MapTypeRepr p k v) (TMapTypeRepr p k' v' t)
  | E_pointer_type p b b' t : option_Forall2 elab b b' -> elab (PointerTypeRepr p b) (TPointerTypeRepr p b' t)
  | E_struct_type p fs fs' t : Forall2 elab_field fs fs' -> elab (StructTypeRepr p fs) (TStructTypeRepr p fs' t)
with elab_field : FieldDeclaration -> TFieldDeclaration -> Prop :=
  | E_field p n t t' : option_Forall2 elab t t' -> elab_field (mkFieldDeclaration p n t) (mkTFieldDeclaration p n t')
with elab_stmt : Statement -> TStatement -> Prop :=
  | E_assignment p d e d' e' : elab d d' -> elab e e' -> elab_stmt (AssignmentStatement p d e) (TAssignmentStatement p d' e')
  | E_block p rp l l' : Forall2 elab_stmt l l' -> elab_stmt (BlockStatement p rp l) (TBlockStatement p rp l')
  | E_declaration d d' : elab_decl d d' -> elab_stmt (DeclarationStatement d) (TDeclarationStatement d')
  | E_expression e e' : elab e e' -> elab_stmt (ExpressionStatement e) (TExpressionStatement e')
  | E_for p i c n b i' c' n' b' : option_Forall2 elab_stmt i i' -> option_Forall2 elab c c' -> option_Forall2 elab_stmt n n' ->
      elab_stmt b b' -> elab_stmt (ForStatement p i c n b) (TForStatement p i' c' n' b')
  | E_for_in p t i b t' i' b' : elab t t' -> elab i i' -> elab_stmt b b' ->
      elab_stmt (ForInStatement p t i b) (TForInStatement p t' i' b')
  | E_if p c t e c' t' e' : elab c c' -> elab_stmt t t' -> option_Forall2 elab_stmt e e' ->
      elab_stmt (IfStatement p c t e) (TIfStatement p c' t' e')
  | E_return p r r' : option_Forall2 elab r r' -> elab_stmt (ReturnStatement p r) (TReturnStatement p r')
with elab_body : Statement -> TStatement -> Prop :=
  | E_body b b' : elab_stmt b b' -> elab_body b b'
  | E_body_return p rp l l' q : Forall2 elab_stmt l l' ->
      elab_body (BlockStatement p rp l) (TBlockStatement p rp (l' ++ [TReturnStatement q None]))
with elab_decl : Declaration -> TDeclaration -> Prop :=
  | E_function_decl p n f f' : elab f f' -> elab_decl (FunctionDeclaration p n f) (TFunctionDeclaration p n f')
  | E_struct_decl p n t t' : elab t t' -> elab_decl (StructDeclaration p n t) (TStructDeclaration p n t')
  | E_variable p n t i t' i' : option_Forall2 elab t t' -> option_Forall2 elab i i' ->
      elab_decl (VariableDeclaration p n t i) (TVariableDeclaration p n t' i').

Definition elab_file (f : File) (f' : TFile) : Prop :=
  let '(mkFile p ds) := f in let '(mkTFile p' ds') := f' in p' = p /\ Forall2 elab_decl ds ds'.
