(* ===== verification/SemaFacts.v ===== *)
(** Facts about the checker's monad: what every computation keeps, and the triples the theorems about
    the visitors use. *)
From S2P Require Import Prelude Token Ast TreeInduction Types TypedAst Builtins ErrorReporter SemaChecking SemaBuiltin Sema.

(** * Frames *)

(** Errors are only added, and names of structs. *)
Definition evolves (s s' : Sema) : Prop :=
  (exists es, error_reporter_ s' = error_reporter_ s ++ es) /\
  named_struct_types (context_ s) ⊆ named_struct_types (context_ s').

(** The scopes around the innermost one stay, and a name in sight keeps its type. *)
Definition grows (sc sc' : list Scope) : Prop :=
  tail sc' = tail sc /\ map scope_kind_ sc' = map scope_kind_ sc /\
  forall name t, Lookup sc name = Some t -> Lookup sc' name = Some t.

Definition moves (s s' : Sema) : Prop :=
  evolves s s' /\ grows (scope_ s) (scope_ s') /\ curr_func_ s' = curr_func_ s /\ curr_decl_context_ s' = curr_decl_context_ s.
Definition stable (s s' : Sema) : Prop :=
  evolves s s' /\ scope_ s' = scope_ s /\ curr_func_ s' = curr_func_ s /\ curr_decl_context_ s' = curr_decl_context_ s.

#[export] Instance evolves_preorder : PreOrder evolves.
Proof.
  split.
  - intros s. split; [exists []; by rewrite app_nil_r|done].
  - intros s1 s2 s3 [[es E] H] [[es' E'] H']. split; [|set_solver].
    exists (es ++ es'). by rewrite E', E, app_assoc.
Qed.
#[export] Instance grows_preorder : PreOrder grows.
Proof.
  split; [done|]. intros a b c (T & K & L) (T' & K' & L').
  split; [congruence|split; [congruence|eauto]].
Qed.
#[export] Instance moves_preorder : PreOrder moves.
Proof.
  split; [intros s; split_and!; done|].
  intros a b c (E & G & F & D) (E' & G' & F' & D').
  split; [by trans b|split; [by trans (scope_ b)|split; congruence]].
Qed.
#[export] Instance stable_preorder : PreOrder stable.
Proof.
  split; [intros s; split_and!; done|].
  intros a b c (E & G & F & D) (E' & G' & F' & D').
  split; [by trans b|split; [congruence|split; congruence]].
Qed.
Lemma stable_moves s s' : stable s s' -> moves s s'.
Proof. intros (E & G & F & D). split; [done|split; [by rewrite G|done]]. Qed.

(** What every run of a computation does to the state. *)
Definition keeps (R : Sema -> Sema -> Prop) {A} (m : M A) : Prop := forall s a s', m s = Some (a, s') -> R s s'.

Section keeps.
Context (R : Sema -> Sema -> Prop) `{!PreOrder R}.
Lemma keeps_ret {A} (a : A) : keeps R (mret a).
Proof. intros s b s' [= <- <-]. reflexivity. Qed.
Lemma keeps_bind {A B} (m : M A) (k : A -> M B) : keeps R m -> (forall a, keeps R (k a)) -> keeps R (m ≫= k).
Proof.
  intros Hm Hk s b s'. unfold mbind, M_bind. destruct (m s) as [[a s1]|] eqn:E; [|done].
  intros Hb. trans s1; [by eapply Hm|by eapply Hk].
Qed.
Lemma keeps_get {A} (f : Sema -> A) : keeps R (get f).
Proof. intros s b s' [= <- <-]. reflexivity. Qed.
Lemma keeps_crash {A} : keeps R (@crash A).
Proof. done. Qed.
Lemma keeps_deref {A} (o : option A) : keeps R (deref o).
Proof. destruct o; [apply keeps_ret|apply keeps_crash]. Qed.
End keeps.

Lemma keeps_moves {A} (m : M A) : keeps stable m -> keeps moves m.
Proof. intros Hm s a s' H. by eapply stable_moves, Hm. Qed.

Lemma report_stable pos id args : keeps stable (report pos id args).
Proof.
  intros s a s' [= <- <-]. split; [split; [cbn; unfold Report; eauto|cbn; done]|done].
Qed.
Lemma Declare_grows sc name t : grows sc (Scope_Declare sc name t).1.
Proof.
  unfold Scope_Declare. destruct (Lookup sc name) eqn:E; [done|]. destruct sc as [|h outer]; [done|].
  split; [done|split; [done|]]. intros x u Hx. cbn in *.
  destruct (decide (x = name)) as [->|Hne]; [|by rewrite lookup_insert_ne].
  destruct (declarations_ h !! name); congruence.
Qed.
Lemma declare_moves name t : keeps moves (declare name t).
Proof. intros s a s' [= <- <-]. split; [by apply (evolves_preorder.(PreOrder_Reflexive) s)|split; [apply Declare_grows|done]]. Qed.

Lemma with_scope_stable {A} kind (m : M A) : keeps moves m -> keeps stable (with_scope kind m).
Proof.
  intros Hm s a s'. unfold with_scope, EnterScope, ExitScope, modify, mbind, M_bind.
  destruct (m _) as [[a1 s1]|] eqn:E; [|done]. intros [= <- <-].
  apply Hm in E as (Ev & (T & _ & _) & F & D). split; [done|]. split; [by cbn in *|done].
Qed.
Lemma with_function_stable {A} type (m : M A) : keeps moves m -> keeps stable (with_function type m).
Proof.
  intros Hm s a s'. unfold with_function, EnterScope, ExitScope, get, modify, mbind, M_bind.
  destruct (m _) as [[a1 s1]|] eqn:E; [|done]. intros [= <- <-].
  apply Hm in E as (Ev & (T & _ & _) & F & D). split; [done|]. split; [by cbn in *|done].
Qed.
Lemma with_declaration_moves {A} d (m : M A) : keeps moves m -> keeps moves (with_declaration d m).
Proof.
  intros Hm s a s'. unfold with_declaration, get, modify, mbind, M_bind.
  destruct (m _) as [[a1 s1]|] eqn:E; [|done]. intros [= <- <-].
  apply Hm in E as (Ev & G & F & D). split; [done|]. split; [by cbn in *|done].
Qed.
Lemma with_declaration_stable {A} d (m : M A) : keeps stable m -> keeps stable (with_declaration d m).
Proof.
  intros Hm s a s'. unfold with_declaration, get, modify, mbind, M_bind.
  destruct (m _) as [[a1 s1]|] eqn:E; [|done]. intros [= <- <-].
  apply Hm in E as (Ev & G & F & D). split; [done|]. split; [by cbn in *|done].
Qed.

Lemma StructType_Get_names name fs ctx t ctx' : StructType_Get name fs ctx = Some (t, ctx') ->
  named_struct_types ctx ⊆ named_struct_types ctx'.
Proof.
  assert (forall n ctx nm ctx', unique_name n name ctx = Some (nm, ctx') -> named_struct_types ctx' = named_struct_types ctx) as Hu.
  { intros n. induction n as [|n IH]; intros c nm c'; [done|]. cbn [unique_name].
    destruct (decide _); [|intros [= <- <-]; done]. intros Hc. by apply IH in Hc. }
  unfold StructType_Get. destruct (decide _).
  - destruct (unique_name _ _ _) as [[nm c']|] eqn:E; [|done]. cbn. intros [= <- <-]. cbn.
    apply Hu in E. set_solver.
  - cbn. intros [= <- <-]. cbn. set_solver.
Qed.

Create HintDb frame.
#[export] Hint Resolve keeps_moves : frame.

(** One step through a computation. *)
Ltac keep_step :=
  match goal with
  | |- keeps ?R (mret _) => apply keeps_ret; apply _
  | |- keeps ?R (get _) => apply keeps_get; apply _
  | |- keeps ?R (deref _) => apply keeps_deref; apply _
  | |- keeps _ crash => apply keeps_crash
  | |- keeps ?R (_ ≫= _) => apply keeps_bind; [apply _| |intros ?]
  | |- keeps stable (report _ _ _) => apply report_stable
  | |- keeps moves (report _ _ _) => apply keeps_moves, report_stable
  | |- keeps moves (declare _ _) => apply declare_moves
  | |- keeps moves (with_scope _ _) => apply keeps_moves
  | |- keeps moves (with_function _ _) => apply keeps_moves
  | |- keeps stable (with_scope _ _) => apply with_scope_stable
  | |- keeps stable (with_function _ _) => apply with_function_stable
  | |- keeps stable (with_declaration _ _) => apply with_declaration_stable
  | |- keeps moves (with_declaration _ _) => apply with_declaration_moves
  | |- keeps _ (match ?x with _ => _ end) => destruct x
  | H : Forall _ (_ :: _) |- _ => apply Forall_cons in H as [? H]
  | |- keeps _ (let _ := _ in _) => cbv zeta
  | H : keeps ?R ?m |- keeps ?R ?m => exact H
  | H : forall x, keeps ?R (?f x) |- keeps ?R (?f _) => apply H
  | |- keeps _ _ => solve [eauto with frame nocore]
  end.
Ltac keep := repeat keep_step.

Lemma ReportIncorrectCallArg_stable func args i e id : keeps stable (ReportIncorrectCallArg func args i e id).
Proof. unfold ReportIncorrectCallArg. keep. Qed.
Lemma CheckArgCount_stable func args n : keeps stable (CheckArgCount func args n).
Proof. unfold CheckArgCount, report_arg_count. keep. Qed.
Lemma CheckArgCountAtLeast_stable func args n : keeps stable (CheckArgCountAtLeast func args n).
Proof. unfold CheckArgCountAtLeast, report_arg_count. keep. Qed.
Lemma CheckAssignmentConstraints_stable t e : keeps stable (CheckAssignmentConstraints t e).
Proof. unfold CheckAssignmentConstraints. keep. Qed.
#[export] Hint Resolve ReportIncorrectCallArg_stable CheckArgCount_stable CheckArgCountAtLeast_stable
  CheckAssignmentConstraints_stable : frame.
#[export] Hint Unfold ReportIncorrectCallArg_type ReportIncorrectCallArg_text : frame.

Lemma CheckLogicalOperands_stable op pos l r : keeps stable (CheckLogicalOperands op pos l r).
Proof. unfold CheckLogicalOperands, sql_bool_to_bool. keep. Qed.
Lemma CheckArithmeticOperands_stable op pos l r : keeps stable (CheckArithmeticOperands op pos l r).
Proof. unfold CheckArithmeticOperands, report_illegal_types. keep. Qed.
Lemma CheckComparisonOperands_stable op pos l r : keeps stable (CheckComparisonOperands op pos l r).
Proof. unfold CheckComparisonOperands, report_illegal_types. keep. Qed.
#[export] Hint Resolve CheckLogicalOperands_stable CheckArithmeticOperands_stable CheckComparisonOperands_stable : frame.

Lemma ArgCheck_stable func args i spec : keeps stable (ArgCheck func args i spec).
Proof. unfold ArgCheck. keep. Qed.
#[export] Hint Resolve ArgCheck_stable : frame.
Lemma ArgChecks_stable func specs : forall args i, keeps stable (ArgChecks func args i specs).
Proof. induction specs as [|spec specs IH]; intros args i; cbn [ArgChecks]; keep. Qed.
#[export] Hint Resolve ArgChecks_stable : frame.
Lemma GenericBuiltinCheck_stable sig func args : keeps stable (GenericBuiltinCheck sig func args).
Proof. unfold GenericBuiltinCheck. keep. Qed.
#[export] Hint Resolve GenericBuiltinCheck_stable : frame.
Lemma check_signature_stable sig func args : keeps stable (check_signature sig func args).
Proof. unfold check_signature. keep. Qed.
#[export] Hint Resolve check_signature_stable : frame.

Section frames.
Context `{CppClasses}.

Lemma CheckBuiltinCall_switch_stable b func args : keeps stable (CheckBuiltinCall_switch b func args).
Proof.
  destruct b; cbn [CheckBuiltinCall_switch];
    first [apply check_signature_stable | apply GenericBuiltinCheck_stable |
           unfold CheckNullValueCall, CheckBuiltinConcat, CheckBuiltinAggregatorCall, report_not_aggregate,
             CheckBuiltinHashCall, CheckBuiltinFilterManagerCall, CheckBuiltinVectorFilterCall, CheckBuiltinSizeOfCall,
             CheckBuiltinBitsCall; keep].
Qed.
#[local] Hint Resolve CheckBuiltinCall_switch_stable : frame.

Lemma UnaryOp_type_stable pos op t : keeps stable (UnaryOp_type pos op t).
Proof. unfold UnaryOp_type. keep. Qed.
Lemma Index_type_stable pos ot it i : keeps stable (Index_type pos ot it i).
Proof. unfold Index_type. keep. Qed.
Lemma Member_type_stable pos t m : keeps stable (Member_type pos t m).
Proof. unfold Member_type. keep. Qed.
Lemma Literal_type_stable v : keeps stable (Literal_type v).
Proof. unfold Literal_type. keep. Qed.
Lemma Identifier_type_stable pos name : keeps stable (Identifier_type pos name).
Proof. unfold Identifier_type. keep. Qed.
Lemma Array_length_stable len : keeps stable (Array_length len).
Proof. unfold Array_length. keep. Qed.
Lemma Struct_type_stable fields : keeps stable (Struct_type fields).
Proof.
  intros s a s'. unfold Struct_type, get, modify, deref, mbind, M_bind, mret, M_ret, crash.
  destruct (curr_decl_context_ s) as [|name|]; [by intros [= <- <-]| |by intros [= <- <-]].
  destruct (StructType_Get _ _ _) as [[t ctx]|] eqn:E; [|done]. intros [= <- <-].
  apply StructType_Get_names in E. split; [split; [exists []; by rewrite app_nil_r|done]|done].
Qed.
Lemma check_terminates_stable pos ret body : keeps stable (check_terminates pos ret body).
Proof. unfold check_terminates. keep. Qed.
#[local] Hint Resolve UnaryOp_type_stable Index_type_stable Member_type_stable Literal_type_stable
  Identifier_type_stable Array_length_stable Struct_type_stable check_terminates_stable : frame.

Lemma check_call_args_stable name ps args : forall n, keeps stable (check_call_args name ps args n).
Proof. revert ps. induction args as [|a args IH]; intros [|p ps] n; cbn [check_call_args]; keep. Qed.
#[local] Hint Resolve check_call_args_stable : frame.

Lemma declare_params_moves params : keeps moves (foldr (fun (p : option Identifier * TplType) rest => declare p.1 p.2;; rest) (mret tt) params).
Proof. induction params as [|p params IH]; cbn [foldr]; keep. Qed.
Lemma check_function_stable m pos t : keeps moves m -> keeps stable (check_function m pos t).
Proof. intros Hm. unfold check_function. pose proof declare_params_moves. keep. Qed.

Lemma CheckBuiltinIntCast_stable func t i m : keeps stable m -> keeps stable (CheckBuiltinIntCast func t i m).
Proof. intros Hm. unfold CheckBuiltinIntCast. keep. Qed.
Lemma CheckBuiltinPtrCast_stable func i m m' : keeps stable m -> keeps stable m' -> keeps stable (CheckBuiltinPtrCast func i m m').
Proof. intros Hm Hm'. unfold CheckBuiltinPtrCast. keep. Qed.
Lemma CheckBuiltinOffsetOf_stable func f m : keeps stable m -> keeps stable (CheckBuiltinOffsetOf func f m).
Proof. intros Hm. unfold CheckBuiltinOffsetOf. keep. Qed.

Lemma visit_all_keeps R `{!PreOrder R} {A B} (v : A -> M B) l : Forall (fun a => keeps R (v a)) l -> keeps R (visit_all v l).
Proof. induction 1; cbn [visit_all]; keep. Qed.
Lemma visit_optional_keeps R `{!PreOrder R} {A B} (v : A -> M B) o :
  on_child (fun a => keeps R (v a)) o -> keeps R (visit_optional v o).
Proof. destruct o; intros; cbn [visit_optional]; keep. Qed.
Lemma visit_child_stable v o : on_child (fun a => keeps stable (v a)) o -> keeps stable (visit_child v o).
Proof. destruct o; intros; cbn [visit_child]; keep. Qed.
Lemma resolve_args_stable v l : Forall (fun a => keeps stable (v a)) l -> keeps stable (resolve_args v l).
Proof. induction 1; cbn [resolve_args]; keep. Qed.
Lemma resolve_fields_stable v l : Forall (fun a => keeps stable (v a)) l -> keeps stable (resolve_fields v l).
Proof. induction 1; cbn [resolve_fields]; keep. Qed.
#[local] Hint Resolve check_function_stable visit_all_keeps visit_optional_keeps visit_child_stable resolve_args_stable
  resolve_fields_stable : frame.

End frames.

#[export] Hint Resolve CheckBuiltinCall_switch_stable UnaryOp_type_stable Index_type_stable Member_type_stable
  Literal_type_stable Identifier_type_stable Array_length_stable Struct_type_stable check_terminates_stable
  check_call_args_stable declare_params_moves check_function_stable visit_all_keeps visit_optional_keeps
  visit_child_stable resolve_args_stable resolve_fields_stable CheckBuiltinIntCast_stable CheckBuiltinPtrCast_stable
  CheckBuiltinOffsetOf_stable : frame.

Ltac keep_visits :=
  keep; repeat (first
    [ apply CheckBuiltinIntCast_stable | apply CheckBuiltinPtrCast_stable | apply CheckBuiltinOffsetOf_stable
    | apply visit_all_keeps; [apply _|assumption]
    | apply visit_optional_keeps; [apply _|assumption]
    | apply keeps_moves; apply CheckBuiltinPtrCast_stable
    | apply keeps_moves; first [assumption | apply check_function_stable | apply visit_optional_keeps; [apply _|assumption]]
    | match goal with H : on_parts _ _ _ |- _ => destruct H end ]; keep).

Section visits.
Context `{CppClasses}.

(** The visitor of expressions leaves everything but errors and struct names; those of statements and
    declarations add to the innermost scope. *)
Lemma visitors_keep :
  (forall e, keeps stable (visit e)) /\ (forall f, keeps stable (visit_field f)) /\
  (forall s, keeps moves (visit_stmt s)) /\ (forall d, keeps moves (visit_decl d)).
Proof.
  apply tree_ind; intros; cbn [visit visit_field visit_stmt visit_decl];
    repeat match goal with
    | H : Forall (fun a => _ /\ _) _ |- _ => apply Forall_and in H as [H ?]
    end; keep_visits.
Qed.

Lemma visit_stable e : keeps stable (visit e).
Proof. apply visitors_keep. Qed.
Lemma visit_field_stable f : keeps stable (visit_field f).
Proof. apply visitors_keep. Qed.
Lemma visit_stmt_moves n : keeps moves (visit_stmt n).
Proof. apply visitors_keep. Qed.
Lemma visit_decl_moves d : keeps moves (visit_decl d).
Proof. apply visitors_keep. Qed.
Lemma resolve_args_visit_stable l : keeps stable (resolve_args visit l).
Proof. apply resolve_args_stable, Forall_true, visit_stable. Qed.
Lemma resolve_fields_visit_stable l : keeps stable (resolve_fields visit_field l).
Proof. apply resolve_fields_stable, Forall_true, visit_field_stable. Qed.
Lemma visit_child_visit_stable o : keeps stable (visit_child visit o).
Proof. apply visit_child_stable. destruct o; [apply visit_stable|done]. Qed.
Lemma visit_optional_visit_stable o : keeps stable (visit_optional visit o).
Proof. apply visit_optional_keeps; [apply _|]. destruct o; [apply visit_stable|done]. Qed.
Lemma visit_optional_stmt_moves o : keeps moves (visit_optional visit_stmt o).
Proof. apply visit_optional_keeps; [apply _|]. destruct o; [apply visit_stmt_moves|done]. Qed.
Lemma visit_all_stmt_moves l : keeps moves (visit_all visit_stmt l).
Proof. apply visit_all_keeps; [apply _|]. apply Forall_true, visit_stmt_moves. Qed.
Lemma visit_all_decl_moves l : keeps moves (visit_all visit_decl l).
Proof. apply visit_all_keeps; [apply _|]. apply Forall_true, visit_decl_moves. Qed.

End visits.

#[export] Hint Resolve visit_stable visit_field_stable visit_stmt_moves visit_decl_moves
  resolve_args_visit_stable resolve_fields_visit_stable visit_child_visit_stable visit_optional_visit_stable
  visit_optional_stmt_moves visit_all_stmt_moves visit_all_decl_moves : frame.
