(* ===== verification/SemaSound.v ===== *)
(** Soundness of semantic analysis: what the checker accepts is well typed. *)
From S2P Require Import Prelude Token Ast TreeInduction Types TypedAst Builtins ErrorReporter SemaChecking SemaBuiltin Sema SemaSpec SemaFacts.

(** * Environments and scopes *)

Definition visible_of (sc : list Scope) : gmap (option Identifier) TplType :=
  foldr (fun s m => declarations_ s ∪ m) ∅ sc.
Definition env_of (sc : list Scope) : env :=
  mkEnv (visible_of sc) (match sc with [] => ∅ | s :: _ => dom (declarations_ s) end).

Lemma Lookup_env sc name : Lookup sc name = visible (env_of sc) !! name.
Proof.
  induction sc as [|s sc IH]; [done|]. cbn [Lookup env_of visible visible_of foldr] in *.
  change (foldr _ ∅ sc) with (visible_of sc) in *. rewrite lookup_union, IH.
  by destruct (declarations_ s !! name), (visible_of sc !! name).
Qed.
Lemma LookupLocal_env sc name : LookupLocal sc name = None <-> name ∉ own_names (env_of sc).
Proof. destruct sc as [|s sc]; cbn; [set_solver|]. symmetry. apply not_elem_of_dom. Qed.
Lemma env_Declare sc name t : sc <> [] -> env_of (Scope_Declare sc name t).1 = extend (env_of sc) name t.
Proof.
  intros Hsc. unfold Scope_Declare, extend. rewrite <- Lookup_env. destruct (Lookup sc name); [done|].
  destruct sc as [|s sc]; [done|]. unfold env_of. cbn. by rewrite insert_union_l, dom_insert_L.
Qed.
Lemma env_enter kind sc : env_of (mkScope kind ∅ :: sc) = enter (env_of sc).
Proof. unfold env_of, enter. cbn. by rewrite (left_id_L ∅ (∪)), dom_empty_L. Qed.

(** * Runs without errors *)

Definition clean (s : Sema) : Prop := error_reporter_ s = [].

Lemma evolves_clean s s' : evolves s s' -> clean s' -> clean s.
Proof. intros [[es E] _] C. unfold clean in *. rewrite C in E. by apply eq_sym, app_nil in E as [-> _]. Qed.
Lemma clean_before {A} (m : M A) s a s' : keeps moves m -> m s = Some (a, s') -> clean s' -> clean s.
Proof. intros Hm Hr. apply Hm in Hr as [Hr _]. by apply evolves_clean. Qed.
Lemma bind_inv {A B} (m : M A) (k : A -> M B) s b s' : (m ≫= k) s = Some (b, s') ->
  exists a s1, m s = Some (a, s1) /\ k a s1 = Some (b, s').
Proof. unfold mbind, M_bind. destruct (m s) as [[a s1]|]; [|done]. eauto. Qed.
Lemma report_dirty pos id args {B} (k : unit -> M B) s b s' :
  (forall u, keeps moves (k u)) -> (report pos id args ≫= k) s = Some (b, s') -> clean s' -> False.
Proof.
  intros Hk Hr C. apply bind_inv in Hr as ([] & s1 & E & Hr). pose proof (clean_before _ _ _ _ (Hk tt) Hr C) as C1.
  injection E as <-. unfold clean, Report in C1. cbn in C1. by destruct (error_reporter_ s).
Qed.

(** A computation without visits, evaluated. *)
Ltac munfold H :=
  unfold report_illegal_types, report, mbind, M_bind, deref, mret, M_ret, crash, get, modify in H; cbv beta iota in H.
Ltac dirty :=
  match goal with
  | C : clean (set_errors _ _) |- _ => exfalso; unfold clean, Report in C; cbn in C; by apply app_nil in C as [_ ?]
  end.
Ltac munfold_any := try match goal with H : _ _ = Some _ |- _ => progress munfold H end.
Ltac crunch H :=
  munfold H; simplify_eq; try dirty; repeat (case_match; simplify_eq; munfold_any; simplify_eq); try dirty.

Section soundness.
Context `{CppClasses}.

Lemma has_type_GetType G e t : has_type G e t -> GetType e = Some t.
Proof. by destruct 1. Qed.

(** ** Checks *)

Lemma implicit_conversion_same t u e ok e' : implicit_conversion t u e = (ok, e') -> ok = false -> e' = e.
Proof. unfold implicit_conversion. intros Hc ->. by repeat (case_match; simplify_eq). Qed.
Lemma implicit_conversion_sound G t u e e' : has_type G e u -> implicit_conversion t u e = (true, e') -> has_type G e' t.
Proof.
  intros Ht. unfold implicit_conversion.
  assert (forall e', (if IsBoolType t && IsSpecificBuiltin u BooleanVal
    then (true, ImplCastExprToType e t SqlBoolToBool) else (false, e)) = (true, e') -> has_type G e' t) as Hbool.
  { intros e1. destruct (_ && _) eqn:E; [|done]. intros [= <-]. apply andb_true_iff in E as [E1 E2].
    destruct t as [k| | | | | |]; try done. destruct u as [k'| | | | | |]; try done. cbn in E1, E2.
    apply bool_decide_eq_true in E1 as ->. apply bool_decide_eq_true in E2 as ->. by constructor. }
  destruct t as [| | |n t| | |]; try apply Hbool. destruct u as [| |u| | | |]; try apply Hbool.
  destruct u as [| | |m u| | |]; try apply Hbool. cbn [GetPointeeType].
  destruct (HasUnknownLength n && _ && _) eqn:E; [|apply Hbool]. intros [= <-].
  rewrite !andb_true_iff, negb_true_iff, bool_decide_eq_true in E. destruct E as [[En Em] ->].
  unfold HasUnknownLength in *. bprop. subst n. by apply (T_array_decay _ _ _ m).
Qed.

Lemma Check_cases t e s ok e' s' : CheckAssignmentConstraints t e s = Some ((ok, e'), s') ->
  s' = s /\ exists u, GetType e = Some u /\
  ((u = t /\ ok = true /\ e' = e) \/ implicit_conversion t u e = (ok, e') \/
   exists pos v o, e = TLiteralExpression pos v o /\ IsRepresentable v t = Some ok /\
     e' = if ok then TLiteralExpression pos v (Some t) else e).
Proof.
  unfold CheckAssignmentConstraints. intros Hr. munfold Hr. destruct (GetType e) as [u|]; [|done].
  destruct (decide (u = t)) as [->|Hne].
  { simplify_eq. eauto 10. }
  destruct e; cbv beta iota in Hr; try (simplify_eq; by eauto 10).
  destruct (IsRepresentable _ _) as [r|] eqn:E; [|done]. simplify_eq. split; [done|].
  exists u. split; [done|]. right; right. exists pos, value, type. destruct r; simplify_eq; eauto.
Qed.
Lemma Check_same t e s ok e' s' : CheckAssignmentConstraints t e s = Some ((ok, e'), s') ->
  s' = s /\ (ok = false -> e' = e).
Proof.
  intros (-> & u & _ & [(_ & -> & ->)|[Hc|(pos & v & o & -> & _ & ->)]])%Check_cases; split; try done.
  - exact (implicit_conversion_same _ _ _ _ _ Hc).
  - intros Hok. by rewrite Hok.
Qed.
Lemma Check_sound G u t e s e' s' : has_type G e u -> CheckAssignmentConstraints t e s = Some ((true, e'), s') ->
  has_type G e' t.
Proof.
  intros Ht (_ & u' & Hu & [(-> & _ & ->)|[Hc|(pos & v & o & -> & Hr & ->)]])%Check_cases;
    rewrite (has_type_GetType _ _ _ Ht) in Hu; injection Hu as ->; [done|by eapply implicit_conversion_sound|].
  constructor. by right.
Qed.

Lemma sql_bool_to_bool_sound G e t s e' s' : has_type G e t -> sql_bool_to_bool e s = Some (e', s') ->
  s' = s /\ exists t', has_type G e' t'.
Proof.
  intros Ht Hr. unfold sql_bool_to_bool in Hr. munfold Hr. rewrite (has_type_GetType _ _ _ Ht) in Hr. injection Hr as <- <-.
  split; [done|]. destruct (IsSpecificBuiltin t BooleanVal) eqn:E; [|eauto].
  destruct t; try done. apply bool_decide_eq_true in E as ->. eexists. by constructor.
Qed.

Lemma IsSpecificBuiltin_true t k : IsSpecificBuiltin t k = true <-> t = BuiltinType k.
Proof. destruct t; cbn; rewrite ?bool_decide_eq_true; split; congruence. Qed.

(** What the result of a check of operands is good for. *)
Definition operands_ok (G : env) (node : TExpression -> TExpression -> option TplType -> TExpression) (r : CheckResult) : Prop :=
  exists t, result_type r = Some t /\ has_type G (node (result_left r) (result_right r) (Some t)) t.

Lemma CheckLogicalOperands_sound G op pos l r tl tr s res s' : op = AND \/ op = OR ->
  has_type G l tl -> has_type G r tr -> CheckLogicalOperands op pos l r s = Some (res, s') -> clean s' ->
  operands_ok G (TBinaryOpExpression pos op) res.
Proof.
  intros Hop Hl Hr Hc C. unfold CheckLogicalOperands in Hc.
  apply bind_inv in Hc as (l' & s1 & El & Hc). apply (sql_bool_to_bool_sound G _ _ _ _ _ Hl) in El as [-> [tl' Hl']].
  apply bind_inv in Hc as (r' & s1 & Er & Hc). apply (sql_bool_to_bool_sound G _ _ _ _ _ Hr) in Er as [-> [tr' Hr']].
  rewrite (has_type_GetType _ _ _ Hl'), (has_type_GetType _ _ _ Hr') in Hc.
  munfold Hc. destruct (_ && _) eqn:E; [|crunch Hc]. apply andb_true_iff in E as [E1 E2].
  apply IsSpecificBuiltin_true in E1 as ->. apply IsSpecificBuiltin_true in E2 as ->. simplify_eq.
  exists (builtin_type Bool). split; [done|]. by constructor.
Qed.

Lemma CheckArithmeticOperands_sound G op pos l r tl tr s res s' : op ∈ arithmetic_ops ->
  has_type G l tl -> has_type G r tr -> CheckArithmeticOperands op pos l r s = Some (res, s') -> clean s' ->
  operands_ok G (TBinaryOpExpression pos op) res.
Proof.
  intros Hop Hl Hr Hc C. unfold CheckArithmeticOperands in Hc.
  rewrite (has_type_GetType _ _ _ Hl), (has_type_GetType _ _ _ Hr) in Hc.
  munfold Hc. destruct (_ || _) eqn:Ha; [crunch Hc|]. apply orb_false_iff in Ha as [Ha1 Ha2].
  apply negb_false_iff, Is_true_true in Ha1, Ha2.
  destruct (decide (tl = tr)) as [->|Hne].
  { simplify_eq. exists tr. split; [done|]. by constructor; auto. }
  destruct (CheckAssignmentConstraints tl r s) as [[[ok r'] s1]|] eqn:Er; [|done]. destruct ok.
  { simplify_eq. exists tl. split; [done|]. apply T_arithmetic; [done..|]. by eapply (Check_sound G tr). }
  apply Check_same in Er as [-> Er]. specialize (Er eq_refl) as ->.
  destruct (CheckAssignmentConstraints tr l s) as [[[ok l'] s1]|] eqn:El; [|done]. destruct ok.
  { simplify_eq. exists tr. split; [done|]. apply T_arithmetic; [done|done| |done]. by eapply (Check_sound G tl). }
  crunch Hc.
Qed.

Lemma CheckComparisonOperands_sound G op pos l r tl tr s res s' : op ∈ comparison_ops ->
  has_type G l tl -> has_type G r tr -> CheckComparisonOperands op pos l r s = Some (res, s') -> clean s' ->
  operands_ok G (TComparisonOpExpression pos op) res.
Proof.
  intros Hop Hl Hr Hc C. unfold CheckComparisonOperands in Hc.
  rewrite (has_type_GetType _ _ _ Hl), (has_type_GetType _ _ _ Hr) in Hc. munfold Hc.
  assert (forall l r t s1, has_type G l t -> has_type G r t ->
    (type ← deref (GetType l);
     if IsPointerType type && negb (IsEqualityOp op) then report_illegal_types pos op l r
     else mret (mkResult (Some (builtin_type (if IsSqlValueType type then BooleanVal else Bool))) l r)) s1 = Some (res, s') ->
    operands_ok G (TComparisonOpExpression pos op) res) as Hend.
  { clear -C Hop. intros l r t s1 Hl Hr Hc. rewrite (has_type_GetType _ _ _ Hl) in Hc. munfold Hc.
    destruct (_ && _) eqn:E; [crunch Hc|]. simplify_eq. eexists. split; [done|].
    eapply T_comparison; try done. intros Hp. rewrite andb_false_iff, negb_false_iff in E. destruct E as [E|E]; [|by rewrite E].
    by rewrite E in Hp. }
  destruct (CheckAssignmentConstraints tr l s) as [[[ok l'] s1]|] eqn:El; [|done]. destruct ok.
  { eapply (Hend l' r tr s1); [by eapply (Check_sound G tl)|done|exact Hc]. }
  apply Check_same in El as [-> El]. specialize (El eq_refl) as ->.
  destruct (CheckAssignmentConstraints tl r s) as [[[ok r'] s1]|] eqn:Er; [|done]. destruct ok.
  { eapply (Hend l r' tl s1); [done|by eapply (Check_sound G tr)|exact Hc]. }
  crunch Hc.
Qed.
(** ** Calls of builtins *)

(** Arguments with their types. *)
Definition typed_args (G : env) (z : list (TExpression * TplType)) : Prop := Forall (fun a => has_type G a.1 a.2) z.

Lemma ArgCheck_fails func args i spec s args' s' : ArgCheck func args i spec s = Some ((false, args'), s') -> ~ clean s'.
Proof.
  unfold ArgCheck, ReportIncorrectCallArg_type, ReportIncorrectCallArg_text, ReportIncorrectCallArg. intros Hr C.
  munfold Hr. destruct (args !! i) as [arg|]; [|done]. destruct (GetType arg) as [t|]; [|done].
  destruct spec; cbv beta iota in Hr; try (crunch Hr; fail).
Qed.

Lemma typed_args_lookup G z i a : typed_args G z -> z.*1 !! i = Some a -> exists t, z !! i = Some (a, t) /\ has_type G a t.
Proof.
  intros Hz. rewrite list_lookup_fmap. destruct (z !! i) as [[a' t]|] eqn:E; [|done]. intros [= ->].
  exists t. split; [done|]. unfold typed_args in Hz. rewrite Forall_lookup in Hz. exact (Hz _ _ E).
Qed.

Lemma ArgCheck_sound G z func i spec s args' s' : typed_args G z ->
  ArgCheck func z.*1 i spec s = Some ((true, args'), s') ->
  exists z', args' = z'.*1 /\ typed_args G z' /\ length z' = length z /\ (forall j, j <> i -> z' !! j = z !! j) /\
    exists a, z' !! i = Some a /\ meets a spec.
Proof.
  intros Hz Hr. unfold ArgCheck, ReportIncorrectCallArg_type, ReportIncorrectCallArg_text, ReportIncorrectCallArg in Hr.
  munfold Hr. destruct (z.*1 !! i) as [arg|] eqn:E; [|done]. destruct (typed_args_lookup _ _ _ _ Hz E) as (t & Ez & Ht).
  rewrite (has_type_GetType _ _ _ Ht) in Hr. destruct spec as [u| | | |ret params].
  - destruct (CheckAssignmentConstraints u arg s) as [[[ok arg'] s1]|] eqn:Ec; [|done]. destruct ok; [|crunch Hr].
    simplify_eq. exists (<[i := (arg', u)]> z). rewrite list_fmap_insert. split; [done|].
    split; [apply Forall_insert; [done|by eapply (Check_sound G t)]|]. split; [apply length_insert|].
    split; [intros j Hj; by apply list_lookup_insert_ne|]. exists (arg', u).
    split; [|done]. apply list_lookup_insert_eq. by eapply lookup_lt_Some.
  - crunch Hr. exists z. split_and!; try done. exists (arg, t). split; [done|]. cbn. by apply Is_true_true.
  - crunch Hr. exists z. split_and!; try done. exists (arg, t). split; [done|]. cbn. by apply Is_true_true.
  - crunch Hr. exists z. split_and!; try done. exists (arg, t). split; [done|]. cbn. by apply Is_true_true.
  - destruct t as [| | | | | |ps r]; try (crunch Hr; fail). destruct (bool_decide (r = ret)) eqn:Er; [|crunch Hr].
    cbv beta iota delta [negb] in Hr.
    destruct (Nat.eqb (length ps) (length params)) eqn:El; [|crunch Hr].
    destruct (forallb _ _) eqn:Ef; [|crunch Hr]. simplify_eq. exists z. split_and!; try done.
    exists (arg, FunctionType ps r). split; [done|]. apply bool_decide_eq_true in Er as ->. exists ps. split; [done|].
    apply Nat.eqb_eq in El. clear -Ef El. revert ps El Ef. induction params as [|p params IH]; intros [|q ps] El; try done.
    cbn. rewrite andb_true_iff. intros [Hp Hps]. constructor; [by apply Is_true_true|]. apply IH; [by injection El|done].
Qed.

Lemma ArgChecks_sound G func specs : forall z i s args' s', typed_args G z -> (i + length specs <= length z)%nat ->
  ArgChecks func z.*1 i specs s = Some ((true, args'), s') ->
  exists z', args' = z'.*1 /\ typed_args G z' /\ length z' = length z /\ (forall j, (j < i)%nat -> z' !! j = z !! j) /\
    forall j spec, specs !! j = Some spec -> exists a, z' !! (i + j)%nat = Some a /\ meets a spec.
Proof.
  induction specs as [|spec specs IH]; intros z i s args' s' Hz Hlen Hr.
  { injection Hr as <- <-. exists z. split_and!; try done. }
  cbn [ArgChecks] in Hr. apply bind_inv in Hr as ([ok args1] & s1 & Ec & Hr). destruct ok; [|done].
  apply (ArgCheck_sound _ _ _ _ _ _ _ _ Hz) in Ec as (z1 & -> & Hz1 & Hl1 & Hsame & a & Ha & Hm).
  apply IH in Hr as (z' & -> & Hz' & Hl' & Hsame' & Hm'); [|done|cbn in Hlen; lia].
  exists z'. split_and!; [done|done|lia| |].
  - intros j Hj. rewrite Hsame' by lia. apply Hsame. lia.
  - intros [|j] sp Hsp.
    + injection Hsp as <-. exists a. rewrite Nat.add_0_r, Hsame' by lia. done.
    + rewrite <- Nat.add_succ_comm. by apply Hm'.
Qed.

Lemma ArgChecks_fails func specs : forall args i s args' s',
  ArgChecks func args i specs s = Some ((false, args'), s') -> ~ clean s'.
Proof.
  induction specs as [|spec specs IH]; intros args i s args' s' Hr; [done|].
  cbn [ArgChecks] in Hr. apply bind_inv in Hr as ([ok args1] & s1 & Ec & Hr). destruct ok; [by eapply IH|].
  injection Hr as <- <-. by eapply ArgCheck_fails.
Qed.

Lemma CheckArgCount_sound func args n s ok s' : CheckArgCount func args n s = Some (ok, s') -> clean s' ->
  ok = true /\ length args = n /\ s' = s.
Proof.
  unfold CheckArgCount, report_arg_count. intros Hr C. destruct (Nat.eqb _ n) eqn:E; [|crunch Hr].
  apply Nat.eqb_eq in E. munfold Hr. by simplify_eq.
Qed.
Lemma CheckArgCountAtLeast_sound func args n s ok s' : CheckArgCountAtLeast func args n s = Some (ok, s') -> clean s' ->
  ok = true /\ (n <= length args)%nat /\ s' = s.
Proof.
  unfold CheckArgCountAtLeast, report_arg_count. intros Hr C. destruct (Nat.ltb _ n) eqn:E; [crunch Hr|].
  apply Nat.ltb_ge in E. munfold Hr. by simplify_eq.
Qed.

(** A check of a call that has found no error. *)
Definition call_ok (G : env) (b : BuiltinFunction) (r : checked) : Prop :=
  exists t z, r = (z.*1, Some t) /\ typed_args G z /\ builtin_accepts b z t.

Lemma GenericBuiltinCheck_sound G b sig func z s r s' : typed_args G z -> builtin_signature b (length z) = Some sig ->
  GenericBuiltinCheck sig func z.*1 s = Some (r, s') -> clean s' -> call_ok G b r.
Proof.
  intros Hz Hsig Hr C. destruct sig as [ret specs]. unfold GenericBuiltinCheck in Hr. cbn [fst snd] in Hr.
  apply bind_inv in Hr as (ok & s1 & Ec & Hr).
  assert (clean s1) as C1 by (refine (clean_before _ _ _ _ _ Hr C); keep).
  apply CheckArgCount_sound in Ec as (-> & Hlen & ->); [|done]. rewrite length_fmap in Hlen. cbv beta iota delta [negb] in Hr.
  apply bind_inv in Hr as ([ok args'] & s2 & Ec & Hr). munfold Hr. injection Hr as <- <-. destruct ok.
  2: { by apply ArgChecks_fails in Ec. }
  apply (ArgChecks_sound G) in Ec as (z' & -> & Hz' & Hl' & _ & Hm); [|done|lia].
  exists ret, z'. split; [done|]. split; [done|]. eapply accepts_signature; [by rewrite Hl'|].
  apply Forall2_same_length_lookup_2; [lia|]. intros j a spec Ha Hs. destruct (Hm _ _ Hs) as (a' & Ha' & Hmeets).
  cbn in Ha'. congruence.
Qed.
(** The checks of a builtin's own.  After the count of the arguments is checked, each argument's type is
    the one it has. *)
Lemma CheckArgCount_bind {B} func (z : list (TExpression * TplType)) n (k : bool -> M B) s r s' :
  (forall ok, keeps moves (k ok)) -> (CheckArgCount func z.*1 n ≫= k) s = Some (r, s') -> clean s' ->
  length z = n /\ k true s = Some (r, s').
Proof.
  intros Hk Hr C. apply bind_inv in Hr as (ok & s1 & Hn & Hr). pose proof (clean_before _ _ _ _ (Hk ok) Hr C) as C1.
  apply CheckArgCount_sound in Hn as (-> & Hn & ->); [|done]. by rewrite length_fmap in Hn.
Qed.
Lemma CheckArgCountAtLeast_bind {B} func (z : list (TExpression * TplType)) n (k : bool -> M B) s r s' :
  (forall ok, keeps moves (k ok)) -> (CheckArgCountAtLeast func z.*1 n ≫= k) s = Some (r, s') -> clean s' ->
  (n <= length z)%nat /\ k true s = Some (r, s').
Proof.
  intros Hk Hr C. apply bind_inv in Hr as (ok & s1 & Hn & Hr). pose proof (clean_before _ _ _ _ (Hk ok) Hr C) as C1.
  apply CheckArgCountAtLeast_sound in Hn as (-> & Hn & ->); [|done]. by rewrite length_fmap in Hn.
Qed.
Ltac count_args Hr C z Hz :=
  first [apply CheckArgCount_bind in Hr | apply CheckArgCountAtLeast_bind in Hr];
  [ let Hn := fresh in destruct Hr as [Hn Hr]; cbv beta iota delta [negb] in Hr;
    repeat (destruct z as [|[? ?] z]; [try (cbn in Hn; lia)|]; try (cbn in Hn; lia));
    unfold typed_args in Hz; rewrite ?Forall_cons in Hz; cbn [fst snd] in Hz; destruct_and? Hz
  | intros ?; unfold report_not_aggregate, ReportIncorrectCallArg_type, ReportIncorrectCallArg_text; keep
  | exact C ].

Ltac have_types Hr :=
  repeat match goal with
  | Ht : has_type _ ?e ?t |- _ =>
      match type of Hr with context [GetType e] => rewrite (has_type_GetType _ _ _ Ht) in Hr end
  end.

Lemma first_bad_None G good z : typed_args G z -> first_bad good z.*1 = None -> Forall (fun a => good a.2) z.
Proof.
  induction 1 as [|[a t] z Ha Hz IH]; [constructor|]. unfold first_bad. cbn [fmap list_fmap List.find fst] in *.
  cbn [fst snd] in Ha. rewrite (has_type_GetType _ _ _ Ha). destruct (good t) eqn:E; cbn [negb]; intros Hb; [|done]. constructor; [by apply Is_true_true|].
  by apply IH.
Qed.

(** Evaluate the rest of a check on arguments whose types are known. *)
Ltac get_types Hr :=
  unfold report_not_aggregate, ReportIncorrectCallArg_type, ReportIncorrectCallArg_text, ReportIncorrectCallArg in Hr;
  cbn [fmap list_fmap fst lookup list_lookup] in Hr; munfold Hr; have_types Hr; cbv beta iota delta [negb] in Hr.
Ltac check_types Hr := get_types Hr; crunch Hr.

Lemma pointer_to_specific t k : IsPointerToSpecificBuiltin t k = true -> t = PointerType (builtin_type k).
Proof. destruct t; try done. cbn. by intros ->%IsSpecificBuiltin_true. Qed.

Lemma call_ok_same G b t z : typed_args G z -> builtin_accepts b z t -> call_ok G b (z.*1, Some t).
Proof. intros Hz Hb. by exists t, z. Qed.

Lemma CheckNullValueCall_sound G b func z s r s' : b = IsValNull \/ b = InitSqlNull -> typed_args G z ->
  CheckNullValueCall func z.*1 b s = Some (r, s') -> clean s' -> call_ok G b r.
Proof.
  intros Hb Hz Hr C. pose proof Hz as Hz'. unfold CheckNullValueCall in Hr. count_args Hr C z Hz.
  destruct Hb as [-> | ->]; check_types Hr; refine (call_ok_same _ _ _ _ Hz' _).
  - constructor. by apply Is_true_true.
  - destruct t0; try done. constructor. by apply Is_true_true.
Qed.

Lemma CheckBuiltinAggregatorCall_sound G b func z s r s' :
  b ∈ [AggInit; AggReset; AggAdvance; AggMerge; AggResult] -> typed_args G z ->
  CheckBuiltinAggregatorCall func z.*1 b s = Some (r, s') -> clean s' -> call_ok G b r.
Proof.
  intros Hb Hz Hr C. pose proof Hz as Hz'.
  assert (b = AggInit \/ b = AggReset -> call_ok G b r) as Hinit.
  { intros Hb'. destruct (first_bad IsPointerToAggregatorValue z.*1) as [bad|] eqn:E.
    - destruct Hb' as [-> | ->]; cbn [CheckBuiltinAggregatorCall] in Hr; rewrite E in Hr; crunch Hr.
    - assert (r = (z.*1, Some (builtin_type Nil))) as ->
        by (destruct Hb' as [-> | ->]; cbn [CheckBuiltinAggregatorCall] in Hr; rewrite E in Hr; by crunch Hr).
      apply call_ok_same; [done|]. apply accepts_aggregates; [done|]. by eapply first_bad_None. }
  rewrite !elem_of_cons, elem_of_nil in Hb. destruct_or? Hb; subst b; try (by apply Hinit; auto); try done;
    cbn [CheckBuiltinAggregatorCall] in Hr; count_args Hr C z Hz; check_types Hr;
    refine (call_ok_same _ _ _ _ Hz' _).
  1: by apply accepts_advance; apply Is_true_true.
  1: by apply accepts_merge; apply Is_true_true.
  all: match goal with E : GetPointeeType ?t = Some _ |- _ => destruct t; try discriminate E; injection E as -> end;
    by apply accepts_result.
Qed.

Lemma CheckBuiltinHashCall_sound G func z s r s' : typed_args G z ->
  CheckBuiltinHashCall func z.*1 s = Some (r, s') -> clean s' -> call_ok G Hash r.
Proof.
  intros Hz Hr C. unfold CheckBuiltinHashCall in Hr.
  apply CheckArgCountAtLeast_bind in Hr as [Hn Hr]; [|intros ?; keep|done]. cbv beta iota delta [negb] in Hr.
  destruct (first_bad _ _) as [bad|] eqn:E; [crunch Hr|]. munfold Hr. simplify_eq.
  apply call_ok_same; [done|]. apply accepts_hash; [by destruct z; [cbn in Hn; lia|]|]. by eapply first_bad_None.
Qed.

Lemma CheckBuiltinVectorFilterCall_sound G b func z s r s' :
  b ∈ [VectorFilterEqual; VectorFilterGreaterThan; VectorFilterGreaterThanEqual; VectorFilterLessThan;
       VectorFilterLessThanEqual; VectorFilterNotEqual] -> typed_args G z ->
  CheckBuiltinVectorFilterCall func z.*1 s = Some (r, s') -> clean s' -> call_ok G b r.
Proof.
  intros Hb Hz Hr C. pose proof Hz as Hz'. unfold CheckBuiltinVectorFilterCall in Hr. count_args Hr C z Hz.
  get_types Hr.
  destruct (IsPointerToSpecificBuiltin t0 _) eqn:E0; [|crunch Hr]. apply pointer_to_specific in E0 as ->.
  destruct (IsSpecificBuiltin t2 Int32) eqn:E1; [|destruct (IsSpecificBuiltin t2 UInt32) eqn:E1'; [|crunch Hr]];
    (destruct (IsSpecificBuiltin t4 Int32) eqn:E2; [|destruct (IsSqlValueType t4) eqn:E2'; [|crunch Hr]];
     (destruct (IsPointerToSpecificBuiltin t6 _) eqn:E3; [|crunch Hr])).
  all: apply pointer_to_specific in E3 as ->; cbn [andb] in Hr; munfold Hr; simplify_eq; refine (call_ok_same _ _ _ _ Hz' _);
    rewrite ?IsSpecificBuiltin_true in *; apply accepts_filter; auto; right; by apply Is_true_true.
Qed.

Lemma CheckBuiltinSizeOfCall_sound G func z s r s' : typed_args G z ->
  CheckBuiltinSizeOfCall func z.*1 s = Some (r, s') -> clean s' -> call_ok G SizeOf r.
Proof.
  intros Hz Hr C. pose proof Hz as Hz'. unfold CheckBuiltinSizeOfCall in Hr. count_args Hr C z Hz.
  check_types Hr; refine (call_ok_same _ _ _ _ Hz' _). constructor.
Qed.

Lemma CheckBuiltinBitsCall_sound G b func z s r s' : b = Ctlz \/ b = Cttz -> typed_args G z ->
  CheckBuiltinBitsCall func z.*1 s = Some (r, s') -> clean s' -> call_ok G b r.
Proof.
  intros Hb Hz Hr C. pose proof Hz as Hz'. unfold CheckBuiltinBitsCall in Hr. count_args Hr C z Hz.
  get_types Hr. destruct t0 as [k| | | | | |]; [|crunch Hr..].
  destruct (IsIntegral k) eqn:E; [|crunch Hr]. destruct (IsSigned k) eqn:E'; crunch Hr.
  refine (call_ok_same _ _ _ _ Hz' _). apply accepts_bits; [done|by apply Is_true_true|done].
Qed.

Lemma CheckBuiltinFilterManagerCall_sound G b func z s r s' :
  b ∈ [FilterManagerInit; FilterManagerInsertFilter; FilterManagerRunFilters; FilterManagerFree] -> typed_args G z ->
  CheckBuiltinFilterManagerCall func z.*1 b s = Some (r, s') -> clean s' -> call_ok G b r.
Proof.
  intros Hb Hz Hr C. pose proof Hz as Hz'. unfold CheckBuiltinFilterManagerCall in Hr.
  apply CheckArgCountAtLeast_bind in Hr as [Hn Hr]; [|intros ?; unfold ReportIncorrectCallArg_type, ReportIncorrectCallArg_text; keep|done].
  cbv beta iota delta [negb] in Hr.
  destruct z as [|[a0 t0] z]; [cbn in Hn; lia|]. apply Forall_cons in Hz as [Ha Hz]. cbn [fst snd] in Ha.
  get_types Hr. destruct (IsPointerToSpecificBuiltin t0 _) eqn:E0; [|crunch Hr]. apply pointer_to_specific in E0 as ->.
  rewrite !elem_of_cons, elem_of_nil in Hb. destruct_or? Hb; subst b; try done; cbv beta iota in Hr;
    try (eapply (GenericBuiltinCheck_sound G _ _ _ ((a0, _) :: z)); done).
  destruct (list_find _ _) as [[i arg]|] eqn:E; [crunch Hr|]. munfold Hr. simplify_eq.
  refine (call_ok_same _ _ _ (_ :: z) Hz' _). apply accepts_filters. apply list_find_None in E. cbn [tail] in E.
  clear -Hz E. induction Hz as [|[a t] z Ha Hz IH]; [constructor|]. apply Forall_cons in E as [E E']. cbn [fst snd] in Ha, E.
  rewrite (has_type_GetType _ _ _ Ha) in E. constructor; [cbn; by destruct (IsFilterFunction t)|by apply IH].
Qed.

Lemma check_signature_sound G b o func z s r s' : typed_args G z -> (forall sig, o = Some sig -> builtin_signature b (length z) = Some sig) ->
  check_signature o func z.*1 s = Some (r, s') -> clean s' -> call_ok G b r.
Proof.
  intros Hz Ho Hr C. destruct o as [sig|]; [|done]. eapply GenericBuiltinCheck_sound; [done|by apply Ho|exact Hr|done].
Qed.

Lemma CheckBuiltinCall_switch_sound G b func z s r s' : b <> Concat -> typed_args G z ->
  CheckBuiltinCall_switch b func z.*1 s = Some (r, s') -> clean s' -> call_ok G b r.
Proof.
  intros Hb Hz Hr C. destruct b; cbn [CheckBuiltinCall_switch] in Hr; rewrite ?length_fmap in Hr;
    first
    [ done
    | eapply check_signature_sound; [done| |exact Hr|done]; intros sig Hs; exact Hs || discriminate Hs
    | eapply GenericBuiltinCheck_sound; [done| |exact Hr|done]; reflexivity
    | eapply CheckNullValueCall_sound; eauto; fail
    | eapply CheckBuiltinHashCall_sound; eauto; fail
    | eapply CheckBuiltinSizeOfCall_sound; eauto; fail
    | eapply CheckBuiltinBitsCall_sound; eauto; fail
    | eapply CheckBuiltinAggregatorCall_sound; [|done|exact Hr|done]; set_solver
    | eapply CheckBuiltinFilterManagerCall_sound; [|done|exact Hr|done]; set_solver
    | eapply CheckBuiltinVectorFilterCall_sound; [|done|exact Hr|done]; set_solver ].
Qed.
End soundness.

(** * The checker only elaborates: whatever a program is, and with whatever errors, the tree that is left is the program's *)

Create HintDb elab.
#[export] Hint Constructors elab elab_field elab_stmt elab_body elab_decl option_Forall2 : elab.

Lemma option_untyped {A B} (R : A -> B -> Prop) (f : A -> B) o : on_child (fun a => R a (f a)) o -> option_Forall2 R o (option_map f o).
Proof. destruct o; by constructor. Qed.
Lemma all_untyped {A B} (R : A -> B -> Prop) (f : A -> B) l : Forall (fun a => R a (f a)) l -> Forall2 R l (map f l).
Proof. induction 1; by constructor. Qed.

Lemma tree_untyped :
  (forall e, elab e (untyped e)) /\ (forall f, elab_field f (untyped_field f)) /\
  (forall n, elab_stmt n (untyped_stmt n)) /\ (forall d, elab_decl d (untyped_decl d)).
Proof.
  apply tree_ind; intros; cbn [untyped untyped_field untyped_stmt untyped_decl]; constructor;
    auto using option_untyped, all_untyped with elab.
  apply all_untyped. eapply Forall_impl; [eassumption|by intros a []].
Qed.
Lemma elab_untyped e : elab e (untyped e).
Proof. apply tree_untyped. Qed.
Lemma elab_untyped_stmt n : elab_stmt n (untyped_stmt n).
Proof. apply tree_untyped. Qed.
Lemma elab_untyped_args l : Forall2 elab l (map untyped l).
Proof. apply all_untyped, Forall_true, elab_untyped. Qed.
Lemma elab_untyped_fields l : Forall2 elab_field l (map untyped_field l).
Proof. apply all_untyped, Forall_true, tree_untyped. Qed.
Lemma elab_untyped_child o : option_Forall2 elab o (option_map untyped o).
Proof. apply option_untyped. destruct o; [apply elab_untyped|done]. Qed.
Lemma elab_untyped_optional o : option_Forall2 elab_stmt o (option_map untyped_stmt o).
Proof. apply option_untyped. destruct o; [apply elab_untyped_stmt|done]. Qed.
#[export] Hint Resolve elab_untyped elab_untyped_stmt elab_untyped_args elab_untyped_fields elab_untyped_child elab_untyped_optional : elab.

(** * Checks *)

(** The second expression is the first with casts or with another type for a literal. *)
Definition converts (a a' : TExpression) : Prop := forall e, elab e a -> elab e a'.
#[export] Instance converts_refl : Reflexive converts.
Proof. by intros a e. Qed.

Lemma cast_converts e t k : converts e (ImplCastExprToType e t k).
Proof. intros e0 He. by apply E_cast. Qed.
Lemma Check_converts t e s ok e' s' : CheckAssignmentConstraints t e s = Some ((ok, e'), s') -> converts e e'.
Proof.
  intros (_ & u & _ & [(_ & _ & ->)|[Hc|(p & v & o & -> & _ & ->)]])%Check_cases; [done| |].
  - unfold implicit_conversion in Hc. repeat (case_match; simplify_eq); try done; apply cast_converts.
  - destruct ok; [|done]. intros e0 He. inversion He; subst. constructor.
Qed.

Lemma Logical_converts op p l r s res s' : CheckLogicalOperands op p l r s = Some (res, s') ->
  converts l (result_left res) /\ converts r (result_right res).
Proof.
  assert (forall e s e' s', sql_bool_to_bool e s = Some (e', s') -> converts e e') as Hb.
  { intros e s0 e' s1 He. unfold sql_bool_to_bool in He. munfold He. destruct (GetType e); [|done]. simplify_eq.
    destruct (IsSpecificBuiltin _ _); [apply cast_converts|done]. }
  intros Hr. unfold CheckLogicalOperands in Hr. apply bind_inv in Hr as (l' & s1 & Hl & Hr). apply Hb in Hl.
  apply bind_inv in Hr as (r' & s2 & Hr' & Hr). apply Hb in Hr'. munfold Hr.
  repeat (case_match; simplify_eq); done.
Qed.
Lemma Arithmetic_converts op p l r s res s' : CheckArithmeticOperands op p l r s = Some (res, s') ->
  converts l (result_left res) /\ converts r (result_right res).
Proof.
  intros Hr. unfold CheckArithmeticOperands in Hr. munfold Hr.
  repeat (case_match; simplify_eq);
    repeat match goal with H : CheckAssignmentConstraints _ _ _ = Some _ |- _ => apply Check_converts in H end; done.
Qed.
Lemma Comparison_converts op p l r s res s' : CheckComparisonOperands op p l r s = Some (res, s') ->
  converts l (result_left res) /\ converts r (result_right res).
Proof.
  intros Hr. unfold CheckComparisonOperands in Hr. munfold Hr.
  repeat (case_match; simplify_eq);
    repeat match goal with H : CheckAssignmentConstraints _ _ _ = Some _ |- _ => apply Check_converts in H end; done.
Qed.

Lemma Forall2_converts args args' l : Forall2 converts args args' -> Forall2 elab l args -> Forall2 elab l args'.
Proof. intros Hc He. revert args' Hc. induction He; intros args' Hc; inversion Hc; subst; constructor; auto. Qed.

Lemma ArgCheck_converts func args i spec s ok args' s' : ArgCheck func args i spec s = Some ((ok, args'), s') -> Forall2 converts args args'.
Proof.
  intros Hr. unfold ArgCheck in Hr. apply bind_inv in Hr as (arg & s1 & Ha & Hr). apply bind_inv in Hr as (t & s2 & Ht & Hr).
  assert (forall (m : M unit) s, (m;; mret (false, args)) s = Some (ok, args', s') -> Forall2 converts args args') as Hsame.
  { intros m s0 Hm. apply bind_inv in Hm as (u & s3 & _ & Hm). by injection Hm as _ <- _. }
  destruct spec as [u| | | |ret ps].
  - apply bind_inv in Hr as ([ok' arg'] & s3 & Hc & Hr). destruct ok'; [|by eapply Hsame]. injection Hr as _ <- _.
    apply Check_converts in Hc. destruct (args !! i) as [a|] eqn:E; [|done]. injection Ha as -> _.
    clear -E Hc. revert i E. induction args as [|b args IH]; intros [|i] E; try done; cbn; [injection E as ->|]; by constructor; auto.
  - destruct (IsStringLiteral arg); [by injection Hr as _ <- _|by eapply Hsame].
  - destruct (IsPointerType t); [by injection Hr as _ <- _|by eapply Hsame].
  - destruct (IsSqlValueType t); [by injection Hr as _ <- _|by eapply Hsame].
  - destruct t; try (by eapply Hsame). repeat (destruct (negb _) in Hr; [by eapply Hsame|]). by injection Hr as _ <- _.
Qed.

Lemma ArgChecks_converts func specs : forall args i s ok args' s',
  ArgChecks func args i specs s = Some ((ok, args'), s') -> Forall2 converts args args'.
Proof.
  induction specs as [|spec specs IH]; intros args i s ok args' s' Hr; cbn [ArgChecks] in Hr.
  { by injection Hr as _ <- _. }
  apply bind_inv in Hr as ([ok1 args1] & s1 & Hc & Hr). apply ArgCheck_converts in Hc.
  destruct ok1; [|by injection Hr as _ <- _]. apply IH in Hr. clear -Hc Hr.
  revert args' Hr. induction Hc; intros args' Hr; inversion Hr; subst; constructor; [|by auto]. intros e He. auto.
Qed.

(** ** Checks of builtins *)

(** A check gives the arguments back, converted. *)
Definition gives (args : list TExpression) (m : M checked) : Prop := forall s r s', m s = Some (r, s') -> Forall2 converts args r.1.

Lemma gives_bind {A} args (m : M A) k : (forall a, gives args (k a)) -> gives args (m ≫= k).
Proof. intros Hk s r s' Hr. apply bind_inv in Hr as (a & s1 & _ & Hr). by eapply Hk. Qed.
Lemma gives_ret args t : gives args (mret (args, t)).
Proof. by intros s r s' [= <- <-]. Qed.
Lemma GenericBuiltinCheck_gives sig func args : gives args (GenericBuiltinCheck sig func args).
Proof.
  intros s r s' Hr. unfold GenericBuiltinCheck in Hr. apply bind_inv in Hr as (ok & s1 & _ & Hr).
  destruct ok; [|by injection Hr as <- <-]. apply bind_inv in Hr as ([ok args'] & s2 & Hc & Hr).
  injection Hr as <- <-. by eapply ArgChecks_converts.
Qed.
Ltac give :=
  repeat match goal with
  | |- gives _ (mret (_, _)) => apply gives_ret
  | |- gives _ crash => done
  | |- gives _ (GenericBuiltinCheck _ _ _) => apply GenericBuiltinCheck_gives
  | |- gives _ (_ ≫= _) => apply gives_bind; intros ?
  | |- gives _ (match ?x with _ => _ end) => destruct x
  end.

Section elaboration.
Context `{CppClasses}.

Lemma CheckBuiltinCall_switch_gives b func args : gives args (CheckBuiltinCall_switch b func args).
Proof.
  destruct b; cbn [CheckBuiltinCall_switch]; unfold check_signature, CheckNullValueCall, CheckBuiltinConcat,
    CheckBuiltinAggregatorCall, report_not_aggregate, CheckBuiltinHashCall, CheckBuiltinFilterManagerCall,
    CheckBuiltinVectorFilterCall, CheckBuiltinSizeOfCall, CheckBuiltinBitsCall; give.
Qed.

Lemma check_call_args_converts name args : forall ps n s xs ok s',
  check_call_args name ps args n s = Some ((xs, ok), s') -> Forall2 converts args xs.
Proof.
  induction args as [|a args IH]; intros ps n s xs ok s' Hr.
  { destruct ps; cbn [check_call_args] in Hr; by injection Hr as <- _ _. }
  destruct ps as [|p ps]; [done|]. cbn [check_call_args] in Hr.
  apply bind_inv in Hr as ([ok1 a'] & s1 & Hc & Hr). apply Check_converts in Hc.
  apply bind_inv in Hr as (u & s2 & _ & Hr). apply bind_inv in Hr as ([xs' ok'] & s3 & Hx & Hr).
  injection Hr as <- _ _. constructor; [done|by eapply IH].
Qed.

(** * Visitors *)

Definition elabs {A B} (R : A -> B -> Prop) (a : A) (m : M B) : Prop := forall s b s', m s = Some (b, s') -> R a b.

Lemma elabs_bind {A B C} (R : A -> B -> Prop) a (m : M C) k : (forall c, elabs R a (k c)) -> elabs R a (m ≫= k).
Proof. intros Hk s b s' Hr. apply bind_inv in Hr as (c & s1 & _ & Hr). by eapply Hk. Qed.
Lemma elabs_child {A B C D} (R : A -> B -> Prop) (R' : C -> D -> Prop) a c (m : M D) k : elabs R' c m ->
  (forall d, R' c d -> elabs R a (k d)) -> elabs R a (m ≫= k).
Proof. intros Hm Hk s b s' Hr. apply bind_inv in Hr as (d & s1 & Hd & Hr). eapply Hk; [by eapply Hm|done]. Qed.
Lemma elabs_ret {A B} (R : A -> B -> Prop) a b : R a b -> elabs R a (mret b).
Proof. by intros Hr s b' s' [= <- <-]. Qed.
Lemma elabs_scope {A B} (R : A -> B -> Prop) a kind (m : M B) : elabs R a m -> elabs R a (with_scope kind m).
Proof. intros Hm. unfold with_scope. apply elabs_bind. intros _. eapply elabs_child; [done|]. intros b Hb. apply elabs_bind. intros _. by apply elabs_ret. Qed.
Lemma elabs_function {A B} (R : A -> B -> Prop) a type (m : M B) : elabs R a m -> elabs R a (with_function type m).
Proof.
  intros Hm. unfold with_function. do 3 (apply elabs_bind; intros ?). eapply elabs_child; [done|]. intros b Hb.
  do 2 (apply elabs_bind; intros ?). by apply elabs_ret.
Qed.
Lemma elabs_declaration {A B} (R : A -> B -> Prop) a d (m : M B) : elabs R a m -> elabs R a (with_declaration d m).
Proof.
  intros Hm. unfold with_declaration. do 2 (apply elabs_bind; intros ?). eapply elabs_child; [done|]. intros b Hb.
  apply elabs_bind; intros ?. by apply elabs_ret.
Qed.

Lemma resolve_args_elabs l : Forall (fun a => elabs elab a (visit a)) l ->
  elabs (fun l (r : list TExpression * bool) => Forall2 elab l r.1) l (resolve_args visit l).
Proof.
  induction 1 as [|a l Ha Hl IH]; cbn [resolve_args]; [apply elabs_ret; constructor|].
  eapply elabs_child; [exact Ha|]. intros a' Ha'. destruct (GetType a'); [|apply elabs_ret; cbn; auto with elab].
  eapply elabs_child; [exact IH|]. intros [xs ok] Hx. apply elabs_ret. by constructor.
Qed.
Lemma resolve_fields_elabs l : Forall (fun f => elabs elab_field f (visit_field f)) l ->
  elabs (fun l (r : list TFieldDeclaration * option _) => Forall2 elab_field l r.1) l (resolve_fields visit_field l).
Proof.
  induction 1 as [|a l Ha Hl IH]; cbn [resolve_fields]; [apply elabs_ret; constructor|].
  eapply elabs_child; [exact Ha|]. intros a' Ha'. destruct (field_type a'); [|apply elabs_ret; cbn; auto with elab].
  eapply elabs_child; [exact IH|]. intros [xs ok] Hx. apply elabs_ret. by constructor.
Qed.
Lemma visit_child_elabs o : on_child (fun e => elabs elab e (visit e)) o ->
  elabs (fun o e => option_Forall2 elab o (Some e)) o (visit_child visit o).
Proof. destruct o as [e|]; cbn; [|done]. intros He s e' s' Hr. constructor. by eapply He. Qed.
Lemma visit_optional_elabs {A B} (R : A -> B -> Prop) (v : A -> M B) o : on_child (fun e => elabs R e (v e)) o ->
  elabs (option_Forall2 R) o (visit_optional v o).
Proof.
  destruct o as [e|]; cbn; intros He; [|apply elabs_ret; constructor]. eapply elabs_child; [exact He|].
  intros e' He'. apply elabs_ret. by constructor.
Qed.
Lemma visit_all_elabs {A B} (R : A -> B -> Prop) (v : A -> M B) l : Forall (fun e => elabs R e (v e)) l ->
  elabs (Forall2 R) l (visit_all v l).
Proof.
  induction 1 as [|a l Ha Hl IH]; cbn [visit_all]; [apply elabs_ret; constructor|].
  eapply elabs_child; [exact Ha|]. intros a' Ha'. eapply elabs_child; [exact IH|]. intros xs Hx. apply elabs_ret. by constructor.
Qed.

Lemma check_terminates_elabs pos ret b b' : elab_stmt b b' -> elabs elab_body b (check_terminates pos ret b').
Proof.
  intros Hb. unfold check_terminates. destruct b'; try done. apply elabs_bind. intros [|]; [apply elabs_ret; by constructor|].
  destruct (negb _); [apply elabs_bind; intros _; apply elabs_ret; by constructor|]. apply elabs_ret. inversion Hb; subst.
  by constructor.
Qed.
Lemma check_function_elabs b m pos t : elabs elab_stmt b m -> elabs elab_body b (check_function m pos t).
Proof.
  intros Hm. unfold check_function. destruct t as [[| | | | | |ps ret]|]; try done. apply elabs_function.
  apply elabs_bind. intros _. eapply elabs_child; [exact Hm|]. intros b' Hb'. by apply check_terminates_elabs.
Qed.

(** What a check gives for what is elaborated so far. *)
Lemma operands_elabs e1 e2 l r (m : M CheckResult) : elab e1 l -> elab e2 r ->
  (forall s res s', m s = Some (res, s') -> converts l (result_left res) /\ converts r (result_right res)) ->
  elabs (fun (_ : unit) res => elab e1 (result_left res) /\ elab e2 (result_right res)) tt m.
Proof. intros Hl Hr Hm s res s' He. destruct (Hm _ _ _ He) as [Hcl Hcr]. split; [by apply Hcl|by apply Hcr]. Qed.
Lemma assignment_elabs e a t : elab e a -> elabs (fun (_ : unit) (r : bool * TExpression) => elab e r.2) tt (CheckAssignmentConstraints t a).
Proof. intros He s [ok a'] s' Hr. by apply (Check_converts _ _ _ _ _ _ Hr). Qed.
Lemma switch_elabs l args b func : Forall2 elab l args ->
  elabs (fun (_ : unit) (r : checked) => Forall2 elab l r.1) tt (CheckBuiltinCall_switch b func args).
Proof. intros Hl s r s' Hr. eapply Forall2_converts; [by eapply CheckBuiltinCall_switch_gives|done]. Qed.
Lemma call_args_elabs l args name ps n : Forall2 elab l args ->
  elabs (fun (_ : unit) (r : list TExpression * bool) => Forall2 elab l r.1) tt (check_call_args name ps args n).
Proof. intros Hl s [xs ok] s' Hr. eapply Forall2_converts; [by eapply check_call_args_converts|done]. Qed.

Lemma elab_cast_if e e' (b : bool) t k : elab e e' -> elab e (if b then ImplCastExprToType e' t k else e').
Proof. intros He. destruct b; [by apply E_cast|done]. Qed.
Hint Resolve elab_cast_if : elab.

Ltac elab_step :=
  match goal with
  | H : on_child _ (Some _) |- _ => cbn [on_child] in H
  | H : option_Forall2 _ _ (Some _) |- _ => inversion H; subst; clear H
  | H : on_parts _ _ (FunctionLiteralExpression _ _) |- _ => destruct H
  | |- elabs _ _ (mret _) => apply elabs_ret; cbn [fst snd] in *; solve [eauto 7 with elab]
  | |- elabs _ _ crash => done
  | |- elabs _ _ (let _ := _ in _) => cbv zeta
  | |- elabs _ _ (with_scope _ _) => apply elabs_scope
  | |- elabs _ _ (with_declaration _ _) => apply elabs_declaration
  | H : elabs _ ?a ?m |- elabs _ _ (?m ≫= _) => eapply elabs_child; [exact H|]; intros ? ?
  | H : elab ?a ?l, H' : elab ?b ?r |- elabs _ _ (CheckLogicalOperands _ _ ?l ?r ≫= _) =>
      eapply elabs_child; [exact (operands_elabs a b l r _ H H' (Logical_converts _ _ _ _))|]; intros ? [? ?]
  | H : elab ?a ?l, H' : elab ?b ?r |- elabs _ _ (CheckArithmeticOperands _ _ ?l ?r ≫= _) =>
      eapply elabs_child; [exact (operands_elabs a b l r _ H H' (Arithmetic_converts _ _ _ _))|]; intros ? [? ?]
  | H : elab ?a ?l, H' : elab ?b ?r |- elabs _ _ (CheckComparisonOperands _ _ ?l ?r ≫= _) =>
      eapply elabs_child; [exact (operands_elabs a b l r _ H H' (Comparison_converts _ _ _ _))|]; intros ? [? ?]
  | H : elab ?e ?a |- elabs _ _ (CheckAssignmentConstraints _ ?a ≫= _) =>
      eapply elabs_child; [exact (assignment_elabs e a _ H)|]; intros [? ?] ?
  | H : Forall2 elab ?l ?xs |- elabs _ _ (CheckBuiltinCall_switch _ _ ?xs ≫= _) =>
      eapply elabs_child; [exact (switch_elabs l xs _ _ H)|]; intros [? ?] ?
  | H : Forall2 elab ?l ?xs |- elabs _ _ (check_call_args _ _ ?xs _ ≫= _) =>
      eapply elabs_child; [exact (call_args_elabs l xs _ _ _ H)|]; intros [? ?] ?
  | H : Forall _ ?l |- elabs _ _ (resolve_args visit ?l ≫= _) =>
      eapply elabs_child; [exact (resolve_args_elabs l H)|]; intros [? ?] ?; cbn [fst] in *
  | H : Forall _ ?l |- elabs _ _ (resolve_fields visit_field ?l ≫= _) =>
      eapply elabs_child; [exact (resolve_fields_elabs l H)|]; intros [? ?] ?; cbn [fst] in *
  | H : on_child _ ?o |- elabs _ _ (visit_child visit ?o ≫= _) => eapply elabs_child; [exact (visit_child_elabs o H)|]; intros ? ?
  | H : on_child _ ?o |- elabs _ _ (visit_optional ?v ?o ≫= _) => eapply elabs_child; [exact (visit_optional_elabs _ v o H)|]; intros ? ?
  | H : Forall _ ?l |- elabs _ _ (visit_all ?v ?l ≫= _) => eapply elabs_child; [exact (visit_all_elabs _ v l H)|]; intros ? ?
  | H : elabs elab_stmt ?b (visit_stmt ?b) |- elabs _ _ (check_function (visit_stmt ?b) ?p ?t ≫= _) =>
      eapply elabs_child; [exact (check_function_elabs b (visit_stmt b) p t H)|]; intros ? ?
  | |- elabs _ _ (_ ≫= _) => apply elabs_bind; intros ?
  | |- elabs _ _ (match ?x with _ => _ end) => destruct x eqn:?
  end.

Lemma ptr_cast_elabs p name e0 i u (m m' : M TExpression) : 
  elabs (fun (_ : unit) t => forall i' ty, elab i i' ->
    elab (CallExpression Builtin (IdentifierExpression p name) [e0; i]) (TCallExpression Builtin (TIdentifierExpression p name None) [t; i'] ty)) u m ->
  elabs elab i m' ->
  elabs elab (CallExpression Builtin (IdentifierExpression p name) [e0; i]) (CheckBuiltinPtrCast (IdentifierExpression p name) i m m').
Proof.
  intros Hm Hm'. unfold CheckBuiltinPtrCast, builtin_call. eapply elabs_child; [exact Hm|]. intros t Ht. cbn [untyped].
  repeat elab_step.
Qed.

Lemma builtin_call_elab f args : elabs elab f (visit f) ->
  Forall (fun a => elabs elab a (visit a) /\ on_parts (fun e => elabs elab e (visit e)) (fun n => elabs elab_stmt n (visit_stmt n)) a) args ->
  elabs elab (CallExpression Builtin f args) (visit (CallExpression Builtin f args)).
Proof.
  intros Hf Hargs. cbn [visit].
  assert (Forall (fun a => elabs elab a (visit a)) args) by (eapply Forall_impl; [exact Hargs|by intros a []]).
  destruct f; try done. cbn [untyped GetFuncName]. cbv zeta.
  apply (elabs_child _ (fun (_ : unit) n => n = name) _ tt); [by intros s n s' [= <- <-]|]. intros n ->.
  assert (forall args' t, Forall2 elab args args' -> elabs elab (CallExpression Builtin (IdentifierExpression pos name) args)
    (mret (builtin_call (IdentifierExpression pos name) args' t))) as Hsame.
  { intros args' t Ha. apply elabs_ret. constructor; [constructor|done]. }
  destruct (IsBuiltinFunction name) as [b|] eqn:Eb; [|apply elabs_bind; intros _; apply Hsame; auto with elab].
  assert (elabs elab (CallExpression Builtin (IdentifierExpression pos name) args)
    ('(args, ok) ← resolve_args visit args;
     if negb ok then mret (builtin_call (IdentifierExpression pos name) args None)
     else '(args, type) ← CheckBuiltinCall_switch b (TIdentifierExpression pos name None) args;
          mret (builtin_call (IdentifierExpression pos name) args type))) as Hdefault.
  { repeat elab_step. }
  destruct b; try exact Hdefault; clear Hdefault; apply elabs_bind; intros ok;
    (destruct (negb ok); [apply Hsame; auto with elab|]); destruct args as [|a0 [|a1 [|]]]; try done;
    rewrite !Forall_cons in Hargs; destruct Hargs as ([Ha0 Hpart] & [Ha1 _] & _).
  - unfold CheckBuiltinOffsetOf. repeat (elab_step || apply Hsame; auto with elab).
  - unfold CheckBuiltinIntCast. repeat (elab_step || apply Hsame; auto with elab).
  - assert (elabs elab (CallExpression Builtin (IdentifierExpression pos name) [a0; a1])
      (CheckBuiltinPtrCast (IdentifierExpression pos name) a1 (visit a0) (visit a1))) as Hcast.
    { eapply ptr_cast_elabs; [|done]. intros s t s' Hr i' ty Hi. apply Ha0 in Hr. constructor; eauto with elab. }
    destruct a0; try exact Hcast. cbn [on_parts] in Hpart.
    destruct op; try (apply elabs_bind; intros _; apply Hsame; auto with elab; fail).
    eapply ptr_cast_elabs; [|done]. intros s t s' Hr i' ty Hi. apply bind_inv in Hr as (t' & s1 & Ht & Hr).
    injection Hr as <- <-. apply Hpart in Ht. by apply E_ptr_cast.
Unshelve. all: exact tt.
Qed.

Lemma visitors_elab :
  (forall e, elabs elab e (visit e)) /\ (forall f, elabs elab_field f (visit_field f)) /\
  (forall n, elabs elab_stmt n (visit_stmt n)) /\ (forall d, elabs elab_decl d (visit_decl d)).
Proof.
  apply tree_ind; intros; cbn [visit visit_field visit_stmt visit_decl].
  3: { revert f args H0 H1. destruct k; [|apply builtin_call_elab]; intros f args Hf Hargs; cbn [visit].
       assert (Forall (fun a => elabs elab a (visit a)) args) by (eapply Forall_impl; [exact Hargs|by intros a []]).
       repeat elab_step. }
  all: repeat elab_step.
Qed.

End elaboration.
