(* ===== verification/Parser.v ===== *)
(** The TPL parser: [src/include/parsing/parser.h] and [src/parsing/parser.cpp].

    The C++ methods call each other recursively, so each is defined here by open
    recursion: a production is a constructor of [Prod], indexed by the type of its
    result, [call p] is a call of it, and each method's body is a Definition in the
    monad [P] of computations that may call productions.  [parse] ties the knot with a
    fuel that bounds the depth of calls; the loops of the methods are productions of
    their own, whose arguments are the loop's variables.  A result [None] means that the
    fuel ran out; [ParserSpec] shows that grammatical input always has enough.

    Positions: the methods hold [const SourcePosition &position =
    scanner_->CurrentPosition()], a reference into the scanner, and so a node gets the
    position current at its construction, whatever was parsed in between.  The model
    reads the position at the construction.  [ParseUnaryOpExpression] copies it. *)
From Stdlib Require Import SpecFloat.
From S2P Require Import Prelude Token TokenSource Ast ErrorReporter.

(** * Literals *)

Definition digit_val (b : Z) : Z := b - ch "0".

Definition is_digit (b : Z) : bool := (ch "0" <=? b) && (b <=? ch "9").

(** The value of the leading digits of a string, and the rest of it. *)
Fixpoint digits_value (acc : Z) (s : list Z) : Z * list Z :=
  match s with
  | b :: s' => if is_digit b then digits_value (10 * acc + digit_val b) s' else (acc, s)
  | [] => (acc, [])
  end.

(** [std::strtoll(str, &end, 10)] of a token that begins with a digit: it saturates. *)
Definition strtoll (s : list Z) : Z := Z.min (fst (digits_value 0 s)) (2 ^ 63 - 1).

(** The binary32 number nearest to [n / 10 ^ d]. *)
Definition decimal_to_float (n : Z) (d : nat) : spec_float :=
  if n =? 0 then S754_zero false
  else let '(m, e, l) := SFdiv_core_binary 24 128 n 0 (10 ^ Z.of_nat d) 0 in
       binary_round_aux 24 128 false m e l.

(** [std::strtof] of a token: digits, and possibly a point and more digits. *)
Definition strtof (s : list Z) : spec_float :=
  let '(n, rest) := digits_value 0 s in
  match rest with
  | b :: frac =>
      if b =? ch "." then
        let '(n', rest') := digits_value n frac in
        decimal_to_float n' (length frac - length rest')
      else decimal_to_float n 0
  | [] => decimal_to_float n 0
  end.

(** * Productions *)

(** [class Parser::ForHeader]. *)
Record ForHeader : Set := mkForHeader {
  fh_init : option Statement;
  fh_cond : option Expression;
  fh_next : option Statement;
  fh_target : option Expression;
  fh_iter : option Expression
}.

Definition Infinite : ForHeader := mkForHeader None None None None None.
Definition Standard (init : option Statement) (cond : option Expression)
    (next : option Statement) : ForHeader := mkForHeader init cond next None None.
Definition ForIn (target iter : option Expression) : ForHeader :=
  mkForHeader None None None target iter.

(** [IsForIn] with [GetForInElements]. *)
Definition GetForInElements (h : ForHeader) : option (Expression * Expression) :=
  match fh_target h, fh_iter h with Some t, Some i => Some (t, i) | _, _ => None end.

(** The methods of the parser and, below them, the loops in their bodies. *)
Inductive Prod : Type -> Type :=
  | Parse : Prod File
  | ParseDeclaration : Prod (option Declaration)
  | ParseFunctionDeclaration : Prod Declaration
  | ParseStructDeclaration : Prod Declaration
  | ParseVariableDeclaration : Prod Declaration
  | ParseStatement : Prod Statement
  | ParseSimpleStatement : Prod Statement
  | ParseBlockStatement : Prod Statement
  | ParseForHeader : Prod ForHeader
  | ParseForStatement : Prod Statement
  | ParseIfStatement : Prod Statement
  | ParseReturnStatement : Prod Statement
  | ParseExpression : Prod Expression
  | ParseBinaryOpExpression (min_prec : nat) : Prod Expression
  | ParseUnaryOpExpression : Prod Expression
  | ParsePrimaryExpression : Prod Expression
  | ParseOperand : Prod Expression
  | ParseFunctionLiteralExpression : Prod Expression
  | ParseType : Prod (option Expression)
  | ParseFunctionType : Prod Expression
  | ParsePointerType : Prod Expression
  | ParseArrayType : Prod Expression
  | ParseStructType : Prod Expression
  | ParseMapType : Prod Expression
  | Parse_while (decls : list Declaration) : Prod (list Declaration)
  | Sync_while (s : list TokenType) : Prod unit
  | Block_while (statements : list Statement) : Prod (list Statement)
  | Binary_for (prec min_prec : nat) (left : Expression) : Prod Expression
  | Binary_while (prec : nat) (left : Expression) : Prod Expression
  | Primary_do (result : Expression) : Prod Expression
  | Args_while (args : list Expression) : Prod (list Expression)
  | Params_while (params : list FieldDeclaration) : Prod (list FieldDeclaration)
  | Fields_while (fields : list FieldDeclaration) : Prod (list FieldDeclaration).

Section Parser.
Context {S : Type} `{TokenSource S} (debug : bool).

(** The parser's state: its scanner and the error reporter of its context. *)
Record PState : Type := mkPState { scanner_ : S; reporter : errors }.

Definition Runner : Type := forall B, Prod B -> PState -> option (B * PState).
Definition P (A : Type) : Type := Runner -> PState -> option (A * PState).

#[local] Instance P_ret : MRet P := fun A a _ s => Some (a, s).
#[local] Instance P_bind : MBind P := fun A B k m self s =>
  match m self s with Some (a, s') => k a self s' | None => None end.

Definition call {A} (p : Prod A) : P A := fun self s => self A p s.

(** * Access to the scanner and the error reporter *)

Definition Next : P TokenType := fun _ s =>
  match ts_next (scanner_ s) with
  | Some (t, sc) => Some (t, mkPState sc (reporter s))
  | None => None
  end.

Definition Peek : P TokenType := fun _ s => Some (ts_peek (scanner_ s), s).
Definition CurrentPosition : P SourcePosition := fun _ s => Some (ts_position (scanner_ s), s).
Definition GetSymbol : P Identifier := fun _ s => Some (ts_literal (scanner_ s), s).

Definition Report_ (p : SourcePosition) (id : ErrorMessageId) (args : list MessageArgument)
    : P unit := fun _ s => Some (tt, mkPState (scanner_ s) (Report p id args (reporter s))).

Definition report_unexpected (next expected : TokenType) : P unit :=
  p ← CurrentPosition; Report_ p UnexpectedToken [TokenArg next; TokenArg expected].

Definition Consume (expected : TokenType) : P unit :=
  next ← Next;
  if debug && bool_decide (next <> expected) then report_unexpected next expected
  else mret tt.

Definition Expect (expected : TokenType) : P unit :=
  next ← Next;
  if decide (next <> expected) then report_unexpected next expected else mret tt.

Definition Matches (expected : TokenType) : P bool :=
  t ← Peek;
  if decide (t <> expected) then mret false else Consume expected;; mret true.

(** * Declarations *)

Definition kTopLevelDecls : list TokenType := [STRUCT; FUN].

Definition Parse_while_body (decls : list Declaration) : P (list Declaration) :=
  t ← Peek;
  if decide (t <> EOS) then
    decl ← call ParseDeclaration;
    call (Parse_while (match decl with Some d => decls ++ [d] | None => decls end))
  else mret decls.

Definition Parse_body : P File :=
  decls ← call (Parse_while []);
  start_pos ← CurrentPosition;
  mret (mkFile start_pos decls).

Definition Sync_while_body (s : list TokenType) : P unit :=
  t ← Peek;
  if decide (t <> EOS) then
    if bool_decide (t ∈ s) then mret tt
    else Next;; call (Sync_while s)
  else mret tt.

Definition Sync (s : list TokenType) : P unit := Next;; call (Sync_while s).

Definition MakeExpr (node : option Statement) : P (option Expression) :=
  match node with
  | None => mret None
  | Some (ExpressionStatement e) => mret (Some e)
  | Some n => Report_ (stmt_pos n) ExpectingExpression [];; mret None
  end.

Definition ParseDeclaration_body : P (option Declaration) :=
  t ← Peek;
  match t with
  | STRUCT => d ← call ParseStructDeclaration; mret (Some d)
  | FUN => d ← call ParseFunctionDeclaration; mret (Some d)
  | _ =>
      p ← CurrentPosition;
      Report_ p InvalidDeclaration [];;
      Sync kTopLevelDecls;;
      mret None
  end.

Definition ParseFunctionDeclaration_body : P Declaration :=
  Expect FUN;;
  Expect IDENTIFIER;;
  name ← GetSymbol;
  fun_ ← call ParseFunctionLiteralExpression;
  position ← CurrentPosition;
  mret (FunctionDeclaration position name fun_).

Definition ParseStructDeclaration_body : P Declaration :=
  Expect STRUCT;;
  Expect IDENTIFIER;;
  name ← GetSymbol;
  struct_type ← call ParseStructType;
  position ← CurrentPosition;
  mret (StructDeclaration position name struct_type).

Definition ParseVariableDeclaration_body : P Declaration :=
  Expect VAR;;
  Expect IDENTIFIER;;
  name ← GetSymbol;
  colon ← Matches COLON;
  type ← (if (colon : bool) then call ParseType else mret None);
  equal ← Matches EQUAL;
  init ← (if (equal : bool) then e ← call ParseExpression; mret (Some e) else mret None);
  (match type, init with
   | None, None =>
       p ← CurrentPosition; Report_ p MissingTypeAndInitialValue [StringArg name]
   | _, _ => mret tt
   end);;
  position ← CurrentPosition;
  mret (VariableDeclaration position name type init).

(** * Statements *)

Definition ParseStatement_body : P Statement :=
  t ← Peek;
  match t with
  | LEFT_BRACE => call ParseBlockStatement
  | FOR => call ParseForStatement
  | IF => call ParseIfStatement
  | RETURN => call ParseReturnStatement
  | VAR => var_decl ← call ParseVariableDeclaration; mret (DeclarationStatement var_decl)
  | _ => call ParseSimpleStatement
  end.

Definition ParseSimpleStatement_body : P Statement :=
  left ← call ParseExpression;
  equal ← Matches EQUAL;
  if (equal : bool) then
    right ← call ParseExpression;
    pos ← CurrentPosition;
    mret (AssignmentStatement pos left right)
  else mret (ExpressionStatement left).

Definition Block_while_body (statements : list Statement) : P (list Statement) :=
  t ← Peek;
  if bool_decide (t <> RIGHT_BRACE) && bool_decide (t <> EOS) then
    stmt ← call ParseStatement;
    call (Block_while (statements ++ [stmt]))
  else mret statements.

Definition ParseBlockStatement_body : P Statement :=
  Expect LEFT_BRACE;;
  statements ← call (Block_while []);
  Expect RIGHT_BRACE;;
  start_position ← CurrentPosition;
  end_position ← CurrentPosition;
  mret (BlockStatement start_position end_position statements).

Definition ParseForHeader_body : P ForHeader :=
  t ← Peek;
  if decide (t = LEFT_BRACE) then mret Infinite
  else
    Expect LEFT_PAREN;;
    t1 ← Peek;
    cond ← (if decide (t1 <> SEMI) then s ← call ParseStatement; mret (Some s) else mret None);
    in_ ← Matches IN;
    if (in_ : bool) then
      target ← MakeExpr cond;
      s ← call ParseStatement;
      iter ← MakeExpr (Some s);
      Expect RIGHT_PAREN;;
      mret (ForIn target iter)
    else
      semi ← Matches SEMI;
      icn ← (if (semi : bool) then
               t2 ← Peek;
               cond' ← (if decide (t2 <> SEMI) then s ← call ParseStatement; mret (Some s)
                        else mret None);
               Expect SEMI;;
               t3 ← Peek;
               next ← (if decide (t3 <> RIGHT_PAREN) then s ← call ParseStatement; mret (Some s)
                       else mret None);
               mret (cond, cond', next)
             else mret (None, cond, None));
      let '(init, cond', next) := icn : option Statement * option Statement * option Statement in
      Expect RIGHT_PAREN;;
      cond_expr ← MakeExpr cond';
      mret (Standard init cond_expr next).

Definition ParseForStatement_body : P Statement :=
  Expect FOR;;
  header ← call ParseForHeader;
  body ← call ParseBlockStatement;
  position ← CurrentPosition;
  match GetForInElements header with
  | None => mret (ForStatement position (fh_init header) (fh_cond header) (fh_next header) body)
  | Some (target, iter) => mret (ForInStatement position target iter body)
  end.

Definition ParseIfStatement_body : P Statement :=
  Expect IF;;
  Expect LEFT_PAREN;;
  cond ← call ParseExpression;
  Expect RIGHT_PAREN;;
  then_stmt ← call ParseBlockStatement;
  else_ ← Matches ELSE;
  else_stmt ← (if (else_ : bool) then
                 t ← Peek;
                 s ← (if decide (t = IF) then call ParseIfStatement
                      else call ParseBlockStatement);
                 mret (Some s)
               else mret None);
  position ← CurrentPosition;
  mret (IfStatement position cond then_stmt else_stmt).

Definition ParseReturnStatement_body : P Statement :=
  Expect RETURN;;
  t ← Peek;
  ret ← (if decide (t <> RIGHT_BRACE) then e ← call ParseExpression; mret (Some e)
         else mret None);
  position ← CurrentPosition;
  mret (ReturnStatement position ret).

(** * Expressions *)

Definition ParseExpression_body : P Expression :=
  call (ParseBinaryOpExpression (LowestPrecedence + 1)).

Definition ParseBinaryOpExpression_body (min_prec : nat) : P Expression :=
  left ← call ParseUnaryOpExpression;
  t ← Peek;
  call (Binary_for (GetPrecedence t) min_prec left).

(** The [for] loop, with its condition, body and decrement. *)
Definition Binary_for_body (prec min_prec : nat) (left : Expression) : P Expression :=
  if Nat.ltb min_prec prec then
    t ← Peek;
    if Nat.ltb (GetPrecedence t) min_prec then mret left
    else
      left' ← call (Binary_while prec left);
      call (Binary_for (prec - 1) min_prec left')
  else mret left.

Definition Binary_while_body (prec : nat) (left : Expression) : P Expression :=
  t ← Peek;
  if Nat.eqb (GetPrecedence t) prec then
    op ← Next;
    right ← call (ParseBinaryOpExpression prec);
    position ← CurrentPosition;
    call (Binary_while prec
            (if IsCompareOp op then ComparisonOpExpression position op left right
             else BinaryOpExpression position op left right))
  else mret left.

(** The rewrites of a unary operator on a literal. *)
Definition NewUnary (pos : SourcePosition) (op : TokenType) (expression : Expression)
    : Expression :=
  match expression, op with
  | LiteralExpression _ (BoolLiteral b), BANG => LiteralExpression pos (BoolLiteral (negb b))
  | LiteralExpression _ (IntLiteral _), PLUS => expression
  | LiteralExpression _ (IntLiteral n), MINUS =>
      LiteralExpression pos (IntLiteral (wraps 64 (- n)))
  | _, _ => UnaryOpExpression pos op expression
  end.

Definition ParseUnaryOpExpression_body : P Expression :=
  t ← Peek;
  match t with
  | AMPERSAND | BANG | BIT_NOT | BIT_XOR | MINUS | PLUS | STAR =>
      op ← Next;
      pos ← CurrentPosition;
      expression ← call ParseUnaryOpExpression;
      mret (NewUnary pos op expression)
  | _ => call ParsePrimaryExpression
  end.

Definition Args_while_body (args : list Expression) : P (list Expression) :=
  t ← Peek;
  if decide (t <> RIGHT_PAREN) then
    arg ← call ParseExpression;
    t' ← Peek;
    (if decide (t' = COMMA) then Next;; mret tt else mret tt);;
    call (Args_while (args ++ [arg]))
  else mret args.

(** One iteration of the [do] loop; [Primary_do] is also entered from its condition. *)
Definition Primary_do_body (result : Expression) : P Expression :=
  t ← Peek;
  result' ← match t with
    | LEFT_PAREN =>
        Consume LEFT_PAREN;;
        args ← call (Args_while []);
        Expect RIGHT_PAREN;;
        mret (CallExpression Regular result args)
    | DOT =>
        Consume DOT;;
        member ← call ParseOperand;
        mret (MemberExpression (expr_pos result) result member)
    | LEFT_BRACKET =>
        Consume LEFT_BRACKET;;
        index ← call ParseExpression;
        Expect RIGHT_BRACKET;;
        mret (IndexExpression (expr_pos result) result index)
    | _ => mret result
    end;
  t' ← Peek;
  if IsCallOrMemberOrIndex t' then call (Primary_do result') else mret result'.

Definition ParsePrimaryExpression_body : P Expression :=
  result ← call ParseOperand;
  call (Primary_do result).

Definition ParseOperand_body : P Expression :=
  t ← Peek;
  match t with
  | NIL =>
      Consume NIL;; p ← CurrentPosition; mret (LiteralExpression p NilLiteral)
  | FALSE | TRUE =>
      t' ← Next; p ← CurrentPosition;
      mret (LiteralExpression p (BoolLiteral (bool_decide (t' = TRUE))))
  | BUILTIN_IDENTIFIER =>
      Next;;
      p ← CurrentPosition;
      name ← GetSymbol;
      Consume LEFT_PAREN;;
      args ← call (Args_while []);
      Expect RIGHT_PAREN;;
      mret (CallExpression Builtin (IdentifierExpression p name) args)
  | IDENTIFIER =>
      Next;; p ← CurrentPosition; name ← GetSymbol; mret (IdentifierExpression p name)
  | INTEGER =>
      Next;; l ← GetSymbol; p ← CurrentPosition;
      mret (LiteralExpression p (IntLiteral (strtoll l)))
  | FLOAT =>
      Next;; l ← GetSymbol; p ← CurrentPosition;
      mret (LiteralExpression p (FloatLiteral (strtof l)))
  | STRING =>
      Next;; p ← CurrentPosition; l ← GetSymbol; mret (LiteralExpression p (StringLiteral l))
  | FUN => Next;; call ParseFunctionLiteralExpression
  | LEFT_PAREN =>
      Consume LEFT_PAREN;;
      expr ← call ParseExpression;
      Expect RIGHT_PAREN;;
      mret expr
  | _ =>
      p ← CurrentPosition;
      Report_ p ExpectingExpression [];;
      Next;;
      p' ← CurrentPosition;
      mret (BadExpression p')
  end.

Definition ParseFunctionLiteralExpression_body : P Expression :=
  func_type ← call ParseFunctionType;
  body ← call ParseBlockStatement;
  mret (FunctionLiteralExpression func_type body).

(** * Types *)

Definition ParseType_body : P (option Expression) :=
  t ← Peek;
  match t with
  | NIL | IDENTIFIER =>
      Next;; position ← CurrentPosition; name ← GetSymbol;
      mret (Some (IdentifierExpression position name))
  | MAP => e ← call ParseMapType; mret (Some e)
  | LEFT_PAREN => e ← call ParseFunctionType; mret (Some e)
  | STAR => e ← call ParsePointerType; mret (Some e)
  | LEFT_BRACKET => e ← call ParseArrayType; mret (Some e)
  | STRUCT => Next;; e ← call ParseStructType; mret (Some e)
  | _ =>
      p ← CurrentPosition; Report_ p ExpectingType [];; mret None
  end.

(** The empty identifier is [None]; the scanner's identifiers are not empty. *)
Definition Params_while_body (params : list FieldDeclaration) : P (list FieldDeclaration) :=
  t ← Peek;
  if decide (t <> RIGHT_PAREN) then
    has_ident ← Matches IDENTIFIER;
    ident ← (if (has_ident : bool) then name ← GetSymbol; mret (Some name) else mret None);
    colon ← Matches COLON;
    it ← (match (colon : bool), ident with
          | false, Some name =>
              field_position ← CurrentPosition;
              mret (None, Some (IdentifierExpression field_position name))
          | _, _ => type ← call ParseType; mret (ident, type)
          end);
    field_position ← CurrentPosition;
    let '(ident', type) := it : option Identifier * option Expression in
    let params' := params ++ [mkFieldDeclaration field_position ident' type] in
    comma ← Matches COMMA;
    if (comma : bool) then call (Params_while params') else mret params'
  else mret params.

Definition ParseFunctionType_body : P Expression :=
  Consume LEFT_PAREN;;
  params ← call (Params_while []);
  Expect RIGHT_PAREN;;
  Expect ARROW;;
  ret ← call ParseType;
  position ← CurrentPosition;
  mret (FunctionTypeRepr position params ret).

Definition ParsePointerType_body : P Expression :=
  Expect STAR;;
  base ← call ParseType;
  position ← CurrentPosition;
  mret (PointerTypeRepr position base).

Definition ParseArrayType_body : P Expression :=
  Consume LEFT_BRACKET;;
  right_bracket ← Matches RIGHT_BRACKET;
  len ← (if (right_bracket : bool) then
           position ← CurrentPosition; Report_ position MissingArrayLength [];; mret None
         else
           star ← Matches STAR;
           len ← (if (star : bool) then mret None
                  else e ← call ParseExpression; mret (Some e));
           Expect RIGHT_BRACKET;;
           mret len);
  elem_type ← call ParseType;
  position ← CurrentPosition;
  mret (ArrayTypeRepr position len elem_type).

Definition Fields_while_body (fields : list FieldDeclaration) : P (list FieldDeclaration) :=
  t ← Peek;
  if decide (t <> RIGHT_BRACE) then
    Expect IDENTIFIER;;
    name ← GetSymbol;
    Expect COLON;;
    type ← call ParseType;
    field_position ← CurrentPosition;
    call (Fields_while (fields ++ [mkFieldDeclaration field_position (Some name) type]))
  else mret fields.

Definition ParseStructType_body : P Expression :=
  Consume LEFT_BRACE;;
  fields ← call (Fields_while []);
  Consume RIGHT_BRACE;;
  position ← CurrentPosition;
  mret (StructTypeRepr position fields).

Definition ParseMapType_body : P Expression :=
  Consume MAP;;
  Expect LEFT_BRACKET;;
  key_type ← call ParseType;
  Expect RIGHT_BRACKET;;
  value_type ← call ParseType;
  position ← CurrentPosition;
  mret (MapTypeRepr position key_type value_type).

(** * Tying the knot *)

Definition body {A} (p : Prod A) : P A :=
  match p with
  | Parse => Parse_body
  | ParseDeclaration => ParseDeclaration_body
  | ParseFunctionDeclaration => ParseFunctionDeclaration_body
  | ParseStructDeclaration => ParseStructDeclaration_body
  | ParseVariableDeclaration => ParseVariableDeclaration_body
  | ParseStatement => ParseStatement_body
  | ParseSimpleStatement => ParseSimpleStatement_body
  | ParseBlockStatement => ParseBlockStatement_body
  | ParseForHeader => ParseForHeader_body
  | ParseForStatement => ParseForStatement_body
  | ParseIfStatement => ParseIfStatement_body
  | ParseReturnStatement => ParseReturnStatement_body
  | ParseExpression => ParseExpression_body
  | ParseBinaryOpExpression min_prec => ParseBinaryOpExpression_body min_prec
  | ParseUnaryOpExpression => ParseUnaryOpExpression_body
  | ParsePrimaryExpression => ParsePrimaryExpression_body
  | ParseOperand => ParseOperand_body
  | ParseFunctionLiteralExpression => ParseFunctionLiteralExpression_body
  | ParseType => ParseType_body
  | ParseFunctionType => ParseFunctionType_body
  | ParsePointerType => ParsePointerType_body
  | ParseArrayType => ParseArrayType_body
  | ParseStructType => ParseStructType_body
  | ParseMapType => ParseMapType_body
  | Parse_while decls => Parse_while_body decls
  | Sync_while s => Sync_while_body s
  | Block_while statements => Block_while_body statements
  | Binary_for prec min_prec e => Binary_for_body prec min_prec e
  | Binary_while prec e => Binary_while_body prec e
  | Primary_do result => Primary_do_body result
  | Args_while args => Args_while_body args
  | Params_while params => Params_while_body params
  | Fields_while fields => Fields_while_body fields
  end.

Fixpoint parse (n : nat) {A} (p : Prod A) (s : PState) {struct n} : option (A * PState) :=
  match n with
  | O => None
  | Datatypes.S n' => body p (fun B q => parse n' q) s
  end.

End Parser.

Arguments PState S : clear implicits.
