(* ===== verification/Grammar.v ===== *)
(** The grammar of TPL, as a relation between sequences of tokens and syntax trees.

    [derives nt a ts] says that the tokens [ts] are a sentence of the nonterminal [nt]
    and that [a], a tree without positions, is its meaning.  The rules are those of the
    comments of [src/parsing/parser.cpp], with what the comments leave open made
    explicit: the levels of the binary operators, and, where two constructs stand side
    by side without a separator (the statements of a block, arguments without commas),
    the tokens that may not follow the first because they would continue it. *)
From S2P Require Import Prelude Token TokenSource Ast Parser.

(** The nonterminals, indexed by the type of their meaning. *)
Inductive NT : Type -> Type :=
  | Operand : NT Expression
  | Primary : NT Expression
  | Unary : NT Expression
  | Binary (min_prec : nat) : NT Expression
  | Args : NT (list Expression)
  | FunLit : NT Expression
  | Ty : NT Expression
  | FunTy : NT Expression
  | Param : NT FieldDeclaration
  | Params : NT (list FieldDeclaration)
  | StructTy : NT Expression
  | Fields : NT (list FieldDeclaration)
  | VarDecl : NT Declaration
  | Stmt : NT Statement
  | OptStmt : NT (option Statement)
  | OptExpr : NT (option Expression)
  | Block : NT Statement
  | Stmts : NT (list Statement)
  | Decl : NT Declaration
  | Decls : NT (list Declaration).

(** The first token of a sequence that [t] follows. *)
Definition peek_or (t : TokenType) (ts : list Lexeme) : TokenType :=
  match ts with [] => t | (t', _) :: _ => t' end.

(** A token that ends an expression in which operators bind tighter than [m]. *)
Definition expr_end (m : nat) (t : TokenType) : bool :=
  Nat.leb (GetPrecedence t) m && negb (IsCallOrMemberOrIndex t).

(** The tokens that may follow a statement. *)
Fixpoint follows (s : Statement) (t : TokenType) : bool :=
  match s with
  | ExpressionStatement _ => expr_end 1 t && negb (bool_decide (t = EQUAL))
  | AssignmentStatement _ _ _ => expr_end 1 t
  | ReturnStatement _ None => bool_decide (t = RIGHT_BRACE)
  | ReturnStatement _ (Some _) => expr_end 1 t
  | DeclarationStatement (VariableDeclaration _ _ _ None) => negb (bool_decide (t = EQUAL))
  | DeclarationStatement _ => expr_end 1 t
  | IfStatement _ _ _ None => negb (bool_decide (t = ELSE))
  | IfStatement _ _ _ (Some e) => follows e t
  | _ => true
  end.

Definition is_unary_op (t : TokenType) : bool :=
  match t with
  | AMPERSAND | BANG | BIT_NOT | BIT_XOR | MINUS | PLUS | STAR => true
  | _ => false
  end.

(** A unary operator applied to a literal it folds. *)
Definition folds (op : TokenType) (e : Expression) : bool :=
  match e, op with
  | LiteralExpression _ (BoolLiteral _), BANG => true
  | LiteralExpression _ (IntLiteral _), (PLUS | MINUS) => true
  | _, _ => false
  end.

Definition op_node (op : TokenType) (l r : Expression) : Expression :=
  if IsCompareOp op then ComparisonOpExpression no_pos op l r
  else BinaryOpExpression no_pos op l r.

Abbreviation Id := (IdentifierExpression no_pos).
Abbreviation Lit := (LiteralExpression no_pos).

Inductive derives : forall {A}, NT A -> A -> list Lexeme -> Prop :=
  (* Operands *)
  | d_nil l : derives Operand (Lit NilLiteral) [(NIL, l)]
  | d_true l : derives Operand (Lit (BoolLiteral true)) [(TRUE, l)]
  | d_false l : derives Operand (Lit (BoolLiteral false)) [(FALSE, l)]
  | d_ident l : derives Operand (Id l) [(IDENTIFIER, l)]
  | d_int l : derives Operand (Lit (IntLiteral (strtoll l))) [(INTEGER, l)]
  | d_float l : derives Operand (Lit (FloatLiteral (strtof l))) [(FLOAT, l)]
  | d_string l : derives Operand (Lit (StringLiteral l)) [(STRING, l)]
  | d_builtin l l1 l2 es ts : derives Args es ts ->
      derives Operand (CallExpression Builtin (Id l) es)
        ((BUILTIN_IDENTIFIER, l) :: (LEFT_PAREN, l1) :: ts ++ [(RIGHT_PAREN, l2)])
  | d_funlit l e ts : derives FunLit e ts -> derives Operand e ((FUN, l) :: ts)
  | d_paren l1 l2 e ts : derives (Binary 1) e ts ->
      derives Operand e ((LEFT_PAREN, l1) :: ts ++ [(RIGHT_PAREN, l2)])
  (* Calls, members and indexing *)
  | d_operand e ts : derives Operand e ts -> derives Primary e ts
  | d_call f es ts1 ts2 l1 l2 : derives Primary f ts1 -> derives Args es ts2 ->
      derives Primary (CallExpression Regular f es)
        (ts1 ++ (LEFT_PAREN, l1) :: ts2 ++ [(RIGHT_PAREN, l2)])
  | d_member e m ts1 ts2 l1 : derives Primary e ts1 -> derives Operand m ts2 ->
      derives Primary (MemberExpression no_pos e m) (ts1 ++ (DOT, l1) :: ts2)
  | d_index e i ts1 ts2 l1 l2 : derives Primary e ts1 -> derives (Binary 1) i ts2 ->
      derives Primary (IndexExpression no_pos e i)
        (ts1 ++ (LEFT_BRACKET, l1) :: ts2 ++ [(RIGHT_BRACKET, l2)])
  (* Unary and binary operators *)
  | d_primary e ts : derives Primary e ts -> derives Unary e ts
  | d_unary op l e ts : is_unary_op op = true -> folds op e = false -> derives Unary e ts ->
      derives Unary (UnaryOpExpression no_pos op e) ((op, l) :: ts)
  | d_not b l ts : derives Unary (Lit (BoolLiteral b)) ts ->
      derives Unary (Lit (BoolLiteral (negb b))) ((BANG, l) :: ts)
  | d_plus n l ts : derives Unary (Lit (IntLiteral n)) ts ->
      derives Unary (Lit (IntLiteral n)) ((PLUS, l) :: ts)
  | d_minus n l ts : derives Unary (Lit (IntLiteral n)) ts ->
      derives Unary (Lit (IntLiteral (wraps 64 (- n)))) ((MINUS, l) :: ts)
  | d_one m e ts : derives Unary e ts -> derives (Binary m) e ts
  | d_binary m p op l e1 e2 ts1 ts2 : GetPrecedence op = S p -> (m <= p)%nat ->
      derives (Binary p) e1 ts1 -> derives (Binary (S p)) e2 ts2 ->
      derives (Binary m) (op_node op e1 e2) (ts1 ++ (op, l) :: ts2)
  (* Arguments; the commas are optional *)
  | d_args_nil : derives Args [] []
  | d_args_comma e es ts1 ts2 l : derives (Binary 1) e ts1 -> derives Args es ts2 ->
      derives Args (e :: es) (ts1 ++ (COMMA, l) :: ts2)
  | d_args_cons e es ts1 ts2 : derives (Binary 1) e ts1 -> derives Args es ts2 ->
      expr_end 1 (peek_or RIGHT_PAREN ts2) = true -> peek_or RIGHT_PAREN ts2 <> COMMA ->
      derives Args (e :: es) (ts1 ++ ts2)
  (* Function literals and types *)
  | d_fun t b ts1 ts2 : derives FunTy t ts1 -> derives Block b ts2 ->
      derives FunLit (FunctionLiteralExpression t b) (ts1 ++ ts2)
  | d_ty_nil l : derives Ty (Id l) [(NIL, l)]
  | d_ty_ident l : derives Ty (Id l) [(IDENTIFIER, l)]
  | d_ty_map k v ts1 ts2 l1 l2 l3 : derives Ty k ts1 -> derives Ty v ts2 ->
      derives Ty (MapTypeRepr no_pos (Some k) (Some v))
        ((MAP, l1) :: (LEFT_BRACKET, l2) :: ts1 ++ (RIGHT_BRACKET, l3) :: ts2)
  | d_ty_fun t ts : derives FunTy t ts -> derives Ty t ts
  | d_ty_ptr t ts l : derives Ty t ts ->
      derives Ty (PointerTypeRepr no_pos (Some t)) ((STAR, l) :: ts)
  | d_ty_array n t ts1 ts2 l1 l2 :
      derives (Binary 1) n ts1 -> peek ts1 <> STAR -> derives Ty t ts2 ->
      derives Ty (ArrayTypeRepr no_pos (Some n) (Some t))
        ((LEFT_BRACKET, l1) :: ts1 ++ (RIGHT_BRACKET, l2) :: ts2)
  | d_ty_star_array t ts l1 l2 l3 : derives Ty t ts ->
      derives Ty (ArrayTypeRepr no_pos None (Some t))
        ((LEFT_BRACKET, l1) :: (STAR, l2) :: (RIGHT_BRACKET, l3) :: ts)
  | d_ty_struct t ts l : derives StructTy t ts -> derives Ty t ((STRUCT, l) :: ts)
  | d_funty ps t ts1 ts2 l1 l2 l3 : derives Params ps ts1 -> derives Ty t ts2 ->
      derives FunTy (FunctionTypeRepr no_pos ps (Some t))
        ((LEFT_PAREN, l1) :: ts1 ++ (RIGHT_PAREN, l2) :: (ARROW, l3) :: ts2)
  | d_param_named x t ts l : derives Ty t ts ->
      derives Param (mkFieldDeclaration no_pos (Some x) (Some t))
        ((IDENTIFIER, x) :: (COLON, l) :: ts)
  | d_param_colon t ts l : derives Ty t ts ->
      derives Param (mkFieldDeclaration no_pos None (Some t)) ((COLON, l) :: ts)
  | d_param_ident x : derives Param (mkFieldDeclaration no_pos None (Some (Id x))) [(IDENTIFIER, x)]
  | d_param_type t ts : derives Ty t ts -> peek ts <> IDENTIFIER ->
      derives Param (mkFieldDeclaration no_pos None (Some t)) ts
  | d_params_nil : derives Params [] []
  | d_params_one p ts : derives Param p ts -> derives Params [p] ts
  | d_params_cons p ps ts1 ts2 l : derives Param p ts1 -> derives Params ps ts2 ->
      derives Params (p :: ps) (ts1 ++ (COMMA, l) :: ts2)
  | d_struct fs ts l1 l2 : derives Fields fs ts ->
      derives StructTy (StructTypeRepr no_pos fs) ((LEFT_BRACE, l1) :: ts ++ [(RIGHT_BRACE, l2)])
  | d_fields_nil : derives Fields [] []
  | d_fields_cons x t fs ts1 ts2 l : derives Ty t ts1 -> derives Fields fs ts2 ->
      derives Fields (mkFieldDeclaration no_pos (Some x) (Some t) :: fs)
        ((IDENTIFIER, x) :: (COLON, l) :: ts1 ++ ts2)
  (* Variable declarations *)
  | d_var_type x t ts l1 l2 : derives Ty t ts ->
      derives VarDecl (VariableDeclaration no_pos x (Some t) None)
        ((VAR, l1) :: (IDENTIFIER, x) :: (COLON, l2) :: ts)
  | d_var_init x e ts l1 l2 : derives (Binary 1) e ts ->
      derives VarDecl (VariableDeclaration no_pos x None (Some e))
        ((VAR, l1) :: (IDENTIFIER, x) :: (EQUAL, l2) :: ts)
  | d_var_both x t e ts1 ts2 l1 l2 l3 : derives Ty t ts1 -> derives (Binary 1) e ts2 ->
      derives VarDecl (VariableDeclaration no_pos x (Some t) (Some e))
        ((VAR, l1) :: (IDENTIFIER, x) :: (COLON, l2) :: ts1 ++ (EQUAL, l3) :: ts2)
  (* Statements *)
  | d_expr_stmt e ts : derives (Binary 1) e ts -> derives Stmt (ExpressionStatement e) ts
  | d_assign e1 e2 ts1 ts2 l : derives (Binary 1) e1 ts1 -> derives (Binary 1) e2 ts2 ->
      derives Stmt (AssignmentStatement no_pos e1 e2) (ts1 ++ (EQUAL, l) :: ts2)
  | d_block_stmt b ts : derives Block b ts -> derives Stmt b ts
  | d_var_stmt d ts : derives VarDecl d ts -> derives Stmt (DeclarationStatement d) ts
  | d_return_nil l : derives Stmt (ReturnStatement no_pos None) [(RETURN, l)]
  | d_return e ts l : derives (Binary 1) e ts ->
      derives Stmt (ReturnStatement no_pos (Some e)) ((RETURN, l) :: ts)
  | d_if c b ts1 ts2 l1 l2 l3 : derives (Binary 1) c ts1 -> derives Block b ts2 ->
      derives Stmt (IfStatement no_pos c b None)
        ((IF, l1) :: (LEFT_PAREN, l2) :: ts1 ++ (RIGHT_PAREN, l3) :: ts2)
  | d_if_else c b s ts1 ts2 ts3 l1 l2 l3 l4 :
      derives (Binary 1) c ts1 -> derives Block b ts2 ->
      derives Stmt s ts3 -> peek ts3 = IF \/ peek ts3 = LEFT_BRACE ->
      derives Stmt (IfStatement no_pos c b (Some s))
        ((IF, l1) :: (LEFT_PAREN, l2) :: ts1 ++ (RIGHT_PAREN, l3) :: ts2 ++ (ELSE, l4) :: ts3)
  | d_for_inf b ts l : derives Block b ts ->
      derives Stmt (ForStatement no_pos None None None b) ((FOR, l) :: ts)
  | d_for_while c b ts1 ts2 l1 l2 l3 : derives (Binary 1) c ts1 -> derives Block b ts2 ->
      derives Stmt (ForStatement no_pos None (Some c) None b)
        ((FOR, l1) :: (LEFT_PAREN, l2) :: ts1 ++ (RIGHT_PAREN, l3) :: ts2)
  | d_for_in x e b ts1 ts2 ts3 l1 l2 l3 l4 :
      derives (Binary 1) x ts1 -> derives (Binary 1) e ts2 -> derives Block b ts3 ->
      derives Stmt (ForInStatement no_pos x e b)
        ((FOR, l1) :: (LEFT_PAREN, l2) :: ts1 ++ (IN, l3) :: ts2 ++ (RIGHT_PAREN, l4) :: ts3)
  | d_for i c n b ts1 ts2 ts3 ts4 l1 l2 l3 l4 l5 :
      derives OptStmt i ts1 -> derives OptExpr c ts2 -> derives OptStmt n ts3 ->
      match i with Some s => follows s SEMI | None => true end = true ->
      match n with Some s => follows s RIGHT_PAREN | None => true end = true ->
      derives Block b ts4 ->
      derives Stmt (ForStatement no_pos i c n b)
        ((FOR, l1) :: (LEFT_PAREN, l2) :: ts1 ++ (SEMI, l3) :: ts2 ++ (SEMI, l4) :: ts3 ++
         (RIGHT_PAREN, l5) :: ts4)
  | d_no_stmt : derives OptStmt None []
  | d_some_stmt s ts : derives Stmt s ts -> derives OptStmt (Some s) ts
  | d_no_expr : derives OptExpr None []
  | d_some_expr e ts : derives (Binary 1) e ts -> derives OptExpr (Some e) ts
  | d_block ss ts l1 l2 : derives Stmts ss ts ->
      derives Block (BlockStatement no_pos no_pos ss) ((LEFT_BRACE, l1) :: ts ++ [(RIGHT_BRACE, l2)])
  | d_stmts_nil : derives Stmts [] []
  | d_stmts_cons s ss ts1 ts2 : derives Stmt s ts1 -> derives Stmts ss ts2 ->
      follows s (peek_or RIGHT_BRACE ts2) = true ->
      derives Stmts (s :: ss) (ts1 ++ ts2)
  (* Files *)
  | d_fun_decl x f ts l1 : derives FunLit f ts ->
      derives Decl (FunctionDeclaration no_pos x f) ((FUN, l1) :: (IDENTIFIER, x) :: ts)
  | d_struct_decl x t ts l1 : derives StructTy t ts ->
      derives Decl (StructDeclaration no_pos x t) ((STRUCT, l1) :: (IDENTIFIER, x) :: ts)
  | d_decls_nil : derives Decls [] []
  | d_decls_cons d ds ts1 ts2 : derives Decl d ts1 -> derives Decls ds ts2 ->
      derives Decls (d :: ds) (ts1 ++ ts2).

(** A source file. *)
Definition sentence (f : File) (ts : list Lexeme) : Prop :=
  exists ds, f = mkFile no_pos ds /\ derives Decls ds ts.

(** * First tokens *)

Definition operand_first (t : TokenType) : bool :=
  match t with
  | NIL | TRUE | FALSE | IDENTIFIER | INTEGER | FLOAT | STRING | BUILTIN_IDENTIFIER | FUN
  | LEFT_PAREN => true
  | _ => false
  end.

Definition expr_first (t : TokenType) : bool := operand_first t || is_unary_op t.

Definition type_first (t : TokenType) : bool :=
  match t with NIL | IDENTIFIER | MAP | LEFT_PAREN | STAR | LEFT_BRACKET | STRUCT => true
  | _ => false end.

Definition is_token (k t : TokenType) : bool := bool_decide (t = k).

Definition stmt_first (t : TokenType) : bool :=
  expr_first t || match t with LEFT_BRACE | VAR | RETURN | IF | FOR => true | _ => false end.

(** The tokens a sentence may begin with; [Args] and the like may also be empty. *)
Definition first {A} (nt : NT A) : TokenType -> bool :=
  match nt with
  | Operand | Primary => operand_first
  | Unary | Binary _ | Args | OptExpr => expr_first
  | FunLit | FunTy => is_token LEFT_PAREN
  | Ty => type_first
  | Param | Params => fun t => type_first t || is_token COLON t
  | StructTy | Block => is_token LEFT_BRACE
  | Fields => is_token IDENTIFIER
  | VarDecl => is_token VAR
  | Stmt | OptStmt | Stmts => stmt_first
  | Decl | Decls => fun t => is_token FUN t || is_token STRUCT t
  end.

Definition nullable {A} (nt : NT A) : bool :=
  match nt with
  | Args | Params | Fields | OptStmt | OptExpr | Stmts | Decls => true
  | _ => false
  end.

(** A sentence begins with a token of [first], or is empty. *)
Definition begins {A} (nt : NT A) (ts : list Lexeme) : Prop :=
  match ts with
  | [] => nullable nt = true
  | (t, _) :: _ => first nt t = true
  end.

Lemma derives_begins {A} (nt : NT A) a ts : derives nt a ts -> begins nt ts.
Proof.
  induction 1; try reflexivity;
    repeat match goal with
    | H : begins _ ?ts |- context [?ts] => destruct ts as [|[? ?] ?]; simpl in *; try done
    | H : is_unary_op ?op = true |- _ => destruct op; simpl in H |- *; done
    end;
    unfold expr_first, stmt_first, expr_first in *; 
    repeat match goal with
    | H : is_token _ _ = true |- _ => apply bool_decide_eq_true in H; subst
    | H : _ = true |- _ => rewrite H
    end; try done; by rewrite ?orb_true_r.
Qed.

Lemma peek_app ts rest : peek (ts ++ rest) = peek_or (peek rest) ts.
Proof. by destruct ts as [|[? ?] ?]. Qed.

Lemma peek_or_cons d ts : ts <> [] -> peek_or d ts = peek ts.
Proof. by destruct ts as [|[? ?] ?]. Qed.

Lemma derives_first {A} (nt : NT A) a ts : derives nt a ts -> nullable nt = false ->
  forall rest, first nt (peek (ts ++ rest)) = true.
Proof.
  intros Hd Hn rest. apply derives_begins in Hd.
  destruct ts as [|[? ?] ?]; simpl in *; congruence.
Qed.

Lemma derives_nonempty {A} (nt : NT A) a ts : derives nt a ts -> nullable nt = false -> ts <> [].
Proof. intros Hd Hn ->. apply derives_begins in Hd. simpl in Hd. congruence. Qed.

Lemma derives_peek {A} (nt : NT A) a ts : derives nt a ts -> nullable nt = false ->
  first nt (peek ts) = true.
Proof. intros Hd Hn. pose proof (derives_first _ _ _ Hd Hn []). by rewrite app_nil_r in H. Qed.

Lemma peek_or_app d ts rest : peek rest = d -> peek_or d ts = peek (ts ++ rest).
Proof. intros <-. by rewrite peek_app. Qed.

(** * Inversions *)

Lemma derives_block_inv {A} (nt : NT A) a ts : derives nt a ts ->
  match nt in NT A return A -> Prop with
  | Block => fun b => exists ss, b = BlockStatement no_pos no_pos ss
  | _ => fun _ => True
  end a.
Proof. destruct 1; eauto. Qed.

Lemma derives_stmt_inv {A} (nt : NT A) a ts : derives nt a ts ->
  match nt in NT A return A -> Prop with
  | Stmt => fun s => forall e, s = ExpressionStatement e -> derives (Binary 1) e ts
  | _ => fun _ => True
  end a.
Proof.
  destruct 1; try done; intros e' He; try congruence.
  match goal with Hb : derives Block _ _ |- _ => destruct (derives_block_inv _ _ _ Hb) end.
  congruence.
Qed.

Lemma expr_stmt_inv e ts : derives Stmt (ExpressionStatement e) ts -> derives (Binary 1) e ts.
Proof. intros Hd. by apply (derives_stmt_inv _ _ _ Hd). Qed.
