(* ===== verification/ParserComplete.v ===== *)
(** The parser accepts every sentence of the grammar.

    [wp m s Q] is a total-correctness statement about a computation of the parser: from
    [s], with any large enough fuel, [m] ends with a result and a state that satisfy
    [Q].  [accepts] states for each nonterminal what its method does on a sentence
    followed by a permitted token, and [derives_accepts] proves it by induction on
    derivations. *)
From S2P Require Import Prelude Token TokenSource Ast ErrorReporter Parser Grammar.

#[export] Existing Instance P_ret.
#[export] Existing Instance P_bind.

Section Complete.
Context {S : Type} `{TokenStream S} (debug : bool).

Abbreviation State := (PState S).
Abbreviation P := (@Parser.P S).

Definition wp {A} (m : P A) (s : State) (Q : A -> State -> Prop) : Prop :=
  exists a s', Q a s' /\
    exists n0, forall n, (n0 <= n)%nat -> m (fun B q => parse debug n q) s = Some (a, s').

(** The parser is in front of the tokens [ts], with the errors [r] reported. *)
Definition st (s : State) (ts : list Lexeme) (r : errors) : Prop :=
  stream (scanner_ s) ts /\ reporter s = r.

Lemma wp_ret {A} (a : A) s (Q : A -> State -> Prop) : Q a s -> wp (mret a) s Q.
Proof. intros HQ. exists a, s. split; [done|]. by exists 0%nat. Qed.

Lemma wp_bind {A B} (m : P A) (k : A -> P B) s Q :
  wp m s (fun a s' => wp (k a) s' Q) -> wp (mbind k m) s Q.
Proof.
  intros (a & s1 & (b & s2 & HQ & n2 & H2) & n1 & H1). exists b, s2. split; [done|].
  exists (n1 + n2)%nat. intros n Hn. unfold mbind, P_bind. rewrite H1 by lia. apply H2. lia.
Qed.

Lemma wp_call {A} (p : Prod A) s Q : wp (body debug p) s Q -> wp (call p) s Q.
Proof.
  intros (a & s' & HQ & n0 & Hn). exists a, s'. split; [done|]. exists (Datatypes.S n0).
  intros [|n] Hle; [lia|]. apply Hn. lia.
Qed.

Lemma wp_peek s ts r Q : st s ts r -> Q (peek ts) s -> wp Peek s Q.
Proof.
  intros [Hs _] HQ. exists (peek ts), s. split; [done|]. exists 0%nat. intros n _.
  unfold Peek. by rewrite (stream_peek _ _ Hs).
Qed.

Lemma wp_next s t l ts r (Q : TokenType -> State -> Prop) :
  st s ((t, l) :: ts) r ->
  (forall s', st s' ts r -> ts_literal (scanner_ s') = l -> Q t s') -> wp Next s Q.
Proof.
  intros [Hs Hr] HQ. destruct (stream_next _ _ _ _ Hs) as (sc & Hn & Hl & Hs').
  exists t, (mkPState sc (reporter s)). split; [by apply HQ|]. exists 0%nat. intros n _.
  unfold Next. by rewrite Hn.
Qed.

Lemma wp_expect t s l ts r (Q : unit -> State -> Prop) :
  st s ((t, l) :: ts) r ->
  (forall s', st s' ts r -> ts_literal (scanner_ s') = l -> Q tt s') -> wp (Expect t) s Q.
Proof.
  intros Hs HQ. apply wp_bind. eapply wp_next; [done|]. intros.
  rewrite decide_False by auto. by apply wp_ret, HQ.
Qed.

Lemma wp_consume t s l ts r (Q : unit -> State -> Prop) :
  st s ((t, l) :: ts) r ->
  (forall s', st s' ts r -> ts_literal (scanner_ s') = l -> Q tt s') ->
  wp (Consume debug t) s Q.
Proof.
  intros Hs HQ. apply wp_bind. eapply wp_next; [done|]. intros.
  rewrite bool_decide_eq_false_2, andb_false_r by auto. by apply wp_ret, HQ.
Qed.

Lemma wp_matches_yes t s l ts r (Q : bool -> State -> Prop) :
  st s ((t, l) :: ts) r ->
  (forall s', st s' ts r -> ts_literal (scanner_ s') = l -> Q true s') ->
  wp (Matches debug t) s Q.
Proof.
  intros Hs HQ. apply wp_bind. eapply wp_peek; [done|]. simpl.
  rewrite decide_False by auto. apply wp_bind. eapply wp_consume; [done|]. intros.
  by apply wp_ret, HQ.
Qed.

Lemma wp_matches_no t s ts r (Q : bool -> State -> Prop) :
  st s ts r -> peek ts <> t -> Q false s -> wp (Matches debug t) s Q.
Proof.
  intros Hs Ht HQ. apply wp_bind. eapply wp_peek; [done|]. rewrite decide_True by done.
  by apply wp_ret.
Qed.

Lemma wp_symbol s (Q : _ -> State -> Prop) : Q (ts_literal (scanner_ s)) s -> wp GetSymbol s Q.
Proof. intros HQ. eexists _, s. split; [done|]. by exists 0%nat. Qed.

Lemma wp_position s (Q : _ -> State -> Prop) :
  Q (ts_position (scanner_ s)) s -> wp CurrentPosition s Q.
Proof. intros HQ. eexists _, s. split; [done|]. by exists 0%nat. Qed.

(** * What each method does on a sentence *)

Definition parses {B} (p : P B) (R : B -> Prop) (ok : TokenType -> Prop) (ts : list Lexeme)
    : Prop :=
  forall s r rest Q, st s (ts ++ rest) r -> ok (peek rest) ->
    (forall b s', R b -> st s' rest r -> Q b s') -> wp p s Q.

Definition any (t : TokenType) : Prop := True.

(** The rest of the loop over precedences, from inside the loop at any precedence that
    is still high enough. *)
Definition precedences_left (m : nat) (t : TokenType) (e : Expression) (s : State)
    (Q : Expression -> State -> Prop) : Prop :=
  ((GetPrecedence t <= m)%nat -> Q e s) /\
  forall c, (m < c)%nat -> (GetPrecedence t <= c)%nat ->
    wp (call (Binary_while c e)) s (fun e' s' => wp (call (Binary_for (c - 1) m e')) s' Q).

(** The rest of the loop over calls, members and indexes. *)
Definition postfix_left (t : TokenType) (e : Expression) (s : State)
    (Q : Expression -> State -> Prop) : Prop :=
  if IsCallOrMemberOrIndex t then wp (call (Primary_do e)) s Q else Q e s.

Definition binary_parses (k : nat) (e : Expression) (ts : list Lexeme) : Prop :=
  forall m s r rest Q, (m <= k)%nat -> st s (ts ++ rest) r ->
    IsCallOrMemberOrIndex (peek rest) = false -> (GetPrecedence (peek rest) <= k + 1)%nat ->
    (forall e' s', strip e' = e -> st s' rest r -> precedences_left m (peek rest) e' s' Q) ->
    wp (call (ParseBinaryOpExpression m)) s Q.

Definition stmt_dispatch (t : TokenType) : P Statement :=
  match t with
  | LEFT_BRACE => call ParseBlockStatement
  | FOR => call ParseForStatement
  | IF => call ParseIfStatement
  | RETURN => call ParseReturnStatement
  | VAR => var_decl ← call ParseVariableDeclaration; mret (DeclarationStatement var_decl)
  | _ => call ParseSimpleStatement
  end.

Definition stmt_parses (st : Statement) (ts : list Lexeme) : Prop :=
  parses (stmt_dispatch (peek ts)) (fun s' => strip_stmt s' = st)
    (fun t => follows st t = true) ts.

(** After a parameter the loop looks for a comma. *)
Definition params_rest (params : list FieldDeclaration) (s : State)
    (Q : list FieldDeclaration -> State -> Prop) : Prop :=
  wp (Matches debug COMMA) s (fun comma s' =>
    wp (if (comma : bool) then call (Params_while params) else mret params) s' Q).

Definition accepts {A} (nt : NT A) : A -> list Lexeme -> Prop :=
  match nt in NT A return A -> list Lexeme -> Prop with
  | Operand => fun e => parses (call ParseOperand) (fun e' => strip e' = e) any
  | Primary => fun e ts => forall s r rest Q, st s (ts ++ rest) r ->
      (forall e' s', strip e' = e -> st s' rest r -> postfix_left (peek rest) e' s' Q) ->
      wp (call ParsePrimaryExpression) s Q
  | Unary => fun e => parses (call ParseUnaryOpExpression) (fun e' => strip e' = e)
                        (fun t => IsCallOrMemberOrIndex t = false)
  | Binary k => binary_parses k
  | Args => fun es ts => forall acc,
      parses (call (Args_while acc)) (fun r => map strip r = map strip acc ++ es)
        (fun t => t = RIGHT_PAREN) ts
  | FunLit => fun e => parses (call ParseFunctionLiteralExpression) (fun e' => strip e' = e) any
  | Ty => fun e => parses (call ParseType) (fun e' => option_map strip e' = Some e) any
  | FunTy => fun e => parses (call ParseFunctionType) (fun e' => strip e' = e) any
  | Param => fun p ts => forall acc s r rest Q, st s (ts ++ rest) r -> peek rest <> COLON ->
      (forall p' s', strip_field p' = p -> st s' rest r ->
         params_rest (acc ++ [p']) s' Q) ->
      wp (call (Params_while acc)) s Q
  | Params => fun ps ts => forall acc,
      parses (call (Params_while acc)) (fun r => map strip_field r = map strip_field acc ++ ps)
        (fun t => t = RIGHT_PAREN) ts
  | StructTy => fun e => parses (call ParseStructType) (fun e' => strip e' = e) any
  | Fields => fun fs ts => forall acc,
      parses (call (Fields_while acc)) (fun r => map strip_field r = map strip_field acc ++ fs)
        (fun t => t = RIGHT_BRACE) ts
  | VarDecl => fun d => parses (call ParseVariableDeclaration) (fun d' => strip_decl d' = d)
                          (fun t => follows (DeclarationStatement d) t = true)
  | Stmt => stmt_parses
  | OptStmt => fun o ts => match o with None => ts = [] | Some s => derives Stmt s ts /\ stmt_parses s ts end
  | OptExpr => fun o ts => match o with None => ts = []
      | Some e => derives (Binary 1) e ts /\ binary_parses 1 e ts end
  | Block => fun b => parses (call ParseBlockStatement) (fun b' => strip_stmt b' = b) any
  | Stmts => fun ss ts => forall acc,
      parses (call (Block_while acc)) (fun r => map strip_stmt r = map strip_stmt acc ++ ss)
        (fun t => t = RIGHT_BRACE) ts
  | Decl => fun d => parses (call ParseDeclaration)
                       (fun d' => option_map strip_decl d' = Some d) any
  | Decls => fun ds ts => forall acc,
      parses (call (Parse_while acc)) (fun r => map strip_decl r = map strip_decl acc ++ ds)
        (fun t => t = EOS) ts
  end.


(** The first tokens of the sentences of the context. *)
Ltac firsts :=
  repeat match goal with
  | Hd : derives ?nt _ ?ts |- _ =>
      lazymatch goal with
      | _ : forall rest, first nt (peek (ts ++ rest)) = true |- _ => fail
      | _ => pose proof (derives_first nt _ ts Hd eq_refl)
      end
  end.

(** * Automation *)

Ltac norm_st :=
  repeat match goal with
  | Hs : st _ _ _ |- _ => progress (rewrite <- ?app_assoc in Hs; cbn [app] in Hs)
  end.

Ltac solve_tok :=
  cbn [peek peek_or fst snd];
  first
  [ done | congruence | by intros ? | by auto | intros ?; congruence
  | match goal with
    | F : forall rest, first _ (peek (?ts ++ rest)) = true |- context [peek (?ts ++ ?rest)] =>
        specialize (F rest); destruct (peek (ts ++ rest)); first [done | by intros ?]
    end ].

(** Run the computation up to the next call of a production. *)
Ltac run1 :=
  match goal with
  | |- wp (mbind _ _) _ _ => apply wp_bind
  | |- wp (mret _) _ _ => apply wp_ret
  | |- wp (match decide ?P with _ => _ end) _ _ =>
      first [rewrite (decide_True (P := P)) by solve_tok | rewrite (decide_False (P := P)) by solve_tok]
  | |- wp CurrentPosition _ _ => apply wp_position
  | |- wp GetSymbol _ _ => apply wp_symbol
  | Hs : st ?s _ _ |- wp Peek ?s _ => eapply wp_peek; [exact Hs|]; cbn [peek]
  | Hs : st ?s ((_, _) :: _) _ |- wp Next ?s _ => eapply wp_next; [exact Hs|]; clear Hs; intros ? Hs ?
  | Hs : st ?s ((_, _) :: _) _ |- wp (Expect _) ?s _ =>
      eapply wp_expect; [exact Hs|]; clear Hs; intros ? Hs ?
  | Hs : st ?s ((_, _) :: _) _ |- wp (Consume _ _) ?s _ =>
      eapply wp_consume; [exact Hs|]; clear Hs; intros ? Hs ?
  | Hs : st ?s ((?t, _) :: _) _ |- wp (Matches _ ?t) ?s _ =>
      eapply wp_matches_yes; [exact Hs|]; clear Hs; intros ? Hs ?
  | Hs : st ?s _ _ |- wp (Matches _ _) ?s _ =>
      eapply wp_matches_no; [exact Hs|solve_tok|]
  end.
Ltac run := norm_st; cbv beta; repeat (run1; cbv beta iota zeta).

(** Enter the body of a production. *)
Ltac head_of m := lazymatch m with ?f _ => head_of f | _ => m end.
Ltac enter :=
  apply wp_call; cbn [body];
  match goal with |- wp ?m _ _ => let h := head_of m in unfold h end.

Ltac options :=
  repeat match goal with
  | Ho : option_map _ ?b = Some _ |- _ => destruct b; simpl in Ho; [|discriminate Ho]
  end.

(** Run a production by its specification. *)
Ltac by_spec H :=
  run; eapply H; [eassumption|try solve_tok|]; [..|intros ? ? ? ?]; cbn [app peek]; options; run.

(** * Expressions and statements *)

Lemma precedences_done m rest e s r (Q : Expression -> State -> Prop) :
  st s rest r -> (GetPrecedence (peek rest) <= m)%nat -> Q e s ->
  precedences_left m (peek rest) e s Q.
Proof.
  intros Hs Hp HQ. split; [done|]. intros c. induction c as [|c IH]; intros Hm Hc; [lia|].
  enter. run. rewrite (proj2 (Nat.eqb_neq _ _)) by lia. run.
  enter. replace (Datatypes.S c - 1)%nat with c by lia.
  destruct (Nat.ltb_spec m c) as [Hlt|]; [|run; done].
  run. destruct (Nat.ltb_spec (GetPrecedence (peek rest)) m); [run; done|].
  apply wp_bind, IH; lia.
Qed.

Lemma binary_done k m e ts : binary_parses k e ts -> (m <= k)%nat ->
  parses (call (ParseBinaryOpExpression m)) (fun e' => strip e' = e)
    (fun t => expr_end m t = true) ts.
Proof.
  intros Hb Hm s r rest Q Hs Hend HQ. apply andb_true_iff in Hend as [Hp Hc].
  apply Nat.leb_le in Hp. apply negb_true_iff in Hc.
  eapply Hb; [done|done|done|lia|]. intros e' s' He Hs'.
  eapply precedences_done; [done|done|auto].
Qed.

Lemma expression_parses e ts : binary_parses 1 e ts ->
  parses (call ParseExpression) (fun e' => strip e' = e) (fun t => expr_end 1 t = true) ts.
Proof.
  intros Hb s r rest Q Hs Hend HQ. enter. eapply binary_done; eauto.
Qed.

Lemma statement_parses s ts : stmt_parses s ts -> ts <> [] ->
  parses (call ParseStatement) (fun s' => strip_stmt s' = s) (fun t => follows s t = true)
    ts.
Proof.
  intros Hp Hts s0 r rest Q Hs Hok HQ. enter. run.
  rewrite peek_app, peek_or_cons by done. by eapply (Hp s0 r rest).
Qed.

Lemma strip_NewUnary pos op e : folds op (strip e) = false ->
  strip (NewUnary pos op e) = UnaryOpExpression no_pos op (strip e).
Proof. destruct e as [| | | | | | |? []| | | | | | | ], op; by intros. Qed.

Lemma postfix_left_loop t e s r rest Q : st s rest r -> t = peek rest ->
  postfix_left t e s Q -> wp (call (Primary_do e)) s Q.
Proof.
  intros Hs -> HQ. unfold postfix_left in HQ.
  destruct (IsCallOrMemberOrIndex (peek rest)) eqn:Hc; [done|]. enter.
  run. destruct (peek rest) eqn:Hp; try done; run; rewrite Hp; simpl; by run.
Qed.

Lemma postfix_left_intro t e s Q : postfix_left t e s Q ->
  wp (if IsCallOrMemberOrIndex t then call (Primary_do e) else mret e) s Q.
Proof. unfold postfix_left. destruct (IsCallOrMemberOrIndex t); [done|apply wp_ret]. Qed.

Lemma precedences_start m e s r rest Q : st s rest r -> precedences_left m (peek rest) e s Q ->
  wp (call (Binary_for (GetPrecedence (peek rest)) m e)) s Q.
Proof.
  intros Hs [HQ1 HQ2]. enter.
  destruct (Nat.ltb_spec m (GetPrecedence (peek rest))); [|run; auto].
  run. rewrite (proj2 (Nat.ltb_ge _ _)) by lia. apply wp_bind, HQ2; lia.
Qed.

(** From inside the loop at a higher precedence, down to the operator's. *)
Lemma precedences_down m p e s r rest (Q : Expression -> State -> Prop) :
  st s rest r -> GetPrecedence (peek rest) = p -> (m < p)%nat ->
  wp (call (Binary_while p e)) s (fun e' s' => wp (call (Binary_for (p - 1) m e')) s' Q) ->
  precedences_left m (peek rest) e s Q.
Proof.
  intros Hs Hp Hm HQ. split; [lia|]. intros c Hc1 Hc2. rewrite Hp in Hc2.
  induction Hc2 as [|c Hle IH]; [done|].
  enter. run. rewrite (proj2 (Nat.eqb_neq _ _)) by lia. run.
  enter. replace (Datatypes.S c - 1)%nat with c by lia.
  rewrite (proj2 (Nat.ltb_lt _ _)) by lia. run. rewrite (proj2 (Nat.ltb_ge _ _)) by lia.
  apply wp_bind, IH. lia.
Qed.

Lemma unary_parses op l e e' ts : is_unary_op op = true ->
  parses (call ParseUnaryOpExpression) (fun x => strip x = e)
    (fun t => IsCallOrMemberOrIndex t = false) ts ->
  (forall pos x, strip x = e -> strip (NewUnary pos op x) = e') ->
  parses (call ParseUnaryOpExpression) (fun x => strip x = e')
    (fun t => IsCallOrMemberOrIndex t = false) ((op, l) :: ts).
Proof.
  intros Hop IH Hnew s r rest Q Hs Hok HQ. enter. run.
  destruct op; try done; run; by_spec IH; run; apply HQ; auto.
Qed.

(** Case analysis on the first token of a sentence. *)
Ltac on_first :=
  match goal with
  | F : forall rest, first _ (peek (?ts ++ rest)) = true |- context [peek (?ts ++ ?rest)] =>
      let E := fresh in
      pose proof (F rest) as E; destruct (peek (ts ++ rest)) eqn:?; try discriminate E; clear E
  end.

Lemma simple_dispatch t : expr_first t = true ->
  stmt_dispatch t = call ParseSimpleStatement.
Proof. by destruct t. Qed.

Lemma expr_stmt_parses e ts : binary_parses 1 e ts -> expr_first (peek ts) = true ->
  stmt_parses (ExpressionStatement e) ts.
Proof.
  intros Hb Hf s r rest Q Hs Hok HQ. rewrite simple_dispatch by done.
  apply andb_true_iff in Hok as [Hend Heq]. apply negb_true_iff, bool_decide_eq_false in Heq.
  enter. by_spec (expression_parses _ _ Hb). apply HQ; [|done]. simpl. congruence.
Qed.

Lemma wp_MakeExpr x e s (Q : option Expression -> State -> Prop) :
  strip_stmt x = ExpressionStatement e ->
  (forall e', strip e' = e -> Q (Some e') s) -> wp (MakeExpr (Some x)) s Q.
Proof. destruct x; intros; simplify_eq/=. run. auto. Qed.

(** An expression in the header of a loop, which is parsed as a statement. *)
Lemma header_expr_parses e ts : derives (Binary 1) e ts -> binary_parses 1 e ts ->
  parses (call ParseStatement) (fun s' => strip_stmt s' = ExpressionStatement e)
    (fun t => follows (ExpressionStatement e) t = true) ts.
Proof.
  intros Hd Hb. apply statement_parses; [|by eapply derives_nonempty].
  apply expr_stmt_parses; [done|]. by apply (derives_peek _ _ _ Hd).
Qed.

(** An optional statement in the header of a loop, up to the token after it. *)
Lemma opt_stmt_parses d o ts l s r rest (Q : option Statement -> State -> Prop) :
  match o with Some x => derives Stmt x ts /\ stmt_parses x ts /\ follows x d = true
          | None => ts = [] end ->
  stmt_first d = false -> st s (ts ++ (d, l) :: rest) r ->
  (forall o' s', option_map strip_stmt o' = o -> st s' ((d, l) :: rest) r -> Q o' s') ->
  wp (if decide (peek (ts ++ (d, l) :: rest) <> d)
      then x ← call ParseStatement; mret (Some x) else mret None) s Q.
Proof.
  intros Ho Hd Hs HQ. destruct o as [x|]; [|subst ts; by run; apply HQ].
  destruct Ho as (Hx & Hp & Hf). firsts. rewrite decide_True.
  - by_spec (statement_parses _ _ Hp (derives_nonempty _ _ _ Hx eq_refl)).
    apply HQ; [simpl; congruence|done].
  - intros Heq. specialize (H1 ((d, l) :: rest)). rewrite Heq in H1. simpl in H1. congruence.
Qed.

Lemma wp_MakeExpr_opt o c s (Q : option Expression -> State -> Prop) :
  option_map strip_stmt o = option_map ExpressionStatement c ->
  (forall e', option_map strip e' = c -> Q e' s) -> wp (MakeExpr o) s Q.
Proof.
  destruct o as [x|], c as [e|]; intros Ho HQ; simplify_eq/=; [|run; by apply HQ].
  eapply wp_MakeExpr; [done|]. intros e' <-. by apply HQ.
Qed.

(** Evaluate the header of a loop. *)
Ltac header := cbn [GetForInElements Infinite Standard ForIn fh_init fh_cond fh_next fh_target fh_iter]; run.

(** Conclude from a result with the right tree. *)
Ltac finish :=
  match goal with
  | HQ : forall b s', _ -> st s' _ _ -> ?Q b s' |- ?Q _ _ => apply HQ
  | HQ : forall b s', _ -> st s' _ _ -> params_rest _ s' ?Q |- _ => eapply HQ
  | HQ : forall b s', _ -> st s' _ _ -> postfix_left _ b s' ?Q |- _ =>
      apply postfix_left_intro, HQ
  end;
  [ repeat match goal with
    | Hm : map _ _ = _ |- _ => progress rewrite ?map_app, <- ?app_assoc in Hm
    end;
    rewrite ?app_nil_r, ?map_app; simpl in *; congruence
  | done ].

Ltac start :=
  firsts; try match goal with |- forall _ : list _, parses _ _ _ _ => intros acc end;
  intros ?s r rest Q Hs Hok HQ; enter; run.

(** Run a production by an induction hypothesis. *)
Ltac by_hyp H := eapply H; [eassumption|solve_tok|]; intros ? ? ? ?; cbn [app peek]; options; run.
Ltac by_ih :=
  match goal with
  | IH : parses _ _ _ _ |- wp (call _) _ _ => by_hyp IH
  | IH : forall _, parses _ _ _ _ |- wp (call _) _ _ => by_hyp IH
  | IH : binary_parses _ _ _ |- wp (call ParseExpression) _ _ =>
      by_hyp (expression_parses _ _ IH)
  end.

(** A production whose body follows the rule. *)
Ltac by_rule := start; try on_first; do 6 (try first [by_ih; header | enter; run]); finish.

(** ** The rules that need an argument of their own *)

Lemma binary_op_parses m p op l e1 e2 ts1 ts2 :
  GetPrecedence op = Datatypes.S p -> (m <= p)%nat ->
  binary_parses p e1 ts1 -> binary_parses (Datatypes.S p) e2 ts2 ->
  binary_parses m (op_node op e1 e2) (ts1 ++ (op, l) :: ts2).
Proof.
  intros Hop Hmp IH1 IH2 m' s r rest Q Hm Hs Hc Hp HQ. norm_st.
  eapply IH1; [|done|..]; [lia|by destruct op|cbn [peek]; lia|].
  intros x s' Hx Hs'. eapply precedences_down; [done|exact Hop|lia|]. run. enter. run.
  rewrite Hop, Nat.eqb_refl. run.
  eapply (binary_done _ _ _ _ IH2); [done|done| |].
  { unfold expr_end. rewrite Hc, andb_true_r. apply Nat.leb_le. lia. }
  intros y s'' Hy Hs''. run. eapply HQ; [|done|lia|lia].
  unfold op_node. destruct (IsCompareOp op); simpl; congruence.
Qed.

Lemma if_else_parses c b s ts1 ts2 ts3 l1 l2 l3 l4 :
  binary_parses 1 c ts1 -> parses (call ParseBlockStatement) (fun b' => strip_stmt b' = b) any ts2 ->
  stmt_parses s ts3 -> ts3 <> [] -> peek ts3 = IF \/ peek ts3 = LEFT_BRACE ->
  stmt_parses (IfStatement no_pos c b (Some s))
    ((IF, l1) :: (LEFT_PAREN, l2) :: ts1 ++ (RIGHT_PAREN, l3) :: ts2 ++ (ELSE, l4) :: ts3).
Proof.
  intros IH1 IH2 IH3 Hne Hp. start. by_ih. by_ih. unfold stmt_parses in IH3.
  rewrite peek_app, peek_or_cons by done.
  destruct Hp as [Hp|Hp]; rewrite Hp in *; run; by_ih; finish.
Qed.

Lemma for_parses i c n b ts1 ts2 ts3 ts4 l1 l2 l3 l4 l5 :
  accepts OptStmt i ts1 -> accepts OptExpr c ts2 -> accepts OptStmt n ts3 ->
  match i with Some s => follows s SEMI | None => true end = true ->
  match n with Some s => follows s RIGHT_PAREN | None => true end = true ->
  accepts Block b ts4 ->
  stmt_parses (ForStatement no_pos i c n b)
    ((FOR, l1) :: (LEFT_PAREN, l2) :: ts1 ++ (SEMI, l3) :: ts2 ++ (SEMI, l4) :: ts3 ++
     (RIGHT_PAREN, l5) :: ts4).
Proof.
  intros IH1 IH2 IH3 Hi Hn IH4. cbn [accepts] in *. start. enter. run.
  eapply (opt_stmt_parses SEMI i ts1); [|done|done|].
  { destruct i; [by destruct IH1|done]. }
  intros i' s2 Hi' Hs2. run.
  eapply (opt_stmt_parses SEMI (option_map ExpressionStatement c) ts2); [|done|done|].
  { destruct c as [e|]; [|done]. destruct IH2 as [Hd He]. split; [|split; [|done]].
    - by apply d_expr_stmt.
    - apply expr_stmt_parses; [done|]. by apply (derives_peek _ _ _ Hd). }
  intros c' s3 Hc Hs3. run.
  eapply (opt_stmt_parses RIGHT_PAREN n ts3); [|done|done|].
  { destruct n; [by destruct IH3|done]. }
  intros n' s4 Hn' Hs4. run. eapply wp_MakeExpr_opt; [done|]. intros e' He. run.
  by_ih. header. finish.
Qed.

Lemma stmts_cons_parses s ss ts1 ts2 :
  derives Stmt s ts1 -> stmt_parses s ts1 -> accepts Stmts ss ts2 ->
  follows s (peek_or RIGHT_BRACE ts2) = true -> accepts Stmts (s :: ss) (ts1 ++ ts2).
Proof.
  intros Hd IH1 IH2 Hf. cbn [accepts] in *. start.
  rewrite (peek_or_app _ _ rest) in Hf by done.
  rewrite !bool_decide_eq_true_2 by solve_tok. cbn [andb]. run.
  by_hyp (statement_parses _ _ IH1 (derives_nonempty _ _ _ Hd eq_refl)). by_ih. finish.
Qed.

(** A suffix of a primary expression. *)
Ltac postfix IH :=
  intros s r rest Q Hs HQ; norm_st; eapply IH; [done|]; intros e' s' He Hs';
  unfold postfix_left at 1; cbn [peek]; enter; run; by_ih; finish.

(** A unary operator and its operand. *)
Ltac unary :=
  eapply unary_parses; [done|done|]; intros pos x Hx;
  destruct x as [| | | | | | |? []| | | | | | | ]; simpl in *; congruence.

(** A parameter. *)
Ltac params_finish :=
  match goal with
  | HQ : forall p' s', _ -> st s' _ _ -> params_rest _ s' ?Q |- wp _ _ _ =>
      eapply HQ; [simpl in *; congruence|done]
  end.
Ltac parameter := intros acc; start; try by_ih; params_finish.

(** A statement that begins with an expression, a block or a declaration. *)
Ltac dispatch :=
  firsts; intros s r rest Q Hs Hok HQ;
  match goal with
  | F : forall rest, first _ (peek (?ts ++ rest)) = true |- wp (stmt_dispatch (peek ?ts)) _ _ =>
      specialize (F []); rewrite app_nil_r in F; apply bool_decide_eq_true in F; rewrite F
  end; cbn [stmt_dispatch]; run; by_ih; finish.

Theorem derives_accepts {A} (nt : NT A) a ts : derives nt a ts -> accepts nt a ts.
Proof.
  induction 1; cbn [accepts] in *; try solve [by_rule | postfix IHderives1 | unary | dispatch];
    try done.
  - intros s r rest Q Hs HQ. enter. run. by_ih. eapply postfix_left_loop; eauto.
  - start.
    assert (wp (call ParsePrimaryExpression) s Q).
    { eapply IHderives; [done|]. intros. unfold postfix_left. rewrite Hok. auto. }
    pose proof (derives_first _ _ _ H1 eq_refl rest). by destruct (peek (ts ++ rest)).
  - eapply unary_parses; [done|done|]. intros pos x <-. by apply strip_NewUnary.
  - intros m' s r rest Q Hm Hs Hc Hp HQ. enter. run. by_ih. eapply precedences_start; eauto.
  - eapply binary_op_parses; eauto.
  - start. rewrite !(peek_or_app _ _ rest) in * by done. by_ih. by_ih. finish.
  - start. on_first. run. by_ih. finish.
  - start. enter. run.
    assert (peek (ts1 ++ (RIGHT_BRACKET, l2) :: ts2 ++ rest) <> STAR).
    { rewrite peek_app, peek_or_cons by eauto using derives_nonempty. done. }
    run. by_ih. by_ih. finish.
  - parameter.
  - parameter.
  - parameter.
  - intros acc. start.
    assert (peek (ts ++ rest) <> IDENTIFIER).
    { rewrite peek_app, peek_or_cons by eauto using derives_nonempty. done. }
    run. by_ih. params_finish.
  - intros acc s r rest Q Hs Hok HQ. norm_st. eapply IHderives; [done|by rewrite Hok|].
    intros p' s' Hp Hs'. unfold params_rest. run. finish.
  - intros acc s r rest Q Hs Hok HQ. norm_st. eapply IHderives1; [done|done|].
    intros p' s' Hp Hs'. unfold params_rest. run. by_ih. finish.
  - start. apply negb_true_iff, bool_decide_eq_false in Hok. by_ih. finish.
  - apply expr_stmt_parses; [done|]. by apply (derives_peek (Binary 1) e).
  - firsts. intros s r rest Q Hs Hok HQ. norm_st. rewrite simple_dispatch by apply H2.
    enter. run. by_ih. by_ih. finish.
  - start. apply bool_decide_eq_true in Hok. rewrite Hok. run. finish.
  - start. apply negb_true_iff, bool_decide_eq_false in Hok. by_ih. by_ih. finish.
  - eapply if_else_parses; eauto using derives_nonempty.
  - start. enter. run. by_hyp (header_expr_parses _ _ H1_ IHderives1).
    eapply wp_MakeExpr; [eassumption|]. intros c' Hc'. run. by_ih. header. finish.
  - start. enter. run. by_hyp (header_expr_parses _ _ H1_ IHderives1).
    eapply wp_MakeExpr; [eassumption|]. intros c' Hc'. run.
    by_hyp (header_expr_parses _ _ H1_0 IHderives2).
    eapply wp_MakeExpr; [eassumption|]. intros e' He'. run. by_ih. header. finish.
  - by eapply for_parses.
  - start. rewrite Hok. simpl. run. finish.
  - by eapply stmts_cons_parses.
Qed.

End Complete.
