(* ===== verification/ParserSound.v ===== *)
(** What the parser accepts without an error is a sentence of the grammar.

    [wlp m r s Q] is a partial-correctness statement about a computation of the parser
    with some fuel: if [m] ends with no error beyond [r], its result and state satisfy
    [Q].  Reported errors are never withdrawn ([parse_grows]), so a run without an error
    has none at any of its steps.  [derives_spec] states for each production what an
    error-free run of it has consumed, and [parse_sound] proves it by induction on the
    fuel.  The parser is the one compiled with assertions, whose [Consume] checks the
    token it consumes. *)
From S2P Require Import Prelude Token TokenSource Ast ErrorReporter Parser Grammar.

#[local] Existing Instance P_ret.
#[local] Existing Instance P_bind.

(** * What every production preserves *)

Create HintDb preserves.
Create HintDb parser_sound.

Section Preserves.
Context {S : Type} `{TokenSource S} (debug : bool).

Abbreviation State := (PState S).
Abbreviation P := (@Parser.P S).

(** A preorder that reading a token and reporting an error respect. *)
Context (R : State -> State -> Prop) `{!PreOrder R}.
Hypothesis R_next : forall s t sc, ts_next (scanner_ s) = Some (t, sc) -> R s (mkPState sc (reporter s)).
Hypothesis R_report : forall s es, R s (mkPState (scanner_ s) (reporter s ++ es)).

Definition preserves {A} (m : P A) : Prop :=
  forall self : Runner, (forall B q s b s', self B q s = Some (b, s') -> R s s') ->
  forall s a s', m self s = Some (a, s') -> R s s'.

Lemma preserves_ret {A} (a : A) : preserves (mret a).
Proof. intros self _ s a' s' Hr. cbv in Hr. by simplify_eq. Qed.

Lemma preserves_bind {A B} (m : P A) (k : A -> P B) :
  preserves m -> (forall a, preserves (k a)) -> preserves (mbind k m).
Proof.
  intros Hm Hk self Hself s b s' Hr. unfold mbind, P_bind in Hr.
  destruct (m self s) as [[a s1]|] eqn:Hms; [|done].
  transitivity s1; [by eapply Hm|by eapply Hk].
Qed.

Lemma preserves_call {A} (p : Prod A) : preserves (call p).
Proof. intros self Hself s a s'. apply Hself. Qed.

Lemma preserves_Next : preserves Next.
Proof.
  intros self _ s t s'. unfold Next. destruct (ts_next _) as [[? ?]|] eqn:Hn; intros; simplify_eq.
  by eapply R_next.
Qed.

Lemma preserves_Peek : preserves Peek.
Proof. intros self _ s t s' Hr. cbv in Hr. by simplify_eq. Qed.
Lemma preserves_CurrentPosition : preserves CurrentPosition.
Proof. intros self _ s t s' Hr. cbv in Hr. by simplify_eq. Qed.
Lemma preserves_GetSymbol : preserves GetSymbol.
Proof. intros self _ s t s' Hr. cbv in Hr. by simplify_eq. Qed.
Lemma preserves_Report p id args : preserves (Report_ p id args).
Proof. intros self _ s t s' Hr. unfold Report_, Report in Hr. by simplify_eq. Qed.

#[local] Hint Resolve preserves_ret preserves_call preserves_Next preserves_Peek
  preserves_CurrentPosition preserves_GetSymbol preserves_Report : preserves.

Ltac walk :=
  repeat first
  [ match goal with |- forall _, preserves _ => intros ? end
  | solve [auto with preserves]
  | apply preserves_bind
  | match goal with |- preserves (match ?x with _ => _ end) => destruct x end ].

Lemma preserves_Expect t : preserves (Expect t).
Proof. unfold Expect, report_unexpected. walk. Qed.
Lemma preserves_Consume t : preserves (Consume debug t).
Proof. unfold Consume, report_unexpected. walk. Qed.
#[local] Hint Resolve preserves_Expect preserves_Consume : preserves.
Lemma preserves_Matches t : preserves (Matches debug t).
Proof. unfold Matches. walk. Qed.
Lemma preserves_Sync l : preserves (Sync l).
Proof. unfold Sync. walk. Qed.
Lemma preserves_MakeExpr o : preserves (MakeExpr o).
Proof. unfold MakeExpr. walk. Qed.
#[local] Hint Resolve preserves_Matches preserves_Sync preserves_MakeExpr : preserves.

Lemma preserves_body {A} (p : Prod A) : preserves (body debug p).
Proof.
  destruct p; cbn [body];
    match goal with |- preserves ?m =>
      let rec head m := lazymatch m with ?f _ => head f | _ => m end in
      let h := head m in unfold h end; walk.
Qed.

Lemma parse_preserves n : forall A (p : Prod A) s a s',
  parse debug n p s = Some (a, s') -> R s s'.
Proof.
  induction n as [|n IH]; intros A p s a s' Hr; [done|]. simpl in Hr.
  eapply preserves_body; [|done]. eauto.
Qed.

End Preserves.

(** Errors are never withdrawn. *)
Definition extends {S} (s s' : PState S) : Prop := reporter s `prefix_of` reporter s'.

#[export] Instance extends_preorder {S} : PreOrder (@extends S).
Proof.
  split; [by intros s; exists []; rewrite app_nil_r|].
  intros s1 s2 s3. unfold extends. by transitivity (reporter s2).
Qed.

Abbreviation grows := (preserves extends).

Lemma extends_next {S} (s : PState S) sc : extends s (mkPState sc (reporter s)).
Proof. by exists []; rewrite app_nil_r. Qed.

Lemma extends_report {S} (s : PState S) es :
  extends s (mkPState (scanner_ s) (reporter s ++ es)).
Proof. by exists es. Qed.

#[export] Hint Resolve extends_preorder extends_next extends_report : preserves.
#[export] Hint Resolve preserves_ret preserves_bind preserves_call preserves_Next preserves_Peek
  preserves_CurrentPosition preserves_GetSymbol preserves_Report preserves_Expect
  preserves_Consume preserves_Matches preserves_Sync preserves_MakeExpr : preserves.

Lemma parse_grows {S} `{TokenSource S} debug n A (p : Prod A) (s : PState S) a s' :
  parse debug n p s = Some (a, s') -> extends s s'.
Proof. apply parse_preserves; eauto with preserves. Qed.

(** * More fuel does not change a result *)

Section Monotone.
Context {S : Type} `{TokenSource S} (debug : bool).

Definition monotone {A} (m : @Parser.P S A) : Prop :=
  forall self self' : Runner,
    (forall B q s r, self B q s = Some r -> self' B q s = Some r) ->
    forall s r, m self s = Some r -> m self' s = Some r.

Lemma monotone_const {A} (m : @Parser.P S A) : (forall self self' s, m self s = m self' s) -> monotone m.
Proof. intros Hm self self' _ s r <-. apply Hm. Qed.

Lemma monotone_bind {A B} (m : @Parser.P S A) (k : A -> @Parser.P S B) :
  monotone m -> (forall a, monotone (k a)) -> monotone (mbind k m).
Proof.
  intros Hm Hk self self' Hself s r Hr. unfold mbind, P_bind in *.
  destruct (m self s) as [[a s1]|] eqn:Hms; [|done].
  rewrite (Hm _ _ Hself _ _ Hms). by eapply Hk.
Qed.

Lemma monotone_call {A} (p : Prod A) : monotone (call p).
Proof. intros self self' Hself s r. apply Hself. Qed.

Ltac mono :=
  repeat first
  [ match goal with |- forall _, monotone _ => intros ? end
  | apply monotone_call
  | apply monotone_bind
  | match goal with |- monotone (match ?x with _ => _ end) => destruct x end
  | progress unfold Sync, MakeExpr, Matches, Expect, Consume, report_unexpected
  | solve [apply monotone_const; reflexivity] ].

Lemma monotone_body {A} (p : Prod A) : monotone (body debug p).
Proof.
  destruct p; cbn [body];
    match goal with |- monotone ?m =>
      let rec head m := lazymatch m with ?f _ => head f | _ => m end in
      let h := head m in unfold h end; mono.
Qed.

Lemma parse_mono n : forall n' A (p : Prod A) s r, (n <= n')%nat ->
  parse debug n p s = Some r -> parse debug n' p s = Some r.
Proof.
  induction n as [|n IH]; intros [|n'] A p s r Hle Hr; try done; [lia|].
  cbn [parse] in *. eapply monotone_body; [|exact Hr]. intros. apply IH; [lia|done].
Qed.

End Monotone.

(** * Error-free runs *)

(** A derivation, up to the association of its tokens. *)
Lemma derives_eq {A} (nt : NT A) a ts ts' : derives nt a ts -> ts = ts' -> derives nt a ts'.
Proof. by intros ? <-. Qed.

Ltac list_eq :=
  repeat progress (cbn [app]; rewrite <- ?app_assoc); rewrite ?app_nil_r; reflexivity.

Lemma derives_weaken {A} (nt : NT A) a ts : derives nt a ts ->
  match nt in NT A return A -> Prop with
  | Binary k => fun a => forall m, (m <= k)%nat -> derives (Binary m) a ts
  | _ => fun _ => True
  end a.
Proof.
  destruct 1; try done; intros m' Hm.
  - by apply d_one.
  - eapply d_binary; [done|lia|done..].
Qed.

Lemma binary_weaken k m e ts : derives (Binary k) e ts -> (m <= k)%nat -> derives (Binary m) e ts.
Proof. intros Hd. by apply (derives_weaken _ _ _ Hd). Qed.

Lemma derives_NewUnary op l pos e ts : is_unary_op op = true -> derives Unary (strip e) ts ->
  derives Unary (strip (NewUnary pos op e)) ((op, l) :: ts).
Proof.
  intros Hop Hd. destruct (folds op (strip e)) eqn:Hf.
  - destruct e as [| | | | | | |? v| | | | | | | ]; try done.
    destruct v; try done; destruct op; try done; simpl.
    + by apply d_not.
    + by apply d_plus.
    + by apply d_minus.
  - replace (strip (NewUnary pos op e)) with (UnaryOpExpression no_pos op (strip e)).
    + by apply d_unary.
    + destruct e as [| | | | | | |? []| | | | | | | ], op; by simpl in *.
Qed.

(** The statement a header of a [for] loop is completed to. *)
Definition for_stmt (pos : SourcePosition) (h : ForHeader) (body : Statement) : Statement :=
  match GetForInElements h with
  | None => ForStatement pos (fh_init h) (fh_cond h) (fh_next h) body
  | Some (target, iter) => ForInStatement pos target iter body
  end.

(** What an error-free run of a production has consumed, [next] being the token after it. *)
Definition derives_spec {A} (p : Prod A) : A -> list Lexeme -> TokenType -> Prop :=
  match p in Prod A return A -> list Lexeme -> TokenType -> Prop with
  | Parse => fun f used next => sentence (strip_file f) used /\ next = EOS
  | ParseDeclaration => fun o used _ => exists d, o = Some d /\ derives Decl (strip_decl d) used
  | ParseFunctionDeclaration | ParseStructDeclaration =>
      fun d used _ => derives Decl (strip_decl d) used
  | ParseVariableDeclaration => fun d used next =>
      derives VarDecl (strip_decl d) used /\
      follows (DeclarationStatement (strip_decl d)) next = true
  | ParseStatement | ParseSimpleStatement | ParseReturnStatement | ParseForStatement =>
      fun s used next => derives Stmt (strip_stmt s) used /\ follows (strip_stmt s) next = true
  | ParseIfStatement => fun s used next =>
      derives Stmt (strip_stmt s) used /\ follows (strip_stmt s) next = true /\ peek used = IF
  | ParseBlockStatement => fun s used _ =>
      derives Block (strip_stmt s) used /\ forall t, follows (strip_stmt s) t = true
  | ParseForHeader => fun h used _ => forall pos b tb l, derives Block (strip_stmt b) tb ->
      derives Stmt (strip_stmt (for_stmt pos h b)) ((FOR, l) :: used ++ tb)
  | ParseExpression => fun e used next =>
      derives (Binary 1) (strip e) used /\ expr_end 1 next = true
  | ParseBinaryOpExpression m => fun e used next =>
      derives (Binary m) (strip e) used /\ expr_end m next = true
  | ParseUnaryOpExpression => fun e used next =>
      derives Unary (strip e) used /\ IsCallOrMemberOrIndex next = false
  | ParsePrimaryExpression => fun e used next =>
      derives Primary (strip e) used /\ IsCallOrMemberOrIndex next = false
  | ParseOperand => fun e used _ => derives Operand (strip e) used
  | ParseFunctionLiteralExpression => fun e used _ => derives FunLit (strip e) used
  | ParseType => fun o used _ => exists t, o = Some t /\ derives Ty (strip t) used
  | ParseFunctionType => fun e used _ => derives FunTy (strip e) used
  | ParsePointerType | ParseArrayType | ParseMapType => fun e used _ => derives Ty (strip e) used
  | ParseStructType => fun e used _ => derives StructTy (strip e) used
  | Parse_while acc => fun ds used next => exists new, ds = acc ++ new /\
      derives Decls (map strip_decl new) used /\ next = EOS
  | Sync_while _ => fun _ _ _ => True
  | Block_while acc => fun ss used next => next = RIGHT_BRACE ->
      exists new, ss = acc ++ new /\ derives Stmts (map strip_stmt new) used
  | Binary_for c m e0 => fun e used next => forall ts0,
      derives (Binary (Nat.max c m)) (strip e0) ts0 ->
      expr_end (Nat.max c m) (peek_or next used) = true ->
      derives (Binary m) (strip e) (ts0 ++ used) /\ expr_end m next = true
  | Binary_while c e0 => fun e used next => forall ts0 p, c = Datatypes.S p ->
      derives (Binary p) (strip e0) ts0 -> expr_end c (peek_or next used) = true ->
      derives (Binary p) (strip e) (ts0 ++ used) /\ expr_end p next = true
  | Primary_do e0 => fun e used next => forall ts0, derives Primary (strip e0) ts0 ->
      derives Primary (strip e) (ts0 ++ used) /\ IsCallOrMemberOrIndex next = false
  | Args_while acc => fun es used next => exists new, es = acc ++ new /\
      derives Args (map strip new) used /\ next = RIGHT_PAREN
  | Params_while acc => fun ps used _ => exists new, ps = acc ++ new /\
      derives Params (map strip_field new) used
  | Fields_while acc => fun fs used next => exists new, fs = acc ++ new /\
      derives Fields (map strip_field new) used /\ next = RIGHT_BRACE
  end.

Section Sound.
Context {S : Type} `{TokenStream S}.

Abbreviation State := (PState S).
Abbreviation P := (@Parser.P S).

(** The productions, run with the fuel [n]. *)
Variable n : nat.
#[local] Abbreviation self := (fun B q => parse (S := S) true n q).

Definition wlp {A} (m : P A) (r : errors) (s : State) (Q : A -> State -> Prop) : Prop :=
  forall a s', m self s = Some (a, s') -> reporter s' = r -> Q a s'.

Definition at_ (s : State) (ts : list Lexeme) (r : errors) : Prop :=
  stream (scanner_ s) ts /\ reporter s = r.

Lemma wlp_ret {A} (a : A) r s (Q : A -> State -> Prop) : Q a s -> wlp (mret a) r s Q.
Proof. intros HQ a' s' Hr _. cbv in Hr. by simplify_eq. Qed.

Lemma wlp_bind {A B} (m : P A) (k : A -> P B) r s (Q : B -> State -> Prop) :
  grows m -> (forall a, grows (k a)) -> reporter s = r ->
  wlp m r s (fun a s' => wlp (k a) r s' Q) -> wlp (mbind k m) r s Q.
Proof.
  intros Hm Hk Hs Hw b s2 Hr Hs2. unfold mbind, P_bind in Hr.
  destruct (m self s) as [[a s1]|] eqn:Hms; [|done].
  assert (extends s s1) as H1 by (eapply Hm; [|done]; eauto using parse_grows).
  assert (extends s1 s2) as H2 by (eapply Hk; [|done]; eauto using parse_grows).
  unfold extends in H1, H2. rewrite Hs in H1. rewrite Hs2 in H2.
  eapply Hw; [done| |done|done]. by apply (anti_symm prefix).
Qed.

Lemma wlp_peek r s ts (Q : TokenType -> State -> Prop) :
  at_ s ts r -> Q (peek ts) s -> wlp Peek r s Q.
Proof.
  intros [Hs _] HQ a s' Hr _. unfold Peek in Hr. rewrite (stream_peek _ _ Hs) in Hr.
  by simplify_eq.
Qed.

Lemma wlp_next r s t l ts (Q : TokenType -> State -> Prop) :
  at_ s ((t, l) :: ts) r ->
  (forall s', at_ s' ts r -> ts_literal (scanner_ s') = l -> Q t s') -> wlp Next r s Q.
Proof.
  intros [Hs Hr] HQ a s' Hrun _. destruct (stream_next _ _ _ _ Hs) as (sc & Hn & Hl & Hs').
  unfold Next in Hrun. rewrite Hn in Hrun. simplify_eq. by apply HQ.
Qed.

Lemma wlp_next_end r s (Q : TokenType -> State -> Prop) :
  at_ s [] r -> (forall s', at_ s' [] r -> Q EOS s') -> wlp Next r s Q.
Proof.
  intros [Hs Hr] HQ a s' Hrun _. destruct (stream_end _ Hs) as (sc & Hn & Hs').
  unfold Next in Hrun. rewrite Hn in Hrun. simplify_eq. by apply HQ.
Qed.

Lemma wlp_position r s (Q : _ -> State -> Prop) :
  Q (ts_position (scanner_ s)) s -> wlp CurrentPosition r s Q.
Proof. intros HQ a s' Hr _. unfold CurrentPosition in Hr. by simplify_eq. Qed.

Lemma wlp_symbol r s (Q : _ -> State -> Prop) :
  Q (ts_literal (scanner_ s)) s -> wlp GetSymbol r s Q.
Proof. intros HQ a s' Hr _. unfold GetSymbol in Hr. by simplify_eq. Qed.

(** A run that reports an error is not error-free. *)
Lemma wlp_report p id args r s (Q : unit -> State -> Prop) : reporter s = r ->
  wlp (Report_ p id args) r s Q.
Proof.
  intros Hs a s' Hr Hs'. unfold Report_, Report in Hr. simplify_eq. simpl in Hs'.
  apply (f_equal length) in Hs'. rewrite length_app in Hs'. simpl in Hs'. lia.
Qed.

Lemma wlp_unexpected t t' r s (Q : unit -> State -> Prop) : reporter s = r ->
  wlp (report_unexpected t t') r s Q.
Proof.
  intros Hs. apply wlp_bind; auto with preserves. by apply wlp_position, wlp_report.
Qed.

(** [Expect] and, with assertions, [Consume] let only the expected token pass. *)
Lemma wlp_expect_gen (m : TokenType -> P unit) t r s ts (Q : unit -> State -> Prop) :
  (forall next s, reporter s = r -> (next = t -> Q tt s) -> wlp (m next) r s Q) ->
  (forall next, grows (m next)) -> t <> EOS -> at_ s ts r ->
  (forall l ts' s', ts = (t, l) :: ts' -> at_ s' ts' r -> ts_literal (scanner_ s') = l -> Q tt s') ->
  wlp (next ← Next; m next) r s Q.
Proof.
  intros Hm Hg Ht Hs HQ. pose proof Hs as [Hst Hr].
  apply wlp_bind; auto with preserves. destruct ts as [|[t' l] ts'].
  - intros a s' Hrun Hr'. destruct (stream_end _ Hst) as (sc & Hn & _).
    unfold Next in Hrun. rewrite Hn in Hrun. simplify_eq. apply Hm; [done|congruence].
  - eapply wlp_next; [done|]. intros s' Hs' Hl. apply Hm; [apply Hs'|]. intros ->.
    by eapply HQ.
Qed.

Lemma wlp_expect t r s ts (Q : unit -> State -> Prop) : t <> EOS -> at_ s ts r ->
  (forall l ts' s', ts = (t, l) :: ts' -> at_ s' ts' r -> ts_literal (scanner_ s') = l -> Q tt s') ->
  wlp (Expect t) r s Q.
Proof.
  apply wlp_expect_gen.
  - intros next s0 Hs0 HQ. case_decide as Hd; [by apply wlp_unexpected|].
    apply wlp_ret, HQ. by destruct (decide (next = t)).
  - intros next. case_decide; unfold report_unexpected; auto with preserves.
Qed.

Lemma wlp_consume t r s ts (Q : unit -> State -> Prop) : t <> EOS -> at_ s ts r ->
  (forall l ts' s', ts = (t, l) :: ts' -> at_ s' ts' r -> ts_literal (scanner_ s') = l -> Q tt s') ->
  wlp (Consume true t) r s Q.
Proof.
  apply wlp_expect_gen.
  - intros next s0 Hs0 HQ. cbn [andb]. case_bool_decide as Hd; [by apply wlp_unexpected|].
    apply wlp_ret, HQ. by destruct (decide (next = t)).
  - intros next. cbn [andb]. case_bool_decide; unfold report_unexpected; auto with preserves.
Qed.

Lemma wlp_matches t r s ts (Q : bool -> State -> Prop) : t <> EOS -> at_ s ts r ->
  (peek ts <> t -> Q false s) ->
  (forall l ts' s', ts = (t, l) :: ts' -> at_ s' ts' r -> ts_literal (scanner_ s') = l -> Q true s') ->
  wlp (Matches true t) r s Q.
Proof.
  intros Ht Hs HQ1 HQ2. unfold Matches. pose proof Hs as [_ Hr].
  apply wlp_bind; [auto with preserves| |done|].
  { intros t'. case_decide; auto with preserves. }
  eapply wlp_peek; [done|]. case_decide as Hd; [by apply wlp_ret, HQ1|].
  apply wlp_bind; auto with preserves. eapply wlp_consume; [done|done|]. intros.
  by eapply wlp_ret, HQ2.
Qed.

(** The induction hypothesis: productions run with fuel [n] meet their specifications. *)
Hypothesis call_sound : forall A (p : Prod A) r s ts (Q : A -> State -> Prop), at_ s ts r ->
  (forall a s' used rest, ts = used ++ rest -> at_ s' rest r ->
     derives_spec p a used (peek rest) -> Q a s') ->
  wlp (call p) r s Q.

(** The goal for the body of a production. *)
Definition consumes {A} (p : Prod A) (ts : list Lexeme) (r : errors) (a : A) (s' : State) : Prop :=
  exists used rest, ts = used ++ rest /\ at_ s' rest r /\ derives_spec p a used (peek rest).

End Sound.

(** * Automation *)

Ltac sgrow :=
  repeat first
  [ match goal with |- forall _, grows _ => intros ? end
  | solve [auto with preserves]
  | apply preserves_bind; [typeclasses eauto| |]
  | match goal with |- grows (match ?x with _ => _ end) => destruct x end ].

Ltac used_of ts rest :=
  lazymatch ts with
  | rest => constr:(@nil Lexeme)
  | ?x :: ?ts' => let u := used_of ts' rest in constr:(x :: u)
  | ?u1 ++ rest => u1
  | ?u1 ++ ?ts' => let u := used_of ts' rest in constr:(u1 ++ u)
  end.

Ltac consumed :=
  match goal with
  | Hs : at_ ?s ?rest ?r |- consumes _ ?ts ?r _ ?s =>
      let u := used_of ts rest in
      exists u, rest; split; [list_eq|split; [exact Hs|cbn [derives_spec]]]
  end.

Ltac sstep :=
  match goal with
  | Hs : at_ ?s _ ?r |- wlp _ (mbind _ _) ?r ?s _ =>
      apply wlp_bind; [solve [sgrow]|solve [sgrow]|apply Hs|]
  | |- wlp _ (mret _) _ _ _ => apply wlp_ret
  | |- wlp _ CurrentPosition _ _ _ => apply wlp_position
  | |- wlp _ GetSymbol _ _ _ => apply wlp_symbol
  | Hs : at_ ?s _ ?r |- wlp _ Peek ?r ?s _ => eapply wlp_peek; [exact Hs|]; cbn [peek]
  | Hs : at_ ?s ((_, _) :: _) ?r |- wlp _ Next ?r ?s _ =>
      eapply wlp_next; [exact Hs|]; clear Hs; intros ? Hs ?
  | Hs : at_ ?s [] ?r |- wlp _ Next ?r ?s _ =>
      eapply wlp_next_end; [exact Hs|]; clear Hs; intros ? Hs
  | Hs : at_ ?s _ ?r |- wlp _ (Report_ _ _ _) ?r ?s _ => apply wlp_report, Hs
  | Hs : at_ ?s _ ?r |- wlp _ (Expect _) ?r ?s _ =>
      eapply wlp_expect; [done|exact Hs|]; clear Hs; intros ? ? ? ? Hs ?; simplify_eq
  | Hs : at_ ?s _ ?r |- wlp _ (Consume true _) ?r ?s _ =>
      eapply wlp_consume; [done|exact Hs|]; clear Hs; intros ? ? ? ? Hs ?; simplify_eq
  | Hs : at_ ?s _ ?r |- wlp _ (call _) ?r ?s _ =>
      match goal with
      | IH : forall A (p : Prod A) r s ts Q, at_ s ts r -> _ |- _ =>
          eapply IH; [exact Hs|]; clear Hs; intros ? ? ? ? ? Hs ?;
          cbn [derives_spec] in *; simplify_eq
      end
  end.
Ltac srun := repeat (sstep; cbv beta iota zeta).

Ltac derive c := eapply derives_eq; [eapply c; try eassumption|try list_eq].

Ltac sbody :=
  cbn [body];
  match goal with |- wlp _ ?m _ _ _ => let rec head m := lazymatch m with ?f _ => head f | _ => m end in
                                   let h := head m in unfold h end.

Section Bodies.
Context {S : Type} `{TokenStream S} (n : nat).
Hypothesis call_sound : forall A (p : Prod A) r s ts (Q : A -> PState S -> Prop), at_ s ts r ->
  (forall a s' used rest, ts = used ++ rest -> at_ s' rest r ->
     derives_spec p a used (peek rest) -> Q a s') ->
  wlp n (call p) r s Q.

Definition sound {A} (p : Prod A) : Prop := forall r s ts, at_ s ts r ->
  wlp n (body true p) r s (consumes p ts r).

Ltac begin := intros r s ts Hs; sbody; srun.

(** Split the facts about what has been consumed. *)
Ltac facts :=
  repeat match goal with
  | Hx : _ /\ _ |- _ => destruct Hx
  | Hx : exists _, _ |- _ => destruct Hx
  | Hx : ?a = ?b -> _, Hp : ?a = ?b |- _ => specialize (Hx Hp)
  | Hx : _ = _ -> _ |- _ => specialize (Hx eq_refl)
  | Hx : derives Stmt (strip_stmt (ExpressionStatement ?e)) _ |- _ =>
      apply (expr_stmt_inv (strip e)) in Hx
  end; subst.

Lemma Parse_sound : sound Parse.
Proof. begin. consumed. facts. split; [|done]. eexists. simpl. eauto. Qed.

Lemma ParseFunctionDeclaration_sound : sound ParseFunctionDeclaration.
Proof. begin. consumed. facts. simpl. derive @d_fun_decl. Qed.

Lemma ParseStructDeclaration_sound : sound ParseStructDeclaration.
Proof. begin. consumed. facts. simpl. derive @d_struct_decl. Qed.

Lemma ParseDeclaration_sound : sound ParseDeclaration.
Proof.
  begin. destruct (peek ts); srun; consumed; eauto.
Qed.

(** Both answers of [Matches]. *)
Ltac smatches :=
  match goal with
  | Hs : at_ ?s _ ?r |- wlp _ (Matches true _) ?r ?s _ =>
      eapply wlp_matches; [done|exact Hs| |];
      [intros ?|clear Hs; intros ? ? ? ? Hs ?; simplify_eq]; srun
  end.

Lemma ParseVariableDeclaration_sound : sound ParseVariableDeclaration.
Proof.
  begin. smatches; smatches; facts; srun; consumed; facts; simpl in *.
  - split; [derive @d_var_init|done].
  - split; [derive @d_var_type|]. by apply negb_true_iff, bool_decide_eq_false.
  - split; [derive @d_var_both|done].
Qed.

Lemma ParseStatement_sound : sound ParseStatement.
Proof.
  begin. destruct (peek ts); srun; consumed; facts; simpl; eauto using @derives.
Qed.

Lemma ParseSimpleStatement_sound : sound ParseSimpleStatement.
Proof.
  begin. smatches; consumed; facts; simpl.
  - split; [by apply d_expr_stmt|]. rewrite bool_decide_eq_false_2 by done. by rewrite andb_true_r.
  - split; [derive @d_assign|done].
Qed.

Lemma ParseBlockStatement_sound : sound ParseBlockStatement.
Proof.
  begin. consumed. facts. simpl in *. split; [derive @d_block|done].
Qed.

Lemma Block_while_sound acc : sound (Block_while acc).
Proof.
  begin. case_bool_decide; [case_bool_decide|]; simpl; srun; consumed.
  - intros Hn. facts. eexists (_ :: _). split; [by rewrite <- app_assoc|]. simpl.
    apply d_stmts_cons; [done|done|]. by erewrite peek_or_app.
  - intros Hn. congruence.
  - intros Hn. exists []. rewrite app_nil_r. split; [done|constructor].
Qed.

Lemma ParseReturnStatement_sound : sound ParseReturnStatement.
Proof.
  begin. case_decide; srun; consumed; facts; simpl.
  - split; [derive @d_return|done].
  - split; [derive @d_return_nil|]. apply bool_decide_eq_true. by destruct (decide (peek ts' = RIGHT_BRACE)).
Qed.

Lemma ParseIfStatement_sound : sound ParseIfStatement.
Proof.
  begin. smatches.
  - consumed. facts. simpl. split_and!; [derive @d_if|by apply negb_true_iff, bool_decide_eq_false|done].
  - case_decide; srun; consumed; facts; simpl; (split_and!; [|eauto|done]).
    + derive @d_if_else. by left.
    + derive @d_if_else; [by apply d_block_stmt|]. right.
      eapply bool_decide_eq_true_1, (derives_peek Block); done.
Qed.

Lemma wlp_MakeExpr o r s (Q : option Expression -> PState S -> Prop) : reporter s = r ->
  (o = None -> Q None s) -> (forall e, o = Some (ExpressionStatement e) -> Q (Some e) s) ->
  wlp n (MakeExpr o) r s Q.
Proof.
  intros Hr HN HS. destruct o as [[]|]; cbn [MakeExpr];
    first [apply wlp_bind; auto with preserves; by apply wlp_report | apply wlp_ret; auto].
Qed.

Ltac smake :=
  match goal with
  | Hs : at_ ?s _ ?r |- wlp _ (MakeExpr _) ?r ?s _ =>
      apply wlp_MakeExpr; [apply Hs|intros ?|intros ? ?]; simplify_eq; srun
  end.

Ltac for_header :=
  eapply derives_eq;
  [ eapply d_for;
    [ first [apply d_no_stmt|apply d_some_stmt; eassumption]
    | first [apply d_no_expr|apply d_some_expr; eassumption]
    | first [apply d_no_stmt|apply d_some_stmt; eassumption] | done | done | eassumption ]
  | list_eq ].

Lemma ParseForHeader_sound : sound ParseForHeader.
Proof.
  begin. case_decide; srun; [consumed; intros; simpl; derive @d_for_inf|].
  case_decide as Hsemi; srun; smatches.
  - smatches.
    + smake. consumed. facts. intros. simpl. derive @d_for_while.
    + case_decide; srun; case_decide; srun; smake; consumed; facts; intros; simpl in *; for_header.
  - facts. smake. smake. consumed. facts. intros. simpl. derive @d_for_in.
  - smatches.
    case_decide; srun; case_decide; srun; smake; consumed; facts; intros; simpl in *; for_header.
Qed.

Lemma ParseForStatement_sound : sound ParseForStatement.
Proof.
  begin.
  match goal with |- context [GetForInElements ?h] =>
    destruct (GetForInElements h) as [[x e]|] eqn:Hh end;
    srun; consumed; facts; (split; [|done]);
    match goal with
    | Hx : forall pos b tb l, derives Block _ _ -> _, Hb : derives Block _ _ |- _ =>
        unfold for_stmt in Hx; rewrite Hh in Hx; exact (Hx no_pos _ _ _ Hb)
    end.
Qed.

(** Nothing is consumed of an empty sequence. *)
Ltac nothing :=
  repeat match goal with
  | Hx : [] = _ ++ _ |- _ => symmetry in Hx
  | Hx : _ ++ _ = [] |- _ => apply app_eq_nil in Hx as [-> Hx]
  end; subst.

Lemma strip_op op pos l r :
  strip (if IsCompareOp op then ComparisonOpExpression pos op l r
         else BinaryOpExpression pos op l r) = op_node op (strip l) (strip r).
Proof. unfold op_node. by destruct (IsCompareOp op). Qed.

Lemma ParseExpression_sound : sound ParseExpression.
Proof. begin. consumed. done. Qed.

Lemma expr_end_weaken m k t : (m <= k)%nat -> expr_end m t = true -> expr_end k t = true.
Proof.
  intros Hm [Hp Hc]%andb_true_iff. apply andb_true_iff. split; [|done].
  apply Nat.leb_le in Hp. apply Nat.leb_le. lia.
Qed.

Lemma expr_end_next p t : GetPrecedence t <> Datatypes.S p ->
  expr_end (Datatypes.S p) t = true -> expr_end p t = true.
Proof.
  intros Hm [Hp Hc]%andb_true_iff. apply andb_true_iff. split; [|done].
  apply Nat.leb_le in Hp. apply Nat.leb_le. lia.
Qed.

Lemma ParseBinaryOpExpression_sound m : sound (ParseBinaryOpExpression m).
Proof.
  begin. consumed. facts.
  match goal with Hx : forall ts0, _ |- _ => apply Hx end; [by apply d_one|].
  rewrite (peek_or_app _ _ _ eq_refl). unfold expr_end.
  match goal with Hx : IsCallOrMemberOrIndex _ = false |- _ => rewrite Hx end.
  rewrite andb_true_r. apply Nat.leb_le. lia.
Qed.

Lemma Binary_while_sound c left : sound (Binary_while c left).
Proof.
  begin. destruct (Nat.eqb_spec (GetPrecedence (peek ts)) c) as [Hc|Hc].
  - destruct ts as [|[op l] ts]; simpl in Hc. 
    + srun. nothing. consumed. intros ts0 p Hp. congruence.
    + srun. consumed. facts. intros ts0 p Hp Hd Hend.
      match goal with Hx : forall ts0 p, _ |- _ => destruct (Hx (ts0 ++ (op, ts_literal (scanner_ s')) :: used) p Hp) end.
      * rewrite strip_op. eapply d_binary; [exact Hp|done|done|by rewrite <- Hp].
      * rewrite (peek_or_app _ _ _ eq_refl). congruence.
      * split; [|done]. eapply derives_eq; [done|list_eq].
  - srun. consumed. intros ts0 p -> Hd Hend. rewrite app_nil_r. split; [done|].
    by apply expr_end_next.
Qed.

Lemma Binary_for_sound c m left : sound (Binary_for c m left).
Proof.
  begin. destruct (Nat.ltb_spec m c) as [Hm|Hm].
  - srun. destruct (Nat.ltb_spec (GetPrecedence (peek ts)) m) as [Hp|Hp]; srun; consumed;
      intros ts0; rewrite (Nat.max_l c m) by lia; intros Hd Hend.
    + rewrite app_nil_r. split; [by eapply binary_weaken; [|apply Nat.lt_le_incl]|].
      apply andb_true_iff in Hend as [_ Hc]. apply andb_true_iff; split; [|done].
      apply Nat.leb_le. simpl. lia.
    + destruct c as [|p]; [lia|].
      match goal with Hx : forall ts0 p', Datatypes.S p = _ -> _ |- _ =>
        destruct (Hx ts0 p) as [Hl He]; [done|eapply binary_weaken; [done|lia]| |] end.
      { rewrite (peek_or_app _ _ _ eq_refl) in Hend. rewrite (peek_or_app _ _ _ eq_refl).
        by rewrite <- app_assoc in Hend. }
      rewrite app_assoc. replace (Nat.max (Datatypes.S p - 1) m) with p in * by lia.
      match goal with Hx : forall ts0, _ |- _ => apply Hx; [done|] end.
      by rewrite (peek_or_app _ _ _ eq_refl).
  - srun. consumed. intros ts0. rewrite (Nat.max_r c m) by lia. intros Hd Hend.
    by rewrite app_nil_r.
Qed.

Lemma ParseUnaryOpExpression_sound : sound ParseUnaryOpExpression.
Proof.
  begin. destruct (is_unary_op (peek ts)) eqn:Hop.
  - destruct ts as [|[op l] ts]; [done|]. cbn [peek] in *.
    destruct op; try done; srun; consumed; facts; (split; [|done]); by apply derives_NewUnary.
  - destruct (peek ts); try done; srun; consumed; facts; (split; [|done]); by apply d_primary.
Qed.

Lemma ParsePrimaryExpression_sound : sound ParsePrimaryExpression.
Proof.
  begin. consumed. facts. match goal with Hx : forall ts0, _ |- _ => apply Hx end.
  by apply d_operand.
Qed.

Lemma Args_while_sound acc : sound (Args_while acc).
Proof.
  begin. case_decide; srun.
  - case_decide as Hc; srun.
    + match goal with Hs : at_ _ ?ts _ |- _ => destruct ts as [|[t l] ts'] end; [done|].
      simpl in Hc. subst t. srun. consumed. facts. eexists (_ :: _).
      rewrite <- app_assoc. split_and!; [done| |done]. simpl. derive @d_args_comma.
    + consumed. facts. eexists (_ :: _). rewrite <- app_assoc. split_and!; [done| |done]. simpl.
      apply d_args_cons; [done..| |]; by erewrite peek_or_app.
  - consumed. exists []. rewrite app_nil_r. split_and!; [done|constructor|].
    by destruct (decide (peek ts = RIGHT_PAREN)).
Qed.

Lemma suffix_intro e e' u ts ts' (N : Prop) :
  (forall ts0, derives Primary e ts0 -> derives Primary e' (ts0 ++ u) /\ N) ->
  derives Primary e ts -> ts ++ u = ts' -> derives Primary e' ts' /\ N.
Proof. intros Hx Hd <-. auto. Qed.

(** After a suffix of a primary expression: another one, or the end. *)
Ltac suffix c :=
  match goal with |- context [IsCallOrMemberOrIndex ?t] =>
    destruct (IsCallOrMemberOrIndex t) eqn:Hc end;
  srun; consumed; facts; intros ts0 Hd;
  [ eapply suffix_intro; [eassumption|eapply c; eassumption|list_eq]
  | split; [derive c|assumption] ].

Lemma Primary_do_sound e0 : sound (Primary_do e0).
Proof.
  begin. destruct (IsCallOrMemberOrIndex (peek ts)) eqn:Hi.
  - destruct (peek ts) eqn:Hp; try done; srun.
    + suffix @d_call.
    + suffix @d_index.
    + suffix @d_member.
  - destruct (peek ts) eqn:Hp; try done; srun; rewrite Hp, Hi; srun; consumed;
      intros ts0 Hd; rewrite app_nil_r, Hp; done.
Qed.

Lemma ParseOperand_sound : sound ParseOperand.
Proof.
  begin. destruct ts as [|[t l] ts]; cbn [peek]; [by srun|].
  destruct t; srun; consumed; facts; simpl; eauto using @derives.
Qed.

Lemma ParseFunctionLiteralExpression_sound : sound ParseFunctionLiteralExpression.
Proof. begin. consumed. facts. simpl. by apply d_fun. Qed.

Lemma ParseType_sound : sound ParseType.
Proof.
  begin. destruct (is_token NIL (peek ts) || is_token IDENTIFIER (peek ts) || is_token STRUCT (peek ts)) eqn:Ht.
  - destruct ts as [|[t l] ts]; [done|]. cbn [peek] in *.
    destruct t; try done; srun; consumed; facts; eexists; (split; [done|]); simpl; eauto using @derives.
  - destruct (peek ts); try done; srun; consumed; facts; eexists; (split; [done|]); eauto using @derives.
Qed.

Lemma ParseFunctionType_sound : sound ParseFunctionType.
Proof. begin. consumed. facts. simpl. derive @d_funty. Qed.

Lemma ParsePointerType_sound : sound ParsePointerType.
Proof. begin. consumed. facts. simpl. by apply d_ty_ptr. Qed.

Lemma ParseMapType_sound : sound ParseMapType.
Proof. begin. consumed. facts. simpl. derive @d_ty_map. Qed.

Lemma ParseStructType_sound : sound ParseStructType.
Proof. begin. consumed. facts. simpl. derive @d_struct. Qed.

Lemma ParseArrayType_sound : sound ParseArrayType.
Proof.
  begin. smatches. smatches; consumed; facts; simpl.
  - derive @d_ty_array. rewrite peek_app, peek_or_cons in * by eauto using derives_nonempty. done.
  - derive @d_ty_star_array.
Qed.

Lemma Params_while_sound acc : sound (Params_while acc).
Proof.
  begin. case_decide; srun; [|consumed; exists []; rewrite app_nil_r; split; [done|constructor]].
  smatches; smatches; smatches; consumed; facts; eexists (_ :: _); (split; [by rewrite <- ?app_assoc|]); simpl.
  - apply d_params_one, d_param_type; [done|].
    by rewrite peek_app, peek_or_cons in * by eauto using derives_nonempty.
  - apply d_params_cons; [|done]. apply d_param_type; [done|].
    by rewrite peek_app, peek_or_cons in * by eauto using derives_nonempty.
  - by apply d_params_one, d_param_colon.
  - apply (d_params_cons _ _ ((COLON, _) :: _)); [by apply d_param_colon|done].
  - apply d_params_one, d_param_ident.
  - apply (d_params_cons _ _ [(IDENTIFIER, _)]); [apply d_param_ident|done].
  - by apply d_params_one, d_param_named.
  - apply (d_params_cons _ _ ((IDENTIFIER, _) :: (COLON, _) :: _)); [by apply d_param_named|done].
Qed.

Lemma Fields_while_sound acc : sound (Fields_while acc).
Proof.
  begin. case_decide as Hp; srun; consumed; facts.
  - eexists (_ :: _). rewrite <- app_assoc. split_and!; [done| |done]. simpl. by apply d_fields_cons.
  - exists []. rewrite app_nil_r. split_and!; [done|constructor|].
    by destruct (decide (peek ts = RIGHT_BRACE)).
Qed.

Lemma Parse_while_sound acc : sound (Parse_while acc).
Proof.
  begin. case_decide as Hp; srun; consumed; facts.
  - eexists (_ :: _). rewrite <- app_assoc. split_and!; [done| |done]. simpl. by apply d_decls_cons.
  - exists []. rewrite app_nil_r. split_and!; [done|constructor|].
    by destruct (decide (peek ts = EOS)).
Qed.

Lemma Sync_while_sound l : sound (Sync_while l).
Proof.
  begin. case_decide as Hp; [|srun; by consumed]. case_bool_decide; [srun; by consumed|].
  destruct ts as [|[t k] ts]; [done|]. srun. by consumed.
Qed.

#[local] Hint Resolve Parse_sound ParseDeclaration_sound ParseFunctionDeclaration_sound
  ParseStructDeclaration_sound ParseVariableDeclaration_sound ParseStatement_sound
  ParseSimpleStatement_sound ParseBlockStatement_sound ParseForHeader_sound
  ParseForStatement_sound ParseIfStatement_sound ParseReturnStatement_sound
  ParseExpression_sound ParseBinaryOpExpression_sound ParseUnaryOpExpression_sound
  ParsePrimaryExpression_sound ParseOperand_sound ParseFunctionLiteralExpression_sound
  ParseType_sound ParseFunctionType_sound ParsePointerType_sound
  ParseArrayType_sound ParseStructType_sound ParseMapType_sound
  Parse_while_sound Sync_while_sound Block_while_sound
  Binary_for_sound Binary_while_sound Primary_do_sound
  Args_while_sound Params_while_sound Fields_while_sound : parser_sound.

Lemma body_sound {A} (p : Prod A) : sound p.
Proof. destruct p; auto with parser_sound. Qed.

End Bodies.

(** An error-free run of a production has consumed what its specification says. *)
Lemma parse_sound {S : Type} `{TokenStream S} n : forall A (p : Prod A) r (s : PState S) ts a s',
  parse true n p s = Some (a, s') -> at_ s ts r -> reporter s' = r -> consumes p ts r a s'.
Proof.
  induction n as [|n IH]; intros A p r s ts a s' Hrun Hs Hr; [done|].
  eapply (body_sound n); [|exact Hs|exact Hrun|exact Hr].
  intros B q r' s1 ts1 Q Hs1 HQ b s2 Hrun' Hr'.
  destruct (IH B q r' s1 ts1 b s2 Hrun' Hs1 Hr') as (used & rest & Hts & Hs2 & Hspec).
  eauto.
Qed.
