(* ===== verification/ParserSpec.v ===== *)
(** The correctness of the TPL parser.

    With [ParserComplete] and [ParserSound]: what the parser accepts without an error is
    exactly the grammar, and the tree it builds is the one the grammar assigns to the
    tokens.  Then the behaviours the source has and its comments do not mention: inputs
    on which the parser does not terminate, and the positions it gives to nodes. *)
From S2P Require Import Prelude Token Scanner ScannerSpec TokenSource Ast ErrorReporter Parser.
From S2P Require Import Grammar ParserComplete ParserSound.

(** [Parser parser(&scanner, &context); parser.Parse();] on a source text, the way
    [src/tpl.cpp] compiles a file. *)
Definition parse_source (debug : bool) (fuel : nat) (source : list Z) : option (File * errors) :=
  match new_Scanner fuel source with
  | None => None
  | Some sc =>
      match parse debug fuel Parse (mkPState sc []) with
      | None => None
      | Some (f, s) => Some (f, reporter s)
      end
  end.

Lemma derives_no_eos {A} (nt : NT A) a ts : derives nt a ts -> Forall (fun x => fst x <> EOS) ts.
Proof.
  induction 1; rewrite ?Forall_app, ?Forall_cons, ?Forall_app, ?Forall_cons, ?Forall_app, ?Forall_cons;
    repeat match goal with
    | |- context [Forall _ (_ ++ _)] => rewrite Forall_app
    | |- context [Forall _ (_ :: _)] => rewrite Forall_cons
    end; simpl;
    repeat match goal with
    | |- _ /\ _ => split
    | |- Forall _ [] => constructor
    end; try done.
  - by destruct op.
  - by destruct op.
Qed.

Section Front.
Context {S : Type} `{TokenStream S}.

Lemma Parse_complete debug sc ts f r : stream sc ts -> sentence f ts ->
  exists f' s', strip_file f' = f /\ reporter s' = r /\
    exists n0, forall n, (n0 <= n)%nat ->
      parse debug n Parse (mkPState sc r) = Some (f', s').
Proof.
  intros Hs (ds & -> & Hd).
  assert (wp debug (call Parse) (mkPState sc r)
            (fun f' s' => strip_file f' = mkFile no_pos ds /\ reporter s' = r))
    as (f' & s' & [Hf Hr] & n0 & Hn).
  { pose proof (derives_accepts debug _ _ _ Hd) as Ha. cbn [accepts] in Ha.
    apply wp_call. cbn [body]. unfold Parse_body. apply wp_bind.
    eapply (Ha [] _ r []); [|done|].
    - by rewrite app_nil_r.
    - intros ds' s' Hds [_ Hr]. apply wp_bind, wp_position, wp_ret. simpl in *.
      by rewrite Hds. }
  exists f', s'. eauto.
Qed.

Lemma Parse_file_sound n sc ts f' s' r : stream sc ts ->
  parse true n Parse (mkPState sc r) = Some (f', s') -> reporter s' = r ->
  sentence (strip_file f') ts.
Proof.
  intros Hs Hrun Hr. destruct (parse_sound n _ _ r _ ts _ _ Hrun) as (used & rest & -> & [Hs' _] & Hf & He).
  - done.
  - done.
  - apply stream_no_eos in Hs'. destruct rest as [|[t l] rest]; [by rewrite app_nil_r|].
    simpl in He. inversion_clear Hs'. done.
Qed.

(** C2: With assertions, as in a debug build, the parser accepts exactly the sentences of the grammar, with their meanings (without
    them it accepts every sentence, but more than that: [release_accepts_more]): some
    amount of fuel lets [Parse] end without an error with the tree [f] (up to positions) if
    and only if the tokens of the source are a sentence of the grammar with the meaning
    [f]. *)
Theorem Parse_iff sc ts f : stream sc ts ->
  (exists n f' s', parse true n Parse (mkPState sc []) = Some (f', s') /\
     reporter s' = [] /\ strip_file f' = f) <-> sentence f ts.
Proof.
  intros Hs. split.
  - intros (n & f' & s' & Hrun & Hr & <-). by eapply Parse_file_sound.
  - intros Hf. destruct (Parse_complete true sc ts f [] Hs Hf) as (f' & s' & Hf' & Hr & n0 & Hn).
    exists n0, f', s'. auto.
Qed.

End Front.

(** * From source text to tree *)

Lemma Scan_loop_mono fuel : forall fuel' s s', (fuel <= fuel')%nat ->
  Scan_loop fuel s = Some s' -> Scan_loop fuel' s = Some s'.
Proof.
  induction fuel as [|fuel IH]; intros [|fuel'] s s' Hle; try done; try lia.
  rewrite !Scan_loop_S. cbv zeta. destruct (ScanSwitch _) as [t s1].
  case_decide; [apply IH; lia|done].
Qed.

Lemma new_Scanner_mono fuel fuel' source sc : (fuel <= fuel')%nat ->
  new_Scanner fuel source = Some sc -> new_Scanner fuel' source = Some sc.
Proof. unfold new_Scanner, Scan. apply Scan_loop_mono. Qed.

(** C8: Scanner and parser together: on a source text that the lexical grammar splits into
    the tokens [ts], which are a sentence of the grammar with the meaning [f], parsing
    terminates, reports no error, and yields [f] up to positions, with and without
    assertions. *)
Theorem parse_source_correct debug source ts f :
  Forall byte_ok source -> lex source ts -> sentence f ts ->
  exists f', strip_file f' = f /\
    exists n0, forall n, (n0 <= n)%nat -> parse_source debug n source = Some (f', []).
Proof.
  intros Hb Hlex Hf.
  destruct (new_Scanner_stream source ts (Datatypes.S (length source)) Hb Hlex) as (sc & Hsc & _ & Hs); [lia|].
  change (stream sc ts) in Hs.
  destruct (Parse_complete (S := Scanner) debug sc ts f [] Hs Hf) as (f' & s' & Hf' & Hr & n0 & Hn).
  exists f'. split; [done|]. exists (n0 + Datatypes.S (length source))%nat. intros n Hle.
  unfold parse_source.
  rewrite (new_Scanner_mono (Datatypes.S (length source)) n source sc) by (done || lia).
  rewrite Hn by lia. by rewrite Hr.
Qed.

(** Whatever [tpl] parses with assertions on is a sentence. *)
Lemma parse_source_sound n source ts f :
  Forall byte_ok source -> lex source ts -> (length source < n)%nat ->
  parse_source true n source = Some (f, []) -> sentence (strip_file f) ts.
Proof.
  intros Hb Hlex Hn Hp. unfold parse_source in Hp.
  destruct (new_Scanner_stream source ts n Hb Hlex Hn) as (sc & Hsc & _ & Hs).
  change (stream sc ts) in Hs. rewrite Hsc in Hp. destruct (parse true n Parse (mkPState sc [])) as [[f' s']|] eqn:Hrun; [|done].
  injection Hp as <- Hr. eapply (Parse_file_sound (S := Scanner)); [exact Hs|exact Hrun|exact Hr].
Qed.

(** The grammar of TPL is unambiguous: no sequence of tokens has two meanings. *)
Theorem sentence_unambiguous f1 f2 ts : sentence f1 ts -> sentence f2 ts -> f1 = f2.
Proof.
  intros H1 H2.
  assert (stream (mkList [] ts) ts) as Hs.
  { split; [done|]. destruct H1 as (ds & _ & Hd). by eapply derives_no_eos. }
  destruct (Parse_complete true _ ts f1 [] Hs H1) as (g1 & s1 & <- & _ & n1 & Hn1).
  destruct (Parse_complete true _ ts f2 [] Hs H2) as (g2 & s2 & <- & _ & n2 & Hn2).
  specialize (Hn1 (n1 + n2)%nat ltac:(lia)). specialize (Hn2 (n1 + n2)%nat ltac:(lia)).
  congruence.
Qed.

(** * Where the parser does not terminate *)

Section AtEnd.
Context {S : Type} `{TokenStream S} (debug : bool).

Abbreviation P := (@Parser.P S).

Definition at_end (s : PState S) : Prop := stream (scanner_ s) [].
Definition stays (s s' : PState S) : Prop := at_end s -> at_end s'.

#[local] Instance stays_preorder : PreOrder stays.
Proof. split; [intros x Hx; exact Hx|intros x y z; unfold stays; auto]. Qed.

Lemma stays_next (s : PState S) t sc : ts_next (scanner_ s) = Some (t, sc) ->
  stays s (mkPState sc (reporter s)).
Proof.
  intros Hn Hs. destruct (stream_end _ Hs) as (sc' & Hn' & Hs'). unfold at_end. simpl. congruence.
Qed.

Lemma stays_report (s : PState S) es : stays s (mkPState (scanner_ s) (reporter s ++ es)).
Proof. intros Hs. exact Hs. Qed.

#[local] Hint Resolve stays_preorder stays_next stays_report : preserves.

(** At the end of the tokens, [m] does not return, with the fuel [n]. *)
Definition never (n : nat) {A} (m : P A) : Prop :=
  forall s, at_end s -> m (fun B q => parse debug n q) s = None.

Lemma never_bind n {A B} (m : P A) (k : A -> P B) :
  preserves stays m -> (forall a, never n (k a)) -> never n (mbind k m).
Proof.
  intros Hm Hk s Hs. unfold mbind, P_bind. destruct (m _ s) as [[a s1]|] eqn:Hr; [|done].
  apply Hk. eapply Hm; [|exact Hr|exact Hs]. intros ? ? ? ? ?.
  apply (parse_preserves debug stays stays_next stays_report).
Qed.

Lemma never_peek n {B} (k : TokenType -> P B) : never n (k EOS) -> never n (mbind k Peek).
Proof.
  intros Hk s Hs. unfold mbind, P_bind, Peek. rewrite (stream_peek _ _ Hs). by apply Hk.
Qed.

(** The loop over arguments ends at a right parenthesis only. *)
Lemma Args_while_never n : forall acc, never n (call (Args_while acc)).
Proof.
  induction n as [|n IH]; intros acc; [by intros s Hs|].
  change (never n (Args_while_body acc)).
  apply never_peek. rewrite decide_True by done.
  apply never_bind; [eauto with preserves|]. intros arg.
  apply never_peek. rewrite decide_False by done.
  apply never_bind; [eauto with preserves|]. intros _. apply IH.
Qed.

(** The loop over the fields of a struct ends at a right brace only. *)
Lemma Fields_while_never n : forall acc, never n (call (Fields_while acc)).
Proof.
  induction n as [|n IH]; intros acc; [by intros s Hs|].
  change (never n (Fields_while_body acc)).
  apply never_peek. rewrite decide_True by done.
  repeat (apply never_bind; [solve [eauto with preserves]|intros ?]). apply IH.
Qed.

(** A builtin call, or a struct type, that is cut off by the end of the source is parsed
    for ever: once the tokens have run out after its opening parenthesis or brace, no amount
    of fuel lets the parser return. *)
Theorem cut_off_diverges n (s : PState S) :
  (forall l l', stream (scanner_ s) [(BUILTIN_IDENTIFIER, l); (LEFT_PAREN, l')] ->
     parse debug n ParseOperand s = None) /\
  (forall l, stream (scanner_ s) [(LEFT_BRACE, l)] -> parse debug n ParseStructType s = None).
Proof.
  destruct n as [|n]; [done|]. cbn [parse body]. split.
  - intros l l' Hs.
    destruct (stream_next _ _ _ _ Hs) as (sc1 & Hn1 & _ & Hs1).
    destruct (stream_next _ _ _ _ Hs1) as (sc2 & Hn2 & _ & Hs2).
    unfold ParseOperand_body, Consume, mbind, P_bind, Peek, CurrentPosition, GetSymbol, Next.
    rewrite (stream_peek _ _ Hs). cbn [peek]. rewrite Hn1. cbn [scanner_ reporter]. rewrite Hn2.
    rewrite bool_decide_eq_false_2, andb_false_r by auto. cbn [mret P_ret].
    match goal with |- context [call (Args_while []) _ ?s'] =>
      rewrite (Args_while_never n [] s' Hs2 : call _ _ s' = None) end. done.
  - intros l Hs. destruct (stream_next _ _ _ _ Hs) as (sc1 & Hn1 & _ & Hs1).
    unfold ParseStructType_body, Consume, mbind at 1, P_bind, Next at 1. 
    unfold mbind at 1. rewrite Hn1.
    rewrite bool_decide_eq_false_2, andb_false_r by auto. cbn [mret P_ret].
    match goal with |- context [mkPState sc1 ?r] => set (s' := mkPState sc1 r) end.
    unfold mbind at 1.
    by rewrite (Fields_while_never n [] s' Hs1 : call _ _ s' = None).
Qed.

End AtEnd.

(** * Positions *)

(** The positions of blocks and functions are those of their last tokens: the parser keeps
    references to the scanner's current position, so the start and the end of a block are
    the same position, that of the closing brace, and a function declaration gets the
    position of the last token of its body, not of its name. *)
Theorem positions_alias {S : Type} `{TokenSource S} debug n (s s' : PState S) :
  (forall b, parse debug n ParseBlockStatement s = Some (b, s') ->
     exists ss, b = BlockStatement (ts_position (scanner_ s')) (ts_position (scanner_ s')) ss) /\
  (forall d, parse debug n ParseFunctionDeclaration s = Some (d, s') ->
     decl_pos d = ts_position (scanner_ s')).
Proof.
  destruct n as [|n]; [done|]. cbn [parse body]. split.
  - intros b. unfold ParseBlockStatement_body, mbind, P_bind, mret, P_ret, CurrentPosition.
    repeat (case_match; try done). intros; simplify_eq. eauto.
  - intros d. unfold ParseFunctionDeclaration_body, mbind, P_bind, mret, P_ret, CurrentPosition, GetSymbol.
    repeat (case_match; try done). intros; by simplify_eq.
Qed.

(** * The parser without assertions *)

(** The tokens of [struct S ( x : int }]. *)
Definition unbraced : list Lexeme :=
  [(STRUCT, []); (IDENTIFIER, bytes "S"); (LEFT_PAREN, []); (IDENTIFIER, bytes "x");
   (COLON, []); (IDENTIFIER, bytes "int"); (RIGHT_BRACE, [])].

(** Without assertions the parser accepts more than the grammar: [Consume] then takes any
    token, so a struct whose opening brace is a parenthesis is parsed without an error. *)
Theorem release_accepts_more :
  exists f s', parse false 20 Parse (mkPState (mkList [] unbraced) []) = Some (f, s') /\
    reporter s' = [] /\ forall f', ~ sentence f' unbraced.
Proof.
  eexists _, _. split; [vm_compute; reflexivity|]. split; [done|]. intros f' Hf.
  assert (stream (mkList [] unbraced) unbraced) as Hs by (split; [done|repeat constructor; done]).
  destruct (Parse_complete true _ _ f' [] Hs Hf) as (f2 & s2 & _ & Hr & n0 & Hn).
  specialize (Hn (n0 + 20)%nat ltac:(lia)).
  assert (exists r, parse true 20 Parse (mkPState (mkList [] unbraced) []) = Some r /\
            reporter (snd r) <> []) as (r & Hrun & Hne).
  { eexists. split; [vm_compute; reflexivity|done]. }
  eapply parse_mono in Hrun; [|apply (Nat.le_add_l 20 n0)]. rewrite Hrun in Hn.
  injection Hn as ->. done.
Qed.

(** * Examples and witnesses *)

(** A program of one function. *)
Definition program : list Z := bytes "fun f() -> nil { return 1+2*x }".

Definition program_tokens : list Lexeme :=
  [ (FUN, bytes "fun"); (IDENTIFIER, bytes "f"); (LEFT_PAREN, []); (RIGHT_PAREN, []); (ARROW, []);
    (NIL, bytes "nil"); (LEFT_BRACE, []); (RETURN, bytes "return"); (INTEGER, bytes "1");
    (PLUS, []); (INTEGER, bytes "2"); (STAR, []); (IDENTIFIER, bytes "x"); (RIGHT_BRACE, []) ].

Definition program_tree : File :=
  mkFile no_pos
    [ FunctionDeclaration no_pos (bytes "f")
        (FunctionLiteralExpression (FunctionTypeRepr no_pos [] (Some (Id (bytes "nil"))))
           (BlockStatement no_pos no_pos
              [ ReturnStatement no_pos
                  (Some (BinaryOpExpression no_pos PLUS (Lit (IntLiteral 1))
                           (BinaryOpExpression no_pos STAR (Lit (IntLiteral 2)) (Id (bytes "x"))))) ])) ].

Lemma program_bytes : Forall byte_ok program.
Proof. repeat constructor; vm_compute; intuition congruence. Qed.

Ltac lex_keyword str :=
  lex_text (bytes str); [apply tt_keyword; reflexivity|reflexivity|].

Lemma program_lex : lex program program_tokens.
Proof.
  unfold program. lex_keyword "fun"; lex_blank; lex_word "f"; lex_fixed "("; lex_fixed ")";
    lex_blank; lex_fixed "->"; lex_blank; lex_keyword "nil"; lex_blank; lex_fixed "{"; lex_blank;
    lex_keyword "return"; lex_blank; lex_digits "1"; lex_fixed "+"; lex_digits "2"; lex_fixed "*";
    lex_word "x"; lex_blank; lex_fixed "}". constructor.
Qed.

Lemma program_stream : stream (mkList [] program_tokens) program_tokens.
Proof. split; [done|repeat constructor; done]. Qed.

Lemma program_sentence : sentence program_tree program_tokens.
Proof.
  destruct (parse true 40 Parse (mkPState (mkList [] program_tokens) [])) as [[f s]|] eqn:Hp;
    [|by vm_compute in Hp].
  pose proof Hp as Hp'. vm_compute in Hp'. injection Hp' as <- <-.
  apply (Parse_file_sound 40 _ _ _ _ [] program_stream Hp eq_refl).
Qed.

Lemma Parse_iff_witness : sentence program_tree program_tokens.
Proof.
  apply (Parse_iff _ _ _ program_stream). exists 40%nat.
  eexists _, _. split; [vm_compute; reflexivity|]. split; reflexivity.
Defined.

Lemma parse_source_correct_witness : exists f', strip_file f' = program_tree /\
  exists n0, forall n, (n0 <= n)%nat -> parse_source false n program = Some (f', []).
Proof.
  apply (parse_source_correct false program program_tokens program_tree program_bytes program_lex
           program_sentence).
Defined.

Lemma parse_source_sound_witness : exists f,
  parse_source true 60 program = Some (f, []) /\ sentence (strip_file f) program_tokens.
Proof.
  eexists. split; [vm_compute; reflexivity|].
  eapply (parse_source_sound 60 program program_tokens _ program_bytes program_lex).
  - apply (bool_decide_unpack _). vm_compute. done.
  - vm_compute. reflexivity.
Defined.

Lemma sentence_unambiguous_witness : program_tree = program_tree.
Proof.
  apply (sentence_unambiguous _ _ program_tokens program_sentence program_sentence).
Defined.

Lemma cut_off_diverges_witness :
  parse true 1000 ParseOperand
    (mkPState (mkList [] [(BUILTIN_IDENTIFIER, bytes "f"); (LEFT_PAREN, [])]) []) = None.
Proof.
  refine (proj1 (cut_off_diverges true 1000 (mkPState (mkList [] _) [])) (bytes "f") [] _).
  split; [reflexivity|]. repeat constructor; done.
Defined.

Definition empty_block : PState ListSource :=
  mkPState (mkList [] [(LEFT_BRACE, []); (RIGHT_BRACE, [])]) [].

Lemma positions_alias_witness :
  exists b s', parse true 20 ParseBlockStatement empty_block = Some (b, s') /\
    exists ss, b = BlockStatement (ts_position (scanner_ s')) (ts_position (scanner_ s')) ss.
Proof.
  assert (parse true 20 ParseBlockStatement empty_block =
    Some (BlockStatement no_pos no_pos [], mkPState (mkList [] []) [])) as Hr
    by (vm_compute; reflexivity).
  exists (BlockStatement no_pos no_pos []), (mkPState (mkList [] []) []).
  split; [exact Hr|].
  exact (proj1 (positions_alias true 20 empty_block (mkPState (mkList [] []) [])) _ Hr).
Defined.
