(* ===== verification/Driver.v ===== *)
(** The driver of the front end, [src/tpl.cpp]: parse, stop at errors, check, stop at errors.

    [None] is a run that does not end or that crashes; [Some None] one that prints errors. *)
From S2P Require Import Prelude Ast Types TypedAst ErrorReporter SemaChecking Sema ParserSpec.

(** The part of [CompileAndRun] before the generation of bytecode.  The errors of the parser and of the
    checker are in one reporter, that of the context. *)
Definition parse_and_check `{CppClasses} (debug : bool) (fuel : nat) (source : list Z) : option (option TFile) :=
  match parse_source debug fuel source with
  | None => None
  | Some (root, es) =>
      if HasErrors es then Some None
      else match Run root (new_Sema new_Context es) with
           | None => None
           | Some ((file, _), s') => if HasErrors (error_reporter_ s') then Some None else Some (Some file)
           end
  end.
