(* ===== verification/SemaTheorems.v ===== *)
(** The theorems about semantic analysis. *)
From S2P Require Import Prelude Token Ast TreeInduction Types TypedAst Builtins ErrorReporter SemaChecking SemaBuiltin Sema SemaSpec SemaFacts SemaSound.
From S2P Require Import Token Scanner ScannerSpec TokenSource Grammar ParserSpec Driver.

Section visitors.
Context `{CppClasses}.

(** One step of a run without errors. *)
Tactic Notation "step" ident(Hr) ident(C) simple_intropattern(a) ident(s1) ident(Hm) ident(C1) :=
  apply bind_inv in Hr as (a & s1 & Hm & Hr);
  assert (clean s1) as C1 by (refine (clean_before _ _ _ _ _ Hr C); keep_visits).

(** ** What nodes are given *)

Lemma UnaryOp_type_sound pos op t s u s' : UnaryOp_type pos op t s = Some (u, s') -> clean s' ->
  exists u', u = Some u' /\ unary_type op t u'.
Proof.
  intros Hr C. unfold UnaryOp_type in Hr. cbv zeta in Hr. destruct op; try discriminate Hr.
  - destruct (IsBoolType t) eqn:E; [|crunch Hr]. munfold Hr. simplify_eq. apply IsSpecificBuiltin_true in E as ->.
    eexists. split; [done|]. constructor.
  - destruct (IsArithmetic t) eqn:E; [|crunch Hr]. munfold Hr. simplify_eq. eexists. split; [done|].
    constructor; [auto|by apply Is_true_true].
  - destruct (IsFunctionType t) eqn:E; [crunch Hr|]. munfold Hr. simplify_eq. eexists. split; [done|]. by constructor.
  - destruct (IsArithmetic t) eqn:E; [|crunch Hr]. munfold Hr. simplify_eq. eexists. split; [done|].
    constructor; [auto|by apply Is_true_true].
  - destruct t as [| |b| | | |]; try (crunch Hr; fail). munfold Hr. simplify_eq. eexists. split; [done|]. constructor.
Qed.

Lemma Index_type_sound G pos ot it o i s u s' : has_type G o ot -> has_type G i it ->
  Index_type pos ot it i s = Some (u, s') -> clean s' -> exists u', u = Some u' /\ has_type G (TIndexExpression pos o i u) u'.
Proof.
  intros Ho Hi Hr C. unfold Index_type in Hr.
  destruct (negb (IsArrayType ot) && negb (IsMapType ot)) eqn:E; [crunch Hr|].
  destruct (IsIntegerType it) eqn:Ei; [|crunch Hr]. cbn [negb] in Hr. apply Is_true_true in Ei.
  destruct ot as [| | |n t|k v| |]; try discriminate.
  - enough (u = Some t /\ index_in_bounds n i) as [-> Hb] by (exists t; split; [done|by eapply T_index]).
    destruct i; try (crunch Hr; done). destruct value as [| |i| |]; try discriminate. cbn [index_in_bounds].
    destruct (i <? 0) eqn:E1; [crunch Hr|]. destruct (negb (HasUnknownLength n) && _) eqn:E2; [crunch Hr|]. munfold Hr. simplify_eq.
    split; [done|]. unfold HasUnknownLength in E2. bprop. destruct (n =? 0) eqn:E3; bprop; [auto|].
    cbn [negb andb] in E2. bprop. lia.
  - munfold Hr. simplify_eq. exists v. split; [done|]. by eapply T_map_index.
Qed.

Lemma Member_type_sound G pos t o m s u s' : has_type G o t -> Member_type pos t m s = Some (u, s') -> clean s' ->
  exists u', u = Some u' /\ has_type G (TMemberExpression pos o (untyped m) u) u'.
Proof.
  intros Ho Hr C. unfold Member_type in Hr. cbv zeta in Hr.
  destruct (match t with PointerType base => base | _ => t end) as [| | | | |n fs|] eqn:E; try (crunch Hr; fail).
  assert (struct_of t fs) as Hs by (destruct t; simplify_eq; constructor).
  destruct m; try (crunch Hr; fail). destruct (LookupFieldByName _ _) as [u0|] eqn:El; [|crunch Hr].
  munfold Hr. simplify_eq. exists u0. split; [done|]. by eapply T_member.
Qed.

Lemma Literal_type_sound v s t s' : Literal_type v s = Some (t, s') -> literal_has v t.
Proof.
  intros Hr. destruct v; cbn [Literal_type] in Hr; munfold Hr.
  - simplify_eq. by left.
  - simplify_eq. by right.
  - destruct (IsRepresentable _ _) as [[|]|] eqn:E; simplify_eq; right; done.
  - destruct (IsRepresentable _ _) as [[|]|] eqn:E; simplify_eq; right; done.
  - simplify_eq. by right.
Qed.

Lemma Identifier_type_sound pos name s t s' : Identifier_type pos name s = Some (t, s') -> clean s' ->
  exists t', t = Some t' /\ meaning (env_of (scope_ s)) name = Some t'.
Proof.
  intros Hr C. unfold Identifier_type in Hr. munfold Hr. unfold meaning. rewrite Lookup_env in Hr.
  destruct (visible _ !! _); [simplify_eq; eauto|]. destruct (LookupBuiltinType name); [simplify_eq; eauto|crunch Hr].
Qed.

Lemma Array_length_sound len s n s' : Array_length len s = Some (n, s') -> clean s' ->
  (len = None /\ n = Some 0) \/ exists p k, len = Some (LiteralExpression p (IntLiteral k)) /\ 0 <= k /\ n = Some (wrapu 64 k).
Proof.
  intros Hr C. destruct len as [e|]; cbn [Array_length] in Hr; [|munfold Hr; simplify_eq; auto]. right.
  destruct e; try (crunch Hr; fail). destruct value; try (crunch Hr; fail). destruct (n0 <? 0) eqn:E; [crunch Hr|].
  munfold Hr. simplify_eq. bprop. eauto 10.
Qed.

Lemma Struct_type_sound G pos fields fs s t s' : Forall2 (field_ok G) fields fs -> Struct_type fs s = Some (t, s') ->
  has_type G (TStructTypeRepr pos fields (Some t)) t /\
  (forall name, curr_decl_context_ s = StructContext name -> exists n, t = StructType n fs).
Proof.
  intros Hf Hr. unfold Struct_type in Hr. munfold Hr. destruct (curr_decl_context_ s) as [|name|]; simplify_eq.
  - split; [by apply T_struct_type|done].
  - destruct (StructType_Get _ _ _) as [[u ctx]|] eqn:E; [|done]. simplify_eq.
    assert (exists n, t = StructType (Some n) fs) as [n ->].
    { unfold StructType_Get in E. destruct (if decide _ then _ else _) as [[n c]|]; [|done]. cbn in E. simplify_eq. eauto. }
    split; [by apply T_named_struct_type|]. eauto.
  - split; [by apply T_struct_type|done].
Qed.

Lemma on_last_returns p rp stmts : Forall (fun s => IsTerminating s = Some true -> returns s) stmts ->
  on_last IsTerminating stmts = Some true -> returns (TBlockStatement p rp stmts).
Proof.
  intros Hall. change stmts with ([] ++ stmts) at 2. generalize (@nil TStatement).
  induction Hall as [|s stmts Hs Hall IH]; intros pre; [done|].
  destruct stmts as [|s2 stmts]; intros Hl; [by apply returns_block, Hs|].
  rewrite (cons_middle s pre (s2 :: stmts)), app_assoc. by apply IH.
Qed.
Lemma IsTerminating_returns : forall s, IsTerminating s = Some true -> returns s.
Proof.
  fix IH 1. intros s. destruct s as [|p rp stmts| | | | |p c t e|p r]; try discriminate.
  - exact (on_last_returns p rp stmts (children_ind _ IH stmts)).
  - destruct e as [e|]; [|discriminate]. cbn [IsTerminating]. intros Hr.
    destruct (IsTerminating t) as [[|]|] eqn:E; try discriminate. apply returns_if; apply IH; [exact E|exact Hr].
  - constructor.
Qed.

(** ** Scopes *)

Lemma with_scope_inv {A} kind (m : M A) s a s' : with_scope kind m s = Some (a, s') ->
  exists s2, m (set_scopes (mkScope kind ∅ :: scope_ s) s) = Some (a, s2) /\ s' = set_scopes (tail (scope_ s2)) s2.
Proof.
  unfold with_scope, EnterScope, ExitScope, modify, mbind, M_bind. destruct (m _) as [[b s2]|]; [|done].
  intros [= <- <-]. eauto.
Qed.
Lemma with_function_inv {A} type (m : M A) s a s' : with_function type m s = Some (a, s') ->
  exists s2, m (set_func (Some type) (set_scopes (mkScope FunctionScope ∅ :: scope_ s) s)) = Some (a, s2) /\
    (clean s' -> clean s2).
Proof.
  unfold with_function, EnterScope, ExitScope, get, modify, mbind, M_bind. destruct (m _) as [[b s2]|]; [|done].
  intros [= <- <-]. eauto.
Qed.
Lemma with_declaration_inv {A} d (m : M A) s a s' : with_declaration d m s = Some (a, s') ->
  exists s2, m (set_decl d s) = Some (a, s2) /\ s' = set_decl (curr_decl_context_ s) s2.
Proof.
  unfold with_declaration, get, modify, mbind, M_bind. destruct (m _) as [[b s2]|]; [|done].
  intros [= <- <-]. eauto.
Qed.

(** ** Functions *)

(** What the code around a statement expects of its returns. *)
Definition ret_of (f : option (option TplType)) : option TplType :=
  match f with Some (Some (FunctionType _ ret)) => Some ret | _ => None end.

(** A visitor of a statement is sound. *)
Definition sound_stmt (m : M TStatement) : Prop := forall s n s', scope_ s <> [] -> m s = Some (n, s') -> clean s' ->
  stmt_ok (env_of (scope_ s)) (ret_of (curr_func_ s)) n (env_of (scope_ s')).

Lemma Declare_nonempty sc name t : sc <> [] -> (Scope_Declare sc name t).1 <> [].
Proof. unfold Scope_Declare. destruct (Lookup sc name), sc; done. Qed.

Lemma declare_params_run params : forall s s', scope_ s <> [] ->
  foldr (fun (p : option Identifier * TplType) rest => declare p.1 p.2;; rest) (mret tt) params s = Some (tt, s') ->
  env_of (scope_ s') = extend_all (env_of (scope_ s)) params /\ curr_func_ s' = curr_func_ s /\ scope_ s' <> [].
Proof.
  induction params as [|p params IH]; intros s s' Hsc Hr; [by injection Hr as <-|].
  cbn [foldr] in Hr. apply bind_inv in Hr as ([] & s1 & Hd & Hr). injection Hd as <-.
  apply IH in Hr as (-> & -> & Hne); [|by apply Declare_nonempty]. split; [|done]. cbn.
  by rewrite env_Declare.
Qed.

Lemma stmts_ok_snoc G ret ss G1 st G2 : stmts_ok G ret ss G1 -> stmt_ok G1 ret st G2 -> stmts_ok G ret (ss ++ [st]) G2.
Proof.
  intros Hss Hst. revert Hss. revert G. induction ss as [|st' ss IH]; intros G Hss; inversion Hss; subst; cbn.
  - eapply L_cons; [done|constructor].
  - eapply L_cons; [done|by apply IH].
Qed.

Lemma check_terminates_sound G pos ret body G' s b s' : stmt_ok G (Some ret) body G' ->
  check_terminates pos ret body s = Some (b, s') -> clean s' -> (exists G2, stmt_ok G (Some ret) b G2) /\ returns b.
Proof.
  intros Hok Hr C. unfold check_terminates in Hr. destruct body as [|p rp stmts| | | | | |]; try discriminate.
  apply bind_inv in Hr as (t & s1 & Ht & Hr). destruct t.
  - injection Hr as <- <-. split; [eauto|]. apply IsTerminating_returns.
    destruct stmts; [discriminate|]. destruct (IsTerminating _) as [[|]|]; by try discriminate.
  - clear Ht. destruct (IsNilType ret) eqn:E; cbn [negb] in Hr; [|crunch Hr].
    munfold Hr. simplify_eq. apply IsSpecificBuiltin_true in E as ->. inversion Hok; subst.
    split; [|apply returns_block; constructor]. eexists. eapply S_block, stmts_ok_snoc; [done|constructor].
Qed.

Lemma check_function_sound m pos ps ret s b s' : keeps moves m -> sound_stmt m ->
  check_function m pos (Some (FunctionType ps ret)) s = Some (b, s') -> clean s' ->
  (exists G, stmt_ok (extend_all (enter (env_of (scope_ s))) ps) (Some ret) b G) /\ returns b.
Proof.
  intros Hk Hm Hr C. apply with_function_inv in Hr as (s2 & Hr & C2). specialize (C2 C). clear C.
  pose proof declare_params_moves. step Hr C2 [] s3 Hp C3.
  apply declare_params_run in Hp as (Henv & Hfunc & Hne); [|done]. step Hr C2 body s4 Hb C4.
  apply (Hm _ _ _ Hne) in Hb; [|exact C4]. rewrite Henv, Hfunc in Hb. cbn [scope_ set_func set_scopes curr_func_ ret_of] in Hb.
  rewrite env_enter in Hb. by eapply check_terminates_sound.
Qed.

(** ** Lists of children *)

(** A visitor of an expression is sound. *)
Definition sound_expr (m : M TExpression) : Prop := forall s e s', m s = Some (e, s') -> clean s' ->
  exists t, has_type (env_of (scope_ s)) e t.

Lemma stable_scopes {A} (m : M A) s a s' : keeps stable m -> m s = Some (a, s') -> scope_ s' = scope_ s.
Proof. intros Hk Hr. by apply Hk in Hr as (_ & E & _). Qed.

Lemma resolve_args_sound l : Forall (fun e => sound_expr (visit e)) l -> forall s xs ok s',
  resolve_args visit l s = Some ((xs, ok), s') -> clean s' ->
  ok = true /\ exists z, xs = z.*1 /\ typed_args (env_of (scope_ s)) z.
Proof.
  induction 1 as [|e l He Hl IH]; intros s xs ok s' Hr C; cbn [resolve_args] in Hr.
  { munfold Hr. simplify_eq. split; [done|]. exists []. split; [done|constructor]. }
  step Hr C x s1 Hx C1. pose proof (stable_scopes _ _ _ _ (visit_stable e) Hx) as Es.
  destruct (He _ _ _ Hx C1) as [t Ht]. rewrite (has_type_GetType _ _ _ Ht) in Hr.
  step Hr C [xs' ok'] s2 Hxs C2. injection Hr as <- <- <-. apply IH in Hxs as (-> & z & -> & Hz); [|done].
  split; [done|]. exists ((x, t) :: z). split; [done|]. rewrite Es in Hz. by constructor.
Qed.

Lemma check_call_args_sound G name ps : forall z n s xs ok s', typed_args G z -> length z = length ps ->
  check_call_args name ps z.*1 n s = Some ((xs, ok), s') -> clean s' ->
  ok = true /\ Forall2 (has_type G) xs (map snd ps).
Proof.
  induction ps as [|p ps IH]; intros [|[e t] z] n s xs ok s' Hz Hlen Hr C; try done.
  { cbn [fmap list_fmap check_call_args] in Hr. munfold Hr. simplify_eq. split; [done|constructor]. }
  apply Forall_cons in Hz as [He Hz]. cbn [fst snd] in He. cbn [fmap list_fmap check_call_args fst] in Hr.
  step Hr C [ok1 e'] s1 Hc C1. step Hr C u s2 Hu C2. step Hr C [xs' ok'] s3 Hxs C3. injection Hr as <- <- <-.
  apply IH in Hxs as [-> Hall]; [|done|by injection Hlen|done]. destruct ok1.
  - split; [done|]. constructor; [by eapply Check_sound|done].
  - crunch Hu.
Qed.

(** The name of a field. *)
Definition field_name (f : FieldDeclaration) : option Identifier := match f with mkFieldDeclaration _ n _ => n end.
Definition sound_field (f : FieldDeclaration) : Prop := forall s f' s', visit_field f s = Some (f', s') -> clean s' ->
  exists t, field_ok (env_of (scope_ s)) f' (field_name f, t) /\ field_type f' = Some (field_name f, t).

Lemma resolve_fields_sound l : Forall sound_field l -> forall s xs ts s',
  resolve_fields visit_field l s = Some ((xs, ts), s') -> clean s' ->
  exists ps, ts = Some ps /\ Forall2 (field_ok (env_of (scope_ s))) xs ps /\ map fst ps = map field_name l.
Proof.
  induction 1 as [|f l Hf Hl IH]; intros s xs ts s' Hr C; cbn [resolve_fields] in Hr.
  { munfold Hr. simplify_eq. exists []. split; [done|]. split; [constructor|done]. }
  step Hr C x s1 Hx C1. pose proof (stable_scopes _ _ _ _ (visit_field_stable f) Hx) as Es.
  destruct (Hf _ _ _ Hx C1) as (t & Ht & Eft). rewrite Eft in Hr.
  step Hr C [xs' ts'] s2 Hxs C2. injection Hr as <- <- <-. apply IH in Hxs as (ps & -> & Hps & En); [|done].
  exists ((field_name f, t) :: ps). split; [done|]. rewrite Es in Hps. split; [by constructor|]. cbn. by rewrite En.
Qed.

(** ** Nodes *)

Lemma stable_func {A} (m : M A) s a s' : keeps stable m -> m s = Some (a, s') -> curr_func_ s' = curr_func_ s.
Proof. intros Hk Hr. by apply Hk in Hr as (_ & _ & E & _). Qed.
Lemma sound_scopes m s e s' s0 : sound_expr m -> m s = Some (e, s') -> clean s' -> scope_ s = scope_ s0 ->
  exists t, GetType e = Some t /\ has_type (env_of (scope_ s0)) e t.
Proof. intros Hm Hr C Es. destruct (Hm _ _ _ Hr C) as [t Ht]. exists t. rewrite <- Es. split; [by eapply has_type_GetType|done]. Qed.

(** A child is visited: its type replaces the question for it. *)
Tactic Notation "child" ident(Hr) ident(C) constr(IH) constr(keep_child) ident(Es) "as" ident(x) ident(s1) ident(t) ident(Ht) ident(C1) :=
  let Hx := fresh in let Et := fresh in let Es' := fresh in let Ef := fresh "Ef" in
  step Hr C x s1 Hx C1;
  pose proof (stable_func _ _ _ _ keep_child Hx) as Ef;
  pose proof (stable_scopes _ _ _ _ keep_child Hx) as Es';
  destruct (sound_scopes _ _ _ _ _ IH Hx C1 Es) as (t & Et & Ht);
  rewrite ?Et in Hr; apply (eq_trans Es') in Es; clear Hx Es'.

Lemma binary_sound pos op l r : bool_decide (op ∈ AND :: OR :: arithmetic_ops) = true -> sound_expr (visit l) -> sound_expr (visit r) ->
  sound_expr (visit (BinaryOpExpression pos op l r)).
Proof.
  intros Hop Hl Hr s e s' He C. cbn [visit] in He. pose proof (eq_refl (scope_ s)) as Es.
  child He C Hl (visit_stable l) Es as l' s1 tl Htl C1. child He C Hr (visit_stable r) Es as r' s2 tr Htr C2.
  assert (forall chk : M CheckResult, keeps stable chk ->
    (forall res s3, chk s2 = Some (res, s3) -> clean s3 -> operands_ok (env_of (scope_ s)) (TBinaryOpExpression pos op) res) ->
    (r0 ← chk; mret (TBinaryOpExpression pos op (result_left r0) (result_right r0) (result_type r0))) s2 = Some (e, s') ->
    exists t, has_type (env_of (scope_ s)) e t) as Hend.
  { intros chk Hk Hs Hrun. step Hrun C res s3 Hc C3. injection Hrun as <- <-. destruct (Hs _ _ Hc C3) as (t & -> & Ht). by exists t. }
  destruct op; try (vm_compute in Hop; discriminate Hop); clear Hop.
  all: try (eapply Hend; [apply CheckArithmeticOperands_stable| |exact He]; intros res s3 Hc C3;
            eapply CheckArithmeticOperands_sound; [by apply (bool_decide_unpack _)|exact Htl|exact Htr|exact Hc|exact C3]; fail).
  all: eapply Hend; [apply CheckLogicalOperands_stable| |exact He]; intros res s3 Hc C3;
       eapply CheckLogicalOperands_sound; [auto|exact Htl|exact Htr|exact Hc|exact C3].
Qed.

Lemma comparison_sound pos op l r : bool_decide (op ∈ comparison_ops) = true -> sound_expr (visit l) -> sound_expr (visit r) ->
  sound_expr (visit (ComparisonOpExpression pos op l r)).
Proof.
  intros Hop Hl Hr s e s' He C. cbn [visit] in He. pose proof (eq_refl (scope_ s)) as Es.
  child He C Hl (visit_stable l) Es as l' s1 tl Htl C1. child He C Hr (visit_stable r) Es as r' s2 tr Htr C2.
  assert ((r0 ← CheckComparisonOperands op pos l' r';
     mret (TComparisonOpExpression pos op (result_left r0) (result_right r0) (result_type r0))) s2 = Some (e, s')) as Hrun.
  { destruct op; try exact He; vm_compute in Hop; discriminate Hop. }
  apply bool_decide_eq_true in Hop. clear He. step Hrun C res s3 Hc C3. injection Hrun as <- <-.
  eapply CheckComparisonOperands_sound in Hc as (t & -> & Ht); [|done|exact Htl|exact Htr|exact C3]. by exists t.
Qed.

Lemma CheckBuiltinIntCast_sound p name t i m : IsBuiltinFunction name = Some IntCast -> keeps stable m -> sound_expr m ->
  sound_expr (CheckBuiltinIntCast (IdentifierExpression p name) t i m).
Proof.
  intros Hb Hk Hm s e s' He C. unfold CheckBuiltinIntCast in He. cbv zeta in He. pose proof (eq_refl (scope_ s)) as Es.
  destruct t; try (crunch He; fail). destruct (LookupBuiltinType name0) as [t|] eqn:Et; [|discriminate].
  change (deref (Some t)) with (mret (M:=M) t) in He.
  step He C t' s1 Ht C1. injection Ht as <- <-. destruct (IsIntegerType t) eqn:Ei; cbn [negb] in He; [|crunch He].
  child He C Hm Hk Es as x s2 u Hu C2. destruct (IsIntegerType u) eqn:Eu; cbn [negb] in He; [|crunch He].
  injection He as <- <-. exists t. eapply T_int_cast; [done..|by apply Is_true_true| |by apply Is_true_true]. done.
Qed.

Lemma CheckBuiltinPtrCast_sound p name i mt m : IsBuiltinFunction name = Some PtrCast ->
  keeps stable mt -> sound_expr mt -> keeps stable m -> sound_expr m ->
  sound_expr (CheckBuiltinPtrCast (IdentifierExpression p name) i mt m).
Proof.
  intros Hb Hkt Hmt Hk Hm s e s' He C. unfold CheckBuiltinPtrCast in He. pose proof (eq_refl (scope_ s)) as Es.
  child He C Hmt Hkt Es as te s1 t Ht C1. child He C Hm Hk Es as x s2 u Hu C2.
  destruct t as [| |t| | | |]; try (crunch He; fail). destruct u as [| |u| | | |]; try (crunch He; fail).
  injection He as <- <-. exists (PointerType t). by eapply T_ptr_cast.
Qed.

Lemma CheckBuiltinOffsetOf_sound p name f m : IsBuiltinFunction name = Some OffsetOf -> keeps stable m -> sound_expr m ->
  sound_expr (CheckBuiltinOffsetOf (IdentifierExpression p name) f m).
Proof.
  intros Hb Hk Hm s e s' He C. unfold CheckBuiltinOffsetOf, ReportIncorrectCallArg_text, ReportIncorrectCallArg in He.
  cbv zeta in He. pose proof (eq_refl (scope_ s)) as Es. child He C Hm Hk Es as o s1 t Ht C1.
  destruct t as [| | | | |n fs|]; try (crunch He; fail). destruct f; try (crunch He; fail).
  destruct (LookupFieldByName fs (Some name0)) as [u|] eqn:El; [|crunch He].
  injection He as <- <-. eexists. by eapply T_offset_of.
Qed.

Lemma ptr_cast_type_sound pos base : sound_expr (visit base) ->
  sound_expr (base ← visit base; mret (TPointerTypeRepr pos (Some base) (PointerTo <$> GetType base))).
Proof.
  intros Hb s e s' He C. pose proof (eq_refl (scope_ s)) as Es. child He C Hb (visit_stable base) Es as b s1 t Ht C1.
  injection He as <- <-. exists (PointerType t). by apply T_pointer_type.
Qed.

(** What may be asked of the arguments of a call. *)
Definition sound_arg (a : Expression) : Prop :=
  sound_expr (visit a) /\ match a with UnaryOpExpression _ _ e => sound_expr (visit e) | _ => True end.

Lemma zip_fst_snd (z : list (TExpression * TplType)) : zip z.*1 z.*2 = z.
Proof. induction z as [|[a t] z IH]; cbn; [done|]. by rewrite IH. Qed.
Lemma typed_args_Forall2 G z : typed_args G z -> Forall2 (has_type G) z.*1 z.*2.
Proof. induction 1; cbn; by constructor. Qed.

Lemma resolved_builtin_sound p name b args : IsBuiltinFunction name = Some b -> b <> Concat ->
  Forall (fun a => sound_expr (visit a)) args ->
  sound_expr ('(args, ok) ← resolve_args visit args;
    if negb ok then mret (builtin_call (IdentifierExpression p name) args None)
    else '(args, type) ← CheckBuiltinCall_switch b (TIdentifierExpression p name None) args;
         mret (builtin_call (IdentifierExpression p name) args type)).
Proof.
  intros Hb Hne Hargs s e s' He C. step He C [xs ok] s1 Hx C1.
  destruct (resolve_args_sound _ Hargs _ _ _ _ Hx C1) as (-> & z & -> & Hz). cbn [negb] in He.
  step He C r s2 Hc C2. destruct (CheckBuiltinCall_switch_sound _ _ _ _ _ _ _ Hne Hz Hc C2) as (t & z' & -> & Hz' & Ha).
  injection He as <- <-. exists t. eapply T_builtin; [done|by apply typed_args_Forall2|by rewrite zip_fst_snd].
Qed.

(** The number of arguments of a builtin that visits them itself. *)
Lemma two_args_sound p name args (k : M TExpression) : keeps moves k -> (length args = 2%nat -> sound_expr k) ->
  sound_expr (ok ← CheckArgCount (TIdentifierExpression p name None) (map untyped args) 2;
    if negb ok then mret (builtin_call (IdentifierExpression p name) (map untyped args) None) else k).
Proof.
  intros Hk Hs s e s' He C. step He C ok s1 Hn C1. apply CheckArgCount_sound in Hn as (-> & Hn & ->); [|done].
  rewrite length_map in Hn. by eapply Hs.
Qed.

Lemma builtin_call_sound p name args : supported (CallExpression Builtin (IdentifierExpression p name) args) = true ->
  Forall sound_arg args -> sound_expr (visit (CallExpression Builtin (IdentifierExpression p name) args)).
Proof.
  intros Hsup Hargs s e s' He C. cbn [visit untyped GetFuncName] in He. cbv zeta in He.
  change (deref (Some name)) with (mret (M:=M) name) in He. step He C n s1 Hn C1. injection Hn as <- <-.
  destruct (IsBuiltinFunction name) as [b|] eqn:Eb; [|crunch He].
  assert (Forall (fun a => sound_expr (visit a)) args) as Hvis by (eapply Forall_impl; [exact Hargs|by intros a []]).
  assert (b <> Concat) as Hne by (intros ->; cbn [supported] in Hsup; by rewrite Eb in Hsup).
  pose proof (resolved_builtin_sound p name b args Eb Hne Hvis s e s') as Hres.
  destruct b; try (exact (Hres He C)); clear Hres; revert e s' He C; apply two_args_sound; keep_visits;
    intros Hlen; destruct args as [|a0 [|a1 [|]]]; try discriminate; clear Hlen; rewrite !Forall_cons in Hargs;
    destruct Hargs as ([Ha0 Hpart] & [Ha1 _] & _).
  - by apply CheckBuiltinOffsetOf_sound; [|apply visit_stable|].
  - by apply CheckBuiltinIntCast_sound; [|apply visit_stable|].
  - destruct a0; try by apply CheckBuiltinPtrCast_sound; [|apply visit_stable|..|apply visit_stable|].
    destruct op; try (intros s0 e1 s1 He C; crunch He; fail).
    apply CheckBuiltinPtrCast_sound; [done|keep|by apply ptr_cast_type_sound|apply visit_stable|done].
Qed.

Lemma regular_call_sound f args : sound_expr (visit f) -> Forall (fun a => sound_expr (visit a)) args ->
  sound_expr (visit (CallExpression Regular f args)).
Proof.
  intros Hf Hargs s e s' He C. cbn [visit] in He. cbv zeta in He. pose proof (eq_refl (scope_ s)) as Es.
  child He C Hf (visit_stable f) Es as f' s1 t Ht C1. destruct t as [| | | | | |ps ret]; try (crunch He; fail).
  step He C ok s2 Hn C2. apply CheckArgCount_sound in Hn as (-> & Hn & ->); [|done]. rewrite length_map in Hn. cbn [negb] in He.
  step He C [xs ok] s2 Hx C3. pose proof (stable_scopes _ _ _ _ (resolve_args_visit_stable args) Hx) as Es2.
  assert (length xs = length args) as Hlen.
  { destruct ok; [|by apply (resolve_args_sound _ Hargs) in Hx as [? _]].
    clear -Hx. revert s1 xs s2 Hx. induction args as [|a args IH]; intros s1 xs s2 Hx; cbn [resolve_args] in Hx.
    - by injection Hx as <- <-.
    - apply bind_inv in Hx as (x & s3 & _ & Hx). destruct (GetType x); [|done].
      apply bind_inv in Hx as ([xs' ok'] & s4 & Hx' & Hx). injection Hx as <- -> <-. cbn. f_equal. by eapply IH. }
  destruct (resolve_args_sound _ Hargs _ _ _ _ Hx C3) as (-> & z & -> & Hz). rewrite Es in Hz. cbn [negb] in He.
  step He C [ys ok] s4 Hc C4.
  apply (check_call_args_sound (env_of (scope_ s))) in Hc as [-> Hall]; [|done|by rewrite length_fmap in Hlen; congruence|done].
  injection He as <- <-. exists ret. by eapply T_call.
Qed.

Lemma function_literal_sound t b : sound_expr (visit t) -> sound_stmt (visit_stmt b) ->
  sound_expr (visit (FunctionLiteralExpression t b)).
Proof.
  intros Ht Hb s e s' He C. cbn [visit] in He. pose proof (eq_refl (scope_ s)) as Es.
  child He C Ht (visit_stable t) Es as t' s1 u Hu C1. step He C b' s2 Hc C2. injection He as <- <-.
  assert (exists ps ret, u = FunctionType ps ret) as (ps & ret & ->) by (destruct u; try discriminate; eauto).
  apply check_function_sound in Hc as [[G Hok] Hret]; [|apply visit_stmt_moves|done|done].
  rewrite Es in Hok. eexists. by eapply T_function.
Qed.

Lemma index_sound pos o i : sound_expr (visit o) -> sound_expr (visit i) -> sound_expr (visit (IndexExpression pos o i)).
Proof.
  intros Ho Hi s e s' He C. cbn [visit] in He. pose proof (eq_refl (scope_ s)) as Es.
  child He C Ho (visit_stable o) Es as o' s1 t Ht C1. child He C Hi (visit_stable i) Es as i' s2 u Hu C2.
  step He C ty s3 Hty C3. destruct (Index_type_sound _ _ _ _ _ _ _ _ _ Ht Hu Hty C3) as (v & -> & Hv).
  injection He as <- <-. eauto.
Qed.

Lemma member_sound pos o m : sound_expr (visit o) -> sound_expr (visit (MemberExpression pos o m)).
Proof.
  intros Ho s e s' He C. cbn [visit] in He. pose proof (eq_refl (scope_ s)) as Es.
  child He C Ho (visit_stable o) Es as o' s1 t Ht C1.
  step He C ty s3 Hty C3. destruct (Member_type_sound _ _ _ _ _ _ _ _ Ht Hty C3) as (v & -> & Hv).
  injection He as <- <-. eauto.
Qed.

Lemma unary_sound pos op x : sound_expr (visit x) -> sound_expr (visit (UnaryOpExpression pos op x)).
Proof.
  intros Ho s e s' He C. cbn [visit] in He. pose proof (eq_refl (scope_ s)) as Es.
  child He C Ho (visit_stable x) Es as o' s1 t Ht C1.
  step He C ty s3 Hty C3. destruct (UnaryOp_type_sound _ _ _ _ _ _ Hty C3) as (v & -> & Hv).
  injection He as <- <-. exists v. by eapply T_unary.
Qed.

(** A child a type needs. *)
Lemma visit_child_sound o : on_child (fun e => sound_expr (visit e)) o -> sound_expr (visit_child visit o).
Proof. by destruct o; [|intros _ s e s' ?]. Qed.

Lemma array_type_sound pos len t : on_child (fun e => sound_expr (visit e)) t -> sound_expr (visit (ArrayTypeRepr pos len t)).
Proof.
  intros Ht%visit_child_sound s e s' He C. cbn [visit] in He. pose proof (eq_refl (scope_ s)) as Es.
  step He C n s1 Hn C1. pose proof (stable_scopes _ _ _ _ (Array_length_stable len) Hn) as Es1.
  pose proof (Array_length_sound _ _ _ _ Hn C1) as Hlen. apply (eq_trans Es1) in Es. clear Es1 Hn.
  destruct Hlen as [[-> ->]|(p & k & -> & Hk & ->)];
    (child He C Ht (visit_child_visit_stable t) Es as x s2 u Hu C2; injection He as <- <-).
  - eexists. by apply T_array_type.
  - eexists. by apply T_sized_array_type.
Qed.

Lemma function_type_sound pos ps r : Forall sound_field ps -> on_child (fun e => sound_expr (visit e)) r ->
  sound_expr (visit (FunctionTypeRepr pos ps r)).
Proof.
  intros Hps Hr%visit_child_sound s e s' He C. cbn [visit] in He. pose proof (eq_refl (scope_ s)) as Es.
  step He C [xs ts] s1 Hx C1. pose proof (stable_scopes _ _ _ _ (resolve_fields_visit_stable ps) Hx) as Es1.
  destruct (resolve_fields_sound _ Hps _ _ _ _ Hx C1) as (us & -> & Hus & _). apply (eq_trans Es1) in Es. clear Es1 Hx.
  child He C Hr (visit_child_visit_stable r) Es as x s2 u Hu C2. injection He as <- <-.
  eexists. by apply T_function_type.
Qed.

Lemma map_type_sound pos k v : on_child (fun e => sound_expr (visit e)) k -> on_child (fun e => sound_expr (visit e)) v ->
  sound_expr (visit (MapTypeRepr pos k v)).
Proof.
  intros Hk%visit_child_sound Hv%visit_child_sound s e s' He C. cbn [visit] in He. pose proof (eq_refl (scope_ s)) as Es.
  child He C Hk (visit_child_visit_stable k) Es as x s1 t Ht C1. child He C Hv (visit_child_visit_stable v) Es as y s2 u Hu C2.
  injection He as <- <-. eexists. by apply T_map_type.
Qed.

Lemma pointer_type_sound pos b : on_child (fun e => sound_expr (visit e)) b -> sound_expr (visit (PointerTypeRepr pos b)).
Proof.
  intros Hb%visit_child_sound s e s' He C. cbn [visit] in He. pose proof (eq_refl (scope_ s)) as Es.
  child He C Hb (visit_child_visit_stable b) Es as x s1 t Ht C1. injection He as <- <-. eexists. by apply T_pointer_type.
Qed.

Lemma struct_type_sound pos fs s e s' : Forall sound_field fs -> visit (StructTypeRepr pos fs) s = Some (e, s') -> clean s' ->
  exists t ts, has_type (env_of (scope_ s)) e t /\ map fst ts = map field_name fs /\
    forall name, curr_decl_context_ s = StructContext name -> exists n, t = StructType n ts.
Proof.
  intros Hfs He C. cbn [visit] in He.
  step He C [xs ts] s1 Hx C1. pose proof (resolve_fields_visit_stable fs _ _ _ Hx) as (_ & _ & _ & Ed).
  destruct (resolve_fields_sound _ Hfs _ _ _ _ Hx C1) as (us & -> & Hus & En). clear Hx.
  step He C t s2 Ht C2. injection He as <- <-. apply (Struct_type_sound _ pos _ _ _ _ _ Hus) in Ht as [Ht Hname].
  exists t, us. split; [done|]. split; [done|]. by rewrite <- Ed.
Qed.

(** The names of the fields and parameters of a type are those of the declaration. *)
Definition keeps_names (e : Expression) : Prop := forall s e' s', visit e s = Some (e', s') -> clean s' ->
  match e with
  | FunctionTypeRepr _ ps _ => exists ts ret, GetType e' = Some (FunctionType ts ret) /\ map fst ts = map field_name ps
  | StructTypeRepr _ fs =>
      exists t ts, GetType e' = Some t /\ map fst ts = map field_name fs /\
        forall name, curr_decl_context_ s = StructContext name -> exists n, t = StructType n ts
  | _ => True
  end.

Lemma function_type_names pos ps r : Forall sound_field ps -> on_child (fun e => sound_expr (visit e)) r ->
  keeps_names (FunctionTypeRepr pos ps r).
Proof.
  intros Hps Hr%visit_child_sound s e s' He C. cbn [visit] in He.
  step He C [xs ts] s1 Hx C1. destruct (resolve_fields_sound _ Hps _ _ _ _ Hx C1) as (us & -> & _ & En).
  pose proof (eq_refl (scope_ s1)) as Es.
  child He C Hr (visit_child_visit_stable r) Es as x s2 u Hu C2. injection He as <- <-. exists us, u. done.
Qed.
Lemma struct_type_names pos fs : Forall sound_field fs -> keeps_names (StructTypeRepr pos fs).
Proof.
  intros Hfs s e s' He C. destruct (struct_type_sound _ _ _ _ _ Hfs He C) as (t & ts & Ht & En & Hname).
  exists t, ts. split; [by eapply has_type_GetType|done].
Qed.

Lemma field_sound p n t : on_child (fun e => sound_expr (visit e)) t -> sound_field (mkFieldDeclaration p n t).
Proof.
  intros Ht%visit_child_sound s f s' Hf C. cbn [visit_field] in Hf. apply with_declaration_inv in Hf as (s2 & Hf & ->).
  step Hf C x s1 Hx C1. destruct (Ht _ _ _ Hx C1) as [u Hu]. injection Hf as <- <-. exists u. cbn [field_name field_type].
  rewrite (has_type_GetType _ _ _ Hu). split; [by constructor|done].
Qed.

(** ** Statements *)

Lemma moves_state {A} (m : M A) s a s' : keeps moves m -> m s = Some (a, s') ->
  curr_func_ s' = curr_func_ s /\ (scope_ s <> [] -> scope_ s' <> []).
Proof.
  intros Hk Hr. apply Hk in Hr as (_ & (_ & Ek & _) & Ef & _). split; [done|]. intros Hne E. rewrite E in Ek.
  by destruct (scope_ s).
Qed.

Lemma stmts_sound l : Forall (fun n => sound_stmt (visit_stmt n)) l -> forall s xs s', scope_ s <> [] ->
  visit_all visit_stmt l s = Some (xs, s') -> clean s' ->
  stmts_ok (env_of (scope_ s)) (ret_of (curr_func_ s)) xs (env_of (scope_ s')).
Proof.
  induction 1 as [|n l Hn Hl IH]; intros s xs s' Hne Hr C; cbn [visit_all] in Hr.
  { injection Hr as <- <-. constructor. }
  step Hr C x s1 Hx C1. step Hr C xs' s2 Hxs C2. injection Hr as <- <-.
  destruct (moves_state _ _ _ _ (visit_stmt_moves n) Hx) as [Ef Hne1]. specialize (Hne1 Hne).
  eapply L_cons; [exact (Hn _ _ _ Hne Hx C1)|]. rewrite <- Ef. by apply IH.
Qed.

Lemma optional_stmt_sound o : on_child (fun n => sound_stmt (visit_stmt n)) o -> forall s x s', scope_ s <> [] ->
  visit_optional visit_stmt o s = Some (x, s') -> clean s' ->
  optional_ok (env_of (scope_ s)) (ret_of (curr_func_ s)) x (env_of (scope_ s')).
Proof.
  destruct o as [n|]; intros Hn s x s' Hne Hr C; cbn [visit_optional] in Hr.
  - step Hr C y s1 Hy C1. injection Hr as <- <-. constructor. exact (Hn _ _ _ Hne Hy C1).
  - injection Hr as <- <-. constructor.
Qed.

(** A statement in a scope of its own. *)
Lemma scoped_stmt kind (m : M TStatement) :
  (forall s n s', scope_ s <> [] -> m s = Some (n, s') -> clean s' ->
    forall G, env_of (scope_ s) = enter G -> stmt_ok G (ret_of (curr_func_ s)) n G) ->
  keeps moves m -> sound_stmt (with_scope kind m).
Proof.
  intros Hm Hk s n s' Hne Hr C. apply with_scope_inv in Hr as (s2 & Hr & ->).
  pose proof (Hk _ _ _ Hr) as (_ & (Et & _) & _). cbn [scope_ set_scopes tail] in Et |- *. rewrite Et.
  refine (Hm _ n s2 _ Hr C (env_of (scope_ s)) (env_enter kind (scope_ s))). done.
Qed.

Lemma block_sound p rp l : Forall (fun n => sound_stmt (visit_stmt n)) l -> sound_stmt (visit_stmt (BlockStatement p rp l)).
Proof.
  intros Hl. cbn [visit_stmt]. apply scoped_stmt; [|keep_visits]. intros s n s' Hne Hr C G EG.
  step Hr C xs s1 Hx C1. injection Hr as <- <-. eapply S_block. rewrite <- EG. by eapply stmts_sound.
Qed.

Lemma assignment_sound p d x : sound_expr (visit d) -> sound_expr (visit x) -> sound_stmt (visit_stmt (AssignmentStatement p d x)).
Proof.
  intros Hd Hx s n s' Hne Hr C. cbn [visit_stmt] in Hr. pose proof (eq_refl (scope_ s)) as Es.
  child Hr C Hx (visit_stable x) Es as x' s1 t Ht C1. child Hr C Hd (visit_stable d) Es as d' s2 u Hu C2.
  step Hr C [ok y] s3 Hc C3. destruct ok; [|crunch Hr]. injection Hr as <- <-.
  pose proof (Check_same _ _ _ _ _ _ Hc) as [-> _]. rewrite Es. eapply S_assignment; [|done]. by eapply (Check_sound _ t).
Qed.

Lemma if_sound p c t e : sound_expr (visit c) -> sound_stmt (visit_stmt t) -> on_child (fun n => sound_stmt (visit_stmt n)) e ->
  sound_stmt (visit_stmt (IfStatement p c t e)).
Proof.
  intros Hc Ht He s n s' Hne Hr C. cbn [visit_stmt] in Hr. pose proof (eq_refl (scope_ s)) as Es.
  child Hr C Hc (visit_stable c) Es as c' s1 u Hu C1. cbv zeta in Hr.
  set (c'' := if IsSpecificBuiltin u BooleanVal then _ else _) in Hr.
  assert (exists v, has_type (env_of (scope_ s)) c'' v) as [v Hv].
  { subst c''. destruct (IsSpecificBuiltin u BooleanVal) eqn:E; [|by exists u].
    apply IsSpecificBuiltin_true in E as ->. eexists. by apply T_sql_bool. }
  rewrite (has_type_GetType _ _ _ Hv) in Hr. step Hr C v' s2 Hv' C2. injection Hv' as <- <-.
  step Hr C [] s2 Hu' C3. assert (v = builtin_type Bool /\ s2 = s1) as [-> ->].
  { destruct (IsBoolType v) eqn:E; [|crunch Hu']. injection Hu' as <-. by apply IsSpecificBuiltin_true in E. }
  assert (scope_ s1 <> []) as Hne1 by (by rewrite Es).
  step Hr C t' s2 Hx C4. destruct (moves_state _ _ _ _ (visit_stmt_moves t) Hx) as [Ef2 Hne2].
  apply (Ht _ _ _ Hne1) in Hx; [|exact C4]. step Hr C e' s3 Hx' C5. injection Hr as <- <-.
  apply (optional_stmt_sound _ He) in Hx'; [|auto|done]. rewrite <- Es in Hv |- *. rewrite Ef2, Ef in Hx'. rewrite Ef in Hx.
  by eapply S_if.
Qed.

Lemma for_sound p i c n b : on_child (fun n => sound_stmt (visit_stmt n)) i -> on_child (fun e => sound_expr (visit e)) c ->
  on_child (fun n => sound_stmt (visit_stmt n)) n -> sound_stmt (visit_stmt b) -> sound_stmt (visit_stmt (ForStatement p i c n b)).
Proof.
  intros Hi Hc Hn Hb. cbn [visit_stmt]. apply scoped_stmt; [|keep_visits]. cbv zeta. intros s x s' Hne Hr C G EG.
  step Hr C i' s1 Hx C1. destruct (moves_state _ _ _ _ (visit_optional_stmt_moves i) Hx) as [Ef1 Hne1].
  specialize (Hne1 Hne). apply (optional_stmt_sound _ Hi) in Hx; [|done|done]. rewrite EG in Hx.
  assert (forall c s2, (forall e, c = Some e -> has_type (env_of (scope_ s1)) e (builtin_type Bool)) ->
    scope_ s2 = scope_ s1 -> curr_func_ s2 = curr_func_ s1 ->
    (next ← visit_optional visit_stmt n; body ← visit_stmt b; mret (TForStatement p i' c next body)) s2 = Some (x, s') ->
    stmt_ok G (ret_of (curr_func_ s)) x G) as Hend.
  { clear Hr. intros c' s2 Hc' Es2 Ef2 Hr. step Hr C n' s3 Hn' C2.
    destruct (moves_state _ _ _ _ (visit_optional_stmt_moves n) Hn') as [Ef3 Hne3].
    apply (optional_stmt_sound _ Hn) in Hn'; [|by rewrite Es2|done]. step Hr C b' s4 Hb' C3. injection Hr as <- <-.
    assert (scope_ s3 <> []) as Hne3' by (apply Hne3; by rewrite Es2).
    apply (Hb _ _ _ Hne3') in Hb'; [|exact C3]. rewrite Ef3, Ef2, Ef1 in Hb'. rewrite Ef2, Ef1, Es2 in Hn'.
    by eapply S_for. }
  destruct c as [c|].
  - pose proof (eq_refl (scope_ s1)) as Es. child Hr C Hc (visit_stable c) Es as c' s2 u Hu C2.
    step Hr C [] s3 Hbool C3. destruct (IsBoolType u) eqn:E; [|crunch Hbool]. injection Hbool as <-.
    apply IsSpecificBuiltin_true in E as ->. eapply Hend; [|exact Es|done|exact Hr]. by intros e [= <-].
  - eapply Hend; [|done|done|exact Hr]. done.
Qed.

Lemma return_sound p r : on_child (fun e => sound_expr (visit e)) r -> sound_stmt (visit_stmt (ReturnStatement p r)).
Proof.
  intros He s n s' Hne Hr C. cbn [visit_stmt] in Hr. step Hr C f s1 Hf C1. injection Hf as <- <-.
  destruct (curr_func_ s) as [ft|] eqn:Ef; [|crunch Hr].
  step Hr C r' s1 Hx C2. cbv zeta in Hr.
  assert (scope_ s1 = scope_ s) as Es by exact (stable_scopes _ _ _ _ (visit_optional_visit_stable r) Hx).
  destruct ft as [[| | | | | |ps ret]|]; try discriminate. cbn [ret_of].
  assert (forall e, r' = Some e -> exists t, has_type (env_of (scope_ s)) e t) as Htyped.
  { intros e ->. destruct r as [e0|]; cbn [visit_optional] in Hx; [|discriminate]. step Hx C2 e1 s2 He1 C3.
    injection Hx as <- <-. exact (He _ _ _ He1 C3). }
  destruct r' as [e|].
  - destruct (Htyped e eq_refl) as [t Ht]. rewrite (has_type_GetType _ _ _ Ht) in Hr.
    destruct (IsNilType ret) eqn:E; [crunch Hr|]. step Hr C [ok y] s2 Hc C3. destruct ok; [|crunch Hr].
    injection Hr as <- <-. pose proof (Check_same _ _ _ _ _ _ Hc) as [-> _]. rewrite Es.
    apply S_return; [|by eapply (Check_sound _ t)]. intros ->. discriminate E.
  - destruct (IsNilType ret) eqn:E; [|crunch Hr]. apply IsSpecificBuiltin_true in E as ->. munfold Hr. simplify_eq.
    rewrite Es. constructor.
Qed.

(** ** Declarations *)

Definition sound_decl (m : M TDeclaration) : Prop := forall s d s', scope_ s <> [] -> m s = Some (d, s') -> clean s' ->
  decl_ok (env_of (scope_ s)) d (env_of (scope_ s')).

Lemma duplicate_name_None fields : forall seen, duplicate_name seen fields = None ->
  NoDup (map field_name fields) /\ forall n, n ∈ seen -> n ∉ map field_name fields.
Proof.
  induction fields as [|[p n t] fields IH]; intros seen; cbn [duplicate_name map field_name].
  { intros _. split; [constructor|]. intros n _. apply not_elem_of_nil. }
  destruct (decide (n ∈ seen)) as [|Hn]; [done|]. intros Hd. apply IH in Hd as [Hnd Hdis].
  split; [apply NoDup_cons; split; [exact (Hdis n ltac:(rewrite elem_of_cons; auto))|done]|]. intros m Hm. rewrite not_elem_of_cons. split; [congruence|].
  refine (Hdis m _). rewrite elem_of_cons. auto.
Qed.
Lemma HasDuplicatesNames_None fields : HasDuplicatesNames fields = None -> NoDup (map field_name fields).
Proof. intros Hd. exact (proj1 (duplicate_name_None _ _ Hd)). Qed.

Lemma declare_run name t s u s' : scope_ s <> [] -> declare name t s = Some (u, s') ->
  env_of (scope_ s') = extend (env_of (scope_ s)) name t /\ scope_ s' <> [] /\ clean s' = clean s.
Proof.
  intros Hne [= _ <-]. cbn. split; [by apply env_Declare|]. split; [by apply Declare_nonempty|done].
Qed.

Lemma variable_sound p name t i : supported_decl (VariableDeclaration p name t i) = true ->
  on_child (fun e => sound_expr (visit e)) t -> on_child (fun e => sound_expr (visit e)) i ->
  sound_decl (visit_decl (VariableDeclaration p name t i)).
Proof.
  intros Hsup Ht Hi s d s' Hne Hr C. cbn [visit_decl] in Hr. step Hr C sc s1 Hsc C1. injection Hsc as <- <-.
  destruct (LookupLocal (scope_ s) (Some name)) eqn:El; [crunch Hr|]. apply LookupLocal_env in El.
  apply with_declaration_inv in Hr as (s2 & Hr & ->). change (clean s2) in C.
  change (scope_ (set_decl (curr_decl_context_ s) s2)) with (scope_ s2).
  set (s0 := set_decl OtherDeclaration s) in Hr. change (scope_ s) with (scope_ s0) in Hne, El |- *.
  assert (forall o s x s', on_child (fun e => sound_expr (visit e)) o -> visit_optional visit o s = Some (x, s') -> clean s' ->
    (o = None /\ x = None \/ exists e u, x = Some e /\ has_type (env_of (scope_ s)) e u) /\ scope_ s' = scope_ s) as Hopt.
  { clear. intros o s x s' Ho Hx C. split; [|by eapply (stable_scopes _ _ _ _ (visit_optional_visit_stable o))].
    destruct o as [e|]; cbn [visit_optional] in Hx; [|left; by injection Hx]. right. step Hx C e' s1 He C1.
    injection Hx as <- <-. destruct (Ho _ _ _ He C1) as [u Hu]. eauto. }
  step Hr C t' s3 Hx C3. destruct (Hopt _ _ _ _ Ht Hx C3) as [Ht' Es]. clear Hx.
  step Hr C i' s4 Hx C4. destruct (Hopt _ _ _ _ Hi Hx C4) as [Hi' Es']. clear Hx. cbv zeta in Hr. rewrite Es in Hi', Es'.
  assert (scope_ s4 <> []) as Hne4 by (by rewrite Es').
  destruct Ht' as [[-> ->]|(te & u & -> & Hu)], Hi' as [[-> ->]|(ie & v & -> & Hv)]; [done| | |].
  - rewrite (has_type_GetType _ _ _ Hv) in Hr. destruct (IsNilType v) eqn:E; [crunch Hr|].
    step Hr C x s5 Hd C5. injection Hr as <- <-. apply declare_run in Hd as (-> & _); [|done]. rewrite Es'.
    apply D_inferred; [done|done|]. intros ->. discriminate E.
  - rewrite (has_type_GetType _ _ _ Hu) in Hr. step Hr C x s5 Hd C5. injection Hr as <- <-.
    apply declare_run in Hd as (-> & _); [|done]. rewrite Es'. by apply D_variable.
  - rewrite (has_type_GetType _ _ _ Hu), (has_type_GetType _ _ _ Hv) in Hr. step Hr C [ok y] s5 Hc C5.
    destruct ok; cbn [negb] in Hr; [|crunch Hr]. pose proof (Check_same _ _ _ _ _ _ Hc) as [-> _].
    step Hr C x s5 Hd C6. injection Hr as <- <-. apply declare_run in Hd as (-> & _); [|done]. rewrite Es'.
    apply D_variable; [done|done|]. intros e [= <-]. by eapply (Check_sound _ v).
Qed.

Lemma struct_decl_sound p name t : sound_expr (visit t) -> keeps_names t -> sound_decl (visit_decl (StructDeclaration p name t)).
Proof.
  intros Ht Hn s d s' Hne Hr C. cbn [visit_decl] in Hr. apply with_declaration_inv in Hr as (s2 & Hr & ->). change (clean s2) in C.
  change (scope_ (set_decl (curr_decl_context_ s) s2)) with (scope_ s2).
  set (s0 := set_decl (StructContext name) s) in Hr. change (scope_ s) with (scope_ s0) in Hne |- *.
  step Hr C t' s3 Hx C3. pose proof (stable_scopes _ _ _ _ (visit_stable t) Hx) as Es.
  destruct (Ht _ _ _ Hx C3) as [u Hu]. rewrite (has_type_GetType _ _ _ Hu) in Hr.
  specialize (Hn _ _ _ Hx C3). destruct t; try discriminate. destruct Hn as (u' & ts & Eu & En & Hstruct).
  destruct (Hstruct name eq_refl) as [n ->]. rewrite (has_type_GetType _ _ _ Hu) in Eu. injection Eu as ->.
  destruct (HasDuplicatesNames fields) eqn:Ed; [crunch Hr|]. apply HasDuplicatesNames_None in Ed. rewrite <- En in Ed.
  step Hr C x s4 Hd C4. injection Hr as <- <-. apply declare_run in Hd as (-> & _); [|by rewrite Es]. rewrite Es.
  by apply D_struct.
Qed.

Lemma function_decl_sound p name t b : sound_expr (visit t) -> keeps_names t -> sound_stmt (visit_stmt b) ->
  sound_decl (visit_decl (FunctionDeclaration p name (FunctionLiteralExpression t b))).
Proof.
  intros Ht Hn Hb s d s' Hne Hr C. cbn [visit_decl] in Hr. apply with_declaration_inv in Hr as (s2 & Hr & ->). change (clean s2) in C.
  change (scope_ (set_decl (curr_decl_context_ s) s2)) with (scope_ s2).
  set (s0 := set_decl OtherDeclaration s) in Hr. change (scope_ s) with (scope_ s0) in Hne |- *. cbv zeta in Hr.
  step Hr C t' s3 Hx C3. pose proof (stable_scopes _ _ _ _ (visit_stable t) Hx) as Es.
  destruct (Ht _ _ _ Hx C3) as [u Hu]. rewrite (has_type_GetType _ _ _ Hu) in Hr.
  specialize (Hn _ _ _ Hx C3). destruct t; try discriminate. destruct Hn as (ts & ret & Eu & En).
  rewrite (has_type_GetType _ _ _ Hu) in Eu. injection Eu as ->.
  destruct (HasDuplicatesNames params) eqn:Ed; [crunch Hr|]. apply HasDuplicatesNames_None in Ed. rewrite <- En in Ed.
  step Hr C x s4 Hd C4. apply declare_run in Hd as (Henv & _); [|by rewrite Es]. rewrite Es in Henv.
  step Hr C b' s5 Hc C5. injection Hr as <- <-.
  pose proof (stable_scopes _ _ _ _ (check_function_stable (visit_stmt b) _ _ (visit_stmt_moves b)) Hc) as Es5.
  apply check_function_sound in Hc as [[G Hok] Hret]; [|apply visit_stmt_moves|done|done].
  rewrite Henv in Hok. rewrite Es5, Henv. by eapply D_function.
Qed.

(** ** All nodes *)

Lemma supported_all {A} (f : A -> bool) l : forallb f l = true -> Forall (fun a => f a = true) l.
Proof. intros Hl. apply Forall_forall. intros a Ha. rewrite forallb_forall in Hl. apply Hl. by apply list_elem_of_In. Qed.
Lemma Forall_supported {A} (f : A -> bool) (P : A -> Prop) l : Forall (fun a => f a = true -> P a) l -> forallb f l = true -> Forall P l.
Proof. intros Hp Hl%supported_all. induction Hp; inversion Hl; subst; constructor; auto. Qed.
Lemma child_supported {A} (f : A -> bool) (P : A -> Prop) o : on_child (fun a => f a = true -> P a) o -> from_option f true o = true -> on_child P o.
Proof. destruct o; cbn; auto. Qed.

Lemma visitors_sound :
  (forall e, supported e = true -> sound_expr (visit e) /\ keeps_names e) /\
  (forall f, supported_field f = true -> sound_field f) /\
  (forall n, supported_stmt n = true -> sound_stmt (visit_stmt n)) /\
  (forall d, supported_decl d = true -> sound_decl (visit_decl d)).
Proof.
  apply tree_ind; unfold on_parts.
  - done.
  - intros p op l r Hl Hr Hs. cbn [supported] in Hs. bprop. split; [|done]. by apply binary_sound; [|apply Hl|apply Hr].
  - intros k f args Hf Hargs Hs. pose proof Hs as Hs'. cbn [supported] in Hs. apply andb_true_iff in Hs as [Hsf Hsa].
    split; [|done].
    assert (Forall sound_arg args) as Hall.
    { eapply (Forall_supported supported); [|exact Hsa]. eapply Forall_impl; [exact Hargs|]. intros a [Ha Hpart] Hs.
      split; [by apply Ha|]. destruct a; try done. by apply Hpart. }
    destruct k; [apply regular_call_sound; [by apply Hf|eapply Forall_impl; [exact Hall|by intros a []]]|].
    destruct f; try (intros s e s' He; by cbn in He). by apply builtin_call_sound.
  - intros p op l r Hl Hr Hs. cbn [supported] in Hs. bprop. split; [|done]. by apply comparison_sound; [|apply Hl|apply Hr].
  - intros t b Ht Hb Hs. cbn [supported] in Hs. bprop. split; [|done]. by apply function_literal_sound; [apply Ht|apply Hb].
  - intros p n _. split; [|done]. intros s e s' He C. cbn [visit] in He. step He C t s1 Ht C1. injection He as <- <-.
    destruct (Identifier_type_sound _ _ _ _ _ Ht C1) as (u & -> & Hu). exists u. by apply T_identifier.
  - intros p o i Ho Hi Hs. cbn [supported] in Hs. bprop. split; [|done]. by apply index_sound; [apply Ho|apply Hi].
  - intros p v _. split; [|done]. intros s e s' He C. cbn [visit] in He. step He C t s1 Ht C1. injection He as <- <-.
    exists t. by apply T_literal, (Literal_type_sound _ s _ s1).
  - intros p o m Ho _ Hs. cbn [supported] in Hs. split; [|done]. by apply member_sound, Ho.
  - intros p op e He Hs. cbn [supported] in Hs. split; [|done]. by apply unary_sound, He.
  - intros p l t _ Ht Hs. cbn [supported] in Hs. split; [|done]. apply array_type_sound. destruct t; [by apply Ht|done].
  - intros p ps r Hps Hr Hs. cbn [supported] in Hs. bprop.
    assert (Forall sound_field ps) by (by eapply (Forall_supported supported_field)).
    assert (on_child (fun e => sound_expr (visit e)) r) by (destruct r; [by apply Hr|done]).
    split; [by apply function_type_sound|by apply function_type_names].
  - intros p k v Hk Hv Hs. cbn [supported] in Hs. bprop. split; [|done].
    apply map_type_sound; [destruct k; [by apply Hk|done]|destruct v; [by apply Hv|done]].
  - intros p b Hb Hs. cbn [supported] in Hs. split; [|done]. apply pointer_type_sound. destruct b; [by apply Hb|done].
  - intros p fs Hfs Hs. cbn [supported] in Hs.
    assert (Forall sound_field fs) as Hf by (by eapply (Forall_supported supported_field)).
    split; [|by apply struct_type_names]. intros s e s' He C.
    destruct (struct_type_sound _ _ _ _ _ Hf He C) as (t & ts & Ht & _). eauto.
  - intros p n t Ht Hs. cbn [supported_field] in Hs. apply field_sound. destruct t; [by apply Ht|done].
  - intros p d x Hd Hx Hs. cbn [supported_stmt] in Hs. bprop. by apply assignment_sound; [apply Hd|apply Hx].
  - intros p rp ss Hss Hs. cbn [supported_stmt] in Hs. apply block_sound. by eapply (Forall_supported supported_stmt).
  - intros d Hd Hs. cbn [supported_stmt] in Hs. intros s n s' Hne Hr C. cbn [visit_stmt] in Hr.
    step Hr C d' s1 Hx C1. injection Hr as <- <-. constructor. by apply (Hd Hs s).
  - intros e He Hs. cbn [supported_stmt] in Hs. intros s n s' Hne Hr C. cbn [visit_stmt] in Hr.
    pose proof (eq_refl (scope_ s)) as Es. child Hr C (proj1 (He Hs)) (visit_stable e) Es as e' s1 t Ht C1.
    injection Hr as <- <-. rewrite Es. by eapply S_expression.
  - intros p i c n b Hi Hc Hn Hb Hs. cbn [supported_stmt] in Hs. bprop. apply for_sound; [| | |by apply Hb].
    + by eapply (child_supported supported_stmt).
    + destruct c; [by apply Hc|done].
    + by eapply (child_supported supported_stmt).
  - done.
  - intros p c t e Hc Ht He Hs. cbn [supported_stmt] in Hs. bprop.
    apply if_sound; [by apply Hc|by apply Ht|by eapply (child_supported supported_stmt)].
  - intros p r Hr Hs. cbn [supported_stmt] in Hs. apply return_sound. destruct r; [by apply Hr|done].
  - intros p n f Hf Hparts Hs. cbn [supported_decl] in Hs.
    destruct f; try (intros s d s' _ Hr; apply with_declaration_inv in Hr as (s2 & Hr & _); by cbn in Hr).
    cbn [supported] in Hs. bprop. destruct Hparts as [Ht Hb].
    by apply function_decl_sound; [apply Ht|apply Ht|apply Hb].
  - intros p n t Ht Hs. cbn [supported_decl] in Hs. by apply struct_decl_sound; apply Ht.
  - intros p n t i Ht Hi Hs. pose proof Hs as Hs'. cbn [supported_decl] in Hs. apply variable_sound; [done| |].
    + destruct t; [|done]. apply Ht. destruct i; by bprop.
    + destruct i; [|done]. apply Hi. destruct t; by bprop.
Qed.

Lemma decls_sound l : forallb supported_decl l = true -> forall s xs s', scope_ s <> [] ->
  visit_all visit_decl l s = Some (xs, s') -> clean s' -> decls_ok (env_of (scope_ s)) xs (env_of (scope_ s')).
Proof.
  intros Hl%supported_all. induction Hl as [|d l Hd Hl IH]; intros s xs s' Hne Hr C; cbn [visit_all] in Hr.
  { injection Hr as <- <-. constructor. }
  step Hr C x s1 Hx C1. step Hr C xs' s2 Hxs C2. injection Hr as <- <-.
  destruct (moves_state _ _ _ _ (visit_decl_moves d) Hx) as [_ Hne1]. specialize (Hne1 Hne).
  eapply DL_cons; [|by apply IH]. by apply (proj2 (proj2 (proj2 visitors_sound)) d Hd s).
Qed.

Lemma visit_file_elab root s file s' : visit_file root s = Some (file, s') -> elab_file root file.
Proof.
  destruct root as [p ds]. intros Hr. cbn [visit_file] in Hr. apply with_scope_inv in Hr as (s2 & Hr & _).
  apply bind_inv in Hr as (xs & s1 & Hx & Hr). injection Hr as <- _. split; [done|].
  eapply (visit_all_elabs elab_decl visit_decl); [|exact Hx]. apply Forall_true, visitors_elab.
Qed.
Lemma visit_file_stable root : keeps stable (visit_file root).
Proof. destruct root as [p ds]. cbn [visit_file]. keep. Qed.
Lemma Run_inv root s file b s' : Run root s = Some ((file, b), s') ->
  visit_file root s = Some (file, s') /\ b = HasErrors (error_reporter_ s').
Proof.
  intros Hr. unfold Run in Hr. apply bind_inv in Hr as (f & s1 & Hv & Hr). apply bind_inv in Hr as (es & s2 & He & Hr).
  injection He as <- <-. by injection Hr as <- <- <-.
Qed.
Lemma no_errors s : HasErrors (error_reporter_ s) = false <-> clean s.
Proof. unfold HasErrors, clean. by rewrite negb_false_iff, bool_decide_eq_true. Qed.

Lemma Run_elab root s file b s' : Run root s = Some ((file, b), s') -> elab_file root file.
Proof. intros [Hv _]%Run_inv. by eapply visit_file_elab. Qed.
Lemma Run_typed root ctx file s' : supported_file root = true ->
  Run root (new_Sema ctx []) = Some ((file, false), s') -> file_ok file.
Proof.
  intros Hs [Hv Herr]%Run_inv.
  symmetry in Herr. apply no_errors in Herr as C. destruct root as [p ds]. cbn [visit_file] in Hv.
  apply with_scope_inv in Hv as (s2 & Hv & ->). step Hv C xs s3 Hx C3. injection Hv as <- <-. exists (env_of (scope_ s3)).
  apply (decls_sound ds Hs) in Hx; [|done|done]. exact Hx.
Qed.

(** * Theorems *)

(** C5: Soundness of semantic analysis: a program of supported features ([supported_file]: no loops over tables, no [@stringConcat], and no variable without both type and
    value, none of which the checker checks) that it accepts has become a well-typed tree that
    elaborates it. *)
Theorem Run_sound root ctx file s' : supported_file root = true ->
  Run root (new_Sema ctx []) = Some ((file, false), s') -> elab_file root file /\ file_ok file.
Proof.
  intros Hs Hr. split; [by eapply Run_elab|by eapply Run_typed].
Qed.

(** C35: Whatever the program and the state of the checker, a run that ends has only elaborated the tree and
    added errors: scopes, function and declaration are what they were, and the result tells whether there
    are errors. *)
Theorem Run_frame root s file b s' : Run root s = Some ((file, b), s') ->
  elab_file root file /\ b = HasErrors (error_reporter_ s') /\
  (exists es, error_reporter_ s' = error_reporter_ s ++ es) /\
  scope_ s' = scope_ s /\ curr_func_ s' = curr_func_ s /\ curr_decl_context_ s' = curr_decl_context_ s.
Proof.
  intros Hr. apply Run_inv in Hr as [Hv ->]. destruct (visit_file_stable root _ _ _ Hv) as ([He _] & Hrest).
  split; [by eapply visit_file_elab|]. split; [done|]. by split.
Qed.

(** A declaration never hides a name: through any statement, every name in sight keeps its type, so an
    inner variable of an outer one's name has the outer one's type. *)
Theorem names_keep_types n s n' s' : visit_stmt n s = Some (n', s') ->
  forall name t, Lookup (scope_ s) name = Some t -> Lookup (scope_ s') name = Some t.
Proof. intros Hr. by destruct (visit_stmt_moves n _ _ _ Hr) as (_ & (_ & _ & Hkeep) & _). Qed.

(** C33: The front end as [tpl] runs it, from text to typed tree, with assertions, as in a debug build: what it accepts is a sentence of the
    grammar whose tree has been elaborated, to a well-typed one if the program is of supported features ([supported_file]). *)
Theorem parse_and_check_sound n source ts file : Forall byte_ok source -> lex source ts -> (length source < n)%nat ->
  parse_and_check true n source = Some (Some file) ->
  exists root, sentence (strip_file root) ts /\ elab_file root file /\ (supported_file root = true -> file_ok file).
Proof.
  intros Hb Hlex Hn Hr. unfold parse_and_check in Hr. destruct (parse_source true n source) as [[root es]|] eqn:Hp; [|done].
  destruct (HasErrors es) eqn:He; [done|]. unfold HasErrors in He. apply negb_false_iff, bool_decide_eq_true in He as ->.
  destruct (Run root _) as [[[f b] s']|] eqn:Hrun; [|done]. destruct (HasErrors (error_reporter_ s')) eqn:He; [done|].
  injection Hr as ->. exists root. split; [by eapply parse_source_sound|].
  assert (b = false) as -> by (apply Run_inv in Hrun as [_ ->]; done).
  split; [by eapply Run_elab|]. intros Hs. by eapply Run_typed.
Qed.

End visitors.

(** * Witnesses *)

#[local] Instance example_classes : CppClasses :=
  {| cpp_sizeof _ := 8; cpp_alignof _ := 8; unordered_map_sizeof := 56; unordered_map_alignof := 8; int128_is_signed := true |}.

(** A program with a struct, a pointer to an array that decays, a loop, builtins and a SQL comparison that is
    converted. *)
Definition checked_program : list Z := bytes "struct S { a: int32 b: [4]int32 }
fun f(p: *S, v: *[3]int32) -> int64 { var x : int64 = 3
  var q : [*]int32 = v
  for (var i = 0; i < 10; i = i + 1) { if (i == p.b[i]) { x = x + 1 } }
  var z = @sizeOf(S)
  return x }
fun main(tvi: *TableVectorIterator) -> nil {
  @tableIterAdvance(tvi)
  var t = @intToSql(3)
  if (t == t and @sqlToBool(@intToSql(2) < t)) { f(nil, nil) } }".
Definition checked_tree : File :=
  match parse_source true 5000 checked_program with Some (f, []) => f | _ => mkFile no_pos [] end.
Definition accepts (root : File) : bool :=
  match Run root (new_Sema new_Context []) with Some (_, b, _) => negb b | None => false end.
Lemma accepts_run root : accepts root = true -> exists file s', Run root (new_Sema new_Context []) = Some ((file, false), s').
Proof. unfold accepts. destruct (Run _ _) as [[[file []] s']|]; [done|eauto|done]. Qed.
Lemma checked_accepted : accepts checked_tree = true.
Proof. vm_compute. reflexivity. Qed.
Lemma checked_supported : supported_file checked_tree = true.
Proof. vm_compute. reflexivity. Qed.

Lemma Run_sound_witness : exists file, elab_file checked_tree file /\ file_ok file.
Proof.
  destruct (accepts_run checked_tree checked_accepted) as (file & s' & E).
  exists file. exact (Run_sound checked_tree new_Context file s' checked_supported E).
Defined.

Lemma Run_frame_witness : exists file s', elab_file checked_tree file /\ scope_ s' = [].
Proof.
  destruct (accepts_run checked_tree checked_accepted) as (file & s' & E). exists file, s'.
  pose proof (Run_frame checked_tree (new_Sema new_Context []) file false s' E) as (He & _ & _ & Hs & _). exact (conj He Hs).
Defined.

(** An inner declaration of the name of a parameter. *)
Definition outer_scope : Sema := set_scopes [mkScope FunctionScope {[Some (bytes "x") := builtin_type Int32]}] (new_Sema new_Context []).
Definition inner_x : Statement :=
  DeclarationStatement (VariableDeclaration no_pos (bytes "x") None (Some (LiteralExpression no_pos (BoolLiteral true)))).
Lemma names_keep_types_witness : exists n' s', visit_stmt (BlockStatement no_pos no_pos [inner_x]) outer_scope = Some (n', s') /\
  Lookup (scope_ s') (Some (bytes "x")) = Some (builtin_type Int32).
Proof.
  destruct (visit_stmt (BlockStatement no_pos no_pos [inner_x]) outer_scope) as [[n' s']|] eqn:E; [|vm_compute in E; discriminate E].
  exists n', s'. split; [reflexivity|]. refine (names_keep_types _ _ _ _ E (Some (bytes "x")) (builtin_type Int32) _).
  vm_compute. reflexivity.
Defined.

Definition typed_program : list Z := bytes "fun f() -> int32 { return 1+2*3 }".
Definition typed_tokens : list Lexeme :=
  [ (FUN, bytes "fun"); (IDENTIFIER, bytes "f"); (LEFT_PAREN, []); (RIGHT_PAREN, []); (ARROW, []);
    (IDENTIFIER, bytes "int32"); (LEFT_BRACE, []); (RETURN, bytes "return"); (INTEGER, bytes "1");
    (PLUS, []); (INTEGER, bytes "2"); (STAR, []); (INTEGER, bytes "3"); (RIGHT_BRACE, []) ].
Lemma typed_program_bytes : Forall byte_ok typed_program.
Proof. repeat constructor; vm_compute; intuition congruence. Qed.
Lemma typed_program_lex : lex typed_program typed_tokens.
Proof.
  unfold typed_program. lex_keyword "fun"; lex_blank; lex_word "f"; lex_fixed "("; lex_fixed ")";
    lex_blank; lex_fixed "->"; lex_blank; lex_word "int32"; lex_blank; lex_fixed "{"; lex_blank;
    lex_keyword "return"; lex_blank; lex_digits "1"; lex_fixed "+"; lex_digits "2"; lex_fixed "*";
    lex_digits "3"; lex_blank; lex_fixed "}". constructor.
Qed.
Lemma typed_accepted : match parse_and_check true 100 typed_program with Some (Some _) => true | _ => false end = true.
Proof. vm_compute. reflexivity. Qed.
Lemma parse_and_check_sound_witness : exists root file, parse_and_check true 100 typed_program = Some (Some file) /\
  sentence (strip_file root) typed_tokens /\ elab_file root file.
Proof.
  pose proof typed_accepted as Ha. destruct (parse_and_check true 100 typed_program) as [[file|]|] eqn:E; try discriminate Ha.
  destruct (parse_and_check_sound 100 typed_program typed_tokens file typed_program_bytes typed_program_lex) as (root & Hs & He & _).
  - apply (bool_decide_unpack _). vm_compute. exact I.
  - exact E.
  - exists root, file. exact (conj eq_refl (conj Hs He)).
Defined.
