(* ===== verification/Buffer.v ===== *)
(** Arrays that are written from the front: a write outside the array is an error, and what
    has been written so far is a prefix. *)
From S2P Require Import Prelude.

(** Write [vals] at [k]. *)
Definition store (k : Z) (vals : list Z) (out : list Z) : option (list Z) :=
  if (0 <=? k) && (k + Z.of_nat (length vals) <=? Z.of_nat (length out))
  then Some (take (Z.to_nat k) out ++ vals ++ drop (Z.to_nat k + length vals) out)
  else None.

(** * Writing from the front *)

(** The first [k] elements of [out] are [l]. *)
Definition written (k : Z) (out l : list Z) : Prop := k = Z.of_nat (length l) /\ take (length l) out = l.

Lemma written_nil out : written 0 out [].
Proof. by split. Qed.

Lemma written_length k out l : written k out l -> (length l <= length out)%nat.
Proof. intros [_ Hl]. rewrite <- Hl, length_take. lia. Qed.

Lemma store_in k vals out : 0 <= k -> k + Z.of_nat (length vals) <= Z.of_nat (length out) ->
  store k vals out = Some (take (Z.to_nat k) out ++ vals ++ drop (Z.to_nat k + length vals) out).
Proof. intros. unfold store. by rewrite (proj2 (Z.leb_le 0 k)), (proj2 (Z.leb_le _ (Z.of_nat (length out)))) by lia. Qed.

Lemma length_store k vals out out' : store k vals out = Some out' -> length out' = length out.
Proof.
  unfold store. destruct (_ && _) eqn:Hc; [|done]. intros [= <-]. bprop.
  rewrite !length_app, length_take, length_drop. lia.
Qed.

(** A write at [k] extends what is written by any part of it. *)
Lemma store_written k vals out l : written k out l -> k + Z.of_nat (length vals) <= Z.of_nat (length out) ->
  exists out', store k vals out = Some out' /\ length out' = length out /\
    forall m, (m <= length vals)%nat -> written (k + Z.of_nat m) out' (l ++ take m vals).
Proof.
  intros [-> Hl] Hlen. rewrite store_in by lia. eexists. split; [done|]. rewrite Nat2Z.id, Hl. split.
  - rewrite !length_app, length_drop. lia.
  - intros m Hm. split; [rewrite length_app, length_take; lia|].
    rewrite length_app, length_take, Nat.min_l by lia.
    rewrite take_app_add, take_app_le by lia. done.
Qed.

Lemma store_one k v out l : written k out l -> k < Z.of_nat (length out) ->
  exists out', store k [v] out = Some out' /\ length out' = length out /\
    written k out' l /\ written (k + 1) out' (l ++ [v]).
Proof.
  intros Hw Hk. destruct (store_written k [v] out l Hw) as (out' & Hs & Hl & Hm); [simpl; lia|].
  exists out'. split_and!; [done|done| |apply (Hm 1%nat); simpl; lia].
  pose proof (Hm 0%nat) as H0. simpl in H0. rewrite Z.add_0_r, app_nil_r in H0. apply H0. lia.
Qed.

Lemma store_all k vals out l : written k out l -> k + Z.of_nat (length vals) <= Z.of_nat (length out) ->
  exists out', store k vals out = Some out' /\ length out' = length out /\
    written (k + Z.of_nat (length vals)) out' (l ++ vals).
Proof.
  intros Hw Hk. destruct (store_written k vals out l Hw Hk) as (out' & Hs & Hl & Hm). exists out'.
  split_and!; [done|done|]. specialize (Hm (length vals)). rewrite take_ge in Hm by lia. by apply Hm.
Qed.

Lemma store_outside k vals out : Z.of_nat (length out) < k + Z.of_nat (length vals) -> store k vals out = None.
Proof. intros Hk. unfold store. rewrite (proj2 (Z.leb_gt (k + _) _)) by done. by rewrite andb_false_r. Qed.

Lemma store_lookup k vals out out' i : store k vals out = Some out' ->
  out' !! i = if decide (Z.to_nat k <= i < Z.to_nat k + length vals)%nat then vals !! (i - Z.to_nat k)%nat
              else out !! i.
Proof.
  unfold store. destruct (_ && _) eqn:Hc; [|done]. intros [= <-]. bprop.
  assert (length (take (Z.to_nat k) out) = Z.to_nat k) as Hl by (rewrite length_take; lia).
  destruct (decide _) as [Hd|Hd].
  - rewrite lookup_app_r by lia. rewrite lookup_app_l by lia. by rewrite Hl.
  - destruct (Nat.lt_ge_cases i (Z.to_nat k)).
    + rewrite lookup_app_l by lia. by apply lookup_take_lt.
    + rewrite lookup_app_r by lia. rewrite lookup_app_r by lia. rewrite lookup_drop. f_equal. lia.
Qed.

(** * Numbers in memory: the lowest byte comes first, as on the x86-64 targets the program supports. Reading a [T] through a cast pointer reads [sizeof(T)] bytes, and fails outside of the bytes *)

(** Bytes in memory, read as a number with the lowest byte first. *)
Fixpoint le_bytes (bs : list Z) : Z :=
  match bs with [] => 0 | b :: bs' => b + 256 * le_bytes bs' end.

(** The [n] bytes of a number, which may be negative. *)
Fixpoint le_encode (n : nat) (v : Z) : list Z :=
  match n with O => [] | S n' => v mod 256 :: le_encode n' (v / 256) end.

(** The bytes from [k] on. *)
Definition fetch (n : nat) (k : Z) (mem : list Z) : option (list Z) :=
  if (0 <=? k) && (k + Z.of_nat n <=? Z.of_nat (length mem)) then Some (take n (drop (Z.to_nat k) mem)) else None.
Definition read_uint (n : nat) (k : Z) (mem : list Z) : option Z := le_bytes <$> fetch n k mem.
Definition read_sint (n : nat) (k : Z) (mem : list Z) : option Z := wraps (8 * Z.of_nat n) <$> read_uint n k mem.

Lemma length_le_encode n v : length (le_encode n v) = n.
Proof. revert v. induction n; intros; simpl; auto. Qed.

Lemma le_encode_bytes n v : Forall (is_uint 8) (le_encode n v).
Proof.
  revert v. induction n as [|n IH]; intros v; simpl; constructor; [|apply IH].
  apply Z.mod_pos_bound. lia.
Qed.

Lemma le_bytes_encode n v : le_bytes (le_encode n v) = wrapu (8 * Z.of_nat n) v.
Proof.
  revert v. induction n as [|n IH]; intros v; cbn [le_encode le_bytes].
  - change (8 * Z.of_nat 0) with 0. unfold wrapu. by rewrite Z.mod_1_r.
  - rewrite IH. unfold wrapu. replace (8 * Z.of_nat (S n)) with (8 + 8 * Z.of_nat n) by lia.
    rewrite Z.pow_add_r by lia. change (2 ^ 8) with 256.
    rewrite Z.rem_mul_r by (pose proof (pow2_pos (8 * Z.of_nat n)); lia). lia.
Qed.

Lemma le_encode_wrapu n v : le_encode n (wrapu (8 * Z.of_nat n) v) = le_encode n v.
Proof.
  revert v. induction n as [|n IH]; intros v; [done|]. cbn [le_encode].
  unfold wrapu. replace (8 * Z.of_nat (S n)) with (8 + 8 * Z.of_nat n) by lia.
  rewrite Z.pow_add_r by lia. change (2 ^ 8) with 256. pose proof (pow2_pos (8 * Z.of_nat n) ltac:(lia)).
  rewrite Z.rem_mul_r by lia. f_equal.
  - rewrite Z.mul_comm, Z.mod_add by lia. by rewrite Z.mod_mod by lia.
  - rewrite (Z.add_comm (v mod 256)), (Z.mul_comm 256), Z.div_add_l, (Z.div_small (v mod 256)) by (lia || apply Z.mod_pos_bound; lia).
    rewrite Z.add_0_r. apply IH.
Qed.

Lemma le_encode_le_bytes bs : Forall (is_uint 8) bs -> le_encode (length bs) (le_bytes bs) = bs.
Proof.
  induction 1 as [|b bs Hb _ IH]; [done|]. cbn [length le_encode le_bytes]. unfold is_uint in Hb.
  change (2 ^ 8) with 256 in Hb. f_equal.
  - rewrite (Z.mul_comm 256), Z.mod_add, Z.mod_small by lia. done.
  - rewrite Z.add_comm, (Z.mul_comm 256), Z.div_add_l, Z.div_small, Z.add_0_r by lia. done.
Qed.

(** Reading what was written, whatever is around it. *)
Lemma fetch_mid n k pre mid post : k = Z.of_nat (length pre) -> n = length mid ->
  fetch n k (pre ++ mid ++ post) = Some mid.
Proof.
  intros -> ->. unfold fetch. rewrite !length_app, (proj2 (Z.leb_le _ _)), (proj2 (Z.leb_le _ _)) by lia. simpl.
  by rewrite Nat2Z.id, drop_app_length, take_app_length.
Qed.

Lemma read_uint_encode n k pre v post : k = Z.of_nat (length pre) ->
  read_uint n k (pre ++ le_encode n v ++ post) = Some (wrapu (8 * Z.of_nat n) v).
Proof.
  intros ->. unfold read_uint. rewrite fetch_mid by (by rewrite ?length_le_encode). simpl. by rewrite le_bytes_encode.
Qed.

Lemma read_sint_encode n k pre v post : k = Z.of_nat (length pre) -> (0 < n)%nat ->
  read_sint n k (pre ++ le_encode n v ++ post) = Some (wraps (8 * Z.of_nat n) v).
Proof.
  intros ? ?. unfold read_sint. rewrite read_uint_encode by done. simpl. by rewrite wraps_wrapu by lia.
Qed.
