(* ===== verification/Simd.v ===== *)
(** The vector instructions of the processor ([immintrin.h]), as an interface.

    A vector register is the number its bits write; [lane w i v] is its [i]-th lane of [w]
    bits.  [SimdOps] names the instructions the source uses and [SimdOpsSpec] states, lane by
    lane, what the processor's documentation says they do. *)
From S2P Require Import Prelude Buffer BitUtil.

Definition lane (w i v : Z) : Z := wrapu w (Z.shiftr v (w * i)).
Definition lanes (w n v : Z) : list Z := map (fun i => lane w i v) (seqZ 0 n).

Class SimdOps := {
  pext_u64 : Z -> Z -> Z;
  mm_set1_epi16 : Z -> Z;
  mm_add_epi16 : Z -> Z -> Z;
  mm_loadl_epi64 : Z -> Z;
  mm_cvtepi8_epi16 : Z -> Z;
  mm256_movemask_epi8 : Z -> Z;
  mm256_set1_epi32 : Z -> Z;
  mm256_set1_epi64x : Z -> Z;
  mm256_setr_epi64x : Z -> Z -> Z -> Z -> Z;
  mm256_shuffle_epi8 : Z -> Z -> Z;
  mm256_or_si256 : Z -> Z -> Z;
  mm256_cmpeq_epi8 : Z -> Z -> Z;
  mm512_set_epi16 : list Z -> Z;
  mm512_mask_compress_epi16 : Z -> Z -> list Z
}.

Class SimdOpsSpec `{SimdOps} := {
  pext_range src mask : is_uint 64 (pext_u64 src mask);
  pext_spec src mask j : is_uint 64 mask -> 0 <= j < 64 ->
    Z.testbit (pext_u64 src mask) j =
      default false (Z.testbit src <$> ones mask 0 64 !! Z.to_nat j);
  set1_epi16_spec x i : 0 <= i < 8 -> lane 16 i (mm_set1_epi16 x) = wrapu 16 x;
  add_epi16_spec a b i : 0 <= i < 8 ->
    lane 16 i (mm_add_epi16 a b) = wrapu 16 (lane 16 i a + lane 16 i b);
  loadl_epi64_spec x i : 0 <= i < 8 -> lane 8 i (mm_loadl_epi64 x) = lane 8 i x;
  cvtepi8_epi16_spec x i : 0 <= i < 8 ->
    lane 16 i (mm_cvtepi8_epi16 x) = wrapu 16 (wraps 8 (lane 8 i x));
  movemask_epi8_range a : is_uint 32 (mm256_movemask_epi8 a);
  movemask_epi8_spec a i : 0 <= i < 32 ->
    Z.testbit (mm256_movemask_epi8 a) i = Z.testbit (lane 8 i a) 7;
  set1_epi32_spec x i : 0 <= i < 32 -> lane 8 i (mm256_set1_epi32 x) = lane 8 (i mod 4) x;
  set1_epi64x_spec x i : 0 <= i < 32 -> lane 8 i (mm256_set1_epi64x x) = lane 8 (i mod 8) x;
  setr_epi64x_spec x0 x1 x2 x3 i : 0 <= i < 32 ->
    lane 8 i (mm256_setr_epi64x x0 x1 x2 x3) = lane 8 (i mod 8) (nth (Z.to_nat (i / 8)) [x0; x1; x2; x3] 0);
  shuffle_epi8_spec a c i : 0 <= i < 32 ->
    lane 8 i (mm256_shuffle_epi8 a c) =
      if Z.testbit (lane 8 i c) 7 then 0 else lane 8 (16 * (i / 16) + lane 8 i c mod 16) a;
  or_si256_spec a b i : 0 <= i < 32 -> lane 8 i (mm256_or_si256 a b) = Z.lor (lane 8 i a) (lane 8 i b);
  cmpeq_epi8_spec a b i : 0 <= i < 32 ->
    lane 8 i (mm256_cmpeq_epi8 a b) = if lane 8 i a =? lane 8 i b then 255 else 0;
  set_epi16_spec l i : length l = 32%nat -> 0 <= i < 32 ->
    lane 16 i (mm512_set_epi16 l) = wrapu 16 (nth (Z.to_nat (31 - i)) l 0);
  mask_compress_epi16_spec m a :
    mm512_mask_compress_epi16 m a = map (fun i => lane 16 i a) (ones m 0 32)
}.

Lemma lane_uint w i v : 0 <= w -> is_uint w (lane w i v).
Proof. intros. by apply wrapu_range. Qed.

Lemma testbit_lane w i v j : 0 <= i -> 0 <= j < w -> Z.testbit (lane w i v) j = Z.testbit v (w * i + j).
Proof. intros Hi Hj. unfold lane. rewrite testbit_wrapu, Z.shiftr_spec by lia. f_equal. lia. Qed.

Lemma le_bytes_nonneg bs : Forall (is_uint 8) bs -> 0 <= le_bytes bs.
Proof. induction 1 as [|b bs [Hb _] _ IH]; simpl; lia. Qed.

Lemma lane_le_bytes bs : Forall (is_uint 8) bs -> forall i, 0 <= i -> lane 8 i (le_bytes bs) = nth (Z.to_nat i) bs 0.
Proof.
  induction 1 as [|b bs Hb Hbs IH]; intros i Hi; unfold lane in *; cbn [le_bytes].
  - rewrite Z.shiftr_0_l. by destruct (Z.to_nat i).
  - destruct (Z.eq_dec i 0) as [->|Hne].
    + change (8 * 0) with 0. rewrite Z.shiftr_0_r. unfold wrapu. simpl nth.
      rewrite (Z.mul_comm 256), Z.mod_add by done. apply Z.mod_small. apply Hb.
    + replace (Z.to_nat i) with (S (Z.to_nat (i - 1))) by lia. simpl nth. rewrite <- IH by lia.
      f_equal. rewrite !Z.shiftr_div_pow2 by lia.
      replace (8 * i) with (8 + 8 * (i - 1)) by lia. rewrite Z.pow_add_r by lia.
      rewrite <- Z.div_div by lia. f_equal. change (2 ^ 8) with 256.
      rewrite (Z.mul_comm 256), Z.div_add, Z.div_small by (done || apply Hb). lia.
Qed.

Lemma length_lanes w n v : length (lanes w n v) = Z.to_nat n.
Proof. unfold lanes. by rewrite length_map, length_seqZ. Qed.

Lemma lookup_lanes w n v i : 0 <= i < n -> lanes w n v !! Z.to_nat i = Some (lane w i v).
Proof.
  intros Hi. unfold lanes. rewrite list_lookup_fmap, lookup_seqZ_lt by lia. simpl. do 2 f_equal. lia.
Qed.
