(* ===== verification/Intrinsics.v ===== *)
(** Executable instances of the interfaces [BitOps] and [SimdOps], built lane by lane from the
    behaviour the interfaces document.  They show that the laws can be met, and let concrete
    inputs be evaluated. *)
From S2P Require Import Prelude BitUtil Simd.

(** The number whose lanes are [l]. *)
Fixpoint of_lanes (w : Z) (l : list Z) : Z :=
  match l with [] => 0 | x :: l' => x + 2 ^ w * of_lanes w l' end.

Definition build (w n : Z) (f : Z -> Z) : Z := of_lanes w (map (fun i => wrapu w (f i)) (seqZ 0 n)).

Lemma of_lanes_range w l : 0 <= w -> Forall (is_uint w) l ->
  is_uint (w * Z.of_nat (length l)) (of_lanes w l).
Proof.
  intros Hw. induction 1 as [|x l Hx _ IH]; cbn [of_lanes length].
  - rewrite Z.mul_0_r. split; simpl; lia.
  - replace (w * Z.of_nat (S (length l))) with (w + w * Z.of_nat (length l)) by lia.
    destruct Hx, IH. unfold is_uint. rewrite Z.pow_add_r by lia.
    assert (0 < 2 ^ w) by (apply Z.pow_pos_nonneg; lia). nia.
Qed.

Lemma lane_of_lanes w l : 0 < w -> Forall (is_uint w) l -> forall i, 0 <= i ->
  lane w i (of_lanes w l) = nth (Z.to_nat i) l 0.
Proof.
  intros Hw. assert (0 < 2 ^ w) as Hp by (apply Z.pow_pos_nonneg; lia).
  induction 1 as [|x l Hx Hl IH]; intros i Hi; unfold lane in *; cbn [of_lanes].
  - rewrite Z.shiftr_0_l. by destruct (Z.to_nat i).
  - destruct (Z.eq_dec i 0) as [->|Hne].
    + rewrite Z.mul_0_r, Z.shiftr_0_r. unfold wrapu. simpl nth.
      rewrite (Z.mul_comm (2 ^ w)), Z.mod_add by lia. by apply Z.mod_small.
    + replace (Z.to_nat i) with (S (Z.to_nat (i - 1))) by lia. simpl nth. rewrite <- IH by lia.
      f_equal. rewrite !Z.shiftr_div_pow2 by nia.
      replace (w * i) with (w + w * (i - 1)) by lia. rewrite Z.pow_add_r by nia.
      rewrite <- Z.div_div by (lia || apply Z.pow_pos_nonneg; nia). f_equal.
      rewrite (Z.mul_comm (2 ^ w)), Z.div_add, Z.div_small by (lia || apply Hx). lia.
Qed.

Lemma Forall_build w n f : 0 <= w -> Forall (is_uint w) (map (fun i => wrapu w (f i)) (seqZ 0 n)).
Proof. intros Hw. apply Forall_fmap, Forall_forall. intros i _. by apply wrapu_range. Qed.

Lemma lane_build w n f i : 0 < w -> 0 <= i < n -> lane w i (build w n f) = wrapu w (f i).
Proof.
  intros Hw Hi. unfold build. rewrite lane_of_lanes by (lia || apply Forall_build; lia).
  rewrite nth_lookup, list_lookup_fmap, lookup_seqZ_lt by lia. simpl. f_equal. f_equal. lia.
Qed.

Lemma build_range w n f : 0 <= w -> 0 <= n -> is_uint (w * n) (build w n f).
Proof.
  intros Hw Hn. unfold build. pose proof (of_lanes_range w _ Hw (Forall_build w n f Hw)) as Hr.
  by rewrite length_map, length_seqZ, Z2Nat.id in Hr.
Qed.

Lemma testbit_build n f j : 0 <= j < n -> Z.testbit (build 1 n (fun i => Z.b2z (f i))) j = f j.
Proof.
  intros Hj. replace j with (1 * j + 0) at 1 by lia. rewrite <- testbit_lane, lane_build by lia.
  by destruct (f j).
Qed.

(** The least set position below 64. *)
Definition lowest (v : Z) : Z := match ones v 0 64 with [] => 64 | j :: _ => j end.

#[export] Instance concrete_BitOps : BitOps := {
  countTrailingZeros := lowest;
  countPopulation v := Z.of_nat (length (ones v 0 64));
  pdep_u64 src mask := build 1 64 (fun j => Z.b2z (Z.testbit mask j && Z.testbit src (Z.of_nat (length (ones mask 0 j)))))
}.

Lemma lowest_spec v : 0 < v < 2 ^ 64 ->
  0 <= lowest v < 64 /\ Z.testbit v (lowest v) = true /\ forall j, 0 <= j < lowest v -> Z.testbit v j = false.
Proof.
  intros Hv. unfold lowest. destruct (ones v 0 64) as [|p l] eqn:Ho.
  - exfalso. assert (v = 0); [|lia]. apply (uint_zero 64); [split; lia|]. intros j Hj.
    destruct (Z.testbit v j) eqn:Hb; [|done]. assert (j ∈ ones v 0 64) as Hin by (apply elem_of_ones; done).
    rewrite Ho in Hin. by apply not_elem_of_nil in Hin.
  - assert (p ∈ ones v 0 64) as [Hp Hr]%elem_of_ones by (rewrite Ho; apply list_elem_of_here).
    split_and!; [lia|lia|done|]. intros j Hj. destruct (Z.testbit v j) eqn:Hb; [|done]. exfalso.
    rewrite (ones_split v 0 p 64) in Ho by lia. rewrite (ones_first v p 64) in Ho by (lia || done).
    assert (j ∈ ones v 0 p) as Hin by (apply elem_of_ones; done).
    destruct (ones v 0 p) as [|q l'] eqn:Hop; [by apply not_elem_of_nil in Hin|]. injection Ho as -> Ho.
    assert (p ∈ ones v 0 p) as Hpp by (rewrite Hop; apply list_elem_of_here).
    apply elem_of_ones in Hpp. lia.
Qed.

#[export] Instance concrete_BitOpsSpec : BitOpsSpec.
Proof.
  split; simpl.
  - apply lowest_spec.
  - done.
  - intros src mask _. apply (build_range 1 64); lia.
  - intros src mask j _ Hj. by apply testbit_build.
Qed.

#[export] Instance concrete_SimdOps : SimdOps := {
  pext_u64 src mask := build 1 64 (fun j => Z.b2z (default false (Z.testbit src <$> ones mask 0 64 !! Z.to_nat j)));
  mm_set1_epi16 x := build 16 8 (fun _ => x);
  mm_add_epi16 a b := build 16 8 (fun i => lane 16 i a + lane 16 i b);
  mm_loadl_epi64 x := build 8 8 (fun i => lane 8 i x);
  mm_cvtepi8_epi16 x := build 16 8 (fun i => wraps 8 (lane 8 i x));
  mm256_movemask_epi8 a := build 1 32 (fun i => Z.b2z (Z.testbit (lane 8 i a) 7));
  mm256_set1_epi32 x := build 8 32 (fun i => lane 8 (i mod 4) x);
  mm256_set1_epi64x x := build 8 32 (fun i => lane 8 (i mod 8) x);
  mm256_setr_epi64x x0 x1 x2 x3 :=
    build 8 32 (fun i => lane 8 (i mod 8) (nth (Z.to_nat (i / 8)) [x0; x1; x2; x3] 0));
  mm256_shuffle_epi8 a c := build 8 32 (fun i =>
    if Z.testbit (lane 8 i c) 7 then 0 else lane 8 (16 * (i / 16) + lane 8 i c mod 16) a);
  mm256_or_si256 a b := build 8 32 (fun i => Z.lor (lane 8 i a) (lane 8 i b));
  mm256_cmpeq_epi8 a b := build 8 32 (fun i => if lane 8 i a =? lane 8 i b then 255 else 0);
  mm512_set_epi16 l := build 16 32 (fun i => nth (Z.to_nat (31 - i)) l 0);
  mm512_mask_compress_epi16 m a := map (fun i => lane 16 i a) (ones m 0 32)
}.

Lemma wrapu_lane w i v : 0 <= w -> wrapu w (lane w i v) = lane w i v.
Proof. intros Hw. by apply wrapu_small, lane_uint. Qed.

#[local] Arguments Z.testbit : simpl never.

#[export] Instance concrete_SimdOpsSpec : SimdOpsSpec.
Proof.
  split; simpl; intros; rewrite ?lane_build by lia; rewrite ?wrapu_lane by lia; try done.
  - apply (build_range 1 64); lia.
  - by rewrite testbit_build.
  - apply (build_range 1 32); lia.
  - by rewrite testbit_build.
  - destruct (Z.testbit (lane 8 i c) 7); [done|by rewrite wrapu_lane].
  - apply wrapu_small, lor_uint; [lia|apply lane_uint; lia..].
  - by destruct (_ =? _).
Qed.
