(* ===== verification/VectorLookupTables.v ===== *)
(** The lookup tables of [src/include/util/vector_lookup_tables.h]. *)
From S2P Require Import Prelude.

(** Entry [m] packs, a byte each and lowest first, the positions of the bits of [m]. *)
Definition k8BitMatchLUT : list Z :=
  [ 0x0001020304050607; 0x0102030405060700; 0x0002030405060701; 0x0203040506070100;
    0x0001030405060702; 0x0103040506070200; 0x0003040506070201; 0x0304050607020100;
    0x0001020405060703; 0x0102040506070300; 0x0002040506070301; 0x0204050607030100;
    0x0001040506070302; 0x0104050607030200; 0x0004050607030201; 0x0405060703020100;
    0x0001020305060704; 0x0102030506070400; 0x0002030506070401; 0x0203050607040100;
    0x0001030506070402; 0x0103050607040200; 0x0003050607040201; 0x0305060704020100;
    0x0001020506070403; 0x0102050607040300; 0x0002050607040301; 0x0205060704030100;
    0x0001050607040302; 0x0105060704030200; 0x0005060704030201; 0x0506070403020100;
    0x0001020304060705; 0x0102030406070500; 0x0002030406070501; 0x0203040607050100;
    0x0001030406070502; 0x0103040607050200; 0x0003040607050201; 0x0304060705020100;
    0x0001020406070503; 0x0102040607050300; 0x0002040607050301; 0x0204060705030100;
    0x0001040607050302; 0x0104060705030200; 0x0004060705030201; 0x0406070503020100;
    0x0001020306070504; 0x0102030607050400; 0x0002030607050401; 0x0203060705040100;
    0x0001030607050402; 0x0103060705040200; 0x0003060705040201; 0x0306070504020100;
    0x0001020607050403; 0x0102060705040300; 0x0002060705040301; 0x0206070504030100;
    0x0001060705040302; 0x0106070504030200; 0x0006070504030201; 0x0607050403020100;
    0x0001020304050706; 0x0102030405070600; 0x0002030405070601; 0x0203040507060100;
    0x0001030405070602; 0x0103040507060200; 0x0003040507060201; 0x0304050706020100;
    0x0001020405070603; 0x0102040507060300; 0x0002040507060301; 0x0204050706030100;
    0x0001040507060302; 0x0104050706030200; 0x0004050706030201; 0x0405070603020100;
    0x0001020305070604; 0x0102030507060400; 0x0002030507060401; 0x0203050706040100;
    0x0001030507060402; 0x0103050706040200; 0x0003050706040201; 0x0305070604020100;
    0x0001020507060403; 0x0102050706040300; 0x0002050706040301; 0x0205070604030100;
    0x0001050706040302; 0x0105070604030200; 0x0005070604030201; 0x0507060403020100;
    0x0001020304070605; 0x0102030407060500; 0x0002030407060501; 0x0203040706050100;
    0x0001030407060502; 0x0103040706050200; 0x0003040706050201; 0x0304070605020100;
    0x0001020407060503; 0x0102040706050300; 0x0002040706050301; 0x0204070605030100;
    0x0001040706050302; 0x0104070605030200; 0x0004070605030201; 0x0407060503020100;
    0x0001020307060504; 0x0102030706050400; 0x0002030706050401; 0x0203070605040100;
    0x0001030706050402; 0x0103070605040200; 0x0003070605040201; 0x0307060504020100;
    0x0001020706050403; 0x0102070605040300; 0x0002070605040301; 0x0207060504030100;
    0x0001070605040302; 0x0107060504030200; 0x0007060504030201; 0x0706050403020100;
    0x0001020304050607; 0x0102030405060700; 0x0002030405060701; 0x0203040506070100;
    0x0001030405060702; 0x0103040506070200; 0x0003040506070201; 0x0304050607020100;
    0x0001020405060703; 0x0102040506070300; 0x0002040506070301; 0x0204050607030100;
    0x0001040506070302; 0x0104050607030200; 0x0004050607030201; 0x0405060703020100;
    0x0001020305060704; 0x0102030506070400; 0x0002030506070401; 0x0203050607040100;
    0x0001030506070402; 0x0103050607040200; 0x0003050607040201; 0x0305060704020100;
    0x0001020506070403; 0x0102050607040300; 0x0002050607040301; 0x0205060704030100;
    0x0001050607040302; 0x0105060704030200; 0x0005060704030201; 0x0506070403020100;
    0x0001020304060705; 0x0102030406070500; 0x0002030406070501; 0x0203040607050100;
    0x0001030406070502; 0x0103040607050200; 0x0003040607050201; 0x0304060705020100;
    0x0001020406070503; 0x0102040607050300; 0x0002040607050301; 0x0204060705030100;
    0x0001040607050302; 0x0104060705030200; 0x0004060705030201; 0x0406070503020100;
    0x0001020306070504; 0x0102030607050400; 0x0002030607050401; 0x0203060705040100;
    0x0001030607050402; 0x0103060705040200; 0x0003060705040201; 0x0306070504020100;
    0x0001020607050403; 0x0102060705040300; 0x0002060705040301; 0x0206070504030100;
    0x0001060705040302; 0x0106070504030200; 0x0006070504030201; 0x0607050403020100;
    0x0001020304050706; 0x0102030405070600; 0x0002030405070601; 0x0203040507060100;
    0x0001030405070602; 0x0103040507060200; 0x0003040507060201; 0x0304050706020100;
    0x0001020405070603; 0x0102040507060300; 0x0002040507060301; 0x0204050706030100;
    0x0001040507060302; 0x0104050706030200; 0x0004050706030201; 0x0405070603020100;
    0x0001020305070604; 0x0102030507060400; 0x0002030507060401; 0x0203050706040100;
    0x0001030507060402; 0x0103050706040200; 0x0003050706040201; 0x0305070604020100;
    0x0001020507060403; 0x0102050706040300; 0x0002050706040301; 0x0205070604030100;
    0x0001050706040302; 0x0105070604030200; 0x0005070604030201; 0x0507060403020100;
    0x0001020304070605; 0x0102030407060500; 0x0002030407060501; 0x0203040706050100;
    0x0001030407060502; 0x0103040706050200; 0x0003040706050201; 0x0304070605020100;
    0x0001020407060503; 0x0102040706050300; 0x0002040706050301; 0x0204070605030100;
    0x0001040706050302; 0x0104070605030200; 0x0004070605030201; 0x0407060503020100;
    0x0001020307060504; 0x0102030706050400; 0x0002030706050401; 0x0203070605040100;
    0x0001030706050402; 0x0103070605040200; 0x0003070605040201; 0x0307060504020100;
    0x0001020706050403; 0x0102070605040300; 0x0002070605040301; 0x0207060504030100;
    0x0001070605040302; 0x0107060504030200; 0x0007060504030201; 0x0706050403020100 ].
