(* ===== verification/BitVector.v ===== *)
(** Bit vectors: [src/include/util/bit_vector.h].

    The vector is its number of bits and an array of words of [w] bits, [w] being the width
    of the template argument [WordType].  A [std::size_t] is a [Z]: no size or position in
    memory comes near its limit.  A loop over all words is a map over the list of words.
    The accesses of [SetRange] are checked against the storage, because the code can leave
    it; [None] is then an access outside. *)
From Stdlib Require Import SpecFloat.
From S2P Require Import Prelude BitUtil.

Section BitVector.
Context (w : Z) `{BitOps}.

Record BitVector : Set := mkBitVector { num_bits_ : Z; words_ : list Z }.

Definition kBitsPerWord : Z := w.
Definition kAllOnesWord : Z := 2 ^ w - 1.
Definition kInvalidPos : Z := 2 ^ 32 - 1.

(** [~v] and [v << k] on words. *)
Definition wnot (v : Z) : Z := wrapu w (Z.lnot v).
Definition wshl (v k : Z) : Z := wrapu w (Z.shiftl v k).

Definition NumNeededWords (num_bits : Z) : Z := DivRoundUp num_bits kBitsPerWord.
Definition GetNumBits (b : BitVector) : Z := num_bits_ b.
Definition GetNumWords (b : BitVector) : Z := Z.of_nat (length (words_ b)).
Definition WordIndex (position : Z) : Z := position / kBitsPerWord.
Definition BitIndex (position : Z) : Z := position mod kBitsPerWord.
Definition BitMask (position : Z) : Z := wshl 1 (BitIndex position).
Definition GetNumExtraBits (b : BitVector) : Z := num_bits_ b mod kBitsPerWord.

Definition get_word (b : BitVector) (i : Z) : Z := nth (Z.to_nat i) (words_ b) 0.

(** [words_[i] = f(words_[i])]. *)
Definition update_word (i : Z) (f : Z -> Z) (b : BitVector) : BitVector :=
  mkBitVector (num_bits_ b) (alter f (Z.to_nat i) (words_ b)).

(** [for (i = 0; i < GetNumWords(); i++) words_[i] = f(words_[i])]. *)
Definition update_words (f : Z -> Z) (b : BitVector) : BitVector :=
  mkBitVector (num_bits_ b) (map f (words_ b)).

Definition new_BitVector (num_bits : Z) : BitVector :=
  mkBitVector num_bits (replicate (Z.to_nat (NumNeededWords num_bits)) 0).

Definition ZeroUnusedBits (b : BitVector) : BitVector :=
  let extra_bits := GetNumExtraBits b in
  if extra_bits =? 0 then b
  else update_word (GetNumWords b - 1)
         (fun v => Z.land v (wnot (wshl kAllOnesWord extra_bits))) b.

(** * Single bits *)

Definition Test (b : BitVector) (position : Z) : bool :=
  negb (Z.land (get_word b (WordIndex position)) (BitMask position) =? 0).

Definition Set_ (position : Z) (b : BitVector) : BitVector :=
  update_word (WordIndex position) (fun v => Z.lor v (BitMask position)) b.

(** [Set(position, v)], without a branch. *)
Definition Set_to (position : Z) (v : bool) (b : BitVector) : BitVector :=
  update_word (WordIndex position)
    (fun x => Z.lxor x (Z.land (Z.lxor (wrapu w (- Z.b2z v)) x) (BitMask position))) b.

Definition Unset (position : Z) (b : BitVector) : BitVector :=
  update_word (WordIndex position) (fun v => Z.land v (wnot (BitMask position))) b.

Definition Flip (position : Z) (b : BitVector) : BitVector :=
  update_word (WordIndex position) (fun v => Z.lxor v (BitMask position)) b.

(** [BitReference::operator=(bool)]. *)
Definition Assign (position : Z) (val : bool) (b : BitVector) : BitVector :=
  update_word (WordIndex position)
    (fun v => if val then Z.lor v (wshl 1 (BitIndex position))
              else Z.land v (wnot (wshl 1 (BitIndex position)))) b.

(** * Many bits *)

(** A word update that must stay inside the storage. *)
Definition checked_update (i : Z) (f : Z -> Z) (b : BitVector) : option BitVector :=
  if (0 <=? i) && (i <? GetNumWords b) then Some (update_word i f b) else None.

Fixpoint fill_words (count : nat) (i : Z) (b : BitVector) : option BitVector :=
  match count with
  | O => Some b
  | S count' =>
      match checked_update i (fun _ => kAllOnesWord) b with
      | None => None
      | Some b' => fill_words count' (i + 1) b'
      end
  end.

Definition SetRange (start end_ : Z) (b : BitVector) : option BitVector :=
  if start =? end_ then Some b
  else
    let start_word_idx := start / kBitsPerWord in
    let end_word_idx := end_ / kBitsPerWord in
    if start_word_idx =? end_word_idx then
      let prefix_mask := wshl kAllOnesWord (start mod kBitsPerWord) in
      let postfix_mask := wnot (wshl kAllOnesWord (end_ mod kBitsPerWord)) in
      checked_update start_word_idx (fun v => Z.lor v (Z.land prefix_mask postfix_mask)) b
    else
      match checked_update start_word_idx
              (fun v => Z.lor v (wshl kAllOnesWord (start mod kBitsPerWord))) b with
      | None => None
      | Some b1 =>
          match fill_words (Z.to_nat (end_word_idx - (start_word_idx + 1))) (start_word_idx + 1) b1 with
          | None => None
          | Some b2 =>
              checked_update end_word_idx
                (fun v => Z.lor v (wnot (wshl kAllOnesWord (end_ mod kBitsPerWord)))) b2
          end
      end.

Definition SetAll (b : BitVector) : BitVector := ZeroUnusedBits (update_words (fun _ => kAllOnesWord) b).
Definition Reset (b : BitVector) : BitVector := update_words (fun _ => 0) b.
Definition FlipAll (b : BitVector) : BitVector := ZeroUnusedBits (update_words wnot b).

Definition SetWord (word_position word_val : Z) (b : BitVector) : BitVector :=
  let b' := update_word word_position (fun _ => word_val) b in
  if word_position =? GetNumWords b - 1 then ZeroUnusedBits b' else b'.

(** [words_[i] = f(words_[i], other.words_[i])] for all [i]. *)
Definition combine_words (f : Z -> Z -> Z) (b other : BitVector) : BitVector :=
  mkBitVector (num_bits_ b) (zip_with f (words_ b) (words_ other)).

Definition Copy (b other : BitVector) : BitVector := combine_words (fun _ y => y) b other.
Definition Intersect (b other : BitVector) : BitVector := combine_words Z.land b other.
Definition Union (b other : BitVector) : BitVector := combine_words Z.lor b other.
Definition Difference (b other : BitVector) : BitVector :=
  combine_words (fun x y => Z.land x (wnot y)) b other.
Definition Xor (b other : BitVector) : BitVector := combine_words Z.lxor b other.

(** [std::vector::resize(n, 0)]. *)
Definition resize_words (n : Z) (l : list Z) : list Z := resize (Z.to_nat n) 0 l.

Definition Resize (num_bits : Z) (b : BitVector) : BitVector :=
  ZeroUnusedBits (mkBitVector num_bits (resize_words (NumNeededWords num_bits) (words_ b))).

(** * Queries *)

Definition All (b : BitVector) : bool :=
  let extra_bits := GetNumExtraBits b in
  let num_full_words := if extra_bits =? 0 then GetNumWords b else GetNumWords b - 1 in
  forallb (fun v => v =? kAllOnesWord) (take (Z.to_nat num_full_words) (words_ b)) &&
  (if extra_bits =? 0 then true
   else get_word b (GetNumWords b - 1) =? wnot (wshl kAllOnesWord extra_bits)).

Definition None_ (b : BitVector) : bool := forallb (fun v => v =? 0) (words_ b).
Definition Any (b : BitVector) : bool := negb (None_ b).

Definition CountOnes (b : BitVector) : Z :=
  fold_left (fun count v => count + CountPopulation v) (words_ b) 0.

Fixpoint NthOne_loop (ws : list Z) (i n : Z) (b : BitVector) : Z :=
  match ws with
  | [] => num_bits_ b
  | word :: ws' =>
      let count := CountPopulation word in
      if n <? count then
        let mask := pdep_u64 (wshl 1 n) word in
        Z.min (num_bits_ b) (i * kBitsPerWord + CountTrailingZeros mask)
      else NthOne_loop ws' (i + 1) (n - count) b
  end.

Definition NthOne (n : Z) (b : BitVector) : Z := NthOne_loop (words_ b) 0 n b.

Fixpoint FindFrom_loop (ws : list Z) (i : Z) : Z :=
  match ws with
  | [] => kInvalidPos
  | word :: ws' =>
      if word =? 0 then FindFrom_loop ws' (i + 1)
      else i * kBitsPerWord + CountTrailingZeros word
  end.

Definition FindFrom (word_index : Z) (b : BitVector) : Z :=
  FindFrom_loop (drop (Z.to_nat word_index) (words_ b)) word_index.

Definition FindFirst (b : BitVector) : Z := FindFrom 0 b.

Definition FindNext (position : Z) (b : BitVector) : Z :=
  if (num_bits_ b =? 0) || (position >=? num_bits_ b - 1) then kInvalidPos
  else
    let position := position + 1 in
    let word_index := WordIndex position in
    let word := Z.shiftr (get_word b word_index) (BitIndex position) in
    if word =? 0 then FindFrom (word_index + 1) b
    else position + CountTrailingZeros word.

(** [static_cast<float>(CountOnes()) / GetNumBits()]. *)
Definition to_float (z : Z) : spec_float := binary_normalize 24 128 z 0 false.
Definition ComputeDensity (b : BitVector) : spec_float :=
  if num_bits_ b =? 0 then S754_zero false
  else SFdiv 24 128 (to_float (CountOnes b)) (to_float (num_bits_ b)).

Definition Equal (b that : BitVector) : bool :=
  (num_bits_ b =? num_bits_ that) && bool_decide (words_ b = words_ that).

(** * Iteration and filtering *)

(** The [while (word != 0)] loop of [ForEachSet]: the positions it visits.  Each iteration
    clears a bit, so [w] iterations are enough. *)
Fixpoint set_bits_loop (fuel : nat) (word : Z) : list Z :=
  match fuel with
  | O => []
  | S fuel' =>
      if word =? 0 then []
      else CountTrailingZeros word :: set_bits_loop fuel' (Z.land word (word - 1))
  end.
Definition set_bits (word : Z) : list Z := set_bits_loop (Z.to_nat w) word.

(** [ForEachSet]: the arguments of the calls of the callback, in order. *)
Definition ForEachSet (b : BitVector) : list Z :=
  concat (imap (fun i word => map (fun r => Z.of_nat i * kBitsPerWord + r) (set_bits word)) (words_ b)).

(** [ForEach]: the callback gets [static_cast<bool>(word >> j)]. *)
Definition ForEach (b : BitVector) : list (Z * bool) :=
  concat (imap (fun i word =>
    map (fun j => (Z.of_nat i * kBitsPerWord + j, negb (Z.shiftr word j =? 0))) (seqZ 0 kBitsPerWord))
    (words_ b)).

(** The counter of the loop of [UpdateSetBits] and its bound are of type [WordType]. *)
Definition UpdateSetBits (p : Z -> bool) (b : BitVector) : BitVector :=
  let num_words := wrapu w (GetNumWords b) in
  mkBitVector (num_bits_ b)
    (imap (fun i word =>
       if Z.of_nat i <? num_words then
         Z.land word
           (fold_left (fun word_result r =>
              Z.lor word_result (wshl (Z.b2z (p (Z.of_nat i * kBitsPerWord + r))) r))
              (set_bits word) 0)
       else word) (words_ b)).

Definition full_word_result (p : Z -> bool) (i : nat) : Z :=
  fold_left (fun word_result j =>
    Z.lor word_result (wshl (Z.b2z (p (Z.of_nat i * kBitsPerWord + j))) j)) (seqZ 0 kBitsPerWord) 0.

Definition UpdateFull (p : Z -> bool) (b : BitVector) : BitVector :=
  if num_bits_ b =? 0 then b
  else
    let num_full_words := if GetNumExtraBits b =? 0 then GetNumWords b else GetNumWords b - 1 in
    let b1 := mkBitVector (num_bits_ b)
      (imap (fun i word => if Z.of_nat i <? num_full_words then Z.land word (full_word_result p i)
                           else word) (words_ b)) in
    fold_left (fun b i => if p i then b else Unset i b)
      (seqZ (num_full_words * kBitsPerWord) (num_bits_ b - num_full_words * kBitsPerWord)) b1.

End BitVector.
