(* ===== verification/BitVectorSpec.v ===== *)
(** What bit vectors mean, and that every operation of [BitVector] keeps to it.

    [denotes b n f] says that the vector [b] is well formed and holds the [n] bits
    [f 0 ... f (n - 1)]: its words have the width of the word type, there are exactly as
    many as needed, and the bits of the last word past the end are zero. *)
From S2P Require Import Prelude BitUtil BitVector.

(** The positions of the set bits, in increasing order. *)
Definition members (n : Z) (f : Z -> bool) : list Z := filter (fun i => f i = true) (seqZ 0 n).

Section Spec.
Context (w : Z) `{BitOpsSpec} (Hw : 0 < w <= 64).

Abbreviation uint := (is_uint w).

(** Like [denotes], but with arbitrary bits past the end. *)
Definition raw (b : BitVector) (n : Z) (f : Z -> bool) : Prop :=
  0 <= n /\ num_bits_ b = n /\ Z.of_nat (length (words_ b)) = NumNeededWords w n /\
  Forall uint (words_ b) /\
  forall k j, 0 <= k -> 0 <= j < w -> k * w + j < n ->
    Z.testbit (get_word b k) j = f (k * w + j).

Definition denotes (b : BitVector) (n : Z) (f : Z -> bool) : Prop :=
  raw b n f /\
  forall k j, 0 <= k -> 0 <= j < w -> n <= k * w + j -> Z.testbit (get_word b k) j = false.

(** * Bits of the word operations *)

Lemma tb_ones j : 0 <= j < w -> Z.testbit (kAllOnesWord w) j = true.
Proof.
  intros Hj. unfold kAllOnesWord. replace (2 ^ w - 1) with (Z.ones w) by (rewrite Z.ones_equiv; lia).
  apply Z.ones_spec_low. lia.
Qed.

Lemma tb_not v j : 0 <= j < w -> Z.testbit (wnot w v) j = negb (Z.testbit v j).
Proof. intros. unfold wnot. rewrite testbit_wrapu by done. apply Z.lnot_spec. lia. Qed.

Lemma tb_shl v k j : 0 <= j < w -> Z.testbit (wshl w v k) j = Z.testbit v (j - k).
Proof. intros. unfold wshl. rewrite testbit_wrapu by done. apply Z.shiftl_spec. lia. Qed.

Lemma tb_shl_ones k j : 0 <= k -> 0 <= j < w -> Z.testbit (wshl w (kAllOnesWord w) k) j = (k <=? j).
Proof.
  intros Hk Hj. rewrite tb_shl by done. destruct (Z.leb_spec k j).
  - apply tb_ones. lia.
  - apply Z.testbit_neg_r. lia.
Qed.

Lemma tb_shl_bit v k j : 0 <= k < w -> 0 <= j < w ->
  Z.testbit (wshl w (Z.b2z v) k) j = v && (j =? k).
Proof.
  intros Hk Hj. rewrite tb_shl by done. destruct (Z.eqb_spec j k) as [->|Hne].
  - rewrite Z.sub_diag, andb_true_r. by destruct v.
  - rewrite andb_false_r. destruct (Z.lt_ge_cases j k); [apply Z.testbit_neg_r; lia|].
    destruct v; [|apply Z.testbit_0_l]. apply Z.bits_above_log2; [done|]. simpl. lia.
Qed.

Lemma mod_range p : 0 <= p mod w < w.
Proof. apply Z.mod_pos_bound. lia. Qed.

Lemma tb_BitMask p j : 0 <= j < w -> Z.testbit (BitMask w p) j = (j =? p mod w).
Proof. intros Hj. apply (tb_shl_bit true); [apply mod_range|done]. Qed.

Lemma wnot_uint v : uint (wnot w v).
Proof. apply wrapu_range. lia. Qed.
Lemma wshl_uint v k : uint (wshl w v k).
Proof. apply wrapu_range. lia. Qed.
Lemma BitMask_uint p : uint (BitMask w p).
Proof. apply wshl_uint. Qed.
Lemma ones_uint : uint (kAllOnesWord w).
Proof. unfold kAllOnesWord. pose proof (pow2_pos w). split; lia. Qed.
Lemma zero_uint : uint 0.
Proof. pose proof (pow2_pos w). split; lia. Qed.

#[local] Hint Resolve wnot_uint wshl_uint BitMask_uint ones_uint zero_uint : machine.
#[local] Hint Extern 1 (0 <= w) => lia : machine.

Ltac bits :=
  repeat progress rewrite ?Z.land_spec, ?Z.lor_spec, ?Z.lxor_spec, ?tb_not, ?tb_BitMask, ?tb_shl_ones, ?tb_ones,
    ?Z.testbit_0_l by (lia || apply mod_range).

(** * Positions *)

Lemma pos_split p : p = (p / w) * w + p mod w.
Proof. pose proof (Z.div_mod p w). lia. Qed.

Lemma eq_pos k j p : 0 <= j < w -> (k * w + j =? p) = (k =? p / w) && (j =? p mod w).
Proof.
  intros Hj. destruct (Z.eqb_spec (k * w + j) p) as [<-|Hne].
  - rewrite (Z.add_comm (k * w)), Z.div_add, Z.mod_add, Z.div_small, Z.mod_small by lia.
    rewrite Z.add_0_l, !Z.eqb_refl. done.
  - destruct (Z.eqb_spec k (p / w)) as [->|], (Z.eqb_spec j (p mod w)) as [->|]; try done.
    by rewrite <- pos_split in Hne.
Qed.

Lemma numwords_spec n : 0 <= n -> NumNeededWords w n = if n mod w =? 0 then n / w else n / w + 1.
Proof.
  intros Hn. unfold NumNeededWords, DivRoundUp, kBitsPerWord. pose proof (mod_range n).
  pose proof (pos_split n) as Hp. destruct (Z.eqb_spec (n mod w) 0) as [He|Hne].
  - symmetry. apply (Z.div_unique_pos _ _ _ (w - 1)); lia.
  - symmetry. apply (Z.div_unique_pos _ _ _ (n mod w - 1)); lia.
Qed.

(** The words cover all bits, and no more than one word beyond them. *)
Lemma numwords_bounds n : 0 <= n -> n <= NumNeededWords w n * w < n + w.
Proof.
  intros Hn. rewrite numwords_spec by done. pose proof (mod_range n). pose proof (pos_split n).
  destruct (Z.eqb_spec (n mod w) 0); lia.
Qed.

Lemma word_index_in b n f p : raw b n f -> 0 <= p < n -> 0 <= p / w < Z.of_nat (length (words_ b)).
Proof.
  intros (Hn & _ & -> & _) Hp. split; [apply Z.div_pos; lia|].
  apply Z.div_lt_upper_bound; [lia|]. pose proof (numwords_bounds n Hn). lia.
Qed.

(** * Words of updated vectors *)

Lemma get_word_uint b k : Forall uint (words_ b) -> uint (get_word b k).
Proof.
  intros Hb. unfold get_word. rewrite nth_lookup.
  destruct (words_ b !! Z.to_nat k) eqn:Hl; simpl; [|apply zero_uint]. by eapply Forall_lookup_1.
Qed.

Lemma get_word_out b k : Z.of_nat (length (words_ b)) <= k -> get_word b k = 0.
Proof. intros Hk. apply nth_overflow. lia. Qed.

Lemma get_update i f b k : 0 <= i < Z.of_nat (length (words_ b)) -> 0 <= k ->
  get_word (update_word i f b) k = if k =? i then f (get_word b k) else get_word b k.
Proof.
  intros Hi Hk. unfold get_word, update_word. simpl. rewrite !nth_lookup.
  destruct (Z.eqb_spec k i) as [->|Hne].
  - rewrite list_lookup_alter_eq. destruct (lookup_lt_is_Some_2 (words_ b) (Z.to_nat i)) as [v ->]; [lia|].
    done.
  - by rewrite list_lookup_alter_ne by lia.
Qed.

Lemma get_map f b k : 0 <= k < Z.of_nat (length (words_ b)) ->
  get_word (update_words f b) k = f (get_word b k).
Proof.
  intros Hk. unfold get_word, update_words. simpl. rewrite !nth_lookup, list_lookup_fmap.
  destruct (lookup_lt_is_Some_2 (words_ b) (Z.to_nat k)) as [v ->]; [lia|]. done.
Qed.

Lemma get_imap (f : nat -> Z -> Z) b k : 0 <= k < Z.of_nat (length (words_ b)) ->
  get_word (mkBitVector (num_bits_ b) (imap f (words_ b))) k = f (Z.to_nat k) (get_word b k).
Proof.
  intros Hk. unfold get_word. simpl. rewrite !nth_lookup, list_lookup_imap.
  destruct (lookup_lt_is_Some_2 (words_ b) (Z.to_nat k)) as [v ->]; [lia|]. done.
Qed.

Lemma get_combine f b b' k : length (words_ b) = length (words_ b') ->
  0 <= k < Z.of_nat (length (words_ b)) ->
  get_word (combine_words f b b') k = f (get_word b k) (get_word b' k).
Proof.
  intros Hl Hk. unfold get_word, combine_words. simpl. rewrite !nth_lookup, lookup_zip_with.
  destruct (lookup_lt_is_Some_2 (words_ b) (Z.to_nat k)) as [v ->]; [lia|].
  destruct (lookup_lt_is_Some_2 (words_ b') (Z.to_nat k)) as [v' ->]; [lia|]. done.
Qed.

Lemma Forall_update i f b : (forall v, uint v -> uint (f v)) -> Forall uint (words_ b) ->
  Forall uint (words_ (update_word i f b)).
Proof. intros Hf Hb. apply Forall_alter; auto. Qed.

Lemma raw_in b n f k j : raw b n f -> 0 <= j < w -> k * w + j < n -> 0 <= k ->
  0 <= k < Z.of_nat (length (words_ b)).
Proof.
  intros (Hn & _ & -> & _) Hj Hkn Hk. pose proof (numwords_bounds n Hn). split; [done|].
  destruct (Z.lt_ge_cases k (NumNeededWords w n)); [done|]. nia.
Qed.

Lemma denotes_ext b n f g : denotes b n f -> (forall i, 0 <= i < n -> f i = g i) -> denotes b n g.
Proof.
  intros [(Hn & Hb & Hl & Hu & Hr) Hz] Hfg. split; [|done]. split_and!; [done..|].
  intros k j Hk Hj Hkn. rewrite <- Hfg by nia. auto.
Qed.

(** * Single bits *)

Lemma denotes_update b n f p g h : denotes b n f -> 0 <= p < n ->
  (forall v, uint v -> uint (g v)) ->
  (forall v j, 0 <= j < w ->
     Z.testbit (g v) j = if j =? p mod w then h (Z.testbit v j) else Z.testbit v j) ->
  denotes (update_word (p / w) g b) n (fun i => if i =? p then h (f i) else f i).
Proof.
  intros [Hr Hz] Hp Hg Hb. pose proof (word_index_in _ _ _ _ Hr Hp) as Hi.
  destruct Hr as (Hn & Hnb & Hl & Hu & Hr).
  assert (forall k j, 0 <= k -> 0 <= j < w -> Z.testbit (get_word (update_word (p / w) g b) k) j =
    if k * w + j =? p then h (Z.testbit (get_word b k) j) else Z.testbit (get_word b k) j) as Hbit.
  { intros k j Hk Hj. rewrite eq_pos, get_update by done.
    destruct (k =? p / w); [by rewrite Hb|done]. }
  split; [split_and!; [done..| | |]|].
  - by rewrite <- Hl; simpl; rewrite length_alter.
  - by apply Forall_update.
  - intros k j Hk Hj Hkn. rewrite Hbit, Hr by done. done.
  - intros k j Hk Hj Hkn. rewrite Hbit, Hz by done.
    by rewrite (proj2 (Z.eqb_neq _ _)) by lia.
Qed.

Lemma Set_denotes b n f p : denotes b n f -> 0 <= p < n ->
  denotes (Set_ w p b) n (fun i => f i || (i =? p)).
Proof.
  intros Hb Hp. eapply denotes_ext; [apply (denotes_update _ _ _ p _ (fun _ => true) Hb Hp)|].
  - intros v Hv. auto with machine.
  - intros v j Hj. bits. destruct (j =? p mod w); [apply orb_true_r|apply orb_false_r].
  - intros i _. simpl. destruct (i =? p); [by rewrite orb_true_r|by rewrite orb_false_r].
Qed.

Lemma Unset_denotes b n f p : denotes b n f -> 0 <= p < n ->
  denotes (Unset w p b) n (fun i => f i && negb (i =? p)).
Proof.
  intros Hb Hp. eapply denotes_ext; [apply (denotes_update _ _ _ p _ (fun _ => false) Hb Hp)|].
  - intros v Hv. auto with machine.
  - intros v j Hj. bits. destruct (j =? p mod w); [apply andb_false_r|apply andb_true_r].
  - intros i _. simpl. destruct (i =? p); [by rewrite andb_false_r|by rewrite andb_true_r].
Qed.

Lemma Flip_denotes b n f p : denotes b n f -> 0 <= p < n ->
  denotes (Flip w p b) n (fun i => xorb (f i) (i =? p)).
Proof.
  intros Hb Hp. eapply denotes_ext; [apply (denotes_update _ _ _ p _ negb Hb Hp)|].
  - intros v Hv. auto with machine.
  - intros v j Hj. bits. destruct (j =? p mod w); [apply xorb_true_r|apply xorb_false_r].
  - intros i _. simpl. destruct (i =? p); [by rewrite xorb_true_r|by rewrite xorb_false_r].
Qed.

Lemma tb_minus_bool v j : 0 <= j < w -> Z.testbit (wrapu w (- Z.b2z v)) j = v.
Proof.
  intros Hj. rewrite testbit_wrapu by done. destruct v; simpl.
  - by rewrite Z.bits_m1 by lia.
  - apply Z.testbit_0_l.
Qed.

(** The branch-free assignment of a bit, and the one with a branch. *)
Lemma Set_to_denotes b n f p v : denotes b n f -> 0 <= p < n ->
  denotes (Set_to w p v b) n (fun i => if i =? p then v else f i).
Proof.
  intros Hb Hp. eapply denotes_ext; [apply (denotes_update _ _ _ p _ (fun _ => v) Hb Hp)|done].
  - intros x Hx. apply lxor_uint; [lia|done|]. apply land_uint; [lia|].
    apply lxor_uint; [lia| |done]. apply wrapu_range. lia.
  - intros x j Hj. rewrite Z.lxor_spec, Z.land_spec, Z.lxor_spec, tb_minus_bool, tb_BitMask by done.
    destruct (j =? p mod w); destruct v, (Z.testbit x j); done.
Qed.

Lemma Assign_denotes b n f p v : denotes b n f -> 0 <= p < n ->
  denotes (Assign w p v b) n (fun i => if i =? p then v else f i).
Proof.
  intros Hb Hp. destruct v.
  - eapply denotes_ext; [apply (Set_denotes _ _ _ p Hb Hp)|]. intros i _. simpl.
    destruct (i =? p); [apply orb_true_r|apply orb_false_r].
  - eapply denotes_ext; [apply (Unset_denotes _ _ _ p Hb Hp)|]. intros i _. simpl.
    destruct (i =? p); [apply andb_false_r|apply andb_true_r].
Qed.

Lemma Test_denotes b n f p : denotes b n f -> 0 <= p < n -> Test w b p = f p.
Proof.
  intros [(Hn & _ & _ & Hu & Hr) _] Hp. unfold Test, WordIndex, kBitsPerWord.
  pose proof (mod_range p) as Hm. pose proof (get_word_uint b (p / w) Hu) as Hg.
  assert (0 <= p / w) by (apply Z.div_pos; lia).
  rewrite (pos_split p) at 3. rewrite <- Hr by (rewrite <- ?pos_split; lia).
  destruct (Z.testbit (get_word b (p / w)) (p mod w)) eqn:Hb.
  - apply negb_true_iff, Z.eqb_neq. intros Hz. apply (f_equal (fun v => Z.testbit v (p mod w))) in Hz.
    rewrite Z.land_spec, Hb, tb_BitMask, Z.eqb_refl, Z.testbit_0_l in Hz by done. done.
  - apply negb_false_iff, Z.eqb_eq. apply (uint_zero w); [auto with machine|].
    intros j Hj. rewrite Z.land_spec, tb_BitMask by done.
    destruct (Z.eqb_spec j (p mod w)) as [->|]; [by rewrite Hb|apply andb_false_r].
Qed.

(** * All bits *)

Lemma last_word n : 0 <= n -> n mod w <> 0 -> NumNeededWords w n - 1 = n / w.
Proof. intros Hn He. rewrite numwords_spec by done. rewrite (proj2 (Z.eqb_neq _ _)) by done. lia. Qed.

Lemma ZeroUnusedBits_denotes b n f : raw b n f -> denotes (ZeroUnusedBits w b) n f.
Proof.
  intros Hr. pose proof Hr as (Hn & Hnb & Hl & Hu & Hbits).
  unfold ZeroUnusedBits, GetNumExtraBits, GetNumWords, kBitsPerWord. rewrite Hnb, Hl.
  pose proof (mod_range n) as Hm. pose proof (pos_split n) as Hs.
  destruct (Z.eqb_spec (n mod w) 0) as [He|He].
  - split; [done|]. intros k j Hk Hj Hkn.
    rewrite get_word_out, Z.testbit_0_l; [done|]. rewrite Hl, numwords_spec, He by done. simpl. nia.
  - rewrite last_word by done.
    assert (0 <= n / w < Z.of_nat (length (words_ b))) as Hi.
    { rewrite Hl. pose proof (last_word n Hn He). split; [apply Z.div_pos; lia|lia]. }
    assert (forall k j, 0 <= k -> 0 <= j < w ->
      Z.testbit (get_word (update_word (n / w)
        (fun v => Z.land v (wnot w (wshl w (kAllOnesWord w) (n mod w)))) b) k) j =
      if k =? n / w then Z.testbit (get_word b k) j && (j <? n mod w) else Z.testbit (get_word b k) j) as Hbit.
    { intros k j Hk Hj. rewrite get_update by done. destruct (k =? n / w); [|done]. bits.
      f_equal. rewrite Z.leb_antisym. by rewrite negb_involutive. }
    split; [split_and!; [done..| | |]|].
    + by rewrite <- Hl; simpl; rewrite length_alter.
    + apply Forall_update; [auto with machine|done].
    + intros k j Hk Hj Hkn. rewrite Hbit, Hbits by done. destruct (Z.eqb_spec k (n / w)) as [->|]; [|done].
      rewrite (proj2 (Z.ltb_lt _ _)) by lia. apply andb_true_r.
    + intros k j Hk Hj Hkn. rewrite Hbit by done. destruct (Z.eqb_spec k (n / w)) as [->|Hne].
      * rewrite (proj2 (Z.ltb_ge _ _)) by lia. apply andb_false_r.
      * rewrite get_word_out, Z.testbit_0_l; [done|]. rewrite Hl.
        pose proof (last_word n Hn He). nia.
Qed.

Lemma denotes_raw b n f : denotes b n f -> raw b n f.
Proof. by intros [? _]. Qed.

(** An update of every word by a bitwise function. *)
Lemma raw_map b n f g h : raw b n f -> (forall v, uint v -> uint (g v)) ->
  (forall v j, uint v -> 0 <= j < w -> Z.testbit (g v) j = h (Z.testbit v j)) ->
  raw (update_words g b) n (fun i => h (f i)).
Proof.
  intros Hr Hg Hb. pose proof Hr as (Hn & Hnb & Hl & Hu & Hbits). split_and!; [done..| | |].
  - by rewrite <- Hl; simpl; rewrite length_map.
  - apply Forall_fmap. eapply Forall_impl; [done|]. auto.
  - intros k j Hk Hj Hkn. rewrite get_map by by eapply raw_in.
    rewrite Hb, Hbits; auto using get_word_uint.
Qed.

Lemma SetAll_denotes b n f : denotes b n f -> denotes (SetAll w b) n (fun _ => true).
Proof.
  intros Hb%denotes_raw. apply ZeroUnusedBits_denotes.
  apply (raw_map _ _ _ (fun _ => kAllOnesWord w) (fun _ => true) Hb); auto with machine.
  intros. by apply tb_ones.
Qed.

Lemma FlipAll_denotes b n f : denotes b n f -> denotes (FlipAll w b) n (fun i => negb (f i)).
Proof.
  intros Hb%denotes_raw. apply ZeroUnusedBits_denotes.
  apply (raw_map _ _ _ (wnot w) negb Hb); auto with machine. intros. by apply tb_not.
Qed.

Lemma Reset_denotes b n f : denotes b n f -> denotes (Reset b) n (fun _ => false).
Proof.
  intros Hb%denotes_raw.
  assert (raw (Reset b) n (fun _ => false)) as Hr.
  { apply (raw_map _ _ _ (fun _ => 0) (fun _ => false) Hb); auto with machine.
    intros. apply Z.testbit_0_l. }
  split; [done|]. intros k j Hk Hj Hkn. unfold get_word, Reset, update_words. simpl.
  rewrite nth_lookup, list_lookup_fmap. by destruct (_ !! _); rewrite ?Z.testbit_0_l.
Qed.

(** A bitwise operation on two vectors of the same size, zero on zeros. *)
Lemma combine_denotes b b' n f f' g h : denotes b n f -> denotes b' n f' ->
  (forall u v, uint u -> uint v -> uint (g u v)) ->
  (forall u v j, uint u -> uint v -> 0 <= j < w ->
     Z.testbit (g u v) j = h (Z.testbit u j) (Z.testbit v j)) ->
  h false false = false ->
  denotes (combine_words g b b') n (fun i => h (f i) (f' i)).
Proof.
  intros [(Hn & Hnb & Hl & Hu & Hbits) Hz] [(_ & Hnb' & Hl' & Hu' & Hbits') Hz'] Hg Hb Hh.
  assert (length (words_ b) = length (words_ b')) as Hlen by lia.
  assert (forall k j, 0 <= k -> 0 <= j < w -> Z.testbit (get_word (combine_words g b b') k) j =
    h (Z.testbit (get_word b k) j) (Z.testbit (get_word b' k) j)) as Hbit.
  { intros k j Hk Hj. destruct (Z.lt_ge_cases k (Z.of_nat (length (words_ b)))).
    - rewrite get_combine, Hb; auto using get_word_uint.
    - rewrite !get_word_out; [by rewrite Z.testbit_0_l|lia|lia|].
      unfold combine_words. simpl. rewrite length_zip_with. lia. }
  split; [split_and!; [done..| | |]|].
  - simpl. rewrite length_zip_with. lia.
  - apply Forall_zip_with_fst with (P := uint); [done|].
    eapply Forall_impl; [exact Hu'|]. intros v Hv u Hu0. auto.
  - intros k j Hk Hj Hkn. by rewrite Hbit, Hbits, Hbits'.
  - intros k j Hk Hj Hkn. by rewrite Hbit, Hz, Hz'.
Qed.

Lemma Intersect_denotes b b' n f f' : denotes b n f -> denotes b' n f' ->
  denotes (Intersect b b') n (fun i => f i && f' i).
Proof.
  intros Hb Hb'. apply (combine_denotes _ _ _ _ _ _ andb Hb Hb'); auto with machine.
  intros. apply Z.land_spec.
Qed.

Lemma Union_denotes b b' n f f' : denotes b n f -> denotes b' n f' ->
  denotes (Union b b') n (fun i => f i || f' i).
Proof.
  intros Hb Hb'. apply (combine_denotes _ _ _ _ _ _ orb Hb Hb'); auto with machine.
  intros. apply Z.lor_spec.
Qed.

Lemma Xor_denotes b b' n f f' : denotes b n f -> denotes b' n f' ->
  denotes (Xor b b') n (fun i => xorb (f i) (f' i)).
Proof.
  intros Hb Hb'. apply (combine_denotes _ _ _ _ _ _ xorb Hb Hb'); auto with machine.
  intros. apply Z.lxor_spec.
Qed.

Lemma Difference_denotes b b' n f f' : denotes b n f -> denotes b' n f' ->
  denotes (Difference w b b') n (fun i => f i && negb (f' i)).
Proof.
  intros Hb Hb'. apply (combine_denotes _ _ _ _ _ _ (fun x y => x && negb y) Hb Hb'); auto with machine.
  intros. bits. done.
Qed.

Lemma Copy_denotes b b' n f f' : denotes b n f -> denotes b' n f' -> denotes (Copy b b') n f'.
Proof.
  intros Hb Hb'. by apply (combine_denotes _ _ _ _ _ _ (fun _ y => y) Hb Hb').
Qed.

(** * Sizes *)

Lemma numwords_nonneg n : 0 <= n -> 0 <= NumNeededWords w n.
Proof. intros Hn. pose proof (numwords_bounds n Hn). nia. Qed.

Lemma new_denotes n : 0 <= n -> denotes (new_BitVector w n) n (fun _ => false).
Proof.
  intros Hn. assert (forall k, get_word (new_BitVector w n) k = 0) as Hg.
  { intros k. unfold get_word. simpl. rewrite nth_lookup.
    destruct (_ !! _) eqn:Hl; [|done]. by apply lookup_replicate in Hl as [-> _]. }
  pose proof (numwords_nonneg n Hn).
  split; [split_and!; [done..| | |]|].
  - simpl. rewrite length_replicate. lia.
  - apply Forall_replicate, zero_uint.
  - intros. by rewrite Hg, Z.testbit_0_l.
  - intros. by rewrite Hg, Z.testbit_0_l.
Qed.

Lemma Resize_denotes b n f m : denotes b n f -> 0 <= m ->
  denotes (Resize w m b) m (fun i => (i <? n) && f i).
Proof.
  intros [(Hn & Hnb & Hl & Hu & Hbits) Hz] Hm. pose proof (numwords_nonneg m Hm).
  apply ZeroUnusedBits_denotes. split_and!; [done|done| | |].
  - simpl. unfold resize_words. rewrite length_resize. lia.
  - unfold resize_words. simpl. apply Forall_resize; [apply zero_uint|done].
  - intros k j Hk Hj Hkn. pose proof (numwords_bounds m Hm).
    assert (get_word (mkBitVector m (resize_words (NumNeededWords w m) (words_ b))) k = get_word b k) as ->.
    { unfold get_word, resize_words. simpl. rewrite !nth_lookup.
      destruct (Z.lt_ge_cases k (Z.of_nat (length (words_ b)))).
      - rewrite lookup_resize; [done|nia|lia].
      - rewrite lookup_resize_new by nia. by rewrite lookup_ge_None_2 by lia. }
    destruct (Z.ltb_spec (k * w + j) n); [by apply Hbits|by apply Hz].
Qed.

Lemma SetWord_denotes b n f i v : denotes b n f -> uint v -> 0 <= i < NumNeededWords w n ->
  denotes (SetWord w i v b) n (fun p => if p / w =? i then Z.testbit v (p mod w) else f p).
Proof.
  intros [Hr Hz] Hv Hi. pose proof Hr as (Hn & Hnb & Hl & Hu & Hbits).
  assert (raw (update_word i (fun _ => v) b) n
            (fun p => if p / w =? i then Z.testbit v (p mod w) else f p)) as Hraw.
  { split_and!; [done..| | |].
    - by rewrite <- Hl; simpl; rewrite length_alter.
    - by apply Forall_update.
    - intros k j Hk Hj Hkn. rewrite get_update by lia.
      rewrite (Z.add_comm (k * w)), Z.div_add, Z.mod_add, Z.div_small, Z.mod_small by lia.
      rewrite Z.add_0_l. destruct (k =? i); [done|]. rewrite Z.add_comm. apply Hbits; lia. }
  unfold SetWord, GetNumWords. rewrite Hl. destruct (Z.eqb_spec i (NumNeededWords w n - 1)) as [He|He].
  - by apply ZeroUnusedBits_denotes.
  - split; [done|]. intros k j Hk Hj Hkn. rewrite get_update by lia.
    destruct (Z.eqb_spec k i) as [->|]; [|by apply Hz]. exfalso.
    pose proof (numwords_bounds n Hn). nia.
Qed.

(** * Ranges *)

Lemma denotes_or b b' n f g : denotes b n f -> num_bits_ b' = num_bits_ b ->
  length (words_ b') = length (words_ b) -> Forall uint (words_ b') ->
  (forall k j, 0 <= k -> 0 <= j < w ->
     Z.testbit (get_word b' k) j = Z.testbit (get_word b k) j || g (k * w + j)) ->
  (forall i, g i = true -> i < n) ->
  denotes b' n (fun i => f i || g i).
Proof.
  intros [(Hn & Hnb & Hl & Hu & Hbits) Hz] Hnb' Hl' Hu' Hb Hg.
  split; [split_and!; [done|congruence|by rewrite Hl'|done|]|].
  - intros k j Hk Hj Hkn. by rewrite Hb, Hbits.
  - intros k j Hk Hj Hkn. rewrite Hb, Hz by done. destruct (g _) eqn:Hgi; [|done].
    apply Hg in Hgi. lia.
Qed.

Lemma checked_update_in i f b : 0 <= i < GetNumWords b -> checked_update i f b = Some (update_word i f b).
Proof.
  intros Hi. unfold checked_update. rewrite (proj2 (Z.leb_le _ _)), (proj2 (Z.ltb_lt _ _)) by lia. done.
Qed.

Lemma checked_update_out i f b : GetNumWords b <= i -> checked_update i f b = None.
Proof. intros Hi. unfold checked_update. rewrite (proj2 (Z.ltb_ge _ _)) by lia. by rewrite andb_false_r. Qed.

Lemma GetNumWords_update i f b : GetNumWords (update_word i f b) = GetNumWords b.
Proof. unfold GetNumWords. simpl. by rewrite length_alter. Qed.

Lemma fill_words_spec count : forall i b, 0 <= i -> i + Z.of_nat count <= GetNumWords b ->
  Forall uint (words_ b) ->
  exists b', fill_words w count i b = Some b' /\ num_bits_ b' = num_bits_ b /\
    GetNumWords b' = GetNumWords b /\ Forall uint (words_ b') /\
    forall k, 0 <= k -> get_word b' k =
      if (i <=? k) && (k <? i + Z.of_nat count) then kAllOnesWord w else get_word b k.
Proof.
  induction count as [|count IH]; intros i b Hi Hle Hu.
  - exists b. split_and!; [done..|]. intros k Hk.
    destruct (Z.leb_spec i k), (Z.ltb_spec k (i + Z.of_nat 0)); done || lia.
  - cbn [fill_words]. rewrite checked_update_in by lia.
    destruct (IH (i + 1) (update_word i (fun _ => kAllOnesWord w) b)) as (b' & -> & Hn & Hl & Hu' & Hg).
    + lia.
    + rewrite GetNumWords_update. lia.
    + apply Forall_update; [auto with machine|done].
    + exists b'. split_and!; [done|done| |done|].
      { by rewrite Hl, GetNumWords_update. }
      intros k Hk. rewrite Hg by done. rewrite get_update by (unfold GetNumWords in *; lia).
      destruct (Z.leb_spec (i + 1) k), (Z.leb_spec i k), (Z.ltb_spec k (i + 1 + Z.of_nat count)),
        (Z.ltb_spec k (i + Z.of_nat (S count))), (Z.eqb_spec k i); simpl; done || lia.
Qed.

Lemma in_range s e k j : 0 <= j < w -> 0 <= s -> 0 <= e ->
  (s <=? k * w + j) && (k * w + j <? e) =
  ((s / w <? k) || ((s / w =? k) && (s mod w <=? j))) && ((k <? e / w) || ((k =? e / w) && (j <? e mod w))).
Proof.
  intros Hj Hs He. pose proof (pos_split s). pose proof (pos_split e).
  pose proof (mod_range s). pose proof (mod_range e).
  f_equal.
  - destruct (Z.leb_spec s (k * w + j)), (Z.ltb_spec (s / w) k), (Z.eqb_spec (s / w) k),
      (Z.leb_spec (s mod w) j); simpl; done || nia.
  - destruct (Z.ltb_spec (k * w + j) e), (Z.ltb_spec k (e / w)), (Z.eqb_spec k (e / w)),
      (Z.ltb_spec j (e mod w)); simpl; done || nia.
Qed.

Lemma SetRange_denotes b n f s e : denotes b n f -> 0 <= s <= e -> e <= n ->
  s = e \/ e / w < NumNeededWords w n ->
  exists b', SetRange w s e b = Some b' /\
    denotes b' n (fun i => f i || ((s <=? i) && (i <? e))).
Proof.
  intros Hb Hse Hen He. unfold SetRange, kBitsPerWord.
  destruct (Z.eqb_spec s e) as [->|Hne].
  { exists b. split; [done|]. eapply denotes_ext; [done|]. intros i _. simpl.
    destruct (Z.leb_spec e i), (Z.ltb_spec i e); simpl; rewrite ?orb_false_r; done || lia. }
  destruct He as [He|He]; [done|].
  pose proof Hb as [(Hn & Hnb & Hl & Hu & _) _]. fold (GetNumWords b) in Hl.
  assert (0 <= s / w <= e / w) as Hdiv by (split; [apply Z.div_pos; lia|apply Z.div_le_mono; lia]).
  pose proof (mod_range s). pose proof (mod_range e).
  assert (forall i, (s <=? i) && (i <? e) = true -> i < n) as Hlt.
  { intros i [_ Hi%Z.ltb_lt]%andb_true_iff. lia. }
  destruct (Z.eqb_spec (s / w) (e / w)) as [Heq|Hneq].
  - rewrite checked_update_in by lia. eexists. split; [done|].
    eapply denotes_or; [done|done|by simpl; rewrite length_alter| |intros k j Hk Hj|done].
    + apply Forall_update; [|done]. intros v Hv. auto with machine.
    + rewrite get_update, in_range by (unfold GetNumWords in *; lia). rewrite <- Heq.
      destruct (Z.eqb_spec k (s / w)) as [->|Hk'].
      * bits. rewrite Z.eqb_refl, Z.ltb_irrefl. simpl. by rewrite (Z.ltb_antisym (e mod w)).
      * rewrite (proj2 (Z.eqb_neq (s / w) k)) by lia.
        destruct (Z.ltb_spec (s / w) k), (Z.ltb_spec k (s / w)); simpl; rewrite ?orb_false_r; done || lia.
  - rewrite checked_update_in by lia.
    destruct (fill_words_spec (Z.to_nat (e / w - (s / w + 1))) (s / w + 1)
      (update_word (s / w) (fun v => Z.lor v (wshl w (kAllOnesWord w) (s mod w))) b))
      as (b2 & -> & Hn2 & Hl2 & Hu2 & Hg2).
    { lia. } { rewrite GetNumWords_update. lia. }
    { apply Forall_update; [|done]. intros v Hv. auto with machine. }
    rewrite GetNumWords_update in Hl2. rewrite checked_update_in by lia. eexists. split; [done|].
    eapply denotes_or; [done|done| | |intros k j Hk Hj|done].
    + unfold GetNumWords in Hl2. simpl. rewrite length_alter. lia.
    + apply Forall_update; [|done]. intros v Hv. auto with machine.
    + rewrite get_update, Hg2, get_update, in_range by (unfold GetNumWords in *; lia).
      set (p := s mod w <=? j). set (q := j <? e mod w).
      destruct (Z.eqb_spec k (e / w)) as [->|Hke].
      * rewrite (proj2 (Z.eqb_neq (e / w) (s / w))), (proj2 (Z.eqb_neq (s / w) (e / w))) by lia.
        rewrite (proj2 (Z.leb_le (s / w + 1) (e / w))), (proj2 (Z.ltb_lt (s / w) (e / w))) by lia.
        rewrite (proj2 (Z.ltb_ge (e / w) (s / w + 1 + Z.of_nat (Z.to_nat (e / w - (s / w + 1)))))) by lia.
        rewrite ?Z.eqb_refl. simpl. bits.
        subst p q. by rewrite Z.ltb_irrefl, <- (Z.ltb_antisym (e mod w)).
      * destruct (Z.leb_spec (s / w + 1) k), (Z.ltb_spec k (s / w + 1 + Z.of_nat (Z.to_nat (e / w - (s / w + 1))))),
          (Z.ltb_spec (s / w) k), (Z.ltb_spec k (e / w)), (Z.eqb_spec (s / w) k), (Z.eqb_spec k (s / w));
        try lia; simpl; bits; rewrite ?andb_false_r, ?orb_false_r, ?orb_true_r, ?andb_true_r; try done.
Qed.

(** A range that is not empty and ends with the last bit of the last word: the code reads and writes the word behind
    the storage, though the documented requirement on the range is met. *)
Definition range_faults (n s e : Z) : bool := (s <? e) && (e =? n) && (n mod w =? 0).

Lemma SetRange_to_the_end_of_the_last_word b n f s : denotes b n f -> 0 <= s < n -> n mod w = 0 ->
  SetRange w s n b = None.
Proof.
  intros Hb Hs Hn. pose proof Hb as [(Hn0 & Hnb & Hl & Hu & _) _]. unfold SetRange, kBitsPerWord.
  assert (n / w = NumNeededWords w n) as Hdiv by (rewrite numwords_spec, Hn by lia; done).
  pose proof (numwords_bounds n ltac:(lia)) as Hnw.
  assert (s / w < NumNeededWords w n) as Hsw by (apply Z.div_lt_upper_bound; lia).
  assert (0 <= s / w) as Hs0 by (apply Z.div_pos; lia).
  rewrite (proj2 (Z.eqb_neq s n)), (proj2 (Z.eqb_neq (s / w) (n / w))) by lia.
  rewrite checked_update_in by (unfold GetNumWords; lia).
  destruct (fill_words_spec (Z.to_nat (n / w - (s / w + 1))) (s / w + 1)
    (update_word (s / w) (fun v => Z.lor v (wshl w (kAllOnesWord w) (s mod w))) b)) as (b2 & -> & _ & Hl2 & _).
  { lia. } { rewrite GetNumWords_update. unfold GetNumWords. lia. }
  { apply Forall_update; [|done]. intros v Hv. apply lor_uint; [lia|done|by apply wshl_uint]. }
  apply checked_update_out. rewrite Hl2, GetNumWords_update. unfold GetNumWords. lia.
Qed.

(** All that a documented range can do. *)
Lemma SetRange_documented b n f s e : denotes b n f -> 0 <= s <= e -> e <= n ->
  if range_faults n s e then SetRange w s e b = None
  else exists b', SetRange w s e b = Some b' /\ denotes b' n (fun i => f i || ((s <=? i) && (i <? e))).
Proof.
  intros Hb Hse Hen. pose proof (numwords_bounds n ltac:(lia)) as Hnw. unfold range_faults.
  destruct (Z.ltb_spec s e) as [L|L]; cbn [andb]; [|eapply SetRange_denotes; [done|done|done|left; lia]].
  destruct (Z.eqb_spec e n) as [->|Ne]; cbn [andb].
  - destruct (Z.eqb_spec (n mod w) 0) as [M|M]; [eapply SetRange_to_the_end_of_the_last_word; [done|lia|done]|].
    eapply SetRange_denotes; [done|done|done|right]. apply Z.div_lt_upper_bound; [lia|].
    destruct (decide (n = NumNeededWords w n * w)) as [Q|Q]; [|lia]. exfalso. apply M. rewrite Q. by apply Z.mod_mul; lia.
  - eapply SetRange_denotes; [done|done|done|right]. apply Z.div_lt_upper_bound; lia.
Qed.

End Spec.

(** * The queries and the loops of [BitVector], over what a vector means: counting, searching, iterating and filtering all agree with the list of the positions of the set bits *)

(** The least of the [members] from [p] on, or [kInvalidPos]. *)
Definition next_member (n : Z) (f : Z -> bool) (p : Z) : Z :=
  match filter (fun i => f i = true) (seqZ p (n - p)) with
  | [] => kInvalidPos
  | i :: _ => i
  end.

(** The positions of the set bits of the words [l], the first of which is word [k]. *)
Fixpoint pos_of (w k : Z) (l : list Z) : list Z :=
  match l with
  | [] => []
  | v :: l' => map (fun j => k * w + j) (ones v 0 w) ++ pos_of w (k + 1) l'
  end.

Lemma elem_of_members n f i : i ∈ members n f <-> f i = true /\ 0 <= i < n.
Proof. unfold members. rewrite list_elem_of_filter, elem_of_seqZ. intuition lia. Qed.

Section Queries.
Context (w : Z) `{BitOpsSpec} (Hw : 0 < w <= 64).
Abbreviation uint := (is_uint w).
Abbreviation denotes := (denotes w).

(** * Positions and words *)

Lemma map_seqZ_shift a b c : map (fun j => a + j) (seqZ b c) = seqZ (a + b) c.
Proof. unfold seqZ. rewrite map_map. apply map_ext. intros. simpl. lia. Qed.

Lemma ones_shift f v a m : 0 <= m -> (forall j, 0 <= j < m -> Z.testbit v j = f (a + j)) ->
  map (fun j => a + j) (ones v 0 m) = filter (fun i => f i = true) (seqZ a m).
Proof.
  intros Hm Hf. unfold ones. rewrite Z.sub_0_r.
  replace (seqZ a m) with (map (fun j => a + j) (seqZ 0 m)) by (rewrite map_seqZ_shift; f_equal; lia).
  assert (forall l, (forall j, j ∈ l -> 0 <= j < m) ->
    map (fun j => a + j) (filter (fun j => Z.testbit v j = true) l) =
    filter (fun i => f i = true) (map (fun j => a + j) l)) as Hl.
  { induction l as [|j l IH]; intros Hj; [done|]. simpl. rewrite !filter_cons.
    rewrite <- Hf by (apply Hj, list_elem_of_here).
    destruct (decide _); simpl; rewrite IH; try done; intros i Hi; apply Hj; by apply list_elem_of_further. }
  apply Hl. intros j Hj%elem_of_seqZ. lia.
Qed.

Lemma pos_of_spec f l : forall k,
  (forall i j, (i < length l)%nat -> 0 <= j < w -> Z.testbit (nth i l 0) j = f ((k + Z.of_nat i) * w + j)) ->
  pos_of w k l = filter (fun i => f i = true) (seqZ (k * w) (Z.of_nat (length l) * w)).
Proof.
  induction l as [|v l IH]; intros k Hf; [done|]. cbn [pos_of length].
  replace (Z.of_nat (S (length l)) * w) with (w + Z.of_nat (length l) * w) by lia.
  rewrite seqZ_app, filter_app by nia. f_equal.
  - apply ones_shift; [lia|]. intros j Hj. rewrite (Hf 0%nat) by (simpl; lia). f_equal. lia.
  - rewrite (IH (k + 1)).
    + f_equal. f_equal. lia.
    + intros i j Hi Hj. specialize (Hf (S i) j). simpl in Hf. rewrite Hf by lia. f_equal. lia.
Qed.

Lemma members_upto n f p : 0 <= p -> n <= p -> (forall i, n <= i -> f i = false) ->
  members n f = filter (fun i => f i = true) (seqZ 0 p).
Proof.
  intros Hp Hn Hf. unfold members. destruct (Z.le_gt_cases 0 n).
  - replace p with (n + (p - n)) by lia. rewrite seqZ_app, filter_app by lia.
    rewrite (filter_nil_iff _ (seqZ (0 + n) _)); [by rewrite app_nil_r|].
    intros i Hi%elem_of_seqZ. rewrite Hf by lia. done.
  - rewrite (seqZ_nil 0 n) by lia. symmetry. apply filter_nil_iff.
    intros i Hi%elem_of_seqZ. rewrite Hf by lia. done.
Qed.

(** The bit function, cut off at the end. *)
Definition cut (n : Z) (f : Z -> bool) : Z -> bool := fun i => (i <? n) && f i.

Lemma cut_in n f i : i < n -> cut n f i = f i.
Proof. intros Hi. unfold cut. by rewrite (proj2 (Z.ltb_lt _ _)). Qed.
Lemma cut_out n f i : n <= i -> cut n f i = false.
Proof. intros Hi. unfold cut. by rewrite (proj2 (Z.ltb_ge _ _)). Qed.

Lemma members_cut n f : members n (cut n f) = members n f.
Proof. apply filter_ext_in. intros i Hi%elem_of_seqZ. by rewrite cut_in by lia. Qed.

Lemma denotes_bit b n f k j : denotes b n f -> 0 <= k -> 0 <= j < w ->
  Z.testbit (get_word b k) j = cut n f (k * w + j).
Proof.
  intros [Hr Hz] Hk Hj. destruct Hr as (_ & _ & _ & _ & Hr).
  destruct (Z.lt_ge_cases (k * w + j) n); [rewrite cut_in by done|rewrite cut_out by done]; auto.
Qed.

Lemma denotes_pos b n f k : denotes b n f -> 0 <= k ->
  pos_of w k (drop (Z.to_nat k) (words_ b)) =
  filter (fun i => cut n f i = true) (seqZ (k * w) (Z.of_nat (length (words_ b) - Z.to_nat k) * w)).
Proof.
  intros Hb Hk. rewrite (pos_of_spec (cut n f)).
  - by rewrite length_drop.
  - intros i j Hi Hj. rewrite length_drop in Hi. rewrite <- (denotes_bit b n f) by (done || lia).
    f_equal. unfold get_word. rewrite !nth_lookup, lookup_drop. f_equal. f_equal. lia.
Qed.

Lemma denotes_members b n f : denotes b n f -> pos_of w 0 (words_ b) = members n f.
Proof.
  intros Hb. rewrite <- members_cut. rewrite (members_upto n _ (Z.of_nat (length (words_ b)) * w)).
  - pose proof (denotes_pos b n f 0 Hb) as Hp. change (drop (Z.to_nat 0) (words_ b)) with (words_ b) in Hp.
    rewrite Hp by done. f_equal. f_equal. lia.
  - lia.
  - destruct Hb as [(Hn & _ & -> & _) _]. pose proof (numwords_bounds w Hw n Hn). lia.
  - apply cut_out.
Qed.

(** * A vector is determined by its bits *)

Lemma denotes_words b n f k v : denotes b n f -> words_ b !! k = Some v -> uint v /\
  forall j, 0 <= j < w -> Z.testbit v j = cut n f (Z.of_nat k * w + j).
Proof.
  intros Hb Hk. pose proof Hb as [(_ & _ & _ & Hu & _) _]. split; [by eapply Forall_lookup_1|].
  intros j Hj. rewrite <- (denotes_bit b n f) by (done || lia). unfold get_word.
  by rewrite Nat2Z.id, nth_lookup, Hk.
Qed.

Lemma denotes_length b n f : denotes b n f -> Z.of_nat (length (words_ b)) = NumNeededWords w n.
Proof. by intros [(_ & _ & ? & _) _]. Qed.

Lemma denotes_num_bits b n f : denotes b n f -> num_bits_ b = n.
Proof. by intros [(_ & ? & _) _]. Qed.

Lemma denotes_nonneg b n f : denotes b n f -> 0 <= n.
Proof. by intros [(? & _) _]. Qed.

Lemma denotes_inj b b' n f f' : denotes b n f -> denotes b' n f' ->
  (forall i, 0 <= i < n -> f i = f' i) -> b = b'.
Proof.
  intros Hb Hb' Hf. assert (words_ b = words_ b') as Hw'.
  { apply list_eq_same_length with (length (words_ b)); [|done|].
    { pose proof (denotes_length _ _ _ Hb). pose proof (denotes_length _ _ _ Hb'). lia. }
    intros k x y _ Hx Hy. destruct (denotes_words _ _ _ _ _ Hb Hx), (denotes_words _ _ _ _ _ Hb' Hy) as [? Hy'].
    apply (uint_ext w); [done..|]. intros j Hj. rewrite Hy' by done. rewrite H2 by done. unfold cut.
    destruct (Z.ltb_spec (Z.of_nat k * w + j) n); [|done]. simpl. apply Hf. lia. }
  apply denotes_num_bits in Hb, Hb'. destruct b, b'. simpl in *. congruence.
Qed.

Lemma Equal_spec b b' n n' f f' : denotes b n f -> denotes b' n' f' ->
  Equal b b' = true <-> n = n' /\ forall i, 0 <= i < n -> f i = f' i.
Proof.
  intros Hb Hb'. unfold Equal. rewrite (denotes_num_bits _ _ _ Hb), (denotes_num_bits _ _ _ Hb').
  rewrite andb_true_iff, Z.eqb_eq, bool_decide_eq_true. split.
  - intros [<- Hw']. split; [done|]. intros i Hi.
    pose proof (denotes_bit _ _ _ (i / w) (i mod w) Hb) as H1.
    pose proof (denotes_bit _ _ _ (i / w) (i mod w) Hb') as H2.
    unfold get_word in *. rewrite Hw' in H1. rewrite H1, <- (pos_split w Hw), !cut_in in H2 by
      (lia || apply (mod_range w Hw) || (apply Z.div_pos; lia)). apply H2; [apply Z.div_pos; lia|].
    apply (mod_range w Hw).
  - intros [<- Hf]. by rewrite (denotes_inj b b' n f f').
Qed.

(** * All, none, any *)

Lemma None_spec b n f : denotes b n f -> None_ b = true <-> forall i, 0 <= i < n -> f i = false.
Proof.
  intros Hb. unfold None_. rewrite forallb_forall. split.
  - intros Hz i Hi. rewrite <- (cut_in n f) by lia. rewrite (pos_split w Hw i).
    pose proof (mod_range w Hw i). assert (0 <= i / w) by (apply Z.div_pos; lia).
    rewrite <- (denotes_bit b) by done. unfold get_word. rewrite nth_lookup.
    destruct (words_ b !! _) eqn:Hl; simpl; [|apply Z.testbit_0_l].
    apply list_elem_of_lookup_2, list_elem_of_In, Hz, Z.eqb_eq in Hl as ->. apply Z.testbit_0_l.
  - intros Hf v [k Hk]%list_elem_of_In%list_elem_of_lookup. apply Z.eqb_eq.
    destruct (denotes_words _ _ _ _ _ Hb Hk) as [Hu Hv]. apply (uint_zero w); [done|].
    intros j Hj. rewrite Hv by done. unfold cut.
    destruct (Z.ltb_spec (Z.of_nat k * w + j) n); [|done]. apply Hf. lia.
Qed.

Lemma Any_spec b n f : denotes b n f -> Any b = true <-> exists i, 0 <= i < n /\ f i = true.
Proof.
  intros Hb. pose proof (None_spec b n f Hb) as Hn. unfold Any. rewrite negb_true_iff.
  destruct (None_ b).
  - split; [done|]. intros (i & Hi & Hfi). rewrite (proj1 Hn) in Hfi; done.
  - split; [|done]. intros _. destruct (members n f) as [|i l] eqn:Hm.
    + assert (false = true); [|done]. apply Hn. intros i Hi. destruct (f i) eqn:Hfi; [|done].
      assert (i ∈ members n f) as Hin.
      { apply list_elem_of_filter. split; [done|]. apply elem_of_seqZ. lia. }
      rewrite Hm in Hin. by apply not_elem_of_nil in Hin.
    + assert (i ∈ members n f) as [Hfi Hi]%list_elem_of_filter by (rewrite Hm; apply list_elem_of_here).
      apply elem_of_seqZ in Hi. exists i. split; [lia|done].
Qed.

(** The number of full words, and the bits of the rest. *)
Lemma full_words n : 0 <= n ->
  if n mod w =? 0 then NumNeededWords w n * w = n
  else (NumNeededWords w n - 1) * w + n mod w = n /\ 0 <= NumNeededWords w n - 1.
Proof.
  intros Hn. rewrite numwords_spec by done. pose proof (pos_split w Hw n).
  assert (0 <= n / w) by (apply Z.div_pos; lia). destruct (Z.eqb_spec (n mod w) 0); lia.
Qed.

Lemma All_full b n f k v : denotes b n f -> words_ b !! k = Some v -> (Z.of_nat k + 1) * w <= n ->
  v = kAllOnesWord w <-> forall i, Z.of_nat k * w <= i < (Z.of_nat k + 1) * w -> f i = true.
Proof.
  intros Hb Hk Hn. destruct (denotes_words _ _ _ _ _ Hb Hk) as [Hu Hv]. split.
  - intros -> i Hi. rewrite <- (cut_in n f) by lia.
    replace i with (Z.of_nat k * w + (i - Z.of_nat k * w)) by lia. rewrite <- Hv by lia.
    apply tb_ones; lia.
  - intros Hf. apply (uint_ext w); [done|by apply ones_uint|]. intros j Hj.
    rewrite Hv, cut_in, tb_ones by lia. apply Hf. lia.
Qed.

Lemma All_rest b n f : denotes b n f -> n mod w <> 0 ->
  get_word b (NumNeededWords w n - 1) = wnot w (wshl w (kAllOnesWord w) (n mod w)) <->
  forall i, (NumNeededWords w n - 1) * w <= i < n -> f i = true.
Proof.
  intros Hb Hn. pose proof (full_words n (denotes_nonneg _ _ _ Hb)) as Hfull.
  rewrite (proj2 (Z.eqb_neq _ _)) in Hfull by done. pose proof (mod_range w Hw n).
  assert (forall j, 0 <= j < w -> Z.testbit (get_word b (NumNeededWords w n - 1)) j =
    cut n f ((NumNeededWords w n - 1) * w + j)) as Hv by (intros; apply denotes_bit; done || lia).
  split.
  - intros He i Hi. rewrite He in Hv. specialize (Hv (i - (NumNeededWords w n - 1) * w)).
    rewrite tb_not, tb_shl_ones in Hv by lia. rewrite (proj2 (Z.leb_gt _ _)) in Hv by lia.
    rewrite cut_in in Hv by lia. transitivity (f ((NumNeededWords w n - 1) * w + (i - (NumNeededWords w n - 1) * w))).
    { f_equal. lia. } symmetry. apply Hv. lia.
  - intros Hf. apply (uint_ext w).
    + apply get_word_uint; [done|]. by destruct Hb as [(_ & _ & _ & ? & _) _].
    + by apply wnot_uint.
    + intros j Hj. rewrite Hv, tb_not, tb_shl_ones by lia. unfold cut.
      destruct (Z.leb_spec (n mod w) j), (Z.ltb_spec ((NumNeededWords w n - 1) * w + j) n);
        simpl; done || lia || (apply Hf; lia).
Qed.

Lemma All_spec b n f : denotes b n f -> All w b = true <-> forall i, 0 <= i < n -> f i = true.
Proof.
  intros Hb. pose proof (denotes_nonneg _ _ _ Hb) as Hn. pose proof (full_words n Hn) as Hfull.
  pose proof (numwords_nonneg w Hw n Hn). pose proof (mod_range w Hw n).
  pose proof (denotes_length _ _ _ Hb) as Hl. unfold All, GetNumExtraBits, GetNumWords, kBitsPerWord.
  rewrite (denotes_num_bits _ _ _ Hb), Hl, andb_true_iff, forallb_forall.
  set (full := if n mod w =? 0 then NumNeededWords w n else NumNeededWords w n - 1).
  assert (0 <= full <= NumNeededWords w n /\ full * w <= n) as [Hfn Hfw].
  { subst full. destruct (_ =? 0); lia. }
  assert ((forall x, In x (take (Z.to_nat full) (words_ b)) -> (x =? kAllOnesWord w) = true) <->
    forall i, 0 <= i < full * w -> f i = true) as ->.
  { split.
    - intros Hall i Hi. assert (i / w < full) by (apply Z.div_lt_upper_bound; lia).
      assert (0 <= i / w) by (apply Z.div_pos; lia). pose proof (pos_split w Hw i).
      pose proof (mod_range w Hw i).
      destruct (lookup_lt_is_Some_2 (words_ b) (Z.to_nat (i / w))) as [v Hv]; [lia|].
      apply (All_full b n f _ v Hb Hv); [nia| |lia].
      apply Z.eqb_eq, Hall, list_elem_of_In, list_elem_of_lookup. exists (Z.to_nat (i / w)).
      by rewrite lookup_take_lt by lia.
    - intros Hf v [k Hk]%list_elem_of_In%list_elem_of_lookup. apply Z.eqb_eq.
      apply lookup_take_Some in Hk as [Hk Hkl]. eapply All_full; [done|done|nia|].
      intros i Hi. apply Hf. nia. }
  subst full. destruct (Z.eqb_spec (n mod w) 0) as [He|Hne].
  - rewrite Hfull. intuition.
  - rewrite Z.eqb_eq, (All_rest b n f) by done. split.
    + intros [Hlo Hhi] i Hi. destruct (Z.lt_ge_cases i ((NumNeededWords w n - 1) * w)); [apply Hlo|apply Hhi]; lia.
    + intros Hf. split; intros i Hi; apply Hf; nia.
Qed.

(** * Counting *)

Lemma word_uint64 v : uint v -> is_uint 64 v.
Proof. intros [H1 H2]. split; [done|]. eapply Z.lt_le_trans; [done|]. apply Z.pow_le_mono_r; lia. Qed.

Lemma popcount_word v : uint v -> CountPopulation v = Z.of_nat (length (ones v 0 w)).
Proof.
  intros Hv. unfold CountPopulation. rewrite popcount_spec by by apply word_uint64.
  rewrite (ones_split v 0 w 64), length_app by lia. rewrite (ones_empty v w 64).
  - simpl. lia.
  - intros j Hj. apply (uint_high w); lia || done.
Qed.

Lemma CountOnes_pos l : Forall uint l -> forall c k,
  fold_left (fun count v => count + CountPopulation v) l c = c + Z.of_nat (length (pos_of w k l)).
Proof.
  induction 1 as [|v l Hv Hl IH]; intros c k; simpl; [lia|].
  rewrite (IH _ (k + 1)), length_app, length_map, popcount_word by done. lia.
Qed.

Lemma denotes_uint b n f : denotes b n f -> Forall uint (words_ b).
Proof. by intros [(_ & _ & _ & ? & _) _]. Qed.

Lemma CountOnes_spec b n f : denotes b n f -> CountOnes b = Z.of_nat (length (members n f)).
Proof.
  intros Hb. unfold CountOnes. rewrite (CountOnes_pos _ (denotes_uint _ _ _ Hb) 0 0).
  by rewrite (denotes_members b n f).
Qed.

(** * The n-th bit *)

Lemma ones_nth v n j : ones v 0 w !! n = Some j <->
  0 <= j < w /\ Z.testbit v j = true /\ length (ones v 0 j) = n.
Proof.
  assert (forall j, 0 <= j < w -> Z.testbit v j = true -> ones v 0 w !! length (ones v 0 j) = Some j) as Hat.
  { intros i Hi Hv. rewrite (ones_split v 0 i w) by lia. rewrite lookup_app_r, Nat.sub_diag by lia.
    by rewrite ones_first by (lia || done). }
  split.
  - intros Hn. apply list_elem_of_lookup_2 in Hn as Hj. apply elem_of_ones in Hj as [Hv Hj].
    split_and!; [lia|lia|done|]. specialize (Hat j Hj Hv).
    assert (NoDup (ones v 0 w)) as Hnd by apply NoDup_filter, NoDup_seqZ.
    by eapply NoDup_lookup.
  - intros (Hj & Hv & <-). by apply Hat.
Qed.

Lemma nth_word v n : uint v -> 0 <= n < Z.of_nat (length (ones v 0 w)) ->
  ones v 0 w !! Z.to_nat n = Some (CountTrailingZeros (pdep_u64 (wshl w 1 n) v)).
Proof.
  intros Hv Hn. destruct (lookup_lt_is_Some_2 (ones v 0 w) (Z.to_nat n)) as [j Hj]; [lia|].
  rewrite Hj. apply ones_nth in Hj as (Hjw & Hvj & Hlen). f_equal.
  pose proof (word_uint64 v Hv) as Hv64.
  assert (n < w) as Hnw.
  { assert (length (ones v 0 w) <= length (seqZ 0 (w - 0)))%nat by apply length_filter.
    rewrite length_seqZ in *. lia. }
  set (mask := pdep_u64 (wshl w 1 n) v).
  assert (forall i, 0 <= i < 64 -> Z.testbit mask i =
    Z.testbit v i && Z.testbit (wshl w 1 n) (Z.of_nat (length (ones v 0 i)))) as Hmask
    by (intros i Hi; by apply pdep_spec).
  assert (forall i, Z.testbit mask i = true -> 0 <= i < w -> i = j) as Huniq.
  { intros i Hi Hi'. rewrite Hmask in Hi by lia. apply andb_true_iff in Hi as [Hvi Hbit].
    destruct (Z.lt_ge_cases (Z.of_nat (length (ones v 0 i))) w) as [Hlt|Hge].
    - rewrite (tb_shl_bit w true) in Hbit by lia. apply Z.eqb_eq in Hbit.
      assert (ones v 0 w !! length (ones v 0 i) = Some i) as Hi2 by (apply ones_nth; done).
      assert (ones v 0 w !! length (ones v 0 j) = Some j) as Hj2 by (apply ones_nth; done).
      replace (length (ones v 0 j)) with (length (ones v 0 i)) in Hj2 by lia. congruence.
    - rewrite (uint_high w) in Hbit; [done|by apply wshl_uint|done]. }
  assert (Z.testbit mask j = true) as Hjbit.
  { rewrite Hmask, Hvj, Hlen by lia. rewrite (tb_shl_bit w true) by lia. apply Z.eqb_eq. lia. }
  assert (is_uint 64 mask) as Hmr by by apply pdep_range.
  assert (0 < mask < 2 ^ 64) as Hpos.
  { destruct Hmr. destruct (Z.eq_dec mask 0) as [Hz|]; [|lia]. by rewrite Hz, Z.testbit_0_l in Hjbit. }
  destruct (ctz_spec mask Hpos) as (Hc & Hcbit & Hlow). symmetry. apply Huniq; [done|].
  destruct (Z.lt_ge_cases (CountTrailingZeros mask) w); [unfold CountTrailingZeros in *; lia|].
  unfold CountTrailingZeros in *. rewrite Hlow in Hjbit by lia. done.
Qed.

Lemma NthOne_loop_spec b ws : Forall uint ws -> forall i n, 0 <= n ->
  NthOne_loop w ws i n b =
  match pos_of w i ws !! Z.to_nat n with Some p => Z.min (num_bits_ b) p | None => num_bits_ b end.
Proof.
  induction 1 as [|v ws Hv Hws IH]; intros i n Hn; cbn [NthOne_loop pos_of].
  { by rewrite lookup_nil. }
  rewrite popcount_word by done. destruct (Z.ltb_spec n (Z.of_nat (length (ones v 0 w)))) as [Hlt|Hge].
  - rewrite lookup_app_l by (rewrite length_map; lia).
    rewrite list_lookup_fmap, nth_word by done. done.
  - rewrite IH by lia. rewrite lookup_app_r by (rewrite length_map; lia). rewrite length_map.
    by replace (Z.to_nat n - length (ones v 0 w))%nat with (Z.to_nat (n - Z.of_nat (length (ones v 0 w)))) by lia.
Qed.

Lemma NthOne_spec b n f i : denotes b n f -> 0 <= i ->
  NthOne w i b = default n (members n f !! Z.to_nat i).
Proof.
  intros Hb Hi. unfold NthOne. rewrite NthOne_loop_spec by (done || by apply (denotes_uint b n f)).
  rewrite (denotes_members b n f Hb), (denotes_num_bits _ _ _ Hb).
  destruct (members n f !! Z.to_nat i) as [p|] eqn:Hp; [|done].
  apply list_elem_of_lookup_2, elem_of_members in Hp. simpl. lia.
Qed.

(** * The set bits of a word *)

Lemma ctz_word v : uint v -> v <> 0 ->
  0 <= CountTrailingZeros v < w /\ ones v 0 w = CountTrailingZeros v :: ones v (CountTrailingZeros v + 1) w /\
  uint (Z.land v (v - 1)) /\ ones (Z.land v (v - 1)) 0 w = ones v (CountTrailingZeros v + 1) w.
Proof.
  intros Hv Hne. pose proof (word_uint64 v Hv) as [H1 H2].
  destruct (ctz_spec v) as (Hc & Hbit & Hlow); [lia|]. fold (CountTrailingZeros v) in *.
  set (c := CountTrailingZeros v) in *.
  assert (c < w) as Hcw.
  { destruct (Z.lt_ge_cases c w); [done|]. rewrite (uint_high w) in Hbit; done. }
  assert (ones v 0 w = c :: ones v (c + 1) w) as Hones.
  { rewrite (ones_split v 0 c w), (ones_empty v 0 c) by (lia || done). by apply ones_first. }
  assert (0 < v) by lia. split_and!; [lia|lia|done|by apply land_uint; [lia|]|].
  assert (forall j, 0 <= j -> Z.testbit (Z.land v (v - 1)) j = Z.testbit v j && negb (j =? c)) as Hclear
    by (intros j Hj; apply clear_lowest; done || lia).
  rewrite (ones_split _ 0 (c + 1) w), (ones_empty _ 0 (c + 1)) by
    (lia || (intros j Hj; rewrite Hclear by lia; destruct (Z.eqb_spec j c); [by rewrite andb_false_r|];
             rewrite Hlow by lia; done)).
  apply ones_ext. intros j Hj. rewrite Hclear, (proj2 (Z.eqb_neq j c)) by lia. by rewrite andb_true_r.
Qed.

Lemma set_bits_loop_spec fuel : forall v, uint v -> (length (ones v 0 w) <= fuel)%nat ->
  set_bits_loop fuel v = ones v 0 w.
Proof.
  induction fuel as [|fuel IH]; intros v Hv Hlen; cbn [set_bits_loop].
  - destruct (ones v 0 w); [done|]. simpl in Hlen. lia.
  - destruct (Z.eqb_spec v 0) as [->|Hne].
    + symmetry. apply ones_empty. intros. apply Z.testbit_0_l.
    + destruct (ctz_word v Hv Hne) as (_ & Hones & Hu & Hcl). rewrite Hones in *. simpl in Hlen.
      rewrite IH; [by rewrite Hcl|done|]. rewrite Hcl. lia.
Qed.

Lemma set_bits_spec v : uint v -> set_bits w v = ones v 0 w.
Proof.
  intros Hv. apply set_bits_loop_spec; [done|]. unfold ones.
  etransitivity; [apply length_filter|]. rewrite length_seqZ. lia.
Qed.

(** * Searching *)

Lemma FindFrom_loop_spec ws : Forall uint ws -> forall i,
  FindFrom_loop w ws i = match pos_of w i ws with [] => kInvalidPos | p :: _ => p end.
Proof.
  induction 1 as [|v ws Hv Hws IH]; intros i; cbn [FindFrom_loop pos_of]; [done|].
  destruct (Z.eqb_spec v 0) as [->|Hne].
  - rewrite ones_empty by (intros; apply Z.testbit_0_l). apply IH.
  - destruct (ctz_word v Hv Hne) as (_ & -> & _). done.
Qed.

(** The set positions from the start of word [k] on. *)
Lemma pos_from b n f k : denotes b n f -> 0 <= k -> k * w <= n ->
  pos_of w k (drop (Z.to_nat k) (words_ b)) = filter (fun i => f i = true) (seqZ (k * w) (n - k * w)).
Proof.
  intros Hb Hk Hkn. rewrite (denotes_pos b n f) by done. pose proof (denotes_length _ _ _ Hb) as Hl.
  pose proof (numwords_bounds w Hw n (denotes_nonneg _ _ _ Hb)).
  replace (Z.of_nat (length (words_ b) - Z.to_nat k) * w) with ((n - k * w) + (NumNeededWords w n * w - n)) by nia.
  rewrite seqZ_app, filter_app by lia.
  rewrite (filter_nil_iff _ (seqZ (k * w + _) _)), app_nil_r.
  - apply filter_ext_in. intros i Hi%elem_of_seqZ. by rewrite cut_in by lia.
  - intros i Hi%elem_of_seqZ. rewrite cut_out by lia. done.
Qed.

Lemma pos_past b k : Z.of_nat (length (words_ b)) <= k -> pos_of w k (drop (Z.to_nat k) (words_ b)) = [].
Proof. intros Hk. by rewrite drop_ge by lia. Qed.

Lemma FindFirst_spec b n f : denotes b n f -> FindFirst w b = next_member n f 0.
Proof.
  intros Hb. unfold FindFirst, FindFrom, next_member.
  rewrite FindFrom_loop_spec by (by eapply Forall_drop, denotes_uint).
  rewrite (pos_from b n f) by (done || by eapply denotes_nonneg). done.
Qed.

Lemma shiftr_word v r : uint v -> 0 <= r -> uint (Z.shiftr v r) /\
  (forall j, 0 <= j -> Z.testbit (Z.shiftr v r) j = Z.testbit v (j + r)) /\
  ones (Z.shiftr v r) 0 w = ones (Z.shiftr v r) 0 (w - r).
Proof.
  intros Hv Hr.
  assert (forall j, 0 <= j -> Z.testbit (Z.shiftr v r) j = Z.testbit v (j + r)) as Hsh
    by (intros; apply Z.shiftr_spec; lia).
  assert (uint (Z.shiftr v r)) as Hu.
  { apply uint_of_bits; [lia|]. intros j Hj. rewrite Hsh by lia. apply (uint_high w); [done|lia]. }
  split_and!; [done..|]. destruct (Z.le_gt_cases 0 (w - r)).
  - rewrite (ones_split _ 0 (w - r) w), (ones_empty _ (w - r) w); [by rewrite app_nil_r| |lia].
    intros j Hj. rewrite Hsh by lia. apply (uint_high w); [done|lia].
  - rewrite !ones_empty; [done|lia|]. intros j Hj. rewrite Hsh by lia. apply (uint_high w); [done|lia].
Qed.

(** The set positions from [q] on: the rest of its word, and the words after it. *)
Lemma pos_from_mid b n f q : denotes b n f -> 0 <= q < n ->
  filter (fun i => f i = true) (seqZ q (n - q)) =
  map (fun j => q + j) (ones (Z.shiftr (get_word b (q / w)) (q mod w)) 0 w) ++
  pos_of w (q / w + 1) (drop (Z.to_nat (q / w + 1)) (words_ b)).
Proof.
  intros Hb Hq0. pose proof (mod_range w Hw q). pose proof (pos_split w Hw q) as Hq.
  set (k := q / w) in *. set (r := q mod w) in *.
  assert (0 <= k) as Hk by (apply Z.div_pos; lia).
  assert (uint (get_word b k)) as Hu by (apply get_word_uint, (denotes_uint b n f Hb); done).
  destruct (shiftr_word _ r Hu) as (_ & Hsh & ->); [lia|].
  rewrite (ones_shift (cut n f)).
  - destruct (Z.le_gt_cases ((k + 1) * w) n) as [Hle|Hgt].
    + rewrite (pos_from b n f) by (done || lia).
      replace (n - q) with ((w - r) + (n - (k + 1) * w)) by lia. rewrite seqZ_app, filter_app by lia. f_equal.
      * apply filter_ext_in. intros i Hi%elem_of_seqZ. by rewrite cut_in by lia.
      * f_equal. f_equal. lia.
    + rewrite pos_past, app_nil_r.
      2: { rewrite (denotes_length _ _ _ Hb). pose proof (numwords_bounds w Hw n). nia. }
      replace (w - r) with ((n - q) + (w - r - (n - q))) by lia. rewrite seqZ_app, filter_app by lia.
      rewrite (filter_nil_iff _ (seqZ (q + _) _)), app_nil_r.
      * apply filter_ext_in. intros i Hi%elem_of_seqZ. by rewrite cut_in by lia.
      * intros i Hi%elem_of_seqZ. rewrite cut_out by lia. done.
  - lia.
  - intros j Hj. rewrite Hsh, (denotes_bit b n f) by (done || lia). f_equal. lia.
Qed.

Lemma FindNext_spec b n f p : denotes b n f -> 0 <= p ->
  FindNext w p b = next_member n f (p + 1).
Proof.
  intros Hb Hp. unfold FindNext, FindFrom, WordIndex, BitIndex, kBitsPerWord, next_member.
  rewrite (denotes_num_bits _ _ _ Hb). pose proof (denotes_nonneg _ _ _ Hb) as Hn.
  rewrite Z.geb_leb. destruct ((n =? 0) || (n - 1 <=? p)) eqn:Hc.
  { rewrite seqZ_nil; [done|]. apply orb_true_iff in Hc as [Hc%Z.eqb_eq|Hc%Z.leb_le]; lia. }
  apply orb_false_iff in Hc as [_ Hc]. apply Z.leb_gt in Hc.
  rewrite (pos_from_mid b n f) by (done || lia). pose proof (denotes_uint _ _ _ Hb) as Hub.
  destruct (Z.eqb_spec (Z.shiftr (get_word b ((p + 1) / w)) ((p + 1) mod w)) 0) as [He|Hne].
  - rewrite He, ones_empty by (intros; apply Z.testbit_0_l). simpl. by apply FindFrom_loop_spec, Forall_drop.
  - destruct (shiftr_word (get_word b ((p + 1) / w)) ((p + 1) mod w)) as (Hus & _ & _).
    { by apply get_word_uint. } { apply mod_range; lia. }
    by destruct (ctz_word _ Hus Hne) as (_ & -> & _).
Qed.

(** * Visiting the set bits *)

Lemma concat_imap_pos (g : Z -> list Z) ws : forall k,
  (forall v, v ∈ ws -> g v = ones v 0 w) ->
  concat (imap (fun i v => map (fun r => (k + Z.of_nat i) * w + r) (g v)) ws) = pos_of w k ws.
Proof.
  induction ws as [|v ws IH]; intros k Hg; [done|]. cbn [imap concat pos_of].
  rewrite Hg by apply list_elem_of_here. f_equal.
  - apply map_ext. intros. simpl. lia.
  - rewrite <- (IH (k + 1)) by (intros u Hu; apply Hg; by apply list_elem_of_further). f_equal.
    apply imap_ext. intros i u _. apply map_ext. intros. simpl. lia.
Qed.

Lemma ForEachSet_spec b n f : denotes b n f -> ForEachSet w b = members n f.
Proof.
  intros Hb. rewrite <- (denotes_members b n f Hb). rewrite <- (concat_imap_pos (set_bits w)).
  - unfold ForEachSet, kBitsPerWord. done.
  - intros v Hv. apply set_bits_spec. pose proof (denotes_uint _ _ _ Hb) as Hu.
    rewrite Forall_forall in Hu. by apply Hu.
Qed.

Lemma existsb_map_in {A B} (g : A -> B) (q : A -> bool) (r : B -> bool) l :
  (forall x, In x l -> q x = r (g x)) -> existsb q l = existsb r (map g l).
Proof.
  induction l as [|x l IH]; intros Hq; [done|]. simpl.
  rewrite Hq, IH by (simpl; auto || (intros; apply Hq; simpl; auto)). done.
Qed.

(** [ForEach] visits all positions of all words, and reports at each whether it or a later
    position of the same word is set. *)
Lemma shiftr_nonzero v j : uint v -> 0 <= j < w ->
  negb (Z.shiftr v j =? 0) = existsb (fun i => Z.testbit v i) (seqZ j (w - j)).
Proof.
  intros Hv Hj. destruct (shiftr_word v j Hv) as (Hu & Hsh & _); [lia|].
  destruct (existsb _ _) eqn:He.
  - apply existsb_exists in He as (i & Hi%list_elem_of_In%elem_of_seqZ & Hbit).
    apply negb_true_iff, Z.eqb_neq. intros Hz.
    specialize (Hsh (i - j)). rewrite Hz, Z.testbit_0_l in Hsh.
    replace (i - j + j) with i in Hsh by lia. rewrite Hbit in Hsh. discriminate Hsh. lia.
  - apply negb_false_iff, Z.eqb_eq, (uint_zero w); [done|]. intros i Hi. rewrite Hsh by lia.
    destruct (Z.lt_ge_cases (i + j) w); [|apply (uint_high w); done].
    destruct (Z.testbit v (i + j)) eqn:Hbit; [|done]. rewrite <- He. symmetry. apply existsb_exists.
    exists (i + j). split; [|done]. apply list_elem_of_In, elem_of_seqZ. lia.
Qed.

Lemma ForEach_spec b n f : denotes b n f ->
  ForEach w b = map (fun i => (i, existsb (cut n f) (seqZ i (w - i mod w)))) (seqZ 0 (NumNeededWords w n * w)).
Proof.
  intros Hb. unfold ForEach, kBitsPerWord.
  assert (forall l k, drop k (words_ b) = l ->
    concat (imap (fun i word => map (fun j => (Z.of_nat (k + i) * w + j, negb (Z.shiftr word j =? 0))) (seqZ 0 w)) l) =
    map (fun i => (i, existsb (cut n f) (seqZ i (w - i mod w)))) (seqZ (Z.of_nat k * w) (Z.of_nat (length l) * w))) as Hl.
  { induction l as [|v l IH]; intros k Hk; [done|]. cbn [imap concat length].
    replace (Z.of_nat (S (length l)) * w) with (w + Z.of_nat (length l) * w) by lia.
    rewrite seqZ_app, map_app by nia. f_equal.
    - replace (seqZ (Z.of_nat k * w) w) with (map (fun j => Z.of_nat k * w + j) (seqZ 0 w))
        by (rewrite map_seqZ_shift; f_equal; lia).
      rewrite map_map. apply map_ext_in. intros j Hj%list_elem_of_In%elem_of_seqZ.
      assert (words_ b !! k = Some v) as Hv.
      { rewrite <- (Nat.add_0_r k), <- lookup_drop, Hk. done. }
      destruct (denotes_words _ _ _ _ _ Hb Hv) as [Hu Hbits].
      rewrite Nat.add_0_r, shiftr_nonzero by (done || lia). f_equal.
      rewrite (Z.add_comm (_ * w)), Z.mod_add, Z.mod_small by lia.
      rewrite (Z.add_comm j), <- (map_seqZ_shift (Z.of_nat k * w)).
      apply existsb_map_in. intros i Hi%list_elem_of_In%elem_of_seqZ. apply Hbits. lia.
    - replace (Z.of_nat k * w + w) with (Z.of_nat (S k) * w) by lia. rewrite <- (IH (S k)).
      + f_equal. apply imap_ext. intros i u _. simpl. apply map_ext. intros. do 2 f_equal. lia.
      + by rewrite <- Nat.add_1_r, <- drop_drop, Hk. }
  rewrite <- (denotes_length _ _ _ Hb). apply (Hl (words_ b) 0%nat). done.
Qed.

(** * Filtering *)

Lemma denotes_imap b n f g h : denotes b n f ->
  (forall k v, words_ b !! k = Some v -> uint v -> uint (g k v) /\
     forall j, 0 <= j < w -> Z.testbit (g k v) j = Z.testbit v j && h (Z.of_nat k * w + j)) ->
  denotes (mkBitVector (num_bits_ b) (imap g (words_ b))) n (fun i => f i && h i).
Proof.
  intros Hb Hg.
  assert (forall k j, 0 <= k -> 0 <= j < w ->
    Z.testbit (get_word (mkBitVector (num_bits_ b) (imap g (words_ b))) k) j = cut n f (k * w + j) && h (k * w + j)) as Hbit.
  { intros k j Hk Hj. rewrite <- (denotes_bit b n f) by done. unfold get_word. simpl.
    rewrite !nth_lookup, list_lookup_imap. destruct (words_ b !! Z.to_nat k) eqn:Hv; simpl.
    - destruct (Hg _ _ Hv) as [_ Hj']; [by eapply denotes_words|]. rewrite Hj' by done. do 2 f_equal. lia.
    - by rewrite Z.testbit_0_l. }
  pose proof Hb as [(Hn & Hnb & Hl & Hu & _) _]. split; [split_and!; [done|done| | |]|].
  - simpl. by rewrite length_imap.
  - apply Forall_lookup. simpl. intros i v Hv. rewrite list_lookup_imap in Hv.
    destruct (words_ b !! i) eqn:Hi; [|done]. simplify_eq/=. eapply Hg; [done|]. by eapply denotes_words.
  - intros k j Hk Hj Hkn. rewrite Hbit, cut_in by done. done.
  - intros k j Hk Hj Hkn. rewrite Hbit, cut_out by done. done.
Qed.

Lemma fold_bits q l : forall acc, uint acc -> (forall r, r ∈ l -> 0 <= r < w) ->
  uint (fold_left (fun a r => Z.lor a (wshl w (Z.b2z (q r)) r)) l acc) /\
  forall j, 0 <= j < w -> Z.testbit (fold_left (fun a r => Z.lor a (wshl w (Z.b2z (q r)) r)) l acc) j =
    Z.testbit acc j || (bool_decide (j ∈ l) && q j).
Proof.
  induction l as [|r l IH]; intros acc Hacc Hl; simpl.
  - split; [done|]. intros j Hj. by rewrite orb_false_r.
  - destruct (IH (Z.lor acc (wshl w (Z.b2z (q r)) r))) as [Hu Hb].
    + apply lor_uint; [lia|done|by apply wshl_uint].
    + intros i Hi. apply Hl. by apply list_elem_of_further.
    + split; [done|]. intros j Hj. rewrite Hb, Z.lor_spec, tb_shl_bit by
        (done || apply Hl, list_elem_of_here). rewrite <- orb_assoc. f_equal.
      rewrite (bool_decide_ext (j ∈ r :: l) (j = r \/ j ∈ l)) by apply elem_of_cons.
      destruct (Z.eqb_spec j r) as [->|Hne].
      * rewrite (bool_decide_true (r = r \/ _)) by auto. destruct (q r); simpl; [done|by rewrite andb_false_r].
      * rewrite andb_false_r. simpl. f_equal. apply bool_decide_ext. tauto.
Qed.

Lemma UpdateSetBits_denotes b n f p : denotes b n f ->
  denotes (UpdateSetBits w p b) n
    (fun i => f i && (if i / w <? wrapu w (NumNeededWords w n) then p i else true)).
Proof.
  intros Hb. unfold UpdateSetBits, GetNumWords. rewrite (denotes_length _ _ _ Hb).
  apply denotes_imap; [done|]. intros k v Hk Hv. unfold kBitsPerWord.
  assert (forall j, 0 <= j < w -> (Z.of_nat k * w + j) / w = Z.of_nat k) as Hdiv.
  { intros j Hj. rewrite Z.add_comm, Z.div_add, Z.div_small by lia. done. }
  destruct (Z.ltb_spec (Z.of_nat k) (wrapu w (NumNeededWords w n))) as [Hlt|Hge].
  - rewrite set_bits_spec by done.
    destruct (fold_bits (fun r => p (Z.of_nat k * w + r)) (ones v 0 w) 0) as [Hu Hbits].
    { by apply zero_uint. } { intros r Hr%elem_of_ones. lia. }
    split; [apply land_uint; lia || done|]. intros j Hj.
    rewrite Hdiv, (proj2 (Z.ltb_lt _ _)), Z.land_spec, Hbits, Z.testbit_0_l by lia. simpl.
    destruct (Z.testbit v j) eqn:Hvj; [|done]. rewrite bool_decide_true; [done|]. by apply elem_of_ones.
  - split; [done|]. intros j Hj. rewrite Hdiv, (proj2 (Z.ltb_ge _ _)) by lia. by rewrite andb_true_r.
Qed.

Lemma fold_Unset_denotes n p l : (forall i, i ∈ l -> 0 <= i < n) -> forall b f, denotes b n f ->
  denotes (fold_left (fun b i => if p i : bool then b else Unset w i b) l b) n
    (fun i => f i && (if bool_decide (i ∈ l) then p i else true)).
Proof.
  intros Hl. induction l as [|i l IH]; intros b f Hb; simpl.
  - eapply (denotes_ext w Hw); [done|]. intros i _. by rewrite andb_true_r.
  - assert (denotes (if p i then b else Unset w i b) n (fun j => f j && (if j =? i then p i else true))) as Hb'.
    { destruct (p i) eqn:Hp.
      - eapply (denotes_ext w Hw); [done|]. intros j _. destruct (j =? i); by rewrite andb_true_r.
      - eapply (denotes_ext w Hw); [apply Unset_denotes; [lia|done|apply Hl, list_elem_of_here]|].
        intros j _. simpl. destruct (j =? i); by rewrite ?andb_false_r, ?andb_true_r. }
    eapply (denotes_ext w Hw); [apply IH, Hb'; intros j Hj; apply Hl; by apply list_elem_of_further|].
    intros j _. simpl. rewrite <- andb_assoc. f_equal.
    rewrite (bool_decide_ext (j ∈ i :: l) (j = i \/ j ∈ l)) by apply elem_of_cons.
    destruct (Z.eqb_spec j i) as [->|Hne].
    + rewrite (bool_decide_true (i = i \/ _)) by auto. destruct (bool_decide _), (p i); done.
    + simpl. rewrite (bool_decide_ext (j = i \/ j ∈ l) (j ∈ l)) by tauto. done.
Qed.

Lemma UpdateFull_denotes b n f p : denotes b n f -> denotes (UpdateFull w p b) n (fun i => f i && p i).
Proof.
  intros Hb. unfold UpdateFull, GetNumExtraBits, GetNumWords, kBitsPerWord.
  pose proof (denotes_nonneg _ _ _ Hb) as Hn. pose proof (full_words n Hn) as Hfw.
  rewrite (denotes_num_bits _ _ _ Hb), (denotes_length _ _ _ Hb).
  destruct (Z.eqb_spec n 0) as [Hz|Hnz].
  { eapply (denotes_ext w Hw); [done|]. intros i Hi. lia. }
  set (full := if n mod w =? 0 then NumNeededWords w n else NumNeededWords w n - 1).
  assert (0 <= full * w <= n) as Hfull.
  { pose proof (mod_range w Hw n). pose proof (numwords_nonneg w Hw n Hn). subst full.
    destruct (n mod w =? 0); nia. }
  assert (denotes (mkBitVector n (imap (fun i word =>
      if Z.of_nat i <? full then Z.land word (full_word_result w p i) else word) (words_ b))) n
      (fun i => f i && (if i <? full * w then p i else true))) as Hb1.
  { rewrite <- (denotes_num_bits _ _ _ Hb) at 1. apply denotes_imap; [done|]. intros k v Hk Hv.
    unfold full_word_result, kBitsPerWord.
    destruct (fold_bits (fun r => p (Z.of_nat k * w + r)) (seqZ 0 w) 0) as [Hu Hbits].
    { by apply zero_uint. } { intros r Hr%elem_of_seqZ. lia. }
    destruct (Z.ltb_spec (Z.of_nat k) full) as [Hlt|Hge].
    - split; [apply land_uint; lia || done|]. intros j Hj.
      rewrite (proj2 (Z.ltb_lt _ _)), Z.land_spec, Hbits, Z.testbit_0_l by (lia || nia).
      rewrite bool_decide_true; [done|]. apply elem_of_seqZ. lia.
    - split; [done|]. intros j Hj. rewrite (proj2 (Z.ltb_ge _ _)) by nia. by rewrite andb_true_r. }
  eapply (denotes_ext w Hw); [eapply fold_Unset_denotes, Hb1; intros i Hi%elem_of_seqZ; lia|].
  intros i Hi. simpl. rewrite <- andb_assoc. f_equal. rewrite (bool_decide_ext _ (full * w <= i)).
  - rewrite bool_decide_decide. destruct (decide (full * w <= i)), (Z.ltb_spec i (full * w)); simpl; rewrite ?andb_true_r; done || lia.
  - rewrite elem_of_seqZ. lia.
Qed.

End Queries.
