(* ===== verification/BitVectorTheorems.v ===== *)
(** The properties of [BitVector]: any sequence of its operations does to the words what it
    does to the bits, and all queries answer for the bits. *)
From S2P Require Import Prelude BitUtil Intrinsics BitVector BitVectorSpec.

Section Theorems.
Context (w : Z) `{BitOpsSpec} (Hw : 0 < w <= 64).
Abbreviation denotes := (denotes w).

(** * Operations as data *)

Inductive op : Type :=
| OpSet (p : Z) | OpSetTo (p : Z) (v : bool) | OpUnset (p : Z) | OpFlip (p : Z) | OpAssign (p : Z) (v : bool)
| OpSetRange (s e : Z) | OpSetAll | OpReset | OpFlipAll | OpSetWord (k v : Z) | OpResize (m : Z)
| OpCopy (b : BitVector) | OpIntersect (b : BitVector) | OpUnion (b : BitVector)
| OpDifference (b : BitVector) | OpXor (b : BitVector)
| OpUpdateSetBits (p : Z -> bool) | OpUpdateFull (p : Z -> bool).

Definition apply_op (o : op) (b : BitVector) : option BitVector :=
  match o with
  | OpSet p => Some (Set_ w p b)
  | OpSetTo p v => Some (Set_to w p v b)
  | OpUnset p => Some (Unset w p b)
  | OpFlip p => Some (Flip w p b)
  | OpAssign p v => Some (Assign w p v b)
  | OpSetRange s e => SetRange w s e b
  | OpSetAll => Some (SetAll w b)
  | OpReset => Some (Reset b)
  | OpFlipAll => Some (FlipAll w b)
  | OpSetWord k v => Some (SetWord w k v b)
  | OpResize m => Some (Resize w m b)
  | OpCopy c => Some (Copy b c)
  | OpIntersect c => Some (Intersect b c)
  | OpUnion c => Some (Union b c)
  | OpDifference c => Some (Difference w b c)
  | OpXor c => Some (Xor b c)
  | OpUpdateSetBits p => Some (UpdateSetBits w p b)
  | OpUpdateFull p => Some (UpdateFull w p b)
  end.

Fixpoint run (os : list op) (b : BitVector) : option BitVector :=
  match os with [] => Some b | o :: os => b ← apply_op o b; run os b end.

(** * What they mean: a size and a bit function *)

Definition bits : Type := Z * (Z -> bool).

(** The documented requirements, and that a vector whose set bits are updated has fewer words than a word can count. *)
Definition op_ok (o : op) (n : Z) : Prop :=
  match o with
  | OpSet p | OpSetTo p _ | OpUnset p | OpFlip p | OpAssign p _ => 0 <= p < n
  | OpSetRange s e => 0 <= s <= e /\ e <= n
  | OpSetWord k v => is_uint w v /\ 0 <= k < NumNeededWords w n
  | OpResize m => 0 <= m
  | OpCopy c | OpIntersect c | OpUnion c | OpDifference c | OpXor c => denotes c n (Test w c)
  | OpUpdateSetBits _ => NumNeededWords w n < 2 ^ w
  | OpSetAll | OpReset | OpFlipAll | OpUpdateFull _ => True
  end.

(** The operation that meets its requirements and leaves the storage all the same: a range that is not empty and ends with the last bit
    of the last word. *)
Definition op_faults (o : op) (n : Z) : bool := match o with OpSetRange s e => range_faults w n s e | _ => false end.

Definition op_size (o : op) (n : Z) : Z := match o with OpResize m => m | _ => n end.

Definition op_bits (o : op) (n : Z) (f : Z -> bool) : Z -> bool :=
  match o with
  | OpSet p => fun i => f i || (i =? p)
  | OpSetTo p v | OpAssign p v => fun i => if i =? p then v else f i
  | OpUnset p => fun i => f i && negb (i =? p)
  | OpFlip p => fun i => xorb (f i) (i =? p)
  | OpSetRange s e => fun i => f i || ((s <=? i) && (i <? e))
  | OpSetAll => fun _ => true
  | OpReset => fun _ => false
  | OpFlipAll => fun i => negb (f i)
  | OpSetWord k v => fun i => if i / w =? k then Z.testbit v (i mod w) else f i
  | OpResize _ => fun i => (i <? n) && f i
  | OpCopy c => Test w c
  | OpIntersect c => fun i => f i && Test w c i
  | OpUnion c => fun i => f i || Test w c i
  | OpDifference c => fun i => f i && negb (Test w c i)
  | OpXor c => fun i => xorb (f i) (Test w c i)
  | OpUpdateSetBits p | OpUpdateFull p => fun i => f i && p i
  end.

Fixpoint ops_ok (os : list op) (n : Z) : Prop :=
  match os with [] => True | o :: os => op_ok o n /\ ops_ok os (op_size o n) end.
Fixpoint ops_fault (os : list op) (n : Z) : bool :=
  match os with [] => false | o :: os => op_faults o n || ops_fault os (op_size o n) end.

Fixpoint run_bits (os : list op) (s : bits) : bits :=
  match os with
  | [] => s
  | o :: os => run_bits os (op_size o s.1, op_bits o s.1 s.2)
  end.

Lemma apply_op_denotes o b n f : denotes b n f -> op_ok o n ->
  if op_faults o n then apply_op o b = None
  else exists b', apply_op o b = Some b' /\ denotes b' (op_size o n) (op_bits o n f).
Proof.
  intros Hb Hok. destruct o; simpl in *; try (eexists; split; [done|]).
  - eapply Set_denotes; done.
  - eapply Set_to_denotes; done.
  - eapply Unset_denotes; done.
  - eapply Flip_denotes; done.
  - eapply Assign_denotes; done.
  - destruct Hok as [Hse Hen]. by apply SetRange_documented.
  - eapply SetAll_denotes; done.
  - eapply Reset_denotes; done.
  - eapply FlipAll_denotes; done.
  - destruct Hok. eapply SetWord_denotes; done.
  - eapply Resize_denotes; done.
  - eapply Copy_denotes; done.
  - eapply Intersect_denotes; done.
  - eapply Union_denotes; done.
  - eapply Difference_denotes; done.
  - eapply Xor_denotes; done.
  - eapply (denotes_ext w Hw); [by eapply UpdateSetBits_denotes|]. intros i Hi. simpl.
    pose proof (numwords_nonneg w Hw n (denotes_nonneg w _ _ _ Hb)) as Hnw.
    rewrite wrapu_small by (split; lia). rewrite (proj2 (Z.ltb_lt _ _)); [done|].
    pose proof (numwords_bounds w Hw n (denotes_nonneg w _ _ _ Hb)). apply Z.div_lt_upper_bound; lia.
  - eapply UpdateFull_denotes; done.
Qed.

Lemma run_denotes os : forall b n f, denotes b n f -> ops_ok os n ->
  if ops_fault os n then run os b = None
  else exists b', run os b = Some b' /\ denotes b' (run_bits os (n, f)).1 (run_bits os (n, f)).2.
Proof.
  induction os as [|o os IH]; intros b n f Hb Hok; cbn [ops_ok ops_fault run run_bits fst snd] in *; [by exists b|].
  destruct Hok as [Ho Hos]. pose proof (apply_op_denotes o b n f Hb Ho) as Hap. destruct (op_faults o n); cbn [orb].
  - by rewrite Hap.
  - destruct Hap as (b' & -> & Hb'). by apply IH.
Qed.

(** C25: Any sequence of operations within their documented requirements (and with fewer words than a word can count, where the set bits are updated) does to the
    words what it does to the bits: the vector stays well formed (exactly the words needed, the
    bits past the end zero) and holds the bits the operations compute.  There is one exception: the sequence leaves the storage exactly if it has a range that is not empty and ends with the last
    bit of the last word, which the documentation allows. *)
Theorem ops_refine_bits n os : 0 <= n -> ops_ok os n ->
  if ops_fault os n then run os (new_BitVector w n) = None
  else exists b, run os (new_BitVector w n) = Some b /\
    denotes b (run_bits os (n, fun _ => false)).1 (run_bits os (n, fun _ => false)).2.
Proof. intros Hn Hok. apply run_denotes; [by apply new_denotes|done]. Qed.

(** All queries of a vector answer for the bits it holds, and equality is equality of the bits. *)
Theorem queries_answer_for_the_bits b n f : denotes b n f ->
  GetNumBits b = n /\
  (forall i, 0 <= i < n -> Test w b i = f i) /\
  (All w b = true <-> forall i, 0 <= i < n -> f i = true) /\
  (None_ b = true <-> forall i, 0 <= i < n -> f i = false) /\
  (Any b = true <-> exists i, 0 <= i < n /\ f i = true) /\
  CountOnes b = Z.of_nat (length (members n f)) /\
  (forall i, 0 <= i -> NthOne w i b = default n (members n f !! Z.to_nat i)) /\
  FindFirst w b = next_member n f 0 /\
  (forall p, 0 <= p -> FindNext w p b = next_member n f (p + 1)) /\
  ForEachSet w b = members n f /\
  (forall b' n' f', denotes b' n' f' -> Equal b b' = true <-> n = n' /\ forall i, 0 <= i < n -> f i = f' i).
Proof.
  intros Hb. split_and!.
  - by eapply denotes_num_bits.
  - intros i Hi. eapply Test_denotes; done.
  - by apply All_spec.
  - by eapply None_spec.
  - by eapply Any_spec.
  - by eapply CountOnes_spec.
  - intros i Hi. by apply NthOne_spec.
  - by apply FindFirst_spec.
  - intros p Hp. by apply FindNext_spec.
  - by apply ForEachSet_spec.
  - intros b' n' f' Hb'. by eapply Equal_spec.
Qed.

(** When the number of words overflows the word type, [UpdateSetBits] updates nothing. *)
Theorem UpdateSetBits_narrow_counter b n f p : denotes b n f -> NumNeededWords w n mod 2 ^ w = 0 ->
  UpdateSetBits w p b = b.
Proof.
  intros Hb Hn. eapply (denotes_inj w Hw).
  - eapply UpdateSetBits_denotes; done.
  - done.
  - intros i Hi. simpl. unfold wrapu. rewrite Hn. rewrite (proj2 (Z.ltb_ge _ _)).
    + by rewrite andb_true_r.
    + apply Z.div_pos; lia.
Qed.

End Theorems.

(** * Witnesses *)

Definition sample_ops : list op :=
  [OpSet 3; OpSetRange 5 9; OpFlip 6; OpUnset 8; OpResize 20; OpSetWord 1 0xf0; OpUpdateSetBits Z.even;
   OpUnion (mkBitVector 20 [1; 0; 8]); OpFlipAll].

(** A concrete vector is checked word by word. *)
Lemma denotes_checked b n : 0 <= n -> num_bits_ b = n -> Z.of_nat (length (words_ b)) = NumNeededWords 8 n ->
  Forall (is_uint 8) (words_ b) ->
  forallb (fun k => forallb (fun j => Bool.eqb (Z.testbit (get_word b k) j) ((k * 8 + j <? n) && Test 8 b (k * 8 + j)))
    (seqZ 0 8)) (seqZ 0 (Z.of_nat (length (words_ b)))) = true ->
  denotes 8 b n (Test 8 b).
Proof.
  intros Hn Hb Hl Hu Hall.
  assert (forall k j, 0 <= k -> 0 <= j < 8 -> Z.testbit (get_word b k) j = (k * 8 + j <? n) && Test 8 b (k * 8 + j)) as Hbit.
  { intros k j Hk Hj. destruct (Z.lt_ge_cases k (Z.of_nat (length (words_ b)))) as [Hlt|Hge].
    - rewrite forallb_forall in Hall. specialize (Hall k ltac:(apply list_elem_of_In, elem_of_seqZ; lia)).
      rewrite forallb_forall in Hall. apply Bool.eqb_prop, Hall, list_elem_of_In, elem_of_seqZ. lia.
    - rewrite get_word_out, Z.testbit_0_l by done. pose proof (numwords_bounds 8 ltac:(lia) n Hn).
      by rewrite (proj2 (Z.ltb_ge _ _)) by lia. }
  split; [split_and!; try done|]; intros k j Hk Hj Hkn; rewrite Hbit by done.
  - by rewrite (proj2 (Z.ltb_lt _ _)).
  - by rewrite (proj2 (Z.ltb_ge _ _)).
Qed.

Lemma sample_ops_ok : ops_ok 8 sample_ops 10.
Proof.
  cbn [ops_ok op_ok op_size sample_ops]. split_and!; try (lia || done).
  apply denotes_checked; [lia|done|done| |by vm_compute]. repeat constructor; lia.
Qed.

Lemma ops_refine_bits_witness :
  (exists b, run 8 sample_ops (new_BitVector 8 10) = Some b /\
    denotes 8 b (run_bits 8 sample_ops (10, fun _ => false)).1 (run_bits 8 sample_ops (10, fun _ => false)).2) /\
  run 8 [OpSet 2; OpSetRange 3 16] (new_BitVector 8 16) = None.
Proof.
  split; [apply (ops_refine_bits 8 ltac:(lia) 10 sample_ops); [lia|exact sample_ops_ok]|].
  apply (ops_refine_bits 8 ltac:(lia) 16 [OpSet 2; OpSetRange 3 16]); [lia|]. cbn. split_and!; lia || done.
Defined.

Lemma queries_answer_for_the_bits_witness : CountOnes (new_BitVector 8 10) = 0 /\
  FindFirst 8 (new_BitVector 8 10) = next_member 10 (fun _ => false) 0.
Proof.
  destruct (queries_answer_for_the_bits 8 ltac:(lia) _ 10 (fun _ => false) (new_denotes 8 ltac:(lia) 10 ltac:(lia)))
    as (_ & _ & _ & _ & _ & Hc & _ & Hf & _).
  split; [exact Hc|exact Hf].
Defined.

Lemma UpdateSetBits_narrow_counter_witness :
  UpdateSetBits 8 (fun _ => false) (SetAll 8 (new_BitVector 8 2048)) = SetAll 8 (new_BitVector 8 2048).
Proof.
  apply (UpdateSetBits_narrow_counter 8 ltac:(lia) _ 2048 (fun _ => true)); [|reflexivity].
  apply (SetAll_denotes 8 ltac:(lia) _ 2048 (fun _ => false)). apply new_denotes; lia.
Defined.
