(* ===== verification/VectorUtil.v ===== *)
(** Selection vectors, byte vectors and bit vectors: [src/util/vector_util.cpp].

    An array the code writes is the list of its elements, its length the capacity; a write
    outside gives [None].  The pointers [i] and [j] of a merge are the rests of the arrays they
    walk.  An element of a selection vector is a [sel_t], 16 bits; indexes are [uint32_t], and no
    array is long enough for one to wrap around. *)
From Stdlib Require Import SpecFloat.
From S2P Require Import Prelude Buffer BitUtil Simd VectorLookupTables BitVector.

(** * Selection vectors *)

Fixpoint Intersect_while (fuel : nat) (sel_vector_1 sel_vector_2 : list Z) (k : Z) (out_sel_vector : list Z)
  : option (Z * list Z) :=
  match fuel with
  | O => None
  | S fuel' =>
      match sel_vector_1, sel_vector_2 with
      | x :: rest1, y :: rest2 =>
          if x =? y then
            out_sel_vector ← store k [x] out_sel_vector;
            Intersect_while fuel' rest1 rest2 (k + 1) out_sel_vector
          else if x <? y then Intersect_while fuel' rest1 sel_vector_2 k out_sel_vector
          else Intersect_while fuel' sel_vector_1 rest2 k out_sel_vector
      | _, _ => Some (k, out_sel_vector)
      end
  end.

(** [VectorUtil::IntersectSelected] of two selection vectors; the swap happens once. *)
Definition IntersectSelected (sel_vector_1 sel_vector_2 out_sel_vector : list Z) : option (Z * list Z) :=
  if (length sel_vector_1 =? 0)%nat || (length sel_vector_2 =? 0)%nat then Some (0, out_sel_vector)
  else
    let '(a, b) := if (length sel_vector_2 <? length sel_vector_1)%nat then (sel_vector_2, sel_vector_1)
                   else (sel_vector_1, sel_vector_2) in
    Intersect_while (S (length a + length b)) a b 0 out_sel_vector.

(** [VectorUtil::IntersectSelected] of a selection vector and a bit vector. *)
Fixpoint IntersectSelectedBits_for (sel_vector bit_vector : list Z) (k : Z) (out_sel_vector : list Z)
  : option (Z * list Z) :=
  match sel_vector with
  | [] => Some (k, out_sel_vector)
  | index :: sel_vector =>
      word ← bit_vector !! Z.to_nat (index / 64);
      let bit := negb (Z.land word (Z.shiftl 1 (index mod 64)) =? 0) in
      out_sel_vector ← store k [index] out_sel_vector;
      IntersectSelectedBits_for sel_vector bit_vector (k + Z.b2z bit) out_sel_vector
  end.
Definition IntersectSelectedBits (sel_vector bit_vector out_sel_vector : list Z) : option (Z * list Z) :=
  IntersectSelectedBits_for sel_vector bit_vector 0 out_sel_vector.

(** [while (j < limit) out_sel_vector[k++] = j++]; [count] is the number of iterations. *)
Fixpoint Diff_while (count : nat) (j k : Z) (out_sel_vector : list Z) : option (Z * Z * list Z) :=
  match count with
  | O => Some (j, k, out_sel_vector)
  | S count' =>
      out_sel_vector ← store k [wrapu 16 j] out_sel_vector;
      Diff_while count' (j + 1) (k + 1) out_sel_vector
  end.

Fixpoint Diff_for (sel_vector : list Z) (j k : Z) (out_sel_vector : list Z) : option (Z * Z * list Z) :=
  match sel_vector with
  | [] => Some (j, k, out_sel_vector)
  | s :: sel_vector =>
      '(j, k, out_sel_vector) ← Diff_while (Z.to_nat (s - j)) j k out_sel_vector;
      Diff_for sel_vector (j + 1) k out_sel_vector
  end.

Definition DiffSelected_Scalar (n : Z) (sel_vector out_sel_vector : list Z) : option (Z * list Z) :=
  '(j, k, out_sel_vector) ← Diff_for sel_vector 0 0 out_sel_vector;
  '(_, _, out_sel_vector) ← Diff_while (Z.to_nat (n - j)) j k out_sel_vector;
  Some (wrapu 32 (n - Z.of_nat (length sel_vector)), out_sel_vector).

Fixpoint SelectionVectorToByteVector (sel_vector byte_vector : list Z) : option (list Z) :=
  match sel_vector with
  | [] => Some byte_vector
  | s :: sel_vector =>
      byte_vector ← store s [0xff] byte_vector;
      SelectionVectorToByteVector sel_vector byte_vector
  end.

(** * Vectorised conversions *)

Section Vectorised.
Context `{BitOps, SimdOps}.

(** [_mm_storeu_si128] into an array of [sel_t]. *)
Definition storeu_si128 (k v : Z) (out : list Z) : option (list Z) := store k (lanes 16 8 v) out.

(** The positions of the set bits of [mask], from [idx] on, are written at [k]. *)
Definition store_match (mask idx k : Z) (sel_vector : list Z) : option (list Z) :=
  let match_pos_scaled := mm_loadl_epi64 (nth (Z.to_nat mask) k8BitMatchLUT 0) in
  let match_pos := mm_cvtepi8_epi16 match_pos_scaled in
  let pos_vec := mm_add_epi16 idx match_pos in
  storeu_si128 k pos_vec sel_vector.

Fixpoint ByteSel_tail (bytes : list Z) (i k : Z) (sel_vector : list Z) : option (Z * list Z) :=
  match bytes with
  | [] => Some (k, sel_vector)
  | b :: bytes =>
      sel_vector ← store k [wrapu 16 i] sel_vector;
      ByteSel_tail bytes (i + 1) (k + Z.b2z (b =? 0xff)) sel_vector
  end.

(** The main loop, then the tail; [bytes] is what is left of the byte vector. *)
Fixpoint ByteSel_main (fuel : nat) (bytes : list Z) (i idx k : Z) (sel_vector : list Z) : option (Z * list Z) :=
  match fuel with
  | O => None
  | S fuel' =>
      if (8 <=? length bytes)%nat then
        let word := le_bytes (take 8 bytes) in
        let mask := pext_u64 word 0x202020202020202 in
        sel_vector ← store_match mask idx k sel_vector;
        ByteSel_main fuel' (drop 8 bytes) (i + 8) (mm_add_epi16 idx (mm_set1_epi16 8))
          (k + CountPopulation (wrapu 32 mask)) sel_vector
      else ByteSel_tail bytes i k sel_vector
  end.

Definition ByteVectorToSelectionVector (byte_vector sel_vector : list Z) : option (Z * list Z) :=
  ByteSel_main (S (length byte_vector)) byte_vector 0 (mm_set1_epi16 0) 0 sel_vector.

Definition DiffSelected_WithScratchPad (n : Z) (sel_vector out_sel_vector scratch : list Z)
  : option (Z * list Z) :=
  scratch ← store 0 (replicate (Z.to_nat n) 0) scratch;
  scratch ← SelectionVectorToByteVector sel_vector scratch;
  let bytes := map (fun b => wrapu 8 (Z.lnot b)) (take (Z.to_nat n) scratch) in
  ByteVectorToSelectionVector bytes out_sel_vector.

(** The scratch pad starts with arbitrary contents. *)
Definition kDefaultVectorSize : Z := 2048.
Definition DiffSelected (n : Z) (sel_vector out_sel_vector scratch : list Z) : option (Z * list Z) :=
  if Z.of_nat (length scratch) =? kDefaultVectorSize
  then DiffSelected_WithScratchPad n sel_vector out_sel_vector scratch else None.

(** * Byte vectors and bit vectors *)

Definition set_word (k v : Z) (bit_vector : list Z) : option (list Z) := store k [v] bit_vector.

Fixpoint ByteBits_tail (bytes : list Z) (i k : Z) (bit_vector : list Z) : option (list Z) :=
  match bytes with
  | [] => Some bit_vector
  | b :: bytes =>
      let val := wrapu 64 (wraps 8 b) in
      let mask := Z.shiftl 1 (i mod 64) in
      word ← bit_vector !! Z.to_nat k;
      bit_vector ← set_word k (Z.lxor word (Z.land (Z.lxor val word) mask)) bit_vector;
      ByteBits_tail bytes (i + 1) k bit_vector
  end.

Fixpoint ByteBits_main (fuel : nat) (bytes : list Z) (i k : Z) (bit_vector : list Z) : option (list Z) :=
  match fuel with
  | O => None
  | S fuel' =>
      if (64 <=? length bytes)%nat then
        let v_lo := le_bytes (take 32 bytes) in
        let v_hi := le_bytes (take 32 (drop 32 bytes)) in
        let hi := mm256_movemask_epi8 v_hi in
        let lo := mm256_movemask_epi8 v_lo in
        bit_vector ← set_word k (Z.lor (wrapu 64 (Z.shiftl hi 32)) lo) bit_vector;
        ByteBits_main fuel' (drop 64 bytes) (i + 64) (k + 1) bit_vector
      else ByteBits_tail bytes i k bit_vector
  end.

Definition ByteVectorToBitVector (byte_vector bit_vector : list Z) : option (list Z) :=
  ByteBits_main (S (length byte_vector)) byte_vector 0 0 bit_vector.

(** The bytes of 32 bits. *)
Definition expand32 (half : Z) : list Z :=
  let shuffle := mm256_setr_epi64x 0x0000000000000000 0x0101010101010101
                                   0x0202020202020202 0x0303030303030303 in
  let bit_mask := mm256_set1_epi64x 0x7fbfdfeff7fbfdfe in
  let vmask := mm256_set1_epi32 half in
  let vmask := mm256_shuffle_epi8 vmask shuffle in
  let vmask := mm256_or_si256 vmask bit_mask in
  let vbytes := mm256_cmpeq_epi8 vmask (mm256_set1_epi64x (-1)) in
  lanes 8 32 vbytes.

Fixpoint BitByte_main (words : list Z) (k : Z) (byte_vector : list Z) : option (Z * list Z) :=
  match words with
  | [] => Some (k, byte_vector)
  | word :: words =>
      byte_vector ← store k (expand32 (wrapu 32 word)) byte_vector;
      byte_vector ← store (k + 32) (expand32 (wrapu 32 (Z.shiftr word 32))) byte_vector;
      BitByte_main words (k + 64) byte_vector
  end.

Fixpoint BitByte_tail (count : nat) (word k : Z) (byte_vector : list Z) : option (list Z) :=
  match count with
  | O => Some byte_vector
  | S count' =>
      byte_vector ← store k [wrapu 8 (- Z.b2z (Z.land word 1 =? 1))] byte_vector;
      BitByte_tail count' (Z.shiftr word 1) (k + 1) byte_vector
  end.

Definition BitVectorToByteVector (bit_vector : list Z) (num_bits : Z) (byte_vector : list Z)
  : option (list Z) :=
  '(k, byte_vector) ← BitByte_main (take (Z.to_nat (num_bits / 64)) bit_vector) 0 byte_vector;
  let tail_size := num_bits mod 64 in
  if tail_size =? 0 then Some byte_vector
  else
    word ← bit_vector !! Z.to_nat (num_bits / 64);
    BitByte_tail (Z.to_nat tail_size) word k byte_vector.

(** * Bit vectors to selection vectors *)

Fixpoint Sparse_while (fuel : nat) (word base k : Z) (sel_vector : list Z) : option (Z * list Z) :=
  match fuel with
  | O => None
  | S fuel' =>
      if word =? 0 then Some (k, sel_vector)
      else
        sel_vector ← store k [wrapu 16 (base + CountTrailingZeros word)] sel_vector;
        Sparse_while fuel' (Z.land word (word - 1)) base (k + 1) sel_vector
  end.

Fixpoint Sparse_for (words : list Z) (base k : Z) (sel_vector : list Z) : option (Z * list Z) :=
  match words with
  | [] => Some (k, sel_vector)
  | word :: words =>
      '(k, sel_vector) ← Sparse_while 65 word base k sel_vector;
      Sparse_for words (base + 64) k sel_vector
  end.

(** The words the loops over [num_words] read. *)
Definition num_words (num_bits : Z) : Z := DivRoundUp num_bits 64.
Definition words_read (bit_vector : list Z) (num_bits : Z) : list Z :=
  take (Z.to_nat (num_words num_bits)) bit_vector.

Definition BitVectorToSelectionVector_Sparse (bit_vector : list Z) (num_bits : Z) (sel_vector : list Z)
  : option (Z * list Z) :=
  Sparse_for (words_read bit_vector num_bits) 0 0 sel_vector.

(** The eight bytes of a word; [k] is a [uint16_t]. *)
Fixpoint Dense_bytes (count : nat) (word idx k : Z) (sel_vector : list Z) : option (Z * Z * list Z) :=
  match count with
  | O => Some (idx, k, sel_vector)
  | S count' =>
      let mask := wrapu 8 word in
      sel_vector ← store_match mask idx k sel_vector;
      Dense_bytes count' (Z.shiftr word 8) (mm_add_epi16 idx (mm_set1_epi16 8))
        (wrapu 16 (k + CountPopulation mask)) sel_vector
  end.

Fixpoint Dense_for (words : list Z) (idx k : Z) (sel_vector : list Z) : option (Z * list Z) :=
  match words with
  | [] => Some (k, sel_vector)
  | word :: words =>
      '(idx, k, sel_vector) ← Dense_bytes 8 word idx k sel_vector;
      Dense_for words idx k sel_vector
  end.

Definition BitVectorToSelectionVector_Dense_AVX2 (bit_vector : list Z) (num_bits : Z) (sel_vector : list Z)
  : option (Z * list Z) :=
  Dense_for (words_read bit_vector num_bits) (mm_set1_epi16 0) 0 sel_vector.

(** The results of the two [_mm512_add_epi16] are discarded: [indexes] never changes. *)
Fixpoint Dense512_for (words : list Z) (k : Z) (sel_vector : list Z) : option (Z * list Z) :=
  let indexes := mm512_set_epi16 (rev (seqZ 0 32)) in
  match words with
  | [] => Some (k, sel_vector)
  | word :: words =>
      let mask := wrapu 32 word in
      sel_vector ← store k (mm512_mask_compress_epi16 mask indexes) sel_vector;
      let k := k + CountPopulation mask in
      let mask := wrapu 32 (Z.shiftr word 32) in
      sel_vector ← store k (mm512_mask_compress_epi16 mask indexes) sel_vector;
      let k := k + CountPopulation mask in
      Dense512_for words k sel_vector
  end.

Definition BitVectorToSelectionVector_Dense_AVX512 (bit_vector : list Z) (num_bits : Z) (sel_vector : list Z)
  : option (Z * list Z) :=
  Dense512_for (words_read bit_vector num_bits) 0 sel_vector.

(** The choice of [__AVX512VBMI2__] is made when the program is built. *)
Definition BitVectorToSelectionVector_Dense (avx512vbmi2 : bool) (bit_vector : list Z) (num_bits : Z)
    (sel_vector : list Z) : option (Z * list Z) :=
  if avx512vbmi2 then BitVectorToSelectionVector_Dense_AVX512 bit_vector num_bits sel_vector
  else BitVectorToSelectionVector_Dense_AVX2 bit_vector num_bits sel_vector.

(** A [float] as a [double], and the [double] the literal [0.15] denotes. *)
Definition float_to_double (f : spec_float) : spec_float :=
  match f with
  | S754_finite s m e => binary_normalize 53 1024 (if s then Z.neg m else Z.pos m) e s
  | _ => f
  end.
Definition kSparseDensity : spec_float :=
  SFdiv 53 1024 (binary_normalize 53 1024 15 0 false) (binary_normalize 53 1024 100 0 false).

Definition BitVectorToSelectionVector (avx512vbmi2 : bool) (bit_vector : list Z) (num_bits : Z)
    (sel_vector : list Z) : option (Z * list Z) :=
  let count := fold_left (fun count word => count + CountPopulation word) (words_read bit_vector num_bits) 0 in
  let density := SFdiv 24 128 (to_float count) (to_float num_bits) in
  if SFleb (float_to_double density) kSparseDensity
  then BitVectorToSelectionVector_Sparse bit_vector num_bits sel_vector
  else BitVectorToSelectionVector_Dense avx512vbmi2 bit_vector num_bits sel_vector.

End Vectorised.
