(* ===== verification/VectorUtilSpec.v ===== *)
(** What the conversions of [VectorUtil] compute: every one of them agrees with a filter of the
    positions, the sparse and dense unpackings among them, and stays within its arrays. *)
From Stdlib Require Import Sorted SpecFloat.
From stdpp Require Import sorting.
From S2P Require Import Prelude Buffer BitUtil Simd VectorLookupTables BitVector BitVectorSpec VectorUtil.

(** * Sorted selection vectors *)

Abbreviation sorted := (StronglySorted Z.lt).

Lemma sorted_lt x l y : sorted (x :: l) -> y ∈ l -> x < y.
Proof. intros Hs Hy. apply StronglySorted_inv in Hs as [_ Hf]. rewrite Forall_forall in Hf. auto. Qed.

Lemma sorted_tail x l : sorted (x :: l) -> sorted l.
Proof. intros Hs. by apply StronglySorted_inv in Hs as [? _]. Qed.

Lemma sorted_NoDup l : sorted l -> NoDup l.
Proof.
  induction l as [|x l IH]; intros Hs; constructor; [|by eapply IH, sorted_tail].
  intros Hx. pose proof (sorted_lt _ _ _ Hs Hx). lia.
Qed.

Lemma sorted_filter P `{!forall x : Z, Decision (P x)} l : sorted l -> sorted (filter P l).
Proof.
  induction l as [|x l IH]; intros Hs; [done|]. rewrite filter_cons.
  pose proof (IH (sorted_tail _ _ Hs)). destruct (decide (P x)); [|done]. constructor; [done|].
  apply Forall_forall. intros y [_ Hy]%list_elem_of_filter. by eapply sorted_lt.
Qed.

(** Sorted vectors with the same elements are equal. *)
Lemma sorted_ext l l' : sorted l -> sorted l' -> (forall x, x ∈ l <-> x ∈ l') -> l = l'.
Proof.
  intros Hs Hs' He. assert (AntiSymm (=) Z.lt) by (intros x y; lia).
  apply (StronglySorted_unique Z.lt); [done|done|].
  apply NoDup_Permutation; auto using sorted_NoDup.
Qed.

Lemma sorted_seqZ a n : sorted (seqZ a n).
Proof.
  assert (forall k a, sorted (seqZ a (Z.of_nat k))) as Hk.
  { induction k as [|k IH]; intros b; [rewrite seqZ_nil by lia; constructor|]. rewrite seqZ_cons by lia.
    replace (Z.pred (Z.of_nat (S k))) with (Z.of_nat k) by lia. constructor; [apply IH|].
    apply Forall_forall. intros y Hy%elem_of_seqZ. lia. }
  destruct (Z.le_gt_cases 0 n); [rewrite <- (Z2Nat.id n) by done; apply Hk|].
  rewrite seqZ_nil by lia. constructor.
Qed.

Lemma Intersect_while_spec fuel : forall a b k out l, sorted a -> sorted b ->
  (length a + length b < fuel)%nat -> written k out l ->
  k + Z.of_nat (length a `min` length b) <= Z.of_nat (length out) ->
  exists k' out', Intersect_while fuel a b k out = Some (k', out') /\ length out' = length out /\
    written k' out' (l ++ filter (.∈ b) a).
Proof.
  induction fuel as [|fuel IH]; intros a b k out l Ha Hb Hf Hw Hk; [lia|]. cbn [Intersect_while].
  destruct a as [|x a].
  { exists k, out. rewrite filter_nil, app_nil_r. done. }
  destruct b as [|y b].
  { exists k, out. rewrite filter_nil_iff, app_nil_r; [done|]. intros z _. apply not_elem_of_nil. }
  cbn [length] in Hf, Hk.
  assert (y <= x -> forall z, z ∈ a -> z ∈ y :: b <-> z ∈ b) as Hskip.
  { intros Hyx z Hz. pose proof (sorted_lt _ _ _ Ha Hz). rewrite elem_of_cons. intuition. lia. }
  destruct (Z.eqb_spec x y) as [->|Hne]; [|destruct (Z.ltb_spec x y)].
  - destruct (store_one k y out l Hw) as (out' & -> & Hl & _ & Hw'); [lia|]. simpl.
    destruct (IH a b (k + 1) out' (l ++ [y])) as (k2 & out2 & -> & Hl2 & Hw2);
      [by eapply sorted_tail|by eapply sorted_tail|lia|done|lia|].
    exists k2, out2. split_and!; [done|lia|]. rewrite filter_cons_True by apply list_elem_of_here.
    rewrite (filter_ext_in (.∈ y :: b) (.∈ b)) by auto with lia. by rewrite <- app_assoc in Hw2.
  - destruct (IH a (y :: b) k out l) as (k2 & out2 & -> & Hl2 & Hw2);
      [by eapply sorted_tail|done|cbn [length]; lia|done|cbn [length]; lia|].
    exists k2, out2. split_and!; [done|lia|]. rewrite filter_cons_False; [done|].
    intros [->|Hx]%elem_of_cons; [lia|]. pose proof (sorted_lt _ _ _ Hb Hx). lia.
  - destruct (IH (x :: a) b k out l) as (k2 & out2 & -> & Hl2 & Hw2);
      [done|by eapply sorted_tail|cbn [length]; lia|done|cbn [length]; lia|].
    exists k2, out2. split_and!; [done|lia|].
    rewrite (filter_ext_in (.∈ y :: b) (.∈ b)); [done|]. intros z Hz. rewrite elem_of_cons.
    assert (y < z) by (apply elem_of_cons in Hz as [->|Hz]; [lia|pose proof (sorted_lt _ _ _ Ha Hz); lia]).
    intuition. lia.
Qed.

Lemma IntersectSelected_spec a b out : sorted a -> sorted b ->
  (length a `min` length b <= length out)%nat ->
  exists k out', IntersectSelected a b out = Some (k, out') /\ length out' = length out /\
    written k out' (filter (.∈ b) a).
Proof.
  intros Ha Hb Hlen. unfold IntersectSelected. destruct (_ || _) eqn:Hz.
  { exists 0, out. split_and!; [done|done|]. rewrite filter_nil_iff; [apply written_nil|].
    apply orb_true_iff in Hz. rewrite !Nat.eqb_eq in Hz. intros x Hx Hx'.
    destruct a; [by apply not_elem_of_nil in Hx|]. destruct b; [by apply not_elem_of_nil in Hx'|]. simpl in *; lia. }
  destruct (Nat.ltb_spec (length b) (length a)).
  - destruct (Intersect_while_spec (S (length b + length a)) b a 0 out []) as (k & out' & -> & Hl & Hw);
      [done|done|lia|apply written_nil|lia|].
    exists k, out'. split_and!; [done|done|]. simpl in Hw.
    rewrite (sorted_ext (filter (.∈ b) a) (filter (.∈ a) b)); [done|by apply sorted_filter..|].
    intros x. rewrite !list_elem_of_filter. tauto.
  - destruct (Intersect_while_spec (S (length a + length b)) a b 0 out []) as (k & out' & -> & Hl & Hw);
      [done|done|lia|apply written_nil|lia|]. by exists k, out'.
Qed.

(** A single bit of a word, the way the code tests it. *)
Lemma test_word v j : is_uint 64 v -> 0 <= j < 64 ->
  negb (Z.land v (Z.shiftl 1 j) =? 0) = Z.testbit v j.
Proof.
  intros Hv Hj. rewrite Z.shiftl_1_l. destruct (Z.testbit v j) eqn:Hb.
  - apply negb_true_iff, Z.eqb_neq. intros Hz.
    assert (Z.testbit (Z.land v (2 ^ j)) j = true) as Ht by (by rewrite Z.land_spec, Hb, Z.pow2_bits_true by lia).
    by rewrite Hz, Z.testbit_0_l in Ht.
  - apply negb_false_iff, Z.eqb_eq, Z.bits_inj'. intros i Hi. rewrite Z.land_spec, Z.testbit_0_l.
    destruct (Z.eq_dec i j) as [->|]; [by rewrite Hb|]. by rewrite Z.pow2_bits_false, andb_false_r by lia.
Qed.

Lemma IntersectSelectedBits_for_spec words n f sel : denotes 64 (mkBitVector n words) n f ->
  Forall (fun i => 0 <= i < n) sel -> forall k out l, written k out l ->
  k + Z.of_nat (length sel) <= Z.of_nat (length out) ->
  exists k' out', IntersectSelectedBits_for sel words k out = Some (k', out') /\ length out' = length out /\
    written k' out' (l ++ filter (fun i => f i = true) sel).
Proof.
  intros Hb. induction 1 as [|i sel Hi Hsel IH]; intros k out l Hw Hk; cbn [IntersectSelectedBits_for length] in *.
  { exists k, out. by rewrite filter_nil, app_nil_r. }
  pose proof Hb as [Hr _]. pose proof (word_index_in 64 ltac:(lia) _ _ _ i Hr Hi) as Hin.
  destruct Hr as (_ & _ & _ & Hu & Hbits). simpl in Hin, Hu.
  destruct (lookup_lt_is_Some_2 words (Z.to_nat (i / 64))) as [v Hv]; [lia|]. rewrite Hv. simpl.
  pose proof (Z.mod_pos_bound i 64 ltac:(lia)). pose proof (Z.div_mod i 64 ltac:(lia)).
  rewrite test_word by (done || by eapply Forall_lookup_1).
  assert (Z.testbit v (i mod 64) = f i) as ->.
  { replace v with (get_word (mkBitVector n words) (i / 64)) by (unfold get_word; simpl; by rewrite nth_lookup, Hv).
    rewrite Hbits by lia. f_equal. lia. }
  destruct (store_one k i out l Hw) as (out1 & -> & Hl1 & Hw0 & Hw1); [lia|]. simpl.
  rewrite filter_cons. destruct (f i).
  - destruct (IH (k + 1) out1 (l ++ [i]) Hw1) as (k2 & out2 & He & Hl2 & Hw2); [lia|].
    exists k2, out2. split_and!; [done|lia|]. rewrite decide_True by done. by rewrite <- app_assoc in Hw2.
  - destruct (IH (k + 0) out1 l) as (k2 & out2 & He & Hl2 & Hw2); [by rewrite Z.add_0_r|lia|].
    exists k2, out2. split_and!; [done|lia|]. by rewrite decide_False by done.
Qed.

(** * Difference *)

Lemma Diff_while_spec count : forall j k out l, 0 <= j -> j + Z.of_nat count <= 2 ^ 16 -> written k out l ->
  k + Z.of_nat count <= Z.of_nat (length out) ->
  exists out', Diff_while count j k out = Some (j + Z.of_nat count, k + Z.of_nat count, out') /\
    length out' = length out /\ written (k + Z.of_nat count) out' (l ++ seqZ j (Z.of_nat count)).
Proof.
  induction count as [|count IH]; intros j k out l Hj Hj' Hw Hk; cbn [Diff_while].
  - exists out. rewrite !Z.add_0_r. split_and!; [done|done|]. by rewrite seqZ_nil, app_nil_r by lia.
  - rewrite wrapu_small by (split; lia).
    destruct (store_one k j out l Hw) as (out1 & -> & Hl1 & _ & Hw1); [lia|]. simpl.
    destruct (IH (j + 1) (k + 1) out1 (l ++ [j])) as (out2 & -> & Hl2 & Hw2); [lia|lia|done|lia|].
    exists out2. split_and!; [do 3 f_equal; lia|lia|].
    rewrite <- app_assoc in Hw2. simpl in Hw2. rewrite seqZ_cons by lia.
    replace (k + Z.of_nat (S count)) with (k + 1 + Z.of_nat count) by lia.
    by replace (Z.pred (Z.of_nat (S count))) with (Z.of_nat count) by lia.
Qed.

Definition absent (sel : list Z) (a n : Z) : list Z := filter (fun x => x ∉ sel) (seqZ a n).

Lemma absent_none sel a n : (forall x, x ∈ sel -> a + n <= x \/ x < a) -> absent sel a n = seqZ a n.
Proof.
  intros Hs. unfold absent. rewrite (filter_ext_in _ (fun _ => True)).
  - induction (seqZ a n) as [|x l IH]; [done|]. by rewrite filter_cons_True, IH.
  - intros x Hx%elem_of_seqZ. split; [done|]. intros _ Hx'. apply Hs in Hx'. lia.
Qed.

Lemma absent_app sel a n m : 0 <= n -> 0 <= m -> absent sel a (n + m) = absent sel a n ++ absent sel (a + n) m.
Proof. intros. unfold absent. by rewrite seqZ_app, filter_app by lia. Qed.

(** The positions up to the first selected one, that one, and the rest. *)
Lemma absent_step s sel j n : sorted (s :: sel) -> j <= s < n ->
  absent (s :: sel) j (n - j) = seqZ j (s - j) ++ absent sel (s + 1) (n - (s + 1)).
Proof.
  intros Hs Hj. replace (n - j) with ((s - j) + (1 + (n - (s + 1)))) by lia.
  rewrite !absent_app by lia. rewrite absent_none.
  - f_equal. replace (j + (s - j)) with s by lia.
    assert (absent (s :: sel) s 1 = []) as ->.
    { apply filter_nil_iff. intros x Hx%elem_of_seqZ Hn. apply Hn. replace x with s by lia. apply list_elem_of_here. }
    simpl. apply filter_ext_in. intros x Hx%elem_of_seqZ. rewrite elem_of_cons. intuition. lia.
  - intros x [->|Hx]%elem_of_cons; [lia|]. pose proof (sorted_lt _ _ _ Hs Hx). lia.
Qed.

Lemma length_absent sel : forall j n, sorted sel -> Forall (fun s => j <= s < n) sel ->
  Z.of_nat (length (absent sel j (n - j))) = Z.max 0 (n - j) - Z.of_nat (length sel).
Proof.
  induction sel as [|s sel IH]; intros j n Hs Hf.
  - rewrite absent_none by (intros x Hx; by apply not_elem_of_nil in Hx). rewrite length_seqZ. simpl. lia.
  - inversion_clear Hf as [|? ? Hsj Hf']. rewrite absent_step, length_app, length_seqZ by done.
    cbn [length]. rewrite Nat2Z.inj_add, IH; [lia|by eapply sorted_tail|].
    rewrite Forall_forall in Hf' |- *. intros x Hx. specialize (Hf' x Hx). pose proof (sorted_lt _ _ _ Hs Hx). lia.
Qed.

Lemma Diff_for_spec n sel : n <= 2 ^ 16 -> sorted sel -> forall j k out l, 0 <= j ->
  Forall (fun s => j <= s < n) sel -> written k out l ->
  k + Z.of_nat (length (absent sel j (n - j))) <= Z.of_nat (length out) ->
  exists j' k' out' l', Diff_for sel j k out = Some (j', k', out') /\ j <= j' /\ (j' <= n \/ j' = j) /\
    length out' = length out /\ written k' out' (l ++ l') /\
    absent sel j (n - j) = l' ++ seqZ j' (n - j').
Proof.
  intros Hn Hs. induction sel as [|s sel IH]; intros j k out l Hj Hf Hw Hk.
  - exists j, k, out, []. split_and!; [done|lia|by right|done|by rewrite app_nil_r|].
    rewrite absent_none; [done|]. intros x Hx. by apply not_elem_of_nil in Hx.
  - inversion_clear Hf as [|? ? Hsj Hf']. rewrite absent_step in * by done.
    rewrite length_app, length_seqZ in Hk. cbn [Diff_for].
    destruct (Diff_while_spec (Z.to_nat (s - j)) j k out l) as (out1 & -> & Hl1 & Hw1); [lia|lia|done|lia|].
    simpl. rewrite Z2Nat.id in Hw1 |- * by lia. replace (j + (s - j) + 1) with (s + 1) by lia.
    destruct (IH (sorted_tail _ _ Hs) (s + 1) (k + (s - j)) out1 (l ++ seqZ j (s - j)))
      as (j2 & k2 & out2 & l2 & -> & Hj2 & Hjn & Hl2 & Hw2 & Ha); [lia| |done|lia|].
    { rewrite Forall_forall in Hf' |- *. intros x Hx. specialize (Hf' x Hx). pose proof (sorted_lt _ _ _ Hs Hx). lia. }
    exists j2, k2, out2, (seqZ j (s - j) ++ l2). split_and!; [done|lia|left; lia|lia| |].
    + by rewrite app_assoc.
    + by rewrite Ha, app_assoc.
Qed.

Lemma DiffSelected_Scalar_spec n sel out : 0 <= n <= 2 ^ 16 -> sorted sel -> Forall (fun s => 0 <= s < n) sel ->
  n - Z.of_nat (length sel) <= Z.of_nat (length out) ->
  exists k out', DiffSelected_Scalar n sel out = Some (k, out') /\ length out' = length out /\
    written k out' (absent sel 0 n).
Proof.
  intros Hn Hs Hf Hlen. pose proof (length_absent sel 0 n Hs Hf) as Hla. rewrite Z.sub_0_r in Hla.
  destruct (Diff_for_spec n sel ltac:(lia) Hs 0 0 out []) as (j & k & out1 & l1 & Hd & Hj & Hjn & Hl1 & Hw1 & Ha);
    [lia|done|apply written_nil|rewrite Z.sub_0_r; lia|].
  unfold DiffSelected_Scalar. rewrite Hd. simpl. rewrite Z.sub_0_r in Ha. simpl in Hw1.
  pose proof Hw1 as [Hk _]. apply (f_equal length) in Ha as Hlen'. rewrite length_app, length_seqZ in Hlen'.
  destruct (Diff_while_spec (Z.to_nat (n - j)) j k out1 l1) as (out2 & -> & Hl2 & Hw2); [lia|lia|done|lia|].
  simpl. rewrite wrapu_small by (split; lia).
  exists (n - Z.of_nat (length sel)), out2. split_and!; [done|lia|].
  rewrite Z2Nat.id, <- Ha in Hw2 by lia. replace (n - Z.of_nat (length sel)) with (k + (n - j)); [done|].
  destruct Hw2 as [-> _]. lia.
Qed.

(** * Unpacking eight bits at a time *)

Section Vectorised.
Context `{BitOpsSpec, SimdOpsSpec}.

(** A register that holds the same index in all lanes. *)
Definition all_lanes (idx base : Z) : Prop := forall i, 0 <= i < 8 -> lane 16 i idx = wrapu 16 base.

Lemma all_lanes_start : all_lanes (mm_set1_epi16 0) 0.
Proof. intros i Hi. by apply set1_epi16_spec. Qed.

Lemma all_lanes_next idx base : all_lanes idx base -> all_lanes (mm_add_epi16 idx (mm_set1_epi16 8)) (base + 8).
Proof.
  intros Hidx i Hi. rewrite add_epi16_spec, Hidx, set1_epi16_spec by done. unfold wrapu.
  by rewrite <- Zplus_mod.
Qed.

(** The table holds, for every byte, the positions of its bits. *)
Lemma k8BitMatchLUT_spec mask i p : 0 <= mask < 256 -> ones mask 0 8 !! i = Some p ->
  lane 8 (Z.of_nat i) (nth (Z.to_nat mask) k8BitMatchLUT 0) = p.
Proof.
  intros Hm Hi.
  assert (forallb (fun m => bool_decide (map (fun i => lane 8 (Z.of_nat i) (nth (Z.to_nat m) k8BitMatchLUT 0))
    (seq 0 (length (ones m 0 8))) = ones m 0 8)) (seqZ 0 256) = true) as Hall by (vm_compute; reflexivity).
  rewrite forallb_forall in Hall. specialize (Hall mask).
  apply bool_decide_eq_true in Hall; [|apply list_elem_of_In, elem_of_seqZ; lia].
  pose proof (lookup_lt_Some _ _ _ Hi) as Hlt. rewrite <- Hall in Hi.
  rewrite list_lookup_fmap, lookup_seq_lt in Hi by done. by injection Hi.
Qed.

Lemma ones8_small mask i p : ones mask 0 8 !! i = Some p -> 0 <= p < 8.
Proof. intros Hi%list_elem_of_lookup_2. apply elem_of_ones in Hi. lia. Qed.

Lemma length_ones8 mask : (length (ones mask 0 8) <= 8)%nat.
Proof. unfold ones. etransitivity; [apply length_filter|]. by rewrite length_seqZ. Qed.

Lemma store_match_spec mask idx base k out l : 0 <= mask < 256 -> all_lanes idx base ->
  0 <= base -> base + 8 <= 2 ^ 16 -> written k out l -> k + 8 <= Z.of_nat (length out) ->
  exists out', store_match mask idx k out = Some out' /\ length out' = length out /\
    written (k + Z.of_nat (length (ones mask 0 8))) out' (l ++ map (Z.add base) (ones mask 0 8)).
Proof.
  intros Hm Hidx Hb Hb' Hw Hk. unfold store_match, storeu_si128.
  set (v := mm_add_epi16 idx _).
  destruct (store_written k (lanes 16 8 v) out l Hw) as (out' & -> & Hl & Hw'); [rewrite length_lanes; lia|].
  exists out'. split_and!; [done|done|]. pose proof (length_ones8 mask).
  replace (map (Z.add base) (ones mask 0 8)) with (take (length (ones mask 0 8)) (lanes 16 8 v));
    [apply Hw'; rewrite length_lanes; lia|].
  apply list_eq. intros i. rewrite list_lookup_fmap.
  destruct (ones mask 0 8 !! i) as [p|] eqn:Hp.
  - pose proof (lookup_lt_Some _ _ _ Hp). rewrite lookup_take_lt by done.
    pose proof (lookup_lanes 16 8 v (Z.of_nat i)) as Hlv. rewrite Nat2Z.id in Hlv. rewrite Hlv by lia. simpl. f_equal.
    subst v. rewrite add_epi16_spec, Hidx, cvtepi8_epi16_spec, loadl_epi64_spec by lia.
    rewrite (k8BitMatchLUT_spec _ _ p) by done. pose proof (ones8_small _ _ _ Hp).
    rewrite wraps_small by (unfold is_sint; lia). rewrite !wrapu_small by (split; lia || (rewrite !wrapu_small by (split; lia); lia)).
    done.
  - apply lookup_ge_None in Hp. by rewrite lookup_take_ge.
Qed.

Lemma popcount8 mask : 0 <= mask < 256 -> CountPopulation mask = Z.of_nat (length (ones mask 0 8)).
Proof.
  intros Hm. apply (popcount_word 8); [lia|]. split; lia.
Qed.

(** ** From byte vectors *)

Definition saturated (b : Z) : Prop := b = 0 \/ b = 255.
Definition byte_members (bytes : list Z) (i : Z) : list Z :=
  filter (fun p => nth (Z.to_nat (p - i)) bytes 0 = 255) (seqZ i (Z.of_nat (length bytes))).

Lemma byte_members_cons b bytes i :
  byte_members (b :: bytes) i = (if decide (b = 255) then [i] else []) ++ byte_members bytes (i + 1).
Proof.
  unfold byte_members. cbn [length]. rewrite seqZ_cons by lia. rewrite filter_cons, Z.sub_diag.
  replace (Z.pred (Z.of_nat (S (length bytes)))) with (Z.of_nat (length bytes)) by lia.
  change (nth (Z.to_nat 0) (b :: bytes) 0) with b.
  rewrite (filter_ext_in _ (fun p => nth (Z.to_nat (p - (i + 1))) bytes 0 = 255) (seqZ (Z.succ i) _)).
  - by destruct (decide (b = 255)).
  - intros p Hp%elem_of_seqZ. replace (Z.to_nat (p - i)) with (S (Z.to_nat (p - (i + 1)))) by lia. done.
Qed.

Lemma byte_members_app b1 : forall b2 i,
  byte_members (b1 ++ b2) i = byte_members b1 i ++ byte_members b2 (i + Z.of_nat (length b1)).
Proof.
  induction b1 as [|b b1 IH]; intros b2 i; simpl app.
  - change (byte_members [] i) with (@nil Z). simpl. f_equal. lia.
  - rewrite !byte_members_cons, IH, <- app_assoc. do 2 f_equal. f_equal. simpl. lia.
Qed.

Lemma byte_members_ones bytes mask i :
  (forall j, 0 <= j < Z.of_nat (length bytes) -> Z.testbit mask j = (nth (Z.to_nat j) bytes 0 =? 255)) ->
  byte_members bytes i = map (Z.add i) (ones mask 0 (Z.of_nat (length bytes))).
Proof.
  intros Hm. rewrite (ones_shift (fun p => nth (Z.to_nat (p - i)) bytes 0 =? 255)).
  - unfold byte_members. apply filter_ext_in. intros p _. by rewrite Z.eqb_eq.
  - lia.
  - intros j Hj. rewrite Hm by done. do 2 f_equal. lia.
Qed.

Lemma sat_uint8 bytes : Forall saturated bytes -> Forall (is_uint 8) bytes.
Proof. intros Hs. eapply Forall_impl; [done|]. intros b [->| ->]; split; lia. Qed.

Lemma sat_bit b j : saturated b -> 0 <= j < 8 -> Z.testbit b j = (b =? 255).
Proof.
  intros [->| ->] Hj; [apply Z.testbit_0_l|]. change 255 with (Z.ones 8). by rewrite Z.ones_spec_low by lia.
Qed.

Lemma sat_nth bytes j : Forall saturated bytes -> saturated (nth j bytes 0).
Proof.
  intros Hs. destruct (nth_in_or_default j bytes 0) as [Hin|Hd]; [|rewrite Hd; by left].
  rewrite Forall_forall in Hs. by apply Hs, list_elem_of_In.
Qed.

(** [pext] gathers one bit of each byte. *)
Lemma pext_mask bytes : Forall saturated bytes -> length bytes = 8%nat ->
  0 <= pext_u64 (le_bytes bytes) 0x202020202020202 < 256 /\
  forall j, 0 <= j < 8 ->
    Z.testbit (pext_u64 (le_bytes bytes) 0x202020202020202) j = (nth (Z.to_nat j) bytes 0 =? 255).
Proof.
  intros Hs Hl. set (m := pext_u64 _ _).
  assert (forall j, 0 <= j < 64 -> Z.testbit m j =
    default false (Z.testbit (le_bytes bytes) <$> [1; 9; 17; 25; 33; 41; 49; 57] !! Z.to_nat j)) as Hm.
  { intros j Hj. subst m. rewrite pext_spec by (done || split; lia). done. }
  assert (is_uint 8 m) as Hu.
  { apply uint_of_bits; [lia|]. intros j Hj. destruct (Z.lt_ge_cases j 64).
    - rewrite Hm by lia. rewrite lookup_ge_None_2; [done|]. simpl. lia.
    - apply (uint_high 64); [apply pext_range|done]. }
  split; [destruct Hu; lia|]. intros j Hj. rewrite Hm by lia.
  assert ([1; 9; 17; 25; 33; 41; 49; 57] !! Z.to_nat j = Some (8 * j + 1)) as ->.
  { assert (j = 0 \/ j = 1 \/ j = 2 \/ j = 3 \/ j = 4 \/ j = 5 \/ j = 6 \/ j = 7) as Hcase by lia.
    by repeat destruct Hcase as [->|Hcase]; [..|subst j]. }
  simpl. rewrite <- testbit_lane, lane_le_bytes by (lia || by apply sat_uint8).
  apply sat_bit; [by apply sat_nth|lia].
Qed.

Lemma ByteSel_tail_spec bytes : Forall saturated bytes -> forall i k out l, 0 <= i ->
  i + Z.of_nat (length bytes) <= 2 ^ 16 -> written k out l ->
  k + Z.of_nat (length bytes) <= Z.of_nat (length out) ->
  exists k' out', ByteSel_tail bytes i k out = Some (k', out') /\ length out' = length out /\
    written k' out' (l ++ byte_members bytes i).
Proof.
  induction 1 as [|b bytes Hb Hbs IH]; intros i k out l Hi Hi' Hw Hk; cbn [ByteSel_tail length] in *.
  - exists k, out. change (byte_members [] i) with (@nil Z). by rewrite app_nil_r.
  - rewrite wrapu_small by (split; lia).
    destruct (store_one k i out l Hw) as (out1 & -> & Hl1 & Hw0 & Hw1); [lia|]. simpl.
    rewrite byte_members_cons. destruct (Z.eqb_spec b 255) as [->|Hne].
    + destruct (IH (i + 1) (k + 1) out1 (l ++ [i])) as (k2 & out2 & He & Hl2 & Hw2); [lia|lia|done|lia|].
      exists k2, out2. rewrite decide_True, app_assoc by done. split_and!; [done|lia|done].
    + destruct (IH (i + 1) (k + 0) out1 l) as (k2 & out2 & He & Hl2 & Hw2); [lia|lia|by rewrite Z.add_0_r|lia|].
      exists k2, out2. rewrite decide_False by done. split_and!; [done|lia|done].
Qed.

Lemma ByteSel_main_spec fuel : forall bytes i idx k out l, Forall saturated bytes ->
  (length bytes < fuel)%nat -> 0 <= i -> i + Z.of_nat (length bytes) <= 2 ^ 16 -> all_lanes idx i ->
  written k out l -> k + Z.of_nat (length bytes) <= Z.of_nat (length out) ->
  exists k' out', ByteSel_main fuel bytes i idx k out = Some (k', out') /\ length out' = length out /\
    written k' out' (l ++ byte_members bytes i).
Proof.
  induction fuel as [|fuel IH]; intros bytes i idx k out l Hs Hf Hi Hi' Hidx Hw Hk; [lia|].
  cbn [ByteSel_main]. destruct (Nat.leb_spec 8 (length bytes)) as [H8|H8].
  - assert (length (take 8 bytes) = 8%nat) as Hl8 by (rewrite length_take; lia).
    destruct (pext_mask (take 8 bytes)) as [Hm Hbits]; [by apply Forall_take|done|].
    set (mask := pext_u64 _ _) in *.
    destruct (store_match_spec mask idx i k out l) as (out1 & -> & Hl1 & Hw1); [done|done|lia|lia|done|lia|].
    simpl. rewrite wrapu_small by (split; lia). rewrite popcount8 by done.
    pose proof (length_ones8 mask).
    destruct (IH (drop 8 bytes) (i + 8) (mm_add_epi16 idx (mm_set1_epi16 8)) (k + Z.of_nat (length (ones mask 0 8)))
      out1 (l ++ map (Z.add i) (ones mask 0 8))) as (k2 & out2 & He & Hl2 & Hw2);
      [by apply Forall_drop|rewrite length_drop; lia|lia|rewrite length_drop; lia|by apply all_lanes_next|done
      |rewrite length_drop; lia|].
    exists k2, out2. split_and!; [done|lia|].
    rewrite <- (take_drop 8 bytes) at 1. rewrite byte_members_app, Hl8.
    rewrite (byte_members_ones (take 8 bytes) mask), Hl8 by (rewrite Hl8; done).
    by rewrite app_assoc.
  - apply ByteSel_tail_spec; done || lia.
Qed.

Lemma ByteVectorToSelectionVector_spec bytes out : Forall saturated bytes ->
  Z.of_nat (length bytes) <= 2 ^ 16 -> (length bytes <= length out)%nat ->
  exists k out', ByteVectorToSelectionVector bytes out = Some (k, out') /\ length out' = length out /\
    written k out' (byte_members bytes 0).
Proof.
  intros Hs Hl Hlen. apply (ByteSel_main_spec _ bytes 0 _ 0 out []);
    done || lia || apply all_lanes_start || apply written_nil.
Qed.

(** ** Differences through a scratch pad *)

Lemma SelectionVectorToByteVector_spec sel : forall bv, Forall (fun s => 0 <= s < Z.of_nat (length bv)) sel ->
  exists bv', SelectionVectorToByteVector sel bv = Some bv' /\ length bv' = length bv /\
    forall i, (i < length bv)%nat -> bv' !! i = if decide (Z.of_nat i ∈ sel) then Some 255 else bv !! i.
Proof.
  induction sel as [|s sel IH]; intros bv Hf; cbn [SelectionVectorToByteVector].
  - exists bv. split_and!; [done|done|]. intros i _. rewrite decide_False; [done|]. apply not_elem_of_nil.
  - inversion_clear Hf as [|? ? Hs Hf'].
    destruct (store s [255] bv) as [bv1|] eqn:Hst; [|unfold store in Hst; simpl in Hst].
    2: { rewrite (proj2 (Z.leb_le 0 s)), (proj2 (Z.leb_le _ (Z.of_nat (length bv)))) in Hst by lia. done. }
    pose proof (length_store _ _ _ _ Hst) as Hl1. simpl.
    destruct (IH bv1) as (bv2 & -> & Hl2 & Hlk); [by rewrite Hl1|].
    exists bv2. split_and!; [done|lia|]. intros i Hi. rewrite Hlk, (store_lookup _ _ _ _ i Hst) by lia. simpl.
    destruct (decide (Z.of_nat i ∈ sel)), (decide (Z.of_nat i ∈ s :: sel)), (decide (Z.to_nat s <= i < Z.to_nat s + 1)%nat);
      try done; rewrite elem_of_cons in *.
    + tauto.
    + tauto.
    + by replace (i - Z.to_nat s)%nat with 0%nat by lia.
    + exfalso. intuition. lia.
    + exfalso. apply n0. left. lia.
Qed.

Lemma DiffSelected_WithScratchPad_spec n sel out scratch : 0 <= n <= 2 ^ 16 -> Forall (fun s => 0 <= s < n) sel ->
  n <= Z.of_nat (length out) -> n <= Z.of_nat (length scratch) ->
  exists k out', DiffSelected_WithScratchPad n sel out scratch = Some (k, out') /\ length out' = length out /\
    written k out' (absent sel 0 n).
Proof.
  intros Hn Hf Hlo Hls. unfold DiffSelected_WithScratchPad.
  rewrite store_in by (rewrite ?length_replicate; lia). simpl. rewrite length_replicate.
  set (sc := replicate _ _ ++ drop _ scratch).
  assert (length sc = length scratch) as Hsc.
  { subst sc. rewrite length_app, length_replicate, length_drop. lia. }
  destruct (SelectionVectorToByteVector_spec sel sc) as (bv & -> & Hl & Hlk).
  { eapply Forall_impl; [done|]. simpl. lia. }
  simpl. set (bytes := map _ _).
  assert (length bytes = Z.to_nat n) as Hlb by (subst bytes; rewrite length_map, length_take; lia).
  assert (forall i, (i < Z.to_nat n)%nat -> bytes !! i = Some (if decide (Z.of_nat i ∈ sel) then 0 else 255)) as Hb.
  { intros i Hi. subst bytes. rewrite list_lookup_fmap, lookup_take_lt, Hlk by lia.
    destruct (decide (Z.of_nat i ∈ sel)); [done|]. subst sc.
    rewrite lookup_app_l, lookup_replicate_2 by (rewrite ?length_replicate; lia). done. }
  destruct (ByteVectorToSelectionVector_spec bytes out) as (k & out' & He & Hl' & Hw).
  - apply Forall_lookup. intros i b Hi. pose proof (lookup_lt_Some _ _ _ Hi). rewrite Hb in Hi by lia.
    injection Hi as <-. destruct (decide _); [by left|by right].
  - lia.
  - lia.
  - exists k, out'. split_and!; [done|done|]. unfold byte_members in Hw. rewrite Hlb, Z2Nat.id in Hw by lia.
    unfold absent. rewrite (filter_ext_in _ (fun p => nth (Z.to_nat (p - 0)) bytes 0 = 255)); [done|].
    intros p Hp%elem_of_seqZ. rewrite Z.sub_0_r, nth_lookup, Hb by lia. simpl. rewrite Z2Nat.id by lia.
    destruct (decide (p ∈ sel)); naive_solver.
Qed.

(** ** From bit vectors *)

Lemma ones_byte v b m : 0 <= m -> map (Z.add b) (ones v 0 (8 + m)) =
  map (Z.add b) (ones (wrapu 8 v) 0 8) ++ map (Z.add (b + 8)) (ones (Z.shiftr v 8) 0 m).
Proof.
  intros Hm. rewrite !(ones_shift (fun i => Z.testbit v (i - b))) by
    (lia || (intros j Hj; rewrite ?Z.shiftr_spec, ?testbit_wrapu by lia; f_equal; lia)).
  by rewrite seqZ_app, filter_app by lia.
Qed.

Lemma Dense_bytes_spec count : forall word idx base k out l, 0 <= base ->
  all_lanes idx base -> base + 8 * Z.of_nat count <= 2 ^ 16 -> k + 8 * Z.of_nat count < 2 ^ 16 ->
  written k out l -> k + 8 * Z.of_nat count <= Z.of_nat (length out) ->
  exists idx' k' out', Dense_bytes count word idx k out = Some (idx', k', out') /\
    all_lanes idx' (base + 8 * Z.of_nat count) /\ k' <= k + 8 * Z.of_nat count /\ length out' = length out /\
    written k' out' (l ++ map (Z.add base) (ones word 0 (8 * Z.of_nat count))).
Proof.
  induction count as [|count IH]; intros word idx base k out l Hb Hidx Hb' Hk16 Hw Hk; cbn [Dense_bytes].
  - exists idx, k, out. split_and!; [done|by rewrite Z.add_0_r|lia|done|].
    change (ones word 0 (8 * Z.of_nat 0)) with (@nil Z). by rewrite app_nil_r.
  - pose proof (wrapu_range 8 word ltac:(lia)) as [Hm1 Hm2]. change (2 ^ 8) with 256 in Hm2.
    destruct (store_match_spec (wrapu 8 word) idx base k out l) as (out1 & -> & Hl1 & Hw1); [lia|done|lia|lia|done|lia|].
    simpl. rewrite popcount8 by lia. pose proof (length_ones8 (wrapu 8 word)). pose proof Hw as [Hk0 _].
    rewrite (wrapu_small 16) by (split; lia).
    destruct (IH (Z.shiftr word 8) (mm_add_epi16 idx (mm_set1_epi16 8)) (base + 8)
      (k + Z.of_nat (length (ones (wrapu 8 word) 0 8))) out1 (l ++ map (Z.add base) (ones (wrapu 8 word) 0 8)))
      as (idx2 & k2 & out2 & He & Hidx2 & Hk2 & Hl2 & Hw2);
      [lia|by apply all_lanes_next|lia|lia|done|lia|].
    exists idx2, k2, out2. split_and!; [done| |lia|lia|].
    + by replace (base + 8 * Z.of_nat (S count)) with (base + 8 + 8 * Z.of_nat count) by lia.
    + replace (8 * Z.of_nat (S count)) with (8 + 8 * Z.of_nat count) by lia.
      rewrite ones_byte by lia. by rewrite app_assoc.
Qed.

Lemma Dense_for_spec words : forall i idx k out l, 0 <= i -> all_lanes idx (i * 64) ->
  (i + Z.of_nat (length words)) * 64 <= 2 ^ 16 -> k + 64 * Z.of_nat (length words) < 2 ^ 16 ->
  written k out l -> k + 64 * Z.of_nat (length words) <= Z.of_nat (length out) ->
  exists k' out', Dense_for words idx k out = Some (k', out') /\ length out' = length out /\
    written k' out' (l ++ pos_of 64 i words).
Proof.
  induction words as [|word words IH]; intros i idx k out l Hi Hidx Hi' Hk16 Hw Hk; cbn [Dense_for pos_of length] in *.
  - exists k, out. by rewrite app_nil_r.
  - destruct (Dense_bytes_spec 8 word idx (i * 64) k out l) as (idx1 & k1 & out1 & -> & Hidx1 & Hk1 & Hl1 & Hw1);
      [lia|done|lia|lia|done|lia|]. simpl.
    destruct (IH (i + 1) idx1 k1 out1 (l ++ map (Z.add (i * 64)) (ones word 0 64))) as (k2 & out2 & He & Hl2 & Hw2);
      [lia|by replace ((i + 1) * 64) with (i * 64 + 8 * Z.of_nat 8) by lia|lia|lia|done|lia|].
    exists k2, out2. split_and!; [done|lia|]. by rewrite app_assoc.
Qed.

Lemma Sparse_while_spec fuel : forall word base k out l, is_uint 64 word -> 0 <= base -> base + 64 <= 2 ^ 16 ->
  (length (ones word 0 64) < fuel)%nat -> written k out l ->
  k + Z.of_nat (length (ones word 0 64)) <= Z.of_nat (length out) ->
  exists k' out', Sparse_while fuel word base k out = Some (k', out') /\ length out' = length out /\
    written k' out' (l ++ map (Z.add base) (ones word 0 64)).
Proof.
  induction fuel as [|fuel IH]; intros word base k out l Hu Hb Hb' Hf Hw Hk; [lia|]. cbn [Sparse_while].
  destruct (Z.eqb_spec word 0) as [->|Hne].
  - exists k, out. rewrite ones_empty by (intros; apply Z.testbit_0_l). by rewrite app_nil_r.
  - destruct (ctz_word 64 ltac:(lia) word Hu Hne) as (Hc & Ho & Hu' & Ho').
    rewrite Ho in Hf, Hk |- *. cbn [length] in Hf, Hk.
    rewrite wrapu_small by (split; lia).
    destruct (store_one k (base + CountTrailingZeros word) out l Hw) as (out1 & -> & Hl1 & _ & Hw1); [lia|]. simpl.
    destruct (IH (Z.land word (word - 1)) base (k + 1) out1 (l ++ [base + CountTrailingZeros word]))
      as (k2 & out2 & He & Hl2 & Hw2); [done|lia|lia|rewrite Ho'; lia|done|rewrite Ho'; lia|].
    exists k2, out2. split_and!; [done|lia|]. rewrite Ho', <- app_assoc in Hw2. done.
Qed.

Lemma length_ones64 word : (length (ones word 0 64) <= 64)%nat.
Proof. unfold ones. etransitivity; [apply length_filter|]. by rewrite length_seqZ. Qed.

Lemma Sparse_for_spec words : Forall (is_uint 64) words -> forall i k out l, 0 <= i ->
  (i + Z.of_nat (length words)) * 64 <= 2 ^ 16 -> written k out l ->
  k + Z.of_nat (length (pos_of 64 i words)) <= Z.of_nat (length out) ->
  exists k' out', Sparse_for words (i * 64) k out = Some (k', out') /\ length out' = length out /\
    written k' out' (l ++ pos_of 64 i words).
Proof.
  induction 1 as [|word words Hu Hus IH]; intros i k out l Hi Hi' Hw Hk; cbn [Sparse_for pos_of length] in *.
  - exists k, out. by rewrite app_nil_r.
  - rewrite length_app, length_map in Hk. pose proof (length_ones64 word).
    destruct (Sparse_while_spec 65 word (i * 64) k out l) as (k1 & out1 & He1 & Hl1 & Hw1); [done|lia|lia|lia|done|lia|].
    rewrite He1. simpl. replace (i * 64 + 64) with ((i + 1) * 64) by lia.
    destruct (IH (i + 1) k1 out1 (l ++ map (Z.add (i * 64)) (ones word 0 64))) as (k2 & out2 & He & Hl2 & Hw2);
      [lia|lia|done| |].
    { destruct Hw1 as [-> _]. destruct Hw as [-> _]. rewrite length_app, length_map. lia. }
    exists k2, out2. split_and!; [done|lia|]. by rewrite app_assoc.
Qed.

Lemma words_read_all b n f : denotes 64 b n f -> words_read (words_ b) n = words_ b.
Proof.
  intros Hb. apply take_ge. pose proof (denotes_length 64 _ _ _ Hb) as Hl.
  unfold num_words, NumNeededWords, kBitsPerWord in *. lia.
Qed.

Lemma Dense_AVX2_spec b n f out : denotes 64 b n f -> NumNeededWords 64 n * 64 < 2 ^ 16 ->
  NumNeededWords 64 n * 64 <= Z.of_nat (length out) ->
  exists k out', BitVectorToSelectionVector_Dense_AVX2 (words_ b) n out = Some (k, out') /\ length out' = length out /\
    written k out' (members n f).
Proof.
  intros Hb Hn Hlen. unfold BitVectorToSelectionVector_Dense_AVX2. rewrite (words_read_all _ _ _ Hb).
  rewrite <- (denotes_members 64 ltac:(lia) _ _ _ Hb). pose proof (denotes_length 64 _ _ _ Hb) as Hl.
  apply (Dense_for_spec (words_ b) 0 _ 0 out []); lia || apply all_lanes_start || apply written_nil.
Qed.

Lemma Sparse_spec b n f out : denotes 64 b n f -> NumNeededWords 64 n * 64 <= 2 ^ 16 ->
  Z.of_nat (length (members n f)) <= Z.of_nat (length out) ->
  exists k out', BitVectorToSelectionVector_Sparse (words_ b) n out = Some (k, out') /\ length out' = length out /\
    written k out' (members n f).
Proof.
  intros Hb Hn Hlen. unfold BitVectorToSelectionVector_Sparse. rewrite (words_read_all _ _ _ Hb).
  rewrite <- (denotes_members 64 ltac:(lia) _ _ _ Hb) in Hlen |- *. pose proof (denotes_length 64 _ _ _ Hb) as Hl.
  apply (Sparse_for_spec (words_ b) (denotes_uint 64 _ _ _ Hb) 0 0 out []); lia || apply written_nil.
Qed.

Lemma length_members n f : 0 <= n -> Z.of_nat (length (members n f)) <= n.
Proof.
  intros Hn. unfold members. etransitivity; [apply inj_le, length_filter|]. rewrite length_seqZ. lia.
Qed.

Lemma BitVectorToSelectionVector_spec b n f out : denotes 64 b n f -> NumNeededWords 64 n * 64 < 2 ^ 16 ->
  NumNeededWords 64 n * 64 <= Z.of_nat (length out) ->
  exists k out', BitVectorToSelectionVector false (words_ b) n out = Some (k, out') /\ length out' = length out /\
    written k out' (members n f).
Proof.
  intros Hb Hn Hlen. unfold BitVectorToSelectionVector. destruct (SFleb _ _).
  - apply Sparse_spec; [done|lia|]. pose proof (denotes_nonneg 64 _ _ _ Hb) as Hn0.
    pose proof (length_members n f Hn0). pose proof (numwords_bounds 64 ltac:(lia) n Hn0). lia.
  - by apply Dense_AVX2_spec.
Qed.

(** ** Between byte vectors and bit vectors *)

Abbreviation denotes64 := (denotes 64).

(** One word replaced by the right one. *)
Lemma update_denotes n words f k v g : denotes64 (mkBitVector n words) n f -> 0 <= k < Z.of_nat (length words) ->
  is_uint 64 v -> (forall j, 0 <= j < 64 -> Z.testbit v j = cut n g (k * 64 + j)) ->
  (forall i, 0 <= i < n -> i / 64 <> k -> g i = f i) ->
  exists words', set_word k v words = Some words' /\ length words' = length words /\
    (forall i, i <> Z.to_nat k -> words' !! i = words !! i) /\ denotes64 (mkBitVector n words') n g.
Proof.
  intros Hb Hk Hv Hbits Hg. unfold set_word.
  destruct (store k [v] words) as [words'|] eqn:Hst.
  2: { unfold store in Hst. simpl in Hst.
       rewrite (proj2 (Z.leb_le 0 k)), (proj2 (Z.leb_le _ (Z.of_nat (length words)))) in Hst by lia. done. }
  pose proof (length_store _ _ _ _ Hst) as Hl. exists words'.
  assert (forall i, words' !! i = if decide (i = Z.to_nat k) then Some v else words !! i) as Hlk.
  { intros i. rewrite (store_lookup _ _ _ _ i Hst). simpl.
    destruct (decide (Z.to_nat k <= i < Z.to_nat k + 1)%nat), (decide (i = Z.to_nat k)); try done; try lia.
    by replace (i - Z.to_nat k)%nat with 0%nat by lia. }
  split_and!; [done|done|intros i Hi; by rewrite Hlk, decide_False|].
  assert (forall i j, 0 <= i -> 0 <= j < 64 ->
    Z.testbit (get_word (mkBitVector n words') i) j = cut n g (i * 64 + j)) as Hbit.
  { intros i j Hi Hj. unfold get_word. simpl. rewrite nth_lookup, Hlk. destruct (decide _) as [He|Hne].
    - replace i with k by lia. by apply Hbits.
    - rewrite <- nth_lookup. pose proof (denotes_bit 64 _ _ _ i j Hb Hi Hj) as Hd. unfold get_word in Hd. simpl in Hd.
      rewrite Hd. unfold cut. destruct (Z.ltb_spec (i * 64 + j) n); [|done]. simpl. symmetry. apply Hg; [lia|].
      rewrite (Z.add_comm (i * 64)), Z.div_add, Z.div_small by lia. lia. }
  pose proof Hb as [(Hn & Hnb & Hlen & Hu & _) _]. simpl in *. split; [split_and!; [done|done| | |]|].
  - simpl. by rewrite Hl.
  - simpl. apply Forall_lookup. intros i x Hi. rewrite Hlk in Hi. destruct (decide _); [by simplify_eq|].
    by eapply Forall_lookup_1.
  - intros i j Hi Hj Hin. by rewrite Hbit, cut_in.
  - intros i j Hi Hj Hin. by rewrite Hbit, cut_out.
Qed.

(** The bits of which the first [i] come from the bytes. *)
Definition mixed (bytes : list Z) (f : Z -> bool) (i p : Z) : bool :=
  if p <? i then nth (Z.to_nat p) bytes 0 =? 255 else f p.

Lemma drop_nth (bytes : list Z) i j : nth j (drop i bytes) 0 = nth (i + j)%nat bytes 0.
Proof. by rewrite !nth_lookup, lookup_drop. Qed.

Lemma ByteBits_tail_spec bytes f : Forall saturated bytes -> forall rest i words,
  drop (Z.to_nat i) bytes = rest -> 0 <= i -> i + Z.of_nat (length rest) = Z.of_nat (length bytes) ->
  i / 64 = (i + Z.of_nat (length rest) - 1) / 64 \/ rest = [] ->
  denotes64 (mkBitVector (Z.of_nat (length bytes)) words) (Z.of_nat (length bytes)) (mixed bytes f i) ->
  exists words', ByteBits_tail rest i (i / 64) words = Some words' /\ length words' = length words /\
    denotes64 (mkBitVector (Z.of_nat (length bytes)) words') (Z.of_nat (length bytes))
      (mixed bytes f (Z.of_nat (length bytes))).
Proof.
  intros Hs. induction rest as [|b rest IH]; intros i words Hd Hi Hlen Hk Hb; cbn [ByteBits_tail length] in *.
  - exists words. split_and!; [done|done|]. by replace (Z.of_nat (length bytes)) with i at 3 by lia.
  - destruct Hk as [Hk|Hk]; [|done].
    pose proof Hb as [Hr _]. pose proof (word_index_in 64 ltac:(lia) _ _ _ i Hr ltac:(lia)) as Hin.
    destruct Hr as (_ & _ & _ & Hu & _). simpl in Hin, Hu.
    destruct (lookup_lt_is_Some_2 words (Z.to_nat (i / 64))) as [word Hw]; [lia|]. rewrite Hw. simpl.
    assert (b = nth (Z.to_nat i) bytes 0) as Hbi by (by rewrite <- (Nat.add_0_r (Z.to_nat i)), <- drop_nth, Hd).
    pose proof (Z.mod_pos_bound i 64 ltac:(lia)). pose proof (Z.div_mod i 64 ltac:(lia)) as Hdm.
    assert (saturated b) as Hsb by (rewrite Hbi; by apply sat_nth).
    assert (forall j, 0 <= j < 64 -> Z.testbit (wrapu 64 (wraps 8 b)) j = (b =? 255)) as Hval.
    { intros j Hj. rewrite testbit_wrapu by lia. destruct Hsb as [->| ->].
      - change (wraps 8 0) with 0. apply Z.testbit_0_l.
      - change (wraps 8 255) with (-1). apply Z.bits_m1. lia. }
    assert (is_uint 64 word) as Huw by (by eapply Forall_lookup_1).
    assert (forall j, 0 <= j < 64 -> Z.testbit word j = cut (Z.of_nat (length bytes)) (mixed bytes f i) (i / 64 * 64 + j)) as Hwb.
    { intros j Hj. rewrite <- (denotes_bit 64 _ _ _ _ _ Hb) by lia. unfold get_word. simpl. by rewrite nth_lookup, Hw. }
    assert (is_uint 64 (Z.shiftl 1 (i mod 64))) as Hum.
    { rewrite Z.shiftl_1_l. split; [lia|]. apply Z.pow_lt_mono_r; lia. }
    set (v := Z.lxor word _).
    destruct (update_denotes (Z.of_nat (length bytes)) words (mixed bytes f i) (i / 64) v (mixed bytes f (i + 1)))
      as (words1 & -> & Hl1 & _ & Hb1).
    + done. + lia.
    + subst v. apply lxor_uint; [lia|done|]. apply land_uint; [lia|]. apply lxor_uint; [lia| |done].
      apply wrapu_range. lia.
    + intros j Hj. subst v. rewrite Z.lxor_spec, Z.land_spec, Z.lxor_spec, Hval, Hwb, Z.shiftl_1_l by lia.
      unfold cut, mixed. destruct (Z.eq_dec j (i mod 64)) as [->|Hne].
      * rewrite Z.pow2_bits_true by lia. replace (i / 64 * 64 + i mod 64) with i by lia.
        rewrite (proj2 (Z.ltb_lt i _)), (proj2 (Z.ltb_lt i (i + 1))), (proj2 (Z.ltb_ge i i)), <- Hbi by lia. simpl.
        destruct (b =? 255), (f i); done.
      * rewrite Z.pow2_bits_false by lia. rewrite andb_false_r, xorb_false_r. f_equal.
        destruct (Z.ltb_spec (i / 64 * 64 + j) i), (Z.ltb_spec (i / 64 * 64 + j) (i + 1)); done || lia.
    + intros p Hp Hpi. unfold mixed. destruct (Z.ltb_spec p i), (Z.ltb_spec p (i + 1)); try done; try lia.
      replace p with i in Hpi by lia. done.
    + simpl. destruct rest as [|b2 rest].
      * exists words1. split_and!; [done|done|]. by replace (Z.of_nat (length bytes)) with (i + 1) at 3 by (simpl in Hlen; lia).
      * cbn [length] in *. assert (i / 64 = (i + 1) / 64) as Hk1.
        { apply Z.le_antisymm; [apply Z.div_le_mono; lia|]. rewrite Hk. apply Z.div_le_mono; lia. }
        rewrite Hk1. destruct (IH (i + 1) words1) as (words2 & He & Hl2 & Hb2); [|lia|lia| |done|].
        -- replace (Z.to_nat (i + 1)) with (Z.to_nat i + 1)%nat by lia. by rewrite <- drop_drop, Hd.
        -- left. rewrite <- Hk1, Hk. f_equal. lia.
        -- exists words2. split_and!; [done|lia|done].
Qed.

Lemma movemask_sat bytes i : Forall saturated bytes -> length bytes = 32%nat -> 0 <= i < 32 ->
  Z.testbit (mm256_movemask_epi8 (le_bytes bytes)) i = (nth (Z.to_nat i) bytes 0 =? 255).
Proof.
  intros Hs Hl Hi. rewrite movemask_epi8_spec, lane_le_bytes by (lia || by apply sat_uint8).
  apply sat_bit; [by apply sat_nth|lia].
Qed.

Lemma ByteBits_main_spec bytes f : Forall saturated bytes -> forall fuel i rest words, (length rest < fuel)%nat ->
  drop (Z.to_nat i) bytes = rest -> 0 <= i -> i mod 64 = 0 -> i + Z.of_nat (length rest) = Z.of_nat (length bytes) ->
  denotes64 (mkBitVector (Z.of_nat (length bytes)) words) (Z.of_nat (length bytes)) (mixed bytes f i) ->
  exists words', ByteBits_main fuel rest i (i / 64) words = Some words' /\ length words' = length words /\
    denotes64 (mkBitVector (Z.of_nat (length bytes)) words') (Z.of_nat (length bytes))
      (mixed bytes f (Z.of_nat (length bytes))).
Proof.
  intros Hs. induction fuel as [|fuel IH]; intros i rest words Hf Hd Hi Hm Hlen Hb; [lia|]. cbn [ByteBits_main].
  pose proof (Z.div_mod i 64 ltac:(lia)) as Hdm.
  destruct (Nat.leb_spec 64 (length rest)) as [H64|H64].
  - assert (Forall saturated rest) as Hsr by (rewrite <- Hd; by apply Forall_drop).
    pose proof (movemask_epi8_range (le_bytes (take 32 rest))) as Hlo.
    pose proof (movemask_epi8_range (le_bytes (take 32 (drop 32 rest)))) as Hhi.
    set (lo := mm256_movemask_epi8 (le_bytes (take 32 rest))) in *.
    set (hi := mm256_movemask_epi8 (le_bytes (take 32 (drop 32 rest)))) in *.
    set (v := Z.lor (wrapu 64 (Z.shiftl hi 32)) lo).
    assert (forall j, 0 <= j < 64 -> Z.testbit v j = (nth (Z.to_nat (i + j)) bytes 0 =? 255)) as Hv.
    { intros j Hj. subst v. rewrite Z.lor_spec, testbit_wrapu, Z.shiftl_spec by lia.
      replace (Z.to_nat (i + j)) with (Z.to_nat i + Z.to_nat j)%nat by lia. rewrite <- drop_nth, Hd.
      destruct (Z.lt_ge_cases j 32).
      - rewrite Z.testbit_neg_r by lia. simpl. subst lo.
        rewrite movemask_sat by (by apply Forall_take || (rewrite length_take; lia) || lia).
        by rewrite !nth_lookup, lookup_take_lt by lia.
      - rewrite (uint_high 32 lo) by (done || lia). rewrite orb_false_r. subst hi.
        rewrite movemask_sat by (by apply Forall_take, Forall_drop || (rewrite length_take, length_drop; lia) || lia).
        rewrite !nth_lookup, lookup_take_lt, lookup_drop by lia. do 3 f_equal. lia. }
    destruct (update_denotes (Z.of_nat (length bytes)) words (mixed bytes f i) (i / 64) v (mixed bytes f (i + 64)))
      as (words1 & -> & Hl1 & _ & Hb1).
    + done.
    + pose proof Hb as [Hr _]. apply (word_index_in 64 ltac:(lia) _ _ _ i Hr). lia.
    + subst v. apply lor_uint; [lia|apply wrapu_range; lia|]. by eapply (word_uint64 32); [lia|].
    + intros j Hj. rewrite Hv, cut_in by lia. unfold mixed. rewrite (proj2 (Z.ltb_lt _ _)) by lia.
      do 3 f_equal. lia.
    + intros p Hp Hpi. unfold mixed. destruct (Z.ltb_spec p i), (Z.ltb_spec p (i + 64)); try done; try lia.
      exfalso. apply Hpi. symmetry. apply (Z.div_unique_pos p 64 (i / 64) (p - i)); lia.
    + simpl. replace (i / 64 + 1) with ((i + 64) / 64) by (rewrite <- (Z.div_add i 1 64) by lia; f_equal; lia).
      destruct (IH (i + 64) (drop 64 rest) words1) as (words2 & He & Hl2 & Hb2);
        [rewrite length_drop; lia| |lia| |rewrite length_drop; lia|done|].
      * rewrite <- Hd, drop_drop. f_equal. lia.
      * rewrite <- (Z.mod_add i 1 64) in Hm by lia. by rewrite Z.mul_1_l in Hm.
      * exists words2. split_and!; [done|lia|done].
  - apply ByteBits_tail_spec; try done. destruct rest; [by right|left]. cbn [length] in *.
    apply (Z.div_unique_pos _ 64 (i / 64) (Z.of_nat (length rest))); lia.
Qed.

Lemma ByteVectorToBitVector_spec bytes words f : Forall saturated bytes ->
  denotes64 (mkBitVector (Z.of_nat (length bytes)) words) (Z.of_nat (length bytes)) f ->
  exists words', ByteVectorToBitVector bytes words = Some words' /\
    denotes64 (mkBitVector (Z.of_nat (length bytes)) words') (Z.of_nat (length bytes))
      (fun i => nth (Z.to_nat i) bytes 0 =? 255).
Proof.
  intros Hs Hb.
  destruct (ByteBits_main_spec bytes f Hs (S (length bytes)) 0 bytes words) as (words' & He & _ & Hb'); try done || lia.
  - eapply (denotes_ext 64 ltac:(lia)); [done|]. intros i Hi. unfold mixed. by rewrite (proj2 (Z.ltb_ge _ _)) by lia.
  - exists words'. split; [done|]. eapply (denotes_ext 64 ltac:(lia)); [done|].
    intros i Hi. unfold mixed. by rewrite (proj2 (Z.ltb_lt _ _)) by lia.
Qed.

Definition byte_of (bit : bool) : Z := if bit then 255 else 0.

(** The constants of the expansion: which byte and which bit of it each lane looks at. *)
Lemma expand_constants i : 0 <= i < 32 ->
  lane 8 (i mod 8) (nth (Z.to_nat (i / 8)) [0x0000000000000000; 0x0101010101010101;
    0x0202020202020202; 0x0303030303030303] 0) = i / 8 /\
  forall b, is_uint 8 b ->
    (Z.lor b (lane 8 (i mod 8) 0x7fbfdfeff7fbfdfe) =? lane 8 (i mod 8) (-1)) = Z.testbit b (i mod 8).
Proof.
  intros Hi. split.
  - assert (forallb (fun i => lane 8 (i mod 8) (nth (Z.to_nat (i / 8)) [0x0000000000000000; 0x0101010101010101;
      0x0202020202020202; 0x0303030303030303] 0) =? i / 8) (seqZ 0 32) = true) as Hall by (vm_compute; reflexivity).
    rewrite forallb_forall in Hall. apply Z.eqb_eq, Hall, list_elem_of_In, elem_of_seqZ. lia.
  - intros b Hb. pose proof (Z.mod_pos_bound i 8 ltac:(lia)) as Hj. set (j := i mod 8) in *.
    assert (lane 8 j 0x7fbfdfeff7fbfdfe = Z.lxor 255 (2 ^ j) /\ lane 8 j (-1) = 255) as [-> ->].
    { assert (forallb (fun j => (lane 8 j 0x7fbfdfeff7fbfdfe =? Z.lxor 255 (2 ^ j)) && (lane 8 j (-1) =? 255))
        (seqZ 0 8) = true) as Hall by (vm_compute; reflexivity).
      rewrite forallb_forall in Hall. specialize (Hall j).
      rewrite andb_true_iff, !Z.eqb_eq in Hall. apply Hall, list_elem_of_In, elem_of_seqZ. lia. }
    assert (forall k, 0 <= k < 8 -> Z.testbit (Z.lor b (Z.lxor 255 (2 ^ j))) k = Z.testbit b k || negb (k =? j)) as Hbits.
    { intros k Hk. rewrite Z.lor_spec, Z.lxor_spec. change 255 with (Z.ones 8). rewrite Z.ones_spec_low by lia.
      rewrite Z.pow2_bits_eqb by lia. rewrite (Z.eqb_sym j k). by destruct (k =? j). }
    destruct (Z.eqb_spec (Z.lor b (Z.lxor 255 (2 ^ j))) 255) as [He|Hne].
    + pose proof (Hbits j Hj) as Hbj. rewrite He, Z.eqb_refl, orb_false_r in Hbj. rewrite <- Hbj.
      change 255 with (Z.ones 8). rewrite Z.ones_spec_low by lia. done.
    + destruct (Z.testbit b j) eqn:Hbj; [|done]. exfalso. apply Hne. apply (uint_ext 8).
      * apply lor_uint; [lia|done|]. apply lxor_uint; [lia|split; lia|]. split; [lia|]. apply Z.pow_lt_mono_r; lia.
      * split; lia.
      * intros k Hk. rewrite Hbits by done. change 255 with (Z.ones 8). rewrite Z.ones_spec_low by lia.
        destruct (Z.eqb_spec k j) as [->|]; [by rewrite Hbj|by rewrite orb_true_r].
Qed.

Lemma expand32_spec half : is_uint 32 half -> expand32 half = map (fun i => byte_of (Z.testbit half i)) (seqZ 0 32).
Proof.
  intros Hh. unfold expand32, lanes. apply map_ext_in. intros i Hi%list_elem_of_In%elem_of_seqZ.
  destruct (expand_constants i) as [Hsel Hcmp]; [lia|].
  rewrite cmpeq_epi8_spec, or_si256_spec, shuffle_epi8_spec, setr_epi64x_spec, !set1_epi64x_spec, Hsel by lia.
  assert (0 <= i / 8 < 4) as Hk by (split; [apply Z.div_pos; lia|apply Z.div_lt_upper_bound; lia]).
  assert (0 <= i / 16 < 2) as Hh2 by (split; [apply Z.div_pos; lia|apply Z.div_lt_upper_bound; lia]).
  rewrite (uint_high 3) by (lia || split; lia). rewrite (Z.mod_small (i / 8) 16), set1_epi32_spec by lia.
  replace ((16 * (i / 16) + i / 8) mod 4) with (i / 8).
  2: { replace (16 * (i / 16) + i / 8) with (i / 8 + (4 * (i / 16)) * 4) by lia. rewrite Z.mod_add, Z.mod_small by lia. done. }
  rewrite Hcmp by (apply lane_uint; lia). pose proof (Z.mod_pos_bound i 8 ltac:(lia)).
  rewrite testbit_lane by lia. rewrite <- Z.div_mod by lia. done.
Qed.

(** The bytes of the bits of one word, and of all. *)
Definition word_bytes (word : Z) (n : Z) : list Z := map (fun j => byte_of (Z.testbit word j)) (seqZ 0 n).

Lemma word_bytes_split word : is_uint 64 word ->
  word_bytes word 64 = expand32 (wrapu 32 word) ++ expand32 (wrapu 32 (Z.shiftr word 32)).
Proof.
  intros Hw. rewrite !expand32_spec by (apply wrapu_range; lia). unfold word_bytes.
  change 64 with (32 + 32). rewrite seqZ_app, map_app by lia. f_equal.
  - apply map_ext_in. intros i Hi%list_elem_of_In%elem_of_seqZ. by rewrite testbit_wrapu by lia.
  - change (0 + 32) with (32 + 0). rewrite <- (map_seqZ_shift 32 0 32), map_map. apply map_ext_in. intros i Hi%list_elem_of_In%elem_of_seqZ.
    rewrite testbit_wrapu, Z.shiftr_spec by lia. do 2 f_equal. lia.
Qed.

Lemma BitByte_main_spec words : Forall (is_uint 64) words -> forall k out l, written k out l ->
  k + 64 * Z.of_nat (length words) <= Z.of_nat (length out) ->
  exists out', BitByte_main words k out = Some (k + 64 * Z.of_nat (length words), out') /\
    length out' = length out /\
    written (k + 64 * Z.of_nat (length words)) out' (l ++ concat (map (fun v => word_bytes v 64) words)).
Proof.
  induction 1 as [|word words Hu Hus IH]; intros k out l Hw Hk; cbn [BitByte_main length map concat] in *.
  - exists out. rewrite Z.add_0_r, app_nil_r. done.
  - assert (forall x, is_uint 32 x -> length (expand32 x) = 32%nat) as Hx by (intros; apply length_lanes).
    assert (forall z, is_uint 32 (wrapu 32 z)) as Hwr by (intros; apply wrapu_range; lia).
    destruct (store_all k (expand32 (wrapu 32 word)) out l Hw) as (out1 & -> & Hl1 & Hw1); [rewrite Hx; done || lia|].
    rewrite Hx in Hw1 by done. simpl.
    destruct (store_all (k + 32) (expand32 (wrapu 32 (Z.shiftr word 32))) out1 _ Hw1) as (out2 & -> & Hl2 & Hw2);
      [rewrite Hx; done || lia|]. rewrite Hx in Hw2 by done. simpl.
    rewrite <- app_assoc, <- word_bytes_split in Hw2 by done.
    replace (k + 32 + Z.of_nat 32) with (k + 64) in Hw2 by lia.
    destruct (IH (k + 64) out2 _ Hw2) as (out3 & He & Hl3 & Hw3); [lia|].
    replace (k + 64 * Z.of_nat (S (length words))) with (k + 64 + 64 * Z.of_nat (length words)) by lia.
    exists out3. split_and!; [done|lia|]. rewrite <- app_assoc in Hw3; done.
Qed.

Lemma BitByte_tail_spec count : forall word k out l, written k out l ->
  k + Z.of_nat count <= Z.of_nat (length out) ->
  exists out', BitByte_tail count word k out = Some out' /\ length out' = length out /\
    written (k + Z.of_nat count) out' (l ++ word_bytes word (Z.of_nat count)).
Proof.
  induction count as [|count IH]; intros word k out l Hw Hk; cbn [BitByte_tail].
  - exists out. rewrite Z.add_0_r. unfold word_bytes. by rewrite app_nil_r.
  - assert (wrapu 8 (- Z.b2z (Z.land word 1 =? 1)) = byte_of (Z.testbit word 0)) as ->.
    { change 1 with (Z.ones 1) at 1. rewrite Z.land_ones by lia. change (2 ^ 1) with 2. rewrite <- Z.bit0_mod.
      by destruct (Z.testbit word 0). }
    destruct (store_one k (byte_of (Z.testbit word 0)) out l Hw) as (out1 & -> & Hl1 & _ & Hw1); [lia|]. simpl.
    destruct (IH (Z.shiftr word 1) (k + 1) out1 _ Hw1) as (out2 & He & Hl2 & Hw2); [lia|].
    exists out2. split_and!; [done|lia|].
    replace (k + Z.of_nat (S count)) with (k + 1 + Z.of_nat count) by lia.
    replace (l ++ word_bytes word (Z.of_nat (S count))) with
      ((l ++ [byte_of (Z.testbit word 0)]) ++ word_bytes (Z.shiftr word 1) (Z.of_nat count)); [done|].
    rewrite <- app_assoc. f_equal. unfold word_bytes. rewrite (seqZ_cons 0 (Z.of_nat (S count))) by lia. simpl. f_equal.
    replace (Z.pred (Z.of_nat (S count))) with (Z.of_nat count) by lia.
    change (Z.succ 0) with (1 + 0). rewrite <- (map_seqZ_shift 1 0), map_map. apply map_ext_in.
    intros i Hi%list_elem_of_In%elem_of_seqZ. rewrite Z.shiftr_spec by lia. do 2 f_equal. lia.
Qed.

(** The bytes of a vector, a word after the other. *)
Lemma word_bytes_concat words f : forall i,
  (forall k v, words !! k = Some v -> forall j, 0 <= j < 64 -> Z.testbit v j = f ((i + Z.of_nat k) * 64 + j)) ->
  concat (map (fun v => word_bytes v 64) words) =
  map (fun p => byte_of (f p)) (seqZ (i * 64) (Z.of_nat (length words) * 64)).
Proof.
  induction words as [|v words IH]; intros i Hf; [done|]. cbn [map concat length].
  replace (Z.of_nat (S (length words)) * 64) with (64 + Z.of_nat (length words) * 64) by lia.
  rewrite seqZ_app, map_app by lia. f_equal.
  - unfold word_bytes. rewrite <- (Z.add_0_r (i * 64)), <- (map_seqZ_shift (i * 64) 0), map_map. apply map_ext_in.
    intros j Hj%list_elem_of_In%elem_of_seqZ. rewrite (Hf 0%nat v) by (done || lia). do 2 f_equal. lia.
  - rewrite (IH (i + 1)).
    + f_equal. f_equal. lia.
    + intros k u Hk j Hj. rewrite (Hf (S k) u) by done. f_equal. lia.
Qed.

Lemma BitVectorToByteVector_spec b n f out : denotes64 b n f -> n <= Z.of_nat (length out) ->
  exists out', BitVectorToByteVector (words_ b) n out = Some out' /\ length out' = length out /\
    written n out' (map (fun i => byte_of (f i)) (seqZ 0 n)).
Proof.
  intros Hb Hlen. pose proof (denotes_nonneg 64 _ _ _ Hb) as Hn. pose proof (denotes_length 64 _ _ _ Hb) as Hl.
  pose proof (full_words 64 ltac:(lia) n Hn) as Hfull. pose proof (Z.mod_pos_bound n 64 ltac:(lia)) as Hm.
  pose proof (Z.div_mod n 64 ltac:(lia)) as Hdm. assert (0 <= n / 64) as Hd by (apply Z.div_pos; lia).
  assert (NumNeededWords 64 n = n / 64 + (if n mod 64 =? 0 then 0 else 1)) as Hnw.
  { destruct (Z.eqb_spec (n mod 64) 0); lia. }
  set (full := take (Z.to_nat (n / 64)) (words_ b)).
  assert (length full = Z.to_nat (n / 64)) as Hlf.
  { subst full. rewrite length_take. destruct (n mod 64 =? 0); lia. }
  assert (forall k v, words_ b !! k = Some v -> forall j, 0 <= j < 64 -> Z.testbit v j = cut n f (Z.of_nat k * 64 + j)) as Hbits
    by (intros k v Hk; by eapply denotes_words).
  destruct (BitByte_main_spec full) with (k := 0) (out := out) (l := @nil Z) as (out1 & He & Hl1 & Hw1).
  { apply Forall_take. by eapply denotes_uint. } { apply written_nil. } { lia. }
  rewrite (word_bytes_concat full (cut n f) 0) in Hw1.
  2: { intros k v Hk j Hj. apply lookup_take_Some in Hk as [Hk _]. by rewrite (Hbits k v). }
  rewrite Hlf, Z2Nat.id in Hw1 by done. unfold BitVectorToByteVector. fold full. rewrite He. simpl.
  assert (forall m, map (fun p => byte_of (cut n f p)) (seqZ 0 m) = map (fun p => byte_of (f p)) (seqZ 0 m) \/ n < m) as Hcut.
  { intros m. destruct (Z.lt_ge_cases n m); [by right|left]. apply map_ext_in.
    intros i Hi%list_elem_of_In%elem_of_seqZ. by rewrite cut_in by lia. }
  destruct (Z.eqb_spec (n mod 64) 0) as [Hz|Hnz].
  - exists out1. split_and!; [done|done|]. simpl in Hw1.
    replace (64 * (n / 64)) with n in Hw1 by lia. replace (n / 64 * 64) with n in Hw1 by lia.
    destruct (Hcut n) as [<-|]; [done|lia].
  - destruct (lookup_lt_is_Some_2 (words_ b) (Z.to_nat (n / 64))) as [v Hv]; [lia|]. rewrite Hv. simpl.
    rewrite Hlf, Z2Nat.id by done. change (0 + 64 * (n / 64)) with (64 * (n / 64)) in *.
    destruct (BitByte_tail_spec (Z.to_nat (n mod 64)) v (64 * (n / 64)) out1 _ Hw1) as (out2 & -> & Hl2 & Hw2); [lia|].
    exists out2. split_and!; [done|lia|]. rewrite Z2Nat.id in Hw2 by lia.
    replace (64 * (n / 64) + n mod 64) with n in Hw2 by lia. simpl in Hw2.
    destruct (Hcut n) as [<-|]; [|lia]. replace (seqZ 0 n) with (seqZ 0 (n / 64 * 64 + n mod 64)) by (f_equal; lia).
    rewrite seqZ_app, map_app by lia.
    replace (map _ (seqZ (0 + n / 64 * 64) (n mod 64))) with (word_bytes v (n mod 64)); [done|].
    unfold word_bytes. rewrite <- (Z.add_0_r (0 + n / 64 * 64)), <- (map_seqZ_shift (0 + n / 64 * 64) 0), map_map.
    apply map_ext_in. intros j Hj%list_elem_of_In%elem_of_seqZ.
    rewrite (Hbits (Z.to_nat (n / 64)) v) by (done || lia). do 2 f_equal. lia.
Qed.

End Vectorised.
