(* ===== verification/VectorUtilTheorems.v ===== *)
(** The properties of [VectorUtil]: merges of selection vectors, conversions between the three
    representations of a set of positions, their round trip, and the two ways the dense
    unpacking goes wrong. *)
From Stdlib Require Import Sorted.
From S2P Require Import Prelude Buffer BitUtil Simd Intrinsics VectorLookupTables BitVector BitVectorSpec.
From S2P Require Import VectorUtil VectorUtilSpec.

(** The result [r] of a routine with an output array [out]: it succeeds, returns the length of
    [l] and leaves [l] at the front of the array, whose length does not change. *)
Definition outputs (r : option (Z * list Z)) (out l : list Z) : Prop :=
  exists out', r = Some (Z.of_nat (length l), out') /\ take (length l) out' = l /\ length out' = length out.

Lemma outputs_intro r out l :
  (exists k out', r = Some (k, out') /\ length out' = length out /\ written k out' l) -> outputs r out l.
Proof. intros (k & out' & -> & Hl & -> & Hw). by exists out'. Qed.

Section Theorems.
Context `{BitOpsSpec, SimdOpsSpec}.

(** Intersection and difference of sorted selection vectors are those of the sets of positions, in
    order, and within the capacity of the output. *)
Theorem selection_vector_set_operations a b c n f out scratch :
  sorted a -> sorted b -> Forall (fun s => 0 <= s < n) a -> 0 <= n <= 2 ^ 16 ->
  denotes 64 c n f -> n <= Z.of_nat (length out) -> n <= Z.of_nat (length scratch) ->
  outputs (IntersectSelected a b out) out (filter (.∈ b) a) /\
  outputs (IntersectSelectedBits a (words_ c) out) out (filter (fun i => f i = true) a) /\
  outputs (DiffSelected_Scalar n a out) out (absent a 0 n) /\
  outputs (DiffSelected_WithScratchPad n a out scratch) out (absent a 0 n).
Proof.
  intros Ha Hb Hf Hn Hc Hout Hscratch.
  assert (Z.of_nat (length a) <= n) as Hla.
  { pose proof (length_absent a 0 n Ha Hf). rewrite Z.sub_0_r in *. lia. }
  split_and!; apply outputs_intro.
  - apply IntersectSelected_spec; [done|done|lia].
  - destruct c as [nb words]. pose proof (denotes_num_bits 64 _ _ _ Hc) as Hnb. simpl in Hnb. subst nb.
    apply (IntersectSelectedBits_for_spec words n f a Hc Hf 0 out []); [apply written_nil|lia].
  - apply DiffSelected_Scalar_spec; done || lia.
  - by apply DiffSelected_WithScratchPad_spec.
Qed.


(** Saturated bytes turned into bits and back are the same bytes. *)
Theorem byte_bit_roundtrip bytes words f out : Forall saturated bytes ->
  denotes 64 (mkBitVector (Z.of_nat (length bytes)) words) (Z.of_nat (length bytes)) f ->
  (length bytes <= length out)%nat ->
  exists words' out', ByteVectorToBitVector bytes words = Some words' /\
    BitVectorToByteVector words' (Z.of_nat (length bytes)) out = Some out' /\ take (length bytes) out' = bytes.
Proof.
  intros Hs Hb Hlen. destruct (ByteVectorToBitVector_spec bytes words f Hs Hb) as (words' & He & Hb').
  destruct (BitVectorToByteVector_spec _ _ _ out Hb') as (out' & He' & _ & _ & Hw); [lia|].
  exists words', out'. split_and!; [done|done|].
  rewrite length_map, length_seqZ, Nat2Z.id in Hw. rewrite Hw. apply list_eq. intros i.
  rewrite list_lookup_fmap. destruct (Nat.lt_ge_cases i (length bytes)) as [Hi|Hi].
  - rewrite lookup_seqZ_lt by lia. destruct (lookup_lt_is_Some_2 bytes i Hi) as [x Hx]. rewrite Hx. simpl. f_equal.
    rewrite Z.add_0_l, Nat2Z.id, nth_lookup, Hx. simpl. apply (Forall_lookup_1 _ _ _ _ Hs) in Hx as [->| ->]; done.
  - rewrite lookup_seqZ_ge by lia. by rewrite lookup_ge_None_2.
Qed.

(** The dense unpacking stores eight elements at a time, whatever the number of bits. *)
Theorem dense_unpacking_needs_room bit_vector n out : (0 < length bit_vector)%nat -> 0 < n ->
  (length out < 8)%nat -> BitVectorToSelectionVector_Dense_AVX2 bit_vector n out = None.
Proof.
  intros Hl Hn Hout. unfold BitVectorToSelectionVector_Dense_AVX2, words_read.
  assert (0 < num_words n) as Hw.
  { unfold num_words, DivRoundUp. apply Z.div_str_pos. lia. }
  destruct bit_vector as [|word bit_vector]; [simpl in Hl; lia|].
  destruct (Z.to_nat (num_words n)) as [|m] eqn:Hm; [lia|]. cbn [take Dense_for Dense_bytes].
  unfold store_match, storeu_si128. rewrite store_outside; [done|]. rewrite length_lanes. lia.
Qed.

(** Compiled for AVX-512, it yields positions below 32 only. *)
Theorem avx512_positions_below_32 words : forall k out out' k' l,
  Dense512_for words k out = Some (k', out') -> written k out l -> Forall (fun i => 0 <= i < 32) l ->
  exists l', written k' out' (l ++ l') /\ Forall (fun i => 0 <= i < 32) (l ++ l').
Proof.
  assert (forall mask k out l, 0 <= mask -> is_uint 32 mask -> written k out l -> Forall (fun i => 0 <= i < 32) l ->
    forall out', store k (mm512_mask_compress_epi16 mask (mm512_set_epi16 (rev (seqZ 0 32)))) out = Some out' ->
    exists l', written (k + CountPopulation mask) out' (l ++ l') /\ Forall (fun i => 0 <= i < 32) (l ++ l')) as Hstep.
  { intros mask k out l Hm Hu Hw Hf out' Hst. rewrite mask_compress_epi16_spec in Hst.
    assert (forall i, 0 <= i < 32 -> lane 16 i (mm512_set_epi16 (rev (seqZ 0 32))) = i) as Hlane.
    { intros i Hi. rewrite set_epi16_spec by (done || lia).
      assert (forallb (fun i => wrapu 16 (nth (Z.to_nat (31 - i)) (rev (seqZ 0 32)) 0) =? i) (seqZ 0 32) = true) as Hall
        by (vm_compute; reflexivity).
      rewrite forallb_forall in Hall. apply Z.eqb_eq, Hall, list_elem_of_In, elem_of_seqZ. lia. }
    rewrite (map_ext_in _ (fun i => i)) in Hst by (intros i Hi%list_elem_of_In%elem_of_ones; apply Hlane; lia).
    rewrite map_id in Hst.
    assert (k + Z.of_nat (length (ones mask 0 32)) <= Z.of_nat (length out)) as Hfit.
    { unfold store in Hst. destruct (_ && _) eqn:Hc; [|done]. bprop. lia. }
    destruct (store_all k (ones mask 0 32) out l Hw Hfit) as (out2 & He & _ & Hw2). rewrite He in Hst.
    injection Hst as ->. exists (ones mask 0 32). rewrite (popcount_word 32) by (done || lia). split; [done|].
    apply Forall_app. split; [done|]. apply Forall_forall. intros i Hi%elem_of_ones. lia. }
  induction words as [|word words IH]; intros k out out' k' l He Hw Hf; cbn [Dense512_for] in He.
  - injection He as -> ->. exists []. by rewrite app_nil_r.
  - pose proof (wrapu_range 32 word ltac:(lia)) as Hr1. pose proof (wrapu_range 32 (Z.shiftr word 32) ltac:(lia)) as Hr2.
    destruct (store k _ out) as [out1|] eqn:Hs1; [|done]. simpl in He.
    destruct (Hstep _ _ _ _ (proj1 Hr1) Hr1 Hw Hf _ Hs1) as (l1 & Hw1 & Hf1).
    destruct (store _ _ out1) as [out2|] eqn:Hs2; [|done]. simpl in He.
    destruct (Hstep _ _ _ _ (proj1 Hr2) Hr2 Hw1 Hf1 _ Hs2) as (l2 & Hw2 & Hf2).
    destruct (IH _ _ _ _ _ He Hw2 Hf2) as (l3 & Hw3 & Hf3).
    exists (l1 ++ l2 ++ l3). by rewrite !app_assoc in *.
Qed.

End Theorems.

(** * Witnesses *)

Lemma selection_vector_set_operations_witness :
  outputs (IntersectSelected [1; 4; 9] [2; 4; 9; 11] (replicate 12 0)) (replicate 12 0)
    (filter (.∈ [2; 4; 9; 11]) [1; 4; 9]) /\
  outputs (DiffSelected_WithScratchPad 12 [1; 4; 9] (replicate 12 0) (replicate 12 7)) (replicate 12 0)
    (absent [1; 4; 9] 0 12).
Proof.
  destruct (selection_vector_set_operations [1; 4; 9] [2; 4; 9; 11] (new_BitVector 64 12) 12 (fun _ => false)
    (replicate 12 0) (replicate 12 7)) as (Hi & _ & _ & Hd);
    try (repeat constructor; lia); try lia; try (simpl; lia).
  - apply new_denotes; lia.
  - split; [exact Hi|exact Hd].
Defined.


Lemma byte_bit_roundtrip_witness : exists words' out',
  ByteVectorToBitVector [255; 0; 255] [0] = Some words' /\
  BitVectorToByteVector words' 3 (replicate 3 0) = Some out' /\ take 3 out' = [255; 0; 255].
Proof.
  apply (byte_bit_roundtrip [255; 0; 255] [0] (fun _ => false) (replicate 3 0)).
  - repeat constructor; (by left) || (by right).
  - apply (new_denotes 64 ltac:(lia) 3). lia.
  - simpl. lia.
Defined.

Lemma dense_unpacking_needs_room_witness :
  BitVectorToSelectionVector_Dense_AVX2 [7] 3 (replicate 3 0) = None.
Proof. apply (dense_unpacking_needs_room [7] 3 (replicate 3 0)); simpl; lia. Defined.

(** The bit at position 40 alone comes out as position 8. *)
Lemma avx512_positions_below_32_witness :
  exists l', written 1 [8; 0] ([] ++ l') /\ Forall (fun i => 0 <= i < 32) ([] ++ l').
Proof.
  assert (Dense512_for [2 ^ 40] 0 [0; 0] = Some (1, [8; 0])) as Hr by (vm_compute; reflexivity).
  exact (avx512_positions_below_32 [2 ^ 40] 0 [0; 0] [8; 0] 1 [] Hr (written_nil _) (Forall_nil_2 _)).
Defined.
