(* ===== verification/TupleIdListSpec.v ===== *)
(** A tuple id list is a finite set of ids below its capacity: every operation refines the
    operation on sets, for any sequence of operations, and every way of reading the list gives
    the elements of the set. *)
From Stdlib Require Import Sorted.
From S2P Require Import Prelude Buffer BitUtil Simd Intrinsics BitVector BitVectorSpec VectorUtil.
From S2P Require Import VectorUtilSpec TupleIdList.

(** * Finite sets of ids *)

Definition id_range (n : Z) : gset Z := list_to_set (seqZ 0 n).
Definition in_set (X : gset Z) (i : Z) : bool := bool_decide (i ∈ X).
Definition elements_below (n : Z) (X : gset Z) : list Z := members n (in_set X).

(** The list has capacity [n] and contains [X]. *)
Definition holds (l : TupleIdList) (n : Z) (X : gset Z) : Prop :=
  (forall i, i ∈ X -> 0 <= i < n) /\ n < 2 ^ 32 /\ denotes 64 (bit_vector_ l) n (in_set X).

Lemma elem_of_id_range n i : i ∈ id_range n <-> 0 <= i < n.
Proof. unfold id_range. rewrite elem_of_list_to_set, elem_of_seqZ. lia. Qed.

Lemma in_set_iff X i : in_set X i = true <-> i ∈ X.
Proof. apply bool_decide_eq_true. Qed.

Lemma holds_intro b n X f : denotes 64 b n f -> n < 2 ^ 32 ->
  (forall i, i ∈ X <-> 0 <= i < n /\ f i = true) -> holds (mkTupleIdList b) n X.
Proof.
  intros Hb Hn HX. split_and!; [intros i Hi; by apply HX|done|].
  eapply (denotes_ext 64 ltac:(lia)); [done|]. intros i Hi. apply eq_true_iff_eq. rewrite in_set_iff, HX. intuition.
Qed.

Lemma elem_of_elements_below n X i : (forall i, i ∈ X -> 0 <= i < n) -> i ∈ elements_below n X <-> i ∈ X.
Proof. intros HX. unfold elements_below. rewrite elem_of_members, in_set_iff. split; [tauto|]. intros Hi. split; [done|]. by apply HX. Qed.

Lemma elements_below_sorted n X : StronglySorted Z.lt (elements_below n X).
Proof. apply sorted_filter, sorted_seqZ. Qed.

Lemma elements_below_set n X : (forall i, i ∈ X -> 0 <= i < n) -> list_to_set (elements_below n X) = X.
Proof.
  intros HX. apply set_eq. intros i. by rewrite elem_of_list_to_set, elem_of_elements_below.
Qed.

Lemma elements_below_size n X : (forall i, i ∈ X -> 0 <= i < n) -> length (elements_below n X) = size X.
Proof.
  intros HX. rewrite <- (elements_below_set n X HX) at 2.
  rewrite size_list_to_set; [done|]. apply sorted_NoDup, elements_below_sorted.
Qed.

Section Spec.
Context `{BitOpsSpec, SimdOpsSpec}.

(** * Operations as data *)

Inductive lop : Type :=
| LAdd (t : Z) | LAddRange (s e : Z) | LAddAll | LEnable (t : Z) (v : bool) | LRemove (t : Z)
| LAssignFrom (o : TupleIdList) | LIntersectWith (o : TupleIdList) | LUnionWith (o : TupleIdList)
| LUnsetFrom (o : TupleIdList) | LFilter (p : Z -> bool) | LBuildFromSelectionVector (sel : list Z)
| LBuildFromMatchVector (bytes : list Z) | LClear | LAssign (tids : list Z) | LResize (m : Z).

Definition apply_lop (o : lop) (l : TupleIdList) : option TupleIdList :=
  match o with
  | LAdd t => Some (Add t l)
  | LAddRange s e => AddRange s e l
  | LAddAll => Some (AddAll l)
  | LEnable t v => Some (Enable t v l)
  | LRemove t => Some (Remove t l)
  | LAssignFrom o => Some (AssignFrom o l)
  | LIntersectWith o => Some (IntersectWith o l)
  | LUnionWith o => Some (UnionWith o l)
  | LUnsetFrom o => Some (UnsetFrom o l)
  | LFilter p => Some (Filter p l)
  | LBuildFromSelectionVector sel => Some (BuildFromSelectionVector sel l)
  | LBuildFromMatchVector bytes => BuildFromMatchVector bytes l
  | LClear => Some (Clear l)
  | LAssign tids => assign_tids tids l
  | LResize m => Some (Resize m l)
  end.

Fixpoint run_lops (os : list lop) (l : TupleIdList) : option TupleIdList :=
  match os with [] => Some l | o :: os => l ← apply_lop o l; run_lops os l end.

(** The ids another list holds. *)
Definition ids (o : TupleIdList) : gset Z := list_to_set (ForEachSet 64 (bit_vector_ o)).

(** The requirements of the operations. *)
Definition lop_ok (o : lop) (n : Z) : Prop :=
  match o with
  | LAdd t | LEnable t _ | LRemove t => 0 <= t < n
  | LAddRange s e => 0 <= s <= e /\ e <= n
  | LAssignFrom o | LIntersectWith o | LUnionWith o | LUnsetFrom o => holds o n (ids o)
  | LBuildFromSelectionVector sel => Forall (fun s => 0 <= s < n) sel
  | LBuildFromMatchVector bytes => Forall saturated bytes /\ Z.of_nat (length bytes) = n
  | LAssign tids => Forall (fun t => 0 <= t < n) tids
  | LResize m => 0 <= m < 2 ^ 32
  | LAddAll | LFilter _ | LClear => True
  end.

(** A range that is not empty and ends with the last bit of the last word: [SetRange] leaves the storage. *)
Definition lop_faults (o : lop) (n : Z) : bool := match o with LAddRange s e => range_faults 64 n s e | _ => false end.

Definition lop_capacity (o : lop) (n : Z) : Z := match o with LResize m => m | _ => n end.

Definition lop_set (o : lop) (n : Z) (X : gset Z) : gset Z :=
  match o with
  | LAdd t => {[t]} ∪ X
  | LAddRange s e => list_to_set (seqZ s (e - s)) ∪ X
  | LAddAll => id_range n
  | LEnable t v => if v then {[t]} ∪ X else X ∖ {[t]}
  | LRemove t => X ∖ {[t]}
  | LAssignFrom o => ids o
  | LIntersectWith o => X ∩ ids o
  | LUnionWith o => X ∪ ids o
  | LUnsetFrom o => X ∖ ids o
  | LFilter p => filter (fun i => p i = true) X
  | LBuildFromSelectionVector sel => list_to_set sel ∪ X
  | LBuildFromMatchVector bytes => list_to_set (byte_members bytes 0)
  | LClear => ∅
  | LAssign tids => list_to_set tids
  | LResize m => X ∩ id_range m
  end.

Fixpoint lops_ok (os : list lop) (n : Z) : Prop :=
  match os with [] => True | o :: os => lop_ok o n /\ lops_ok os (lop_capacity o n) end.
Fixpoint lops_fault (os : list lop) (n : Z) : bool :=
  match os with [] => false | o :: os => lop_faults o n || lops_fault os (lop_capacity o n) end.

Fixpoint run_sets (os : list lop) (s : Z * gset Z) : Z * gset Z :=
  match os with [] => s | o :: os => run_sets os (lop_capacity o s.1, lop_set o s.1 s.2) end.

(** * Refinement *)

Lemma fold_Set_denotes n sel : Forall (fun s => 0 <= s < n) sel -> forall b f, denotes 64 b n f ->
  denotes 64 (fold_left (fun b s => Set_ 64 s b) sel b) n (fun i => f i || bool_decide (i ∈ sel)).
Proof.
  induction 1 as [|s sel Hs Hsel IH]; intros b f Hb; simpl.
  - eapply (denotes_ext 64 ltac:(lia)); [done|]. intros i _. by rewrite orb_false_r.
  - eapply (denotes_ext 64 ltac:(lia)); [apply IH, (Set_denotes 64); done || lia|]. intros i _. simpl.
    rewrite <- orb_assoc. f_equal. apply eq_true_iff_eq.
    rewrite orb_true_iff, !bool_decide_eq_true, Z.eqb_eq, elem_of_cons. done.
Qed.

Lemma fold_Add sel : forall l, fold_left (fun l tid => Add tid l) sel l =
  mkTupleIdList (fold_left (fun b s => Set_ 64 s b) sel (bit_vector_ l)).
Proof. induction sel as [|s sel IH]; intros l; simpl; [by destruct l|]. by rewrite IH. Qed.

Lemma Filter_denotes b n f p : denotes 64 b n f -> n < 2 ^ 32 ->
  denotes 64 (bit_vector_ (Filter p (mkTupleIdList b))) n (fun i => f i && p i).
Proof.
  intros Hb Hn. unfold Filter, IsFull. simpl. destruct (All 64 b); simpl.
  - by apply (UpdateFull_denotes 64).
  - eapply (denotes_ext 64 ltac:(lia)); [by apply (UpdateSetBits_denotes 64)|]. intros i Hi. simpl.
    pose proof (denotes_nonneg 64 _ _ _ Hb) as Hn0.
    pose proof (numwords_bounds 64 ltac:(lia) n Hn0).
    rewrite wrapu_small by (split; lia). rewrite (proj2 (Z.ltb_lt _ _)); [done|].
    apply Z.div_lt_upper_bound; lia.
Qed.

Ltac by_bits :=
  intros; unfold in_set;
  rewrite ?andb_true_iff, ?orb_true_iff, ?negb_true_iff, ?Z.eqb_eq, ?Z.eqb_neq, ?Z.leb_le, ?Z.ltb_lt, ?bool_decide_eq_true,
    ?bool_decide_eq_false;
  set_unfold; rewrite ?elem_of_seqZ, ?elem_of_id_range.

Lemma apply_lop_refines o l n X : holds l n X -> lop_ok o n ->
  if lop_faults o n then apply_lop o l = None
  else exists l', apply_lop o l = Some l' /\ holds l' (lop_capacity o n) (lop_set o n X).
Proof.
  intros (HX & Hn & Hb) Hok. destruct l as [b]. simpl in Hb.
  assert (forall o, holds o n (ids o) -> denotes 64 (bit_vector_ o) n (in_set (ids o))) as Hother by (intros ? Ho; apply Ho).
  assert (forall o, holds o n (ids o) -> forall i, i ∈ ids o -> 0 <= i < n) as Hrange by (intros ? Ho; apply Ho).
  destruct o; simpl in *; unfold on_bits, try_bits, AddRange, BuildFromMatchVector, try_bits, SetFromBytes; simpl.
  - eexists; split; [done|]. eapply holds_intro; [by eapply (Set_denotes 64)|done|].
    by_bits. naive_solver lia.
  - destruct Hok as [Hse Hen]. pose proof (SetRange_documented 64 ltac:(lia) b n _ s e Hb Hse Hen) as Hr.
    destruct (range_faults 64 n s e); [by rewrite Hr|]. destruct Hr as (b' & -> & Hb'). eexists; split; [done|]. eapply holds_intro; [done|done|]. by_bits. naive_solver lia.
  - eexists; split; [done|]. eapply holds_intro; [by eapply (SetAll_denotes 64)|done|]. by_bits. naive_solver.
  - eexists; split; [done|]. eapply holds_intro; [by eapply (Set_to_denotes 64)|done|].
    intros i. destruct v, (Z.eqb_spec i t); by_bits; naive_solver lia.
  - eexists; split; [done|]. eapply holds_intro; [by eapply (Unset_denotes 64)|done|]. by_bits. naive_solver lia.
  - eexists; split; [done|]. eapply holds_intro; [eapply (Copy_denotes 64); [lia|done|by apply Hother]|done|].
    by_bits. naive_solver.
  - eexists; split; [done|]. eapply holds_intro; [eapply (Intersect_denotes 64); [lia|done|by apply Hother]|done|].
    by_bits. naive_solver.
  - eexists; split; [done|]. eapply holds_intro; [eapply (Union_denotes 64); [lia|done|by apply Hother]|done|].
    by_bits. naive_solver.
  - eexists; split; [done|]. eapply holds_intro; [eapply (Difference_denotes 64); [lia|done|by apply Hother]|done|].
    by_bits. naive_solver.
  - eexists; split; [done|]. pose proof (Filter_denotes b n _ p Hb Hn) as Hf.
    destruct (Filter p (mkTupleIdList b)) as [b']. eapply holds_intro; [done|done|]. by_bits. naive_solver.
  - eexists; split; [done|]. eapply holds_intro; [by eapply fold_Set_denotes|done|].
    rewrite Forall_forall in Hok. by_bits. naive_solver.
  - destruct Hok as [Hs <-]. destruct b as [nb words].
    pose proof (denotes_num_bits 64 _ _ _ Hb) as Hnb. simpl in Hnb. subst nb. simpl.
    destruct (ByteVectorToBitVector_spec bytes words _ Hs Hb) as (words' & -> & Hb'). simpl.
    eexists; split; [done|]. eapply holds_intro; [done|done|]. intros i. rewrite elem_of_list_to_set.
    unfold byte_members. rewrite list_elem_of_filter, elem_of_seqZ, Z.sub_0_r, Z.eqb_eq. tauto.
  - eexists; split; [done|]. eapply holds_intro; [by eapply (Reset_denotes 64)|done|]. by_bits. naive_solver.
  - unfold assign_tids. simpl. rewrite Forall_forall in Hok.
    assert (forallb (fun tid => tid <? GetCapacity (mkTupleIdList b)) tids = true) as ->.
    { apply forallb_forall. intros t Ht%list_elem_of_In. apply Z.ltb_lt. unfold GetCapacity, GetNumBits. simpl.
      rewrite (denotes_num_bits 64 _ _ _ Hb). by apply Hok. }
    simpl. eexists; split; [done|]. rewrite fold_Add. simpl.
    eapply holds_intro; [eapply fold_Set_denotes, (Reset_denotes 64); [by apply Forall_forall|lia|done]|done|].
    by_bits. naive_solver.
  - eexists; split; [done|]. eapply holds_intro; [eapply (Resize_denotes 64); [lia|done|lia]|lia|].
    by_bits. naive_solver lia.
Qed.

Lemma run_lops_refines os : forall l n X, holds l n X -> lops_ok os n ->
  if lops_fault os n then run_lops os l = None
  else exists l', run_lops os l = Some l' /\ holds l' (run_sets os (n, X)).1 (run_sets os (n, X)).2.
Proof.
  induction os as [|o os IH]; intros l n X Hl Hok; cbn [lops_ok lops_fault run_lops run_sets fst snd] in *; [by exists l|].
  destruct Hok as [Ho Hos]. pose proof (apply_lop_refines o l n X Hl Ho) as Hap. destruct (lop_faults o n); cbn [orb].
  - by rewrite Hap.
  - destruct Hap as (l' & -> & Hl'). by apply IH.
Qed.

Lemma new_holds n : 0 <= n < 2 ^ 32 -> holds (new_TupleIdList n) n ∅.
Proof.
  intros Hn. eapply holds_intro; [by apply (new_denotes 64); lia|lia|]. by_bits. naive_solver.
Qed.

(** * Iteration *)

(** The first of the remaining elements, and what remains after it. *)
Lemma next_member_rest n f p i rest : filter (fun j => f j = true) (seqZ p (n - p)) = i :: rest ->
  p <= i < n /\ rest = filter (fun j => f j = true) (seqZ (i + 1) (n - (i + 1))).
Proof.
  intros Hf. assert (p <= i < n) as Hi.
  { assert (i ∈ filter (fun j => f j = true) (seqZ p (n - p))) as [_ Hin%elem_of_seqZ]%list_elem_of_filter
      by (rewrite Hf; apply list_elem_of_here). lia. }
  split; [done|]. replace (n - p) with ((i - p) + (1 + (n - (i + 1)))) in Hf by lia.
  rewrite !seqZ_app, !filter_app in Hf by lia.
  assert (sorted (i :: rest)) as Hs.
  { rewrite <- Hf, <- !filter_app. apply sorted_filter. rewrite <- !seqZ_app by lia. apply sorted_seqZ. }
  assert (filter (fun j => f j = true) (seqZ p (i - p)) = []) as Hnil.
  { destruct (filter _ (seqZ p (i - p))) as [|q l] eqn:Hq; [done|].
    assert (q ∈ filter (fun j => f j = true) (seqZ p (i - p))) as [_ Hin%elem_of_seqZ]%list_elem_of_filter
      by (rewrite Hq; apply list_elem_of_here). simpl in Hf. injection Hf as -> _. lia. }
  rewrite Hnil in Hf. simpl in Hf. replace (p + (i - p)) with i in Hf by lia.
  change (seqZ i 1) with [i + 0] in Hf || idtac.
  rewrite (seqZ_cons i 1) in Hf by lia. change (seqZ (Z.succ i) (Z.pred 1)) with (@nil Z) in Hf.
  rewrite filter_cons, filter_nil in Hf. destruct (decide (f i = true)); simpl in Hf; [by injection Hf|].
  exfalso. assert (i ∈ filter (fun j => f j = true) (seqZ (i + 1) (n - (i + 1)))) as [_ Hin%elem_of_seqZ]%list_elem_of_filter
    by (rewrite Hf; apply list_elem_of_here). lia.
Qed.

Lemma next_member_wrap n f p : 0 <= p -> n < 2 ^ 32 -> wrapu 32 (next_member n f p) = next_member n f p.
Proof.
  intros Hp Hn. apply wrapu_small. unfold next_member, kInvalidPos. destruct (filter _ _) as [|i l] eqn:Hf; [split; lia|].
  apply next_member_rest in Hf as [Hi _]. split; lia.
Qed.

Lemma range_for_spec l n f : denotes 64 (bit_vector_ l) n f -> n < 2 ^ 32 -> forall fuel p, 0 <= p ->
  (length (filter (fun j => f j = true) (seqZ p (n - p))) < fuel)%nat ->
  range_for fuel l (next_member n f p) = Some (filter (fun j => f j = true) (seqZ p (n - p))).
Proof.
  intros Hb Hn. induction fuel as [|fuel IH]; intros p Hp Hf; [lia|]. cbn [range_for]. unfold next_member at 1 2 3.
  destruct (filter _ (seqZ p (n - p))) as [|i rest] eqn:Hfl; [done|].
  apply next_member_rest in Hfl as [Hi ->]. unfold iter_end, kInvalidPos.
  rewrite (proj2 (Z.eqb_neq _ _)) by lia. unfold iter_next.
  rewrite (FindNext_spec 64 ltac:(lia) _ n f i Hb), next_member_wrap by lia. simpl in Hf.
  by rewrite IH by lia.
Qed.

(** The loop of [TupleIdListIterator] reads what was written. *)
Lemma iterate_spec sel size l : written size sel l -> size < 2 ^ 16 -> forall fuel i, (length l < fuel + i)%nat -> (i <= length l)%nat ->
  iterate fuel (mkIter sel size (Z.of_nat i)) = Some (drop i l).
Proof.
  intros [-> Hw] Hsize. induction fuel as [|fuel IH]; intros i Hf Hi; [lia|]. cbn [iterate].
  unfold HasNext. simpl. destruct (Z.eqb_spec (Z.of_nat i) (Z.of_nat (length l))) as [He|Hne]; simpl.
  - by rewrite drop_ge by lia.
  - unfold Advance. simpl. rewrite wrapu_small by (split; lia).
    replace (Z.of_nat i + 1) with (Z.of_nat (S i)) by lia. rewrite IH by lia. simpl. f_equal.
    destruct (lookup_lt_is_Some_2 l i) as [x Hx]; [lia|]. rewrite (drop_S l x i) by done. f_equal.
    unfold GetCurrentTupleId. simpl. rewrite Nat2Z.id, nth_lookup.
    rewrite <- Hw, lookup_take_lt in Hx by lia. by rewrite Hx.
Qed.

Lemma words_bound n : 0 <= n -> n <= kDefaultVectorSize -> NumNeededWords 64 n * 64 <= 2048.
Proof.
  intros Hn Hle. unfold kDefaultVectorSize in *. unfold NumNeededWords, DivRoundUp, kBitsPerWord.
  assert ((n + 64 - 1) / 64 <= (2048 + 64 - 1) / 64) by (apply Z.div_le_mono; lia).
  change ((2048 + 64 - 1) / 64) with 32 in *. lia.
Qed.

(** * The theorems *)

(** C26: Any sequence of operations within their requirements refines the operations on
    finite sets of ids, with one exception: it leaves the storage exactly if it adds a range that is not empty and ends with the capacity, where that is a multiple of 64
    ([AddRange(0, 2048)] on a list of 2048). *)
Theorem tuple_id_lists_refine_sets n os : 0 <= n < 2 ^ 32 -> lops_ok os n ->
  if lops_fault os n then run_lops os (new_TupleIdList n) = None
  else exists l, run_lops os (new_TupleIdList n) = Some l /\
    holds l (run_sets os (n, ∅)).1 (run_sets os (n, ∅)).2.
Proof. intros Hn Hok. apply run_lops_refines; [by apply new_holds|done]. Qed.

(** All observers of a list answer for its set: the elements come in increasing order from the
    callbacks, from both iterators, from indexing and from the selection vector. *)
Theorem tuple_id_list_reads_the_set l n X : holds l n X ->
  let L := elements_below n X in
  (StronglySorted Z.lt L /\ list_to_set L = X /\ length L = size X) /\
  (forall t, 0 <= t < n -> Contains l t = bool_decide (t ∈ X)) /\
  (IsFull l = true <-> X = id_range n) /\ (IsEmpty l = true <-> X = ∅) /\
  GetCapacity l = n /\ GetTupleCount l = Z.of_nat (size X) /\
  (forall i, 0 <= i < Z.of_nat (size X) -> L !! Z.to_nat i = Some (at_index l i)) /\
  TupleIdList.ForEach l = L /\
  range_for (S (length L)) l (iter_begin l) = Some L /\
  (n <= kDefaultVectorSize -> forall buffer, Z.of_nat (length buffer) = kDefaultVectorSize ->
     exists sel, ToSelectionVector false l buffer = Some (Z.of_nat (size X), sel) /\ take (size X) sel = L) /\
  (n <= kDefaultVectorSize -> forall buffer, Z.of_nat (length buffer) = kDefaultVectorSize ->
     exists it, new_Iter false l buffer = Some it /\ iterate (S (length L)) it = Some L).
Proof.
  intros (HX & Hn & Hb) L. pose proof (denotes_nonneg 64 _ _ _ Hb) as Hn0.
  pose proof (elements_below_size n X HX) as Hsize. fold L in Hsize.
  pose proof (length_members n (in_set X) Hn0) as HLn. fold (elements_below n X) in HLn. fold L in HLn.
  pose proof (All_spec 64 ltac:(lia) _ n _ Hb) as Hall.
  assert (n <= kDefaultVectorSize -> forall buffer, Z.of_nat (length buffer) = kDefaultVectorSize ->
    exists sel, ToSelectionVector false l buffer = Some (Z.of_nat (size X), sel) /\ written (Z.of_nat (size X)) sel L) as Hsel.
  { intros Hle buffer Hbuf. pose proof (words_bound n Hn0 Hle). unfold kDefaultVectorSize in *.
    destruct (BitVectorToSelectionVector_spec (bit_vector_ l) n _ buffer Hb) as (k & sel & He & _ & Hw); [lia|lia|].
    exists sel. unfold ToSelectionVector, GetNumBits. rewrite (denotes_num_bits 64 _ _ _ Hb), He.
    replace (Z.of_nat (size X)) with k; [done|]. rewrite <- Hsize. apply Hw. }
  split_and!.
  - apply elements_below_sorted.
  - by apply elements_below_set.
  - done.
  - intros t Ht. by apply (Test_denotes 64 ltac:(lia) _ n (in_set X)).
  - unfold IsFull. rewrite Hall. split.
    + intros Hf. apply set_eq. intros i. rewrite elem_of_id_range. split; [apply HX|]. intros Hi. by apply in_set_iff, Hf.
    + intros -> i Hi. by apply in_set_iff, elem_of_id_range.
  - unfold IsEmpty. rewrite (None_spec 64 ltac:(lia) _ n _ Hb). split.
    + intros Hf. apply set_eq. intros i. split; [|set_solver]. intros Hi. specialize (Hf i (HX i Hi)).
      by apply in_set_iff in Hi; rewrite Hf in Hi.
    + intros -> i _. done.
  - by eapply (denotes_num_bits 64).
  - unfold GetTupleCount. rewrite (CountOnes_spec 64 ltac:(lia) _ n _ Hb). by rewrite <- Hsize.
  - intros i Hi. unfold at_index. rewrite (NthOne_spec 64 ltac:(lia) _ n _ i Hb) by lia.
    change (members n (in_set X)) with L. destruct (lookup_lt_is_Some_2 L (Z.to_nat i)) as [x Hx]; [lia|]. by rewrite Hx.
  - unfold TupleIdList.ForEach, IsFull. destruct (All 64 _).
    + unfold GetCapacity, GetNumBits. rewrite (denotes_num_bits 64 _ _ _ Hb). subst L. unfold elements_below, members.
      rewrite (filter_ext_in _ (fun _ => True)).
      * induction (seqZ 0 n) as [|x l' IH]; [done|]. by rewrite filter_cons_True, <- IH.
      * intros i Hi%elem_of_seqZ. split; [done|]. intros _. apply Hall; [done|lia].
    + by apply (ForEachSet_spec 64 ltac:(lia)).
  - unfold iter_begin. rewrite (FindFirst_spec 64 ltac:(lia) _ n _ Hb), next_member_wrap by lia.
    assert (L = filter (fun j => in_set X j = true) (seqZ 0 (n - 0))) as HL by (by rewrite Z.sub_0_r).
    rewrite HL. apply range_for_spec; done || lia.
  - intros Hle buffer Hbuf. destruct (Hsel Hle buffer Hbuf) as (sel & He & _ & Hw). exists sel. split; [done|]. by rewrite <- Hsize.
  - intros Hle buffer Hbuf. destruct (Hsel Hle buffer Hbuf) as (sel & He & Hw). unfold kDefaultVectorSize in *.
    exists (mkIter sel (Z.of_nat (size X)) 0). split.
    + unfold new_Iter, Iter_Reset. simpl. rewrite He. simpl. by rewrite wrapu_small by (split; lia).
    + apply (iterate_spec sel _ L Hw ltac:(lia) _ 0); lia.
Qed.

End Spec.

(** * Witnesses *)

Definition sample_lops : list lop :=
  [LAddRange 3 7; LAdd 40; LEnable 4 false; LFilter (fun t => t <? 41); LBuildFromSelectionVector [60; 64]; LRemove 3;
   LUnionWith (new_TupleIdList 70); LAssign [1; 2; 69]].

Lemma tuple_id_lists_refine_sets_witness :
  (exists l, run_lops sample_lops (new_TupleIdList 70) = Some l /\
    holds l (run_sets sample_lops (70, ∅)).1 (run_sets sample_lops (70, ∅)).2) /\
  run_lops [LAddRange 0 2048] (new_TupleIdList 2048) = None.
Proof.
  split; [apply (tuple_id_lists_refine_sets 70 sample_lops); [lia|]|apply (tuple_id_lists_refine_sets 2048 [LAddRange 0 2048]); [lia|]].
  - cbn [lops_ok lop_ok lop_capacity sample_lops]. split_and!; try (lia || done).
    + repeat constructor; lia.
    + change (ids (new_TupleIdList 70)) with (list_to_set (C := gset Z) (ForEachSet 64 (new_BitVector 64 70))).
      replace (ForEachSet 64 (new_BitVector 64 70)) with (@nil Z) by (vm_compute; reflexivity). apply new_holds. lia.
    + repeat constructor; lia.
  - cbn. split_and!; lia || done.
Defined.

Lemma tuple_id_list_reads_the_set_witness :
  IsEmpty (new_TupleIdList 70) = true /\ TupleIdList.ForEach (new_TupleIdList 70) = elements_below 70 ∅.
Proof.
  destruct (tuple_id_list_reads_the_set (new_TupleIdList 70) 70 ∅ (new_holds 70 ltac:(lia)))
    as (_ & _ & _ & He & _ & _ & _ & Hf & _).
  split; [apply He; reflexivity|exact Hf].
Defined.
