(* ===== verification/DateTime.v ===== *)
(** Dates and timestamps: [src/sql/runtime_types.cpp] and [src/include/sql/runtime_types.h].

    Every integer has the width of the source: conversions between [int32_t], [uint32_t] and
    [int64_t] are the wraps the source has.  An exception is [None].  Text is written through a
    pointer into the buffer, which is the list [buf] with the position [str]; a write past the
    buffer is [None] too. *)
From Stdlib Require Import SpecFloat.
From S2P Require Import Prelude Buffer.

Inductive DateTimeFormat : Set := Postgres | SQL | ISO.
Inductive DateOrderFormat : Set := YMD | DMY | MDY.

Definition kDateOrder : DateOrderFormat := MDY.
Definition kMaxDateTimeLen : Z := 128.
Definition kMonthsPerYear : Z := 12.
Definition kDaysPerMonth (leap : bool) (i : Z) : Z :=
  nth (Z.to_nat i) (if leap then [31; 29; 31; 30; 31; 30; 31; 31; 30; 31; 30; 31]
                    else [31; 28; 31; 30; 31; 30; 31; 31; 30; 31; 30; 31]) 0.
Definition kMonthNames : list (list Z) :=
  map bytes ["January"; "February"; "March"; "April"; "May"; "June"; "July"; "August";
             "September"; "October"; "November"; "December"]%string.
Definition kDayNames : list (list Z) := map bytes ["Sun"; "Mon"; "Tue"; "Wed"; "Thu"; "Fri"; "Sat"]%string.
Definition kHoursPerDay : Z := 24.
Definition kMinutesPerHour : Z := 60.
Definition kSecondsPerMinute : Z := 60.
Definition kMaxTimestampPrecision : Z := 6.
Definition kJulianMinYear : Z := -4713.
Definition kJulianMinMonth : Z := 11.
Definition kJulianMaxYear : Z := 5874898.
Definition kJulianMaxMonth : Z := 6.
Definition kMicroSecondsPerSecond : Z := 1000 * 1000.
Definition kMicroSecondsPerMinute : Z := 60 * kMicroSecondsPerSecond.
Definition kMicroSecondsPerHour : Z := 60 * kMicroSecondsPerMinute.
Definition kMicroSecondsPerDay : Z := 24 * kMicroSecondsPerHour.

(** * The Julian calendar functions *)

(** [%] of C++ truncates; only its being zero matters here. *)
Definition IsLeapYear (year : Z) : bool :=
  (Z.rem year 4 =? 0) && (negb (Z.rem year 100 =? 0) || (Z.rem year 400 =? 0)).

Definition IsValidJulianDate (y m d : Z) : bool :=
  ((y >? kJulianMinYear) || ((y =? kJulianMinYear) && (m >=? kJulianMinMonth))) &&
  ((y <? kJulianMaxYear) || ((y =? kJulianMaxYear) && (m <? kJulianMaxMonth))).

Definition IsValidCalendarDate (year month day : Z) : bool :=
  if year =? 0 then false
  else if (month <? 1) || (month >? kMonthsPerYear) then false
  else if (day <? 1) || (day >? kDaysPerMonth (IsLeapYear year) (month - 1)) then false
  else true.

(** The arguments and the result are [uint32_t]; [century] and [julian] are [int32_t]. *)
Definition BuildJulianDate (year month day : Z) : Z :=
  let '(month, year) := if month >? 2 then (wrapu 32 (month + 1), wrapu 32 (year + 4800))
                        else (wrapu 32 (month + 13), wrapu 32 (year + 4799)) in
  let century := wraps 32 (year / 100) in
  let julian := wraps 32 (year * 365 - 32167) in
  let julian := wraps 32 (julian + (year / 4 - century + Z.quot century 4)) in
  let julian := wraps 32 (julian + (wrapu 32 (7834 * month) / 256 + day)) in
  wrapu 32 julian.

(** The year, the month and the day; [julian], [quad] and [extra] are [uint32_t]. *)
Definition SplitJulianDate (jd : Z) : Z * Z * Z :=
  let julian := wrapu 32 jd in
  let julian := wrapu 32 (julian + 32044) in
  let quad := julian / 146097 in
  let extra := wrapu 32 ((julian - quad * 146097) * 4 + 3) in
  let julian := wrapu 32 (julian + (60 + quad * 3 + extra / 146097)) in
  let quad := julian / 1461 in
  let julian := wrapu 32 (julian - quad * 1461) in
  let y := wraps 32 (wrapu 32 (julian * 4) / 1461) in
  let julian := (if negb (y =? 0) then (julian + 305) mod 365 else (julian + 306) mod 366) + 123 in
  let y := wraps 32 (y + quad * 4) in
  let year := wraps 32 (y - 4800) in
  let quad := wrapu 32 (julian * 2141) / 65536 in
  let day := wraps 32 (julian - wrapu 32 (7834 * quad) / 256) in
  let month := (quad + 10) mod kMonthsPerYear + 1 in
  (year, month, day).

(** [%] truncates towards zero, and the code copes. *)
Definition JulianDateToDay (date : Z) : Z :=
  let date := wraps 32 (date + 1) in
  let date := Z.rem date 7 in
  if date <? 0 then date + 7 else date.

(** The date and the time of a Julian time. *)
Definition StripTime (jd : Z) : Z * Z :=
  let date := Z.quot jd kMicroSecondsPerDay in
  (date, jd - date * kMicroSecondsPerDay).

Definition BuildTime (hour min sec : Z) : Z :=
  ((hour * kMinutesPerHour + min) * kSecondsPerMinute) * kMicroSecondsPerSecond + sec * kMicroSecondsPerSecond.

(** The hour, the minute, the second and the microseconds. *)
Definition SplitTime (jd : Z) : Z * Z * Z * Z :=
  let time := jd in
  let hour := wraps 32 (Z.quot time kMicroSecondsPerHour) in
  let time := time - hour * kMicroSecondsPerHour in
  let min := wraps 32 (Z.quot time kMicroSecondsPerMinute) in
  let time := time - min * kMicroSecondsPerMinute in
  let sec := wraps 32 (Z.quot time kMicroSecondsPerSecond) in
  let fsec := wraps 32 (time - sec * kMicroSecondsPerSecond) in
  (hour, min, sec, fsec).

(** * Text *)

(** [std::to_chars] of an unsigned number of at most 20 digits. *)
Fixpoint to_chars_loop (fuel : nat) (value : Z) (acc : list Z) : list Z :=
  match fuel with
  | O => acc
  | S fuel' =>
      let acc := (ch "0" + value mod 10) :: acc in
      if value <? 10 then acc else to_chars_loop fuel' (value / 10) acc
  end.
Definition to_chars (value : Z) : list Z := to_chars_loop 20 value [].

(** Append [s] at [str]: the new buffer and the new position. *)
Definition append (s : list Z) (p : list Z * Z) : option (list Z * Z) :=
  let '(buf, str) := p in
  buf ← store str s buf; Some (buf, str + Z.of_nat (length s)).

(** The table of two-digit numbers holds the digits of [value]. *)
Definition NumberToStringWithZeroPad (value min_width : Z) (p : list Z * Z) : option (list Z * Z) :=
  let value := wrapu 32 value in
  if (value <? 100) && (min_width =? 2) then append [ch "0" + value / 10; ch "0" + value mod 10] p
  else
    let digits := to_chars value in
    let len := Z.of_nat (length digits) in
    if len >=? min_width then append digits p
    else append (replicate (Z.to_nat (min_width - len)) (ch "0") ++ digits) p.

(** A year as it is printed: 1 BC is the year 0. *)
Definition printed_year (year : Z) : Z := if year >? 0 then year else wraps 32 (- (year - 1)).

Definition EncodeDateOnly (year month day : Z) (style : DateTimeFormat) (p : list Z * Z) : option (list Z) :=
  p ← match style with
      | ISO =>
          p ← NumberToStringWithZeroPad (printed_year year) 4 p;
          p ← append [ch "-"] p;
          p ← NumberToStringWithZeroPad month 2 p;
          p ← append [ch "-"] p;
          NumberToStringWithZeroPad day 2 p
      | _ =>
          let sep := match style with SQL => ch "/" | _ => ch "-" end in
          p ← match kDateOrder with
              | DMY =>
                  p ← NumberToStringWithZeroPad day 2 p;
                  p ← append [sep] p;
                  NumberToStringWithZeroPad month 2 p
              | _ =>
                  p ← NumberToStringWithZeroPad month 2 p;
                  p ← append [sep] p;
                  NumberToStringWithZeroPad day 2 p
              end;
          p ← append [sep] p;
          NumberToStringWithZeroPad (printed_year year) 4 p
      end;
  p ← (if year <=? 0 then append (bytes " BC") p else Some p);
  p ← append [0] p;
  Some p.1.

(** The [for] loop: the digits are written at [str + precision], from the last one. *)
Fixpoint fraction_loop (precision : nat) (value : Z) (seen_non_zero : bool) (str last : Z) (buf : list Z)
  : option (list Z * Z * Z) :=
  match precision with
  | O => Some (buf, last, value)
  | S precision' =>
      let r := value mod 10 in
      let value := value / 10 in
      let seen_non_zero := seen_non_zero || negb (r =? 0) in
      if seen_non_zero then
        buf ← store (str + Z.of_nat precision) [ch "0" + r] buf;
        fraction_loop precision' value seen_non_zero str last buf
      else fraction_loop precision' value seen_non_zero str (str + Z.of_nat precision) buf
  end.

Definition AppendTimestampSeconds (sec fsec precision : Z) (p : list Z * Z) : option (list Z * Z) :=
  p ← NumberToStringWithZeroPad (Z.abs sec) 2 p;
  if negb (fsec =? 0) then
    '(buf, str) ← append [ch "."] p;
    let value := Z.abs fsec in
    '(buf, last, value) ← fraction_loop (Z.to_nat precision) value false str (str + precision) buf;
    if negb (value =? 0) then append (to_chars (Z.abs fsec)) (buf, str)
    else Some (buf, last)
  else Some p.

Definition EncodeDateTime (year month day hour min sec fsec : Z) (style : DateTimeFormat) (p : list Z * Z)
  : option (list Z) :=
  let time p :=
    p ← NumberToStringWithZeroPad hour 2 p;
    p ← append [ch ":"] p;
    p ← NumberToStringWithZeroPad min 2 p;
    p ← append [ch ":"] p;
    AppendTimestampSeconds sec fsec kMaxTimestampPrecision p in
  p ← match style with
      | ISO =>
          p ← NumberToStringWithZeroPad (printed_year year) 4 p;
          p ← append [ch "-"] p;
          p ← NumberToStringWithZeroPad month 2 p;
          p ← append [ch "-"] p;
          p ← NumberToStringWithZeroPad day 2 p;
          p ← append [ch " "] p;
          time p
      | SQL =>
          p ← match kDateOrder with
              | DMY =>
                  p ← NumberToStringWithZeroPad day 2 p;
                  p ← append [ch "/"] p;
                  NumberToStringWithZeroPad month 2 p
              | _ =>
                  p ← NumberToStringWithZeroPad month 2 p;
                  p ← append [ch "/"] p;
                  NumberToStringWithZeroPad day 2 p
              end;
          p ← append [ch "/"] p;
          p ← NumberToStringWithZeroPad (printed_year year) 4 p;
          p ← append [ch " "] p;
          time p
      | Postgres =>
          let julian_date := wraps 32 (BuildJulianDate (wrapu 32 year) month day) in
          let day_of_week := JulianDateToDay julian_date in
          p ← append (nth (Z.to_nat day_of_week) kDayNames []) p;
          p ← append [ch " "] p;
          let month_name := take 3 (nth (Z.to_nat (month - 1)) kMonthNames []) in
          p ← match kDateOrder with
              | DMY =>
                  p ← NumberToStringWithZeroPad day 2 p;
                  p ← append [ch " "] p;
                  append month_name p
              | _ =>
                  p ← append month_name p;
                  p ← append [ch " "] p;
                  NumberToStringWithZeroPad day 2 p
              end;
          p ← append [ch " "] p;
          p ← time p;
          p ← append [ch " "] p;
          NumberToStringWithZeroPad (printed_year year) 4 p
      end;
  p ← (if year <=? 0 then append (bytes " BC") p else Some p);
  p ← append [0] p;
  Some p.1.

(** [std::string(buf.data())]: the bytes up to the first zero. *)
Fixpoint c_string (buf : list Z) : list Z :=
  match buf with [] => [] | b :: buf' => if b =? 0 then [] else b :: c_string buf' end.

(** * Dates: the value is an [int32_t] *)

(** The buffer starts with whatever is on the stack. *)
Definition Date_ToString (value : Z) (buf : list Z) : option (list Z) :=
  let '(year, month, day) := SplitJulianDate value in
  buf ← EncodeDateOnly year month day ISO (buf, 0);
  Some (c_string buf).

Definition Date_ExtractYear (value : Z) : Z := (SplitJulianDate value).1.1.
Definition Date_ExtractMonth (value : Z) : Z := (SplitJulianDate value).1.2.
Definition Date_ExtractDay (value : Z) : Z := (SplitJulianDate value).2.
Definition Date_ExtractComponents (value : Z) : Z * Z * Z := SplitJulianDate value.

Definition FromYMD (year month day : Z) : option Z :=
  if negb (IsValidCalendarDate year month day) then None
  else if negb (IsValidJulianDate year month day) then None
  else Some (wraps 32 (BuildJulianDate (wrapu 32 year) month day)).

(** [std::isspace] and [std::isdigit] of the C locale. *)
Definition isspace (c : Z) : bool := (c =? 32) || ((9 <=? c) && (c <=? 13)).
Definition isdigit (c : Z) : bool := (ch "0" <=? c) && (c <=? ch "9").

Fixpoint trim_left (s : list Z) : list Z :=
  match s with c :: s' => if isspace c then trim_left s' else s | [] => [] end.
Definition trim (s : list Z) : list Z := rev (trim_left (rev (trim_left s))).

(** A number up to a ['-']: the number, a [uint32_t], and what is left. *)
Fixpoint parse_field (s : list Z) (n : Z) : option (Z * list Z) :=
  match s with
  | [] => None
  | c :: s' =>
      if isdigit c then parse_field s' (wrapu 32 (n * 10 + (c - ch "0")))
      else if c =? ch "-" then Some (n, s') else None
  end.
(** The last number, up to the end. *)
Fixpoint parse_last (s : list Z) (n : Z) : option Z :=
  match s with
  | [] => Some n
  | c :: s' => if isdigit c then parse_last s' (wrapu 32 (n * 10 + (c - ch "0"))) else None
  end.

Definition Date_FromString (str : list Z) : option Z :=
  '(year, str) ← parse_field (trim str) 0;
  '(month, str) ← parse_field str 0;
  day ← parse_last str 0;
  FromYMD (wraps 32 year) (wraps 32 month) (wraps 32 day).

(** * Timestamps: the value is a [uint64_t] *)

Definition Date_ConvertToTimestamp (value : Z) : Z := wrapu 64 (value * kMicroSecondsPerDay).
(** The constant, an [int64_t], becomes unsigned. *)
Definition Timestamp_ConvertToDate (value : Z) : Z := wraps 32 (value / kMicroSecondsPerDay).

Definition ts_date (value : Z) : Z * Z * Z := SplitJulianDate (wraps 32 (StripTime (wraps 64 value)).1).
Definition ts_time (value : Z) : Z * Z * Z * Z := SplitTime (StripTime (wraps 64 value)).2.

Definition ExtractYear (value : Z) : Z := (ts_date value).1.1.
Definition ExtractMonth (value : Z) : Z := (ts_date value).1.2.
Definition ExtractDay (value : Z) : Z := (ts_date value).2.
Definition ExtractHour (value : Z) : Z := (ts_time value).1.1.1.
Definition ExtractMinute (value : Z) : Z := (ts_time value).1.1.2.
Definition ExtractSecond (value : Z) : Z := (ts_time value).1.2.

(** [double] arithmetic, and its truncation to an integer. *)
Definition to_double (z : Z) : spec_float := binary_normalize 53 1024 z 0 false.
Definition trunc (f : spec_float) : Z :=
  match f with
  | S754_finite s m e =>
      let a := if 0 <=? e then Z.shiftl (Z.pos m) e else Z.shiftr (Z.pos m) (- e) in if s then - a else a
  | _ => 0
  end.
Definition ExtractMillis (value : Z) : Z :=
  let '(_, _, sec, fsec) := ts_time value in
  trunc (SFadd 53 1024 (SFmul 53 1024 (to_double sec) (to_double 1000))
                       (SFdiv 53 1024 (to_double fsec) (to_double 1000))).
Definition ExtractMicros (value : Z) : Z :=
  let '(_, _, sec, fsec) := ts_time value in
  trunc (SFadd 53 1024 (to_double sec) (SFdiv 53 1024 (to_double fsec) (to_double 1000000))).

Definition ExtractDayOfWeek (value : Z) : Z :=
  let date := (StripTime (wraps 64 value)).1 in
  let date := Z.rem (date + 1) 7 in
  if date <? 0 then date + 7 else date.

Definition ExtractDayOfYear (value : Z) : Z :=
  let '(year, month, day) := ts_date value in
  wraps 32 (BuildJulianDate (wrapu 32 year) month day - BuildJulianDate (wrapu 32 year) 1 1 + 1).

(** The products are [int64_t]; on overflow they are what the processor leaves, which is what
    the check that follows looks for. *)
Definition FromYMDHMS (year month day hour min sec : Z) : option Z :=
  if negb (IsValidCalendarDate year month day) || negb (IsValidJulianDate year month day) then None
  else if (hour <? 0) || (min <? 0) || (min >? kMinutesPerHour - 1) || (sec <? 0) || (sec >? kSecondsPerMinute) ||
          (hour >? kHoursPerDay) || ((hour =? kHoursPerDay) && ((min >? 0) || (sec >? 0)))
  then None
  else
    let date := BuildJulianDate (wrapu 32 year) month day in
    let time := BuildTime hour min sec in
    let result := wraps 64 (date * kMicroSecondsPerDay + time) in
    if negb (Z.quot (wraps 64 (result - time)) kMicroSecondsPerDay =? date) then None
    else Some (wrapu 64 result).

Definition Timestamp_ToString (value : Z) (buf : list Z) : option (list Z) :=
  let '(year, month, day) := ts_date value in
  let '(hour, min, sec, fsec) := ts_time value in
  buf ← EncodeDateTime year month day hour min sec fsec ISO (buf, 0);
  Some (c_string buf).

(** Not implemented: it always throws. *)
Definition Timestamp_FromString (str : list Z) : option Z := None.
