(* ===== verification/DateTimeSpec.v ===== *)
(** The Gregorian calendar, and that the Julian day functions of [DateTime] count its days:
    consecutive days have consecutive numbers, and the two functions are inverse to each
    other. *)
From S2P Require Import Prelude Buffer DateTime.

(** * The calendar *)

Definition days_in_month (y m : Z) : Z := kDaysPerMonth (IsLeapYear y) (m - 1).
Definition valid_date (y m d : Z) : Prop := 1 <= m <= 12 /\ 1 <= d <= days_in_month y m.

Definition next_day (date : Z * Z * Z) : Z * Z * Z :=
  let '(y, m, d) := date in
  if d <? days_in_month y m then (y, m, d + 1)
  else if m <? 12 then (y, m + 1, 1) else (y + 1, 1, 1).

(** The number of a day, without the widths of the machine: [N] counts the days of the years that
    begin in March, [7834 * mo / 256] those of their months. *)
Definition year_days (Y : Z) : Z := 365 * Y + Y / 4 - Y / 100 + Y / 400.
Definition month_days (mo : Z) : Z := 7834 * mo / 256.
Definition shifted (y m : Z) : Z * Z := if m >? 2 then (y + 4800, m + 1) else (y + 4799, m + 13).
Definition jdn (y m d : Z) : Z :=
  year_days (shifted y m).1 - 32167 + month_days (shifted y m).2 + d.

Lemma leap_iff y : IsLeapYear y = true <-> y mod 4 = 0 /\ (y mod 100 <> 0 \/ y mod 400 = 0).
Proof.
  assert (forall k, 0 < k -> Z.rem y k = 0 <-> y mod k = 0) as Hrem.
  { intros k Hk. rewrite Z.rem_divide, Z.mod_divide by lia. done. }
  unfold IsLeapYear. rewrite andb_true_iff, orb_true_iff, negb_true_iff, !Z.eqb_eq, Z.eqb_neq.
  rewrite !Hrem by lia. tauto.
Qed.

Lemma twelve m : 1 <= m <= 12 ->
  m = 1 \/ m = 2 \/ m = 3 \/ m = 4 \/ m = 5 \/ m = 6 \/ m = 7 \/ m = 8 \/ m = 9 \/ m = 10 \/ m = 11 \/ m = 12.
Proof. lia. Qed.

Ltac each_month H := apply twelve in H; repeat destruct H as [->|H]; [..|subst].

(** Evaluate what depends on the month only. *)
Ltac evaluate t := let v := eval vm_compute in t in change t with v.
Ltac literals :=
  repeat match goal with
  | |- context [Z.ltb (Zpos ?a) (Zpos ?b)] => evaluate (Z.ltb (Zpos a) (Zpos b))
  | |- context [Z.gtb (Zpos ?a) (Zpos ?b)] => evaluate (Z.gtb (Zpos a) (Zpos b))
  | |- context [Z.add (Zpos ?a) (Zpos ?b)] => evaluate (Z.add (Zpos a) (Zpos b))
  | |- context [Z.sub (Zpos ?a) (Zpos ?b)] => evaluate (Z.sub (Zpos a) (Zpos b))
  | |- context [month_days (Zpos ?a)] => evaluate (month_days (Zpos a))
  | |- context [kDaysPerMonth true ?a] => evaluate (kDaysPerMonth true a)
  | |- context [kDaysPerMonth false ?a] => evaluate (kDaysPerMonth false a)
  | _ => progress cbn [fst snd]
  end.

Lemma days_in_month_range y m : 1 <= m <= 12 -> 28 <= days_in_month y m <= 31.
Proof. intros Hm. unfold days_in_month. each_month Hm; destruct (IsLeapYear y); by vm_compute. Qed.

(** A year that begins in March has 366 days when the February it ends with has 29. *)
Lemma year_days_next Y : year_days (Y + 1) - year_days Y = if IsLeapYear (Y + 1) then 366 else 365.
Proof.
  unfold year_days. pose proof (leap_iff (Y + 1)) as Hl.
  destruct (IsLeapYear (Y + 1)).
  - destruct Hl as [Hl _]. specialize (Hl eq_refl). Z.to_euclidean_division_equations. lia.
  - destruct Hl as [_ Hl]. assert (~ ((Y + 1) mod 4 = 0 /\ ((Y + 1) mod 100 <> 0 \/ (Y + 1) mod 400 = 0))) as Hn
      by (intros Hc; by apply Hl in Hc). clear Hl. Z.to_euclidean_division_equations. lia.
Qed.

Lemma IsLeapYear_shift y : IsLeapYear (y + 4800) = IsLeapYear y.
Proof.
  apply eq_true_iff_eq. rewrite !leap_iff.
  replace ((y + 4800) mod 4) with (y mod 4) by (rewrite <- (Z.mod_add y 1200 4) by lia; f_equal; lia).
  replace ((y + 4800) mod 100) with (y mod 100) by (rewrite <- (Z.mod_add y 48 100) by lia; f_equal; lia).
  replace ((y + 4800) mod 400) with (y mod 400) by (rewrite <- (Z.mod_add y 12 400) by lia; f_equal; lia).
  done.
Qed.

Lemma next_day_valid y m d : valid_date y m d ->
  let '(y', m', d') := next_day (y, m, d) in valid_date y' m' d'.
Proof.
  intros [Hm Hd]. unfold next_day. destruct (Z.ltb_spec d (days_in_month y m)); [by split; lia|].
  destruct (Z.ltb_spec m 12).
  - pose proof (days_in_month_range y (m + 1) ltac:(lia)). split; lia.
  - pose proof (days_in_month_range (y + 1) 1 ltac:(lia)). split; lia.
Qed.

Lemma jdn_next_day y m d : valid_date y m d ->
  let '(y', m', d') := next_day (y, m, d) in jdn y' m' d' = jdn y m d + 1.
Proof.
  intros [Hm Hd]. unfold next_day. destruct (Z.ltb_spec d (days_in_month y m)) as [Hlt|Hge].
  { unfold jdn. lia. }
  assert (d = days_in_month y m) as -> by lia. clear Hd Hge.
  pose proof (year_days_next (y + 4799)) as Hy. replace (y + 4799 + 1) with (y + 4800) in Hy by lia.
  rewrite IsLeapYear_shift in Hy.
  each_month Hm; unfold days_in_month, jdn, shifted; destruct (IsLeapYear y); literals; simpl fst; simpl snd;
    rewrite ?Z.add_assoc; try lia.
  all: replace (y + 1 + 4799) with (y + 4800) by lia; lia.
Qed.

(** * The machine computes the day numbers *)

Ltac sint32 := unfold is_sint; change (2 ^ (32 - 1)) with 2147483648; split; lia.
Ltac no_wrap :=
  repeat match goal with
  | |- context [wrapu 32 ?z] => rewrite (wrapu_small 32 z) by (split; lia)
  | |- context [wraps 32 ?z] => rewrite (wraps_small 32 z) by (lia || sint32)
  end.

(** The days the code can represent: from March of the year -4800 on, as far as the number is an
    [int32_t]. *)
Definition representable (y m d : Z) : Prop :=
  valid_date y m d /\ 0 <= (shifted y m).1 /\ jdn y m d < 2 ^ 31.

Lemma year_days_bounds Y : 0 <= Y -> 365 * Y <= year_days Y <= 366 * Y.
Proof. intros HY. unfold year_days. Z.to_euclidean_division_equations. lia. Qed.

Lemma month_days_bounds mo : 4 <= mo <= 15 -> 122 <= month_days mo <= 459.
Proof. intros Hm. unfold month_days. Z.to_euclidean_division_equations. lia. Qed.

Lemma shifted_month y m : 1 <= m <= 12 -> 4 <= (shifted y m).2 <= 15.
Proof. intros Hm. unfold shifted. rewrite Z.gtb_ltb. destruct (Z.ltb_spec 2 m); simpl; lia. Qed.

Lemma shifted_year y m : y + 4799 <= (shifted y m).1 <= y + 4800.
Proof. unfold shifted. destruct (m >? 2); simpl; lia. Qed.

Lemma representable_bounds y m d : representable y m d ->
  0 <= (shifted y m).1 < 5880000 /\ 4 <= (shifted y m).2 <= 15 /\ 1 <= d <= 31 /\ -32044 <= jdn y m d < 2 ^ 31.
Proof.
  intros ([Hm Hd] & HY & Hj). pose proof (days_in_month_range y m Hm). pose proof (shifted_month y m Hm) as Hmo.
  unfold jdn in *. pose proof (month_days_bounds _ Hmo). pose proof (year_days_bounds _ HY).
  assert ((shifted y m).1 < 5880000); [|lia].
  destruct (Z.lt_ge_cases (shifted y m).1 5880000) as [|Hge]; [done|]. exfalso.
  unfold year_days in *. Z.to_euclidean_division_equations. lia.
Qed.

Lemma BuildJulianDate_shifted y m d : representable y m d ->
  BuildJulianDate (wrapu 32 y) m d = wrapu 32 (jdn y m d).
Proof.
  intros Hr. pose proof (representable_bounds _ _ _ Hr) as (HY & Hmo & Hd & Hj).
  destruct Hr as ([Hm _] & _ & _). unfold BuildJulianDate.
  assert ((if m >? 2 then (wrapu 32 (m + 1), wrapu 32 (wrapu 32 y + 4800))
           else (wrapu 32 (m + 13), wrapu 32 (wrapu 32 y + 4799))) = ((shifted y m).2, (shifted y m).1)) as ->.
  { unfold shifted in *. destruct (m >? 2); cbn [fst snd] in *; unfold wrapu at 2; unfold wrapu at 2;
      rewrite Zplus_mod_idemp_l; fold (wrapu 32 (y + 4800)); fold (wrapu 32 (y + 4799)); no_wrap; done. }
  set (Y := (shifted y m).1) in *. set (mo := (shifted y m).2) in *. cbv zeta.
  unfold jdn in Hj |- *. fold Y mo in Hj |- *. unfold year_days, month_days in *.
  assert (0 <= Y / 100 /\ 0 <= Y / 4 /\ Y / 100 <= Y /\ Y / 4 <= Y) as (H1 & H2 & H3 & H4)
    by (Z.to_euclidean_division_equations; lia).
  assert (0 <= 7834 * mo / 256 <= 459) by (Z.to_euclidean_division_equations; lia).
  rewrite (wraps_small 32 (Y / 100)) by (lia || sint32).
  rewrite Z.quot_div_nonneg, Z.div_div by lia. change (100 * 4) with 400.
  assert (0 <= Y / 400 <= Y / 100) by (Z.to_euclidean_division_equations; lia).
  no_wrap. f_equal. lia.
Qed.

(** ** Taking a day number apart *)

(** What [SplitJulianDate] does within four years, and within a year. *)
Definition within_four_years (e doy : Z) : bool :=
  let k := (365 * e + doy + 60) / 1461 in
  let julian := (365 * e + doy + 60) mod 1461 in
  let y := julian * 4 / 1461 in
  let shifted_doy := (if negb (y =? 0) then (julian + 305) mod 365 else (julian + 306) mod 366) + 123 in
  (shifted_doy =? doy + 123) && (4 * k + y =? e + (if 306 <=? doy then 1 else 0)).

Definition within_year (mo d : Z) : bool :=
  let doy := month_days mo - 122 + d - 1 in
  let quad := (doy + 123) * 2141 / 65536 in
  (quad =? mo) && (doy + 123 - 7834 * quad / 256 =? d).

Lemma within_four_years_ok e doy : 0 <= e < 4 -> 0 <= doy <= 365 -> doy <= 364 \/ e = 3 ->
  within_four_years e doy = true.
Proof.
  intros He Hd Hl.
  assert (forallb (fun e => forallb (fun doy => ((doy =? 365) && negb (e =? 3)) || within_four_years e doy)
    (seqZ 0 366)) (seqZ 0 4) = true) as Hall by (vm_compute; reflexivity).
  rewrite forallb_forall in Hall. specialize (Hall e ltac:(apply list_elem_of_In, elem_of_seqZ; lia)).
  rewrite forallb_forall in Hall. specialize (Hall doy ltac:(apply list_elem_of_In, elem_of_seqZ; lia)).
  apply orb_true_iff in Hall as [Hc|]; [|done]. apply andb_true_iff in Hc as [Hc1%Z.eqb_eq Hc2%negb_true_iff%Z.eqb_neq].
  lia.
Qed.

(** The last month, February, has at most 29 days. *)
Definition month_length (mo : Z) : Z := if mo =? 15 then 29 else month_days (mo + 1) - month_days mo.

Lemma within_year_ok mo d : 4 <= mo <= 15 -> 1 <= d <= month_length mo -> within_year mo d = true.
Proof.
  intros Hmo Hd.
  assert (forallb (fun mo => forallb (fun d => within_year mo d) (seqZ 1 (month_length mo))) (seqZ 4 12) = true) as Hall
    by (vm_compute; reflexivity).
  rewrite forallb_forall in Hall. specialize (Hall mo ltac:(apply list_elem_of_In, elem_of_seqZ; lia)).
  rewrite forallb_forall in Hall. apply Hall, list_elem_of_In, elem_of_seqZ. lia.
Qed.

(** Centuries and years of 400 years, from the number of days. *)
Lemma four_centuries Y doy : 0 <= Y -> 0 <= doy < year_days (Y + 1) - year_days Y ->
  let J := year_days Y + doy in
  let a := Y / 400 in let b := Y mod 400 / 100 in let c := Y mod 100 / 4 in let e := Y mod 4 in
  J / 146097 = a /\ ((J - a * 146097) * 4 + 3) / 146097 = b /\
  J + (60 + a * 3 + b) = 1461 * (100 * a + 25 * b + c) + (365 * e + doy + 60) /\
  Y = 400 * a + 100 * b + 4 * c + e /\ 0 <= a /\ 0 <= b < 4 /\ 0 <= c < 25 /\ 0 <= e < 4 /\
  doy <= 365 /\ (doy <= 364 \/ e = 3) /\ 0 <= J - a * 146097 < 146097.
Proof.
  intros HY Hd J a b c e.
  assert (0 <= doy <= 364 \/ doy = 365 /\ (Y + 1) mod 4 = 0 /\ ((Y + 1) mod 100 <> 0 \/ (Y + 1) mod 400 = 0)) as Hdoy.
  { rewrite year_days_next in Hd. pose proof (leap_iff (Y + 1)) as Hl. destruct (IsLeapYear (Y + 1)); [|left; lia].
    destruct (Z.eq_dec doy 365); [right|left; lia]. split; [done|]. by apply Hl. }
  assert (Y = 400 * a + 100 * b + 4 * c + e /\ 0 <= a /\ 0 <= b < 4 /\ 0 <= c < 25 /\ 0 <= e < 4) as (HYe & Ha & Hb & Hc & He).
  { subst a b c e. Z.to_euclidean_division_equations. lia. }
  assert (Y / 4 = 100 * a + 25 * b + c /\ Y / 100 = 4 * a + b /\ Y / 400 = a) as (H4 & H100 & H400).
  { clearbody a b c e. subst Y. Z.to_euclidean_division_equations. lia. }
  assert (doy = 365 -> e = 3 /\ (c = 24 -> b = 3)) as Hleap.
  { intros ->. destruct Hdoy as [?|(_ & Hm4 & Hm)]; [lia|]. clearbody a b c e. subst Y.
    Z.to_euclidean_division_equations. lia. }
  assert (J = 146097 * a + (36524 * b + 1461 * c + 365 * e + doy)) as HJ.
  { subst J. unfold year_days. rewrite H4, H100, H400. lia. }
  clearbody J a b c e.
  assert (0 <= 36524 * b + 1461 * c + 365 * e + doy < 146097) as Hr by lia.
  split_and!; try lia.
  - symmetry. apply (Z.div_unique_pos _ _ _ (36524 * b + 1461 * c + 365 * e + doy)); lia.
  - symmetry. apply (Z.div_unique_pos _ _ _ ((J - a * 146097) * 4 + 3 - 146097 * b)); lia.
Qed.

Lemma SplitJulianDate_core Y doy : 0 <= Y < 5880000 -> 0 <= doy < year_days (Y + 1) - year_days Y ->
  year_days Y + doy - 32044 < 2 ^ 31 ->
  let q := (doy + 123) * 2141 / 65536 in
  SplitJulianDate (year_days Y + doy - 32044) =
    (Y + (if 306 <=? doy then 1 else 0) - 4800, (q + 10) mod 12 + 1, doy + 123 - 7834 * q / 256).
Proof.
  intros HY Hd Hmax q. pose proof (four_centuries Y doy ltac:(lia) Hd) as H4. cbv zeta in H4.
  pose proof (year_days_bounds Y ltac:(lia)).
  set (J := year_days Y + doy) in *. set (a := Y / 400) in *. set (b := Y mod 400 / 100) in *.
  set (c := Y mod 100 / 4) in *. set (e := Y mod 4) in *.
  destruct H4 as (HJa & Hb & HJ & HYe & Ha0 & Hb0 & Hc0 & He0 & Hd365 & Hdl & Hr).
  pose proof (within_four_years_ok e doy He0 ltac:(lia) Hdl) as Hw.
  apply andb_true_iff in Hw as [Hw1%Z.eqb_eq Hw2%Z.eqb_eq].
  unfold SplitJulianDate.
  assert (wrapu 32 (wrapu 32 (J - 32044) + 32044) = J) as ->.
  { unfold wrapu at 1 2. rewrite Zplus_mod_idemp_l. replace (J - 32044 + 32044) with J by lia.
    apply Z.mod_small. lia. }
  cbv zeta. rewrite HJa. rewrite (wrapu_small 32 ((J - a * 146097) * 4 + 3)) by (split; lia). rewrite Hb, HJ.
  rewrite (wrapu_small 32 (1461 * _ + _)) by (split; lia).
  assert ((1461 * (100 * a + 25 * b + c) + (365 * e + doy + 60)) / 1461 =
    100 * a + 25 * b + c + (365 * e + doy + 60) / 1461) as -> by (rewrite (Z.mul_comm 1461), Z.div_add_l by lia; done).
  set (k := (365 * e + doy + 60) / 1461) in *.
  assert (wrapu 32 (1461 * (100 * a + 25 * b + c) + (365 * e + doy + 60) - (100 * a + 25 * b + c + k) * 1461) =
    (365 * e + doy + 60) mod 1461) as ->.
  { rewrite Z.mod_eq by lia. fold k. rewrite wrapu_small; [lia|]. subst k. split; Z.to_euclidean_division_equations; lia. }
  set (j := (365 * e + doy + 60) mod 1461) in *.
  assert (0 <= j < 1461) as Hj by (apply Z.mod_pos_bound; lia).
  assert (0 <= j * 4 / 1461 <= 3) as Hy by (Z.to_euclidean_division_equations; lia).
  assert (0 <= k <= 1) as Hk by (subst k; Z.to_euclidean_division_equations; lia).
  rewrite (wrapu_small 32 (j * 4)) by (split; lia).
  rewrite (wraps_small 32 (j * 4 / 1461)) by (lia || sint32).
  rewrite Hw1. change (2 ^ 31) with 2147483648 in *.
  rewrite (wraps_small 32 (j * 4 / 1461 + _)) by (lia || sint32).
  rewrite (wraps_small 32 (_ + _ - 4800)) by (lia || sint32).
  rewrite (wrapu_small 32 ((doy + 123) * 2141)) by (split; lia). fold q.
  assert (3 <= q <= 16) as Hq by (subst q; Z.to_euclidean_division_equations; lia).
  rewrite (wrapu_small 32 (7834 * q)) by (split; lia).
  assert (0 <= 7834 * q / 256 <= 500) by (Z.to_euclidean_division_equations; lia).
  rewrite (wraps_small 32 (doy + 123 - _)) by (lia || sint32).
  unfold kMonthsPerYear. f_equal. f_equal. destruct (306 <=? doy); lia.
Qed.

(** A day of the calendar within its year from March on. *)
Lemma valid_date_shifted y m d : valid_date y m d ->
  let Y := (shifted y m).1 in let mo := (shifted y m).2 in let doy := month_days mo - 122 + d - 1 in
  0 <= doy < year_days (Y + 1) - year_days Y /\ jdn y m d = year_days Y + doy - 32044 /\
  4 <= mo <= 15 /\ 1 <= d <= month_length mo /\
  y = Y + (if 306 <=? doy then 1 else 0) - 4800 /\ m = (mo + 10) mod 12 + 1.
Proof.
  intros [Hm Hd]. cbv zeta. rewrite year_days_next.
  pose proof (IsLeapYear_shift y) as Hs. unfold days_in_month in Hd. unfold jdn.
  each_month Hm; unfold shifted; literals;
    repeat match goal with
    | |- context [month_length (Zpos ?k)] => evaluate (month_length (Zpos k))
    | |- context [Z.modulo (Zpos ?k) (Zpos ?l)] => evaluate (Z.modulo (Zpos k) (Zpos l))
    end; literals;
    replace (y + 4799 + 1) with (y + 4800) by lia; rewrite ?Hs;
    destruct (IsLeapYear y) eqn:El, (IsLeapYear (y + 4800 + 1));
    match type of Hd with context [kDaysPerMonth ?l ?i] => let v := eval vm_compute in (kDaysPerMonth l i) in
      change (kDaysPerMonth l i) with v in Hd end;
    match goal with |- context [306 <=? ?x] => destruct (Z.leb_spec 306 x) end; split_and!; try lia.
Qed.

Lemma Split_of_jdn y m d : representable y m d -> SplitJulianDate (jdn y m d) = (y, m, d).
Proof.
  intros Hr. pose proof (representable_bounds _ _ _ Hr) as (HY & Hmo & _ & _).
  destruct Hr as (Hv & _ & Hj). pose proof (valid_date_shifted y m d Hv) as Hs. cbv zeta in Hs.
  destruct Hs as (Hdoy & Hjdn & _ & Hd & Hy & Hm).
  rewrite Hjdn in Hj |- *. rewrite SplitJulianDate_core by lia. cbv zeta. rewrite <- Hy.
  pose proof (within_year_ok _ _ Hmo Hd) as Hw. unfold within_year in Hw.
  apply andb_true_iff in Hw as [Hq%Z.eqb_eq Hdd%Z.eqb_eq]. rewrite Hq in Hdd |- *. by rewrite <- Hm, Hdd.
Qed.

(** Every number is that of a day. *)
Lemma jdn_surjective J : 0 <= J -> exists y m d, valid_date y m d /\ 0 <= (shifted y m).1 /\ jdn y m d = J - 32044.
Proof.
  intros HJ. pattern J. apply natlike_ind; [| |done].
  - exists (-4800), 3, 1. split_and!; try (vm_compute; congruence). split; vm_compute; split; congruence.
  - intros x Hx (y & m & d & Hv & HY & Hj). pose proof (next_day_valid y m d Hv) as Hv'.
    pose proof (jdn_next_day y m d Hv) as Hj'.
    destruct (next_day (y, m, d)) as [[y' m'] d'] eqn:Hn. exists y', m', d'. split_and!; [done| |lia].
    destruct Hv' as [Hm' Hd']. pose proof (days_in_month_range y' m' Hm').
    pose proof (month_days_bounds _ (shifted_month y' m' Hm')).
    destruct (Z.lt_ge_cases (shifted y' m').1 0) as [Hneg|]; [exfalso|done].
    unfold next_day in Hn. unfold shifted in *. rewrite !Z.gtb_ltb in *.
    destruct (d <? days_in_month y m); [|destruct (Z.ltb_spec m 12)]; simplify_eq;
      repeat match goal with Hc : context [Z.ltb 2 ?m] |- _ => destruct (Z.ltb_spec 2 m) end; simpl in *; lia.
Qed.

Lemma Split_surjective jd : -32044 <= jd < 2 ^ 31 ->
  exists y m d, SplitJulianDate jd = (y, m, d) /\ representable y m d /\ jdn y m d = jd.
Proof.
  intros Hjd. destruct (jdn_surjective (jd + 32044)) as (y & m & d & Hv & HY & Hj); [lia|].
  replace (jd + 32044 - 32044) with jd in Hj by lia.
  assert (representable y m d) as Hr by (split; [done|split; [done|lia]]).
  exists y, m, d. split; [|done]. rewrite <- Hj. by apply Split_of_jdn.
Qed.

(** ** Order *)

Definition date_lt (a b : Z * Z * Z) : Prop :=
  let '(y, m, d) := a in let '(y', m', d') := b in
  y < y' \/ y = y' /\ (m < m' \/ m = m' /\ d < d').

Lemma year_days_mono Y Y' : Y < Y' -> year_days (Y + 1) <= year_days Y'.
Proof. intros HY. unfold year_days. Z.to_euclidean_division_equations. lia. Qed.

Lemma month_days_mono mo mo' : 4 <= mo -> mo < mo' -> mo' <= 15 -> month_days mo + month_length mo <= month_days mo'.
Proof.
  intros H4 Hlt H15. unfold month_length. destruct (Z.eqb_spec mo 15); [lia|].
  replace (month_days mo + (month_days (mo + 1) - month_days mo)) with (month_days (mo + 1)) by lia.
  unfold month_days. apply Z.div_le_mono; lia.
Qed.

Lemma jdn_lt y m d y' m' d' : valid_date y m d -> valid_date y' m' d' ->
  date_lt (y, m, d) (y', m', d') -> jdn y m d < jdn y' m' d'.
Proof.
  intros Hv Hv' Hlt. pose proof (valid_date_shifted _ _ _ Hv) as Hs. pose proof (valid_date_shifted _ _ _ Hv') as Hs'.
  cbv zeta in Hs, Hs'. destruct Hs as (Hd & -> & Hmo & Hml & _). destruct Hs' as (Hd' & -> & Hmo' & Hml' & _).
  assert ((shifted y m).1 < (shifted y' m').1 \/
    (shifted y m).1 = (shifted y' m').1 /\ ((shifted y m).2 < (shifted y' m').2 \/ (shifted y m).2 = (shifted y' m').2 /\ d < d'))
    as Hsh.
  { destruct Hv as [Hm _], Hv' as [Hm' _]. unfold date_lt in Hlt. unfold shifted. rewrite !Z.gtb_ltb.
    destruct (Z.ltb_spec 2 m), (Z.ltb_spec 2 m'); simpl; lia. }
  destruct Hsh as [HY|[HY [Hmm|[Hmm Hdd]]]].
  - pose proof (year_days_mono _ _ HY). lia.
  - apply month_days_mono in Hmm; [|lia..]. rewrite HY. lia.
  - rewrite HY, Hmm. lia.
Qed.

Lemma date_lt_total a b : date_lt a b \/ a = b \/ date_lt b a.
Proof.
  destruct a as [[y m] d], b as [[y' m'] d']. unfold date_lt.
  destruct (Z.lt_trichotomy y y') as [?|[->|?]]; [lia| |lia].
  destruct (Z.lt_trichotomy m m') as [?|[->|?]]; [lia| |lia].
  destruct (Z.lt_trichotomy d d') as [?|[->|?]]; [lia|auto|lia].
Qed.

Lemma jdn_lt_iff y m d y' m' d' : valid_date y m d -> valid_date y' m' d' ->
  jdn y m d < jdn y' m' d' <-> date_lt (y, m, d) (y', m', d').
Proof.
  intros Hv Hv'. split; [|by apply jdn_lt]. intros Hlt.
  destruct (date_lt_total (y, m, d) (y', m', d')) as [Hd|[He|Hd]]; [done|simplify_eq; lia|].
  pose proof (jdn_lt _ _ _ _ _ _ Hv' Hv Hd). lia.
Qed.

(** * Dates *)

(** What [IsValidJulianDate] asks for. *)
Definition in_julian_years (y m : Z) : Prop :=
  (-4713 < y \/ y = -4713 /\ 11 <= m) /\ (y < 5874898 \/ y = 5874898 /\ m < 6).

Lemma IsValidJulianDate_iff y m d : IsValidJulianDate y m d = true <-> in_julian_years y m.
Proof.
  unfold IsValidJulianDate, in_julian_years, kJulianMinYear, kJulianMinMonth, kJulianMaxYear, kJulianMaxMonth.
  rewrite andb_true_iff, !orb_true_iff, !andb_true_iff, Z.gtb_ltb, Z.geb_leb, !Z.ltb_lt, Z.leb_le, !Z.eqb_eq. lia.
Qed.

Lemma IsValidCalendarDate_iff y m d : IsValidCalendarDate y m d = true <-> y <> 0 /\ valid_date y m d.
Proof.
  unfold IsValidCalendarDate, valid_date, kMonthsPerYear. fold (days_in_month y m). rewrite !Z.gtb_ltb.
  destruct (Z.eqb_spec y 0), (Z.ltb_spec m 1), (Z.ltb_spec 12 m), (Z.ltb_spec d 1), (Z.ltb_spec (days_in_month y m) d);
    simpl; intuition lia.
Qed.

Lemma in_julian_representable y m d : valid_date y m d -> in_julian_years y m -> representable y m d.
Proof.
  intros Hv [Hlo Hhi]. pose proof (shifted_year y m). pose proof (shifted_month y m (proj1 Hv)) as Hmo.
  destruct Hv as [Hm Hd]. split; [done|]. split; [lia|].
  pose proof (days_in_month_range y m Hm). pose proof (month_days_bounds _ Hmo). unfold jdn.
  assert ((shifted y m).1 <= 5879697 \/ (shifted y m).1 = 5879698 /\ (shifted y m).2 <= 6) as HY.
  { unfold shifted in *. rewrite Z.gtb_ltb in *. destruct (Z.ltb_spec 2 m); simpl in *; lia. }
  destruct HY as [HY|[-> Hmo6]].
  - assert (year_days (shifted y m).1 <= 2147515232) by (unfold year_days; Z.to_euclidean_division_equations; lia). lia.
  - change (year_days 5879698) with 2147515597. assert (month_days (shifted y m).2 <= 183); [|lia].
    unfold month_days. Z.to_euclidean_division_equations. lia.
Qed.

Lemma Build_date y m d : representable y m d -> wraps 32 (BuildJulianDate (wrapu 32 y) m d) = jdn y m d.
Proof.
  intros Hr. rewrite BuildJulianDate_shifted by done. rewrite wraps_wrapu by lia.
  pose proof (representable_bounds _ _ _ Hr) as (_ & _ & _ & Hj). change (2 ^ 31) with 2147483648 in Hj.
  apply wraps_small; [lia|]. sint32.
Qed.

Lemma FromYMD_iff y m d v : FromYMD y m d = Some v <->
  y <> 0 /\ valid_date y m d /\ in_julian_years y m /\ v = jdn y m d.
Proof.
  unfold FromYMD. pose proof (IsValidCalendarDate_iff y m d) as Hc. pose proof (IsValidJulianDate_iff y m d) as Hj.
  destruct (IsValidCalendarDate y m d); simpl; [|by intuition].
  destruct (IsValidJulianDate y m d); simpl; [|by intuition].
  destruct Hc as [Hc _], Hj as [Hj _]. destruct (Hc eq_refl) as [Hy Hv]. specialize (Hj eq_refl).
  rewrite Build_date by by apply in_julian_representable. split.
  - intros [= <-]. done.
  - by intros (_ & _ & _ & ->).
Qed.

(** * Text *)

Definition two_digits (v : Z) : list Z := [ch "0" + v / 10; ch "0" + v mod 10].
Definition padded (v width : Z) : list Z :=
  replicate (Z.to_nat (width - Z.of_nat (length (to_chars v)))) (ch "0") ++ to_chars v.
(** A date as it is printed: at least four digits for the year. *)
Definition iso_text (y m d : Z) : list Z :=
  padded (printed_year y) 4 ++ [ch "-"] ++ two_digits m ++ [ch "-"] ++ two_digits d ++
  (if y <=? 0 then bytes " BC" else []).

(** What has been written, and where writing goes on. *)
Definition text_at (cap : Z) (p : list Z * Z) (l : list Z) : Prop :=
  written p.2 p.1 l /\ Z.of_nat (length p.1) = cap.

Lemma append_text cap s p l : text_at cap p l -> Z.of_nat (length l + length s) <= cap ->
  exists p', append s p = Some p' /\ text_at cap p' (l ++ s).
Proof.
  destruct p as [buf str]. intros [Hw Hc] Hlen. simpl in *. pose proof Hw as [-> _].
  destruct (store_all (Z.of_nat (length l)) s buf l Hw) as (buf' & -> & Hl & Hw'); [lia|].
  eexists. split; [done|]. split; simpl; [done|lia].
Qed.

Lemma number_text cap v p l : text_at cap p l -> 0 <= v < 100 -> Z.of_nat (length l) + 2 <= cap ->
  exists p', NumberToStringWithZeroPad v 2 p = Some p' /\ text_at cap p' (l ++ two_digits v).
Proof.
  intros Hp Hv Hc. unfold NumberToStringWithZeroPad. rewrite wrapu_small by (split; lia).
  rewrite (proj2 (Z.ltb_lt v 100)) by lia. apply append_text; [done|simpl; lia].
Qed.

Lemma to_chars_loop_length fuel : forall v acc, (length (to_chars_loop fuel v acc) <= fuel + length acc)%nat.
Proof.
  induction fuel as [|fuel IH]; intros v acc; simpl; [lia|]. destruct (v <? 10); simpl; [lia|].
  etransitivity; [apply IH|]. simpl. lia.
Qed.

Lemma padded_length v width : (length (padded v width) <= 20 + Z.to_nat width)%nat.
Proof.
  unfold padded. rewrite length_app, length_replicate. pose proof (to_chars_loop_length 20 v []).
  unfold to_chars. change (length (@nil Z)) with 0%nat in *. lia.
Qed.

Lemma padded_text cap v p l : text_at cap p l -> 0 <= v < 2 ^ 32 -> Z.of_nat (length l) + 24 <= cap ->
  exists p', NumberToStringWithZeroPad v 4 p = Some p' /\ text_at cap p' (l ++ padded v 4).
Proof.
  intros Hp Hv Hc. unfold NumberToStringWithZeroPad. rewrite wrapu_small by done.
  rewrite andb_false_r. pose proof (padded_length v 4) as Hl. unfold padded in *.
  rewrite Z.geb_leb. destruct (Z.leb_spec 4 (Z.of_nat (length (to_chars v)))).
  - replace (Z.to_nat (4 - Z.of_nat (length (to_chars v)))) with 0%nat in * by lia.
    apply append_text; [done|]. simpl in *. lia.
  - apply append_text; [done|]. lia.
Qed.

Lemma c_string_text l rest : Forall (fun b => b <> 0) l -> c_string (l ++ 0 :: rest) = l.
Proof.
  induction 1 as [|b l Hb Hl IH]; [done|]. simpl. rewrite (proj2 (Z.eqb_neq b 0)) by done. by rewrite IH.
Qed.

Lemma text_at_c_string cap p l : text_at cap p (l ++ [0]) -> Forall (fun b => b <> 0) l -> c_string p.1 = l.
Proof.
  intros [[_ Hw] _] Hl. rewrite <- (take_drop (length (l ++ [0])) p.1), Hw, <- app_assoc. by apply c_string_text.
Qed.

(** Decimal digits. *)
Definition digit (c : Z) : Prop := ch "0" <= c <= ch "9".

Lemma to_chars_loop_digits fuel : forall v acc, 0 <= v -> Forall digit acc -> Forall digit (to_chars_loop fuel v acc).
Proof.
  induction fuel as [|fuel IH]; intros v acc Hv Hacc; simpl; [done|].
  assert (Forall digit ((ch "0" + v mod 10) :: acc)) as Hc.
  { constructor; [|done]. pose proof (Z.mod_pos_bound v 10 ltac:(lia)). unfold digit.
    change (ch "0") with 48. change (ch "9") with 57. lia. }
  destruct (v <? 10); [done|]. apply IH; [apply Z.div_pos; lia|done].
Qed.

Lemma padded_digits v width : 0 <= v -> Forall digit (padded v width).
Proof.
  intros Hv. unfold padded. apply Forall_app. split; [|by apply to_chars_loop_digits].
  apply Forall_replicate. vm_compute; split; congruence.
Qed.

Lemma two_digits_digits v : 0 <= v < 100 -> Forall digit (two_digits v).
Proof.
  intros Hv. unfold two_digits, digit. change (ch "0") with 48. change (ch "9") with 57.
  repeat constructor; Z.to_euclidean_division_equations; lia.
Qed.

Lemma digits_nonzero l : Forall digit l -> Forall (fun b => b <> 0) l.
Proof. intros Hl. eapply Forall_impl; [done|]. intros b [Hb _]. change (ch "0") with 48 in Hb. lia. Qed.

Lemma iso_text_nonzero y m d : 0 <= printed_year y -> 0 <= m < 100 -> 0 <= d < 100 -> Forall (fun b => b <> 0) (iso_text y m d).
Proof.
  intros Hy Hm Hd. unfold iso_text. rewrite !Forall_app. split_and!.
  - by apply digits_nonzero, padded_digits.
  - by repeat constructor.
  - by apply digits_nonzero, two_digits_digits.
  - by repeat constructor.
  - by apply digits_nonzero, two_digits_digits.
  - destruct (y <=? 0); by repeat constructor.
Qed.

(** The date part of both texts. *)
Lemma date_text cap y m d p : text_at cap p [] -> 0 <= printed_year y < 2 ^ 32 -> 1 <= m <= 12 -> 1 <= d <= 31 -> 40 <= cap ->
  exists p', (p ← NumberToStringWithZeroPad (printed_year y) 4 p;
              p ← append [ch "-"] p;
              p ← NumberToStringWithZeroPad m 2 p;
              p ← append [ch "-"] p;
              NumberToStringWithZeroPad d 2 p) = Some p' /\
    text_at cap p' (padded (printed_year y) 4 ++ [ch "-"] ++ two_digits m ++ [ch "-"] ++ two_digits d).
Proof.
  intros Hp Hy Hm Hd Hcap. pose proof (padded_length (printed_year y) 4) as Hl.
  destruct (padded_text cap (printed_year y) p [] Hp) as (p1 & -> & Hp1); [done|simpl; lia|]. simpl.
  destruct (append_text cap [ch "-"] p1 _ Hp1) as (p2 & -> & Hp2); [simpl in *; lia|]. simpl.
  destruct (number_text cap m p2 _ Hp2) as (p3 & -> & Hp3); [lia|rewrite length_app; simpl in *; lia|]. simpl.
  destruct (append_text cap [ch "-"] p3 _ Hp3) as (p4 & -> & Hp4); [rewrite !length_app; simpl in *; lia|]. simpl.
  destruct (number_text cap d p4 _ Hp4) as (p5 & -> & Hp5); [lia|rewrite !length_app; simpl in *; lia|].
  exists p5. split; [done|]. rewrite <- !app_assoc in Hp5. done.
Qed.
