(* ===== verification/DateTimeTheorems.v ===== *)
(** The properties of dates and timestamps: the calendar, the texts, and the timestamps with the
    last day they can represent. *)
From S2P Require Import Prelude Buffer DateTime DateTimeSpec.

(** * Texts of dates *)

Lemma EncodeDateOnly_ISO y m d buf : 0 <= printed_year y < 2 ^ 32 -> 1 <= m <= 12 -> 1 <= d <= 31 ->
  Z.of_nat (length buf) = kMaxDateTimeLen + 1 ->
  exists buf', EncodeDateOnly y m d ISO (buf, 0) = Some buf' /\ c_string buf' = iso_text y m d.
Proof.
  intros Hy Hm Hd Hbuf. change (kMaxDateTimeLen + 1) with 129 in Hbuf.
  destruct (date_text 129 y m d (buf, 0)) as (p1 & He & Hp1);
    [split; [apply written_nil|done]|done|done|done|lia|].
  pose proof (padded_length (printed_year y) 4) as Hl. change (20 + Z.to_nat 4)%nat with 24%nat in Hl.
  unfold EncodeDateOnly. rewrite He. cbn [mbind option_bind].
  assert (exists p2, (if y <=? 0 then append (bytes " BC") p1 else Some p1) = Some p2 /\ text_at 129 p2 (iso_text y m d))
    as (p2 & -> & Hp2).
  { unfold iso_text. destruct (y <=? 0).
    - destruct (append_text 129 (bytes " BC") p1 _ Hp1) as (p2 & Hp & Hp2).
      { rewrite !length_app. cbn [length two_digits bytes]. lia. }
      exists p2. split; [done|]. by rewrite <- !app_assoc in Hp2.
    - exists p1. split; [done|]. by rewrite app_nil_r. }
  cbn [mbind option_bind]. destruct (append_text 129 [0] p2 _ Hp2) as (p3 & -> & Hp3).
  { unfold iso_text. rewrite !length_app. destruct (y <=? 0); cbn [length two_digits bytes]; lia. }
  cbn [mbind option_bind]. exists p3.1. split; [done|].
  eapply text_at_c_string; [done|]. apply iso_text_nonzero; lia.
Qed.

(** ** Parsing *)

Definition dval (l : list Z) (n : Z) : Z := fold_left (fun n c => wrapu 32 (n * 10 + (c - ch "0"))) l n.

Lemma digit_isdigit c : digit c -> isdigit c = true.
Proof. intros [H1 H2]. unfold isdigit. by rewrite (proj2 (Z.leb_le _ _) H1), (proj2 (Z.leb_le _ _) H2). Qed.

Lemma parse_field_digits l rest : Forall digit l -> forall n, parse_field (l ++ ch "-" :: rest) n = Some (dval l n, rest).
Proof.
  induction 1 as [|c l Hc Hl IH]; intros n; [done|]. cbn [app parse_field]. rewrite digit_isdigit by done. apply IH.
Qed.

Lemma parse_last_digits l : Forall digit l -> forall n, parse_last l n = Some (dval l n).
Proof.
  induction 1 as [|c l Hc Hl IH]; intros n; [done|]. cbn [parse_last]. rewrite digit_isdigit by done. apply IH.
Qed.

Lemma parse_last_other l c rest : Forall digit l -> isdigit c = false -> forall n, parse_last (l ++ c :: rest) n = None.
Proof.
  intros Hl Hc. induction Hl as [|x l Hx Hl IH]; intros n; cbn [app parse_last]; [by rewrite Hc|].
  rewrite digit_isdigit by done. apply IH.
Qed.

Lemma dval_to_chars_loop fuel : forall v acc, 0 <= v < 10 ^ Z.of_nat (S fuel) -> v < 2 ^ 32 ->
  dval (to_chars_loop (S fuel) v acc) 0 = dval acc v.
Proof.
  assert (forall v acc, 0 <= v -> v < 2 ^ 32 -> dval ((ch "0" + v mod 10) :: acc) (v / 10) = dval acc v) as Hd.
  { intros v acc Hv Hv'. unfold dval. cbn [fold_left]. f_equal.
    replace (v / 10 * 10 + (ch "0" + v mod 10 - ch "0")) with v by (pose proof (Z.div_mod v 10 ltac:(lia)); lia).
    apply wrapu_small. by split. }
  induction fuel as [|fuel IH]; intros v acc Hv Hv'.
  - cbn [to_chars_loop]. rewrite (proj2 (Z.ltb_lt v 10)) by lia. rewrite <- (Hd v acc) by lia.
    by rewrite Z.div_small by lia.
  - change (to_chars_loop (S (S fuel)) v acc) with
      (if v <? 10 then (ch "0" + v mod 10) :: acc else to_chars_loop (S fuel) (v / 10) ((ch "0" + v mod 10) :: acc)).
    destruct (Z.ltb_spec v 10).
    + rewrite <- (Hd v acc) by lia. by rewrite Z.div_small by lia.
    + rewrite IH.
      * apply Hd; lia.
      * replace (Z.of_nat (S (S fuel))) with (1 + Z.of_nat (S fuel)) in Hv by lia.
        rewrite Z.pow_add_r in Hv by lia. split; [apply Z.div_pos; lia|]. apply Z.div_lt_upper_bound; lia.
      * apply Z.div_lt_upper_bound; lia.
Qed.

Lemma dval_padded v width : 0 <= v < 2 ^ 32 -> dval (padded v width) 0 = v.
Proof.
  intros Hv. unfold padded, dval. rewrite fold_left_app.
  assert (forall k, fold_left (fun n c => wrapu 32 (n * 10 + (c - ch "0"))) (replicate k (ch "0")) 0 = 0) as ->
    by (induction k as [|k IH]; [done|exact IH]).
  apply (dval_to_chars_loop 19); [|lia]. split; [lia|]. change (10 ^ Z.of_nat 20) with 100000000000000000000. lia.
Qed.

Lemma dval_two_digits v : 0 <= v < 100 -> dval (two_digits v) 0 = v.
Proof.
  intros Hv. unfold dval, two_digits. cbn [fold_left]. change (ch "0") with 48.
  assert (0 <= v / 10 < 10) by (split; [apply Z.div_pos; lia|apply Z.div_lt_upper_bound; lia]).
  pose proof (Z.mod_pos_bound v 10 ltac:(lia)). pose proof (Z.div_mod v 10 ltac:(lia)).
  rewrite !wrapu_small by (split; lia || (rewrite wrapu_small by (split; lia); lia)). lia.
Qed.

(** No blank at either end. *)
Lemma trim_text c l c' : isspace c = false -> isspace c' = false -> trim (c :: l ++ [c']) = c :: l ++ [c'].
Proof.
  intros Hc Hc'. unfold trim. cbn [trim_left]. rewrite Hc.
  change (c :: l ++ [c']) with ((c :: l) ++ [c']). rewrite rev_app_distr. cbn [rev app trim_left]. rewrite Hc'.
  rewrite <- (rev_involutive ((rev l ++ [c]) )) at 1. change (rev l ++ [c]) with (rev (c :: l)).
  rewrite rev_involutive. change (c' :: rev (c :: l)) with (rev [c'] ++ rev (c :: l)).
  by rewrite <- rev_app_distr, rev_involutive.
Qed.

Lemma digit_not_space c : digit c -> isspace c = false.
Proof.
  intros [H1 H2]. change (ch "0") with 48 in H1. change (ch "9") with 57 in H2. unfold isspace.
  rewrite (proj2 (Z.eqb_neq c 32)), (proj2 (Z.leb_gt c 13)) by lia. by rewrite andb_false_r.
Qed.

Lemma iso_text_parses y m d : 0 < y < 2 ^ 31 -> 1 <= m <= 12 -> 1 <= d <= 31 ->
  Date_FromString (iso_text y m d) = FromYMD y m d.
Proof.
  intros Hy Hm Hd. unfold Date_FromString, iso_text, printed_year. rewrite Z.gtb_ltb, (proj2 (Z.ltb_lt 0 y)) by lia.
  rewrite (proj2 (Z.leb_gt y 0)), app_nil_r by lia.
  pose proof (padded_digits y 4 ltac:(lia)) as Hpy.
  pose proof (two_digits_digits m ltac:(lia)) as Hpm. pose proof (two_digits_digits d ltac:(lia)) as Hpd.
  assert (trim (padded y 4 ++ [ch "-"] ++ two_digits m ++ [ch "-"] ++ two_digits d) =
    padded y 4 ++ [ch "-"] ++ two_digits m ++ [ch "-"] ++ two_digits d) as ->.
  { destruct (padded y 4) as [|c l] eqn:Hp.
    - pose proof (dval_padded y 4 ltac:(lia)) as Hv. rewrite Hp in Hv. change (0 = y) in Hv. lia.
    - pose proof (Forall_inv Hpy) as Hc.
      assert (exists b x, two_digits d = [b; x] /\ digit x) as (b & x & -> & Hx)
        by (eexists _, _; split; [done|]; exact (Forall_inv (Forall_inv_tail Hpd))).
      assert ((c :: l) ++ [ch "-"] ++ two_digits m ++ [ch "-"] ++ [b; x] =
        c :: (l ++ [ch "-"] ++ two_digits m ++ [ch "-"] ++ [b]) ++ [x]) as ->.
      { cbn [app]. f_equal. rewrite <- !app_assoc. done. }
      apply trim_text; by apply digit_not_space. }
  change ([ch "-"] ++ two_digits m ++ [ch "-"] ++ two_digits d) with (ch "-" :: two_digits m ++ ch "-" :: two_digits d).
  rewrite parse_field_digits by done. cbn [mbind option_bind].
  rewrite parse_field_digits by done. cbn [mbind option_bind]. rewrite parse_last_digits by done. cbn [mbind option_bind].
  rewrite dval_padded, !dval_two_digits by lia.
  rewrite !wraps_small by (lia || (unfold is_sint; change (2 ^ (32 - 1)) with (2 ^ 31); lia)). done.
Qed.

(** A text with the suffix of the years before Christ is not read back. *)
Lemma iso_text_bc y m d : - 2 ^ 30 < y <= 0 -> 1 <= m <= 12 -> 1 <= d <= 31 -> Date_FromString (iso_text y m d) = None.
Proof.
  intros Hy Hm Hd. unfold Date_FromString, iso_text, printed_year. rewrite Z.gtb_ltb, (proj2 (Z.ltb_ge 0 y)) by lia.
  rewrite (proj2 (Z.leb_le y 0)) by lia.
  rewrite wraps_small by (lia || (unfold is_sint; change (2 ^ (32 - 1)) with (2 ^ 31); lia)).
  pose proof (padded_digits (- (y - 1)) 4 ltac:(lia)) as Hpy.
  pose proof (two_digits_digits m ltac:(lia)) as Hpm. pose proof (two_digits_digits d ltac:(lia)) as Hpd.
  assert (trim (padded (- (y - 1)) 4 ++ [ch "-"] ++ two_digits m ++ [ch "-"] ++ two_digits d ++ bytes " BC") =
    padded (- (y - 1)) 4 ++ [ch "-"] ++ two_digits m ++ [ch "-"] ++ two_digits d ++ bytes " BC") as ->.
  { destruct (padded (- (y - 1)) 4) as [|c l] eqn:Hp.
    - pose proof (dval_padded (- (y - 1)) 4 ltac:(lia)) as Hv. rewrite Hp in Hv. change (0 = - (y - 1)) in Hv. lia.
    - pose proof (Forall_inv Hpy) as Hc.
      assert ((c :: l) ++ [ch "-"] ++ two_digits m ++ [ch "-"] ++ two_digits d ++ bytes " BC" =
        c :: (l ++ [ch "-"] ++ two_digits m ++ [ch "-"] ++ two_digits d ++ bytes " B") ++ [ch "C"]) as ->.
      { cbn [app]. f_equal. rewrite <- !app_assoc. done. }
      apply trim_text; [by apply digit_not_space|done]. }
  change ([ch "-"] ++ two_digits m ++ [ch "-"] ++ two_digits d ++ bytes " BC") with
    (ch "-" :: two_digits m ++ ch "-" :: two_digits d ++ ch " " :: bytes "BC").
  rewrite parse_field_digits by done. cbn [mbind option_bind].
  rewrite parse_field_digits by done. cbn [mbind option_bind]. by rewrite parse_last_other.
Qed.

(** * Times *)

Ltac constants :=
  change kMicroSecondsPerDay with 86400000000 in *; change kMicroSecondsPerHour with 3600000000 in *;
  change kMicroSecondsPerMinute with 60000000 in *; change kMicroSecondsPerSecond with 1000000 in *;
  change kMinutesPerHour with 60 in *; change kSecondsPerMinute with 60 in *; change kHoursPerDay with 24 in *.

(** The last day that starts within 63 bits of microseconds. *)
Definition last_day : Z := 106751991.

Definition in_time (h mi s : Z) : Prop := 0 <= h < 24 /\ 0 <= mi < 60 /\ 0 <= s <= 60 \/ h = 24 /\ mi = 0 /\ s = 0.

Lemma SplitTime_BuildTime h mi s f : 0 <= h < 24 -> 0 <= mi < 60 -> 0 <= s < 60 -> 0 <= f < 1000000 ->
  SplitTime (BuildTime h mi s + f) = (h, mi, s, f).
Proof.
  intros Hh Hmi Hs Hf. unfold SplitTime, BuildTime. constants.
  assert (forall z, -1000000000 <= z < 1000000000 -> wraps 32 z = z) as Hw.
  { intros z Hz. apply wraps_small; [lia|]. unfold is_sint. change (2 ^ (32 - 1)) with 2147483648. lia. }
  set (t := (h * 60 + mi) * 60 * 1000000 + s * 1000000 + f).
  assert (Z.quot t 3600000000 = h) as ->.
  { rewrite Z.quot_div_nonneg by (subst t; lia). symmetry. apply (Z.div_unique_pos _ _ _ (mi * 60000000 + s * 1000000 + f)); subst t; lia. }
  rewrite (Hw h) by lia.
  assert (Z.quot (t - h * 3600000000) 60000000 = mi) as ->.
  { rewrite Z.quot_div_nonneg by (subst t; lia). symmetry. apply (Z.div_unique_pos _ _ _ (s * 1000000 + f)); subst t; lia. }
  rewrite (Hw mi) by lia.
  assert (Z.quot (t - h * 3600000000 - mi * 60000000) 1000000 = s) as ->.
  { rewrite Z.quot_div_nonneg by (subst t; lia). symmetry. apply (Z.div_unique_pos _ _ _ f); subst t; lia. }
  rewrite (Hw s), Hw by (subst t; lia). f_equal. subst t. lia.
Qed.

Lemma BuildTime_range h mi s : in_time h mi s -> 0 <= BuildTime h mi s <= kMicroSecondsPerDay.
Proof. intros Ht. unfold in_time, BuildTime in *. constants. lia. Qed.

Lemma StripTime_day date t : 0 <= date -> 0 <= t < kMicroSecondsPerDay -> date * kMicroSecondsPerDay + t < 2 ^ 63 ->
  StripTime (wraps 64 (date * kMicroSecondsPerDay + t)) = (date, t).
Proof.
  intros Hd Ht Hmax. unfold StripTime. constants.
  rewrite wraps_small by (lia || (unfold is_sint; change (2 ^ (64 - 1)) with (2 ^ 63); lia)).
  rewrite Z.quot_div_nonneg by lia. rewrite (Z.div_add_l date), (Z.div_small t), Z.add_0_r by lia. f_equal. lia.
Qed.

(** The overflow check compares the day only. *)
Lemma overflow_check date t : 0 <= date < 2 ^ 32 -> 0 <= t <= kMicroSecondsPerDay ->
  (Z.quot (wraps 64 (wraps 64 (date * kMicroSecondsPerDay + t) - t)) kMicroSecondsPerDay =? date) = (date <=? last_day).
Proof.
  intros Hd Ht. constants. unfold last_day.
  assert (wraps 64 (wraps 64 (date * 86400000000 + t) - t) = wraps 64 (date * 86400000000)) as ->.
  { unfold wraps. change (2 ^ (64 - 1)) with (2 ^ 63). f_equal.
    replace ((date * 86400000000 + t + 2 ^ 63) mod 2 ^ 64 - 2 ^ 63 - t + 2 ^ 63) with
      ((date * 86400000000 + t + 2 ^ 63) mod 2 ^ 64 - t) by lia.
    rewrite Zminus_mod_idemp_l. f_equal. lia. }
  destruct (Z.leb_spec date 106751991) as [Hle|Hgt].
  - rewrite wraps_small by (lia || (unfold is_sint; change (2 ^ (64 - 1)) with (2 ^ 63); lia)).
    rewrite Z.quot_mul by lia. apply Z.eqb_refl.
  - apply Z.eqb_neq. pose proof (wraps_range 64 (date * 86400000000) ltac:(lia)) as Hr. unfold is_sint in Hr.
    change (2 ^ (64 - 1)) with 9223372036854775808 in Hr. set (x := wraps 64 _) in *.
    Z.to_euclidean_division_equations. lia.
Qed.

Lemma FromYMDHMS_iff y m d h mi s v : FromYMDHMS y m d h mi s = Some v <->
  (y <> 0 /\ valid_date y m d /\ in_julian_years y m) /\ in_time h mi s /\ 0 <= jdn y m d <= last_day /\
  v = jdn y m d * kMicroSecondsPerDay + BuildTime h mi s.
Proof.
  unfold FromYMDHMS. pose proof (IsValidCalendarDate_iff y m d) as Hc. pose proof (IsValidJulianDate_iff y m d) as Hj.
  destruct (IsValidCalendarDate y m d); simpl; [|by intuition].
  destruct (IsValidJulianDate y m d); simpl; [|by intuition].
  destruct Hc as [Hc _], Hj as [Hj _]. destruct (Hc eq_refl) as [Hy Hv]. specialize (Hj eq_refl). clear Hc.
  pose proof (in_julian_representable _ _ _ Hv Hj) as Hr. rewrite BuildJulianDate_shifted by done.
  pose proof (representable_bounds _ _ _ Hr) as (_ & _ & _ & Hjd).
  destruct (_ || _ || _ || _ || _ || _ || _) eqn:Ht.
  { split; [done|]. intros (_ & Htime & _). exfalso. rewrite !Z.gtb_ltb in Ht. unfold in_time in Htime. constants.
    rewrite !orb_true_iff, !andb_true_iff, !orb_true_iff, !Z.ltb_lt, Z.eqb_eq in Ht. lia. }
  assert (in_time h mi s) as Htime.
  { rewrite !Z.gtb_ltb in Ht. unfold in_time. constants. rewrite !orb_false_iff, !andb_false_iff, !orb_false_iff, !Z.ltb_ge, Z.eqb_neq in Ht. lia. }
  pose proof (BuildTime_range _ _ _ Htime) as Hbt.
  assert (0 <= wrapu 32 (jdn y m d) < 2 ^ 32) as Hw by (apply wrapu_range; lia).
  rewrite overflow_check by done. destruct (Z.leb_spec (wrapu 32 (jdn y m d)) last_day) as [Hle|Hgt]; simpl.
  - assert (wrapu 32 (jdn y m d) = jdn y m d /\ 0 <= jdn y m d) as [Hwj H0].
    { destruct (Z.lt_ge_cases (jdn y m d) 0) as [Hneg|]; [exfalso|split; [apply wrapu_small; split; lia|done]].
      unfold wrapu, last_day in *. rewrite <- (Z.mod_add _ 1 (2 ^ 32)), Z.mod_small in Hle by lia. lia. }
    rewrite Hwj in *. rewrite wrapu_wraps by lia. unfold last_day in *. constants.
    rewrite wrapu_small by (split; lia). split; [intros [= <-]; done|]. by intros (_ & _ & _ & ->).
  - split; [done|]. intros (_ & _ & Hrange & _). rewrite wrapu_small in Hgt by (unfold last_day in *; split; lia). lia.
Qed.

(** * The theorems *)

(** C30: Building the Julian day of a date and splitting it gives the date back, for every valid date whose day number fits 32 bits, and splitting a day and building it again gives the day, for every day from the 1st of March of 4801 BC on. *)
Theorem calendar_roundtrip :
  (forall y m d, representable y m d ->
     SplitJulianDate (wraps 32 (BuildJulianDate (wrapu 32 y) m d)) = (y, m, d)) /\
  (forall jd, -32044 <= jd < 2 ^ 31 -> exists y m d, SplitJulianDate jd = (y, m, d) /\ representable y m d /\
     wraps 32 (BuildJulianDate (wrapu 32 y) m d) = jd).
Proof.
  split.
  - intros y m d Hr. rewrite Build_date by done. by apply Split_of_jdn.
  - intros jd Hjd. destruct (Split_surjective jd Hjd) as (y & m & d & Hs & Hr & Hj).
    exists y, m, d. split_and!; [done|done|]. by rewrite Build_date.
Qed.

(** The 1st of January 2000 is day 2451545, the day after a date has the next number, and earlier dates have smaller numbers: Julian days count the days of the Gregorian calendar. *)
Theorem julian_days_count_the_days :
  BuildJulianDate 2000 1 1 = 2451545 /\
  (forall y m d y' m' d', next_day (y, m, d) = (y', m', d') -> representable y m d -> representable y' m' d' ->
     wraps 32 (BuildJulianDate (wrapu 32 y') m' d') = wraps 32 (BuildJulianDate (wrapu 32 y) m d) + 1) /\
  (forall y m d y' m' d', representable y m d -> representable y' m' d' ->
     wraps 32 (BuildJulianDate (wrapu 32 y) m d) < wraps 32 (BuildJulianDate (wrapu 32 y') m' d') <->
     date_lt (y, m, d) (y', m', d')).
Proof.
  split_and!; [done| |].
  - intros y m d y' m' d' Hn Hr Hr'. rewrite !Build_date by done.
    pose proof (jdn_next_day y m d (proj1 Hr)) as Hj. by rewrite Hn in Hj.
  - intros y m d y' m' d' Hr Hr'. rewrite !Build_date by done. by apply jdn_lt_iff; [apply Hr|apply Hr'].
Qed.

(** A date is made from a year, a month and a day exactly when they are a date of the calendar in the Julian range with a year other than 0, and its components are read back. *)
Theorem dates_from_components y m d :
  (forall v, FromYMD y m d = Some v -> Date_ExtractComponents v = (y, m, d) /\ Date_ExtractYear v = y /\
     Date_ExtractMonth v = m /\ Date_ExtractDay v = d) /\
  ((exists v, FromYMD y m d = Some v) <-> y <> 0 /\ valid_date y m d /\ in_julian_years y m).
Proof.
  split.
  - intros v (_ & Hv & Hj & ->)%FromYMD_iff.
    unfold Date_ExtractComponents, Date_ExtractYear, Date_ExtractMonth, Date_ExtractDay.
    by rewrite Split_of_jdn by by apply in_julian_representable.
  - split.
    + intros [v (Hy & Hv & Hj & _)%FromYMD_iff]. done.
    + intros (Hy & Hv & Hj). exists (jdn y m d). by apply FromYMD_iff.
Qed.

(** C40: A date prints as its ISO text without leaving its buffer, whatever the buffer holds, and the text reads back as the same date; the text of a date before Christ is refused. *)
Theorem date_text_roundtrip y m d v buf : FromYMD y m d = Some v ->
  Z.of_nat (length buf) = kMaxDateTimeLen + 1 ->
  Date_ToString v buf = Some (iso_text y m d) /\
  Date_FromString (iso_text y m d) = if 0 <? y then Some v else None.
Proof.
  intros Hf Hbuf. pose proof Hf as (_ & Hv & Hj & ->)%FromYMD_iff. pose proof Hv as [Hm Hd].
  pose proof (days_in_month_range y m Hm). unfold in_julian_years in Hj.
  unfold Date_ToString. rewrite Split_of_jdn by by apply in_julian_representable.
  assert (0 <= printed_year y < 2 ^ 32) as Hp.
  { unfold printed_year. rewrite Z.gtb_ltb. destruct (Z.ltb_spec 0 y); [lia|].
    rewrite wraps_small; [lia|lia|]. unfold is_sint. change (2 ^ (32 - 1)) with (2 ^ 31). lia. }
  destruct (EncodeDateOnly_ISO y m d buf Hp) as (buf' & -> & Hs); [lia|lia|done|].
  cbn [mbind option_bind]. rewrite Hs. split; [done|]. destruct (Z.ltb_spec 0 y).
  - by rewrite iso_text_parses by lia.
  - apply iso_text_bc; lia.
Qed.

(** C31: A timestamp is made exactly from a date and a time of day of the range, up to the last day a 64-bit microsecond count reaches, and is their microseconds.  The components, the day of the week and the date are read back if the hour is below 24, the second below 60 and the count below 2^63; hour 24 and second 60
    are accepted, too, but read back as what they amount to. *)
Theorem timestamps_from_components y m d h mi s :
  (forall v, FromYMDHMS y m d h mi s = Some v <->
     (y <> 0 /\ valid_date y m d /\ in_julian_years y m) /\ in_time h mi s /\ 0 <= jdn y m d <= last_day /\
     v = jdn y m d * kMicroSecondsPerDay + BuildTime h mi s) /\
  (forall v, FromYMDHMS y m d h mi s = Some v -> h < 24 -> s < 60 -> v < 2 ^ 63 ->
     (ExtractYear v, ExtractMonth v, ExtractDay v) = (y, m, d) /\
     (ExtractHour v, ExtractMinute v, ExtractSecond v) = (h, mi, s) /\
     ExtractDayOfWeek v = (jdn y m d + 1) mod 7 /\
     FromYMD y m d = Some (Timestamp_ConvertToDate v)).
Proof.
  split; [intros v; apply FromYMDHMS_iff|].
  intros v ((Hy & Hv & Hj) & Htime & Hrange & ->)%FromYMDHMS_iff Hh Hs Hmax.
  pose proof (in_julian_representable _ _ _ Hv Hj) as Hr.
  assert (0 <= BuildTime h mi s < kMicroSecondsPerDay) as Ht by (unfold in_time, BuildTime in *; constants; lia).
  assert (StripTime (wraps 64 (jdn y m d * kMicroSecondsPerDay + BuildTime h mi s)) = (jdn y m d, BuildTime h mi s)) as Hstrip
    by (apply StripTime_day; done || lia).
  assert (wraps 32 (jdn y m d) = jdn y m d) as Hw.
  { apply wraps_small; [lia|]. unfold is_sint, last_day in *. change (2 ^ (32 - 1)) with (2 ^ 31). lia. }
  unfold ExtractYear, ExtractMonth, ExtractDay, ExtractHour, ExtractMinute, ExtractSecond, ExtractDayOfWeek, ts_date, ts_time.
  rewrite Hstrip. cbn [fst snd]. rewrite Hw, Split_of_jdn by done.
  pose proof (SplitTime_BuildTime h mi s 0) as Hst. rewrite Z.add_0_r in Hst.
  rewrite Hst by (unfold in_time in Htime; lia). split_and!; [done|done| |].
  - rewrite Z.rem_mod_nonneg by lia. pose proof (Z.mod_pos_bound (jdn y m d + 1) 7 ltac:(lia)).
    by rewrite (proj2 (Z.ltb_ge _ 0)) by lia.
  - apply FromYMD_iff. split_and!; try done. unfold Timestamp_ConvertToDate. constants.
    rewrite Z.div_add_l, (Z.div_small (BuildTime h mi s)), Z.add_0_r by lia. done.
Qed.

(** On the last day the check passes although the result does not fit. *)
Theorem last_day_wraps :
  (exists v, FromYMDHMS 287564 12 3 12 0 0 = Some v /\ ExtractYear v = 11462231 /\ ExtractHour v = -20).
Proof. exists 9223372065600000000. vm_compute. done. Qed.

(** The fraction of a second is written one place too far right: the first of its places keeps
    what the buffer held, and the last digit is left out. *)
Example fraction_misplaced : exists v, FromYMDHMS 2000 1 1 12 34 56 = Some v /\
  Timestamp_ToString (v + 123456) (replicate 129 (ch "?")) = Some (bytes "2000-01-01 12:34:56.?12345").
Proof. exists 211813533296000000. vm_compute. done. Qed.

(** * Witnesses *)

Lemma sample_date : FromYMD 1999 12 31 = Some 2451544.
Proof. reflexivity. Defined.

Lemma date_text_roundtrip_witness :
  Date_ToString 2451544 (replicate 129 7) = Some (iso_text 1999 12 31) /\
  Date_FromString (iso_text 1999 12 31) = Some 2451544.
Proof. exact (date_text_roundtrip 1999 12 31 2451544 (replicate 129 7) sample_date eq_refl). Defined.

Lemma sample_representable : representable 1999 12 31 /\ representable 2000 1 1.
Proof. split; (split; [split; vm_compute; split; congruence|split; [vm_compute; congruence|vm_compute; reflexivity]]). Qed.

Lemma calendar_roundtrip_witness : SplitJulianDate (wraps 32 (BuildJulianDate (wrapu 32 1999) 12 31)) = (1999, 12, 31).
Proof. exact (proj1 calendar_roundtrip 1999 12 31 (proj1 sample_representable)). Defined.

Lemma julian_days_count_the_days_witness :
  wraps 32 (BuildJulianDate (wrapu 32 2000) 1 1) = wraps 32 (BuildJulianDate (wrapu 32 1999) 12 31) + 1.
Proof.
  exact (proj1 (proj2 julian_days_count_the_days) 1999 12 31 2000 1 1 eq_refl
    (proj1 sample_representable) (proj2 sample_representable)).
Defined.

Lemma dates_from_components_witness : Date_ExtractComponents 2451544 = (1999, 12, 31).
Proof. exact (proj1 (proj1 (dates_from_components 1999 12 31) 2451544 sample_date)). Defined.

Lemma timestamps_from_components_witness :
  (ExtractYear 211813533296000000, ExtractMonth 211813533296000000, ExtractDay 211813533296000000) = (2000, 1, 1).
Proof.
  refine (proj1 (proj2 (timestamps_from_components 2000 1 1 12 34 56) 211813533296000000 _ _ _ _));
    [vm_compute; reflexivity|lia|lia|lia].
Defined.
