(* ===== verification/Bytecodes.v ===== *)
(** The bytecodes of the virtual machine and their operands: [src/include/vm/bytecodes.h],
    [src/vm/bytecodes.cpp], [src/include/vm/bytecode_operands.h], [src/include/vm/bytecode_traits.h].

    A bytecode is its number; the master list gives the name and the operand types of each, with
    the macros that make one bytecode per primitive type.  A query about a bytecode or an operand
    that does not exist is [None]. *)
From S2P Require Import Prelude.

Local Open Scope string_scope.
Local Open Scope list_scope.
Local Open Scope Z_scope.

(** * Operands *)

Inductive OperandSize : Set := NoSize | Byte | Short | Int | Long.
Definition operand_bytes (s : OperandSize) : Z :=
  match s with NoSize => 0 | Byte => 1 | Short => 2 | Int => 4 | Long => 8 end.

Inductive OperandType : Set :=
  NoOperand | Imm1 | Imm2 | Imm4 | Imm8 | Imm4F | Imm8F | UImm2 | UImm4 | JumpOffset | Local | StaticLocal |
  LocalCount | FunctionId.

#[export] Instance OperandType_eq_dec : EqDecision OperandType.
Proof. solve_decision. Defined.

(** The traits: whether the operand is signed, and its size. *)
Definition kIsSigned (t : OperandType) : bool :=
  match t with Imm1 | Imm2 | Imm4 | Imm8 | Imm4F | Imm8F | JumpOffset => true | _ => false end.
Definition kOperandSize (t : OperandType) : OperandSize :=
  match t with
  | NoOperand => NoSize
  | Imm1 => Byte
  | Imm2 | UImm2 | LocalCount | FunctionId => Short
  | Imm4 | Imm4F | UImm4 | JumpOffset | Local | StaticLocal => Int
  | Imm8 | Imm8F => Long
  end.
Definition kSize (t : OperandType) : Z := operand_bytes (kOperandSize t).

Definition IsSignedIntegerImmediate (t : OperandType) : bool :=
  match t with Imm1 | Imm2 | Imm4 | Imm8 => true | _ => false end.
Definition IsUnsignedIntegerImmediate (t : OperandType) : bool :=
  match t with UImm2 | UImm4 => true | _ => false end.
Definition IsFloatImmediate (t : OperandType) : bool := match t with Imm4F | Imm8F => true | _ => false end.
Definition IsLocal (t : OperandType) : bool := match t with Local => true | _ => false end.
Definition IsStaticLocal (t : OperandType) : bool := match t with StaticLocal => true | _ => false end.
Definition IsLocalCount (t : OperandType) : bool := match t with LocalCount => true | _ => false end.

(** * The primitive types *)

Definition FOR_EACH_SIGNED_INT_TYPE : list string := ["int8_t"; "int16_t"; "int32_t"; "int64_t"].
Definition FOR_EACH_UNSIGNED_INT_TYPE : list string := ["uint8_t"; "uint16_t"; "uint32_t"; "uint64_t"].
Definition INT_TYPES : list string := FOR_EACH_SIGNED_INT_TYPE ++ FOR_EACH_UNSIGNED_INT_TYPE.
Definition FLOAT_TYPES : list string := ["float"; "double"].
Definition BOOL_TYPES : list string := ["bool"].
Definition ALL_NUMERIC_TYPES : list string := INT_TYPES ++ FLOAT_TYPES.
Definition ALL_TYPES : list string := BOOL_TYPES ++ INT_TYPES ++ FLOAT_TYPES.

(** The name of an operation at a type, and the bytecodes it has. *)
Definition typed (op t : string) : string := op +:+ "_" +:+ t.
Definition create_for (types : list string) (op : string) (operands : list OperandType)
  : list (string * list OperandType) := map (fun t => (typed op t, operands)) types.
Definition create_for_all_type_pairs (op : string) (operands : list OperandType)
  : list (string * list OperandType) :=
  flat_map (fun t => map (fun t' => (typed (typed op t) t', operands)) ALL_TYPES) ALL_TYPES.

(** * The master list *)

(** Primitive operations. *)
Definition primitive_bytecodes : list (string * list OperandType) :=
  create_for ALL_NUMERIC_TYPES "Neg" [Local; Local] ++
  create_for ALL_NUMERIC_TYPES "Add" [Local; Local; Local] ++
  create_for ALL_NUMERIC_TYPES "Sub" [Local; Local; Local] ++
  create_for ALL_NUMERIC_TYPES "Mul" [Local; Local; Local] ++
  create_for ALL_NUMERIC_TYPES "Div" [Local; Local; Local] ++
  create_for ALL_NUMERIC_TYPES "Rem" [Local; Local; Local] ++
  create_for INT_TYPES "BitAnd" [Local; Local; Local] ++
  create_for INT_TYPES "BitOr" [Local; Local; Local] ++
  create_for INT_TYPES "BitXor" [Local; Local; Local] ++
  create_for INT_TYPES "BitNeg" [Local; Local] ++
  create_for INT_TYPES "BitShl" [Local; Local; Local] ++
  create_for INT_TYPES "BitShr" [Local; Local; Local] ++
  create_for FOR_EACH_UNSIGNED_INT_TYPE "BitCtlz" [Local; Local] ++
  create_for FOR_EACH_UNSIGNED_INT_TYPE "BitCttz" [Local; Local] ++
  create_for ALL_TYPES "GreaterThan" [Local; Local; Local] ++
  create_for ALL_TYPES "GreaterThanEqual" [Local; Local; Local] ++
  create_for ALL_TYPES "Equal" [Local; Local; Local] ++
  create_for ALL_TYPES "LessThan" [Local; Local; Local] ++
  create_for ALL_TYPES "LessThanEqual" [Local; Local; Local] ++
  create_for ALL_TYPES "NotEqual" [Local; Local; Local] ++
  create_for_all_type_pairs "Cast" [Local; Local].

(** Boolean compliment. *)
Definition boolean_complement_bytecodes : list (string * list OperandType) :=
  [("Not", [Local; Local])].

(** Branching. *)
Definition branching_bytecodes : list (string * list OperandType) :=
  [("Jump", [JumpOffset]);
   ("JumpIfTrue", [Local; JumpOffset]);
   ("JumpIfFalse", [Local; JumpOffset])].

(** Memory/pointer operations. *)
Definition memory_bytecodes : list (string * list OperandType) :=
  [("IsNullPtr", [Local; Local]);
   ("IsNotNullPtr", [Local; Local]);
   ("Deref1", [Local; Local]);
   ("Deref2", [Local; Local]);
   ("Deref4", [Local; Local]);
   ("Deref8", [Local; Local]);
   ("DerefN", [Local; Local; UImm4]);
   ("Assign1", [Local; Local]);
   ("Assign2", [Local; Local]);
   ("Assign4", [Local; Local]);
   ("Assign8", [Local; Local]);
   ("AssignN", [Local; Local; UImm4]);
   ("AssignImm1", [Local; Imm1]);
   ("AssignImm2", [Local; Imm2]);
   ("AssignImm4", [Local; Imm4]);
   ("AssignImm8", [Local; Imm8]);
   ("AssignImm4F", [Local; Imm4F]);
   ("AssignImm8F", [Local; Imm8F]);
   ("Lea", [Local; Local; Imm4]);
   ("LeaScaled", [Local; Local; Local; Imm4; Imm4])].

(** Function calls. *)
Definition calls_bytecodes : list (string * list OperandType) :=
  [("Call", [FunctionId; LocalCount]);
   ("Return", [])].

(** Execution Context. *)
Definition exec_context_bytecodes : list (string * list OperandType) :=
  [("ExecutionContextGetMemoryPool", [Local; Local]);
   ("ExecutionContextGetTLS", [Local; Local])].

(** Thread State Container. *)
Definition thread_state_bytecodes : list (string * list OperandType) :=
  [("ThreadStateContainerIterate", [Local; Local; FunctionId]);
   ("ThreadStateContainerAccessCurrentThreadState", [Local; Local]);
   ("ThreadStateContainerReset", [Local; Local; FunctionId; FunctionId; Local]);
   ("ThreadStateContainerClear", [Local])].

(** Table Vector Iterator. *)
Definition table_iterator_bytecodes : list (string * list OperandType) :=
  [("TableVectorIteratorInit", [Local; UImm2]);
   ("TableVectorIteratorPerformInit", [Local]);
   ("TableVectorIteratorNext", [Local; Local]);
   ("TableVectorIteratorFree", [Local]);
   ("TableVectorIteratorGetVPI", [Local; Local]);
   ("ParallelScanTable", [UImm2; Local; Local; FunctionId])].

(** Vector Projection Iterator (VPI). *)
Definition vpi_bytecodes : list (string * list OperandType) :=
  [("VPIInit", [Local; Local]);
   ("VPIInitWithList", [Local; Local; Local]);
   ("VPIFree", [Local]);
   ("VPIIsFiltered", [Local; Local]);
   ("VPIGetSelectedRowCount", [Local; Local]);
   ("VPIGetVectorProjection", [Local; Local]);
   ("VPIHasNext", [Local; Local]);
   ("VPIAdvance", [Local]);
   ("VPISetPosition", [Local; Local]);
   ("VPIMatch", [Local; Local]);
   ("VPIReset", [Local]);
   ("VPIGetBool", [Local; Local; UImm4]);
   ("VPIGetTinyInt", [Local; Local; UImm4]);
   ("VPIGetSmallInt", [Local; Local; UImm4]);
   ("VPIGetInteger", [Local; Local; UImm4]);
   ("VPIGetBigInt", [Local; Local; UImm4]);
   ("VPIGetReal", [Local; Local; UImm4]);
   ("VPIGetDouble", [Local; Local; UImm4]);
   ("VPIGetDecimal", [Local; Local; UImm4]);
   ("VPIGetDate", [Local; Local; UImm4]);
   ("VPIGetString", [Local; Local; UImm4]);
   ("VPIGetPointer", [Local; Local; UImm4]);
   ("VPISetBool", [Local; Local; UImm4]);
   ("VPISetTinyInt", [Local; Local; UImm4]);
   ("VPISetSmallInt", [Local; Local; UImm4]);
   ("VPISetInteger", [Local; Local; UImm4]);
   ("VPISetBigInt", [Local; Local; UImm4]);
   ("VPISetReal", [Local; Local; UImm4]);
   ("VPISetDouble", [Local; Local; UImm4]);
   ("VPISetDecimal", [Local; Local; UImm4]);
   ("VPISetDate", [Local; Local; UImm4]);
   ("VPISetString", [Local; Local; UImm4])].

(** Filter Manager. *)
Definition filter_manager_bytecodes : list (string * list OperandType) :=
  [("FilterManagerInit", [Local]);
   ("FilterManagerStartNewClause", [Local]);
   ("FilterManagerInsertFilter", [Local; FunctionId]);
   ("FilterManagerRunFilters", [Local; Local]);
   ("FilterManagerFree", [Local])].

(** Vector Filter Executor. *)
Definition vector_filter_bytecodes : list (string * list OperandType) :=
  [("VectorFilterEqual", [Local; Local; Local; Local]);
   ("VectorFilterEqualVal", [Local; Local; Local; Local]);
   ("VectorFilterGreaterThan", [Local; Local; Local; Local]);
   ("VectorFilterGreaterThanVal", [Local; Local; Local; Local]);
   ("VectorFilterGreaterThanEqual", [Local; Local; Local; Local]);
   ("VectorFilterGreaterThanEqualVal", [Local; Local; Local; Local]);
   ("VectorFilterLessThan", [Local; Local; Local; Local]);
   ("VectorFilterLessThanVal", [Local; Local; Local; Local]);
   ("VectorFilterLessThanEqual", [Local; Local; Local; Local]);
   ("VectorFilterLessThanEqualVal", [Local; Local; Local; Local]);
   ("VectorFilterNotEqual", [Local; Local; Local; Local]);
   ("VectorFilterNotEqualVal", [Local; Local; Local; Local])].

(** SQL value creation. *)
Definition value_creation_bytecodes : list (string * list OperandType) :=
  [("ForceBoolTruth", [Local; Local]);
   ("InitSqlNull", [Local]);
   ("InitBool", [Local; Local]);
   ("InitInteger", [Local; Local]);
   ("InitReal", [Local; Local]);
   ("InitDate", [Local; Local; Local; Local]);
   ("InitString", [Local; StaticLocal; UImm4])].

(** SQL value conversion. *)
Definition value_conversion_bytecodes : list (string * list OperandType) :=
  [("BoolToInteger", [Local; Local]);
   ("IntegerToBool", [Local; Local]);
   ("IntegerToReal", [Local; Local]);
   ("IntegerToString", [Local; Local; Local]);
   ("RealToBool", [Local; Local]);
   ("RealToInteger", [Local; Local]);
   ("RealToString", [Local; Local; Local]);
   ("DateToTimestamp", [Local; Local]);
   ("DateToString", [Local; Local; Local]);
   ("TimestampToDate", [Local; Local]);
   ("TimestampToString", [Local; Local; Local]);
   ("StringToBool", [Local; Local]);
   ("StringToInteger", [Local; Local]);
   ("StringToReal", [Local; Local]);
   ("StringToDate", [Local; Local]);
   ("StringToTimestamp", [Local; Local])].

(** SQL value comparisons. *)
Definition value_comparison_bytecodes : list (string * list OperandType) :=
  [("LessThanBool", [Local; Local; Local]);
   ("LessThanEqualBool", [Local; Local; Local]);
   ("GreaterThanBool", [Local; Local; Local]);
   ("GreaterThanEqualBool", [Local; Local; Local]);
   ("EqualBool", [Local; Local; Local]);
   ("NotEqualBool", [Local; Local; Local]);
   ("LessThanInteger", [Local; Local; Local]);
   ("LessThanEqualInteger", [Local; Local; Local]);
   ("GreaterThanInteger", [Local; Local; Local]);
   ("GreaterThanEqualInteger", [Local; Local; Local]);
   ("EqualInteger", [Local; Local; Local]);
   ("NotEqualInteger", [Local; Local; Local]);
   ("LessThanReal", [Local; Local; Local]);
   ("LessThanEqualReal", [Local; Local; Local]);
   ("GreaterThanReal", [Local; Local; Local]);
   ("GreaterThanEqualReal", [Local; Local; Local]);
   ("EqualReal", [Local; Local; Local]);
   ("NotEqualReal", [Local; Local; Local]);
   ("LessThanString", [Local; Local; Local]);
   ("LessThanEqualString", [Local; Local; Local]);
   ("GreaterThanString", [Local; Local; Local]);
   ("GreaterThanEqualString", [Local; Local; Local]);
   ("EqualString", [Local; Local; Local]);
   ("NotEqualString", [Local; Local; Local]);
   ("LessThanDate", [Local; Local; Local]);
   ("LessThanEqualDate", [Local; Local; Local]);
   ("GreaterThanDate", [Local; Local; Local]);
   ("GreaterThanEqualDate", [Local; Local; Local]);
   ("EqualDate", [Local; Local; Local]);
   ("NotEqualDate", [Local; Local; Local])].

(** SQL value unary operations. *)
Definition value_unary_bytecodes : list (string * list OperandType) :=
  [("AbsInteger", [Local; Local]);
   ("AbsReal", [Local; Local]);
   ("ValIsNull", [Local; Local]);
   ("ValIsNotNull", [Local; Local]);
   ("LogicalNotBoolVal", [Local; Local])].

(** SQL value binary operations. *)
Definition value_binary_bytecodes : list (string * list OperandType) :=
  [("AddInteger", [Local; Local; Local]);
   ("SubInteger", [Local; Local; Local]);
   ("MulInteger", [Local; Local; Local]);
   ("DivInteger", [Local; Local; Local]);
   ("RemInteger", [Local; Local; Local]);
   ("AddReal", [Local; Local; Local]);
   ("SubReal", [Local; Local; Local]);
   ("MulReal", [Local; Local; Local]);
   ("DivReal", [Local; Local; Local]);
   ("RemReal", [Local; Local; Local])].

(** Hashing. *)
Definition hashing_bytecodes : list (string * list OperandType) :=
  [("HashInt", [Local; Local; Local]);
   ("HashReal", [Local; Local; Local]);
   ("HashDate", [Local; Local; Local]);
   ("HashTimestamp", [Local; Local; Local]);
   ("HashString", [Local; Local; Local]);
   ("HashCombine", [Local; Local])].

(** Compact storage. *)
Definition compact_storage_bytecodes : list (string * list OperandType) :=
  [("CompactStorageWriteBool", [Local; Local; Local; Local]);
   ("CompactStorageWriteSmallInt", [Local; Local; Local; Local]);
   ("CompactStorageWriteTinyInt", [Local; Local; Local; Local]);
   ("CompactStorageWriteInteger", [Local; Local; Local; Local]);
   ("CompactStorageWriteBigInt", [Local; Local; Local; Local]);
   ("CompactStorageWriteReal", [Local; Local; Local; Local]);
   ("CompactStorageWriteDouble", [Local; Local; Local; Local]);
   ("CompactStorageWriteDecimal", [Local; Local; Local; Local]);
   ("CompactStorageWriteDate", [Local; Local; Local; Local]);
   ("CompactStorageWriteTimestamp", [Local; Local; Local; Local]);
   ("CompactStorageWriteString", [Local; Local; Local; Local]);
   ("CompactStorageReadBool", [Local; Local; Local; Local]);
   ("CompactStorageReadSmallInt", [Local; Local; Local; Local]);
   ("CompactStorageReadTinyInt", [Local; Local; Local; Local]);
   ("CompactStorageReadInteger", [Local; Local; Local; Local]);
   ("CompactStorageReadBigInt", [Local; Local; Local; Local]);
   ("CompactStorageReadReal", [Local; Local; Local; Local]);
   ("CompactStorageReadDouble", [Local; Local; Local; Local]);
   ("CompactStorageReadDecimal", [Local; Local; Local; Local]);
   ("CompactStorageReadDate", [Local; Local; Local; Local]);
   ("CompactStorageReadTimestamp", [Local; Local; Local; Local]);
   ("CompactStorageReadString", [Local; Local; Local; Local])].

(** Aggregation Hash Table. *)
Definition agg_hash_table_bytecodes : list (string * list OperandType) :=
  [("AggregationHashTableInit", [Local; Local; Local]);
   ("AggregationHashTableAllocTuple", [Local; Local; Local]);
   ("AggregationHashTableAllocTuplePartitioned", [Local; Local; Local]);
   ("AggregationHashTableLinkHashTableEntry", [Local; Local]);
   ("AggregationHashTableLookup", [Local; Local; Local]);
   ("AggregationHashTableProcessBatch", [Local; Local; UImm4; Local; FunctionId; FunctionId; Local]);
   ("AggregationHashTableTransferPartitions", [Local; Local; Local; FunctionId]);
   ("AggregationHashTableBuildAllHashTablePartitions", [Local; Local]);
   ("AggregationHashTableRepartition", [Local]);
   ("AggregationHashTableMergePartitions", [Local; Local; Local; FunctionId]);
   ("AggregationHashTableParallelPartitionedScan", [Local; Local; Local; FunctionId]);
   ("AggregationHashTableFree", [Local]);
   ("AggregationHashTableIteratorInit", [Local; Local]);
   ("AggregationHashTableIteratorHasNext", [Local; Local]);
   ("AggregationHashTableIteratorNext", [Local]);
   ("AggregationHashTableIteratorGetRow", [Local; Local]);
   ("AggregationHashTableIteratorFree", [Local]);
   ("AggregationOverflowPartitionIteratorHasNext", [Local; Local]);
   ("AggregationOverflowPartitionIteratorNext", [Local]);
   ("AggregationOverflowPartitionIteratorGetHash", [Local; Local]);
   ("AggregationOverflowPartitionIteratorGetRow", [Local; Local]);
   ("AggregationOverflowPartitionIteratorGetRowEntry", [Local; Local])].

(** COUNT Aggregates. *)
Definition count_agg_bytecodes : list (string * list OperandType) :=
  [("CountAggregateInit", [Local]);
   ("CountAggregateAdvance", [Local; Local]);
   ("CountAggregateMerge", [Local; Local]);
   ("CountAggregateReset", [Local]);
   ("CountAggregateGetResult", [Local; Local]);
   ("CountAggregateFree", [Local]);
   ("CountStarAggregateInit", [Local]);
   ("CountStarAggregateAdvance", [Local; Local]);
   ("CountStarAggregateMerge", [Local; Local]);
   ("CountStarAggregateReset", [Local]);
   ("CountStarAggregateGetResult", [Local; Local]);
   ("CountStarAggregateFree", [Local])].

(** SUM Aggregates. *)
Definition sum_agg_bytecodes : list (string * list OperandType) :=
  [("IntegerSumAggregateInit", [Local]);
   ("IntegerSumAggregateAdvance", [Local; Local]);
   ("IntegerSumAggregateMerge", [Local; Local]);
   ("IntegerSumAggregateReset", [Local]);
   ("IntegerSumAggregateGetResult", [Local; Local]);
   ("IntegerSumAggregateFree", [Local]);
   ("RealSumAggregateInit", [Local]);
   ("RealSumAggregateAdvance", [Local; Local]);
   ("RealSumAggregateMerge", [Local; Local]);
   ("RealSumAggregateReset", [Local]);
   ("RealSumAggregateGetResult", [Local; Local]);
   ("RealSumAggregateFree", [Local])].

(** MAX Aggregates. *)
Definition max_agg_bytecodes : list (string * list OperandType) :=
  [("IntegerMaxAggregateInit", [Local]);
   ("IntegerMaxAggregateAdvance", [Local; Local]);
   ("IntegerMaxAggregateMerge", [Local; Local]);
   ("IntegerMaxAggregateReset", [Local]);
   ("IntegerMaxAggregateGetResult", [Local; Local]);
   ("IntegerMaxAggregateFree", [Local]);
   ("RealMaxAggregateInit", [Local]);
   ("RealMaxAggregateAdvance", [Local; Local]);
   ("RealMaxAggregateMerge", [Local; Local]);
   ("RealMaxAggregateReset", [Local]);
   ("RealMaxAggregateGetResult", [Local; Local]);
   ("RealMaxAggregateFree", [Local]);
   ("DateMaxAggregateInit", [Local]);
   ("DateMaxAggregateAdvance", [Local; Local]);
   ("DateMaxAggregateMerge", [Local; Local]);
   ("DateMaxAggregateReset", [Local]);
   ("DateMaxAggregateGetResult", [Local; Local]);
   ("DateMaxAggregateFree", [Local]);
   ("StringMaxAggregateInit", [Local]);
   ("StringMaxAggregateAdvance", [Local; Local]);
   ("StringMaxAggregateMerge", [Local; Local]);
   ("StringMaxAggregateReset", [Local]);
   ("StringMaxAggregateGetResult", [Local; Local]);
   ("StringMaxAggregateFree", [Local])].

(** MIN Aggregates. *)
Definition min_agg_bytecodes : list (string * list OperandType) :=
  [("IntegerMinAggregateInit", [Local]);
   ("IntegerMinAggregateAdvance", [Local; Local]);
   ("IntegerMinAggregateMerge", [Local; Local]);
   ("IntegerMinAggregateReset", [Local]);
   ("IntegerMinAggregateGetResult", [Local; Local]);
   ("IntegerMinAggregateFree", [Local]);
   ("RealMinAggregateInit", [Local]);
   ("RealMinAggregateAdvance", [Local; Local]);
   ("RealMinAggregateMerge", [Local; Local]);
   ("RealMinAggregateReset", [Local]);
   ("RealMinAggregateGetResult", [Local; Local]);
   ("RealMinAggregateFree", [Local]);
   ("DateMinAggregateInit", [Local]);
   ("DateMinAggregateAdvance", [Local; Local]);
   ("DateMinAggregateMerge", [Local; Local]);
   ("DateMinAggregateReset", [Local]);
   ("DateMinAggregateGetResult", [Local; Local]);
   ("DateMinAggregateFree", [Local]);
   ("StringMinAggregateInit", [Local]);
   ("StringMinAggregateAdvance", [Local; Local]);
   ("StringMinAggregateMerge", [Local; Local]);
   ("StringMinAggregateReset", [Local]);
   ("StringMinAggregateGetResult", [Local; Local]);
   ("StringMinAggregateFree", [Local])].

(** AVG Aggregates. *)
Definition avg_agg_bytecodes : list (string * list OperandType) :=
  [("AvgAggregateInit", [Local]);
   ("AvgAggregateAdvanceInteger", [Local; Local]);
   ("AvgAggregateAdvanceReal", [Local; Local]);
   ("AvgAggregateMerge", [Local; Local]);
   ("AvgAggregateReset", [Local]);
   ("AvgAggregateGetResult", [Local; Local]);
   ("AvgAggregateFree", [Local])].

(** Hash Joins. *)
Definition hash_join_bytecodes : list (string * list OperandType) :=
  [("JoinHashTableInit", [Local; Local; Local]);
   ("JoinHashTableInit2", [Local; Local; Local; FunctionId; FunctionId]);
   ("JoinHashTableAllocTuple", [Local; Local; Local]);
   ("JoinHashTableBuild", [Local]);
   ("JoinHashTableBuildParallel", [Local; Local; Local]);
   ("JoinHashTableLookup", [Local; Local; Local]);
   ("JoinHashTableFree", [Local]);
   ("HashTableEntryGetHash", [Local; Local]);
   ("HashTableEntryGetRow", [Local; Local]);
   ("HashTableEntryGetNext", [Local; Local])].

(** Sorting. *)
Definition sorting_bytecodes : list (string * list OperandType) :=
  [("SorterInit", [Local; Local; FunctionId; Local]);
   ("SorterAllocTuple", [Local; Local]);
   ("SorterAllocTupleTopK", [Local; Local; Local]);
   ("SorterAllocTupleTopKFinish", [Local; Local]);
   ("SorterSort", [Local]);
   ("SorterSortParallel", [Local; Local; Local]);
   ("SorterSortTopKParallel", [Local; Local; Local; Local]);
   ("SorterFree", [Local]);
   ("SorterIteratorInit", [Local; Local]);
   ("SorterIteratorGetRow", [Local; Local]);
   ("SorterIteratorHasNext", [Local; Local]);
   ("SorterIteratorNext", [Local]);
   ("SorterIteratorSkipRows", [Local; Local]);
   ("SorterIteratorFree", [Local])].

(** Bitpacking Compression. *)
Definition bitpacking_bytecodes : list (string * list OperandType) :=
  [("AnalysisStatsSetColumnCount", [Local; Local]);
   ("AnalysisStatsSetColumnBits", [Local; Local; Local])].

(** Output. *)
Definition output_bytecodes : list (string * list OperandType) :=
  [("ResultBufferAllocOutputRow", [Local; Local]);
   ("ResultBufferFinalize", [Local])].

(** CSV Reader. *)
Definition csv_bytecodes : list (string * list OperandType) :=
  [("CSVReaderInit", [Local; StaticLocal; UImm4]);
   ("CSVReaderPerformInit", [Local; Local]);
   ("CSVReaderAdvance", [Local; Local]);
   ("CSVReaderGetField", [Local; Local; Local]);
   ("CSVReaderGetRecordNumber", [Local; Local]);
   ("CSVReaderClose", [Local])].

(** Trig functions. *)
Definition trig_bytecodes : list (string * list OperandType) :=
  [("Pi", [Local]);
   ("E", [Local]);
   ("Acos", [Local; Local]);
   ("Asin", [Local; Local]);
   ("Atan", [Local; Local]);
   ("Atan2", [Local; Local; Local]);
   ("Cos", [Local; Local]);
   ("Cot", [Local; Local]);
   ("Sin", [Local; Local]);
   ("Tan", [Local; Local]);
   ("Cosh", [Local; Local]);
   ("Tanh", [Local; Local]);
   ("Sinh", [Local; Local]);
   ("Sqrt", [Local; Local]);
   ("Cbrt", [Local; Local]);
   ("Exp", [Local; Local]);
   ("Ceil", [Local; Local]);
   ("Floor", [Local; Local]);
   ("Truncate", [Local; Local]);
   ("Ln", [Local; Local]);
   ("Log2", [Local; Local]);
   ("Log10", [Local; Local]);
   ("Sign", [Local; Local]);
   ("Radians", [Local; Local]);
   ("Degrees", [Local; Local]);
   ("Round", [Local; Local]);
   ("RoundUpTo", [Local; Local; Local]);
   ("Log", [Local; Local; Local]);
   ("Pow", [Local; Local; Local])].

(** String functions. *)
Definition string_bytecodes : list (string * list OperandType) :=
  [("Concat", [Local; Local; Local; UImm4]);
   ("Left", [Local; Local; Local; Local]);
   ("Length", [Local; Local; Local]);
   ("Like", [Local; Local; Local]);
   ("Lower", [Local; Local; Local]);
   ("LPad", [Local; Local; Local; Local; Local]);
   ("LTrim", [Local; Local; Local; Local]);
   ("Repeat", [Local; Local; Local; Local]);
   ("Reverse", [Local; Local; Local]);
   ("Right", [Local; Local; Local; Local]);
   ("RPad", [Local; Local; Local; Local; Local]);
   ("RTrim", [Local; Local; Local; Local]);
   ("SplitPart", [Local; Local; Local; Local; Local]);
   ("Substring", [Local; Local; Local; Local; Local]);
   ("Trim", [Local; Local; Local; Local]);
   ("Upper", [Local; Local; Local])].

(** Date Functions. *)
Definition date_bytecodes : list (string * list OperandType) :=
  [("ExtractYear", [Local; Local])].

Definition BYTECODE_LIST : list (string * list OperandType) :=
  primitive_bytecodes ++ boolean_complement_bytecodes ++ branching_bytecodes ++ memory_bytecodes ++ calls_bytecodes ++ exec_context_bytecodes ++ thread_state_bytecodes ++ table_iterator_bytecodes ++ vpi_bytecodes ++ filter_manager_bytecodes ++ vector_filter_bytecodes ++ value_creation_bytecodes ++ value_conversion_bytecodes ++ value_comparison_bytecodes ++ value_unary_bytecodes ++ value_binary_bytecodes ++ hashing_bytecodes ++ compact_storage_bytecodes ++ agg_hash_table_bytecodes ++ count_agg_bytecodes ++ sum_agg_bytecodes ++ max_agg_bytecodes ++ min_agg_bytecodes ++ avg_agg_bytecodes ++ hash_join_bytecodes ++ sorting_bytecodes ++ bitpacking_bytecodes ++ output_bytecodes ++ csv_bytecodes ++ trig_bytecodes ++ string_bytecodes ++ date_bytecodes.

(** * Queries *)

Definition kBytecodeCount : Z := Z.of_nat (length BYTECODE_LIST).
Definition Last : Z := kBytecodeCount - 1.
Definition is_bytecode (b : Z) : bool := (0 <=? b) && (b <=? Last).

Definition entry (b : Z) : option (string * list OperandType) :=
  if 0 <=? b then BYTECODE_LIST !! Z.to_nat b else None.

Definition ToString (b : Z) : option string := fst <$> entry b.
Definition GetOperandTypes (b : Z) : option (list OperandType) := snd <$> entry b.
Definition NumOperands (b : Z) : option nat := length <$> GetOperandTypes b.
Definition GetNthOperandType (b : Z) (i : nat) : option OperandType :=
  types ← GetOperandTypes b; types !! i.
Definition GetNthOperandSize (b : Z) (i : nat) : option OperandSize :=
  kOperandSize <$> GetNthOperandType b i.
Definition GetBytecodeHandlerName (b : Z) : option string := String.append "Op" <$> ToString b.

(** The bytes of a bytecode itself. *)
Definition kBytecodeSize : Z := 4.

(** The loop adds the sizes of the operands before the one asked for. *)
Fixpoint operand_offset (b : Z) (i : nat) : option Z :=
  match i with
  | O => Some kBytecodeSize
  | S i' =>
      offset ← operand_offset b i';
      size ← GetNthOperandSize b i';
      Some (offset + operand_bytes size)
  end.
Definition GetNthOperandOffset (b : Z) (operand_index : nat) : option Z := operand_offset b operand_index.

Definition MaxBytecodeNameLength : Z :=
  foldr Z.max 0 (map (fun e => Z.of_nat (String.length e.1) + 1) BYTECODE_LIST).

(** The bytecode with a name. *)
Fixpoint code_from (i : Z) (name : string) (l : list (string * list OperandType)) : Z :=
  match l with
  | [] => -1
  | e :: l' => if String.eqb e.1 name then i else code_from (i + 1) name l'
  end.
Definition code (name : string) : Z := code_from 0 name BYTECODE_LIST.

Definition IsUnconditionalJump (b : Z) : bool := b =? code "Jump".
Definition IsConditionalJump (b : Z) : bool := (b =? code "JumpIfFalse") || (b =? code "JumpIfTrue").
Definition IsJump (b : Z) : bool := IsConditionalJump b || IsUnconditionalJump b.
Definition IsReturn (b : Z) : bool := b =? code "Return".
Definition IsTerminal (b : Z) : bool := IsJump b || IsReturn b.
