(* ===== verification/FunctionInfo.v ===== *)
(** What the virtual machine knows of a function: [src/include/util/bitfield.h] and
    [src/include/vm/bytecode_function_info.h], [src/vm/bytecode_function_info.cpp].

    A reference to a local is a 32-bit field: the addressing mode in the lowest bit, the offset in the
    frame above it.  A function's frame is laid out as its locals are made. *)
From stdpp Require Import pretty.
From S2P Require Import Prelude BitUtil Layout.

(** * Bit fields

    The storage has [w] bits, the field [size] of them from [shift] on. *)

Definition field_mask (w shift size : Z) : Z := wrapu w (Z.shiftl (wrapu w (Z.shiftl 1 size) - 1) shift).
Definition field_Encode (w shift val : Z) : Z := wrapu w (Z.shiftl (wrapu w val) shift).
(** [is_bool] is whether the type of the field is [bool], which any bit of the field makes true. *)
Definition field_Decode (is_bool : bool) (w shift size storage : Z) : Z :=
  let field := Z.land storage (field_mask w shift size) in
  if is_bool then Z.b2z (negb (field =? 0)) else Z.shiftr field shift.
Definition field_Update (w shift size storage update : Z) : Z :=
  Z.lor (Z.land storage (wrapu w (Z.lnot (field_mask w shift size)))) (field_Encode w shift update).

(** * References to locals *)

Inductive AddressMode : Set := Address | Value.
#[export] Instance AddressMode_eq_dec : EqDecision AddressMode.
Proof. solve_decision. Defined.
Definition mode_bit (m : AddressMode) : Z := match m with Address => 0 | Value => 1 end.
Definition mode_of (z : Z) : AddressMode := if z =? 0 then Address else Value.

Record LocalVar := mkLocalVar { bitfield_ : Z }.
#[export] Instance LocalVar_eq_dec : EqDecision LocalVar.
Proof. solve_decision. Defined.

Definition kInvalidOffset : Z := Z.shiftr (2 ^ 32 - 1) 1.

Definition new_LocalVar (offset : Z) (m : AddressMode) : LocalVar :=
  mkLocalVar (Z.lor (field_Encode 32 0 (mode_bit m)) (field_Encode 32 1 offset)).
Definition invalid_LocalVar : LocalVar := new_LocalVar kInvalidOffset Address.

Definition GetAddressMode (v : LocalVar) : AddressMode := mode_of (field_Decode false 32 0 1 (bitfield_ v)).
Definition GetOffset (v : LocalVar) : Z := field_Decode false 32 1 31 (bitfield_ v).
Definition LocalVar_Encode (v : LocalVar) : Z := bitfield_ v.
Definition LocalVar_Decode (encoded_var : Z) : LocalVar := mkLocalVar encoded_var.
Definition ValueOf (v : LocalVar) : LocalVar := new_LocalVar (GetOffset v) Value.
Definition AddressOf (v : LocalVar) : LocalVar := new_LocalVar (GetOffset v) Address.
Definition IsInvalid (v : LocalVar) : bool := GetOffset v =? kInvalidOffset.
Definition LocalVar_eqb (v v' : LocalVar) : bool :=
  (GetOffset v =? GetOffset v') && bool_decide (GetAddressMode v = GetAddressMode v').

(** * Functions *)

Inductive LocalKind : Set := Var | Parameter_.

Section function.
Context `{AlignOps} {T : Type} `{TypeLayout T}.

Record LocalInfo := mkLocalInfo {
  li_name : string;
  li_type : T;
  li_offset : Z;
  li_size : Z;
  li_kind : LocalKind
}.

Definition new_LocalInfo (name : string) (type : T) (offset : Z) (kind : LocalKind) : LocalInfo :=
  mkLocalInfo name type offset (GetSize type) kind.
Definition IsParameter (l : LocalInfo) : bool := match li_kind l with Parameter_ => true | Var => false end.

Record FunctionInfo := mkFunctionInfo {
  fi_id : Z;
  fi_name : string;
  bytecode_range_ : Z * Z;
  locals_ : list LocalInfo;
  frame_size_ : Z;
  params_start_pos_ : Z;
  params_size_ : Z;
  num_params_ : Z;
  num_temps_ : Z
}.

Definition new_FunctionInfo (id : Z) (name : string) : FunctionInfo :=
  mkFunctionInfo id name (0, 0) [] 0 0 0 0 0.

Definition SetBytecodeRange (f : FunctionInfo) (start_offset end_offset : Z) : FunctionInfo :=
  mkFunctionInfo (fi_id f) (fi_name f) (start_offset, end_offset) (locals_ f) (frame_size_ f) (params_start_pos_ f)
    (params_size_ f) (num_params_ f) (num_temps_ f).

(** [NewLocal] with a kind: [frame_size_] has 64 bits, the offset 32. *)
Definition NewLocal_kind (f : FunctionInfo) (type : T) (name : string) (kind : LocalKind) : LocalVar * FunctionInfo :=
  let frame_size := if negb (IsAligned (frame_size_ f) (GetAlignment type))
                    then AlignTo (frame_size_ f) (GetAlignment type) else frame_size_ f in
  let offset := wrapu 32 frame_size in
  let locals := locals_ f ++ [new_LocalInfo name type offset kind] in
  let frame_size := wrapu 64 (frame_size + GetSize type) in
  (new_LocalVar offset Address,
   mkFunctionInfo (fi_id f) (fi_name f) (bytecode_range_ f) locals frame_size (params_start_pos_ f)
     (params_size_ f) (num_params_ f) (num_temps_ f)).

Definition NewParameterLocal (f : FunctionInfo) (type : T) (name : string) : LocalVar * FunctionInfo :=
  let '(local, f) := NewLocal_kind f type name Parameter_ in
  (local, mkFunctionInfo (fi_id f) (fi_name f) (bytecode_range_ f) (locals_ f) (frame_size_ f) (params_start_pos_ f)
            (frame_size_ f) (wrapu 32 (num_params_ f + 1)) (num_temps_ f)).

(** [std::to_string] of a number is its decimal text. *)
Definition NewLocal (f : FunctionInfo) (type : T) (name : string) : LocalVar * FunctionInfo :=
  if String.eqb name EmptyString then
    let num_temps := wrapu 32 (num_temps_ f + 1) in
    let f := mkFunctionInfo (fi_id f) (fi_name f) (bytecode_range_ f) (locals_ f) (frame_size_ f)
               (params_start_pos_ f) (params_size_ f) (num_params_ f) num_temps in
    NewLocal_kind f type ("tmp" +:+ pretty num_temps)%string Var
  else NewLocal_kind f type name Var.

Definition GetReturnValueLocal (f : FunctionInfo) : LocalVar := new_LocalVar 0 Address.

Definition LookupLocalInfoByName (f : FunctionInfo) (name : string) : option LocalInfo :=
  List.find (fun l => String.eqb (li_name l) name) (locals_ f).
Definition LookupLocal (f : FunctionInfo) (name : string) : LocalVar :=
  match LookupLocalInfoByName f name with
  | Some l => new_LocalVar (li_offset l) Address
  | None => invalid_LocalVar
  end.
Definition LookupLocalInfoByOffset (f : FunctionInfo) (offset : Z) : option LocalInfo :=
  List.find (fun l => li_offset l =? offset) (locals_ f).

End function.
Arguments LocalInfo : clear implicits.
Arguments FunctionInfo : clear implicits.
