(* ===== verification/FunctionInfoSpec.v ===== *)
(** References to locals are 32-bit words and back, and the frame of a function is laid out without
    overlap, whatever parameters and locals it is given. *)
From stdpp Require Import pretty.
From S2P Require Import Prelude BitUtil Layout FunctionInfo.

(** * References to locals *)

Lemma uint_div2 z : is_uint 32 z -> is_uint 31 (z / 2).
Proof.
  intros [? ?]. split; [apply Z.div_pos; lia|]. apply Z.div_lt_upper_bound; [lia|].
  change (2 * 2 ^ 31) with (2 ^ 32). lia.
Qed.

Lemma new_LocalVar_bits offset m : is_uint 31 offset -> bitfield_ (new_LocalVar offset m) = 2 * offset + mode_bit m.
Proof.
  intros Ho. unfold new_LocalVar, field_Encode. cbn [bitfield_].
  assert (is_uint 32 offset) by (unfold is_uint in *; change (2 ^ 32) with (2 * 2 ^ 31); lia).
  rewrite !Z.shiftl_mul_pow2 by lia. rewrite (wrapu_small 32 offset) by done.
  rewrite (wrapu_small 32 (offset * 2 ^ 1)) by (unfold is_uint in *; change (2 ^ 32) with (2 * 2 ^ 31); lia).
  destruct m; cbn [mode_bit]; change (wrapu 32 0) with 0; change (wrapu 32 1) with 1.
  - change (wrapu 32 (0 * 2 ^ 0)) with 0. rewrite Z.lor_0_l. lia.
  - change (wrapu 32 (1 * 2 ^ 0)) with 1. change (2 ^ 1) with 2. rewrite Z.lor_comm, Z.mul_comm. destruct offset; try done; unfold is_uint in Ho; lia.
Qed.

Lemma GetOffset_bits v : is_uint 32 (bitfield_ v) -> GetOffset v = bitfield_ v / 2.
Proof.
  intros Hv. unfold GetOffset, field_Decode. rewrite Z.shiftr_land.
  replace (Z.shiftr (field_mask 32 1 31) 1) with (Z.ones 31) by done.
  rewrite Z.land_ones by lia. rewrite Z.shiftr_div_pow2 by lia. apply Z.mod_small, uint_div2, Hv.
Qed.

Lemma GetAddressMode_bits v : is_uint 32 (bitfield_ v) ->
  GetAddressMode v = mode_of (bitfield_ v mod 2).
Proof.
  intros Hv. unfold GetAddressMode, field_Decode. change (field_mask 32 0 1) with (Z.ones 1).
  by rewrite Z.land_ones, Z.shiftr_0_r by lia.
Qed.

Lemma new_LocalVar_range offset m : is_uint 31 offset -> is_uint 32 (bitfield_ (new_LocalVar offset m)).
Proof.
  intros Ho. rewrite new_LocalVar_bits by done. unfold is_uint in *. change (2 ^ 32) with (2 * 2 ^ 31).
  destruct m; cbn [mode_bit]; lia.
Qed.

Lemma GetOffset_new offset m : is_uint 31 offset -> GetOffset (new_LocalVar offset m) = offset.
Proof.
  intros Ho. rewrite GetOffset_bits, new_LocalVar_bits by auto using new_LocalVar_range.
  rewrite Z.mul_comm, Z.div_add_l by lia. destruct m; cbn [mode_bit]; change (0 / 2) with 0; change (1 / 2) with 0; lia.
Qed.

Lemma GetAddressMode_new offset m : is_uint 31 offset -> GetAddressMode (new_LocalVar offset m) = m.
Proof.
  intros Ho. rewrite GetAddressMode_bits, new_LocalVar_bits by auto using new_LocalVar_range.
  rewrite Z.add_comm, Z.mul_comm, Z.mod_add by lia. by destruct m.
Qed.

Lemma new_LocalVar_of v : is_uint 32 (bitfield_ v) -> new_LocalVar (GetOffset v) (GetAddressMode v) = v.
Proof.
  intros Hv. destruct v as [b]. cbn [bitfield_] in Hv.
  rewrite GetOffset_bits, GetAddressMode_bits by done. cbn [bitfield_].
  pose proof (uint_div2 b Hv). pose proof (new_LocalVar_bits (b / 2) (mode_of (b mod 2)) ltac:(done)) as Hb.
  destruct (new_LocalVar _ _) as [b'] eqn:E. cbn [bitfield_] in Hb. f_equal. rewrite Hb.
  pose proof (Z.mod_pos_bound b 2 ltac:(lia)). rewrite (Z.div_mod b 2) at 3 by lia. f_equal.
  unfold mode_of. destruct (Z.eqb_spec (b mod 2) 0); cbn [mode_bit]; lia.
Qed.

(** * Frames *)

Inductive frame_op (T : Type) : Type := NewParam (type : T) (name : string) | NewVar (type : T) (name : string).
Arguments NewParam {T} type name.
Arguments NewVar {T} type name.

Section frame.
Context `{AlignOpsSpec} {T : Type} `{TypeLayoutSpec T}.
Implicit Types (f : FunctionInfo T) (op : frame_op T) (ops : list (frame_op T)).

Definition op_type op : T := match op with NewParam t _ | NewVar t _ => t end.
Definition is_param op : bool := match op with NewParam _ _ => true | NewVar _ _ => false end.

Definition frame_step f op : LocalVar * FunctionInfo T :=
  match op with NewParam t n => NewParameterLocal f t n | NewVar t n => NewLocal f t n end.
Definition frame_run (id : Z) (name : string) ops : list LocalVar * FunctionInfo T :=
  foldl (fun '(vars, f) op => let '(v, f) := frame_step f op in (vars ++ [v], f)) ([], new_FunctionInfo id name) ops.

Definition local_place (l : LocalInfo T) : Z * (Z * Z) := (li_offset l, (li_size l, GetAlignment (li_type l))).
Definition local_for op (l : LocalInfo T) : Prop :=
  li_type l = op_type op /\ li_size l = GetSize (op_type op) /\ IsParameter l = is_param op /\
  match op with
  | NewParam _ n => li_name l = n
  | NewVar _ n => if String.eqb n EmptyString then exists k, li_name l = ("tmp" +:+ pretty (k : Z))%string else li_name l = n
  end.
Definition local_ref (l : LocalInfo T) : LocalVar := new_LocalVar (li_offset l) Address.

(** What a step does to the layout. *)
Lemma frame_step_spec f op stop : placed 0 (map local_place (locals_ f)) (frame_size_ f) ->
  0 <= frame_size_ f <= stop -> stop + GetSize (op_type op) + GetAlignment (op_type op) <= 2 ^ 31 ->
  let '(v, f') := frame_step f op in
  placed 0 (map local_place (locals_ f')) (frame_size_ f') /\
  0 <= frame_size_ f' <= stop + GetSize (op_type op) + GetAlignment (op_type op) /\
  (exists l, locals_ f' = locals_ f ++ [l] /\ local_for op l /\ v = local_ref l /\ is_uint 31 (li_offset l)) /\
  params_size_ f' = (if is_param op then frame_size_ f' else params_size_ f) /\
  num_params_ f' = (if is_param op then wrapu 32 (num_params_ f + 1) else num_params_ f) /\
  params_start_pos_ f' = params_start_pos_ f.
Proof.
  intros Hp Hf Hmax. pose proof (GetSize_range (op_type op)) as [Hs _].
  pose proof (GetAlignment_pos (op_type op)) as Ha. destruct (GetAlignment_pow2 (op_type op)) as (k & Hk & Ek).
  pose proof (pad_spec (frame_size_ f) k ltac:(lia)) as Hpad. rewrite <- Ek in Hpad. cbv zeta in Hpad.
  destruct Hpad as [Hoff Hdiv]; [lia|done|].
  set (off := if negb _ then AlignTo _ _ else _) in *.
  assert (is_uint 31 off) as Ho by (split; lia).
  assert (wrapu 32 off = off) as Ew by (apply wrapu_small; split; lia).
  assert (wrapu 64 (off + GetSize (op_type op)) = off + GetSize (op_type op)) as Ew' by (apply wrapu_small; split; lia).
  assert (forall n kind, placed 0 (map local_place (locals_ f ++ [new_LocalInfo n (op_type op) off kind])) (off + GetSize (op_type op))) as Hpl.
  { intros n kind. rewrite map_app. simpl. unfold local_place at 2, new_LocalInfo. simpl.
    apply (placed_snoc 0 _ (frame_size_ f)); done. }
  destruct op as [t n|t n]; cbn [op_type is_param frame_step] in *.
  - unfold NewParameterLocal, NewLocal_kind. fold off. rewrite Ew, Ew'. simpl. split_and!; try (done || apply Hpl || lia).
    eexists. split; [done|]. split_and!; try done; apply Ho.
  - unfold NewLocal. destruct (String.eqb n EmptyString) eqn:En; unfold NewLocal_kind; simpl; fold off; rewrite Ew, Ew';
      (split_and!; try (done || apply Hpl || lia); eexists; split; [done|]; split_and!; try done; try apply Ho);
      (split; [done|split; [done|split; [done|]]]); rewrite En; [by eexists|done].
Qed.

Lemma frame_run_spec id name ops : room (map op_type ops) <= 2 ^ 31 -> Z.of_nat (length ops) < 2 ^ 32 ->
  let '(vars, f) := frame_run id name ops in
  placed 0 (map local_place (locals_ f)) (frame_size_ f) /\ 0 <= frame_size_ f <= room (map op_type ops) /\
  Forall2 local_for ops (locals_ f) /\ vars = map local_ref (locals_ f) /\
  Forall (fun l => is_uint 31 (li_offset l)) (locals_ f) /\
  num_params_ f = Z.of_nat (length (List.filter is_param ops)) /\ params_start_pos_ f = 0 /\
  (Forall (fun op => is_param op = true) ops -> params_size_ f = frame_size_ f).
Proof.
  unfold frame_run. induction ops as [|op ops IH] using rev_ind; [simpl; intros; split_and!; try done|].
  rewrite foldl_app, map_app, length_app. cbn [map]. rewrite room_snoc. cbn [foldl length].
  pose proof (GetSize_range (op_type op)) as [Hs _]. pose proof (GetAlignment_pos (op_type op)).
  intros Hroom Hlen. specialize (IH ltac:(lia) ltac:(lia)).
  destruct (foldl _ _ ops) as [vars f]. destruct IH as (Hp & Hf & Hall & -> & Hoffs & Hn & Hst & Hps).
  pose proof (frame_step_spec f op _ Hp Hf ltac:(lia)) as Hstep. destruct (frame_step f op) as [v f'].
  destruct Hstep as (Hp' & Hf' & (l & El & Hl & -> & Ho) & Eps & En & Est). rewrite El in *. split_and!; try done; try lia.
  - apply Forall2_app; [done|]. by constructor.
  - by rewrite map_app.
  - apply Forall_app. split; [done|]. by constructor.
  - rewrite List.filter_app, length_app. simpl. rewrite En, Hn. destruct (is_param op); simpl; [|lia].
    rewrite wrapu_small; [lia|]. pose proof (List.filter_length_le is_param ops). split; lia.
  - intros [_ Hop]%Forall_app. apply Forall_cons in Hop as [Hop _]. by rewrite Eps, Hop.
Qed.

End frame.

(** * Looking locals up *)

Lemma find_app {A} (p : A -> bool) l l' :
  List.find p (l ++ l') = match List.find p l with Some x => Some x | None => List.find p l' end.
Proof. induction l as [|x l IH]; simpl; [done|]. by destruct (p x). Qed.

(** Locals of a positive size have different offsets, so an offset finds its local. *)
Lemma find_by_offset {T} `{TypeLayout T} (locals : list (LocalInfo T)) at_ stop l :
  Forall (fun l => 0 < li_size l) locals -> placed at_ (map local_place locals) stop -> l ∈ locals ->
  List.find (fun l' => li_offset l' =? li_offset l) locals = Some l.
Proof.
  revert at_. induction locals as [|l0 locals IH]; intros at_ Hpos Hp Hl; [by apply not_elem_of_nil in Hl|].
  apply Forall_cons in Hpos as [Hp0 Hpos]. cbn [map placed] in Hp. unfold local_place at 1 in Hp.
  destruct Hp as (Hrange & _ & Hp). cbn [List.find].
  apply elem_of_cons in Hl as [->|Hl]; [by rewrite Z.eqb_refl|].
  assert (li_offset l0 < li_offset l) as Hlt.
  { assert (Forall (fun i : Z * (Z * Z) => 0 <= i.2.1) (map local_place locals)) as Hsz.
    { apply Forall_map. eapply Forall_impl; [exact Hpos|]. intros x Hx. simpl in Hx |- *. lia. }
    destruct (placed_bounds _ _ _ Hsz Hp) as [_ Hall]. rewrite Forall_map, Forall_forall in Hall.
    specialize (Hall l Hl) as [Hle _]. simpl in Hle. lia. }
  rewrite (proj2 (Z.eqb_neq _ _)) by lia. by eapply IH.
Qed.

(** Locals that are not parameters leave the parameters' space alone. *)
Lemma vars_keep_params_size `{AlignOps} {T : Type} `{TypeLayout T} (vars : list (frame_op T)) refs f :
  Forall (fun op => is_param op = false) vars ->
  params_size_ (foldl (fun '(vars, f) op => let '(v, f) := frame_step f op in (vars ++ [v], f)) (refs, f) vars).2 = params_size_ f.
Proof.
  intros Hv. revert refs f. induction Hv as [|op vars Hop Hv IH]; intros refs f; [done|]. cbn [foldl].
  destruct op as [t n|t n]; [done|]. cbn [frame_step]. unfold NewLocal, NewLocal_kind.
  destruct (String.eqb n EmptyString); rewrite IH; done.
Qed.

Lemma filter_params {T : Type} (params vars : list (frame_op T)) :
  Forall (fun op => is_param op = true) params -> Forall (fun op => is_param op = false) vars ->
  List.filter is_param (params ++ vars) = params.
Proof.
  intros Hp Hv. rewrite List.filter_app.
  assert (List.filter is_param params = params) as -> by (induction Hp as [|o l Ho Hl IH]; simpl; [done|]; by rewrite Ho, IH).
  assert (List.filter is_param vars = []) as -> by (induction Hv as [|o l Ho Hl IH]; simpl; [done|]; by rewrite Ho, IH).
  apply app_nil_r.
Qed.

(** * The theorems *)

(** A reference to a local is a 32-bit word, from which the offset and the mode are read back; every
    word is the reference of its offset and mode; the two conversions keep the offset; and offsets are
    31 bits: the top bit of a larger one is lost. *)
Theorem local_references_roundtrip :
  (forall offset m, is_uint 31 offset ->
     let v := LocalVar_Decode (LocalVar_Encode (new_LocalVar offset m)) in
     is_uint 32 (LocalVar_Encode (new_LocalVar offset m)) /\ GetOffset v = offset /\ GetAddressMode v = m /\
     GetOffset (ValueOf v) = offset /\ GetAddressMode (ValueOf v) = Value /\
     GetOffset (AddressOf v) = offset /\ GetAddressMode (AddressOf v) = Address /\
     (IsInvalid v = true <-> offset = kInvalidOffset)) /\
  (forall w, is_uint 32 w -> let v := LocalVar_Decode w in
     new_LocalVar (GetOffset v) (GetAddressMode v) = v /\ LocalVar_Encode v = w) /\
  (forall w w', is_uint 32 w -> is_uint 32 w' -> LocalVar_eqb (LocalVar_Decode w) (LocalVar_Decode w') = (w =? w')).
Proof.
  split_and!.
  - intros o m Ho. cbv zeta. unfold LocalVar_Encode, LocalVar_Decode, ValueOf, AddressOf, IsInvalid.
    assert (mkLocalVar (bitfield_ (new_LocalVar o m)) = new_LocalVar o m) as -> by by destruct (new_LocalVar o m).
    rewrite !GetOffset_new, !GetAddressMode_new by done. split_and!; try done; [by apply new_LocalVar_range..|].
    apply Z.eqb_eq.
  - intros w Hw v. split; [by apply new_LocalVar_of|done].
  - intros w w' Hw Hw'. unfold LocalVar_eqb. destruct (Z.eqb_spec w w') as [->|Hne].
    + by rewrite Z.eqb_refl, bool_decide_eq_true_2.
    + apply not_true_iff_false. rewrite andb_true_iff, Z.eqb_eq, bool_decide_eq_true. intros [Ho Hm]. apply Hne.
      pose proof (new_LocalVar_of (LocalVar_Decode w) Hw) as E. rewrite Ho, Hm, (new_LocalVar_of (LocalVar_Decode w') Hw') in E.
      by injection E.
Qed.

(** C32: The fields of a struct are placed in order at multiples of their alignments, without overlap, and
    the struct ends with them, padded to a multiple of the alignment every field divides. *)
Theorem struct_layout `{AlignOpsSpec} {T : Type} `{TypeLayoutSpec T} (fields : list T) : room fields <= 2 ^ 31 ->
  let l := new_LayoutHelper fields in
  length (offsets_ l) = length fields /\
  (forall i t off, fields !! i = Some t -> offsets_ l !! i = Some off ->
     0 <= off /\ off + GetSize t <= size_ l /\ (GetAlignment t | off) /\ (GetAlignment t | alignment_ l)) /\
  (forall i j t off off', fields !! i = Some t -> offsets_ l !! i = Some off -> offsets_ l !! j = Some off' ->
     (i < j)%nat -> off + GetSize t <= off') /\
  (alignment_ l | size_ l).
Proof.
  intros Hroom l. destruct (LayoutHelper_places fields Hroom) as (stop & Hp & Hl & _ & Hd & _). fold l in Hp, Hl, Hd.
  destruct (LayoutHelper_zip fields stop Hp Hl) as [Hsz Hzip].
  split_and!; [done|by apply LayoutHelper_field| |done].
  intros i j t off off' Ht Ho Ho' Hij. destruct (lookup_lt_is_Some_2 fields j) as [t' Ht'].
  { rewrite <- Hl. by eapply lookup_lt_Some. }
  exact (placed_disjoint _ _ _ i j _ _ Hsz Hp (Hzip _ _ _ Ht Ho) (Hzip _ _ _ Ht' Ho') Hij).
Qed.

(** C28: Whatever parameters and locals a function is given, its frame holds them in that order, aligned,
    inside the frame and without overlap; each reference handed out is the address of its local; the
    parameters are counted; a parameter's space ends where the parameters' space ends; and locals of a
    positive size are found by their offsets. *)
Theorem frame_layout `{AlignOpsSpec} {T : Type} `{TypeLayoutSpec T} id name (params vars : list (frame_op T)) :
  Forall (fun op => is_param op = true) params -> Forall (fun op => is_param op = false) vars ->
  room (map op_type (params ++ vars)) <= 2 ^ 31 -> Z.of_nat (length (params ++ vars)) < 2 ^ 32 ->
  let '(refs, f) := frame_run id name (params ++ vars) in
  Forall2 local_for (params ++ vars) (locals_ f) /\ map GetOffset refs = map li_offset (locals_ f) /\
  Forall (fun v => GetAddressMode v = Address) refs /\
  (forall i l, locals_ f !! i = Some l -> 0 <= li_offset l /\ li_offset l + li_size l <= frame_size_ f /\
     (GetAlignment (li_type l) | li_offset l)) /\
  (forall i j l l', locals_ f !! i = Some l -> locals_ f !! j = Some l' -> (i < j)%nat ->
     li_offset l + li_size l <= li_offset l') /\
  num_params_ f = Z.of_nat (length params) /\ params_start_pos_ f = 0 /\
  params_size_ f = frame_size_ (frame_run id name params).2 /\
  (Forall (fun op => 0 < GetSize (op_type op)) (params ++ vars) ->
   forall l, l ∈ locals_ f -> LookupLocalInfoByOffset f (li_offset l) = Some l).
Proof.
  intros Hps Hvs Hroom Hlen. pose proof (frame_run_spec id name (params ++ vars) Hroom Hlen) as Hrun.
  assert (params_size_ (frame_run id name (params ++ vars)).2 = frame_size_ (frame_run id name params).2) as Eps.
  { transitivity (params_size_ (frame_run id name params).2).
    - unfold frame_run. rewrite foldl_app. destruct (foldl _ _ params) as [refs f]. by apply vars_keep_params_size.
    - pose proof (frame_run_spec id name params) as Hp. rewrite map_app, room_app, length_app in *.
      pose proof (room_nonneg (map op_type vars)). specialize (Hp ltac:(lia) ltac:(lia)).
      destruct (frame_run id name params) as [refs f]. by apply Hp. }
  destruct (frame_run id name (params ++ vars)) as [refs f]. destruct Hrun as (Hp & Hf & Hall & -> & Hoffs & Hn & Hst & _).
  assert (Forall (fun i : Z * (Z * Z) => 0 <= i.2.1) (map local_place (locals_ f))) as Hsz.
  { apply Forall_map, Forall_forall. intros l Hl. apply list_elem_of_lookup_1 in Hl as [i Hi].
    destruct (Forall2_lookup_r _ _ _ _ _ Hall Hi) as (op & _ & (_ & Es & _)). simpl. rewrite Es. apply GetSize_range. }
  assert (forall i l, locals_ f !! i = Some l -> map local_place (locals_ f) !! i = Some (local_place l)) as Hlk.
  { intros i l Hi. by rewrite list_lookup_fmap, Hi. }
  split_and!; try done.
  - rewrite map_map. apply map_ext_Forall. eapply Forall_impl; [exact Hoffs|]. intros l Hl. by apply GetOffset_new.
  - apply Forall_map. eapply Forall_impl; [exact Hoffs|]. intros l Hl. by apply GetAddressMode_new.
  - intros i l Hi. pose proof (placed_bounds _ _ _ Hsz Hp) as [_ Hb]. rewrite Forall_lookup in Hb.
    specialize (Hb _ _ (Hlk _ _ Hi)) as [? ?]. pose proof (placed_aligned _ _ _ Hp) as Hal. rewrite Forall_lookup in Hal.
    specialize (Hal _ _ (Hlk _ _ Hi)). done.
  - intros i j l l' Hi Hj Hij. exact (placed_disjoint _ _ _ i j _ _ Hsz Hp (Hlk _ _ Hi) (Hlk _ _ Hj) Hij).
  - by rewrite Hn, filter_params.
  - intros Hpos l Hl. unfold LookupLocalInfoByOffset. eapply find_by_offset; [|exact Hp|done].
    apply Forall_forall. intros x Hx. apply list_elem_of_lookup_1 in Hx as [i Hi].
    destruct (Forall2_lookup_r _ _ _ _ _ Hall Hi) as (op & Hop & (_ & Es & _)). rewrite Es.
    rewrite Forall_lookup in Hpos. by eapply Hpos.
Qed.

(** A local that is made is found by its name when no local of the function has the name yet;
    otherwise the lookup goes on finding the earlier one, so a second variable of the same name, or one
    that is called like a temporary, is never reached.  Other names are not affected. *)
Theorem lookup_finds_the_first_local `{AlignOps} {T : Type} `{TypeLayout T} (f : FunctionInfo T) (t : T) (name : string) :
  name <> EmptyString ->
  let '(v, f') := NewLocal f t name in
  LookupLocal f' name = match LookupLocalInfoByName f name with
                        | Some l => new_LocalVar (li_offset l) Address
                        | None => v
                        end /\
  (forall other, other <> name -> LookupLocalInfoByName f' other = LookupLocalInfoByName f other).
Proof.
  intros Hn. unfold NewLocal, NewLocal_kind. rewrite (proj2 (String.eqb_neq name EmptyString)) by done.
  unfold LookupLocal, LookupLocalInfoByName. cbn [locals_]. split.
  - rewrite find_app. destruct (List.find _ (locals_ f)); [done|]. simpl. by rewrite String.eqb_refl.
  - intros other Ho. rewrite find_app. destruct (List.find _ (locals_ f)); [done|]. simpl.
    by rewrite (proj2 (String.eqb_neq name other)) by done.
Qed.

(** * Witnesses *)

(** Rounding up, and primitive types of 1, 2, 4 and 8 bytes. *)
Definition sample_align : AlignOps := {| alignTo v a := (v + a - 1) / a * a |}.
Lemma sample_align_spec : @AlignOpsSpec sample_align.
Proof.
  constructor. intros v a Hv Ha _. cbn [alignTo sample_align]. split; [|by exists ((v + a - 1) / a)].
  pose proof (Z.div_mod (v + a - 1) a ltac:(lia)). pose proof (Z.mod_pos_bound (v + a - 1) a Ha). lia.
Qed.

Inductive sample_type : Set := T1 | T2 | T4 | T8.
Definition sample_bytes (t : sample_type) : Z := match t with T1 => 1 | T2 => 2 | T4 => 4 | T8 => 8 end.
Definition sample_layout : TypeLayout sample_type := {| GetSize := sample_bytes; GetAlignment := sample_bytes |}.
Lemma sample_layout_spec : @TypeLayoutSpec sample_type sample_layout.
Proof.
  constructor; intros []; cbn; try (split; done); [exists 0|exists 1|exists 2|exists 3]; done.
Qed.

Lemma local_references_roundtrip_witness :
  GetOffset (LocalVar_Decode (LocalVar_Encode (new_LocalVar 24 Value))) = 24.
Proof. exact (proj1 (proj2 (proj1 local_references_roundtrip 24 Value ltac:(done)))). Defined.

Lemma struct_layout_witness :
  let l := @new_LayoutHelper sample_align _ sample_layout [T1; T8; T2] in
  offsets_ l = [0; 8; 16] /\ (alignment_ l | size_ l).
Proof.
  split; [reflexivity|].
  exact (proj2 (proj2 (proj2 (@struct_layout sample_align sample_align_spec _ sample_layout sample_layout_spec [T1; T8; T2] ltac:(done))))).
Defined.

Lemma frame_layout_witness :
  map GetOffset (@frame_run sample_align _ sample_layout 0 "main" [NewParam T1 "a"; NewVar T8 "b"; NewVar T2 ""]).1 = [0; 8; 16].
Proof.
  pose proof (@frame_layout sample_align sample_align_spec _ sample_layout sample_layout_spec 0 "main"
    [NewParam T1 "a"] [NewVar T8 "b"; NewVar T2 ""] ltac:(by repeat constructor) ltac:(by repeat constructor) ltac:(done) ltac:(done)) as Hf.
  destruct (frame_run 0 "main" _) as [refs f] eqn:E. vm_compute in E. injection E as <- <-.
  exact (proj1 (proj2 Hf)).
Defined.

Lemma lookup_finds_the_first_local_witness :
  let f := (@NewLocal sample_align _ sample_layout (new_FunctionInfo 0 "main") T8 "i").2 in
  GetOffset (LookupLocal (@NewLocal sample_align _ sample_layout f T8 "i").2 "i") = 0.
Proof.
  intros f. pose proof (@lookup_finds_the_first_local sample_align _ sample_layout f T8 "i" ltac:(done)) as Hl.
  destruct (NewLocal f T8 "i") as [v f'] eqn:E. cbn [snd]. rewrite (proj1 Hl). reflexivity.
Defined.
