(* ===== verification/BytecodeEmitter.v ===== *)
(** Writing bytecode: [src/include/vm/bytecode_label.h], [src/include/vm/bytecode_emitter.h],
    [src/vm/bytecode_emitter.cpp] and [src/vm/control_flow_builders.cpp].

    The emitter's state is the vector of bytes it appends to.  A label is an object the callers own, so
    an operation that changes one returns it.  Writing a delta into the vector is [None] outside of it.
    The assertions, which a release build leaves out, are conditions of the theorems. *)
From S2P Require Import Prelude Buffer Bytecodes FunctionInfo.

(** * Labels *)

Record BytecodeLabel := mkLabel { label_offset_ : Z; referrer_offsets_ : list Z; bound_ : bool }.

Definition kInvalidLabelOffset : Z := 2 ^ 64 - 1.
Definition new_Label : BytecodeLabel := mkLabel kInvalidLabelOffset [] false.
Definition IsBound (l : BytecodeLabel) : bool := bound_ l.
Definition GetReferrerOffsets (l : BytecodeLabel) : list Z := referrer_offsets_ l.
Definition IsForwardTarget (l : BytecodeLabel) : bool :=
  negb (IsBound l) && negb (bool_decide (GetReferrerOffsets l = [])).
Definition SetReferrer (l : BytecodeLabel) (offset : Z) : BytecodeLabel :=
  mkLabel (label_offset_ l) (referrer_offsets_ l ++ [offset]) (bound_ l).
Definition BindTo (l : BytecodeLabel) (offset : Z) : BytecodeLabel := mkLabel offset (referrer_offsets_ l) true.

(** * The emitter *)

Definition GetPosition (bytecode : list Z) : Z := Z.of_nat (length bytecode).

(** What [EmitAll] is given: a bytecode, a local, or a number of [n] bytes; a floating-point number is
    the number its bits are. *)
Inductive arg : Type := ABytecode (b : Z) | ALocal (v : LocalVar) | AImm (n : nat) (v : Z).

Definition EmitScalarValue (n : nat) (val : Z) (bytecode : list Z) : list Z := bytecode ++ le_encode n val.
Definition EmitImpl (a : arg) (bytecode : list Z) : list Z :=
  match a with
  | ABytecode b => EmitScalarValue 4 b bytecode
  | ALocal v => EmitScalarValue 4 (LocalVar_Encode v) bytecode
  | AImm n v => EmitScalarValue n v bytecode
  end.
Definition EmitAll (args : list arg) (bytecode : list Z) : list Z := foldl (fun bc a => EmitImpl a bc) bytecode args.

(** The integer types of the arguments. *)
Definition i8 (v : Z) : arg := AImm 1 v.
Definition i16 (v : Z) : arg := AImm 2 v.
Definition i32 (v : Z) : arg := AImm 4 v.
Definition i64 (v : Z) : arg := AImm 8 v.
Definition u16 (v : Z) : arg := AImm 2 (wrapu 16 v).
Definition u32 (v : Z) : arg := AImm 4 (wrapu 32 v).
Definition fid (v : Z) : arg := u16 v.

Definition EmitDeref (b : Z) (dest src : LocalVar) := EmitAll [ABytecode b; ALocal dest; ALocal src].
Definition EmitDerefN (dest src : LocalVar) (len : Z) :=
  EmitAll [ABytecode (code "DerefN"); ALocal dest; ALocal src; u32 len].
Definition EmitAssign (b : Z) (dest src : LocalVar) := EmitAll [ABytecode b; ALocal dest; ALocal src].
Definition EmitAssignN (dest src : LocalVar) (len : Z) :=
  EmitAll [ABytecode (code "AssignN"); ALocal dest; ALocal src; u32 len].
Definition EmitAssignImm1 (dest : LocalVar) (val : Z) := EmitAll [ABytecode (code "AssignImm1"); ALocal dest; i8 val].
Definition EmitAssignImm2 (dest : LocalVar) (val : Z) := EmitAll [ABytecode (code "AssignImm2"); ALocal dest; i16 val].
Definition EmitAssignImm4 (dest : LocalVar) (val : Z) := EmitAll [ABytecode (code "AssignImm4"); ALocal dest; i32 val].
Definition EmitAssignImm8 (dest : LocalVar) (val : Z) := EmitAll [ABytecode (code "AssignImm8"); ALocal dest; i64 val].
Definition EmitAssignImm4F (dest : LocalVar) (val : Z) :=
  EmitAll [ABytecode (code "AssignImm4F"); ALocal dest; u32 val].
Definition EmitAssignImm8F (dest : LocalVar) (val : Z) :=
  EmitAll [ABytecode (code "AssignImm8F"); ALocal dest; AImm 8 (wrapu 64 val)].
Definition EmitUnaryOp (b : Z) (dest input : LocalVar) := EmitAll [ABytecode b; ALocal dest; ALocal input].
Definition EmitBinaryOp (b : Z) (dest lhs rhs : LocalVar) :=
  EmitAll [ABytecode b; ALocal dest; ALocal lhs; ALocal rhs].
Definition EmitLea (dest src : LocalVar) (offset : Z) :=
  EmitAll [ABytecode (code "Lea"); ALocal dest; ALocal src; u32 offset].
Definition EmitLeaScaled (dest src index : LocalVar) (scale offset : Z) :=
  EmitAll [ABytecode (code "LeaScaled"); ALocal dest; ALocal src; ALocal index; u32 scale; u32 offset].
Definition EmitCall (func_id : Z) (params : list LocalVar) (bytecode : list Z) : list Z :=
  let bytecode := EmitAll [ABytecode (code "Call"); u16 func_id; u16 (Z.of_nat (length params))] bytecode in
  foldl (fun bc local => EmitImpl (ALocal local) bc) bytecode params.
Definition EmitReturn := EmitImpl (ABytecode (code "Return")).

(** ** Jumps *)

Definition kJumpPlaceholder : Z := 2 ^ 31 - 2.

(** The loop of [Bind]: each place that jumps here gets its distance. *)
Fixpoint patch (jump_locations : list Z) (curr_offset : Z) (bytecode : list Z) : option (list Z) :=
  match jump_locations with
  | [] => Some bytecode
  | jump_location :: rest =>
      let delta := wraps 32 (curr_offset - jump_location) in
      bytecode ← store jump_location (le_encode 4 delta) bytecode;
      patch rest curr_offset bytecode
  end.

Definition Bind (label : BytecodeLabel) (bytecode : list Z) : option (BytecodeLabel * list Z) :=
  let curr_offset := GetPosition bytecode in
  bytecode ← (if IsForwardTarget label then patch (GetReferrerOffsets label) curr_offset bytecode else Some bytecode);
  Some (BindTo label curr_offset, bytecode).

(** The private [EmitJump]: the operand of a jump. *)
Definition EmitJumpOperand (label : BytecodeLabel) (bytecode : list Z) : BytecodeLabel * list Z :=
  let curr_offset := GetPosition bytecode in
  if IsBound label then
    let delta := wrapu 64 (curr_offset - label_offset_ label) in
    (label, EmitScalarValue 4 (wraps 32 (- wraps 32 delta)) bytecode)
  else (SetReferrer label curr_offset, EmitScalarValue 4 kJumpPlaceholder bytecode).

Definition EmitJump (b : Z) (label : BytecodeLabel) (bytecode : list Z) : BytecodeLabel * list Z :=
  EmitJumpOperand label (EmitAll [ABytecode b] bytecode).
Definition EmitConditionalJump (b : Z) (cond : LocalVar) (label : BytecodeLabel) (bytecode : list Z)
  : BytecodeLabel * list Z :=
  EmitJumpOperand label (EmitAll [ABytecode b; ALocal cond] bytecode).

(** ** Generic and special emissions *)

(** The five overloads of [Emit], for one to five locals. *)
Definition Emit (b : Z) (operands : list LocalVar) := EmitAll (ABytecode b :: map ALocal operands).

Definition EmitInitString (dest static_local_string : LocalVar) (string_len : Z) :=
  EmitAll [ABytecode (code "InitString"); ALocal dest; ALocal static_local_string; u32 string_len].
Definition EmitThreadStateContainerIterate (tls ctx : LocalVar) (iterate_fn : Z) :=
  EmitAll [ABytecode (code "ThreadStateContainerIterate"); ALocal tls; ALocal ctx; fid iterate_fn].
Definition EmitThreadStateContainerReset (tls state_size : LocalVar) (init_fn destroy_fn : Z) (ctx : LocalVar) :=
  EmitAll [ABytecode (code "ThreadStateContainerReset"); ALocal tls; ALocal state_size; fid init_fn; fid destroy_fn;
           ALocal ctx].
Definition EmitTableIterInit (b : Z) (iter : LocalVar) (table_id : Z) :=
  EmitAll [ABytecode b; ALocal iter; u16 table_id].
Definition EmitParallelTableScan (table_id : Z) (ctx thread_states : LocalVar) (scan_fn : Z) :=
  EmitAll [ABytecode (code "ParallelScanTable"); u16 table_id; ALocal ctx; ALocal thread_states; fid scan_fn].
Definition EmitVPIGet (b : Z) (out vpi : LocalVar) (col_idx : Z) :=
  EmitAll [ABytecode b; ALocal out; ALocal vpi; u32 col_idx].
Definition EmitVPISet (b : Z) (vpi input : LocalVar) (col_idx : Z) :=
  EmitAll [ABytecode b; ALocal vpi; ALocal input; u32 col_idx].
Definition EmitFilterManagerInsertFilter (filter_manager : LocalVar) (func : Z) :=
  EmitAll [ABytecode (code "FilterManagerInsertFilter"); ALocal filter_manager; fid func].
Definition EmitJoinHashTableInit (jht memory entry_size : LocalVar) (analysis_fn compress_fn : Z) :=
  EmitAll [ABytecode (code "JoinHashTableInit2"); ALocal jht; ALocal memory; ALocal entry_size; fid analysis_fn;
           fid compress_fn].
Definition EmitAggHashTableProcessBatch (agg_ht vpi : LocalVar) (num_keys : Z) (key_cols : LocalVar)
  (init_agg_fn merge_agg_fn : Z) (partitioned : LocalVar) :=
  EmitAll [ABytecode (code "AggregationHashTableProcessBatch"); ALocal agg_ht; ALocal vpi; u32 num_keys;
           ALocal key_cols; fid init_agg_fn; fid merge_agg_fn; ALocal partitioned].
Definition EmitAggHashTableMovePartitions (agg_ht tls aht_offset : LocalVar) (merge_part_fn : Z) :=
  EmitAll [ABytecode (code "AggregationHashTableTransferPartitions"); ALocal agg_ht; ALocal tls; ALocal aht_offset;
           fid merge_part_fn].
Definition EmitAggHashTableParallelPartitionedScan (agg_ht context tls : LocalVar) (scan_part_fn : Z) :=
  EmitAll [ABytecode (code "AggregationHashTableParallelPartitionedScan"); ALocal agg_ht; ALocal context; ALocal tls;
           fid scan_part_fn].
Definition EmitSorterInit (b : Z) (sorter region : LocalVar) (cmp_fn : Z) (tuple_size : LocalVar) :=
  EmitAll [ABytecode b; ALocal sorter; ALocal region; fid cmp_fn; ALocal tuple_size].
Definition EmitCSVReaderInit (reader file_name : LocalVar) (file_name_len : Z) :=
  EmitAll [ABytecode (code "CSVReaderInit"); ALocal reader; ALocal file_name; u32 file_name_len].
Definition EmitConcat (result exec_ctx strings : LocalVar) (num_strings : Z) :=
  EmitAll [ABytecode (code "Concat"); ALocal result; ALocal exec_ctx; ALocal strings; u32 num_strings].

(** * Control-flow builders

    A builder owns its labels; its destructor binds what is left to bind. *)

Record BreakableBlockBuilder := mkBreakable { break_label_ : BytecodeLabel }.
Record LoopBuilder := mkLoop { loop_block : BreakableBlockBuilder; header_label_ : BytecodeLabel; continue_label_ : BytecodeLabel }.
Record IfThenElseBuilder := mkIf { then_label_ : BytecodeLabel; else_label_ : BytecodeLabel; end_label_ : BytecodeLabel }.

Definition new_LoopBuilder : LoopBuilder := mkLoop (mkBreakable new_Label) new_Label new_Label.
Definition new_IfThenElseBuilder : IfThenElseBuilder := mkIf new_Label new_Label new_Label.

Definition delete_BreakableBlockBuilder (b : BreakableBlockBuilder) (bc : list Z) : option (list Z) :=
  snd <$> Bind (break_label_ b) bc.
Definition Break (b : BreakableBlockBuilder) (bc : list Z) : BreakableBlockBuilder * list Z :=
  let '(l, bc) := EmitJump (code "Jump") (break_label_ b) bc in (mkBreakable l, bc).

Definition LoopHeader (b : LoopBuilder) (bc : list Z) : option (LoopBuilder * list Z) :=
  '(l, bc) ← Bind (header_label_ b) bc; Some (mkLoop (loop_block b) l (continue_label_ b), bc).
Definition JumpToHeader (b : LoopBuilder) (bc : list Z) : LoopBuilder * list Z :=
  let '(l, bc) := EmitJump (code "Jump") (header_label_ b) bc in (mkLoop (loop_block b) l (continue_label_ b), bc).
Definition Continue (b : LoopBuilder) (bc : list Z) : LoopBuilder * list Z :=
  let '(l, bc) := EmitJump (code "Jump") (continue_label_ b) bc in (mkLoop (loop_block b) (header_label_ b) l, bc).
Definition Loop_Break (b : LoopBuilder) (bc : list Z) : LoopBuilder * list Z :=
  let '(blk, bc) := Break (loop_block b) bc in (mkLoop blk (header_label_ b) (continue_label_ b), bc).
Definition BindContinueTarget (b : LoopBuilder) (bc : list Z) : option (LoopBuilder * list Z) :=
  '(l, bc) ← Bind (continue_label_ b) bc; Some (mkLoop (loop_block b) (header_label_ b) l, bc).
Definition delete_LoopBuilder (b : LoopBuilder) (bc : list Z) : option (list Z) :=
  delete_BreakableBlockBuilder (loop_block b) bc.

Definition Then (b : IfThenElseBuilder) (bc : list Z) : option (IfThenElseBuilder * list Z) :=
  '(l, bc) ← Bind (then_label_ b) bc; Some (mkIf l (else_label_ b) (end_label_ b), bc).
Definition Else (b : IfThenElseBuilder) (bc : list Z) : option (IfThenElseBuilder * list Z) :=
  '(l, bc) ← Bind (else_label_ b) bc; Some (mkIf (then_label_ b) l (end_label_ b), bc).
Definition JumpToEnd (b : IfThenElseBuilder) (bc : list Z) : IfThenElseBuilder * list Z :=
  let '(l, bc) := EmitJump (code "Jump") (end_label_ b) bc in (mkIf (then_label_ b) (else_label_ b) l, bc).
Definition delete_IfThenElseBuilder (b : IfThenElseBuilder) (bc : list Z) : option (list Z) :=
  bc ← (if negb (IsBound (else_label_ b)) then snd <$> Bind (else_label_ b) bc else Some bc);
  snd <$> Bind (end_label_ b) bc.
