(* ===== verification/BytecodeIterator.v ===== *)
(** Reading bytecode: [src/include/vm/bytecode_iterator.h] and [src/vm/bytecode_iterator.cpp].

    A read outside of the bytes, or about a bytecode or an operand that does not exist, is [None]. *)
From S2P Require Import Prelude Buffer Bytecodes FunctionInfo.

Record BytecodeIterator := mkIter { bytecodes_ : list Z; start_offset_ : Z; end_offset_ : Z; curr_offset_ : Z }.

Definition new_BytecodeIterator (bytecode : list Z) (start stop : Z) : BytecodeIterator :=
  mkIter bytecode start stop start.
Definition new_BytecodeIterator_all (bytecode : list Z) : BytecodeIterator :=
  new_BytecodeIterator bytecode 0 (Z.of_nat (length bytecode)).

Definition CurrentBytecode (it : BytecodeIterator) : option Z := read_uint 4 (curr_offset_ it) (bytecodes_ it).
Definition Done (it : BytecodeIterator) : bool := end_offset_ it <=? curr_offset_ it.
Definition Iterator_GetPosition (it : BytecodeIterator) : Z := curr_offset_ it - start_offset_ it.
Definition SetPosition (it : BytecodeIterator) (pos : Z) : BytecodeIterator :=
  mkIter (bytecodes_ it) (start_offset_ it) (end_offset_ it) (start_offset_ it + pos).

(** The type and the address of an operand. *)
Definition operand_type (it : BytecodeIterator) (i : nat) : option OperandType :=
  b ← CurrentBytecode it; GetNthOperandType b i.
Definition operand_address (it : BytecodeIterator) (i : nat) : option Z :=
  b ← CurrentBytecode it; offset ← GetNthOperandOffset b i; Some (curr_offset_ it + offset).

Definition GetImmediateIntegerOperand (it : BytecodeIterator) (operand_index : nat) : option Z :=
  t ← operand_type it operand_index;
  a ← operand_address it operand_index;
  match t with
  | Imm1 => read_sint 1 a (bytecodes_ it)
  | Imm2 => read_sint 2 a (bytecodes_ it)
  | Imm4 => read_sint 4 a (bytecodes_ it)
  | Imm8 => read_sint 8 a (bytecodes_ it)
  | _ => None
  end.

(** The bits of the number; a [float] becomes a [double]. *)
Inductive float_bits : Set := FloatBits (z : Z) | DoubleBits (z : Z).
Definition GetImmediateFloatOperand (it : BytecodeIterator) (operand_index : nat) : option float_bits :=
  t ← operand_type it operand_index;
  a ← operand_address it operand_index;
  match t with
  | Imm4F => FloatBits <$> read_uint 4 a (bytecodes_ it)
  | Imm8F => DoubleBits <$> read_uint 8 a (bytecodes_ it)
  | _ => None
  end.

Definition GetUnsignedImmediateIntegerOperand (it : BytecodeIterator) (operand_index : nat) : option Z :=
  t ← operand_type it operand_index;
  a ← operand_address it operand_index;
  match t with
  | UImm2 => read_uint 2 a (bytecodes_ it)
  | UImm4 => read_uint 4 a (bytecodes_ it)
  | _ => None
  end.

Definition GetJumpOffsetOperand (it : BytecodeIterator) (operand_index : nat) : option Z :=
  a ← operand_address it operand_index; read_sint 4 a (bytecodes_ it).
Definition GetLocalOperand (it : BytecodeIterator) (operand_index : nat) : option LocalVar :=
  a ← operand_address it operand_index; LocalVar_Decode <$> read_uint 4 a (bytecodes_ it).
Definition GetStaticLocalOperand (it : BytecodeIterator) (operand_index : nat) : option LocalVar :=
  a ← operand_address it operand_index; LocalVar_Decode <$> read_uint 4 a (bytecodes_ it).

(** The loop of [GetLocalCountOperand]. *)
Fixpoint read_locals (n : nat) (locals_address : Z) (mem : list Z) : option (list LocalVar) :=
  match n with
  | O => Some []
  | S n' =>
      encoded_val ← read_uint 4 locals_address mem;
      locals ← read_locals n' (locals_address + kSize Local) mem;
      Some (LocalVar_Decode encoded_val :: locals)
  end.
Definition GetLocalCountOperand (it : BytecodeIterator) (operand_index : nat) : option (Z * list LocalVar) :=
  a ← operand_address it operand_index;
  num_locals ← read_uint 2 a (bytecodes_ it);
  locals ← read_locals (Z.to_nat num_locals) (a + kSize LocalCount) (bytecodes_ it);
  Some (num_locals, locals).

Definition GetFunctionIdOperand (it : BytecodeIterator) (operand_index : nat) : option Z :=
  a ← operand_address it operand_index; read_uint 2 a (bytecodes_ it).

(** The loop over the operands, from the [i]-th; [n] are left. *)
Fixpoint operands_size (it : BytecodeIterator) (b : Z) (i n : nat) (size : Z) : option Z :=
  match n with
  | O => Some size
  | S n' =>
      s ← GetNthOperandSize b i;
      t ← GetNthOperandType b i;
      let size := wrapu 32 (size + operand_bytes s) in
      size ← (if bool_decide (t = LocalCount) then
                num_locals ← fst <$> GetLocalCountOperand it i;
                Some (wrapu 32 (size + num_locals * kSize Local))
              else Some size);
      operands_size it b (S i) n' size
  end.
Definition CurrentBytecodeSize (it : BytecodeIterator) : option Z :=
  b ← CurrentBytecode it;
  n ← NumOperands b;
  operands_size it b 0 n kBytecodeSize.

Definition Advance (it : BytecodeIterator) : option BytecodeIterator :=
  size ← CurrentBytecodeSize it;
  Some (mkIter (bytecodes_ it) (start_offset_ it) (end_offset_ it) (curr_offset_ it + size)).
