(* ===== verification/BytecodeSpec.v ===== *)
(** What the emitter writes, without the patching: instructions, programs with labels, and their
    encoding when every label is replaced by the distance to it; and that the emitter writes it. *)
From stdpp Require Import functions.
From S2P Require Import Prelude Buffer Bytecodes FunctionInfo BytecodeEmitter.

(** * Instructions

    [Plain b args] has one value per operand of [b], a local being its 32-bit word; a call has a
    variable number of locals. *)

Inductive instr : Type := Plain (b : Z) (args : list Z) | CallI (func_id : Z) (locals : list Z).

Definition types_of (b : Z) : list OperandType := default [] (GetOperandTypes b).
Definition operand_size (t : OperandType) : nat := Z.to_nat (kSize t).
Definition encode_operand (t : OperandType) (z : Z) : list Z := le_encode (operand_size t) z.
Definition encode_operands (types : list OperandType) (args : list Z) : list Z :=
  concat (zip_with encode_operand types args).
Definition encode_instr (i : instr) : list Z :=
  match i with
  | Plain b args => le_encode 4 b ++ encode_operands (types_of b) args
  | CallI f locals =>
      le_encode 4 (code "Call") ++ le_encode 2 f ++ le_encode 2 (Z.of_nat (length locals)) ++
      concat (map (le_encode 4) locals)
  end.
Definition encode (p : list instr) : list Z := concat (map encode_instr p).

(** The values an operand of a type holds; a count of locals is not one of them. *)
Definition operand_ok (t : OperandType) (z : Z) : Prop :=
  match t with
  | NoOperand | LocalCount => False
  | Imm1 => is_sint 8 z
  | Imm2 => is_sint 16 z
  | Imm4 | JumpOffset => is_sint 32 z
  | Imm8 => is_sint 64 z
  | UImm2 | FunctionId => is_uint 16 z
  | UImm4 | Imm4F | Local | StaticLocal => is_uint 32 z
  | Imm8F => is_uint 64 z
  end.
Definition instr_ok (i : instr) : Prop :=
  match i with
  | Plain b args => GetOperandTypes b = Some (types_of b) /\ Forall2 operand_ok (types_of b) args
  | CallI f locals => is_uint 16 f /\ is_uint 16 (Z.of_nat (length locals)) /\ Forall (is_uint 32) locals
  end.

(** * Programs with labels *)

Inductive item : Type := Ins (i : instr) | Jmp (b : Z) (cond : option Z) (l : nat) | Lab (l : nat).

(** The emitter's calls for an item. *)
Definition typed_arg (t : OperandType) (z : Z) : arg := AImm (operand_size t) z.
Definition emit_item (it : item) (s : (nat -> BytecodeLabel) * list Z) : option ((nat -> BytecodeLabel) * list Z) :=
  let '(labels, bc) := s in
  match it with
  | Ins (Plain b args) => Some (labels, EmitAll (ABytecode b :: zip_with typed_arg (types_of b) args) bc)
  | Ins (CallI f locals) => Some (labels, EmitCall f (map LocalVar_Decode locals) bc)
  | Jmp b cond l =>
      let '(label, bc) := match cond with
                          | None => EmitJump b (labels l) bc
                          | Some c => EmitConditionalJump b (LocalVar_Decode c) (labels l) bc
                          end in
      Some (<[l := label]> labels, bc)
  | Lab l => '(label, bc) ← Bind (labels l) bc; Some (<[l := label]> labels, bc)
  end.
Fixpoint emit_items (p : list item) (s : (nat -> BytecodeLabel) * list Z) : option ((nat -> BytecodeLabel) * list Z) :=
  match p with [] => Some s | it :: p' => s ← emit_item it s; emit_items p' s end.

(** A jump takes its distance from the position of its operand; a label that is not known yet is the
    placeholder. *)
Definition cond_args (cond : option Z) : list Z := match cond with None => [] | Some c => [c] end.
Definition site (pos : Z) (cond : option Z) : Z := pos + 4 + 4 * Z.of_nat (length (cond_args cond)).
Definition distance (target : option Z) (from : Z) : Z :=
  match target with Some t => t - from | None => kJumpPlaceholder end.
Definition lower_item (where_ : nat -> option Z) (pos : Z) (it : item) : list instr :=
  match it with
  | Ins i => [i]
  | Jmp b cond l => [Plain b (cond_args cond ++ [distance (where_ l) (site pos cond)])]
  | Lab _ => []
  end.

Definition item_size (it : item) : Z :=
  match it with
  | Ins i => Z.of_nat (length (encode_instr i))
  | Jmp b cond l => 8 + 4 * Z.of_nat (length (cond_args cond))
  | Lab _ => 0
  end.
Fixpoint lower (where_ : nat -> option Z) (pos : Z) (p : list item) : list instr :=
  match p with [] => [] | it :: p' => lower_item where_ pos it ++ lower where_ (pos + item_size it) p' end.
Definition program_size (p : list item) : Z := foldr (fun it n => item_size it + n) 0 p.

(** Where a program binds a label. *)
Fixpoint where_bound (pos : Z) (p : list item) (l : nat) : option Z :=
  match p with
  | [] => None
  | it :: p' =>
      match it with
      | Lab l' => if decide (l' = l) then Some pos else where_bound (pos + item_size it) p' l
      | _ => where_bound (pos + item_size it) p' l
      end
  end.

(** The jumps have the operands of their bytecode. *)
Definition jump_types (cond : option Z) : list OperandType := map (fun _ => Local) (cond_args cond) ++ [JumpOffset].
Definition item_ok (it : item) : Prop :=
  match it with
  | Ins i => instr_ok i
  | Jmp b cond l => GetOperandTypes b = Some (jump_types cond) /\ Forall (is_uint 32) (cond_args cond)
  | Lab _ => True
  end.
Definition labels_of (p : list item) : list nat := omap (fun it => match it with Lab l => Some l | _ => None end) p.
Definition targets_of (p : list item) : list nat := omap (fun it => match it with Jmp _ _ l => Some l | _ => None end) p.

(** Every label a jump needs is bound, none twice, and distances fit. *)
Record program_ok (p : list item) : Prop := {
  items_ok : Forall item_ok p;
  labels_once : NoDup (labels_of p);
  targets_bound : forall l, l ∈ targets_of p -> l ∈ labels_of p;
  size_fits : program_size p < 2 ^ 31 - 1
}.

(** * The emitter appends *)

Definition arg_bytes (a : arg) : list Z :=
  match a with ABytecode b => le_encode 4 b | ALocal v => le_encode 4 (bitfield_ v) | AImm n v => le_encode n v end.

Lemma EmitAll_bytes args bc : EmitAll args bc = bc ++ concat (map arg_bytes args).
Proof.
  unfold EmitAll. revert bc. induction args as [|a args IH]; intros bc; simpl; [by rewrite app_nil_r|].
  rewrite IH. destruct a; cbn [EmitImpl arg_bytes]; unfold EmitScalarValue; by rewrite <- app_assoc.
Qed.

Lemma EmitCall_bytes f params bc : EmitCall f params bc =
  bc ++ le_encode 4 (code "Call") ++ le_encode 2 f ++ le_encode 2 (Z.of_nat (length params)) ++
  concat (map (fun v => le_encode 4 (bitfield_ v)) params).
Proof.
  unfold EmitCall. rewrite EmitAll_bytes. cbn [map concat arg_bytes u16].
  change 16 with (8 * Z.of_nat 2). rewrite !le_encode_wrapu, app_nil_r, <- ?app_assoc.
  assert (forall l bc', foldl (fun bc local => EmitImpl (ALocal local) bc) bc' l = bc' ++ concat (map (fun v => le_encode 4 (bitfield_ v)) l)) as ->.
  { induction l as [|v l IH]; intros bc'; simpl; [by rewrite app_nil_r|]. rewrite IH. unfold EmitScalarValue. by rewrite <- app_assoc. }
  by rewrite <- !app_assoc.
Qed.

Lemma encode_typed_args types args : concat (map arg_bytes (zip_with typed_arg types args)) = encode_operands types args.
Proof.
  unfold encode_operands. revert args. induction types as [|t types IH]; intros [|z args]; simpl; try done. by rewrite IH.
Qed.

Lemma emit_plain b args bc : EmitAll (ABytecode b :: zip_with typed_arg (types_of b) args) bc = bc ++ encode_instr (Plain b args).
Proof. rewrite EmitAll_bytes. cbn [map concat arg_bytes encode_instr]. by rewrite encode_typed_args. Qed.

Lemma emit_call f locals bc : EmitCall f (map LocalVar_Decode locals) bc = bc ++ encode_instr (CallI f locals).
Proof. rewrite EmitCall_bytes, length_map, map_map. done. Qed.

(** The bytes of a jump, and that the emitter's are those. *)
Definition jump_head (b : Z) (cond : option Z) : list Z := le_encode 4 b ++ concat (map (le_encode 4) (cond_args cond)).

Lemma length_jump_head b cond : Z.of_nat (length (jump_head b cond)) = 4 + 4 * Z.of_nat (length (cond_args cond)).
Proof. unfold jump_head. rewrite length_app, length_le_encode. destruct cond; simpl; rewrite ?length_app, ?length_le_encode; simpl; lia. Qed.

Lemma encode_jump b cond d : GetOperandTypes b = Some (jump_types cond) ->
  encode_instr (Plain b (cond_args cond ++ [d])) = jump_head b cond ++ le_encode 4 d.
Proof.
  intros Hb. unfold encode_instr, jump_head, types_of. rewrite Hb. unfold encode_operands, jump_types. simpl default.
  destruct cond; simpl; by rewrite ?app_nil_r, <- ?app_assoc.
Qed.

Lemma emit_jump_head b cond (labels : nat -> BytecodeLabel) l bc :
  match cond with None => EmitJump b (labels l) bc | Some c => EmitConditionalJump b (LocalVar_Decode c) (labels l) bc end =
  EmitJumpOperand (labels l) (bc ++ jump_head b cond).
Proof.
  destruct cond; unfold EmitJump, EmitConditionalJump; rewrite EmitAll_bytes; unfold jump_head; simpl; by rewrite ?app_nil_r.
Qed.

(** * Patching

    The places in a program that jump to a label, from the position the program starts at. *)
Fixpoint sites (l : nat) (pos : Z) (p : list item) : list Z :=
  match p with
  | [] => []
  | it :: p' =>
      match it with Jmp _ cond l' => if decide (l' = l) then [site pos cond] else [] | _ => [] end ++
      sites l (pos + item_size it) p'
  end.

Lemma encode_app p q : encode (p ++ q) = encode p ++ encode q.
Proof. unfold encode. by rewrite map_app, concat_app. Qed.

Lemma encode_one i : encode [i] = encode_instr i.
Proof. unfold encode. simpl. apply app_nil_r. Qed.

Lemma item_size_nonneg it : 0 <= item_size it.
Proof. destruct it; simpl; lia. Qed.
Lemma program_size_nonneg p : 0 <= program_size p.
Proof. unfold program_size. induction p as [|it p IH]; simpl; [lia|]. pose proof (item_size_nonneg it). lia. Qed.

Lemma length_lower_item where_ pos it : item_ok it -> Z.of_nat (length (encode (lower_item where_ pos it))) = item_size it.
Proof.
  intros Hok. destruct it as [i|b cond l|l]; unfold encode; cbn [lower_item map concat item_size].
  - by rewrite app_nil_r.
  - destruct Hok as [Hb _]. rewrite app_nil_r, encode_jump by done. rewrite length_app, length_le_encode.
    pose proof (length_jump_head b cond). lia.
  - done.
Qed.

Lemma length_lower where_ p : Forall item_ok p -> forall pos,
  Z.of_nat (length (encode (lower where_ pos p))) = program_size p.
Proof.
  intros Hp. induction Hp as [|it p Hit Hp IH]; intros pos; [done|]. cbn [lower program_size foldr].
  rewrite encode_app, length_app, Nat2Z.inj_add, IH, length_lower_item by done. done.
Qed.

Lemma lower_app where_ p q : forall pos, lower where_ pos (p ++ q) = lower where_ pos p ++ lower where_ (pos + program_size p) q.
Proof.
  induction p as [|it p IH]; intros pos; simpl; [by rewrite Z.add_0_r|]. rewrite IH, app_assoc.
  do 2 f_equal. lia.
Qed.

Lemma sites_app l p q : forall pos, sites l pos (p ++ q) = sites l pos p ++ sites l (pos + program_size p) q.
Proof.
  induction p as [|it p IH]; intros pos; simpl; [by rewrite Z.add_0_r|]. rewrite IH, app_assoc.
  do 2 f_equal. lia.
Qed.

(** A write over bytes that are there. *)
Lemma store_mid k pre old new post : k = Z.of_nat (length pre) -> length new = length old ->
  store k new (pre ++ old ++ post) = Some (pre ++ new ++ post).
Proof.
  intros -> Hl. rewrite store_in by (rewrite ?length_app; lia). f_equal.
  rewrite Nat2Z.id, take_app_length. do 2 f_equal. rewrite Hl.
  rewrite drop_app_add. by rewrite drop_app_length.
Qed.

(** Patching the places that jump to [l] binds it in what has been written. *)
Lemma patch_lower (l : nat) target where_ p : Forall item_ok p -> where_ l = None ->
  target < 2 ^ 31 -> forall pos pre, 0 <= pos <= target -> pos = Z.of_nat (length pre) ->
  pos + program_size p <= target ->
  patch (sites l pos p) target (pre ++ encode (lower where_ pos p)) =
  Some (pre ++ encode (lower (<[l := Some target]> where_) pos p)).
Proof.
  intros Hp Hl. induction Hp as [|it p Hit Hp IH]; intros Hmax pos pre Hpos Epos Hfit; [done|].
  cbn [lower sites program_size foldr] in *. fold (program_size p) in *.
  pose proof (item_size_nonneg it). pose proof (program_size_nonneg p). rewrite !encode_app, !(app_assoc pre).
  assert (forall w, pos + item_size it = Z.of_nat (length (pre ++ encode (lower_item w pos it)))) as Hlen.
  { intros w. rewrite length_app, Nat2Z.inj_add, length_lower_item by done. lia. }
  destruct it as [i|b cond l'|l']; cbn [lower_item].
  - apply IH; try lia. apply (Hlen where_).
  - destruct (decide (l' = l)) as [->|Hne].
    + rewrite Hl, fn_lookup_insert. cbn [distance app patch].
      destruct Hit as [Hb Hc]. unfold encode at 1 3. cbn [map concat]. rewrite !app_nil_r, !encode_jump by done.
      assert (site pos cond = Z.of_nat (length (pre ++ jump_head b cond))) as Es.
      { unfold site. rewrite length_app, Nat2Z.inj_add, length_jump_head. lia. }
      rewrite <- !app_assoc, !(app_assoc pre (jump_head b cond)).
      rewrite store_mid by (by rewrite ?length_le_encode). cbn [mbind option_bind].
      rewrite wraps_small; [|lia|].
      2:{ unfold site in *. cbn [item_size] in *. unfold is_sint. change (2 ^ (32 - 1)) with (2 ^ 31). lia. }
      rewrite (app_assoc _ (le_encode 4 _) _), IH; [by rewrite <- app_assoc|lia|cbn [item_size] in *; lia| |lia].
      rewrite !length_app, length_le_encode. cbn [item_size]. pose proof (length_jump_head b cond). lia.
    + rewrite fn_lookup_insert_ne by done. rewrite app_nil_l. apply IH; try lia. apply (Hlen where_).
  - apply IH; try lia. apply (Hlen where_).
Qed.

(** * The emitter and the program emitted so far *)

Lemma where_bound_app p q l : forall pos, where_bound pos (p ++ q) l =
  match where_bound pos p l with Some t => Some t | None => where_bound (pos + program_size p) q l end.
Proof.
  induction p as [|it p IH]; intros pos; cbn [where_bound app program_size foldr]; [by rewrite Z.add_0_r|].
  fold (program_size p). replace (pos + (item_size it + program_size p)) with (pos + item_size it + program_size p) by lia.
  destruct it; try apply IH. destruct (decide (l0 = l)); [done|apply IH].
Qed.

Lemma where_bound_None p l : forall pos, where_bound pos p l = None <-> l ∉ labels_of p.
Proof.
  induction p as [|it p IH]; intros pos; [split; [intros _; apply not_elem_of_nil|done]|].
  destruct it; simpl; [apply IH|apply IH|]. rewrite not_elem_of_cons. destruct (decide _) as [->|Hne]; [|rewrite IH; naive_solver].
  split; [done|]. naive_solver.
Qed.

Lemma where_bound_range p l : forall pos t, where_bound pos p l = Some t -> pos <= t <= pos + program_size p.
Proof.
  induction p as [|it p IH]; intros pos t; [done|]. cbn [where_bound program_size foldr]. fold (program_size p).
  pose proof (item_size_nonneg it). pose proof (program_size_nonneg p).
  destruct it; cbn [item_size] in *; try (intros Ht%IH; lia).
  destruct (decide _); [intros [= <-]; lia|]. intros Ht%IH. lia.
Qed.

Lemma lower_ext w w' p : (forall l, w l = w' l) -> forall pos, lower w pos p = lower w' pos p.
Proof.
  intros Hw. induction p as [|it p IH]; intros pos; [done|]. cbn [lower]. rewrite IH. f_equal.
  destruct it; cbn [lower_item]; [done| |done]. by rewrite Hw.
Qed.

Lemma program_size_app p q : program_size (p ++ q) = program_size p + program_size q.
Proof. unfold program_size. induction p as [|it p IH]; simpl; [done|]. rewrite IH. lia. Qed.

Lemma labels_of_app p q : labels_of (p ++ q) = labels_of p ++ labels_of q.
Proof. apply omap_app. Qed.

Definition label_state (p : list item) (l : nat) (label : BytecodeLabel) : Prop :=
  match where_bound 0 p l with
  | Some t => bound_ label = true /\ label_offset_ label = t
  | None => bound_ label = false /\ referrer_offsets_ label = sites l 0 p
  end.
Definition emitted (p : list item) (s : (nat -> BytecodeLabel) * list Z) : Prop :=
  s.2 = encode (lower (where_bound 0 p) 0 p) /\ forall l, label_state p l (s.1 l).

Lemma length_emitted p s : Forall item_ok p -> emitted p s -> GetPosition s.2 = program_size p.
Proof. intros Hp [-> _]. unfold GetPosition. by apply length_lower. Qed.

(** Appending an item that binds nothing. *)
Lemma where_bound_snoc p it : (forall l, it <> Lab l) -> forall l, where_bound 0 (p ++ [it]) l = where_bound 0 p l.
Proof. intros Hn l. rewrite where_bound_app. destruct (where_bound 0 p l); [done|]. destruct it; try done. by edestruct Hn. Qed.

Lemma encode_snoc p it : (forall l, it <> Lab l) -> encode (lower (where_bound 0 (p ++ [it])) 0 (p ++ [it])) =
  encode (lower (where_bound 0 p) 0 p) ++ encode (lower_item (where_bound 0 p) (program_size p) it).
Proof.
  intros Hn. rewrite (lower_ext _ _ _ (where_bound_snoc p it Hn)), lower_app, encode_app. cbn [lower]. by rewrite app_nil_r.
Qed.

Lemma emit_ins p s i : Forall item_ok p -> emitted p s ->
  exists s', emit_item (Ins i) s = Some s' /\ emitted (p ++ [Ins i]) s'.
Proof.
  intros Hp [Hbc Hlab]. destruct s as [labels bc]. simpl in Hbc, Hlab. subst bc.
  exists (labels, encode (lower (where_bound 0 p) 0 p) ++ encode_instr i). split.
  - destruct i; cbn [emit_item]; [by rewrite emit_plain|by rewrite emit_call].
  - split; [rewrite encode_snoc by done; cbn [snd lower_item]; by rewrite encode_one|].
    intros l. specialize (Hlab l). unfold label_state in *. cbn [fst]. rewrite where_bound_snoc, sites_app by done.
    simpl. by rewrite app_nil_r.
Qed.

Lemma emit_jmp p s b cond l : Forall item_ok p -> item_ok (Jmp b cond l) -> emitted p s ->
  program_size (p ++ [Jmp b cond l]) < 2 ^ 31 - 1 ->
  exists s', emit_item (Jmp b cond l) s = Some s' /\ emitted (p ++ [Jmp b cond l]) s'.
Proof.
  intros Hp [Hb Hc] Hem Hsize. pose proof (length_emitted _ _ Hp Hem) as Hpos. destruct Hem as [Hbc Hlab].
  destruct s as [labels bc]. simpl in Hbc, Hlab, Hpos. cbn [emit_item]. rewrite emit_jump_head. unfold EmitJumpOperand.
  assert (GetPosition (bc ++ jump_head b cond) = site (program_size p) cond) as Esite.
  { unfold GetPosition, site in *. rewrite length_app, Nat2Z.inj_add, length_jump_head. lia. }
  rewrite Esite. pose proof (Hlab l) as Hl. unfold label_state in Hl. unfold IsBound.
  rewrite program_size_app in Hsize. cbn [program_size foldr item_size] in Hsize. fold (program_size p) in Hsize.
  assert (forall d, (bc ++ jump_head b cond) ++ le_encode 4 d = bc ++ encode [Plain b (cond_args cond ++ [d])]) as Ebytes.
  { intros d. by rewrite encode_one, encode_jump, app_assoc by done. }
  assert (forall l', l' <> l -> sites l' 0 (p ++ [Jmp b cond l]) = sites l' 0 p) as Hother.
  { intros l' Hne. rewrite sites_app. simpl. rewrite decide_False by done. by rewrite app_nil_r. }
  destruct (where_bound 0 p l) as [t|] eqn:Ht; destruct Hl as [Hbound Hinfo]; rewrite Hbound.
  - eexists. split; [done|]. split.
    + cbn [snd]. unfold EmitScalarValue. rewrite Ebytes, encode_snoc, Hbc by done. cbn [lower_item distance]. rewrite Ht. cbn [distance].
      do 6 f_equal. rewrite Hinfo. pose proof (where_bound_range _ _ _ _ Ht). pose proof (program_size_nonneg p).
      unfold site in *. rewrite (wrapu_small 64) by (split; lia).
      rewrite (wraps_small 32 (_ - t)) by (unfold is_sint; change (2 ^ (32 - 1)) with (2 ^ 31); lia).
      rewrite wraps_small by (unfold is_sint; change (2 ^ (32 - 1)) with (2 ^ 31); lia). lia.
    + intros l'. cbn [fst]. specialize (Hlab l'). unfold label_state in *. rewrite where_bound_snoc by done.
      destruct (decide (l' = l)) as [->|Hne]; [rewrite fn_lookup_insert, Ht; done|].
      rewrite fn_lookup_insert_ne, Hother by done. done.
  - eexists. split; [done|]. split.
    + cbn [snd]. unfold EmitScalarValue. rewrite Ebytes, encode_snoc, Hbc by done. cbn [lower_item]. by rewrite Ht.
    + intros l'. cbn [fst]. specialize (Hlab l'). unfold label_state in *. rewrite where_bound_snoc by done.
      destruct (decide (l' = l)) as [->|Hne]; [|rewrite fn_lookup_insert_ne, Hother by done; done].
      rewrite fn_lookup_insert, Ht. split; [done|]. cbn [SetReferrer referrer_offsets_]. rewrite Hinfo, sites_app. simpl.
      by rewrite decide_True.
Qed.

Lemma emit_lab p s l : Forall item_ok p -> emitted p s -> l ∉ labels_of p -> program_size p < 2 ^ 31 - 1 ->
  exists s', emit_item (Lab l) s = Some s' /\ emitted (p ++ [Lab l]) s'.
Proof.
  intros Hp Hem Hl Hsize. pose proof (length_emitted _ _ Hp Hem) as Hpos. destruct Hem as [Hbc Hlab].
  destruct s as [labels bc]. simpl in Hbc, Hlab, Hpos. cbn [emit_item]. unfold Bind. rewrite Hpos.
  pose proof (proj2 (where_bound_None p l 0) Hl) as Hw. pose proof (program_size_nonneg p).
  pose proof (Hlab l) as Hll. unfold label_state in Hll. rewrite Hw in Hll. destruct Hll as [Hb Hr].
  set (target := program_size p) in *.
  assert (patch (sites l 0 p) target bc = Some (encode (lower (<[l := Some target]> (where_bound 0 p)) 0 p))) as Hpatch.
  { rewrite Hbc. apply (patch_lower l target _ p Hp Hw ltac:(lia) 0 []); subst target; done || lia. }
  assert ((if IsForwardTarget (labels l) then patch (GetReferrerOffsets (labels l)) target bc else Some bc) =
    Some (encode (lower (<[l := Some target]> (where_bound 0 p)) 0 p))) as ->.
  { unfold IsForwardTarget, IsBound, GetReferrerOffsets. rewrite Hb, Hr. simpl. case_bool_decide as Hs; simpl; [|done].
    rewrite Hs in Hpatch. exact Hpatch. }
  cbn [mbind option_bind]. eexists. split; [done|].
  assert (forall l', where_bound 0 (p ++ [Lab l]) l' = (<[l := Some target]> (where_bound 0 p)) l') as Hw'.
  { intros l'. rewrite where_bound_app. cbn [where_bound]. destruct (decide (l = l')) as [->|Hne].
    - by rewrite Hw, fn_lookup_insert.
    - rewrite fn_lookup_insert_ne by done. by destruct (where_bound 0 p l'). }
  split.
  - cbn [snd]. rewrite (lower_ext _ _ _ Hw'), lower_app, encode_app. cbn [lower lower_item app]. change (encode []) with (@nil Z). by rewrite app_nil_r.
  - intros l'. cbn [fst]. unfold label_state. rewrite Hw'. destruct (decide (l' = l)) as [->|Hne].
    + by rewrite !fn_lookup_insert.
    + rewrite !fn_lookup_insert_ne by done. specialize (Hlab l'). unfold label_state in Hlab. rewrite sites_app. simpl. by rewrite app_nil_r.
Qed.

Lemma emit_items_app p q s : emit_items (p ++ q) s = s ← emit_items p s; emit_items q s.
Proof. revert s. induction p as [|it p IH]; intros s; [done|]. simpl. destruct (emit_item it s); [apply IH|done]. Qed.

(** Emitting a program writes its instructions with every label that is bound resolved. *)
Lemma emit_program p : Forall item_ok p -> NoDup (labels_of p) -> program_size p < 2 ^ 31 - 1 ->
  exists s, emit_items p (fun _ => new_Label, []) = Some s /\ emitted p s.
Proof.
  induction p as [|it p IH] using rev_ind; [intros _ _ _; eexists; split; [done|]; split; done|].
  intros [Hp Hit]%Forall_app. rewrite labels_of_app, program_size_app. intros (Hnd & Hdisj & _)%NoDup_app Hsize.
  apply Forall_cons in Hit as [Hit _]. cbn [program_size foldr] in Hsize. pose proof (item_size_nonneg it).
  destruct IH as (s & Es & Hs); [done|done|lia|]. rewrite emit_items_app, Es. cbn [mbind option_bind emit_items].
  assert (exists s', emit_item it s = Some s' /\ emitted (p ++ [it]) s') as (s' & -> & Hs'); [|by exists s'].
  destruct it as [i|b cond l|l].
  - by apply emit_ins.
  - apply emit_jmp; [done|done|done|]. rewrite program_size_app. cbn [program_size foldr]. lia.
  - apply emit_lab; [done|done| |lia]. intros Hl. apply (Hdisj l Hl). simpl. by left.
Qed.

Definition no_labels : nat -> BytecodeLabel := fun _ => new_Label.

Lemma emitted_bytes p labels bc : program_ok p -> emit_items p (no_labels, []) = Some (labels, bc) ->
  bc = encode (lower (where_bound 0 p) 0 p).
Proof.
  intros [Hit Hnd _ Hsz] Hem. destruct (emit_program p Hit Hnd Hsz) as ([labels' bc'] & E & Hbc & _).
  unfold no_labels in Hem. rewrite Hem in E. by injection E as <- <-.
Qed.

(** * What an emission is to do: to write an instruction whose operands are of the declared types *)

Definition emits (f : list Z -> list Z) (i : instr) : Prop := instr_ok i /\ forall bc, f bc = bc ++ encode_instr i.

Lemma emits_args b ts args vals : GetOperandTypes b = Some ts -> Forall2 operand_ok ts vals ->
  map arg_bytes args = zip_with encode_operand ts vals -> emits (EmitAll (ABytecode b :: args)) (Plain b vals).
Proof.
  intros Hb Hok Hargs. assert (types_of b = ts) as Et by (unfold types_of; by rewrite Hb).
  split; [by split; rewrite Et|]. intros bc. rewrite EmitAll_bytes. cbn [map concat arg_bytes encode_instr].
  by rewrite Hargs, Et.
Qed.

Lemma emits_locals b vs : GetOperandTypes b = Some (map (fun _ => Local) vs) -> Forall (fun v => is_uint 32 (bitfield_ v)) vs ->
  emits (Emit b vs) (Plain b (map bitfield_ vs)).
Proof.
  intros Hb Hvs. eapply emits_args; [done| |].
  - clear Hb. induction Hvs; by constructor.
  - clear Hb Hvs. induction vs as [|v vs IH]; [done|]. simpl. by rewrite IH.
Qed.

(** Prove an emission of a bytecode that is known: its types are computed. *)
Ltac emission :=
  match goal with
  | Hb : GetOperandTypes ?b = Some _ |- emits _ (Plain ?b _) => eapply emits_args; [exact Hb|..]
  | |- emits _ (Plain ?b _) => eapply emits_args; [vm_compute; reflexivity|..]
  end;
  [ repeat (apply Forall2_cons; split); try apply Forall2_nil; try done
  | unfold fid, u16, u32, i8, i16, i32, i64; cbn [map arg_bytes zip_with];
    rewrite ?wrapu_small by done; reflexivity ].
