(* ===== verification/BytecodeIteratorSpec.v ===== *)
(** What the iterator reads of encoded instructions: the bytecode, every operand, the size, and from
    the first instruction to the last in order. *)
From S2P Require Import Prelude Buffer Bytecodes FunctionInfo BytecodeEmitter BytecodeSpec BytecodeIterator.

(** * Reading an operand with the getter for its type *)

Definition read_operand (it : BytecodeIterator) (i : nat) : option (list Z) :=
  t ← operand_type it i;
  match t with
  | NoOperand => None
  | Imm1 | Imm2 | Imm4 | Imm8 => (fun z => [z]) <$> GetImmediateIntegerOperand it i
  | Imm4F | Imm8F =>
      (fun f => match f with FloatBits z | DoubleBits z => [z] end) <$> GetImmediateFloatOperand it i
  | UImm2 | UImm4 => (fun z => [z]) <$> GetUnsignedImmediateIntegerOperand it i
  | JumpOffset => (fun z => [z]) <$> GetJumpOffsetOperand it i
  | Local => (fun v => [LocalVar_Encode v]) <$> GetLocalOperand it i
  | StaticLocal => (fun v => [LocalVar_Encode v]) <$> GetStaticLocalOperand it i
  | LocalCount => (fun p => p.1 :: map LocalVar_Encode p.2) <$> GetLocalCountOperand it i
  | FunctionId => (fun z => [z]) <$> GetFunctionIdOperand it i
  end.
Definition read_operands (it : BytecodeIterator) : option (list (list Z)) :=
  b ← CurrentBytecode it; n ← NumOperands b; mapM (read_operand it) (seq 0 n).

(** The loop of the iterator's documentation: position, bytecode and operands of each instruction. *)
Fixpoint disassemble (fuel : nat) (it : BytecodeIterator) : option (list (Z * Z * list (list Z))) :=
  if Done it then Some []
  else match fuel with
       | O => None
       | S fuel' =>
           b ← CurrentBytecode it;
           args ← read_operands it;
           next ← Advance it;
           rest ← disassemble fuel' next;
           Some ((Iterator_GetPosition it, b, args) :: rest)
       end.

(** What an instruction should read as. *)
Definition instr_code (i : instr) : Z := match i with Plain b _ => b | CallI _ _ => code "Call" end.
Definition instr_operands (i : instr) : list (list Z) :=
  match i with
  | Plain _ args => map (fun z => [z]) args
  | CallI f locals => [[f]; Z.of_nat (length locals) :: locals]
  end.
Definition instr_size (i : instr) : Z := Z.of_nat (length (encode_instr i)).
Fixpoint listing (pos : Z) (p : list instr) : list (Z * Z * list (list Z)) :=
  match p with
  | [] => []
  | i :: p' => (pos, instr_code i, instr_operands i) :: listing (pos + instr_size i) p'
  end.

(** * Operands and their offsets *)

Definition types_size (ts : list OperandType) : Z := foldr (fun t n => kSize t + n) 0 ts.

Lemma operand_size_kSize t : Z.of_nat (operand_size t) = kSize t.
Proof. by destruct t. Qed.

Lemma types_size_snoc ts t : types_size (ts ++ [t]) = types_size ts + kSize t.
Proof. unfold types_size. induction ts; simpl; lia. Qed.

Lemma operand_offset_spec b ts : GetOperandTypes b = Some ts -> forall i, (i <= length ts)%nat ->
  GetNthOperandOffset b i = Some (4 + types_size (take i ts)).
Proof.
  intros Hb. unfold GetNthOperandOffset. induction i as [|i IH]; intros Hi; [done|]. cbn [operand_offset].
  rewrite IH by lia. unfold GetNthOperandSize, GetNthOperandType. rewrite Hb. cbn [mbind option_bind].
  destruct (lookup_lt_is_Some_2 ts i) as [t Ht]; [lia|]. rewrite Ht. cbn. f_equal.
  rewrite (take_S_r _ _ _ Ht), types_size_snoc. unfold kSize. lia.
Qed.

Lemma length_encode_operands ts args : Forall2 operand_ok ts args -> Z.of_nat (length (encode_operands ts args)) = types_size ts.
Proof.
  unfold encode_operands. induction 1 as [|t z ts args Hz _ IH]; [done|]. simpl.
  rewrite length_app, Nat2Z.inj_add, IH. unfold encode_operand. by rewrite length_le_encode, operand_size_kSize.
Qed.

(** The bytes of an operand inside those of all. *)
Lemma encode_operands_split ts args i t z : Forall2 operand_ok ts args -> ts !! i = Some t -> args !! i = Some z ->
  exists pre post, encode_operands ts args = pre ++ encode_operand t z ++ post /\
    Z.of_nat (length pre) = types_size (take i ts) /\ operand_ok t z.
Proof.
  intros Hok. revert i. unfold encode_operands. induction Hok as [|t0 z0 ts args Hz _ IH]; intros i Ht Ha; [done|].
  destruct i as [|i]; simpl in Ht, Ha.
  - injection Ht as ->. injection Ha as ->. exists [], (concat (zip_with encode_operand ts args)). done.
  - destruct (IH i Ht Ha) as (pre & post & E & El & Hokz). exists (encode_operand t0 z0 ++ pre), post.
    simpl. rewrite E, <- app_assoc. split; [done|]. split; [|done].
    rewrite length_app, Nat2Z.inj_add, El. unfold encode_operand. by rewrite length_le_encode, operand_size_kSize.
Qed.

(** * An iterator at an instruction *)

Definition at_instr (it : BytecodeIterator) (i : instr) : Prop :=
  exists pre post, bytecodes_ it = pre ++ encode_instr i ++ post /\ curr_offset_ it = Z.of_nat (length pre).

Lemma code_range : Forall (fun e => is_uint 32 (code e)) ["Call"; "Jump"; "JumpIfTrue"; "JumpIfFalse"; "Return"]%string.
Proof. repeat constructor; vm_compute; congruence. Qed.

Lemma GetOperandTypes_uint32 b ts : GetOperandTypes b = Some ts -> is_uint 32 b.
Proof.
  unfold GetOperandTypes, entry. destruct (Z.leb_spec 0 b); [|done]. intros Hb.
  apply fmap_Some in Hb as (e & He & _). apply lookup_lt_Some in He.
  assert (length BYTECODE_LIST = 667%nat) as E by (vm_compute; reflexivity). rewrite E in He. split; lia.
Qed.

Lemma call_types : GetOperandTypes (code "Call") = Some [FunctionId; LocalCount].
Proof. vm_compute. reflexivity. Qed.

Lemma at_instr_code it i : instr_ok i -> at_instr it i -> CurrentBytecode it = Some (instr_code i).
Proof.
  intros Hok (pre & post & Hb & Hc). unfold CurrentBytecode. rewrite Hb, Hc.
  destruct i as [b args|f locals]; cbn [encode_instr instr_code]; rewrite <- app_assoc, read_uint_encode by done.
  - destruct Hok as [Ht _]. f_equal. apply wrapu_small. by eapply GetOperandTypes_uint32.
  - f_equal.
Qed.

(** The types of the operands, with the place of each. *)
Lemma at_plain_operand it b args i t z : instr_ok (Plain b args) -> at_instr it (Plain b args) ->
  types_of b !! i = Some t -> args !! i = Some z ->
  operand_type it i = Some t /\ operand_ok t z /\
  exists pre post a, operand_address it i = Some a /\ bytecodes_ it = pre ++ encode_operand t z ++ post /\
    a = Z.of_nat (length pre).
Proof.
  intros Hok Hat Ht Hz. pose proof (at_instr_code it _ Hok Hat) as Hcode. cbn [instr_code] in Hcode.
  destruct Hok as [Hb Hargs]. destruct Hat as (pre & post & Ebytes & Ecurr).
  destruct (encode_operands_split _ _ _ _ _ Hargs Ht Hz) as (pre' & post' & Eops & Elen & Hzok).
  unfold operand_type, operand_address, GetNthOperandType. rewrite Hcode. cbn [mbind option_bind].
  rewrite (operand_offset_spec _ _ Hb) by (apply lookup_lt_Some in Ht; lia). cbn [mbind option_bind].
  rewrite Hb. cbn [mbind option_bind]. split; [done|]. split; [done|].
  exists (pre ++ le_encode 4 b ++ pre'), (post' ++ post). eexists. split; [done|]. split.
  - rewrite Ebytes. cbn [encode_instr]. rewrite Eops. by rewrite <- !app_assoc.
  - rewrite !length_app, length_le_encode, Ecurr. lia.
Qed.

Lemma at_plain_read it b args i t z : instr_ok (Plain b args) -> at_instr it (Plain b args) ->
  types_of b !! i = Some t -> args !! i = Some z -> read_operand it i = Some [z].
Proof.
  intros Hok Hat Ht Hz. destruct (at_plain_operand it b args i t z) as (Et & Hzok & pre & post & a & Ea & Eb & El); [done..|].
  unfold read_operand. rewrite Et. cbn [mbind option_bind].
  unfold GetImmediateIntegerOperand, GetImmediateFloatOperand, GetUnsignedImmediateIntegerOperand, GetJumpOffsetOperand,
    GetLocalOperand, GetStaticLocalOperand, GetFunctionIdOperand.
  rewrite ?Et, Ea. cbn [mbind option_bind]. rewrite Eb. unfold encode_operand.
  destruct t; cbn [operand_ok] in Hzok; try done; unfold operand_size; cbn [kSize kOperandSize operand_bytes];
    first [ rewrite (read_sint_encode _ _ _ _ _ El) by (simpl; lia) | rewrite (read_uint_encode _ _ _ _ _ El) ];
    simpl; do 2 f_equal; first [ apply wraps_small; [lia|exact Hzok] | apply wrapu_small, Hzok ].
Qed.

Lemma read_locals_spec locals pre post : Forall (is_uint 32) locals ->
  read_locals (length locals) (Z.of_nat (length pre)) (pre ++ concat (map (le_encode 4) locals) ++ post) =
  Some (map LocalVar_Decode locals).
Proof.
  intros Hl. revert pre. induction Hl as [|z locals Hz _ IH]; intros pre; [done|]. cbn [length read_locals map concat].
  rewrite <- !app_assoc, read_uint_encode by done. cbn [mbind option_bind].
  specialize (IH (pre ++ le_encode 4 z)). rewrite length_app, length_le_encode, Nat2Z.inj_add in IH.
  change (kSize Local) with (Z.of_nat 4). rewrite <- app_assoc in IH. rewrite IH. cbn [mbind option_bind].
  change (8 * Z.of_nat 4) with 32. by rewrite wrapu_small.
Qed.

(** The two operands of a call. *)
Lemma at_call_operands it f locals : instr_ok (CallI f locals) -> at_instr it (CallI f locals) ->
  GetFunctionIdOperand it 0 = Some f /\
  GetLocalCountOperand it 1 = Some (Z.of_nat (length locals), map LocalVar_Decode locals).
Proof.
  intros Hok Hat. pose proof (at_instr_code it _ Hok Hat) as Hcode. cbn [instr_code] in Hcode.
  destruct Hok as (Hf & Hn & Hl). destruct Hat as (pre & post & Eb & Ec).
  unfold GetFunctionIdOperand, GetLocalCountOperand, operand_address. rewrite Hcode. cbn [mbind option_bind].
  rewrite !(operand_offset_spec _ _ call_types) by (simpl; lia). cbn [mbind option_bind take types_size foldr].
  rewrite Eb, Ec. cbn [encode_instr]. split.
  - rewrite <- !app_assoc, (app_assoc pre). rewrite read_uint_encode by (rewrite length_app, length_le_encode; lia).
    f_equal. by apply wrapu_small.
  - assert (forall l, pre ++ (le_encode 4 (code "Call") ++ le_encode 2 f ++ le_encode 2 (Z.of_nat (length locals)) ++ l) ++ post =
      (pre ++ le_encode 4 (code "Call") ++ le_encode 2 f) ++ le_encode 2 (Z.of_nat (length locals)) ++ l ++ post) as ->
      by (intros l; by rewrite <- !app_assoc).
    rewrite read_uint_encode by (rewrite !length_app, !length_le_encode; unfold kSize; simpl; lia). cbn [mbind option_bind].
    change (8 * Z.of_nat 2) with 16. rewrite wrapu_small, Nat2Z.id by done.
    pose proof (read_locals_spec locals ((pre ++ le_encode 4 (code "Call") ++ le_encode 2 f) ++ le_encode 2 (Z.of_nat (length locals))) post Hl) as Hr.
    rewrite <- (app_assoc _ (le_encode 2 _)) in Hr.
    assert (forall a, a = Z.of_nat (length ((pre ++ le_encode 4 (code "Call") ++ le_encode 2 f) ++ le_encode 2 (Z.of_nat (length locals)))) ->
      a = a -> read_locals (length locals) a ((pre ++ le_encode 4 (code "Call") ++ le_encode 2 f) ++ le_encode 2 (Z.of_nat (length locals)) ++ concat (map (le_encode 4) locals) ++ post) = Some (map LocalVar_Decode locals)) as Hr'
      by (intros a -> _; exact Hr).
    rewrite Hr'; [done| |done]. rewrite !length_app, !length_le_encode. unfold kSize. simpl. lia.
Qed.

Lemma mapM_seq {A} (f : nat -> option A) (l : list A) : (forall i x, l !! i = Some x -> f i = Some x) ->
  mapM f (seq 0 (length l)) = Some l.
Proof.
  intros Hf. apply mapM_Some. assert (forall k, (forall i x, l !! i = Some x -> f (k + i)%nat = Some x) ->
    Forall2 (fun x y => f x = Some y) (seq k (length l)) l) as Hgen; [|by apply Hgen].
  clear Hf. induction l as [|x l IH]; intros k Hf; [constructor|]. cbn [length seq]. constructor.
  - specialize (Hf 0%nat x eq_refl). by rewrite Nat.add_0_r in Hf.
  - apply IH. intros i y Hy. specialize (Hf (S i) y Hy). by rewrite Nat.add_succ_comm.
Qed.

Lemma at_instr_operands it i : instr_ok i -> at_instr it i -> read_operands it = Some (instr_operands i).
Proof.
  intros Hok Hat. unfold read_operands. rewrite (at_instr_code _ _ Hok Hat). cbn [mbind option_bind].
  destruct i as [b args|f locals]; cbn [instr_code instr_operands].
  - pose proof Hok as [Hb Hargs]. unfold NumOperands. rewrite Hb. cbn [fmap option_fmap option_map mbind option_bind].
    rewrite (Forall2_length _ _ _ Hargs), <- (length_map (fun z => [z])). apply mapM_seq. intros i x Hx.
    rewrite list_lookup_fmap in Hx. apply fmap_Some in Hx as (z & Hz & ->).
    destruct (Forall2_lookup_r _ _ _ _ _ Hargs Hz) as (t & Ht & _). by eapply at_plain_read.
  - unfold NumOperands. rewrite call_types. cbn. destruct (at_call_operands it f locals Hok Hat) as [Ef El].
    pose proof (at_instr_code _ _ Hok Hat) as Hcode. cbn [instr_code] in Hcode.
    unfold read_operand, operand_type, GetNthOperandType. rewrite Hcode. cbn [mbind option_bind]. rewrite call_types.
    cbn [mbind option_bind lookup list_lookup]. rewrite Ef, El. cbn. rewrite map_map. do 4 f_equal.
    transitivity (map id locals); [done|]. apply map_id.
Qed.

(** * Sizes, and the loop *)

Lemma sizes_small : Forall (fun e => 4 + types_size e.2 < 2 ^ 16 /\ (e.1 = "Call"%string \/ LocalCount ∉ e.2)) BYTECODE_LIST.
Proof.
  assert (forallb (fun e => (4 + types_size e.2 <? 2 ^ 16) && (String.eqb e.1 "Call" || negb (bool_decide (LocalCount ∈ e.2)))) BYTECODE_LIST = true) as H
    by (vm_compute; reflexivity).
  apply List.Forall_forall. intros e He. rewrite forallb_forall in H. specialize (H e He).
  apply andb_true_iff in H as [H H']. split; [by apply Z.ltb_lt in H|].
  apply orb_true_iff in H' as [H'|H']; [left; by apply String.eqb_eq|right].
  apply negb_true_iff, bool_decide_eq_false in H'. done.
Qed.

Lemma types_of_small b ts : GetOperandTypes b = Some ts -> 4 + types_size ts < 2 ^ 16.
Proof.
  unfold GetOperandTypes, entry. destruct (0 <=? b); [|done]. intros (e & He & ->)%fmap_Some.
  pose proof sizes_small as Hs. rewrite Forall_lookup in Hs. by apply Hs in He as [? _].
Qed.

Lemma kSize_nonneg t : 0 <= kSize t.
Proof. by destruct t. Qed.
Lemma types_size_nonneg ts : 0 <= types_size ts.
Proof. unfold types_size. induction ts as [|t ts IH]; simpl; [lia|]. pose proof (kSize_nonneg t). lia. Qed.
Lemma types_size_app ts ts' : types_size (ts ++ ts') = types_size ts + types_size ts'.
Proof. unfold types_size. induction ts as [|t ts IH]; simpl; [done|]. rewrite IH. lia. Qed.

Lemma operands_size_plain it b ts : GetOperandTypes b = Some ts -> LocalCount ∉ ts ->
  forall n i size, (i + n)%nat = length ts -> size = 4 + types_size (take i ts) ->
  operands_size it b i n size = Some (4 + types_size ts).
Proof.
  intros Hb Hno. induction n as [|n IH]; intros i size Hi ->.
  - cbn [operands_size]. by rewrite take_ge by lia.
  - cbn [operands_size]. unfold GetNthOperandSize, GetNthOperandType. rewrite Hb. cbn [mbind option_bind].
    destruct (lookup_lt_is_Some_2 ts i) as [t Ht]; [lia|]. rewrite Ht. cbn [mbind option_bind fmap option_fmap option_map].
    rewrite bool_decide_eq_false_2 by (intros ->; apply Hno; by eapply list_elem_of_lookup_2).
    cbn [mbind option_bind]. apply IH; [lia|]. rewrite (take_S_r _ _ _ Ht), types_size_snoc.
    change (operand_bytes (kOperandSize t)) with (kSize t). pose proof (types_of_small _ _ Hb).
    pose proof (types_size_app (take i ts) (t :: drop (S i) ts)) as Hts. rewrite take_drop_middle in Hts by done.
    pose proof (types_size_nonneg (drop (S i) ts)). pose proof (types_size_nonneg (take i ts)). pose proof (kSize_nonneg t).
    unfold types_size at 3 in Hts. cbn [foldr] in Hts. fold (types_size (drop (S i) ts)) in Hts.
    rewrite wrapu_small by (split; lia). lia.
Qed.

Lemma instr_types_no_count b args : instr_ok (Plain b args) -> LocalCount ∉ types_of b.
Proof.
  intros [_ Hargs] Hin. apply list_elem_of_lookup_1 in Hin as [i Hi].
  destruct (Forall2_lookup_l _ _ _ _ _ Hargs Hi) as (z & _ & Hz). done.
Qed.

Lemma length_locals locals : length (concat (map (le_encode 4) locals)) = (4 * length locals)%nat.
Proof.
  induction locals as [|z locals IH]; [done|]. cbn [map concat length]. rewrite length_app, length_le_encode, IH. lia.
Qed.

Lemma at_instr_size it i : instr_ok i -> at_instr it i -> CurrentBytecodeSize it = Some (instr_size i).
Proof.
  intros Hok Hat. unfold CurrentBytecodeSize. rewrite (at_instr_code _ _ Hok Hat). cbn [mbind option_bind].
  destruct i as [b args|f locals]; cbn [instr_code].
  - pose proof Hok as [Hb Hargs]. unfold NumOperands. rewrite Hb. cbn [fmap option_fmap option_map mbind option_bind].
    rewrite (operands_size_plain it b _ Hb (instr_types_no_count _ _ Hok) _ 0) by done. f_equal.
    unfold instr_size. cbn [encode_instr]. rewrite length_app, length_le_encode, Nat2Z.inj_add, length_encode_operands by done. done.
  - unfold NumOperands. rewrite call_types. cbn [fmap option_fmap option_map mbind option_bind length operands_size].
    unfold GetNthOperandSize, GetNthOperandType. rewrite call_types. cbn [mbind option_bind lookup list_lookup fmap option_fmap option_map].
    rewrite (bool_decide_eq_false_2 (FunctionId = LocalCount)), (bool_decide_eq_true_2 (LocalCount = LocalCount)) by done. cbn [mbind option_bind].
    destruct (at_call_operands it f locals Hok Hat) as [_ El]. rewrite El. cbn [fmap option_fmap option_map fst mbind option_bind].
    destruct Hok as (_ & Hn & _). f_equal. unfold instr_size. cbn [encode_instr]. rewrite !length_app, !length_le_encode, length_locals.
    change (wrapu 32 (kBytecodeSize + operand_bytes (kOperandSize FunctionId))) with 6.
    change (wrapu 32 (6 + operand_bytes (kOperandSize LocalCount))) with 8. change (kSize Local) with 4.
    unfold is_uint in Hn. change (2 ^ 16) with 65536 in Hn. rewrite wrapu_small by (split; lia). lia.
Qed.

(** From any instruction on, the loop lists what is left and stops. *)
Lemma disassemble_spec p : Forall instr_ok p -> forall fuel it pre post,
  bytecodes_ it = pre ++ encode p ++ post -> curr_offset_ it = Z.of_nat (length pre) ->
  end_offset_ it = Z.of_nat (length (pre ++ encode p)) -> (length p <= fuel)%nat ->
  disassemble fuel it = Some (listing (curr_offset_ it - start_offset_ it) p).
Proof.
  induction 1 as [|i p Hi Hp IH]; intros fuel it pre post Eb Ec Ee Hf.
  - rewrite app_nil_r in Ee. assert (Done it = true) as Hd by (unfold Done; apply Z.leb_le; lia).
    destruct fuel; cbn [disassemble]; by rewrite Hd.
  - destruct fuel as [|fuel]; [simpl in Hf; lia|]. cbn [length] in Hf.
    assert (encode (i :: p) = encode_instr i ++ encode p) as En by done. rewrite En, <- app_assoc in Eb.
    assert (at_instr it i) as Hat by (exists pre, (encode p ++ post); done).
    assert (0 < instr_size i) as Hpos.
    { unfold instr_size. destruct i; cbn [encode_instr]; rewrite length_app, length_le_encode; lia. }
    assert (Done it = false) as Hd.
    { unfold Done. apply Z.leb_gt. rewrite Ee, Ec, En, !length_app. unfold instr_size in Hpos. lia. }
    cbn [disassemble listing]. rewrite Hd, (at_instr_code _ _ Hi Hat), (at_instr_operands _ _ Hi Hat).
    unfold Advance. rewrite (at_instr_size _ _ Hi Hat). cbn [mbind option_bind].
    rewrite (IH fuel _ (pre ++ encode_instr i) post); cbn [bytecodes_ curr_offset_ start_offset_ end_offset_].
    + cbn [mbind option_bind]. do 3 f_equal. lia.
    + by rewrite <- app_assoc.
    + rewrite length_app, Ec. unfold instr_size. lia.
    + by rewrite Ee, En, app_assoc.
    + lia.
Qed.
