(* ===== verification/CTypes.v ===== *)
(** The primitive types of the virtual machine and the arithmetic C++ gives them.

    A value is the number its bytes are, read without a sign.  Integers narrower than an [int] are
    promoted to it; an operation without a defined result (signed overflow, a division by zero, a shift
    by the width, a conversion out of range) is [None].  Floating-point numbers are those of IEEE 754;
    a NaN result is the quiet NaN. *)
From Stdlib Require Import SpecFloat.
From S2P Require Import Prelude Buffer.

Local Open Scope string_scope.
Local Open Scope list_scope.
Local Open Scope Z_scope.

Inductive ctype : Set := bool_t | int_t (signed : bool) (size : nat) | float_t | double_t.
#[export] Instance ctype_eq_dec : EqDecision ctype.
Proof. solve_decision. Defined.

Definition sizeof (t : ctype) : nat :=
  match t with bool_t => 1 | int_t _ n => n | float_t => 4 | double_t => 8 end%nat.
Definition bits (t : ctype) : Z := 8 * Z.of_nat (sizeof t).

Definition int8 := int_t true 1.
Definition int16 := int_t true 2.
Definition int32 := int_t true 4.
Definition int64 := int_t true 8.
Definition uint8 := int_t false 1.
Definition uint16 := int_t false 2.
Definition uint32 := int_t false 4.
Definition uint64 := int_t false 8.

(** The macros that list the types, with their names. *)
Definition signed_int_types : list (string * ctype) :=
  [("int8_t", int8); ("int16_t", int16); ("int32_t", int32); ("int64_t", int64)].
Definition unsigned_int_types : list (string * ctype) :=
  [("uint8_t", uint8); ("uint16_t", uint16); ("uint32_t", uint32); ("uint64_t", uint64)].
Definition int_types : list (string * ctype) := signed_int_types ++ unsigned_int_types.
Definition float_types : list (string * ctype) := [("float", float_t); ("double", double_t)].
Definition numeric_types : list (string * ctype) := int_types ++ float_types.
Definition all_types : list (string * ctype) := ("bool", bool_t) :: int_types ++ float_types.

(** * Integers *)

(** The number some bits are at a type, and the bits of a number. *)
Definition int_value (signed : bool) (n : nat) (z : Z) : Z :=
  if signed then wraps (8 * Z.of_nat n) z else wrapu (8 * Z.of_nat n) z.
Definition int_bits (n : nat) (z : Z) : Z := wrapu (8 * Z.of_nat n) z.

(** The type an operation is done at. *)
Definition promote (signed : bool) (n : nat) : bool * nat := if Nat.ltb n 4 then (true, 4%nat) else (signed, n).

(** A result at the promoted type: unsigned wraps, signed may not overflow. *)
Definition int_result (p : bool * nat) (z : Z) : option Z :=
  if p.1 then if (- 2 ^ (8 * Z.of_nat p.2 - 1) <=? z) && (z <? 2 ^ (8 * Z.of_nat p.2 - 1)) then Some z else None
  else Some (wrapu (8 * Z.of_nat p.2) z).
Definition int_op (f : Z -> Z -> Z) (signed : bool) (n : nat) (x y : Z) : option Z :=
  let p := promote signed n in
  let conv z := int_value p.1 p.2 (int_value signed n z) in
  int_bits n <$> int_result p (f (conv x) (conv y)).
Definition int_div (f : Z -> Z -> Z) (signed : bool) (n : nat) (x y : Z) : option Z :=
  if int_value signed n y =? 0 then None
  else if int_value signed n y =? -1 then
    (* the quotient of the least number by -1 overflows, and the remainder is undefined with it *)
    q ← int_op Z.quot signed n x y; int_op f signed n x y
  else int_op f signed n x y.
Definition int_neg (signed : bool) (n : nat) (x : Z) : option Z := int_op (fun x _ => - x) signed n x 0.
Definition int_not (signed : bool) (n : nat) (x : Z) : Z := int_bits n (Z.lnot (int_value signed n x)).

(** Shifts: the amount is a [uint32_t]. *)
Definition int_shl (signed : bool) (n : nat) (x k : Z) : option Z :=
  let p := promote signed n in
  if k <? 8 * Z.of_nat p.2 then Some (int_bits n (Z.shiftl (int_value signed n x) k)) else None.
Definition int_shr (signed : bool) (n : nat) (x k : Z) : option Z :=
  let p := promote signed n in
  if k <? 8 * Z.of_nat p.2 then Some (int_bits n (Z.shiftr (int_value signed n x) k)) else None.

(** * Floating-point numbers *)

(** The precision, counting the hidden bit, and the exponent bound. *)
Definition prec (t : ctype) : Z := match t with float_t => 24 | _ => 53 end.
Definition emax (t : ctype) : Z := match t with float_t => 128 | _ => 1024 end.
Definition emin (t : ctype) : Z := 3 - emax t - prec t.

Definition float_of_bits (t : ctype) (z : Z) : spec_float :=
  let f := z mod 2 ^ (prec t - 1) in
  let e := (z / 2 ^ (prec t - 1)) mod (2 * emax t) in
  let s := Z.testbit z (bits t - 1) in
  if e =? 2 * emax t - 1 then if f =? 0 then S754_infinity s else S754_nan
  else if e =? 0 then match f with Zpos m => S754_finite s m (emin t) | _ => S754_zero s end
  else match f + 2 ^ (prec t - 1) with Zpos m => S754_finite s m (e + emin t - 1) | _ => S754_nan end.

Definition sign_bit (t : ctype) (s : bool) : Z := if s then 2 ^ (bits t - 1) else 0.
Definition bits_of_float (t : ctype) (x : spec_float) : Z :=
  let inf := (2 * emax t - 1) * 2 ^ (prec t - 1) in
  match x with
  | S754_zero s => sign_bit t s
  | S754_infinity s => sign_bit t s + inf
  | S754_nan => inf + 2 ^ (prec t - 2)
  | S754_finite s m e =>
      sign_bit t s +
      if Zpos m <? 2 ^ (prec t - 1) then Zpos m else (e - emin t + 1) * 2 ^ (prec t - 1) + (Zpos m - 2 ^ (prec t - 1))
  end.

Definition float_op (f : Z -> Z -> spec_float -> spec_float -> spec_float) (t : ctype) (x y : Z) : Z :=
  bits_of_float t (f (prec t) (emax t) (float_of_bits t x) (float_of_bits t y)).
Definition float_neg (t : ctype) (x : Z) : Z := bits_of_float t (SFopp (float_of_bits t x)).

(** A number of any size, rounded. *)
Definition float_of_Z (t : ctype) (z : Z) : spec_float := binary_normalize (prec t) (emax t) z 0 false.
(** The nearest number of another type. *)
Definition float_round (t : ctype) (x : spec_float) : spec_float :=
  match x with
  | S754_finite s m e => binary_normalize (prec t) (emax t) (if s then Zneg m else Zpos m) e s
  | _ => x
  end.
(** The integer part, when there is one. *)
Definition float_trunc (x : spec_float) : option Z :=
  match x with
  | S754_zero _ => Some 0
  | S754_finite s m e =>
      let a := if 0 <=? e then Z.shiftl (Zpos m) e else Z.shiftr (Zpos m) (- e) in Some (if s then - a else a)
  | _ => None
  end.
(** [std::fmod]: the exact remainder, with the sign of the dividend. *)
Definition SFmod (p em : Z) (x y : spec_float) : spec_float :=
  match x, y with
  | S754_nan, _ | _, S754_nan | S754_infinity _, _ | _, S754_zero _ => S754_nan
  | _, S754_infinity _ => x
  | S754_zero _, _ => x
  | S754_finite s m e, S754_finite _ m' e' =>
      let e0 := Z.min e e' in
      let r := (Zpos m * 2 ^ (e - e0)) mod (Zpos m' * 2 ^ (e' - e0)) in
      if r =? 0 then S754_zero s else binary_normalize p em (if s then - r else r) e0 s
  end.

(** * Operations at any type *)

Definition arith (fi : Z -> Z -> Z) (ff : Z -> Z -> spec_float -> spec_float -> spec_float) (t : ctype) (x y : Z)
  : option Z :=
  match t with
  | int_t s n => int_op fi s n x y
  | float_t | double_t => Some (float_op ff t x y)
  | bool_t => None
  end.

(** Three-way comparison; [None] when a NaN is compared. *)
Definition compare (t : ctype) (x y : Z) : option comparison :=
  match t with
  | bool_t => Some (Z.compare (Z.min x 1) (Z.min y 1))
  | int_t s n => Some (Z.compare (int_value s n x) (int_value s n y))
  | float_t | double_t => SFcompare (float_of_bits t x) (float_of_bits t y)
  end.

(** [static_cast]: [None] when a floating-point number is out of the range of an integer type. *)
Definition cast (from to : ctype) (x : Z) : option Z :=
  match from, to with
  | bool_t, bool_t => Some (Z.min x 1)
  | bool_t, int_t _ n => Some (Z.min x 1)
  | bool_t, _ => Some (bits_of_float to (float_of_Z to (Z.min x 1)))
  | int_t s n, bool_t => Some (if int_value s n x =? 0 then 0 else 1)
  | int_t s n, int_t _ n' => Some (int_bits n' (int_value s n x))
  | int_t s n, _ => Some (bits_of_float to (float_of_Z to (int_value s n x)))
  | _, bool_t => Some (match float_of_bits from x with S754_zero _ => 0 | _ => 1 end)
  | _, int_t s n =>
      z ← float_trunc (float_of_bits from x);
      if bool_decide (int_value s n z = z) then Some (int_bits n z) else None
  | _, _ => Some (bits_of_float to (float_round to (float_of_bits from x)))
  end.
