(* ===== verification/SqlValues.v ===== *)
(** The values of SQL: [src/include/sql/value.h], the strings, blobs and decimals of
    [src/include/sql/runtime_types.h], and the operators of [src/include/sql/operators/] on booleans and
    on values of one type.

    A value is its primitive value and its NULL flag, whichever type it has.  An integer is a 64-bit
    signed number, a date a 32-bit signed one, a timestamp a 64-bit unsigned one, a real an IEEE 754
    double.  What C++ leaves undefined is [None]. *)
From Stdlib Require Import SpecFloat.
From S2P Require Import Prelude Buffer CTypes.

Local Open Scope list_scope.
Local Open Scope Z_scope.

(** * Values *)

Record Val (A : Type) := mkVal { is_null : bool; val : A }.
Arguments mkVal {A}. Arguments is_null {A}. Arguments val {A}.

(** The value, when there is one. *)
Definition known {A} (v : Val A) : option A := if is_null v then None else Some (val v).

Definition BoolVal := Val bool.
Definition BoolVal_of (b : bool) : BoolVal := mkVal false b.
Definition BoolVal_Null : BoolVal := mkVal true false.
Definition ForceTruth (v : BoolVal) : bool := negb (is_null v) && val v.
Definition LogicalNot (v : BoolVal) : BoolVal := mkVal (is_null v) (negb (val v)).
Definition LogicalAnd (v o : BoolVal) : BoolVal := mkVal (is_null v || is_null o) (val v && val o).
Definition LogicalOr (v o : BoolVal) : BoolVal := mkVal (is_null v || is_null o) (val v || val o).

Definition Integer := Val Z.
Definition Integer_of (z : Z) : Integer := mkVal false z.
Definition Integer_Null : Integer := mkVal true 0.

(** [double]. *)
Definition double := spec_float.
Definition Real := Val double.
Definition Real_of (x : double) : Real := mkVal false x.
(** A [float] becomes a [double]. *)
Definition Real_of_float (x : spec_float) : Real := mkVal false (float_round double_t x).
Definition Real_Null : Real := mkVal true (S754_zero false).

Definition DecimalVal := Val Z.
Definition DecimalVal_of (z : Z) : DecimalVal := mkVal false z.
Definition DecimalVal_Null : DecimalVal := mkVal true 0.

Definition DateVal := Val Z.
Definition DateVal_of (z : Z) : DateVal := mkVal false z.
(** [Date{}] is zero. *)
Definition DateVal_Null : DateVal := mkVal true 0.

Definition TimestampVal := Val Z.
Definition TimestampVal_of (z : Z) : TimestampVal := mkVal false z.
Definition TimestampVal_Null : TimestampVal := mkVal true 0.

(** * Memory comparison

    [memcmp] on the first [n] bytes; of its result only the sign is defined. *)
Fixpoint memcmp (n : nat) (a b : list Z) : option Z :=
  match n with
  | O => Some 0
  | S n' =>
      match a, b with
      | x :: a', y :: b' => if x =? y then memcmp n' a' b' else Some (if x <? y then -1 else 1)
      | _, _ => None
      end
  end.

(** * Strings of any length *)

Definition kPrefixLength : Z := 4.

(** The first bytes are stored in the entry.  [content_] is what follows them when all fit in it, and
    what the pointer stored there points to otherwise. *)
Record VarlenEntry := mkVarlenEntry { size_ : Z; prefix_ : list Z; content_ : list Z }.

Definition sizeof_VarlenEntry : Z := 16.
Definition GetInlineThreshold : Z := sizeof_VarlenEntry - 4.
Definition GetPrefixSize : Z := kPrefixLength.
Definition GetSize (v : VarlenEntry) : Z := size_ v.
Definition IsInlined (v : VarlenEntry) : bool := GetSize v <=? GetInlineThreshold.

(** [content] are the bytes the pointer leads to; the size is a [uint32_t]. *)
Definition VarlenEntry_Create (content : list Z) (size : Z) : option VarlenEntry :=
  if size <=? Z.of_nat (length content) then
    Some (if size <=? GetInlineThreshold then
            let bytes := take (Z.to_nat size) content in
            mkVarlenEntry size (take 4 (bytes ++ replicate 4 0)) (drop 4 bytes)
          else mkVarlenEntry size (take 4 content) content)
  else None.
(** [Create(std::string_view)]: the length becomes a [uint32_t]. *)
Definition VarlenEntry_of (str : list Z) : option VarlenEntry := VarlenEntry_Create str (wrapu 32 (Z.of_nat (length str))).

(** The bytes at the pointer, as far as they belong to the string. *)
Definition GetContent (v : VarlenEntry) : list Z :=
  take (Z.to_nat (GetSize v)) (if IsInlined v then prefix_ v ++ content_ v else content_ v).

Definition CompareEqualOrNot (EqualityCheck : bool) (left right : VarlenEntry) : option bool :=
  p ← memcmp 4 (prefix_ left) (prefix_ right);
  if (size_ left =? size_ right) && (p =? 0) then
    c ← (if IsInlined left
         then memcmp (Z.to_nat (size_ left)) (prefix_ left ++ content_ left) (prefix_ right ++ content_ right)
         else memcmp (Z.to_nat (size_ left)) (content_ left) (content_ right));
    if c =? 0 then Some EqualityCheck else Some (negb EqualityCheck)
  else Some (negb EqualityCheck).

(** The sizes are subtracted at 32 bits. *)
Definition VarlenEntry_Compare (left right : VarlenEntry) : option Z :=
  let min_len := Z.min (GetSize left) (GetSize right) in
  result ← memcmp (Z.to_nat min_len) (GetContent left) (GetContent right);
  Some (if negb (result =? 0) then result else wraps 32 (GetSize left - GetSize right)).

Definition VarlenEntry_eq (a b : VarlenEntry) : option bool := CompareEqualOrNot true a b.
Definition VarlenEntry_ne (a b : VarlenEntry) : option bool := CompareEqualOrNot false a b.
Definition VarlenEntry_lt (a b : VarlenEntry) : option bool := c ← VarlenEntry_Compare a b; Some (c <? 0).
Definition VarlenEntry_le (a b : VarlenEntry) : option bool := c ← VarlenEntry_Compare a b; Some (c <=? 0).
Definition VarlenEntry_gt (a b : VarlenEntry) : option bool := c ← VarlenEntry_Compare a b; Some (c >? 0).
Definition VarlenEntry_ge (a b : VarlenEntry) : option bool := c ← VarlenEntry_Compare a b; Some (c >=? 0).

Definition StringVal := Val VarlenEntry.
Definition StringVal_of (v : VarlenEntry) : StringVal := mkVal false v.
Definition StringVal_Null : StringVal := mkVal true (mkVarlenEntry 0 [0; 0; 0; 0] []).
Definition GetLength (s : StringVal) : Z := GetSize (val s).
Definition StringVal_eq (a b : StringVal) : option bool :=
  if negb (Bool.eqb (is_null a) (is_null b)) then Some false
  else if is_null a then Some true
  else VarlenEntry_eq (val a) (val b).
Definition StringVal_ne (a b : StringVal) : option bool := negb <$> StringVal_eq a b.

(** * Blobs *)

Record Blob := mkBlob { data_ : list Z; blob_size_ : Z }.
(** The comparison is over the size of the left blob. *)
Definition Blob_Compare (left right : Blob) : option Z :=
  let min_len := Z.min (blob_size_ left) (blob_size_ right) in
  result ← (if min_len =? 0 then Some 0 else memcmp (Z.to_nat (blob_size_ left)) (data_ left) (data_ right));
  Some (if negb (result =? 0) then result else wraps 32 (blob_size_ left - blob_size_ right)).
Definition Blob_eq (a b : Blob) : option bool :=
  if blob_size_ a =? blob_size_ b then c ← memcmp (Z.to_nat (blob_size_ a)) (data_ a) (data_ b); Some (c =? 0)
  else Some false.
Definition Blob_ne (a b : Blob) : option bool := negb <$> Blob_eq a b.
Definition Blob_lt (a b : Blob) : option bool := c ← Blob_Compare a b; Some (c <? 0).
Definition Blob_le (a b : Blob) : option bool := c ← Blob_Compare a b; Some (c <=? 0).
Definition Blob_gt (a b : Blob) : option bool := c ← Blob_Compare a b; Some (c >? 0).
Definition Blob_ge (a b : Blob) : option bool := c ← Blob_Compare a b; Some (c >=? 0).

(** * Decimals

    A decimal is an integer of [size] bytes; its operators are those of the integer. *)
Section decimals.
Context (size : nat).
Definition dec_op (f : Z -> Z -> Z) (value that : Z) : option Z := int_value true size <$> int_op f true size value that.
Definition dec_div (f : Z -> Z -> Z) (value that : Z) : option Z := int_value true size <$> int_div f true size value that.
Definition Decimal_add := dec_op Z.add.
Definition Decimal_sub := dec_op Z.sub.
Definition Decimal_mul := dec_op Z.mul.
Definition Decimal_div := dec_div Z.quot.
Definition Decimal_mod := dec_div Z.rem.
End decimals.

(** * Boolean operators *)

Definition Not (left : bool) : bool := negb left.
Definition And (left right : bool) : bool := left && right.
Definition AndNullMask (left right left_null right_null : bool) : bool :=
  (left_null && (right_null || right)) || (left && right_null).
Definition Or (left right : bool) : bool := left || right.
Definition OrNullMask (left right left_null right_null : bool) : bool :=
  (left_null && (right_null || negb right)) || (negb left && right_null).

(** What the operators and their masks make of two nullable booleans. *)
Definition AndVal (a b : BoolVal) : BoolVal :=
  mkVal (AndNullMask (val a) (val b) (is_null a) (is_null b)) (And (val a) (val b)).
Definition OrVal (a b : BoolVal) : BoolVal :=
  mkVal (OrNullMask (val a) (val b) (is_null a) (is_null b)) (Or (val a) (val b)).

(** * Lemmas *)

Lemma memcmp_eq n a b : length a = n -> length b = n ->
  exists c, memcmp n a b = Some c /\ (c =? 0) = bool_decide (a = b).
Proof.
  revert a b. induction n as [|n IH]; intros [|x a] [|y b]; simpl; try discriminate; intros Ha Hb.
  - exists 0. split; reflexivity.
  - destruct (x =? y) eqn:E; bprop.
    + subst. destruct (IH a b) as (c & -> & Hc); [lia..|]. exists c. split; [done|]. rewrite Hc.
      apply bool_decide_ext. split; congruence.
    + eexists. split; [done|]. rewrite bool_decide_false by congruence. by destruct (x <? y).
Qed.

Lemma memcmp_take n a b : memcmp n (take n a) (take n b) = memcmp n a b.
Proof. revert a b. induction n as [|n IH]; intros [|x a] [|y b]; simpl; try done. by rewrite IH. Qed.

(** The bytes of a string of less than [2 ^ 32] bytes. *)
Lemma VarlenEntry_of_spec str : Z.of_nat (length str) < 2 ^ 32 ->
  exists v, VarlenEntry_of str = Some v /\ GetContent v = str /\ GetSize v = Z.of_nat (length str) /\
    prefix_ v = take 4 (str ++ replicate 4 0).
Proof.
  intros H. unfold VarlenEntry_of, VarlenEntry_Create. rewrite wrapu_small by (unfold is_uint; lia).
  rewrite (proj2 (Z.leb_le _ _)) by lia. destruct (Z.of_nat (length str) <=? GetInlineThreshold) eqn:E.
  - eexists. split; [reflexivity|]. unfold GetContent, IsInlined, GetSize. cbn [size_ prefix_ content_]. rewrite E.
    rewrite Nat2Z.id, firstn_all. split_and!; [|done..].
    destruct (decide (4 <= length str)%nat).
    + rewrite (take_app_le str) by lia. rewrite take_drop. apply firstn_all.
    + rewrite (drop_ge str) by lia. rewrite app_nil_r, take_take, Nat.min_l by lia. apply take_app_length.
  - eexists. split; [reflexivity|]. unfold GetContent, IsInlined, GetSize. cbn [size_ prefix_ content_]. rewrite E.
    rewrite Nat2Z.id, firstn_all. split_and!; [done|done|].
    bprop. unfold GetInlineThreshold, sizeof_VarlenEntry in *. by rewrite take_app_le by lia.
Qed.

Lemma memcmp_app n a b a' b' : length a = n -> length b = n -> memcmp n (a ++ a') (b ++ b') = memcmp n a b.
Proof. intros Ha Hb. rewrite <- (memcmp_take n (a ++ a')), !take_app_length' by done. reflexivity. Qed.

(** The lexicographic order of bytes, in which a prefix comes first. *)
Fixpoint bytes_compare (a b : list Z) : comparison :=
  match a, b with
  | [], [] => Eq
  | [], _ :: _ => Lt
  | _ :: _, [] => Gt
  | x :: a', y :: b' => match Z.compare x y with Eq => bytes_compare a' b' | c => c end
  end.

(** What a result of a comparison says. *)
Definition sign_of (c : comparison) (z : Z) : Prop := match c with Eq => z = 0 | Lt => z < 0 | Gt => z > 0 end.

(** [memcmp] over the shorter length, and then the lengths, is the order of bytes. *)
Lemma memcmp_bytes_compare a b :
  exists c, memcmp (min (length a) (length b)) a b = Some c /\
    (if c =? 0 then bytes_compare a b = Nat.compare (length a) (length b) else sign_of (bytes_compare a b) c).
Proof.
  revert b. induction a as [|x a IH]; intros [|y b]; simpl; try (exists 0; done).
  destruct (Z.eqb_spec x y) as [->|N].
  - rewrite Z.compare_refl. apply IH.
  - destruct (Z.ltb_spec x y).
    + exists (-1). rewrite (proj2 (Z.compare_lt_iff x y)) by lia. split; [done|]. simpl. lia.
    + exists 1. rewrite (proj2 (Z.compare_gt_iff x y)) by lia. split; [done|]. simpl. lia.
Qed.

Lemma bytes_compare_eq a b : bytes_compare a b = Eq <-> a = b.
Proof.
  revert b. induction a as [|x a IH]; intros [|y b]; simpl; try done.
  destruct (Z.compare x y) eqn:E; try (split; [done|intros [= -> ->]; by rewrite Z.compare_refl in E]).
  apply Z.compare_eq_iff in E as ->. rewrite IH. split; [by intros ->|by intros [= ->]].
Qed.

Lemma VarlenEntry_Compare_spec u v : Z.of_nat (length (GetContent u)) = GetSize u ->
  Z.of_nat (length (GetContent v)) = GetSize v -> GetSize u < 2 ^ 31 -> GetSize v < 2 ^ 31 ->
  exists c, VarlenEntry_Compare u v = Some c /\ sign_of (bytes_compare (GetContent u) (GetContent v)) c.
Proof.
  intros Hu Hv Bu Bv. unfold VarlenEntry_Compare.
  destruct (memcmp_bytes_compare (GetContent u) (GetContent v)) as (c & Ec & Hc).
  replace (Z.to_nat (Z.min (GetSize u) (GetSize v))) with (min (length (GetContent u)) (length (GetContent v))) by lia.
  rewrite Ec. eexists. split; [reflexivity|]. destruct (c =? 0); [|exact Hc]. simpl.
  rewrite Hc, wraps_small by (try unfold is_sint; lia). rewrite <- Hu, <- Hv.
  destruct (Nat.compare_spec (length (GetContent u)) (length (GetContent v))); simpl; lia.
Qed.

Lemma CompareEqualOrNot_spec e u v : length (prefix_ u) = 4%nat -> length (prefix_ v) = 4%nat ->
  (GetContent u = GetContent v -> prefix_ u = prefix_ v) ->
  Z.of_nat (length (GetContent u)) = GetSize u -> Z.of_nat (length (GetContent v)) = GetSize v ->
  CompareEqualOrNot e u v = Some (Bool.eqb e (bool_decide (GetContent u = GetContent v))).
Proof.
  intros Lu Lv P Hu Hv. unfold CompareEqualOrNot.
  destruct (memcmp_eq 4 (prefix_ u) (prefix_ v) Lu Lv) as (p & Ep & Hp). rewrite Ep.
  cbn [mbind option_bind]. rewrite Hp.
  assert (N : forall x : bool, Bool.eqb x false = negb x) by (by intros []).
  assert (T : forall x : bool, Bool.eqb x true = x) by (by intros []).
  destruct (Z.eqb_spec (size_ u) (size_ v)) as [S|S]; simpl.
  2: { rewrite bool_decide_false by (intros E; apply S; unfold GetSize in *; congruence). by rewrite N. }
  destruct (bool_decide_reflect (prefix_ u = prefix_ v)) as [Q|Q].
  2: { rewrite bool_decide_false by auto. by rewrite N. }
  assert (I : IsInlined v = IsInlined u) by (unfold IsInlined, GetSize; by rewrite S).
  set (n := Z.to_nat (size_ u)).
  assert (M : (if IsInlined u then memcmp n (prefix_ u ++ content_ u) (prefix_ v ++ content_ v)
               else memcmp n (content_ u) (content_ v)) = memcmp n (GetContent u) (GetContent v)).
  { unfold GetContent. rewrite I. unfold GetSize. rewrite <- S. fold n. by destruct (IsInlined u); rewrite memcmp_take. }
  rewrite M. destruct (memcmp_eq n (GetContent u) (GetContent v)) as (c & Ec & Hc);
    [unfold n, GetSize in *; lia..|]. rewrite Ec.
  cbn [mbind option_bind]. rewrite Hc. case_bool_decide; by rewrite ?N, ?T.
Qed.

(** What [And] and [Or] are with an unknown truth value. *)
Definition kleene_and (a b : option bool) : option bool :=
  match a, b with
  | Some false, _ | _, Some false => Some false
  | Some true, Some true => Some true
  | _, _ => None
  end.
Definition kleene_or (a b : option bool) : option bool :=
  match a, b with
  | Some true, _ | _, Some true => Some true
  | Some false, Some false => Some false
  | _, _ => None
  end.
Definition bool_vals : list BoolVal := [mkVal false false; mkVal false true; mkVal true false; mkVal true true].

(** * Theorems *)

(** The operators and the NULL masks compute the truth tables of their comments on all values: the
    conjunction and the disjunction of three-valued logic, whichever value a NULL carries; negation and the
    conversion to a truth value are those of it too.  The methods of [BoolVal], on the other hand, are NULL
    as soon as one side is: [NULL AND false] is NULL and not false, and [NULL OR true] is NULL and not true. *)
Theorem three_valued_logic (a b : BoolVal) :
  known (AndVal a b) = kleene_and (known a) (known b) /\
  known (OrVal a b) = kleene_or (known a) (known b) /\
  known (LogicalNot a) = negb <$> known a /\
  (ForceTruth a = true <-> known a = Some true) /\
  (known (LogicalAnd a b) = if is_null a || is_null b then None else kleene_and (known a) (known b)) /\
  (known (LogicalOr a b) = if is_null a || is_null b then None else kleene_or (known a) (known b)).
Proof.
  destruct a as [[] []], b as [[] []]; unfold known, ForceTruth; simpl; intuition congruence.
Qed.

(** C12: A string of less than [2 ^ 31] bytes is what its entry says, and two such strings compare in the
    lexicographic order of their bytes, a string before those it begins: all six operators are this order,
    whether the strings are stored in the entry or behind its pointer. *)
Theorem strings_compare_as_bytes (a b : list Z) :
  Z.of_nat (length a) < 2 ^ 31 -> Z.of_nat (length b) < 2 ^ 31 ->
  exists u v, VarlenEntry_of a = Some u /\ VarlenEntry_of b = Some v /\ GetContent u = a /\ GetContent v = b /\
    (exists c, VarlenEntry_Compare u v = Some c /\ sign_of (bytes_compare a b) c) /\
    VarlenEntry_eq u v = Some (bool_decide (a = b)) /\
    VarlenEntry_ne u v = Some (bool_decide (a <> b)) /\
    VarlenEntry_lt u v = Some (bool_decide (bytes_compare a b = Lt)) /\
    VarlenEntry_le u v = Some (bool_decide (bytes_compare a b <> Gt)) /\
    VarlenEntry_gt u v = Some (bool_decide (bytes_compare a b = Gt)) /\
    VarlenEntry_ge u v = Some (bool_decide (bytes_compare a b <> Lt)).
Proof.
  intros Ha Hb.
  destruct (VarlenEntry_of_spec a) as (u & Eu & Cu & Su & Pu); [lia|].
  destruct (VarlenEntry_of_spec b) as (v & Ev & Cv & Sv & Pv); [lia|].
  assert (LS : Z.of_nat (length (GetContent u)) = GetSize u) by congruence.
  assert (RS : Z.of_nat (length (GetContent v)) = GetSize v) by congruence.
  assert (EQ : forall e, CompareEqualOrNot e u v = Some (Bool.eqb e (bool_decide (a = b)))).
  { intros e. rewrite <- Cu, <- Cv. apply CompareEqualOrNot_spec; try done.
    - rewrite Pu, length_take, length_app, length_replicate. lia.
    - rewrite Pv, length_take, length_app, length_replicate. lia.
    - rewrite Cu, Cv, Pu, Pv. by intros ->. }
  destruct (VarlenEntry_Compare_spec u v LS RS) as (c & Ec & Hc); [lia..|]. rewrite Cu, Cv in Hc.
  exists u, v. split_and!; try done; [by exists c|..];
    unfold VarlenEntry_eq, VarlenEntry_ne, VarlenEntry_lt, VarlenEntry_le, VarlenEntry_gt, VarlenEntry_ge;
    rewrite ?EQ, ?Ec; simpl; f_equal; [by case_bool_decide|repeat case_bool_decide; congruence|..];
    rewrite ?Z.gtb_ltb, ?Z.geb_leb; destruct (bytes_compare a b); simpl in Hc; bsolve; reflexivity.
Qed.

Lemma strings_compare_as_bytes_witness :
  exists u v, VarlenEntry_of (bytes "compare these two"%string) = Some u /\ VarlenEntry_of (bytes "compare these"%string) = Some v /\
    VarlenEntry_gt u v = Some true.
Proof.
  destruct (strings_compare_as_bytes (bytes "compare these two"%string) (bytes "compare these"%string))
    as (u & v & Eu & Ev & _ & _ & _ & _ & _ & _ & _ & E & _); [vm_compute; reflexivity..|].
  exists u, v. split; [exact Eu|]. split; [exact Ev|]. rewrite E. vm_compute. reflexivity.
Defined.
