(* ===== verification/SqlFunctions.v ===== *)
(** The functions of SQL on booleans, numbers and dates, [src/include/sql/functions/] and
    [src/sql/functions/], with the operators they call, [src/include/sql/operators/] and
    [src/include/util/arithmetic_overflow.h], and the operations of the virtual machine that call them,
    [src/include/vm/bytecode_handlers.h].

    A function is given its inputs and returns what it stores in its output parameter; what C++ leaves
    undefined is [None].  The elementary functions of the C library, whose results no standard fixes to the
    last bit, are the parameter [Libm]. *)
From Stdlib Require Import SpecFloat.
From S2P Require Import Prelude Buffer CTypes DateTime SqlValues.

Local Open Scope string_scope.
Local Open Scope list_scope.
Local Open Scope Z_scope.

(** * Arithmetic that reports overflow *)

(** [__builtin_add_overflow] and its like: the result at the type, and whether it is another number. *)
Definition with_overflow (f : Z -> Z -> Z) (signed : bool) (w a b : Z) : bool * Z :=
  let res := if signed then wraps w (f a b) else wrapu w (f a b) in (negb (res =? f a b), res).

Definition Add_overflow := with_overflow Z.add.
Definition Sub_overflow := with_overflow Z.sub.
Definition Mul_overflow := with_overflow Z.mul.

Definition kMinInt128 : Z := - 2 ^ 127.
Definition kMaxInt128 : Z := 2 ^ 127 - 1.
(** A result of a signed 128-bit operation. *)
Definition in_int128 (z : Z) : option Z := if (kMinInt128 <=? z) && (z <=? kMaxInt128) then Some z else None.

Definition Add_int128 (a b : Z) : option (bool * Z) :=
  res ← in_int128 (a + b);
  Some (((b >? 0) && (a >? kMaxInt128 - b)) || ((b <? 0) && (a <? kMinInt128 - b)), res).
Definition Sub_int128 (a b : Z) : option (bool * Z) :=
  res ← in_int128 (a - b);
  Some (((b >? 0) && (a <? kMinInt128 + b)) || ((b <? 0) && (a >? kMaxInt128 + b)), res).
(** The product is stored modulo the width, and computed again to test it. *)
Definition Mul_int128 (a b : Z) : option (bool * Z) :=
  let res := wraps 128 (wrapu 128 a * wrapu 128 b) in
  if (a =? 0) || (b =? 0) then Some (false, res)
  else ab ← in_int128 (a * b); q ← in_int128 (Z.quot ab b); Some (negb (q =? a), res).
(** The bounds of the signed type, converted to the unsigned one. *)
Definition Add_uint128 (a b : Z) : bool * Z := (a >? wrapu 128 (kMaxInt128 - b), wrapu 128 (a + b)).
Definition Sub_uint128 (a b : Z) : bool * Z := (a <? wrapu 128 (kMinInt128 + b), wrapu 128 (a + b)).
Definition Mul_uint128 (a b : Z) : option (bool * Z) :=
  let res := wrapu 128 (a * b) in
  if b =? 0 then None else Some (negb (res / b =? a), res).

(** * Operators on one type *)

Class Number (A : Type) := {
  num_add : A -> A -> option A; num_sub : A -> A -> option A; num_mul : A -> A -> option A;
  num_div : A -> A -> option A; num_mod : A -> A -> option A;
  num_is_zero : A -> bool; num_abs : A -> option A
}.

(** [int64_t]. *)
Definition int64_op (f : Z -> Z -> Z) (a b : Z) : option Z := int_result (true, 8%nat) (f a b).
(** The remainder by -1 is undefined where the quotient is. *)
Definition int64_div (f : Z -> Z -> Z) (a b : Z) : option Z :=
  if b =? 0 then None else q ← int64_op Z.quot a b; int64_op f a b.
#[export] Instance int64_number : Number Z := {
  num_add := int64_op Z.add; num_sub := int64_op Z.sub; num_mul := int64_op Z.mul;
  num_div := int64_div Z.quot; num_mod := int64_div Z.rem;
  num_is_zero a := a =? 0; num_abs a := int64_op (fun x _ => Z.abs x) a 0
}.
Definition is_zero (x : double) : bool := match x with S754_zero _ => true | _ => false end.
#[export] Instance double_number : Number double := {
  num_add a b := Some (SFadd 53 1024 a b); num_sub a b := Some (SFsub 53 1024 a b);
  num_mul a b := Some (SFmul 53 1024 a b); num_div a b := Some (SFdiv 53 1024 a b);
  num_mod a b := Some (SFmod 53 1024 a b); num_is_zero := is_zero; num_abs a := Some (SFabs a)
}.

(** The comparison operators of a type. *)
Class Comparable (A : Type) := {
  cmp_eq : A -> A -> option bool; cmp_ne : A -> A -> option bool; cmp_lt : A -> A -> option bool;
  cmp_le : A -> A -> option bool; cmp_gt : A -> A -> option bool; cmp_ge : A -> A -> option bool
}.
#[export] Instance int_comparable : Comparable Z := {
  cmp_eq a b := Some (a =? b); cmp_ne a b := Some (negb (a =? b)); cmp_lt a b := Some (a <? b);
  cmp_le a b := Some (a <=? b); cmp_gt a b := Some (a >? b); cmp_ge a b := Some (a >=? b)
}.
Definition bit (b : bool) : Z := if b then 1 else 0.
#[export] Instance bool_comparable : Comparable bool := {
  cmp_eq a b := cmp_eq (bit a) (bit b); cmp_ne a b := cmp_ne (bit a) (bit b); cmp_lt a b := cmp_lt (bit a) (bit b);
  cmp_le a b := cmp_le (bit a) (bit b); cmp_gt a b := cmp_gt (bit a) (bit b); cmp_ge a b := cmp_ge (bit a) (bit b)
}.
(** A comparison with a NaN is false, [!=] is true. *)
#[export] Instance double_comparable : Comparable double := {
  cmp_eq a b := Some (bool_decide (SFcompare a b = Some Eq));
  cmp_ne a b := Some (negb (bool_decide (SFcompare a b = Some Eq)));
  cmp_lt a b := Some (bool_decide (SFcompare a b = Some Lt));
  cmp_le a b := Some (bool_decide (SFcompare a b = Some Lt \/ SFcompare a b = Some Eq));
  cmp_gt a b := Some (bool_decide (SFcompare a b = Some Gt));
  cmp_ge a b := Some (bool_decide (SFcompare a b = Some Gt \/ SFcompare a b = Some Eq))
}.
#[export] Instance varlen_comparable : Comparable VarlenEntry := {
  cmp_eq := VarlenEntry_eq; cmp_ne := VarlenEntry_ne; cmp_lt := VarlenEntry_lt;
  cmp_le := VarlenEntry_le; cmp_gt := VarlenEntry_gt; cmp_ge := VarlenEntry_ge
}.

(** [&&]: the right side is evaluated if the left one is true. *)
Definition and_then (a b : option bool) : option bool :=
  match a with Some true => b | Some false => Some false | None => None end.
Section between.
Context {A : Type} `{Comparable A}.
Definition InclusiveBetweenOperator (input lower upper : A) := and_then (cmp_ge input lower) (cmp_le input upper).
Definition LowerInclusiveBetweenOperator (input lower upper : A) := and_then (cmp_ge input lower) (cmp_lt input upper).
Definition UpperInclusiveBetweenOperator (input lower upper : A) := and_then (cmp_gt input lower) (cmp_le input upper).
Definition ExclusiveBetweenOperator (input lower upper : A) := and_then (cmp_gt input lower) (cmp_lt input upper).
End between.

(** Bit operations and the operators in place, at an integer type. *)
Definition BitwiseAnd := Z.land.
Definition BitwiseOr := Z.lor.
Definition BitwiseXor := Z.lxor.
Definition BitwiseShiftLeft (signed : bool) (n : nat) (a b : Z) : option Z :=
  if int_value signed n b <? 0 then None else int_shl signed n a (int_value signed n b).
Definition BitwiseShiftRight (signed : bool) (n : nat) (a b : Z) : option Z :=
  if int_value signed n b <? 0 then None else int_shr signed n a (int_value signed n b).
Definition BitwiseNot := int_not.
Definition AddInPlace (t : ctype) (a b : Z) : option Z := arith Z.add SFadd t a b.
Definition ModuloInPlace (t : ctype) (a b : Z) : option Z :=
  match t with int_t s n => int_div Z.rem s n a b | _ => arith Z.rem SFmod t a b end.
Definition BitwiseANDInPlace := Z.land.

(** * Evaluation with NULLs *)

Section evaluation.
Context {R A B : Type} (null : Val R).
(** The operator is evaluated on NULLs too. *)
Definition Unary_EvalFast (a : Val A) (op : A -> option R) : option (Val R) :=
  v ← op (val a); Some (mkVal (is_null a) v).
Definition Unary_EvalHideNull (a : Val A) (op : A -> option R) (pred : A -> bool) : option (Val R) :=
  if is_null a || negb (pred (val a)) then Some null else v ← op (val a); Some (mkVal false v).
Definition Binary_EvalFast (a : Val A) (b : Val B) (op : A -> B -> option R) : option (Val R) :=
  v ← op (val a) (val b); Some (mkVal (is_null a || is_null b) v).
Definition Binary_EvalHideNull (a : Val A) (b : Val B) (op : A -> B -> option R) (pred : A -> B -> bool)
  : option (Val R) :=
  if is_null a || is_null b || negb (pred (val a) (val b)) then Some null
  else v ← op (val a) (val b); Some (mkVal false v).
End evaluation.
(** [True]. *)
Definition always {A} (_ : A) : bool := true.
Definition always2 {A B} (_ : A) (_ : B) : bool := true.

(** * Predicates and comparisons *)

Definition IsNull {A} (v : Val A) : bool := is_null v.
Definition IsNotNull {A} (v : Val A) : bool := negb (is_null v).
Definition NotBoolVal (v : BoolVal) : option BoolVal := Unary_EvalFast v (fun x => Some (Not x)).

Section comparisons.
Context {A : Type} `{Comparable A}.
Definition Equal (a b : Val A) : option BoolVal := Binary_EvalFast a b cmp_eq.
Definition GreaterEqual (a b : Val A) : option BoolVal := Binary_EvalFast a b cmp_ge.
Definition GreaterThan (a b : Val A) : option BoolVal := Binary_EvalFast a b cmp_gt.
Definition LessEqual (a b : Val A) : option BoolVal := Binary_EvalFast a b cmp_le.
Definition LessThan (a b : Val A) : option BoolVal := Binary_EvalFast a b cmp_lt.
Definition NotEqual (a b : Val A) : option BoolVal := Binary_EvalFast a b cmp_ne.
End comparisons.
(** Equality of strings looks at the NULLs first. *)
Definition Equal_String (a b : StringVal) : option BoolVal := Binary_EvalHideNull BoolVal_Null a b cmp_eq always2.

(** * Arithmetic *)

Section arithmetic.
Context {A : Type} `{Number A}.
Definition Arith_Add (a b : Val A) : option (Val A) := Binary_EvalFast a b num_add.
Definition Arith_Sub (a b : Val A) : option (Val A) := Binary_EvalFast a b num_sub.
Definition Arith_Mul (a b : Val A) : option (Val A) := Binary_EvalFast a b num_mul.
(** The second component is the flag [div_by_zero], which is written only if neither side is NULL. *)
Definition Arith_Div (null : Val A) (a b : Val A) (div_by_zero : bool) : option (Val A * bool) :=
  r ← Binary_EvalHideNull null a b num_div (fun _ y => negb (num_is_zero y));
  Some (r, if is_null a || is_null b then div_by_zero else num_is_zero (val b)).
Definition Arith_Mod (null : Val A) (a b : Val A) (div_by_zero : bool) : option (Val A * bool) :=
  r ← Binary_EvalHideNull null a b num_mod (fun _ y => negb (num_is_zero y));
  Some (r, if is_null a || is_null b then div_by_zero else num_is_zero (val b)).
Definition Arith_Abs (a : Val A) : option (Val A) := Unary_EvalFast a num_abs.
End arithmetic.

(** With the flag [overflow]; the result wraps. *)
Definition checked (f : bool -> Z -> Z -> Z -> bool * Z) (a b : Integer) : Integer * bool :=
  let r := f true 64 (val a) (val b) in (mkVal (is_null a || is_null b) r.2, r.1).
Definition Arith_AddChecked := checked Add_overflow.
Definition Arith_SubChecked := checked Sub_overflow.
Definition Arith_MulChecked := checked Mul_overflow.

(** * Elementary functions *)

(** The C library's functions on [double]. *)
Class Libm := {
  c_acos : double -> double; c_asin : double -> double; c_atan : double -> double;
  c_atan2 : double -> double -> double; c_cbrt : double -> double; c_cos : double -> double;
  c_cosh : double -> double; c_tan : double -> double; c_exp : double -> double; c_log : double -> double;
  c_log2 : double -> double; c_log10 : double -> double; c_pow : double -> double -> double;
  c_sin : double -> double; c_sinh : double -> double; c_tanh : double -> double
}.

Definition double_of_Z (z : Z) : double := float_of_Z double_t z.
Definition dadd := SFadd 53 1024.
Definition dmul := SFmul 53 1024.
Definition ddiv := SFdiv 53 1024.

(** [M_PI], [M_E] and the literals. *)
Definition M_PI : double := S754_finite false 7074237752028440 (-51).
Definition M_E : double := S754_finite false 6121026514868073 (-51).
Definition d_half (negative : bool) : double := S754_finite negative 4503599627370496 (-53).

(** A rounding to an integer, of a number and a power of two that divides it. *)
Definition to_integral (round : Z -> Z -> Z) (x : double) : double :=
  match x with
  | S754_finite s m e =>
      if 0 <=? e then x
      else let z := round (if s then Zneg m else Zpos m) (2 ^ (- e)) in
           if z =? 0 then S754_zero s else binary_normalize 53 1024 z 0 s
  | _ => x
  end.
Definition c_floor : double -> double := to_integral Z.div.
Definition c_ceil : double -> double := to_integral (fun a b => - (- a / b)).
Definition c_trunc : double -> double := to_integral Z.quot.
Definition c_sqrt : double -> double := SFsqrt 53 1024.

Definition dlt (a b : double) : bool := bool_decide (SFcompare a b = Some Lt).
Definition dgt (a b : double) : bool := bool_decide (SFcompare a b = Some Gt).

Inductive outcome (A : Type) : Type := Returns (a : A) | Throws (message : string) | Undefined.
Arguments Returns {A}. Arguments Throws {A}. Arguments Undefined {A}.

Definition Degrees (input : double) : double := ddiv (dmul input (double_of_Z 180)) M_PI.
Definition Radians (input : double) : double := ddiv (dmul input M_PI) (double_of_Z 180).
Definition Round (input : double) : double := dadd input (d_half (dlt input (double_of_Z 0))).
Definition Sign (input : double) : double :=
  if dgt input (double_of_Z 0) then double_of_Z 1
  else if dlt input (double_of_Z 0) then double_of_Z (-1) else double_of_Z 0.
(** [static_cast<int64_t>]. *)
Definition double_to_int64 (x : double) : option Z := z ← float_trunc x; int64_op (fun z _ => z) z 0.

(** One argument; NULL gives NULL. *)
Definition real1 (f : double -> double) (input : Real) : option Real :=
  Unary_EvalHideNull Real_Null input (fun x => Some (f x)) always.
Definition real2 (f : double -> double -> double) (a b : Real) : option Real :=
  Binary_EvalHideNull Real_Null a b (fun x y => Some (f x y)) always2.

Definition Arith_Pi : Real := Real_of M_PI.
Definition Arith_E : Real := Real_of M_E.
Definition Arith_Ceil := real1 c_ceil.
Definition Arith_Floor := real1 c_floor.
Definition Arith_Truncate := real1 c_trunc.
Definition Arith_Sqrt := real1 c_sqrt.
Definition Arith_Degrees := real1 Degrees.
Definition Arith_Radians := real1 Radians.
Definition Arith_Sign := real1 Sign.
Definition Arith_Round := real1 Round.

Section libm.
Context `{Libm}.
Definition Cot (input : double) : double := ddiv (double_of_Z 1) (c_tan input).
Definition Log (input base : double) : double := ddiv (c_log input) (c_log base).
Definition RoundUpTo (input : double) (scale : Z) : option double :=
  let modifier := c_pow (double_of_Z 10) (double_of_Z (if scale <? 0 then 0 else scale)) in
  z ← double_to_int64 (dmul input modifier); Some (ddiv (double_of_Z z) modifier).

(** The predicate throws outside of [[-1,1]]. *)
Definition in_unit (message : string) (f : double -> double) (input : Real) : outcome Real :=
  if is_null input then Returns Real_Null
  else if dlt (val input) (double_of_Z (-1)) || dgt (val input) (double_of_Z 1) then Throws message
  else Returns (Real_of (f (val input))).
Definition Arith_Asin := in_unit "asin() is undefined outside [-1,1]" c_asin.
Definition Arith_Acos := in_unit "acos() is undefined outside [-1,1]" c_acos.
Definition Arith_Atan := real1 c_atan.
Definition Arith_Atan2 := real2 c_atan2.
Definition Arith_Cbrt := real1 c_cbrt.
Definition Arith_Cos := real1 c_cos.
Definition Arith_Cosh := real1 c_cosh.
Definition Arith_Cot := real1 Cot.
Definition Arith_Exp := real1 c_exp.
(** The functor's first parameter is its input, and it is given the base. *)
Definition Arith_Log (base v : Real) := real2 Log base v.
Definition Arith_Log2 := real1 c_log2.
Definition Arith_Log10 := real1 c_log10.
Definition Arith_Ln := real1 c_log.
Definition Arith_Pow := real2 c_pow.
Definition Arith_Sin := real1 c_sin.
Definition Arith_Sinh := real1 c_sinh.
Definition Arith_Tan := real1 c_tan.
Definition Arith_Tanh := real1 c_tanh.
Definition Arith_RoundUpTo (input : Real) (scale : Integer) : option Real :=
  Binary_EvalHideNull Real_Null input scale RoundUpTo always2.
End libm.

(** * Dates *)

Definition Century (time : Z) : Z :=
  let year := ExtractYear time in
  if year >? 0 then Z.quot (year + 99) 100 else - Z.quot (99 - (year - 1)) 100.
Definition Decade (time : Z) : Z :=
  let year := ExtractYear time in
  if year >=? 0 then Z.quot year 10 else - Z.quot (8 - (year - 1)) 10.
Definition Quarter (time : Z) : Z := Z.quot (ExtractMonth time - 1) 3 + 1.

Definition of_time (f : Z -> Z) (time : TimestampVal) : option Integer :=
  Unary_EvalHideNull Integer_Null time (fun t => Some (f t)) always.
Definition Date_Century := of_time Century.
Definition Date_Decade := of_time Decade.
Definition Date_Year := of_time ExtractYear.
Definition Date_Quarter := of_time Quarter.
Definition Date_Month := of_time ExtractMonth.
Definition Date_Day := of_time ExtractDay.
Definition Date_DayOfWeek := of_time ExtractDayOfWeek.
Definition Date_DayOfYear := of_time ExtractDayOfYear.
Definition Date_Hour := of_time ExtractHour.
Definition Date_Minute := of_time ExtractMinute.
Definition Date_Second := of_time ExtractSecond.
Definition Date_Millisecond := of_time ExtractMillis.
Definition Date_Microseconds := of_time ExtractMicros.

(** * Casts *)

Definition is_integer_type (t : ctype) : bool := match t with int_t _ _ => true | _ => false end.
Definition is_floating_type (t : ctype) : bool := match t with float_t | double_t => true | _ => false end.
Definition is_number_type (t : ctype) : bool := is_integer_type t || is_floating_type t.
Definition is_signed (t : ctype) : bool := match t with int_t s _ => s | bool_t => false | _ => true end.
Definition is_number_downcast (from to : ctype) : bool :=
  is_number_type from && is_number_type to && Bool.eqb (is_signed from) (is_signed to) &&
  Bool.eqb (is_floating_type from) (is_floating_type to) && Nat.ltb (sizeof to) (sizeof from).
Definition is_integral_signed_to_unsigned (from to : ctype) : bool :=
  is_integer_type from && is_integer_type to && is_signed from && negb (is_signed to).
Definition is_integral_unsigned_to_signed (from to : ctype) : bool :=
  is_integer_type from && is_integer_type to && negb (is_signed from) && is_signed to.
Definition is_safe_numeric_cast (from to : ctype) : bool :=
  is_number_type from && is_number_type to && Bool.eqb (is_signed from) (is_signed to) &&
  Bool.eqb (is_integer_type from) (is_integer_type to) && Nat.leb (sizeof from) (sizeof to) &&
  negb (bool_decide (from = to)).
Definition is_float_truncate (from to : ctype) : bool :=
  (is_integer_type from && is_floating_type to) || (is_floating_type from && is_integer_type to).

(** The type two integer types are compared at, and a number converted to it. *)
Definition common_type (a b : bool * nat) : bool * nat :=
  let a := promote a.1 a.2 in
  let b := promote b.1 b.2 in
  if Bool.eqb a.1 b.1 then (a.1, Nat.max a.2 b.2)
  else let '(u, s) := if a.1 then (b.2, a.2) else (a.2, b.2) in
       if Nat.leb s u then (false, u) else (true, s).
Definition at_common (from to : bool * nat) (z : Z) : Z :=
  let c := common_type from to in int_value c.1 c.2 z.
(** [std::numeric_limits]. *)
Definition int_lowest (signed : bool) (n : nat) : Z := if signed then - 2 ^ (8 * Z.of_nat n - 1) else 0.
Definition int_max (signed : bool) (n : nat) : Z := if signed then 2 ^ (8 * Z.of_nat n - 1) - 1 else 2 ^ (8 * Z.of_nat n) - 1.
(** The largest number of a floating-point type. *)
Definition float_max (t : ctype) (negative : bool) : spec_float :=
  S754_finite negative (Z.to_pos (2 ^ prec t - 1)) (emax t - prec t).

(** [input >= kMin && input <= kMax]. *)
Definition in_limits (from to : ctype) (input : Z) : bool :=
  match from, to with
  | int_t s n, int_t s' n' =>
      let at_ := at_common (s, n) (s', n') in
      (at_ (int_value s n input) >=? at_ (int_lowest s' n')) && (at_ (int_value s n input) <=? at_ (int_max s' n'))
  | _, _ =>
      let x := float_round double_t (float_of_bits from input) in
      let le a b := bool_decide (SFcompare a b = Some Lt \/ SFcompare a b = Some Eq) in
      le (float_round double_t (float_max to true)) x && le x (float_round double_t (float_max to false))
  end.

(** The result of the call and the output; the specialisations are the ones of the primitive types. *)
Definition TryCast (from to : ctype) (input : Z) : option (bool * Z) :=
  if bool_decide (from = to) then Some (true, input)
  else match from, to with
  | _, bool_t | bool_t, _ => output ← cast from to input; Some (true, output)
  | _, _ =>
      if is_number_downcast from to || is_integral_signed_to_unsigned from to || is_integral_unsigned_to_signed from to
      then output ← cast from to input; Some (in_limits from to input, output)
      else if is_float_truncate from to then
        output ← cast from to input; back ← cast to from output;
        Some (bool_decide (compare from back input = Some Eq), output)
      else output ← cast from to input; Some (true, output)
  end.

(** [Cast] throws. *)
Definition Cast (from to : ctype) (input : Z) : outcome Z :=
  match TryCast from to input with
  | Some (true, result) => Returns result
  | Some (false, _) => Throws "value out of range"
  | None => Undefined
  end.

(** ** Text *)

(** [std::to_chars] on an integer. *)
Definition int_text (z : Z) : list Z := if z <? 0 then ch "-" :: to_chars (- z) else to_chars z.
(** The buffer has [digits10] bytes, 18 for [int64_t]; what it holds when they are not enough is not
    specified. *)
Definition int64_digits10 : Z := 18.
Definition TryCast_Integer_string (input : Z) : option (list Z) :=
  if Z.of_nat (length (int_text input)) <=? int64_digits10 then Some (int_text input) else None.
Definition TryCast_bool_string (input : bool) : list Z := bytes (if input then "true" else "false").

(** [std::to_string]: the format [%f], six digits of the exact value, rounded half to even. *)
Definition round_half_even (n d : Z) : Z :=
  let q := n / d in let r := n mod d in
  if 2 * r <? d then q else if d <? 2 * r then q + 1 else if Z.even q then q else q + 1.
Fixpoint pad_zeros (n : nat) (s : list Z) : list Z := if Nat.leb n (length s) then s else match n with O => s | S n' => ch "0" :: pad_zeros n' s end.
Definition digits (z : Z) : list Z := to_chars_loop (S (Z.to_nat (Z.log2 z))) z [].
Definition TryCast_double_string (input : double) : list Z :=
  let minus (s : bool) := if s then [ch "-"] else [] in
  match input with
  | S754_nan => bytes "nan" (* or -nan, by a sign that is not kept *)
  | S754_infinity s => minus s ++ bytes "inf"
  | S754_zero s => minus s ++ bytes "0.000000"
  | S754_finite s m e =>
      let n := round_half_even (Zpos m * 10 ^ 6 * 2 ^ Z.max 0 e) (2 ^ Z.max 0 (- e)) in
      minus s ++ digits (n / 10 ^ 6) ++ [ch "."] ++ pad_zeros 6 (digits (n mod 10 ^ 6))
  end.

(** A boolean is known by its first letter. *)
Definition TryCast_string_bool (input : list Z) : option bool :=
  match input with
  | [] => None
  | c :: _ =>
      if (c =? ch "t") || (c =? ch "T") then Some true
      else if (c =? ch "f") || (c =? ch "F") then Some false else None
  end.

(** [std::from_chars] on [int64_t]: a minus sign and digits; what follows them is ignored. *)
Fixpoint take_digits (s : list Z) (n : Z) : Z :=
  match s with c :: s' => if isdigit c then take_digits s' (10 * n + (c - ch "0")) else n | [] => n end.
Definition TryCast_string_Integer (input : list Z) : option Z :=
  let '(negative, s) := match input with c :: s => if c =? ch "-" then (true, s) else (false, input) | [] => (false, []) end in
  match s with
  | c :: _ =>
      if isdigit c then
        let n := take_digits s 0 in let z := if negative : bool then - n else n in
        if bool_decide (is_sint 64 z) then Some z else None
      else None
  | [] => None
  end.

(** ** Casts of SQL values

    The result of [TryCast] is ignored: where it fails, the value is the one the output had, zero, or the
    one that was stored. *)
Definition simple {R T} (f : T -> option R) (input : Val T) : option (Val R) := Unary_EvalFast input f.
Definition int64_bits (z : Z) : Z := int_bits 8 z.
Definition via (from to : ctype) {R T} (enc : T -> Z) (dec : Z -> R) (x : T) : option R :=
  r ← TryCast from to (enc x); Some (dec r.2).
Definition OpBoolToInteger : BoolVal -> option Integer := simple (via bool_t int64 bit (int_value true 8)).
Definition OpIntegerToBool : Integer -> option BoolVal := simple (via int64 bool_t int64_bits (Z.eqb 1)).
Definition OpIntegerToReal : Integer -> option Real := simple (via int64 double_t int64_bits (float_of_bits double_t)).
Definition OpRealToBool : Real -> option BoolVal := simple (via double_t bool_t (bits_of_float double_t) (Z.eqb 1)).
Definition OpRealToInteger : Real -> option Integer := simple (via double_t int64 (bits_of_float double_t) (int_value true 8)).
Definition OpDateToTimestamp : DateVal -> option TimestampVal := simple (fun d => Some (Date_ConvertToTimestamp d)).
Definition OpTimestampToDate : TimestampVal -> option DateVal := simple (fun t => Some (Timestamp_ConvertToDate t)).

(** From a string: NULL gives NULL. *)
Definition from_string {R} (null : Val R) (f : list Z -> R) (input : StringVal) : option (Val R) :=
  Unary_EvalHideNull null input (fun v => Some (f (GetContent v))) always.
Definition OpStringToBool := from_string BoolVal_Null (fun s => default false (TryCast_string_bool s)).
Definition OpStringToInteger := from_string Integer_Null (fun s => default 0 (TryCast_string_Integer s)).
(** [FromString] throws; its message also quotes the text. *)
Definition OpStringToDate (input : StringVal) : outcome DateVal :=
  if is_null input then Returns DateVal_Null
  else match Date_FromString (GetContent (val input)) with
       | Some d => Returns (DateVal_of d)
       | None => Throws "not a valid date"
       end.
Definition OpStringToTimestamp (input : StringVal) : outcome TimestampVal :=
  if is_null input then Returns TimestampVal_Null
  else match Timestamp_FromString (GetContent (val input)) with
       | Some t => Returns (TimestampVal_of t)
       | None => Throws "Converting strings to timestamps not implemented."
       end.

(** To a string, of which a copy is put in the string heap. *)
Definition to_string {T} (f : T -> option (list Z)) (input : Val T) : option StringVal :=
  Unary_EvalHideNull StringVal_Null input (fun x => s ← f x; VarlenEntry_of s) always.
Definition OpIntegerToString : Integer -> option StringVal := to_string TryCast_Integer_string.
Definition OpRealToString : Real -> option StringVal := to_string (fun x => Some (TryCast_double_string x)).
(** [buf] is what the buffer of [ToString] holds before it is written. *)
Definition OpDateToString (buf : list Z) : DateVal -> option StringVal := to_string (fun d => Date_ToString d buf).
Definition OpTimestampToString (buf : list Z) : TimestampVal -> option StringVal := to_string (fun t => Timestamp_ToString t buf).

(** * Hashing *)

(** The 64-bit hash of a buffer, from a library. *)
Class XXH3 := XXH3_64bits_withSeed : list Z -> Z -> Z.

Definition mul64 (a b : Z) : Z := wrapu 64 (a * b).
(** [k ^= k >> 33] *)
Definition xorshift (r k : Z) : Z := Z.lxor k (Z.shiftr k r).
(** [val] is what the conversion to [uint64_t] gives. *)
Definition HashMurmur (v seed : Z) : Z :=
  let k := wrapu 64 v in
  let k := xorshift 33 k in
  let k := mul64 k 0xff51afd7ed558ccd in
  let k := xorshift 33 k in
  let k := mul64 k 0xc4ceb9fe1a85ec53 in
  let k := xorshift 33 k in
  Z.lxor k seed.
Definition kMul : Z := 0x9ddfea08eb382d69.
Definition CombineHashes (first_hash second_hash : Z) : Z :=
  let a := mul64 (Z.lxor first_hash second_hash) kMul in
  let a := xorshift 47 a in
  let b := mul64 (Z.lxor second_hash a) kMul in
  let b := xorshift 47 b in
  mul64 b kMul.

(** [Hash] and [HashCombine] of an integer, a date or a timestamp; NULL hashes to zero. *)
Definition Hash (input : Z) (null : bool) : Z := if null then 0 else HashMurmur input 0.
Definition HashCombine (input : Z) (null : bool) (seed : Z) : Z := if null then 0 else HashMurmur input seed.
Section xxh3.
Context `{XXH3}.
Definition Hash_Varlen (input : VarlenEntry) (null : bool) : Z :=
  if null then 0 else XXH3_64bits_withSeed (GetContent input) 0.
Definition HashCombine_Varlen (input : VarlenEntry) (null : bool) (seed : Z) : Z :=
  if null then 0 else XXH3_64bits_withSeed (GetContent input) seed.
Definition OpHashString (input : StringVal) (seed : Z) : Z := HashCombine_Varlen (val input) (is_null input) seed.
End xxh3.
Definition OpHashInt (input : Integer) (seed : Z) : Z := if is_null input then 0 else HashMurmur (val input) seed.
(** The conversion of a real is undefined below zero and from [2 ^ 64] on. *)
Definition OpHashReal (input : Real) (seed : Z) : option Z :=
  if is_null input then Some 0
  else z ← float_trunc (val input); if bool_decide (is_uint 64 z) then Some (HashMurmur z seed) else None.
Definition OpHashDate (input : DateVal) (seed : Z) : Z := if is_null input then 0 else HashMurmur (val input) seed.
Definition OpHashTimestamp (input : TimestampVal) (seed : Z) : Z := if is_null input then 0 else HashMurmur (val input) seed.
Definition OpHashCombine (hash_val new_hash_val : Z) : Z := CombineHashes hash_val new_hash_val.

(** * Operations of the virtual machine *)

Definition OpForceBoolTruth (input : BoolVal) : bool := ForceTruth input.
(** [Val(true)]: only the flag is written. *)
Definition OpInitSqlNull {A} (result : Val A) : Val A := mkVal true (val result).
Definition OpInitBool (input : bool) : BoolVal := mkVal false input.
Definition OpInitInteger (input : Z) : Integer := mkVal false input.
Definition OpInitReal (input : spec_float) : Real := Real_of_float input.
(** [FromYMD] throws. *)
Definition OpInitDate (year month day : Z) : option DateVal := d ← FromYMD year month day; Some (mkVal false d).
Definition OpInitString (str : list Z) (len : Z) : option StringVal := v ← VarlenEntry_Create str len; Some (mkVal false v).

Definition OpGreaterThan {A} `{Comparable A} (left right : Val A) := GreaterThan left right.
Definition OpGreaterThanEqual {A} `{Comparable A} (left right : Val A) := GreaterEqual left right.
Definition OpEqual {A} `{Comparable A} (left right : Val A) := Equal left right.
Definition OpEqualString := Equal_String.
Definition OpLessThan {A} `{Comparable A} (left right : Val A) := LessThan left right.
Definition OpLessThanEqual {A} `{Comparable A} (left right : Val A) := LessEqual left right.
Definition OpNotEqual {A} `{Comparable A} (left right : Val A) := NotEqual left right.

Definition OpAbsInteger (left : Integer) := Arith_Abs left.
Definition OpAbsReal (left : Real) := Arith_Abs left.
Definition OpAddInteger (left right : Integer) : Integer := (Arith_AddChecked left right).1.
Definition OpSubInteger (left right : Integer) : Integer := (Arith_SubChecked left right).1.
Definition OpMulInteger (left right : Integer) : Integer := (Arith_MulChecked left right).1.
Definition OpDivInteger (left right : Integer) : option Integer := fst <$> Arith_Div Integer_Null left right false.
Definition OpRemInteger (left right : Integer) : option Integer := fst <$> Arith_Mod Integer_Null left right false.
Definition OpAddReal (left right : Real) := Arith_Add left right.
Definition OpSubReal (left right : Real) := Arith_Sub left right.
Definition OpMulReal (left right : Real) := Arith_Mul left right.
Definition OpDivReal (left right : Real) : option Real := fst <$> Arith_Div Real_Null left right false.
Definition OpRemReal (left right : Real) : option Real := fst <$> Arith_Mod Real_Null left right false.

Definition OpPi := Arith_Pi.
Definition OpE := Arith_E.
Definition OpSqrt := Arith_Sqrt.
Definition OpCeil := Arith_Ceil.
Definition OpFloor := Arith_Floor.
Definition OpTruncate := Arith_Truncate.
Definition OpSign := Arith_Sign.
Definition OpRadians := Arith_Radians.
Definition OpDegrees := Arith_Degrees.
Definition OpRound := Arith_Round.
Section op_libm.
Context `{Libm}.
Definition OpAcos := Arith_Acos.
Definition OpAsin := Arith_Asin.
Definition OpAtan := Arith_Atan.
Definition OpAtan2 := Arith_Atan2.
Definition OpCos := Arith_Cos.
Definition OpCot := Arith_Cot.
Definition OpSin := Arith_Sin.
Definition OpTan := Arith_Tan.
Definition OpCosh := Arith_Cosh.
Definition OpTanh := Arith_Tanh.
Definition OpSinh := Arith_Sinh.
Definition OpCbrt := Arith_Cbrt.
Definition OpExp := Arith_Exp.
Definition OpLn := Arith_Ln.
Definition OpLog2 := Arith_Log2.
Definition OpLog10 := Arith_Log10.
Definition OpRoundUpTo := Arith_RoundUpTo.
Definition OpLog := Arith_Log.
Definition OpPow := Arith_Pow.
End op_libm.
Definition OpValIsNull {A} (v : Val A) : bool := IsNull v.
Definition OpValIsNotNull {A} (v : Val A) : bool := IsNotNull v.
Definition OpLogicalNotBoolVal (input : BoolVal) : BoolVal := LogicalNot input.
Definition OpExtractYear (input : DateVal) : option Integer :=
  Date_Year (mkVal (is_null input) (Date_ConvertToTimestamp (val input))).

(** * Lemmas *)

Lemma xorshift_range r k : 0 <= r -> is_uint 64 k -> is_uint 64 (xorshift r k).
Proof.
  intros Hr [H0 H1]. unfold xorshift, is_uint. split.
  - apply Z.lxor_nonneg. rewrite Z.shiftr_nonneg. lia.
  - destruct (Z.eq_dec (Z.lxor k (Z.shiftr k r)) 0) as [->|N]; [lia|].
    apply Z.log2_lt_pow2.
    + pose proof (proj2 (Z.lxor_nonneg k (Z.shiftr k r))). rewrite Z.shiftr_nonneg in *. lia.
    + eapply Z.le_lt_trans; [apply Z.log2_lxor; rewrite ?Z.shiftr_nonneg; lia|].
      assert (B : forall z, 0 <= z < 2 ^ 64 -> Z.log2 z < 64).
      { intros z Hz. destruct (Z.eq_dec z 0) as [->|]; [done|]. apply Z.log2_lt_pow2; lia. }
      apply Z.max_lub_lt; apply B; [lia|]. rewrite Z.shiftr_div_pow2 by lia.
      pose proof (pow2_pos r Hr). split; [apply Z.div_pos; lia|].
      eapply Z.le_lt_trans; [apply Z.div_le_upper_bound with (q := k); nia|lia].
Qed.

(** Twice the same shift by half the width or more gives the number back. *)
Lemma xorshift_twice r k : 32 <= r -> is_uint 64 k -> xorshift r (xorshift r k) = k.
Proof.
  intros Hr [H0 H1]. unfold xorshift. rewrite Z.shiftr_lxor, Z.shiftr_shiftr by lia.
  replace (Z.shiftr k (r + r)) with 0.
  - rewrite Z.lxor_0_r, Z.lxor_assoc, Z.lxor_nilpotent. apply Z.lxor_0_r.
  - rewrite Z.shiftr_div_pow2 by lia. symmetry. apply Z.div_small. split; [lia|].
    eapply Z.lt_le_trans; [exact H1|]. apply Z.pow_le_mono_r; lia.
Qed.

Lemma mul64_cancel a b k : wrapu 64 (a * b) = 1 -> is_uint 64 k -> mul64 (mul64 k a) b = k.
Proof.
  intros E Hk. unfold mul64, wrapu in *. rewrite Zmult_mod_idemp_l, <- Z.mul_assoc, Zmult_mod, E, Z.mul_1_r, Zmod_mod.
  apply Z.mod_small, Hk.
Qed.

Lemma mul64_range a b : is_uint 64 (mul64 a b).
Proof. apply wrapu_range. lia. Qed.

Lemma lxor_twice a b : Z.lxor (Z.lxor a b) b = a.
Proof. rewrite Z.lxor_assoc, Z.lxor_nilpotent. apply Z.lxor_0_r. Qed.

(** The inverses of the two hashes. *)
Definition unHashMurmur (h seed : Z) : Z :=
  xorshift 33 (mul64 (xorshift 33 (mul64 (xorshift 33 (Z.lxor h seed)) 0x9cb4b2f8129337db)) 0x4f74430c22a54005).
Definition unCombineHashes (h second_hash : Z) : Z :=
  let inv := 0xdc56e6f5090b32d9 in
  let a := Z.lxor (mul64 (xorshift 47 (mul64 h inv)) inv) second_hash in
  Z.lxor (mul64 (xorshift 47 a) inv) second_hash.

Lemma lxor_range a b : is_uint 64 a -> is_uint 64 b -> is_uint 64 (Z.lxor a b).
Proof.
  intros Ha Hb. pose proof (wrapu_range 64 (Z.lxor a b) ltac:(lia)) as W. unfold wrapu in W.
  rewrite <- Z.land_ones in W by lia. replace (Z.land (Z.lxor a b) (Z.ones 64)) with (Z.lxor a b) in W; [done|].
  apply Z.bits_inj'. intros n Hn. rewrite Z.land_spec, Z.lxor_spec.
  destruct (Z.lt_ge_cases n 64); [rewrite Z.ones_spec_low by lia; by rewrite andb_true_r|].
  assert (B : forall z, is_uint 64 z -> Z.testbit z n = false).
  { intros z [Z0 Z1]. destruct (Z.eq_dec z 0) as [->|]; [apply Z.bits_0|]. apply Z.log2_lt_pow2 in Z1; [|lia].
    apply Z.bits_above_log2; lia. }
  by rewrite (B a), (B b).
Qed.

Lemma unHashMurmur_HashMurmur v seed : unHashMurmur (HashMurmur v seed) seed = wrapu 64 v.
Proof.
  unfold unHashMurmur, HashMurmur. rewrite lxor_twice.
  pose proof (wrapu_range 64 v ltac:(lia)) as R.
  rewrite xorshift_twice by (auto using mul64_range; lia).
  rewrite mul64_cancel by (try reflexivity; apply xorshift_range, mul64_range; lia).
  rewrite xorshift_twice by (auto using mul64_range; lia).
  rewrite mul64_cancel by (first [reflexivity|apply xorshift_range; [lia|exact R]]).
  by apply xorshift_twice.
Qed.

Lemma unCombineHashes_CombineHashes first second : is_uint 64 first -> is_uint 64 second ->
  unCombineHashes (CombineHashes first second) second = first.
Proof.
  intros H1 H2. unfold unCombineHashes, CombineHashes. set (a := xorshift 47 (mul64 (Z.lxor first second) kMul)).
  assert (Ra : is_uint 64 a) by (apply xorshift_range, mul64_range; lia).
  rewrite mul64_cancel by (try reflexivity; apply xorshift_range, mul64_range; lia).
  rewrite xorshift_twice by (auto using mul64_range; lia).
  rewrite mul64_cancel by (try reflexivity; by apply lxor_range).
  replace (Z.lxor (Z.lxor second a) second) with a by (rewrite (Z.lxor_comm second a), lxor_twice; done).
  unfold a. rewrite xorshift_twice by (auto using mul64_range; lia).
  rewrite mul64_cancel by (try reflexivity; by apply lxor_range). apply lxor_twice.
Qed.

(** * Theorems *)

(** Hashing loses nothing: with any seed, the hash of a 64-bit number determines the number, so that two
    integers, dates or timestamps that are not NULL have the same hash only if they are equal; and a
    combined hash with its second hash determines the first one.  NULLs hash to zero. *)
Theorem hashes_are_injective (a b : Integer) (seed : Z) :
  is_sint 64 (val a) -> is_sint 64 (val b) -> is_uint 64 seed ->
  (is_null a = true -> OpHashInt a seed = 0) /\
  (is_null a = false -> is_null b = false -> OpHashInt a seed = OpHashInt b seed -> val a = val b) /\
  (forall h1 h2, is_uint 64 h1 -> is_uint 64 h2 -> OpHashCombine h1 seed = OpHashCombine h2 seed -> h1 = h2).
Proof.
  intros Ha Hb Hs. unfold OpHashInt, OpHashCombine. split_and!.
  - by intros ->.
  - intros -> -> E. apply (f_equal (fun h => unHashMurmur h seed)) in E. rewrite !unHashMurmur_HashMurmur in E.
    apply (f_equal (wraps 64)) in E. by rewrite !wraps_wrapu, !wraps_small in E by (done || lia).
  - intros h1 h2 H1 H2 E. apply (f_equal (fun h => unCombineHashes h seed)) in E.
    by rewrite !unCombineHashes_CombineHashes in E.
Qed.

Lemma hashes_are_injective_witness :
  OpHashInt (Integer_of 42) 7 <> OpHashInt (Integer_of 43) 7 /\ OpHashCombine 1 7 <> OpHashCombine 2 7.
Proof.
  destruct (hashes_are_injective (Integer_of 42) (Integer_of 43) 7) as (_ & H & C); [split; vm_compute; congruence..|].
  split; intros E; [discriminate (H eq_refl eq_refl E)|].
  assert (D : 1 = 2) by (apply C; [split; vm_compute; congruence..|exact E]). discriminate D.
Defined.

Lemma int64_op_value f a b :
  int64_op f a b = if bool_decide (is_sint 64 (f a b)) then Some (f a b) else None.
Proof.
  unfold int64_op, int_result, is_sint. cbn [fst snd]. change (8 * Z.of_nat 8) with 64.
  case_bool_decide as E; destruct (_ && _) eqn:B; try done; exfalso.
  - apply andb_false_iff in B as [B|B]; bprop; lia.
  - bprop. apply E. lia.
Qed.

Lemma quot_in_range a b : is_sint 64 a -> b <> 0 -> is_sint 64 (Z.quot a b) <-> ~ (a = - 2 ^ 63 /\ b = -1).
Proof.
  intros Ha Hb. split.
  - intros H [-> ->]. vm_compute in H. destruct H. discriminate.
  - unfold is_sint in *. intros N. destruct (Z.eq_dec b 1) as [->|]; [rewrite Z.quot_1_r; lia|].
    destruct (Z.eq_dec b (-1)) as [->|].
    + change (-1) with (- (1)). rewrite Z.quot_opp_r, Z.quot_1_r by lia. lia.
    + assert (A : Z.abs (Z.quot a b) <= Z.abs a / 2).
      { rewrite <- Z.quot_abs, Z.quot_div_nonneg by lia. apply Z.div_le_compat_l; lia. }
      assert (Z.abs a / 2 <= 2 ^ 62) by (apply Z.div_le_upper_bound; lia). lia.
Qed.

Lemma rem_in_range a b : is_sint 64 b -> b <> 0 -> is_sint 64 (Z.rem a b).
Proof. intros Hb N. unfold is_sint in *. pose proof (Z.rem_bound_abs a b N). lia. Qed.

(** C13: Arithmetic on integers.  NULL on either side gives NULL.  Sums, differences and products wrap at 64 bits,
    and the flag says exactly whether they had to.  A division by zero is NULL and sets its flag, which keeps
    its value when a side is NULL; all other quotients and remainders are truncated ones, but for the least
    number divided by -1, which is undefined. *)
Theorem integer_arithmetic (a b : Integer) (flag : bool) :
  is_sint 64 (val a) -> is_sint 64 (val b) ->
  let nulls := is_null a || is_null b in
  let exact (f : Z -> Z -> Z) (r : Integer * bool) :=
    known r.1 = (x ← known a; y ← known b; Some (wraps 64 (f x y))) /\
    (r.2 = true <-> ~ is_sint 64 (f (val a) (val b))) in
  let divides (f : Z -> Z -> Z) (r : option (Integer * bool)) :=
    if nulls then r = Some (Integer_Null, flag)
    else if val b =? 0 then r = Some (Integer_Null, true)
    else if (val a =? - 2 ^ 63) && (val b =? -1) then r = None
    else r = Some (Integer_of (f (val a) (val b)), false) in
  exact Z.add (Arith_AddChecked a b) /\ exact Z.sub (Arith_SubChecked a b) /\ exact Z.mul (Arith_MulChecked a b) /\
  divides Z.quot (Arith_Div Integer_Null a b flag) /\ divides Z.rem (Arith_Mod Integer_Null a b flag).
Proof.
  intros Ha Hb nulls exact divides.
  assert (EX : forall f, exact f (checked (with_overflow f) a b)).
  { intros f. unfold exact, checked, with_overflow, known. cbn [fst snd is_null val]. split.
    - by destruct (is_null a), (is_null b).
    - rewrite negb_true_iff, Z.eqb_neq. split; intros N E; apply N; [apply wraps_small; [lia|done]|].
      rewrite <- E. apply wraps_range. lia. }
  assert (DV : forall f, (val b <> 0 -> ~ (val a = - 2 ^ 63 /\ val b = -1) -> is_sint 64 (f (val a) (val b))) ->
    divides f (r ← Binary_EvalHideNull Integer_Null a b (int64_div f) (fun _ y => negb (y =? 0));
               Some (r, if nulls then flag else val b =? 0))).
  { intros f Hf. unfold divides, Binary_EvalHideNull. fold nulls. destruct nulls; [done|]. simpl.
    unfold int64_div. destruct (Z.eqb_spec (val b) 0) as [Z0|N]; [done|]. simpl.
    rewrite !int64_op_value. pose proof (quot_in_range (val a) (val b) Ha N) as Q.
    destruct ((val a =? - 2 ^ 63) && (val b =? -1)) eqn:E.
    - bprop. rewrite (bool_decide_false (is_sint 64 (Z.quot (val a) (val b)))) by (intros S; apply Q in S; apply S; split; assumption). done.
    - assert (N' : ~ (val a = - 2 ^ 63 /\ val b = -1)).
      { intros [X Y]. rewrite X, Y in E. discriminate. }
      rewrite (bool_decide_true (is_sint 64 (Z.quot (val a) (val b)))) by (apply Q; exact N'). simpl. by rewrite bool_decide_true by auto. }
  split_and!; try apply EX; apply DV; intros N ?.
  - by apply quot_in_range.
  - by apply rem_in_range.
Qed.

Lemma integer_arithmetic_witness :
  known (OpAddInteger (Integer_of (2 ^ 63 - 1)) (Integer_of 1)) = Some (- 2 ^ 63) /\
  Arith_Div Integer_Null (Integer_of 7) (Integer_of 0) false = Some (Integer_Null, true).
Proof.
  destruct (integer_arithmetic (Integer_of (2 ^ 63 - 1)) (Integer_of 1) false) as ([A _] & _); [split; vm_compute; congruence..|].
  destruct (integer_arithmetic (Integer_of 7) (Integer_of 0) false) as (_ & _ & _ & D & _); [split; vm_compute; congruence..|].
  split; [exact A|exact D].
Defined.

(** A cast between integer types of at most eight bytes that is no widening: where C++ compares the input
    with the bounds of the output at a signed type, or neither type is signed, it succeeds exactly on the
    numbers the output type has.  Where the bounds or the input are converted to an unsigned type it is wrong:
    a signed number always passes, also below zero, and an unsigned one never does. *)
Theorem casts_between_integers (s s' : bool) (n n' : nat) (input : Z) :
  n ∈ [1; 2; 4; 8]%nat -> n' ∈ [1; 2; 4; 8]%nat -> (s = s' -> (n' < n)%nat) -> is_uint (8 * Z.of_nat n) input ->
  let x := int_value s n input in
  let fits := (int_lowest s' n' <=? x) && (x <=? int_max s' n') in
  let exact := (common_type (s, n) (s', n')).1 || (negb s && negb s') in
  TryCast (int_t s n) (int_t s' n') input =
    Some (if exact then fits else s, int_bits n' x) /\
  (fits = true -> int_value s' n' (int_bits n' x) = x).
Proof.
  intros Hn Hn' D Hi. set (x := int_value s n input).
  assert (Hx : int_lowest s n <= x <= int_max s n).
  { unfold x, int_value, int_lowest, int_max. destruct s.
    - assert (P : 0 < 8 * Z.of_nat n) by (set_unfold in Hn; lia).
      pose proof (wraps_range (8 * Z.of_nat n) input P) as R. unfold is_sint in R. lia.
    - pose proof (wrapu_range (8 * Z.of_nat n) input ltac:(lia)) as R. unfold is_uint in R. lia. }
  assert (C : TryCast (int_t s n) (int_t s' n') input = Some (in_limits (int_t s n) (int_t s' n') input, int_bits n' x)).
  { unfold TryCast. rewrite bool_decide_false by (intros [= -> ->]; specialize (D eq_refl); lia).
    replace (is_number_downcast _ _ || _ || _) with true; [done|]. symmetry.
    unfold is_number_downcast, is_integral_signed_to_unsigned, is_integral_unsigned_to_signed, is_number_type. simpl.
    destruct s, s'; simpl; rewrite ?orb_true_r, ?orb_false_r; try done; apply Nat.ltb_lt; auto. }
  intros fits exact. rewrite C. split.
  - f_equal. f_equal. unfold in_limits. fold x. clear C D Hi.
    unfold at_common, exact, fits. clearbody x. clear exact fits input. set_unfold in Hn. set_unfold in Hn'.
    destruct_or! Hn; destruct_or! Hn'; subst n n'; destruct s, s';
      cbn [common_type promote fst snd Nat.ltb Nat.leb Nat.max Bool.eqb andb orb negb int_value int_lowest int_max] in *;
      repeat match goal with
      | |- context [wraps ?w ?z] => rewrite (wraps_small w z) by (try unfold is_sint; lia)
      | |- context [wrapu ?w ?z] => rewrite (wrapu_small w z) by (unfold is_uint; lia)
      end; rewrite Z.geb_leb; try reflexivity.
    all: try (match goal with |- context [wrapu ?w ?y] => is_var y; pose proof (wrapu_range w y ltac:(lia)) as [] end;
              apply andb_true_iff; split; apply Z.leb_le; lia).
    all: apply not_true_iff_false; intros F; bprop;
      match goal with H : wrapu ?w ?z <= _ |- _ => let c := eval vm_compute in (wrapu w z) in change (wrapu w z) with c in H end; lia.
  - intros F. unfold fits in F. clear C. subst exact fits. clearbody x. bprop. unfold int_value, int_bits, int_lowest, int_max in *. set_unfold in Hn'. destruct s'.
    + rewrite wraps_wrapu by lia. apply wraps_small; unfold is_sint; lia.
    + rewrite (wrapu_small _ x), wrapu_small by (unfold is_uint; lia). done.
Qed.

Lemma casts_between_integers_witness :
  TryCast uint32 int8 5 = Some (false, 5) /\ TryCast int32 uint32 (2 ^ 32 - 1) = Some (true, 2 ^ 32 - 1) /\
  TryCast int32 int8 (2 ^ 32 - 1) = Some (true, 255).
Proof.
  split_and!.
  - exact (proj1 (casts_between_integers false true 4 1 5 ltac:(set_solver) ltac:(set_solver) ltac:(done) ltac:(split; vm_compute; congruence))).
  - exact (proj1 (casts_between_integers true false 4 4 (2 ^ 32 - 1) ltac:(set_solver) ltac:(set_solver) ltac:(done) ltac:(split; vm_compute; congruence))).
  - exact (proj1 (casts_between_integers true true 4 1 (2 ^ 32 - 1) ltac:(set_solver) ltac:(set_solver) ltac:(lia) ltac:(split; vm_compute; congruence))).
Defined.

Lemma to_chars_loop_isdigit fuel : forall v acc, 0 <= v -> Forall (fun c => isdigit c = true) acc ->
  Forall (fun c => isdigit c = true) (to_chars_loop fuel v acc).
Proof.
  induction fuel as [|fuel IH]; intros v acc Hv Ha; simpl; [done|].
  pose proof (Z.mod_pos_bound v 10 ltac:(lia)).
  assert (D : isdigit (ch "0" + v mod 10) = true).
  { unfold isdigit. apply andb_true_iff. split; apply Z.leb_le; unfold ch; simpl; lia. }
  destruct (v <? 10); [auto|]. apply IH; [apply Z.div_pos; lia|auto].
Qed.

Lemma take_digits_to_chars_loop fuel : forall v acc, 0 <= v < 10 ^ Z.of_nat fuel ->
  take_digits (to_chars_loop fuel v acc) 0 = take_digits acc v.
Proof.
  induction fuel as [|fuel IH]; intros v acc Hv; [simpl in *; replace v with 0 by lia; done|].
  pose proof (Z.mod_pos_bound v 10 ltac:(lia)). pose proof (Z.div_mod v 10 ltac:(lia)).
  assert (D : forall n, take_digits ((ch "0" + v mod 10) :: acc) n = take_digits acc (10 * n + v mod 10)).
  { intros n. cbn [take_digits]. replace (isdigit _) with true; [f_equal; lia|]. symmetry.
    unfold isdigit. apply andb_true_iff. split; apply Z.leb_le; unfold ch; simpl; lia. }
  cbn [to_chars_loop]. destruct (v <? 10) eqn:E; bprop.
  - rewrite D. f_equal. rewrite Z.mod_small; lia.
  - rewrite IH, D; [f_equal; lia|]. rewrite Nat2Z.inj_succ, Z.pow_succ_r in Hv by lia.
    split; [apply Z.div_pos; lia|apply Z.div_lt_upper_bound; lia].
Qed.

(** The number of digits. *)
Lemma to_chars_loop_len fuel : forall n v acc, (1 <= n <= fuel)%nat -> 0 <= v ->
  (length (to_chars_loop fuel v acc) <= n + length acc)%nat <-> v < 10 ^ Z.of_nat n \/ n = fuel.
Proof.
  induction fuel as [|fuel IH]; intros n v acc Hn Hv; [lia|]. cbn [to_chars_loop].
  assert (L : forall f w l, (length l <= length (to_chars_loop f w l))%nat).
  { clear. induction f as [|f IH]; intros w l; simpl; [lia|]. destruct (w <? 10); simpl; [lia|].
    specialize (IH (w / 10) ((ch "0" + w mod 10) :: l)). simpl in IH. lia. }
  destruct (v <? 10) eqn:E; bprop.
  - simpl. split; [|lia]. intros _. left. eapply Z.lt_le_trans; [exact E|].
    change 10 with (10 ^ 1) at 1. apply Z.pow_le_mono_r; lia.
  - destruct n as [|[|n]]; [lia| |].
    + split; [|intros [|]; [lia|]].
      * intros H. destruct fuel as [|fuel]; [auto|]. exfalso. cbn [to_chars_loop] in H.
        destruct (v / 10 <? 10); [simpl in H; lia|]. pose proof (L fuel (v / 10 / 10) ((ch "0" + v / 10 mod 10) :: (ch "0" + v mod 10) :: acc)).
        simpl in *. lia.
      * replace fuel with O by lia. simpl. lia.
    + specialize (IH (S n) (v / 10) ((ch "0" + v mod 10) :: acc) ltac:(lia) ltac:(apply Z.div_pos; lia)).
      simpl length in IH. replace (S (S n) + length acc)%nat with (S n + S (length acc))%nat by lia. rewrite IH.
      rewrite (Nat2Z.inj_succ (S n)), Z.pow_succ_r by lia.
      assert (v / 10 < 10 ^ Z.of_nat (S n) <-> v < 10 * 10 ^ Z.of_nat (S n)).
      { split; [|intros; apply Z.div_lt_upper_bound; lia]. intros. pose proof (Z.div_mod v 10 ltac:(lia)).
        pose proof (Z.mod_pos_bound v 10 ltac:(lia)). lia. }
      split; intros [P|P]; [left; lia|right; lia|left; lia|right; lia].
Qed.

Lemma take_digits_reads v : 0 <= v <= 2 ^ 63 -> exists c s, to_chars v = c :: s /\ isdigit c = true /\ take_digits (c :: s) 0 = v.
Proof.
  intros Hv. pose proof (to_chars_loop_isdigit 20 v [] ltac:(lia) (Forall_nil_2 _)) as D.
  assert (E : take_digits (to_chars v) 0 = v).
  { unfold to_chars. rewrite take_digits_to_chars_loop; [done|]. split; [lia|]. apply Z.le_lt_trans with (2 ^ 63); [lia|reflexivity]. }
  assert (N : to_chars v <> []).
  { unfold to_chars. intros N. assert (length (to_chars_loop 20 v []) <= 1 + length (@nil Z))%nat as L by (rewrite N; simpl; lia).
    apply (to_chars_loop_len 20 1 v []) in L; [|lia..]. destruct L as [L|]; [|lia]. unfold to_chars_loop in N.
    replace (v <? 10) with true in N; [done|]. symmetry. apply Z.ltb_lt. exact L. }
  unfold to_chars in *. destruct (to_chars_loop 20 v []) as [|c s]; [done|]. exists c, s. split_and!; [done|by inversion D|done].
Qed.

(** The text of a 64-bit integer reads back as the integer.  The buffer in which a cast to a string makes
    it is too small, however: the cast works for the numbers whose text has at most 18 characters, which are
    those between -10^17 and 10^18, and has no defined result for the others. *)
Theorem integers_and_text (z : Z) : is_sint 64 z ->
  TryCast_string_Integer (int_text z) = Some z /\
  TryCast_Integer_string z = if (- 10 ^ 17 <? z) && (z <? 10 ^ 18) then Some (int_text z) else None.
Proof.
  intros Hz. pose proof Hz as [Z0 Z1]. split.
  - unfold int_text, TryCast_string_Integer. destruct (z <? 0) eqn:E; bprop.
    + change (ch "-" =? ch "-") with true. cbn iota beta.
      destruct (take_digits_reads (- z)) as (c & s & -> & -> & ->); [lia|].
      rewrite bool_decide_true by (replace (- - z) with z by lia; done). f_equal. lia.
    + destruct (take_digits_reads z) as (c & s & -> & D & T); [lia|].
      replace (c =? ch "-") with false; [rewrite D, T; by rewrite bool_decide_true|].
      symmetry. apply Z.eqb_neq. intros ->. discriminate D.
  - unfold TryCast_Integer_string, int_text, int64_digits10, to_chars.
    assert (G : forall n v (k : nat), (1 <= n < 20)%nat -> 0 <= v -> (k + n = 18)%nat ->
      (Z.of_nat (k + length (to_chars_loop 20 v [])) <=? 18) = (v <? 10 ^ Z.of_nat n)).
    { intros n v k Hn Hv Hk. pose proof (to_chars_loop_len 20 n v [] ltac:(lia) Hv) as L. simpl length in L at 2.
      apply eq_bool_prop_intro. rewrite !Is_true_true, Z.leb_le, Z.ltb_lt. split; intros H.
      - destruct (proj1 L) as [|]; lia.
      - apply or_introl with (B := n = 20%nat) in H. apply L in H. lia. }
    destruct (z <? 0) eqn:E; bprop.
    + pose proof (G 17%nat (- z) 1%nat ltac:(lia) ltac:(lia) ltac:(lia)) as GG. cbn [Nat.add] in GG. cbn [length].
      rewrite GG, (proj2 (Z.ltb_lt z (10 ^ 18))), andb_true_r by lia.
      replace (- 10 ^ 17 <? z) with (- z <? 10 ^ Z.of_nat 17); [done|].
      apply eq_bool_prop_intro. rewrite !Is_true_true, !Z.ltb_lt. simpl. lia.
    + pose proof (G 18%nat z 0%nat ltac:(lia) ltac:(lia) ltac:(lia)) as GG. cbn [Nat.add] in GG.
      rewrite GG, (proj2 (Z.ltb_lt (- 10 ^ 17) z)) by lia. done.
Qed.

Lemma integers_and_text_witness :
  TryCast_string_Integer (int_text (- 2 ^ 63)) = Some (- 2 ^ 63) /\ TryCast_Integer_string (10 ^ 18) = None.
Proof.
  split.
  - apply integers_and_text. split; vm_compute; congruence.
  - exact (proj2 (integers_and_text (10 ^ 18) ltac:(split; vm_compute; congruence))).
Defined.
