(* ===== verification/SqlStrings.v ===== *)
(** The string functions of SQL, [src/sql/functions/string_functions.cpp], and the operator LIKE,
    [src/sql/operators/string_operators.cpp].

    A string is here its bytes and its NULL flag; that a [VarlenEntry] carries the bytes is the concern of
    [SqlValues].  A function that forms a string from a pointer and a length copies or refers to the bytes
    there: where they are not all bytes of the strings it was given, the result is [None], as it is where a
    loop does not end.  A length becomes a [uint32_t] when a string is made. *)
From S2P Require Import Prelude Buffer CTypes SqlValues SqlFunctions.

Local Open Scope list_scope.
Local Open Scope Z_scope.

(** A string: what a [StringVal] shows of itself. *)
Definition Text := Val (list Z).
Definition text_of (s : StringVal) : Text := mkVal (is_null s) (GetContent (val s)).
Definition Text_of (s : list Z) : Text := mkVal false s.
Definition Text_Null : Text := mkVal true [].
Definition len (s : Text) : Z := Z.of_nat (length (val s)).

(** [StringVal(ptr, len)], where [mem] are the bytes from the pointer on. *)
Definition make (mem : list Z) (len : Z) : option Text :=
  let n := wrapu 32 len in
  if n <=? Z.of_nat (length mem) then Some (mkVal false (take (Z.to_nat n) mem)) else None.
(** A pointer into a string, [n] bytes behind its start; one past the end is still a pointer. *)
Definition at_ (s : list Z) (n : Z) : option (list Z) :=
  if (0 <=? n) && (n <=? Z.of_nat (length s)) then Some (drop (Z.to_nat n) s) else None.

(** * Functions *)

Definition Concat (inputs : list Text) : option Text :=
  let strings := map val (List.filter (fun s => negb (is_null s)) inputs) in
  let length := foldl (fun n s => n + Z.of_nat (length s)) 0 strings in
  if length =? 0 then Some (Text_of []) else make (concat strings) length.

Definition Substring (str : Text) (pos n : Integer) : option Text :=
  if is_null str || is_null pos || is_null n then Some Text_Null
  else
    let start := Z.max (val pos) 1 in
    end_ ← int64_op Z.add (val pos) (Z.min (len str) (val n));
    if end_ <? val pos then Some Text_Null
    else if end_ <? 1 then Some (Text_of [])
    else p ← at_ (val str) (start - 1); make p (end_ - start).
(** To the end of the string. *)
Definition Substring_from (str : Text) (pos : Integer) : option Text :=
  Substring str pos (Integer_of (2 ^ 63 - 1)).

(** [strncmp(a, b, n) == 0]: it stops at a difference and at a NUL. *)
Fixpoint strncmp_equal (n : nat) (a b : list Z) : option bool :=
  match n with
  | O => Some true
  | S n' =>
      match a, b with
      | x :: a', y :: b' =>
          if x =? y then if x =? 0 then Some true else strncmp_equal n' a' b' else Some false
      | _, _ => None
      end
  end.
(** [count] positions from the pointer on. *)
Fixpoint search_loop (count : nat) (haystack needle : list Z) (i : Z) : option (option Z) :=
  match count with
  | O => Some None
  | S count' =>
      equal ← strncmp_equal (length needle) haystack needle;
      if equal : bool then Some (Some i) else search_loop count' (tail haystack) needle (i + 1)
  end.
(** The offset of the needle.  The bound is a [std::size_t] and the counter a [uint32_t]: with a bound of
    [2 ^ 32] or more it starts again and does not end unless it found something. *)
Definition SearchSubstring (haystack : list Z) (hay_len : Z) (needle : list Z) : option (option Z) :=
  let bound := wrapu 64 (hay_len + Z.of_nat (length needle)) in
  r ← search_loop (Z.to_nat (Z.min bound (2 ^ 32))) haystack needle 0;
  match r with None => if bound <? 2 ^ 32 then Some None else None | _ => Some r end.

(** The parts of a string: [mem] is the memory from [curr] on, and [remaining_len] the distance of the end
    of the string, which the search can pass. *)
Fixpoint split_loop (fuel : nat) (mem : list Z) (remaining_len : Z) (delimiter : list Z) (index field : Z) : option Text :=
  match fuel with
  | O => None
  | S fuel' =>
      next_delim ← SearchSubstring mem (wrapu 64 remaining_len) delimiter;
      match next_delim with
      | None => if index =? field then make mem remaining_len else Some (Text_of [])
      | Some d =>
          if index =? field then make mem d
          else let skip := d + Z.of_nat (length delimiter) in
               split_loop fuel' (drop (Z.to_nat skip) mem) (remaining_len - skip) delimiter (wrapu 32 (index + 1)) field
      end
  end.
(** [after] are the bytes that follow the string in memory. *)
Definition SplitPart (after : list Z) (str delim : Text) (field : Integer) : option Text :=
  if is_null str || is_null delim || is_null field then Some Text_Null
  else if val field <? 0 then Some Text_Null
  else if len delim =? 0 then Some str
  else let mem := val str ++ after in split_loop (S (length mem)) mem (len str) (val delim) 1 (val field).

(** The counter is a [uint32_t] and the bound an [int64_t]. *)
Definition Repeat (str : Text) (n : Integer) : option Text :=
  if is_null str || is_null n then Some Text_Null
  else if (len str =? 0) || (val n <=? 0) then Some (Text_of [])
  else if val n >=? 2 ^ 32 then None
  else make (concat (replicate (Z.to_nat (val n)) (val str))) (wrapu 64 (len str * val n)).

(** The loop that fills [bytes_left] bytes with the pad. *)
Fixpoint pad_loop (fuel : nat) (pad : list Z) (bytes_left : Z) : option (list Z) :=
  if bytes_left >? 0 then
    match fuel with
    | O => None
    | S fuel' =>
        let copy_len := Z.min (Z.of_nat (length pad)) bytes_left in
        rest ← pad_loop fuel' pad (bytes_left - copy_len); Some (take (Z.to_nat copy_len) pad ++ rest)
    end
  else Some [].
Definition pad_with (join : list Z -> list Z -> list Z) (str : Text) (n : Integer) (pad : Text) : option Text :=
  if is_null str || is_null n || is_null pad || (val n <? 0) then Some Text_Null
  else if val n =? len str then Some str
  else if val n <? len str then make (val str) (val n)
  else let left := val n - len str in
       fill ← pad_loop (Z.to_nat left) (val pad) left; make (join fill (val str)) (val n).
Definition Lpad := pad_with (fun fill str => fill ++ str).
Definition Rpad := pad_with (fun fill str => str ++ fill).

Definition Length (str : Text) : Integer := mkVal (is_null str) (len str).
Definition CharLength (str : Text) : Integer := Length str.

(** [tolower] and [toupper] on a [char]: a negative one other than [EOF] is undefined. *)
Definition c_tolower (c : Z) : option Z :=
  if (c <? 128) || (c =? 255) then Some (if (ch "A" <=? c) && (c <=? ch "Z") then c + 32 else c) else None.
Definition c_toupper (c : Z) : option Z :=
  if (c <? 128) || (c =? 255) then Some (if (ch "a" <=? c) && (c <=? ch "z") then c - 32 else c) else None.
Definition transformed (f : Z -> option Z) (str : Text) : option Text :=
  if is_null str then Some Text_Null else target ← mapM f (val str); make target (len str).
Definition Lower := transformed c_tolower.
Definition Upper := transformed c_toupper.
Definition Reverse (str : Text) : option Text :=
  if is_null str then Some Text_Null
  else if len str =? 0 then Some str else make (rev (val str)) (len str).

(** [bitset.set] and [bitset.test] throw for a position that is not below 256, such as that of a negative
    [char]. *)
Definition bit_position (c : Z) : option Z := let p := wrapu 64 (schar c) in if p <? 256 then Some p else None.
Fixpoint trim_begin (fuel : nat) (s : list Z) (bitset : list Z) (begin : Z) : outcome Z :=
  match fuel with
  | O => Undefined
  | S fuel' =>
      if begin <? wraps 32 (Z.of_nat (length s)) then
        match s !! Z.to_nat begin with
        | Some c =>
            match bit_position c with
            | Some p => if bool_decide (p ∈ bitset) then trim_begin fuel' s bitset (begin + 1) else Returns begin
            | None => Throws "out_of_range"
            end
        | None => Undefined
        end
      else Returns begin
  end.
Fixpoint trim_end (fuel : nat) (s : list Z) (bitset : list Z) (begin end_ : Z) : outcome Z :=
  match fuel with
  | O => Undefined
  | S fuel' =>
      if begin <=? end_ then
        match s !! Z.to_nat end_ with
        | Some c =>
            match bit_position c with
            | Some p => if bool_decide (p ∈ bitset) then trim_end fuel' s bitset begin (end_ - 1) else Returns end_
            | None => Throws "out_of_range"
            end
        | None => Undefined
        end
      else Returns end_
  end.
Definition bind {A B} (x : outcome A) (f : A -> outcome B) : outcome B :=
  match x with Returns a => f a | Throws m => Throws m | Undefined => Undefined end.
Definition of_option {A} (x : option A) : outcome A := match x with Some a => Returns a | None => Undefined end.

Definition DoTrim (TrimLeft TrimRight : bool) (str chars : Text) : outcome Text :=
  if is_null str || is_null chars then Returns Text_Null
  else if len str =? 0 then Returns str
  else match mapM bit_position (val chars) with
  | None => Throws "out_of_range"
  | Some bitset =>
      let s := val str in
      let fuel := S (length s) in
      let end_ := wraps 32 (len str - 1) in
      bind (if TrimLeft then trim_begin fuel s bitset 0 else Returns 0) (fun begin =>
      bind (if TrimRight then trim_end fuel s bitset begin end_ else Returns end_) (fun end_ =>
      of_option (p ← at_ s begin; make p (end_ - begin + 1))))
  end.
Definition space : Text := Text_of (bytes " ").
Definition Trim1 (str : Text) := DoTrim true true str space.
Definition Trim (str chars : Text) := DoTrim true true str chars.
Definition Ltrim1 (str : Text) := DoTrim true false str space.
Definition Ltrim (str chars : Text) := DoTrim true false str chars.
Definition Rtrim1 (str : Text) := DoTrim false true str space.
Definition Rtrim (str chars : Text) := DoTrim false true str chars.

Definition Left (str : Text) (n : Integer) : option Text :=
  if is_null str || is_null n then Some Text_Null
  else make (val str) (if val n <? 0 then Z.max 0 (len str + val n) else Z.min (len str) (val n)).
Definition Right (str : Text) (n : Integer) : option Text :=
  if is_null str || is_null n then Some Text_Null
  else
    a ← num_abs (val n);
    let l := Z.min (len str) a in
    if val n >? 0 then p ← at_ (val str) (len str - l); make p l
    else p ← at_ (val str) l; make p (len str - l).

(** * LIKE *)

Definition percent : Z := ch "%".
Definition underscore : Z := ch "_".
Definition kDefaultEscape : Z := 92.

(** The run of wildcards after a percent: what is left of the pattern and of the string; [None] if the
    string ends too early. *)
Fixpoint skip_wildcards (p s : list Z) : option (list Z * list Z) :=
  match p with
  | c :: p' =>
      if c =? percent then skip_wildcards p' s
      else if c =? underscore then match s with [] => None | _ :: s' => skip_wildcards p' s' end
      else Some (p, s)
  | [] => Some ([], s)
  end.
(** [while (slen > 0)]: some rest of the string that is not empty matches. *)
Fixpoint any_rest (f : list Z -> option bool) (s : list Z) : option bool :=
  match s with
  | [] => Some false
  | _ :: s' => b ← f s; if b : bool then Some true else any_rest f s'
  end.
Fixpoint LikeImpl (fuel : nat) (escape : Z) (s p : list Z) : option bool :=
  match fuel with
  | O => None
  | S fuel' =>
      match p, s with
      | c :: p', x :: s' =>
          if c =? escape then
            match p' with
            | [] => Some false
            | c' :: p'' => if c' =? x then LikeImpl fuel' escape s' p'' else Some false
            end
          else if c =? percent then
            match skip_wildcards p' s with
            | None => Some false
            | Some ([], _) => Some true
            | Some ((c' :: p'') as p1, s1) =>
                if c' =? escape then
                  match p'' with [] => Some false | _ => any_rest (fun s => LikeImpl fuel' escape s p'') s1 end
                else any_rest (fun s => LikeImpl fuel' escape s p1) s1
            end
          else if c =? underscore then LikeImpl fuel' escape s' p'
          else if c =? x then LikeImpl fuel' escape s' p' else Some false
      | [], [] => Some true
      | _, _ => Some false
      end
  end.
(** Every step takes a character of the pattern. *)
Definition Like_op (str pattern : list Z) (escape : Z) : option bool := LikeImpl (S (length pattern)) escape str pattern.
Definition NotLike_op (str pattern : list Z) (escape : Z) : option bool := negb <$> Like_op str pattern escape.
Definition Like (string pattern : Text) : option BoolVal :=
  if is_null string || is_null pattern then Some BoolVal_Null
  else b ← Like_op (val string) (val pattern) kDefaultEscape; Some (mkVal false b).

(** * Operations of the virtual machine *)

Definition OpCharLength := CharLength.
Definition OpConcat := Concat.
Definition OpLeft := Left.
Definition OpLike := Like.
Definition OpLength := Length.
Definition OpLower := Lower.
Definition OpLPad := Lpad.
Definition OpLTrim := Ltrim.
Definition OpRepeat := Repeat.
Definition OpReverse := Reverse.
Definition OpRight := Right.
Definition OpRPad := Rpad.
Definition OpRTrim := Rtrim.
Definition OpSplitPart := SplitPart.
Definition OpSubstring := Substring.
Definition OpTrim := Trim.
Definition OpUpper := Upper.

(** * What LIKE means *)

Definition special (escape c : Z) : bool := (c =? percent) || (c =? underscore) || (c =? escape).

(** The language of a pattern: a percent stands for any string, an underscore for any character, a character
    behind the escape character for itself, and so does every other character.  With [lenient := false] a
    percent needs a character to begin with, unless it stands in a run of wildcards behind another one
    ([run]); this is how the code reads it. *)
Inductive like (escape : Z) (lenient : bool) : bool -> list Z -> list Z -> Prop :=
| like_end run : like escape lenient run [] []
| like_percent run s1 s2 p : lenient = true \/ run = true \/ s1 ++ s2 <> [] ->
    like escape lenient true s2 p -> like escape lenient run (s1 ++ s2) (percent :: p)
| like_underscore run x s p : like escape lenient run s p -> like escape lenient run (x :: s) (underscore :: p)
| like_escaped run x s p : like escape lenient false s p -> like escape lenient run (x :: s) (escape :: x :: p)
| like_char run x s p : special escape x = false -> like escape lenient false s p ->
    like escape lenient run (x :: s) (x :: p).

(** No wildcard is escaped right behind a percent and the wildcards that follow it: there the code takes it
    for a wildcard. *)
Fixpoint plain_escapes (escape : Z) (run : bool) (p : list Z) : bool :=
  match p with
  | [] => true
  | c :: p' =>
      if c =? escape then
        match p' with
        | [] => true
        | c' :: p'' => (negb run || negb (special escape c')) && plain_escapes escape false p''
        end
      else if c =? percent then plain_escapes escape true p'
      else if c =? underscore then plain_escapes escape run p'
      else plain_escapes escape false p'
  end.

Section like.
Context (escape : Z) (not_percent : escape <> percent) (not_underscore : escape <> underscore).

Lemma like_lenient run s p : like escape false run s p -> forall run', like escape true run' s p.
Proof. induction 1; intros run'; constructor; auto. Qed.

Lemma like_nil_r lenient run s : like escape lenient run s [] <-> s = [].
Proof. split; [by inversion 1|intros ->; constructor]. Qed.

Lemma special_spec c : special escape c = false <-> c <> percent /\ c <> underscore /\ c <> escape.
Proof. unfold special. rewrite !orb_false_iff, !Z.eqb_neq. tauto. Qed.

(** One rule for each head of a pattern. *)
Lemma like_percent_iff lenient run s p :
  like escape lenient run s (percent :: p) <->
  (lenient = true \/ run = true \/ s <> []) /\ exists s1 s2, s = s1 ++ s2 /\ like escape lenient true s2 p.
Proof.
  split.
  - inversion 1; subst; try done; eauto.
  - intros (H & s1 & s2 & -> & L). by constructor.
Qed.
Lemma like_underscore_iff lenient run s p :
  like escape lenient run s (underscore :: p) <-> exists x s', s = x :: s' /\ like escape lenient run s' p.
Proof.
  split.
  - inversion 1; subst; try done; eauto.
  - intros (x & s' & -> & L). by constructor.
Qed.
Lemma like_escaped_iff lenient run s x p :
  like escape lenient run s (escape :: x :: p) <-> exists s', s = x :: s' /\ like escape lenient false s' p.
Proof.
  split.
  - inversion 1; subst; try done; eauto.
    match goal with H : special _ _ = false |- _ => by apply special_spec in H as (_ & _ & []) end.
  - intros (s' & -> & L). by constructor.
Qed.
Lemma like_escape_end lenient run s : ~ like escape lenient run s [escape].
Proof.
  inversion 1; subst; try done.
  match goal with H : special _ _ = false |- _ => by apply special_spec in H as (_ & _ & []) end.
Qed.
Lemma like_char_iff lenient run s x p : special escape x = false ->
  like escape lenient run s (x :: p) <-> exists s', s = x :: s' /\ like escape lenient false s' p.
Proof.
  intros Hx. split.
  - apply special_spec in Hx as (? & ? & ?). inversion 1; subst; try done; eauto.
  - intros (s' & -> & L). by constructor.
Qed.

Lemma skip_wildcards_spec p s : 
  (exists s1 s2, s = s1 ++ s2 /\ like escape false true s2 p) <->
  match skip_wildcards p s with
  | None => False
  | Some (p1, s1) => exists a b, s1 = a ++ b /\ like escape false true b p1
  end.
Proof.
  revert s. induction p as [|c p IH]; intros s; [done|]. cbn [skip_wildcards].
  destruct (Z.eqb_spec c percent) as [->|Np]; [|destruct (Z.eqb_spec c underscore) as [->|Nu]; [|done]].
  - rewrite <- IH. split.
    + intros (s1 & s2 & -> & L). apply like_percent_iff in L as (_ & s3 & s4 & -> & L); try done.
      exists (s1 ++ s3), s4. by rewrite app_assoc.
    + intros (s1 & s2 & -> & L). exists s1, s2. split; [done|]. apply like_percent_iff; try done.
      split; [auto|]. by exists [], s2.
  - destruct s as [|x s].
    + split; [|done]. intros (s1 & s2 & E & L). symmetry in E. apply app_nil in E as [-> ->].
      apply like_underscore_iff in L as (? & ? & ? & _); done.
    + rewrite <- IH. split.
      * intros (s1 & s2 & E & L). apply like_underscore_iff in L as (y & s3 & -> & L); try done.
        destruct s1 as [|z s1]; simpl in E; injection E as -> ->; [by exists [], s3|].
        exists (s1 ++ [y]), s3. by rewrite <- app_assoc.
      * intros (s1 & s2 & -> & L). destruct s1 as [|z s1] using rev_ind.
        -- exists [], (x :: s2). split; [done|]. apply like_underscore_iff; eauto.
        -- exists (x :: s1), (z :: s2). split; [simpl; by rewrite <- app_assoc|]. apply like_underscore_iff; eauto.
Qed.

Lemma skip_wildcards_rest p : forall s p1 s1, skip_wildcards p s = Some (p1, s1) -> plain_escapes escape true p = true ->
  plain_escapes escape true p1 = true /\ (length p1 <= length p)%nat /\
  match p1 with [] => True | c :: _ => c <> percent /\ c <> underscore end.
Proof.
  induction p as [|c p IH]; intros s p1 s1; cbn [skip_wildcards plain_escapes].
  - intros [= <- <-] _. auto.
  - intros E P. destruct (Z.eqb_spec c escape) as [->|Ne].
    + rewrite (proj2 (Z.eqb_neq escape percent)), (proj2 (Z.eqb_neq escape underscore)) in E by done.
      injection E as <- <-. split_and!; try done. cbn [plain_escapes]. by rewrite Z.eqb_refl.
    + destruct (Z.eqb_spec c percent) as [->|Np].
      * destruct (IH _ _ _ E P) as (? & ? & ?). split_and!; try done. simpl. lia.
      * destruct (Z.eqb_spec c underscore) as [->|Nu].
        -- destruct s as [|x s]; [done|]. destruct (IH _ _ _ E P) as (? & ? & ?). split_and!; try done. simpl. lia.
        -- injection E as <- <-. split_and!; try done. cbn [plain_escapes].
           rewrite !(proj2 (Z.eqb_neq _ _)) by done. done.
Qed.

Lemma any_rest_spec f (P : list Z -> Prop) s :
  (forall s', exists b, f s' = Some b /\ (b = true <-> P s')) ->
  exists b, any_rest f s = Some b /\ (b = true <-> exists s1 s2, s = s1 ++ s2 /\ s2 <> [] /\ P s2).
Proof.
  intros F. induction s as [|x s IH]; simpl.
  - exists false. split; [done|]. split; [done|]. intros (s1 & s2 & E & N & _). symmetry in E. by apply app_nil in E as [_ ->].
  - destruct (F (x :: s)) as (b & -> & Hb). simpl. destruct b.
    + exists true. split; [done|]. split; [|done]. intros _. exists [], (x :: s). split_and!; try done. by apply Hb.
    + destruct IH as (b' & -> & Hb'). exists b'. split; [done|]. rewrite Hb'. split.
      * intros (s1 & s2 & -> & N & HP). by exists (x :: s1), s2.
      * intros (s1 & s2 & E & N & HP). destruct s1 as [|y s1]; simpl in E.
        -- subst s2. apply Hb in HP. done.
        -- injection E as -> ->. by exists s1, s2.
Qed.

Lemma LikeImpl_spec fuel : forall s p, (length p < fuel)%nat -> plain_escapes escape false p = true ->
  exists b, LikeImpl fuel escape s p = Some b /\ (b = true <-> like escape false false s p).
Proof.
  induction fuel as [|fuel IH]; intros s p Hf P; [lia|].
  destruct p as [|c p]; [|destruct s as [|x s]].
  - destruct s; eexists; (split; [reflexivity|]); rewrite like_nil_r; done.
  - eexists. split; [reflexivity|]. split; [done|]. inversion 1; subst.
    naive_solver.
  - cbn [LikeImpl]. cbn [plain_escapes] in P. simpl in Hf.
    destruct (Z.eqb_spec c escape) as [->|Ne].
    { destruct p as [|c' p]; [eexists; split; [reflexivity|]; split; [done|intros L; by apply like_escape_end in L]|].
      bprop. destruct (Z.eqb_spec c' x) as [->|N].
      - destruct (IH s p) as (b & -> & Hb); [simpl in Hf; lia|done|]. exists b. split; [done|]. rewrite Hb, like_escaped_iff by done.
        split; [eauto|]. intros (s' & [= ->] & L). done.
      - exists false. split; [done|]. split; [done|]. rewrite like_escaped_iff by done. by intros (s' & [= -> ->] & _). }
    destruct (Z.eqb_spec c percent) as [->|Np].
    { pose proof (skip_wildcards_spec p (x :: s)) as S.
      assert (E : like escape false false (x :: s) (percent :: p) <->
                  exists s1 s2, x :: s = s1 ++ s2 /\ like escape false true s2 p).
      { rewrite like_percent_iff by done. split; [by intros [_ H]|]. intros H. split; [auto|done]. }
      rewrite <- E in S. clear E.
      destruct (skip_wildcards p (x :: s)) as [[p1 s1]|] eqn:K; [|exists false; split; [done|]; rewrite S; done].
      destruct (skip_wildcards_rest _ _ _ _ K P) as (P1 & L1 & H1).
      destruct p1 as [|c' p1].
      { exists true. split; [done|]. split; [|done]. intros _. apply S. exists s1, []. rewrite app_nil_r. split; [done|constructor]. }
      cbn [plain_escapes] in P1. destruct (Z.eqb_spec c' escape) as [->|Ne'].
      - destruct p1 as [|c'' p1].
        + exists false. split; [done|]. rewrite S. split; [done|]. intros (a & b & _ & L). by apply like_escape_end in L.
        + apply andb_true_iff in P1 as [Hs P1]. apply negb_true_iff in Hs.
          destruct (any_rest_spec (fun s => LikeImpl fuel escape s (c'' :: p1)) (fun s => like escape false false s (c'' :: p1)) s1)
            as (b & -> & Hb).
          { intros s'. apply IH; [simpl in *; lia|]. cbn [plain_escapes]. apply special_spec in Hs as (? & ? & ?).
            rewrite !(proj2 (Z.eqb_neq _ _)) by done. done. }
          exists b. split; [done|]. rewrite Hb, S. split.
          * intros (a & d & -> & _ & L). exists a, d. split; [done|]. rewrite like_char_iff in L by done. by rewrite like_escaped_iff.
          * intros (a & d & -> & L). exists a, d. rewrite like_escaped_iff in L by done. destruct L as (s' & -> & L).
            split_and!; try done. rewrite like_char_iff by done. eauto.
      - destruct H1 as [H1 H2]. rewrite (proj2 (Z.eqb_neq c' percent)), (proj2 (Z.eqb_neq c' underscore)) in P1 by done.
        assert (Hs : special escape c' = false) by (by apply special_spec).
        destruct (any_rest_spec (fun s => LikeImpl fuel escape s (c' :: p1)) (fun s => like escape false false s (c' :: p1)) s1)
          as (b & -> & Hb).
        { intros s'. apply IH; [simpl in *; lia|]. cbn [plain_escapes]. rewrite !(proj2 (Z.eqb_neq _ _)) by done. done. }
        exists b. split; [done|]. rewrite Hb, S. split; intros (a & d & -> & L); exists a, d.
        + destruct L as [_ L]. split; [done|]. rewrite like_char_iff in * by done. done.
        + rewrite like_char_iff in L by done. split_and!; [done|by destruct L as (? & -> & _)|]. by rewrite like_char_iff. }
    destruct (Z.eqb_spec c underscore) as [->|Nu].
    { destruct (IH s p) as (b & -> & Hb); [lia|done|]. exists b. split; [done|]. rewrite Hb, like_underscore_iff by done.
      split; [eauto|]. by intros (y & s' & [= -> ->] & L). }
    assert (Hs : special escape c = false) by (by apply special_spec).
    destruct (Z.eqb_spec c x) as [->|N].
    + destruct (IH s p) as (b & -> & Hb); [lia|done|]. exists b. split; [done|]. rewrite Hb, like_char_iff by done.
      split; [eauto|]. by intros (s' & [= ->] & L).
    + exists false. split; [done|]. split; [done|]. rewrite like_char_iff by done. by intros (s' & [= -> ->] & _).
Qed.
End like.

(** The two readings of a pattern differ only if it ends in a percent. *)
Lemma like_nil_percents escape lenient run p : escape <> percent -> like escape lenient run [] p -> p <> [] -> last p = Some percent.
Proof.
  intros Hp L. remember [] as s eqn:E. induction L as [|run s1 s2 p H L IH| | |]; try done.
  intros _. apply app_nil in E as [-> ->]. destruct p as [|c p]; [done|]. rewrite last_cons, IH by done. done.
Qed.

Lemma last_rest {A} (x c : A) p : last (c :: p) <> Some x -> last p <> Some x.
Proof. by destruct p. Qed.

Lemma like_strict escape run s p : escape <> percent -> like escape true run s p -> last p <> Some percent -> like escape false run s p.
Proof.
  intros Hp. induction 1 as [|run s1 s2 p H L IH|run x s p L IH|run x s p L IH|run x s p Hx L IH]; intros N.
  - constructor.
  - apply last_rest in N as N'.
    constructor; [|auto]. right. right. intros E. apply app_nil in E as [-> ->].
    destruct p as [|c p]; [done|]. by apply N', (like_nil_percents escape true true).
  - constructor. apply IH. by apply last_rest in N.
  - constructor. apply IH. by do 2 apply last_rest in N.
  - constructor; [done|]. apply IH. by apply last_rest in N.
Qed.

Lemma plain_literal escape s : escape <> percent -> Forall (fun c => special escape c = false) s ->
  plain_escapes escape false (s ++ [percent]) = true.
Proof.
  intros Hp. induction 1 as [|c s Hc _ IH]; cbn [app plain_escapes].
  - by rewrite (proj2 (Z.eqb_neq percent escape)) by done.
  - apply special_spec in Hc as (? & ? & ?). by rewrite !(proj2 (Z.eqb_neq _ _)) by done.
Qed.

Lemma not_like_itself escape s : escape <> percent -> escape <> underscore -> Forall (fun c => special escape c = false) s ->
  ~ like escape false false s (s ++ [percent]).
Proof.
  intros Hp Hu. induction 1 as [|c s Hc _ IH]; cbn [app].
  - rewrite like_percent_iff by done. naive_solver.
  - rewrite like_char_iff by done. by intros (s' & [= <-] & L).
Qed.

(** * Lemmas about the other functions *)

Lemma make_spec mem n : 0 <= n <= Z.of_nat (length mem) -> n < 2 ^ 32 -> make mem n = Some (Text_of (take (Z.to_nat n) mem)).
Proof.
  intros H L. unfold make. rewrite wrapu_small by (unfold is_uint; lia). by rewrite (proj2 (Z.leb_le _ _)) by lia.
Qed.
Lemma make_short mem n : Z.of_nat (length mem) < n < 2 ^ 32 -> make mem n = None.
Proof. intros H. unfold make. rewrite wrapu_small by (unfold is_uint; lia). by rewrite (proj2 (Z.leb_gt _ _)) by lia. Qed.
Lemma at_spec s n : 0 <= n <= Z.of_nat (length s) -> at_ s n = Some (drop (Z.to_nat n) s).
Proof. intros H. unfold at_. by rewrite !(proj2 (Z.leb_le _ _)) by lia. Qed.
Lemma at_beyond s n : Z.of_nat (length s) < n -> at_ s n = None.
Proof. intros H. unfold at_. rewrite (proj2 (Z.leb_gt n _)) by lia. by rewrite andb_false_r. Qed.

(** The first [n] bytes of a pad that is repeated without end. *)
Definition cycle (n : nat) (pad : list Z) : list Z := take n (concat (replicate n pad)).

Lemma concat_replicate_length n (pad : list Z) : length (concat (replicate n pad)) = (n * length pad)%nat.
Proof. induction n; simpl; [done|]. rewrite length_app. lia. Qed.

Lemma cycle_length n pad : pad <> [] -> length (cycle n pad) = n.
Proof.
  intros H. unfold cycle. rewrite length_take, concat_replicate_length. destruct pad as [|x pad]; [done|]. simpl. nia.
Qed.

Lemma take_replicate_le (a b n : nat) (pad : list Z) : pad <> [] -> (n <= a)%nat -> (a <= b)%nat ->
  take n (concat (replicate a pad)) = take n (concat (replicate b pad)).
Proof.
  intros H Hn Hab. replace b with (a + (b - a))%nat by lia. rewrite replicate_add, concat_app.
  rewrite take_app_le; [done|]. rewrite concat_replicate_length. destruct pad; [done|]. simpl. nia.
Qed.

Lemma pad_loop_spec fuel : forall pad (left : nat), pad <> [] -> (left <= fuel)%nat ->
  pad_loop fuel pad (Z.of_nat left) = Some (cycle left pad).
Proof.
  induction fuel as [|fuel IH]; intros pad left Hp Hl.
  { replace left with O by lia. reflexivity. }
  cbn [pad_loop]. rewrite Z.gtb_ltb. destruct left as [|l]; [reflexivity|].
  rewrite (proj2 (Z.ltb_lt _ _)) by lia.
  assert (0 < length pad)%nat by (destruct pad; [done|simpl; lia]).
  set (c := min (length pad) (S l)). replace (Z.min (Z.of_nat (length pad)) (Z.of_nat (S l))) with (Z.of_nat c) by lia.
  replace (Z.of_nat (S l) - Z.of_nat c) with (Z.of_nat (S l - c)) by lia. rewrite IH by (done || lia). simpl. f_equal.
  rewrite Nat2Z.id. unfold cycle. cbn [replicate concat].
  destruct (decide (S l <= length pad)%nat).
  - replace c with (S l) by lia. rewrite Nat.sub_diag. simpl. rewrite app_nil_r, take_app_le by lia. done.
  - replace c with (length pad) by lia. rewrite firstn_all, take_app_ge by lia. f_equal.
    apply take_replicate_le; [done|lia..].
Qed.

Lemma pad_loop_empty fuel left : 0 < left -> pad_loop fuel [] left = None.
Proof.
  revert left. induction fuel as [|fuel IH]; intros left H; cbn [pad_loop]; rewrite Z.gtb_ltb, (proj2 (Z.ltb_lt _ _)) by lia; [done|].
  simpl length. rewrite Z.min_l, Z.sub_0_r by lia. by rewrite IH.
Qed.

(** The longest rest that does not begin with one of some characters. *)
Fixpoint drop_while (f : Z -> bool) (s : list Z) : list Z :=
  match s with [] => [] | c :: s' => if f c then drop_while f s' else s end.

Lemma drop_while_suffix f s : exists n, drop_while f s = drop n s /\ (n <= length s)%nat /\
  Forall (fun c => f c = true) (take n s) /\ (forall c, s !! n = Some c -> f c = false).
Proof.
  induction s as [|c s (n & E & L & A & B)]; simpl; [exists O; repeat split; done|].
  destruct (f c) eqn:F.
  - exists (S n). simpl. split_and!; [done|lia|by constructor|done].
  - exists O. split_and!; [done|lia|done|]. by intros ? [= <-].
Qed.

Definition ascii (s : list Z) : Prop := Forall (fun c => 0 <= c < 128) s.

Lemma bit_position_ascii c : 0 <= c < 128 -> bit_position c = Some c.
Proof.
  intros H. unfold bit_position, schar. rewrite wraps_small, wrapu_small by (try unfold is_sint; try unfold is_uint; lia).
  by rewrite (proj2 (Z.ltb_lt c 256)) by lia.
Qed.
Lemma bit_positions_ascii s : ascii s -> mapM bit_position s = Some s.
Proof. induction 1 as [|c s Hc _ IH]; [done|]. cbn [mapM]. rewrite bit_position_ascii by done. simpl. by rewrite IH. Qed.

Section trim.
Context (s chars : list Z) (Hs : ascii s) (Hlen : Z.of_nat (length s) < 2 ^ 31).
Let f (c : Z) : bool := bool_decide (c ∈ chars).

Lemma trim_begin_spec fuel : forall k, (length s - k < fuel)%nat -> (k <= length s)%nat ->
  trim_begin fuel s chars (Z.of_nat k) = Returns (Z.of_nat (length s - length (drop_while f (drop k s)))).
Proof.
  induction fuel as [|fuel IH]; intros k Hf Hk; [lia|]. cbn [trim_begin].
  rewrite wraps_small by (try unfold is_sint; lia). destruct (decide (k < length s)%nat) as [L|].
  - rewrite (proj2 (Z.ltb_lt _ _)) by lia. rewrite Nat2Z.id.
    destruct (lookup_lt_is_Some_2 s k L) as [c E]. rewrite E.
    assert (Hc : 0 <= c < 128) by (eapply Forall_lookup_1 in Hs; eauto).
    rewrite bit_position_ascii by done. rewrite (drop_S s c k E). cbn [drop_while]. unfold f at 1.
    case_bool_decide.
    + replace (Z.of_nat k + 1) with (Z.of_nat (S k)) by lia. apply IH; lia.
    + f_equal. simpl. rewrite length_drop. lia.
  - rewrite (proj2 (Z.ltb_ge _ _)) by lia. rewrite drop_ge by lia. simpl. f_equal. lia.
Qed.

Lemma trim_end_spec fuel : forall b k, (k - b < fuel)%nat -> (b <= k <= length s)%nat ->
  trim_end fuel s chars (Z.of_nat b) (Z.of_nat k - 1) =
    Returns (Z.of_nat (b + length (drop_while f (rev (drop b (take k s))))) - 1).
Proof.
  induction fuel as [|fuel IH]; intros b k Hf Hk; [lia|]. cbn [trim_end].
  destruct (decide (b < k)%nat) as [L|].
  - rewrite (proj2 (Z.leb_le _ _)) by lia. destruct k as [|k]; [lia|].
    replace (Z.to_nat (Z.of_nat (S k) - 1)) with k by lia.
    destruct (lookup_lt_is_Some_2 s k) as [c E]; [lia|]. rewrite E.
    assert (Hc : 0 <= c < 128) by (eapply Forall_lookup_1 in Hs; eauto).
    rewrite bit_position_ascii by done. rewrite (take_S_r s k c E), drop_app_le by (rewrite length_take; lia).
    rewrite rev_unit. cbn [drop_while]. unfold f at 1. case_bool_decide.
    + replace (Z.of_nat (S k) - 1 - 1) with (Z.of_nat k - 1) by lia. apply IH; lia.
    + f_equal. simpl. rewrite length_rev, length_drop, length_take. lia.
  - rewrite (proj2 (Z.leb_gt _ _)) by lia. rewrite drop_ge by (rewrite length_take; lia). simpl. f_equal. lia.
Qed.
End trim.

(** The longest beginning that does not end in one of some characters. *)
Definition drop_while_end (f : Z -> bool) (s : list Z) : list Z := rev (drop_while f (rev s)).

Lemma drop_while_end_take f s : drop_while_end f s = take (length (drop_while f (rev s))) s.
Proof.
  unfold drop_while_end. destruct (drop_while_suffix f (rev s)) as (n & -> & L & _). rewrite length_rev in L.
  rewrite skipn_rev, rev_involutive, length_rev, length_take. f_equal. lia.
Qed.

(** * Theorems *)

(** C11: LIKE terminates, and what it accepts is in the language of the pattern, if no wildcard is escaped right
    behind a percent; what is in the language it accepts if the pattern does not end in a percent.  The two
    restrictions are needed: no string that has no special character is like itself followed by a percent,
    and ['abc'] is like the pattern [%\%], which asks for a percent at the end. *)
Theorem like_decides (s p : list Z) :
  plain_escapes kDefaultEscape false p = true ->
  (exists b, Like_op s p kDefaultEscape = Some b /\
    (b = true <-> like kDefaultEscape false false s p) /\
    (b = true -> like kDefaultEscape true false s p) /\
    (like kDefaultEscape true false s p -> last p <> Some percent -> b = true)) /\
  (Forall (fun c => special kDefaultEscape c = false) s -> Like_op s (s ++ [percent]) kDefaultEscape = Some false) /\
  (Like_op (bytes "abc") [percent; kDefaultEscape; percent] kDefaultEscape = Some true /\
   ~ like kDefaultEscape true false (bytes "abc") [percent; kDefaultEscape; percent]).
Proof.
  assert (Np : kDefaultEscape <> percent) by done. assert (Nu : kDefaultEscape <> underscore) by done.
  intros P. split_and!.
  - destruct (LikeImpl_spec kDefaultEscape Np Nu (S (length p)) s p ltac:(lia) P) as (b & E & Hb).
    exists b. split_and!; [done|exact Hb|intros H; eapply like_lenient, Hb, H|].
    intros L N. apply Hb. by apply like_strict.
  - intros F. destruct (LikeImpl_spec kDefaultEscape Np Nu (S (length (s ++ [percent]))) s (s ++ [percent])) as (b & E & Hb).
    { lia. }
    { by apply plain_literal. }
    unfold Like_op. rewrite E. destruct b; [|done]. exfalso. by eapply not_like_itself, Hb.
  - reflexivity.
  - rewrite like_percent_iff by done. intros (_ & s1 & s2 & E & L). rewrite like_escaped_iff in L by done.
    destruct L as (s' & -> & _). assert (I : percent ∈ bytes "abc") by (rewrite E; set_solver).
    vm_compute in I. set_solver.
Qed.

Lemma like_decides_witness :
  Like_op (bytes "vectorwise") (bytes "v%t_rw%e") kDefaultEscape = Some true /\
  like kDefaultEscape true false (bytes "vectorwise") (bytes "v%t_rw%e").
Proof.
  destruct (like_decides (bytes "vectorwise") (bytes "v%t_rw%e") eq_refl) as ((b & E & _ & L & _) & _).
  assert (b = true) as -> by (vm_compute in E; congruence). split; [exact E|exact (L eq_refl)].
Defined.

(** Padding to a length keeps a longer string's beginning, and fills a shorter one with the pad, repeated and
    cut off as needed, on its side; the loop that does so ends.  With an empty pad there is nothing to fill
    with and the loop does not end, whatever number of steps it is given. *)
Theorem padding_fills (str pad : list Z) (n : Z) :
  Z.of_nat (length str) < 2 ^ 32 -> 0 <= n < 2 ^ 32 ->
  let missing := Z.to_nat (n - Z.of_nat (length str)) in
  (n <= Z.of_nat (length str) ->
    Lpad (Text_of str) (Integer_of n) (Text_of pad) = Some (Text_of (take (Z.to_nat n) str)) /\
    Rpad (Text_of str) (Integer_of n) (Text_of pad) = Some (Text_of (take (Z.to_nat n) str))) /\
  (Z.of_nat (length str) < n -> pad <> [] ->
    Lpad (Text_of str) (Integer_of n) (Text_of pad) = Some (Text_of (cycle missing pad ++ str)) /\
    Rpad (Text_of str) (Integer_of n) (Text_of pad) = Some (Text_of (str ++ cycle missing pad)) /\
    length (cycle missing pad) = missing) /\
  (Z.of_nat (length str) < n -> pad = [] -> forall fuel, pad_loop fuel pad (n - Z.of_nat (length str)) = None).
Proof.
  intros Hs Hn missing. unfold Lpad, Rpad, pad_with, len. cbn [is_null val Text_of Integer_of orb].
  rewrite (proj2 (Z.ltb_ge n 0)) by lia. split_and!.
  - intros L. destruct (Z.eqb_spec n (Z.of_nat (length str))) as [->|N]; [by rewrite Nat2Z.id, firstn_all|].
    rewrite (proj2 (Z.ltb_lt _ _)) by lia. by rewrite make_spec by lia.
  - intros L Hp. pose proof (cycle_length missing pad Hp) as C.
    rewrite (proj2 (Z.eqb_neq _ _)), (proj2 (Z.ltb_ge n (Z.of_nat (length str)))) by lia.
    fold missing. replace (n - Z.of_nat (length str)) with (Z.of_nat missing) by lia.
    rewrite pad_loop_spec by (done || lia). cbn [mbind option_bind].
    rewrite !make_spec by (rewrite ?length_app; lia). split_and!; [| |done]; do 2 f_equal; apply firstn_all2; rewrite length_app; lia.
  - intros L -> fuel. apply pad_loop_empty. lia.
Qed.

Lemma padding_fills_witness :
  Lpad (Text_of (bytes "42")) (Integer_of 7) (Text_of (bytes "xy")) = Some (Text_of (bytes "xyxyx42")) /\
  forall fuel, pad_loop fuel [] 5 = None.
Proof.
  split.
  - destruct (padding_fills (bytes "42") (bytes "xy") 7) as (_ & H & _); [done|done|].
    destruct H as (H & _); [done|done|]. exact H.
  - destruct (padding_fills (bytes "42") [] 7) as (_ & _ & H); [done|done|]. exact (H eq_refl eq_refl).
Defined.

(** Trimming takes away the longest beginning and the longest end that consist of the given characters, and
    nothing else, as long as the characters and the string are ASCII. *)
Theorem trimming (str chars : list Z) :
  ascii str -> ascii chars -> Z.of_nat (length str) < 2 ^ 31 ->
  let f c := bool_decide (c ∈ chars) in
  Ltrim (Text_of str) (Text_of chars) = Returns (Text_of (drop_while f str)) /\
  Rtrim (Text_of str) (Text_of chars) = Returns (Text_of (drop_while_end f str)) /\
  Trim (Text_of str) (Text_of chars) = Returns (Text_of (drop_while_end f (drop_while f str))).
Proof.
  intros Hs Hc L f. unfold Ltrim, Rtrim, Trim, DoTrim, len. cbn [is_null val Text_of orb].
  destruct (Z.eqb_spec (Z.of_nat (length str)) 0) as [E|N].
  { destruct str; [|simpl in E; lia]. done. }
  rewrite bit_positions_ascii by done. rewrite (wraps_small 32) by (try unfold is_sint; lia).
  pose proof (trim_begin_spec str chars Hs L (S (length str)) 0 ltac:(lia) ltac:(lia)) as B. rewrite drop_0 in B. change (Z.of_nat 0) with 0 in B.
  fold f in B. destruct (drop_while_suffix f str) as (n & E & Ln & _).
  assert (En : Z.of_nat (length str - length (drop_while f str)) = Z.of_nat n) by (rewrite E, length_drop; lia).
  rewrite En in B.
  assert (T : forall b, (b <= length str)%nat ->
    bind (trim_end (S (length str)) str chars (Z.of_nat b) (Z.of_nat (length str) - 1))
      (fun end_ => of_option (p ← at_ str (Z.of_nat b); make p (end_ - Z.of_nat b + 1))) =
    Returns (Text_of (drop_while_end f (drop b str)))).
  { intros b Hb. rewrite trim_end_spec by (done || lia). fold f. rewrite firstn_all. cbn [bind]. rewrite at_spec, Nat2Z.id by lia. cbn [mbind option_bind].
    pose proof (drop_while_suffix f (rev (drop b str))) as (m & Em & Lm & _). rewrite length_rev, length_drop in Lm.
    rewrite make_spec.
    - simpl. do 2 f_equal. rewrite drop_while_end_take. f_equal. lia.
    - rewrite Em, !length_drop, length_rev, length_drop. lia.
    - rewrite Em, length_drop, length_rev, length_drop. lia. }
  split_and!.
  - rewrite B. cbn [bind]. rewrite at_spec, Nat2Z.id by lia. simpl. rewrite make_spec by (rewrite ?length_drop; lia). simpl.
    do 2 f_equal. rewrite E. apply firstn_all2. rewrite length_drop. lia.
  - apply (T 0%nat). lia.
  - rewrite B. cbn [bind]. rewrite E. by apply T.
Qed.

Lemma trimming_witness : Trim (Text_of (bytes "--a-b--")) (Text_of (bytes "-")) = Returns (Text_of (bytes "a-b")).
Proof.
  destruct (trimming (bytes "--a-b--") (bytes "-")) as (_ & _ & H); [|  |done|exact H];
    repeat constructor; vm_compute; congruence.
Defined.

(** C37: A substring from a position inside the string with a length that stays inside is the one asked for, and a
    negative length gives NULL; a length that passes the end is cut to the length of the whole string and not
    to what is left of it, so that the result refers to bytes behind the string: so does every substring
    without a length that does not start at the first character.  The left and right parts of a string are
    the ones asked for, but that the right part of length zero is the whole string. *)
Theorem parts_of_strings (str : list Z) (pos n : Z) :
  0 < Z.of_nat (length str) < 2 ^ 31 -> 1 <= pos < 2 ^ 62 -> is_sint 64 n -> - 2 ^ 63 < n ->
  let l := Z.of_nat (length str) in
  Substring (Text_of str) (Integer_of pos) (Integer_of n) =
    (if n <? 0 then Some Text_Null
     else if pos - 1 + Z.min n l <=? l then Some (Text_of (take (Z.to_nat n) (drop (Z.to_nat (pos - 1)) str))) else None) /\
  Substring_from (Text_of str) (Integer_of pos) = (if pos =? 1 then Some (Text_of str) else None) /\
  Left (Text_of str) (Integer_of n) = Some (Text_of (take (Z.to_nat (if n <? 0 then l + n else n)) str)) /\
  Right (Text_of str) (Integer_of n) =
    Some (Text_of (drop (Z.to_nat (if n >? 0 then l - n else - n)) str)).
Proof.
  intros Hl Hp Hn Hn' l. pose proof Hn as [Hn1 Hn2].
  assert (SUB : forall n, is_sint 64 n -> Substring (Text_of str) (Integer_of pos) (Integer_of n) =
    (if n <? 0 then Some Text_Null
     else if pos - 1 + Z.min n l <=? l then Some (Text_of (take (Z.to_nat n) (drop (Z.to_nat (pos - 1)) str))) else None)).
  { intros m [Hm1 Hm2]. unfold Substring, len. cbn [is_null val Text_of Integer_of orb]. fold l.
    rewrite int64_op_value, bool_decide_true by (unfold is_sint; lia). cbn [mbind option_bind].
    destruct (Z.ltb_spec m 0); [rewrite (proj2 (Z.ltb_lt _ pos)) by lia; done|].
    rewrite (proj2 (Z.ltb_ge _ pos)), (proj2 (Z.ltb_ge _ 1)) by lia. rewrite Z.max_l by lia.
    destruct (Z.leb_spec (pos - 1 + Z.min m l) l).
    - rewrite at_spec by lia. cbn [mbind option_bind]. rewrite make_spec by (rewrite ?length_drop; lia). do 2 f_equal.
      destruct (Z.le_gt_cases m l); [f_equal; lia|]. rewrite !take_ge by (rewrite length_drop; lia). done.
    - destruct (Z.le_gt_cases (pos - 1) l); [|by rewrite at_beyond by lia].
      rewrite at_spec by lia. cbn [mbind option_bind]. apply make_short. rewrite length_drop. lia. }
  split_and!.
  - by apply SUB.
  - unfold Substring_from. rewrite SUB by (split; lia). rewrite (proj2 (Z.ltb_ge _ 0)) by lia.
    rewrite Z.min_r by lia. destruct (Z.eqb_spec pos 1) as [->|N].
    + rewrite (proj2 (Z.leb_le _ _)) by lia. change (Z.to_nat (1 - 1)) with O. rewrite drop_0, take_ge by lia. done.
    + by rewrite (proj2 (Z.leb_gt _ _)) by lia.
  - unfold Left, len. cbn [is_null val Text_of Integer_of orb]. fold l. destruct (Z.ltb_spec n 0).
    + rewrite make_spec by lia. do 2 f_equal. f_equal. lia.
    + rewrite make_spec by lia. do 2 f_equal. destruct (Z.le_gt_cases n l); [f_equal; lia|]. rewrite !take_ge by lia. done.
  - unfold Right, len, num_abs, int64_number. cbn [is_null val Text_of Integer_of orb]. fold l.
    rewrite int64_op_value, bool_decide_true by (unfold is_sint; lia). cbn [mbind option_bind]. rewrite Z.gtb_ltb.
    destruct (Z.ltb_spec 0 n).
    + rewrite at_spec by lia. cbn [mbind option_bind]. rewrite make_spec by (rewrite ?length_drop; lia). do 2 f_equal.
      rewrite firstn_all2 by (rewrite length_drop; lia). f_equal. lia.
    + rewrite at_spec by lia. cbn [mbind option_bind]. rewrite make_spec by (rewrite ?length_drop; lia). do 2 f_equal.
      rewrite firstn_all2 by (rewrite length_drop; lia). destruct (Z.le_gt_cases (- n) l); [f_equal; lia|].
      rewrite !drop_ge by lia. done.
Qed.

Lemma parts_of_strings_witness :
  Substring (Text_of (bytes "substring")) (Integer_of 4) (Integer_of 6) = Some (Text_of (bytes "string")) /\
  Substring (Text_of (bytes "substring")) (Integer_of 4) (Integer_of 7) = None /\
  Right (Text_of (bytes "substring")) (Integer_of 0) = Some (Text_of (bytes "substring")).
Proof.
  split_and!.
  - exact (proj1 (parts_of_strings (bytes "substring") 4 6 ltac:(done) ltac:(done) ltac:(done) ltac:(done))).
  - exact (proj1 (parts_of_strings (bytes "substring") 4 7 ltac:(done) ltac:(done) ltac:(done) ltac:(done))).
  - exact (proj2 (proj2 (proj2 (parts_of_strings (bytes "substring") 4 0 ltac:(done) ltac:(done) ltac:(done) ltac:(done))))).
Defined.
