(* ===== verification/Aggregators.v ===== *)
(** The aggregates of SQL, [src/include/sql/aggregators.h], with the operations of the virtual machine on
    them, [src/include/vm/bytecode_handlers.h]. *)
From Stdlib Require Import SpecFloat.
From S2P Require Import Prelude Buffer CTypes SqlValues SqlFunctions.

Local Open Scope list_scope.
Local Open Scope Z_scope.

(** * COUNT: a 64-bit unsigned number *)

Definition count_init : Z := 0.
Definition count_advance {A} (SkipNulls : bool) (count_ : Z) (v : Val A) : Z :=
  wrapu 64 (count_ + (if SkipNulls then bit (negb (is_null v)) else 1)).
Definition count_merge (count_ that : Z) : Z := wrapu 64 (count_ + that).
Definition count_reset (count_ : Z) : Z := 0.
(** The count becomes an [int64_t]. *)
Definition GetCountResult (count_ : Z) : Integer := Integer_of (wraps 64 count_).

(** * SUM *)

Section sum.
Context {A : Type} `{Number A} (zero : A).
Definition sum_init : Val A := mkVal true zero.
Definition sum_advance (sum_ v : Val A) : option (Val A) :=
  if is_null v then Some sum_ else s ← num_add (val sum_) (val v); Some (mkVal false s).
Definition sum_merge (sum_ that : Val A) : option (Val A) :=
  if is_null that then Some sum_ else s ← num_add (val sum_) (val that); Some (mkVal false s).
Definition sum_reset (sum_ : Val A) : Val A := mkVal true zero.
Definition GetResultSum (sum_ : Val A) : Val A := sum_.
End sum.

(** * MAX and MIN *)

Section extremes.
Context {A : Type} `{Comparable A}.
(** [std::max(a, b)] is [b] if [a < b], [std::min(a, b)] if [b < a]. *)
Definition std_max (a b : A) : option A := l ← cmp_lt a b; Some (if l : bool then b else a).
Definition std_min (a b : A) : option A := l ← cmp_lt b a; Some (if l : bool then b else a).

(** [lowest] is [std::numeric_limits<T>::min()]. *)
Definition max_init (lowest : A) : Val A := mkVal true lowest.
Definition max_advance (max_ v : Val A) : option (Val A) :=
  if is_null v then Some max_ else m ← std_max (val v) (val max_); Some (mkVal false m).
Definition max_merge (max_ that : Val A) : option (Val A) :=
  if is_null that then Some max_ else m ← std_max (val that) (val max_); Some (mkVal false m).
Definition max_reset (lowest : A) (max_ : Val A) : Val A := mkVal true lowest.
Definition GetResultMax (max_ : Val A) : Val A := max_.

(** [highest] is [std::numeric_limits<T>::max()]. *)
Definition min_init (highest : A) : Val A := mkVal true highest.
Definition min_advance (min_ v : Val A) : option (Val A) :=
  if is_null v then Some min_ else m ← std_min (val v) (val min_); Some (mkVal false m).
Definition min_merge (min_ that : Val A) : option (Val A) :=
  if is_null that then Some min_ else m ← std_min (val that) (val min_); Some (mkVal false m).
Definition min_reset (highest : A) (min_ : Val A) : Val A := mkVal true highest.
Definition GetResultMin (min_ : Val A) : Val A := min_.
End extremes.

(** The limits.  [numeric_limits<double>::min()] is the smallest positive normal number; the template is not
    specialised for dates, timestamps and strings, for which both limits are [T()]. *)
Definition int64_min : Z := - 2 ^ 63.
Definition int64_max : Z := 2 ^ 63 - 1.
Definition double_min : double := S754_finite false 4503599627370496 (-1074).
Definition double_max : double := S754_finite false 9007199254740991 971.
Definition date_limit : Z := 0.
Definition timestamp_limit : Z := 0.
Definition string_limit : VarlenEntry := mkVarlenEntry 0 [0; 0; 0; 0] [].

(** * AVG *)

Record AvgAggregate := mkAvg { sum_ : double; count_ : Z }.
Definition avg_init : AvgAggregate := mkAvg (S754_zero false) 0.
(** An integer is converted to a [double]. *)
Definition avg_advance {A} (to_double : A -> double) (agg : AvgAggregate) (v : Val A) : AvgAggregate :=
  if is_null v then agg else mkAvg (dadd (sum_ agg) (to_double (val v))) (wrapu 64 (count_ agg + 1)).
Definition avg_merge (agg that : AvgAggregate) : AvgAggregate :=
  mkAvg (dadd (sum_ agg) (sum_ that)) (wrapu 64 (count_ agg + count_ that)).
Definition avg_reset (agg : AvgAggregate) : AvgAggregate := avg_init.
Definition GetResultAvg (agg : AvgAggregate) : Real :=
  if count_ agg =? 0 then Real_Null else Real_of (ddiv (sum_ agg) (double_of_Z (count_ agg))).

(** * Operations of the virtual machine *)

Definition OpCountAggregateInit := count_init.
Definition OpCountAggregateAdvance {A} (agg : Z) (v : Val A) : Z := count_advance true agg v.
Definition OpCountAggregateMerge := count_merge.
Definition OpCountAggregateReset := count_reset.
Definition OpCountAggregateGetResult := GetCountResult.
Definition OpCountStarAggregateInit := count_init.
Definition OpCountStarAggregateAdvance {A} (agg : Z) (v : Val A) : Z := count_advance false agg v.
Definition OpCountStarAggregateMerge := count_merge.
Definition OpCountStarAggregateReset := count_reset.
Definition OpCountStarAggregateGetResult := GetCountResult.

Definition OpIntegerSumAggregateInit : Integer := sum_init 0.
Definition OpIntegerSumAggregateAdvance : Integer -> Integer -> option Integer := sum_advance.
Definition OpIntegerSumAggregateMerge : Integer -> Integer -> option Integer := sum_merge.
Definition OpIntegerSumAggregateReset : Integer -> Integer := sum_reset 0.
Definition OpIntegerSumAggregateGetResult : Integer -> Integer := GetResultSum.
Definition OpRealSumAggregateInit : Real := sum_init (S754_zero false).
Definition OpRealSumAggregateAdvance : Real -> Real -> option Real := sum_advance.
Definition OpRealSumAggregateMerge : Real -> Real -> option Real := sum_merge.
Definition OpRealSumAggregateReset : Real -> Real := sum_reset (S754_zero false).
Definition OpRealSumAggregateGetResult : Real -> Real := GetResultSum.

Definition OpIntegerMaxAggregateInit : Integer := max_init int64_min.
Definition OpIntegerMaxAggregateAdvance : Integer -> Integer -> option Integer := max_advance.
Definition OpIntegerMaxAggregateMerge : Integer -> Integer -> option Integer := max_merge.
Definition OpIntegerMaxAggregateReset : Integer -> Integer := max_reset int64_min.
Definition OpIntegerMaxAggregateGetResult : Integer -> Integer := GetResultMax.
Definition OpRealMaxAggregateInit : Real := max_init double_min.
Definition OpRealMaxAggregateAdvance : Real -> Real -> option Real := max_advance.
Definition OpRealMaxAggregateMerge : Real -> Real -> option Real := max_merge.
Definition OpRealMaxAggregateReset : Real -> Real := max_reset double_min.
Definition OpRealMaxAggregateGetResult : Real -> Real := GetResultMax.
Definition OpDateMaxAggregateInit : DateVal := max_init date_limit.
Definition OpDateMaxAggregateAdvance : DateVal -> DateVal -> option DateVal := max_advance.
Definition OpDateMaxAggregateMerge : DateVal -> DateVal -> option DateVal := max_merge.
Definition OpDateMaxAggregateReset : DateVal -> DateVal := max_reset date_limit.
Definition OpDateMaxAggregateGetResult : DateVal -> DateVal := GetResultMax.
Definition OpStringMaxAggregateInit : StringVal := max_init string_limit.
Definition OpStringMaxAggregateAdvance : StringVal -> StringVal -> option StringVal := max_advance.
Definition OpStringMaxAggregateMerge : StringVal -> StringVal -> option StringVal := max_merge.
Definition OpStringMaxAggregateReset : StringVal -> StringVal := max_reset string_limit.
Definition OpStringMaxAggregateGetResult : StringVal -> StringVal := GetResultMax.

Definition OpIntegerMinAggregateInit : Integer := min_init int64_max.
Definition OpIntegerMinAggregateAdvance : Integer -> Integer -> option Integer := min_advance.
Definition OpIntegerMinAggregateMerge : Integer -> Integer -> option Integer := min_merge.
Definition OpIntegerMinAggregateReset : Integer -> Integer := min_reset int64_max.
Definition OpIntegerMinAggregateGetResult : Integer -> Integer := GetResultMin.
Definition OpRealMinAggregateInit : Real := min_init double_max.
Definition OpRealMinAggregateAdvance : Real -> Real -> option Real := min_advance.
Definition OpRealMinAggregateMerge : Real -> Real -> option Real := min_merge.
Definition OpRealMinAggregateReset : Real -> Real := min_reset double_max.
Definition OpRealMinAggregateGetResult : Real -> Real := GetResultMin.
Definition OpDateMinAggregateInit : DateVal := min_init date_limit.
Definition OpDateMinAggregateAdvance : DateVal -> DateVal -> option DateVal := min_advance.
Definition OpDateMinAggregateMerge : DateVal -> DateVal -> option DateVal := min_merge.
Definition OpDateMinAggregateReset : DateVal -> DateVal := min_reset date_limit.
Definition OpDateMinAggregateGetResult : DateVal -> DateVal := GetResultMin.
Definition OpStringMinAggregateInit : StringVal := min_init string_limit.
Definition OpStringMinAggregateAdvance : StringVal -> StringVal -> option StringVal := min_advance.
Definition OpStringMinAggregateMerge : StringVal -> StringVal -> option StringVal := min_merge.
Definition OpStringMinAggregateReset : StringVal -> StringVal := min_reset string_limit.
Definition OpStringMinAggregateGetResult : StringVal -> StringVal := GetResultMin.

Definition OpAvgAggregateInit := avg_init.
Definition OpAvgAggregateAdvanceInteger : AvgAggregate -> Integer -> AvgAggregate := avg_advance double_of_Z.
Definition OpAvgAggregateAdvanceReal : AvgAggregate -> Real -> AvgAggregate := avg_advance (fun x => x).
Definition OpAvgAggregateMerge := avg_merge.
Definition OpAvgAggregateReset := avg_reset.
Definition OpAvgAggregateGetResult := GetResultAvg.

(** * What the aggregates are of *)

(** The values that are not NULL. *)
Definition known_values {A} (l : list (Val A)) : list A := omap known l.

(** An aggregate that was given the values of a list, one after the other. *)
Fixpoint advances {S A} (advance : S -> A -> option S) (s : S) (l : list A) : option S :=
  match l with [] => Some s | v :: l' => s' ← advance s v; advances advance s' l' end.

Lemma advances_app {S A} (f : S -> A -> option S) s l l' :
  advances f s (l ++ l') = (s' ← advances f s l; advances f s' l').
Proof. revert s. induction l as [|v l IH]; intros s; simpl; [done|]. destruct (f s v); simpl; [apply IH|done]. Qed.

Lemma known_values_app {A} (l l' : list (Val A)) : known_values (l ++ l') = known_values l ++ known_values l'.
Proof. unfold known_values. by rewrite omap_app. Qed.

Lemma known_values_cons {A} (v : Val A) l :
  known_values (v :: l) = if is_null v then known_values l else val v :: known_values l.
Proof. unfold known_values. simpl. unfold known at 1. by destruct (is_null v). Qed.

Lemma known_values_length {A} (l : list (Val A)) : (length (known_values l) <= length l)%nat.
Proof. induction l as [|v l IH]; [done|]. rewrite known_values_cons. destruct (is_null v); simpl; lia. Qed.

Definition sum_list (l : list Z) : Z := foldr Z.add 0 l.
Lemma sum_list_app l l' : sum_list (l ++ l') = sum_list l + sum_list l'.
Proof. induction l; simpl; lia. Qed.

(** ** COUNT *)

Lemma count_advances {A} skip c (l : list (Val A)) : is_uint 64 c ->
  foldl (count_advance skip) c l = wrapu 64 (c + Z.of_nat (if skip then length (known_values l) else length l)).
Proof.
  revert c. induction l as [|v l IH]; intros c Hc; simpl.
  - destruct skip; by rewrite Z.add_0_r, wrapu_small.
  - rewrite IH by (apply wrapu_range; lia). unfold count_advance, wrapu. rewrite Zplus_mod_idemp_l. f_equal.
    unfold known_values. simpl. destruct skip; [|lia]. unfold known at 2. destruct (is_null v); simpl; lia.
Qed.

(** ** SUM *)

(** The state after a list: NULL as long as nothing was added. *)
Lemma sum_advances (s : Integer) l : is_sint 64 (val s) ->
  (forall l1 l2, known_values l = l1 ++ l2 -> is_sint 64 (val s + sum_list l1)) ->
  advances (sum_advance (A:=Z)) s l =
    Some (mkVal (is_null s && match known_values l with [] => true | _ => false end) (val s + sum_list (known_values l))).
Proof.
  revert s. induction l as [|v l IH]; intros s Hs H.
  - simpl. rewrite Z.add_0_r, andb_true_r. by destruct s.
  - rewrite known_values_cons in *. cbn [advances].
    change (sum_advance s v) with (if is_null v then Some s else x ← int64_op Z.add (val s) (val v); Some (mkVal false x)).
    destruct (is_null v); [by apply IH|].
    pose proof (H [val v] _ eq_refl) as H1. simpl in H1. rewrite Z.add_0_r in H1.
    rewrite int64_op_value, bool_decide_true by done. cbn [mbind option_bind]. rewrite IH; [|done|]; cbn [is_null val].
    + rewrite andb_false_r. cbn [andb sum_list foldr]. do 2 f_equal. unfold sum_list. lia.
    + intros l1 l2 E. specialize (H (val v :: l1) l2). simpl in H. rewrite Z.add_assoc in H. apply H. by rewrite E.
Qed.

(** ** MAX and MIN of integers *)

Lemma std_max_Z a b : std_max a b = Some (Z.max a b).
Proof. unfold std_max. simpl. f_equal. destruct (Z.ltb_spec a b); lia. Qed.
Lemma std_min_Z a b : std_min a b = Some (Z.min a b).
Proof. unfold std_min. simpl. f_equal. destruct (Z.ltb_spec b a); lia. Qed.

Lemma max_advances (s : Val Z) l : advances max_advance s l =
  Some (mkVal (is_null s && match known_values l with [] => true | _ => false end) (foldr Z.max (val s) (known_values l))).
Proof.
  revert s. induction l as [|v l IH]; intros s.
  - simpl. rewrite andb_true_r. by destruct s.
  - rewrite known_values_cons. cbn [advances].
    change (max_advance s v) with (if is_null v then Some s else m ← std_max (val v) (val s); Some (mkVal false m)).
    destruct (is_null v); [apply IH|]. rewrite std_max_Z. cbn [mbind option_bind]. rewrite IH. cbn [is_null val].
    rewrite andb_false_r. cbn [andb]. do 2 f_equal.
    generalize (known_values l). intros k. induction k as [|x k IHk]; simpl in *; lia.
Qed.
Lemma min_advances (s : Val Z) l : advances min_advance s l =
  Some (mkVal (is_null s && match known_values l with [] => true | _ => false end) (foldr Z.min (val s) (known_values l))).
Proof.
  revert s. induction l as [|v l IH]; intros s.
  - simpl. rewrite andb_true_r. by destruct s.
  - rewrite known_values_cons. cbn [advances].
    change (min_advance s v) with (if is_null v then Some s else m ← std_min (val v) (val s); Some (mkVal false m)).
    destruct (is_null v); [apply IH|]. rewrite std_min_Z. cbn [mbind option_bind]. rewrite IH. cbn [is_null val].
    rewrite andb_false_r. cbn [andb]. do 2 f_equal.
    generalize (known_values l). intros k. induction k as [|x k IHk]; simpl in *; lia.
Qed.

Lemma sum_list_abs l1 l2 : Z.abs (sum_list l1) <= sum_list (map Z.abs l1) /\
  sum_list (map Z.abs l1) <= sum_list (map Z.abs (l1 ++ l2)).
Proof.
  induction l1 as [|x l1 IH]; simpl in *; [|lia]. split; [lia|].
  induction l2 as [|x l2 IH2]; simpl; lia.
Qed.

Lemma sum_list_abs_r l1 l2 : sum_list (map Z.abs l2) <= sum_list (map Z.abs (l1 ++ l2)).
Proof. induction l1 as [|x l1 IH]; simpl in *; lia. Qed.

Lemma sum_from_init l : sum_list (map Z.abs (known_values l)) < 2 ^ 63 ->
  advances (sum_advance (A:=Z)) (sum_init 0) l =
    Some (mkVal (match known_values l with [] => true | _ => false end) (sum_list (known_values l))).
Proof.
  intros H. rewrite sum_advances; [done|split; vm_compute; congruence|]. intros l1 l2 E. rewrite E in H. simpl.
  pose proof (sum_list_abs l1 l2). unfold is_sint. lia.
Qed.

Lemma foldr_max_spec (x : Z) l : Forall (fun y => x <= y) l -> l <> [] ->
  foldr Z.max x l ∈ l /\ Forall (fun y => y <= foldr Z.max x l) l.
Proof.
  induction 1 as [|y l Hy Hl IH]; [done|]. intros _. simpl. destruct l as [|z l].
  - simpl. rewrite Z.max_l by lia. split; [set_solver|]. constructor; [lia|constructor].
  - destruct IH as [I F]; [done|]. split.
    + destruct (Z.max_spec y (foldr Z.max x (z :: l))) as [[_ ->]|[_ ->]]; set_solver.
    + constructor; [lia|]. eapply Forall_impl; [exact F|]. simpl. intros. lia.
Qed.
Lemma foldr_min_spec (x : Z) l : Forall (fun y => y <= x) l -> l <> [] ->
  foldr Z.min x l ∈ l /\ Forall (fun y => foldr Z.min x l <= y) l.
Proof.
  induction 1 as [|y l Hy Hl IH]; [done|]. intros _. simpl. destruct l as [|z l].
  - simpl. rewrite Z.min_l by lia. split; [set_solver|]. constructor; [lia|constructor].
  - destruct IH as [I F]; [done|]. split.
    + destruct (Z.min_spec y (foldr Z.min x (z :: l))) as [[_ ->]|[_ ->]]; set_solver.
    + constructor; [lia|]. eapply Forall_impl; [exact F|]. simpl. intros. lia.
Qed.

(** Two partitions, aggregated apart and merged. *)
Definition merged {S A} (advance : S -> A -> option S) (merge : S -> S -> option S) (init : S) (l1 l2 : list A) : option S :=
  s1 ← advances advance init l1; s2 ← advances advance init l2; merge s1 s2.

Lemma foldr_max_app (x : Z) l1 l2 : foldr Z.max x (l1 ++ l2) = Z.max (foldr Z.max x l2) (foldr Z.max x l1).
Proof.
  assert (B : x <= foldr Z.max x l2) by (induction l2; simpl; lia).
  rewrite foldr_app. induction l1 as [|y l1 IH]; simpl; lia.
Qed.
Lemma foldr_min_app (x : Z) l1 l2 : foldr Z.min x (l1 ++ l2) = Z.min (foldr Z.min x l2) (foldr Z.min x l1).
Proof.
  assert (B : foldr Z.min x l2 <= x) by (induction l2; simpl; lia).
  rewrite foldr_app. induction l1 as [|y l1 IH]; simpl; lia.
Qed.

Lemma max_merged l1 l2 : Forall (is_sint 64) (known_values (l1 ++ l2)) ->
  merged max_advance max_merge (max_init int64_min) l1 l2 = advances max_advance (max_init int64_min) (l1 ++ l2).
Proof.
  intros F. unfold merged. rewrite !max_advances. cbn [mbind option_bind is_null val max_init andb]. rewrite known_values_app in *.
  unfold max_merge. cbn [is_null val]. destruct (known_values l2) as [|y k2] eqn:E2.
  - rewrite app_nil_r. done.
  - rewrite std_max_Z. cbn [mbind option_bind]. rewrite foldr_max_app. do 2 f_equal. by destruct (known_values l1).
Qed.
Lemma min_merged l1 l2 : Forall (is_sint 64) (known_values (l1 ++ l2)) ->
  merged min_advance min_merge (min_init int64_max) l1 l2 = advances min_advance (min_init int64_max) (l1 ++ l2).
Proof.
  intros F. unfold merged. rewrite !min_advances. cbn [mbind option_bind is_null val min_init andb]. rewrite known_values_app in *.
  unfold min_merge. cbn [is_null val]. destruct (known_values l2) as [|y k2] eqn:E2.
  - rewrite app_nil_r. done.
  - rewrite std_min_Z. cbn [mbind option_bind]. rewrite foldr_min_app. do 2 f_equal. by destruct (known_values l1).
Qed.

(** * Theorems *)

(** C10: The aggregates of a column of integers.  However the column is split into two, aggregating the parts and
    merging gives what aggregating the whole gives.  The counts are those of the values that are not NULL and
    of all; the sum, the maximum and the minimum are NULL if there is no value, and otherwise are those of the
    values.  (The sums must not overflow: this is undefined.) *)
Theorem integer_aggregates (l1 l2 : list (Val Z)) :
  let l := l1 ++ l2 in
  let ks := known_values l in
  Z.of_nat (length l) < 2 ^ 63 -> Forall (is_sint 64) ks -> sum_list (map Z.abs ks) < 2 ^ 63 ->
  let count skip := foldl (count_advance skip) count_init in
  (forall skip, count_merge (count skip l1) (count skip l2) = count skip l) /\
  GetCountResult (count true l) = Integer_of (Z.of_nat (length ks)) /\
  GetCountResult (count false l) = Integer_of (Z.of_nat (length l)) /\
  (exists sum max min,
    merged sum_advance sum_merge (sum_init 0) l1 l2 = Some sum /\ advances sum_advance (sum_init 0) l = Some sum /\
    merged max_advance max_merge (max_init int64_min) l1 l2 = Some max /\ advances max_advance (max_init int64_min) l = Some max /\
    merged min_advance min_merge (min_init int64_max) l1 l2 = Some min /\ advances min_advance (min_init int64_max) l = Some min /\
    match ks with
    | [] => known sum = None /\ known max = None /\ known min = None
    | _ => known sum = Some (sum_list ks) /\
           (exists M, known max = Some M /\ M ∈ ks /\ Forall (fun x => x <= M) ks) /\
           (exists m, known min = Some m /\ m ∈ ks /\ Forall (fun x => m <= x) ks)
    end).
Proof.
  intros l ks Hl F S count.
  assert (Z0 : is_uint 64 0) by (split; vm_compute; congruence).
  assert (L : (length ks <= length l)%nat).
  { apply known_values_length. }
  split_and!.
  - intros skip. unfold count, count_merge. rewrite !count_advances by done. unfold count_init, wrapu.
    rewrite <- Zplus_mod. unfold l. destruct skip; rewrite ?known_values_app, ?length_app; f_equal; lia.
  - unfold count, GetCountResult. rewrite count_advances, wraps_wrapu by (done || lia). unfold count_init. fold ks.
    rewrite wraps_small by (try unfold is_sint; lia). done.
  - unfold count, GetCountResult. rewrite count_advances, wraps_wrapu by (done || lia). unfold count_init.
    rewrite wraps_small by (try unfold is_sint; lia). done.
  - assert (E : ks = known_values l1 ++ known_values l2) by apply known_values_app.
    assert (S1 : sum_list (map Z.abs (known_values l1)) < 2 ^ 63)
      by (rewrite E in S; pose proof (sum_list_abs (known_values l1) (known_values l2)); lia).
    assert (S2 : sum_list (map Z.abs (known_values l2)) < 2 ^ 63)
      by (rewrite E in S; pose proof (sum_list_abs_r (known_values l1) (known_values l2)); lia).
    do 3 eexists. rewrite max_merged, min_merged by exact F.
    split_and!; [|apply (sum_from_init l S)|rewrite max_advances; reflexivity|rewrite max_advances; reflexivity
                 |rewrite min_advances; reflexivity|rewrite min_advances; reflexivity|].
    + unfold merged. rewrite (sum_from_init l1 S1), (sum_from_init l2 S2). cbn [mbind option_bind]. fold l ks. rewrite E.
      unfold sum_merge. cbn [is_null val]. destruct (known_values l2) as [|y k2]; [by rewrite app_nil_r|].
      cbn [num_add int64_number]. rewrite int64_op_value, <- sum_list_app. rewrite <- E. rewrite bool_decide_true.
      * cbn [mbind option_bind]. do 2 f_equal. rewrite E. by destruct (known_values l1).
      * pose proof (sum_list_abs ks []). unfold is_sint. lia.
    + fold l ks. unfold known. cbn [is_null val max_init min_init andb]. destruct ks as [|x ks'] eqn:K; [done|]. rewrite <- K in *.
      assert (N : ks <> []) by (rewrite K; done).
      split_and!; [by rewrite K| |].
      * exists (foldr Z.max int64_min ks). split; [by rewrite K|]. apply foldr_max_spec; [|done].
        eapply Forall_impl; [exact F|]. unfold is_sint, int64_min. intros. lia.
      * exists (foldr Z.min int64_max ks). split; [by rewrite K|]. apply foldr_min_spec; [|done].
        eapply Forall_impl; [exact F|]. unfold is_sint, int64_max. intros. lia.
Qed.

Lemma integer_aggregates_witness :
  advances max_advance (max_init int64_min) [Integer_of (-3); Integer_Null; Integer_of (-5)] = Some (Integer_of (-3)) /\
  merged sum_advance sum_merge (sum_init 0) [Integer_of (-3); Integer_Null] [Integer_of (-5)] =
    advances sum_advance (sum_init 0) [Integer_of (-3); Integer_Null; Integer_of (-5)].
Proof.
  destruct (integer_aggregates [Integer_of (-3); Integer_Null] [Integer_of (-5)]) as (_ & _ & _ & sum & max & min & E1 & E2 & _ & E & _).
  - reflexivity.
  - repeat constructor; vm_compute; congruence.
  - reflexivity.
  - split; [reflexivity|]. rewrite E1. symmetry. exact E2.
Defined.

(** A state that no value of a list changes. *)
Lemma advances_stays {S A} (f : S -> A -> option S) (P : S -> Prop) l :
  (forall s v, P s -> v ∈ l -> exists s', f s v = Some s' /\ P s') -> forall s, P s -> exists s', advances f s l = Some s' /\ P s'.
Proof.
  induction l as [|v l IH]; intros H s Hs; simpl; [eauto|].
  destruct (H s v Hs) as (s' & E & Hs'); [set_solver|]. rewrite E. apply IH; [|done]. intros. apply H; set_solver.
Qed.

Lemma first_value {A S} (f : S -> Val A -> option S) l s : (forall s v, is_null v = true -> f s v = Some s) ->
  known_values l <> [] -> exists v l', is_null v = false /\ v ∈ l /\ (forall x, x ∈ l' -> x ∈ l) /\
    advances f s l = (s' ← f s v; advances f s' l').
Proof.
  intros N. induction l as [|v l IH]; [done|]. rewrite known_values_cons. cbn [advances]. destruct (is_null v) eqn:E.
  - intros H. destruct (IH H) as (w & l' & Hw & I & J & K). exists w, l'. rewrite N by done. cbn [mbind option_bind].
    split_and!; [done|set_solver|set_solver|done].
  - intros _. exists v, l. split_and!; [done|set_solver|set_solver|done].
Qed.

(** A property of the aggregate that the first value establishes and the others keep. *)
Lemma advances_once {A S} (f : S -> Val A -> option S) (P : S -> Prop) l s :
  (forall s v, is_null v = true -> f s v = Some s) -> known_values l <> [] ->
  (forall v, v ∈ l -> is_null v = false -> exists s', f s v = Some s' /\ P s') ->
  (forall s v, P s -> v ∈ l -> is_null v = false -> exists s', f s v = Some s' /\ P s') ->
  exists s', advances f s l = Some s' /\ P s'.
Proof.
  intros N K H0 H. destruct (first_value f l s N K) as (v & l' & Hv & I & J & ->).
  destruct (H0 v I Hv) as (s' & -> & Hs'). cbn [mbind option_bind]. apply (advances_stays f P); [|done].
  intros t w Ht Hw. destruct (is_null w) eqn:E; [exists t; auto|]. apply H; auto.
Qed.

(** A negative number. *)
Definition negative (x : double) : Prop :=
  match x with S754_finite true _ _ | S754_infinity true => True | _ => False end.

(** C24: The extremes of the other types are not what they should be.  The maximum of any column of negative reals
    is the smallest positive number, because the aggregate starts from it; the minimum of any column of dates
    (from the first Julian day on) is day zero, and that of any column of strings is the empty string, because
    the aggregates start from the default values of those types. *)
Theorem extremes_of_other_types :
  (forall l, known_values l <> [] -> Forall (fun v => is_null v = false -> negative (val v)) l ->
     advances OpRealMaxAggregateAdvance OpRealMaxAggregateInit l = Some (Real_of double_min)) /\
  (forall l, known_values l <> [] -> Forall (fun v => is_null v = false -> 0 <= val v) l ->
     advances OpDateMinAggregateAdvance OpDateMinAggregateInit l = Some (DateVal_of 0)) /\
  (forall l, known_values l <> [] ->
     Forall (fun v => is_null v = false -> exists s, Z.of_nat (length s) < 2 ^ 31 /\ VarlenEntry_of s = Some (val v)) l ->
     exists v, advances OpStringMinAggregateAdvance OpStringMinAggregateInit l = Some v /\ is_null v = false /\ GetContent (val v) = []).
Proof.
  split_and!.
  - intros l K F. rewrite Forall_forall in F.
    assert (STEP : forall s v, val s = double_min -> negative (val v) -> is_null v = false ->
      OpRealMaxAggregateAdvance s v = Some (Real_of double_min)).
    { intros s v Hs Hv N. unfold OpRealMaxAggregateAdvance, max_advance. rewrite N, Hs.
      unfold std_max, cmp_lt, double_comparable. cbn [mbind option_bind].
      rewrite bool_decide_true; [done|]. by destruct (val v) as [[]|[]| |[] ? ?]. }
    destruct (advances_once OpRealMaxAggregateAdvance (fun s => s = Real_of double_min) l OpRealMaxAggregateInit)
      as (s & E & ->); [| | | |exact E]; try done.
    + intros s v N. unfold OpRealMaxAggregateAdvance, max_advance. by rewrite N.
    + intros v I N. eexists. split; [apply STEP; auto|done].
    + intros s v -> I N. eexists. split; [apply STEP; auto|done].
  - intros l K F. rewrite Forall_forall in F.
    assert (STEP : forall s v, val s = 0 -> 0 <= val v -> is_null v = false ->
      OpDateMinAggregateAdvance s v = Some (DateVal_of 0)).
    { intros s v Hs Hv N. unfold OpDateMinAggregateAdvance, min_advance. rewrite N, Hs, std_min_Z.
      cbn [mbind option_bind]. by rewrite Z.min_r by lia. }
    destruct (advances_once OpDateMinAggregateAdvance (fun s => s = DateVal_of 0) l OpDateMinAggregateInit)
      as (s & E & ->); [| | | |exact E]; try done.
    + intros s v N. unfold OpDateMinAggregateAdvance, min_advance. by rewrite N.
    + intros v I N. eexists. split; [apply STEP; auto|done].
    + intros s v -> I N. eexists. split; [apply STEP; auto|done].
  - intros l K F. rewrite Forall_forall in F.
    set (P := fun s : StringVal => is_null s = false /\ GetContent (val s) = [] /\ GetSize (val s) = 0).
    assert (STEP : forall s v, GetSize (val s) = 0 -> GetContent (val s) = [] -> is_null v = false ->
      (exists t, Z.of_nat (length t) < 2 ^ 31 /\ VarlenEntry_of t = Some (val v)) ->
      exists s', OpStringMinAggregateAdvance s v = Some s' /\ P s').
    { intros s v S0 SC N (t & Ht & E). destruct (VarlenEntry_of_spec t) as (w & Ew & C & S & _); [lia|].
      rewrite E in Ew. injection Ew as <-. unfold OpStringMinAggregateAdvance, min_advance, std_min. rewrite N.
      cbn [cmp_lt varlen_comparable]. unfold VarlenEntry_lt, VarlenEntry_Compare. rewrite S0, S, Z.min_l by lia.
      change (Z.to_nat 0) with O. cbn [memcmp mbind option_bind]. rewrite Z.eqb_refl. cbn [negb].
      rewrite wraps_small by (try unfold is_sint; lia). eexists. split; [reflexivity|]. unfold P. cbn [is_null val].
      destruct (Z.ltb_spec (0 - Z.of_nat (length t)) 0); [done|]. rewrite C, S. split_and!; [done|by destruct t|lia]. }
    destruct (advances_once OpStringMinAggregateAdvance P l OpStringMinAggregateInit) as (s & E & N & C & _); [..|by exists s].
    + intros s v N. unfold OpStringMinAggregateAdvance, min_advance. by rewrite N.
    + done.
    + intros v I N. apply STEP; auto.
    + intros s v (N & C & S0) I Nv. apply STEP; auto.
Qed.
