(* ===== verification/ChunkedVector.v ===== *)
(** A vector that grows in chunks, [src/include/util/chunked_vector.h].

    A chunk is known by the number of its allocation, and a pointer is a chunk and an offset in bytes.  The
    memory of a chunk is the bytes it holds; a new one holds whatever [uninitialised] says.  What follows a
    null pointer or leaves the chunks of the vector is [None]. *)
From S2P Require Import Prelude.

Local Open Scope list_scope.
Local Open Scope Z_scope.

Definition kLogNumElementsPerChunk : Z := 8.
Definition kNumElementsPerChunk : Z := Z.shiftl 1 kLogNumElementsPerChunk.
Definition kChunkPositionMask : Z := kNumElementsPerChunk - 1.

Definition chunk := nat.
Definition pointer : Set := chunk * Z.

(** The state of a vector, with the memory its allocator gave it. *)
Record ChunkedVector := mkChunkedVector {
  chunks_ : list chunk;
  position_ : option pointer;
  end_ : option pointer;
  element_size_ : Z;
  num_elements_ : Z;
  heap : gmap chunk (list Z);
  allocations : nat
}.

(** What memory holds when it is allocated. *)
Class Allocator := uninitialised : chunk -> Z -> Z.

Definition chunk_alloc_size (element_size : Z) : Z := kNumElementsPerChunk * element_size.
Definition chunk_index (idx : Z) : Z := Z.shiftr idx kLogNumElementsPerChunk.
Definition chunk_position (idx : Z) : Z := Z.land idx kChunkPositionMask.

Definition set_chunks (f : list chunk -> list chunk) (v : ChunkedVector) : ChunkedVector :=
  mkChunkedVector (f (chunks_ v)) (position_ v) (end_ v) (element_size_ v) (num_elements_ v) (heap v) (allocations v).
Definition set_position (p e : option pointer) (v : ChunkedVector) : ChunkedVector :=
  mkChunkedVector (chunks_ v) p e (element_size_ v) (num_elements_ v) (heap v) (allocations v).
Definition set_size (n : Z) (v : ChunkedVector) : ChunkedVector :=
  mkChunkedVector (chunks_ v) (position_ v) (end_ v) (element_size_ v) n (heap v) (allocations v).
Definition set_heap (h : gmap chunk (list Z)) (v : ChunkedVector) : ChunkedVector :=
  mkChunkedVector (chunks_ v) (position_ v) (end_ v) (element_size_ v) (num_elements_ v) h (allocations v).

Definition size (v : ChunkedVector) : Z := num_elements_ v.
Definition empty (v : ChunkedVector) : bool := size v =? 0.
Definition element_size (v : ChunkedVector) : Z := element_size_ v.

Section operations.
Context `{Allocator}.

Definition allocate_chunk (v : ChunkedVector) : chunk * ChunkedVector :=
  let c := allocations v in
  let bytes := map (fun i => uninitialised c (Z.of_nat i)) (seq 0 (Z.to_nat (chunk_alloc_size (element_size v)))) in
  (c, mkChunkedVector (chunks_ v) (position_ v) (end_ v) (element_size_ v) (num_elements_ v) (<[c := bytes]> (heap v)) (S c)).
Definition deallocate_chunk (c : chunk) (v : ChunkedVector) : ChunkedVector := set_heap (delete c (heap v)) v.

Definition append_chunk (v : ChunkedVector) : ChunkedVector :=
  let '(c, v) := allocate_chunk v in
  let v := set_chunks (fun cs => cs ++ [c]) v in
  set_position (Some (c, 0)) (Some (c, chunk_alloc_size (element_size v))) v.
Fixpoint allocate_n (n : nat) (v : ChunkedVector) : ChunkedVector :=
  match n with O => v | S n' => let '(c, v) := allocate_chunk v in allocate_n n' (set_chunks (fun cs => cs ++ [c]) v) end.
Definition allocate_chunks (new_elements : Z) (v : ChunkedVector) : ChunkedVector :=
  allocate_n (Z.to_nat ((new_elements + kNumElementsPerChunk - 1) / kNumElementsPerChunk)) v.
Definition erase_chunk_at_back (v : ChunkedVector) : option ChunkedVector :=
  c ← last (chunks_ v);
  let v := set_chunks (fun cs => take (length cs - 1) cs) (deallocate_chunk c v) in
  b ← last (chunks_ v);
  let e := Some (b, chunk_alloc_size (element_size v)) in Some (set_position e e v).
Definition deallocate_all_chunks (v : ChunkedVector) : ChunkedVector :=
  set_position None None (set_chunks (fun _ => []) (foldl (fun v c => deallocate_chunk c v) v (chunks_ v))).

Definition new_vector (element_size : Z) : ChunkedVector := append_chunk (mkChunkedVector [] None None element_size 0 ∅ 0).

Definition append (v : ChunkedVector) : option (pointer * ChunkedVector) :=
  let v := if bool_decide (position_ v = end_ v) then append_chunk v else v in
  result ← position_ v;
  Some (result, set_size (num_elements_ v + 1) (set_position (Some (result.1, result.2 + element_size_ v)) (end_ v) v)).

(** Bytes of a chunk, none of them outside of it. *)
Definition put (p : pointer) (bytes : list Z) (h : gmap chunk (list Z)) : option (gmap chunk (list Z)) :=
  m ← h !! p.1;
  if (0 <=? p.2) && (p.2 + Z.of_nat (length bytes) <=? Z.of_nat (length m)) then
    Some (<[p.1 := take (Z.to_nat p.2) m ++ bytes ++ drop (Z.to_nat p.2 + length bytes) m]> h)
  else None.
Definition get (p : pointer) (n : Z) (h : gmap chunk (list Z)) : option (list Z) :=
  m ← h !! p.1;
  if (0 <=? p.2) && (p.2 + n <=? Z.of_nat (length m)) then Some (take (Z.to_nat n) (drop (Z.to_nat p.2) m)) else None.

(** [elem] are the bytes of the element. *)
Definition push_back (elem : list Z) (v : ChunkedVector) : option ChunkedVector :=
  '(dest, v) ← append v;
  h ← put dest (take (Z.to_nat (element_size v)) elem) (heap v); Some (set_heap h v).

Definition pop_back (v : ChunkedVector) : option ChunkedVector :=
  back ← last (chunks_ v);
  v ← (if bool_decide (position_ v = Some (back, 0)) then erase_chunk_at_back v else Some v);
  p ← position_ v;
  Some (set_size (num_elements_ v - 1) (set_position (Some (p.1, p.2 - element_size v)) (end_ v) v)).

Definition clear (v : ChunkedVector) : ChunkedVector :=
  set_size 0 (set_position None None (deallocate_all_chunks v)).

(** An offset from a null pointer stays null here. *)
Definition advance (n : Z) (p : option pointer) : option pointer := q ← p; Some (q.1, q.2 + n).
Definition append_many (n : Z) (v : ChunkedVector) : option ChunkedVector :=
  let vacancies := kNumElementsPerChunk - chunk_position (size v) in
  v ← (if n >? vacancies then
         let v := allocate_chunks (n - vacancies) v in
         back ← last (chunks_ v);
         Some (set_position (Some (back, element_size v * chunk_position (n - vacancies)))
                            (Some (back, chunk_alloc_size (element_size v))) v)
       else Some (set_position (advance (element_size v * n) (position_ v)) (end_ v) v));
  Some (set_size (num_elements_ v + n) v).
Definition erase_many (n : Z) (v : ChunkedVector) : option ChunkedVector :=
  let chunk_idx := chunk_index n in
  let keep := Z.to_nat (chunk_idx + 1) in
  let v := foldl (fun v c => deallocate_chunk c v) v (drop keep (chunks_ v)) in
  let v := set_chunks (take keep) v in
  back ← last (chunks_ v);
  Some (set_size n (set_position (Some (back, element_size v * chunk_position n)) (Some (back, chunk_alloc_size (element_size v))) v)).
Definition resize (new_size : Z) (v : ChunkedVector) : option ChunkedVector :=
  let len := size v in
  if new_size >? len then append_many (new_size - len) v
  else if new_size <? len then erase_many new_size v else Some v.
End operations.

(** [operator[]]. *)
Definition index (idx : Z) (v : ChunkedVector) : option pointer :=
  c ← chunks_ v !! Z.to_nat (chunk_index idx); Some (c, element_size v * chunk_position idx).
(** [at] throws for an index behind the size; the outer [None] is the exception. *)
Definition at_ (idx : Z) (v : ChunkedVector) : option (option pointer) :=
  if idx >? size v then None else Some (index idx v).
Definition front (v : ChunkedVector) : option pointer := c ← chunks_ v !! 0%nat; Some (c, 0).
Definition back (v : ChunkedVector) : option pointer := index (size v - 1) v.
(** The bytes of an element. *)
Definition element (idx : Z) (v : ChunkedVector) : option (list Z) := p ← index idx v; get p (element_size v) (heap v).

(** * Iterators

    [chunk_iter_] is an index into the vector's chunks, which do not change while an iterator is used;
    [chunk_start_] is then zero and [chunk_end_] their number.  [first_] and [last_] are the start and the end
    of the chunk. *)
Record iterator := mkIterator {
  curr_ : pointer; first_ : pointer; last_ : pointer; chunk_iter_ : Z; chunk_list : list chunk; it_element_size_ : Z
}.

Definition offset_to (p q : pointer) : option Z := if bool_decide (p.1 = q.1) then Some (p.2 - q.2) else None.
(** The chunk is dereferenced. *)
Definition set_chunk (c : Z) (it : iterator) : option iterator :=
  if c <? 0 then None
  else first ← chunk_list it !! Z.to_nat c;
       Some (mkIterator (curr_ it) (first, 0) (first, chunk_alloc_size (it_element_size_ it)) c (chunk_list it) (it_element_size_ it)).
Definition set_curr (p : pointer) (it : iterator) : iterator :=
  mkIterator p (first_ it) (last_ it) (chunk_iter_ it) (chunk_list it) (it_element_size_ it).
Definition make_iterator (chunk_iter : Z) (v : ChunkedVector) (position : pointer) : option iterator :=
  set_chunk chunk_iter (mkIterator position position position chunk_iter (chunks_ v) (element_size v)).

(** The iterators of an empty vector have no position: [None]. *)
Definition begin (v : ChunkedVector) : option iterator := if empty v then None else p ← front v; make_iterator 0 v p.
Definition end_iterator (v : ChunkedVector) : option iterator :=
  if empty v then None else
  p ← position_ v; make_iterator (Z.of_nat (length (chunks_ v)) - 1) v p.

Definition it_add (offset : Z) (it : iterator) : option iterator :=
  let chunk_size := chunk_alloc_size (it_element_size_ it) in
  d ← offset_to (curr_ it) (first_ it);
  let byte_offset := offset * it_element_size_ it + d in
  let chunk_offset :=
    if (byte_offset <? chunk_size) && (byte_offset >=? 0) then 0
    else if (byte_offset >=? chunk_size) && (byte_offset <? 2 * chunk_size) then 1
    else if (byte_offset <? 0) && (byte_offset >? - chunk_size) then -1
    else Z.quot (byte_offset - (if offset <? 0 then 1 else 0) * (chunk_size - 1)) chunk_size in
  it ← set_chunk (chunk_iter_ it + chunk_offset) it;
  Some (set_curr ((first_ it).1, (first_ it).2 + byte_offset - chunk_offset * chunk_size) it).
Definition it_sub (offset : Z) (it : iterator) : option iterator := it_add (- offset) it.
Definition it_next (it : iterator) : option iterator :=
  let it := set_curr ((curr_ it).1, (curr_ it).2 + it_element_size_ it) it in
  if bool_decide (curr_ it = last_ it) && negb (chunk_iter_ it + 1 =? Z.of_nat (length (chunk_list it))) then
    it ← set_chunk (chunk_iter_ it + 1) it; Some (set_curr (first_ it) it)
  else Some it.
Definition it_prev (it : iterator) : option iterator :=
  it ← (if bool_decide (curr_ it = first_ it) && negb (chunk_iter_ it =? 0) then
          it ← set_chunk (chunk_iter_ it - 1) it; Some (set_curr (last_ it) it)
        else Some it);
  Some (set_curr ((curr_ it).1, (curr_ it).2 - it_element_size_ it) it).
(** The postfix operators: the old iterator and the new one; the second one goes forward too. *)
Definition it_post_increment (it : iterator) : option (iterator * iterator) := n ← it_next it; Some (it, n).
Definition it_post_decrement (it : iterator) : option (iterator * iterator) := n ← it_next it; Some (it, n).
Definition it_index (idx : Z) (it : iterator) : option pointer := curr_ <$> it_add idx it.
Definition it_eq (a b : iterator) : bool := bool_decide (curr_ a = curr_ b).
Definition it_ne (a b : iterator) : bool := negb (it_eq a b).
(** Pointers are compared in one chunk. *)
Definition it_lt (a b : iterator) : option bool :=
  if negb (chunk_iter_ a =? chunk_iter_ b) then Some (chunk_iter_ a <? chunk_iter_ b)
  else d ← offset_to (curr_ a) (curr_ b); Some (d <? 0).
Definition it_gt (a b : iterator) : option bool := it_lt b a.
Definition it_le (a b : iterator) : option bool := negb <$> it_lt b a.
Definition it_ge (a b : iterator) : option bool := negb <$> it_lt a b.
Definition it_distance (a b : iterator) : option Z :=
  let chunk_size := chunk_alloc_size (it_element_size_ a) in
  x ← chunk_list a !! Z.to_nat (chunk_iter_ a); y ← chunk_list b !! Z.to_nat (chunk_iter_ b);
  dx ← offset_to (curr_ a) (x, 0); dy ← offset_to (curr_ b) (y, 0);
  Some (Z.quot ((chunk_iter_ a - chunk_iter_ b) * chunk_size + (dx - dy)) (it_element_size_ a)).

(** * What a vector holds *)

Lemma chunk_index_nat i : chunk_index (Z.of_nat i) = Z.of_nat (i / 256).
Proof. unfold chunk_index. rewrite Z.shiftr_div_pow2 by done. by rewrite Nat2Z.inj_div. Qed.
Lemma chunk_position_nat i : chunk_position (Z.of_nat i) = Z.of_nat (i mod 256).
Proof. unfold chunk_position. change kChunkPositionMask with (Z.ones 8). rewrite Z.land_ones by done. by rewrite Nat2Z.inj_mod. Qed.

Definition slot (es i : nat) (m : list Z) : list Z := take es (drop (i * es) m).

(** The elements of a vector with elements of [es] bytes.  The chunks are different and allocated; all but the
    last one are full, and the position is behind the last element in it. *)
Record represents (es : nat) (v : ChunkedVector) (l : list (list Z)) : Prop := {
  rep_es : element_size_ v = Z.of_nat es /\ (0 < es)%nat;
  rep_elems : Forall (fun e => length e = es) l;
  rep_size : num_elements_ v = Z.of_nat (length l);
  rep_nodup : NoDup (chunks_ v);
  rep_fresh : forall c, c ∈ chunks_ v -> (c < allocations v)%nat;
  rep_heap : forall c, c ∈ chunks_ v -> exists m, heap v !! c = Some m /\ length m = (256 * es)%nat;
  rep_shape : if bool_decide (chunks_ v = []) then l = [] /\ position_ v = None /\ end_ v = None
              else exists b k, last (chunks_ v) = Some b /\ (k <= 256)%nat /\
                position_ v = Some (b, Z.of_nat (k * es)) /\ end_ v = Some (b, Z.of_nat (256 * es)) /\
                length l = ((length (chunks_ v) - 1) * 256 + k)%nat;
  rep_data : forall i e, l !! i = Some e ->
    exists c m, chunks_ v !! (i / 256)%nat = Some c /\ heap v !! c = Some m /\ slot es (i mod 256) m = e
}.

Lemma cs_nat es : chunk_alloc_size (Z.of_nat es) = Z.of_nat (256 * es).
Proof. unfold chunk_alloc_size. change kNumElementsPerChunk with 256. lia. Qed.

Lemma represents_index es v l i e : represents es v l -> l !! i = Some e ->
  exists c, index (Z.of_nat i) v = Some (c, Z.of_nat (i mod 256 * es)) /\ chunks_ v !! (i / 256)%nat = Some c /\
    element (Z.of_nat i) v = Some e.
Proof.
  intros R E. destruct (rep_data _ _ _ R i e E) as (c & m & Hc & Hm & S). destruct (rep_es _ _ _ R) as [Es Pos].
  assert (I : index (Z.of_nat i) v = Some (c, Z.of_nat (i mod 256 * es))).
  { unfold index. rewrite chunk_index_nat, chunk_position_nat, Nat2Z.id, Hc. cbn [mbind option_bind].
    unfold element_size. rewrite Es. do 2 f_equal. lia. }
  exists c. split_and!; [done|done|]. unfold element. rewrite I. cbn [mbind option_bind]. unfold get. cbn [fst snd]. rewrite Hm.
  cbn [mbind option_bind]. destruct (rep_heap _ _ _ R c) as (m' & Hm' & L).
  { by eapply list_elem_of_lookup_2. }
  rewrite Hm in Hm'. injection Hm' as <-. unfold element_size. rewrite Es.
  pose proof (Nat.mod_upper_bound i 256 ltac:(lia)).
  rewrite (proj2 (Z.leb_le 0 _)), (proj2 (Z.leb_le _ (Z.of_nat (length m)))) by nia. cbn [andb].
  rewrite !Nat2Z.id. by f_equal.
Qed.

Section correct.
Context `{Allocator}.

(** A new chunk behind the others, which are full. *)
Lemma append_chunk_represents es v l : represents es v l ->
  length l = (length (chunks_ v) * 256)%nat ->
  represents es (append_chunk v) l /\ chunks_ (append_chunk v) = chunks_ v ++ [allocations v] /\
  position_ (append_chunk v) = Some (allocations v, 0).
Proof.
  intros R Hl. destruct (rep_es _ _ _ R) as [Es Pos]. split_and!; [|done|done].
  assert (N : forall c, c ∈ chunks_ v -> c <> allocations v).
  { intros c Hc ->. apply (rep_fresh _ _ _ R) in Hc. lia. }
  unfold append_chunk, allocate_chunk. split; cbn [chunks_ position_ end_ element_size_ num_elements_ heap allocations set_chunks set_position element_size].
  - done.
  - apply R.
  - apply R.
  - apply NoDup_app. split_and!; [apply R| |apply NoDup_singleton]. intros c Hc D. apply list_elem_of_singleton in D. by apply (N c).
  - intros c Hc. apply elem_of_app in Hc as [Hc|Hc]; [apply (rep_fresh _ _ _ R) in Hc; lia|apply list_elem_of_singleton in Hc; lia].
  - intros c Hc. apply elem_of_app in Hc as [Hc|Hc].
    + rewrite lookup_insert_ne by (intros E; by apply (N c)). by apply R.
    + apply list_elem_of_singleton in Hc as ->. rewrite lookup_insert_eq. eexists. split; [reflexivity|].
      rewrite length_map, length_seq. unfold element_size. rewrite Es, cs_nat. lia.
  - rewrite bool_decide_false by (by destruct (chunks_ v)). exists (allocations v), 0%nat. rewrite last_snoc.
    unfold element_size. rewrite Es, cs_nat. split_and!; [done|lia|done|done|]. rewrite length_app. simpl. lia.
  - intros i e E. destruct (rep_data _ _ _ R i e E) as (c & m & Hc & Hm & S). exists c, m. split_and!; [|  |done].
    + apply lookup_app_l_Some. done.
    + rewrite lookup_insert_ne; [done|]. intros D. apply (N c); [by eapply list_elem_of_lookup_2|done].
Qed.

Lemma slot_put es j k m (b : list Z) : length b = es -> (k < 256)%nat -> (j < 256)%nat -> length m = (256 * es)%nat ->
  slot es j (take (k * es) m ++ b ++ drop (k * es + es) m) = if decide (j = k) then b else slot es j m.
Proof.
  intros Hb Hk Hj Hm. unfold slot. case_decide as E; [subst j|].
  - rewrite drop_app_le by (rewrite length_take; nia). rewrite (drop_ge (take _ _)) by (rewrite length_take; nia).
    cbn [app]. by rewrite take_app_length'.
  - assert (j < k \/ k < j)%nat as [L|L] by lia.
    + rewrite drop_app_le by (rewrite length_take; nia). rewrite take_app_le by (rewrite length_drop, length_take; nia).
      rewrite skipn_firstn_comm, take_take. f_equal. nia.
    + rewrite drop_app_ge by (rewrite length_take; nia). rewrite length_take, Hm, Nat.min_l by nia.
      rewrite drop_app_ge by nia. rewrite Hb, drop_drop. f_equal. f_equal. nia.
Qed.

Lemma put_length p b h h' m : put p b h = Some h' -> h !! p.1 = Some m ->
  exists m', h' = <[p.1 := m']> h /\ length m' = length m.
Proof.
  unfold put. intros E Hm. rewrite Hm in E. cbn [mbind option_bind] in E.
  destruct (_ && _) eqn:B; [|done]. injection E as <-. bprop. eexists. split; [reflexivity|].
  rewrite !length_app, length_take, length_drop. lia.
Qed.

(** Appending an element to a vector whose last chunk has room. *)
Lemma push_room es v l b k e : represents es v l -> last (chunks_ v) = Some b -> position_ v = Some (b, Z.of_nat (k * es)) ->
  (k < 256)%nat -> length e = es ->
  let v' := set_size (num_elements_ v + 1) (set_position (Some (b, Z.of_nat (k * es) + element_size_ v)) (end_ v) v) in
  exists h, put (b, Z.of_nat (k * es)) e (heap v) = Some h /\ represents es (set_heap h v') (l ++ [e]).
Proof.
  intros R Hb Hp Hk He v'. destruct (rep_es _ _ _ R) as [Es Pos].
  assert (Hin : b ∈ chunks_ v) by (apply last_Some_elem_of in Hb; done).
  destruct (rep_heap _ _ _ R b Hin) as (m & Hm & Lm).
  assert (Hn : chunks_ v <> []) by (by destruct (chunks_ v)).
  pose proof (rep_shape _ _ _ R) as Sh. rewrite bool_decide_false in Sh by done.
  destruct Sh as (b' & k' & Hb' & Hk' & Hp' & He' & Hl). rewrite Hb in Hb'. injection Hb' as <-.
  assert (k' = k) as -> by (rewrite Hp in Hp'; injection Hp' as E; nia).
  eexists. split.
  { unfold put. cbn [fst snd]. rewrite Hm. cbn [mbind option_bind].
    rewrite (proj2 (Z.leb_le 0 _)), (proj2 (Z.leb_le _ (Z.of_nat (length m)))) by nia. reflexivity. }
  rewrite Nat2Z.id, He. set (m' := take (k * es) m ++ e ++ drop (k * es + es) m).
  assert (Lm' : length m' = (256 * es)%nat) by (unfold m'; rewrite !length_app, length_take, length_drop; nia).
  split; cbn [chunks_ position_ end_ element_size_ num_elements_ heap allocations set_size set_position set_heap v'].
  - done.
  - apply Forall_app. split; [apply R|by constructor].
  - rewrite (rep_size _ _ _ R), length_app. simpl. lia.
  - apply R.
  - apply R.
  - intros c Hc. destruct (decide (c = b)) as [->|]; [rewrite lookup_insert_eq; eauto|rewrite lookup_insert_ne by done; by apply R].
  - rewrite bool_decide_false by done. exists b, (S k). rewrite length_app. simpl length. split_and!; [done|lia| |done|lia].
    rewrite Es. do 2 f_equal. lia.
  - intros i x E. assert (Hchunk : chunks_ v !! (length (chunks_ v) - 1)%nat = Some b).
    { rewrite last_lookup in Hb. by replace (length (chunks_ v) - 1)%nat with (pred (length (chunks_ v))) by lia. }
    apply lookup_app_Some in E as [E|[Hi E]].
    + destruct (rep_data _ _ _ R i x E) as (c & mc & Hc & Hmc & S). exists c.
      destruct (decide (c = b)) as [->|Nb].
      * exists m'. rewrite lookup_insert_eq. split_and!; [done|done|]. rewrite Hm in Hmc. injection Hmc as <-.
        unfold m'. rewrite slot_put; [|done|done|apply Nat.mod_upper_bound; lia|done].
        assert (i / 256 = length (chunks_ v) - 1)%nat by (eapply NoDup_lookup; [apply R|exact Hc|exact Hchunk]).
        apply lookup_lt_Some in E. rewrite decide_False; [done|]. intros Q. pose proof (Nat.div_mod_eq i 256). lia.
      * exists mc. rewrite lookup_insert_ne by done. done.
    + destruct (i - length l)%nat as [|d] eqn:Ei; [|by destruct d]. injection E as <-.
      assert (i = (length (chunks_ v) - 1) * 256 + k)%nat by lia.
      assert (i / 256 = length (chunks_ v) - 1)%nat as -> by (symmetry; apply (Nat.div_unique i 256 _ k); lia).
      assert (i mod 256 = k)%nat as -> by (symmetry; apply (Nat.mod_unique i 256 (length (chunks_ v) - 1) k); lia).
      exists b, m'. rewrite lookup_insert_eq. split_and!; [done|done|]. unfold m'.
      rewrite slot_put by (done || lia). by rewrite decide_True.
Qed.

Lemma new_vector_represents es : (0 < es)%nat -> represents es (new_vector (Z.of_nat es)) [].
Proof.
  intros Pos. unfold new_vector. apply append_chunk_represents; [|done].
  split; cbn [chunks_ position_ end_ element_size_ num_elements_ heap allocations]; try done.
  - constructor.
  - intros c Hc. by apply elem_of_nil in Hc.
  - intros c Hc. by apply elem_of_nil in Hc.
Qed.

Lemma last_chunk es v l : represents es v l -> chunks_ v <> [] ->
  exists b k, last (chunks_ v) = Some b /\ (k <= 256)%nat /\
    position_ v = Some (b, Z.of_nat (k * es)) /\ end_ v = Some (b, Z.of_nat (256 * es)) /\
    length l = ((length (chunks_ v) - 1) * 256 + k)%nat.
Proof. intros R N. pose proof (rep_shape _ _ _ R) as Sh. by rewrite bool_decide_false in Sh. Qed.

Lemma push_back_represents es v l e : represents es v l -> length e = es ->
  exists v', push_back e v = Some v' /\ represents es v' (l ++ [e]).
Proof.
  intros R He. destruct (rep_es _ _ _ R) as [Es Pos].
  assert (T : take (Z.to_nat (Z.of_nat es)) e = e) by (rewrite Nat2Z.id; apply take_ge; lia).
  assert (G : forall w b k, represents es w l -> last (chunks_ w) = Some b -> position_ w = Some (b, Z.of_nat (k * es)) ->
    (k < 256)%nat -> (if bool_decide (position_ v = end_ v) then append_chunk v else v) = w ->
    exists v', push_back e v = Some v' /\ represents es v' (l ++ [e])).
  { intros w b k Rw Hb Hp Hk Ew. destruct (push_room es w l b k e Rw Hb Hp Hk He) as (h & Hput & Rw').
    destruct (rep_es _ _ _ Rw) as [Esw _]. eexists. split; [|exact Rw'].
    unfold push_back, append. rewrite Ew, Hp. cbn [mbind option_bind fst snd heap set_size set_position].
    unfold element_size. cbn [element_size_ set_size set_position]. rewrite Esw in *. rewrite T, Hput. done. }
  destruct (decide (position_ v = end_ v)) as [D|D].
  - assert (F : length l = (length (chunks_ v) * 256)%nat).
    { destruct (decide (chunks_ v = [])) as [N|N].
      - pose proof (rep_shape _ _ _ R) as Sh. rewrite bool_decide_true in Sh by done. destruct Sh as (-> & _). by rewrite N.
      - destruct (last_chunk _ _ _ R N) as (b & k & Hb & Hk & Hp & He' & Hl). rewrite Hp, He' in D. injection D as D.
        assert (chunks_ v <> []) by done. destruct (chunks_ v); [done|]. simpl in *. nia. }
    destruct (append_chunk_represents es v l R F) as (Ra & Hc & Hp).
    apply (G (append_chunk v) (allocations v) 0%nat Ra); [by rewrite Hc, last_snoc|done|lia|by rewrite bool_decide_true].
  - destruct (decide (chunks_ v = [])) as [N|N].
    + pose proof (rep_shape _ _ _ R) as Sh. rewrite bool_decide_true in Sh by done. destruct Sh as (_ & P & E). congruence.
    + destruct (last_chunk _ _ _ R N) as (b & k & Hb & Hk & Hp & He' & Hl).
      apply (G v b k R Hb Hp); [|by rewrite bool_decide_false]. destruct (decide (k = 256)%nat); [|lia].
      subst k. congruence.
Qed.

Lemma foldl_deallocate cs v :
  foldl (fun v c => deallocate_chunk c v) v cs = set_heap (foldl (fun h c => delete c h) (heap v) cs) v.
Proof. revert v. induction cs as [|c cs IH]; intros v; [by destruct v|]. simpl. by rewrite IH. Qed.

Lemma foldl_delete_lookup (cs : list chunk) (h : gmap chunk (list Z)) c : c ∉ cs ->
  foldl (fun h c => delete c h) h cs !! c = h !! c.
Proof.
  revert h. induction cs as [|d cs IH]; intros h N; [done|]. apply not_elem_of_cons in N as [Nd N]. simpl.
  rewrite IH by done. by apply lookup_delete_ne.
Qed.

(** The first [length cs] of a vector's chunks, and as many elements of it as they have, the last of them
    up to the position [k]. *)
Lemma shrink_represents es v l cs b k h n : represents es v l ->
  cs `prefix_of` chunks_ v -> last cs = Some b -> (k <= 256)%nat -> n = ((length cs - 1) * 256 + k)%nat -> (n <= length l)%nat ->
  (forall c, c ∈ cs -> h !! c = heap v !! c) ->
  represents es (mkChunkedVector cs (Some (b, Z.of_nat (k * es))) (Some (b, Z.of_nat (256 * es))) (element_size_ v) (Z.of_nat n)
    h (allocations v)) (take n l).
Proof.
  intros R [rest Ec] Hb Hk -> Hn Hh. set (n := ((length cs - 1) * 256 + k)%nat) in *. destruct (rep_es _ _ _ R) as [Es Pos].
  assert (Hin : forall c, c ∈ cs -> c ∈ chunks_ v) by (intros c; rewrite Ec, elem_of_app; by left).
  assert (cs <> []) by (by destruct cs). assert (0 < length cs)%nat by (destruct cs; simpl; [done|lia]).
  split; cbn [chunks_ position_ end_ element_size_ num_elements_ heap allocations].
  - done.
  - apply Forall_take, R.
  - rewrite length_take. lia.
  - pose proof (rep_nodup _ _ _ R) as ND. rewrite Ec in ND. by apply NoDup_app in ND as (? & _).
  - intros c Hc. by apply (rep_fresh _ _ _ R), Hin.
  - intros c Hc. rewrite Hh by done. by apply R, Hin.
  - rewrite bool_decide_false by done. exists b, k. split_and!; try done. rewrite length_take. lia.
  - intros i e E. apply lookup_take_Some in E as [E Hi]. destruct (rep_data _ _ _ R i e E) as (c & m & Hc & Hm & S).
    exists c, m. assert (i / 256 < length cs)%nat by (apply Nat.Div0.div_lt_upper_bound; lia).
    rewrite Ec, lookup_app_l in Hc by done. split_and!; [done| |done]. rewrite Hh; [done|by eapply list_elem_of_lookup_2].
Qed.

Lemma pop_back_represents es v l : represents es v l -> l <> [] ->
  exists v', pop_back v = Some v' /\ represents es v' (removelast l).
Proof.
  intros R N. destruct (rep_es _ _ _ R) as [Es Pos].
  assert (Nc : chunks_ v <> []).
  { intros D. pose proof (rep_shape _ _ _ R) as Sh. rewrite bool_decide_true in Sh by done. by destruct Sh. }
  destruct (last_chunk _ _ _ R Nc) as (b & k & Hb & Hk & Hp & He & Hl). pose proof (rep_size _ _ _ R) as Sz.
  assert (RL : removelast l = take (length l - 1) l) by (rewrite removelast_firstn_len; f_equal; lia).
  assert (0 < length l)%nat by (destruct l; [done|simpl; lia]). rewrite RL.
  unfold pop_back. rewrite Hb. cbn [mbind option_bind]. destruct k as [|k].
  - rewrite bool_decide_true by done. unfold erase_chunk_at_back. rewrite Hb. cbn [mbind option_bind].
    cbn [chunks_ set_chunks deallocate_chunk set_heap].
    set (cs := take (length (chunks_ v) - 1) (chunks_ v)).
    assert (Lc : length cs = (length (chunks_ v) - 1)%nat) by (unfold cs; rewrite length_take; lia).
    destruct (last cs) as [b'|] eqn:Hb'; [|apply last_None in Hb'; rewrite Hb' in Lc; simpl in Lc; lia].
    cbn [mbind option_bind position_ set_position fst snd]. eexists. split; [reflexivity|].
    unfold set_size, set_position, set_chunks, deallocate_chunk, set_heap, element_size.
    cbn [chunks_ position_ end_ element_size_ num_elements_ heap allocations].
    rewrite Sz, Es, cs_nat. replace (Z.of_nat (256 * es) - Z.of_nat es) with (Z.of_nat (255 * es)) by lia.
    replace (Z.of_nat (length l) - 1) with (Z.of_nat (length l - 1)) by lia. rewrite <- Es.
    assert (0 < length cs)%nat by (destruct cs; simpl; [done|lia]).
    apply (shrink_represents es v l cs b'); [done|unfold cs; apply prefix_take|done|lia|lia|lia|].
    intros c Hc. apply lookup_delete_ne. intros <-. pose proof (rep_nodup _ _ _ R) as ND.
    apply last_Some in Hb as [cs' Ecs]. unfold cs in Hc. rewrite Ecs in ND, Hc. rewrite length_app in Hc. simpl in Hc.
    rewrite take_app_length' in Hc by lia. apply NoDup_app in ND as (_ & D & _). apply (D b Hc). by apply list_elem_of_singleton.
  - rewrite bool_decide_false by (rewrite Hp; intros D; injection D as D; lia). cbn [mbind option_bind]. rewrite ?Hp. cbn [mbind option_bind fst snd].
    eexists. split; [reflexivity|]. unfold set_size, set_position, element_size.
    cbn [chunks_ position_ end_ element_size_ num_elements_ heap allocations]. rewrite Sz, He, Es.
    replace (Z.of_nat (S k * es) - Z.of_nat es) with (Z.of_nat (k * es)) by lia.
    replace (Z.of_nat (length l) - 1) with (Z.of_nat (length l - 1)) by lia. rewrite <- Es.
    by apply (shrink_represents es v l (chunks_ v) b); try done; lia.
Qed.

Lemma clear_represents es v l : represents es v l -> represents es (clear v) [].
Proof.
  intros R. destruct (rep_es _ _ _ R) as [Es Pos]. unfold clear, deallocate_all_chunks. rewrite foldl_deallocate.
  split; cbn [chunks_ position_ end_ element_size_ num_elements_ heap allocations set_size set_position set_chunks set_heap]; try done.
  - constructor.
  - intros c Hc. by apply elem_of_nil in Hc.
  - intros c Hc. by apply elem_of_nil in Hc.
Qed.

Lemma shrink_to_represents es v l n : represents es v l -> (n <= length l)%nat ->
  exists v', resize (Z.of_nat n) v = Some v' /\ represents es v' (take n l).
Proof.
  intros R Hn. destruct (rep_es _ _ _ R) as [Es Pos]. pose proof (rep_size _ _ _ R) as Sz.
  unfold resize, size. rewrite Sz, Z.gtb_ltb. rewrite (proj2 (Z.ltb_ge _ _)) by lia.
  destruct (Z.ltb_spec (Z.of_nat n) (Z.of_nat (length l))) as [L|L]; [|exists v; split; [done|by rewrite take_ge by lia]].
  assert (Nc : chunks_ v <> []).
  { intros D. pose proof (rep_shape _ _ _ R) as Sh. rewrite bool_decide_true in Sh by done. destruct Sh as (-> & _). simpl in L. lia. }
  destruct (last_chunk _ _ _ R Nc) as (b & k & Hb & Hk & Hp & He & Hl).
  unfold erase_many. rewrite foldl_deallocate, chunk_index_nat, chunk_position_nat.
  replace (Z.to_nat (Z.of_nat (n / 256) + 1)) with (S (n / 256)) by lia.
  cbn [chunks_ set_chunks set_heap].
  pose proof (Nat.div_mod_eq n 256). pose proof (Nat.mod_upper_bound n 256 ltac:(lia)).
  assert (n / 256 < length (chunks_ v))%nat by (assert (0 < length (chunks_ v))%nat by (destruct (chunks_ v); [done|simpl; lia]); nia).
  set (cs := take (S (n / 256)) (chunks_ v)).
  assert (Lc : length cs = S (n / 256)) by (unfold cs; rewrite length_take; lia).
  destruct (last cs) as [b'|] eqn:Hb'; [|apply last_None in Hb'; rewrite Hb' in Lc; done].
  cbn [mbind option_bind]. eexists. split; [reflexivity|].
  unfold set_size, set_position, set_chunks, set_heap, element_size. cbn [chunks_ position_ end_ element_size_ num_elements_ heap allocations].
  fold cs. rewrite Es, cs_nat. replace (Z.of_nat es * Z.of_nat (n mod 256)) with (Z.of_nat (n mod 256 * es)) by lia. rewrite <- Es.
  apply (shrink_represents es v l cs b'); [done|apply prefix_take|done|lia|lia|lia|].
  intros c Hc. apply foldl_delete_lookup. intros Hd. pose proof (rep_nodup _ _ _ R) as ND.
  rewrite <- (take_drop (S (n / 256)) (chunks_ v)) in ND. apply NoDup_app in ND as (_ & D & _). by apply (D c).
Qed.

Lemma element_end es v l i : represents es v l -> (i < length l)%nat -> element (Z.of_nat i) v = l !! i.
Proof.
  intros R Hi. destruct (lookup_lt_is_Some_2 l i Hi) as [e E]. rewrite E.
  destruct (represents_index es v l i e R E) as (c & _ & _ & El). exact El.
Qed.

(** * Operations on a vector and on a list *)

Inductive operation := Push (e : list Z) | Pop | Clear | Shrink (n : nat).

Definition on_vector (o : operation) (v : ChunkedVector) : option ChunkedVector :=
  match o with
  | Push e => push_back e v
  | Pop => pop_back v
  | Clear => Some (clear v)
  | Shrink n => resize (Z.of_nat n) v
  end.
Definition on_list (es : nat) (o : operation) (l : list (list Z)) : option (list (list Z)) :=
  match o with
  | Push e => guard (length e = es);; Some (l ++ [e])
  | Pop => guard (l <> []);; Some (removelast l)
  | Clear => Some []
  | Shrink n => guard (n <= length l)%nat;; Some (take n l)
  end.
Definition run_on {S} (step : operation -> S -> option S) (os : list operation) (s : S) : option S :=
  foldl (fun s o => s ≫= step o) (Some s) os.

Lemma run_on_cons {S} (step : operation -> S -> option S) o os s : run_on step (o :: os) s = (step o s ≫= run_on step os).
Proof.
  unfold run_on. simpl. destruct (step o s); [done|]. simpl. induction os; [done|]. by simpl.
Qed.

Lemma operation_represents es v l o l' : represents es v l -> on_list es o l = Some l' ->
  exists v', on_vector o v = Some v' /\ represents es v' l'.
Proof.
  intros R E. destruct o as [e| | |n]; simpl in E |- *; try case_guard; simpl in E; try done; injection E as <-.
  - by apply push_back_represents.
  - by apply pop_back_represents.
  - eexists. split; [done|]. by apply (clear_represents es v l).
  - by apply shrink_to_represents.
Qed.

Lemma run_represents es os v l l' : represents es v l -> run_on (on_list es) os l = Some l' ->
  exists v', run_on on_vector os v = Some v' /\ represents es v' l'.
Proof.
  revert v l. induction os as [|o os IH]; intros v l R E; [injection E as <-; by exists v|].
  rewrite run_on_cons in E. destruct (on_list es o l) as [l1|] eqn:E1; [|done].
  destruct (operation_represents _ _ _ _ _ R E1) as (v1 & V1 & R1). rewrite run_on_cons, V1. by apply (IH v1 l1).
Qed.

(** * Iterators *)

(** An iterator at the element [i]. *)
Definition iter_at (i : nat) (v : ChunkedVector) : option iterator :=
  c ← chunks_ v !! (i / 256)%nat;
  Some (mkIterator (c, Z.of_nat (i mod 256) * element_size_ v) (c, 0) (c, chunk_alloc_size (element_size_ v))
          (Z.of_nat (i / 256)) (chunks_ v) (element_size_ v)).

(** What a loop from one iterator to another reads: [for (; it != stop; ++it)]. *)
Fixpoint loop (fuel : nat) (v : ChunkedVector) (it stop : iterator) : option (list (list Z)) :=
  if it_eq it stop then Some [] else
  match fuel with
  | O => None
  | S fuel' => e ← get (curr_ it) (element_size v) (heap v); it ← it_next it; rest ← loop fuel' v it stop; Some (e :: rest)
  end.
Definition for_each (v : ChunkedVector) : option (list (list Z)) :=
  match begin v, end_iterator v with
  | Some it, Some stop => loop (Z.to_nat (size v)) v it stop
  | None, None => Some []
  | _, _ => None
  end.

Lemma set_chunk_at i v it c : chunks_ v !! i = Some c -> chunk_list it = chunks_ v -> it_element_size_ it = element_size_ v ->
  set_chunk (Z.of_nat i) it =
  Some (mkIterator (curr_ it) (c, 0) (c, chunk_alloc_size (element_size_ v)) (Z.of_nat i) (chunks_ v) (element_size_ v)).
Proof.
  intros Hc Hl Hs. unfold set_chunk. rewrite (proj2 (Z.ltb_ge _ _)), Nat2Z.id, Hl, Hc, Hs by lia. done.
Qed.

Lemma iter_at_element es v l i e : represents es v l -> l !! i = Some e ->
  exists it, iter_at i v = Some it /\ Some (curr_ it) = index (Z.of_nat i) v /\ get (curr_ it) (element_size v) (heap v) = Some e.
Proof.
  intros R E. destruct (represents_index es v l i e R E) as (c & I & Hc & El). unfold iter_at. rewrite Hc. cbn [mbind option_bind].
  eexists. split; [reflexivity|]. cbn [curr_]. destruct (rep_es _ _ _ R) as [Es Pos].
  unfold element in El. rewrite I in El |- *. cbn [mbind option_bind] in El. rewrite Es.
  replace (Z.of_nat (i mod 256) * Z.of_nat es) with (Z.of_nat (i mod 256 * es)) by lia. done.
Qed.

(** The chunk [operator+=] goes to is the one of the element, whichever of its cases says so. *)
Lemma chunk_offset_spec cs byte_offset offset : 0 < cs -> (offset < 0 -> byte_offset < 0 \/ byte_offset < cs) ->
  (0 <= offset -> 0 <= byte_offset) ->
  (if (byte_offset <? cs) && (byte_offset >=? 0) then 0
    else if (byte_offset >=? cs) && (byte_offset <? 2 * cs) then 1
    else if (byte_offset <? 0) && (byte_offset >? - cs) then -1
    else Z.quot (byte_offset - (if offset <? 0 then 1 else 0) * (cs - 1)) cs) = byte_offset / cs.
Proof.
  intros P Hn Hp. rewrite !Z.geb_leb, !Z.gtb_ltb.
  destruct (Z.ltb_spec byte_offset cs), (Z.leb_spec 0 byte_offset); cbn [andb].
  - symmetry. apply Z.div_small. lia.
  - rewrite (proj2 (Z.leb_gt cs byte_offset)) by lia. cbn [andb]. rewrite (proj2 (Z.ltb_lt byte_offset 0)) by lia. cbn [andb].
    destruct (Z.ltb_spec (- cs) byte_offset).
    + apply (Z.div_unique _ _ _ (byte_offset + cs)); lia.
    + destruct (Z.ltb_spec offset 0); [|lia].
      pose proof (Z.div_mod byte_offset cs ltac:(lia)). pose proof (Z.mod_pos_bound byte_offset cs P).
      rewrite <- (Z.opp_involutive (byte_offset - 1 * (cs - 1))), Z.quot_opp_l, Z.quot_div_nonneg by lia.
      assert (- (byte_offset - 1 * (cs - 1)) / cs = - (byte_offset / cs)); [|lia].
      symmetry. apply (Z.div_unique _ _ _ (cs - 1 - byte_offset mod cs)); lia.
  - rewrite (proj2 (Z.leb_le cs byte_offset)) by lia. cbn [andb]. destruct (Z.ltb_spec byte_offset (2 * cs)).
    + apply (Z.div_unique _ _ _ (byte_offset - cs)); lia.
    + rewrite (proj2 (Z.ltb_ge byte_offset 0)) by lia. cbn [andb]. destruct (Z.ltb_spec offset 0); [lia|].
      rewrite Z.mul_0_l, Z.sub_0_r. apply Z.quot_div_nonneg; lia.
  - lia.
Qed.

Lemma it_add_at es v l i j it : represents es v l -> (i < length l)%nat -> (j < length l)%nat -> iter_at i v = Some it ->
  it_add (Z.of_nat j - Z.of_nat i) it = iter_at j v.
Proof.
  intros R Hi Hj E. destruct (rep_es _ _ _ R) as [Es Pos].
  destruct (lookup_lt_is_Some_2 l j Hj) as [e Hel]. destruct (rep_data _ _ _ R j e Hel) as (c & _ & Hc & _).
  pose proof (Nat.div_mod_eq i 256) as Di. pose proof (Nat.mod_upper_bound i 256 ltac:(lia)) as Mi.
  pose proof (Nat.div_mod_eq j 256) as Dj. pose proof (Nat.mod_upper_bound j 256 ltac:(lia)) as Mj.
  unfold iter_at in E |- *. rewrite Hc. revert E Hc Di Mi Dj Mj.
  generalize (i / 256)%nat (i mod 256)%nat (j / 256)%nat (j mod 256)%nat. intros qi ri qj rj E Hc Di Mi Dj Mj.
  destruct (chunks_ v !! qi) as [ci|]; [|done]. injection E as <-.
  unfold it_add, offset_to. cbn [it_element_size_ curr_ first_ fst snd chunk_iter_]. rewrite bool_decide_true by done.
  cbn [mbind option_bind]. rewrite Es, cs_nat.
  set (o := Z.of_nat j - Z.of_nat i). set (b := o * Z.of_nat es + (Z.of_nat ri * Z.of_nat es - 0)).
  assert (Hb : b = (Z.of_nat qj - Z.of_nat qi) * Z.of_nat (256 * es) + Z.of_nat (rj * es)) by (unfold b, o; nia).
  assert (Hq : b / Z.of_nat (256 * es) = Z.of_nat qj - Z.of_nat qi).
  { symmetry. apply (Z.div_unique _ _ _ (Z.of_nat (rj * es))); [left; nia|lia]. }
  rewrite chunk_offset_spec; [|lia| |].
  - rewrite Hq. replace (Z.of_nat qi + (Z.of_nat qj - Z.of_nat qi)) with (Z.of_nat qj) by lia.
    rewrite (set_chunk_at _ v _ c) by done. cbn [mbind option_bind].
    unfold set_curr. cbn [curr_ first_ last_ chunk_iter_ chunk_list it_element_size_ fst snd]. rewrite Es, cs_nat.
    do 3 f_equal. rewrite Hb. lia.
  - intros Ho. unfold o in Ho. unfold b, o. nia.
  - intros Ho. unfold o in Ho. unfold b, o. nia.
Qed.

(** Element [i + 1] is the next one of the chunk, or the first one of the next chunk. *)
Lemma next_slot i : ((S i / 256 = i / 256)%nat /\ (S i mod 256 = S (i mod 256))%nat /\ (S (i mod 256) < 256)%nat) \/
  ((S i / 256 = S (i / 256))%nat /\ (S i mod 256 = 0)%nat /\ (i mod 256 = 255)%nat).
Proof.
  pose proof (Nat.div_mod_eq i 256) as Di. pose proof (Nat.mod_upper_bound i 256 ltac:(lia)) as Mi.
  pose proof (Nat.div_mod_eq (S i) 256) as Dj. pose proof (Nat.mod_upper_bound (S i) 256 ltac:(lia)) as Mj. lia.
Qed.

Lemma iter_at_eq i v it : iter_at i v = Some it ->
  exists c, chunks_ v !! (i / 256)%nat = Some c /\
    it = mkIterator (c, Z.of_nat (i mod 256) * element_size_ v) (c, 0) (c, chunk_alloc_size (element_size_ v))
           (Z.of_nat (i / 256)) (chunks_ v) (element_size_ v).
Proof. unfold iter_at. intros E. destruct (chunks_ v !! _) as [c|]; [|done]. exists c. split; [done|]. by apply Some_inj in E. Qed.
Lemma iter_at_intro i v c : chunks_ v !! (i / 256)%nat = Some c ->
  iter_at i v = Some (mkIterator (c, Z.of_nat (i mod 256) * element_size_ v) (c, 0) (c, chunk_alloc_size (element_size_ v))
                       (Z.of_nat (i / 256)) (chunks_ v) (element_size_ v)).
Proof. unfold iter_at. by intros ->. Qed.

Lemma element_chunk es v l i : represents es v l -> (i < length l)%nat ->
  exists c, chunks_ v !! (i / 256)%nat = Some c.
Proof.
  intros R Hi. destruct (lookup_lt_is_Some_2 l i Hi) as [e E]. destruct (rep_data _ _ _ R i e E) as (c & _ & Hc & _). by exists c.
Qed.

Lemma it_next_at es v l i it : represents es v l -> (S i < length l)%nat -> iter_at i v = Some it -> it_next it = iter_at (S i) v.
Proof.
  intros R Hi E. destruct (rep_es _ _ _ R) as [Es Pos]. destruct (element_chunk _ _ _ _ R Hi) as [c' Hc'].
  apply iter_at_eq in E as (c & Hc & ->). rewrite (iter_at_intro _ _ _ Hc').
  revert Hc Hc'. destruct (next_slot i) as [(-> & -> & L)|(-> & -> & ->)].
  - generalize (i / 256)%nat. revert L. generalize (i mod 256)%nat. intros r L q Hc Hc'. rewrite Hc in Hc'. injection Hc' as <-.
    unfold it_next. cbn [set_curr curr_ last_ it_element_size_ fst snd]. rewrite Es, cs_nat.
    rewrite bool_decide_false by (intros D; injection D as D; nia). cbn [andb]. unfold set_curr. cbn [first_ last_ chunk_iter_ chunk_list it_element_size_].
    do 3 f_equal. lia.
  - generalize (i / 256)%nat. intros q Hc Hc'. unfold it_next. cbn [set_curr curr_ last_ it_element_size_ chunk_iter_ chunk_list fst snd].
    rewrite Es, cs_nat. rewrite bool_decide_true by (f_equal; lia). pose proof (lookup_lt_Some _ _ _ Hc').
    rewrite (proj2 (Z.eqb_neq _ _)) by lia. cbn [negb andb].
    replace (Z.of_nat q + 1) with (Z.of_nat (S q)) by lia. rewrite (set_chunk_at _ v _ c') by done.
    cbn [mbind option_bind]. unfold set_curr. cbn [curr_ first_ last_ chunk_iter_ chunk_list it_element_size_]. by rewrite Es, cs_nat.
Qed.

(** Behind the last element is the position, whether there is an empty chunk behind it or none. *)
Lemma it_next_end es v l i it : represents es v l -> length l = S i -> iter_at i v = Some it ->
  exists it' p, it_next it = Some it' /\ position_ v = Some p /\ curr_ it' = p.
Proof.
  intros R Hl E. destruct (rep_es _ _ _ R) as [Es Pos]. apply iter_at_eq in E as (c & Hc & ->).
  assert (N : chunks_ v <> []) by (by destruct (chunks_ v)).
  destruct (last_chunk _ _ _ R N) as (b & k & Hb & Hk & Hp & He & HL). rewrite last_lookup in Hb.
  pose proof (lookup_lt_Some _ _ _ Hc) as Lq. pose proof (Nat.div_mod_eq i 256) as Di. pose proof (Nat.mod_upper_bound i 256 ltac:(lia)) as Mi.
  revert Hc Lq Di Mi. generalize (i / 256)%nat (i mod 256)%nat. intros q r Hc Lq Di Mi.
  unfold it_next. cbn [set_curr curr_ last_ it_element_size_ chunk_iter_ chunk_list fst snd]. rewrite Es, cs_nat, Hp.
  case_bool_decide as D.
  - injection D as D. assert (r = 255)%nat by nia. subst r. cbn [andb].
    destruct (decide (S q = length (chunks_ v))) as [Q|Q].
    + rewrite (proj2 (Z.eqb_eq _ _)) by lia. cbn [negb]. do 2 eexists. split_and!; [reflexivity|reflexivity|].
      cbn [curr_]. assert (k = 256)%nat by nia. subst k. rewrite <- Q in Hb. simpl pred in Hb. apply pair_eq; split; [congruence|lia].
    + rewrite (proj2 (Z.eqb_neq _ _)) by lia. cbn [negb]. assert (k = 0 /\ S (S q) = length (chunks_ v))%nat as [-> Q2] by nia.
      rewrite <- Q2 in Hb. simpl pred in Hb.
      replace (Z.of_nat q + 1) with (Z.of_nat (S q)) by lia. rewrite (set_chunk_at _ v _ b) by done. cbn [mbind option_bind].
      do 2 eexists. split_and!; [reflexivity|reflexivity|]. done.
  - cbn [andb]. do 2 eexists. split_and!; [reflexivity|reflexivity|]. cbn [curr_].
    assert (r <> 255)%nat by (intros ->; apply D; f_equal; lia).
    assert (S q = length (chunks_ v) /\ k = S r)%nat as [Q ->] by nia. rewrite <- Q in Hb. simpl pred in Hb. apply pair_eq; split; [congruence|lia].
Qed.

Lemma it_prev_at es v l i it : represents es v l -> (S i < length l)%nat -> iter_at (S i) v = Some it -> it_prev it = iter_at i v.
Proof.
  intros R Hi E. destruct (rep_es _ _ _ R) as [Es Pos]. destruct (element_chunk es v l i R ltac:(lia)) as [c' Hc'].
  apply iter_at_eq in E as (c & Hc & ->). rewrite (iter_at_intro _ _ _ Hc').
  revert Hc Hc'. destruct (next_slot i) as [(-> & -> & L)|(-> & -> & ->)].
  - generalize (i / 256)%nat. revert L. generalize (i mod 256)%nat. intros r L q Hc Hc'. rewrite Hc in Hc'. injection Hc' as <-.
    unfold it_prev. cbn [curr_ first_ it_element_size_]. rewrite Es, cs_nat.
    rewrite bool_decide_false by (intros D; injection D as D; nia). cbn [andb mbind option_bind]. unfold set_curr.
    cbn [curr_ first_ last_ chunk_iter_ chunk_list it_element_size_ fst snd]. do 3 f_equal. lia.
  - generalize (i / 256)%nat. intros q Hc Hc'. unfold it_prev. cbn [curr_ first_ it_element_size_ chunk_iter_ chunk_list].
    rewrite Es, cs_nat. rewrite bool_decide_true by (f_equal; lia). rewrite (proj2 (Z.eqb_neq _ _)) by lia. cbn [negb andb].
    replace (Z.of_nat (S q) - 1) with (Z.of_nat q) by lia. rewrite (set_chunk_at _ v _ c') by done.
    cbn [mbind option_bind]. unfold set_curr. cbn [curr_ first_ last_ chunk_iter_ chunk_list it_element_size_ fst snd].
    rewrite Es, cs_nat. do 3 f_equal. lia.
Qed.

Lemma it_distance_at es v l i j it jt : represents es v l -> iter_at i v = Some it -> iter_at j v = Some jt ->
  it_distance it jt = Some (Z.of_nat i - Z.of_nat j).
Proof.
  intros R Ei Ej. destruct (rep_es _ _ _ R) as [Es Pos].
  apply iter_at_eq in Ei as (c & Hc & ->). apply iter_at_eq in Ej as (d & Hd & ->).
  pose proof (Nat.div_mod_eq i 256) as Di. pose proof (Nat.div_mod_eq j 256) as Dj. revert Hc Hd Di Dj.
  generalize (i / 256)%nat (i mod 256)%nat (j / 256)%nat (j mod 256)%nat. intros qi ri qj rj Hc Hd -> ->.
  unfold it_distance, offset_to. cbn [curr_ chunk_iter_ chunk_list it_element_size_]. rewrite !Nat2Z.id, Hc, Hd.
  cbn [mbind option_bind fst snd]. rewrite !bool_decide_true by done. cbn [mbind option_bind]. rewrite Es, cs_nat. f_equal.
  rewrite <- (Z.quot_mul (Z.of_nat (256 * qi + ri) - Z.of_nat (256 * qj + rj)) (Z.of_nat es)) by lia. f_equal. lia.
Qed.

Lemma it_lt_at es v l i j it jt : represents es v l -> iter_at i v = Some it -> iter_at j v = Some jt ->
  it_lt it jt = Some (bool_decide (i < j)%nat).
Proof.
  intros R Ei Ej. destruct (rep_es _ _ _ R) as [Es Pos].
  apply iter_at_eq in Ei as (c & Hc & ->). apply iter_at_eq in Ej as (d & Hd & ->).
  pose proof (Nat.div_mod_eq i 256) as Di. pose proof (Nat.div_mod_eq j 256) as Dj.
  pose proof (Nat.mod_upper_bound i 256 ltac:(lia)) as Mi. pose proof (Nat.mod_upper_bound j 256 ltac:(lia)) as Mj. revert Hc Hd Di Dj Mi Mj.
  generalize (i / 256)%nat (i mod 256)%nat (j / 256)%nat (j mod 256)%nat. intros qi ri qj rj Hc Hd -> -> Mi Mj.
  unfold it_lt, offset_to. cbn [curr_ chunk_iter_].
  destruct (Z.eqb_spec (Z.of_nat qi) (Z.of_nat qj)) as [Q|Q]; cbn [negb].
  - apply Nat2Z.inj in Q as ->. rewrite Hc in Hd. injection Hd as <-. cbn [fst snd]. rewrite bool_decide_true by done. cbn [mbind option_bind].
    rewrite Es. f_equal. case_bool_decide; [apply Z.ltb_lt|apply Z.ltb_ge]; nia.
  - f_equal. case_bool_decide; [apply Z.ltb_lt|apply Z.ltb_ge]; lia.
Qed.

Lemma it_not_at_end es v l i it p : represents es v l -> (i < length l)%nat -> iter_at i v = Some it -> position_ v = Some p -> curr_ it <> p.
Proof.
  intros R Hi E Ep <-. destruct (rep_es _ _ _ R) as [Es Pos]. apply iter_at_eq in E as (c & Hc & Eq).
  assert (N : chunks_ v <> []) by (by destruct (chunks_ v)).
  destruct (last_chunk _ _ _ R N) as (b & k & Hb & Hk & Hp & He & HL). rewrite last_lookup in Hb. rewrite Eq in Ep. cbn [curr_] in Ep.
  rewrite Hp in Ep. pose proof (Nat.div_mod_eq i 256) as Di. revert Hc Di Ep. generalize (i / 256)%nat (i mod 256)%nat. intros q r Hc Di Ep.
  injection Ep as -> Ek. rewrite Es in Ek. assert (k = r) as -> by nia.
  assert (q = pred (length (chunks_ v))) by (eapply NoDup_lookup; [apply R|exact Hc|exact Hb]). lia.
Qed.

Lemma loop_reads es v l stop p : represents es v l -> position_ v = Some p -> curr_ stop = p ->
  forall n i it, (i < length l)%nat -> n = (length l - i)%nat -> iter_at i v = Some it -> loop n v it stop = Some (drop i l).
Proof.
  intros R Hp Hs. induction n as [|n IH]; intros i it Hi Hn E; [lia|].
  destruct (lookup_lt_is_Some_2 l i Hi) as [e El]. destruct (iter_at_element _ _ _ _ _ R El) as (it' & E' & _ & G).
  rewrite E in E'. injection E' as <-. cbn [loop]. unfold it_eq. rewrite bool_decide_false
    by (rewrite Hs; by apply (it_not_at_end es v l i)). rewrite G. cbn [mbind option_bind].
  rewrite (drop_S l e i El). destruct (decide (S i < length l)%nat) as [L|L].
  - rewrite (it_next_at es v l i it R L E). destruct (element_chunk _ _ _ _ R L) as [c Hc]. rewrite (iter_at_intro _ _ _ Hc).
    cbn [mbind option_bind]. rewrite (IH (S i)); [done|lia|lia|]. by apply iter_at_intro.
  - destruct (it_next_end es v l i it R ltac:(lia) E) as (it' & p' & -> & Hp' & Hc). cbn [mbind option_bind].
    rewrite Hp in Hp'. injection Hp' as <-. assert (Q : it_eq it' stop = true) by (unfold it_eq; rewrite Hs; by apply bool_decide_true).
    rewrite (drop_ge l (S i)) by lia. destruct n; cbn [loop]; by rewrite Q.
Qed.

Lemma iterators_at_ends es v l : represents es v l -> l <> [] ->
  (exists it, begin v = Some it /\ iter_at 0 v = Some it) /\
  (exists it p, end_iterator v = Some it /\ position_ v = Some p /\ curr_ it = p).
Proof.
  intros R N. assert (0 < length l)%nat as Hl by (destruct l; simpl; [done|lia]).
  destruct (element_chunk _ _ _ _ R Hl) as [c Hc]. assert (Nc : chunks_ v <> []) by (by destruct (chunks_ v)).
  destruct (last_chunk _ _ _ R Nc) as (b & k & Hb & Hk & Hp & He & HL). rewrite last_lookup in Hb.
  assert (Em : empty v = false) by (unfold empty, size; rewrite (rep_size _ _ _ R); apply Z.eqb_neq; lia).
  split.
  - rewrite (iter_at_intro _ _ _ Hc). change (0 / 256)%nat with 0%nat in *. change (0 mod 256)%nat with 0%nat in *.
    unfold begin, front, make_iterator. rewrite Em, Hc. cbn [mbind option_bind]. unfold element_size.
    rewrite (set_chunk_at 0 v _ c) by done. eexists. split; reflexivity.
  - unfold end_iterator, make_iterator. rewrite Em, Hp. cbn [mbind option_bind].
    replace (Z.of_nat (length (chunks_ v)) - 1) with (Z.of_nat (pred (length (chunks_ v)))) by (destruct (chunks_ v); [done|simpl; lia]).
    unfold element_size. rewrite (set_chunk_at _ v _ b) by done. do 2 eexists. split_and!; reflexivity.
Qed.

Lemma for_each_reads es v l : represents es v l -> for_each v = Some l.
Proof.
  intros R. unfold for_each. destruct (decide (l = [])) as [->|N].
  - unfold begin, end_iterator. assert (Em : empty v = true) by (unfold empty, size; by rewrite (rep_size _ _ _ R)). by rewrite Em.
  - destruct (iterators_at_ends _ _ _ R N) as [(it & -> & E) (stop & p & -> & Hp & Hc)].
    unfold size. rewrite (rep_size _ _ _ R), Nat2Z.id.
    apply (loop_reads es v l stop p R Hp Hc (length l) 0); [destruct l; simpl; [done|lia]|lia|done].
Qed.

(** C17: Whatever is pushed on a new vector, popped from it, cleared or cut off by a smaller [resize], the vector
    reads as the list it stands for: its size, its elements by index, the first and the last one.  Chunks are
    allocated and freed underneath; no operation leaves the memory of the vector's chunks. *)
Theorem chunked_vector_refines_list (es : nat) (os : list operation) (l : list (list Z)) :
  (0 < es)%nat -> run_on (on_list es) os [] = Some l ->
  exists v, run_on on_vector os (new_vector (Z.of_nat es)) = Some v /\
    size v = Z.of_nat (length l) /\ empty v = bool_decide (l = []) /\
    (forall i, (i < length l)%nat -> element (Z.of_nat i) v = l !! i) /\
    (l <> [] -> (p ← back v; get p (element_size v) (heap v)) = last l /\ (p ← front v; get p (element_size v) (heap v)) = head l).
Proof.
  intros Pos E. destruct (run_represents es os _ [] l (new_vector_represents es Pos) E) as (v & V & R).
  pose proof (rep_size _ _ _ R) as Sz. exists v. split_and!; [done|done| | |].
  - unfold empty, size. rewrite Sz. case_bool_decide as D; [by subst l|]. apply Z.eqb_neq. destruct l; [done|simpl; lia].
  - intros i Hi. by apply (element_end es).
  - intros N. assert (0 < length l)%nat by (destruct l; simpl; [done|lia]). split.
    + unfold back. fold (element (size v - 1) v). unfold size. rewrite Sz.
      replace (Z.of_nat (length l) - 1) with (Z.of_nat (pred (length l))) by lia. rewrite (element_end es v l) by (done || lia).
      by rewrite last_lookup.
    + pose proof (element_end es v l 0 R ltac:(lia)) as Z0. unfold element, index in Z0. change (Z.to_nat (chunk_index (Z.of_nat 0))) with 0%nat in Z0.
      unfold front. rewrite head_lookup, <- Z0. destruct (chunks_ v !! 0%nat); [|done]. cbn [mbind option_bind].
      change (chunk_position (Z.of_nat 0)) with 0. by rewrite Z.mul_0_r.
Qed.

(** C36: A loop over a vector from [begin] to [end] reads its elements in order and ends, whether the last chunk is
    full, partly full or empty.  The iterators of two elements are as far apart as the elements, one is
    reached from the other by adding that distance, they compare as the indexes do, and [++] and [--] go
    from one element to the next and back, also from chunk to chunk. *)
Theorem chunked_vector_iterators (es : nat) (os : list operation) (l : list (list Z)) :
  (0 < es)%nat -> run_on (on_list es) os [] = Some l ->
  exists v, run_on on_vector os (new_vector (Z.of_nat es)) = Some v /\ for_each v = Some l /\
    forall i j, (i < length l)%nat -> (j < length l)%nat -> exists it jt, iter_at i v = Some it /\ iter_at j v = Some jt /\
      Some (curr_ it) = index (Z.of_nat i) v /\
      it_add (Z.of_nat j - Z.of_nat i) it = Some jt /\ it_distance jt it = Some (Z.of_nat j - Z.of_nat i) /\
      it_lt it jt = Some (bool_decide (i < j)%nat) /\ (j = S i -> it_next it = Some jt /\ it_prev jt = Some it).
Proof.
  intros Pos E. destruct (run_represents es os _ [] l (new_vector_represents es Pos) E) as (v & V & R).
  exists v. split_and!; [done|by apply (for_each_reads es)|]. intros i j Hi Hj.
  destruct (lookup_lt_is_Some_2 l i Hi) as [e El]. destruct (iter_at_element _ _ _ _ _ R El) as (it & Ei & I & _).
  destruct (element_chunk _ _ _ _ R Hj) as [cj Hcj]. pose proof (iter_at_intro j v cj Hcj) as Ej.
  eexists it, _. split_and!; [exact Ei|exact Ej|exact I| | | |].
  - by rewrite (it_add_at es v l i j).
  - by apply (it_distance_at es v l).
  - by apply (it_lt_at es v l).
  - intros ->. rewrite (it_next_at es v l i), (it_prev_at es v l i) by done. done.
Qed.
End correct.

(** Memory that is zero when it is allocated. *)
Definition zeroed : Allocator := fun _ _ => 0.
#[local] Existing Instance zeroed.

(** Three elements of two bytes; one of them is popped. *)
Definition some_operations : list operation := [Push [1; 2]; Push [3; 4]; Push [5; 6]; Pop; Shrink 2].
Lemma chunked_vector_refines_list_witness : exists v, run_on on_vector some_operations (new_vector (Z.of_nat 2)) = Some v /\
  size v = 2 /\ empty v = false /\ (forall i, (i < 2)%nat -> element (Z.of_nat i) v = [[1; 2]; [3; 4]] !! i) /\
  ([[1; 2]; [3; 4]] <> [] -> (p ← back v; get p (element_size v) (heap v)) = Some [3; 4] /\
    (p ← front v; get p (element_size v) (heap v)) = Some [1; 2]).
Proof. apply (chunked_vector_refines_list 2 some_operations [[1; 2]; [3; 4]]); [lia|reflexivity]. Defined.
Lemma chunked_vector_iterators_witness : exists v, run_on on_vector some_operations (new_vector (Z.of_nat 2)) = Some v /\
  for_each v = Some [[1; 2]; [3; 4]] /\
  forall i j, (i < 2)%nat -> (j < 2)%nat -> exists it jt, iter_at i v = Some it /\ iter_at j v = Some jt /\
      Some (curr_ it) = index (Z.of_nat i) v /\
      it_add (Z.of_nat j - Z.of_nat i) it = Some jt /\ it_distance jt it = Some (Z.of_nat j - Z.of_nat i) /\
      it_lt it jt = Some (bool_decide (i < j)%nat) /\ (j = S i -> it_next it = Some jt /\ it_prev jt = Some it).
Proof. apply (chunked_vector_iterators 2 some_operations [[1; 2]; [3; 4]]); [lia|reflexivity]. Defined.
