(* ===== verification/HashTable.v ===== *)
(** The chaining hash table, [src/include/sql/chaining_hash_table.h] and [src/sql/chaining_hash_table.cpp], with
    concurrent insertions and its iterators.

    A pointer is the number its bits are; the entries that pointers lead to are a store.  What follows a null
    pointer, or reads outside of the directory, is [None].  The payload of an entry is left out.  A thread
    that inserts concurrently is a state machine: one step for each access to shared memory, taken in any order,
    as the sequentially consistent memory of the model has it. *)
From Stdlib Require Import SpecFloat.
From S2P Require Import Prelude BitUtil CTypes.

Local Open Scope list_scope.
Local Open Scope Z_scope.

Definition kNumTagBits : Z := 16.
Definition kNumPointerBits : Z := 8 * 8 - kNumTagBits.
Definition kMaskPointer : Z := Z.shiftr (wrapu 64 (Z.lnot 0)) kNumTagBits.
Definition kMaskTag : Z := wrapu 64 (Z.shiftl (wrapu 64 (Z.lnot 0)) kNumPointerBits).
Definition kMinTableSize : Z := 8.
Definition kDefaultVectorSize : nat := 2048.
Definition nullptr : Z := 0.

Record HashTableEntry := mkEntry { next : Z; hash : Z }.
Abbreviation store := (gmap Z HashTableEntry).

(** [UseTags] is the template's parameter; it does not change. *)
Record ChainingHashTable := mkTable {
  entries_ : list Z;
  mask_ : Z;
  capacity_ : Z;
  load_factor_ : spec_float;
  num_elements_ : Z
}.

(** [llvm::PowerOf2Ceil]. *)
Class PowerOps := { powerOf2Ceil : Z -> Z }.
Class PowerOpsSpec `{PowerOps} := {
  powerOf2Ceil_spec v : 0 < v <= 2 ^ 63 -> powerOf2Ceil v = 2 ^ Z.log2_up v
}.

Definition new_table (load_factor : spec_float) : ChainingHashTable := mkTable [] 0 0 load_factor 0.
Definition GetCapacity (t : ChainingHashTable) : Z := capacity_ t.
Definition GetElementCount (t : ChainingHashTable) : Z := num_elements_ t.
Definition IsEmpty (t : ChainingHashTable) : bool := GetElementCount t =? 0.
Definition GetTotalMemoryUsage (t : ChainingHashTable) : Z := wrapu 64 (8 * GetCapacity t).

(** The directory is mapped anew and is zero; the mapping is taken to succeed. *)
Definition SetSize `{PowerOps} (new_size : Z) (t : ChainingHashTable) : ChainingHashTable :=
  let new_size := Z.max new_size kMinTableSize in
  let next_size := powerOf2Ceil new_size in
  let next_size := if SFltb (float_of_Z float_t next_size) (SFdiv 24 128 (float_of_Z float_t new_size) (load_factor_ t))
                   then wrapu 64 (next_size * 2) else next_size in
  mkTable (replicate (Z.to_nat next_size) nullptr) (wrapu 64 (next_size - 1)) next_size (load_factor_ t) 0.

Definition BucketPosition (h : Z) (t : ChainingHashTable) : Z := Z.land h (mask_ t).
Definition UntagPointer (entry : Z) : Z := Z.land entry kMaskPointer.
Definition TagHash (h : Z) : Z := Z.shiftl 1 (Z.shiftr h (8 * 8 - 4) + kNumPointerBits).
Definition UpdateTag (tagged_old_entry untagged_new_entry : Z) (s : store) : option Z :=
  e ← s !! untagged_new_entry;
  Some (Z.lor (Z.lor (Z.land untagged_new_entry kMaskPointer) (Z.land tagged_old_entry kMaskTag)) (TagHash (hash e))).

Definition head_of (pos : Z) (t : ChainingHashTable) : option Z := entries_ t !! Z.to_nat pos.
Definition set_head (pos p : Z) (t : ChainingHashTable) : ChainingHashTable :=
  mkTable (<[Z.to_nat pos := p]> (entries_ t)) (mask_ t) (capacity_ t) (load_factor_ t) (num_elements_ t).
Definition set_next (entry p : Z) (s : store) : option store :=
  e ← s !! entry; Some (<[entry := mkEntry p (hash e)]> s).
Definition AddElementCount (v : Z) (t : ChainingHashTable) : ChainingHashTable :=
  mkTable (entries_ t) (mask_ t) (capacity_ t) (load_factor_ t) (wrapu 64 (num_elements_ t + v)).

(** Insertion without concurrency. *)
Definition InsertUntagged (entry h : Z) (t : ChainingHashTable) (s : store) : option (ChainingHashTable * store) :=
  let pos := BucketPosition h t in
  old ← head_of pos t; s ← set_next entry old s; Some (set_head pos entry t, s).
Definition InsertTagged (entry h : Z) (t : ChainingHashTable) (s : store) : option (ChainingHashTable * store) :=
  let pos := BucketPosition h t in
  old ← head_of pos t; s ← set_next entry (UntagPointer old) s; p ← UpdateTag old entry s; Some (set_head pos p t, s).

Definition FindChainHeadUntagged (h : Z) (t : ChainingHashTable) : option Z := head_of (BucketPosition h t) t.
Definition FindChainHeadTagged (h : Z) (t : ChainingHashTable) : option Z :=
  candidate ← FindChainHeadUntagged h t;
  Some (if negb (Z.land candidate (TagHash h) =? 0) then UntagPointer candidate else nullptr).

(** * Concurrent insertion

    A thread inserts the entries of a list.  In an insertion it has read the head of a bucket ([Read]), has
    linked its entry to what it read ([Linked], with the pointer it is going to put in place), and has
    put it in place ([Counting]). *)
Inductive thread :=
| Idle (todo : list Z)
| Read (entry old : Z) (todo : list Z)
| Linked (entry old new : Z) (todo : list Z)
| Counting (todo : list Z).

Abbreviation shared := (ChainingHashTable * store)%type.
Abbreviation config := (shared * list thread)%type.

Section tags.
Context (UseTags : bool).

Definition InsertEntry (entry h : Z) (t : ChainingHashTable) (s : store) : option (ChainingHashTable * store) :=
  if UseTags then InsertTagged entry h t s else InsertUntagged entry h t s.
Definition Insert (entry : Z) (t : ChainingHashTable) (s : store) : option (ChainingHashTable * store) :=
  e ← s !! entry; '(t, s) ← InsertEntry entry (hash e) t s; Some (AddElementCount 1 t, s).
Fixpoint InsertBatchInternal (entries : list Z) (t : ChainingHashTable) (s : store) : option (ChainingHashTable * store) :=
  match entries with
  | [] => Some (t, s)
  | entry :: entries' => e ← s !! entry; '(t, s) ← InsertEntry entry (hash e) t s; InsertBatchInternal entries' t s
  end.
(** Whether there is prefetching does not matter to the result. *)
Definition InsertBatch (entries : list Z) (t : ChainingHashTable) (s : store) : option (ChainingHashTable * store) :=
  '(t, s) ← InsertBatchInternal entries t s; Some (AddElementCount (Z.of_nat (length entries)) t, s).
Definition FindChainHead (h : Z) (t : ChainingHashTable) : option Z :=
  if UseTags then FindChainHeadTagged h t else FindChainHeadUntagged h t.
Definition untag (p : Z) : Z := if UseTags then UntagPointer p else p.

(** [JoinHashTable::Lookup]: the first entry with the hash, from an entry on. *)
Fixpoint skip_to (fuel : nat) (h entry : Z) (s : store) : option Z :=
  if entry =? nullptr then Some nullptr else
  match fuel with
  | O => None
  | S fuel' => e ← s !! entry; if hash e =? h then Some entry else skip_to fuel' h (next e) s
  end.
Definition Lookup (fuel : nat) (h : Z) (t : ChainingHashTable) (s : store) : option Z :=
  entry ← FindChainHead h t; skip_to fuel h entry s.
(** All entries that a chain has from an entry on. *)
Fixpoint follow (fuel : nat) (entry : Z) (s : store) : option (list Z) :=
  if entry =? nullptr then Some [] else
  match fuel with
  | O => None
  | S fuel' => e ← s !! entry; rest ← follow fuel' (next e) s; Some (entry :: rest)
  end.

(** [FlushEntries]: the entries in the order the sink is given them, and the empty table.  The link to the
    next entry is read before the sink has the entry. *)
Fixpoint flush_from (n : nat) (idx : nat) (fuel : nat) (t : ChainingHashTable) (s : store) : option (list Z * ChainingHashTable) :=
  match n with
  | O => Some ([], t)
  | S n' => entry ← entries_ t !! idx; es ← follow fuel (untag entry) s;
            '(rest, t) ← flush_from n' (S idx) fuel (set_head (Z.of_nat idx) nullptr t) s; Some (es ++ rest, t)
  end.
Definition FlushEntries (fuel : nat) (t : ChainingHashTable) (s : store) : option (list Z * ChainingHashTable) :=
  '(es, t) ← flush_from (Z.to_nat (capacity_ t)) 0 fuel t s;
  Some (es, mkTable (entries_ t) (mask_ t) (capacity_ t) (load_factor_ t) 0).

(** [GetChainLengthStats]: the lengths of the shortest and the longest chain, and the average of those that
    are not empty. *)
Fixpoint chain_stats (n : nat) (idx fuel : nat) (t : ChainingHashTable) (s : store) (mn mx total : Z) : option (Z * Z * Z) :=
  match n with
  | O => Some (mn, mx, total)
  | S n' => entry ← entries_ t !! idx; es ← follow fuel (untag entry) s;
            let length := Z.of_nat (length es) in
            chain_stats n' (S idx) fuel t s (Z.min mn length) (Z.max mx length) (if untag entry =? nullptr then total else total + 1)
  end.
Definition GetChainLengthStats (fuel : nat) (t : ChainingHashTable) (s : store) : option (Z * Z * spec_float) :=
  '(mn, mx, total) ← chain_stats (Z.to_nat (capacity_ t)) 0 fuel t s (2 ^ 64 - 1) 0 0;
  Some (mn, mx, if IsEmpty t then S754_zero false
                else SFdiv 24 128 (float_of_Z float_t (num_elements_ t)) (float_of_Z float_t total)).

(** * Iterators *)

(** [ChainingHashTableIterator]. *)
Record iterator := mkIterator { entries_index_ : nat; curr_entry_ : Z }.
Fixpoint next_bucket (dir : list Z) (it : iterator) : iterator :=
  match dir with
  | [] => it
  | p :: dir' => let it := mkIterator (S (entries_index_ it)) (untag p) in
                 if negb (curr_entry_ it =? nullptr) then it else next_bucket dir' it
  end.
Definition iterator_Next (t : ChainingHashTable) (s : store) (it : iterator) : option iterator :=
  it ← (if negb (curr_entry_ it =? nullptr) then e ← s !! curr_entry_ it; Some (mkIterator (entries_index_ it) (next e)) else Some it);
  if negb (curr_entry_ it =? nullptr) then Some it else Some (next_bucket (drop (entries_index_ it) (entries_ t)) it).
Definition new_iterator (t : ChainingHashTable) (s : store) : option iterator := iterator_Next t s (mkIterator 0 nullptr).
Definition HasNext (it : iterator) : bool := negb (curr_entry_ it =? nullptr).
Fixpoint iterate (fuel : nat) (t : ChainingHashTable) (s : store) (it : iterator) : option (list Z) :=
  if negb (HasNext it) then Some [] else
  match fuel with
  | O => None
  | S fuel' => it' ← iterator_Next t s it; rest ← iterate fuel' t s it'; Some (curr_entry_ it :: rest)
  end.

(** [ChainingHashTableVectorIterator]: the entry cache is an array of [kDefaultVectorSize] pointers. *)
Record vector_iterator := mkVectorIterator { table_dir_index_ : nat; entry_vec_ : list Z; entry_vec_end_idx_ : nat }.
Fixpoint follow_all (n i : nat) (vec : list Z) (s : store) : option (list Z) :=
  match n with
  | O => Some vec
  | S n' => p ← vec !! i; e ← s !! p; follow_all n' (S i) (<[i := next e]> vec) s
  end.
Fixpoint compact (n i index : nat) (vec : list Z) : option (nat * list Z) :=
  match n with
  | O => Some (index, vec)
  | S n' => p ← vec !! i; compact n' (S i) (if negb (p =? nullptr) then S index else index) (<[index := p]> vec)
  end.
Fixpoint fill (dir : list Z) (dir_index index : nat) (vec : list Z) : nat * nat * list Z :=
  match dir with
  | [] => (dir_index, index, vec)
  | p :: dir' =>
      if Nat.ltb index kDefaultVectorSize then
        let p := untag p in fill dir' (S dir_index) (if negb (p =? nullptr) then S index else index) (<[index := p]> vec)
      else (dir_index, index, vec)
  end.
Definition vector_Next (t : ChainingHashTable) (s : store) (it : vector_iterator) : option vector_iterator :=
  vec ← follow_all (entry_vec_end_idx_ it) 0 (entry_vec_ it) s;
  '(index, vec) ← compact (entry_vec_end_idx_ it) 0 0 vec;
  let '(dir_index, index, vec) := fill (drop (table_dir_index_ it) (entries_ t)) (table_dir_index_ it) index vec in
  Some (mkVectorIterator dir_index vec index).
Definition new_vector_iterator (t : ChainingHashTable) (s : store) : option vector_iterator :=
  vector_Next t s (mkVectorIterator 0 (replicate kDefaultVectorSize nullptr) 0).
Definition vector_HasNext (it : vector_iterator) : bool := Nat.ltb 0 (entry_vec_end_idx_ it).
Definition GetCurrentBatch (it : vector_iterator) : list Z := take (entry_vec_end_idx_ it) (entry_vec_ it).
Fixpoint batches (fuel : nat) (t : ChainingHashTable) (s : store) (it : vector_iterator) : option (list (list Z)) :=
  if negb (vector_HasNext it) then Some [] else
  match fuel with
  | O => None
  | S fuel' => it' ← vector_Next t s it; rest ← batches fuel' t s it'; Some (GetCurrentBatch it :: rest)
  end.

(** [spurious] marks a compare-and-exchange that fails though it need not; the weak form may. *)
Inductive thread_step : bool -> shared -> thread -> shared -> thread -> Prop :=
| step_load t s entry todo e old :
    s !! entry = Some e -> head_of (BucketPosition (hash e) t) t = Some old ->
    thread_step false (t, s) (Idle (entry :: todo)) (t, s) (Read entry old todo)
| step_link t s s' entry old new todo :
    set_next entry (untag old) s = Some s' -> (if UseTags then UpdateTag old entry s' else Some entry) = Some new ->
    thread_step false (t, s) (Read entry old todo) (t, s') (Linked entry old new todo)
| step_exchange t s entry old new todo e :
    s !! entry = Some e -> head_of (BucketPosition (hash e) t) t = Some old ->
    thread_step false (t, s) (Linked entry old new todo) (set_head (BucketPosition (hash e) t) new t, s) (Counting todo)
| step_retry t s entry old new cur todo e :
    s !! entry = Some e -> head_of (BucketPosition (hash e) t) t = Some cur -> cur <> old ->
    thread_step false (t, s) (Linked entry old new todo) (t, s) (Read entry cur todo)
| step_spurious t s entry old new todo e :
    s !! entry = Some e -> head_of (BucketPosition (hash e) t) t = Some old ->
    thread_step true (t, s) (Linked entry old new todo) (t, s) (Read entry old todo)
| step_count t s todo : thread_step false (t, s) (Counting todo) (AddElementCount 1 t, s) (Idle todo).

Inductive step (spurious : bool) : config -> config -> Prop :=
| step_thread σ ts σ' i th th' : ts !! i = Some th -> thread_step spurious σ th σ' th' ->
    step spurious (σ, ts) (σ', <[i := th']> ts).
Definition any_step (c c' : config) : Prop := exists b, step b c c'.
Definition finished (th : thread) : Prop := th = Idle [].

(** The step of a thread as a function, and a run by a schedule: which thread steps next. *)
Definition exec (σ : shared) (th : thread) : option (shared * thread) :=
  let '(t, s) := σ in
  match th with
  | Idle [] => None
  | Idle (x :: todo) => e ← s !! x; old ← head_of (BucketPosition (hash e) t) t; Some ((t, s), Read x old todo)
  | Read x old todo => s' ← set_next x (untag old) s; new ← (if UseTags then UpdateTag old x s' else Some x);
                       Some ((t, s'), Linked x old new todo)
  | Linked x old new todo => e ← s !! x; cur ← head_of (BucketPosition (hash e) t) t;
      Some (if decide (cur = old) then ((set_head (BucketPosition (hash e) t) new t, s), Counting todo) else ((t, s), Read x cur todo))
  | Counting todo => Some ((AddElementCount 1 t, s), Idle todo)
  end.
Fixpoint run (schedule : list nat) (c : config) : option config :=
  match schedule with
  | [] => Some c
  | i :: schedule' => th ← c.2 !! i; '(σ, th') ← exec c.1 th; run schedule' (σ, <[i := th']> (c.2))
  end.
End tags.

(** * Tags *)

Lemma kMaskPointer_ones : kMaskPointer = Z.ones 48.
Proof. reflexivity. Qed.
Lemma kMaskTag_shift : kMaskTag = Z.shiftl (Z.ones 16) 48.
Proof. reflexivity. Qed.

Definition pointer_ok (p : Z) : Prop := 0 < p < 2 ^ 48.
(** The bit of the directory's pointer that a hash sets. *)
Definition tag_bit (h : Z) : Z := Z.shiftr h 60 + 48.

Lemma tag_bit_range h : is_uint 64 h -> 48 <= tag_bit h < 64.
Proof.
  intros [H0 H1]. unfold tag_bit. rewrite Z.shiftr_div_pow2 by done.
  assert (h / 2 ^ 60 < 16) by (apply Z.div_lt_upper_bound; [done|]; by change (2 ^ 60 * 16) with (2 ^ 64)).
  pose proof (Z.div_pos h (2 ^ 60) H0 ltac:(done)). lia.
Qed.

Lemma TagHash_bit h : is_uint 64 h -> TagHash h = 2 ^ tag_bit h.
Proof. intros Hh. pose proof (tag_bit_range h Hh). unfold TagHash. rewrite Z.shiftl_1_l. reflexivity. Qed.

Lemma TagHash_land w h : is_uint 64 h -> (Z.land w (TagHash h) =? 0) = negb (Z.testbit w (tag_bit h)).
Proof.
  intros Hh. pose proof (tag_bit_range h Hh). rewrite TagHash_bit by done. destruct (Z.testbit w (tag_bit h)) eqn:B; cbn [negb].
  - apply Z.eqb_neq. intros E. apply (f_equal (fun z => Z.testbit z (tag_bit h))) in E.
    rewrite Z.land_spec, B, Z.pow2_bits_true, Z.testbit_0_l in E by lia. done.
  - apply Z.eqb_eq, Z.bits_inj'. intros j Hj. rewrite Z.land_spec, Z.testbit_0_l.
    destruct (decide (j = tag_bit h)) as [->|]; [by rewrite B|]. rewrite Z.pow2_bits_false by lia. apply andb_false_r.
Qed.

Lemma UntagPointer_bit p j : 0 <= j -> Z.testbit (UntagPointer p) j = Z.testbit p j && (j <? 48).
Proof.
  intros Hj. unfold UntagPointer. rewrite kMaskPointer_ones, Z.land_spec. f_equal. destruct (Z.ltb_spec j 48).
  - by apply Z.ones_spec_low.
  - by apply Z.ones_spec_high.
Qed.

Lemma UntagPointer_pointer p : 0 <= p < 2 ^ 48 -> UntagPointer p = p.
Proof. intros Hp. unfold UntagPointer. rewrite kMaskPointer_ones, Z.land_ones by done. by apply Z.mod_small. Qed.

Lemma kMaskTag_bit j : 0 <= j -> Z.testbit kMaskTag j = (48 <=? j) && (j <? 64).
Proof.
  intros Hj. rewrite kMaskTag_shift. destruct (Z.leb_spec 48 j); cbn [andb].
  - rewrite Z.shiftl_spec by done. destruct (Z.ltb_spec j 64); [apply Z.ones_spec_low; lia|apply Z.ones_spec_high; lia].
  - by rewrite Z.shiftl_spec_low.
Qed.

Lemma UpdateTag_bit old p s e j : s !! p = Some e -> pointer_ok p -> is_uint 64 (hash e) -> 0 <= j ->
  exists w, UpdateTag old p s = Some w /\
    Z.testbit w j = if j <? 48 then Z.testbit p j else (Z.testbit old j && (j <? 64)) || (j =? tag_bit (hash e)).
Proof.
  intros Hs Hp Hh Hj. pose proof (tag_bit_range _ Hh). unfold UpdateTag. rewrite Hs. cbn [mbind option_bind].
  eexists. split; [reflexivity|]. rewrite !Z.lor_spec, !Z.land_spec, kMaskTag_bit, TagHash_bit by done.
  change (Z.land p kMaskPointer) with (UntagPointer p).
  rewrite kMaskPointer_ones, Z.pow2_bits_eqb by lia.
  rewrite (Z.eqb_sym (tag_bit _)). destruct (Z.ltb_spec j 48).
  - rewrite Z.ones_spec_low, (proj2 (Z.leb_gt 48 j)), (proj2 (Z.eqb_neq j _)) by lia.
    by rewrite andb_true_r, andb_false_r, !orb_false_r.
  - rewrite Z.ones_spec_high, (proj2 (Z.leb_le 48 j)) by lia. by rewrite andb_false_r.
Qed.

Lemma UpdateTag_untag old p s e : s !! p = Some e -> pointer_ok p -> is_uint 64 (hash e) ->
  exists w, UpdateTag old p s = Some w /\ UntagPointer w = p /\
    (forall j, 48 <= j < 64 -> Z.testbit w j = Z.testbit old j || (j =? tag_bit (hash e))).
Proof.
  intros Hs Hp Hh. pose proof (tag_bit_range _ Hh). destruct (UpdateTag_bit old p s e 0 Hs Hp Hh ltac:(done)) as (w & E & _).
  exists w. split; [done|].
  assert (B : forall j, 0 <= j -> Z.testbit w j = if j <? 48 then Z.testbit p j else (Z.testbit old j && (j <? 64)) || (j =? tag_bit (hash e))).
  { intros j Hj. destruct (UpdateTag_bit old p s e j Hs Hp Hh Hj) as (w' & E' & B). rewrite E in E'. by injection E' as <-. }
  split.
  - apply Z.bits_inj'. intros j Hj. rewrite UntagPointer_bit, B by done. destruct (Z.ltb_spec j 48) as [L|L].
    + apply andb_true_r.
    + rewrite andb_false_r. symmetry. apply (uint_high 48); [unfold pointer_ok in Hp; split; lia|lia].
  - intros j Hj. rewrite B by lia. rewrite (proj2 (Z.ltb_ge j 48)), (proj2 (Z.ltb_lt j 64)) by lia. by rewrite andb_true_r.
Qed.

(** * Chains *)

(** From [p] the chain has the entries of a list, up to the null pointer. *)
Fixpoint chain (s : store) (p : Z) (l : list Z) : Prop :=
  match l with
  | [] => p = nullptr
  | x :: l' => p = x /\ p <> nullptr /\ exists e, s !! p = Some e /\ chain s (next e) l'
  end.

Lemma chain_frame s s' p l : chain s p l -> (forall x, x ∈ l -> s' !! x = s !! x) -> chain s' p l.
Proof.
  revert p. induction l as [|x l IH]; intros p C F; [done|]. destruct C as (-> & N & e & Hx & C). simpl. split_and!; [done|done|].
  exists e. rewrite F by (by left). split; [done|]. apply IH; [done|]. intros y Hy. apply F. by right.
Qed.

Lemma chain_null s l : chain s nullptr l -> l = [].
Proof. destruct l; [done|]. by intros (_ & N & _). Qed.

Lemma chain_follow s p l fuel : chain s p l -> (length l <= fuel)%nat -> follow fuel p s = Some l.
Proof.
  revert p fuel. induction l as [|x l IH]; intros p fuel C Hf.
  - simpl in C. subst p. by destruct fuel.
  - destruct C as (-> & N & e & Hx & C). destruct fuel as [|fuel]; [simpl in Hf; lia|]. simpl in Hf. cbn [follow].
    rewrite (proj2 (Z.eqb_neq _ _)) by done. rewrite Hx. cbn [mbind option_bind]. rewrite (IH _ fuel C) by lia. done.
Qed.

Definition has_hash (s : store) (h x : Z) : bool := match s !! x with Some e => hash e =? h | None => false end.

Lemma chain_skip_to s p l fuel h : chain s p l -> (length l <= fuel)%nat ->
  skip_to fuel h p s = Some (default nullptr (head (filter (fun x => has_hash s h x = true) l))).
Proof.
  revert p fuel. induction l as [|x l IH]; intros p fuel C Hf.
  - simpl in C. subst p. by destruct fuel.
  - destruct C as (-> & N & e & Hx & C). destruct fuel as [|fuel]; [simpl in Hf; lia|]. simpl in Hf. cbn [skip_to].
    rewrite (proj2 (Z.eqb_neq _ _)) by done. rewrite Hx. cbn [mbind option_bind]. rewrite filter_cons.
    assert (has_hash s h x = (hash e =? h)) as Hh by (unfold has_hash; by rewrite Hx).
    destruct (hash e =? h); [by rewrite decide_True|]. rewrite decide_False by congruence. apply IH; [done|lia].
Qed.

(** * Tables *)

Section table.
Context (UseTags : bool).

(** A directory of [2 ^ k] buckets, whose chains are [L]; an entry is in the chain its hash says, and
    the bit of its hash is set in the bucket's tag. *)
Record table_ok (t : ChainingHashTable) (s : store) (L : list (list Z)) : Prop := {
  ok_capacity : exists k, 0 <= k <= 63 /\ capacity_ t = 2 ^ k /\ mask_ t = Z.ones k;
  ok_length : length (entries_ t) = Z.to_nat (capacity_ t);
  ok_chains : length L = length (entries_ t);
  ok_chain : forall i p l, entries_ t !! i = Some p -> L !! i = Some l -> chain s (untag UseTags p) l;
  ok_bucket : forall i l x, L !! i = Some l -> x ∈ l ->
    exists e, s !! x = Some e /\ pointer_ok x /\ is_uint 64 (hash e) /\ BucketPosition (hash e) t = Z.of_nat i;
  ok_tags : UseTags = true -> forall i p l x e, entries_ t !! i = Some p -> L !! i = Some l -> x ∈ l -> s !! x = Some e ->
    Z.testbit p (tag_bit (hash e)) = true
}.

Lemma BucketPosition_range t s L h : table_ok t s L -> is_uint 64 h ->
  0 <= BucketPosition h t < capacity_ t.
Proof.
  intros T [H0 _]. destruct (ok_capacity _ _ _ T) as (k & Hk & -> & Hm). unfold BucketPosition. rewrite Hm, Z.land_ones by lia.
  apply Z.mod_pos_bound. by apply Z.pow_pos_nonneg; lia.
Qed.

Lemma bucket t s L h : table_ok t s L -> is_uint 64 h ->
  exists i p l, Z.of_nat i = BucketPosition h t /\ Z.to_nat (BucketPosition h t) = i /\ entries_ t !! i = Some p /\ L !! i = Some l.
Proof.
  intros T Hh. pose proof (BucketPosition_range _ _ _ _ T Hh) as R. pose proof (ok_length _ _ _ T). pose proof (ok_chains _ _ _ T).
  exists (Z.to_nat (BucketPosition h t)). destruct (lookup_lt_is_Some_2 (entries_ t) (Z.to_nat (BucketPosition h t))) as [p Hp]; [lia|].
  destruct (lookup_lt_is_Some_2 L (Z.to_nat (BucketPosition h t))) as [l Hl]; [lia|]. exists p, l. split_and!; [lia|done|done|done].
Qed.

(** Entries that are in no chain may change. *)
Lemma table_frame t s s' L : table_ok t s L -> (forall x, x ∈ concat L -> s' !! x = s !! x) -> table_ok t s' L.
Proof.
  intros T F. assert (F' : forall i l x, L !! i = Some l -> x ∈ l -> s' !! x = s !! x).
  { intros i l x Hl Hx. apply F. apply list_elem_of_In, in_concat. exists l. split; apply list_elem_of_In; [by eapply list_elem_of_lookup_2|done]. }
  destruct T as [Hc Hl HL Hch Hb Ht]. split; [done|done|done| | |].
  - intros i p l Hp HLi. eapply chain_frame; [by eapply Hch|]. intros x Hx. by eapply F'.
  - intros i l x HLi Hx. destruct (Hb i l x HLi Hx) as (e & He & R). exists e. by rewrite (F' i l x).
  - intros U i p l x e Hp HLi Hx He. apply (Ht U i p l x e Hp HLi Hx). by rewrite <- (F' i l x).
Qed.

(** An entry is put at the head of its bucket. *)
Lemma table_push t s L x e old w l : table_ok t s L -> s !! x = Some e -> pointer_ok x -> is_uint 64 (hash e) ->
  let i := Z.to_nat (BucketPosition (hash e) t) in
  entries_ t !! i = Some old -> L !! i = Some l -> next e = untag UseTags old ->
  (if UseTags then UpdateTag old x s else Some x) = Some w ->
  table_ok (set_head (BucketPosition (hash e) t) w t) s (<[i := x :: l]> L).
Proof.
  intros T Hx Px Hh i Hold HL Hn Hw. pose proof (BucketPosition_range _ _ _ _ T Hh) as R.
  assert (U : untag UseTags w = x).
  { unfold untag in *. destruct UseTags; [|by injection Hw as <-]. destruct (UpdateTag_untag old x s e Hx Px Hh) as (w' & E & U & _).
    rewrite Hw in E. by injection E as <-. }
  split; cbn [entries_ mask_ capacity_ set_head].
  - apply T.
  - rewrite length_insert. apply T.
  - rewrite !length_insert. apply T.
  - intros j p m Hp Hm. fold i in Hp. apply list_lookup_insert_Some in Hp as [(Ej & <- & Hi)|(Ni & Hp)]; [subst j|].
    + rewrite list_lookup_insert_eq in Hm by (rewrite (ok_chains _ _ _ T); done). injection Hm as <-. rewrite U. simpl. split; [done|].
      split; [unfold pointer_ok, nullptr in *; lia|]. exists e. split; [done|]. rewrite Hn. by eapply (ok_chain _ _ _ T).
    + rewrite list_lookup_insert_ne in Hm by done. by eapply (ok_chain _ _ _ T).
  - intros j m y Hm Hy. change (BucketPosition ?h (set_head _ _ _)) with (BucketPosition h t).
    apply list_lookup_insert_Some in Hm as [(Ej & <- & Hi)|(Ni & Hm)]; [subst j|].
    + apply elem_of_cons in Hy as [->|Hy]; [|by eapply (ok_bucket _ _ _ T)]. exists e. split_and!; [done|done|done|lia].
    + by eapply (ok_bucket _ _ _ T).
  - intros Ut j p m y e' Hp Hm Hy He'. rewrite Ut in Hw. fold i in Hp.
    apply list_lookup_insert_Some in Hp as [(Ej & <- & Hi)|(Ni & Hp)]; [subst j|].
    + rewrite list_lookup_insert_eq in Hm by (rewrite (ok_chains _ _ _ T); done). injection Hm as <-.
      destruct (UpdateTag_untag old x s e Hx Px Hh) as (w' & E & _ & B). rewrite Hw in E. injection E as <-.
      apply elem_of_cons in Hy as [->|Hy].
      * rewrite Hx in He'. injection He' as <-. rewrite B by (by apply tag_bit_range). by rewrite Z.eqb_refl, orb_true_r.
      * destruct (ok_bucket _ _ _ T _ _ _ HL Hy) as (e2 & He2 & _ & Hh2 & _). rewrite He' in He2. injection He2 as <-.
        rewrite B by (by apply tag_bit_range). rewrite (ok_tags _ _ _ T Ut _ _ _ _ _ Hold HL Hy He'). done.
    + rewrite list_lookup_insert_ne in Hm by done. by eapply (ok_tags _ _ _ T).
Qed.
End table.

(** * Insertion and lookup *)

Lemma concat_split {A} (L : list (list A)) i l : L !! i = Some l ->
  concat L = concat (take i L) ++ l ++ concat (drop (S i) L).
Proof. intros Hl. rewrite <- (take_drop_middle L i l Hl) at 1. by rewrite concat_app. Qed.
Lemma concat_insert {A} (L : list (list A)) i l m : L !! i = Some l ->
  concat (<[i := m]> L) = concat (take i L) ++ m ++ concat (drop (S i) L).
Proof.
  intros Hl. rewrite (concat_split _ i m) by (apply list_lookup_insert_eq; by eapply lookup_lt_Some).
  rewrite take_insert_ge, drop_insert_lt by lia. done.
Qed.
Lemma elem_of_concat {A} (L : list (list A)) x : x ∈ concat L <-> exists i l, L !! i = Some l /\ x ∈ l.
Proof.
  rewrite list_elem_of_In, in_concat. split.
  - intros (l & Hl & Hx). apply list_elem_of_In in Hl, Hx. apply list_elem_of_lookup_1 in Hl as [i Hl]. by exists i, l.
  - intros (i & l & Hl & Hx). exists l. split; apply list_elem_of_In; [by eapply list_elem_of_lookup_2|done].
Qed.

Lemma filter_none {A} (P : A -> Prop) `{!forall x, Decision (P x)} (l : list A) : (forall x, x ∈ l -> ~ P x) -> filter P l = [].
Proof.
  induction l as [|x l IH]; intros Hn; [done|]. rewrite filter_cons_False by (apply Hn; by left). apply IH. intros y Hy. apply Hn. by right.
Qed.

(** The entries of a bucket are those of one hash there are in the table. *)
Lemma filter_one {A} (P : A -> Prop) `{!forall x, Decision (P x)} (L : list (list A)) i l : L !! i = Some l ->
  (forall j m x, L !! j = Some m -> j <> i -> x ∈ m -> ~ P x) -> filter P (concat L) = filter P l.
Proof.
  intros Hl Hn. rewrite (concat_split L i l Hl), !filter_app.
  assert (N : forall K, (forall x, x ∈ concat K -> ~ P x) -> filter P (concat K) = []).
  { intros K HK. apply filter_none. intros x Hx. by apply HK. }
  rewrite !N, app_nil_r; [done| |].
  - intros x Hx. apply elem_of_concat in Hx as (j & m & Hm & Hx). rewrite lookup_drop in Hm. apply (Hn _ _ _ Hm); [lia|done].
  - intros x Hx. apply elem_of_concat in Hx as (j & m & Hm & Hx). apply lookup_take_Some in Hm as [Hm Hj]. apply (Hn _ _ _ Hm); [lia|done].
Qed.

Section operations.
Context (UseTags : bool).
Local Abbreviation table_ok := (table_ok UseTags).

(** What can be inserted. *)
Definition entry_ok (s : store) (x : Z) : Prop := exists e, s !! x = Some e /\ pointer_ok x /\ is_uint 64 (hash e).

Lemma bucket_filter t s L h i l : table_ok t s L -> Z.of_nat i = BucketPosition h t -> L !! i = Some l ->
  filter (fun x => has_hash s h x = true) (concat L) = filter (fun x => has_hash s h x = true) l.
Proof.
  intros T Hi Hl. apply (filter_one _ L i l Hl). intros j m x Hm Nj Hx. destruct (ok_bucket _ _ _ _ T j m x Hm Hx) as (e & He & _ & _ & Hb).
  unfold has_hash. rewrite He. intros E. apply Z.eqb_eq in E. subst h. lia.
Qed.

Lemma find_chain t s L h : table_ok t s L -> is_uint 64 h ->
  exists p l, FindChainHead UseTags h t = Some p /\ chain s p l /\
    filter (fun x => has_hash s h x = true) l = filter (fun x => has_hash s h x = true) (concat L) /\ (length l <= length (concat L))%nat.
Proof.
  intros T Hh. destruct (bucket _ _ _ _ _ T Hh) as (i & w & l & Hi & Hn & Hw & Hl).
  pose proof (ok_chain _ _ _ _ T _ _ _ Hw Hl) as C. pose proof (bucket_filter _ _ _ _ _ _ T Hi Hl) as F.
  assert (Len : (length l <= length (concat L))%nat) by (rewrite (concat_split L i l Hl), !length_app; lia).
  unfold FindChainHead, FindChainHeadTagged, FindChainHeadUntagged, head_of. rewrite Hn, Hw. cbn [mbind option_bind].
  destruct UseTags eqn:U.
  - rewrite TagHash_land, negb_involutive by done. destruct (Z.testbit w (tag_bit h)) eqn:B.
    + exists (UntagPointer w), l. split_and!; [done|exact C|by rewrite F|done].
    + exists nullptr, []. split_and!; [done|done| |simpl; lia]. rewrite F. symmetry.
      apply filter_none. intros x Hx. destruct (ok_bucket _ _ _ _ T _ _ _ Hl Hx) as (e & He & _).
      unfold has_hash. rewrite He. intros E. apply Z.eqb_eq in E. subst h.
      pose proof (ok_tags _ _ _ _ T eq_refl _ _ _ _ _ Hw Hl Hx He). congruence.
  - exists w, l. split_and!; [done|exact C|by rewrite F|done].
Qed.

Lemma set_next_hash s x p s' h y : set_next x p s = Some s' -> has_hash s' h y = has_hash s h y.
Proof.
  unfold set_next. destruct (s !! x) as [e|] eqn:E; [|done]. cbn [mbind option_bind]. injection 1 as <-. unfold has_hash.
  destruct (decide (x = y)) as [<-|]; [by rewrite lookup_insert_eq, E|by rewrite lookup_insert_ne].
Qed.

Lemma set_next_frame s x p s' y : set_next x p s = Some s' -> x <> y -> s' !! y = s !! y.
Proof. unfold set_next. destruct (s !! x); [|done]. cbn [mbind option_bind]. injection 1 as <-. intros. by apply lookup_insert_ne. Qed.

Lemma set_next_entry s x p s' y : set_next x p s = Some s' -> entry_ok s y -> entry_ok s' y.
Proof.
  unfold set_next. destruct (s !! x) as [e|] eqn:E; [|done]. cbn [mbind option_bind]. injection 1 as <-. intros (e' & He & R).
  destruct (decide (x = y)) as [<-|]; [|exists e'; by rewrite lookup_insert_ne]. rewrite E in He. injection He as <-.
  eexists. rewrite lookup_insert_eq. split; [done|exact R].
Qed.

(** The entries with hash [h], in the order a lookup finds them. *)
Definition with_hash (s : store) (h : Z) (l : list Z) : list Z := filter (fun x => has_hash s h x = true) l.

Lemma with_hash_push t s L x e i l h : table_ok t s L -> s !! x = Some e -> is_uint 64 (hash e) ->
  Z.of_nat i = BucketPosition (hash e) t -> L !! i = Some l ->
  with_hash s h (concat (<[i := x :: l]> L)) = with_hash s h [x] ++ with_hash s h (concat L).
Proof.
  intros T Hx Hh Hi Hl. unfold with_hash. rewrite (concat_insert L i l) by done. rewrite (concat_split L i l Hl).
  change (x :: l) with ([x] ++ l). rewrite !filter_app.
  destruct (decide (has_hash s h x = true)) as [E|E].
  - assert (h = hash e) as -> by (unfold has_hash in E; rewrite Hx in E; symmetry; by apply Z.eqb_eq).
    assert (filter (fun y => has_hash s (hash e) y = true) (concat (take i L)) = []) as ->; [|cbn [app]; by rewrite <- app_assoc].
    apply filter_none. intros y Hy. apply elem_of_concat in Hy as (j & m & Hm & Hy).
    apply lookup_take_Some in Hm as [Hm Hj]. destruct (ok_bucket _ _ _ _ T j m y Hm Hy) as (e' & He & _ & _ & Hb).
    unfold has_hash. rewrite He. intros E'. apply Z.eqb_eq in E'. rewrite E' in Hb. lia.
  - rewrite filter_cons_False by done. done.
Qed.

Lemma insert_entry t s L x e : table_ok t s L -> s !! x = Some e -> pointer_ok x -> is_uint 64 (hash e) -> x ∉ concat L ->
  exists i l old s' w, Z.of_nat i = BucketPosition (hash e) t /\ L !! i = Some l /\ set_next x old s = Some s' /\
    InsertEntry UseTags x (hash e) t s = Some (set_head (BucketPosition (hash e) t) w t, s') /\
    table_ok (set_head (BucketPosition (hash e) t) w t) s' (<[i := x :: l]> L).
Proof.
  intros T Hx Px Hh Nx. destruct (bucket _ _ _ _ _ T Hh) as (i & old & l & Hi & Hn & Hw & Hl).
  set (s' := <[x := mkEntry (untag UseTags old) (hash e)]> s).
  assert (Hs : set_next x (untag UseTags old) s = Some s') by (unfold set_next; by rewrite Hx).
  assert (Hx' : s' !! x = Some (mkEntry (untag UseTags old) (hash e))) by (unfold s'; by rewrite lookup_insert_eq).
  assert (T' : table_ok t s' L) by (apply (table_frame UseTags t s); [done|]; intros y Hy; apply lookup_insert_ne; by intros ->).
  assert (exists w, (if UseTags then UpdateTag old x s' else Some x) = Some w) as [w Ew].
  { destruct UseTags; [|by exists x]. destruct (UpdateTag_untag old x s' _ Hx' Px Hh) as (w & E & _). by exists w. }
  exists i, l, (untag UseTags old), s', w. split_and!; [done|done|done| |].
  - unfold InsertEntry, InsertTagged, InsertUntagged, head_of. rewrite Hn, Hw. cbn [mbind option_bind].
    unfold untag in Hs, Ew, Hx', s'. destruct UseTags; rewrite Hs; cbn [mbind option_bind]; [by rewrite Ew|by injection Ew as <-].
  - pose proof (table_push UseTags t s' L x _ old w l T' Hx' Px Hh) as P. cbn [hash next] in P. rewrite Hn in P. by apply P.
Qed.

Lemma concat_push (L : list (list Z)) i l x : L !! i = Some l -> concat (<[i := x :: l]> L) ≡ₚ x :: concat L.
Proof.
  intros Hl. rewrite (concat_insert L i l), (concat_split L i l) by done. cbn [app]. symmetry. apply Permutation_middle.
Qed.

Lemma count_ok t s L n : table_ok t s L -> table_ok (AddElementCount n t) s L.
Proof. intros []. by split. Qed.

(** A list of insertions. *)
Fixpoint InsertAll (es : list Z) (t : ChainingHashTable) (s : store) : option (ChainingHashTable * store) :=
  match es with [] => Some (t, s) | x :: es' => '(t, s) ← Insert UseTags x t s; InsertAll es' t s end.

Lemma insert_all es : forall t s L, table_ok t s L -> Forall (entry_ok s) es -> NoDup es -> (forall x, x ∈ es -> x ∉ concat L) ->
  exists t' s' L', InsertAll es t s = Some (t', s') /\ table_ok t' s' L' /\ concat L' ≡ₚ es ++ concat L /\
    (forall h, with_hash s' h (concat L') = with_hash s h (reverse es) ++ with_hash s h (concat L)) /\
    num_elements_ t' = fold_left (fun n _ => wrapu 64 (n + 1)) es (num_elements_ t) /\ (forall h x, has_hash s' h x = has_hash s h x).
Proof.
  induction es as [|x es IH]; intros t s L T F ND Dj.
  - exists t, s, L. by split_and!.
  - inversion F as [|? ? (e & Hx & Px & Hh) Fe]; subst. apply NoDup_cons in ND as [Nx ND].
    destruct (insert_entry t s L x e T Hx Px Hh) as (i & l & old & s1 & w & Hi & Hl & Hs & E & T1); [apply Dj; by left|].
    pose proof (concat_push L i l x Hl) as Pm. pose proof (fun h y => set_next_hash _ _ _ _ h y Hs) as Hsame.
    destruct (IH (AddElementCount 1 (set_head (BucketPosition (hash e) t) w t)) s1 (<[i := x :: l]> L)) as (t' & s' & L' & E' & T' & P' & W & N & Hk).
    + by apply count_ok.
    + eapply Forall_impl; [exact Fe|]. intros y Hy. by eapply set_next_entry.
    + done.
    + intros y Hy Hin. rewrite Pm in Hin. apply elem_of_cons in Hin as [->|Hin]; [done|]. apply (Dj y); [by right|done].
    + exists t', s', L'. cbn [InsertAll]. unfold Insert. rewrite Hx. cbn [mbind option_bind]. rewrite E. cbn [mbind option_bind].
      split_and!; [done|done|rewrite P', Pm; symmetry; apply Permutation_middle| |done|intros h y; by rewrite Hk].
      intros h. rewrite W. rewrite reverse_cons. unfold with_hash. rewrite !filter_app, <- app_assoc.
      rewrite (list_filter_iff (fun y => has_hash s1 h y = true) (fun y => has_hash s h y = true)) by (intros y; by rewrite Hsame).
      f_equal. rewrite (list_filter_iff (fun y => has_hash s1 h y = true) (fun y => has_hash s h y = true)) by (intros y; by rewrite Hsame).
      by eapply with_hash_push.
Qed.

Lemma set_size_ok `{PowerOpsSpec} n t s : 0 <= n <= 2 ^ 62 ->
  exists m, table_ok (SetSize n t) s (replicate m []) /\ n <= capacity_ (SetSize n t) /\ num_elements_ (SetSize n t) = 0.
Proof.
  intros Hn. unfold SetSize. set (v := Z.max n kMinTableSize). assert (Hv : 0 < v <= 2 ^ 62) by (unfold v, kMinTableSize; lia).
  rewrite powerOf2Ceil_spec by lia. set (k := Z.log2_up v).
  assert (Hk : 0 <= k <= 62) by (split; [apply Z.log2_up_nonneg|]; change 62 with (Z.log2_up (2 ^ 62)); apply Z.log2_up_le_mono; lia).
  assert (Hvk : v <= 2 ^ k).
  { destruct (decide (v = 1)) as [->|]; [pose proof (Z.pow_pos_nonneg 2 k); lia|]. apply Z.log2_up_spec. lia. }
  assert (Pk : 2 ^ k <= 2 ^ 62) by (apply Z.pow_le_mono_r; lia).
  match goal with |- context [mkTable (replicate (Z.to_nat ?N) _)] => set (next_size := N) end.
  assert (exists j, k <= j <= 63 /\ next_size = 2 ^ j) as (j & Hj & Ej).
  { unfold next_size. case_match; [|exists k; lia]. exists (k + 1). split; [lia|]. rewrite Z.pow_add_r by lia.
    apply wrapu_small. split; lia. }
  assert (2 ^ k <= 2 ^ j <= 2 ^ 63) as [Pj1 Pj2] by (split; apply Z.pow_le_mono_r; lia).
  assert (0 < 2 ^ k) by (apply Z.pow_pos_nonneg; lia).
  exists (Z.to_nat next_size). cbn [capacity_ num_elements_]. split_and!; [|unfold v in *; lia|done].
  split; cbn [entries_ mask_ capacity_].
  - exists j. split; [lia|]. split; [done|]. rewrite Ej, Z.ones_equiv. apply wrapu_small. split; lia.
  - by rewrite length_replicate.
  - by rewrite !length_replicate.
  - intros i p l Hp Hl. apply lookup_replicate in Hp as [-> _]. apply lookup_replicate in Hl as [-> _]. simpl. by destruct UseTags.
  - intros i l x Hl Hx. apply lookup_replicate in Hl as [-> _]. by apply elem_of_nil in Hx.
  - intros _ i p l x e _ Hl Hx. apply lookup_replicate in Hl as [-> _]. by apply elem_of_nil in Hx.
Qed.

Lemma concat_replicate_nil {A} m : concat (replicate m (@nil A)) = [].
Proof. by induction m. Qed.
End operations.

(** * Iteration *)

Section iteration.
Context (UseTags : bool) (t : ChainingHashTable) (s : store) (L : list (list Z)) (T : table_ok UseTags t s L).

(** The buckets from [k] on. *)
Lemma buckets_from k : Forall2 (fun p l => chain s (untag UseTags p) l) (drop k (entries_ t)) (drop k L).
Proof.
  apply Forall2_drop, Forall2_same_length_lookup. split; [by rewrite (ok_chains _ _ _ _ T)|]. intros i p l Hp Hl. by eapply (ok_chain _ _ _ _ T).
Qed.

Lemma next_bucket_reads : forall dir Ls k p, Forall2 (fun p l => chain s (untag UseTags p) l) dir Ls -> p = nullptr ->
  exists n l, let it := next_bucket UseTags dir (mkIterator k p) in
    entries_index_ it = (k + n)%nat /\ chain s (curr_entry_ it) l /\ concat Ls = l ++ concat (drop n Ls) /\
    (curr_entry_ it = nullptr -> concat (drop n Ls) = []).
Proof.
  induction dir as [|q dir IH]; intros Ls k p F ->.
  - inversion F; subst. exists 0%nat, []. simpl. split_and!; [lia|done|done|done].
  - inversion F as [|? l ? Ls' C F']; subst. cbn [next_bucket entries_index_ curr_entry_].
    destruct (Z.eqb_spec (untag UseTags q) nullptr) as [E|E]; cbn [negb].
    + rewrite E in C. apply chain_null in C as ->. destruct (IH Ls' (S k) (untag UseTags q) F' E) as (n & l & Hi & C & Hc & Hn).
      exists (S n), l. split_and!; [rewrite Hi; lia|done|done|done].
    + exists 1%nat, l. cbn [entries_index_ curr_entry_]. split_and!; [lia|done|done|]. done.
Qed.

(** What an iterator has still to read. *)
Definition pending (it : iterator) (l : list Z) : Prop :=
  exists c, chain s (curr_entry_ it) c /\ l = c ++ concat (drop (entries_index_ it) L) /\ (curr_entry_ it = nullptr -> l = []).

Lemma pending_bucket k : exists l, pending (next_bucket UseTags (drop k (entries_ t)) (mkIterator k nullptr)) l /\ l = concat (drop k L).
Proof.
  destruct (next_bucket_reads _ _ k nullptr (buckets_from k) eq_refl) as (n & l & Hi & C & Hc & Hn).
  exists (concat (drop k L)). split; [|done]. exists l. rewrite Hi. rewrite <- drop_drop. split_and!; [done|done|].
  intros E. rewrite Hc, (Hn E). rewrite E in C. by apply chain_null in C as ->.
Qed.

Lemma Next_pending it x l : pending it (x :: l) ->
  curr_entry_ it = x /\ exists it', iterator_Next UseTags t s it = Some it' /\ pending it' l.
Proof.
  intros (c & C & E & N). destruct c as [|y c]; [simpl in C; by specialize (N C)|]. cbn [app] in E. injection E as <- E.
  destruct C as (Ex & Nx & e & He & C). split; [done|]. unfold iterator_Next. rewrite (proj2 (Z.eqb_neq _ _)) by done. cbn [negb].
  rewrite He. cbn [mbind option_bind curr_entry_ entries_index_]. destruct (Z.eqb_spec (next e) nullptr) as [En|En]; cbn [negb].
  - rewrite En in C. apply chain_null in C as ->. destruct (pending_bucket (entries_index_ it)) as (l' & P & El').
    eexists. split; [reflexivity|]. rewrite En. cbn [app] in E. by rewrite E, <- El'.
  - eexists. split; [reflexivity|]. exists c. cbn [curr_entry_ entries_index_]. split_and!; [done|done|done].
Qed.

Lemma iterate_pending : forall l fuel it, pending it l -> (length l <= fuel)%nat -> iterate UseTags fuel t s it = Some l.
Proof.
  induction l as [|x l IH]; intros fuel it P Hf.
  - assert (E : HasNext it = false).
    { destruct P as (c & C & E & _). symmetry in E. apply app_nil in E as [-> _]. simpl in C. unfold HasNext. by rewrite C. }
    destruct fuel; cbn [iterate]; by rewrite E.
  - destruct fuel as [|fuel]; [simpl in Hf; lia|]. simpl in Hf. destruct (Next_pending _ _ _ P) as (Ex & it' & E & P').
    destruct P as (c & C & E' & N). cbn [iterate]. unfold HasNext. rewrite (proj2 (Z.eqb_neq _ _)) by (intros D; by specialize (N D)).
    cbn [negb]. rewrite E. cbn [mbind option_bind]. rewrite (IH fuel it' P') by lia. cbn [mbind option_bind]. by rewrite Ex.
Qed.

Lemma iterator_reads : exists it, new_iterator UseTags t s = Some it /\ iterate UseTags (length (concat L)) t s it = Some (concat L).
Proof.
  destruct (pending_bucket 0) as (l & P & ->). rewrite !drop_0 in P. eexists. split.
  - unfold new_iterator, iterator_Next. cbn [curr_entry_ entries_index_]. change (nullptr =? nullptr) with true.
    cbn [negb mbind option_bind curr_entry_ entries_index_]. by rewrite drop_0.
  - by apply iterate_pending.
Qed.

(** The entry cache. *)
Definition nonnull (p : Z) : bool := negb (p =? nullptr).

Lemma follow_all_reads : forall ps ls A R i, Forall2 (fun p l => p <> nullptr /\ chain s p l) ps ls -> i = length A ->
  exists ps', follow_all (length ps) i (A ++ ps ++ R) s = Some (A ++ ps' ++ R) /\ Forall2 (chain s) ps' (map (@List.tl Z) ls).
Proof.
  induction ps as [|p ps IH]; intros ls A R i F ->.
  - inversion F; subst. exists []. split; [done|constructor].
  - inversion F as [|? l ? ls' [Np C] F']; subst. destruct l as [|x l]; [done|]. destruct C as (-> & _ & e & He & C).
    cbn [length follow_all app]. rewrite lookup_app_r, Nat.sub_diag by lia. cbn [lookup list_lookup mbind option_bind].
    rewrite He. cbn [mbind option_bind]. rewrite insert_app_r_alt, Nat.sub_diag by lia. cbn [insert list_insert].
    destruct (IH ls' (A ++ [next e]) R (S (length A)) F') as (ps' & E & F2); [rewrite length_app; simpl; lia|].
    exists (next e :: ps'). rewrite <- app_assoc in E. cbn [app] in E. rewrite E, <- app_assoc. split; [done|]. by constructor.
Qed.

Lemma compact_reads : forall ps i index vec A R, take index vec = A -> length A = index -> drop i vec = ps ++ R -> (index <= i)%nat ->
  exists vec', compact (length ps) i index vec = Some ((index + length (filter (fun p => nonnull p = true) ps))%nat, vec') /\
    length vec' = length vec /\ take (index + length (filter (fun p => nonnull p = true) ps)) vec' = A ++ filter (fun p => nonnull p = true) ps.
Proof.
  induction ps as [|p ps IH]; intros i index vec A R HA LA HR Hi.
  - exists vec. cbn [compact length]. rewrite Nat.add_0_r, app_nil_r. done.
  - assert (Hp : vec !! i = Some p) by (rewrite <- (Nat.add_0_r i), <- lookup_drop, HR; done).
    pose proof (lookup_lt_Some _ _ _ Hp) as Li. cbn [length compact]. rewrite Hp. cbn [mbind option_bind].
    assert (HR' : drop (S i) (<[index := p]> vec) = ps ++ R).
    { rewrite drop_insert_lt by lia. rewrite <- (Nat.add_1_r i), <- drop_drop, HR. done. }
    rewrite filter_cons. fold (nonnull p). destruct (nonnull p) eqn:Np.
    + rewrite decide_True by done. assert (HA' : take (S index) (<[index := p]> vec) = A ++ [p]).
      { rewrite (take_S_r _ _ p) by (by rewrite list_lookup_insert_eq by lia). by rewrite take_insert_ge, HA by lia. }
      destruct (IH (S i) (S index) (<[index := p]> vec) (A ++ [p]) R HA') as (vec' & E & Lv & Tk); [rewrite length_app; simpl; lia|done|lia|].
      exists vec'. rewrite E, Lv, length_insert. cbn [length]. rewrite Nat.add_succ_r. rewrite <- Nat.add_succ_l, Tk, <- app_assoc. done.
    + rewrite decide_False by done.
      destruct (IH (S i) index (<[index := p]> vec) A R) as (vec' & E & Lv & Tk); [by rewrite take_insert_ge by lia|done|done|lia|].
      exists vec'. by rewrite E, Lv, length_insert, Tk.
Qed.

Lemma fill_reads : forall dir Ls k index vec A, Forall2 (fun p l => chain s (untag UseTags p) l) dir Ls -> take index vec = A -> length A = index ->
  length vec = kDefaultVectorSize -> exists n index' vec' ps ls,
    fill UseTags dir k index vec = ((k + n)%nat, index', vec') /\ take index' vec' = A ++ ps /\ length (A ++ ps) = index' /\ length vec' = kDefaultVectorSize /\
    Forall2 (fun p l => p <> nullptr /\ chain s p l) ps ls /\ concat Ls = concat ls ++ concat (drop n Ls) /\
    (index' = 0%nat -> concat (drop n Ls) = []).
Proof.
  induction dir as [|p dir IH]; intros Ls k index vec A F HA LA Lv.
  - inversion F; subst. exists 0%nat, (length (take index vec)), vec, [], []. rewrite !app_nil_r. cbn [fill]. rewrite Nat.add_0_r, LA.
    split_and!; [done|done|done|done|constructor|done|done].
  - apply Forall2_cons_inv_l in F as (l & Ls' & C & F' & ->). cbn [fill]. destruct (Nat.ltb_spec index kDefaultVectorSize) as [Li|Li].
    + destruct (Z.eqb_spec (untag UseTags p) nullptr) as [E|E]; cbn [negb].
      * rewrite E in C. apply chain_null in C as ->.
        destruct (IH Ls' (S k) index (<[index := untag UseTags p]> vec) A F') as (n & index' & vec' & ps & ls & Ef & Tk & Lp & Lv' & F2 & Hc & H0);
          [by rewrite take_insert_ge by lia|done|by rewrite length_insert|].
        exists (S n), index', vec', ps, ls. rewrite Ef. split_and!; [by rewrite Nat.add_succ_r|done|done|done|done|done|done].
      * destruct (IH Ls' (S k) (S index) (<[index := untag UseTags p]> vec) (A ++ [untag UseTags p]) F') as (n & index' & vec' & ps & ls & Ef & Tk & Lp & Lv' & F2 & Hc & H0);
          [|rewrite length_app; simpl; lia|by rewrite length_insert|].
        { rewrite (take_S_r _ _ (untag UseTags p)) by (by rewrite list_lookup_insert_eq by lia). by rewrite take_insert_ge, HA by lia. }
        exists (S n), index', vec', (untag UseTags p :: ps), (l :: ls). rewrite Ef. rewrite <- app_assoc in Tk, Lp. cbn [app] in Tk, Lp.
        split_and!; [by rewrite Nat.add_succ_r|done|done|done|by constructor| |done].
        cbn [concat drop]. by rewrite Hc, app_assoc.
    + exists 0%nat, index, vec, [], []. rewrite !app_nil_r, Nat.add_0_r. split_and!; [done|done|done|done|constructor|done|].
      intros ->. unfold kDefaultVectorSize in Li. lia.
Qed.

(** What a vector iterator has still to read, the current batch first. *)
Definition vector_pending (it : vector_iterator) (ps : list Z) (ls : list (list Z)) : Prop :=
  GetCurrentBatch it = ps /\ length ps = entry_vec_end_idx_ it /\ length (entry_vec_ it) = kDefaultVectorSize /\
  Forall2 (fun p l => p <> nullptr /\ chain s p l) ps ls /\ (ps = [] -> concat (drop (table_dir_index_ it) L) = []).
Definition left_over (it : vector_iterator) (ls : list (list Z)) : list Z := concat ls ++ concat (drop (table_dir_index_ it) L).

Lemma filter_chains ps ls : Forall2 (chain s) ps ls ->
  exists ls', Forall2 (fun p l => p <> nullptr /\ chain s p l) (filter (fun p => nonnull p = true) ps) ls' /\ concat ls' = concat ls.
Proof.
  induction 1 as [|p l ps ls C F (ls' & F' & Hc)]; [exists []; split; [constructor|done]|].
  rewrite filter_cons. destruct (decide (p = nullptr)) as [->|N].
  - rewrite decide_False by done. apply chain_null in C as ->. by exists ls'.
  - rewrite decide_True by (unfold nonnull; by rewrite (proj2 (Z.eqb_neq _ _))). exists (l :: ls'). split; [by constructor|]. simpl. by rewrite Hc.
Qed.

Lemma chain_heads ps ls : Forall2 (fun p l => p <> nullptr /\ chain s p l) ps ls -> concat ls ≡ₚ ps ++ concat (map (@List.tl Z) ls).
Proof.
  induction 1 as [|p l ps ls [N C] F IH]; [done|]. destruct l as [|x l]; [done|]. destruct C as (-> & _). simpl. rewrite IH.
  rewrite !app_assoc. f_equiv. f_equiv. apply Permutation_app_comm.
Qed.

Lemma vector_Next_pending it ps ls : vector_pending it ps ls ->
  exists it' ps' ls', vector_Next UseTags t s it = Some it' /\ vector_pending it' ps' ls' /\ left_over it ls ≡ₚ ps ++ left_over it' ls'.
Proof.
  intros (Hb & Lp & Lv & F & _). destruct it as [k vec n]. unfold GetCurrentBatch in Hb. cbn [entry_vec_ entry_vec_end_idx_ table_dir_index_] in *.
  assert (Ev : vec = [] ++ ps ++ drop n vec) by (cbn [app]; rewrite <- Hb; symmetry; apply take_drop).
  unfold vector_Next, left_over. cbn [entry_vec_ entry_vec_end_idx_ table_dir_index_].
  destruct (follow_all_reads ps ls [] (drop n vec) 0 F eq_refl) as (ps1 & E1 & F1). rewrite Lp, <- Ev in E1. rewrite E1. cbn [mbind option_bind].
  assert (L1 : length ps1 = n) by (rewrite (Forall2_length _ _ _ F1), length_map, <- (Forall2_length _ _ _ F); done).
  destruct (compact_reads ps1 0 0 ([] ++ ps1 ++ drop n vec) [] (drop n vec)) as (vec2 & E2 & L2 & T2); [done|done|done|lia|].
  rewrite L1 in E2. rewrite E2. cbn [mbind option_bind]. destruct (filter_chains _ _ F1) as (ls2 & F2 & Hc2).
  set (A := filter (fun p => nonnull p = true) ps1) in *. rewrite Nat.add_0_l in T2. cbn [app] in T2.
  destruct (fill_reads _ _ k (0 + length A) vec2 A (buckets_from k)) as (m & index' & vec3 & ps3 & ls3 & E3 & T3 & L3 & Lv3 & F3 & Hc3 & H0); [done|done| |].
  { rewrite L2. cbn [app]. rewrite length_app, L1, length_drop, Lv. assert (n <= kDefaultVectorSize)%nat by (rewrite <- Lv, <- Lp, <- Hb, length_take; lia). lia. }
  rewrite E3. exists (mkVectorIterator (k + m) vec3 index'), (A ++ ps3), (ls2 ++ ls3). split; [reflexivity|]. rewrite drop_drop in *. split.
  - unfold vector_pending, GetCurrentBatch. cbn [entry_vec_ entry_vec_end_idx_ table_dir_index_]. split_and!; [done|done|done|by apply Forall2_app|].
    intros E. apply H0. rewrite <- L3, E. done.
  - cbn [table_dir_index_]. rewrite Hc3, concat_app, Hc2, (chain_heads _ _ F). by rewrite <- !app_assoc.
Qed.

Lemma batches_pending : forall fuel it ps ls, vector_pending it ps ls -> (length (left_over it ls) <= fuel)%nat ->
  exists bs, batches UseTags fuel t s it = Some bs /\ concat bs ≡ₚ left_over it ls /\ Forall (fun b => 0 < length b <= kDefaultVectorSize)%nat bs.
Proof.
  induction fuel as [|fuel IH]; intros it ps ls P Hf.
  - destruct P as (Hb & Lp & Lv & F & H0). assert (ps = []) as ->.
    { destruct ps as [|p ps]; [done|]. inversion F as [|? l ? ? [N C]]; subst. destruct l; [done|]. unfold left_over in Hf. simpl in Hf. lia. }
    exists []. cbn [batches]. unfold vector_HasNext. rewrite <- Lp. split; [done|]. split; [|constructor]. inversion F; subst.
    unfold left_over. by rewrite H0.
  - pose proof P as (Hb & Lp & Lv & F & H0). destruct (vector_Next_pending _ _ _ P) as (it' & ps' & ls' & E & P' & Pm). cbn [batches]. unfold vector_HasNext.
    destruct ps as [|p ps].
    + exists []. rewrite <- Lp. split; [done|]. split; [|constructor]. inversion F; subst. unfold left_over. by rewrite H0.
    + rewrite <- Lp. cbn [length Nat.ltb Nat.leb negb]. rewrite E. cbn [mbind option_bind]. pose proof (Permutation_length Pm) as Hlen.
      rewrite length_app in Hlen. cbn [length] in Hlen. destruct (IH it' ps' ls' P') as (bs & Eb & Pb & Fb); [lia|]. rewrite Eb. cbn [mbind option_bind].
      eexists. split; [reflexivity|]. rewrite Hb. split; [cbn [concat]; by rewrite Pb, Pm|]. constructor; [|done].
      split; [simpl; lia|]. rewrite <- Hb. unfold GetCurrentBatch. rewrite length_take, Lv. lia.
Qed.

Lemma vector_iterator_reads : exists it bs, new_vector_iterator UseTags t s = Some it /\
  batches UseTags (length (concat L)) t s it = Some bs /\ concat bs ≡ₚ concat L /\ Forall (fun b => 0 < length b <= kDefaultVectorSize)%nat bs.
Proof.
  pose proof (buckets_from 0) as B0. rewrite !drop_0 in B0.
  destruct (fill_reads _ _ 0 0 (replicate kDefaultVectorSize nullptr) [] B0) as (m & index' & vec3 & ps3 & ls3 & E3 & T3 & L3 & Lv3 & F3 & Hc3 & H0);
    [done|done|apply length_replicate|].
  assert (P : vector_pending (mkVectorIterator m vec3 index') ps3 ls3) by (split_and!; [done|done|done|done|]; intros E; apply H0; by rewrite <- L3, E).
  destruct (batches_pending (length (concat L)) _ _ _ P) as (bs & Eb & Pb & Fb); [unfold left_over; cbn [table_dir_index_]; by rewrite Hc3|].
  exists (mkVectorIterator m vec3 index'), bs. split_and!; [|done|by rewrite Pb; unfold left_over; cbn [table_dir_index_]; rewrite Hc3|done].
  unfold new_vector_iterator, vector_Next. cbn [entry_vec_ entry_vec_end_idx_ table_dir_index_ follow_all compact mbind option_bind]. rewrite drop_0.
  by rewrite E3.
Qed.
End iteration.

(** * Flushing *)

Section flushing.
Context (UseTags : bool).

Lemma flush_reads s fuel : forall Ls t idx, Forall2 (fun p l => chain s (untag UseTags p) l) (drop idx (entries_ t)) Ls ->
  (length (concat Ls) <= fuel)%nat -> exists t', flush_from UseTags (length Ls) idx fuel t s = Some (concat Ls, t') /\
    entries_ t' = take idx (entries_ t) ++ replicate (length Ls) nullptr /\ mask_ t' = mask_ t /\ capacity_ t' = capacity_ t.
Proof.
  induction Ls as [|l Ls IH]; intros t idx F Hf.
  - exists t. apply Forall2_nil_inv_r in F. cbn [flush_from length concat replicate]. rewrite app_nil_r. split_and!; try done.
    rewrite <- (take_drop idx (entries_ t)) at 1. by rewrite F, app_nil_r.
  - apply Forall2_cons_inv_r in F as (p & dir & C & F & Ed). cbn [concat] in Hf |- *. rewrite length_app in Hf.
    assert (Hp : entries_ t !! idx = Some p) by (rewrite <- (Nat.add_0_r idx), <- lookup_drop, Ed; done).
    pose proof (lookup_lt_Some _ _ _ Hp) as Li. cbn [flush_from length]. rewrite Hp. cbn [mbind option_bind].
    rewrite (chain_follow _ _ _ _ C) by lia. cbn [mbind option_bind].
    destruct (IH (set_head (Z.of_nat idx) nullptr t) (S idx)) as (t' & E & Et & Em & Ec); [|lia|].
    { cbn [entries_ set_head]. rewrite Nat2Z.id, drop_insert_lt by lia. by rewrite <- (Nat.add_1_r idx), <- drop_drop, Ed. }
    rewrite E. exists t'. split_and!; [done| |done|done]. rewrite Et. cbn [entries_ set_head replicate]. rewrite Nat2Z.id.
    rewrite (take_S_r _ _ nullptr) by (by rewrite list_lookup_insert_eq). rewrite take_insert_ge by lia. by rewrite <- app_assoc.
Qed.

Lemma flush_ok t s L : table_ok UseTags t s L -> exists t', FlushEntries UseTags (length (concat L)) t s = Some (concat L, t') /\
  num_elements_ t' = 0 /\ table_ok UseTags t' s (replicate (length L) []).
Proof.
  intros T. pose proof (ok_length _ _ _ _ T) as Hl. pose proof (ok_chains _ _ _ _ T) as HL. pose proof (buckets_from UseTags t s L T 0) as B. rewrite !drop_0 in B.
  destruct (flush_reads s (length (concat L)) L t 0) as (t' & E & Et & Em & Ec); [by rewrite drop_0|done|].
  unfold FlushEntries. rewrite <- Hl, <- HL, E. cbn [mbind option_bind]. eexists. split; [reflexivity|]. split; [done|].
  rewrite take_0 in Et. cbn [app] in Et. split; cbn [entries_ mask_ capacity_].
  - rewrite Em, Ec. apply T.
  - by rewrite Et, length_replicate, Ec, HL.
  - by rewrite Et, !length_replicate.
  - intros i p l Hp Hl'. rewrite Et in Hp. apply lookup_replicate in Hp as [-> _]. apply lookup_replicate in Hl' as [-> _]. simpl. by destruct UseTags.
  - intros i l x Hl' Hx. apply lookup_replicate in Hl' as [-> _]. by apply elem_of_nil in Hx.
  - intros _ i p l x e _ Hl' Hx. apply lookup_replicate in Hl' as [-> _]. by apply elem_of_nil in Hx.
Qed.
End flushing.

(** * Concurrent insertion *)

Section concurrency.
Context (UseTags : bool).
Local Abbreviation table_ok := (table_ok UseTags).
Local Abbreviation step := (step UseTags).

(** The entries a thread has not put into the table. *)
Definition unlinked (th : thread) : list Z :=
  match th with Idle todo | Counting todo => todo | Read x _ todo | Linked x _ _ todo => x :: todo end.
Definition all_unlinked (ts : list thread) : list Z := concat (map unlinked ts).
Definition counting (th : thread) : nat := match th with Counting _ => 1 | _ => 0 end.

(** An entry that a thread has linked points to what the thread has read. *)
Definition thread_ok (s : store) (th : thread) : Prop :=
  match th with
  | Linked x old new _ => exists e, s !! x = Some e /\ next e = untag UseTags old /\
      (if UseTags then UpdateTag old x s else Some x) = Some new
  | _ => True
  end.

Record config_ok (s0 : store) (all : list Z) (c : config) (L : list (list Z)) : Prop := {
  ok_table : table_ok c.1.1 c.1.2 L;
  ok_entries : Forall (entry_ok c.1.2) all;
  ok_all : concat L ++ all_unlinked c.2 ≡ₚ all;
  ok_threads : forall i th, c.2 !! i = Some th -> thread_ok c.1.2 th;
  ok_count : wrapu 64 (num_elements_ c.1.1 + Z.of_nat (sum_list_with counting c.2)) = wrapu 64 (Z.of_nat (length (concat L)));
  ok_hashes : forall h x, has_hash c.1.2 h x = has_hash s0 h x
}.

Lemma sum_insert {A} (f : A -> nat) l i x y : l !! i = Some x -> (sum_list_with f (<[i := y]> l) + f x = sum_list_with f l + f y)%nat.
Proof.
  revert i. induction l as [|z l IH]; intros [|i] E; simpl in *; try done; [injection E as ->; lia|]. specialize (IH i E). lia.
Qed.

Lemma unlinked_insert ts i th th' : ts !! i = Some th ->
  exists A B, all_unlinked ts ≡ₚ unlinked th ++ A ++ B /\ all_unlinked (<[i := th']> ts) ≡ₚ unlinked th' ++ A ++ B.
Proof.
  intros E. exists (concat (take i (map unlinked ts))), (concat (drop (S i) (map unlinked ts))). unfold all_unlinked.
  assert (Em : map unlinked ts !! i = Some (unlinked th)) by (change (map unlinked ts) with (unlinked <$> ts); by rewrite list_lookup_fmap, E).
  assert (map unlinked (<[i := th']> ts) = <[i := unlinked th']> (map unlinked ts)) as -> by apply list_fmap_insert.
  rewrite (concat_split _ i (unlinked th)) by done. rewrite (concat_insert _ i (unlinked th)) by done.
  split; apply Permutation_app_swap_app.
Qed.

(** Entries that two threads have not linked are different. *)
Lemma unlinked_disjoint ts i j th th' x : NoDup (all_unlinked ts) -> ts !! i = Some th -> ts !! j = Some th' -> i <> j ->
  x ∈ unlinked th -> x ∉ unlinked th'.
Proof.
  intros ND Hi Hj Ne Hx Hx'. destruct (unlinked_insert ts i th (Idle []) Hi) as (A & B & P & P').
  rewrite P in ND. apply NoDup_app in ND as (_ & D & _). apply (D x Hx). cbn [unlinked app] in P'. rewrite <- P'.
  apply elem_of_concat. exists j, (unlinked th'). split; [|done].
  change (map unlinked ?l) with (unlinked <$> l). by rewrite list_lookup_fmap, list_lookup_insert_ne, Hj.
Qed.

(** A step that changes neither the table nor what is unlinked. *)
Lemma local_step s0 all t s s' ts L i th th' : config_ok s0 all ((t, s), ts) L -> ts !! i = Some th ->
  table_ok t s' L -> Forall (entry_ok s') all -> (forall h x, has_hash s' h x = has_hash s h x) ->
  unlinked th' = unlinked th -> counting th' = counting th -> thread_ok s' th' ->
  (forall j th, j <> i -> ts !! j = Some th -> thread_ok s' th) -> config_ok s0 all ((t, s'), <[i := th']> ts) L.
Proof.
  intros [T E P Th Cn Hh] Hi T' E' Hs U C Ht Ho. cbn [fst snd] in *. split; cbn [fst snd]; [done|done| | | |].
  - rewrite <- P. f_equiv. destruct (unlinked_insert ts i th th' Hi) as (A & B & P1 & P2). by rewrite P1, P2, U.
  - intros j th2 Hj. apply list_lookup_insert_Some in Hj as [(-> & <- & _)|(Nj & Hj)]; [done|]. by apply (Ho j).
  - rewrite <- Cn. pose proof (sum_insert counting ts i th th' Hi). do 3 f_equal. lia.
  - intros h x. by rewrite Hs.
Qed.

Lemma step_ok b s0 all c c' L : NoDup all -> config_ok s0 all c L -> step b c c' -> exists L', config_ok s0 all c' L'.
Proof.
  intros ND O St. destruct St as [σ ts σ' i th th' Hi St]. pose proof O as [T E P Th Cn Hh]. cbn [fst snd] in *.
  assert (NDu : NoDup (all_unlinked ts)) by (rewrite <- P in ND; by apply NoDup_app in ND as (_ & _ & ?)).
  assert (In : forall x, x ∈ unlinked th -> x ∈ all /\ x ∉ concat L).
  { intros x Hx. destruct (unlinked_insert ts i th th Hi) as (A & B & P1 & _).
    assert (Hu : x ∈ all_unlinked ts) by (rewrite P1; apply elem_of_app; by left). split; [rewrite <- P; apply elem_of_app; by right|].
    rewrite <- P in ND. apply NoDup_app in ND as (_ & D & _). intros D'. by apply (D x). }
  destruct St as [t s x todo e old He Ho|t s s' x old new todo Hn Hw|t s x old new todo e He Ho|t s x old new cur todo e He Ho Hc|t s x old new todo e He Ho|t s todo]; cbn [fst snd] in *.
  - exists L. apply (local_step s0 all t s s ts L i (Idle (x :: todo))); try done. intros j th2 _ Hj. by apply (Th j).
  - exists L. destruct (In x) as [Hx Nx]; [by left|]. apply (local_step s0 all t s s' ts L i (Read x old todo)); try done.
    + apply (table_frame UseTags t s); [done|]. intros y Hy. eapply set_next_frame; [done|]. by intros ->.
    + eapply Forall_impl; [exact E|]. intros y. by apply (set_next_entry s x (untag UseTags old)).
    + intros h y. by eapply set_next_hash.
    + unfold set_next in Hn. destruct (s !! x) as [ex|]; [|done]. cbn [mbind option_bind] in Hn. injection Hn as <-.
      eexists. split; [apply lookup_insert_eq|]. done.
    + intros j th2 Nj Hj. pose proof (Th j th2 Hj) as Ok. destruct th2 as [| |y old2 new2 todo2|]; [done|done| |done].
      assert (x <> y) as Nxy by (intros ->; apply (unlinked_disjoint ts i j _ _ y NDu Hi Hj); [done|by left|by left]).
      destruct Ok as (ey & Hy & Hny & Hwy). pose proof (set_next_frame _ _ _ _ y Hn Nxy) as Fr. exists ey. rewrite Fr. split_and!; [done|done|].
      destruct UseTags; [|done]. unfold UpdateTag in *. by rewrite Fr.
  - destruct (In x) as [Hx Nx]; [by left|]. destruct (Th i _ Hi) as (e' & He' & Hnx & Hw). rewrite He in He'. injection He' as <-.
    apply (proj1 (Forall_forall _ _) E) in Hx as (e' & He' & Px & Hxh). rewrite He in He'. injection He' as <-.
    destruct (bucket _ _ _ _ _ T Hxh) as (k & old' & l & Hk & Hkn & Hold & Hl). unfold head_of in Ho. rewrite Hkn, Hold in Ho. injection Ho as ->.
    pose proof (table_push UseTags t s L x e old new l T He Px Hxh) as Tp. cbn zeta in Tp. rewrite Hkn in Tp. specialize (Tp Hold Hl Hnx Hw).
    exists (<[k := x :: l]> L). split; cbn [fst snd]; [done|done| | | |done].
    + rewrite <- P. rewrite (concat_push L k l x Hl). destruct (unlinked_insert ts i _ (Counting todo) Hi) as (A & B & P1 & P2).
      rewrite P1, P2. cbn [unlinked app]. rewrite Permutation_middle. done.
    + intros j th2 Hj. apply list_lookup_insert_Some in Hj as [(-> & <- & _)|(Nj & Hj)]; [done|by apply (Th j)].
    + rewrite (Permutation_length (concat_push L k l x Hl)). cbn [length num_elements_ set_head].
      pose proof (sum_insert counting ts i _ (Counting todo) Hi) as Sm. cbn [counting] in Sm.
      replace (Z.of_nat (sum_list_with counting (<[i := Counting todo]> ts))) with (Z.of_nat (sum_list_with counting ts) + 1) by lia.
      rewrite Z.add_assoc. unfold wrapu in *. rewrite Zplus_mod, Cn, <- Zplus_mod. f_equal. lia.
  - exists L. apply (local_step s0 all t s s ts L i (Linked x old new todo)); try done. intros j th2 _ Hj. by apply (Th j).
  - exists L. apply (local_step s0 all t s s ts L i (Linked x old new todo)); try done. intros j th2 _ Hj. by apply (Th j).
  - exists L. split; cbn [fst snd]; [by apply count_ok|done| | | |done].
    + rewrite <- P. f_equiv. destruct (unlinked_insert ts i _ (Idle todo) Hi) as (A & B & P1 & P2). by rewrite P1, P2.
    + intros j th2 Hj. apply list_lookup_insert_Some in Hj as [(-> & <- & _)|(Nj & Hj)]; [done|by apply (Th j)].
    + rewrite <- Cn. pose proof (sum_insert counting ts i _ (Idle todo) Hi) as Sm. cbn [counting] in Sm.
      cbn [num_elements_ AddElementCount]. unfold wrapu. rewrite Zplus_mod_idemp_l. f_equal. lia.
Qed.

Lemma steps_ok s0 all c c' L : NoDup all -> config_ok s0 all c L -> rtc (any_step UseTags) c c' -> exists L', config_ok s0 all c' L'.
Proof.
  intros ND O R. revert L O. induction R as [|c c1 c2 [b St] _ IH]; intros L O; [by exists L|].
  destruct (step_ok _ _ _ _ _ _ ND O St) as [L1 O1]. by apply (IH L1).
Qed.

(** ** Every schedule ends *)

Definition current_head (t : ChainingHashTable) (s : store) (x : Z) : option Z := e ← s !! x; head_of (BucketPosition (hash e) t) t.

(** How many steps of its own a thread still has, if no other one gets in its way again. *)
Definition effort (t : ChainingHashTable) (s : store) (th : thread) : nat :=
  match th with
  | Idle todo => 4 * length todo
  | Read x old todo => 4 * length todo + (if bool_decide (current_head t s x = Some old) then 3 else 5)
  | Linked x old new todo => 4 * length todo + (if bool_decide (current_head t s x = Some old) then 2 else 4)
  | Counting todo => 4 * length todo + 1
  end.
Definition measure (c : config) : nat :=
  sum_list_with (effort c.1.1 c.1.2) c.2 + 2 * length c.2 * length (all_unlinked c.2).

Lemma effort_same t t' s s' th : (forall x, current_head t' s' x = current_head t s x) -> effort t' s' th = effort t s th.
Proof. intros Hx. destruct th; simpl; by rewrite ?Hx. Qed.
Lemma effort_more t t' s s' th : (effort t' s' th <= effort t s th + 2)%nat.
Proof. destruct th; simpl; repeat case_bool_decide; lia. Qed.

Lemma sum_le {A} (f g : A -> nat) l k : (forall x, (f x <= g x + k)%nat) -> (sum_list_with f l <= sum_list_with g l + k * length l)%nat.
Proof. intros Hx. induction l as [|x l IH]; simpl; [lia|]. pose proof (Hx x). lia. Qed.
Lemma sum_ext {A} (f g : A -> nat) l : (forall x, f x = g x) -> sum_list_with f l = sum_list_with g l.
Proof. intros Hx. induction l as [|x l IH]; simpl; [done|]. by rewrite Hx, IH. Qed.

Lemma head_load t s x e old : s !! x = Some e -> head_of (BucketPosition (hash e) t) t = Some old -> current_head t s x = Some old.
Proof. unfold current_head. intros ->. done. Qed.

Lemma head_next t s s' x p : set_next x p s = Some s' -> forall y, current_head t s' y = current_head t s y.
Proof.
  unfold set_next, current_head. destruct (s !! x) as [e|] eqn:E; [|done]. cbn [mbind option_bind]. injection 1 as <-. intros y.
  destruct (decide (x = y)) as [<-|]; [by rewrite lookup_insert_eq, E|by rewrite lookup_insert_ne].
Qed.

Lemma step_measure c c' : step false c c' -> (measure c' < measure c)%nat.
Proof.
  intros St. destruct St as [σ ts σ' i th th' Hi St]. unfold measure. cbn [fst snd]. rewrite length_insert.
  destruct (unlinked_insert ts i th th' Hi) as (A & B & P & P').
  pose proof (Permutation_length P) as Lu. pose proof (Permutation_length P') as Lu'. rewrite !length_app in Lu, Lu'. rewrite Lu, Lu'. clear P P' Lu Lu'.
  assert (Same : forall t s t' s', (forall x, current_head t' s' x = current_head t s x) -> unlinked th' = unlinked th ->
    (effort t' s' th' < effort t s th)%nat -> (sum_list_with (effort t' s') (<[i := th']> ts) +
      2 * length ts * (length (unlinked th') + (length A + length B)) < sum_list_with (effort t s) ts +
      2 * length ts * (length (unlinked th) + (length A + length B)))%nat).
  { intros t s t' s' Hh U Lt. rewrite U. apply Nat.add_lt_mono_r.
    pose proof (sum_insert (effort t' s') ts i th th' Hi) as Sm. rewrite (sum_ext (effort t' s') (effort t s) ts), (effort_same t t' s s' th) in Sm; [lia|done|].
    intros y. by apply effort_same. }
  inversion St; subst; cbn [fst snd].
  - apply Same; [done|done|]. simpl. rewrite (head_load t s entry e old), bool_decide_true by done. lia.
  - apply Same; [by eapply head_next|done|]. simpl. rewrite (head_next t s s' entry (untag UseTags old)) by done. case_bool_decide; lia.
  - pose proof (sum_insert (effort (set_head (BucketPosition (hash e) t) new t) s) ts i _ (Counting todo) Hi) as Sm.
    pose proof (sum_insert (effort t s) ts i _ (Counting todo) Hi) as Sm0.
    pose proof (sum_le (effort (set_head (BucketPosition (hash e) t) new t) s) (effort t s) (<[i := Counting todo]> ts) 2 (effort_more _ _ _ _)) as Le.
    rewrite length_insert in Le. cbn [unlinked length]. simpl effort in Sm0.
    rewrite (head_load t s entry e old), bool_decide_true in Sm0 by done. lia.
  - apply Same; [done|done|]. simpl. rewrite (head_load t s entry e cur) by done. rewrite (bool_decide_true (Some cur = Some cur)), (bool_decide_false (Some cur = Some old)) by congruence. lia.
  - apply Same; [done|done|]. simpl. lia.
Qed.

Lemma steps_measure n c c' : nsteps (step false) n c c' -> (n + measure c' <= measure c)%nat.
Proof. induction 1 as [|n c1 c2 c3 St _ IH]; [lia|]. pose proof (step_measure _ _ St). lia. Qed.

Lemma measure_bound c : (measure c <= (5 + 2 * length c.2) * length (all_unlinked c.2) + length c.2)%nat.
Proof.
  destruct c as [[t s] ts]. unfold measure. cbn [fst snd].
  assert (sum_list_with (effort t s) ts <= 5 * length (all_unlinked ts) + length ts)%nat; [|lia].
  induction ts as [|th ts IH]; [done|]. unfold all_unlinked in *. simpl. rewrite length_app.
  assert (effort t s th <= 5 * length (unlinked th) + 1)%nat; [|lia]. destruct th; simpl; repeat case_bool_decide; lia.
Qed.

(** A thread that is not finished can go on. *)
Lemma step_possible s0 all c L : NoDup all -> config_ok s0 all c L -> ~ Forall finished c.2 -> exists c', step false c c'.
Proof.
  intros ND [T E P Th Cn Hh] Nf. destruct c as [[t s] ts]. cbn [fst snd] in *.
  apply not_Forall_Exists in Nf; [|intros th; destruct th as [[|]| | |]; (by left) || (right; done)].
  apply Exists_exists in Nf as (th & Hin & Nth). apply list_elem_of_lookup_1 in Hin as [i Hi].
  assert (Ent : forall x, x ∈ unlinked th -> exists e, s !! x = Some e /\ pointer_ok x /\ is_uint 64 (hash e) /\ exists p, head_of (BucketPosition (hash e) t) t = Some p).
  { intros x Hx. assert (x ∈ all) as Ha.
    { rewrite <- P. apply elem_of_app. right. destruct (unlinked_insert ts i th th Hi) as (A & B & P1 & _). rewrite P1. apply elem_of_app. by left. }
    apply (proj1 (Forall_forall _ _) E) in Ha as (e & He & Px & He64). exists e. split_and!; [done|done|done|].
    destruct (bucket _ _ _ _ _ T He64) as (k & p & l & _ & Hk & Hp & _). exists p. unfold head_of. by rewrite Hk. }
  assert (G : forall σ' th', thread_step UseTags false (t, s) th σ' th' -> exists c', step false ((t, s), ts) c').
  { intros σ' th' Hs. eexists. by econstructor. }
  destruct th as [[|x todo]|x old todo|x old new todo|todo].
  - by destruct Nth.
  - destruct (Ent x) as (e & He & _ & _ & p & Hp); [by left|]. eapply G. by eapply step_load.
  - destruct (Ent x) as (e & He & Px & Hx64 & _); [by left|].
    set (s' := <[x := mkEntry (untag UseTags old) (hash e)]> s).
    assert (Hs : set_next x (untag UseTags old) s = Some s') by (unfold set_next; by rewrite He).
    assert (exists w, (if UseTags then UpdateTag old x s' else Some x) = Some w) as [w Hw].
    { destruct UseTags; [|by exists x]. unfold UpdateTag, s'. rewrite lookup_insert_eq. cbn [mbind option_bind]. by eexists. }
    eapply G. by eapply step_link.
  - destruct (Ent x) as (e & He & _ & _ & p & Hp); [by left|]. destruct (decide (p = old)) as [->|N].
    + eapply G. by eapply step_exchange.
    + eapply G. by eapply step_retry.
  - eapply G. by eapply step_count.
Qed.
End concurrency.

Lemma exec_step UseTags σ th σ' th' : exec UseTags σ th = Some (σ', th') -> thread_step UseTags false σ th σ' th'.
Proof.
  destruct σ as [t s]. destruct th as [[|x todo]|x old todo|x old new todo|todo]; cbn [exec]; [done|..].
  - destruct (s !! x) as [e|] eqn:E; [|done]. cbn [mbind option_bind]. destruct (head_of _ t) as [old|] eqn:Eh; [|done]. cbn [mbind option_bind].
    injection 1 as <- <-. by eapply step_load.
  - destruct (set_next _ _ s) as [s'|] eqn:E; [|done]. cbn [mbind option_bind]. destruct (if UseTags then _ else _) as [new|] eqn:Eh; [|done]. cbn [mbind option_bind].
    injection 1 as <- <-. by eapply step_link.
  - destruct (s !! x) as [e|] eqn:E; [|done]. cbn [mbind option_bind]. destruct (head_of _ t) as [cur|] eqn:Eh; [|done]. cbn [mbind option_bind].
    case_decide as D; injection 1 as <- <-; [subst cur; by eapply step_exchange|by eapply step_retry].
  - injection 1 as <- <-. apply step_count.
Qed.

Lemma run_steps UseTags schedule c c' : run UseTags schedule c = Some c' -> rtc (any_step UseTags) c c'.
Proof.
  revert c. induction schedule as [|i schedule IH]; intros [σ ts] E; [injection E as <-; apply rtc_refl|]. cbn [run fst snd] in E.
  destruct (ts !! i) as [th|] eqn:Hi; [|done]. cbn [mbind option_bind] in E. destruct (exec UseTags σ th) as [[σ' th']|] eqn:Ex; [|done].
  cbn [mbind option_bind] in E. eapply rtc_l; [|exact (IH _ E)]. exists false. eapply step_thread; [exact Hi|]. by apply exec_step.
Qed.

(** * A batch is one insertion after the other *)

Lemma entry_count UseTags n x h t s : InsertEntry UseTags x h (AddElementCount n t) s =
  ('(t', s') ← InsertEntry UseTags x h t s; Some (AddElementCount n t', s')).
Proof.
  unfold InsertEntry, InsertTagged, InsertUntagged, head_of. change (entries_ (AddElementCount n t)) with (entries_ t).
  change (BucketPosition h (AddElementCount n t)) with (BucketPosition h t).
  destruct UseTags; destruct (entries_ t !! _) as [old|]; cbn [mbind option_bind]; try done; destruct (set_next _ _ s) as [s'|]; cbn [mbind option_bind]; try done.
  destruct (UpdateTag old x s') as [w|]; done.
Qed.

Lemma batch_count UseTags n es t s : InsertBatchInternal UseTags es (AddElementCount n t) s =
  ('(t', s') ← InsertBatchInternal UseTags es t s; Some (AddElementCount n t', s')).
Proof.
  revert t s. induction es as [|x es IH]; intros t s; [done|]. cbn [InsertBatchInternal]. destruct (s !! x) as [e|]; [|done]. cbn [mbind option_bind].
  rewrite entry_count. destruct (InsertEntry UseTags x (hash e) t s) as [[t' s']|]; [|done]. cbn [mbind option_bind]. apply IH.
Qed.

Lemma count_count n m t : AddElementCount n (AddElementCount m t) = AddElementCount (m + n) t.
Proof. unfold AddElementCount. cbn [entries_ mask_ capacity_ load_factor_ num_elements_]. f_equal. unfold wrapu. rewrite Zplus_mod_idemp_l. f_equal. lia. Qed.

Lemma batch_all UseTags es t s : is_uint 64 (num_elements_ t) -> InsertBatch UseTags es t s = InsertAll UseTags es t s.
Proof.
  intros Hn. unfold InsertBatch. revert t s Hn. induction es as [|x es IH]; intros t s Hn.
  - cbn [InsertBatchInternal InsertAll mbind option_bind length]. destruct t. unfold AddElementCount. cbn. rewrite Z.add_0_r, wrapu_small by done. done.
  - cbn [InsertBatchInternal InsertAll]. unfold Insert. destruct (s !! x) as [e|]; [|done]. cbn [mbind option_bind].
    destruct (InsertEntry UseTags x (hash e) t s) as [[t' s']|]; [|done]. cbn [mbind option_bind].
    rewrite <- IH by (by apply wrapu_range). rewrite batch_count. destruct (InsertBatchInternal UseTags es t' s') as [[t2 s2]|]; [|done].
    cbn [mbind option_bind]. rewrite count_count. cbn [length]. do 3 f_equal. lia.
Qed.

Lemma fold_count (es : list Z) n : is_uint 64 n -> fold_left (fun n _ => wrapu 64 (n + 1)) es n = wrapu 64 (n + Z.of_nat (length es)).
Proof.
  revert n. induction es as [|x es IH]; intros n Hn; [by rewrite Z.add_0_r, wrapu_small|]. cbn [fold_left length].
  rewrite IH by (by apply wrapu_range). unfold wrapu. rewrite Zplus_mod_idemp_l. f_equal. lia.
Qed.

(** ** The theorems *)

(** What a table is good for: from the head of its bucket an entry is found by its hash, and iterators read all. *)
Lemma table_reads UseTags t s L n : table_ok UseTags t s L -> (length (concat L) <= n)%nat ->
  (forall h, is_uint 64 h -> exists p c, FindChainHead UseTags h t = Some p /\ follow n p s = Some c /\
     with_hash s h c = with_hash s h (concat L) /\
     Lookup UseTags n h t s = Some (default nullptr (head (with_hash s h (concat L))))).
Proof.
  intros T Hn h Hh. destruct (find_chain UseTags t s L h T Hh) as (p & c & E & C & W & Lc). exists p, c. split_and!; [done| |exact W|].
  - apply (chain_follow _ _ _ _ C). lia.
  - unfold Lookup. rewrite E. cbn [mbind option_bind]. rewrite (chain_skip_to s p c n h C) by lia. by rewrite W.
Qed.

Lemma start_ok `{PowerOpsSpec} UseTags n t s todos : 0 <= n <= 2 ^ 62 -> Forall (entry_ok s) (concat todos) ->
  exists L, config_ok UseTags s (concat todos) ((SetSize n t, s), map Idle todos) L.
Proof.
  intros Hn F. destruct (set_size_ok UseTags n t s Hn) as (m & T & _ & E). exists (replicate m []). split; cbn [fst snd]; [done|done| | | |done].
  - rewrite concat_replicate_nil. unfold all_unlinked. rewrite map_map. cbn [app]. by rewrite map_id.
  - intros i th Hi. change (map Idle todos) with (Idle <$> todos) in Hi. rewrite list_lookup_fmap in Hi. destruct (todos !! i); [|done]. by injection Hi as <-.
  - rewrite E, concat_replicate_nil. f_equal. induction todos as [|x todos IH]; [done|]. simpl in F |- *. apply Forall_app in F as [_ F]. by apply IH.
Qed.

(** C15: Entries inserted one after the other or in a batch: for every hash, the bucket that a probe is sent to has
    exactly the entries with that hash among its own, the last one first; the first entry that
    [JoinHashTable::Lookup] returns is the last inserted one with the hash, or none; both iterators read every entry once, the vectorised
    one in batches that are not empty and not too long; flushing hands out every entry and leaves the table
    empty.  This holds with tagged pointers and without. *)
Theorem chaining_hash_table_correct `{PowerOpsSpec} UseTags n es t s :
  0 <= n <= 2 ^ 62 -> NoDup es -> Forall (entry_ok s) es ->
  exists t' s', InsertAll UseTags es (SetSize n t) s = Some (t', s') /\ InsertBatch UseTags es (SetSize n t) s = Some (t', s') /\
    n <= GetCapacity t' /\ GetElementCount t' = wrapu 64 (Z.of_nat (length es)) /\
    (forall h, is_uint 64 h -> exists p c, FindChainHead UseTags h t' = Some p /\ follow (length es) p s' = Some c /\
       with_hash s h c = with_hash s h (reverse es) /\
       Lookup UseTags (length es) h t' s' = Some (default nullptr (head (with_hash s h (reverse es))))) /\
    (exists it l, new_iterator UseTags t' s' = Some it /\ iterate UseTags (length es) t' s' it = Some l /\ l ≡ₚ es) /\
    (exists it bs, new_vector_iterator UseTags t' s' = Some it /\ batches UseTags (length es) t' s' it = Some bs /\ concat bs ≡ₚ es /\
       Forall (fun b => 0 < length b <= kDefaultVectorSize)%nat bs) /\
    (exists l t2, FlushEntries UseTags (length es) t' s' = Some (l, t2) /\ l ≡ₚ es /\ IsEmpty t2 = true).
Proof.
  intros Hn ND F. destruct (set_size_ok UseTags n t s Hn) as (m & T & Hc & E0).
  destruct (insert_all UseTags es (SetSize n t) s (replicate m []) T F ND) as (t' & s' & L & E & T' & P & W & N & Hk).
  { intros x _. rewrite concat_replicate_nil. apply not_elem_of_nil. }
  rewrite concat_replicate_nil, app_nil_r in P. pose proof (Permutation_length P) as Lp. rewrite E0 in N.
  assert (Hcap : capacity_ t' = capacity_ (SetSize n t)).
  { clear - E. revert E. generalize (SetSize n t). revert s. induction es as [|x es IH]; intros s u E; [by injection E as <- <-|].
    cbn [InsertAll] in E. unfold Insert, InsertEntry, InsertTagged, InsertUntagged in E. destruct (s !! x) as [e|]; [|done]. cbn [mbind option_bind] in E.
    destruct UseTags; destruct (head_of _ u); cbn [mbind option_bind] in E; try done; destruct (set_next _ _ s); cbn [mbind option_bind] in E; try done.
    - destruct (UpdateTag _ _ _); [|done]. cbn [mbind option_bind] in E. by rewrite (IH _ _ E).
    - by rewrite (IH _ _ E). }
  assert (Wh : forall h l, with_hash s' h l = with_hash s h l).
  { intros h l. unfold with_hash. apply list_filter_iff. intros x. by rewrite Hk. }
  exists t', s'. split_and!.
  - done.
  - rewrite batch_all; [done|]. rewrite E0. by split.
  - unfold GetCapacity. by rewrite Hcap.
  - unfold GetElementCount. rewrite N, fold_count by (by split). done.
  - intros h Hh. destruct (table_reads UseTags t' s' L (length es) T' ltac:(lia) h Hh) as (p & c & E1 & E2 & E3 & E4). exists p, c.
    rewrite W in E3, E4. rewrite Wh in E3. rewrite concat_replicate_nil in E3, E4. cbn [filter list_filter] in E3, E4.
    unfold with_hash at 3 in E3. unfold with_hash at 2 in E4. cbn [filter list_filter] in E3, E4. rewrite app_nil_r in E3, E4. done.
  - destruct (iterator_reads UseTags t' s' L T') as (it & E1 & E2). exists it, (concat L). rewrite <- Lp. done.
  - destruct (vector_iterator_reads UseTags t' s' L T') as (it & bs & E1 & E2 & E3 & E4). exists it, bs. rewrite <- Lp. split_and!; [done|done|by rewrite E3|done].
  - destruct (flush_ok UseTags t' s' L T') as (t2 & E1 & E2 & _). exists (concat L), t2. rewrite <- Lp. split_and!; [done|done|]. unfold IsEmpty, GetElementCount. by rewrite E2.
Qed.

(** C14: Threads that insert concurrently, with compare-and-exchange, in any interleaving of their accesses to memory and with any spurious failures: when
    all are done, every entry of every thread is in the table, found by its hash, and counted. *)
Theorem concurrent_insertions_all_land `{PowerOpsSpec} UseTags n todos t s t' s' ts' :
  0 <= n <= 2 ^ 62 -> NoDup (concat todos) -> Forall (entry_ok s) (concat todos) ->
  rtc (any_step UseTags) ((SetSize n t, s), map Idle todos) ((t', s'), ts') -> Forall finished ts' ->
  let es := concat todos in
  GetElementCount t' mod 2 ^ 64 = wrapu 64 (Z.of_nat (length es)) /\
  (forall h, is_uint 64 h -> exists p c, FindChainHead UseTags h t' = Some p /\ follow (length es) p s' = Some c /\ with_hash s h c ≡ₚ with_hash s h es) /\
  (exists it l, new_iterator UseTags t' s' = Some it /\ iterate UseTags (length es) t' s' it = Some l /\ l ≡ₚ es).
Proof.
  intros Hn ND F R Fin es. destruct (start_ok UseTags n t s todos Hn F) as [L0 O].
  destruct (steps_ok UseTags s (concat todos) _ _ L0 ND O R) as [L [T E P Th Cn Hk]]. cbn [fst snd] in *.
  assert (all_unlinked ts' = [] /\ sum_list_with counting ts' = 0%nat) as [U C0].
  { clear - Fin. unfold all_unlinked. induction Fin as [|th ts' -> Fin [IH1 IH2]]; [done|]. simpl. by rewrite IH1, IH2. }
  rewrite U, app_nil_r in P. pose proof (Permutation_length P) as Lp. rewrite C0, Z.add_0_r, Lp in Cn. split_and!.
  - exact Cn.
  - intros h Hh. destruct (table_reads UseTags t' s' L (length es) T ltac:(unfold es; lia) h Hh) as (p & c & E1 & E2 & E3 & _). exists p, c. split_and!; [done|done|].
    assert (Wh : forall l, with_hash s' h l = with_hash s h l) by (intros l; unfold with_hash; apply list_filter_iff; intros x; by rewrite Hk).
    rewrite <- Wh, E3, Wh. unfold with_hash. by rewrite P.
  - destruct (iterator_reads UseTags t' s' L T) as (it & E1 & E2). exists it, (concat L). unfold es. rewrite <- Lp. done.
Qed.

(** C19: Concurrent insertion is lock-free: from any reachable state, a run without spurious failures ends after a number of steps that the threads and
    entries bound, whatever the schedule; and as long as a thread has something to do, some step is
    possible. *)
Theorem concurrent_insertions_end `{PowerOpsSpec} UseTags n todos t s c :
  0 <= n <= 2 ^ 62 -> NoDup (concat todos) -> Forall (entry_ok s) (concat todos) ->
  rtc (any_step UseTags) ((SetSize n t, s), map Idle todos) c ->
  (forall k c', nsteps (step UseTags false) k c c' -> (k <= (5 + 2 * length c.2) * length (concat todos) + length c.2)%nat) /\
  (~ Forall finished c.2 -> exists c', step UseTags false c c').
Proof.
  intros Hn ND F R. destruct (start_ok UseTags n t s todos Hn F) as [L0 O]. destruct (steps_ok UseTags s (concat todos) _ _ L0 ND O R) as [L O'].
  split; [|by eapply step_possible]. intros k c' Hk. pose proof (steps_measure UseTags _ _ _ Hk) as M. pose proof (measure_bound c) as B.
  pose proof (Permutation_length (ok_all _ _ _ _ _ O')) as Lp. rewrite length_app in Lp.
  assert ((5 + 2 * length c.2) * length (all_unlinked c.2) <= (5 + 2 * length c.2) * length (concat todos))%nat by (apply Nat.mul_le_mono_l; lia). lia.
Qed.

(** ** Applied *)

#[local] Instance power_ops : PowerOps := {| powerOf2Ceil v := 2 ^ Z.log2_up v |}.
#[local] Instance power_ops_spec : PowerOpsSpec.
Proof. by split. Qed.

(** Three entries of one bucket, two of them with the same hash. *)
Definition some_store : store := {[ 4096 := mkEntry 0 5; 8192 := mkEntry 0 21; 12288 := mkEntry 0 5 ]}.
Definition some_table : ChainingHashTable := SetSize 3 (new_table (S754_finite false 11744051 (-24))).
Lemma some_entries_ok es : Forall (fun x => x = 4096 \/ x = 8192 \/ x = 12288) es -> Forall (entry_ok some_store) es.
Proof.
  intros F. eapply Forall_impl; [exact F|]. intros x Hx. destruct Hx as [E|[E|E]]; subst x; eexists; (split; [reflexivity|]);
    (split; [unfold pointer_ok; lia|split; cbn; lia]).
Qed.

Lemma chaining_hash_table_correct_witness : exists t' s',
  InsertAll true [4096; 8192; 12288] some_table some_store = Some (t', s') /\ GetElementCount t' = 3 /\
  Lookup true 3 5 t' s' = Some 12288 /\ Lookup true 3 21 t' s' = Some 8192 /\ Lookup true 3 37 t' s' = Some nullptr.
Proof.
  destruct (chaining_hash_table_correct true 3 [4096; 8192; 12288] (new_table (S754_finite false 11744051 (-24))) some_store) as (t' & s' & E & _ & _ & N & F & _).
  - lia.
  - apply (bool_decide_unpack (NoDup _)). reflexivity.
  - apply some_entries_ok. repeat constructor; lia.
  - exists t', s'. destruct (F 5) as (_ & _ & _ & _ & _ & F5); [split; lia|]. destruct (F 37) as (_ & _ & _ & _ & _ & F37); [split; lia|].
    destruct (F 21) as (_ & _ & _ & _ & _ & F21); [split; lia|]. split_and!; [exact E|exact N|exact F5|exact F21|exact F37].
Defined.

(** Two threads; the second one has to retry, since the first one is faster. *)
Definition two_threads : config := ((some_table, some_store), map Idle [[4096; 12288]; [8192]]).
Definition a_schedule : list nat := [0; 1; 0; 1; 0; 1; 1; 1; 0; 1; 0; 0; 0; 0]%nat.
Definition the_end : config := default two_threads (run true a_schedule two_threads).

Lemma concurrent_insertions_all_land_witness :
  GetElementCount the_end.1.1 mod 2 ^ 64 = 3 /\
  (exists p c, FindChainHead true 5 the_end.1.1 = Some p /\ follow 3 p the_end.1.2 = Some c /\ with_hash some_store 5 c ≡ₚ [4096; 12288]).
Proof.
  destruct (concurrent_insertions_all_land true 3 [[4096; 12288]; [8192]] (new_table (S754_finite false 11744051 (-24))) some_store
    the_end.1.1 the_end.1.2 the_end.2) as (N & F & _).
  - lia.
  - apply (bool_decide_unpack (NoDup _)). reflexivity.
  - apply some_entries_ok. repeat constructor; lia.
  - apply (run_steps true a_schedule two_threads). vm_compute. reflexivity.
  - vm_compute. repeat constructor.
  - split; [exact N|]. apply (F 5). split; lia.
Defined.

Lemma concurrent_insertions_end_witness :
  (forall k c', nsteps (step true false) k two_threads c' -> (k <= 29)%nat) /\ (exists c', step true false two_threads c').
Proof.
  destruct (concurrent_insertions_end true 3 [[4096; 12288]; [8192]] (new_table (S754_finite false 11744051 (-24))) some_store two_threads) as [A B].
  - lia.
  - apply (bool_decide_unpack (NoDup _)). reflexivity.
  - apply some_entries_ok. repeat constructor; lia.
  - apply rtc_refl.
  - split; [exact A|]. apply B. intros F. by inversion F.
Defined.
