(* ===== verification/Sorter.v ===== *)
(** The sorter, [src/sql/sorter.cpp] and [src/include/sql/sorter.h]: insertion, the heap of a top-k query, sorting, and the parallel
    sort that merges the sorters of threads.  The heaps are those of libstdc++.

    A tuple is what its pointer leads to once the caller has written it; the comparison function is a
    parameter.  Sizes are far below the limits of their types.  An access to a tuple that is not there is [None]. *)
From Stdlib Require Import Sorted.
From S2P Require Import Prelude.

Local Open Scope list_scope.
Local Open Scope nat_scope.

(** [ips4o::sort]. *)
Class Sorting (T : Type) := sort : (T -> T -> bool) -> list T -> list T.

(** A comparison function says whether its first argument is less: a strict weak order. *)
Class StrictWeak {T} (cmp : T -> T -> bool) : Prop := {
  cmp_asym a b : cmp a b = true -> cmp b a = false;
  cmp_trans a b c : cmp a b = false -> cmp b c = false -> cmp a c = false
}.
Class SortingSpec T `{Sorting T} : Prop := {
  sort_permutation cmp l : StrictWeak cmp -> sort cmp l ≡ₚ l;
  sort_sorted cmp l : StrictWeak cmp -> StronglySorted (fun a b => cmp b a = false) (sort cmp l)
}.

(** * Heaps of the standard library

    The first [len] elements of an array are a heap whose root no other one is behind. *)

Section std.
Context {T : Type} (comp : T -> T -> bool).

Definition parent (i : nat) : nat := (i - 1) / 2.

(** [std::__push_heap]: the value is put at the hole or at a place above it. *)
Fixpoint sift_up (fuel : nat) (hole top : nat) (value : T) (l : list T) : option (list T) :=
  if Nat.ltb top hole then
    match fuel with
    | O => None
    | S fuel' => p ← l !! parent hole;
                 if comp p value then sift_up fuel' (parent hole) top value (<[hole := p]> l) else Some (<[hole := value]> l)
    end
  else Some (<[hole := value]> l).
(** [std::__adjust_heap]: the hole goes down to a leaf, to the greater child each time. *)
Fixpoint move_hole (fuel : nat) (hole len : nat) (l : list T) : option (nat * list T) :=
  match fuel with
  | O => None
  | S fuel' =>
      let child := 2 * hole + 2 in
      if Nat.ltb child len then
        r ← l !! child; x ← l !! (child - 1);
        let '(child, v) := if comp r x then (child - 1, x) else (child, r) in
        move_hole fuel' child len (<[hole := v]> l)
      else if Nat.eqb child len then v ← l !! (child - 1); Some (child - 1, <[hole := v]> l)
      else Some (hole, l)
  end.
Definition adjust_heap (hole len : nat) (value : T) (l : list T) : option (list T) :=
  '(h, l) ← move_hole (S len) hole len l; sift_up (S len) h hole value l.
Fixpoint make_heap_from (n : nat) (l : list T) : option (list T) :=
  match n with O => Some l | S p => value ← l !! p; l ← adjust_heap p (length l) value l; make_heap_from p l end.
Definition make_heap (l : list T) : option (list T) := make_heap_from (length l / 2) l.
Definition push_heap (l : list T) : option (list T) :=
  value ← last l; sift_up (length l) (length l - 1) 0 value l.
(** [std::pop_heap] and [pop_back]. *)
Definition pop_heap (l : list T) : option (list T) :=
  value ← last l;
  let l := take (length l - 1) l in
  if Nat.eqb (length l) 0 then Some [] else adjust_heap 0 (length l) value l.

(** [std::upper_bound] on a sorted range: how many elements are not greater than a value. *)
Fixpoint upper_bound (value : T) (l : list T) : nat :=
  match l with [] => 0 | x :: l' => if comp value x then 0 else S (upper_bound value l') end.
End std.

(** * The sorter *)

Section sorter.
Context {T : Type} `{Sorting T}.

Record Sorter := mkSorter { tuple_storage_ : list T; owned_tuples_ : list (list T); cmp_fn_ : T -> T -> bool; tuples_ : list T; sorted_ : bool }.
Definition new_sorter (cmp_fn : T -> T -> bool) : Sorter := mkSorter [] [] cmp_fn [] false.
Definition set_tuples (l : list T) (s : Sorter) : Sorter := mkSorter (tuple_storage_ s) (owned_tuples_ s) (cmp_fn_ s) l (sorted_ s).
Definition GetTupleCount (s : Sorter) : nat := length (tuples_ s).
Definition IsEmpty (s : Sorter) : bool := Nat.eqb (GetTupleCount s) 0.
Definition IsSorted (s : Sorter) : bool := sorted_ s.

(** The tuple is what the caller writes to the memory it is given. *)
Definition AllocInputTuple (x : T) (s : Sorter) : Sorter :=
  mkSorter (tuple_storage_ s ++ [x]) (owned_tuples_ s) (cmp_fn_ s) (tuples_ s ++ [x]) (sorted_ s).
Definition AllocInputTupleTopK (x : T) (top_k : nat) (s : Sorter) : Sorter := AllocInputTuple x s.

Definition BuildHeap (s : Sorter) : option Sorter := l ← make_heap (cmp_fn_ s) (tuples_ s); Some (set_tuples l s).

Definition swap (i j : nat) (l : list T) : option (list T) := x ← l !! i; y ← l !! j; Some (<[j := x]> (<[i := y]> l)).
Fixpoint sift_down (fuel : nat) (cmp_fn : T -> T -> bool) (top : T) (idx : nat) (l : list T) : option (nat * list T) :=
  match fuel with
  | O => None
  | S fuel' =>
      let size := length l in
      let child := 2 * idx + 1 in
      if Nat.leb size child then Some (idx, l) else
      child ← (if Nat.ltb (child + 1) size then x ← l !! child; y ← l !! (child + 1); Some (if cmp_fn x y then child + 1 else child) else Some child);
      x ← l !! child;
      if negb (cmp_fn top x) then Some (idx, l) else l ← swap idx child l; sift_down fuel' cmp_fn top child l
  end.
Definition HeapSiftDown (s : Sorter) : option Sorter :=
  top ← tuples_ s !! 0;
  '(idx, l) ← sift_down (S (length (tuples_ s))) (cmp_fn_ s) top 0 (tuples_ s); Some (set_tuples (<[idx := top]> l) s).

Definition AllocInputTupleTopKFinish (top_k : nat) (s : Sorter) : option Sorter :=
  if Nat.ltb (length (tuples_ s)) top_k then Some s
  else if Nat.eqb (length (tuples_ s)) top_k then BuildHeap s
  else
    last_insert ← last (tuples_ s);
    let s := set_tuples (take (length (tuples_ s) - 1) (tuples_ s)) s in
    heap_top ← tuples_ s !! 0;
    if cmp_fn_ s last_insert heap_top then HeapSiftDown (set_tuples (<[0 := last_insert]> (tuples_ s)) s) else Some s.

Definition Sort (s : Sorter) : Sorter :=
  if IsSorted s || IsEmpty s then s
  else mkSorter (tuple_storage_ s) (owned_tuples_ s) (cmp_fn_ s) (sort (cmp_fn_ s) (tuples_ s)) true.

(** ** The parallel sort *)

(** With debugging and without. *)
Definition kDefaultMinTuplesForParallelSort (NDEBUG : bool) : nat := if NDEBUG then 100 * 100 else 10 * 100.

(** A package of merging work: ranges of sorted tuples, and where in the output the merged ones go. *)
Record MergeWork := mkWork { input_ranges : list (list T); destination : nat }.

Definition nth_sorted (l : list T) (i : nat) : option T := l !! i.
Definition splitters_of (sorters : list Sorter) : option (list (list T)) :=
  let n := length sorters in
  mapM (fun i => mapM (fun s => nth_sorted (tuples_ s) ((i + 1) * (GetTupleCount s / n))) sorters) (seq 0 (n - 1)).

(** The packages, one for each row of splitters: in each sorter the range from where the package before ended up to the first tuple
    greater than the median of the row; the last package goes to the end. *)
Fixpoint merge_packages (cmp_fn : T -> T -> bool) (n : nat) (rows : list (list T)) (rests : list (list T)) (write_pos : nat) : option (list MergeWork) :=
  match rows with
  | [] => Some []
  | row :: rows' =>
      splitter ← sort cmp_fn row !! (n / 2);
      let ends := map (fun l => match rows' with [] => length l | _ => upper_bound cmp_fn splitter l end) rests in
      let ranges := zip_with (fun e l => take e l) ends rests in
      let work := mkWork (filter (fun l => l <> []) ranges) write_pos in
      more ← merge_packages cmp_fn n rows' (zip_with (fun e l => drop e l) ends rests) (write_pos + sum_list ends);
      Some (work :: more)
  end.

(** The ranges are in a priority queue by their first tuples; no range in it is empty. *)
Definition heap_cmp (cmp_fn : T -> T -> bool) (l r : list T) : bool :=
  match l, r with x :: _, y :: _ => negb (cmp_fn x y) | _ :: _, [] => true | [], _ => false end.
Fixpoint merge (fuel : nat) (cmp_fn : T -> T -> bool) (queue : list (list T)) : option (list T) :=
  match queue with
  | [] => Some []
  | top :: _ =>
      match fuel, top with
      | S fuel', x :: rest =>
          queue ← pop_heap (heap_cmp cmp_fn) queue;
          queue ← (match rest with [] => Some queue | _ => push_heap (heap_cmp cmp_fn) (queue ++ [rest]) end);
          out ← merge fuel' cmp_fn queue; Some (x :: out)
      | _, _ => None
      end
  end.
Definition merged_ranges (cmp_fn : T -> T -> bool) (ranges : list (list T)) : option (list T) :=
  queue ← make_heap (heap_cmp cmp_fn) ranges; merge (length (concat ranges)) cmp_fn queue.
Definition do_work (cmp_fn : T -> T -> bool) (work : MergeWork) (out : list (option T)) : option (list (option T)) :=
  merged ← merged_ranges cmp_fn (input_ranges work);
  if Nat.leb (destination work + length merged) (length out) then
    Some (take (destination work) out ++ map Some merged ++ drop (destination work + length merged) out)
  else None.
Fixpoint do_all (cmp_fn : T -> T -> bool) (works : list MergeWork) (out : list (option T)) : option (list (option T)) :=
  match works with [] => Some out | w :: ws => out ← do_work cmp_fn w out; do_all cmp_fn ws out end.

(** [SortParallel]: the sorters of the threads are given; [schedule] is the order in which the packages of
    work are done.  The tuples are moved out of the sorters, which are returned too. *)
Definition moved_out (s : Sorter) : Sorter := mkSorter [] (owned_tuples_ s) (cmp_fn_ s) [] (sorted_ s).
Definition SortParallel (NDEBUG : bool) (sorters : list Sorter) (schedule : list MergeWork -> list MergeWork) (s : Sorter) : option (Sorter * list Sorter) :=
  let tl_sorters := filter (fun s => IsEmpty s = false) sorters in
  if Nat.eqb (length tl_sorters) 0 then Some (mkSorter (tuple_storage_ s) (owned_tuples_ s) (cmp_fn_ s) (tuples_ s) true, tl_sorters) else
  let num_tuples := sum_list (map GetTupleCount tl_sorters) in
  let owned := owned_tuples_ s ++ map tuple_storage_ tl_sorters in
  if Nat.eqb (length tl_sorters) 1 || Nat.ltb num_tuples (kDefaultMinTuplesForParallelSort NDEBUG) then
    Some (Sort (mkSorter (tuple_storage_ s) owned (cmp_fn_ s) (tuples_ s ++ concat (map tuples_ tl_sorters)) (sorted_ s)), map moved_out tl_sorters)
  else
    let tl_sorters := map Sort tl_sorters in
    rows ← splitters_of tl_sorters;
    works ← merge_packages (cmp_fn_ s) (length tl_sorters) rows (map tuples_ tl_sorters) 0;
    out ← do_all (cmp_fn_ s) (schedule works) (take num_tuples (map Some (tuples_ s) ++ replicate (num_tuples - length (tuples_ s)) None));
    l ← mapM id out;
    Some (mkSorter (tuple_storage_ s) owned (cmp_fn_ s) l true, map moved_out tl_sorters).
Definition SortTopKParallel (NDEBUG : bool) (sorters : list Sorter) (schedule : list MergeWork -> list MergeWork) (top_k : nat) (s : Sorter) : option (Sorter * list Sorter) :=
  '(s, sorters) ← SortParallel NDEBUG sorters schedule s;
  Some (if Nat.ltb top_k (GetTupleCount s) then set_tuples (take top_k (tuples_ s)) s else s, sorters).

(** ** Iterators *)

Record SorterIterator := mkIterator { iter_ : nat; end_ : nat; rows_ : list T }.
Definition new_iterator (s : Sorter) : SorterIterator := mkIterator 0 (length (tuples_ s)) (tuples_ s).
Definition HasNext (it : SorterIterator) : bool := negb (Nat.eqb (iter_ it) (end_ it)).
Definition Next (it : SorterIterator) : SorterIterator := mkIterator (S (iter_ it)) (end_ it) (rows_ it).
Definition NumRemaining (it : SorterIterator) : nat := end_ it - iter_ it.
Definition AdvanceBy (n : nat) (it : SorterIterator) : SorterIterator :=
  if Nat.ltb (NumRemaining it) n then mkIterator (end_ it) (end_ it) (rows_ it) else mkIterator (iter_ it + n) (end_ it) (rows_ it).
Definition GetRow (it : SorterIterator) : option T := rows_ it !! iter_ it.

(** What clients do: a top-k query inserts one tuple after the other; a loop reads the rows. *)
Fixpoint insert_top_k (top_k : nat) (xs : list T) (s : Sorter) : option Sorter :=
  match xs with
  | [] => Some s
  | x :: xs' => s ← AllocInputTupleTopKFinish top_k (AllocInputTupleTopK x top_k s); insert_top_k top_k xs' s
  end.
Fixpoint read_rows (fuel : nat) (it : SorterIterator) : option (list T) :=
  if negb (HasNext it) then Some [] else
  match fuel with
  | O => None
  | S fuel' => x ← GetRow it; rest ← read_rows fuel' (Next it); Some (x :: rest)
  end.
End sorter.

(** * Heaps *)

Section heaps.
Context {T : Type} (comp : T -> T -> bool) (R : T -> T -> Prop).
(** [R x y] is that [x] may be above [y]; all that the comparison says must be true of it. *)
Class Above : Prop := {
  above_trans x y z : R x y -> R y z -> R x z;
  above_true x y : comp x y = true -> R y x;
  above_false x y : comp x y = false -> R x y
}.
Context `{Above}.

Lemma above_refl x : R x x.
Proof. destruct (comp x x) eqn:E; [by apply above_true|by apply above_false]. Qed.

Lemma parent_lt i : 0 < i -> parent i < i.
Proof. intros Hi. unfold parent. apply Nat.Div0.div_lt_upper_bound. lia. Qed.
Lemma parent_child i p : 0 < i -> parent i = p <-> i = 2 * p + 1 \/ i = 2 * p + 2.
Proof.
  intros Hi. unfold parent. pose proof (Nat.div_mod (i - 1) 2 ltac:(lia)) as D. pose proof (Nat.mod_upper_bound (i - 1) 2 ltac:(lia)) as M. lia.
Qed.

(** Every element whose parent is not before [top] is below its parent. *)
Definition heap_from (top : nat) (l : list T) : Prop :=
  forall i p x, 0 < i -> top <= parent i -> l !! i = Some x -> l !! parent i = Some p -> R p x.
(** The same up to what is at the hole. *)
Definition hole_ok (top hole : nat) (l : list T) : Prop :=
  (forall i p x, 0 < i -> top <= parent i -> i <> hole -> parent i <> hole -> l !! i = Some x -> l !! parent i = Some p -> R p x) /\
  (forall c p x, 0 < c -> parent c = hole -> 0 < hole -> top <= parent hole -> l !! c = Some x -> l !! parent hole = Some p -> R p x).
Inductive below (top : nat) : nat -> Prop :=
| below_top : below top top
| below_child i : 0 < i -> below top (parent i) -> below top i.

Lemma below_le top i : below top i -> top <= i.
Proof. induction 1 as [|i Hi _ IH]; [done|]. pose proof (parent_lt i Hi). lia. Qed.
Lemma below_parent top i : below top i -> i <> top -> 0 < i /\ below top (parent i) /\ top <= parent i.
Proof. intros [|i' Hi B] N; [done|]. split_and!; [done|done|by apply below_le]. Qed.

Lemma hole_any top hole v l : hole_ok top hole l -> hole_ok top hole (<[hole := v]> l).
Proof.
  intros [A B]. split.
  - intros i p x Hi Ht N1 N2 L1 L2. rewrite list_lookup_insert_ne in L1, L2 by done. by eapply (A i).
  - intros c p x Hc Ec Hh Ht L1 L2. pose proof (parent_lt hole Hh). pose proof (parent_lt c Hc). rewrite list_lookup_insert_ne in L1, L2 by lia. by eapply (B c).
Qed.

Lemma hole_fill top hole v l : hole_ok top hole l ->
  (forall p, 0 < hole -> top <= parent hole -> l !! parent hole = Some p -> R p v) ->
  (forall c x, 0 < c -> parent c = hole -> l !! c = Some x -> R v x) -> heap_from top (<[hole := v]> l).
Proof.
  intros [A B] U D i p x Hi Ht L1 L2. pose proof (parent_lt i Hi). destruct (decide (i = hole)) as [->|N1].
  - rewrite list_lookup_insert_eq in L1 by (by apply lookup_lt_Some in L1; rewrite length_insert in L1). injection L1 as <-.
    rewrite list_lookup_insert_ne in L2 by lia. by apply U.
  - rewrite list_lookup_insert_ne in L1 by done. destruct (decide (parent i = hole)) as [E|N2].
    + rewrite E in L2. rewrite list_lookup_insert_eq in L2 by (by apply lookup_lt_Some in L2; rewrite length_insert in L2). injection L2 as <-. by eapply (D i).
    + rewrite list_lookup_insert_ne in L2 by done. by eapply (A i).
Qed.

Lemma hole_down top hole c v l : hole_ok top hole l -> 0 < c -> parent c = hole -> top <= hole -> l !! c = Some v ->
  (forall s x, 0 < s -> parent s = hole -> s <> c -> l !! s = Some x -> R v x) -> hole_ok top c (<[hole := v]> l).
Proof.
  intros [A B] Hc Ec Ht Lc Hs. pose proof (parent_lt c Hc) as Pc. assert (hole < length l) as Lh by (apply lookup_lt_Some in Lc; lia). split.
  - intros i p x Hi Hti N1 N2 L1 L2. pose proof (parent_lt i Hi). destruct (decide (i = hole)) as [->|N3].
    + rewrite list_lookup_insert_eq in L1 by done. injection L1 as <-. rewrite list_lookup_insert_ne in L2 by lia. by eapply (B c).
    + rewrite list_lookup_insert_ne in L1 by done. destruct (decide (parent i = hole)) as [E|N4].
      * rewrite E, list_lookup_insert_eq in L2 by done. injection L2 as <-. by eapply (Hs i).
      * rewrite list_lookup_insert_ne in L2 by done. by eapply (A i).
  - intros g p x Hg Eg _ _ L1 L2. pose proof (parent_lt g Hg). rewrite Ec, list_lookup_insert_eq in L2 by done. injection L2 as <-.
    rewrite list_lookup_insert_ne in L1 by lia. apply (A g); rewrite ?Eg; try done; lia.
Qed.

Lemma hole_up top hole p v l : hole_ok top hole l -> 0 < hole -> top <= parent hole -> hole < length l -> l !! parent hole = Some p ->
  (forall c x, 0 < c -> parent c = hole -> l !! c = Some x -> R v x) -> R v p ->
  hole_ok top (parent hole) (<[hole := p]> l) /\ (forall c x, 0 < c -> parent c = parent hole -> <[hole := p]> l !! c = Some x -> R v x).
Proof.
  intros [A B] Hh Ht Lh Lp D Hv. pose proof (parent_lt hole Hh) as Ph.
  assert (forall c x, 0 < c -> parent c = parent hole -> <[hole := p]> l !! c = Some x -> R p x) as S.
  { intros c x Hc Ec L1. destruct (decide (c = hole)) as [->|N].
    - rewrite list_lookup_insert_eq in L1 by done. injection L1 as <-. apply above_refl.
    - rewrite list_lookup_insert_ne in L1 by done. apply (A c); rewrite ?Ec; try done; lia. }
  split; [split|].
  - intros i q x Hi Hti N1 N2 L1 L2. pose proof (parent_lt i Hi). destruct (decide (i = hole)) as [->|N3]; [done|].
    rewrite list_lookup_insert_ne in L1 by done. destruct (decide (parent i = hole)) as [E|N4].
    + rewrite E, list_lookup_insert_eq in L2 by done. injection L2 as <-. by eapply (B i).
    + rewrite list_lookup_insert_ne in L2 by done. by eapply (A i).
  - intros c q x Hc Ec Hp Htp L1 L2. pose proof (parent_lt (parent hole) Hp). rewrite list_lookup_insert_ne in L2 by lia.
    apply (above_trans _ p); [|by eapply (S c)]. apply (A (parent hole)); try done; lia.
  - intros c x Hc Ec L1. apply (above_trans _ p); [done|by eapply (S c)].
Qed.

Lemma move_value (l : list T) i j v w : l !! i = Some v -> j < length l -> <[i := w]> (<[j := v]> l) ≡ₚ <[j := w]> l.
Proof.
  intros Li Lj. destruct (decide (i = j)) as [->|N]; [by rewrite list_insert_insert_eq|].
  etrans; [|apply (Permutation_insert_swap (<[j := w]> l) i j v w)].
  - rewrite (list_insert_insert_ne _ j i) by done. by rewrite list_insert_insert_eq.
  - by rewrite list_lookup_insert_ne.
  - by apply list_lookup_insert_eq.
Qed.

Lemma sift_up_ok top v : forall fuel hole l, hole < fuel -> hole < length l -> below top hole -> hole_ok top hole l ->
  (forall c x, 0 < c -> parent c = hole -> l !! c = Some x -> R v x) ->
  exists l', sift_up comp fuel hole top v l = Some l' /\ heap_from top l' /\ l' ≡ₚ <[hole := v]> l.
Proof.
  induction fuel as [|fuel IH]; intros hole l Hf Lh B O D; [lia|]. cbn [sift_up]. destruct (Nat.ltb_spec top hole) as [Ht|Ht].
  - destruct (below_parent _ _ B ltac:(lia)) as (H0 & Bp & Tp). pose proof (parent_lt hole H0) as Ph.
    destruct (lookup_lt_is_Some_2 l (parent hole) ltac:(lia)) as [p Lp]. rewrite Lp. cbn [mbind option_bind]. destruct (comp p v) eqn:C.
    + destruct (hole_up top hole p v l O H0 Tp Lh Lp D (above_true _ _ C)) as [O' D'].
      destruct (IH (parent hole) (<[hole := p]> l)) as (l' & E & Hh & P); [lia|by rewrite length_insert; lia|done|done|done|].
      exists l'. split_and!; [done|done|]. rewrite P. by apply move_value.
    + eexists. split_and!; [done| |done]. apply hole_fill; [done| |done]. intros q _ _ Lq. rewrite Lp in Lq. injection Lq as <-. by apply above_false.
  - eexists. split_and!; [done| |done]. apply hole_fill; [done| |done]. intros p Hp Tp _. pose proof (parent_lt hole Hp). apply below_le in B. lia.
Qed.

Lemma move_hole_ok top : forall fuel hole l, length l <= fuel + hole -> hole < length l -> below top hole -> hole_ok top hole l ->
  exists h l', move_hole comp fuel hole (length l) l = Some (h, l') /\ length l' = length l /\ h < length l /\ below top h /\ hole_ok top h l' /\
    (forall c, 0 < c -> parent c = h -> l' !! c = None) /\ (forall v, <[h := v]> l' ≡ₚ <[hole := v]> l).
Proof.
  induction fuel as [|fuel IH]; intros hole l Hf Lh B O; [lia|]. cbn [move_hole].
  assert (forall c v, l !! c = Some v -> 0 < c -> forall w, <[c := w]> (<[hole := v]> l) ≡ₚ <[hole := w]> l) as Sw.
  { intros c v Lc Hc w. by apply move_value. }
  assert (forall c v, (c = 2 * hole + 1 \/ c = 2 * hole + 2) -> l !! c = Some v -> (forall s x, (s = 2 * hole + 1 \/ s = 2 * hole + 2) -> s <> c -> l !! s = Some x -> R v x) ->
            hole_ok top c (<[hole := v]> l) /\ below top c /\ 0 < c) as Dn.
  { intros c v Hc Lc Hs. assert (parent c = hole) as Ec by (apply parent_child; lia). split_and!; [|apply below_child; [lia|by rewrite Ec]|lia].
    apply hole_down; [done|lia|done|by apply below_le|done|]. intros s x H0 Es. apply parent_child in Es; [|done]. by apply Hs. }
  destruct (Nat.ltb_spec (2 * hole + 2) (length l)) as [Lt|Ge].
  - destruct (lookup_lt_is_Some_2 l (2 * hole + 2) Lt) as [r Lr]. destruct (lookup_lt_is_Some_2 l (2 * hole + 1) ltac:(lia)) as [x Lx].
    replace (2 * hole + 2 - 1) with (2 * hole + 1) by lia. rewrite Lr, Lx. cbn [mbind option_bind].
    assert (exists c v, (if comp r x then (2 * hole + 1, x) else (2 * hole + 2, r)) = (c, v) /\ (c = 2 * hole + 1 \/ c = 2 * hole + 2) /\ l !! c = Some v /\
      (forall s y, (s = 2 * hole + 1 \/ s = 2 * hole + 2) -> s <> c -> l !! s = Some y -> R v y)) as (c & v & Ecv & Hc & Lc & Hs).
    { destruct (comp r x) eqn:C; do 2 eexists; (split_and!; [reflexivity|lia|done|]); intros s y [-> | ->] N L; try lia;
        [rewrite Lr in L|rewrite Lx in L]; injection L as <-; [by apply above_true|by apply above_false]. }
    rewrite Ecv. destruct (Dn c v Hc Lc Hs) as (O' & B' & Hc0). apply lookup_lt_Some in Lc as Lc'.
    destruct (IH c (<[hole := v]> l)) as (h & l' & E & Ll & Lh' & Bh & Oh & Nh & Ph); [rewrite length_insert; lia|by rewrite length_insert|done|done|].
    rewrite length_insert in E, Ll, Lh'. exists h, l'. split_and!; try done. intros w. rewrite Ph. by apply Sw.
  - destruct (Nat.eqb_spec (2 * hole + 2) (length l)) as [Eq|Ne].
    + destruct (lookup_lt_is_Some_2 l (2 * hole + 1) ltac:(lia)) as [x Lx]. replace (2 * hole + 2 - 1) with (2 * hole + 1) by lia. rewrite Lx. cbn [mbind option_bind].
      destruct (Dn (2 * hole + 1) x ltac:(lia) Lx) as (O' & B' & Hc0).
      { intros s y [-> | ->] N L; [done|]. apply lookup_lt_Some in L. lia. }
      do 2 eexists. split_and!; [reflexivity|by rewrite length_insert|lia|done|done| |].
      * intros c Hc Ec. apply parent_child in Ec; [|done]. apply lookup_ge_None_2. rewrite length_insert. lia.
      * intros w. by apply Sw.
    + do 2 eexists. split_and!; [reflexivity|done|done|done|done| |done]. intros c Hc Ec. apply parent_child in Ec; [|done]. apply lookup_ge_None_2. lia.
Qed.

Lemma adjust_heap_ok hole v l : hole < length l -> heap_from (S hole) l ->
  exists l', adjust_heap comp hole (length l) v l = Some l' /\ heap_from hole l' /\ l' ≡ₚ <[hole := v]> l.
Proof.
  intros Lh O. unfold adjust_heap. destruct (move_hole_ok hole (S (length l)) hole l) as (h & l' & E & Ll & Lh' & Bh & Oh & Nh & Ph); [lia|done|constructor| |].
  { split.
    - intros i p x Hi Ht N1 N2. apply O; [done|lia].
    - intros c p x Hc Ec Hh Ht. pose proof (parent_lt hole Hh). lia. }
  rewrite E. cbn [mbind option_bind]. destruct (sift_up_ok hole v (S (length l)) h l') as (l2 & E2 & H2 & P2); [lia|lia|done|done| |].
  { intros c x Hc Ec L. by rewrite Nh in L. }
  exists l2. split_and!; [done|done|]. by rewrite P2.
Qed.

Lemma make_heap_from_ok : forall n l, n <= length l -> heap_from n l -> exists l', make_heap_from comp n l = Some l' /\ heap_from 0 l' /\ l' ≡ₚ l.
Proof.
  induction n as [|n IH]; intros l Hn O; [by exists l|]. cbn [make_heap_from]. destruct (lookup_lt_is_Some_2 l n ltac:(lia)) as [v Lv]. rewrite Lv. cbn [mbind option_bind].
  destruct (adjust_heap_ok n v l ltac:(lia) O) as (l1 & E & O1 & P1). rewrite E. cbn [mbind option_bind]. rewrite list_insert_id in P1 by done.
  destruct (IH l1) as (l2 & E2 & O2 & P2); [rewrite P1; lia|done|]. exists l2. split_and!; [done|done|by rewrite P2].
Qed.
Lemma make_heap_ok l : exists l', make_heap comp l = Some l' /\ heap_from 0 l' /\ l' ≡ₚ l.
Proof.
  apply make_heap_from_ok.
  - apply Nat.Div0.div_le_upper_bound. lia.
  - intros i p x Hi Ht L1 _. apply lookup_lt_Some in L1. unfold parent in Ht. pose proof (Nat.div_mod (length l) 2 ltac:(lia)). pose proof (Nat.mod_upper_bound (length l) 2 ltac:(lia)).
    pose proof (Nat.div_mod (i - 1) 2 ltac:(lia)). lia.
Qed.

Lemma push_heap_ok l v : heap_from 0 l -> exists l', push_heap comp (l ++ [v]) = Some l' /\ heap_from 0 l' /\ l' ≡ₚ l ++ [v].
Proof.
  intros O. unfold push_heap. rewrite last_snoc. cbn [mbind option_bind]. rewrite length_app. simpl (length [v]). rewrite Nat.add_sub.
  destruct (sift_up_ok 0 v (length l + 1) (length l) (l ++ [v])) as (l' & E & O' & P).
  - lia.
  - rewrite length_app. simpl. lia.
  - clear. induction (length l) as [n IH] using lt_wf_ind. destruct n as [|n]; [constructor|]. apply below_child; [lia|]. apply IH, parent_lt. lia.
  - split.
    + intros i p x Hi _ N1 N2 L1 L2. pose proof (parent_lt i Hi). apply lookup_lt_Some in L1 as Li. rewrite length_app in Li. simpl in Li.
      rewrite lookup_app_l in L1, L2 by lia. apply (O i); try done. lia.
    + intros c p x Hc Ec _ _ L1. pose proof (parent_lt c Hc). apply lookup_lt_Some in L1. rewrite length_app in L1. simpl in L1. lia.
  - intros c x Hc Ec L1. pose proof (parent_lt c Hc). apply lookup_lt_Some in L1. rewrite length_app in L1. simpl in L1. lia.
  - exists l'. split_and!; [done|done|]. rewrite P. by rewrite list_insert_id by (rewrite lookup_app_r, Nat.sub_diag by lia; done).
Qed.

Lemma pop_heap_ok l x : heap_from 0 l -> l !! 0 = Some x -> exists l', pop_heap comp l = Some l' /\ heap_from 0 l' /\ x :: l' ≡ₚ l.
Proof.
  intros O L0. unfold pop_heap. destruct (last l) as [v|] eqn:El; [|apply last_None in El; by subst l]. cbn [mbind option_bind].
  apply last_Some in El as [l0 ->]. rewrite length_app. simpl (length [v]). rewrite Nat.add_sub, take_app_length. destruct (Nat.eqb_spec (length l0) 0) as [E|N].
  - destruct l0; [|done]. injection L0 as ->. exists []. split_and!; [done|intros i p y _ _ L; by rewrite lookup_nil in L|done].
  - rewrite lookup_app_l in L0 by lia. destruct (adjust_heap_ok 0 v l0 ltac:(lia)) as (l' & E & O' & P).
    + intros i p y Hi _ L1 L2. pose proof (parent_lt i Hi). apply lookup_lt_Some in L1 as Li. apply (O i); [done|lia|by rewrite lookup_app_l by lia|by rewrite lookup_app_l by lia].
    + exists l'. split_and!; [done|done|]. rewrite P. destruct l0 as [|y l0]; [done|]. injection L0 as ->. simpl. apply perm_skip, Permutation_cons_append.
Qed.

Lemma heap_top l x y : heap_from 0 l -> l !! 0 = Some x -> y ∈ l -> R x y.
Proof.
  intros O L0 Hy. apply list_elem_of_lookup_1 in Hy as [i Li]. revert y Li. induction i as [i IH] using lt_wf_ind. intros y Li.
  destruct i as [|i]; [rewrite L0 in Li; injection Li as <-; apply above_refl|]. pose proof (parent_lt (S i) ltac:(lia)) as P.
  destruct (lookup_lt_is_Some_2 l (parent (S i))) as [p Lp]; [apply lookup_lt_Some in Li; lia|].
  apply (above_trans _ p); [by apply (IH _ P)|]. apply (O (S i)); try done; lia.
Qed.
End heaps.

(** * Top-k *)

Section topk.
Context {T : Type} `{Sorting T} (cmp : T -> T -> bool) `{!StrictWeak cmp}.

Definition not_less (a b : T) : Prop := cmp a b = false.
#[local] Instance not_less_above : Above cmp not_less.
Proof. split; unfold not_less; [apply cmp_trans|apply cmp_asym|done]. Qed.
Lemma not_less_refl a : cmp a a = false.
Proof. destruct (cmp a a) eqn:E; [|done]. by rewrite (cmp_asym _ _ E) in E. Qed.

Lemma sift_down_ok top : forall fuel idx l, length l < fuel + idx -> l !! idx = Some top -> hole_ok not_less 0 idx l ->
  (forall p, 0 < idx -> l !! parent idx = Some p -> not_less p top) ->
  exists idx' l', sift_down fuel cmp top idx l = Some (idx', l') /\ l' !! idx' = Some top /\ heap_from not_less 0 l' /\ l' ≡ₚ l.
Proof.
  induction fuel as [|fuel IH]; intros idx l Hf Li O U; apply lookup_lt_Some in Li as Lt; [lia|]. cbn [sift_down].
  assert ((forall c x, 0 < c -> parent c = idx -> l !! c = Some x -> not_less top x) -> heap_from not_less 0 l) as Fill.
  { intros D. rewrite <- (list_insert_id l idx top) by done. apply hole_fill; [done| |done]. intros p Hp _. by apply U. }
  destruct (Nat.leb_spec (length l) (2 * idx + 1)) as [Ge|Lc].
  { exists idx, l. split_and!; [done|done| |done]. apply Fill. intros c x Hc Ec L. apply parent_child in Ec; [|done]. apply lookup_lt_Some in L. lia. }
  destruct (lookup_lt_is_Some_2 l (2 * idx + 1) Lc) as [x Lx].
  assert (exists c v, (if Nat.ltb (2 * idx + 1 + 1) (length l) then x ← l !! (2 * idx + 1); y ← l !! (2 * idx + 1 + 1);
      Some (if cmp x y then 2 * idx + 1 + 1 else 2 * idx + 1) else Some (2 * idx + 1)) = Some c /\ l !! c = Some v /\ 0 < c /\ parent c = idx /\
      (forall s y, 0 < s -> parent s = idx -> l !! s = Some y -> not_less v y)) as (c & v & Ec & Lv & C0 & Pc & Hs).
  { destruct (Nat.ltb_spec (2 * idx + 1 + 1) (length l)) as [L2|G2].
    - destruct (lookup_lt_is_Some_2 l (2 * idx + 1 + 1) L2) as [y Ly]. rewrite Lx, Ly. cbn [mbind option_bind].
      destruct (cmp x y) eqn:C; do 2 eexists; (split_and!; [reflexivity|done|lia|apply parent_child; lia|]); intros s z Hs Es L; (apply parent_child in Es; [|done]);
        (replace (2 * idx + 2) with (2 * idx + 1 + 1) in Es by lia); destruct Es as [-> | ->]; rewrite ?Lx, ?Ly in L; injection L as <-; unfold not_less; try apply not_less_refl; [by apply cmp_asym|done].
    - exists (2 * idx + 1), x. split_and!; [done|done|lia|apply parent_child; lia|]. intros s z Hs Es L. apply parent_child in Es; [|done]. apply lookup_lt_Some in L as L'.
      assert (s = 2 * idx + 1) as -> by lia. rewrite Lx in L. injection L as <-. apply not_less_refl. }
  rewrite Ec. cbn [mbind option_bind]. rewrite Lv. cbn [mbind option_bind]. destruct (cmp top v) eqn:C; cbn [negb].
  - unfold swap. rewrite Li, Lv. cbn [mbind option_bind]. pose proof (parent_lt c C0) as Hc. apply lookup_lt_Some in Lv as Lvc. rewrite Pc in Hc.
    destruct (IH c (<[c := top]> (<[idx := v]> l))) as (idx' & l' & E & L' & O' & P).
    + rewrite !length_insert. lia.
    + apply list_lookup_insert_eq. by rewrite length_insert.
    + apply hole_any, hole_down; [apply O|done|done|lia|done|]. intros s y H0 Es _. by apply (Hs s).
    + rewrite Pc. intros p _ Lp. rewrite list_lookup_insert_ne, list_lookup_insert_eq in Lp by lia. injection Lp as <-. by apply cmp_asym.
    + exists idx', l'. split_and!; [done|done|done|]. rewrite P. by apply Permutation_insert_swap.
  - exists idx, l. split_and!; [done|done| |done]. apply Fill. intros s y H0 Es L. apply (cmp_trans _ v); [done|by apply (Hs s)].
Qed.

Record top_k_ok (k : nat) (xs : list T) (s : Sorter) : Prop := {
  k_cmp : cmp_fn_ s = cmp;
  k_unsorted : sorted_ s = false;
  k_storage : tuple_storage_ s = xs;
  k_count : length (tuples_ s) = Nat.min (length xs) k;
  k_heap : k <= length xs -> heap_from not_less 0 (tuples_ s);
  k_rest : exists rest, tuples_ s ++ rest ≡ₚ xs /\ (forall r y, r ∈ rest -> y ∈ tuples_ s -> cmp r y = false)
}.

Lemma exchange_perm (a b : T) l r : (a :: l) ++ b :: r ≡ₚ ((b :: l) ++ r) ++ [a].
Proof. rewrite <- Permutation_middle, <- (Permutation_cons_append _ a). simpl. apply perm_swap. Qed.

Lemma insert_ok k xs x s : 0 < k -> top_k_ok k xs s ->
  exists s', AllocInputTupleTopKFinish k (AllocInputTupleTopK x k s) = Some s' /\ top_k_ok k (xs ++ [x]) s'.
Proof.
  intros Hk [Ec Eu Es En Eh (rest & Er & Rr)]. unfold AllocInputTupleTopKFinish, AllocInputTupleTopK, AllocInputTuple. cbn [tuples_ cmp_fn_ sorted_ set_tuples tuple_storage_ owned_tuples_].
  rewrite length_app. simpl (length [x]). destruct (Nat.ltb_spec (length (tuples_ s) + 1) k) as [Lt|Ge]; [|destruct (Nat.eqb_spec (length (tuples_ s) + 1) k) as [Eq|Ne]].
  1,2: assert (rest = []) as -> by (apply nil_length_inv; apply Permutation_length in Er; rewrite length_app in Er; lia); rewrite app_nil_r in Er.
  - eexists. split; [done|]. split; cbn [tuples_ cmp_fn_ sorted_ tuple_storage_]; [done|done|by rewrite Es|rewrite !length_app; simpl; lia|rewrite length_app; simpl; lia|].
    exists []. rewrite app_nil_r, Er. split; [done|]. intros r y Hr. by apply elem_of_nil in Hr.
  - unfold BuildHeap. cbn [tuples_ cmp_fn_]. rewrite ?Ec. destruct (make_heap_ok cmp not_less (tuples_ s ++ [x])) as (l & E & O & P). rewrite E. cbn [mbind option_bind].
    eexists. split; [done|]. split; cbn [set_tuples tuples_ cmp_fn_ sorted_ tuple_storage_]; [done|done|by rewrite Es|rewrite P, !length_app; simpl; lia|done|].
    exists []. rewrite app_nil_r, P, Er. split; [done|]. intros r y Hr. by apply elem_of_nil in Hr.
  - assert (k <= length xs) as Full by lia. specialize (Eh Full). rewrite last_snoc. cbn [mbind option_bind].
    rewrite Nat.add_sub, take_app_length. destruct (tuples_ s) as [|top l] eqn:El; [simpl in En; lia|]. cbn [lookup list_lookup mbind option_bind].
    assert (forall y, y ∈ top :: l -> cmp top y = false) as Ht by (intros y Hy; by apply (heap_top cmp not_less (top :: l))). rewrite Ec. destruct (cmp x top) eqn:C.
    + cbn [insert list_insert]. unfold HeapSiftDown. cbn [set_tuples tuples_ cmp_fn_ lookup list_lookup mbind option_bind]. rewrite ?Ec.
      assert (hole_ok not_less 0 0 (x :: l)) as O.
      { change (x :: l) with (<[0 := x]> (top :: l)). apply hole_any. split; [intros i p y Hi _ _ _ L1 L2; apply (Eh i p y Hi); [lia|done|done]|lia]. }
      destruct (sift_down_ok x (S (length (x :: l))) 0 (x :: l)) as (idx & l' & E & Li & O' & P); [simpl; lia|done|done|lia|].
      rewrite E. cbn [mbind option_bind]. rewrite list_insert_id by done. eexists. split; [done|].
      split; cbn [set_tuples tuples_ cmp_fn_ sorted_ tuple_storage_]; [done|done|by rewrite Es|rewrite P, length_app; simpl in *; lia|done|].
      exists (top :: rest). split; [rewrite P, <- Er; apply exchange_perm|]. intros r y Hr Hy. rewrite P in Hy.
      assert (cmp top x = false) as Tx by (by apply cmp_asym). apply elem_of_cons in Hr as [->|Hr], Hy as [->|Hy].
      * done.
      * by apply Ht, list_elem_of_further.
      * apply (cmp_trans _ top); [apply Rr; [done|apply list_elem_of_here]|done].
      * apply Rr; [done|by apply list_elem_of_further].
    + eexists. split; [done|]. split; cbn [set_tuples tuples_ cmp_fn_ sorted_ tuple_storage_]; [done|done|by rewrite Es|rewrite length_app; simpl in *; lia|done|].
      exists (x :: rest). split; [by rewrite <- Er, <- Permutation_middle, <- (Permutation_cons_append _ x)|]. intros r y Hr Hy. apply elem_of_cons in Hr as [->|Hr]; [|by apply Rr].
      apply (cmp_trans _ top); [done|by apply Ht].
Qed.

Lemma new_top_k k : top_k_ok k [] (new_sorter cmp).
Proof. split; cbn; [done|done|done|done|intros _ i p x _ _ L; by rewrite lookup_nil in L|]. exists []. split; [done|]. intros r y Hr. by apply elem_of_nil in Hr. Qed.

Lemma insert_top_k_ok k ys : 0 < k -> forall xs s, top_k_ok k xs s -> exists s', insert_top_k k ys s = Some s' /\ top_k_ok k (xs ++ ys) s'.
Proof.
  intros Hk. induction ys as [|y ys IH]; intros xs s O; [exists s; by rewrite app_nil_r|]. cbn [insert_top_k].
  destruct (insert_ok k xs y s Hk O) as (s1 & E & O1). rewrite E. cbn [mbind option_bind]. destruct (IH _ _ O1) as (s2 & E2 & O2).
  exists s2. rewrite <- app_assoc in O2. done.
Qed.
End topk.

(** * Merging *)

Section merging.
Context {T : Type} `{Sorting T} (cmp : T -> T -> bool) `{!StrictWeak cmp}.

Definition in_order (l : list T) : Prop := StronglySorted (fun a b => cmp b a = false) l.

Lemma in_order_cons x l : in_order (x :: l) <-> (forall y, y ∈ l -> cmp y x = false) /\ in_order l.
Proof.
  split.
  - intros O. apply StronglySorted_inv in O as [O F]. rewrite Forall_forall in F. done.
  - intros [F O]. constructor; [done|]. by apply Forall_forall.
Qed.
Lemma in_order_app l1 l2 : in_order (l1 ++ l2) <-> in_order l1 /\ in_order l2 /\ (forall x y, x ∈ l1 -> y ∈ l2 -> cmp y x = false).
Proof.
  induction l1 as [|a l1 IH]; simpl.
  - split; [intros O; split_and!; [constructor|done|intros x y Hx; by apply elem_of_nil in Hx]|by intros (_ & O & _)].
  - rewrite !in_order_cons, IH. setoid_rewrite elem_of_app. split.
    + intros (F & O1 & O2 & X). split_and!; [by eauto|done|done|]. intros x y [->|Hx]%elem_of_cons Hy; eauto.
    + intros ((F & O1) & O2 & X). split_and!; [|done|done|].
      * intros y [Hy|Hy]; [by apply F|apply X; [apply list_elem_of_here|done]].
      * intros x y Hx. apply X. by apply list_elem_of_further.
Qed.
Lemma in_order_split n l : in_order l -> in_order (take n l) /\ in_order (drop n l).
Proof. intros O. rewrite <- (take_drop n l) in O. apply in_order_app in O as (O1 & O2 & _). done. Qed.

Lemma concat_permutation (l1 l2 : list (list T)) : l1 ≡ₚ l2 -> concat l1 ≡ₚ concat l2.
Proof.
  induction 1 as [|x l1 l2 _ IH|x y l|l1 l2 l3 _ IH1 _ IH2]; simpl; [done|by rewrite IH| |by rewrite IH1].
  rewrite !app_assoc. apply Permutation_app_tail, Permutation_app_comm.
Qed.

(** Ranges by their first elements. *)
Definition range_above (l r : list T) : Prop :=
  match l, r with x :: _, y :: _ => cmp y x = false | [], _ => True | _ :: _, [] => False end.
#[local] Instance range_above_above : Above (heap_cmp cmp) range_above.
Proof.
  split.
  - intros [|x lx] [|y ly] [|z lz]; simpl; try done. intros A B. by apply (cmp_trans _ y).
  - intros [|x lx] [|y ly]; simpl; try done. intros C. by apply negb_true_iff in C.
  - intros [|x lx] [|y ly]; simpl; try done. intros C. apply negb_false_iff in C. by apply cmp_asym.
Qed.

Definition range_ok (r : list T) : Prop := r <> [] /\ in_order r.

Lemma top_least x rest queue y : heap_from range_above 0 queue -> queue !! 0 = Some (x :: rest) -> Forall range_ok queue -> y ∈ concat queue -> cmp y x = false.
Proof.
  intros O L0 F Hy. apply list_elem_of_In, in_concat in Hy as (r & Hr & Hy). apply list_elem_of_In in Hr, Hy.
  rewrite Forall_forall in F. destruct (F r Hr) as [Ne Or]. pose proof (heap_top (heap_cmp cmp) range_above queue (x :: rest) r O L0 Hr) as Ab.
  destruct r as [|h r]; [done|]. apply in_order_cons in Or as [Lh _]. simpl in Ab. apply elem_of_cons in Hy as [->|Hy]; [done|]. apply (cmp_trans _ h); [by apply Lh|done].
Qed.

Lemma merge_ok : forall fuel queue, length (concat queue) <= fuel -> Forall range_ok queue -> heap_from range_above 0 queue ->
  exists out, merge fuel cmp queue = Some out /\ in_order out /\ out ≡ₚ concat queue.
Proof.
  induction fuel as [|fuel IH]; intros queue Hf F O; (destruct queue as [|top queue]; [exists []; split_and!; [done|constructor|done]|]);
    (destruct top as [|x rest]; [by inversion F as [|? ? [? _]]|]); [simpl in Hf; lia|]. cbn [merge].
  destruct (pop_heap_ok (heap_cmp cmp) range_above ((x :: rest) :: queue) (x :: rest) O eq_refl) as (q1 & E1 & O1 & P1). rewrite E1. cbn [mbind option_bind].
  apply Permutation_cons_inv in P1.
  assert (exists q2, match rest with [] => Some q1 | _ => push_heap (heap_cmp cmp) (q1 ++ [rest]) end = Some q2 /\ heap_from range_above 0 q2 /\ concat q2 ≡ₚ rest ++ concat queue /\ Forall range_ok q2)
    as (q2 & E2 & O2 & C2 & F2).
  { apply Forall_cons in F as [[_ Fx] F]. destruct rest as [|z rest].
    - exists q1. split_and!; [done|done|by apply concat_permutation|by rewrite P1].
    - destruct (push_heap_ok (heap_cmp cmp) range_above q1 (z :: rest) O1) as (q2 & E2 & O2 & P2). exists q2. rewrite <- Permutation_cons_append in P2. split_and!; [done|done| |].
      + rewrite (concat_permutation _ _ P2), (concat_permutation _ _ (perm_skip (z :: rest) P1)). done.
      + rewrite P2, P1. constructor; [|done]. split; [done|]. by apply in_order_cons in Fx as [_ Fx]. }
  rewrite E2. cbn [mbind option_bind]. destruct (IH q2) as (out & E & Oo & Po); [apply Permutation_length in C2; simpl in Hf; lia|done|done|].
  rewrite E. cbn [mbind option_bind]. exists (x :: out). rewrite C2 in Po. split_and!; [done| |by rewrite Po].
  apply in_order_cons. split; [|done]. intros y Hy. rewrite Po in Hy. apply (top_least x rest ((x :: rest) :: queue)); [done|done|done|]. simpl. by apply list_elem_of_further.
Qed.

Lemma merged_ranges_ok ranges : Forall range_ok ranges -> exists out, merged_ranges cmp ranges = Some out /\ in_order out /\ out ≡ₚ concat ranges.
Proof.
  intros F. unfold merged_ranges. destruct (make_heap_ok (heap_cmp cmp) range_above ranges) as (q & E & O & P). rewrite E. cbn [mbind option_bind].
  apply concat_permutation in P as C. destruct (merge_ok (length (concat ranges)) q) as (out & E2 & Oo & Po); [by rewrite C|by rewrite P|done|].
  exists out. split_and!; [done|done|by rewrite Po].
Qed.

(** * Packages *)

Lemma upper_bound_ok v l : in_order l -> upper_bound cmp v l <= length l /\
  (forall x, x ∈ take (upper_bound cmp v l) l -> cmp v x = false) /\ (forall x, x ∈ drop (upper_bound cmp v l) l -> cmp v x = true).
Proof.
  induction l as [|a l IH]; intros O; [split_and!; [done|intros x Hx; by apply elem_of_nil in Hx|intros x Hx; by apply elem_of_nil in Hx]|].
  apply in_order_cons in O as [F O]. cbn [upper_bound]. destruct (cmp v a) eqn:C.
  - simpl. split_and!; [lia|intros x Hx; by apply elem_of_nil in Hx|]. intros x [->|Hx]%elem_of_cons; [done|].
    destruct (cmp v x) eqn:C2; [done|]. by rewrite (cmp_trans v x a C2 (F x Hx)) in C.
  - destruct (IH O) as (Le & Lo & Hi). simpl. split_and!; [lia| |done]. intros x [->|Hx]%elem_of_cons; [done|by apply Lo].
Qed.

Lemma zip_with_map {A B C} (g : A -> B -> C) (f : B -> A) l : zip_with g (map f l) l = map (fun x => g (f x) x) l.
Proof. induction l as [|x l IH]; [done|]. simpl. by rewrite IH. Qed.
Lemma concat_nonempty (l : list (list T)) : concat (filter (fun r => r <> []) l) = concat l.
Proof.
  induction l as [|r l IH]; [done|]. rewrite filter_cons. destruct (decide (r <> [])) as [|E]; simpl; rewrite IH; [done|].
  apply dec_stable in E. by subst r.
Qed.
Lemma concat_pieces (f : list T -> nat) l : concat l ≡ₚ concat (map (fun r => take (f r) r) l) ++ concat (map (fun r => drop (f r) r) l).
Proof.
  induction l as [|r l IH]; [done|]. simpl. rewrite IH. rewrite <- (take_drop (f r) r) at 1. rewrite <- !app_assoc. apply Permutation_app_head. rewrite Permutation_app_swap_app. done.
Qed.
Lemma sum_lengths (f : list T -> nat) l : (forall r, r ∈ l -> f r <= length r) -> sum_list (map f l) = length (concat (map (fun r => take (f r) r) l)).
Proof.
  induction l as [|r l IH]; intros F; [done|]. simpl. rewrite length_app, length_take, IH.
  - rewrite Nat.min_l; [done|]. apply F, list_elem_of_here.
  - intros x Hx. by apply F, list_elem_of_further.
Qed.

(** The packages with what their merging gives, placed one behind the other. *)
Inductive placed : nat -> list MergeWork -> list (list T) -> Prop :=
| placed_nil pos : placed pos [] []
| placed_cons pos ranges o ws os : merged_ranges cmp ranges = Some o -> placed (pos + length o) ws os -> placed pos (mkWork ranges pos :: ws) (o :: os).

Lemma package_ok (f : list T -> nat) rests : Forall in_order rests -> (forall r, r ∈ rests -> f r <= length r) ->
  exists o, merged_ranges cmp (filter (fun l => l <> []) (map (fun r => take (f r) r) rests)) = Some o /\ in_order o /\
    o ≡ₚ concat (map (fun r => take (f r) r) rests) /\ length o = sum_list (map f rests).
Proof.
  intros F Lf. destruct (merged_ranges_ok (filter (fun l => l <> []) (map (fun r => take (f r) r) rests))) as (o & E & O & P).
  { apply Forall_forall. intros r [Ne Hr]%list_elem_of_filter. split; [done|]. apply list_elem_of_In, in_map_iff in Hr as (r' & <- & Hr). apply list_elem_of_In in Hr.
    rewrite Forall_forall in F. by apply in_order_split, F. }
  rewrite concat_nonempty in P. exists o. split_and!; [done|done|done|]. rewrite P, sum_lengths; done.
Qed.

Lemma merge_packages_ok n : n / 2 < n -> (forall row, length row = n -> exists x, sort cmp row !! (n / 2) = Some x) -> forall rows, rows <> [] -> Forall (fun row => length row = n) rows ->
  forall rests pos, Forall in_order rests ->
  exists ws os, merge_packages cmp n rows rests pos = Some ws /\ placed pos ws os /\ in_order (concat os) /\ concat os ≡ₚ concat rests.
Proof.
  intros Hn Hs. induction rows as [|row rows IH]; [done|]. intros _ Fr rests pos F. apply Forall_cons in Fr as [Lr Fr]. cbn [merge_packages].
  destruct (Hs row Lr) as [v Ev]. rewrite Ev. cbn [mbind option_bind]. set (f := fun l : list T => match rows with [] => length l | _ => upper_bound cmp v l end).
  change (fun l : list T => match rows with [] => length l | _ :: _ => upper_bound cmp v l end) with f. rewrite !zip_with_map.
  assert (forall r, r ∈ rests -> f r <= length r) as Lf.
  { intros r Hr. rewrite Forall_forall in F. unfold f. destruct rows; [done|]. by apply upper_bound_ok, F. }
  destruct (package_ok f rests F Lf) as (o & Eo & Oo & Po & Lo). destruct rows as [|row' rows].
  - cbn [merge_packages mbind option_bind]. exists [mkWork (filter (fun l => l <> []) (map (fun e => take (f e) e) rests)) pos], [o]. split_and!; [done| | |].
    + constructor; [done|constructor].
    + simpl. by rewrite app_nil_r.
    + simpl. rewrite app_nil_r, Po. unfold f. clear. induction rests as [|r rests IH]; [done|]. simpl. by rewrite IH, firstn_all.
  - destruct (IH ltac:(done) Fr (map (fun r => drop (f r) r) rests) (pos + sum_list (map f rests))) as (ws & os & E & Pl & Os & Ps).
    { apply Forall_forall. intros r Hr. apply list_elem_of_In, in_map_iff in Hr as (r' & <- & Hr). apply list_elem_of_In in Hr. rewrite Forall_forall in F. by apply in_order_split, F. }
    rewrite E. cbn [mbind option_bind]. rewrite <- Lo in Pl. exists (mkWork (filter (fun l => l <> []) (map (fun e => take (f e) e) rests)) pos :: ws), (o :: os). split_and!; [done|by constructor| |].
    + simpl. apply in_order_app. split_and!; [done|done|]. intros x y Hx Hy. rewrite Po in Hx. rewrite Ps in Hy. rewrite Forall_forall in F.
      apply list_elem_of_In, in_concat in Hx as (rx & Hrx & Hx), Hy as (ry & Hry & Hy).
      apply list_elem_of_In in Hx, Hy.
      apply in_map_iff in Hrx as (r1 & <- & Hr1), Hry as (r2 & <- & Hr2). apply list_elem_of_In in Hr1, Hr2.
      destruct (upper_bound_ok v r1 (F _ Hr1)) as (_ & Lo1 & _). destruct (upper_bound_ok v r2 (F _ Hr2)) as (_ & _ & Hi2).
      specialize (Lo1 x Hx). specialize (Hi2 y Hy). destruct (cmp y x) eqn:C; [|done]. by rewrite (cmp_trans v x y Lo1 (cmp_asym _ _ C)) in Hi2.
    + simpl. rewrite Po, Ps. symmetry. apply concat_pieces.
Qed.

(** * Writing the packages *)

Lemma placed_within pos ws os : placed pos ws os -> forall w, w ∈ ws -> exists o, merged_ranges cmp (input_ranges w) = Some o /\
  destination w + length o <= pos + length (concat os) /\ (forall j x, o !! j = Some x -> pos <= destination w + j /\ concat os !! (destination w + j - pos) = Some x).
Proof.
  induction 1 as [|pos ranges o ws os E _ IH]; intros w Hw; [by apply elem_of_nil in Hw|]. apply elem_of_cons in Hw as [->|Hw].
  - exists o. cbn [input_ranges destination concat]. split_and!; [done|rewrite length_app; lia|]. intros j x L. split; [lia|].
    replace (pos + j - pos) with j by lia. by apply lookup_app_l_Some.
  - destruct (IH w Hw) as (o' & E' & Le & Lo). exists o'. cbn [concat]. rewrite length_app. split_and!; [done|lia|]. intros j x L. destruct (Lo j x L) as [Ge Lc].
    split; [lia|]. rewrite lookup_app_r by lia. by replace (destination w + j - pos - length o) with (destination w + j - (pos + length o)) by lia.
Qed.
Lemma placed_covers pos ws os : placed pos ws os -> forall p x, concat os !! p = Some x ->
  exists w o j, w ∈ ws /\ merged_ranges cmp (input_ranges w) = Some o /\ o !! j = Some x /\ destination w + j = pos + p.
Proof.
  induction 1 as [|pos ranges o ws os E _ IH]; intros p x L; [by destruct p|]. cbn [concat] in L. apply lookup_app_Some in L as [L|[Ge L]].
  - exists (mkWork ranges pos), o, p. split_and!; [apply list_elem_of_here|done|done|done].
  - destruct (IH _ _ L) as (w & o' & j & Hw & E' & Lo & Ed). exists w, o', j. split_and!; [by apply list_elem_of_further|done|done|lia].
Qed.

Lemma write_lookup (out : list (option T)) dest (m : list T) i : dest + length m <= length out ->
  (take dest out ++ map Some m ++ drop (dest + length m) out) !! i =
  if decide (dest <= i < dest + length m) then Some <$> m !! (i - dest) else out !! i.
Proof.
  intros Le. destruct (decide (dest <= i < dest + length m)) as [In|Out].
  - rewrite lookup_app_r by (rewrite length_take; lia). rewrite length_take, Nat.min_l by lia. rewrite lookup_app_l by (rewrite length_map; lia). apply list_lookup_fmap.
  - destruct (decide (i < dest)).
    + rewrite lookup_app_l by (rewrite length_take; lia). by apply lookup_take_lt.
    + rewrite lookup_app_r by (rewrite length_take; lia). rewrite length_take, Nat.min_l by lia. rewrite lookup_app_r by (rewrite length_map; lia). rewrite length_map, lookup_drop. f_equal. lia.
Qed.

(** The packages may be done in any order, since two never write different values to one place. *)
Lemma do_all_ok (final : list T) ws : (forall w, w ∈ ws -> exists o, merged_ranges cmp (input_ranges w) = Some o /\ destination w + length o <= length final /\
    (forall j x, o !! j = Some x -> final !! (destination w + j) = Some x)) ->
  forall out, length out = length final -> exists out', do_all cmp ws out = Some out' /\ length out' = length final /\
    (forall i, out' !! i = out !! i \/ exists x, final !! i = Some x /\ out' !! i = Some (Some x)) /\
    (forall w o j x, w ∈ ws -> merged_ranges cmp (input_ranges w) = Some o -> o !! j = Some x -> out' !! (destination w + j) = Some (Some x)).
Proof.
  induction ws as [|w ws IH]; intros F out Lo.
  - exists out. split_and!; [done|done|by left|]. intros w o j x Hw. by apply elem_of_nil in Hw.
  - destruct (F w) as (o & E & Le & Lw); [apply list_elem_of_here|]. cbn [do_all]. unfold do_work. rewrite E. cbn [mbind option_bind]. rewrite Lo, (proj2 (Nat.leb_le _ _)) by done. cbn [mbind option_bind].
    set (out1 := take (destination w) out ++ map Some o ++ drop (destination w + length o) out).
    assert (forall i, out1 !! i = if decide (destination w <= i < destination w + length o) then Some <$> o !! (i - destination w) else out !! i) as L1 by (intros i; apply write_lookup; lia).
    destruct (IH ltac:(intros w' Hw'; by apply F, list_elem_of_further) out1) as (out' & E' & Ll & Ei & Ew).
    { unfold out1. rewrite !length_app, length_take, length_map, length_drop. lia. }
    assert (forall j x, o !! j = Some x -> out1 !! (destination w + j) = Some (Some x)) as Own.
    { intros j x L. apply lookup_lt_Some in L as Lj. rewrite L1, decide_True by lia. replace (destination w + j - destination w) with j by lia. by rewrite L. }
    exists out'. split_and!; [done|done| |].
    + intros i. destruct (Ei i) as [->|X]; [|by right]. rewrite L1. destruct (decide _) as [In|]; [|by left]. right.
      destruct (lookup_lt_is_Some_2 o (i - destination w) ltac:(lia)) as [x Lx]. exists x. rewrite Lx. split; [|done].
      replace i with (destination w + (i - destination w)) at 1 by lia. by apply Lw.
    + intros w' o' j x [->|Hw']%elem_of_cons Eo Lj; [|by apply (Ew w' o')]. rewrite E in Eo. injection Eo as <-.
      destruct (Ei (destination w + j)) as [->|(y & Ly & ->)]; [by apply Own|]. rewrite (Lw _ _ Lj) in Ly. by injection Ly as ->.
Qed.

Lemma do_packages ws ws' os out : placed 0 ws os -> ws' ≡ₚ ws -> length out = length (concat os) -> do_all cmp ws' out = Some (map Some (concat os)).
Proof.
  intros Pl P Lo. destruct (do_all_ok (concat os) ws') with (out := out) as (out' & E & Ll & _ & Ew); [|done|].
  - intros w Hw. rewrite P in Hw. destruct (placed_within 0 ws os Pl w Hw) as (o & Eo & Le & Lj). exists o. split_and!; [done|done|]. intros j x L.
    destruct (Lj j x L) as [_ Lc]. by rewrite Nat.sub_0_r in Lc.
  - rewrite E. f_equal. apply list_eq_same_length with (n := length (concat os)); [by rewrite length_map|done|]. intros i x y _ Lx Ly.
    apply list_lookup_fmap_Some in Ly as (z & -> & Lz). destruct (placed_covers 0 ws os Pl i z Lz) as (w & o & j & Hw & Eo & Lj & Ed). simpl in Ed. subst i.
    rewrite (Ew w o j z) in Lx; [by injection Lx as <-|by rewrite P|done|done].
Qed.
End merging.

(** * Theorems *)

Section theorems.
Context {T : Type} `{SortingSpec T} (cmp : T -> T -> bool) `{!StrictWeak cmp}.

Lemma Sort_ok (s : Sorter) : cmp_fn_ s = cmp -> (sorted_ s = true -> in_order cmp (tuples_ s)) ->
  in_order cmp (tuples_ (Sort s)) /\ tuples_ (Sort s) ≡ₚ tuples_ s /\ (tuples_ s <> [] -> sorted_ (Sort s) = true).
Proof.
  intros Ec So. unfold Sort, IsSorted, IsEmpty, GetTupleCount. destruct (sorted_ s) eqn:E; [by split_and!; [apply So| |]|]. cbn [orb].
  destruct (Nat.eqb_spec (length (tuples_ s)) 0) as [E0|N]; cbn [tuples_ sorted_].
  - apply nil_length_inv in E0. rewrite E0. split_and!; [constructor|done|done].
  - rewrite Ec. split_and!; [by apply sort_sorted|by apply sort_permutation|done].
Qed.

Lemma read_rows_from (l : list T) : forall fuel i, length l <= fuel + i -> i <= length l -> read_rows fuel (mkIterator i (length l) l) = Some (drop i l).
Proof.
  induction fuel as [|fuel IH]; intros i Hf Hi; cbn [read_rows]; unfold HasNext; cbn [iter_ end_].
  - assert (i = length l) as -> by lia. by rewrite Nat.eqb_refl, drop_ge.
  - destruct (Nat.eqb_spec i (length l)) as [->|N]; cbn [negb]; [by rewrite drop_ge|]. unfold GetRow. cbn [rows_ iter_].
    destruct (lookup_lt_is_Some_2 l i ltac:(lia)) as [x Lx]. rewrite Lx. cbn [mbind option_bind]. unfold Next. cbn [iter_ end_ rows_].
    rewrite IH by lia. cbn [mbind option_bind]. by rewrite (drop_S l x i Lx).
Qed.

(** The rows are the [k] least of [xs], in order; of equal ones any. *)
Definition least (k : nat) (xs rows : list T) : Prop :=
  length rows = Nat.min (length xs) k /\ in_order cmp rows /\ exists rest, rows ++ rest ≡ₚ xs /\ (forall r y, r ∈ rest -> y ∈ rows -> cmp r y = false).

(** C21: The tuples of a top-k query: whatever the order in which they come, the sorter keeps the least [k], sorting
    puts them in order, and the iterator reads them.  With a [k] of zero, the first insertion reads the front of
    an empty vector. *)
Theorem top_k_sorts k xs :
  (0 < k -> exists s, insert_top_k k xs (new_sorter cmp) = Some s /\ least k xs (tuples_ (Sort s)) /\
     read_rows (length xs) (new_iterator (Sort s)) = Some (tuples_ (Sort s))) /\
  (xs <> [] -> insert_top_k 0 xs (new_sorter cmp) = None).
Proof.
  split; [|by destruct xs].
  intros Hk. destruct (insert_top_k_ok cmp k xs Hk [] (new_sorter cmp) (new_top_k cmp k)) as (s & E & [Ec Eu Es En _ (rest & Er & Rr)]).
  exists s. cbn [app] in *. destruct (Sort_ok s Ec) as (O & P & _); [by rewrite Eu|]. split_and!; [done| |].
  - split_and!; [by rewrite P|done|]. exists rest. rewrite P. split; [done|]. intros r y Hr Hy. rewrite P in Hy. by apply Rr.
  - unfold new_iterator. rewrite read_rows_from; [done|rewrite P, En; lia|lia].
Qed.

(** ** The parallel sort *)

Lemma nonempty_tuples (sorters : list (Sorter (T := T))) : concat (map tuples_ (filter (fun s => IsEmpty s = false) sorters)) = concat (map tuples_ sorters).
Proof.
  induction sorters as [|s sorters IH]; [done|]. rewrite filter_cons. destruct (decide (IsEmpty s = false)) as [N|E]; simpl; rewrite IH; [done|].
  apply not_false_is_true in E. unfold IsEmpty, GetTupleCount in E. by apply Nat.eqb_eq, nil_length_inv in E as ->.
Qed.
Lemma sum_counts (sorters : list (Sorter (T := T))) : sum_list (map GetTupleCount sorters) = length (concat (map tuples_ sorters)).
Proof. induction sorters as [|s sorters IH]; [done|]. simpl. by rewrite length_app, <- IH. Qed.

Lemma splitters_ok (sorters : list (Sorter (T := T))) : 2 <= length sorters -> Forall (fun s => tuples_ s <> []) sorters ->
  exists rows, splitters_of sorters = Some rows /\ rows <> [] /\ Forall (fun row => length row = length sorters) rows.
Proof.
  intros Hn F. unfold splitters_of. set (n := length sorters) in *.
  set (row := fun i => mapM (fun s => nth_sorted (tuples_ s) ((i + 1) * (GetTupleCount s / n))) sorters).
  destruct (mapM_is_Some_2 row (seq 0 (n - 1))) as [rows E].
  { apply Forall_forall. intros i Hi. apply list_elem_of_In, in_seq in Hi. apply mapM_is_Some_2. eapply Forall_impl; [exact F|]. intros s Ne. cbn beta in Ne.
    apply lookup_lt_is_Some_2. unfold GetTupleCount. assert (0 < length (tuples_ s)) by (destruct (tuples_ s); [done|simpl; lia]).
    pose proof (Nat.Div0.mul_div_le (length (tuples_ s)) n) as D. destruct (length (tuples_ s) / n) as [|q]; nia. }
  exists rows. split_and!; [done| |].
  - intros ->. apply length_mapM in E. rewrite length_seq in E. simpl in E. lia.
  - apply mapM_Some_1 in E. clear F Hn. induction E as [|i r iis rs Er _ IH]; constructor; [|done]. symmetry. by apply length_mapM in Er.
Qed.

Definition sorter_ok (s : Sorter) : Prop := cmp_fn_ s = cmp /\ (sorted_ s = true -> in_order cmp (tuples_ s)).

Lemma sort_all (sorters : list (Sorter (T := T))) : Forall sorter_ok sorters -> Forall (fun s => tuples_ s <> []) sorters ->
  Forall (in_order cmp) (map tuples_ (map Sort sorters)) /\ concat (map tuples_ (map Sort sorters)) ≡ₚ concat (map tuples_ sorters) /\
  Forall (fun s => tuples_ s <> []) (map Sort sorters) /\ map tuple_storage_ (map Sort sorters) = map tuple_storage_ sorters.
Proof.
  induction 1 as [|s sorters [Ec So] _ IH]; intros F; [done|]. apply Forall_cons in F as [Ne F]. destruct (IH F) as (IH1 & IH2 & IH3 & IH4).
  destruct (Sort_ok s Ec So) as (O & P & _). simpl. split_and!.
  - by constructor.
  - by rewrite P, IH2.
  - constructor; [|done]. intros E. rewrite E in P. by apply Permutation_nil_l in P.
  - rewrite IH4. f_equal. unfold Sort. by destruct (IsSorted s || IsEmpty s).
Qed.

Lemma moved_out_empty (sorters : list (Sorter (T := T))) : Forall (fun s => IsEmpty s = true) (map moved_out sorters).
Proof. apply Forall_forall. intros s Hs. by apply list_elem_of_In, in_map_iff in Hs as (s' & <- & _). Qed.

Lemma half_below n : 0 < n -> n / 2 < n.
Proof. intros Hn. by apply Nat.div_lt; [|lia]. Qed.

Lemma SortParallel_ok NDEBUG sorters schedule s :
  Forall sorter_ok sorters -> cmp_fn_ s = cmp -> tuples_ s = [] -> sorted_ s = false -> (forall ws, schedule ws ≡ₚ ws) ->
  exists s' ss, SortParallel NDEBUG sorters schedule s = Some (s', ss) /\ cmp_fn_ s' = cmp /\ IsSorted s' = true /\ in_order cmp (tuples_ s') /\
    tuples_ s' ≡ₚ concat (map tuples_ sorters) /\ Forall (fun s => IsEmpty s = true) ss /\
    owned_tuples_ s' = owned_tuples_ s ++ map tuple_storage_ (filter (fun s => IsEmpty s = false) sorters).
Proof.
  intros F Ec Et Eu Hs. unfold SortParallel. rewrite Et. rewrite <- (nonempty_tuples sorters). assert (Forall sorter_ok (filter (fun s => IsEmpty s = false) sorters)) as F'.
  { apply Forall_forall. intros x [_ Hx]%list_elem_of_filter. rewrite Forall_forall in F. by apply F. }
  assert (Forall (fun s => tuples_ s <> []) (filter (fun s => IsEmpty s = false) sorters)) as Ne.
  { apply Forall_forall. intros x [Hx _]%list_elem_of_filter E. unfold IsEmpty, GetTupleCount in Hx. by rewrite E in Hx. }
  revert F' Ne. generalize (filter (fun s => IsEmpty s = false) sorters). clear sorters F. intros tl F Ne. destruct (Nat.eqb_spec (length tl) 0) as [E0|N0].
  { apply nil_length_inv in E0 as ->. do 2 eexists. cbn [cmp_fn_ tuples_ sorted_ owned_tuples_ map concat IsSorted]. split_and!; [reflexivity|done|done|constructor|done|constructor|by rewrite app_nil_r]. }
  destruct (Nat.eqb (length tl) 1 || _) eqn:Ser.
  - set (s1 := mkSorter _ _ _ _ _). destruct (Sort_ok s1) as (O & P & Z); [done|by unfold s1; cbn [sorted_]; rewrite Eu|]. do 2 eexists. split_and!; [reflexivity| | |done|done|apply moved_out_empty|].
    + unfold Sort. by destruct (IsSorted s1 || IsEmpty s1).
    + apply Z. unfold s1. cbn [tuples_ app]. destruct tl as [|t tl]; [done|]. apply Forall_cons in Ne as [Nt _]. simpl. intros [E _]%app_eq_nil. done.
    + unfold Sort. by destruct (IsSorted s1 || IsEmpty s1).
  - apply orb_false_iff in Ser as [N1 _]. apply Nat.eqb_neq in N1. destruct (sort_all tl F Ne) as (O & P & Ne' & Est).
    destruct (splitters_ok (map Sort tl)) as (rows & Er & Nr & Fr); [rewrite length_map; lia|done|]. rewrite Er. cbn [mbind option_bind]. rewrite Ec.
    destruct (merge_packages_ok cmp (length (map Sort tl))) with (rows := rows) (rests := map tuples_ (map Sort tl)) (pos := 0) as (ws & os & Ep & Pl & Oo & Po); [| |done|done|done|].
    { apply half_below. rewrite length_map. lia. }
    { intros row Lr. apply lookup_lt_is_Some_2. rewrite sort_permutation by done. rewrite Lr. apply half_below. rewrite length_map. lia. }
    rewrite Ep. cbn [mbind option_bind]. rewrite (do_packages cmp ws (schedule ws) os); [|done|by apply Hs|].
    + cbn [mbind option_bind]. rewrite (mapM_fmap_Some id Some) by done. cbn [mbind option_bind]. do 2 eexists. cbn [cmp_fn_ tuples_ sorted_ owned_tuples_ IsSorted].
      split_and!; [reflexivity|done|done|exact Oo|by cbn [tuples_]; rewrite Po, P|apply moved_out_empty|done].
    + rewrite Po, P, sum_counts. simpl. rewrite Nat.sub_0_r, length_take, length_replicate. lia.
Qed.

(** C18: The parallel sort of sorters with the same order leaves all their tuples in this sorter, in order, whichever package of the merge is done when; it takes
    over their memory, and they are empty.  It reads and writes only where there is something. *)
Theorem parallel_sort_sorts NDEBUG sorters schedule s :
  Forall sorter_ok sorters -> cmp_fn_ s = cmp -> tuples_ s = [] -> sorted_ s = false -> (forall ws, schedule ws ≡ₚ ws) ->
  exists s' ss, SortParallel NDEBUG sorters schedule s = Some (s', ss) /\ IsSorted s' = true /\ in_order cmp (tuples_ s') /\
    tuples_ s' ≡ₚ concat (map tuples_ sorters) /\ Forall (fun s => IsEmpty s = true) ss /\
    owned_tuples_ s' = owned_tuples_ s ++ map tuple_storage_ (filter (fun s => IsEmpty s = false) sorters).
Proof.
  intros F Ec Et Eu Hs. destruct (SortParallel_ok NDEBUG sorters schedule s F Ec Et Eu Hs) as (s' & ss & E & _ & R). by exists s', ss.
Qed.

(** In an ordered list, what is less than an element is before it. *)
Lemma less_before (l : list T) i y : in_order cmp l -> l !! i = Some y -> length (filter (fun z => cmp z y = true) l) <= i.
Proof.
  revert i. induction l as [|x l IH]; intros i O Li; [done|]. apply in_order_cons in O as [F O]. rewrite filter_cons. destruct i as [|i].
  - injection Li as ->. rewrite decide_False by (by rewrite (not_less_refl cmp)). assert (filter (fun z => cmp z y = true) l = []) as ->; [|done].
    apply nil_length_inv. destruct (filter _ l) as [|z l'] eqn:E; [done|]. assert (z ∈ filter (fun z => cmp z y = true) l) as [Hz1 Hz2]%list_elem_of_filter by (rewrite E; apply list_elem_of_here).
    by rewrite F in Hz1.
  - specialize (IH i O Li). destruct (decide _); simpl; lia.
Qed.

Lemma least_take k (xss : list (list T)) ls : Forall2 (fun xs l => length l = Nat.min (length xs) k /\ exists rest, l ++ rest ≡ₚ xs /\ (forall r y, r ∈ rest -> y ∈ l -> cmp r y = false)) xss ls ->
  forall rows, in_order cmp rows -> rows ≡ₚ concat ls -> least k (concat xss) (take k rows).
Proof.
  intros F rows O P. assert (exists rests, concat ls ++ rests ≡ₚ concat xss /\ length (concat ls) <= length (concat xss) /\ (length (concat ls) < k -> rests = []) /\
    (forall r, r ∈ rests -> exists l, l ∈ ls /\ length l = k /\ forall y, y ∈ l -> cmp r y = false)) as (rests & Pr & Le & Few & Rr).
  { clear - F. induction F as [|xs l xss ls (Ll & rest & Pl & Rl) F (rests & Pr & Le & Few & Rr)]; [exists []; split_and!; [done|done|done|intros r Hr; by apply elem_of_nil in Hr]|].
    pose proof (Permutation_length Pl) as Pn. rewrite length_app in Pn. exists (rest ++ rests). simpl. rewrite !length_app. split_and!.
    - rewrite <- Pl, <- Pr. rewrite <- !app_assoc. apply Permutation_app_head. rewrite !app_assoc. apply Permutation_app_tail, Permutation_app_comm.
    - lia.
    - intros Hk. rewrite Few by lia. assert (rest = []) as -> by (apply nil_length_inv; lia). done.
    - intros r [Hr|Hr]%elem_of_app.
      + exists l. split_and!; [apply list_elem_of_here| |intros y Hy; by apply Rl]. destruct rest; [by apply elem_of_nil in Hr|]. simpl in Pn. lia.
      + destruct (Rr r Hr) as (l' & Hl & R'). exists l'. split; [by apply list_elem_of_further|done]. }
  pose proof (Permutation_length P) as Ln. pose proof (Permutation_length Pr) as Lr. rewrite length_app in Lr. split_and!.
  - rewrite length_take, Ln. destruct (decide (length (concat ls) < k)) as [Hk|]; [|lia]. rewrite Few in Lr by done. simpl in Lr. lia.
  - by apply in_order_split.
  - exists (drop k rows ++ rests). split; [by rewrite app_assoc, take_drop, P|]. intros r y Hr Hy. apply elem_of_app in Hr as [Hr|Hr].
    + rewrite <- (take_drop k rows) in O. apply in_order_app in O as (_ & _ & X). by apply X.
    + destruct (Rr r Hr) as (l & Hl & Lk & Hc). destruct (cmp r y) eqn:C; [|done]. apply list_elem_of_lookup_1 in Hy as [i Li]. apply lookup_take_Some in Li as [Li Hi].
      pose proof (less_before rows i y O Li) as Bf. rewrite P in Bf. apply list_elem_of_lookup_1 in Hl as [j Lj].
      assert (length (filter (fun z => cmp z y = true) l) <= length (filter (fun z => cmp z y = true) (concat ls))) as Sub.
      { clear - Lj. revert j Lj. induction ls as [|a ls IH]; intros [|j] Lj; [done|done| |]; simpl; rewrite filter_app, length_app; [injection Lj as ->; lia|]. specialize (IH j Lj). lia. }
      assert (filter (fun z => cmp z y = true) l = l) as El.
      { clear - C Hc StrictWeak0. induction l as [|z l IH]; [done|]. rewrite filter_cons, decide_True; [f_equal; apply IH; intros w Hw; by apply Hc, list_elem_of_further|].
        destruct (cmp z y) eqn:E; [done|]. by rewrite (cmp_trans r z y (Hc z (list_elem_of_here _ _)) E) in C. }
      rewrite El in Sub. lia.
Qed.

(** C20: A top-k query of several threads: each keeps the least [k] of its tuples, the parallel sort merges what they keep, and the first [k] of
    that are the least [k] of all tuples. *)
Theorem parallel_top_k NDEBUG k (xss : list (list T)) schedule : 0 < k -> (forall ws, schedule ws ≡ₚ ws) ->
  exists sorters s ss, Forall2 (fun xs s => insert_top_k k xs (new_sorter cmp) = Some s) xss sorters /\
    SortTopKParallel NDEBUG sorters schedule k (new_sorter cmp) = Some (s, ss) /\ least k (concat xss) (tuples_ s).
Proof.
  intros Hk Hs. assert (exists sorters, Forall2 (fun xs s => insert_top_k k xs (new_sorter cmp) = Some s /\ top_k_ok cmp k xs s) xss sorters) as [sorters F].
  { induction xss as [|xs xss [ss IH]]; [by exists []|]. destruct (insert_top_k_ok cmp k xs Hk [] (new_sorter cmp) (new_top_k cmp k)) as (s & E & O). exists (s :: ss). by constructor. }
  destruct (SortParallel_ok NDEBUG sorters schedule (new_sorter cmp)) as (s & ss & E & _ & _ & O & P & _ & _); [|done|done|done|done|].
  { clear - F. induction F as [|xs s xss ss [_ [Ec Eu _ _ _ _]] _ IH]; constructor; [|done]. split; [done|]. by rewrite Eu. }
  exists sorters. unfold SortTopKParallel. rewrite E. cbn [mbind option_bind]. do 2 eexists. split_and!; [eapply Forall2_impl; [exact F|]; by intros xs x [? _]|reflexivity|].
  assert (least k (concat xss) (take k (tuples_ s))) as L.
  { apply (least_take k xss (map tuples_ sorters)); [|done|done]. clear - F. induction F as [|xs x xss xs' [_ [_ _ _ En _ Er]] _ IH]; constructor; [|done]. done. }
  unfold GetTupleCount. destruct (Nat.ltb_spec k (length (tuples_ s))) as [Lt|Ge]; [done|]. by rewrite take_ge in L.
Qed.
End theorems.

(** ** Applied *)

#[local] Instance insertion_sort {T} : Sorting T := fun cmp => fix go l := match l with
  | [] => []
  | x :: l' => (fix put l := match l with [] => [x] | y :: l' => if cmp y x then y :: put l' else x :: y :: l' end) (go l')
  end.
Lemma insertion_sort_spec T : SortingSpec T.
Proof.
  assert (forall (cmp : T -> T -> bool) x l, StrictWeak cmp -> let put := (fix put l := match l with [] => [x] | y :: l' => if cmp y x then y :: put l' else x :: y :: l' end) in
    put l ≡ₚ x :: l /\ (in_order cmp l -> in_order cmp (put l))) as Put.
  { intros cmp x l W put. induction l as [|y l [IH1 IH2]]; [split; [done|repeat constructor]|]. cbn. destruct (cmp y x) eqn:C.
    - fold put. split; [rewrite IH1; apply perm_swap|]. intros [F O]%in_order_cons. apply in_order_cons. split; [|by apply IH2].
      intros z Hz. rewrite IH1 in Hz. apply elem_of_cons in Hz as [->|Hz]; [by apply cmp_asym|by apply F].
    - split; [done|]. intros O. apply in_order_cons. split; [|done]. apply in_order_cons in O as [F _]. intros z [->|Hz]%elem_of_cons; [done|]. apply (cmp_trans _ y); [by apply F|done]. }
  split; intros cmp l W.
  - induction l as [|x l IH]; [done|]. cbn. fold (@insertion_sort T cmp l). destruct (Put cmp x (sort cmp l) W) as [P _]. etrans; [apply P|]. by apply perm_skip.
  - induction l as [|x l IH]; [constructor|]. cbn. destruct (Put cmp x (sort cmp l) W) as [_ O]. by apply O.
Qed.
#[local] Existing Instance insertion_sort_spec.
#[local] Instance ltb_weak : StrictWeak Nat.ltb.
Proof. split; intros *; rewrite ?Nat.ltb_lt, ?Nat.ltb_ge; lia. Qed.

Lemma top_k_sorts_witness : exists s, insert_top_k 2 [5; 1; 4; 1; 3] (new_sorter Nat.ltb) = Some s /\ least Nat.ltb 2 [5; 1; 4; 1; 3] (tuples_ (Sort s)) /\
  insert_top_k 0 [5] (new_sorter Nat.ltb) = None.
Proof.
  destruct (top_k_sorts Nat.ltb 2 [5; 1; 4; 1; 3]) as [A _]. destruct A as (s & E & L & _); [lia|]. exists s. split_and!; [exact E|exact L|].
  destruct (top_k_sorts Nat.ltb 0 [5]) as [_ B]. by apply B.
Defined.

(** More than a thousand tuples in three sorters, so that they are merged in packages, the last one first. *)
Definition some_sorters : list Sorter := map (fun xs => mkSorter xs [] Nat.ltb xs false) [rev (seq 0 (4 * 100)); rev (seq 100 (5 * 100)); []; seq 7 (3 * 100)].
Lemma parallel_sort_sorts_witness : exists s ss, SortParallel false some_sorters (@rev _) (new_sorter Nat.ltb) = Some (s, ss) /\
  IsSorted s = true /\ in_order Nat.ltb (tuples_ s) /\ tuples_ s ≡ₚ concat (map tuples_ some_sorters).
Proof.
  destruct (parallel_sort_sorts Nat.ltb false some_sorters (@rev _) (new_sorter Nat.ltb)) as (s & ss & E & So & O & P & _).
  - apply Forall_forall. intros s Hs. apply list_elem_of_In, in_map_iff in Hs as (xs & <- & _). split; [reflexivity|]. intros X. discriminate X.
  - done.
  - done.
  - done.
  - intros ws. symmetry. apply Permutation_rev.
  - exists s, ss. split_and!; [exact E|exact So|exact O|exact P].
Defined.

Lemma parallel_top_k_witness : exists sorters s ss, Forall2 (fun xs s => insert_top_k 2 xs (new_sorter Nat.ltb) = Some s) [[5; 1; 4]; [2; 9; 3]] sorters /\
  SortTopKParallel true sorters (fun ws => ws) 2 (new_sorter Nat.ltb) = Some (s, ss) /\ least Nat.ltb 2 [5; 1; 4; 2; 9; 3] (tuples_ s).
Proof. apply (parallel_top_k Nat.ltb true 2 [[5; 1; 4]; [2; 9; 3]] (fun ws => ws)); [lia|done]. Defined.
