(* ===== verification/CsvReader.v ===== *)
(** The reader of CSV files, [src/util/csv_reader.cpp] and [src/include/util/csv_reader.h].

    A character is the byte it is.  A buffer is the bytes from the first unread one on: those that are data, and
    behind them the padding that the vector instructions may read.  What reads outside of a
    buffer is [None], as is an exception and what runs out of fuel; a [string_view] is the characters it refers to. *)
From S2P Require Import Prelude.

Local Open Scope list_scope.

(** [_mm_cmpistri] with [_SIDD_CMP_EQUAL_ANY] on 16 bytes: the position in the second string of the first
    character that the first string has, or 16.  A string ends at a zero. *)
Class StringCompare := cmpistri : list Z -> list Z -> nat.
Fixpoint until_null (l : list Z) : list Z := match l with [] => [] | c :: l' => if c =? 0 then [] else c :: until_null l' end.
Fixpoint first_of (special l : list Z) : option nat :=
  match l with [] => None | c :: l' => if bool_decide (c ∈ special) then Some 0%nat else S <$> first_of special l' end.
Class StringCompareSpec `{StringCompare} := {
  cmpistri_spec special data : length special = 16%nat -> length data = 16%nat ->
    cmpistri special data = default 16%nat (first_of (until_null special) (until_null data))
}.

Definition CR : Z := 13.
Definition LF : Z := 10.
Definition is_new_line (c : Z) : bool := (c =? CR) || (c =? LF).

Definition kNumExtraPaddingChars : nat := 16.

Record CSVCell := mkCell { s : list Z; escaped : bool; escape_char : Z }.
Record CSVRow := mkRow { cells : list CSVCell; count : nat }.
Inductive ParseResult := Ok | NeedMoreData | NeedMoreCells.

Definition IsEmpty (cell : CSVCell) : bool := bool_decide (s cell = []).

(** [AsString]: the characters of [s] are moved over the escape characters; behind them is a zero. *)
Fixpoint unescape (fuel : nat) (esc : Z) (l : list Z) (i : nat) (out : list Z) : list Z :=
  match fuel with
  | O => out
  | S fuel' => if Nat.ltb i (length l) then
      let i := if default 0 (l !! i) =? esc then S i else i in
      unescape fuel' esc l (S i) (out ++ [default 0 (l !! i)])
    else out
  end.
Definition AsString (cell : CSVCell) : list Z :=
  if escaped cell then unescape (length (s cell)) (escape_char cell) (s cell) 0 [] else s cell.

(** * One row *)

Section parse.
Context `{StringCompare} (delimiter_ quote_char_ escape_char_ : Z).

Definition pad16 (l : list Z) : list Z := l ++ replicate (16 - length l) 0.
Definition special_quoted : list Z := pad16 [quote_char_; escape_char_].
Definition special_unquoted : list Z := pad16 [delimiter_; escape_char_; CR; LF].
Definition load (mem : list Z) (ptr : nat) : option (list Z) :=
  if Nat.leb (ptr + 16) (length mem) then Some (take 16 (drop ptr mem)) else None.

(** The loops that look for a special character: [Some None] is the end of the data. *)
Fixpoint scan (fuel : nat) (special mem : list Z) (size ptr : nat) : option (option nat) :=
  if Nat.leb size ptr then Some None else
  match fuel with
  | O => None
  | S fuel' => data ← load mem ptr; let ret := cmpistri special data in
               if Nat.eqb ret 16 then scan fuel' special mem size (ptr + 16) else Some (Some (ptr + ret)%nat)
  end.

Definition on_cell (i : nat) (f : CSVCell -> CSVCell) (row : CSVRow) : option CSVRow :=
  c ← cells row !! i; Some (mkRow (<[i := f c]> (cells row)) (count row)).
Definition finish (i cell_start len : nat) (mem : list Z) : CSVRow -> option CSVRow :=
  on_cell i (fun c => mkCell (take len (drop cell_start mem)) (escaped c) (escape_char c)).
Definition set_escaped (b : bool) (i : nat) : CSVRow -> option CSVRow := on_cell i (fun c => mkCell (s c) b (escape_char c)).
Definition count_cell (row : CSVRow) : CSVRow := mkRow (cells row) (S (count row)).

(** The labels of the function; the last two come with the start of the cell. *)
Inductive label := cell_start_ | quoted_cell (cell_start : nat) | unquoted_cell (cell_start : nat).

(** [TryParse] from a label on: the result, the row, and where the next row begins.  [cell] is the index of the
    cell that is being read. *)
Fixpoint parse (fuel : nat) (mem : list Z) (size : nat) (l : label) (ptr cell : nat) (row : CSVRow) : option (ParseResult * CSVRow * nat) :=
  match fuel with
  | O => None
  | S fuel' =>
      let need_more_data row := Some (NeedMoreData, row, 0%nat) in
      let next_cell ptr row :=
        let row := count_cell row in
        if Nat.eqb (count row) (length (cells row)) then Some (NeedMoreCells, row, 0%nat)
        else parse fuel' mem size cell_start_ (S ptr) (S cell) row in
      match l with
      | cell_start_ =>
          row ← set_escaped false cell row;
          if Nat.leb size ptr then need_more_data row else
          c ← mem !! ptr;
          if is_new_line c then row ← finish cell ptr 0 mem row; Some (Ok, count_cell row, S ptr)
          else if c =? quote_char_ then parse fuel' mem size (quoted_cell (S ptr)) (S ptr) cell row
          else parse fuel' mem size (unquoted_cell ptr) ptr cell row
      | quoted_cell cell_start =>
          r ← scan size special_quoted mem size ptr;
          match r with
          | None => need_more_data row
          | Some p =>
              let ptr := S p in
              if Nat.leb size ptr then need_more_data row else
              c ← mem !! ptr;
              if c =? delimiter_ then
                row ← finish cell cell_start (ptr - cell_start - 1) mem row; next_cell ptr row
              else if is_new_line c then
                row ← finish cell cell_start (ptr - cell_start - 1) mem row; Some (Ok, count_cell row, S ptr)
              else row ← set_escaped true cell row; parse fuel' mem size (quoted_cell cell_start) (S ptr) cell row
          end
      | unquoted_cell cell_start =>
          r ← scan size special_unquoted mem size ptr;
          match r with
          | None => need_more_data row
          | Some ptr =>
              if Nat.leb size ptr then need_more_data row else
              c ← mem !! ptr;
              if c =? delimiter_ then
                row ← finish cell cell_start (ptr - cell_start) mem row; next_cell ptr row
              else if is_new_line c then
                row ← finish cell cell_start (ptr - cell_start) mem row; Some (Ok, count_cell row, S ptr)
              else row ← set_escaped true cell row; parse fuel' mem size (unquoted_cell cell_start) (S ptr) cell row
          end
      end
  end.
Definition TryParse (mem : list Z) (size : nat) (row : CSVRow) : option (ParseResult * CSVRow * nat) :=
  parse (2 * size + 2) mem size cell_start_ 0 0 row.
End parse.

(** * Sources *)

(** What a reader asks of a source.  [GetBuffer] is the memory from the first unread byte on, the padding
    included; [Fill] is [None] when it throws. *)
Class CSVSource (S : Type) := {
  GetBuffer : S -> list Z;
  GetSize : S -> nat;
  Consume : nat -> S -> S;
  Fill : S -> option (bool * S)
}.

(** [CSVString]: the data with the padding, and what has been read of it. *)
Record CSVString := mkString { data_ : list Z; p_ : nat; pend_ : nat }.
Definition new_string (data : list Z) : CSVString := mkString (data ++ replicate kNumExtraPaddingChars 0) 0 (length data).
#[export] Instance CSVString_source : CSVSource CSVString := {|
  GetBuffer src := drop (p_ src) (data_ src);
  GetSize src := (pend_ src - p_ src)%nat;
  Consume n src := mkString (data_ src) (p_ src + n) (pend_ src);
  Fill src := Some (Nat.ltb (p_ src) (pend_ src), src)
|}.

(** [CSVFile]: the buffer, and what is left of the file.  A read gives as much as there is and as was asked for;
    new memory holds whatever [fresh] says. *)
Definition kDefaultBufferSize : N := (64 * 1024)%N.
Definition kMaxAllocSize : N := (1024 * 1024 * 1024)%N.
Class FreshMemory := fresh : nat -> nat -> Z.
Record CSVFile := mkFile { file_ : list Z; buffer_ : list Z; read_pos_ : nat; end_pos_ : nat; buffer_alloc_size_ : N; new_buffers : nat }.

Section file.
Context `{FreshMemory}.

Definition new_buffer (size : N) (k : nat) : list Z := map (fresh k) (seq 0 (N.to_nat size + kNumExtraPaddingChars)).
Definition new_file (contents : list Z) : CSVFile := mkFile contents (new_buffer kDefaultBufferSize 0) 0 0 kDefaultBufferSize 1.
Definition store_at (i : nat) (l mem : list Z) : list Z := take i mem ++ l ++ drop (i + length l) mem.

Definition Fill_file (src : CSVFile) : option (bool * CSVFile) :=
  let left_over_bytes := (end_pos_ src - read_pos_ src)%nat in
  let src := if Nat.ltb 0 left_over_bytes then
      mkFile (file_ src) (store_at 0 (take left_over_bytes (drop (read_pos_ src) (buffer_ src))) (buffer_ src)) 0 (end_pos_ src - read_pos_ src)
        (buffer_alloc_size_ src) (new_buffers src)
    else src in
  src ← (if (N.of_nat (end_pos_ src) =? buffer_alloc_size_ src)%N then
      if (buffer_alloc_size_ src =? kMaxAllocSize)%N then None
      else let size := N.min (buffer_alloc_size_ src * 2) kMaxAllocSize in
           Some (mkFile (file_ src) (store_at 0 (take (end_pos_ src - read_pos_ src) (buffer_ src)) (new_buffer size (new_buffers src)))
                   (read_pos_ src) (end_pos_ src) size (S (new_buffers src)))
    else Some src);
  let available := (N.to_nat (buffer_alloc_size_ src) - end_pos_ src)%nat in
  let read := take available (file_ src) in
  match read with
  | [] => Some (false, src)
  | _ => let src := mkFile (drop available (file_ src)) (store_at (end_pos_ src) read (buffer_ src)) (read_pos_ src)
                     (end_pos_ src + length read) (buffer_alloc_size_ src) (new_buffers src) in
         Some (Nat.ltb 0 (end_pos_ src), src)
  end.

#[export] Instance CSVFile_source : CSVSource CSVFile := {|
  GetBuffer src := drop (read_pos_ src) (buffer_ src);
  GetSize src := (end_pos_ src - read_pos_ src)%nat;
  Consume n src := mkFile (file_ src) (buffer_ src) (read_pos_ src + n) (end_pos_ src) (buffer_alloc_size_ src) (new_buffers src);
  Fill := Fill_file
|}.
End file.

(** * The reader *)

Record Stats := mkStats { num_fills : Z; bytes_read : Z; num_lines : Z }.
Record CSVReader (S : Type) := mkReader {
  source_ : S; row_ : CSVRow; delimiter_ : Z; quote_char_ : Z; escape_char_ : Z; stats_ : Stats
}.
Arguments mkReader {S}.
Arguments source_ {S}.
Arguments row_ {S}.
Arguments delimiter_ {S}.
Arguments quote_char_ {S}.
Arguments escape_char_ {S}.
Arguments stats_ {S}.

Section reader.
Context `{StringCompare} {S : Type} `{CSVSource S}.

Definition empty_cell (esc : Z) : CSVCell := mkCell [] false esc.
Definition new_reader (source : S) (delimiter quote escape : Z) : CSVReader S :=
  mkReader source (mkRow (replicate 8 (empty_cell escape)) 0) delimiter quote escape (mkStats 0 0 0).
Definition with_row (row : CSVRow) (r : CSVReader S) : CSVReader S :=
  mkReader (source_ r) row (delimiter_ r) (quote_char_ r) (escape_char_ r) (stats_ r).
Definition with_source (src : S) (st : Stats) (r : CSVReader S) : CSVReader S :=
  mkReader src (row_ r) (delimiter_ r) (quote_char_ r) (escape_char_ r) st.

(** [resize] gives new cells; all are told the escape character. *)
Definition more_cells (esc : Z) (row : CSVRow) : CSVRow :=
  mkRow (map (fun c => mkCell (s c) (escaped c) esc) (cells row ++ replicate (length (cells row)) (mkCell [] false 0))) (count row).

(** One turn of the loop of [Advance]: it returns, or goes on. *)
Inductive pass := Return (more : bool) (r : CSVReader S) | Again (r : CSVReader S).
Definition Advance_pass (r : CSVReader S) : option pass :=
  let row := mkRow (cells (row_ r)) 0 in
  '(result, row, n) ← TryParse (delimiter_ r) (quote_char_ r) (escape_char_ r) (GetBuffer (source_ r)) (GetSize (source_ r)) row;
  let r := with_row row r in
  let st := stats_ r in
  match result with
  | Ok => Some (Return true (with_source (Consume n (source_ r))
            (mkStats (num_fills st) (wrapu 32 (bytes_read st + Z.of_nat n)) (wrapu 32 (num_lines st + 1))) r))
  | NeedMoreCells => Some (Again (with_row (more_cells (escape_char_ r) row) r))
  | NeedMoreData =>
      let st := mkStats (wrapu 32 (num_fills st + 1)) (bytes_read st) (num_lines st) in
      '(more, src) ← Fill (source_ r);
      let r := with_source src st r in
      Some (if (more : bool) then Again r else Return false r)
  end.
Fixpoint Advance (fuel : nat) (r : CSVReader S) : option (bool * CSVReader S) :=
  match fuel with
  | O => None
  | Datatypes.S fuel' => p ← Advance_pass r;
                         match p with Return more r => Some (more, r) | Again r => Advance fuel' r end
  end.
(** The reader after [k] turns of which none returned. *)
Fixpoint passes (k : nat) (r : CSVReader S) : option (CSVReader S) :=
  match k with
  | O => Some r
  | Datatypes.S k' => p ← Advance_pass r; match p with Again r => passes k' r | Return _ _ => None end
  end.

Definition GetRow (r : CSVReader S) : list CSVCell := take (count (row_ r)) (cells (row_ r)).
Definition GetRowCell (idx : nat) (r : CSVReader S) : option CSVCell := cells (row_ r) !! idx.
Definition GetRecordNumber (r : CSVReader S) : Z := num_lines (stats_ r).
End reader.

(** * What a row is

    The characters one by one, without buffers and blocks: in a mode, with the characters of the cell so far, whether
    something in it was escaped, and the cells before.  The result is the cells that have ended and, if the row has,
    what is behind it. *)

Inductive mode := MStart | MQuoted | MSpecial | MUnquoted.

Section reference.
Context (delimiter quote esc : Z).

Fixpoint read_row (m : mode) (acc : list Z) (e : bool) (dn : list (list Z * bool)) (data : list Z) : list (list Z * bool) * option (list Z) :=
  match data with
  | [] => (dn, None)
  | c :: data' =>
      let unquoted acc :=
        if c =? delimiter then read_row MStart [] false (dn ++ [(acc, e)]) data'
        else if is_new_line c then (dn ++ [(acc, e)], Some data')
        else read_row MUnquoted (acc ++ [c]) (e || (c =? esc)) dn data' in
      match m with
      | MStart => if is_new_line c then (dn ++ [([], false)], Some data')
                  else if c =? quote then read_row MQuoted [] false dn data'
                  else unquoted []
      | MQuoted => if (c =? quote) || (c =? esc) then read_row MSpecial (acc ++ [c]) e dn data'
                   else read_row MQuoted (acc ++ [c]) e dn data'
      | MSpecial => if c =? delimiter then read_row MStart [] false (dn ++ [(removelast acc, e)]) data'
                    else if is_new_line c then (dn ++ [(removelast acc, e)], Some data')
                    else read_row MQuoted (acc ++ [c]) true dn data'
      | MUnquoted => unquoted acc
      end
  end.

(** [m] is unquoted and the cell begins: the same as a mode for the rest of the cell. *)
Lemma read_start c data dn : is_new_line c = false -> c <> quote ->
  read_row MStart [] false dn (c :: data) = read_row MUnquoted [] false dn (c :: data).
Proof. intros Hn Hq. cbn [read_row]. rewrite Hn, (proj2 (Z.eqb_neq _ _)) by done. done. Qed.

Lemma read_quoted pre : forall acc e dn data, (forall c, c ∈ pre -> c ∉ [quote; esc]) ->
  read_row MQuoted acc e dn (pre ++ data) = read_row MQuoted (acc ++ pre) e dn data.
Proof.
  induction pre as [|c pre IH]; intros acc e dn data N; [by rewrite app_nil_r|]. cbn [app read_row].
  assert (c ∉ [quote; esc]) as Hc by (apply N; by left). apply not_elem_of_cons in Hc as [H1 Hc]. apply not_elem_of_cons in Hc as [H2 _].
  rewrite !(proj2 (Z.eqb_neq _ _)) by done. cbn [orb]. rewrite IH by (intros d Hd; apply N; by right). by rewrite <- app_assoc.
Qed.

Lemma read_unquoted pre : forall acc e dn data, (forall c, c ∈ pre -> c ∉ [delimiter; esc; CR; LF]) ->
  read_row MUnquoted acc e dn (pre ++ data) = read_row MUnquoted (acc ++ pre) e dn data.
Proof.
  induction pre as [|c pre IH]; intros acc e dn data N; [by rewrite app_nil_r|]. cbn [app read_row].
  assert (c ∉ [delimiter; esc; CR; LF]) as Hc by (apply N; by left). rewrite !not_elem_of_cons in Hc. destruct Hc as (H1 & H2 & H3 & H4 & _).
  unfold is_new_line. rewrite !(proj2 (Z.eqb_neq _ _)) by done. cbn [orb]. rewrite orb_false_r.
  rewrite IH by (intros d Hd; apply N; by right). by rewrite <- app_assoc.
Qed.
End reference.

(** * The search in blocks *)

Lemma first_of_app special a b : first_of special (a ++ b) =
  match first_of special a with Some i => Some i | None => (fun i => (length a + i)%nat) <$> first_of special b end.
Proof.
  induction a as [|c a IH]; cbn [app first_of length]; [by destruct (first_of special b)|].
  case_bool_decide; [done|]. rewrite IH. destruct (first_of special a); [done|]. by destruct (first_of special b).
Qed.
Lemma first_of_lt special a i : first_of special a = Some i -> (i < length a)%nat.
Proof.
  revert i. induction a as [|c a IH]; intros i E; [done|]. cbn [first_of length] in *. case_bool_decide; [injection E as <-; lia|].
  destruct (first_of special a) as [j|]; [|done]. injection E as <-. specialize (IH j eq_refl). lia.
Qed.
Lemma first_of_split special a i : first_of special a = Some i ->
  exists pre c post, a = pre ++ c :: post /\ length pre = i /\ c ∈ special /\ (forall d, d ∈ pre -> d ∉ special).
Proof.
  revert i. induction a as [|c a IH]; intros i E; [done|]. cbn [first_of] in E. case_bool_decide as D.
  - injection E as <-. exists [], c, a. split_and!; [done|done|done|]. intros d Hd. by apply elem_of_nil in Hd.
  - destruct (first_of special a) as [j|] eqn:Ej; [|done]. injection E as <-. destruct (IH j eq_refl) as (pre & x & post & -> & <- & Hx & N).
    exists (c :: pre), x, post. split_and!; [done|done|done|]. intros d Hd. apply elem_of_cons in Hd as [->|Hd]; [done|by apply N].
Qed.
Lemma first_of_none special a : first_of special a = None -> forall d, d ∈ a -> d ∉ special.
Proof.
  induction a as [|c a IH]; intros E d Hd; [by apply elem_of_nil in Hd|]. cbn [first_of] in E. case_bool_decide as D; [done|].
  destruct (first_of special a); [done|]. apply elem_of_cons in Hd as [->|Hd]; [done|by apply IH].
Qed.

Definition no_null (l : list Z) : Prop := Forall (fun c => c <> 0) l.
Lemma until_null_app a b : no_null a -> until_null (a ++ b) = a ++ until_null b.
Proof. induction 1 as [|c a Hc _ IH]; [done|]. cbn [app until_null]. rewrite (proj2 (Z.eqb_neq _ _)) by done. by rewrite IH. Qed.
Lemma until_null_all a : no_null a -> until_null a = a.
Proof. intros Ha. rewrite <- (app_nil_r a) at 1. rewrite until_null_app by done. apply app_nil_r. Qed.
Lemma until_null_length a : (length (until_null a) <= length a)%nat.
Proof. induction a as [|c a IH]; [done|]. cbn [until_null]. destruct (c =? 0); simpl; lia. Qed.

Section block.
Context `{StringCompareSpec}.

Lemma scan_first special sp data padding : length special = 16%nat -> until_null special = sp -> no_null data -> (16 <= length padding)%nat ->
  forall fuel ptr, (length data - ptr <= fuel)%nat ->
  exists r, scan fuel special (data ++ padding) (length data) ptr = Some r /\
    match first_of sp (drop ptr data) with Some i => r = Some (ptr + i)%nat | None => forall p, r = Some p -> (length data <= p)%nat end.
Proof.
  intros Ls Es Hd Hp. induction fuel as [|fuel IH]; intros ptr Hf.
  - exists None. cbn [scan]. rewrite (proj2 (Nat.leb_le _ _)) by lia. split; [done|]. rewrite drop_ge by lia. done.
  - destruct (decide (length data <= ptr)%nat) as [L|L].
    { exists None. cbn [scan]. rewrite (proj2 (Nat.leb_le _ _)) by lia. split; [done|]. rewrite drop_ge by lia. done. }
    cbn [scan]. rewrite (proj2 (Nat.leb_gt _ _)) by lia. unfold load. rewrite length_app, (proj2 (Nat.leb_le _ _)) by lia. cbn [mbind option_bind].
    rewrite drop_app_le by lia. set (d := drop ptr data).
    assert (Nd : no_null d) by (by apply Forall_drop). assert (Ld : length d = (length data - ptr)%nat) by (apply length_drop).
    assert (L16 : length (take 16 (d ++ padding)) = 16%nat) by (rewrite length_take, length_app; lia).
    rewrite (cmpistri_spec special (take 16 (d ++ padding)) Ls L16), Es.
    destruct (decide (16 <= length d)%nat) as [G|G].
    + rewrite take_app_le by done. rewrite until_null_all by (by apply Forall_take).
      pose proof (first_of_app sp (take 16 d) (drop 16 d)) as Fa. rewrite take_drop, length_take, Nat.min_l in Fa by done.
      destruct (first_of sp (take 16 d)) as [i|] eqn:Ei; cbn [from_option id].
      * pose proof (first_of_lt _ _ _ Ei) as Li. rewrite length_take in Li. rewrite (proj2 (Nat.eqb_neq i 16)) by lia.
        exists (Some (ptr + i)%nat). split; [done|]. by rewrite Fa.
      * rewrite Nat.eqb_refl. destruct (IH (ptr + 16)%nat ltac:(lia)) as (r & E & M). exists r. split; [done|]. rewrite Fa.
        rewrite <- drop_drop in M. fold d in M. destruct (first_of sp (drop 16 d)) as [i|]; cbn; [|done]. rewrite M. f_equal. lia.
    + rewrite take_app_ge by lia. rewrite until_null_app by done. rewrite first_of_app.
      destruct (first_of sp d) as [i|] eqn:Ei; cbn [from_option id].
      * pose proof (first_of_lt _ _ _ Ei) as Li. rewrite (proj2 (Nat.eqb_neq i 16)) by lia. exists (Some (ptr + i)%nat). done.
      * destruct (first_of sp (until_null (take (16 - length d) padding))) as [j|] eqn:Ej; cbn [fmap option_fmap option_map from_option id].
        -- pose proof (first_of_lt _ _ _ Ej) as Lj. pose proof (until_null_length (take (16 - length d) padding)) as Lu. rewrite length_take in Lu.
           rewrite (proj2 (Nat.eqb_neq _ 16)) by lia. eexists. split; [reflexivity|]. intros p Ep. injection Ep as <-. lia.
        -- rewrite Nat.eqb_refl. exists None. split; [|done]. destruct fuel; cbn [scan]; by rewrite (proj2 (Nat.leb_le _ _)) by lia.
Qed.
End block.

(** * A row is read as it is *)

Definition holds (row : CSVRow) (dn : list (list Z * bool)) : Prop :=
  forall i x, dn !! i = Some x -> exists c, cells row !! i = Some c /\ s c = x.1 /\ escaped c = x.2.
Definition escapes_with (ec : Z) (row : CSVRow) : Prop := Forall (fun c => escape_char c = ec) (cells row).

(** The answer of [TryParse], for what a row is, with [n] cells in the reader's row. *)
Definition answers (ec : Z) (n : nat) (data : list Z) (o : list (list Z * bool) * option (list Z))
    (res : option (ParseResult * CSVRow * nat)) : Prop :=
  exists pr row k, res = Some (pr, row, k) /\ length (cells row) = n /\ escapes_with ec row /\
  match pr with
  | Ok => exists rest, o.2 = Some rest /\ (length o.1 <= n)%nat /\ drop k data = rest /\ (k <= length data)%nat /\ count row = length o.1 /\ holds row o.1
  | NeedMoreCells => (n + (if o.2 is Some _ then 1 else 0) <= length o.1 <= length data)%nat
  | NeedMoreData => o.2 = None /\ (length o.1 < n)%nat
  end.

(** The cells before stay, and the row that ends has one more. *)
Lemma read_row_longer d q e : forall data m acc b dn,
  (length dn + (if (read_row d q e m acc b dn data).2 is Some _ then 1 else 0) <= length (read_row d q e m acc b dn data).1 <= length dn + length data)%nat.
Proof.
  induction data as [|c data IH]; intros m acc b dn; [simpl; lia|].
  assert (L : forall m acc b x, let o := read_row d q e m acc b (dn ++ [x]) data in
    (length dn + (if o.2 is Some _ then 1 else 0) <= length o.1 <= length dn + S (length data))%nat).
  { intros m' acc' b' x o. specialize (IH m' acc' b' (dn ++ [x])). rewrite length_app in IH. subst o. simpl in IH. lia. }
  assert (K : forall m acc b, let o := read_row d q e m acc b dn data in (length dn + (if o.2 is Some _ then 1 else 0) <= length o.1 <= length dn + S (length data))%nat).
  { intros m' acc' b' o. specialize (IH m' acc' b' dn). subst o. lia. }
  assert (F : forall x, (length dn + 1 <= length (dn ++ [x]) <= length dn + S (length data))%nat) by (intros x; rewrite length_app; simpl; lia).
  cbn [read_row]. destruct m; repeat (match goal with |- context [if ?x then read_row _ _ _ _ _ _ _ _ else _] => destruct x | |- context [if ?x then (_, Some _) else _] => destruct x end); first [apply L|apply K|apply F].
Qed.

Lemma on_cell_some i f row n : length (cells row) = n -> (i < n)%nat -> exists c row', cells row !! i = Some c /\ on_cell i f row = Some row' /\
  length (cells row') = n /\ count row' = count row /\ cells row' !! i = Some (f c) /\ (forall j, j <> i -> cells row' !! j = cells row !! j).
Proof.
  intros Hn Hi. destruct (lookup_lt_is_Some_2 (cells row) i ltac:(lia)) as [c Hc]. exists c. unfold on_cell. rewrite Hc. cbn [mbind option_bind].
  eexists. split; [done|]. split; [reflexivity|]. cbn [cells count]. split_and!; [by rewrite length_insert|done|apply list_lookup_insert_eq; lia|].
  intros j Nj. by apply list_lookup_insert_ne.
Qed.

Lemma on_cell_escapes i f row row' ec : on_cell i f row = Some row' -> (forall c, escape_char (f c) = escape_char c) ->
  escapes_with ec row -> escapes_with ec row'.
Proof.
  unfold on_cell, escapes_with. intros E Hf F. destruct (cells row !! i) as [c|] eqn:Hc; [|done]. cbn [mbind option_bind] in E. injection E as <-.
  cbn [cells]. apply Forall_insert; [done|]. rewrite Hf. by apply (proj1 (Forall_lookup _ _) F i).
Qed.

Lemma holds_other row row' dn i : holds row dn -> (length dn <= i)%nat -> (forall j, j <> i -> cells row' !! j = cells row !! j) -> holds row' dn.
Proof.
  intros Hd Hl Hs j x Hx. destruct (Hd j x Hx) as (c & Hc & R). exists c. rewrite Hs; [done|]. apply lookup_lt_Some in Hx. lia.
Qed.
Lemma holds_snoc row dn x c : holds row dn -> cells row !! length dn = Some c -> s c = x.1 -> escaped c = x.2 -> holds row (dn ++ [x]).
Proof.
  intros Hd Hc Hs He j y Hy. apply lookup_app_Some in Hy as [Hy|[Hj Hy]]; [by apply Hd|].
  destruct (j - length dn)%nat as [|k] eqn:Ek; [|by destruct k]. injection Hy as <-. exists c. by replace j with (length dn) by lia.
Qed.

Section row.
Context `{StringCompareSpec} (d q e : Z) (Hd : d <> 0) (Hq : q <> 0) (He : e <> 0).
Context (data padding : list Z) (Hnull : no_null data) (Hpad : (16 <= length padding)%nat) (ec : Z) (n : nat).
Local Abbreviation mem := (data ++ padding).
Local Abbreviation size := (length data).
Definition slice (a b : nat) : list Z := take (b - a) (drop a data).

Lemma special_quoted_ok : length (special_quoted q e) = 16%nat /\ until_null (special_quoted q e) = [q; e].
Proof. split; [done|]. unfold special_quoted, pad16. cbn [app until_null]. rewrite !(proj2 (Z.eqb_neq _ _)) by done. done. Qed.
Lemma special_unquoted_ok : length (special_unquoted d e) = 16%nat /\ until_null (special_unquoted d e) = [d; e; CR; LF].
Proof. split; [done|]. unfold special_unquoted, pad16. cbn [app until_null]. rewrite !(proj2 (Z.eqb_neq _ 0)) by done. done. Qed.

Lemma slice_mem a b : (b <= size)%nat -> take (b - a) (drop a mem) = slice a b.
Proof.
  intros Hb. unfold slice. destruct (decide (a <= b)%nat).
  - rewrite drop_app_le by lia. rewrite take_app_le by (rewrite length_drop; lia). done.
  - by replace (b - a)%nat with 0%nat by lia.
Qed.
Lemma slice_snoc a b c : (a <= b)%nat -> data !! b = Some c -> slice a (S b) = slice a b ++ [c].
Proof.
  intros Hab Hc. unfold slice. replace (S b - a)%nat with (S (b - a)) by lia. apply take_S_r. rewrite lookup_drop. by replace (a + (b - a))%nat with b by lia.
Qed.
Lemma slice_app a b pre rest : (a <= b)%nat -> drop b data = pre ++ rest -> slice a (b + length pre) = slice a b ++ pre.
Proof.
  intros Hab E. unfold slice. replace (b + length pre - a)%nat with ((b - a) + length pre)%nat by lia.
  rewrite <- (take_drop (b - a) (drop a data)) at 1. rewrite drop_drop. replace (a + (b - a))%nat with b by lia.
  destruct (decide (b <= size)%nat).
  - assert (L : length (take (b - a) (drop a data)) = (b - a)%nat) by (rewrite length_take, length_drop; lia).
    rewrite <- L at 1. rewrite take_app_add, E. by rewrite take_app_length.
  - rewrite drop_ge in E by lia. symmetry in E. apply app_nil in E as [-> ->]. rewrite !app_nil_r. rewrite (drop_ge data b) by lia.
    rewrite app_nil_r. apply take_ge. rewrite length_take. simpl. lia.
Qed.
Lemma mem_data p : (p < size)%nat -> mem !! p = data !! p.
Proof. intros Hp. by apply lookup_app_l. Qed.
Lemma drop_cons p c : data !! p = Some c -> drop p data = c :: drop (S p) data.
Proof. apply drop_S. Qed.

(** Where a parse stands. *)
Record at_cell (row : CSVRow) (cell ptr : nat) (dn : list (list Z * bool)) : Prop := {
  at_escapes : escapes_with ec row; at_length : length (cells row) = n; at_count : count row = cell; at_done : length dn = cell;
  at_less : (cell < n)%nat; at_holds : holds row dn; at_ptr : (cell <= ptr)%nat
}.

(** A cell is finished at [ptr] with the characters [txt]. *)
Lemma finished row cell ptr dn start len c txt b : at_cell row cell ptr dn -> cells row !! cell = Some c -> take len (drop start mem) = txt -> escaped c = b ->
  exists row', finish cell start len mem row = Some row' /\ length (cells row') = n /\ escapes_with ec row' /\ count (count_cell row') = length (dn ++ [(txt, b)]) /\
    holds (count_cell row') (dn ++ [(txt, b)]).
Proof.
  intros [Es Ln Ct Dn Ls Hh Pt] Hc Ht Hb. destruct (on_cell_some cell (fun c => mkCell (take len (drop start mem)) (escaped c) (escape_char c)) row n Ln Ls)
    as (c' & row' & Hc' & E & Ln' & Ct' & Hi & Ho). rewrite Hc in Hc'. injection Hc' as <-.
  exists row'. split_and!; [done|done| | |].
  - by eapply on_cell_escapes.
  - cbn [count count_cell]. rewrite Ct', Ct, length_app, Dn. simpl. lia.
  - apply (holds_snoc row' dn (txt, b) (mkCell (take len (drop start mem)) (escaped c) (escape_char c))); [|by rewrite Dn|done|done]. eapply holds_other; [done| |exact Ho]. lia.
Qed.

Lemma answers_ok row ptr cs o : escapes_with ec row -> length (cells row) = n -> (S ptr <= size)%nat -> o = (cs, Some (drop (S ptr) data)) -> (length cs <= n)%nat ->
  count row = length cs -> holds row cs -> answers ec n data o (Some (Ok, row, S ptr)).
Proof. intros Es Ln Lp -> Lc Ct Hh. exists Ok, row, (S ptr). split_and!; [done|done|done|]. by exists (drop (S ptr) data). Qed.
Lemma answers_more row dn o : escapes_with ec row -> length (cells row) = n -> (length dn < n)%nat -> o = (dn, None) -> answers ec n data o (Some (NeedMoreData, row, 0%nat)).
Proof. intros Es Ln Ld ->. exists NeedMoreData, row, 0%nat. done. Qed.

Lemma escape_cell row cell ptr ptr' dn b : at_cell row cell ptr dn -> (ptr <= ptr')%nat -> exists row' c, set_escaped b cell row = Some row' /\ at_cell row' cell ptr' dn /\
  cells row' !! cell = Some c /\ escaped c = b.
Proof.
  intros [Es Ln Ct Dn Ls Hh Pt] Hp. destruct (on_cell_some cell (fun c => mkCell (s c) b (escape_char c)) row n Ln Ls) as (c & row' & Hc & E & Ln' & Ct' & Hi & Ho).
  exists row', (mkCell (s c) b (escape_char c)). split_and!; [done| |done|done]. split; [by eapply on_cell_escapes|done|lia|done|done| |lia].
  eapply holds_other; [done| |exact Ho]. lia.
Qed.

Lemma parse_correct fuel : forall l ptr cell row dn, at_cell row cell ptr dn -> (ptr <= size)%nat ->
  match l with
  | cell_start_ => (2 * (size - ptr) + 2 <= fuel)%nat -> answers ec n data (read_row d q e MStart [] false dn (drop ptr data)) (parse d q e fuel mem size l ptr cell row)
  | quoted_cell a => (2 * (size - ptr) + 1 <= fuel)%nat -> (a <= ptr)%nat -> forall c, cells row !! cell = Some c ->
      answers ec n data (read_row d q e MQuoted (slice a ptr) (escaped c) dn (drop ptr data)) (parse d q e fuel mem size l ptr cell row)
  | unquoted_cell a => (2 * (size - ptr) + 1 <= fuel)%nat -> (a <= ptr)%nat -> forall c, cells row !! cell = Some c ->
      answers ec n data (read_row d q e MUnquoted (slice a ptr) (escaped c) dn (drop ptr data)) (parse d q e fuel mem size l ptr cell row)
  end.
Proof.
  induction fuel as [|fuel IH]; intros l ptr cell row dn A Hp; [destruct l; lia|].
  assert (Next : forall p row' done', (p < size)%nat -> length (cells row') = n -> escapes_with ec row' -> count (count_cell row') = length done' ->
    holds (count_cell row') done' -> length done' = S cell -> (ptr <= p)%nat -> (2 * (size - p) <= fuel)%nat ->
    answers ec n data (read_row d q e MStart [] false done' (drop (S p) data))
      (if Nat.eqb (count (count_cell row')) (length (cells (count_cell row'))) then Some (NeedMoreCells, count_cell row', 0%nat)
       else parse d q e fuel mem size cell_start_ (S p) (S cell) (count_cell row'))).
  { intros p row' done' Lp Ln' Es' Ct' Hh' Ld' Hpp Hf. pose proof (at_ptr _ _ _ _ A) as Pt. pose proof (at_less _ _ _ _ A) as Ls. change (cells (count_cell row')) with (cells row').
    destruct (Nat.eqb_spec (count (count_cell row')) (length (cells row'))) as [Q|Q].
    - exists NeedMoreCells, (count_cell row'), 0%nat. pose proof (read_row_longer d q e (drop (S p) data) MStart [] false done') as Lr. rewrite length_drop in Lr.
      split_and!; [done|done|done|lia|lia].
    - apply (IH cell_start_ (S p) (S cell) (count_cell row') done'); [|lia|lia]. by split; try lia. }
  pose proof A as [Es Ln Ct Dn Ls Hh Pt]. destruct l as [|a|a].
  - intros Hf. cbn [parse]. destruct (escape_cell row cell ptr ptr dn false A ltac:(lia)) as (row1 & c1 & -> & A1 & Hc1 & Hb1). cbn [mbind option_bind].
    pose proof A1 as [Es1 Ln1 Ct1 _ _ _ _].
    destruct (Nat.leb_spec size ptr) as [G|G]; [rewrite drop_ge by done; apply (answers_more _ dn); [done|done|lia|done]|].
    destruct (lookup_lt_is_Some_2 data ptr G) as [c Hc]. rewrite mem_data, Hc by done. cbn [mbind option_bind]. rewrite (drop_cons _ _ Hc).
    destruct (is_new_line c) eqn:En.
    + destruct (finished row1 cell ptr dn ptr 0 c1 [] false A1 Hc1 eq_refl Hb1) as (row2 & -> & Ln2 & Es2 & Ct2 & Hh2). cbn [mbind option_bind].
      apply (answers_ok _ _ (dn ++ [([], false)])); [done|done|lia| |rewrite length_app; simpl; lia|done|done]. cbn [read_row]. by rewrite En.
    + destruct (Z.eqb_spec c q) as [Q|Q].
      * cbn [read_row]. rewrite En, (proj2 (Z.eqb_eq c q)) by done. rewrite <- Hb1.
        replace (@nil Z) with (slice (S ptr) (S ptr)) by (unfold slice; by rewrite Nat.sub_diag).
        apply (IH (quoted_cell (S ptr)) (S ptr) cell row1 dn); [|lia|lia|lia|done]. destruct A1. split; [done..|lia].
      * rewrite read_start by done. rewrite <- (drop_cons _ _ Hc), <- Hb1.
        replace (@nil Z) with (slice ptr ptr) by (unfold slice; by rewrite Nat.sub_diag). apply (IH (unquoted_cell ptr) ptr cell row1 dn); [done|lia|lia|lia|done].
  - intros Hf Ha c0 Hc0. cbn [parse]. destruct special_quoted_ok as [L16 Un].
    destruct (scan_first _ _ data padding L16 Un Hnull Hpad size ptr ltac:(lia)) as (r & -> & M). cbn [mbind option_bind].
    destruct (first_of [q; e] (drop ptr data)) as [i|] eqn:Ei.
    + subst r. destruct (first_of_split _ _ _ Ei) as (pre & x & post & Ed & <- & Hx & Npre). rewrite Ed, read_quoted by done.
      pose proof (slice_app a ptr pre (x :: post) Ha Ed) as Sl. rewrite <- Sl.
      assert (Hx' : data !! (ptr + length pre)%nat = Some x) by (rewrite <- lookup_drop, Ed; by apply list_lookup_middle).
      assert (Ep : drop (S (ptr + length pre)) data = post) by (rewrite <- Nat.add_succ_r, <- drop_drop, Ed; change (x :: post) with ([x] ++ post); rewrite app_assoc; apply drop_app_length'; rewrite length_app; simpl; lia).
      set (p := (ptr + length pre)%nat) in *. pose proof (lookup_lt_Some _ _ _ Hx') as Lp.
      cbn [read_row]. assert ((x =? q) || (x =? e) = true) as -> by (apply orb_true_iff; rewrite !Z.eqb_eq; apply elem_of_cons in Hx as [->|Hx]; [by left|right; by apply list_elem_of_singleton]).
      rewrite <- (slice_snoc a p x) by (done || lia). rewrite <- Ep.
      destruct (Nat.leb_spec size (S p)) as [G|G]; [rewrite (drop_ge data (S p)) by done; apply (answers_more _ dn); [done|done|lia|done]|].
      destruct (lookup_lt_is_Some_2 data (S p) G) as [c Hc]. rewrite mem_data, Hc by done. cbn [mbind option_bind]. rewrite (drop_cons _ _ Hc).
      assert (Tx : take (S p - a - 1) (drop a mem) = removelast (slice a (S p))).
      { rewrite (slice_snoc a p x) by (done || lia). rewrite removelast_last. replace (S p - a - 1)%nat with (p - a)%nat by lia. apply slice_mem. lia. }
      cbn [read_row]. destruct (Z.eqb_spec c d) as [D|D].
      * destruct (finished row cell ptr dn a (S p - a - 1) c0 _ _ A Hc0 Tx eq_refl) as (row2 & -> & Ln2 & Es2 & Ct2 & Hh2). cbn [mbind option_bind].
        apply Next; [done|done|done|done|done|rewrite length_app; simpl; lia|lia|lia].
      * destruct (is_new_line c) eqn:En.
        -- destruct (finished row cell ptr dn a (S p - a - 1) c0 _ _ A Hc0 Tx eq_refl) as (row2 & -> & Ln2 & Es2 & Ct2 & Hh2). cbn [mbind option_bind].
           eapply answers_ok; [done|done|lia|reflexivity|rewrite length_app; simpl; lia|done|done].
        -- destruct (escape_cell row cell ptr (S (S p)) dn true A ltac:(lia)) as (row1 & c1 & -> & A1 & Hc1 & Hb1). cbn [mbind option_bind].
           rewrite <- (slice_snoc a (S p) c) by (done || lia). rewrite <- Hb1. apply (IH (quoted_cell a) (S (S p)) cell row1 dn A1); [lia|lia|lia|done].
    + assert (read_row d q e MQuoted (slice a ptr) (escaped c0) dn (drop ptr data) = (dn, None)) as ->.
      { rewrite <- (app_nil_r (drop ptr data)). rewrite read_quoted by (by apply first_of_none). done. }
      destruct r as [p|]; [|apply (answers_more _ dn); [done|done|lia|done]]. specialize (M p eq_refl). rewrite (proj2 (Nat.leb_le _ _)) by lia. apply (answers_more _ dn); [done|done|lia|done].
  - intros Hf Ha c0 Hc0. cbn [parse]. destruct special_unquoted_ok as [L16 Un].
    destruct (scan_first _ _ data padding L16 Un Hnull Hpad size ptr ltac:(lia)) as (r & -> & M). cbn [mbind option_bind].
    destruct (first_of [d; e; CR; LF] (drop ptr data)) as [i|] eqn:Ei.
    + subst r. destruct (first_of_split _ _ _ Ei) as (pre & c & post & Ed & <- & Hx & Npre). rewrite Ed, read_unquoted by done.
      pose proof (slice_app a ptr pre (c :: post) Ha Ed) as Sl. rewrite <- Sl.
      assert (Hc : data !! (ptr + length pre)%nat = Some c) by (rewrite <- lookup_drop, Ed; by apply list_lookup_middle).
      assert (Ep : drop (S (ptr + length pre)) data = post) by (rewrite <- Nat.add_succ_r, <- drop_drop, Ed; change (c :: post) with ([c] ++ post); rewrite app_assoc; apply drop_app_length'; rewrite length_app; simpl; lia).
      set (p := (ptr + length pre)%nat) in *. pose proof (lookup_lt_Some _ _ _ Hc) as Lp.
      rewrite (proj2 (Nat.leb_gt _ _)), mem_data, Hc by done. cbn [mbind option_bind read_row]. rewrite <- Ep.
      assert (Tx : take (p - a) (drop a mem) = slice a p) by (apply slice_mem; lia).
      destruct (Z.eqb_spec c d) as [D|D].
      * destruct (finished row cell ptr dn a (p - a) c0 _ _ A Hc0 Tx eq_refl) as (row2 & -> & Ln2 & Es2 & Ct2 & Hh2). cbn [mbind option_bind].
        apply Next; [done|done|done|done|done|rewrite length_app; simpl; lia|lia|lia].
      * destruct (is_new_line c) eqn:En.
        -- destruct (finished row cell ptr dn a (p - a) c0 _ _ A Hc0 Tx eq_refl) as (row2 & -> & Ln2 & Es2 & Ct2 & Hh2). cbn [mbind option_bind].
           eapply answers_ok; [done|done|lia|reflexivity|rewrite length_app; simpl; lia|done|done].
        -- destruct (escape_cell row cell ptr (S p) dn true A ltac:(lia)) as (row1 & c1 & -> & A1 & Hc1 & Hb1). cbn [mbind option_bind].
           assert ((c =? e) = true) as ->.
           { unfold is_new_line in En. apply orb_false_iff in En as [E1 E2]. apply Z.eqb_neq in E1, E2. apply Z.eqb_eq.
             repeat (apply elem_of_cons in Hx as [Hx|Hx]; [done|]). by apply elem_of_nil in Hx. }
           rewrite orb_true_r, <- (slice_snoc a p c) by (done || lia). rewrite <- Hb1. apply (IH (unquoted_cell a) (S p) cell row1 dn A1); [lia|lia|lia|done].
    + assert (read_row d q e MUnquoted (slice a ptr) (escaped c0) dn (drop ptr data) = (dn, None)) as ->.
      { rewrite <- (app_nil_r (drop ptr data)). rewrite read_unquoted by (by apply first_of_none). done. }
      destruct r as [p|]; [|apply (answers_more _ dn); [done|done|lia|done]]. specialize (M p eq_refl). rewrite (proj2 (Nat.leb_le _ _)) by lia. apply (answers_more _ dn); [done|done|lia|done].
Qed.

Lemma TryParse_answers row : escapes_with ec row -> length (cells row) = n -> (0 < n)%nat -> count row = 0%nat ->
  answers ec n data (read_row d q e MStart [] false [] data) (TryParse d q e mem size row).
Proof.
  intros Es Ln Hn Ct. unfold TryParse. rewrite <- (drop_0 data) at 2. apply (parse_correct _ cell_start_ 0 0 row []); [|lia|lia].
  split; [done|done|done|done|done| |lia]. intros i x Hx. by rewrite lookup_nil in Hx.
Qed.
End row.

(** * Reading row by row *)

(** What a reader relies on: the buffer begins the unread data and has padding; what is consumed is gone; filling
    leaves the data alone and adds to the buffer, if there is more. *)
Class CSVSourceSpec (S : Type) `{CSVSource S} := {
  source_ok : S -> Prop;
  unread : S -> list Z;
  GetBuffer_spec src : source_ok src -> (GetSize src <= length (unread src))%nat /\
    exists padding, GetBuffer src = take (GetSize src) (unread src) ++ padding /\ (16 <= length padding)%nat;
  Consume_spec n src : source_ok src -> (n <= GetSize src)%nat -> source_ok (Consume n src) /\ unread (Consume n src) = drop n (unread src);
  Fill_spec src : source_ok src -> exists more src', Fill src = Some (more, src') /\ source_ok src' /\ unread src' = unread src /\
    (unread src = [] -> more = false) /\ (more = false -> GetSize src = length (unread src)) /\
    (more = true -> (GetSize src < GetSize src')%nat \/ GetSize src = length (unread src))
}.

(** A row that has ended is the same with more behind it. *)
Lemma read_row_app d q e more : forall data m acc b dn cs rest,
  read_row d q e m acc b dn data = (cs, Some rest) -> read_row d q e m acc b dn (data ++ more) = (cs, Some (rest ++ more)).
Proof.
  induction data as [|c data IH]; intros m acc b dn cs rest E; [done|]. cbn [app read_row] in E |- *.
  destruct m; repeat case_match; first [by apply IH|by injection E as <- <-].
Qed.

Section advance.
Context `{StringCompareSpec} {S : Type} `{CSVSourceSpec S}.

(** The state of a reader between rows. *)
Record reader_ok (d q e : Z) (r : CSVReader S) : Prop := {
  r_format : delimiter_ r = d /\ quote_char_ r = q /\ escape_char_ r = e;
  r_escapes : escapes_with e (row_ r); r_cells : (0 < length (cells (row_ r)))%nat;
  r_source : source_ok (source_ r); r_null : no_null (unread (source_ r))
}.
Definition contents (row : list CSVCell) : list (list Z * bool) := map (fun c => (s c, escaped c)) row.

Lemma holds_contents row cs : holds row cs -> count row = length cs -> contents (take (count row) (cells row)) = cs.
Proof.
  intros Hh Hc. rewrite Hc. apply list_eq. intros i. unfold contents. change (map ?f ?l) with (f <$> l). rewrite list_lookup_fmap.
  destruct (cs !! i) as [[t b]|] eqn:E.
  - destruct (Hh i _ E) as (c & Hi & Hs & He). apply lookup_lt_Some in E. rewrite lookup_take_lt, Hi by done. cbn in *. by rewrite Hs, He.
  - apply lookup_ge_None in E. rewrite lookup_take_ge by done. done.
Qed.

Lemma more_cells_ok e row : escapes_with e (more_cells e row) /\ length (cells (more_cells e row)) = (length (cells row) + length (cells row))%nat.
Proof.
  unfold more_cells, escapes_with. cbn [cells]. split; [|by rewrite length_map, length_app, length_replicate].
  apply Forall_forall. intros c Hc. change (map ?f ?l) with (f <$> l) in Hc. apply list_elem_of_fmap in Hc as (x & -> & _). done.
Qed.

(** What a turn of the loop does, for the row that the unread data begins with. *)
Inductive turn (d q e : Z) (r : CSVReader S) : pass -> Prop :=
| turn_row r' rest cs : read_row d q e MStart [] false [] (unread (source_ r)) = (cs, Some rest) ->
    reader_ok d q e r' -> contents (GetRow r') = cs -> unread (source_ r') = rest -> turn d q e r (Return true r')
| turn_cells r' : reader_ok d q e r' -> source_ r' = source_ r -> (length (cells (row_ r)) < length (cells (row_ r')))%nat ->
    (length (cells (row_ r)) <= length (unread (source_ r)))%nat -> turn d q e r (Again r')
| turn_data more r' : reader_ok d q e r' -> Fill (source_ r) = Some (more, source_ r') -> unread (source_ r') = unread (source_ r) ->
    length (cells (row_ r')) = length (cells (row_ r)) ->
    (GetSize (source_ r) = length (unread (source_ r)) -> (read_row d q e MStart [] false [] (unread (source_ r))).2 = None) ->
    (more = false -> GetSize (source_ r) = length (unread (source_ r))) ->
    (more = true -> (GetSize (source_ r) < GetSize (source_ r'))%nat \/ GetSize (source_ r) = length (unread (source_ r))) ->
    turn d q e r (if more then Again r' else Return false r').

Lemma Advance_turn d q e (Hd : d <> 0) (Hq : q <> 0) (He : e <> 0) r : reader_ok d q e r -> exists p, Advance_pass r = Some p /\ turn d q e r p.
Proof.
  intros [[Fd [Fq Fe]] Es Lc So Nn]. unfold Advance_pass.
  destruct (GetBuffer_spec (source_ r) So) as (Ls & padding & Eb & Lp). set (data := take (GetSize (source_ r)) (unread (source_ r))) in *.
  assert (Ld : length data = GetSize (source_ r)) by (unfold data; rewrite length_take; lia).
  assert (Nd : no_null data) by (by apply Forall_take).
  destruct (TryParse_answers d q e Hd Hq He data padding Nd Lp e (length (cells (row_ r))) (mkRow (cells (row_ r)) 0) Es eq_refl Lc eq_refl)
    as (pr & row & k & Ep & Lr & Er & A).
  rewrite Fd, Fq, Fe, Eb, <- Ld, Ep. cbn [mbind option_bind].
  destruct (read_row d q e MStart [] false [] data) as [cs o] eqn:Eo. cbn [fst snd] in A. destruct pr.
  - destruct A as (rest & -> & _ & Dk & Lk & Ct & Hh). destruct (Consume_spec k (source_ r) So ltac:(lia)) as [So' Un'].
    pose proof (read_row_app d q e (drop (length data) (unread (source_ r))) _ _ _ _ _ _ _ Eo) as Ew. rewrite Ld in Ew at 1. unfold data in Ew at 1. rewrite take_drop in Ew.
    eexists. split; [reflexivity|]. cbn [with_row with_source source_ row_ delimiter_ quote_char_ escape_char_ stats_]. eapply turn_row; [exact Ew| | |].
    + split; cbn [with_row with_source source_ row_ delimiter_ quote_char_ escape_char_ stats_]; [done|done|by rewrite Lr|done|]. rewrite Un'. by apply Forall_drop.
    + unfold GetRow. cbn [with_row with_source row_]. by apply holds_contents.
    + cbn [with_row with_source source_]. rewrite Un', <- Dk. rewrite <- (take_drop (length data) (unread (source_ r))) at 1. rewrite Ld at 1. fold data. by rewrite drop_app_le by done.
  - destruct A as [Eo2 _]. destruct (Fill_spec (source_ r) So) as (more & src' & Ef & So' & Un' & _ & M0 & M1). cbn [with_row source_ stats_]. rewrite Ef. cbn [mbind option_bind].
    eexists. split; [reflexivity|]. apply turn_data; cbn [with_row with_source source_ row_]; [|done|done|done| |done|done].
    + split; cbn [with_row with_source source_ row_ delimiter_ quote_char_ escape_char_ stats_]; [done|done|by rewrite Lr|done|by rewrite Un'].
    + intros Q. unfold data in Eo. rewrite Q, take_ge in Eo by done. by rewrite Eo.
  - destruct (more_cells_ok e row) as [Me Ml]. cbn [with_row escape_char_]. rewrite Fe.
    eexists. split; [reflexivity|]. apply turn_cells; cbn [with_row source_ row_]; [|done|rewrite Ml, Lr; lia|lia].
    split; cbn [with_row source_ row_ delimiter_ quote_char_ escape_char_ stats_]; [done|done|rewrite Ml, Lr; lia|done|done].
Qed.

(** The turns that are left until a source that gives more has given all, and there are cells for all. *)
Definition turns_left (r : CSVReader S) : nat :=
  length (unread (source_ r)) - GetSize (source_ r) + (length (unread (source_ r)) + 1 - length (cells (row_ r))).

(** A turn that goes on leaves the data alone and brings the end nearer, as long as the source has more to give. *)
Lemma turn_again d q e r r' : reader_ok d q e r -> turn d q e r (Again r') ->
  reader_ok d q e r' /\ unread (source_ r') = unread (source_ r) /\
  ((turns_left r' < turns_left r)%nat \/
   Fill (source_ r) = Some (true, source_ r') /\ GetSize (source_ r) = length (unread (source_ r)) /\ (read_row d q e MStart [] false [] (unread (source_ r))).2 = None).
Proof.
  intros Ro T. inversion T as [|r1 Ro' Src Lt Le E|more r1 Ro' Ef Un Ln Nn M0 M1 E]; subst.
  - unfold turns_left. rewrite Src. split_and!; [done|done|left; lia].
  - destruct more; [|done]. injection E as ->. split_and!; [done|done|]. destruct (M1 eq_refl) as [Gr|Q]; [left|right; auto].
    destruct (GetBuffer_spec (source_ r') (r_source _ _ _ _ Ro')) as [Ls _]. unfold turns_left. rewrite Un in Ls |- *. rewrite Ln. lia.
Qed.

Lemma Advance_row d q e (Hd : d <> 0) (Hq : q <> 0) (He : e <> 0) fuel : forall r, reader_ok d q e r -> (turns_left r < fuel)%nat ->
  forall cs rest, read_row d q e MStart [] false [] (unread (source_ r)) = (cs, Some rest) ->
  exists r', Advance fuel r = Some (true, r') /\ reader_ok d q e r' /\ contents (GetRow r') = cs /\ unread (source_ r') = rest.
Proof.
  induction fuel as [|fuel IH]; intros r Ro Hf cs rest E; [lia|]. cbn [Advance]. destruct (Advance_turn d q e Hd Hq He r Ro) as (p & -> & T). cbn [mbind option_bind].
  destruct p as [more r'|r'].
  - inversion T as [r1 rest' cs' E' Ro' Cr Ur|more' r1|more' r1 Ro' Ef Un Ln Nn M0 M1 Em]; subst.
    + rewrite E in E'. injection E' as -> ->. by exists r'.
    + destruct more'; [done|]. injection Em as <- ->. specialize (Nn (M0 eq_refl)). by rewrite E in Nn.
  - destruct (turn_again d q e r r' Ro T) as (Ro' & Un & [Lt|(_ & _ & Nn)]); [|by rewrite E in Nn].
    destruct (IH r' Ro' ltac:(lia) cs rest) as (r2 & Ea & R2); [by rewrite Un|]. by exists r2.
Qed.

(** Data that does not end its row: where the source says that there is no more, [Advance] does, too. *)
Lemma Advance_end d q e (Hd : d <> 0) (Hq : q <> 0) (He : e <> 0) fuel : forall r, reader_ok d q e r ->
  (forall src, source_ok src -> unread src = unread (source_ r) -> GetSize src = length (unread src) -> exists src', Fill src = Some (false, src')) ->
  (turns_left r < fuel)%nat -> (read_row d q e MStart [] false [] (unread (source_ r))).2 = None ->
  exists r', Advance fuel r = Some (false, r') /\ unread (source_ r') = unread (source_ r).
Proof.
  induction fuel as [|fuel IH]; intros r Ro Hend Hf E; [lia|]. cbn [Advance]. destruct (Advance_turn d q e Hd Hq He r Ro) as (p & -> & T). cbn [mbind option_bind].
  destruct p as [more r'|r'].
  - inversion T as [r1 rest' cs' E' Ro' Cr Ur|more' r1|more' r1 Ro' Ef Un Ln Nn M0 M1 Em]; subst; [by rewrite E' in E|].
    destruct more'; [done|]. injection Em as <- ->. by exists r'.
  - destruct (turn_again d q e r r' Ro T) as (Ro' & Un & [Lt|(Ef & Q & _)]).
    + destruct (IH r' Ro') as (r2 & Ea & R2); [by rewrite Un|lia|by rewrite Un|]. exists r2. by rewrite <- Un.
    + destruct (Hend (source_ r) (r_source _ _ _ _ Ro) eq_refl Q) as [src2 Ef2]. by rewrite Ef in Ef2.
Qed.

(** ... and where it says that there is more, there is always another turn. *)
Lemma passes_forever d q e (Hd : d <> 0) (Hq : q <> 0) (He : e <> 0) k : forall r, reader_ok d q e r ->
  (forall src, source_ok src -> unread src = unread (source_ r) -> exists src', Fill src = Some (true, src')) ->
  (read_row d q e MStart [] false [] (unread (source_ r))).2 = None ->
  exists r', passes k r = Some r' /\ reader_ok d q e r' /\ unread (source_ r') = unread (source_ r).
Proof.
  induction k as [|k IH]; intros r Ro More E; [by exists r|]. cbn [passes]. destruct (Advance_turn d q e Hd Hq He r Ro) as (p & -> & T). cbn [mbind option_bind].
  destruct p as [more r'|r'].
  - inversion T as [r1 rest' cs' E' Ro' Cr Ur|more' r1|more' r1 Ro' Ef Un Ln Nn M0 M1 Em]; subst; [by rewrite E' in E|].
    destruct more'; [done|]. destruct (More (source_ r) (r_source _ _ _ _ Ro) eq_refl) as [src' Ef']. by rewrite Ef in Ef'.
  - destruct (turn_again d q e r r' Ro T) as (Ro' & Un & _). rewrite <- Un in More, E |- *. by apply IH.
Qed.

Lemma Advance_nil d q e (Hd : d <> 0) (Hq : q <> 0) (He : e <> 0) fuel r : reader_ok d q e r -> unread (source_ r) = [] -> (1 < fuel)%nat ->
  exists r', Advance fuel r = Some (false, r').
Proof.
  intros Ro U Hf. destruct (Advance_end d q e Hd Hq He fuel r Ro) as (r' & Ea & _); [| |by rewrite U|by exists r'].
  - intros src So Us _. destruct (Fill_spec src So) as (more & src' & Ef & _ & _ & M & _). rewrite Us, U in M. rewrite (M eq_refl) in Ef. by exists src'.
  - unfold turns_left. rewrite U. simpl. pose proof (r_cells _ _ _ _ Ro). lia.
Qed.

(** [while (reader.Advance()) ... reader.GetRow() ...]; each call has [fuel]. *)
Fixpoint read_rows (n fuel : nat) (r : CSVReader S) : option (list (list CSVCell)) :=
  match n with
  | O => None
  | Datatypes.S n' => '(more, r) ← Advance fuel r;
                      if (more : bool) then rest ← read_rows n' fuel r; Some (GetRow r :: rest) else Some []
  end.
(** The first [n] rows, and the reader behind them. *)
Fixpoint read_some (n fuel : nat) (r : CSVReader S) : option (list (list CSVCell) * CSVReader S) :=
  match n with
  | O => Some ([], r)
  | Datatypes.S n' => '(more, r) ← Advance fuel r;
                      if (more : bool) then '(rest, r') ← read_some n' fuel r; Some (GetRow r :: rest, r') else None
  end.
Lemma read_rows_some n fuel r' : forall r out b r2, read_some n fuel r = Some (out, r') -> Advance fuel r' = Some (b, r2) -> b = false -> read_rows (Datatypes.S n) fuel r = Some out.
Proof.
  induction n as [|n IH]; intros r out b r2 E Ea ->.
  - injection E as <- ->. cbn [read_rows]. by rewrite Ea.
  - cbn [read_some] in E. change (read_rows (Datatypes.S (Datatypes.S n)) fuel r) with
      ('(more, r) ← Advance fuel r; if (more : bool) then rest ← read_rows (Datatypes.S n) fuel r; Some (GetRow r :: rest) else Some []).
    destruct (Advance fuel r) as [[[] r1]|]; [|done|done]. cbn [mbind option_bind] in E |- *.
    destruct (read_some n fuel r1) as [[rest r3]|] eqn:Es; [|done]. cbn [mbind option_bind] in E. injection E as <- ->.
    by rewrite (IH r1 rest false r2 Es Ea eq_refl).
Qed.
End advance.

(** ** The sources *)

Lemma CSVString_size data n : (n <= length data)%nat -> GetSize (mkString (data ++ replicate kNumExtraPaddingChars 0) n (length data)) = (length data - n)%nat.
Proof. done. Qed.

#[export] Instance CSVString_spec : CSVSourceSpec CSVString.
Proof.
  refine {| source_ok src := exists data, data_ src = data ++ replicate kNumExtraPaddingChars 0 /\ pend_ src = length data /\ (p_ src <= length data)%nat;
            unread src := drop (p_ src) (take (pend_ src) (data_ src)) |}.
  - intros [m p n] (data & Em & En & Lp). cbn in *. subst m n. rewrite take_app_length, length_drop. split; [lia|].
    exists (replicate kNumExtraPaddingChars 0). rewrite take_ge by (by rewrite length_drop). split; [by apply drop_app_le|done].
  - intros k [m p n] (data & Em & En & Lp) Hk. cbn in *. subst m n. split; [exists data; split_and!; [done|done|lia]|]. by rewrite drop_drop.
  - intros [m p n] (data & Em & En & Lp). cbn in *. subst m n. rewrite take_app_length, length_drop. do 2 eexists. split; [reflexivity|].
    split; [exists data; done|]. cbn. rewrite take_app_length. split_and!; [done| |done|].
    + intros E. apply (f_equal length) in E. rewrite length_drop in E. simpl in E. apply Nat.ltb_ge. lia.
    + intros _. by right.
Defined.

Section file.
Context `{FreshMemory}.

Lemma store_at_length i l mem : (i + length l <= length mem)%nat -> length (store_at i l mem) = length mem.
Proof. intros Hl. unfold store_at. rewrite !length_app, length_take, length_drop. lia. Qed.
Lemma store_at_read i l mem : (i + length l <= length mem)%nat -> take (length l) (drop i (store_at i l mem)) = l.
Proof.
  intros Hl. unfold store_at. rewrite drop_app_length' by (rewrite length_take; lia). by rewrite take_app_length.
Qed.
Lemma store_at_before i l mem j : (j <= i)%nat -> (i <= length mem)%nat -> take j (store_at i l mem) = take j mem.
Proof. intros Hj Hi. unfold store_at. rewrite take_app_le by (rewrite length_take; lia). rewrite take_take. f_equal. lia. Qed.

(** The bytes between the positions are what the buffer holds. *)
Definition window (src : CSVFile) : list Z := take (end_pos_ src - read_pos_ src) (drop (read_pos_ src) (buffer_ src)).
Record file_ok (src : CSVFile) : Prop := {
  f_pos : (read_pos_ src <= end_pos_ src)%nat;
  f_end : (N.of_nat (end_pos_ src) <= buffer_alloc_size_ src)%N;
  f_buffer : length (buffer_ src) = (N.to_nat (buffer_alloc_size_ src) + kNumExtraPaddingChars)%nat;
  f_alloc : (0 < buffer_alloc_size_ src <= kMaxAllocSize)%N;
  f_small : (N.of_nat (end_pos_ src + length (file_ src)) < kMaxAllocSize)%N
}.

Lemma window_length src : file_ok src -> length (window src) = (end_pos_ src - read_pos_ src)%nat.
Proof. intros [Hp He Hb Ha Hs]. unfold window. rewrite length_take, length_drop, Hb. lia. Qed.

(** Moving what is left to the front. *)
Definition moved (src : CSVFile) : CSVFile :=
  if Nat.ltb 0 (end_pos_ src - read_pos_ src) then
    mkFile (file_ src) (store_at 0 (take (end_pos_ src - read_pos_ src) (drop (read_pos_ src) (buffer_ src))) (buffer_ src)) 0 (end_pos_ src - read_pos_ src)
      (buffer_alloc_size_ src) (new_buffers src)
  else src.
Lemma moved_ok src : file_ok src -> file_ok (moved src) /\ window (moved src) = window src /\ file_ (moved src) = file_ src /\
  (read_pos_ (moved src) = 0%nat \/ window src = []) .
Proof.
  intros O. pose proof O as [Hp He Hb Ha Hs]. pose proof (window_length src O) as Lw. unfold moved. destruct (Nat.ltb_spec 0 (end_pos_ src - read_pos_ src)) as [L|L].
  - fold (window src). assert (Fit : (0 + length (window src) <= length (buffer_ src))%nat) by (rewrite Lw, Hb; lia). split_and!; [|  |done|by left].
    + split; cbn [read_pos_ end_pos_ buffer_ buffer_alloc_size_ file_]; [lia|lia|by rewrite store_at_length|done|lia].
    + unfold window at 1. cbn [read_pos_ end_pos_ buffer_]. rewrite Nat.sub_0_r. rewrite <- Lw at 1. by apply store_at_read.
  - split_and!; [done|done|done|right]. apply nil_length_inv. lia.
Qed.

Definition grown (src : CSVFile) : option CSVFile :=
  if (N.of_nat (end_pos_ src) =? buffer_alloc_size_ src)%N then
    if (buffer_alloc_size_ src =? kMaxAllocSize)%N then None
    else let size := N.min (buffer_alloc_size_ src * 2) kMaxAllocSize in
         Some (mkFile (file_ src) (store_at 0 (take (end_pos_ src - read_pos_ src) (buffer_ src)) (new_buffer size (new_buffers src)))
                 (read_pos_ src) (end_pos_ src) size (S (new_buffers src)))
  else Some src.
Lemma grown_ok src : file_ok src -> read_pos_ src = 0%nat \/ window src = [] -> exists src', grown src = Some src' /\ file_ok src' /\ window src' = window src /\
  file_ src' = file_ src /\ (N.of_nat (end_pos_ src') < buffer_alloc_size_ src')%N.
Proof.
  intros O Front. pose proof O as [Hp He Hb Ha Hs]. pose proof (window_length src O) as Lw. unfold grown. destruct (N.eqb_spec (N.of_nat (end_pos_ src)) (buffer_alloc_size_ src)) as [Q|Q].
  - destruct (N.eqb_spec (buffer_alloc_size_ src) kMaxAllocSize) as [M|M]; [lia|]. set (size := N.min (buffer_alloc_size_ src * 2) kMaxAllocSize).
    assert (buffer_alloc_size_ src < size <= kMaxAllocSize)%N as Sz by (unfold size; lia).
    assert (Lb : length (new_buffer size (new_buffers src)) = (N.to_nat size + kNumExtraPaddingChars)%nat) by (unfold new_buffer; by rewrite length_map, length_seq).
    set (kept := take (end_pos_ src - read_pos_ src) (buffer_ src)). assert (Lk : length kept = (end_pos_ src - read_pos_ src)%nat) by (unfold kept; rewrite length_take; lia).
    eexists. split; [reflexivity|]. split_and!; [| |done|cbn; lia].
    + split; cbn [read_pos_ end_pos_ buffer_ buffer_alloc_size_ file_]; [lia|lia|rewrite store_at_length; lia|lia|lia].
    + unfold window at 1. cbn [read_pos_ end_pos_ buffer_]. destruct Front as [F|F].
      * rewrite F in *. rewrite <- Lk at 1. rewrite store_at_read by lia. unfold kept, window. by rewrite F.
      * rewrite F in Lw |- *. simpl in Lw. rewrite <- Lw. apply take_0.
  - exists src. split_and!; [done|done|done|done|lia].
Qed.

Lemma Fill_file_eq src : Fill_file src =
  (src ← grown (moved src);
   let available := (N.to_nat (buffer_alloc_size_ src) - end_pos_ src)%nat in
   match take available (file_ src) with
   | [] => Some (false, src)
   | _ => let src := mkFile (drop available (file_ src)) (store_at (end_pos_ src) (take available (file_ src)) (buffer_ src)) (read_pos_ src)
                      (end_pos_ src + length (take available (file_ src))) (buffer_alloc_size_ src) (new_buffers src) in
          Some (Nat.ltb 0 (end_pos_ src), src)
   end).
Proof. reflexivity. Qed.

#[export] Instance CSVFile_spec : CSVSourceSpec CSVFile.
Proof.
  refine {| source_ok := file_ok; unread src := window src ++ file_ src |}.
  - intros src O. pose proof O as [Hp He Hb Ha Hs]. pose proof (window_length src O) as Lw. cbn [GetSize GetBuffer CSVFile_source]. rewrite length_app, Lw. split; [lia|].
    exists (drop (end_pos_ src) (buffer_ src)). rewrite <- Lw at 1. rewrite take_app_length. split.
    + unfold window. rewrite <- (take_drop (end_pos_ src - read_pos_ src) (drop (read_pos_ src) (buffer_ src))) at 1. f_equal. rewrite drop_drop. f_equal. lia.
    + rewrite length_drop, Hb. unfold kNumExtraPaddingChars. lia.
  - intros n src O Hn. pose proof O as [Hp He Hb Ha Hs]. cbn [GetSize Consume CSVFile_source] in *. split; [split; cbn; lia|].
    pose proof (window_length src O) as Lw. cbn [file_]. rewrite drop_app_le by lia. f_equal. unfold window. cbn [read_pos_ end_pos_ buffer_].
    rewrite skipn_firstn_comm, drop_drop. f_equal. lia.
  - intros src O. destruct (moved_ok src O) as (O1 & W1 & F1 & Fr). rewrite <- W1 in Fr. destruct (grown_ok _ O1 Fr) as (src2 & E2 & O2 & W2 & F2 & Room).
    change (Fill src) with (Fill_file src). rewrite Fill_file_eq, E2. cbn [mbind option_bind]. pose proof O2 as [Hp He Hb Ha Hs].
    pose proof (window_length _ O) as Lw. pose proof (window_length _ O2) as Lw2. rewrite W2, W1, Lw in Lw2.
    set (available := (N.to_nat (buffer_alloc_size_ src2) - end_pos_ src2)%nat). rewrite F2, F1 in Hs |- *. cbn [GetSize CSVFile_source].
    destruct (take available (file_ src)) as [|c read] eqn:Er.
    + assert (Ef : file_ src = []) by (destruct (file_ src); [done|]; destruct available eqn:Ea; [lia|done]).
      do 2 eexists. split; [reflexivity|]. rewrite F2, F1, W2, W1, Ef. rewrite app_nil_r, Lw. split_and!; [done|done|done|done|done].
    + set (read' := c :: read) in *. assert (Lr : (length read' <= available)%nat) by (rewrite <- Er, length_take; lia).
      assert (Lf : (length read' <= length (file_ src))%nat) by (rewrite <- Er, length_take; lia).
      assert (Lc : (0 < length read')%nat) by (simpl; lia). do 2 eexists. split; [reflexivity|].
      rewrite (proj2 (Nat.ltb_lt _ _)) by (cbn [end_pos_]; lia).
      split_and!; [| |intros E; apply app_nil in E as [_ E]; rewrite E in Lf; simpl in Lf; lia|done|intros _; left; cbn [end_pos_ read_pos_]; lia].
      * split; cbn [read_pos_ end_pos_ buffer_ buffer_alloc_size_ file_]; [lia|lia|rewrite store_at_length; [done|]|done|].
        -- lia.
        -- rewrite length_drop. lia.
      * cbn [file_]. rewrite <- W1, <- W2. unfold window. cbn [read_pos_ end_pos_ buffer_].
        rewrite <- (take_drop available (file_ src)) at 2. rewrite Er, app_assoc. f_equal.
        rewrite <- (take_drop (end_pos_ src2) (store_at (end_pos_ src2) read' (buffer_ src2))) at 1. rewrite store_at_before by lia.
        rewrite drop_app_le by (rewrite length_take; lia). rewrite take_app_ge by (rewrite length_drop, length_take; lia). f_equal.
        -- symmetry. rewrite skipn_firstn_comm. done.
        -- rewrite length_drop, length_take. replace (end_pos_ src2 + length read' - read_pos_ src2 - (end_pos_ src2 `min` length (buffer_ src2) - read_pos_ src2))%nat with (length read') by lia.
           apply store_at_read. lia.
Defined.

Lemma new_file_ok data : (N.of_nat (length data) < kMaxAllocSize)%N -> source_ok (new_file data) /\ unread (new_file data) = data.
Proof.
  intros Hs. split; [|done]. split; cbn [read_pos_ end_pos_ buffer_ buffer_alloc_size_ file_ new_file]; [lia| | | |done].
  - unfold kDefaultBufferSize. lia.
  - unfold new_buffer. by rewrite length_map, length_seq.
  - unfold kDefaultBufferSize, kMaxAllocSize. lia.
Qed.

(** A file that has been read says so. *)
Lemma file_end (src : CSVFile) : source_ok src -> GetSize src = length (unread src) -> exists src', Fill src = Some (false, src').
Proof.
  intros O Hl. cbn [GetSize unread CSVFile_source CSVFile_spec] in Hl. change (source_ok src) with (file_ok src) in O.
  rewrite length_app, (window_length src O) in Hl. assert (file_ src = []) as Ef by (apply nil_length_inv; lia).
  destruct (moved_ok src O) as (O1 & W1 & F1 & Fr). rewrite <- W1 in Fr. destruct (grown_ok _ O1 Fr) as (src2 & E2 & _ & _ & F2 & _).
  change (Fill src) with (Fill_file src). rewrite Fill_file_eq, E2. cbn [mbind option_bind]. rewrite F2, F1, Ef, take_nil. by eexists.
Qed.
End file.

(** * Texts of rows *)

Section text.
Context (d q e : Z).

(** Characters that a table can be written with: the delimiter is neither the quote nor the escape character,
    and none of them is a line break or zero. *)
Record good_format : Prop := {
  g_zero : d <> 0 /\ q <> 0 /\ e <> 0; g_delimiter : d <> q /\ d <> e;
  g_lines : is_new_line d = false /\ is_new_line q = false /\ is_new_line e = false
}.

Definition escape (c : Z) : list Z := if (c =? q) || (c =? e) then [e; c] else [c].
Definition quoted_text (t : list Z) : list Z := concat (map escape t).

(** A cell is written in quotes, with the quotes and escape characters in it escaped, or as it is if it begins with no
    quote and has no special character. *)
Inductive cell_text (t : list Z) : list Z -> Prop :=
| text_quoted : cell_text t (q :: quoted_text t ++ [q])
| text_plain : (forall c, c ∈ t -> c ∉ [d; e; CR; LF]) -> head t <> Some q -> cell_text t t.
(** The cells of a row are separated by delimiters; a line break of either kind ends it. *)
Inductive row_text : list (list Z) -> list Z -> Prop :=
| text_last t raw nl : cell_text t raw -> is_new_line nl = true -> row_text [t] (raw ++ [nl])
| text_cell t raw ts rest : cell_text t raw -> row_text ts rest -> row_text (t :: ts) (raw ++ d :: rest).
Inductive rows_text : list (list (list Z)) -> list Z -> Prop :=
| text_none : rows_text [] []
| text_row row raw rows rest : row_text row raw -> rows_text rows rest -> rows_text (row :: rows) (raw ++ rest).

(** Rows of which each is ended by a carriage return and a line feed. *)
Inductive crlf_text : list (list (list Z)) -> list Z -> Prop :=
| crlf_none : crlf_text [] []
| crlf_row row raw rows rest : row_text row (raw ++ [CR]) -> crlf_text rows rest -> crlf_text (row :: rows) (raw ++ [CR; LF] ++ rest).
Lemma crlf_rows_text rows text : crlf_text rows text -> rows_text (flat_map (fun row => [row; [[]]]) rows) text.
Proof.
  induction 1 as [|row raw rows rest T _ IH]; [constructor|]. cbn [flat_map app].
  change (raw ++ CR :: LF :: rest) with (raw ++ [CR] ++ ([] ++ [LF]) ++ rest). rewrite (app_assoc raw [CR]).
  apply text_row; [done|]. apply text_row; [|done]. apply text_last; [|done]. apply text_plain; [|done]. intros c Hc. by apply elem_of_nil in Hc.
Qed.

Context (G : good_format).

Lemma read_escaped t : forall acc b dn rest, exists b',
  read_row d q e MQuoted acc b dn (quoted_text t ++ rest) = read_row d q e MQuoted (acc ++ quoted_text t) b' dn rest /\
  (b' = false -> b = false /\ quoted_text t = t).
Proof.
  destruct G as [_ [Dq De] [Nd [Nq Ne]]]. induction t as [|c t IH]; intros acc b dn rest.
  - exists b. cbn [quoted_text map concat app]. rewrite app_nil_r. done.
  - change (quoted_text (c :: t)) with (escape c ++ quoted_text t). unfold escape. destruct ((c =? q) || (c =? e)) eqn:Sp; cbn [app].
    + assert (Hc : c = q \/ c = e) by (apply orb_true_iff in Sp; by rewrite !Z.eqb_eq in Sp).
      cbn [read_row]. rewrite (Z.eqb_refl e), orb_true_r.
      assert ((c =? d) = false /\ is_new_line c = false) as [-> ->] by (destruct Hc as [-> | ->]; split; try done; apply Z.eqb_neq; congruence).
      destruct (IH ((acc ++ [e]) ++ [c]) true dn rest) as (b' & E & Hb). exists b'. rewrite E. split; [by rewrite <- !app_assoc|].
      intros Q. by destruct (Hb Q).
    + cbn [read_row]. rewrite Sp. destruct (IH (acc ++ [c]) b dn rest) as (b' & E & Hb). exists b'. rewrite E. split; [by rewrite <- !app_assoc|].
      intros Q. destruct (Hb Q) as [-> Ht]. by rewrite Ht.
Qed.

(** What a cell reads as stands for its text. *)
Definition stands_for (t : list Z) (x : list Z * bool) : Prop :=
  AsString (mkCell x.1 x.2 e) = t.

Lemma unescape_quoted t : forall pre fuel out, (length (quoted_text t) <= fuel)%nat ->
  unescape fuel e (pre ++ quoted_text t) (length pre) out = out ++ t.
Proof.
  induction t as [|c t IH]; intros pre fuel out Hf.
  - cbn [quoted_text map concat]. rewrite !app_nil_r. destruct fuel; cbn [unescape]; [done|]. by rewrite (proj2 (Nat.ltb_ge _ _)).
  - change (quoted_text (c :: t)) with (escape c ++ quoted_text t) in *. rewrite length_app in Hf. unfold escape in *.
    assert (Ci : forall x l, default 0 ((pre ++ x :: l) !! length pre) = x) by (intros x l; by rewrite list_lookup_middle).
    destruct ((c =? q) || (c =? e)) eqn:Sp; (destruct fuel as [|fuel]; [simpl in Hf; lia|]); cbn [unescape app].
    + rewrite (proj2 (Nat.ltb_lt _ _)) by (rewrite length_app; simpl; lia). rewrite Ci, Z.eqb_refl.
      assert (default 0 ((pre ++ e :: c :: quoted_text t) !! S (length pre)) = c) as ->.
      { change (e :: c :: quoted_text t) with ([e] ++ c :: quoted_text t). rewrite app_assoc. rewrite list_lookup_middle; [done|]. rewrite length_app. simpl. lia. }
      specialize (IH (pre ++ [e; c]) fuel (out ++ [c])). rewrite length_app in IH. cbn [length] in IH. rewrite <- !app_assoc in IH. cbn [app] in IH.
      replace (S (S (length pre))) with (length pre + 2)%nat by lia. rewrite IH; [done|]. simpl in Hf. lia.
    + apply orb_false_iff in Sp as [_ Se]. rewrite (proj2 (Nat.ltb_lt _ _)) by (rewrite length_app; simpl; lia). rewrite Ci, Se.
      rewrite Ci. specialize (IH (pre ++ [c]) fuel (out ++ [c])). rewrite length_app in IH. cbn [length] in IH. rewrite <- !app_assoc in IH. cbn [app] in IH.
      replace (S (length pre)) with (length pre + 1)%nat by lia. rewrite IH; [done|]. simpl in Hf. lia.
Qed.


Lemma AsString_quoted t b : (b = false -> quoted_text t = t) -> stands_for t (quoted_text t, b).
Proof.
  intros Hb. unfold stands_for, AsString. cbn [escaped s escape_char fst snd]. destruct b; [|by apply Hb].
  by apply (unescape_quoted t [] (length (quoted_text t)) []).
Qed.

(** A cell and what is behind it. *)
Lemma read_cell t raw dn c rest : cell_text t raw -> c = d \/ is_new_line c = true -> exists x, stands_for t x /\
  read_row d q e MStart [] false dn (raw ++ c :: rest) =
  (if c =? d then read_row d q e MStart [] false (dn ++ [x]) rest else (dn ++ [x], Some rest)).
Proof.
  intros T Hc. destruct G as [_ [Dq De] [Nd [Nq Ne]]].
  assert (Sep : c <> q /\ c <> e).
  { destruct Hc as [->|Hc]; [done|]. split; intros ->; congruence. }
  destruct Sep as [Cq Ce]. destruct T as [|Hp Hh].
  - destruct (read_escaped t [] false dn (q :: c :: rest)) as (b & E & Hb). exists (quoted_text t, b). split; [apply AsString_quoted; intros Q; by apply Hb|].
    cbn [app]. rewrite <- app_assoc. cbn [app read_row]. rewrite Nq, Z.eqb_refl, E. cbn [app read_row]. rewrite Z.eqb_refl. cbn [orb].
    rewrite removelast_last. destruct (Z.eqb_spec c d) as [D|D]; [done|]. destruct Hc as [->|Hn]; [done|]. by rewrite Hn.
  - destruct t as [|x t].
    + exists ([], false). split; [done|]. cbn [app read_row]. destruct (Z.eqb_spec c d) as [->|D].
      * rewrite Nd, (proj2 (Z.eqb_neq d q)) by done. done.
      * destruct Hc as [->|Hn]; [done|]. by rewrite Hn.
    + exists (x :: t, false). split; [done|]. assert (x ∉ [d; e; CR; LF]) as Hx by (apply Hp; by left). rewrite !not_elem_of_cons in Hx. destruct Hx as (X1 & X2 & X3 & X4 & _).
      assert (is_new_line x = false) as Nx by (unfold is_new_line; by rewrite !(proj2 (Z.eqb_neq _ _))).
      assert (x <> q) as Xq by (intros ->; by apply Hh).
      change ((x :: t) ++ c :: rest) with (x :: (t ++ c :: rest)). rewrite read_start by done.
      change (x :: (t ++ c :: rest)) with ((x :: t) ++ c :: rest). rewrite read_unquoted by done. cbn [app read_row].
      destruct (Z.eqb_spec c d) as [D|D]; [done|]. destruct Hc as [->|Hn]; [done|]. by rewrite Hn.
Qed.

Lemma read_row_text row raw : row_text row raw -> forall dn rest, exists xs, Forall2 stands_for row xs /\
  read_row d q e MStart [] false dn (raw ++ rest) = (dn ++ xs, Some rest).
Proof.
  destruct G as [_ _ [Nd _]]. induction 1 as [t raw nl T Hn|t raw ts rest' T R IH]; intros dn rest.
  - rewrite <- app_assoc. cbn [app]. destruct (read_cell t raw dn nl rest T (or_intror Hn)) as (x & Sx & E). exists [x]. split; [by repeat constructor|].
    rewrite E. rewrite (proj2 (Z.eqb_neq nl d)); [done|]. intros ->. congruence.
  - rewrite <- app_assoc. cbn [app]. destruct (read_cell t raw dn d (rest' ++ rest) T (or_introl eq_refl)) as (x & Sx & E).
    destruct (IH (dn ++ [x]) rest) as (xs & F & E'). exists (x :: xs). split; [by constructor|]. rewrite E, Z.eqb_refl, E'. by rewrite <- app_assoc.
Qed.
End text.

(** ** The theorems *)

Section theorems.
Context `{StringCompareSpec}.

Definition strings (row : list CSVCell) : list (list Z) := map AsString row.

Lemma strings_contents e row xs ts : Forall (fun c => escape_char c = e) row -> contents row = xs -> Forall2 (stands_for e) ts xs -> strings row = ts.
Proof.
  intros He <-. revert ts. induction He as [|c row Hc _ IH]; intros ts F.
  - by inversion F.
  - apply Forall2_cons_inv_r in F as (t & ts' & Ht & F & ->). cbn [strings map]. f_equal; [|by apply IH]. unfold stands_for in Ht. cbn [fst snd] in Ht.
    destruct c as [txt b ec]. cbn in *. by subst ec.
Qed.

Lemma GetRow_escapes {S} `{CSVSource S} e (r : CSVReader S) : escapes_with e (row_ r) -> Forall (fun c => escape_char c = e) (GetRow r).
Proof. intros He. by apply Forall_take. Qed.

Lemma read_some_text {S} `{CSVSourceSpec S} d q e rows tail : good_format d q e -> forall body (r : CSVReader S), rows_text d q e rows body ->
  reader_ok d q e r -> unread (source_ r) = body ++ tail -> forall fuel, (2 * length (body ++ tail) + 1 < fuel)%nat ->
  exists out r', read_some (length rows) fuel r = Some (out, r') /\ map strings out = rows /\ reader_ok d q e r' /\ unread (source_ r') = tail.
Proof.
  intros G. pose proof G as [[Zd [Zq Ze]] _ _]. induction rows as [|row rows IH]; intros body r T R U fuel Hf.
  - inversion T; subst body. by exists [], r.
  - inversion T as [|? raw ? rest Tr Tn Er Et]; subst row0 rows0 body. rewrite <- app_assoc in U, Hf.
    destruct (read_row_text d q e G row raw Tr [] (rest ++ tail)) as (xs & F & E). cbn [app] in E. rewrite <- U in E.
    destruct (Advance_row d q e Zd Zq Ze fuel r R ltac:(unfold turns_left; rewrite U; lia) _ _ E) as (r' & Ea & R' & Cr & Ur).
    destruct (IH rest r' Tn R' Ur fuel) as (out & r2 & Eo & Mo & R2).
    { rewrite (length_app raw) in Hf. lia. }
    exists (GetRow r' :: out), r2. split; [cbn [read_some length]; rewrite Ea; cbn [mbind option_bind]; by rewrite Eo|]. split; [|done].
    cbn [map]. f_equal; [|done]. eapply (strings_contents e); [apply GetRow_escapes, (r_escapes _ _ _ _ R')|exact Cr|exact F].
Qed.
Lemma read_rows_text {S} `{CSVSourceSpec S} d q e rows : good_format d q e -> forall text (r : CSVReader S), rows_text d q e rows text ->
  reader_ok d q e r -> unread (source_ r) = text -> forall fuel, (2 * length text + 1 < fuel)%nat ->
  exists out, read_rows (Datatypes.S (length rows)) fuel r = Some out /\ map strings out = rows.
Proof.
  intros G text r T R U fuel Hf. rewrite <- (app_nil_r text) in U, Hf. pose proof G as [[Zd [Zq Ze]] _ _].
  destruct (read_some_text d q e rows [] G text r T R U fuel Hf) as (out & r' & Eo & Mo & R' & U').
  destruct (Advance_nil d q e Zd Zq Ze fuel r' R' U' ltac:(lia)) as (r2 & Ea). exists out. split; [by eapply read_rows_some|done].
Qed.

Lemma new_reader_ok {S} `{CSVSourceSpec S} d q e (src : S) : source_ok src -> no_null (unread src) -> reader_ok d q e (new_reader src d q e).
Proof. intros So Nn. split; cbn; [done|by repeat constructor|lia|done|done]. Qed.
Lemma new_string_ok data : source_ok (new_string data) /\ unread (new_string data) = data.
Proof. split; [exists data; split_and!; [done|done|cbn; lia]|]. cbn. rewrite drop_0. by rewrite take_app_length. Qed.
(** A string with something unread says that there is more. *)
Lemma string_more (src : CSVString) : unread src <> [] -> Fill src = Some (true, src).
Proof.
  intros Ne. cbn [Fill CSVString_source]. rewrite (proj2 (Nat.ltb_lt _ _)); [done|]. destruct (decide (p_ src < pend_ src)%nat) as [L|L]; [done|]. exfalso. apply Ne.
  cbn [unread CSVString_spec]. apply drop_ge. rewrite length_take. lia.
Qed.

(** C16: What is written as a table is read back: for any rows of strings without zeros, written cell by cell in quotes or, where that is possible, without, any source that gives the
    text, piece by piece, lets the reader return the rows with the strings, and then end.  In
    particular it does not matter where the buffers of a file end, how many cells the rows have, or what the memory behind the data holds. *)
Theorem csv_roundtrip {S} `{CSVSourceSpec S} d q e rows text (src : S) fuel :
  good_format d q e -> rows_text d q e rows text -> source_ok src -> unread src = text -> no_null text -> (2 * length text + 1 < fuel)%nat ->
  exists out, read_rows (Datatypes.S (length rows)) fuel (new_reader src d q e) = Some out /\ map strings out = rows.
Proof.
  intros G T So U Nn Hf. eapply read_rows_text; [done|done|apply new_reader_ok; [done|by rewrite U]|done|done].
Qed.

(** C22: A row is what its characters say, one by one: [TryParse], which looks at sixteen of them at a time, reads the row that [read_row] does,
    provided that the data has no zeros; it asks for more cells exactly when as many cells have been ended by delimiters as there is room for, in a row that ends or in one that
    does not, and for more data exactly when the data ends before that and before the row; what lies behind the data does not matter. *)
Theorem TryParse_reads_rows d q e data padding row :
  escapes_with e row -> d <> 0 -> q <> 0 -> e <> 0 -> no_null data -> (16 <= length padding)%nat -> (0 < length (cells row))%nat -> count row = 0%nat ->
  exists result row' n, TryParse d q e (data ++ padding) (length data) row = Some (result, row', n) /\
  match read_row d q e MStart [] false [] data with
  | (cs, Some rest) =>
      if Nat.leb (length cs) (length (cells row)) then result = Ok /\ contents (take (count row') (cells row')) = cs /\ drop n data = rest
      else result = NeedMoreCells
  | (cs, None) => result = if Nat.ltb (length cs) (length (cells row)) then NeedMoreData else NeedMoreCells
  end.
Proof.
  intros Es Hd Hq He Nd Lp Lc Ct.
  destruct (TryParse_answers d q e Hd Hq He data padding Nd Lp e (length (cells row)) row Es eq_refl Lc Ct) as (pr & row' & k & E & Lr & _ & A).
  exists pr, row', k. split; [done|]. destruct (read_row _ _ _ _ _ _ _ _) as [cs o]. cbn [fst snd] in A. destruct pr.
  - destruct A as (rest & -> & L & Dk & _ & Cs & Hh). rewrite (proj2 (Nat.leb_le _ _)) by done. split_and!; [done|by apply holds_contents|done].
  - destruct A as [-> L]. by rewrite (proj2 (Nat.ltb_lt _ _)).
  - destruct A as [L _]. destruct o; [rewrite (proj2 (Nat.leb_gt _ _)) by lia|rewrite (proj2 (Nat.ltb_ge _ _)) by lia]; done.
Qed.

(** C23: A last row that no line break ends, in a text without zeros and behind any number of rows that are written as a table: reading from a file, the rows are read and [Advance] then returns false, so that what is behind
    them is lost; reading from a string, the rows are read, too, but the next [Advance] never returns: each turn of its loop, of which none goes wrong, is followed by another. *)
Theorem csv_unterminated `{FreshMemory} d q e rows body tail fuel :
  good_format d q e -> rows_text d q e rows body -> no_null (body ++ tail) -> tail <> [] -> (read_row d q e MStart [] false [] tail).2 = None ->
  (2 * length (body ++ tail) + 1 < fuel)%nat ->
  ((N.of_nat (length (body ++ tail)) < kMaxAllocSize)%N ->
    exists out, read_rows (Datatypes.S (length rows)) fuel (new_reader (new_file (body ++ tail)) d q e) = Some out /\ map strings out = rows) /\
  (exists out r, read_some (length rows) fuel (new_reader (new_string (body ++ tail)) d q e) = Some (out, r) /\ map strings out = rows /\ unread (source_ r) = tail /\
    forall k, exists r', passes k r = Some r').
Proof.
  intros G T Nn Ne E Hf. pose proof G as [[Zd [Zq Ze]] _ _]. split.
  - intros Small. destruct (new_file_ok (body ++ tail) Small) as [So U].
    destruct (read_some_text d q e rows tail G body (new_reader (new_file (body ++ tail)) d q e) T (new_reader_ok d q e _ So ltac:(by rewrite U)) U fuel Hf) as (out & r & Eo & Mo & R & Ur).
    destruct (Advance_end d q e Zd Zq Ze fuel r R) as (r2 & Ea & _); [intros src Ho _; by apply file_end| |by rewrite Ur|exists out; split; [by eapply read_rows_some|done]].
    unfold turns_left. rewrite Ur. rewrite length_app in Hf. lia.
  - destruct (new_string_ok (body ++ tail)) as [So U].
    destruct (read_some_text d q e rows tail G body (new_reader (new_string (body ++ tail)) d q e) T (new_reader_ok d q e _ So ltac:(by rewrite U)) U fuel Hf) as (out & r & Eo & Mo & R & Ur).
    exists out, r. split_and!; [done|done|done|]. intros k. destruct (passes_forever d q e Zd Zq Ze k r R) as (r' & Ek & _); [|by rewrite Ur|by exists r'].
    intros src _ Us. exists src. apply string_more. by rewrite Us, Ur.
Qed.

(** C38: A carriage return with a line feed behind it is two line breaks: rows of strings without zeros that are all ended so are read with a row behind each of them that has a single, empty cell. *)
Theorem csv_crlf {S} `{CSVSourceSpec S} d q e rows text (src : S) fuel :
  good_format d q e -> crlf_text d q e rows text -> source_ok src -> unread src = text -> no_null text -> (2 * length text + 1 < fuel)%nat ->
  exists out, read_rows (Datatypes.S (2 * length rows)) fuel (new_reader src d q e) = Some out /\ map strings out = flat_map (fun row => [row; [[]]]) rows.
Proof.
  intros G T So U Nn Hf. replace (2 * length rows)%nat with (length (flat_map (fun row : list (list Z) => [row; [[]]]) rows)).
  - eapply read_rows_text; [done|by apply crlf_rows_text|apply new_reader_ok; [done|by rewrite U]|done|done].
  - clear. induction rows as [|row rows IH]; [done|]. simpl in *. lia.
Qed.

End theorems.

(** ** Applied *)

#[local] Instance compare_bytes : StringCompare := fun special data => default 16%nat (first_of (until_null special) (until_null data)).
#[local] Instance compare_bytes_spec : StringCompareSpec.
Proof. by split. Qed.
#[local] Instance zero_memory : FreshMemory := fun _ _ => 0.

(** A row with a plain cell and one with a comma and a quote, between quotes; a row with an empty cell. *)
Definition some_rows : list (list (list Z)) := [[[97]; [98; 44; 34]]; [[]]].
Definition some_text : list Z := [97; 44; 34; 98; 44; 34; 34; 34; 10; 13].

Lemma csv_roundtrip_witness : exists out, read_rows 3 100 (new_reader (new_file some_text) 44 34 34) = Some out /\ map strings out = some_rows.
Proof.
  destruct (new_file_ok some_text) as [So U]; [done|].
  apply (csv_roundtrip 44 34 34 some_rows some_text (new_file some_text) 100).
  - split; done.
  - apply (text_row _ _ _ _ ([97] ++ 44 :: ((34 :: quoted_text 34 34 [98; 44; 34] ++ [34]) ++ [10])) _ [13]).
    + apply text_cell; [apply text_plain; [intros c Hc; apply list_elem_of_singleton in Hc as ->; by apply (bool_decide_unpack (_ ∉ _))|done]|].
      apply text_last; [apply text_quoted|done].
    + apply (text_row _ _ _ _ ([] ++ [13]) _ []); [|apply text_none]. apply text_last; [apply text_plain; [intros c Hc; by apply elem_of_nil in Hc|done]|done].
  - done.
  - done.
  - by repeat constructor.
  - simpl. lia.
Defined.

Lemma TryParse_reads_rows_witness : exists result row' n,
  TryParse 44 34 34 (some_text ++ replicate 16 44) (length some_text) (mkRow (replicate 8 (empty_cell 34)) 0) = Some (result, row', n) /\
  result = Ok /\ contents (take (count row') (cells row')) = [([97], false); ([98; 44; 34; 34], true)] /\ drop n some_text = [13].
Proof.
  apply (TryParse_reads_rows 44 34 34 some_text (replicate 16 44) (mkRow (replicate 8 (empty_cell 34)) 0)); [|done|done|done| |simpl; lia|simpl; lia|done].
  - by repeat constructor.
  - by repeat constructor.
Defined.

(** Rows of one plain cell each, of one character. *)
Lemma one_cell (c nl : Z) : c <> 44 -> c <> 34 -> c <> 92 -> is_new_line c = false -> is_new_line nl = true ->
  forall e, e = 34 \/ e = 92 -> row_text 44 34 e [[c]] ([c] ++ [nl]).
Proof.
  intros H1 H2 H3 Hc Hn e He. apply text_last; [|done]. apply text_plain; [|by intros [= ->]].
  intros x Hx. apply list_elem_of_singleton in Hx as ->. unfold is_new_line in Hc. apply orb_false_iff in Hc as [Z1 Z2]. apply Z.eqb_neq in Z1, Z2.
  rewrite !not_elem_of_cons. split_and!; [done|by destruct He as [-> | ->]|done|done|apply not_elem_of_nil].
Qed.

Lemma csv_unterminated_witness :
  (exists out, read_rows 2 100 (new_reader (new_file [97; 10; 98]) 44 34 34) = Some out /\ map strings out = [[[97]]]) /\
  (exists out r, read_some 1 100 (new_reader (new_string [97; 10; 98]) 44 34 34) = Some (out, r) /\ map strings out = [[[97]]] /\ unread (source_ r) = [98] /\
    forall k, exists r', passes k r = Some r').
Proof.
  destruct (csv_unterminated 44 34 34 [[[97]]] [97; 10] [98] 100) as [A B]; [by split| |by repeat constructor|done|done|simpl; lia|].
  - apply (text_row _ _ _ _ ([97] ++ [10]) _ []); [|constructor]. apply one_cell; [done..|by left].
  - split; [by apply A|exact B].
Defined.

Lemma csv_crlf_witness : exists out, read_rows 5 100 (new_reader (new_string [97; 13; 10; 98; 13; 10]) 44 34 34) = Some out /\
  map strings out = [[[97]]; [[]]; [[98]]; [[]]].
Proof.
  destruct (new_string_ok [97; 13; 10; 98; 13; 10]) as [So U].
  apply (csv_crlf 44 34 34 [[[97]]; [[98]]] [97; 13; 10; 98; 13; 10] (new_string _) 100); [by split| |done|done|by repeat constructor|simpl; lia].
  apply (crlf_row _ _ _ _ [97] _ [98; 13; 10]); [apply one_cell; [done..|by left]|].
  apply (crlf_row _ _ _ _ [98] _ []); [apply one_cell; [done..|by left]|constructor].
Defined.

