(* ===== verification/Memory.v ===== *)
(** The memory of the process, as the virtual machine sees it: the allocated bytes by address.  An
    access to a byte that is not allocated is [None]. *)
From S2P Require Import Prelude Buffer.

Abbreviation memory := (gmap Z Z).

Definition load_bytes (n : nat) (a : Z) (m : memory) : option (list Z) :=
  mapM (fun i => m !! (a + i)) (seqZ 0 (Z.of_nat n)).
Definition load (n : nat) (a : Z) (m : memory) : option Z := le_bytes <$> load_bytes n a m.

Fixpoint write_bytes (bs : list Z) (a : Z) (m : memory) : option memory :=
  match bs with
  | [] => Some m
  | b :: bs' => _ ← m !! a; write_bytes bs' (a + 1) (<[a := b]> m)
  end.
Definition write (n : nat) (a v : Z) (m : memory) : option memory := write_bytes (le_encode n v) a m.

(** [std::memmove], and [std::memcpy] of areas that do not overlap. *)
Definition copy_bytes (n : nat) (dest src : Z) (m : memory) : option memory :=
  bs ← load_bytes n src m; write_bytes bs dest m.

(** New bytes hold what the memory held before. *)
Definition allocate (garbage : Z -> Z) (base size : Z) (m : memory) : memory :=
  foldr (fun i m => <[base + i := wrapu 8 (garbage (base + i))]> m) m (seqZ 0 size).
Definition deallocate (base size : Z) (m : memory) : memory :=
  foldr (fun i m => delete (base + i) m) m (seqZ 0 size).

(** * Facts *)

Lemma load_bytes_S n a m : load_bytes (S n) a m = b ← m !! a; bs ← load_bytes n (a + 1) m; Some (b :: bs).
Proof.
  unfold load_bytes. rewrite Nat2Z.inj_succ, <- Z.add_1_r. rewrite seqZ_cons by lia. cbn [mapM].
  rewrite Z.add_0_r. destruct (m !! a); [|done]. cbn [mbind option_bind].
  replace (Z.pred (Z.of_nat n + 1)) with (Z.of_nat n) by lia.
  assert (mapM (fun i => m !! (a + i)) (seqZ (Z.succ 0) (Z.of_nat n)) = mapM (fun i => m !! (a + 1 + i)) (seqZ 0 (Z.of_nat n))) as ->; [|done].
  change (Z.succ 0) with (1 + 0). rewrite <- (fmap_add_seqZ 1 0 (Z.of_nat n)). generalize (seqZ 0 (Z.of_nat n)). intros l.
  induction l as [|x l IH]; [done|]. cbn [fmap list_fmap mapM]. rewrite IH. by rewrite Z.add_assoc.
Qed.

Lemma load_bytes_length n a m bs : load_bytes n a m = Some bs -> length bs = n.
Proof.
  unfold load_bytes. intros H. apply mapM_Some_1, Forall2_length in H. rewrite length_seqZ in H. lia.
Qed.

Lemma write_bytes_allocated bs a m m' : write_bytes bs a m = Some m' ->
  forall x, is_Some (m' !! x) <-> is_Some (m !! x).
Proof.
  revert a m. induction bs as [|b bs IH]; intros a m; cbn [write_bytes]; [by intros [= ->]|].
  destruct (m !! a) eqn:E; [|done]. cbn [mbind option_bind]. intros H x. rewrite (IH _ _ H x).
  destruct (Z.eq_dec a x) as [->|]; [rewrite lookup_insert_eq, E|by rewrite lookup_insert_ne by done].
  split; intros _; by eexists.
Qed.

Lemma write_bytes_other bs a m m' x : write_bytes bs a m = Some m' ->
  x < a \/ a + Z.of_nat (length bs) <= x -> m' !! x = m !! x.
Proof.
  revert a m. induction bs as [|b bs IH]; intros a m; cbn [write_bytes]; [by intros [= ->]|].
  destruct (m !! a) eqn:E; [|done]. cbn [mbind option_bind length]. intros H Hx.
  rewrite (IH _ _ H) by lia. apply lookup_insert_ne. lia.
Qed.

(** Reading what was written, and reading elsewhere. *)
Lemma load_write_bytes bs a m m' : write_bytes bs a m = Some m' -> load_bytes (length bs) a m' = Some bs.
Proof.
  revert a m. induction bs as [|b bs IH]; intros a m; cbn [write_bytes]; [done|].
  destruct (m !! a) eqn:E; [|done]. cbn [mbind option_bind length]. intros H. rewrite load_bytes_S.
  rewrite (write_bytes_other _ _ _ _ a H) by lia. rewrite lookup_insert_eq. cbn [mbind option_bind].
  by rewrite (IH _ _ H).
Qed.

Lemma load_bytes_ext n a m m' : (forall x, a <= x < a + Z.of_nat n -> m' !! x = m !! x) ->
  load_bytes n a m' = load_bytes n a m.
Proof.
  revert a. induction n as [|n IH]; intros a H; [done|]. rewrite !load_bytes_S, H by lia.
  destruct (m !! a); [|done]. cbn [mbind option_bind]. rewrite IH; [done|]. intros x Hx. apply H. lia.
Qed.

Lemma load_write n a v m m' : write n a v m = Some m' -> load n a m' = Some (wrapu (8 * Z.of_nat n) v).
Proof.
  unfold write, load. intros H. apply load_write_bytes in H. rewrite length_le_encode in H. rewrite H. simpl.
  by rewrite le_bytes_encode.
Qed.

Lemma load_write_other n a v n' a' m m' : write n a v m = Some m' ->
  a' + Z.of_nat n' <= a \/ a + Z.of_nat n <= a' -> load n' a' m' = load n' a' m.
Proof.
  unfold write, load. intros H Hd. f_equal. apply load_bytes_ext. intros x Hx. eapply write_bytes_other; [done|].
  rewrite length_le_encode. lia.
Qed.

(** Writing succeeds on allocated bytes. *)
Lemma write_bytes_Some bs a m : (forall x, a <= x < a + Z.of_nat (length bs) -> is_Some (m !! x)) ->
  is_Some (write_bytes bs a m).
Proof.
  revert a m. induction bs as [|b bs IH]; intros a m H; cbn [write_bytes]; [by eexists|]. cbn [length] in H.
  destruct (H a) as [v Hv]; [lia|]. rewrite Hv. cbn [mbind option_bind]. apply IH. intros x Hx.
  rewrite lookup_insert_ne by lia. apply H. lia.
Qed.

Lemma load_bytes_Some n a m : (forall x, a <= x < a + Z.of_nat n -> is_Some (m !! x)) -> is_Some (load_bytes n a m).
Proof.
  revert a. induction n as [|n IH]; intros a H; [by eexists|]. rewrite load_bytes_S.
  destruct (H a) as [v Hv]; [lia|]. rewrite Hv. cbn [mbind option_bind].
  destruct (IH (a + 1)) as [bs Hbs]; [intros x Hx; apply H; lia|]. rewrite Hbs. by eexists.
Qed.

(** * Areas of memory: what writing, copying, allocating and deallocating leave alone *)

Definition allocated (a n : Z) (m : memory) : Prop := forall x, a <= x < a + n -> is_Some (m !! x).
Definition unallocated (a n : Z) (m : memory) : Prop := forall x, a <= x < a + n -> m !! x = None.
(** The bytes of an area are the same. *)
Definition same_on (a n : Z) (m m' : memory) : Prop := forall x, a <= x < a + n -> m' !! x = m !! x.
(** So are all but those of the areas that [P] describes, and the same bytes are allocated. *)
Record same_but (P : Z -> Prop) (m m' : memory) : Prop := {
  same_outside x : ~ P x -> m' !! x = m !! x;
  same_allocated x : is_Some (m' !! x) <-> is_Some (m !! x)
}.
Definition within (a n : Z) (x : Z) : Prop := a <= x < a + n.

Lemma same_but_refl P m : same_but P m m.
Proof. by split. Qed.
Lemma same_but_trans P m1 m2 m3 : same_but P m1 m2 -> same_but P m2 m3 -> same_but P m1 m3.
Proof. intros [H1 D1] [H2 D2]. split; [intros x Hx; by rewrite H2, H1|intros x; by rewrite D2, D1]. Qed.
Lemma same_but_weaken (P Q : Z -> Prop) m m' : same_but P m m' -> (forall x, P x -> Q x) -> same_but Q m m'.
Proof. intros [H D] HPQ. split; [|done]. intros x Hx. apply H. auto. Qed.
Lemma same_but_on P a n m m' : same_but P m m' -> (forall x, within a n x -> ~ P x) -> same_on a n m m'.
Proof. intros [H _] HP x Hx. apply H. by apply HP. Qed.
Lemma same_but_allocated P a n m m' : same_but P m m' -> allocated a n m -> allocated a n m'.
Proof. intros [_ D] Ha x Hx. apply D. auto. Qed.

Lemma same_on_load n a m m' : same_on a (Z.of_nat n) m m' -> load n a m' = load n a m.
Proof. intros H. unfold load. f_equal. by apply load_bytes_ext. Qed.

Lemma load_Some n a m : allocated a (Z.of_nat n) m -> is_Some (load n a m).
Proof. intros H. unfold load. destruct (load_bytes_Some n a m H) as [bs ->]. by eexists. Qed.
Lemma load_allocated n a m v : load n a m = Some v -> allocated a (Z.of_nat n) m.
Proof.
  unfold load. destruct (load_bytes n a m) as [bs|] eqn:E; [|done]. intros _. revert a bs E. induction n as [|n IH]; intros a bs E x Hx; [lia|].
  rewrite load_bytes_S in E. destruct (m !! a) as [b|] eqn:Ea; [|done]. cbn [mbind option_bind] in E.
  destruct (load_bytes n (a + 1) m) as [bs'|] eqn:Eb; [|done]. destruct (Z.eq_dec x a) as [->|]; [by eexists|]. eapply (IH (a + 1)); [done|lia].
Qed.

(** ** Writing *)

Lemma write_bytes_run bs a m : allocated a (Z.of_nat (length bs)) m ->
  exists m', write_bytes bs a m = Some m' /\ same_but (within a (Z.of_nat (length bs))) m m' /\ load_bytes (length bs) a m' = Some bs.
Proof.
  intros H. destruct (write_bytes_Some bs a m H) as [m' E]. exists m'. split; [done|]. split; [|by eapply load_write_bytes].
  split; [|by eapply write_bytes_allocated]. intros x Hx. eapply write_bytes_other; [done|]. unfold within in Hx. lia.
Qed.
Lemma write_run n a v m : allocated a (Z.of_nat n) m ->
  exists m', write n a v m = Some m' /\ same_but (within a (Z.of_nat n)) m m' /\ load n a m' = Some (wrapu (8 * Z.of_nat n) v).
Proof.
  intros H. unfold write. destruct (write_bytes_run (le_encode n v) a m) as (m' & E & Hs & _); [by rewrite length_le_encode|].
  exists m'. rewrite length_le_encode in Hs. split; [done|]. split; [done|]. by eapply load_write.
Qed.

Lemma copy_run n dest src m v : allocated dest (Z.of_nat n) m -> load n src m = Some v ->
  exists m', copy_bytes n dest src m = Some m' /\ same_but (within dest (Z.of_nat n)) m m' /\ load n dest m' = Some v.
Proof.
  intros H Hl. unfold copy_bytes, load in *. destruct (load_bytes n src m) as [bs|] eqn:E; [|done]. cbn [mbind option_bind].
  pose proof (load_bytes_length _ _ _ _ E) as El. destruct (write_bytes_run bs dest m) as (m' & Ew & Hs & Hl'); [by rewrite El|].
  exists m'. rewrite El in Hs, Hl'. by rewrite Hl'.
Qed.
(** A copy of many bytes copies each part. *)
Lemma copy_parts n dest src m m' k off : copy_bytes n dest src m = Some m' -> 0 <= off -> off + Z.of_nat k <= Z.of_nat n ->
  load k (dest + off) m' = load k (src + off) m.
Proof.
  unfold copy_bytes. destruct (load_bytes n src m) as [bs|] eqn:E; [|done]. cbn [mbind option_bind]. intros Hw Ho Hk.
  pose proof (load_bytes_length _ _ _ _ E) as El. apply load_write_bytes in Hw. rewrite El in Hw. unfold load. f_equal.
  assert (forall i, 0 <= i < Z.of_nat n -> m' !! (dest + i) = m !! (src + i)) as Hb.
  { intros i Hi. revert Hw E. clear -Hi. revert dest src i bs Hi.
    induction n as [|n IH]; intros dest src i bs Hi; [lia|].
    rewrite !load_bytes_S. destruct (m' !! dest) as [b|] eqn:E1; [|done]. destruct (m !! src) as [b'|] eqn:E2; [|done]. cbn [mbind option_bind].
    destruct (load_bytes n (dest + 1) m') as [l1|] eqn:E3; [|done]. destruct (load_bytes n (src + 1) m) as [l2|] eqn:E4; [|done]. cbn [mbind option_bind].
    intros [= <-] [= <- ->]. destruct (Z.eq_dec i 0) as [->|]; [by rewrite !Z.add_0_r, E1, E2|].
    specialize (IH (dest + 1) (src + 1) (i - 1) l1 ltac:(lia) E3 E4). by replace (dest + i) with (dest + 1 + (i - 1)) by lia; replace (src + i) with (src + 1 + (i - 1)) by lia. }
  clear Hw E. revert off Ho Hk. induction k as [|k IH]; intros off Ho Hk; [done|]. rewrite !load_bytes_S.
  rewrite Hb by lia. destruct (m !! (src + off)); [|done]. cbn [mbind option_bind].
  specialize (IH (off + 1) ltac:(lia) ltac:(lia)). rewrite !Z.add_assoc in IH. by rewrite IH.
Qed.

(** ** Allocation *)

Lemma foldr_insert_lookup (g : Z -> Z) base m l x :
  (foldr (fun i m => <[base + i := g i]> m) m l : memory) !! x = if bool_decide (x - base ∈ l) then Some (g (x - base)) else m !! x.
Proof.
  induction l as [|i l IH]; cbn [foldr]; [by rewrite bool_decide_false by (by intros ?%not_elem_of_nil)|].
  destruct (Z.eq_dec x (base + i)) as [->|Hne].
  - rewrite lookup_insert_eq. rewrite bool_decide_true by (replace (base + i - base) with i by lia; by left). do 2 f_equal. lia.
  - rewrite lookup_insert_ne by done. rewrite IH. destruct (decide (x - base ∈ l)) as [Hin|Hin].
    + rewrite !bool_decide_true; [done|by right|done].
    + rewrite !bool_decide_false; [done| |done]. intros [?|?]%elem_of_cons; [lia|done].
Qed.
Lemma foldr_delete_lookup base (m : memory) l x :
  (foldr (fun i m => delete (base + i) m) m l : memory) !! x = if bool_decide (x - base ∈ l) then None else m !! x.
Proof.
  induction l as [|i l IH]; cbn [foldr]; [by rewrite bool_decide_false by (by intros ?%not_elem_of_nil)|].
  destruct (Z.eq_dec x (base + i)) as [->|Hne].
  - rewrite lookup_delete_eq. by rewrite bool_decide_true by (replace (base + i - base) with i by lia; by left).
  - rewrite lookup_delete_ne by done. rewrite IH. destruct (decide (x - base ∈ l)) as [Hin|Hin].
    + rewrite !bool_decide_true; [done|by right|done].
    + rewrite !bool_decide_false; [done| |done]. intros [?|?]%elem_of_cons; [lia|done].
Qed.
Lemma allocate_lookup g base n m x : allocate g base n m !! x = if bool_decide (within base n x) then Some (wrapu 8 (g x)) else m !! x.
Proof.
  unfold allocate. rewrite (foldr_insert_lookup (fun i => wrapu 8 (g (base + i)))).
  replace (base + (x - base)) with x by lia. unfold within. destruct (decide (base <= x < base + n)).
  - rewrite !bool_decide_true; [done|done|apply elem_of_seqZ; lia].
  - rewrite !bool_decide_false; [done|done|rewrite elem_of_seqZ; lia].
Qed.
Lemma deallocate_lookup base n m x : deallocate base n m !! x = if bool_decide (within base n x) then None else m !! x.
Proof.
  unfold deallocate. rewrite foldr_delete_lookup. unfold within. destruct (decide (base <= x < base + n)).
  - rewrite !bool_decide_true; [done|done|apply elem_of_seqZ; lia].
  - rewrite !bool_decide_false; [done|done|rewrite elem_of_seqZ; lia].
Qed.
Lemma allocate_allocated g base n m : allocated base n (allocate g base n m).
Proof. intros x Hx. rewrite allocate_lookup, bool_decide_true by done. by eexists. Qed.
Lemma allocate_other g base n m x : ~ within base n x -> allocate g base n m !! x = m !! x.
Proof. intros Hx. by rewrite allocate_lookup, bool_decide_false. Qed.

Lemma allocate_size g base n m : 0 <= n -> Z.of_nat (size (allocate g base n m)) <= Z.of_nat (size m) + n.
Proof.
  intros Hn. unfold allocate. assert (forall l : list Z, (size (foldr (fun (i : Z) (m : memory) => <[(base + i)%Z := wrapu 8 (g (base + i)%Z)]> m) m l) <= size m + length l)%nat) as Hl.
  { induction l as [|i l IH]; cbn [foldr length]; [lia|]. match goal with |- (size (<[?k := _]> ?m') <= _)%nat => destruct (decide (is_Some (m' !! k))) as [Hs|Hs] end.
    - rewrite map_size_insert_Some by done. lia.
    - rewrite map_size_insert_None by (by apply eq_None_not_Some). lia. }
  specialize (Hl (seqZ 0 n)). rewrite length_seqZ in Hl. lia.
Qed.

(** What a function leaves that is given an area, writes it and gives it back. *)
Lemma deallocate_same g base n m m' P : unallocated base n m -> same_but (fun x => within base n x \/ P x) (allocate g base n m) m' ->
  same_but P m (deallocate base n m').
Proof.
  intros Hu [Hs Hd]. split; intros x; rewrite deallocate_lookup; case_bool_decide as Hx.
  - intros _. symmetry. by apply Hu.
  - intros HP. rewrite Hs by tauto. by apply allocate_other.
  - rewrite (Hu x Hx). done.
  - rewrite Hd. by rewrite allocate_other.
Qed.
(** The same bytes are allocated, so as many. *)
Lemma same_but_size P m m' : same_but P m m' -> size m' = size m.
Proof.
  intros [_ D]. rewrite <- !size_dom. f_equal. apply set_eq. intros x. rewrite !elem_of_dom. apply D.
Qed.
