(* ===== verification/VmHandlers.v ===== *)
(** The handlers of the interpreter: [src/vm/vm.cpp] and, for the primitive operations,
    [src/include/vm/bytecode_handlers.h].

    A handler reads its operands from the bytecode in order and calls the operation [Op<name>] with
    them.  The operations on primitive types and on memory are defined here; the others belong to the
    parts of the system the handlers call, and are what [runtime] says.  The handlers that move the
    instruction pointer otherwise are in [VM]. *)
From Stdlib Require Import SpecFloat.
From S2P Require Import Prelude Buffer CTypes Bytecodes Memory.

Local Open Scope string_scope.
Local Open Scope list_scope.
Local Open Scope Z_scope.

(** What the handlers call: the operations of the other components, on their arguments and the memory,
    and two bit counts of LLVM. *)
Class Runtime := {
  runtime : string -> list Z -> memory -> option memory;
  countLeadingZeros : nat -> Z -> Z;
  countTrailingZeros : nat -> Z -> Z
}.

(** * Operands

    [V t] is [frame->LocalAt<t>(READ_LOCAL_ID())], [P] the same at a pointer type; [RImm t] is
    [Read<t>]; [RFn] a function's id, for its implementation; [RStatic] a static local, for its data. *)
Inductive read : Set := V (t : ctype) | RImm (t : ctype) | RFn | RStatic.
Definition P : read := V uint64.

Record handler := mkHandler {
  h_name : string;
  h_reads : list read;
  h_effect : list Z -> memory -> option memory
}.

Definition with1 (f : Z -> memory -> option memory) (args : list Z) (m : memory) : option memory :=
  match args with [a] => f a m | _ => None end.
Definition with2 (f : Z -> Z -> memory -> option memory) (args : list Z) (m : memory) : option memory :=
  match args with [a; b] => f a b m | _ => None end.
Definition with3 (f : Z -> Z -> Z -> memory -> option memory) (args : list Z) (m : memory) : option memory :=
  match args with [a; b; c] => f a b c m | _ => None end.
Definition with5 (f : Z -> Z -> Z -> Z -> Z -> memory -> option memory) (args : list Z) (m : memory) : option memory :=
  match args with [a; b; c; d; e] => f a b c d e m | _ => None end.

(** * The operations on primitive types *)

(** [*result = value]. *)
Definition assign (t : ctype) (result : Z) (value : option Z) (m : memory) : option memory :=
  v ← value; write (sizeof t) result v m.
Definition of_bool (b : bool) : option Z := Some (if b then 1 else 0).

Definition OpGreaterThanEqual (t : ctype) (result lhs rhs : Z) :=
  assign bool_t result (of_bool (match compare t lhs rhs with Some Gt | Some Eq => true | _ => false end)).
Definition OpGreaterThan (t : ctype) (result lhs rhs : Z) :=
  assign bool_t result (of_bool (match compare t lhs rhs with Some Gt => true | _ => false end)).
Definition OpEqual (t : ctype) (result lhs rhs : Z) :=
  assign bool_t result (of_bool (match compare t lhs rhs with Some Eq => true | _ => false end)).
Definition OpLessThanEqual (t : ctype) (result lhs rhs : Z) :=
  assign bool_t result (of_bool (match compare t lhs rhs with Some Lt | Some Eq => true | _ => false end)).
Definition OpLessThan (t : ctype) (result lhs rhs : Z) :=
  assign bool_t result (of_bool (match compare t lhs rhs with Some Lt => true | _ => false end)).
Definition OpNotEqual (t : ctype) (result lhs rhs : Z) :=
  assign bool_t result (of_bool (match compare t lhs rhs with Some Eq => false | _ => true end)).
Definition OpNot (result input : Z) := assign bool_t result (of_bool (input =? 0)).

Definition OpAdd (t : ctype) (result lhs rhs : Z) := assign t result (arith Z.add SFadd t lhs rhs).
Definition OpSub (t : ctype) (result lhs rhs : Z) := assign t result (arith Z.sub SFsub t lhs rhs).
Definition OpMul (t : ctype) (result lhs rhs : Z) := assign t result (arith Z.mul SFmul t lhs rhs).
Definition OpNeg (t : ctype) (result input : Z) :=
  assign t result (match t with
                   | int_t s n => int_neg s n input
                   | float_t | double_t => Some (float_neg t input)
                   | bool_t => None
                   end).
Definition OpDiv (t : ctype) (result lhs rhs : Z) :=
  assign t result (match t with int_t s n => int_div Z.quot s n lhs rhs | _ => arith Z.quot SFdiv t lhs rhs end).
Definition OpRem (t : ctype) (result lhs rhs : Z) :=
  assign t result (match t with int_t s n => int_div Z.rem s n lhs rhs | _ => arith Z.rem SFmod t lhs rhs end).

Definition OpBitAnd (t : ctype) (result lhs rhs : Z) := assign t result (Some (Z.land lhs rhs)).
Definition OpBitOr (t : ctype) (result lhs rhs : Z) := assign t result (Some (Z.lor lhs rhs)).
Definition OpBitXor (t : ctype) (result lhs rhs : Z) := assign t result (Some (Z.lxor lhs rhs)).
Definition OpBitNeg (t : ctype) (result input : Z) :=
  assign t result (match t with int_t s n => Some (int_not s n input) | _ => None end).
(** The amount was read at the type of the input and becomes a [uint32_t]. *)
Definition OpBitShl (t : ctype) (result input n : Z) :=
  assign t result (match t with int_t s k => n ← cast t uint32 n; int_shl s k input n | _ => None end).
Definition OpBitShr (t : ctype) (result input n : Z) :=
  assign t result (match t with int_t s k => n ← cast t uint32 n; int_shr s k input n | _ => None end).
Definition OpCast (from to : ctype) (dest src : Z) := assign to dest (cast from to src).

(** * The operations on memory *)

Definition OpIsNullPtr (result ptr : Z) := assign bool_t result (of_bool (ptr =? 0)).
Definition OpIsNotNullPtr (result ptr : Z) := assign bool_t result (of_bool (negb (ptr =? 0))).
Definition OpDeref (t : ctype) (dest src : Z) (m : memory) : option memory := assign t dest (load (sizeof t) src m) m.
Definition OpDerefN (dest src len : Z) := copy_bytes (Z.to_nat len) dest src.
Definition OpAssign (t : ctype) (dest src : Z) := assign t dest (Some src).
Definition OpAssignN (dest src len : Z) := copy_bytes (Z.to_nat len) dest src.
Definition OpAssignImm (t : ctype) (dest src : Z) := assign t dest (Some src).
Definition OpLea (dest base offset : Z) := assign uint64 dest (Some (wrapu 64 (base + offset))).
(** [scale * index] is done at 32 bits. *)
Definition OpLeaScaled (dest base index scale offset : Z) :=
  assign uint64 dest (Some (wrapu 64 (base + wrapu 32 (scale * index) + offset))).

(** The conditions of the jumps. *)
Definition OpJump : bool := true.
Definition OpJumpIfTrue (cond : bool) : bool := cond.
Definition OpJumpIfFalse (cond : bool) : bool := negb cond.

(** * The handlers, in the order of the source *)

Section handlers.
Context `{Runtime}.

Definition OpBitCtlz (t : ctype) (result input : Z) := assign uint32 result (Some (countLeadingZeros (sizeof t) input)).
Definition OpBitCttz (t : ctype) (result input : Z) := assign uint32 result (Some (countTrailingZeros (sizeof t) input)).

(** A handler whose operation belongs to another component. *)
Definition runtime_handler (name : string) (reads : list read) : handler := mkHandler name reads (runtime ("Op" +:+ name)).

(** One handler per type. *)
Definition for_types (types : list (string * ctype)) (f : string * ctype -> list handler) : list handler := flat_map f types.

(** ** Primitive operations *)

Definition GEN_COMPARISON_TYPES (t : string * ctype) : list handler :=
  let DO_GEN_COMPARISON op f := mkHandler (typed op t.1) [P; V t.2; V t.2] (with3 (f t.2)) in
  [DO_GEN_COMPARISON "GreaterThan" OpGreaterThan;
   DO_GEN_COMPARISON "GreaterThanEqual" OpGreaterThanEqual;
   DO_GEN_COMPARISON "Equal" OpEqual;
   DO_GEN_COMPARISON "LessThan" OpLessThan;
   DO_GEN_COMPARISON "LessThanEqual" OpLessThanEqual;
   DO_GEN_COMPARISON "NotEqual" OpNotEqual].
Definition comparison_handlers : list handler := for_types all_types GEN_COMPARISON_TYPES.

(** A division by zero is logged, and done. *)
Definition GEN_ARITHMETIC_OP (t : string * ctype) : list handler :=
  let DO_GEN_ARITHMETIC_OP op f := mkHandler (typed op t.1) [P; V t.2; V t.2] (with3 (f t.2)) in
  [DO_GEN_ARITHMETIC_OP "Add" OpAdd;
   DO_GEN_ARITHMETIC_OP "Sub" OpSub;
   DO_GEN_ARITHMETIC_OP "Mul" OpMul;
   DO_GEN_ARITHMETIC_OP "Div" OpDiv;
   DO_GEN_ARITHMETIC_OP "Rem" OpRem].
Definition arithmetic_handlers : list handler := for_types numeric_types GEN_ARITHMETIC_OP.

Definition GEN_NEG_OP (t : string * ctype) : list handler :=
  [mkHandler (typed "Neg" t.1) [P; V t.2] (with2 (OpNeg t.2))].
Definition negation_handlers : list handler := for_types numeric_types GEN_NEG_OP.

Definition GEN_BIT_OP (t : string * ctype) : list handler :=
  let DO_GEN_BIT_OP op f := mkHandler (typed op t.1) [P; V t.2; V t.2] (with3 (f t.2)) in
  [DO_GEN_BIT_OP "BitAnd" OpBitAnd;
   DO_GEN_BIT_OP "BitOr" OpBitOr;
   DO_GEN_BIT_OP "BitXor" OpBitXor;
   DO_GEN_BIT_OP "BitShl" OpBitShl;
   DO_GEN_BIT_OP "BitShr" OpBitShr;
   mkHandler (typed "BitNeg" t.1) [P; V t.2] (with2 (OpBitNeg t.2))].
Definition GEN_BIT_COUNT_OP (t : string * ctype) : list handler :=
  [mkHandler (typed "BitCtlz" t.1) [P; V t.2] (with2 (OpBitCtlz t.2));
   mkHandler (typed "BitCttz" t.1) [P; V t.2] (with2 (OpBitCttz t.2))].
Definition bit_handlers : list handler :=
  for_types int_types GEN_BIT_OP ++ for_types unsigned_int_types GEN_BIT_COUNT_OP.

Definition GEN_CAST_OP (from to : string * ctype) : handler :=
  mkHandler (typed (typed "Cast" from.1) to.1) [P; V from.2] (with2 (OpCast from.2 to.2)).
Definition cast_handlers : list handler := flat_map (fun from => map (GEN_CAST_OP from) all_types) all_types.

Definition not_handlers : list handler := [mkHandler "Not" [P; V bool_t] (with2 OpNot)].

(** ** Memory *)

Definition GEN_DEREF (t : ctype) (size : string) : list handler :=
  [mkHandler ("Deref" +:+ size) [P; P] (with2 (OpDeref t))].
Definition GEN_ASSIGN (t : ctype) (size : string) : list handler :=
  [mkHandler ("Assign" +:+ size) [P; V t] (with2 (OpAssign t));
   mkHandler ("AssignImm" +:+ size) [P; RImm t] (with2 (OpAssignImm t))].
Definition memory_handlers : list handler :=
  [mkHandler "IsNullPtr" [P; P] (with2 OpIsNullPtr); mkHandler "IsNotNullPtr" [P; P] (with2 OpIsNotNullPtr)] ++
  GEN_DEREF int8 "1" ++ GEN_DEREF int16 "2" ++ GEN_DEREF int32 "4" ++ GEN_DEREF int64 "8" ++
  [mkHandler "DerefN" [P; P; RImm uint32] (with3 OpDerefN)] ++
  GEN_ASSIGN int8 "1" ++ GEN_ASSIGN int16 "2" ++ GEN_ASSIGN int32 "4" ++ GEN_ASSIGN int64 "8" ++
  [mkHandler "AssignN" [P; P; RImm uint32] (with3 OpAssignN);
   mkHandler "AssignImm4F" [P; RImm float_t] (with2 (OpAssignImm float_t));
   mkHandler "AssignImm8F" [P; RImm double_t] (with2 (OpAssignImm double_t));
   mkHandler "Lea" [P; P; RImm uint32] (with3 OpLea);
   mkHandler "LeaScaled" [P; P; V uint32; RImm uint32; RImm uint32] (with5 OpLeaScaled)].

(** ** The other components *)

(** Execution contexts and thread states. *)
Definition exec_context_handlers : list handler :=
  [runtime_handler "ExecutionContextGetMemoryPool" [P; P];
   runtime_handler "ExecutionContextGetTLS" [P; P];
   runtime_handler "ThreadStateContainerAccessCurrentThreadState" [P; P];
   runtime_handler "ThreadStateContainerIterate" [P; P; RFn];
   runtime_handler "ThreadStateContainerReset" [P; V uint32; RFn; RFn; P];
   runtime_handler "ThreadStateContainerClear" [P]].

(** Table vector iterators. *)
Definition table_handlers : list handler :=
  [runtime_handler "TableVectorIteratorInit" [P; RImm uint16];
   runtime_handler "TableVectorIteratorPerformInit" [P];
   runtime_handler "TableVectorIteratorNext" [P; P];
   runtime_handler "TableVectorIteratorFree" [P];
   runtime_handler "TableVectorIteratorGetVPI" [P; P];
   runtime_handler "ParallelScanTable" [RImm uint16; P; P; RFn]].

(** Vector projection iterators. *)
Definition vpi_handlers : list handler :=
  [runtime_handler "VPIInit" [P; P];
   runtime_handler "VPIInitWithList" [P; P; P];
   runtime_handler "VPIIsFiltered" [P; P];
   runtime_handler "VPIGetSelectedRowCount" [P; P];
   runtime_handler "VPIGetVectorProjection" [P; P];
   runtime_handler "VPIHasNext" [P; P];
   runtime_handler "VPIAdvance" [P];
   runtime_handler "VPISetPosition" [P; V uint32];
   runtime_handler "VPIMatch" [P; V bool_t];
   runtime_handler "VPIReset" [P];
   runtime_handler "VPIFree" [P]].

(** Access to the columns of a vector projection iterator. *)
Definition GEN_VPI_ACCESS (name : string) : list handler :=
  [runtime_handler ("VPIGet" +:+ name) [P; P; RImm uint32]; runtime_handler ("VPISet" +:+ name) [P; P; RImm uint32]].
Definition vpi_access_handlers : list handler :=
  flat_map GEN_VPI_ACCESS ["Bool"; "TinyInt"; "SmallInt"; "Integer"; "BigInt"; "Real"; "Double"; "Decimal"; "Date"; "String"] ++
  [runtime_handler "VPIGetPointer" [P; P; RImm uint32]].

(** Hashing. *)
Definition GEN_HASH (name : string) : handler := runtime_handler ("Hash" +:+ name) [P; P; V uint64].
Definition hash_handlers : list handler :=
  map GEN_HASH ["Int"; "Real"; "Date"; "Timestamp"; "String"] ++ [runtime_handler "HashCombine" [P; V uint64]].

(** Compact storage. *)
Definition GEN_COMPACT_STORAGE_OPS (name : string) : list handler :=
  [runtime_handler ("CompactStorageWrite" +:+ name) [P; P; V uint32; P];
   runtime_handler ("CompactStorageRead" +:+ name) [P; P; P; V uint32]].
Definition compact_storage_handlers : list handler :=
  flat_map GEN_COMPACT_STORAGE_OPS ["Bool"; "TinyInt"; "SmallInt"; "Integer"; "BigInt"; "Real"; "Double"; "Decimal"; "Date";
                                    "Timestamp"; "String"].

(** Filter managers. *)
Definition filter_manager_handlers : list handler :=
  [runtime_handler "FilterManagerInit" [P];
   runtime_handler "FilterManagerStartNewClause" [P];
   runtime_handler "FilterManagerInsertFilter" [P; RFn];
   runtime_handler "FilterManagerRunFilters" [P; P];
   runtime_handler "FilterManagerFree" [P]].

(** Vector filters. *)
Definition GEN_VEC_FILTER (bytecode : string) : list handler :=
  [runtime_handler bytecode [P; V uint32; V uint32; P]; runtime_handler (bytecode +:+ "Val") [P; V uint32; P; P]].
Definition vector_filter_handlers : list handler :=
  flat_map GEN_VEC_FILTER ["VectorFilterEqual"; "VectorFilterGreaterThan"; "VectorFilterGreaterThanEqual"; "VectorFilterLessThan";
                           "VectorFilterLessThanEqual"; "VectorFilterNotEqual"].

(** SQL values from primitive ones. *)
Definition value_creation_handlers : list handler :=
  [runtime_handler "ForceBoolTruth" [P; P];
   runtime_handler "InitSqlNull" [P];
   runtime_handler "InitBool" [P; V bool_t];
   runtime_handler "InitInteger" [P; V int32];
   runtime_handler "InitReal" [P; V float_t];
   runtime_handler "InitDate" [P; V int32; V int32; V int32];
   runtime_handler "InitString" [P; RStatic; RImm uint32]].

(** Conversions of SQL values. *)
Definition GEN_CONVERT_TO_STRING (bytecode : string) : handler := runtime_handler bytecode [P; P; P].
Definition GEN_CONVERSION (bytecode : string) : handler := runtime_handler bytecode [P; P].
Definition value_cast_handlers : list handler :=
  map GEN_CONVERT_TO_STRING ["IntegerToString"; "RealToString"; "DateToString"; "TimestampToString"] ++
  map GEN_CONVERSION ["BoolToInteger"; "IntegerToBool"; "IntegerToReal"; "RealToBool"; "RealToInteger"; "DateToTimestamp";
                      "TimestampToDate"; "StringToBool"; "StringToInteger"; "StringToReal"; "StringToDate"; "StringToTimestamp"].

(** Comparisons and arithmetic of SQL values. *)
Definition GEN_CMP (op : string) : list handler :=
  map (fun t => runtime_handler (op +:+ t) [P; P; P]) ["Bool"; "Integer"; "Real"; "Date"; "String"].
Definition value_comparison_handlers : list handler :=
  flat_map GEN_CMP ["GreaterThan"; "GreaterThanEqual"; "Equal"; "LessThan"; "LessThanEqual"; "NotEqual"].
Definition GEN_UNARY_MATH_OPS (op : string) : list handler :=
  [runtime_handler (op +:+ "Integer") [P; P]; runtime_handler (op +:+ "Real") [P; P]].
Definition GEN_MATH_OPS (op : string) : list handler :=
  [runtime_handler (op +:+ "Integer") [P; P; P]; runtime_handler (op +:+ "Real") [P; P; P]].
Definition value_math_handlers : list handler :=
  GEN_UNARY_MATH_OPS "Abs" ++
  [runtime_handler "ValIsNull" [P; P]; runtime_handler "ValIsNotNull" [P; P]; runtime_handler "LogicalNotBoolVal" [P; P]] ++
  flat_map GEN_MATH_OPS ["Add"; "Sub"; "Mul"; "Div"; "Rem"].

(** Aggregation hash tables. *)
Definition agg_hash_table_handlers : list handler :=
  [runtime_handler "AggregationHashTableInit" [P; P; V uint32];
   runtime_handler "AggregationHashTableAllocTuple" [P; P; V uint64];
   runtime_handler "AggregationHashTableAllocTuplePartitioned" [P; P; V uint64];
   runtime_handler "AggregationHashTableLinkHashTableEntry" [P; P];
   runtime_handler "AggregationHashTableLookup" [P; P; V uint64];
   runtime_handler "AggregationHashTableProcessBatch" [P; P; RImm uint32; P; RFn; RFn; V bool_t];
   runtime_handler "AggregationHashTableTransferPartitions" [P; P; V uint32; RFn];
   runtime_handler "AggregationHashTableBuildAllHashTablePartitions" [P; P];
   runtime_handler "AggregationHashTableRepartition" [P];
   runtime_handler "AggregationHashTableMergePartitions" [P; P; P; RFn];
   runtime_handler "AggregationHashTableParallelPartitionedScan" [P; P; P; RFn];
   runtime_handler "AggregationHashTableFree" [P];
   runtime_handler "AggregationHashTableIteratorInit" [P; P];
   runtime_handler "AggregationHashTableIteratorHasNext" [P; P];
   runtime_handler "AggregationHashTableIteratorNext" [P];
   runtime_handler "AggregationHashTableIteratorGetRow" [P; P];
   runtime_handler "AggregationHashTableIteratorFree" [P];
   runtime_handler "AggregationOverflowPartitionIteratorHasNext" [P; P];
   runtime_handler "AggregationOverflowPartitionIteratorNext" [P];
   runtime_handler "AggregationOverflowPartitionIteratorGetHash" [P; P];
   runtime_handler "AggregationOverflowPartitionIteratorGetRow" [P; P];
   runtime_handler "AggregationOverflowPartitionIteratorGetRowEntry" [P; P]].

(** Aggregates: all of one shape. *)
Definition GEN_AGGREGATE (agg : string) : list handler :=
  [runtime_handler (agg +:+ "Init") [P]; runtime_handler (agg +:+ "Advance") [P; P];
   runtime_handler (agg +:+ "Merge") [P; P]; runtime_handler (agg +:+ "Reset") [P];
   runtime_handler (agg +:+ "GetResult") [P; P]; runtime_handler (agg +:+ "Free") [P]].
Definition GEN_COUNT_AGG (agg : string) : list handler := GEN_AGGREGATE agg.
Definition aggregate_handlers : list handler :=
  flat_map GEN_COUNT_AGG ["CountAggregate"; "CountStarAggregate"] ++
  flat_map GEN_AGGREGATE ["IntegerSumAggregate"; "IntegerMaxAggregate"; "IntegerMinAggregate"; "RealSumAggregate";
                          "RealMaxAggregate"; "RealMinAggregate"; "DateMaxAggregate"; "DateMinAggregate";
                          "StringMaxAggregate"; "StringMinAggregate"].

(** The average. *)
Definition avg_handlers : list handler :=
  [runtime_handler "AvgAggregateInit" [P];
   runtime_handler "AvgAggregateAdvanceInteger" [P; P];
   runtime_handler "AvgAggregateAdvanceReal" [P; P];
   runtime_handler "AvgAggregateMerge" [P; P];
   runtime_handler "AvgAggregateReset" [P];
   runtime_handler "AvgAggregateGetResult" [P; P];
   runtime_handler "AvgAggregateFree" [P]].

(** Hash joins. *)
Definition join_handlers : list handler :=
  [runtime_handler "JoinHashTableInit" [P; P; V uint32];
   runtime_handler "JoinHashTableInit2" [P; P; V uint32; RFn; RFn];
   runtime_handler "JoinHashTableAllocTuple" [P; P; V uint64];
   runtime_handler "JoinHashTableBuild" [P];
   runtime_handler "JoinHashTableBuildParallel" [P; P; V uint32];
   runtime_handler "JoinHashTableLookup" [P; P; V uint64];
   runtime_handler "JoinHashTableFree" [P];
   runtime_handler "HashTableEntryGetHash" [P; P];
   runtime_handler "HashTableEntryGetRow" [P; P];
   runtime_handler "HashTableEntryGetNext" [P; P]].

(** Bit packing. *)
Definition bit_packing_handlers : list handler :=
  [runtime_handler "AnalysisStatsSetColumnCount" [P; V uint32];
   runtime_handler "AnalysisStatsSetColumnBits" [P; V uint32; V uint32]].

(** Sorters. *)
Definition sorter_handlers : list handler :=
  [runtime_handler "SorterInit" [P; P; RFn; V uint32];
   runtime_handler "SorterAllocTuple" [P; P];
   runtime_handler "SorterAllocTupleTopK" [P; P; V uint32];
   runtime_handler "SorterAllocTupleTopKFinish" [P; V uint32];
   runtime_handler "SorterSort" [P];
   runtime_handler "SorterSortParallel" [P; P; V uint32];
   runtime_handler "SorterSortTopKParallel" [P; P; V uint32; V uint32];
   runtime_handler "SorterFree" [P];
   runtime_handler "SorterIteratorInit" [P; P];
   runtime_handler "SorterIteratorHasNext" [P; P];
   runtime_handler "SorterIteratorNext" [P];
   runtime_handler "SorterIteratorSkipRows" [P; V uint32];
   runtime_handler "SorterIteratorGetRow" [P; P];
   runtime_handler "SorterIteratorFree" [P]].

(** Output. *)
Definition output_handlers : list handler :=
  [runtime_handler "ResultBufferAllocOutputRow" [P; P];
   runtime_handler "ResultBufferFinalize" [P]].

(** The CSV reader. *)
Definition csv_handlers : list handler :=
  [runtime_handler "CSVReaderInit" [P; RStatic; RImm uint32];
   runtime_handler "CSVReaderPerformInit" [P; P];
   runtime_handler "CSVReaderAdvance" [P; P];
   runtime_handler "CSVReaderGetField" [P; V uint32; P];
   runtime_handler "CSVReaderGetRecordNumber" [P; P];
   runtime_handler "CSVReaderClose" [P]].

(** Mathematical functions. *)
Definition UNARY_REAL_MATH_OP (op : string) : handler := runtime_handler op [P; P].
Definition BINARY_REAL_MATH_OP (op : string) : handler := runtime_handler op [P; P; P].
Definition math_handlers : list handler :=
  [runtime_handler "Pi" [P]; runtime_handler "E" [P]] ++
  map UNARY_REAL_MATH_OP ["Sin"; "Asin"; "Cos"; "Acos"; "Tan"; "Cot"; "Atan"; "Cosh"; "Tanh"; "Sinh"; "Sqrt"; "Cbrt"; "Exp";
                          "Ceil"; "Floor"; "Truncate"; "Ln"; "Log2"; "Log10"; "Sign"; "Radians"; "Degrees"; "Round"] ++
  map BINARY_REAL_MATH_OP ["Atan2"; "Log"; "Pow"] ++ [runtime_handler "RoundUpTo" [P; P; P]].

(** String functions. *)
Definition string_handlers : list handler :=
  [runtime_handler "Concat" [P; P; P; RImm uint32];
   runtime_handler "Left" [P; P; P; P];
   runtime_handler "Length" [P; P; P];
   runtime_handler "Like" [P; P; P];
   runtime_handler "Lower" [P; P; P];
   runtime_handler "LPad" [P; P; P; P; P];
   runtime_handler "LTrim" [P; P; P; P];
   runtime_handler "Repeat" [P; P; P; P];
   runtime_handler "Reverse" [P; P; P];
   runtime_handler "Right" [P; P; P; P];
   runtime_handler "RPad" [P; P; P; P; P];
   runtime_handler "RTrim" [P; P; P; P];
   runtime_handler "SplitPart" [P; P; P; P; P];
   runtime_handler "Substring" [P; P; P; P; P];
   runtime_handler "Trim" [P; P; P; P];
   runtime_handler "Upper" [P; P; P]].

(** Date functions. *)
Definition date_handlers : list handler :=
  [runtime_handler "ExtractYear" [P; P]].

(** All but [Jump], [JumpIfTrue], [JumpIfFalse], [Call] and [Return]. *)
Definition handlers : list handler :=
  comparison_handlers ++ arithmetic_handlers ++ negation_handlers ++ bit_handlers ++ cast_handlers ++ not_handlers ++
  memory_handlers ++ exec_context_handlers ++ table_handlers ++ vpi_handlers ++ vpi_access_handlers ++ hash_handlers ++
  compact_storage_handlers ++ filter_manager_handlers ++ vector_filter_handlers ++ value_creation_handlers ++
  value_cast_handlers ++ value_comparison_handlers ++ value_math_handlers ++ agg_hash_table_handlers ++
  aggregate_handlers ++ avg_handlers ++ join_handlers ++ bit_packing_handlers ++ sorter_handlers ++ output_handlers ++
  csv_handlers ++ math_handlers ++ string_handlers ++ date_handlers.

(** [kDispatchTable]: the label of a bytecode is the handler of its name. *)
Definition handler_of (b : Z) : option handler :=
  name ← ToString b; List.find (fun h => String.eqb (h_name h) name) handlers.

End handlers.
