(* ===== verification/VM.v ===== *)
(** The virtual machine: [src/vm/vm.cpp], with what it asks of a module,
    [src/include/vm/bytecode_module.h] and [src/include/vm/module.h].

    The instruction pointer is a position in the bytecode of the module.  The interpreter runs with
    fuel, one unit for each instruction of a function and one level for each call; [Undefined] is an
    access outside of the bytecode or of the memory, or an operation C++ does not define.  The checks of
    a debug build are left out. *)
From S2P Require Import Prelude Buffer Layout FunctionInfo Bytecodes BytecodeIterator CTypes Memory VmHandlers.

Inductive result (A : Type) : Type := Ok (a : A) | Undefined | OutOfFuel.
Arguments Ok {A} a.
Arguments Undefined {A}.
Arguments OutOfFuel {A}.

Definition rbind {A B} (f : A -> result B) (r : result A) : result B :=
  match r with Ok a => f a | Undefined => Undefined | OutOfFuel => OutOfFuel end.
#[export] Instance result_bind : MBind result := @rbind.
Definition lift {A} (o : option A) : result A := match o with Some a => Ok a | None => Undefined end.

(** Where the memory of a frame is, from the stack or the heap, and what is in it. *)
Class FrameAllocator := { frame_address : memory -> Z -> Z; garbage : Z -> Z }.

Record Frame := mkFrame { frame_data_ : Z; vm_frame_size_ : Z }.

Definition PtrToLocalAt (frame : Frame) (local : LocalVar) : Z := frame_data_ frame + GetOffset local.
(** By value the local is loaded; by address its address is converted to the type. *)
Definition LocalAt (frame : Frame) (t : ctype) (index : Z) (m : memory) : option Z :=
  let local := LocalVar_Decode index in
  let val := PtrToLocalAt frame local in
  if decide (GetAddressMode local = Value) then load (sizeof t) val m else cast uint64 t (wrapu 64 val).

Section vm.
Context `{Runtime, FrameAllocator} {T : Type} `{AlignOps} `{TypeLayout T}.

(** * Modules *)

Record BytecodeModule := mkModule {
  code_ : list Z;
  static_data_ : Z;     (** the address of the static data *)
  functions_ : list (FunctionInfo T)
}.

Definition GetFuncInfoById (module : BytecodeModule) (id : Z) : option (FunctionInfo T) := functions_ module !! Z.to_nat id.
Definition AccessBytecodeForFunctionRaw (func : FunctionInfo T) : Z := (bytecode_range_ func).1.
Definition GetBytecodeForFunction (module : BytecodeModule) (func : FunctionInfo T) : BytecodeIterator :=
  new_BytecodeIterator (code_ module) (bytecode_range_ func).1 (bytecode_range_ func).2.
Definition AccessStaticLocalDataRaw (module : BytecodeModule) (local : LocalVar) : Z := static_data_ module + GetOffset local.

(** The loop counts the instructions; each advances by at least one byte. *)
Fixpoint count_instructions (fuel : nat) (iter : BytecodeIterator) (count : Z) : option Z :=
  if Done iter then Some count
  else match fuel with
       | O => None
       | S fuel' => iter ← Advance iter; count_instructions fuel' iter (count + 1)
       end.
Definition GetInstructionCount (module : BytecodeModule) : option Z :=
  count_instructions (length (code_ module)) (new_BytecodeIterator_all (code_ module)) 0.

(** * Reading operands *)

Context (module : BytecodeModule).

(** [Read<t>] at the instruction pointer, which it moves. *)
Definition Read (n : nat) (ip : Z) : option (Z * Z) := v ← read_uint n ip (code_ module); Some (v, ip + Z.of_nat n).
Definition Peek_int32 (ip : Z) : option Z := read_sint 4 ip (code_ module).

Definition read_one (frame : Frame) (m : memory) (r : read) (ip : Z) : option (Z * Z) :=
  match r with
  | V t => '(index, ip) ← Read 4 ip; v ← LocalAt frame t index m; Some (v, ip)
  | RImm t => Read (sizeof t) ip
  | RFn => Read 2 ip
  | RStatic => '(index, ip) ← Read 4 ip; Some (AccessStaticLocalDataRaw module (LocalVar_Decode index), ip)
  end.
Fixpoint read_all (frame : Frame) (m : memory) (rs : list read) (ip : Z) : option (list Z * Z) :=
  match rs with
  | [] => Some ([], ip)
  | r :: rs' => '(v, ip) ← read_one frame m r ip; '(vs, ip) ← read_all frame m rs' ip; Some (v :: vs, ip)
  end.

(** * Calls *)

(** The parameters: the address of a local, or the bytes of its value. *)
Fixpoint set_params (locals : list (LocalInfo T)) (n : nat) (raw_frame : Z) (caller : Frame) (ip : Z) (m : memory) {struct n}
  : option (Z * memory) :=
  match n with
  | O => Some (ip, m)
  | S n' =>
      match locals with
      | [] => None
      | param_info :: locals' =>
          '(index, ip) ← Read 4 ip;
          let param := LocalVar_Decode index in
          let param_ptr := PtrToLocalAt caller param in
          m ← (if decide (GetAddressMode param = Address) then
                 if li_size param_info <=? 8 then
                   write_bytes (take (Z.to_nat (li_size param_info)) (le_encode 8 param_ptr)) (raw_frame + li_offset param_info) m
                 else None
               else copy_bytes (Z.to_nat (li_size param_info)) (raw_frame + li_offset param_info) param_ptr m);
          set_params locals' n' raw_frame caller ip m
      end
  end.

Definition ExecuteCall (Interpret : Z -> Frame -> memory -> result memory) (ip : Z) (caller : Frame) (m : memory)
  : result (Z * memory) :=
  '(func_id, ip) ← lift (Read 2 ip);
  '(num_params, ip) ← lift (Read 2 ip);
  func_info ← lift (GetFuncInfoById module func_id);
  let frame_size := frame_size_ func_info in
  let raw_frame := frame_address m frame_size in
  let m := allocate garbage raw_frame frame_size m in
  '(ip, m) ← lift (set_params (locals_ func_info) (Z.to_nat num_params) raw_frame caller ip m);
  m ← Interpret (AccessBytecodeForFunctionRaw func_info) (mkFrame raw_frame frame_size) m;
  Ok (ip, deallocate raw_frame frame_size m).

(** * The interpreter *)

(** The handlers that only read operands and call an operation. *)
Definition run_handler (h : handler) (frame : Frame) (ip : Z) (m : memory) : option (Z * memory) :=
  '(args, ip) ← read_all frame m (h_reads h) ip;
  m ← h_effect h args m;
  Some (ip, m).

Definition jump_if (taken : bool -> bool) (frame : Frame) (ip : Z) (m : memory) : option Z :=
  '(index, ip) ← Read 4 ip;
  cond ← LocalAt frame bool_t index m;
  skip ← Peek_int32 ip;
  if taken (negb (cond =? 0)) then Some (ip + skip) else '(_, ip) ← Read 4 ip; Some ip.

Fixpoint Interpret (fuel : nat) (ip : Z) (frame : Frame) (m : memory) : result memory :=
  match fuel with
  | O => OutOfFuel
  | S fuel' =>
      '(op, ip) ← lift (Read 4 ip);
      if op =? code "Jump" then
        skip ← lift (Peek_int32 ip);
        Interpret fuel' (if OpJump then ip + skip else ip) frame m
      else if op =? code "JumpIfTrue" then
        ip ← lift (jump_if OpJumpIfTrue frame ip m);
        Interpret fuel' ip frame m
      else if op =? code "JumpIfFalse" then
        ip ← lift (jump_if OpJumpIfFalse frame ip m);
        Interpret fuel' ip frame m
      else if op =? code "Call" then
        '(ip, m) ← ExecuteCall (Interpret fuel') ip frame m;
        Interpret fuel' ip frame m
      else if op =? code "Return" then Ok m
      else
        h ← lift (handler_of op);
        '(ip, m) ← lift (run_handler h frame ip m);
        Interpret fuel' ip frame m
  end.

Definition InvokeFunction (fuel : nat) (func_id : Z) (args : Z) (m : memory) : result memory :=
  func_info ← lift (GetFuncInfoById module func_id);
  let frame_size := frame_size_ func_info in
  let raw_frame := frame_address m frame_size in
  let m := allocate garbage raw_frame frame_size m in
  m ← lift (copy_bytes (Z.to_nat (params_size_ func_info)) (raw_frame + params_start_pos_ func_info) args m);
  m ← Interpret fuel (AccessBytecodeForFunctionRaw func_info) (mkFrame raw_frame frame_size) m;
  Ok (deallocate raw_frame frame_size m).

End vm.
Arguments BytecodeModule T : clear implicits.
Arguments mkModule {T} code_ static_data_ functions_.
