(* ===== verification/VmSpec.v ===== *)
(** What the virtual machine does with a program, without bytes and distances: a machine whose
    program counter is what is left of the program, whose jumps go to labels, and that evaluates the
    operands it finds in the instruction; and that the interpreter does the same on the bytes. *)
From S2P Require Import Prelude Buffer Layout FunctionInfo Bytecodes BytecodeEmitter BytecodeSpec BytecodeIterator BytecodeIteratorSpec CTypes Memory VmHandlers VM.

(** * Handlers and operand types *)

Definition read_fits (r : read) (t : OperandType) : bool :=
  match r with
  | V _ => bool_decide (t = Local)
  | RFn => bool_decide (t = FunctionId)
  | RStatic => bool_decide (t = StaticLocal)
  | RImm ty => match t with
               | Imm1 | Imm2 | Imm4 | Imm8 | UImm2 | UImm4 | Imm4F | Imm8F => Nat.eqb (sizeof ty) (operand_size t)
               | _ => false
               end
  end.
Fixpoint reads_fit (rs : list read) (ts : list OperandType) : bool :=
  match rs, ts with
  | [], [] => true
  | r :: rs', t :: ts' => read_fits r t && reads_fit rs' ts'
  | _, _ => false
  end.
Definition moves_ip (name : string) : bool :=
  existsb (String.eqb name) ["Jump"; "JumpIfTrue"; "JumpIfFalse"; "Call"; "Return"]%string.

(** * The machine *)

Section machine.
Context `{Runtime, FrameAllocator} {T : Type} `{AlignOps} `{TypeLayout T}.
Context (module : BytecodeModule T).

Definition eval_read (frame : Frame) (m : memory) (r : read) (z : Z) : option Z :=
  match r with
  | V t => LocalAt frame t z m
  | RImm t => Some (wrapu (bits t) z)
  | RFn => Some z
  | RStatic => Some (AccessStaticLocalDataRaw module (LocalVar_Decode z))
  end.
Fixpoint eval_reads (frame : Frame) (m : memory) (rs : list read) (args : list Z) : option (list Z) :=
  match rs, args with
  | [], [] => Some []
  | r :: rs', z :: args' => v ← eval_read frame m r z; vs ← eval_reads frame m rs' args'; Some (v :: vs)
  | _, _ => None
  end.
Definition exec_plain (frame : Frame) (m : memory) (b : Z) (args : list Z) : option memory :=
  h ← handler_of b; vs ← eval_reads frame m (h_reads h) args; h_effect h vs m.

(** The arguments of a call. *)
Fixpoint pass_args (locals : list (LocalInfo T)) (args : list Z) (raw_frame : Z) (caller : Frame) (m : memory) {struct args} : option memory :=
  match args with
  | [] => Some m
  | index :: args' =>
      match locals with
      | [] => None
      | param_info :: locals' =>
          let param := LocalVar_Decode index in
          let param_ptr := PtrToLocalAt caller param in
          m ← (if decide (GetAddressMode param = Address) then
                 if li_size param_info <=? 8 then
                   write_bytes (take (Z.to_nat (li_size param_info)) (le_encode 8 param_ptr)) (raw_frame + li_offset param_info) m
                 else None
               else copy_bytes (Z.to_nat (li_size param_info)) (raw_frame + li_offset param_info) param_ptr m);
          pass_args locals' args' raw_frame caller m
      end
  end.
Definition exec_call (run_callee : Z -> Frame -> memory -> result memory) (func_id : Z) (args : list Z) (caller : Frame)
  (m : memory) : result memory :=
  func_info ← lift (GetFuncInfoById module func_id);
  let raw_frame := frame_address m (frame_size_ func_info) in
  m ← lift (pass_args (locals_ func_info) args raw_frame caller (allocate garbage raw_frame (frame_size_ func_info) m));
  m ← run_callee (AccessBytecodeForFunctionRaw func_info) (mkFrame raw_frame (frame_size_ func_info)) m;
  Ok (deallocate raw_frame (frame_size_ func_info) m).

Fixpoint strip_labels (rest : list item) : list item :=
  match rest with Lab _ :: rest' => strip_labels rest' | _ => rest end.
(** What follows a label. *)
Fixpoint after_label (l : nat) (p : list item) : option (list item) :=
  match p with
  | [] => None
  | it :: p' => match it with Lab l' => if decide (l' = l) then Some p' else after_label l p' | _ => after_label l p' end
  end.
Definition cond_holds (frame : Frame) (m : memory) (cond : Z) : option bool :=
  (fun c => negb (c =? 0)) <$> LocalAt frame bool_t cond m.

(** [Undefined] past the end of the program. *)
Fixpoint run (p : list item) (frame : Frame) (fuel : nat) (rest : list item) (m : memory) : result memory :=
  match fuel with
  | O => OutOfFuel
  | S fuel' =>
      match strip_labels rest with
      | Jmp b cond l :: rest' =>
          taken ← lift (match cond with
                        | None => if b =? code "Jump" then Some true else None
                        | Some c => t ← cond_holds frame m c;
                                    if b =? code "JumpIfTrue" then Some t
                                    else if b =? code "JumpIfFalse" then Some (negb t) else None
                        end);
          rest ← lift (if (taken : bool) then after_label l p else Some rest');
          run p frame fuel' rest m
      | Ins (CallI f args) :: rest' =>
          m ← exec_call (Interpret module fuel') f args frame m; run p frame fuel' rest' m
      | Ins (Plain b args) :: rest' =>
          if b =? code "Return" then Ok m
          else if IsJump b then Undefined   (* jumps go to labels *)
          else m ← lift (exec_plain frame m b args); run p frame fuel' rest' m
      | _ => Undefined
      end
  end.

End machine.

(** * Every handler reads the operands its bytecode declares *)

Definition handler_ok `{Runtime} (b : Z) (e : string * list OperandType) : bool :=
  if moves_ip e.1 then true
  else match handler_of b with Some h => String.eqb (h_name h) e.1 && reads_fit (h_reads h) e.2 | None => false end.

Fixpoint handlers_ok_from `{Runtime} (b : Z) (l : list (string * list OperandType)) : bool :=
  match l with [] => true | e :: l' => handler_ok b e && handlers_ok_from (b + 1) l' end.

Lemma handlers_ok_from_spec `{Runtime} l : forall b, 0 <= b -> handlers_ok_from b l = true ->
  forall i e, l !! i = Some e -> handler_ok (b + Z.of_nat i) e = true.
Proof.
  induction l as [|e0 l IH]; intros b Hb Hall i e Hi; [done|]. cbn [handlers_ok_from] in Hall.
  apply andb_true_iff in Hall as [He Hl]. destruct i as [|i]; simpl in Hi.
  - injection Hi as ->. by rewrite Z.add_0_r.
  - replace (b + Z.of_nat (S i)) with (b + 1 + Z.of_nat i) by lia. apply (IH (b + 1)); [lia|done|done].
Qed.

Lemma all_handlers_ok `{Runtime} : handlers_ok_from 0 BYTECODE_LIST = true.
Proof. vm_compute. reflexivity. Qed.

Lemma handler_for `{Runtime} b ts name : entry b = Some (name, ts) -> moves_ip name = false ->
  exists h, handler_of b = Some h /\ h_name h = name /\ reads_fit (h_reads h) ts = true.
Proof.
  intros He Hn. unfold entry in He. destruct (Z.leb_spec 0 b) as [Hb|]; [|done].
  pose proof (handlers_ok_from_spec BYTECODE_LIST 0 ltac:(lia) all_handlers_ok _ _ He) as Hok.
  rewrite Z.add_0_l, Z2Nat.id in Hok by done. unfold handler_ok in Hok. cbn [fst snd] in Hok. rewrite Hn in Hok.
  destruct (handler_of b) as [h|]; [|done]. apply andb_true_iff in Hok as [Hname Hfit].
  exists h. split; [done|]. split; [by apply String.eqb_eq|done].
Qed.

(** * Programs in place *)

Lemma item_ok_lower p pos it : item_ok it -> 0 <= pos -> pos + item_size it <= program_size p -> program_size p < 2 ^ 31 - 1 ->
  (forall b cond l, it = Jmp b cond l -> l ∈ labels_of p) -> Forall instr_ok (lower_item (where_bound 0 p) pos it).
Proof.
  intros Hok Hpos Hsize Hmax Hl. destruct it as [i|b cond l|l]; cbn [lower_item]; [by constructor| |constructor].
  constructor; [|constructor]. destruct Hok as [Hb Hc]. unfold instr_ok, types_of. rewrite Hb. split; [done|]. cbn [default].
  unfold jump_types. apply Forall2_app.
  - clear -Hc. induction Hc; constructor; done.
  - constructor; [|constructor]. cbn [operand_ok]. specialize (Hl b cond l eq_refl).
    destruct (where_bound 0 p l) as [t|] eqn:Ht; [|by apply where_bound_None in Ht]. cbn [distance].
    apply where_bound_range in Ht. unfold site, is_sint. cbn [item_size] in Hsize. change (2 ^ (32 - 1)) with (2 ^ 31). lia.
Qed.

Lemma program_ok_lower p : program_ok p -> Forall instr_ok (lower (where_bound 0 p) 0 p).
Proof.
  intros [Hit Hnd Htg Hsz]. assert (forall q pos, Forall item_ok q -> 0 <= pos -> pos + program_size q <= program_size p ->
    (forall l, l ∈ targets_of q -> l ∈ labels_of p) -> Forall instr_ok (lower (where_bound 0 p) pos q)) as Hgen.
  { induction q as [|it q IH]; intros pos Hq Hpos Hle Hl; [constructor|]. apply Forall_cons in Hq as [Hi Hq].
    cbn [lower program_size foldr] in *. fold (program_size q) in *. pose proof (item_size_nonneg it). pose proof (program_size_nonneg q).
    apply Forall_app. split.
    - apply item_ok_lower; try done; try lia. intros b cond l ->. apply Hl. simpl. by left.
    - apply IH; try done; try lia. intros l Hin. apply Hl. destruct it; simpl; [done|by right|done]. }
  apply Hgen; try done; lia.
Qed.

Lemma program_ok_item p it done_ rest : program_ok p -> p = done_ ++ it :: rest ->
  Forall instr_ok (lower_item (where_bound 0 p) (program_size done_) it).
Proof.
  intros Hp ->. pose proof (program_ok_lower _ Hp) as Hall. rewrite lower_app in Hall.
  apply Forall_app in Hall as [_ Hall]. cbn [lower] in Hall. by apply Forall_app in Hall as [Hall _].
Qed.

Lemma after_label_spec l p rest : after_label l p = Some rest ->
  exists done_, p = done_ ++ rest /\ forall pos, where_bound pos p l = Some (pos + program_size done_).
Proof.
  revert rest. induction p as [|it p IH]; intros rest; [done|]. cbn [after_label].
  assert (forall r, after_label l p = Some r -> (forall pos, where_bound pos (it :: p) l = where_bound (pos + item_size it) p l) ->
    exists done_, it :: p = done_ ++ r /\ forall pos, where_bound pos (it :: p) l = Some (pos + program_size done_)) as Hstep.
  { intros r Hr Hw. destruct (IH r Hr) as (done_ & -> & Hpos). exists (it :: done_). split; [done|]. intros pos.
    rewrite Hw, Hpos. cbn [program_size foldr]. fold (program_size done_). f_equal. lia. }
  destruct it as [i|b cond l'|l']; intros Hr; [by apply Hstep|by apply Hstep|].
  destruct (decide (l' = l)) as [->|Hne].
  - injection Hr as <-. exists [Lab l]. split; [done|]. intros pos. cbn [where_bound]. rewrite decide_True by done.
    f_equal. unfold program_size. simpl. lia.
  - apply Hstep; [done|]. intros pos. cbn [where_bound]. by rewrite decide_False.
Qed.

Lemma strip_labels_spec rest : exists labs, rest = labs ++ strip_labels rest /\ program_size labs = 0.
Proof.
  induction rest as [|it rest IH]; [by exists []|]. destruct it; try by exists [].
  destruct IH as (labs & E & Es). exists (Lab l :: labs). simpl. by rewrite <- E.
Qed.

(** * The simulation *)

Section simulation.
Context `{Runtime, FrameAllocator} {T : Type} `{AlignOps} `{TypeLayout T}.
Context (module : BytecodeModule T).

Lemma read_all_encode frame m rs : forall ts args pre post,
  code_ module = pre ++ encode_operands ts args ++ post -> reads_fit rs ts = true -> Forall2 operand_ok ts args ->
  read_all module frame m rs (Z.of_nat (length pre)) =
  (fun vs => (vs, Z.of_nat (length pre) + types_size ts)) <$> eval_reads module frame m rs args.
Proof.
  induction rs as [|r rs IH]; intros ts args pre post Hcode Hfit Hok.
  - destruct ts; [|done]. inversion Hok; subst. simpl. by rewrite Z.add_0_r.
  - destruct ts as [|t ts]; [done|]. cbn [reads_fit] in Hfit. apply andb_true_iff in Hfit as [Hr Hfit].
    inversion Hok as [|? z ? args' Hz Hargs]; subst. unfold encode_operands in Hcode. cbn [zip_with concat] in Hcode.
    fold (encode_operands ts args') in Hcode. rewrite <- app_assoc in Hcode.
    assert (read_one module frame m r (Z.of_nat (length pre)) =
      (fun v => (v, Z.of_nat (length (pre ++ encode_operand t z)))) <$> eval_read module frame m r z) as Hone.
    { rewrite length_app. unfold encode_operand at 1. rewrite length_le_encode, Nat2Z.inj_add.
      destruct r as [ty|ty| |]; cbn [read_one eval_read read_fits] in Hr |- *; unfold Read;
        [apply bool_decide_eq_true in Hr; subst t| |apply bool_decide_eq_true in Hr; subst t|apply bool_decide_eq_true in Hr; subst t].
      - unfold encode_operand in Hcode. cbn [operand_ok] in Hz. rewrite Hcode.
        change (operand_size Local) with 4%nat in *. rewrite read_uint_encode by done. cbn [mbind option_bind].
        change (8 * Z.of_nat 4) with 32. rewrite wrapu_small by done. by destruct (LocalAt frame ty z m).
      - assert (sizeof ty = operand_size t) as Es by (destruct t; try done; by apply Nat.eqb_eq in Hr).
        unfold encode_operand in Hcode. unfold bits. rewrite Hcode, Es, read_uint_encode by done. done.
      - unfold encode_operand in Hcode. cbn [operand_ok] in Hz. rewrite Hcode.
        change (operand_size FunctionId) with 2%nat in *. rewrite read_uint_encode by done. cbn [mbind option_bind fmap option_fmap option_map].
        change (8 * Z.of_nat 2) with 16. by rewrite wrapu_small.
      - unfold encode_operand in Hcode. cbn [operand_ok] in Hz. rewrite Hcode.
        change (operand_size StaticLocal) with 4%nat in *. rewrite read_uint_encode by done. cbn [mbind option_bind fmap option_fmap option_map].
        change (8 * Z.of_nat 4) with 32. by rewrite wrapu_small. }
    cbn [read_all eval_reads]. rewrite Hone. destruct (eval_read module frame m r z) as [v|]; [|done].
    cbn [fmap option_fmap option_map mbind option_bind].
    rewrite (IH ts args' (pre ++ encode_operand t z) post); [|by rewrite <- app_assoc|done|done].
    destruct (eval_reads module frame m rs args') as [vs|]; [|done]. cbn [fmap option_fmap option_map mbind option_bind].
    do 2 f_equal. unfold types_size at 2. cbn [foldr]. fold (types_size ts).
    rewrite length_app, Nat2Z.inj_add. unfold encode_operand. rewrite length_le_encode, operand_size_kSize. lia.
Qed.

Lemma set_params_encode caller raw_frame : forall args locals pre post m, Forall (is_uint 32) args ->
  code_ module = pre ++ concat (map (le_encode 4) args) ++ post ->
  set_params module locals (length args) raw_frame caller (Z.of_nat (length pre)) m =
  (fun m => (Z.of_nat (length pre) + 4 * Z.of_nat (length args), m)) <$> pass_args locals args raw_frame caller m.
Proof.
  induction args as [|z args IH]; intros locals pre post m Hok Hcode; [cbn [set_params pass_args length fmap option_fmap option_map]; do 2 f_equal; lia|].
  apply Forall_cons in Hok as [Hz Hok]. cbn [length set_params pass_args]. destruct locals as [|li locals]; [done|].
  cbn [map concat] in Hcode. rewrite <- app_assoc in Hcode. unfold Read. rewrite Hcode at 1. rewrite read_uint_encode by done.
  cbn [mbind option_bind]. change (8 * Z.of_nat 4) with 32. rewrite wrapu_small by done.
  destruct (if decide _ then _ else _) as [m'|]; [|done]. cbn [mbind option_bind].
  specialize (IH locals (pre ++ le_encode 4 z) post m' Hok ltac:(by rewrite <- app_assoc)).
  rewrite length_app, length_le_encode, Nat2Z.inj_add in IH. rewrite IH.
  destruct (pass_args locals args raw_frame caller m') as [m''|]; [|done]. simpl. do 2 f_equal. lia.
Qed.

Lemma ExecuteCall_encode interp f args caller pre post m : instr_ok (CallI f args) ->
  code_ module = pre ++ encode_instr (CallI f args) ++ post ->
  ExecuteCall module interp (Z.of_nat (length pre) + 4) caller m =
  m ← exec_call module interp f args caller m; Ok (Z.of_nat (length pre) + instr_size (CallI f args), m).
Proof.
  intros (Hf & Hn & Hargs) Hcode. cbn [encode_instr] in Hcode. rewrite <- !app_assoc in Hcode.
  unfold ExecuteCall, exec_call.
  assert (Read module 2 (Z.of_nat (length pre) + 4) = Some (f, Z.of_nat (length pre) + 6)) as ->.
  { unfold Read. rewrite Hcode, (app_assoc pre), read_uint_encode by (rewrite length_app, length_le_encode; lia).
    cbn [mbind option_bind]. change (8 * Z.of_nat 2) with 16. rewrite wrapu_small by done. do 2 f_equal. lia. }
  cbn [lift mbind result_bind rbind].
  assert (Read module 2 (Z.of_nat (length pre) + 6) = Some (Z.of_nat (length args), Z.of_nat (length pre) + 8)) as ->.
  { unfold Read. rewrite Hcode, (app_assoc pre), (app_assoc _ (le_encode 2 f)), read_uint_encode by (rewrite !length_app, !length_le_encode; lia).
    cbn [mbind option_bind]. change (8 * Z.of_nat 2) with 16. rewrite wrapu_small by done. do 2 f_equal. lia. }
  cbn [lift mbind result_bind rbind]. destruct (GetFuncInfoById module f) as [fi|]; [|done]. cbn [lift mbind result_bind rbind].
  rewrite Nat2Z.id.
  pose proof (set_params_encode caller (frame_address m (frame_size_ fi)) args (locals_ fi)
    (pre ++ le_encode 4 (code "Call") ++ le_encode 2 f ++ le_encode 2 (Z.of_nat (length args))) post
    (allocate garbage (frame_address m (frame_size_ fi)) (frame_size_ fi) m) Hargs ltac:(by rewrite <- !app_assoc)) as Hset.
  assert (Z.of_nat (length (pre ++ le_encode 4 (code "Call") ++ le_encode 2 f ++ le_encode 2 (Z.of_nat (length args)))) = Z.of_nat (length pre) + 8) as El
    by (rewrite !length_app, !length_le_encode; lia).
  rewrite El in Hset. rewrite Hset. clear Hset.
  destruct (pass_args _ _ _ _ _) as [m'|]; [|done]. cbn [fmap option_fmap option_map lift mbind result_bind rbind].
  destruct (interp _ _ m') as [m''| |]; [|done|done]. cbn [mbind result_bind rbind]. do 2 f_equal.
  unfold instr_size. cbn [encode_instr]. rewrite !length_app, !length_le_encode, length_locals. lia.
Qed.

(** ** One instruction in place *)

(** The code of the module holds the program [p], starting at [base]. *)
Definition holds (base : Z) (p : list item) : Prop :=
  exists pre post, code_ module = pre ++ encode (lower (where_bound 0 p) 0 p) ++ post /\ base = Z.of_nat (length pre).

Lemma holds_item base p done_ it rest : program_ok p -> holds base p -> p = done_ ++ it :: rest ->
  exists pre post, code_ module = pre ++ encode (lower_item (where_bound 0 p) (program_size done_) it) ++ post /\
    base + program_size done_ = Z.of_nat (length pre).
Proof.
  intros Hp (pre & post & Hcode & ->) E. assert (Forall item_ok done_) as Hd.
  { destruct Hp as [Hit _ _ _]. rewrite E in Hit. by apply Forall_app in Hit as [? _]. }
  rewrite E in Hcode at 2. rewrite lower_app, encode_app in Hcode. cbn [lower] in Hcode. rewrite encode_app in Hcode.
  rewrite <- !app_assoc, Z.add_0_l in Hcode. eexists (pre ++ encode (lower (where_bound 0 p) 0 done_)), _. split.
  - rewrite <- app_assoc. exact Hcode.
  - by rewrite length_app, Nat2Z.inj_add, length_lower.
Qed.

Lemma Read_op pre i post : instr_ok i -> code_ module = pre ++ encode_instr i ++ post ->
  Read module 4 (Z.of_nat (length pre)) = Some (instr_code i, Z.of_nat (length pre) + 4).
Proof.
  intros Hok Hcode. unfold Read. rewrite Hcode. destruct i as [b args|f args]; cbn [encode_instr instr_code];
    rewrite <- app_assoc, read_uint_encode by done; cbn [mbind option_bind]; [|done].
  destruct Hok as [Hb _]. change (8 * Z.of_nat 4) with 32. rewrite wrapu_small; [done|by eapply GetOperandTypes_uint32].
Qed.

Lemma run_handler_encode frame m pre b args post h ts name : instr_ok (Plain b args) ->
  code_ module = pre ++ encode_instr (Plain b args) ++ post -> entry b = Some (name, ts) -> handler_of b = Some h ->
  reads_fit (h_reads h) ts = true ->
  run_handler module h frame (Z.of_nat (length pre) + 4) m =
  (fun m => (Z.of_nat (length pre) + instr_size (Plain b args), m)) <$> exec_plain module frame m b args.
Proof.
  intros [Hb Hargs] Hcode He Hh Hfit. unfold run_handler, exec_plain. rewrite Hh. cbn [mbind option_bind].
  assert (types_of b = ts) as Et by (unfold types_of, GetOperandTypes; by rewrite He). rewrite Et in *.
  cbn [encode_instr] in Hcode. rewrite Et, <- app_assoc, app_assoc in Hcode.
  pose proof (read_all_encode frame m (h_reads h) ts args (pre ++ le_encode 4 b) post Hcode Hfit Hargs) as Hr.
  rewrite length_app, length_le_encode, Nat2Z.inj_add in Hr. change (Z.of_nat 4) with 4 in Hr. rewrite Hr.
  destruct (eval_reads _ _ _ _ _) as [vs|]; [|done]. cbn [fmap option_fmap option_map mbind option_bind].
  destruct (h_effect h vs m) as [m'|]; [|done]. cbn [fmap option_fmap option_map mbind option_bind]. do 2 f_equal.
  unfold instr_size. cbn [encode_instr]. rewrite Et, length_app, length_le_encode, Nat2Z.inj_add, length_encode_operands by done. lia.
Qed.

Lemma Peek_encode pre d post : is_sint 32 d -> code_ module = pre ++ le_encode 4 d ++ post ->
  Peek_int32 module (Z.of_nat (length pre)) = Some d.
Proof.
  intros Hd Hcode. unfold Peek_int32. rewrite Hcode, read_sint_encode by (done || lia).
  change (8 * Z.of_nat 4) with 32. by rewrite wraps_small.
Qed.

(** A conditional jump at the operand behind its bytecode. *)
Lemma jump_if_encode frame m pre b c d post taken : is_uint 32 c -> is_sint 32 d ->
  code_ module = pre ++ le_encode 4 b ++ le_encode 4 c ++ le_encode 4 d ++ post ->
  jump_if module taken frame (Z.of_nat (length pre) + 4) m =
  (fun t => if taken t then Z.of_nat (length pre) + 8 + d else Z.of_nat (length pre) + 12) <$> cond_holds frame m c.
Proof.
  intros Hc Hd Hcode. unfold jump_if, cond_holds.
  assert (Read module 4 (Z.of_nat (length pre) + 4) = Some (c, Z.of_nat (length pre) + 8)) as ->.
  { unfold Read. rewrite Hcode, (app_assoc pre), read_uint_encode by (rewrite length_app, length_le_encode; lia).
    cbn [mbind option_bind]. change (8 * Z.of_nat 4) with 32. rewrite wrapu_small by done. do 2 f_equal. lia. }
  cbn [mbind option_bind]. destruct (LocalAt frame bool_t c m) as [v|]; [|done]. cbn [mbind option_bind fmap option_fmap option_map].
  assert (Peek_int32 module (Z.of_nat (length pre) + 8) = Some d) as ->.
  { rewrite (app_assoc pre), (app_assoc _ (le_encode 4 c)) in Hcode. pose proof (Peek_encode _ _ _ Hd Hcode) as Hp.
    rewrite !length_app, !length_le_encode in Hp. rewrite <- Hp. f_equal. lia. }
  cbn [mbind option_bind]. destruct (taken _); [done|].
  assert (exists x, Read module 4 (Z.of_nat (length pre) + 8) = Some (x, Z.of_nat (length pre) + 12)) as [x ->]; [|done].
  eexists. unfold Read. rewrite Hcode, (app_assoc pre), (app_assoc _ (le_encode 4 c)), read_uint_encode by (rewrite !length_app, !length_le_encode; lia).
  cbn [mbind option_bind]. do 2 f_equal. lia.
Qed.

Lemma entry_types b ts : GetOperandTypes b = Some ts -> exists name, entry b = Some (name, ts).
Proof. unfold GetOperandTypes. intros ([name ts'] & He & E)%fmap_Some. simpl in E. subst. by exists name. Qed.

(** The number of a bytecode that moves the instruction pointer. *)
Lemma code_of_name b name ts : entry b = Some (name, ts) -> moves_ip name = true ->
  b = code "Jump" \/ b = code "JumpIfTrue" \/ b = code "JumpIfFalse" \/ b = code "Call" \/ b = code "Return".
Proof.
  assert (forall l k, (fix go (k : Z) (l : list (string * list OperandType)) := match l with
      | [] => true
      | e :: l' => (negb (moves_ip e.1) || (k =? code "Jump") || (k =? code "JumpIfTrue") || (k =? code "JumpIfFalse") ||
                    (k =? code "Call") || (k =? code "Return")) && go (k + 1) l' end) k l = true ->
    forall i e, l !! i = Some e -> moves_ip e.1 = true ->
    k + Z.of_nat i = code "Jump" \/ k + Z.of_nat i = code "JumpIfTrue" \/ k + Z.of_nat i = code "JumpIfFalse" \/
    k + Z.of_nat i = code "Call" \/ k + Z.of_nat i = code "Return") as Hgen.
  { induction l as [|e0 l IH]; intros k Hk i e Hi Hm; [done|]. apply andb_true_iff in Hk as [Hk Hl].
    destruct i as [|i]; simpl in Hi.
    - injection Hi as ->. rewrite Hm, Z.add_0_r in *. simpl negb in Hk. rewrite orb_false_l, !orb_true_iff, !Z.eqb_eq in Hk. tauto.
    - replace (k + Z.of_nat (S i)) with (k + 1 + Z.of_nat i) by lia. by eapply IH. }
  intros He Hm. unfold entry in He. destruct (Z.leb_spec 0 b) as [Hb|]; [|done].
  assert (Z.of_nat (Z.to_nat b) = b) as Eb by lia. rewrite <- Eb, <- (Z.add_0_l (Z.of_nat _)).
  eapply (Hgen BYTECODE_LIST 0); [vm_compute; reflexivity|done|done].
Qed.

Lemma plain_not_call b args : instr_ok (Plain b args) -> b <> code "Call".
Proof. intros Hok ->. apply (instr_types_no_count _ _ Hok). unfold types_of. rewrite call_types. simpl. right. left. Qed.

(** ** The simulation *)

Lemma run_step_plain frame m base p done_ b args rest : program_ok p -> holds base p -> p = done_ ++ Ins (Plain b args) :: rest ->
  b <> code "Return" -> IsJump b = false -> forall fuel,
  Interpret module (S fuel) (base + program_size done_) frame m =
  m ← lift (exec_plain module frame m b args); Interpret module fuel (base + program_size (done_ ++ [Ins (Plain b args)])) frame m.
Proof.
  intros Hp Hh E Hr Hj fuel. destruct (holds_item base p done_ _ rest Hp Hh E) as (pre & post & Hcode & Hbase).
  pose proof (program_ok_item _ _ _ _ Hp E) as Hok. cbn [lower_item] in Hok, Hcode. apply Forall_cons in Hok as [Hok _].
  rewrite encode_one in Hcode. cbn [Interpret]. rewrite Hbase, (Read_op _ _ _ Hok Hcode). cbn [lift mbind result_bind rbind instr_code].
  pose proof (plain_not_call _ _ Hok) as Hc. unfold IsJump, IsConditionalJump, IsUnconditionalJump in Hj.
  apply orb_false_iff in Hj as [[Hj2 Hj3]%orb_false_iff Hj1]. rewrite Hj1, Hj2, Hj3, (proj2 (Z.eqb_neq b _) Hc), (proj2 (Z.eqb_neq b _) Hr).
  destruct (entry_types b _ (proj1 Hok)) as [name He].
  assert (moves_ip name = false) as Hm.
  { apply not_true_iff_false. intros Hm. apply Z.eqb_neq in Hj1, Hj2, Hj3. pose proof (code_of_name _ _ _ He Hm). tauto. }
  destruct (handler_for b _ name He Hm) as (h & Eh & _ & Hfit). rewrite Eh. cbn [lift mbind result_bind rbind].
  rewrite (run_handler_encode frame m pre b args post h _ name Hok Hcode He Eh Hfit).
  destruct (exec_plain module frame m b args) as [m'|]; [|done]. cbn [fmap option_fmap option_map lift mbind result_bind rbind].
  f_equal. rewrite program_size_app. cbn [program_size foldr item_size]. unfold instr_size. lia.
Qed.

(** Jumping by the distance from its operand arrives at the label. *)
Lemma jump_arrives base p done_ b cond l rest rest' : p = done_ ++ Jmp b cond l :: rest -> after_label l p = Some rest' ->
  exists done', p = done' ++ rest' /\
    base + program_size done_ + (site (program_size done_) cond - program_size done_) +
    distance (where_bound 0 p l) (site (program_size done_) cond) = base + program_size done'.
Proof.
  intros E Hl. destruct (after_label_spec _ _ _ Hl) as (done' & E' & Hw). exists done'. split; [done|].
  rewrite (Hw 0). cbn [distance]. lia.
Qed.

Lemma run_step_jmp frame m base p done_ b cond l rest : program_ok p -> holds base p -> p = done_ ++ Jmp b cond l :: rest ->
  forall fuel r,
  (taken ← lift (match cond with
                 | None => if b =? code "Jump" then Some true else None
                 | Some c => t ← cond_holds frame m c;
                             if b =? code "JumpIfTrue" then Some t
                             else if b =? code "JumpIfFalse" then Some (negb t) else None
                 end);
   rest ← lift (if (taken : bool) then after_label l p else Some rest); r rest) <> Undefined ->
  exists done' rest', p = done' ++ rest' /\
  Interpret module (S fuel) (base + program_size done_) frame m = Interpret module fuel (base + program_size done') frame m /\
  (taken ← lift (match cond with
                 | None => if b =? code "Jump" then Some true else None
                 | Some c => t ← cond_holds frame m c;
                             if b =? code "JumpIfTrue" then Some t
                             else if b =? code "JumpIfFalse" then Some (negb t) else None
                 end);
   rest ← lift (if (taken : bool) then after_label l p else Some rest); (r rest : result memory)) = r rest'.
Proof.
  intros Hp Hh E fuel r Hnu. destruct (holds_item base p done_ _ rest Hp Hh E) as (pre & post & Hcode & Hbase).
  pose proof (program_ok_item _ _ _ _ Hp E) as Hok. cbn [lower_item] in Hok, Hcode. apply Forall_cons in Hok as [Hok _].
  rewrite encode_one in Hcode. assert (item_ok (Jmp b cond l)) as [Hb Hc].
  { destruct Hp as [Hit _ _ _]. rewrite E in Hit. apply Forall_app in Hit as [_ Hit]. by apply Forall_cons in Hit as [? _]. }
  set (d := distance (where_bound 0 p l) (site (program_size done_) cond)) in *.
  assert (is_sint 32 d) as Hd.
  { destruct Hok as [_ Hok]. unfold types_of in Hok. rewrite Hb in Hok. cbn [default] in Hok. unfold jump_types in Hok.
    apply Forall2_app_inv in Hok as [_ Hok]; [|by rewrite length_map]. by inversion Hok. }
  assert (p = (done_ ++ [Jmp b cond l]) ++ rest) as Enext by (by rewrite <- app_assoc).
  assert (forall rest', after_label l p = Some rest' -> exists done', p = done' ++ rest' /\
    Z.of_nat (length pre) + 4 + 4 * Z.of_nat (length (cond_args cond)) + d = base + program_size done') as Harr.
  { intros rest' Hl. destruct (jump_arrives base p done_ b cond l rest rest' E Hl) as (done' & E' & Hpos). exists done'.
    split; [done|]. rewrite <- Hpos, <- Hbase. fold d. unfold site. lia. }
  pose proof (Read_op _ _ _ Hok Hcode) as Hop. cbn [instr_code] in Hop. rewrite Hbase. rewrite encode_jump in Hcode by done.
  cbn [Interpret]. rewrite Hop. cbn [lift mbind result_bind rbind].
  destruct cond as [c|]; cbn [cond_args length] in *.
  - unfold jump_head in Hcode. cbn [cond_args map concat] in Hcode. rewrite app_nil_r, <- !app_assoc in Hcode.
    apply Forall_cons in Hc as [Hc _].
    destruct (cond_holds frame m c) as [t|] eqn:Et; [|done]. cbn [mbind option_bind].
    assert (forall taken, jump_if module taken frame (Z.of_nat (length pre) + 4) m =
      Some (if taken t then Z.of_nat (length pre) + 8 + d else Z.of_nat (length pre) + 12)) as Hji.
    { intros taken. by rewrite (jump_if_encode frame m pre b c d post taken Hc Hd Hcode), Et. }
    assert (Z.of_nat (length pre) + 12 = base + program_size (done_ ++ [Jmp b (Some c) l])) as Eskip.
    { rewrite program_size_app. cbn [program_size foldr item_size cond_args length]. lia. }
    assert (forall taken : bool, (rest' ← lift (if taken then after_label l p else Some rest); r rest') <> Undefined ->
      exists done' rest', p = done' ++ rest' /\
      (if taken then Z.of_nat (length pre) + 8 + d else Z.of_nat (length pre) + 12) = base + program_size done' /\
      (rest' ← lift (if taken then after_label l p else Some rest); r rest') = r rest') as Hgoal.
    { intros [] Hn; [|exists (done_ ++ [Jmp b (Some c) l]), rest; done].
      destruct (after_label l p) as [rest'|]; [|done]. destruct (Harr rest' eq_refl) as (done' & E' & Hpos).
      exists done', rest'. split; [done|]. split; [|done]. rewrite <- Hpos. lia. }
    destruct (b =? code "JumpIfTrue") eqn:Ht.
    + apply Z.eqb_eq in Ht. subst b. change (code "JumpIfTrue" =? code "Jump") with false.
      rewrite Hji. cbn [lift mbind result_bind rbind] in *. unfold OpJumpIfTrue.
      destruct (Hgoal t Hnu) as (done' & rest' & E' & -> & ->). by exists done', rest'.
    + destruct (b =? code "JumpIfFalse") eqn:Hf; [|done].
      apply Z.eqb_eq in Hf. subst b. change (code "JumpIfFalse" =? code "Jump") with false.
      rewrite Hji. cbn [lift mbind result_bind rbind] in *. unfold OpJumpIfFalse.
      destruct (Hgoal (negb t) Hnu) as (done' & rest' & E' & -> & ->). by exists done', rest'.
  - destruct (b =? code "Jump") eqn:Hj; [|done]. unfold jump_head in Hcode. cbn [cond_args map concat] in Hcode.
    rewrite app_nil_r, <- !app_assoc in Hcode. rewrite app_assoc in Hcode. pose proof (Peek_encode _ _ _ Hd Hcode) as Hpk.
    rewrite length_app, length_le_encode, Nat2Z.inj_add in Hpk. change (Z.of_nat 4) with 4 in Hpk. rewrite Hpk.
    cbn [lift mbind result_bind rbind] in *. destruct (after_label l p) as [rest'|] eqn:El; [|done].
    destruct (Harr rest' eq_refl) as (done' & E' & Hpos). exists done', rest'. split; [done|]. split; [|done].
    unfold OpJump. f_equal. lia.
Qed.

Lemma run_interpret base p : program_ok p -> holds base p -> forall frame fuel done_ rest m, p = done_ ++ rest ->
  run module p frame fuel rest m <> Undefined ->
  Interpret module fuel (base + program_size done_) frame m = run module p frame fuel rest m.
Proof.
  intros Hp Hh frame. induction fuel as [|fuel IH]; intros done_ rest m E Hnu; [done|].
  destruct (strip_labels_spec rest) as (labs & El & Esz).
  assert (p = (done_ ++ labs) ++ strip_labels rest) as E2 by (by rewrite <- app_assoc, <- El).
  assert (program_size (done_ ++ labs) = program_size done_) as Es by (rewrite program_size_app; lia).
  rewrite <- Es. cbn [run] in Hnu |- *. set (done2 := done_ ++ labs) in *.
  destruct (strip_labels rest) as [|it rest2]; [done|]. destruct it as [[b args|f args]|b cond l|l]; [..|done].
  - destruct (b =? code "Return") eqn:Er.
    + apply Z.eqb_eq in Er. subst b. destruct (holds_item base p done2 _ rest2 Hp Hh E2) as (pre & post & Hcode & Hbase).
      pose proof (program_ok_item _ _ _ _ Hp E2) as Hok. cbn [lower_item] in Hok, Hcode. apply Forall_cons in Hok as [Hok _].
      rewrite encode_one in Hcode. cbn [Interpret]. rewrite Hbase, (Read_op _ _ _ Hok Hcode). done.
    + destruct (IsJump b) eqn:Ej; [done|]. apply Z.eqb_neq in Er.
      rewrite (run_step_plain frame m base p done2 b args rest2 Hp Hh E2 Er Ej).
      destruct (exec_plain module frame m b args) as [m'|]; [|done]. cbn [lift mbind result_bind rbind] in *.
      apply IH; [by rewrite <- app_assoc|done].
  - destruct (holds_item base p done2 _ rest2 Hp Hh E2) as (pre & post & Hcode & Hbase).
    pose proof (program_ok_item _ _ _ _ Hp E2) as Hok. cbn [lower_item] in Hok, Hcode. apply Forall_cons in Hok as [Hok _].
    rewrite encode_one in Hcode. cbn [Interpret]. rewrite Hbase, (Read_op _ _ _ Hok Hcode). cbn [lift mbind result_bind rbind instr_code].
    change (code "Call" =? code "Jump") with false. change (code "Call" =? code "JumpIfTrue") with false.
    change (code "Call" =? code "JumpIfFalse") with false. rewrite Z.eqb_refl.
    rewrite (ExecuteCall_encode _ f args frame pre post m Hok Hcode).
    destruct (exec_call _ _ f args frame m) as [m'| |]; [|done|done]. cbn [mbind result_bind rbind] in *.
    rewrite <- Hbase. rewrite <- Z.add_assoc.
    assert (program_size done2 + instr_size (CallI f args) = program_size (done2 ++ [Ins (CallI f args)])) as ->.
    { rewrite program_size_app. cbn [program_size foldr item_size]. unfold instr_size. lia. }
    apply IH; [by rewrite <- app_assoc|done].
  - destruct (run_step_jmp frame m base p done2 b cond l rest2 Hp Hh E2 fuel (fun rest => run module p frame fuel rest m) Hnu)
      as (done' & rest' & E' & Hi & Hr).
    rewrite Hi, Hr in *. by apply IH.
Qed.

End simulation.
