(* ===== verification/BytecodeTheorems.v ===== *)
(** The properties of bytecode: what the emitter writes, what the iterator reads of it, and what the
    virtual machine does with it. *)
From S2P Require Import Prelude Buffer Layout FunctionInfo FunctionInfoSpec Bytecodes BytecodeEmitter BytecodeSpec BytecodeIterator BytecodeIteratorSpec CTypes Memory VmHandlers VM VmSpec.

Lemma count_disassemble fuel : forall it n, option_map (fun l => n + Z.of_nat (length l)) (disassemble fuel it) <> None ->
  count_instructions fuel it n = option_map (fun l => n + Z.of_nat (length l)) (disassemble fuel it).
Proof.
  induction fuel as [|fuel IH]; intros it n; cbn [disassemble count_instructions]; destruct (Done it); simpl; try done.
  - intros _. f_equal. lia.
  - intros _. f_equal. lia.
  - destruct (CurrentBytecode it) as [b|]; [|done]. cbn [mbind option_bind]. destruct (read_operands it) as [a|]; [|done].
    cbn [mbind option_bind]. destruct (Advance it) as [it'|]; [|done]. cbn [mbind option_bind]. intros Hn.
    rewrite (IH it' (n + 1)); destruct (disassemble fuel it'); simpl in *; try done. f_equal. lia.
Qed.

Lemma length_listing pos l : length (listing pos l) = length l.
Proof. revert pos. induction l as [|i l IH]; intros pos; [done|]. cbn [listing length]. by rewrite IH. Qed.

(** * The emitter *)

(** C7: The emitter, called for the items of a program in order - instructions, calls, jumps forward and
    backward, and the binding of labels in between -, succeeds and leaves the encoding of the program in
    which every jump holds the distance from its operand to its label; the labels end up bound to where
    they were bound. *)
Theorem emitter_resolves_labels p : program_ok p ->
  exists labels, emit_items p (no_labels, []) = Some (labels, encode (lower (where_bound 0 p) 0 p)) /\
  forall l, l ∈ targets_of p ->
    exists t, where_bound 0 p l = Some t /\ IsBound (labels l) = true /\ label_offset_ (labels l) = t.
Proof.
  intros [Hit Hnd Htg Hsz]. destruct (emit_program p Hit Hnd Hsz) as ([labels bc] & E & Hbc & Hl). simpl in Hbc, Hl. subst bc.
  exists labels. split; [exact E|]. intros l Hin. specialize (Htg l Hin). specialize (Hl l). unfold label_state in Hl.
  destruct (where_bound 0 p l) as [t|] eqn:Et; [|by apply where_bound_None in Et]. exists t. by destruct Hl.
Qed.

(** C9: Reading the emitted bytes back with the iterator, as the code of a function between other code,
    gives the position, the bytecode and the operands of every instruction in order, and stops at the
    end; a module that holds nothing else counts the instructions. *)
Theorem bytecode_roundtrip p labels bc pre post : program_ok p -> emit_items p (no_labels, []) = Some (labels, bc) ->
  let instrs := lower (where_bound 0 p) 0 p in
  let start := Z.of_nat (length pre) in
  disassemble (length bc) (new_BytecodeIterator (pre ++ bc ++ post) start (start + Z.of_nat (length bc))) =
    Some (listing 0 instrs) /\
  (forall (T : Type) static (functions : list (FunctionInfo T)),
     GetInstructionCount (mkModule bc static functions) = Some (Z.of_nat (length instrs))).
Proof.
  intros Hp Hem instrs start. pose proof (emitted_bytes _ _ _ Hp Hem) as Hbc. fold instrs in Hbc.
  pose proof (program_ok_lower p Hp) as Hok. fold instrs in Hok.
  assert (length instrs <= length bc)%nat as Hlen.
  { rewrite Hbc. clear. induction instrs as [|i l IH]; [simpl; lia|]. unfold encode in *. cbn [map concat length].
    rewrite length_app. assert (1 <= length (encode_instr i))%nat; [|lia].
    destruct i; cbn [encode_instr]; rewrite length_app, length_le_encode; lia. }
  assert (forall pre post, disassemble (length bc) (new_BytecodeIterator (pre ++ bc ++ post) (Z.of_nat (length pre)) (Z.of_nat (length pre) + Z.of_nat (length bc))) = Some (listing 0 instrs)) as Hdis.
  { intros pre' post'. set (it := new_BytecodeIterator _ _ _).
    assert (curr_offset_ it - start_offset_ it = 0) as E0 by apply Z.sub_diag.
    rewrite <- E0. apply (disassemble_spec instrs Hok (length bc) it pre' post'); [|done| |done].
    - subst it. cbn [new_BytecodeIterator bytecodes_]. by rewrite Hbc.
    - subst it. cbn [new_BytecodeIterator end_offset_]. rewrite length_app, Hbc. lia. }
  split; [apply Hdis|]. intros T static functions. unfold GetInstructionCount. cbn [code_].
  specialize (Hdis [] []). rewrite app_nil_r in Hdis. cbn [app length] in Hdis. change (Z.of_nat 0) with 0 in Hdis.
  unfold new_BytecodeIterator_all. rewrite Z.add_0_l in Hdis.
  rewrite count_disassemble, Hdis; [|by rewrite Hdis]. simpl. f_equal.
  by rewrite length_listing.
Qed.

(** * The interpreter *)

(** C4: The interpreter, started at any instruction of a function's code as the emitter wrote it, does what
    the program says: it executes instructions in order, with the operands that were emitted, goes on
    behind the label a jump was given, passes the arguments of a call and returns at [Return], in the
    same number of steps. *)
Theorem interpreter_runs_what_was_emitted `{Runtime, FrameAllocator} {T : Type} `{AlignOps} `{TypeLayout T}
  (module : BytecodeModule T) p labels bc pre post frame fuel before rest m :
  program_ok p -> emit_items p (no_labels, []) = Some (labels, bc) -> code_ module = pre ++ bc ++ post ->
  p = before ++ rest -> run module p frame fuel rest m <> Undefined ->
  Interpret module fuel (Z.of_nat (length pre) + program_size before) frame m = run module p frame fuel rest m.
Proof.
  intros Hp Hem Hcode E Hnu. apply run_interpret; try done.
  exists pre, post. by rewrite (emitted_bytes _ _ _ Hp Hem) in Hcode.
Qed.

(** C29: Every bytecode but the five that move the instruction pointer themselves has the handler of its
    name, which reads exactly the operands the bytecode declares: locals where it declares locals,
    functions, static locals, and immediates of the declared size; so behind it the instruction pointer
    is where the iterator goes, at the next instruction. *)
Theorem handlers_read_what_is_declared `{Runtime, FrameAllocator} {T : Type} `{AlignOps} `{TypeLayout T} (module : BytecodeModule T) :
  length BYTECODE_LIST = (length handlers + 5)%nat /\
  forall b name ts, entry b = Some (name, ts) -> moves_ip name = false ->
  exists h, handler_of b = Some h /\ h_name h = name /\ reads_fit (h_reads h) ts = true /\
  forall args pre post frame m ip m', instr_ok (Plain b args) -> code_ module = pre ++ encode_instr (Plain b args) ++ post ->
    run_handler module h frame (Z.of_nat (length pre) + 4) m = Some (ip, m') ->
    ip = Z.of_nat (length pre) + instr_size (Plain b args) /\
    exists it, Advance (mkIter (code_ module) 0 (Z.of_nat (length (code_ module))) (Z.of_nat (length pre))) = Some it /\ curr_offset_ it = ip.
Proof.
  split; [reflexivity|]. intros b name ts He Hn. destruct (handler_for b ts name He Hn) as (h & Eh & Ename & Hfit).
  exists h. split_and!; [done|done|done|]. intros args pre post frame m ip m' Hok Hcode Hrun.
  rewrite (run_handler_encode module frame m pre b args post h ts name Hok Hcode He Eh Hfit) in Hrun.
  destruct (exec_plain module frame m b args); [|done]. injection Hrun as <- <-. split; [done|].
  unfold Advance. rewrite (at_instr_size _ (Plain b args)); [|done|by exists pre, post]. cbn [mbind option_bind].
  eexists. by split.
Qed.

(** * The operands of every emission *)

(** Every emission writes one instruction whose operands are of the types its bytecode declares, so that
    the iterator and the interpreter read back the values the caller gave - with the proviso that an
    offset or a scale of [Lea] and [LeaScaled], which are emitted as unsigned numbers and declared
    signed, are below 2^31.  For bytecodes the caller chooses, he is to choose one with those operands. *)
Theorem emissions_have_the_declared_operands (a b c d e : LocalVar) (len : Z) (f g : Z) (id : Z) :
  is_uint 32 (bitfield_ a) -> is_uint 32 (bitfield_ b) -> is_uint 32 (bitfield_ c) -> is_uint 32 (bitfield_ d) ->
  is_uint 32 (bitfield_ e) -> is_uint 32 len -> is_uint 16 f -> is_uint 16 g -> is_uint 16 id ->
  let A := bitfield_ a in let B := bitfield_ b in let C := bitfield_ c in let D := bitfield_ d in let E := bitfield_ e in
  (emits (EmitDerefN a b len) (Plain (code "DerefN") [A; B; len]) /\
   emits (EmitAssignN a b len) (Plain (code "AssignN") [A; B; len]) /\
   emits (EmitAssignImm4F a len) (Plain (code "AssignImm4F") [A; len]) /\
   emits (EmitInitString a b len) (Plain (code "InitString") [A; B; len]) /\
   emits (EmitThreadStateContainerIterate a b f) (Plain (code "ThreadStateContainerIterate") [A; B; f]) /\
   emits (EmitThreadStateContainerReset a b f g c) (Plain (code "ThreadStateContainerReset") [A; B; f; g; C]) /\
   emits (EmitParallelTableScan id a b f) (Plain (code "ParallelScanTable") [id; A; B; f]) /\
   emits (EmitFilterManagerInsertFilter a f) (Plain (code "FilterManagerInsertFilter") [A; f]) /\
   emits (EmitJoinHashTableInit a b c f g) (Plain (code "JoinHashTableInit2") [A; B; C; f; g]) /\
   emits (EmitAggHashTableProcessBatch a b len c f g d) (Plain (code "AggregationHashTableProcessBatch") [A; B; len; C; f; g; D]) /\
   emits (EmitAggHashTableMovePartitions a b c f) (Plain (code "AggregationHashTableTransferPartitions") [A; B; C; f]) /\
   emits (EmitAggHashTableParallelPartitionedScan a b c f) (Plain (code "AggregationHashTableParallelPartitionedScan") [A; B; C; f]) /\
   emits (EmitCSVReaderInit a b len) (Plain (code "CSVReaderInit") [A; B; len]) /\
   emits (EmitConcat a b c len) (Plain (code "Concat") [A; B; C; len]) /\
   emits EmitReturn (Plain (code "Return") [])) /\
  (forall v, is_sint 8 v -> emits (EmitAssignImm1 a v) (Plain (code "AssignImm1") [A; v])) /\
  (forall v, is_sint 16 v -> emits (EmitAssignImm2 a v) (Plain (code "AssignImm2") [A; v])) /\
  (forall v, is_sint 32 v -> emits (EmitAssignImm4 a v) (Plain (code "AssignImm4") [A; v])) /\
  (forall v, is_sint 64 v -> emits (EmitAssignImm8 a v) (Plain (code "AssignImm8") [A; v])) /\
  (forall v, is_uint 64 v -> emits (EmitAssignImm8F a v) (Plain (code "AssignImm8F") [A; v])) /\
  (forall offset, 0 <= offset < 2 ^ 31 -> emits (EmitLea a b offset) (Plain (code "Lea") [A; B; offset])) /\
  (forall scale offset, 0 <= scale < 2 ^ 31 -> 0 <= offset < 2 ^ 31 ->
     emits (EmitLeaScaled a b c scale offset) (Plain (code "LeaScaled") [A; B; C; scale; offset])) /\
  (forall params, Z.of_nat (length params) < 2 ^ 16 -> Forall (fun v => is_uint 32 (bitfield_ v)) params ->
     emits (EmitCall f params) (CallI f (map bitfield_ params))) /\
  (forall op, GetOperandTypes op = Some [Local; Local] ->
     emits (EmitDeref op a b) (Plain op [A; B]) /\ emits (EmitAssign op a b) (Plain op [A; B]) /\
     emits (EmitUnaryOp op a b) (Plain op [A; B])) /\
  (forall op, GetOperandTypes op = Some [Local; Local; Local] -> emits (EmitBinaryOp op a b c) (Plain op [A; B; C])) /\
  (forall op, GetOperandTypes op = Some [Local; UImm2] -> emits (EmitTableIterInit op a id) (Plain op [A; id])) /\
  (forall op, GetOperandTypes op = Some [Local; Local; UImm4] ->
     emits (EmitVPIGet op a b len) (Plain op [A; B; len]) /\ emits (EmitVPISet op a b len) (Plain op [A; B; len])) /\
  (forall op, GetOperandTypes op = Some [Local; Local; FunctionId; Local] -> emits (EmitSorterInit op a b f c) (Plain op [A; B; f; C])) /\
  (forall op vs, vs = [a] \/ vs = [a; b] \/ vs = [a; b; c] \/ vs = [a; b; c; d] \/ vs = [a; b; c; d; e] ->
     GetOperandTypes op = Some (map (fun _ => Local) vs) -> emits (Emit op vs) (Plain op (map bitfield_ vs))).
Proof.
  intros Ha Hb Hc Hd He Hlen Hf Hg Hid A B C D E.
  assert (forall z, 0 <= z < 2 ^ 31 -> is_uint 32 z /\ is_sint 32 z) as H31.
  { intros z Hz. unfold is_uint, is_sint. change (2 ^ (32 - 1)) with (2 ^ 31). change (2 ^ 32) with (2 * 2 ^ 31). lia. }
  split; [split_and!; try emission|split_and!].
  - pose proof (emits_args (code "Return") [] [] [] ltac:(vm_compute; reflexivity) ltac:(constructor) eq_refl) as [Hok Hr].
    split; [exact Hok|]. intros bc. rewrite <- Hr. reflexivity.
  - intros v Hv. emission.
  - intros v Hv. emission.
  - intros v Hv. emission.
  - intros v Hv. emission.
  - intros v Hv. emission.
  - intros z [Hu Hs]%H31. emission.
  - intros z z' [Hu Hs]%H31 [Hu' Hs']%H31. emission.
  - intros params Hn Hps. split.
    + split_and!; [done|rewrite length_map; split; lia|by apply Forall_map].
    + intros bc. rewrite EmitCall_bytes. cbn [encode_instr]. by rewrite length_map, map_map.
  - intros op Hop. split_and!; unfold EmitDeref, EmitAssign, EmitUnaryOp; emission.
  - intros op Hop. unfold EmitBinaryOp. emission.
  - intros op Hop. unfold EmitTableIterInit. emission.
  - intros op Hop. split; unfold EmitVPIGet, EmitVPISet; emission.
  - intros op Hop. unfold EmitSorterInit. emission.
  - intros op vs Hvs Hop. apply emits_locals; [done|].
    destruct Hvs as [->|[->|[->|[->| ->]]]]; repeat (apply Forall_cons; split; [assumption|]); by apply Forall_nil.
Qed.

(** * A program: [i = 3; while (i > 0) { i = i - 1 }] *)

Definition sample_local (offset : Z) : Z := bitfield_ (new_LocalVar offset Value).
Definition sample_address (offset : Z) : Z := bitfield_ (new_LocalVar offset Address).
#[local] Existing Instances sample_align sample_layout.
Definition sample_program : list item :=
  [Ins (Plain (code "AssignImm4") [sample_address 0; 3]);
   Ins (Plain (code "AssignImm4") [sample_address 4; 1]);
   Ins (Plain (code "AssignImm4") [sample_address 8; 0]);
   Lab 0;
   Ins (Plain (code "GreaterThan_int32_t") [sample_address 12; sample_local 0; sample_local 8]);
   Jmp (code "JumpIfFalse") (Some (sample_local 12)) 1;
   Ins (Plain (code "Sub_int32_t") [sample_address 0; sample_local 0; sample_local 4]);
   Jmp (code "Jump") None 0;
   Lab 1;
   Ins (Plain (code "Return") [])].
#[local] Instance sample_runtime : Runtime :=
  {| runtime _ _ m := Some m; countLeadingZeros _ _ := 0; countTrailingZeros _ _ := 0 |}.
#[local] Instance sample_frames : FrameAllocator := {| frame_address _ _ := 4096; garbage _ := 0 |}.
Definition sample_bytecode : list Z := encode (lower (where_bound 0 sample_program) 0 sample_program).
Definition sample_module : BytecodeModule sample_type := mkModule sample_bytecode 0 [].
Definition sample_memory : memory := allocate garbage 4096 16 ∅.
Definition sample_frame : Frame := mkFrame 4096 16.

Lemma sample_program_ok : program_ok sample_program.
Proof.
  constructor.
  - assert (forall b ts args, GetOperandTypes b = Some ts -> Forall2 operand_ok ts args -> item_ok (Ins (Plain b args))) as Hi.
    { intros b ts args Hb Ha. cbn [item_ok instr_ok]. unfold types_of. by rewrite Hb. }
    assert (forall b c l, GetOperandTypes b = Some (jump_types c) -> Forall (is_uint 32) (cond_args c) -> item_ok (Jmp b c l)) as Hj by done.
    unfold sample_program. repeat (apply Forall_cons; split); try apply Forall_nil; try exact I;
      first [eapply Hi; [vm_compute; reflexivity|]|eapply Hj; [vm_compute; reflexivity|]]; unfold cond_args;
      repeat (first [apply Forall2_cons|apply Forall_cons]; split); first [apply Forall2_nil|apply Forall_nil|idtac]; done.
  - vm_compute. repeat constructor; set_solver.
  - intros l. vm_compute. set_solver.
  - reflexivity.
Qed.

Lemma emitter_resolves_labels_witness : exists labels,
  emit_items sample_program (no_labels, []) = Some (labels, sample_bytecode) /\ label_offset_ (labels 1%nat) = 88.
Proof.
  destruct (emitter_resolves_labels sample_program sample_program_ok) as (labels & E & Hl).
  exists labels. split; [exact E|].
  assert (1%nat ∈ targets_of sample_program) as H1 by (vm_compute; left).
  destruct (Hl 1%nat H1) as (t & Et & _ & ->).
  vm_compute in Et. by injection Et as <-.
Defined.

Lemma bytecode_roundtrip_witness : 
  disassemble (length sample_bytecode) (new_BytecodeIterator ([7; 7; 7; 7] ++ sample_bytecode ++ [9]) 4 (4 + Z.of_nat (length sample_bytecode))) =
    Some (listing 0 (lower (where_bound 0 sample_program) 0 sample_program)).
Proof.
  destruct (emit_items sample_program (no_labels, [])) as [[labels bc]|] eqn:E; [|exfalso; vm_compute in E; discriminate].
  pose proof (emitted_bytes _ _ _ sample_program_ok E) as Hbc. fold sample_bytecode in Hbc. subst bc.
  exact (proj1 (bytecode_roundtrip sample_program labels sample_bytecode [7; 7; 7; 7] [9] sample_program_ok E)).
Defined.

Lemma interpreter_runs_what_was_emitted_witness : exists m,
  Interpret sample_module 30 0 sample_frame sample_memory = Ok m /\ load 4 4096 m = Some 0.
Proof.
  destruct (emit_items sample_program (no_labels, [])) as [[labels bc]|] eqn:E; [|exfalso; vm_compute in E; discriminate].
  pose proof (emitted_bytes _ _ _ sample_program_ok E) as Hbc. fold sample_bytecode in Hbc. subst bc.
  assert (exists m, run sample_module sample_program sample_frame 30 sample_program sample_memory = Ok m /\
    load 4 4096 m = Some 0) as (m & Hm & Hv) by (eexists; vm_compute; split; reflexivity).
  exists m. split; [|exact Hv]. rewrite <- Hm.
  apply (interpreter_runs_what_was_emitted sample_module sample_program labels sample_bytecode [] []
    sample_frame 30 [] sample_program sample_memory sample_program_ok E); [by rewrite app_nil_r|done|by rewrite Hm].
Defined.

Lemma handlers_read_what_is_declared_witness : exists h,
  handler_of (code "Sub_int32_t") = Some h /\ reads_fit (h_reads h) [Local; Local; Local] = true.
Proof.
  destruct (proj2 (handlers_read_what_is_declared sample_module) (code "Sub_int32_t")
    "Sub_int32_t"%string [Local; Local; Local] ltac:(vm_compute; reflexivity) ltac:(reflexivity)) as (h & Hh & _ & Hf & _).
  exists h. by split.
Defined.

Lemma emissions_have_the_declared_operands_witness :
  let v := new_LocalVar 16 Value in EmitDerefN v v 24 [] = encode_instr (Plain (code "DerefN") [bitfield_ v; bitfield_ v; 24]).
Proof.
  intros v. assert (is_uint 32 (bitfield_ v)) as Hv by done.
  exact (proj2 (proj1 (proj1 (emissions_have_the_declared_operands v v v v v 24 1 2 3 Hv Hv Hv Hv Hv ltac:(done) ltac:(done) ltac:(done) ltac:(done)))) []).
Defined.
