(* ===== verification/GeneratorState.v ===== *)
(** The state of the bytecode generator, what its visitors pass to each other, and its helpers:
    [src/include/vm/bytecode_generator.h] and the ends of [src/vm/bytecode_generator.cpp].

    The generator is a state monad; [None] is a null pointer that is followed, a cast that does not hold,
    code marked unreachable, or the exception for a cast that is not implemented.  The assertions, which
    a release build leaves out, are left out.  The tables of the catalog are a parameter, [Catalog]. *)
From stdpp Require Import pretty.
From S2P Require Import Prelude Token Ast BitUtil Layout Types TypedAst Bytecodes FunctionInfo BytecodeEmitter.

(** [Catalog::LookupTableByName], as the id of the table. *)
Class Catalog := { LookupTableByName : Identifier -> option Z }.

(** The text of an identifier, and the string it is. *)
Fixpoint string_of (id : Identifier) : string :=
  match id with [] => EmptyString | c :: id' => String (ascii_of_N (Z.to_N (wrapu 8 c))) (string_of id') end.
(** The null identifier has no text. *)
Definition Identifier_ToString (id : option Identifier) : option string := string_of <$> id.

(** * The state *)

(** [Expression::Context], and [ExpressionResultScope]: how the result of the expression is used, and
    where it is. *)
Inductive ExpressionContext : Set := LValue | RValue.
Record ExpressionResultScope := mkResultScope { destination_ : LocalVar; kind_ : ExpressionContext }.

Record BytecodeGenerator := mkGenerator {
  data_ : list Z;
  bytecode_ : list Z;   (** [code_] *)
  static_locals_ : list (LocalInfo TplType);
  static_locals_versions_ : gmap string Z;
  static_string_cache_ : gmap Identifier LocalVar;
  gen_functions_ : list (FunctionInfo TplType);   (** [functions_] *)
  func_map_ : gmap string Z;
  execution_result_ : option ExpressionResultScope
}.
Definition new_BytecodeGenerator : BytecodeGenerator := mkGenerator [] [] [] ∅ ∅ [] ∅ None.

Definition Gen (A : Type) : Type := BytecodeGenerator -> option (A * BytecodeGenerator).
#[export] Instance Gen_ret : MRet Gen := fun A a s => Some (a, s).
#[export] Instance Gen_bind : MBind Gen := fun A B k m s => match m s with Some (a, s') => k a s' | None => None end.

Definition undefined {A} : Gen A := fun _ => None.
Definition unreachable {A} : Gen A := undefined.
Definition the {A} (o : option A) : Gen A := match o with Some a => mret a | None => undefined end.
Definition gets {A} (f : BytecodeGenerator -> A) : Gen A := fun s => Some (f s, s).
Definition update (f : BytecodeGenerator -> BytecodeGenerator) : Gen unit := fun s => Some (tt, f s).

Definition set_bytecode (c : list Z) (s : BytecodeGenerator) : BytecodeGenerator :=
  mkGenerator (data_ s) c (static_locals_ s) (static_locals_versions_ s) (static_string_cache_ s) (gen_functions_ s)
    (func_map_ s) (execution_result_ s).
Definition set_functions (fs : list (FunctionInfo TplType)) (s : BytecodeGenerator) : BytecodeGenerator :=
  mkGenerator (data_ s) (bytecode_ s) (static_locals_ s) (static_locals_versions_ s) (static_string_cache_ s) fs
    (func_map_ s) (execution_result_ s).
Definition set_func_map (m : gmap string Z) (s : BytecodeGenerator) : BytecodeGenerator :=
  mkGenerator (data_ s) (bytecode_ s) (static_locals_ s) (static_locals_versions_ s) (static_string_cache_ s)
    (gen_functions_ s) m (execution_result_ s).
Definition set_result (r : option ExpressionResultScope) (s : BytecodeGenerator) : BytecodeGenerator :=
  mkGenerator (data_ s) (bytecode_ s) (static_locals_ s) (static_locals_versions_ s) (static_string_cache_ s)
    (gen_functions_ s) (func_map_ s) r.

(** * Emitting

    The emitter works on [code_]. *)

Definition emit (f : list Z -> list Z) : Gen unit := update (fun s => set_bytecode (f (bytecode_ s)) s).
(** An operation of the emitter that changes a label or a builder, and one that may fail. *)
Definition emit_with {A} (f : list Z -> A * list Z) : Gen A :=
  fun s => let '(a, c) := f (bytecode_ s) in Some (a, set_bytecode c s).
Definition emit_opt {A} (f : list Z -> option (A * list Z)) : Gen A :=
  fun s => match f (bytecode_ s) with Some (a, c) => Some (a, set_bytecode c s) | None => None end.
Definition emit_end (f : list Z -> option (list Z)) : Gen unit :=
  fun s => match f (bytecode_ s) with Some c => Some (tt, set_bytecode c s) | None => None end.
Definition Emit_op (name : string) (operands : list LocalVar) : Gen unit := emit (Emit (code name) operands).

(** * The current function: the last one *)

Section layout.
Context `{AlignOps, CppClasses}.

Definition GetCurrentFunction : Gen (FunctionInfo TplType) := fs ← gets gen_functions_; the (last fs).
Definition NewLocal_named (type : TplType) (name : string) : Gen LocalVar := fun s =>
  match last (gen_functions_ s) with
  | Some f => let '(local, f) := NewLocal f type name in
              Some (local, set_functions (removelast (gen_functions_ s) ++ [f]) s)
  | None => None
  end.
(** A temporary. *)
Definition NewTemp (type : TplType) : Gen LocalVar := NewLocal_named type EmptyString.

(** * The result of an expression *)

Definition GetExecutionResult : Gen ExpressionResultScope := r ← gets execution_result_; the r.
Definition IsLValue : Gen bool := r ← GetExecutionResult; mret match kind_ r with LValue => true | RValue => false end.
Definition IsRValue : Gen bool := r ← GetExecutionResult; mret match kind_ r with RValue => true | LValue => false end.
Definition GetDestination : Gen LocalVar := r ← GetExecutionResult; mret (destination_ r).
Definition HasDestination : Gen bool := d ← GetDestination; mret (negb (IsInvalid d)).
Definition SetDestination (d : LocalVar) : Gen unit :=
  r ← GetExecutionResult; update (set_result (Some (mkResultScope d (kind_ r)))).
Definition GetOrCreateDestination (type : option TplType) : Gen LocalVar :=
  has ← HasDestination;
  if (has : bool) then GetDestination
  else type ← the type; local ← NewTemp type; SetDestination local;; mret local.
(** [caller_wants_result]. *)
Definition HasExecutionResult : Gen bool := r ← gets execution_result_; mret (bool_decide (is_Some r)).

(** A scope object lives while its block runs; its destination is what is asked of it then. *)
Definition in_result_scope (kind : ExpressionContext) (destination : LocalVar) (visit : Gen unit) : Gen LocalVar :=
  outer ← gets execution_result_;
  update (set_result (Some (mkResultScope destination kind)));;
  visit;;
  d ← GetDestination;
  update (set_result outer);;
  mret d.
Definition VisitExpressionForLValue (visit : Gen unit) : Gen LocalVar := in_result_scope LValue invalid_LocalVar visit.
Definition VisitExpressionForRValue (visit : Gen unit) : Gen LocalVar := in_result_scope RValue invalid_LocalVar visit.
Definition VisitExpressionForRValue_into (visit : Gen unit) (dest : LocalVar) : Gen unit :=
  in_result_scope RValue dest visit;; mret tt.
Definition VisitExpressionForSQLValue (visit : Gen unit) : Gen LocalVar := VisitExpressionForLValue visit.

Inductive TestFallthrough : Set := FallNone | FallThen | FallElse.
Definition VisitExpressionForTest (visit : Gen unit) (then_label else_label : BytecodeLabel) (fallthrough : TestFallthrough)
  : Gen (BytecodeLabel * BytecodeLabel) :=
  cond ← VisitExpressionForRValue visit;
  match fallthrough with
  | FallThen =>
      else_label ← emit_with (EmitConditionalJump (code "JumpIfFalse") cond else_label); mret (then_label, else_label)
  | FallElse =>
      then_label ← emit_with (EmitConditionalJump (code "JumpIfTrue") cond then_label); mret (then_label, else_label)
  | FallNone =>
      else_label ← emit_with (EmitConditionalJump (code "JumpIfFalse") cond else_label);
      then_label ← emit_with (EmitJump (code "Jump") then_label);
      mret (then_label, else_label)
  end.

(** * Copies *)

Definition BuildAssign (dest val : LocalVar) (dest_type : option TplType) : Gen unit :=
  type ← the dest_type;
  let size := GetSize type in
  emit (if size =? 1 then EmitAssign (code "Assign1") dest val
        else if size =? 2 then EmitAssign (code "Assign2") dest val
        else if size =? 4 then EmitAssign (code "Assign4") dest val
        else if size =? 8 then EmitAssign (code "Assign8") dest val
        else EmitAssignN dest val size).
Definition BuildDeref (dest ptr : LocalVar) (dest_type : option TplType) : Gen unit :=
  type ← the dest_type;
  let size := GetSize type in
  emit (if size =? 1 then EmitDeref (code "Deref1") dest ptr
        else if size =? 2 then EmitDeref (code "Deref2") dest ptr
        else if size =? 4 then EmitDeref (code "Deref4") dest ptr
        else if size =? 8 then EmitDeref (code "Deref8") dest ptr
        else EmitDerefN dest ptr size).
Definition BuildLoadPointer (double_ptr : LocalVar) (type : TplType) : Gen LocalVar :=
  if decide (GetAddressMode double_ptr = Address) then mret (ValueOf double_ptr)
  else ptr ← NewTemp type; emit (EmitDeref (code "Deref8") ptr double_ptr);; mret (ValueOf ptr).

(** * Bytecodes by type *)

(** The enumeration of the integer kinds goes on to 128 bits, that of the bytecodes does not. *)
Definition GetIntTypedBytecode (bytecode : Z) (type : option TplType) (sign : bool) : Gen Z :=
  type ← the type;
  match type with
  | BuiltinType k =>
      let kind_idx := Z.of_nat (kind_index k) - Z.of_nat (kind_index (if sign then Int8 else UInt8)) in
      mret (wrapu 32 (bytecode + kind_idx))
  | _ => undefined
  end.
Definition GetFloatTypedBytecode (bytecode : Z) (type : option TplType) : Gen Z :=
  type ← the type;
  match type with
  | BuiltinType k => mret (wrapu 32 (bytecode + wrapu 8 (Z.of_nat (kind_index k) - Z.of_nat (kind_index Float32))))
  | _ => undefined
  end.
(** [GET_BASE_FOR_INT_TYPES] and its like are the bytecode at the first type. *)
Definition int_base (op : string) : Z := code (typed op "int8_t").
Definition uint_base (op : string) : Z := code (typed op "uint8_t").
Definition float_base (op : string) : Z := code (typed op "float").
Definition MATH_BYTECODE (op : string) (type : option TplType) : Gen Z :=
  t ← the type;
  if IsIntegerType t then GetIntTypedBytecode (int_base op) type true else GetFloatTypedBytecode (float_base op) type.
Definition COMPARISON_BYTECODE (op : string) (type : option TplType) : Gen Z :=
  t ← the type;
  if IsIntegerType t then GetIntTypedBytecode (int_base op) type true
  else if IsFloatType t then GetFloatTypedBytecode (float_base op) type
  else mret (code (typed op "bool")).

(** * Functions *)

Definition kInvalidFuncId : Z := 2 ^ 16 - 1.
Definition LookupFuncIdByName (name : string) : Gen Z := m ← gets func_map_; mret (default kInvalidFuncId (m !! name)).

(** The parameters of a function have names. *)
Fixpoint new_parameters (f : FunctionInfo TplType) (params : list (option Identifier * TplType)) : option (FunctionInfo TplType) :=
  match params with
  | [] => Some f
  | (name, type) :: params' =>
      name ← Identifier_ToString name; let '(_, f) := NewParameterLocal f type name in new_parameters f params'
  end.
Definition AllocateFunc (func_name : string) (params : list (option Identifier * TplType)) (return_type : TplType) : Gen unit :=
  fs ← gets gen_functions_;
  let func_id := wrapu 16 (Z.of_nat (length fs)) in
  let func := new_FunctionInfo func_id func_name in
  let func := if IsNilType return_type then func else (NewParameterLocal func (PointerTo return_type) "hiddenRv").2 in
  func ← the (new_parameters func params);
  update (set_functions (fs ++ [func]));;
  m ← gets func_map_;
  update (set_func_map (<[func_name := func_id]> m)).

(** [BytecodePositionScope]: its end sets the range of the function, which it knows by address; the
    address is good while no other function has been added. *)
Definition in_position_scope (visit : Gen unit) : Gen unit :=
  fs ← gets gen_functions_;
  start ← gets (fun s => GetPosition (bytecode_ s));
  visit;;
  end_ ← gets (fun s => GetPosition (bytecode_ s));
  fs' ← gets gen_functions_;
  if decide (length fs' = length fs) then
    func ← GetCurrentFunction;
    update (set_functions (removelast fs' ++ [SetBytecodeRange func start end_]))
  else undefined.

(** * Static data *)

(** The contents have as many bytes as the type, or more. *)
Definition NewStatic (name : string) (type : TplType) (contents : list Z) : Gen LocalVar :=
  data ← gets data_;
  let size := Z.of_nat (length data) in
  let offset := if negb (IsAligned size (GetAlignment type)) then AlignTo size (GetAlignment type) else size in
  let n := Z.to_nat (GetSize type) in
  (if Nat.leb n (length contents) then mret tt else undefined);;
  versions ← gets static_locals_versions_;
  let version := default 0 (versions !! name) in
  update (fun s =>
    mkGenerator (data ++ replicate (Z.to_nat (offset - size)) 0 ++ take n contents) (bytecode_ s)
      (static_locals_ s ++ [new_LocalInfo (name +:+ "_" +:+ pretty version) type (wrapu 32 offset) Var])
      (<[name := wrapu 32 (version + 1)]> versions) (static_string_cache_ s) (gen_functions_ s) (func_map_ s)
      (execution_result_ s));;
  mret (new_LocalVar (wrapu 32 offset) Address).

(** The text of an identifier is followed by a zero. *)
Definition NewStaticString (string : Identifier) : Gen LocalVar :=
  cache ← gets static_string_cache_;
  match cache !! string with
  | Some local => mret (new_LocalVar (GetOffset local) Address)
  | None =>
      let type := ArrayType (Z.of_nat (length string)) (BuiltinType UInt8) in
      static_local ← NewStatic "stringConst" type (string ++ [0]);
      update (fun s => mkGenerator (data_ s) (bytecode_ s) (static_locals_ s) (static_locals_versions_ s)
                         (<[string := static_local]> (static_string_cache_ s)) (gen_functions_ s) (func_map_ s) (execution_result_ s));;
      mret static_local
  end.

End layout.
