(* ===== verification/GeneratorBuiltins.v ===== *)
(** Code for the calls of builtin functions: [BytecodeGenerator::VisitBuiltinCallExpression] and the
    methods it dispatches to, [src/vm/bytecode_generator.cpp].

    An argument is a node with the visit of it; a call has the type the checker gave it. *)
From S2P Require Import Prelude Token Ast BitUtil Layout Types TypedAst Builtins SemaChecking Bytecodes FunctionInfo BytecodeEmitter GeneratorState.

Record argument := mkArgument { arg_node : TExpression; arg_visit : Gen unit }.

Section builtins.
Context `{AlignOps, CppClasses, Catalog}.

(** The arguments of the call, and its type. *)
Context (args : list argument) (call_type : option TplType).

(** ** Arguments by number *)

Definition arg (i : nat) : Gen argument := the (args !! i).
Definition arg_type (i : nat) : Gen TplType := a ← arg i; the (GetType (arg_node a)).
Definition arg_for_rvalue (i : nat) : Gen LocalVar := a ← arg i; VisitExpressionForRValue (arg_visit a).
Definition arg_for_lvalue (i : nat) : Gen LocalVar := a ← arg i; VisitExpressionForLValue (arg_visit a).
Definition arg_for_sql (i : nat) : Gen LocalVar := a ← arg i; VisitExpressionForSQLValue (arg_visit a).
(** [As<LiteralExpression>] and [As<IdentifierExpression>]. *)
Definition arg_string (i : nat) : Gen Identifier :=
  a ← arg i; match arg_node a with TLiteralExpression _ (StringLiteral s) _ => mret s | _ => undefined end.
Definition arg_int (i : nat) : Gen Z :=
  a ← arg i; match arg_node a with TLiteralExpression _ (IntLiteral n) _ => mret n | _ => undefined end.
Definition arg_bool (i : nat) : Gen bool :=
  a ← arg i; match arg_node a with TLiteralExpression _ (BoolLiteral b) _ => mret b | _ => undefined end.
Definition arg_name (i : nat) : Gen Identifier := a ← arg i; the (GetFuncName (arg_node a)).
Definition arg_function (i : nat) : Gen Z := name ← arg_name i; LookupFuncIdByName (string_of name).

Definition destination_for_call : Gen LocalVar := GetOrCreateDestination call_type.
(** The value of [dest] is the result. *)
Definition result_in (dest : LocalVar) : Gen unit := SetDestination (ValueOf dest).

(** ** SQL values *)

Definition VisitSqlConversionCall (builtin : BuiltinFunction) : Gen unit :=
  dest ← destination_for_call;
  let GEN_CASE name := (input ← arg_for_sql 0; Emit_op name [dest; input]) in
  match builtin with
  | BoolToSql => input ← arg_for_rvalue 0; Emit_op "InitBool" [dest; input]
  | IntToSql => input ← arg_for_rvalue 0; Emit_op "InitInteger" [dest; input]
  | FloatToSql => input ← arg_for_rvalue 0; Emit_op "InitReal" [dest; input]
  | DateToSql =>
      year ← arg_for_rvalue 0; month ← arg_for_rvalue 1; day ← arg_for_rvalue 2;
      Emit_op "InitDate" [dest; year; month; day]
  | StringToSql =>
      string_lit ← arg_string 0;
      static_string ← NewStaticString string_lit;
      emit (EmitInitString dest static_string (Z.of_nat (length string_lit)))
  | SqlToBool => input ← arg_for_sql 0; Emit_op "ForceBoolTruth" [dest; input];; result_in dest
  | ConvertBoolToInteger => GEN_CASE "BoolToInteger"
  | ConvertIntegerToReal => GEN_CASE "IntegerToReal"
  | ConvertDateToTimestamp => GEN_CASE "DateToTimestamp"
  | ConvertStringToBool => GEN_CASE "StringToBool"
  | ConvertStringToInt => GEN_CASE "StringToInteger"
  | ConvertStringToReal => GEN_CASE "StringToReal"
  | ConvertStringToDate => GEN_CASE "StringToDate"
  | ConvertStringToTime => GEN_CASE "StringToTimestamp"
  | _ => unreachable
  end.

Definition VisitNullValueCall (builtin : BuiltinFunction) : Gen unit :=
  match builtin with
  | IsValNull => result ← destination_for_call; input ← arg_for_sql 0; Emit_op "ValIsNull" [result; input];; result_in result
  | InitSqlNull => input ← arg_for_rvalue 0; Emit_op "InitSqlNull" [input]
  | _ => unreachable
  end.

Definition VisitLNotCall : Gen unit :=
  dest ← destination_for_call; input ← arg_for_sql 0; Emit_op "LogicalNotBoolVal" [dest; input];; SetDestination dest.

Definition VisitSqlStringLikeCall : Gen unit :=
  dest ← destination_for_call; input ← arg_for_sql 0; pattern ← arg_for_sql 1;
  Emit_op "Like" [dest; input; pattern];; SetDestination dest.

Definition VisitBuiltinDateFunctionCall (builtin : BuiltinFunction) : Gen unit :=
  dest ← destination_for_call; input ← arg_for_sql 0;
  match builtin with ExtractYear => Emit_op "ExtractYear" [dest; input] | _ => unreachable end;;
  SetDestination dest.

(** The loop fills the array: [i] counts the strings. *)
Fixpoint concat_elements (arr arr_elem_ptr : LocalVar) (strings : list argument) (i : Z) : Gen unit :=
  match strings with
  | [] => mret tt
  | s :: strings' =>
      emit (EmitLea arr_elem_ptr arr (i * 8));;
      input ← VisitExpressionForSQLValue (arg_visit s);
      emit (EmitAssign (code "Assign8") (ValueOf arr_elem_ptr) input);;
      concat_elements arr arr_elem_ptr strings' (i + 1)
  end.
Definition VisitBuiltinConcatCall : Gen unit :=
  dest ← destination_for_call;
  exec_ctx ← arg_for_rvalue 0;
  let num_strings := Z.of_nat (length args) - 1 in
  let string_type := BuiltinType StringVal in
  arr ← NewTemp (ArrayType num_strings (PointerTo string_type));
  arr_elem_ptr ← NewTemp (PointerTo (PointerTo string_type));
  concat_elements arr arr_elem_ptr (tail args) 0;;
  emit (EmitConcat dest exec_ctx arr num_strings).

(** ** Tables and vectors *)

Definition VisitBuiltinTableIterCall (builtin : BuiltinFunction) : Gen unit :=
  iter ← arg_for_rvalue 0;
  match builtin with
  | TableIterInit =>
      table_name ← arg_string 1;
      table_id ← the (LookupTableByName table_name);
      emit (EmitTableIterInit (code "TableVectorIteratorInit") iter table_id);;
      Emit_op "TableVectorIteratorPerformInit" [iter]
  | TableIterAdvance => cond ← destination_for_call; Emit_op "TableVectorIteratorNext" [cond; iter];; result_in cond
  | TableIterGetVPI => vpi ← destination_for_call; Emit_op "TableVectorIteratorGetVPI" [vpi; iter];; result_in vpi
  | TableIterClose => Emit_op "TableVectorIteratorFree" [iter]
  | _ => unreachable
  end.

Definition VisitBuiltinTableIterParallelCall : Gen unit :=
  table_name ← arg_string 0;
  table_id ← the (LookupTableByName table_name);
  exec_ctx ← arg_for_rvalue 1;
  thread_state_container ← arg_for_rvalue 2;
  scan_fn ← arg_function 3;
  emit (EmitParallelTableScan table_id exec_ctx thread_state_container scan_fn).

Definition VisitBuiltinVPICall (builtin : BuiltinFunction) : Gen unit :=
  vpi ← arg_for_rvalue 0;
  let Get name :=
    (result ← destination_for_call; col_idx ← arg_int 1; emit (EmitVPIGet (code name) result vpi (wrapu 32 col_idx))) in
  let Set_ name :=   (* both the value and the column are taken from the second argument *)
    (input ← arg_for_sql 1; col_idx ← arg_int 1; emit (EmitVPISet (code name) vpi input (wrapu 32 col_idx))) in
  match builtin with
  | VPIInit =>
      vector_projection ← arg_for_rvalue 1;
      if Nat.eqb (length args) 3 then
        tid_list ← arg_for_rvalue 2; Emit_op "VPIInitWithList" [vpi; vector_projection; tid_list]
      else Emit_op "VPIInit" [vpi; vector_projection]
  | VPIFree => Emit_op "VPIFree" [vpi]
  | VPIIsFiltered => is_filtered ← destination_for_call; Emit_op "VPIIsFiltered" [is_filtered; vpi];; result_in is_filtered
  | VPIGetSelectedRowCount =>
      count ← destination_for_call; Emit_op "VPIGetSelectedRowCount" [count; vpi];; result_in count
  | VPIGetVectorProjection =>
      vector_projection ← destination_for_call;
      Emit_op "VPIGetVectorProjection" [vector_projection; vpi];; result_in vector_projection
  | VPIHasNext => cond ← destination_for_call; Emit_op "VPIHasNext" [cond; vpi];; result_in cond
  | VPIAdvance => Emit_op "VPIAdvance" [vpi]
  | VPISetPosition => index ← arg_for_rvalue 1; Emit_op "VPISetPosition" [vpi; index]
  | VPIMatch => match_ ← arg_for_rvalue 1; Emit_op "VPIMatch" [vpi; match_]
  | VPIReset => Emit_op "VPIReset" [vpi]
  | VPIGetBool => Get "VPIGetBool" | VPIGetTinyInt => Get "VPIGetTinyInt" | VPIGetSmallInt => Get "VPIGetSmallInt"
  | VPIGetInt => Get "VPIGetInteger" | VPIGetBigInt => Get "VPIGetBigInt" | VPIGetReal => Get "VPIGetReal"
  | VPIGetDouble => Get "VPIGetDouble" | VPIGetDate => Get "VPIGetDate" | VPIGetString => Get "VPIGetString"
  | VPIGetPointer => Get "VPIGetPointer"
  | VPISetBool => Set_ "VPISetBool" | VPISetTinyInt => Set_ "VPISetTinyInt" | VPISetSmallInt => Set_ "VPISetSmallInt"
  | VPISetInt => Set_ "VPISetInteger" | VPISetBigInt => Set_ "VPISetBigInt" | VPISetReal => Set_ "VPISetReal"
  | VPISetDouble => Set_ "VPISetDouble" | VPISetDate => Set_ "VPISetDate" | VPISetString => Set_ "VPISetString"
  | _ => unreachable
  end.

Definition VisitBuiltinCompactStorageCall (builtin : BuiltinFunction) : Gen unit :=
  storage ← arg_for_rvalue 0;
  let Write name :=
    (index ← arg_for_rvalue 1; ptr ← arg_for_rvalue 2; val ← arg_for_sql 3; Emit_op name [storage; index; ptr; val]) in
  let Read name :=
    (result ← destination_for_call; index ← arg_for_rvalue 1; ptr ← arg_for_rvalue 2;
     Emit_op name [result; storage; index; ptr]) in
  match builtin with
  | CompactStorageWriteBool => Write "CompactStorageWriteBool"
  | CompactStorageWriteTinyInt => Write "CompactStorageWriteTinyInt"
  | CompactStorageWriteSmallInt => Write "CompactStorageWriteSmallInt"
  | CompactStorageWriteInteger => Write "CompactStorageWriteInteger"
  | CompactStorageWriteBigInt => Write "CompactStorageWriteBigInt"
  | CompactStorageWriteReal => Write "CompactStorageWriteReal"
  | CompactStorageWriteDouble => Write "CompactStorageWriteDouble"
  | CompactStorageWriteDate => Write "CompactStorageWriteDate"
  | CompactStorageWriteTimestamp => Write "CompactStorageWriteTimestamp"
  | CompactStorageWriteString => Write "CompactStorageWriteString"
  | CompactStorageReadBool => Read "CompactStorageReadBool"
  | CompactStorageReadTinyInt => Read "CompactStorageReadTinyInt"
  | CompactStorageReadSmallInt => Read "CompactStorageReadSmallInt"
  | CompactStorageReadInteger => Read "CompactStorageReadInteger"
  | CompactStorageReadBigInt => Read "CompactStorageReadBigInt"
  | CompactStorageReadReal => Read "CompactStorageReadReal"
  | CompactStorageReadDouble => Read "CompactStorageReadDouble"
  | CompactStorageReadDate => Read "CompactStorageReadDate"
  | CompactStorageReadTimestamp => Read "CompactStorageReadTimestamp"
  | CompactStorageReadString => Read "CompactStorageReadString"
  | _ => unreachable
  end.

(** A timestamp is hashed, and then falls through to the unreachable case. *)
Fixpoint hash_inputs (hash_val : LocalVar) (inputs : list argument) : Gen unit :=
  match inputs with
  | [] => mret tt
  | a :: inputs' =>
      input ← VisitExpressionForSQLValue (arg_visit a);
      type ← the (GetType (arg_node a));
      match type with
      | BuiltinType IntegerVal => Emit_op "HashInt" [hash_val; input; ValueOf hash_val]
      | BuiltinType RealVal => Emit_op "HashReal" [hash_val; input; ValueOf hash_val]
      | BuiltinType StringVal => Emit_op "HashString" [hash_val; input; ValueOf hash_val]
      | BuiltinType DateVal => Emit_op "HashDate" [hash_val; input; ValueOf hash_val]
      | _ => unreachable
      end;;
      hash_inputs hash_val inputs'
  end.
Definition VisitBuiltinHashCall : Gen unit :=
  hash_val ← destination_for_call;
  emit (EmitAssignImm8 hash_val 0);;
  hash_inputs hash_val args;;
  result_in hash_val.

Fixpoint insert_filters (filter_manager : LocalVar) (flavors : list argument) : Gen unit :=
  match flavors with
  | [] => mret tt
  | a :: flavors' =>
      func_name ← the (GetFuncName (arg_node a));
      func_id ← LookupFuncIdByName (string_of func_name);
      emit (EmitFilterManagerInsertFilter filter_manager func_id);;
      insert_filters filter_manager flavors'
  end.
Definition VisitBuiltinFilterManagerCall (builtin : BuiltinFunction) : Gen unit :=
  filter_manager ← arg_for_rvalue 0;
  match builtin with
  | FilterManagerInit => Emit_op "FilterManagerInit" [filter_manager]
  | FilterManagerInsertFilter => Emit_op "FilterManagerStartNewClause" [filter_manager];; insert_filters filter_manager (tail args)
  | FilterManagerRunFilters => vpi ← arg_for_rvalue 1; Emit_op "FilterManagerRunFilters" [filter_manager; vpi]
  | FilterManagerFree => Emit_op "FilterManagerFree" [filter_manager]
  | _ => unreachable
  end.

Definition VisitBuiltinVectorFilterCall (builtin : BuiltinFunction) : Gen unit :=
  vector_projection ← arg_for_rvalue 0;
  tid_list ← arg_for_rvalue 3;
  let GEN_CASE name :=
    (left_col ← arg_for_rvalue 1;
     type ← arg_type 2;
     if negb (IsIntegerType type) then
       right_val ← arg_for_sql 2; Emit_op (name +:+ "Val") [vector_projection; left_col; right_val; tid_list]
     else right_col ← arg_for_rvalue 2; Emit_op name [vector_projection; left_col; right_col; tid_list]) in
  match builtin with
  | VectorFilterEqual => GEN_CASE "VectorFilterEqual"
  | VectorFilterGreaterThan => GEN_CASE "VectorFilterGreaterThan"
  | VectorFilterGreaterThanEqual => GEN_CASE "VectorFilterGreaterThanEqual"
  | VectorFilterLessThan => GEN_CASE "VectorFilterLessThan"
  | VectorFilterLessThanEqual => GEN_CASE "VectorFilterLessThanEqual"
  | VectorFilterNotEqual => GEN_CASE "VectorFilterNotEqual"
  | _ => unreachable
  end.

(** ** Aggregation *)

Definition VisitBuiltinAggHashTableCall (builtin : BuiltinFunction) : Gen unit :=
  match builtin with
  | AggHashTableInit =>
      agg_ht ← arg_for_rvalue 0; memory ← arg_for_rvalue 1; entry_size ← arg_for_rvalue 2;
      Emit_op "AggregationHashTableInit" [agg_ht; memory; entry_size]
  | AggHashTableInsert =>
      dest ← destination_for_call; agg_ht ← arg_for_rvalue 0; hash ← arg_for_rvalue 1;
      name ← (if Nat.ltb 2 (length args) then
                partitioned ← arg_bool 2;
                mret (if (partitioned : bool) then "AggregationHashTableAllocTuplePartitioned" else "AggregationHashTableAllocTuple")
              else mret "AggregationHashTableAllocTuple")%string;
      Emit_op name [dest; agg_ht; hash];; result_in dest
  | AggHashTableLinkEntry =>
      agg_ht ← arg_for_rvalue 0; entry ← arg_for_rvalue 1; Emit_op "AggregationHashTableLinkHashTableEntry" [agg_ht; entry]
  | AggHashTableLookup =>
      dest ← destination_for_call; agg_ht ← arg_for_rvalue 0; hash ← arg_for_rvalue 1;
      Emit_op "AggregationHashTableLookup" [dest; agg_ht; hash];; result_in dest
  | AggHashTableProcessBatch =>
      agg_ht ← arg_for_rvalue 0; vpi ← arg_for_rvalue 1;
      type ← arg_type 2;
      num_keys ← the (match type with ArrayType length _ => Some (wrapu 32 length) | _ => None end);
      key_cols ← arg_for_lvalue 2;
      init_agg_fn ← arg_function 3; merge_agg_fn ← arg_function 4; partitioned ← arg_for_rvalue 5;
      emit (EmitAggHashTableProcessBatch agg_ht vpi num_keys key_cols init_agg_fn merge_agg_fn partitioned)
  | AggHashTableMovePartitions =>
      agg_ht ← arg_for_rvalue 0; tls ← arg_for_rvalue 1; aht_offset ← arg_for_rvalue 2; merge_part_fn ← arg_function 3;
      emit (EmitAggHashTableMovePartitions agg_ht tls aht_offset merge_part_fn)
  | AggHashTableParallelPartitionedScan =>
      agg_ht ← arg_for_rvalue 0; ctx ← arg_for_rvalue 1; tls ← arg_for_rvalue 2; scan_part_fn ← arg_function 3;
      emit (EmitAggHashTableParallelPartitionedScan agg_ht ctx tls scan_part_fn)
  | AggHashTableFree => agg_ht ← arg_for_rvalue 0; Emit_op "AggregationHashTableFree" [agg_ht]
  | _ => unreachable
  end.

Definition VisitBuiltinAggHashTableIterCall (builtin : BuiltinFunction) : Gen unit :=
  match builtin with
  | AggHashTableIterInit =>
      agg_ht_iter ← arg_for_rvalue 0; agg_ht ← arg_for_rvalue 1; Emit_op "AggregationHashTableIteratorInit" [agg_ht_iter; agg_ht]
  | AggHashTableIterHasNext =>
      has_more ← destination_for_call; agg_ht_iter ← arg_for_rvalue 0;
      Emit_op "AggregationHashTableIteratorHasNext" [has_more; agg_ht_iter];; result_in has_more
  | AggHashTableIterNext => agg_ht_iter ← arg_for_rvalue 0; Emit_op "AggregationHashTableIteratorNext" [agg_ht_iter]
  | AggHashTableIterGetRow =>
      row_ptr ← destination_for_call; agg_ht_iter ← arg_for_rvalue 0;
      Emit_op "AggregationHashTableIteratorGetRow" [row_ptr; agg_ht_iter];; result_in row_ptr
  | AggHashTableIterClose => agg_ht_iter ← arg_for_rvalue 0; Emit_op "AggregationHashTableIteratorFree" [agg_ht_iter]
  | _ => unreachable
  end.

Definition VisitBuiltinAggPartIterCall (builtin : BuiltinFunction) : Gen unit :=
  let result name := (dest ← destination_for_call; iter ← arg_for_rvalue 0; Emit_op name [dest; iter];; result_in dest) in
  match builtin with
  | AggPartIterHasNext => result "AggregationOverflowPartitionIteratorHasNext"
  | AggPartIterNext => iter ← arg_for_rvalue 0; Emit_op "AggregationOverflowPartitionIteratorNext" [iter]
  | AggPartIterGetRow => result "AggregationOverflowPartitionIteratorGetRow"
  | AggPartIterGetRowEntry => result "AggregationOverflowPartitionIteratorGetRowEntry"
  | AggPartIterGetHash => result "AggregationOverflowPartitionIteratorGetHash"
  | _ => unreachable
  end.

(** [AGG_CODES]: the aggregates, with the names of their bytecodes. *)
Definition AGG_CODES : list (BuiltinKind * (string * string)) :=
  [(CountAggregate, ("CountAggregate", "CountAggregateAdvance"));
   (CountStarAggregate, ("CountStarAggregate", "CountStarAggregateAdvance"));
   (AvgAggregate, ("AvgAggregate", "AvgAggregateAdvanceInteger"));
   (IntegerMaxAggregate, ("IntegerMaxAggregate", "IntegerMaxAggregateAdvance"));
   (IntegerMinAggregate, ("IntegerMinAggregate", "IntegerMinAggregateAdvance"));
   (IntegerSumAggregate, ("IntegerSumAggregate", "IntegerSumAggregateAdvance"));
   (RealMaxAggregate, ("RealMaxAggregate", "RealMaxAggregateAdvance"));
   (RealMinAggregate, ("RealMinAggregate", "RealMinAggregateAdvance"));
   (RealSumAggregate, ("RealSumAggregate", "RealSumAggregateAdvance"));
   (DateMaxAggregate, ("DateMaxAggregate", "DateMaxAggregateAdvance"));
   (DateMinAggregate, ("DateMinAggregate", "DateMinAggregateAdvance"));
   (StringMaxAggregate, ("StringMaxAggregate", "StringMaxAggregateAdvance"));
   (StringMinAggregate, ("StringMinAggregate", "StringMinAggregateAdvance"))]%string.
Inductive AggOpKind : Set := AggOpInit | AggOpAdvance | AggOpGetResult | AggOpMerge | AggOpReset.
Definition OpForAgg (op : AggOpKind) (agg_kind : BuiltinKind) : option string :=
  e ← List.find (fun e => bool_decide (e.1 = agg_kind)) AGG_CODES;
  Some (match op with
        | AggOpInit => e.2.1 +:+ "Init"
        | AggOpAdvance => e.2.2
        | AggOpGetResult => e.2.1 +:+ "GetResult"
        | AggOpMerge => e.2.1 +:+ "Merge"
        | AggOpReset => e.2.1 +:+ "Reset"
        end)%string.
(** The kind of the aggregate an argument points to. *)
Definition pointee_kind (a : argument) : option BuiltinKind :=
  type ← GetType (arg_node a); base ← GetPointeeType type; match base with BuiltinType k => Some k | _ => None end.
Fixpoint for_aggregates (op : AggOpKind) (aggs : list argument) : Gen unit :=
  match aggs with
  | [] => mret tt
  | a :: aggs' =>
      agg_kind ← the (pointee_kind a);
      input ← VisitExpressionForRValue (arg_visit a);
      bytecode ← the (OpForAgg op agg_kind);
      Emit_op bytecode [input];;
      for_aggregates op aggs'
  end.
Definition VisitBuiltinAggregatorCall (builtin : BuiltinFunction) : Gen unit :=
  match builtin with
  | AggInit => for_aggregates AggOpInit args
  | AggReset => for_aggregates AggOpReset args
  | AggAdvance =>
      a ← arg 0; agg_kind ← the (pointee_kind a);
      agg ← arg_for_rvalue 0; input ← arg_for_sql 1;
      bytecode ← the (OpForAgg AggOpAdvance agg_kind);
      bytecode ← (if bool_decide (agg_kind = AvgAggregate) then
                    type ← arg_type 1;
                    mret (if IsSpecificBuiltin type RealVal then "AvgAggregateAdvanceReal"%string else bytecode)
                  else mret bytecode);
      Emit_op bytecode [agg; input]
  | AggMerge =>
      a ← arg 0; agg_kind ← the (pointee_kind a);
      agg_1 ← arg_for_rvalue 0; agg_2 ← arg_for_rvalue 1;
      bytecode ← the (OpForAgg AggOpMerge agg_kind);
      Emit_op bytecode [agg_1; agg_2]
  | AggResult =>
      a ← arg 0; agg_kind ← the (pointee_kind a);
      result ← destination_for_call; agg ← arg_for_rvalue 0;
      bytecode ← the (OpForAgg AggOpGetResult agg_kind);
      Emit_op bytecode [result; agg]
  | _ => unreachable
  end.

(** ** Joins *)

Definition VisitBuiltinJoinHashTableCall (builtin : BuiltinFunction) : Gen unit :=
  join_hash_table ← arg_for_rvalue 0;
  match builtin with
  | JoinHashTableInit =>
      memory ← arg_for_rvalue 1; entry_size ← arg_for_rvalue 2;
      if Nat.eqb (length args) 3 then Emit_op "JoinHashTableInit" [join_hash_table; memory; entry_size]
      else   (* both functions are taken from the fourth argument *)
        analysis_fn ← arg_function 3; compress_fn ← arg_function 3;
        emit (EmitJoinHashTableInit join_hash_table memory entry_size analysis_fn compress_fn)
  | JoinHashTableInsert =>
      dest ← destination_for_call; hash ← arg_for_rvalue 1;
      Emit_op "JoinHashTableAllocTuple" [dest; join_hash_table; hash];; result_in dest
  | JoinHashTableBuild => Emit_op "JoinHashTableBuild" [join_hash_table]
  | JoinHashTableBuildParallel =>
      tls ← arg_for_rvalue 1; jht_offset ← arg_for_rvalue 2;
      Emit_op "JoinHashTableBuildParallel" [join_hash_table; tls; jht_offset]
  | JoinHashTableLookup =>
      ht_entry ← destination_for_call; hash ← arg_for_rvalue 1;
      Emit_op "JoinHashTableLookup" [ht_entry; join_hash_table; hash];; result_in ht_entry
  | JoinHashTableFree => Emit_op "JoinHashTableFree" [join_hash_table]
  | _ => unreachable
  end.

Definition VisitBuiltinHashTableEntryCall (builtin : BuiltinFunction) : Gen unit :=
  ht_entry ← arg_for_rvalue 0;
  let result name := (dest ← destination_for_call; Emit_op name [dest; ht_entry];; result_in dest) in
  match builtin with
  | HashTableEntryGetHash => result "HashTableEntryGetHash"
  | HashTableEntryGetRow => result "HashTableEntryGetRow"
  | HashTableEntryGetNext => result "HashTableEntryGetNext"
  | _ => unreachable
  end.

Definition VisitBuiltinAnalysisStatsCall (builtin : BuiltinFunction) : Gen unit :=
  stats ← arg_for_rvalue 0;
  match builtin with
  | AnalysisStatsSetColumnCount =>
      column_count ← arg_for_rvalue 1; Emit_op "AnalysisStatsSetColumnCount" [stats; column_count]
  | AnalysisStatsSetColumnBits =>
      column ← arg_for_rvalue 1; bits ← arg_for_rvalue 2; Emit_op "AnalysisStatsSetColumnBits" [stats; column; bits]
  | _ => unreachable
  end.

(** ** Sorting *)

Definition VisitBuiltinSorterCall (builtin : BuiltinFunction) : Gen unit :=
  match builtin with
  | SorterInit =>
      sorter ← arg_for_rvalue 0; memory ← arg_for_rvalue 1; cmp_func_name ← arg_name 2; entry_size ← arg_for_rvalue 3;
      cmp_fn ← LookupFuncIdByName (string_of cmp_func_name);
      emit (EmitSorterInit (code "SorterInit") sorter memory cmp_fn entry_size)
  | SorterInsert => dest ← destination_for_call; sorter ← arg_for_rvalue 0; Emit_op "SorterAllocTuple" [dest; sorter]
  | SorterInsertTopK =>
      dest ← destination_for_call; sorter ← arg_for_rvalue 0; top_k ← arg_for_rvalue 1;
      Emit_op "SorterAllocTupleTopK" [dest; sorter; top_k]
  | SorterInsertTopKFinish =>
      sorter ← arg_for_rvalue 0; top_k ← arg_for_rvalue 1; Emit_op "SorterAllocTupleTopKFinish" [sorter; top_k]
  | SorterSort => sorter ← arg_for_rvalue 0; Emit_op "SorterSort" [sorter]
  | SorterSortParallel =>
      sorter ← arg_for_rvalue 0; tls ← arg_for_rvalue 1; sorter_offset ← arg_for_rvalue 2;
      Emit_op "SorterSortParallel" [sorter; tls; sorter_offset]
  | SorterSortTopKParallel =>
      sorter ← arg_for_rvalue 0; tls ← arg_for_rvalue 1; sorter_offset ← arg_for_rvalue 2; top_k ← arg_for_rvalue 3;
      Emit_op "SorterSortTopKParallel" [sorter; tls; sorter_offset; top_k]
  | SorterFree => sorter ← arg_for_rvalue 0; Emit_op "SorterFree" [sorter]
  | _ => unreachable
  end.

Definition VisitBuiltinSorterIterCall (builtin : BuiltinFunction) : Gen unit :=
  sorter_iter ← arg_for_rvalue 0;
  match builtin with
  | SorterIterInit => sorter ← arg_for_rvalue 1; Emit_op "SorterIteratorInit" [sorter_iter; sorter]
  | SorterIterHasNext => cond ← destination_for_call; Emit_op "SorterIteratorHasNext" [cond; sorter_iter];; result_in cond
  | SorterIterNext => Emit_op "SorterIteratorNext" [sorter_iter]
  | SorterIterSkipRows => n ← arg_for_rvalue 1; Emit_op "SorterIteratorSkipRows" [sorter_iter; n]
  | SorterIterGetRow => row_ptr ← destination_for_call; Emit_op "SorterIteratorGetRow" [row_ptr; sorter_iter];; result_in row_ptr
  | SorterIterClose => Emit_op "SorterIteratorFree" [sorter_iter]
  | _ => unreachable
  end.

(** ** Output, input and contexts *)

Definition VisitResultBufferCall (builtin : BuiltinFunction) : Gen unit :=
  exec_ctx ← arg_for_rvalue 0;
  match builtin with
  | ResultBufferAllocOutRow => dest ← destination_for_call; Emit_op "ResultBufferAllocOutputRow" [dest; exec_ctx]
  | ResultBufferFinalize => Emit_op "ResultBufferFinalize" [exec_ctx]
  | _ => unreachable
  end.

Definition VisitCSVReaderCall (builtin : BuiltinFunction) : Gen unit :=
  reader ← arg_for_rvalue 0;
  match builtin with
  | CSVReaderInit =>
      result ← destination_for_call;
      string_lit ← arg_string 1;
      file_name ← NewStaticString string_lit;
      emit (EmitCSVReaderInit reader file_name (Z.of_nat (length string_lit)));;
      Emit_op "CSVReaderPerformInit" [result; reader];; result_in result
  | CSVReaderAdvance => has_more ← destination_for_call; Emit_op "CSVReaderAdvance" [has_more; reader];; result_in has_more
  | CSVReaderGetField =>
      field_index ← arg_for_rvalue 1; field ← arg_for_rvalue 2; Emit_op "CSVReaderGetField" [reader; field_index; field]
  | CSVReaderGetRecordNumber => record_number ← destination_for_call; Emit_op "CSVReaderGetRecordNumber" [record_number; reader]
  | CSVReaderClose => Emit_op "CSVReaderClose" [reader]
  | _ => unreachable
  end.

Definition VisitExecutionContextCall (builtin : BuiltinFunction) : Gen unit :=
  result ← destination_for_call; exec_ctx ← arg_for_rvalue 0;
  match builtin with
  | ExecutionContextGetMemoryPool => Emit_op "ExecutionContextGetMemoryPool" [result; exec_ctx]
  | ExecutionContextGetTLS => Emit_op "ExecutionContextGetTLS" [result; exec_ctx]
  | _ => unreachable
  end;;
  result_in result.

Definition VisitBuiltinThreadStateContainerCall (builtin : BuiltinFunction) : Gen unit :=
  tls ← arg_for_rvalue 0;
  match builtin with
  | ThreadStateContainerGetState =>
      result ← destination_for_call; Emit_op "ThreadStateContainerAccessCurrentThreadState" [result; tls];; result_in result
  | ThreadStateContainerIterate =>
      ctx ← arg_for_rvalue 1; iterate_fn ← arg_function 2; emit (EmitThreadStateContainerIterate tls ctx iterate_fn)
  | ThreadStateContainerReset =>
      entry_size ← arg_for_rvalue 1; init_fn ← arg_function 2; destroy_fn ← arg_function 3; ctx ← arg_for_rvalue 4;
      emit (EmitThreadStateContainerReset tls entry_size init_fn destroy_fn ctx)
  | ThreadStateContainerClear => Emit_op "ThreadStateContainerClear" [tls]
  | _ => unreachable
  end.

(** ** Arithmetic *)

(** The case of the tangent falls through to the unreachable one. *)
Definition VisitBuiltinTrigCall (builtin : BuiltinFunction) : Gen unit :=
  dest ← destination_for_call; src ← arg_for_sql 0;
  match builtin with
  | ACos => Emit_op "Acos" [dest; src]
  | ASin => Emit_op "Asin" [dest; src]
  | ATan => Emit_op "Atan" [dest; src]
  | ATan2 => src2 ← arg_for_sql 1; Emit_op "Atan2" [dest; src; src2]
  | Cos => Emit_op "Cos" [dest; src]
  | Cot => Emit_op "Cot" [dest; src]
  | Sin => Emit_op "Sin" [dest; src]
  | Tan => Emit_op "Tan" [dest; src];; unreachable
  | _ => unreachable
  end.

(** The result goes to the scope if there is one, to a temporary otherwise. *)
Definition wanted_or_temp : Gen LocalVar :=
  wants ← HasExecutionResult;
  if (wants : bool) then destination_for_call else type ← the call_type; NewTemp type.
Definition result_if_wanted (dest : LocalVar) : Gen unit :=
  wants ← HasExecutionResult; if (wants : bool) then result_in dest else mret tt.

Definition VisitBuiltinBitsCall (builtin : BuiltinFunction) : Gen unit :=
  result ← wanted_or_temp;
  input ← arg_for_rvalue 0;
  a ← arg 0;
  op ← match builtin with
       | Ctlz => GetIntTypedBytecode (uint_base "BitCtlz") (GetType (arg_node a)) false
       | Cttz => GetIntTypedBytecode (uint_base "BitCttz") (GetType (arg_node a)) false
       | _ => unreachable
       end;
  emit (Emit op [result; input]);;
  result_if_wanted result.

Definition VisitBuiltinSizeOfCall : Gen unit :=
  target_type ← arg_type 0;
  size_var ← destination_for_call;
  emit (EmitAssignImm4 size_var (GetSize target_type));;
  result_in size_var.

Definition VisitBuiltinOffsetOfCall : Gen unit :=
  type ← arg_type 0;
  fields ← the (match type with StructType _ fields => Some fields | _ => None end);
  field_name ← arg_name 1;
  let offset := GetOffsetOfFieldByName fields (Some field_name) in
  offset_var ← destination_for_call;
  emit (EmitAssignImm4 offset_var offset);;
  result_in offset_var.

(** The integer types a cast is between. *)
Definition cast_type (t : TplType) : option string :=
  match t with
  | BuiltinType Bool => Some "bool" | BuiltinType Int8 => Some "int8_t" | BuiltinType Int16 => Some "int16_t"
  | BuiltinType Int32 => Some "int32_t" | BuiltinType Int64 => Some "int64_t" | BuiltinType UInt8 => Some "uint8_t"
  | BuiltinType UInt16 => Some "uint16_t" | BuiltinType UInt32 => Some "uint32_t" | BuiltinType UInt64 => Some "uint64_t"
  | _ => None
  end%string.
Definition VisitBuiltinIntCastCall : Gen unit :=
  dest ← wanted_or_temp;
  input ← arg_for_rvalue 1;
  input_type ← arg_type 1;
  target_type ← the call_type;
  type1 ← the (cast_type input_type);
  type2 ← the (cast_type target_type);
  Emit_op (typed (typed "Cast" type1) type2) [dest; input];;
  result_if_wanted dest.

(** * The dispatch *)

Definition VisitBuiltinCallExpression (func : TExpression) : Gen unit :=
  _ ← the call_type;
  name ← the (GetFuncName func);
  builtin ← the (IsBuiltinFunction name);
  match builtin with
  | BoolToSql | IntToSql | FloatToSql | DateToSql | StringToSql | SqlToBool | ConvertBoolToInteger | ConvertIntegerToReal
  | ConvertDateToTimestamp | ConvertStringToBool | ConvertStringToInt | ConvertStringToReal | ConvertStringToDate
  | ConvertStringToTime => VisitSqlConversionCall builtin
  | IsValNull | InitSqlNull => VisitNullValueCall builtin
  | LNot => VisitLNotCall
  | Like => VisitSqlStringLikeCall
  | ExtractYear => VisitBuiltinDateFunctionCall builtin
  | Concat => VisitBuiltinConcatCall
  | ExecutionContextGetMemoryPool | ExecutionContextGetTLS => VisitExecutionContextCall builtin
  | ThreadStateContainerIterate | ThreadStateContainerGetState | ThreadStateContainerReset | ThreadStateContainerClear =>
      VisitBuiltinThreadStateContainerCall builtin
  | TableIterInit | TableIterAdvance | TableIterGetVPI | TableIterClose => VisitBuiltinTableIterCall builtin
  | TableIterParallel => VisitBuiltinTableIterParallelCall
  | VPIInit | VPIFree | VPIIsFiltered | VPIGetSelectedRowCount | VPIGetVectorProjection | VPIHasNext | VPIAdvance
  | VPISetPosition | VPIMatch | VPIReset | VPIGetBool | VPIGetTinyInt | VPIGetSmallInt | VPIGetInt | VPIGetBigInt
  | VPIGetReal | VPIGetDouble | VPIGetDate | VPIGetString | VPIGetPointer | VPISetBool | VPISetTinyInt | VPISetSmallInt
  | VPISetInt | VPISetBigInt | VPISetReal | VPISetDouble | VPISetDate | VPISetString => VisitBuiltinVPICall builtin
  | CompactStorageWriteBool | CompactStorageWriteTinyInt | CompactStorageWriteSmallInt | CompactStorageWriteInteger
  | CompactStorageWriteBigInt | CompactStorageWriteReal | CompactStorageWriteDouble | CompactStorageWriteDate
  | CompactStorageWriteTimestamp | CompactStorageWriteString | CompactStorageReadBool | CompactStorageReadTinyInt
  | CompactStorageReadSmallInt | CompactStorageReadInteger | CompactStorageReadBigInt | CompactStorageReadReal
  | CompactStorageReadDouble | CompactStorageReadDate | CompactStorageReadTimestamp | CompactStorageReadString =>
      VisitBuiltinCompactStorageCall builtin
  | Hash => VisitBuiltinHashCall
  | FilterManagerInit | FilterManagerInsertFilter | FilterManagerRunFilters | FilterManagerFree =>
      VisitBuiltinFilterManagerCall builtin
  | VectorFilterEqual | VectorFilterGreaterThan | VectorFilterGreaterThanEqual | VectorFilterLessThan
  | VectorFilterLessThanEqual | VectorFilterNotEqual => VisitBuiltinVectorFilterCall builtin
  | AggHashTableInit | AggHashTableInsert | AggHashTableLinkEntry | AggHashTableLookup | AggHashTableProcessBatch
  | AggHashTableMovePartitions | AggHashTableParallelPartitionedScan | AggHashTableFree => VisitBuiltinAggHashTableCall builtin
  | AggPartIterHasNext | AggPartIterNext | AggPartIterGetRow | AggPartIterGetRowEntry | AggPartIterGetHash =>
      VisitBuiltinAggPartIterCall builtin
  | AggHashTableIterInit | AggHashTableIterHasNext | AggHashTableIterNext | AggHashTableIterGetRow | AggHashTableIterClose =>
      VisitBuiltinAggHashTableIterCall builtin
  | AggInit | AggAdvance | AggMerge | AggReset | AggResult => VisitBuiltinAggregatorCall builtin
  | JoinHashTableInit | JoinHashTableInsert | JoinHashTableBuild | JoinHashTableBuildParallel | JoinHashTableLookup
  | JoinHashTableFree => VisitBuiltinJoinHashTableCall builtin
  | HashTableEntryGetHash | HashTableEntryGetRow | HashTableEntryGetNext => VisitBuiltinHashTableEntryCall builtin
  | AnalysisStatsSetColumnCount | AnalysisStatsSetColumnBits => VisitBuiltinAnalysisStatsCall builtin
  | SorterInit | SorterInsert | SorterInsertTopK | SorterInsertTopKFinish | SorterSort | SorterSortParallel
  | SorterSortTopKParallel | SorterFree => VisitBuiltinSorterCall builtin
  | SorterIterInit | SorterIterHasNext | SorterIterNext | SorterIterSkipRows | SorterIterGetRow | SorterIterClose =>
      VisitBuiltinSorterIterCall builtin
  | ResultBufferAllocOutRow | ResultBufferFinalize => VisitResultBufferCall builtin
  | CSVReaderInit | CSVReaderAdvance | CSVReaderGetField | CSVReaderGetRecordNumber | CSVReaderClose =>
      VisitCSVReaderCall builtin
  | ACos | ASin | ATan | ATan2 | Cos | Cot | Sin | Tan => VisitBuiltinTrigCall builtin
  | Ctlz | Cttz => VisitBuiltinBitsCall builtin
  | SizeOf => VisitBuiltinSizeOfCall
  | OffsetOf => VisitBuiltinOffsetOfCall
  | PtrCast => a ← arg 1; arg_visit a
  | IntCast => VisitBuiltinIntCastCall
  end.

End builtins.
