(* ===== verification/BytecodeGenerator.v ===== *)
(** The visitors of the bytecode generator, [src/vm/bytecode_generator.cpp].

    A visitor of an expression leaves what it found in the result scope; a statement is visited without
    one, unless it is in the body of a function literal. *)
From S2P Require Import Prelude Token Ast BitUtil Layout Types TypedAst Builtins SemaChecking Bytecodes FunctionInfo BytecodeEmitter CTypes GeneratorState GeneratorBuiltins.

(** [Token::IsCompareOp] and [IsLiteralCompareNil]: what is compared with nil. *)
Definition IsLiteralCompareNil (op : TokenType) (left_ right_ : bool) : option bool :=
  if left_ && IsCompareOp op then Some false else if right_ && IsCompareOp op then Some true else None.

Section visitors.
Context `{AlignOps, CppClasses, Catalog}.

(** * Expressions, given the visits of their children *)

Definition VisitIdentifierExpression (name : Identifier) (type : option TplType) : Gen unit :=
  let local_name := string_of name in
  func ← GetCurrentFunction;
  let local := LookupLocal func local_name in
  is_lvalue ← IsLValue;
  if (is_lvalue : bool) then SetDestination local
  else
    has ← HasDestination;
    if negb has then SetDestination (ValueOf local)
    else
      dest ← GetOrCreateDestination type;
      local_info ← the (LookupLocalInfoByName func local_name);
      (if IsParameter local_info then BuildAssign dest (ValueOf local) type else BuildDeref dest local type);;
      SetDestination dest.

Definition VisitImplicitCastExpression (cast_kind : CastKind) (input_type type : option TplType) (visit_input : Gen unit) : Gen unit :=
  match cast_kind with
  | SqlBoolToBool =>
      dest ← GetOrCreateDestination type; input ← VisitExpressionForSQLValue visit_input;
      Emit_op "ForceBoolTruth" [dest; input];; SetDestination (ValueOf dest)
  | BoolToSqlBool =>
      dest ← GetOrCreateDestination type; input ← VisitExpressionForRValue visit_input; Emit_op "InitBool" [dest; input]
  | IntToSqlInt =>
      dest ← GetOrCreateDestination type; input ← VisitExpressionForRValue visit_input; Emit_op "InitInteger" [dest; input]
  | BitCast | IntegralCast =>
      input ← VisitExpressionForRValue visit_input;
      from ← the input_type; to ← the type;
      if negb (GetSize from =? GetSize to) then
        dest ← GetOrCreateDestination type; BuildAssign dest input type;; SetDestination (ValueOf dest)
      else SetDestination input
  | FloatToSqlReal =>
      dest ← GetOrCreateDestination type; input ← VisitExpressionForRValue visit_input; Emit_op "InitReal" [dest; input]
  | SqlIntToSqlReal =>
      dest ← GetOrCreateDestination type; input ← VisitExpressionForSQLValue visit_input; Emit_op "IntegerToReal" [dest; input]
  | IntToSqlDecimal => undefined   (* an exception *)
  end.

(** The value of an expression whose address was computed. *)
Definition load_element (elem_ptr : LocalVar) (type : option TplType) : Gen unit :=
  is_lvalue ← IsLValue;
  if (is_lvalue : bool) then SetDestination elem_ptr
  else dest ← GetOrCreateDestination type; BuildDeref dest elem_ptr type;; SetDestination (ValueOf dest).

Definition VisitArrayIndexExpression (length : Z) (elem_type : TplType) (index : TExpression) (type : option TplType)
  (visit_object visit_index : Gen unit) : Gen unit :=
  let elem_size := GetSize elem_type in
  arr ← (if HasUnknownLength length then VisitExpressionForRValue visit_object else VisitExpressionForLValue visit_object);
  t ← the type;
  elem_ptr ← NewTemp (PointerTo t);
  match index with
  | TLiteralExpression _ (IntLiteral i) _ => emit (EmitLea elem_ptr arr (wrapu 64 (elem_size * i)))
  | _ => index ← VisitExpressionForRValue visit_index; emit (EmitLeaScaled elem_ptr arr index elem_size 0)
  end;;
  load_element (ValueOf elem_ptr) type.
Definition VisitMapIndexExpression : Gen unit := mret tt.

Definition VisitAddressOfExpression (type : option TplType) (visit_input : Gen unit) : Gen unit :=
  addr ← VisitExpressionForLValue visit_input;
  has ← HasDestination;
  if (has : bool) then dest ← GetDestination; BuildAssign dest addr type else SetDestination addr.

Definition VisitDerefExpression (type : option TplType) (visit_input : Gen unit) : Gen unit :=
  addr ← VisitExpressionForRValue visit_input; load_element addr type.

Definition VisitArithmeticUnaryExpression (op : TokenType) (type : option TplType) (visit_input : Gen unit) : Gen unit :=
  dest ← GetOrCreateDestination type;
  input ← VisitExpressionForRValue visit_input;
  bytecode ← match op with
             | MINUS => GetIntTypedBytecode (int_base "Neg") type true
             | BIT_NOT => GetIntTypedBytecode (int_base "BitNeg") type true
             | _ => unreachable
             end;
  emit (EmitUnaryOp bytecode dest input);;
  SetDestination (ValueOf dest).

Definition VisitLogicalNotExpression (type : option TplType) (visit_input : Gen unit) : Gen unit :=
  dest ← GetOrCreateDestination type;
  input ← VisitExpressionForRValue visit_input;
  emit (EmitUnaryOp (code "Not") dest input);;
  SetDestination (ValueOf dest).

(** A literal of the type nil, which has one byte, is assigned as eight. *)
Definition VisitLiteralExpression (value : LiteralValue) (type : option TplType) : Gen unit :=
  target ← GetOrCreateDestination type;
  match value with
  | NilLiteral => emit (EmitAssignImm8 target 0)
  | BoolLiteral b => emit (EmitAssignImm1 target (Z.b2z b));; SetDestination (ValueOf target)
  | IntLiteral n =>
      t ← the type;
      let size := GetSize t in
      emit (if size =? 1 then EmitAssignImm1 target n else if size =? 2 then EmitAssignImm2 target n
            else if size =? 4 then EmitAssignImm4 target n else EmitAssignImm8 target n);;
      SetDestination (ValueOf target)
  | FloatLiteral f =>
      t ← the type;
      emit (if GetSize t =? 4 then EmitAssignImm4F target (bits_of_float float_t f)
            else EmitAssignImm8F target (bits_of_float double_t (float_round double_t f)));;
      SetDestination (ValueOf target)
  | StringLiteral s =>
      string ← NewStaticString s;
      emit (EmitAssign (code "Assign8") target string);;
      SetDestination (ValueOf string)
  end.

(** Both operands are computed into the destination. *)
Definition VisitLogicalAndOrExpression (op : TokenType) (type : option TplType) (visit_left visit_right : Gen unit) : Gen unit :=
  dest ← GetOrCreateDestination type;
  VisitExpressionForRValue_into visit_left dest;;
  conditional_jump ← match op with
                     | OR => mret (code "JumpIfTrue") | AND => mret (code "JumpIfFalse") | _ => unreachable
                     end;
  end_label ← emit_with (EmitConditionalJump conditional_jump (ValueOf dest) new_Label);
  VisitExpressionForRValue_into visit_right dest;;
  emit_opt (Bind end_label);;
  SetDestination (ValueOf dest).

Definition VisitPrimitiveArithmeticExpression (op : TokenType) (type : option TplType) (visit_left visit_right : Gen unit) : Gen unit :=
  dest ← GetOrCreateDestination type;
  left_ ← VisitExpressionForRValue visit_left;
  right_ ← VisitExpressionForRValue visit_right;
  bytecode ← match op with
             | PLUS => MATH_BYTECODE "Add" type
             | MINUS => MATH_BYTECODE "Sub" type
             | STAR => MATH_BYTECODE "Mul" type
             | SLASH => MATH_BYTECODE "Div" type
             | PERCENT => MATH_BYTECODE "Rem" type
             | AMPERSAND => GetIntTypedBytecode (int_base "BitAnd") type true
             | BIT_OR => GetIntTypedBytecode (int_base "BitOr") type true
             | BIT_XOR => GetIntTypedBytecode (int_base "BitXor") type true
             | BIT_SHL => GetIntTypedBytecode (int_base "BitShl") type true
             | BIT_SHR => GetIntTypedBytecode (int_base "BitShr") type true
             | _ => unreachable
             end;
  emit (EmitBinaryOp bytecode dest left_ right_);;
  SetDestination (ValueOf dest).

Definition VisitSqlArithmeticExpression (op : TokenType) (type : option TplType) (visit_left visit_right : Gen unit) : Gen unit :=
  dest ← GetOrCreateDestination type;
  left_ ← VisitExpressionForSQLValue visit_left;
  right_ ← VisitExpressionForSQLValue visit_right;
  t ← the type;
  let is_integer_math := IsSpecificBuiltin t IntegerVal in
  let name op := (op +:+ if is_integer_math then "Integer" else "Real")%string in
  bytecode ← match op with
             | PLUS => mret (code (name "Add")) | MINUS => mret (code (name "Sub")) | STAR => mret (code (name "Mul"))
             | SLASH => mret (code (name "Div")) | PERCENT => mret (code (name "Rem")) | _ => unreachable
             end;
  emit (EmitBinaryOp bytecode dest left_ right_);;
  SetDestination dest.

Definition VisitArithmeticExpression (op : TokenType) (type : option TplType) (visit_left visit_right : Gen unit) : Gen unit :=
  t ← the type;
  if IsSqlValueType t then VisitSqlArithmeticExpression op type visit_left visit_right
  else VisitPrimitiveArithmeticExpression op type visit_left visit_right.

Definition comparison_name (op : TokenType) : option string :=
  match op with
  | GREATER => Some "GreaterThan" | GREATER_EQUAL => Some "GreaterThanEqual" | EQUAL_EQUAL => Some "Equal"
  | LESS => Some "LessThan" | LESS_EQUAL => Some "LessThanEqual" | BANG_EQUAL => Some "NotEqual" | _ => None
  end%string.
Definition SQL_COMPARISON_BYTECODE (comparison_type : string) (arg_kind : BuiltinKind) : option Z :=
  match arg_kind with
  | BooleanVal => Some (code (comparison_type +:+ "Bool")) | IntegerVal => Some (code (comparison_type +:+ "Integer"))
  | RealVal => Some (code (comparison_type +:+ "Real")) | DateVal => Some (code (comparison_type +:+ "Date"))
  | StringVal => Some (code (comparison_type +:+ "String")) | _ => None
  end.
Definition VisitSqlComparisonExpression (op : TokenType) (left_type type : option TplType) (visit_left visit_right : Gen unit) : Gen unit :=
  dest ← GetOrCreateDestination type;
  left_ ← VisitExpressionForSQLValue visit_left;
  right_ ← VisitExpressionForSQLValue visit_right;
  arg_kind ← the (match left_type with Some (BuiltinType k) => Some k | _ => None end);
  name ← the (comparison_name op);
  code ← the (SQL_COMPARISON_BYTECODE name arg_kind);
  emit (EmitBinaryOp code dest left_ right_);;
  SetDestination dest.

Definition VisitPrimitiveComparisonExpression (op : TokenType) (left_node right_node : TExpression) (type : option TplType)
  (visit_left visit_right : Gen unit) : Gen unit :=
  dest ← GetOrCreateDestination type;
  match IsLiteralCompareNil op (IsNilLiteral left_node) (IsNilLiteral right_node) with
  | Some input_is_left =>
      input ← VisitExpressionForRValue (if (input_is_left : bool) then visit_left else visit_right);
      Emit_op (if decide (op = EQUAL_EQUAL) then "IsNullPtr" else "IsNotNullPtr") [dest; input];;
      SetDestination (ValueOf dest)
  | None =>
      left_ ← VisitExpressionForRValue visit_left;
      right_ ← VisitExpressionForRValue visit_right;
      name ← the (comparison_name op);
      bytecode ← COMPARISON_BYTECODE name (GetType left_node);
      emit (EmitBinaryOp bytecode dest left_ right_);;
      SetDestination (ValueOf dest)
  end.

Definition VisitComparisonOpExpression (op : TokenType) (left_node right_node : TExpression) (type : option TplType)
  (visit_left visit_right : Gen unit) : Gen unit :=
  t ← the type;
  if negb (IsSpecificBuiltin t Bool) then VisitSqlComparisonExpression op (GetType left_node) type visit_left visit_right
  else VisitPrimitiveComparisonExpression op left_node right_node type visit_left visit_right.

Definition VisitMemberExpression (object_type : option TplType) (member : TExpression) (type : option TplType) (visit_object : Gen unit)
  : Gen unit :=
  obj_ptr ← VisitExpressionForLValue visit_object;
  obj_type ← the object_type;
  '(obj_ptr, fields) ← match obj_type with
                       | PointerType base =>
                           obj_ptr ← BuildLoadPointer obj_ptr obj_type;
                           match base with StructType _ fields => mret (obj_ptr, fields) | _ => undefined end
                       | StructType _ fields => mret (obj_ptr, fields)
                       | _ => undefined
                       end;
  field_name ← the (GetFuncName member);   (* the member is an identifier *)
  let offset := GetOffsetOfFieldByName fields (Some field_name) in
  t ← the type;
  field_ptr ← NewTemp (PointerTo t);
  emit (EmitLea field_ptr obj_ptr offset);;
  load_element (ValueOf field_ptr) type.

(** The arguments of a regular call, as many as the function has parameters. *)
Fixpoint call_params (n : nat) (args : list argument) : Gen (list LocalVar) :=
  match n with
  | O => mret []
  | S n' =>
      match args with
      | [] => undefined
      | a :: args' => p ← VisitExpressionForRValue (arg_visit a); ps ← call_params n' args'; mret (p :: ps)
      end
  end.
Definition VisitRegularCallExpression (func : TExpression) (args : list argument) : Gen unit :=
  '(params, ret) ← the (match GetType func with Some (FunctionType params ret) => Some (params, ret) | _ => None end);
  ret_param ← (if IsNilType ret then mret []
               else
                 wants ← HasExecutionResult;
                 if (wants : bool) then
                   ret_val ← GetOrCreateDestination (Some ret);
                   is_rvalue ← IsRValue;
                   (if (is_rvalue : bool) then SetDestination (ValueOf ret_val) else mret tt);;
                   mret [ret_val]
                 else ret_val ← NewTemp ret; mret [ret_val]);
  arg_params ← call_params (length params) args;
  name ← the (GetFuncName func);
  func_id ← LookupFuncIdByName (string_of name);
  emit (EmitCall func_id (ret_param ++ arg_params)).

(** * Statements, given the visits of their children *)

Definition VisitIfStatement (terminating : option bool) (visit_cond visit_then : Gen unit) (visit_else : option (Gen unit)) : Gen unit :=
  let b := new_IfThenElseBuilder in
  '(then_label, else_label) ← VisitExpressionForTest visit_cond (then_label_ b) (else_label_ b) FallThen;
  b ← emit_opt (Then (mkIf then_label else_label (end_label_ b)));
  visit_then;;
  b ← match visit_else with
      | None => mret b
      | Some visit_else =>
          terminating ← the terminating;
          b ← (if (terminating : bool) then mret b else emit_with (JumpToEnd b));
          b ← emit_opt (Else b);
          visit_else;;
          mret b
      end;
  emit_end (delete_IfThenElseBuilder b).

Definition VisitIterationStatement (visit_body : Gen unit) (b : LoopBuilder) : Gen LoopBuilder :=
  visit_body;; emit_opt (BindContinueTarget b).

Definition VisitForStatement (visit_init visit_cond visit_next : option (Gen unit)) (visit_body : Gen unit) : Gen unit :=
  default (mret tt) visit_init;;
  b ← emit_opt (LoopHeader new_LoopBuilder);
  b ← match visit_cond with
      | None => mret b
      | Some visit_cond =>
          '(_, break_label) ← VisitExpressionForTest visit_cond new_Label (break_label_ (loop_block b)) FallThen;
          mret (mkLoop (mkBreakable break_label) (header_label_ b) (continue_label_ b))
      end;
  b ← VisitIterationStatement visit_body b;
  default (mret tt) visit_next;;
  b ← emit_with (JumpToHeader b);
  emit_end (delete_LoopBuilder b).

Definition VisitReturnStatement (ret : option (option TplType * Gen unit)) : Gen unit :=
  match ret with
  | None => mret tt
  | Some (type, visit_ret) =>
      func ← GetCurrentFunction;
      let rv := GetReturnValueLocal func in
      t ← the type;
      if IsSqlValueType t then result ← VisitExpressionForSQLValue visit_ret; BuildDeref (ValueOf rv) result type
      else if IsStructType t then result ← VisitExpressionForLValue visit_ret; BuildAssign (ValueOf rv) result type
      else result ← VisitExpressionForRValue visit_ret; BuildAssign (ValueOf rv) result type
  end;;
  emit EmitReturn.

Definition VisitAssignmentStatement (visit_dest visit_src : Gen unit) : Gen unit :=
  dest ← VisitExpressionForLValue visit_dest; VisitExpressionForRValue_into visit_src dest.

(** The declared type, or that of the initial value. *)
Definition VisitVariableDeclaration (name : Identifier) (type_repr : option (option TplType)) (init : option (option TplType * Gen unit))
  : Gen unit :=
  type ← the (match type_repr, init with
              | Some repr_type, _ => repr_type
              | None, Some (init_type, _) => init_type
              | None, None => None
              end);
  local ← NewLocal_named type (string_of name);
  match init with Some (_, visit_init) => VisitExpressionForRValue_into visit_init local | None => mret tt end.

Definition VisitFunctionDeclaration (name : Identifier) (func_type : option TplType) (visit_function : Gen unit) : Gen unit :=
  '(params, ret) ← the (match func_type with Some (FunctionType params ret) => Some (params, ret) | _ => None end);
  AllocateFunc (string_of name) params ret;;
  in_position_scope visit_function.

(** * The visitors *)

(** The type of the type representation of a function literal. *)
Definition literal_type (func : TExpression) : option TplType :=
  match func with TFunctionLiteralExpression type_repr _ _ => GetType type_repr | _ => None end.

Fixpoint gen_all {A} (visit : A -> Gen unit) (l : list A) : Gen unit :=
  match l with [] => mret tt | a :: l' => visit a;; gen_all visit l' end.

Fixpoint gen_expr (node : TExpression) {struct node} : Gen unit :=
  match node with
  | TIdentifierExpression _ name type => VisitIdentifierExpression name type
  | TImplicitCastExpression _ cast_kind input type => VisitImplicitCastExpression cast_kind (GetType input) type (gen_expr input)
  | TIndexExpression _ object index type =>
      match GetType object with
      | Some (ArrayType length elem_type) =>
          VisitArrayIndexExpression length elem_type index type (gen_expr object) (gen_expr index)
      | Some _ => VisitMapIndexExpression
      | None => undefined
      end
  | TUnaryOpExpression _ op input type =>
      match op with
      | AMPERSAND => VisitAddressOfExpression type (gen_expr input)
      | STAR => VisitDerefExpression type (gen_expr input)
      | MINUS | BIT_NOT => VisitArithmeticUnaryExpression op type (gen_expr input)
      | BANG => VisitLogicalNotExpression type (gen_expr input)
      | _ => unreachable
      end
  | TCallExpression Builtin func args type =>
      VisitBuiltinCallExpression (map (fun a => mkArgument a (gen_expr a)) args) type func
  | TCallExpression Regular func args _ =>
      VisitRegularCallExpression func (map (fun a => mkArgument a (gen_expr a)) args)
  | TLiteralExpression _ value type => VisitLiteralExpression value type
  | TBinaryOpExpression _ op left_ right_ type =>
      match op with
      | AND | OR => VisitLogicalAndOrExpression op type (gen_expr left_) (gen_expr right_)
      | _ => VisitArithmeticExpression op type (gen_expr left_) (gen_expr right_)
      end
  | TComparisonOpExpression _ op left_ right_ type =>
      VisitComparisonOpExpression op left_ right_ type (gen_expr left_) (gen_expr right_)
  | TMemberExpression _ object member type => VisitMemberExpression (GetType object) member type (gen_expr object)
  | TFunctionLiteralExpression _ body _ => gen_stmt body
  | TBadExpression _ | TArrayTypeRepr _ _ _ _ | TFunctionTypeRepr _ _ _ _ | TMapTypeRepr _ _ _ _ | TPointerTypeRepr _ _ _
  | TStructTypeRepr _ _ _ => mret tt   (* only an assertion *)
  end
with gen_stmt (node : TStatement) {struct node} : Gen unit :=
  match node with
  | TIfStatement _ cond then_stmt else_stmt =>
      VisitIfStatement (IsTerminating then_stmt) (gen_expr cond) (gen_stmt then_stmt) (option_map gen_stmt else_stmt)
  | TForStatement _ init cond next body =>
      VisitForStatement (option_map gen_stmt init) (option_map gen_expr cond) (option_map gen_stmt next) (gen_stmt body)
  | TForInStatement _ _ _ _ => mret tt   (* only an assertion *)
  | TBlockStatement _ _ statements => gen_all gen_stmt statements
  | TReturnStatement _ ret => VisitReturnStatement (option_map (fun e => (GetType e, gen_expr e)) ret)
  | TAssignmentStatement _ dest src => VisitAssignmentStatement (gen_expr dest) (gen_expr src)
  | TDeclarationStatement decl => gen_decl decl
  | TExpressionStatement expr => gen_expr expr
  end
with gen_decl (node : TDeclaration) {struct node} : Gen unit :=
  match node with
  | TFunctionDeclaration _ name func => VisitFunctionDeclaration name (literal_type func) (gen_expr func)
  | TStructDeclaration _ _ _ => mret tt
  | TVariableDeclaration _ name type_repr init =>
      VisitVariableDeclaration name (option_map GetType type_repr) (option_map (fun e => (GetType e, gen_expr e)) init)
  end.

Definition gen_file (node : TFile) : Gen unit := let '(mkTFile _ decls) := node in gen_all gen_decl decls.

(** [Compile]: what goes into the module. *)
Definition Compile (root : TFile) : option BytecodeGenerator := snd <$> gen_file root new_BytecodeGenerator.

End visitors.
