(* ===== verification/GeneratorSpec.v ===== *)
(** What a piece of the bytecode generator writes, as items of a program: instructions, jumps and labels.

    [gives m Φ]: whenever [m] succeeds, what it appends to the code is what the emitter writes for some
    items, whose labels are numbered from any number on, are bound once and are the targets of the jumps;
    and [Φ] holds of the states before and after, the result and the items.  Pieces are put together by
    the lemmas of this file. *)
From stdpp Require Import functions.
From S2P Require Import Prelude BitUtil Buffer Token Ast Layout Types TypedAst Bytecodes FunctionInfo FunctionInfoSpec BytecodeEmitter BytecodeSpec GeneratorState GeneratorBuiltins BytecodeGenerator.

(** * References to locals *)

Definition local_ok (v : LocalVar) : Prop := is_uint 32 (bitfield_ v).

Lemma new_LocalVar_ok offset m : local_ok (new_LocalVar offset m).
Proof.
  unfold local_ok, new_LocalVar, field_Encode. cbn [bitfield_]. apply lor_uint; try lia; by apply wrapu_range.
Qed.
Lemma ValueOf_ok v : local_ok (ValueOf v).
Proof. apply new_LocalVar_ok. Qed.
Lemma Decode_Encode v : LocalVar_Decode (bitfield_ v) = v.
Proof. by destruct v. Qed.
Create HintDb generator.
#[export] Hint Resolve new_LocalVar_ok ValueOf_ok : generator.

(** The destination of the result scope is a reference. *)
Definition sane (s : BytecodeGenerator) : Prop := forall r, execution_result_ s = Some r -> local_ok (destination_ r).

(** * Items and labels *)

Definition fresh (n : nat) (labels : nat -> BytecodeLabel) : Prop := forall l, (n <= l)%nat -> labels l = new_Label.

Record closed (n n' : nat) (q : list item) : Prop := {
  closed_le : (n <= n')%nat;
  closed_labels l : l ∈ labels_of q -> (n <= l < n')%nat;
  closed_once : NoDup (labels_of q);
  closed_targets l : l ∈ targets_of q -> l ∈ labels_of q
}.
Record writes (n n' : nat) (q : list item) (c c' : list Z) : Prop := {
  writes_closed : closed n n' q;
  writes_items labels : fresh n labels -> exists labels',
    emit_items q (labels, c) = Some (labels', c') /\ fresh n' labels' /\ forall l, (l < n)%nat -> labels' l = labels l
}.

Lemma targets_of_app p q : targets_of (p ++ q) = targets_of p ++ targets_of q.
Proof. apply omap_app. Qed.

Lemma closed_nil n : closed n n [].
Proof. constructor; [done|by intros l ?%not_elem_of_nil|constructor|by intros l ?%not_elem_of_nil]. Qed.

Lemma closed_ins n i : closed n n [Ins i].
Proof. constructor; [done|by intros l ?%not_elem_of_nil|constructor|by intros l ?%not_elem_of_nil]. Qed.

Lemma closed_app n n' n'' q q' : closed n n' q -> closed n' n'' q' -> closed n n'' (q ++ q').
Proof.
  intros [Hle Hl Hnd Ht] [Hle' Hl' Hnd' Ht']. constructor; rewrite ?labels_of_app, ?targets_of_app; [lia|..].
  - intros l [H|H]%elem_of_app; [apply Hl in H|apply Hl' in H]; lia.
  - apply NoDup_app. split_and!; [done| |done]. intros l H%Hl H'%Hl'. lia.
  - intros l [H|H]%elem_of_app; apply elem_of_app; [left; by apply Ht|right; by apply Ht'].
Qed.

Lemma writes_nil n c : writes n n [] c c.
Proof. constructor; [apply closed_nil|]. intros labels Hf. by exists labels. Qed.

Lemma writes_app n n' n'' q q' c c' c'' : writes n n' q c c' -> writes n' n'' q' c' c'' -> writes n n'' (q ++ q') c c''.
Proof.
  intros [Hc Hw] [Hc' Hw']. constructor; [by eapply closed_app|]. intros labels Hf.
  destruct (Hw labels Hf) as (labels1 & E & Hf1 & Hk1). destruct (Hw' labels1 Hf1) as (labels2 & E' & Hf2 & Hk2).
  exists labels2. rewrite emit_items_app, E. cbn [mbind option_bind]. split_and!; [done|done|]. intros l Hl.
  pose proof (closed_le _ _ _ Hc). rewrite Hk2, Hk1; [done|lia|lia].
Qed.

Lemma writes_ins n i c c' : c' = c ++ encode_instr i -> writes n n [Ins i] c c'.
Proof.
  intros ->. constructor; [apply closed_ins|]. intros labels Hf. exists labels. split_and!; try done.
  cbn [emit_items emit_item]. destruct i; [by rewrite emit_plain|by rewrite emit_call].
Qed.

(** * The calculus *)

Definition spec (A : Type) : Type := BytecodeGenerator -> A -> BytecodeGenerator -> list item -> Prop.

Definition gives {A} (m : Gen A) (Φ : spec A) : Prop := forall s a s', sane s -> m s = Some (a, s') -> forall n,
  exists q n', writes n n' q (bytecode_ s) (bytecode_ s') /\ sane s' /\ Φ s a s' q.

Lemma gives_weaken {A} (m : Gen A) (Φ Ψ : spec A) : gives m Φ -> (forall s a s' q, Φ s a s' q -> Ψ s a s' q) -> gives m Ψ.
Proof. intros Hm HΦ s a s' Hs Hr n. destruct (Hm s a s' Hs Hr n) as (q & n' & Hw & Hs' & H). exists q, n'. auto. Qed.

(** Pieces that do not touch the code. *)
Lemma gives_silent {A} (m : Gen A) (Φ : spec A) :
  (forall s a s', sane s -> m s = Some (a, s') -> bytecode_ s' = bytecode_ s /\ sane s' /\ Φ s a s' []) -> gives m Φ.
Proof.
  intros Hm s a s' Hs Hr n. destruct (Hm s a s' Hs Hr) as (Ec & Hs' & H). exists [], n. rewrite Ec.
  split; [apply writes_nil|done].
Qed.

Lemma gives_emit (f : list Z -> list Z) i : (forall c, f c = c ++ encode_instr i) ->
  gives (emit f) (fun s _ s' q => q = [Ins i] /\ s' = set_bytecode (f (bytecode_ s)) s).
Proof.
  intros Hf s a s' Hs [= <- <-] n. exists [Ins i], n. split; [by apply writes_ins, Hf|]. split; [exact Hs|done].
Qed.

(** * Jumps and labels *)

Definition jmp_if (b : string) (cond : LocalVar) (l : nat) : item := Jmp (code b) (Some (bitfield_ cond)) l.
Definition jmp (l : nat) : item := Jmp (code "Jump") None l.

(** One item more, given what the emitter does for it. *)
Lemma emit_cond b cond l labels c label c' : EmitConditionalJump (code b) cond (labels l) c = (label, c') ->
  emit_item (jmp_if b cond l) (labels, c) = Some (<[l := label]> labels, c').
Proof. intros E. unfold jmp_if. cbn [emit_item]. by rewrite Decode_Encode, E. Qed.
Lemma emit_jump l labels c label c' : EmitJump (code "Jump") (labels l) c = (label, c') ->
  emit_item (jmp l) (labels, c) = Some (<[l := label]> labels, c').
Proof. intros E. unfold jmp. cbn [emit_item]. by rewrite E. Qed.
Lemma emit_label l labels c label c' : Bind (labels l) c = Some (label, c') ->
  emit_item (Lab l) (labels, c) = Some (<[l := label]> labels, c').
Proof. intros E. cbn [emit_item]. by rewrite E. Qed.

Lemma emit_items_cons it q s : emit_items (it :: q) s = s ← emit_item it s; emit_items q s.
Proof. done. Qed.

(** What is known of an environment that was updated below [n]. *)
Lemma fresh_insert n l label labels : fresh n labels -> (l < n)%nat -> fresh n (<[l := label]> labels).
Proof. intros Hf Hl k Hk. rewrite fn_lookup_insert_ne by lia. by apply Hf. Qed.
Lemma fresh_le n n' labels : fresh n labels -> (n <= n')%nat -> fresh n' labels.
Proof. intros Hf Hl k Hk. apply Hf. lia. Qed.

Lemma gen_bind_inv {A B} (m : Gen A) (k : A -> Gen B) s b s'' : (a ← m; k a) s = Some (b, s'') ->
  exists a s', m s = Some (a, s') /\ k a s' = Some (b, s'').
Proof. unfold mbind, Gen_bind. destruct (m s) as [[a s']|]; [eauto|done]. Qed.

(** Take the first step of a run apart. *)
Ltac gstep H :=
  let a := fresh "a" in let s := fresh "s" in let E := fresh "E" in
  apply gen_bind_inv in H as (a & s & E & H).

(** A jump that is taken if the condition has a value. *)
Lemma emit_with_cond b cond label s label' s' : emit_with (EmitConditionalJump (code b) cond label) s = Some (label', s') ->
  exists c', EmitConditionalJump (code b) cond label (bytecode_ s) = (label', c') /\ s' = set_bytecode c' s.
Proof. unfold emit_with. destruct (EmitConditionalJump _ _ _ _) as [l c']. intros [= <- <-]. by exists c'. Qed.
Lemma emit_end_inv f s u s' : emit_end f s = Some (u, s') -> exists c', f (bytecode_ s) = Some c' /\ s' = set_bytecode c' s.
Proof. unfold emit_end. destruct (f _) as [c'|]; [|done]. intros [= <- <-]. by exists c'. Qed.
Lemma emit_opt_inv {A} (f : list Z -> option (A * list Z)) s a s' : emit_opt f s = Some (a, s') ->
  exists c', f (bytecode_ s) = Some (a, c') /\ s' = set_bytecode c' s.
Proof. unfold emit_opt. destruct (f _) as [[a' c']|]; [|done]. intros [= <- <-]. by exists c'. Qed.

(** Labels and targets of a list that is written out. *)
Lemma labels_of_cons it q : labels_of (it :: q) = match it with Lab l => [l] | _ => [] end ++ labels_of q.
Proof. by destruct it. Qed.
Lemma targets_of_cons it q : targets_of (it :: q) = match it with Jmp _ _ l => [l] | _ => [] end ++ targets_of q.
Proof. by destruct it. Qed.
Ltac labels_in H := repeat match type of H with
  | _ ∈ [] => by apply not_elem_of_nil in H
  | _ ∈ _ ++ _ => apply elem_of_app in H as [H|H]
  | _ ∈ _ :: _ => apply elem_of_cons in H as [H|H]
  | ?l ∈ labels_of ?q => match goal with C : closed _ _ q |- _ => apply (closed_labels _ _ _ C) in H end
  end.
(** Prove that a construct of closed pieces and three labels of its own is closed. *)
Ltac solve_closed :=
  unfold jmp_if, jmp; constructor;
  repeat first [rewrite labels_of_app | rewrite labels_of_cons | rewrite targets_of_app | rewrite targets_of_cons];
  cbv beta iota; change (labels_of []) with (@nil nat); change (targets_of []) with (@nil nat);
  repeat match goal with C : closed _ _ ?q |- _ =>
    lazymatch goal with _ : NoDup (labels_of q) |- _ => fail | _ => pose proof (closed_le _ _ _ C); pose proof (closed_once _ _ _ C) end
  end;
  [ lia
  | intros l Hl; labels_in Hl; lia
  | repeat (apply NoDup_app; split_and!); try apply NoDup_nil_2; try apply NoDup_singleton; try assumption;
    intros l Hl Hl'; labels_in Hl; labels_in Hl'; lia
  | intros l Hl; repeat (rewrite ?elem_of_app, ?elem_of_cons);
    repeat match type of Hl with
    | _ ∈ [] => by apply not_elem_of_nil in Hl
    | _ ∈ _ ++ _ => apply elem_of_app in Hl as [Hl|Hl]
    | _ ∈ _ :: _ => apply elem_of_cons in Hl as [Hl|Hl]
    | l ∈ targets_of ?q => match goal with C : closed _ _ q |- _ => apply (closed_targets _ _ _ C) in Hl end
    end; tauto ].

(** Look a label up in an environment that was updated, and keep the environment fresh. *)
Ltac label_at := repeat first
  [ rewrite fn_lookup_insert | rewrite fn_lookup_insert_ne by lia
  | match goal with
    | K : forall l, (l < _)%nat -> ?env l = _ |- context [?env ?x] => rewrite (K x) by lia
    | K : forall k, k <> _ -> ?env k = _ |- context [?env ?x] => rewrite (K x) by lia
    | F : fresh _ ?env |- context [?env ?x] => rewrite (F x) by lia
    end ].
(** Emit a piece, or one item of which [L] says what the emitter does with it. *)
Ltac emit_piece E := rewrite emit_items_app, E; cbn [mbind option_bind].
Tactic Notation "emit_one" uconstr(L) uconstr(E) :=
  rewrite emit_items_cons, L by (label_at; exact E); cbn [mbind option_bind].
Ltac still_fresh := repeat (apply fresh_insert; [|lia]); try (eapply fresh_le; [eassumption|lia]).

Tactic Notation "bstep" hyp(H) "as" simple_intropattern(a) ident(s) ident(E) := apply gen_bind_inv in H as (a & s & E & H).
Ltac munf H := unfold mret, Gen_ret in H.

Lemma the_inv {A} (o : option A) s a s' : the o s = Some (a, s') -> o = Some a /\ s' = s.
Proof. destruct o; [by intros [= -> ->]|done]. Qed.

(** Labels stay bound or not. *)
Lemma EmitConditionalJump_bound b cond label c label' c' : EmitConditionalJump b cond label c = (label', c') ->
  bound_ label' = bound_ label.
Proof. unfold EmitConditionalJump, EmitJumpOperand. destruct (IsBound label); intros [= <- <-]; done. Qed.
Lemma Bind_bound label c label' c' : Bind label c = Some (label', c') -> bound_ label' = true.
Proof. unfold Bind. destruct (if IsForwardTarget label then _ else _); [|done]. by intros [= <- <-]. Qed.
Lemma Then_inv b c b' c' : Then b c = Some (b', c') ->
  exists l, Bind (then_label_ b) c = Some (l, c') /\ b' = mkIf l (else_label_ b) (end_label_ b).
Proof. unfold Then. destruct (Bind _ c) as [[l d]|]; [|done]. intros [= <- <-]. eauto. Qed.
Lemma Else_inv b c b' c' : Else b c = Some (b', c') ->
  exists l, Bind (else_label_ b) c = Some (l, c') /\ b' = mkIf (then_label_ b) l (end_label_ b).
Proof. unfold Else. destruct (Bind _ c) as [[l d]|]; [|done]. intros [= <- <-]. eauto. Qed.

Lemma delete_If_inv b c c' : delete_IfThenElseBuilder b c = Some c' ->
  exists c1 l2, Bind (end_label_ b) c1 = Some (l2, c') /\
  if bound_ (else_label_ b) then c1 = c else exists l1, Bind (else_label_ b) c = Some (l1, c1).
Proof.
  unfold delete_IfThenElseBuilder, IsBound. destruct (bound_ (else_label_ b)); cbn [negb].
  - cbn [mbind option_bind]. destruct (Bind _ c) as [[l2 d]|] eqn:E; [|done]. intros [= <-]. eauto.
  - destruct (Bind _ c) as [[l1 c1]|] eqn:E1; [|done]. cbn. destruct (Bind _ c1) as [[l2 d]|] eqn:E2; [|done]. intros [= <-].
    exists c1, l2. eauto.
Qed.

Section constructs.
Context `{AlignOps, CppClasses}.

(** The left operand, a jump over the right one, the right operand, and the label behind it. *)
Lemma gives_jump_over {A} b (cond : LocalVar) (right_ : Gen A) Φ : gives right_ Φ ->
  gives (end_label ← emit_with (EmitConditionalJump (code b) cond new_Label); right_;; emit_opt (Bind end_label))
    (fun s _ s' q => exists l c a sr qr, q = jmp_if b cond l :: qr ++ [Lab l] /\
       Φ (set_bytecode c s) a sr qr /\ exists c', s' = set_bytecode c' sr).
Proof.
  intros Hr s e s' Hs Hrun n. gstep Hrun. gstep Hrun.
  destruct (emit_with_cond _ _ _ _ _ _ E) as (c & Ec & ->). destruct (emit_opt_inv _ _ _ _ Hrun) as (c' & Eb & ->).
  destruct (Hr _ _ _ (Hs : sane (set_bytecode c s)) E0 (S n)) as (qr & n' & [Hcl Hw] & Hsr & HΦ).
  exists (jmp_if b cond n :: qr ++ [Lab n]), n'. split; [|split; [exact Hsr|by exists n, c, a0, s1, qr; eauto]].
  constructor; [solve_closed|]. pose proof (closed_le _ _ _ Hcl).
  intros labels Hf. destruct (Hw (<[n := a]> labels)) as (labels1 & Ei & Hf1 & Hk1); [still_fresh|].
  exists (<[n := e]> labels1). rewrite emit_items_cons, (emit_cond _ _ n _ _ a c) by (label_at; exact Ec).
  cbn [mbind option_bind]. rewrite emit_items_app. change (bytecode_ (set_bytecode c s)) with c in Ei. rewrite Ei. cbn [mbind option_bind].
  rewrite emit_items_cons, (emit_label n _ _ e c') by (label_at; exact Eb).
  split; [done|split; [still_fresh|]]. intros l Hlt. by label_at.
Qed.

(** ** Conditional statements *)

Definition maybe_jmp (terminating : bool) (l : nat) : list item := if terminating then [] else [jmp l].

(** The labels of a conditional statement: [n] for the else branch, then the then branch, then the end. *)
Lemma writes_if_else n n1 n2 n3 cond qc qt qe term c c0 c1 c2 c2' c3 c4 c5 c' el el' tl nl lend :
  writes (3 + n) n1 qc c c0 -> EmitConditionalJump (code "JumpIfFalse") cond new_Label c0 = (el, c1) ->
  Bind new_Label c1 = Some (tl, c2) -> writes n1 n2 qt c2 c2' ->
  (forall l labels, labels l = new_Label -> exists labels',
    emit_items (maybe_jmp term l) (labels, c2') = Some (labels', c3) /\ labels' l = nl /\ forall k, k <> l -> labels' k = labels k) ->
  Bind el c3 = Some (el', c4) -> writes n2 n3 qe c4 c5 -> Bind nl c5 = Some (lend, c') ->
  writes n n3 (qc ++ jmp_if "JumpIfFalse" cond n :: Lab (S n) :: qt ++ maybe_jmp term (S (S n)) ++ Lab n :: qe ++ [Lab (S (S n))]) c c'.
Proof.
  intros [Hclc Hwc] Ec1 Eb1 [Hclt Hwt] Hmj Eb2 [Hcle Hwe] Eend.
  constructor; [destruct term; cbn [maybe_jmp app]; solve_closed|].
  pose proof (closed_le _ _ _ Hclc). pose proof (closed_le _ _ _ Hclt). pose proof (closed_le _ _ _ Hcle).
  intros labels Hf. destruct (Hwc labels) as (labels1 & Ei1 & Hf1 & Hk1); [still_fresh|].
  destruct (Hwt (<[S n := tl]> (<[n := el]> labels1))) as (labels2 & Ei2 & Hf2 & Hk2); [still_fresh|].
  destruct (Hmj (S (S n)) labels2) as (labels3 & Ei3 & <- & Hk3); [by label_at|].
  destruct (Hwe (<[n := el']> labels3)) as (labels4 & Ei4 & Hf4 & Hk4).
  { still_fresh. intros l Hl. by label_at. }
  exists (<[S (S n) := lend]> labels4).
  emit_piece Ei1. emit_one (emit_cond "JumpIfFalse" cond n labels1 c0 el c1) Ec1.
  emit_one (emit_label (S n) (<[n := el]> labels1) c1 tl c2) Eb1. emit_piece Ei2. emit_piece Ei3.
  emit_one (emit_label n labels3 c3 el' c4) Eb2. emit_piece Ei4.
  emit_one (emit_label (S (S n)) labels4 c5 lend c') Eend.
  split; [done|]. split; [still_fresh|]. intros l Hlt. by label_at.
Qed.

Lemma writes_if_then n n1 n2 cond qc qt c c0 c1 c2 c3 c4 c' el el' tl lend :
  writes (3 + n) n1 qc c c0 -> EmitConditionalJump (code "JumpIfFalse") cond new_Label c0 = (el, c1) ->
  Bind new_Label c1 = Some (tl, c2) -> writes n1 n2 qt c2 c3 -> Bind el c3 = Some (el', c4) -> Bind new_Label c4 = Some (lend, c') ->
  writes n n2 (qc ++ jmp_if "JumpIfFalse" cond n :: Lab (S n) :: qt ++ [Lab n; Lab (S (S n))]) c c'.
Proof.
  intros [Hclc Hwc] Ec1 Eb1 [Hclt Hwt] Eb2 Eend. constructor; [solve_closed|].
  pose proof (closed_le _ _ _ Hclc). pose proof (closed_le _ _ _ Hclt).
  intros labels Hf. destruct (Hwc labels) as (labels1 & Ei1 & Hf1 & Hk1); [still_fresh|].
  destruct (Hwt (<[S n := tl]> (<[n := el]> labels1))) as (labels2 & Ei2 & Hf2 & Hk2); [still_fresh|].
  exists (<[S (S n) := lend]> (<[n := el']> labels2)).
  emit_piece Ei1. emit_one (emit_cond "JumpIfFalse" cond n labels1 c0 el c1) Ec1.
  emit_one (emit_label (S n) (<[n := el]> labels1) c1 tl c2) Eb1. emit_piece Ei2.
  emit_one (emit_label n labels2 c3 el' c4) Eb2. emit_one (emit_label (S (S n)) (<[n := el']> labels2) c4 lend c') Eend.
  split; [done|]. split; [still_fresh|]. intros l Hlt. by label_at.
Qed.

Lemma maybe_jmp_inv (term : bool) b s b' s' : (if term then mret b else emit_with (JumpToEnd b)) s = Some (b', s') ->
  exists nl c, b' = mkIf (then_label_ b) (else_label_ b) nl /\ s' = set_bytecode c s /\
  forall l labels, labels l = end_label_ b -> exists labels',
    emit_items (maybe_jmp term l) (labels, bytecode_ s) = Some (labels', c) /\ labels' l = nl /\ forall k, k <> l -> labels' k = labels k.
Proof.
  destruct term.
  - intros [= <- <-]. exists (end_label_ b), (bytecode_ s). split_and!; [by destruct b|by destruct s|]. intros l labels El. by exists labels.
  - unfold emit_with, JumpToEnd. destruct (EmitJump _ _ _) as [nl c] eqn:E. intros [= <- <-]. exists nl, c. split_and!; [done|done|].
    intros l labels El. exists (<[l := nl]> labels). unfold maybe_jmp. rewrite emit_items_cons, (emit_jump l _ _ nl c) by (by rewrite El).
    split_and!; [done|by rewrite fn_lookup_insert|]. intros k Hk. by rewrite fn_lookup_insert_ne.
Qed.

Lemma gives_if (terminating : option bool) (visit_cond visit_then : Gen unit) (visit_else : option (Gen unit)) Φc Φt Φe :
  gives (VisitExpressionForRValue visit_cond) Φc -> gives visit_then Φt -> (forall v, visit_else = Some v -> gives v Φe) ->
  gives (VisitIfStatement terminating visit_cond visit_then visit_else)
    (fun s _ s' q => exists cond s1 c1 s2 lt le lend qc qt rest, Φc s cond s1 qc /\ Φt (set_bytecode c1 s1) tt s2 qt /\
       q = qc ++ jmp_if "JumpIfFalse" cond le :: Lab lt :: qt ++ rest /\
       match visit_else with
       | None => rest = [Lab le; Lab lend] /\ exists c, s' = set_bytecode c s2
       | Some _ => exists b c2 s3 qe, terminating = Some b /\ rest = maybe_jmp b lend ++ Lab le :: qe ++ [Lab lend] /\
                   Φe (set_bytecode c2 s2) tt s3 qe /\ exists c, s' = set_bytecode c s3
       end).
Proof.
  intros Hc Ht He s [] s' Hs Hrun n. unfold VisitIfStatement, VisitExpressionForTest in Hrun. cbv zeta in Hrun.
  bstep Hrun as [tl el] s0 E. bstep E as cond s1' E0. bstep E as el' s2 E1. munf E. simplify_eq.
  destruct (Hc _ _ _ Hs E0 (3 + n)%nat) as (qc & n1 & [Hclc Hwc] & Hs1 & HΦc). rename s1' into s1.
  apply emit_with_cond in E1 as (c1 & Ec1 & ->).
  bstep Hrun as b1 s3 E. apply emit_opt_inv in E as (c2 & Et & ->).
  apply Then_inv in Et as (tl & Eb1 & ->). cbn [then_label_ else_label_ end_label_ new_IfThenElseBuilder] in *.
  bstep Hrun as [] s2 E. destruct (Ht _ _ _ (Hs1 : sane (set_bytecode c2 (set_bytecode c1 _))) E n1) as (qt & n2 & [Hclt Hwt] & Hs2 & HΦt).
  change (bytecode_ (set_bytecode c2 (set_bytecode c1 s1))) with c2 in Hwt.
  change (bytecode_ (set_bytecode c1 s1)) with c1 in Eb1.
  pose proof (EmitConditionalJump_bound _ _ _ _ _ _ Ec1) as Hel. pose proof (closed_le _ _ _ Hclc). pose proof (closed_le _ _ _ Hclt).
  bstep Hrun as bl s5 Ebr. apply emit_end_inv in Hrun as (c' & Ed & ->). apply delete_If_inv in Ed as (c5 & lend & Eend & Eelse).
  destruct visit_else as [visit_else|].
  - bstep Ebr as term s3 E2. apply the_inv in E2 as [-> ->]. bstep Ebr as b2 s3 E2.
    apply maybe_jmp_inv in E2 as (nl & c3 & -> & -> & Hmj). cbn [then_label_ else_label_ end_label_] in Hmj |- *.
    bstep Ebr as b3 s4 E3. apply emit_opt_inv in E3 as (c4 & Eel & ->). apply Else_inv in Eel as (el' & Eb2 & ->).
    cbn [then_label_ else_label_ end_label_] in *. bstep Ebr as [] s4 E3. munf Ebr. simplify_eq.
    cbn [then_label_ else_label_ end_label_] in *. rewrite (Bind_bound _ _ _ _ Eb2) in Eelse. subst c5.
    destruct (He _ eq_refl _ _ _ (Hs2 : sane (set_bytecode c4 (set_bytecode c3 _))) E3 n2) as (qe & n3 & [Hcle Hwe] & Hs3 & HΦe).
    change (bytecode_ (set_bytecode c4 (set_bytecode c3 s2))) with c4 in Hwe. change (bytecode_ (set_bytecode c3 s2)) with c3 in Eb2.
    eexists _, n3. split; [eapply writes_if_else; eauto; by split|]. split; [exact Hs3|].
    exists cond, s1, c2, s2, (S n), n, (S (S n)), qc, qt. eexists. split; [exact HΦc|]. split; [exact HΦt|]. split; [reflexivity|].
    exists term, c4, s5, qe. split_and!; eauto.
  - munf Ebr. simplify_eq. cbn [then_label_ else_label_ end_label_] in *. rewrite Hel in Eelse. destruct Eelse as [el' Eel].
    eexists _, n2. split; [eapply writes_if_then; eauto; by split|]. split; [exact Hs2|].
    exists cond, s1, c2, s5, (S n), n, (S (S n)), qc, qt. eexists. split; [exact HΦc|]. split; [exact HΦt|]. split; [reflexivity|]. eauto.
Qed.

(** ** Loops

    The labels: [n] for the header, then the end, then the place to continue at. *)

Lemma writes_for n n1 n2 n3 n4 cond qi qc qb qn c c0 c1 c2 c3 c4 c5 c6 c7 c' hl hl' bl bl' cl :
  writes (3 + n) n1 qi c c0 -> Bind new_Label c0 = Some (hl, c1) -> writes n1 n2 qc c1 c2 ->
  EmitConditionalJump (code "JumpIfFalse") cond new_Label c2 = (bl, c3) -> writes n2 n3 qb c3 c4 ->
  Bind new_Label c4 = Some (cl, c5) -> writes n3 n4 qn c5 c6 -> EmitJump (code "Jump") hl c6 = (hl', c7) ->
  Bind bl c7 = Some (bl', c') ->
  writes n n4 (qi ++ Lab n :: qc ++ jmp_if "JumpIfFalse" cond (S n) :: qb ++ Lab (S (S n)) :: qn ++ jmp n :: [Lab (S n)]) c c'.
Proof.
  intros [Hcli Hwi] Eh [Hclc Hwc] Ec [Hclb Hwb] Ecl [Hcln Hwn] Ej Eb. constructor; [solve_closed|].
  pose proof (closed_le _ _ _ Hcli). pose proof (closed_le _ _ _ Hclc). pose proof (closed_le _ _ _ Hclb). pose proof (closed_le _ _ _ Hcln).
  intros labels Hf. destruct (Hwi labels) as (labels1 & Ei1 & Hf1 & Hk1); [still_fresh|].
  destruct (Hwc (<[n := hl]> labels1)) as (labels2 & Ei2 & Hf2 & Hk2); [still_fresh|].
  destruct (Hwb (<[S n := bl]> labels2)) as (labels3 & Ei3 & Hf3 & Hk3); [still_fresh|].
  destruct (Hwn (<[S (S n) := cl]> labels3)) as (labels4 & Ei4 & Hf4 & Hk4); [still_fresh|].
  exists (<[S n := bl']> (<[n := hl']> labels4)).
  emit_piece Ei1. emit_one (emit_label n labels1 c0 hl c1) Eh. emit_piece Ei2.
  emit_one (emit_cond "JumpIfFalse" cond (S n) labels2 c2 bl c3) Ec. emit_piece Ei3.
  emit_one (emit_label (S (S n)) labels3 c4 cl c5) Ecl. emit_piece Ei4.
  emit_one (emit_jump n labels4 c6 hl' c7) Ej. emit_one (emit_label (S n) (<[n := hl']> labels4) c7 bl' c') Eb.
  split; [done|]. split; [still_fresh|]. intros l Hlt. by label_at.
Qed.

Lemma writes_for_ever n n1 n2 n3 qi qb qn c c0 c1 c4 c5 c6 c7 c' hl hl' bl' cl :
  writes (3 + n) n1 qi c c0 -> Bind new_Label c0 = Some (hl, c1) -> writes n1 n2 qb c1 c4 ->
  Bind new_Label c4 = Some (cl, c5) -> writes n2 n3 qn c5 c6 -> EmitJump (code "Jump") hl c6 = (hl', c7) ->
  Bind new_Label c7 = Some (bl', c') ->
  writes n n3 (qi ++ Lab n :: qb ++ Lab (S (S n)) :: qn ++ jmp n :: [Lab (S n)]) c c'.
Proof.
  intros [Hcli Hwi] Eh [Hclb Hwb] Ecl [Hcln Hwn] Ej Eb. constructor; [solve_closed|].
  pose proof (closed_le _ _ _ Hcli). pose proof (closed_le _ _ _ Hclb). pose proof (closed_le _ _ _ Hcln).
  intros labels Hf. destruct (Hwi labels) as (labels1 & Ei1 & Hf1 & Hk1); [still_fresh|].
  destruct (Hwb (<[n := hl]> labels1)) as (labels3 & Ei3 & Hf3 & Hk3); [still_fresh|].
  destruct (Hwn (<[S (S n) := cl]> labels3)) as (labels4 & Ei4 & Hf4 & Hk4); [still_fresh|].
  exists (<[S n := bl']> (<[n := hl']> labels4)).
  emit_piece Ei1. emit_one (emit_label n labels1 c0 hl c1) Eh. emit_piece Ei3.
  emit_one (emit_label (S (S n)) labels3 c4 cl c5) Ecl. emit_piece Ei4.
  emit_one (emit_jump n labels4 c6 hl' c7) Ej. emit_one (emit_label (S n) (<[n := hl']> labels4) c7 bl' c') Eb.
  split; [done|]. split; [still_fresh|]. intros l Hlt. by label_at.
Qed.

(** The steps of the loop builder. *)
Lemma LoopHeader_inv b c b' c' : LoopHeader b c = Some (b', c') ->
  exists l, Bind (header_label_ b) c = Some (l, c') /\ b' = mkLoop (loop_block b) l (continue_label_ b).
Proof. unfold LoopHeader. destruct (Bind _ c) as [[l d]|]; [|done]. intros [= <- <-]. eauto. Qed.
Lemma BindContinueTarget_inv b c b' c' : BindContinueTarget b c = Some (b', c') ->
  exists l, Bind (continue_label_ b) c = Some (l, c') /\ b' = mkLoop (loop_block b) (header_label_ b) l.
Proof. unfold BindContinueTarget. destruct (Bind _ c) as [[l d]|]; [|done]. intros [= <- <-]. eauto. Qed.
Lemma JumpToHeader_inv b s b' s' : emit_with (JumpToHeader b) s = Some (b', s') ->
  exists l c, EmitJump (code "Jump") (header_label_ b) (bytecode_ s) = (l, c) /\
    b' = mkLoop (loop_block b) l (continue_label_ b) /\ s' = set_bytecode c s.
Proof. unfold emit_with, JumpToHeader. destruct (EmitJump _ _ _) as [l c]. intros [= <- <-]. eauto. Qed.
Lemma delete_Loop_inv b s u s' : emit_end (delete_LoopBuilder b) s = Some (u, s') ->
  exists l c, Bind (break_label_ (loop_block b)) (bytecode_ s) = Some (l, c) /\ s' = set_bytecode c s.
Proof.
  intros (c & E & ->)%emit_end_inv. unfold delete_LoopBuilder, delete_BreakableBlockBuilder in E.
  destruct (Bind _ _) as [[l d]|]; [|done]. injection E as <-. eauto.
Qed.

Definition test_items (cond : LocalVar) (l : nat) (qc : list item) : list item := qc ++ [jmp_if "JumpIfFalse" cond l].

Lemma gives_for (visit_init visit_cond visit_next : option (Gen unit)) (visit_body : Gen unit) Φi Φc Φb Φn :
  gives (default (mret tt) visit_init) Φi -> (forall v, visit_cond = Some v -> gives (VisitExpressionForRValue v) Φc) ->
  gives visit_body Φb -> gives (default (mret tt) visit_next) Φn ->
  gives (VisitForStatement visit_init visit_cond visit_next visit_body)
    (fun s _ s' q => exists s1 c1 s2 c2 s3 c3 s4 lh lb lc qi qt qb qn,
       Φi s tt s1 qi /\ Φb (set_bytecode c2 s2) tt s3 qb /\ Φn (set_bytecode c3 s3) tt s4 qn /\ (exists c4, s' = set_bytecode c4 s4) /\
       q = qi ++ Lab lh :: qt ++ qb ++ Lab lc :: qn ++ [jmp lh; Lab lb] /\
       match visit_cond with
       | None => qt = [] /\ s2 = set_bytecode c1 s1
       | Some _ => exists cond qc, Φc (set_bytecode c1 s1) cond s2 qc /\ qt = test_items cond lb qc
       end).
Proof.
  intros Hi Hc Hb Hn s [] s' Hs Hrun n. unfold VisitForStatement, VisitIterationStatement in Hrun.
  bstep Hrun as [] s1 E1. destruct (Hi _ _ _ Hs E1 (3 + n)%nat) as (qi & n1 & Hwi & Hs1 & HΦi).
  bstep Hrun as b1 s2 E. apply emit_opt_inv in E as (c1 & Eh & ->). apply LoopHeader_inv in Eh as (hl & Eh & ->).
  cbn [loop_block header_label_ continue_label_ new_LoopBuilder break_label_] in *.
  bstep Hrun as b2 s2 Et. bstep Hrun as b3 s3 E3. bstep E3 as [] s3' E3'. apply emit_opt_inv in E3 as (c3 & Ecl & ->).
  apply BindContinueTarget_inv in Ecl as (cl & Ecl & ->). bstep Hrun as [] s4 E4. bstep Hrun as b4 s5 E5.
  apply JumpToHeader_inv in E5 as (hl' & c4 & Ej & -> & ->). apply delete_Loop_inv in Hrun as (bl' & c' & Ebl & ->).
  cbn [loop_block header_label_ continue_label_ break_label_] in *. rename s3' into s3.
  destruct visit_cond as [visit_cond|].
  - bstep Et as [tl el] s6 E. unfold VisitExpressionForTest in E. bstep E as cond s7 Ec. bstep E as el' s8 Ejc. munf E. munf Et. simplify_eq.
    apply emit_with_cond in Ejc as (c2 & Ejc & ->). cbn [loop_block header_label_ continue_label_ break_label_] in *.
    destruct (Hc _ eq_refl _ _ _ (Hs1 : sane (set_bytecode c1 s1)) Ec n1) as (qc & n2 & Hwc & Hs7 & HΦc).
    destruct (Hb _ _ _ (Hs7 : sane (set_bytecode c2 s7)) E3' n2) as (qb & n3 & Hwb & Hs3 & HΦb).
    destruct (Hn _ _ _ (Hs3 : sane (set_bytecode c3 s3)) E4 n3) as (qn & n4 & Hwn & Hs4 & HΦn).
    eexists _, n4. split; [by eapply writes_for|]. split; [exact Hs4|].
    exists s1, c1, s7, c2, s3, c3, s4, n, (S n), (S (S n)), qi, (test_items cond (S n) qc), qb, qn.
    split_and!; try done; [by eexists|by unfold test_items; rewrite <- app_assoc|eauto].
  - munf Et. simplify_eq. cbn [loop_block header_label_ continue_label_ break_label_] in *.
    destruct (Hb _ _ _ (Hs1 : sane (set_bytecode c1 s1)) E3' n1) as (qb & n3 & Hwb & Hs3 & HΦb).
    destruct (Hn _ _ _ (Hs3 : sane (set_bytecode c3 s3)) E4 n3) as (qn & n4 & Hwn & Hs4 & HΦn).
    eexists _, n4. split; [by eapply writes_for_ever|]. split; [exact Hs4|].
    exists s1, c1, (set_bytecode c1 s1), c1, s3, c3, s4, n, (S n), (S (S n)), qi, [], qb, qn.
    split_and!; try done; by eexists.
Qed.

End constructs.
