(* ===== verification/GeneratorEmits.v ===== *)
(** Everything the generator writes is well formed: instructions with operands of the types their
    bytecodes declare, jumps to labels that are bound.

    [emits_ok R m]: whenever [m] succeeds, it has written well-formed items and left the functions alone
    but for their locals, and [R] holds of its result. *)
From S2P Require Import Prelude BitUtil Buffer Token Ast Layout Types TypedAst Builtins SemaChecking Bytecodes FunctionInfo BytecodeEmitter BytecodeSpec CTypes GeneratorState GeneratorBuiltins BytecodeGenerator GeneratorSpec.

(** What there is of a function but its locals, and the functions by name. *)
Definition head (f : FunctionInfo TplType) : Z * string * (Z * Z) := (fi_id f, fi_name f, bytecode_range_ f).
Definition heads (s : BytecodeGenerator) : list (Z * string * (Z * Z)) * gmap string Z := (map head (gen_functions_ s), func_map_ s).
(** A function to which only locals that are not parameters were added. *)
Definition parameters_area (f : FunctionInfo TplType) : Z * Z := (params_start_pos_ f, params_size_ f).
Record grown (f f' : FunctionInfo TplType) : Prop := {
  grown_locals : locals_ f `prefix_of` locals_ f';
  grown_parameters : parameters_area f' = parameters_area f
}.
#[export] Instance grown_preorder : PreOrder grown.
Proof. split; [done|]. intros f1 f2 f3 [L1 E1] [L2 E2]. split; [by etrans|by rewrite E2]. Qed.
(** A state from which only such locals were added. *)
Record grows (s s' : BytecodeGenerator) : Prop := {
  grows_heads : heads s' = heads s;
  grows_locals : Forall2 grown (gen_functions_ s) (gen_functions_ s')
}.
#[export] Instance grows_preorder : PreOrder grows.
Proof.
  split.
  - intros s. split; [done|]. reflexivity.
  - intros s1 s2 s3 [E1 H1] [E2 H2]. split; [by rewrite E2|]. by etrans.
Qed.
Lemma grows_same s s' : gen_functions_ s' = gen_functions_ s -> func_map_ s' = func_map_ s -> grows s s'.
Proof.
  intros E E'. destruct (reflexivity (R := grows) s) as [_ Hl]. split; [unfold heads; by rewrite E, E'|by rewrite E].
Qed.
Lemma grows_from_code c s s' : grows (set_bytecode c s) s' -> grows s s'.
Proof. intros H. etrans; [|exact H]. by apply grows_same. Qed.
Lemma grows_to_code c s s' : grows s s' -> grows s (set_bytecode c s').
Proof. intros H. etrans; [exact H|]. by apply grows_same. Qed.
#[export] Hint Extern 0 (grows _ _) => solve [apply grows_same; reflexivity] : core.

Definition good {A} (R : A -> Prop) : spec A := fun s a s' q => Forall item_ok q /\ R a /\ grows s s'.
Record emits_ok {A} (R : A -> Prop) (m : Gen A) : Prop := { emits_good : gives m (good R) }.
Definition any {A} (_ : A) : Prop := True.

Lemma le_encode_wraps n v : (0 < n)%nat -> le_encode n (wraps (8 * Z.of_nat n) v) = le_encode n v.
Proof. intros Hn. rewrite <- le_encode_wrapu, wrapu_wraps by lia. apply le_encode_wrapu. Qed.

(** * Rules *)

Lemma ok_bind {A B} (R : A -> Prop) (R' : B -> Prop) (m : Gen A) (k : A -> Gen B) :
  emits_ok R m -> (forall a, R a -> emits_ok R' (k a)) -> emits_ok R' (a ← m; k a).
Proof.
  intros [Hm] Hk. constructor. intros s b s'' Hs Hr n. apply gen_bind_inv in Hr as (a & s' & E & Hr).
  destruct (Hm s a s' Hs E n) as (q & n' & Hw & Hs' & Hq & Ha & Ef). destruct (Hk a Ha) as [Hk']. destruct (Hk' s' b s'' Hs' Hr n') as (q' & n'' & Hw' & Hs'' & Hq' & Hb & Ef').
  exists (q ++ q'), n''. split; [by eapply writes_app|]. split; [done|]. split; [by apply Forall_app|]. split; [done|by etrans].
Qed.

Lemma ok_weaken {A} (R R' : A -> Prop) (m : Gen A) : emits_ok R m -> (forall a, R a -> R' a) -> emits_ok R' m.
Proof. intros [Hm] HR. constructor. eapply gives_weaken; [exact Hm|]. intros s a s' q (Hq & Ha & Ef). split; [done|]. split; [auto|done]. Qed.

(** Pieces that write nothing. *)
Lemma ok_silent {A} (R : A -> Prop) (m : Gen A) :
  (forall s a s', sane s -> m s = Some (a, s') -> bytecode_ s' = bytecode_ s /\ sane s' /\ R a /\ grows s s') -> emits_ok R m.
Proof.
  intros Hm. constructor. apply gives_silent. intros s a s' Hs Hr. destruct (Hm s a s' Hs Hr) as (? & ? & ? & ?).
  split; [done|]. split; [done|]. by split.
Qed.

Lemma ok_ret {A} (R : A -> Prop) (a : A) : R a -> emits_ok R (mret a).
Proof. intros Ha. apply ok_silent. by intros s _ _ Hs [= <- <-]. Qed.
Lemma ok_undefined {A} (R : A -> Prop) : emits_ok R (undefined : Gen A).
Proof. constructor. by intros s a s' _ [=]. Qed.
Lemma ok_the {A} (R : A -> Prop) (o : option A) : (forall a, o = Some a -> R a) -> emits_ok R (the o).
Proof. intros Ho. destruct o; [by apply ok_ret, Ho|apply ok_undefined]. Qed.
Lemma ok_gets {A} (f : BytecodeGenerator -> A) : emits_ok any (gets f).
Proof. apply ok_silent. by intros s _ _ Hs [= <- <-]. Qed.

Lemma ok_emit f i : emits f i -> emits_ok any (emit f).
Proof.
  intros [Hi Hf]. constructor. eapply gives_weaken; [by apply gives_emit|]. intros s [] s' q [-> ->].
  split; [by apply Forall_singleton|]. split; [done|by apply grows_same].
Qed.

(** ** Emissions *)

(** What an argument of the emitter must be for an operand of a type: a number of any size is read at the
    width of the operand. *)
Definition arg_ok (t : OperandType) (a : BytecodeEmitter.arg) : Prop :=
  match t, a with
  | Local, ALocal v | StaticLocal, ALocal v => local_ok v
  | (Imm1 | Imm2 | Imm4 | Imm8 | Imm4F | Imm8F | UImm2 | UImm4 | FunctionId), AImm n _ => n = operand_size t
  | _, _ => False
  end.
Lemma arg_ok_value t a : arg_ok t a -> exists z, operand_ok t z /\ arg_bytes a = encode_operand t z.
Proof.
  assert (forall n z, le_encode n (wrapu (8 * Z.of_nat n) z) = le_encode n z) as Hu by apply le_encode_wrapu.
  assert (forall n z, (0 < n)%nat -> le_encode n (wraps (8 * Z.of_nat n) z) = le_encode n z) as Hs by apply le_encode_wraps.
  destruct t, a as [b|v|n z]; cbn [arg_ok arg_bytes]; try done; try (intros Hv; by exists (bitfield_ v)); intros ->;
    unfold encode_operand.
  all: match goal with |- exists w, operand_ok ?t w /\ _ =>
         first [ exists (wraps (8 * Z.of_nat (operand_size t)) z); split; [by apply wraps_range|by rewrite Hs by (vm_compute; lia)]
               | exists (wrapu (8 * Z.of_nat (operand_size t)) z); split; [by apply wrapu_range|by rewrite Hu] ] end.
Qed.

(** An emission with any operands, read as the declared types. *)
Lemma ok_emission b ts args : GetOperandTypes b = Some ts -> Forall2 arg_ok ts args -> emits_ok any (emit (EmitAll (ABytecode b :: args))).
Proof.
  intros Hb Ha. assert (exists vals, Forall2 operand_ok ts vals /\ map arg_bytes args = zip_with encode_operand ts vals) as (vals & Ho & Ev).
  { clear Hb. induction Ha as [|t a ts args Hta _ (vals & Ho & Ev)]; [by exists []|]. destruct (arg_ok_value _ _ Hta) as (z & Hz & Ez).
    exists (z :: vals). split; [by constructor|]. cbn [map zip_with]. by rewrite Ez, Ev. }
  by eapply ok_emit, emits_args.
Qed.
Lemma ok_locals b vs : GetOperandTypes b = Some (map (fun _ => Local) vs) -> Forall local_ok vs -> emits_ok any (emit (Emit b vs)).
Proof. intros Hb Hv. eapply ok_emission; [done|]. clear Hb. by induction Hv; constructor. Qed.
Lemma ok_Emit_op name vs : GetOperandTypes (code name) = Some (map (fun _ => Local) vs) -> Forall local_ok vs -> emits_ok any (Emit_op name vs).
Proof. apply ok_locals. Qed.

Lemma emits_call f params : Z.of_nat (length params) < 2 ^ 16 -> Forall local_ok params ->
  emits (EmitCall f params) (CallI (wrapu 16 f) (map bitfield_ params)).
Proof.
  intros Hn Hp. split.
  - split; [by apply wrapu_range|]. split; [rewrite length_map; split; lia|by apply Forall_map].
  - intros bc. rewrite EmitCall_bytes. cbn [encode_instr]. change 16 with (8 * Z.of_nat 2). by rewrite le_encode_wrapu, length_map, map_map.
Qed.
Lemma ok_call f params : Z.of_nat (length params) < 2 ^ 16 -> Forall local_ok params -> emits_ok any (emit (EmitCall f params)).
Proof. intros Hn Hp. by eapply ok_emit, emits_call. Qed.
Lemma ok_return : emits_ok any (emit EmitReturn).
Proof.
  apply (ok_emit _ (Plain (code "Return") [])).
  exact (emits_args (code "Return") [] [] [] ltac:(vm_compute; reflexivity) ltac:(constructor) eq_refl).
Qed.

(** An emission of a bytecode that is known, or that has known operands. *)
Ltac emission_ok :=
  unfold EmitDeref, EmitDerefN, EmitAssign, EmitAssignN, EmitAssignImm1, EmitAssignImm2, EmitAssignImm4, EmitAssignImm8,
    EmitAssignImm4F, EmitAssignImm8F, EmitUnaryOp, EmitBinaryOp, EmitLea, EmitLeaScaled, EmitInitString,
    EmitThreadStateContainerIterate, EmitThreadStateContainerReset, EmitTableIterInit, EmitParallelTableScan, EmitVPIGet,
    EmitVPISet, EmitFilterManagerInsertFilter, EmitJoinHashTableInit, EmitAggHashTableProcessBatch,
    EmitAggHashTableMovePartitions, EmitAggHashTableParallelPartitionedScan, EmitSorterInit, EmitCSVReaderInit, EmitConcat,
    fid, u16, u32, i8, i16, i32, i64;
  eapply ok_emission; [first [eassumption | vm_compute; reflexivity]|];
  repeat (first [apply Forall2_nil_2 | apply Forall2_cons_2]); first [assumption | reflexivity | apply ValueOf_ok | apply new_LocalVar_ok].

Ltac locals_ok := repeat (first [apply Forall_nil_2 | apply Forall_cons_2]); first [assumption | apply ValueOf_ok | apply new_LocalVar_ok].

(** One step of a run. *)
Ltac ok_atom := first
  [ eassumption
  | apply ok_undefined
  | solve [eapply ok_Emit_op; [vm_compute; reflexivity|locals_ok]]
  | solve [emission_ok]
  | solve [eauto 2 with emits generator] ].
Ltac ok_step := first
  [ ok_atom
  | eapply ok_weaken; [ok_atom|by intros ? ?]
  | eapply ok_bind; [ok_atom|intros ? ?]
  | apply ok_ret; first [exact I | assumption | solve [eauto 2 with generator]] ].
Create HintDb emits.
#[export] Hint Resolve ok_gets ok_call ok_return : emits.

(** ** The state *)

Lemma the_any {A} (o : option A) : emits_ok any (the o).
Proof. by apply ok_the. Qed.
Lemma ok_ret_any {A} (a : A) : emits_ok any (mret a).
Proof. by apply ok_ret. Qed.
#[export] Hint Resolve the_any ok_ret_any : emits.

Lemma ok_GetExecutionResult : emits_ok (fun r => local_ok (destination_ r)) GetExecutionResult.
Proof.
  apply ok_silent. intros s r s' Hs H. bstep H as r' s1 E. injection E as <- <-. apply the_inv in H as [E ->].
  split; [done|]. split; [done|]. split; [by apply Hs|done].
Qed.
#[export] Hint Resolve ok_GetExecutionResult : emits.

Lemma ok_GetDestination : emits_ok local_ok GetDestination.
Proof. unfold GetDestination. repeat ok_step. Qed.
Lemma ok_IsLValue : emits_ok any IsLValue.
Proof. unfold IsLValue. repeat ok_step. Qed.
Lemma ok_IsRValue : emits_ok any IsRValue.
Proof. unfold IsRValue. repeat ok_step. Qed.
#[export] Hint Resolve ok_GetDestination ok_IsLValue ok_IsRValue : emits.
Lemma ok_HasDestination : emits_ok any HasDestination.
Proof. unfold HasDestination. repeat ok_step. Qed.
Lemma ok_HasExecutionResult : emits_ok any HasExecutionResult.
Proof. unfold HasExecutionResult. repeat ok_step. Qed.
Lemma ok_LookupFuncIdByName name : emits_ok any (LookupFuncIdByName name).
Proof. unfold LookupFuncIdByName. repeat ok_step. Qed.
#[export] Hint Resolve ok_HasDestination ok_HasExecutionResult ok_LookupFuncIdByName : emits.

Lemma ok_set_result r : (forall x, r = Some x -> local_ok (destination_ x)) -> emits_ok any (update (set_result r)).
Proof. intros Hr. apply ok_silent. intros s [] s' Hs [= <-]. split; [done|]. split; [exact Hr|done]. Qed.
Lemma ok_SetDestination d : local_ok d -> emits_ok any (SetDestination d).
Proof. intros Hd. unfold SetDestination. ok_step. apply ok_set_result. by intros x [= <-]. Qed.
#[export] Hint Resolve ok_SetDestination : emits.

Section scopes.
Context `{AlignOps, CppClasses}.

Lemma grows_last f f' s : last (gen_functions_ s) = Some f -> head f' = head f -> grown f f' ->
  grows s (set_functions (removelast (gen_functions_ s) ++ [f']) s).
Proof.
  intros Hf E Hl. destruct (gen_functions_ s) as [|x l] eqn:El using rev_ind; [done|].
  rewrite last_snoc in Hf. injection Hf as ->. rewrite removelast_last. split; unfold heads; cbn [set_functions gen_functions_ func_map_]; rewrite El.
  - rewrite !map_app. cbn [map]. by rewrite E.
  - apply Forall2_app; [done|by constructor].
Qed.

Lemma NewLocal_head (f : FunctionInfo TplType) t name : head (NewLocal f t name).2 = head f.
Proof. unfold NewLocal. destruct (String.eqb _ _); done. Qed.
Lemma NewLocal_grown (f : FunctionInfo TplType) t name : grown f (NewLocal f t name).2.
Proof. unfold NewLocal. destruct (String.eqb _ _); (split; [by eexists|done]). Qed.
Lemma NewLocal_ok (f : FunctionInfo TplType) t name : local_ok (NewLocal f t name).1.
Proof. unfold NewLocal. destruct (String.eqb _ _); apply new_LocalVar_ok. Qed.

Lemma ok_NewLocal type name : emits_ok local_ok (NewLocal_named type name).
Proof.
  apply ok_silent. intros s a s' Hs. unfold NewLocal_named. destruct (last (gen_functions_ s)) as [f|] eqn:Ef; [|done].
  pose proof (NewLocal_ok f type name). pose proof (NewLocal_head f type name). pose proof (NewLocal_grown f type name). destruct (NewLocal f type name) as [local f'].
  intros [= <- <-]. split; [done|]. split; [exact Hs|]. split; [done|]. by eapply grows_last.
Qed.
Lemma ok_NewTemp type : emits_ok local_ok (NewTemp type).
Proof. apply ok_NewLocal. Qed.
Lemma ok_GetCurrentFunction : emits_ok any GetCurrentFunction.
Proof. unfold GetCurrentFunction. ok_step. ok_step. Qed.
#[local] Hint Resolve ok_NewLocal ok_NewTemp : emits.

Lemma ok_GetOrCreateDestination type : emits_ok local_ok (GetOrCreateDestination type).
Proof.
  unfold GetOrCreateDestination. ok_step. destruct a; [ok_step|]. repeat ok_step.
Qed.

(** A scope runs its visit. *)
Lemma ok_in_result_scope kind d visit : local_ok d -> emits_ok any visit -> emits_ok local_ok (in_result_scope kind d visit).
Proof.
  intros Hd [Hv]. constructor. intros s a s' Hs Hr n. unfold in_result_scope in Hr. bstep Hr as outer s0 E. injection E as <- <-.
  bstep Hr as [] s1 E. injection E as <-. bstep Hr as [] s2 E2. bstep Hr as d' s3 E3. bstep Hr as [] s4 E4. injection E4 as <-.
  munf Hr. injection Hr as <- <-.
  assert (sane (set_result (Some (mkResultScope d kind)) s)) as Hs1 by (by intros r [= <-]).
  destruct (Hv _ _ _ Hs1 E2 n) as (q & n' & Hw & Hs2 & Hq & _ & Er).
  unfold GetDestination in E3. bstep E3 as r s5 E. bstep E as o s6 E0. injection E0 as <- <-. apply the_inv in E as [Ed ->].
  munf E3. injection E3 as <- <-. exists q, n'. split; [exact Hw|]. split; [exact Hs|]. split; [done|]. split; [by apply Hs2|].
  etrans; [|apply (grows_same s2); reflexivity]. etrans; [|exact Er]. by apply grows_same.
Qed.
Lemma invalid_ok : local_ok invalid_LocalVar.
Proof. apply new_LocalVar_ok. Qed.
#[local] Hint Resolve invalid_ok : generator.

Lemma ok_RValue visit : emits_ok any visit -> emits_ok local_ok (VisitExpressionForRValue visit).
Proof. apply ok_in_result_scope, new_LocalVar_ok. Qed.
Lemma ok_LValue visit : emits_ok any visit -> emits_ok local_ok (VisitExpressionForLValue visit).
Proof. apply ok_in_result_scope, new_LocalVar_ok. Qed.
Lemma ok_SQLValue visit : emits_ok any visit -> emits_ok local_ok (VisitExpressionForSQLValue visit).
Proof. apply ok_LValue. Qed.
Lemma ok_RValue_into visit dest : local_ok dest -> emits_ok any visit -> emits_ok any (VisitExpressionForRValue_into visit dest).
Proof.
  intros Hd Hv. unfold VisitExpressionForRValue_into. eapply ok_bind; [by apply ok_in_result_scope|]. intros _ _. by apply ok_ret.
Qed.

(** ** Copies *)

Lemma ok_if {A} (R : A -> Prop) (c : bool) (m m' : Gen A) : emits_ok R m -> emits_ok R m' -> emits_ok R (if c then m else m').
Proof. by destruct c. Qed.
Lemma emit_if (c : bool) f g : emits_ok any (emit f) -> emits_ok any (emit g) -> emits_ok any (emit (if c then f else g)).
Proof. by destruct c. Qed.

Lemma ok_BuildAssign dest val type : local_ok dest -> local_ok val -> emits_ok any (BuildAssign dest val type).
Proof. intros Hd Hv. unfold BuildAssign. ok_step. cbv zeta. repeat first [apply emit_if | ok_step]. Qed.
Lemma ok_BuildDeref dest ptr type : local_ok dest -> local_ok ptr -> emits_ok any (BuildDeref dest ptr type).
Proof. intros Hd Hv. unfold BuildDeref. ok_step. cbv zeta. repeat first [apply emit_if | ok_step]. Qed.
Lemma ok_BuildLoadPointer ptr type : local_ok ptr -> emits_ok local_ok (BuildLoadPointer ptr type).
Proof. intros Hp. unfold BuildLoadPointer. case_decide; repeat ok_step. Qed.

(** ** Static data *)

Lemma ok_NewStatic name type contents : emits_ok local_ok (NewStatic name type contents).
Proof.
  unfold NewStatic. ok_step. cbv zeta. eapply (ok_bind any); [apply ok_if; [by apply ok_ret|apply ok_undefined]|]. intros _ _. ok_step.
  eapply (ok_bind any); [|intros _ _; apply ok_ret, new_LocalVar_ok].
  apply ok_silent. intros s [] s' Hs [= <-]. split; [done|]. split; [exact Hs|done].
Qed.
Lemma ok_NewStaticString string : emits_ok local_ok (NewStaticString string).
Proof.
  unfold NewStaticString. ok_step. destruct (a !! string); [apply ok_ret, new_LocalVar_ok|].
  eapply ok_bind; [apply ok_NewStatic|]. intros local Hl. eapply (ok_bind any); [|intros _ _; by apply ok_ret].
  apply ok_silent. intros s [] s' Hs [= <-]. split; [done|]. split; [exact Hs|done].
Qed.

End scopes.
#[export] Hint Resolve ok_NewLocal ok_NewTemp ok_GetCurrentFunction ok_GetOrCreateDestination ok_RValue ok_LValue ok_SQLValue
  ok_RValue_into ok_BuildAssign ok_BuildDeref ok_BuildLoadPointer ok_NewStaticString : emits.
