(* ===== verification/GeneratorWellFormed.v ===== *)
(** The bytecode generator writes well-formed programs: every method emits instructions with the operands
    their bytecodes declare, and binds the labels it jumps to. *)
From S2P Require Import Prelude BitUtil Buffer Token Ast TreeInduction Layout Types TypedAst Builtins SemaChecking Bytecodes FunctionInfo BytecodeEmitter BytecodeSpec CTypes GeneratorState GeneratorBuiltins BytecodeGenerator GeneratorSpec GeneratorEmits.

(** * Bytecodes at a type *)

Definition small_int (k : BuiltinKind) : bool :=
  match k with Int8 | Int16 | Int32 | Int64 | UInt8 | UInt16 | UInt32 | UInt64 => true | _ => false end.
Definition small_unsigned (k : BuiltinKind) : bool := match k with UInt8 | UInt16 | UInt32 | UInt64 => true | _ => false end.
Definition type_in (p : BuiltinKind -> bool) (type : option TplType) : bool :=
  match type with Some (BuiltinType k) => p k | _ => false end.

Definition takes (n : nat) (b : Z) : Prop := GetOperandTypes b = Some (replicate n Local).
#[export] Instance takes_decision n b : Decision (takes n b).
Proof. unfold takes. solve_decision. Defined.

Lemma takes_decided n b : bool_decide (takes n b) = true -> takes n b.
Proof. apply bool_decide_eq_true_1. Qed.

Lemma type_in_inv p type : type_in p type = true -> exists k, type = Some (BuiltinType k) /\ p k = true.
Proof. destruct type as [[]|]; try done. intros Hk. by eexists. Qed.

Definition small_ints : list BuiltinKind := [Int8; Int16; Int32; Int64; UInt8; UInt16; UInt32; UInt64].
Definition int_bytecode (base : Z) (sign : bool) (k : BuiltinKind) : Z :=
  wrapu 32 (base + (Z.of_nat (kind_index k) - Z.of_nat (kind_index (if sign then Int8 else UInt8)))).
Definition float_bytecode (base : Z) (k : BuiltinKind) : Z :=
  wrapu 32 (base + wrapu 8 (Z.of_nat (kind_index k) - Z.of_nat (kind_index Float32))).

Lemma ok_IntTyped n base sign (p : BuiltinKind -> bool) type :
  forallb (fun k => negb (p k) || bool_decide (takes n (int_bytecode base sign k))) small_ints = true ->
  (forall k, p k = true -> small_int k = true) -> type_in p type = true ->
  emits_ok (takes n) (GetIntTypedBytecode base type sign).
Proof.
  intros Hall Hp (k & -> & Hk)%type_in_inv. apply ok_silent. intros s b s' Hs [= <- <-].
  split; [done|]. split; [done|]. split; [|done]. rewrite forallb_forall in Hall. specialize (Hall k).
  rewrite Hk in Hall. change (takes n (int_bytecode base sign k)). apply takes_decided, Hall. specialize (Hp k Hk). destruct k; try done; simpl; tauto.
Qed.

Lemma ok_FloatTyped n base type : forallb (fun k => bool_decide (takes n (float_bytecode base k))) [Float32; Float64] = true ->
  type_in IsFloatingPoint type = true -> emits_ok (takes n) (GetFloatTypedBytecode base type).
Proof.
  intros Hall (k & -> & Hk)%type_in_inv. apply ok_silent. intros s b s' Hs [= <- <-].
  split; [done|]. split; [done|]. split; [|done]. rewrite forallb_forall in Hall. specialize (Hall k).
  change (takes n (float_bytecode base k)). apply takes_decided, Hall. destruct k; try done; simpl; tauto.
Qed.

(** The types the generator has bytecodes for. *)
Definition arithmetic (type : option TplType) : bool := type_in (fun k => small_int k || IsFloatingPoint k) type.
Definition comparable (type : option TplType) : bool :=
  match type with Some (BuiltinType k) => if IsIntegral k then small_int k else true | _ => true end.

Lemma integer_small k : IsIntegerType (BuiltinType k) = true -> small_int k || IsFloatingPoint k = true -> small_int k = true.
Proof. by destruct k. Qed.
Lemma not_integer_float k : IsIntegerType (BuiltinType k) = false -> small_int k || IsFloatingPoint k = true -> IsFloatingPoint k = true.
Proof. by destruct k. Qed.

Lemma ok_math op type :
  forallb (fun k => negb (small_int k) || bool_decide (takes 3 (int_bytecode (int_base op) true k))) small_ints = true ->
  forallb (fun k => bool_decide (takes 3 (float_bytecode (float_base op) k))) [Float32; Float64] = true ->
  arithmetic type = true -> emits_ok (takes 3) (MATH_BYTECODE op type).
Proof.
  intros Hi Hf Ht. unfold MATH_BYTECODE. apply type_in_inv in Ht as (k & -> & Hk). eapply (ok_bind (fun t => t = BuiltinType k)); [by apply ok_ret|].
  intros _ ->. destruct (IsIntegerType (BuiltinType k)) eqn:E.
  - apply (ok_IntTyped 3 _ true small_int); [done|done|]. by apply integer_small.
  - apply ok_FloatTyped; [done|]. by apply not_integer_float.
Qed.

Lemma ok_comparison name type : In name ["GreaterThan"; "GreaterThanEqual"; "Equal"; "LessThan"; "LessThanEqual"; "NotEqual"]%string ->
  comparable type = true -> emits_ok (takes 3) (COMPARISON_BYTECODE name type).
Proof.
  intros Hn Ht. unfold COMPARISON_BYTECODE. eapply (ok_bind (fun t => type = Some t)); [by apply ok_the|]. intros t ->.
  destruct (IsIntegerType t) eqn:Ei; [|destruct (IsFloatType t) eqn:Ef; [|apply ok_ret]].
  - apply (ok_IntTyped 3 _ true small_int); [|done|].
    + repeat destruct Hn as [<-|Hn]; try done; vm_compute; reflexivity.
    + destruct t as [k| | | | | |]; try done. cbn [type_in comparable] in *. change (IsIntegral k = true) in Ei. by rewrite Ei in Ht.
  - apply ok_FloatTyped; [repeat destruct Hn as [<-|Hn]; try done; vm_compute; reflexivity|]. destruct t; done.
  - repeat destruct Hn as [<-|Hn]; try done; vm_compute; reflexivity.
Qed.

(** * Builtin functions *)

Create HintDb builtin_calls.

(** The arguments of [Ctlz] and [Cttz]. *)
Definition builtin_typed (func : TExpression) (arg_types : list (option TplType)) : bool :=
  match name ← GetFuncName func; IsBuiltinFunction name with
  | Some (Ctlz | Cttz) => match arg_types with t :: _ => type_in small_unsigned t | [] => true end
  | _ => true
  end.

Section builtins.
Context `{AlignOps, CppClasses, Catalog}.
Context (args : list argument) (call_type : option TplType).
Context (Hargs : Forall (fun a => emits_ok any (arg_visit a)) args).

Lemma ok_arg i : emits_ok (fun a => emits_ok any (arg_visit a) /\ args !! i = Some a) (arg args i).
Proof. apply ok_the. intros a Ha. split; [|done]. rewrite Forall_lookup in Hargs. by eapply Hargs. Qed.
Lemma ok_arg_type i : emits_ok any (arg_type args i).
Proof. unfold arg_type. eapply ok_bind; [apply ok_arg|]. intros a _. ok_step. Qed.
Lemma ok_arg_rvalue i : emits_ok local_ok (arg_for_rvalue args i).
Proof. unfold arg_for_rvalue. eapply ok_bind; [apply ok_arg|]. intros a [Ha _]. by apply ok_RValue. Qed.
Lemma ok_arg_lvalue i : emits_ok local_ok (arg_for_lvalue args i).
Proof. unfold arg_for_lvalue. eapply ok_bind; [apply ok_arg|]. intros a [Ha _]. by apply ok_LValue. Qed.
Lemma ok_arg_sql i : emits_ok local_ok (arg_for_sql args i).
Proof. unfold arg_for_sql. eapply ok_bind; [apply ok_arg|]. intros a [Ha _]. by apply ok_SQLValue. Qed.
Lemma ok_arg_string i : emits_ok any (arg_string args i).
Proof.
  unfold arg_string. eapply ok_bind; [apply ok_arg|]. intros a _. destruct (arg_node a); try apply ok_undefined.
  destruct value; try apply ok_undefined. by apply ok_ret.
Qed.
Lemma ok_arg_int i : emits_ok any (arg_int args i).
Proof.
  unfold arg_int. eapply ok_bind; [apply ok_arg|]. intros a _. destruct (arg_node a); try apply ok_undefined.
  destruct value; try apply ok_undefined. by apply ok_ret.
Qed.
Lemma ok_arg_bool i : emits_ok any (arg_bool args i).
Proof.
  unfold arg_bool. eapply ok_bind; [apply ok_arg|]. intros a _. destruct (arg_node a); try apply ok_undefined.
  destruct value; try apply ok_undefined. by apply ok_ret.
Qed.
Lemma ok_arg_name i : emits_ok any (arg_name args i).
Proof. unfold arg_name. eapply ok_bind; [apply ok_arg|]. intros a _. ok_step. Qed.
#[local] Hint Resolve ok_arg_type ok_arg_rvalue ok_arg_lvalue ok_arg_sql ok_arg_string ok_arg_int ok_arg_bool ok_arg_name : emits.
Lemma ok_arg_function i : emits_ok any (arg_function args i).
Proof. unfold arg_function. repeat ok_step. Qed.
Lemma ok_destination : emits_ok local_ok (destination_for_call call_type).
Proof. unfold destination_for_call. ok_step. Qed.
Lemma ok_result_in d : local_ok d -> emits_ok any (result_in d).
Proof. intros Hd. unfold result_in. ok_step. Qed.
#[local] Hint Resolve ok_arg_function ok_destination ok_result_in : emits.

(** A method that is one run per builtin. *)
Ltac ok_all := cbv beta zeta; repeat first [ok_step | apply ok_if].
Ltac ok_cases f := destruct f; try apply ok_undefined; ok_all.

Lemma ok_SqlConversionCall f : emits_ok any (VisitSqlConversionCall args call_type f).
Proof. unfold VisitSqlConversionCall. ok_step. ok_cases f. Qed.
Lemma ok_NullValueCall f : emits_ok any (VisitNullValueCall args call_type f).
Proof. unfold VisitNullValueCall. ok_cases f. Qed.
Lemma ok_LNotCall : emits_ok any (VisitLNotCall args call_type).
Proof. unfold VisitLNotCall. ok_all. Qed.
Lemma ok_LikeCall : emits_ok any (VisitSqlStringLikeCall args call_type).
Proof. unfold VisitSqlStringLikeCall. ok_all. Qed.
Lemma ok_DateCall f : emits_ok any (VisitBuiltinDateFunctionCall args call_type f).
Proof. unfold VisitBuiltinDateFunctionCall. ok_step. ok_step. eapply (ok_bind any); [ok_cases f|]. intros _ _. ok_all. Qed.

Lemma ok_concat_elements arr ptr l i : local_ok arr -> local_ok ptr -> Forall (fun a => emits_ok any (arg_visit a)) l ->
  emits_ok any (concat_elements arr ptr l i).
Proof.
  intros Ha Hp Hl. revert i. induction Hl as [|a l Hv _ IH]; intros i; cbn [concat_elements]; [by apply ok_ret|].
  ok_all.
Qed.
Lemma ok_ConcatCall : emits_ok any (VisitBuiltinConcatCall args call_type).
Proof.
  unfold VisitBuiltinConcatCall. ok_all. eapply ok_bind; [apply ok_concat_elements; try done|intros _ _; ok_all].
  by apply Forall_tail.
Qed.
Lemma ok_TableIterCall f : emits_ok any (VisitBuiltinTableIterCall args call_type f).
Proof. unfold VisitBuiltinTableIterCall. ok_step. ok_cases f. Qed.
Lemma ok_TableIterParallelCall : emits_ok any (VisitBuiltinTableIterParallelCall args).
Proof. unfold VisitBuiltinTableIterParallelCall. ok_all. Qed.
Lemma ok_VPICall f : emits_ok any (VisitBuiltinVPICall args call_type f).
Proof. unfold VisitBuiltinVPICall. ok_step. ok_cases f. Qed.
Lemma ok_CompactStorageCall f : emits_ok any (VisitBuiltinCompactStorageCall args call_type f).
Proof. unfold VisitBuiltinCompactStorageCall. ok_step. ok_cases f. Qed.

Lemma ok_hash_inputs h l : local_ok h -> Forall (fun a => emits_ok any (arg_visit a)) l -> emits_ok any (hash_inputs h l).
Proof.
  intros Hh Hl. induction Hl as [|a l Hv _ IH]; cbn [hash_inputs]; [by apply ok_ret|]. ok_step. ok_step.
  destruct a1 as [k| | | | | |]; try (eapply (ok_bind any); [apply ok_undefined|done]).
  eapply (ok_bind any); [ok_cases k|]. intros _ _. ok_all.
Qed.
Lemma ok_HashCall : emits_ok any (VisitBuiltinHashCall args call_type).
Proof. unfold VisitBuiltinHashCall. ok_step. ok_step. eapply ok_bind; [by apply ok_hash_inputs|]. intros _ _. ok_all. Qed.

Lemma ok_insert_filters d l : local_ok d -> emits_ok any (insert_filters d l).
Proof. intros Hd. induction l as [|a l IH]; cbn [insert_filters]; [by apply ok_ret|]. ok_all. Qed.
Lemma ok_FilterManagerCall f : emits_ok any (VisitBuiltinFilterManagerCall args f).
Proof. unfold VisitBuiltinFilterManagerCall. ok_step. ok_cases f. by apply ok_insert_filters. Qed.

Lemma ok_VectorFilterCall f : emits_ok any (VisitBuiltinVectorFilterCall args f).
Proof. unfold VisitBuiltinVectorFilterCall. ok_step. ok_step. ok_cases f. Qed.

Lemma ok_AggHashTableCall f : emits_ok any (VisitBuiltinAggHashTableCall args call_type f).
Proof.
  unfold VisitBuiltinAggHashTableCall. destruct f; try apply ok_undefined;
    lazymatch goal with |- context [Nat.ltb] => idtac | _ => by ok_all end.
  do 3 ok_step.
  eapply (ok_bind (fun name => name = "AggregationHashTableAllocTuple" \/ name = "AggregationHashTableAllocTuplePartitioned")%string).
  - destruct (Nat.ltb _ _); [ok_step|]; apply ok_ret; [destruct a2|]; auto.
  - intros name [-> | ->]; ok_all.
Qed.
Lemma ok_AggHashTableIterCall f : emits_ok any (VisitBuiltinAggHashTableIterCall args call_type f).
Proof. unfold VisitBuiltinAggHashTableIterCall. ok_cases f. Qed.
Lemma ok_AggPartIterCall f : emits_ok any (VisitBuiltinAggPartIterCall args call_type f).
Proof. unfold VisitBuiltinAggPartIterCall. ok_cases f. Qed.

(** *** Aggregates *)

Definition op_arity (op : AggOpKind) : nat := match op with AggOpInit | AggOpReset => 1 | _ => 2 end.
Lemma OpForAgg_takes op k name : OpForAgg op k = Some name -> takes (op_arity op) (code name).
Proof.
  unfold OpForAgg. destruct (List.find _ AGG_CODES) as [e|] eqn:E; [|done]. intros [= <-]. apply List.find_some in E as [He _].
  assert (forallb (fun e => forallb (fun op => bool_decide (takes (op_arity op)
    (code (match op with AggOpInit => e.2.1 +:+ "Init" | AggOpAdvance => e.2.2 | AggOpGetResult => e.2.1 +:+ "GetResult"
     | AggOpMerge => e.2.1 +:+ "Merge" | AggOpReset => e.2.1 +:+ "Reset" end)%string))) [AggOpInit; AggOpAdvance; AggOpGetResult; AggOpMerge; AggOpReset])
    AGG_CODES = true) as Hall by (vm_compute; reflexivity).
  rewrite forallb_forall in Hall. specialize (Hall e He). rewrite forallb_forall in Hall. specialize (Hall op).
  apply takes_decided, Hall. destruct op; simpl; tauto.
Qed.
Lemma ok_OpForAgg op k : emits_ok (fun name => takes (op_arity op) (code name)) (the (OpForAgg op k)).
Proof. apply ok_the. intros name. apply OpForAgg_takes. Qed.

Lemma ok_for_aggregates op l : op_arity op = 1%nat -> Forall (fun a => emits_ok any (arg_visit a)) l -> emits_ok any (for_aggregates op l).
Proof.
  intros Hop Hl. induction Hl as [|a l Hv _ IH]; cbn [for_aggregates]; [by apply ok_ret|]. ok_step. ok_step.
  eapply ok_bind; [apply ok_OpForAgg|]. intros name Hn. rewrite Hop in Hn.
  eapply ok_bind; [eapply (ok_Emit_op name [a1]); [exact Hn|locals_ok]|]. intros _ _. exact IH.
Qed.
Lemma ok_AggregatorCall f : emits_ok any (VisitBuiltinAggregatorCall args call_type f).
Proof.
  assert (forall op name (x y : LocalVar), op_arity op = 2%nat -> takes (op_arity op) (code name) -> local_ok x -> local_ok y ->
    emits_ok any (Emit_op name [x; y])) as Hemit.
  { intros op name x y E Hn Hx Hy. rewrite E in Hn. eapply ok_Emit_op; [exact Hn|locals_ok]. }
  unfold VisitBuiltinAggregatorCall. destruct f; try apply ok_undefined; try (by apply ok_for_aggregates);
    (eapply ok_bind; [apply ok_arg|]; intros a _); do 3 ok_step; (eapply ok_bind; [apply ok_OpForAgg|]; intros name Hn);
    try (by eapply Hemit; [|exact Hn|..]).
  eapply (ok_bind (fun name => takes 2 (code name))).
  - destruct (bool_decide _); [|by apply ok_ret]. ok_step. apply ok_ret. destruct (IsSpecificBuiltin _ _); [|done]. vm_compute. reflexivity.
  - intros name' Hn'. by eapply (Hemit AggOpAdvance).
Qed.

(** *** Joins, sorting, input and output *)

Lemma ok_JoinHashTableCall f : emits_ok any (VisitBuiltinJoinHashTableCall args call_type f).
Proof. unfold VisitBuiltinJoinHashTableCall. ok_step. ok_cases f. Qed.
Lemma ok_HashTableEntryCall f : emits_ok any (VisitBuiltinHashTableEntryCall args call_type f).
Proof. unfold VisitBuiltinHashTableEntryCall. ok_step. ok_cases f. Qed.
Lemma ok_AnalysisStatsCall f : emits_ok any (VisitBuiltinAnalysisStatsCall args f).
Proof. unfold VisitBuiltinAnalysisStatsCall. ok_step. ok_cases f. Qed.
Lemma ok_SorterCall f : emits_ok any (VisitBuiltinSorterCall args call_type f).
Proof. unfold VisitBuiltinSorterCall. ok_cases f. Qed.
Lemma ok_SorterIterCall f : emits_ok any (VisitBuiltinSorterIterCall args call_type f).
Proof. unfold VisitBuiltinSorterIterCall. ok_step. ok_cases f. Qed.
Lemma ok_ResultBufferCall f : emits_ok any (VisitResultBufferCall args call_type f).
Proof. unfold VisitResultBufferCall. ok_step. ok_cases f. Qed.
Lemma ok_CSVReaderCall f : emits_ok any (VisitCSVReaderCall args call_type f).
Proof. unfold VisitCSVReaderCall. ok_step. ok_cases f. Qed.
Lemma ok_ExecutionContextCall f : emits_ok any (VisitExecutionContextCall args call_type f).
Proof. unfold VisitExecutionContextCall. ok_step. ok_step. eapply (ok_bind any); [ok_cases f|]. intros _ _. ok_all. Qed.
Lemma ok_ThreadStateContainerCall f : emits_ok any (VisitBuiltinThreadStateContainerCall args call_type f).
Proof. unfold VisitBuiltinThreadStateContainerCall. ok_step. ok_cases f. Qed.

(** *** Arithmetic *)

Lemma ok_TrigCall f : emits_ok any (VisitBuiltinTrigCall args call_type f).
Proof. unfold VisitBuiltinTrigCall. ok_step. ok_step. ok_cases f. Qed.
Lemma ok_wanted_or_temp : emits_ok local_ok (wanted_or_temp call_type).
Proof. unfold wanted_or_temp. ok_step. destruct a; ok_all. Qed.
Lemma ok_result_if_wanted d : local_ok d -> emits_ok any (result_if_wanted d).
Proof. intros Hd. unfold result_if_wanted. ok_step. destruct a; ok_all. Qed.
#[local] Hint Resolve ok_wanted_or_temp ok_result_if_wanted : emits.

Lemma ok_BitsCall f : (forall t a, args !! 0%nat = Some a -> t = GetType (arg_node a) -> type_in small_unsigned t = true) ->
  emits_ok any (VisitBuiltinBitsCall args call_type f).
Proof.
  intros Ht. unfold VisitBuiltinBitsCall. ok_step. ok_step. eapply ok_bind; [apply ok_arg|]. intros x [_ Hx].
  specialize (Ht _ _ Hx eq_refl). eapply (ok_bind (takes 2)).
  - destruct f; try apply ok_undefined; (eapply ok_IntTyped; [..|exact Ht]); [vm_compute; reflexivity|by intros []|vm_compute; reflexivity|by intros []].
  - intros b Hb. eapply ok_bind; [eapply (ok_locals b [a; a0]); [exact Hb|locals_ok]|]. intros _ _. ok_all.
Qed.
Lemma ok_SizeOfCall : emits_ok any (VisitBuiltinSizeOfCall args call_type).
Proof. unfold VisitBuiltinSizeOfCall. ok_all. Qed.
Lemma ok_OffsetOfCall : emits_ok any (VisitBuiltinOffsetOfCall args call_type).
Proof. unfold VisitBuiltinOffsetOfCall. ok_all. Qed.

Definition cast_names : list string :=
  ["bool"; "int8_t"; "int16_t"; "int32_t"; "int64_t"; "uint8_t"; "uint16_t"; "uint32_t"; "uint64_t"]%string.
Lemma cast_type_name t name : cast_type t = Some name -> In name cast_names.
Proof. destruct t as [k| | | | | |]; try done. destruct k; try done; intros [= <-]; simpl; tauto. Qed.
Lemma ok_IntCastCall : emits_ok any (VisitBuiltinIntCastCall args call_type).
Proof.
  unfold VisitBuiltinIntCastCall. do 4 ok_step.
  eapply (ok_bind (fun n => In n cast_names)); [apply ok_the; intros ?; apply cast_type_name|]. intros n1 H1'.
  eapply (ok_bind (fun n => In n cast_names)); [apply ok_the; intros ?; apply cast_type_name|]. intros n2 H2'.
  assert (forallb (fun n => forallb (fun n' => bool_decide (takes 2 (code (typed (typed "Cast" n) n')))) cast_names) cast_names = true) as Hall
    by (vm_compute; reflexivity).
  rewrite forallb_forall in Hall. specialize (Hall _ H1'). rewrite forallb_forall in Hall. specialize (Hall _ H2').
  apply takes_decided in Hall. eapply ok_bind; [eapply (ok_Emit_op _ [a; a0]); [exact Hall|locals_ok]|]. intros _ _. ok_all.
Qed.

#[local] Hint Resolve ok_SqlConversionCall ok_NullValueCall ok_LNotCall ok_LikeCall ok_DateCall ok_ConcatCall ok_TableIterCall
  ok_TableIterParallelCall ok_VPICall ok_CompactStorageCall ok_HashCall ok_FilterManagerCall ok_VectorFilterCall ok_AggHashTableCall
  ok_AggHashTableIterCall ok_AggPartIterCall ok_AggregatorCall ok_JoinHashTableCall ok_HashTableEntryCall ok_AnalysisStatsCall
  ok_SorterCall ok_SorterIterCall ok_ResultBufferCall ok_CSVReaderCall ok_ExecutionContextCall ok_ThreadStateContainerCall
  ok_TrigCall ok_SizeOfCall ok_OffsetOfCall ok_IntCastCall : builtin_calls.

(** The dispatch. *)
Lemma ok_BuiltinCall func : builtin_typed func (map (fun a => GetType (arg_node a)) args) = true ->
  emits_ok any (VisitBuiltinCallExpression args call_type func).
Proof.
  intros Ht. unfold VisitBuiltinCallExpression. ok_step. eapply (ok_bind (fun n => GetFuncName func = Some n)); [by apply ok_the|]. intros n Hn.
  eapply (ok_bind (fun f => IsBuiltinFunction n = Some f)); [by apply ok_the|]. intros f Hf.
  unfold builtin_typed in Ht. rewrite Hn in Ht. cbn [mbind option_bind] in Ht. rewrite Hf in Ht.
  destruct f; auto with builtin_calls; try apply ok_undefined;
    try (apply ok_BitsCall; intros t x Hx ->; destruct args; simplify_eq/=; done).
  eapply ok_bind; [apply ok_arg|]. by intros x [Hx _].
Qed.

End builtins.

(** * Jumps *)

Lemma jmp_if_ok b cond l : In b ["JumpIfTrue"; "JumpIfFalse"]%string -> local_ok cond -> item_ok (jmp_if b cond l).
Proof.
  intros Hb Hc. split; [|by apply Forall_singleton]. repeat destruct Hb as [<-|Hb]; try done; vm_compute; reflexivity.
Qed.
Lemma jmp_ok l : item_ok (jmp l).
Proof. split; [vm_compute; reflexivity|constructor]. Qed.

Ltac items := repeat first [apply Forall_app; split | apply Forall_cons; split | apply Forall_nil_2]; try done; try exact I;
  try apply jmp_ok; try (apply jmp_if_ok; [simpl; tauto|done]).

Lemma ok_ext {A} (R : A -> Prop) (m m' : Gen A) : (forall s, m' s = m s) -> emits_ok R m -> emits_ok R m'.
Proof. intros E [Hm]. constructor. intros s a s' Hs. rewrite E. by apply Hm. Qed.
Lemma gen_bind_assoc3 {A B C D} (m : Gen A) (k : Gen B) (h : A -> Gen C) (j : C -> Gen D) s :
  (a ← m; k;; c ← h a; j c) s = (c ← (a ← m; k;; h a); j c) s.
Proof.
  unfold mbind, Gen_bind. destruct (m s) as [[a s1]|]; [|done]. destruct (k s1) as [[b s2]|]; [|done]. by destruct (h a s2) as [[c s3]|].
Qed.

Section statements.
Context `{AlignOps, CppClasses}.

Lemma ok_jump_over {A} b cond (m : Gen A) R : In b ["JumpIfTrue"; "JumpIfFalse"]%string -> local_ok cond -> emits_ok R m ->
  emits_ok any (end_label ← emit_with (EmitConditionalJump (code b) cond new_Label); m;; emit_opt (Bind end_label)).
Proof.
  intros Hb Hc [Hm]. constructor. eapply gives_weaken; [by apply gives_jump_over|].
  intros s e s' q (l & c & a & sr & qr & -> & (Hq & _ & Er) & c' & ->). split; [|split; [done|]]; [items|]. eapply grows_to_code, grows_from_code, Er.
Qed.

Lemma maybe_jmp_ok b l : Forall item_ok (maybe_jmp b l).
Proof. destruct b; [constructor|]. constructor; [apply jmp_ok|constructor]. Qed.

Lemma ok_IfStatement terminating cond then_ else_ : emits_ok any cond -> emits_ok any then_ -> on_child (emits_ok any) else_ ->
  emits_ok any (VisitIfStatement terminating cond then_ else_).
Proof.
  intros Hc [Ht] He. destruct (ok_RValue cond Hc) as [Hc']. constructor.
  eapply gives_weaken; [apply (gives_if terminating cond then_ else_ (good local_ok) (good any) (good any) Hc' Ht)|].
  { intros v ->. by destruct He. }
  intros s [] s' q (cv & s1 & c1 & s2 & lt & le & lend & qc & qt & rest & (Hqc & Hcv & E1) & (Hqt & _ & E2) & -> & Hrest).
  assert (grows s s2) as E4 by (etrans; [exact E1|eapply grows_from_code, E2]).
  destruct else_ as [else_|].
  - destruct Hrest as (b & c2 & s3 & qe & _ & -> & (Hqe & _ & E3) & c & ->).
    split; [|split; [done|etrans; [exact E4|eapply grows_to_code, grows_from_code, E3]]]. items; apply maybe_jmp_ok.
  - destruct Hrest as [-> [c ->]]. split; [|split; [done|eapply grows_to_code, E4]]. items.
Qed.

Lemma ok_ForStatement init cond next body : on_child (emits_ok any) init -> on_child (emits_ok any) cond -> on_child (emits_ok any) next ->
  emits_ok any body -> emits_ok any (VisitForStatement init cond next body).
Proof.
  intros Hi Hc Hn [Hb]. assert (forall o, on_child (emits_ok any) o -> gives (default (mret tt) o) (good any)) as Hopt.
  { intros [v|] Hv; [by destruct Hv|]. exact (emits_good _ _ (ok_ret any tt I)). }
  constructor. eapply gives_weaken; [apply (gives_for init cond next body (good any) (good local_ok) (good any) (good any) (Hopt _ Hi)); [|exact Hb|exact (Hopt _ Hn)]|].
  { intros v ->. by destruct (ok_RValue v Hc). }
  intros s [] s' q (s1 & c1 & s2 & c2 & s3 & c3 & s4 & lh & lb & lc & qi & qt & qb & qn & (Hqi & _ & E1) & (Hqb & _ & E2) & (Hqn & _ & E3) & (c4 & ->) & -> & Hcond).
  assert (grows s2 s4) as E5 by (etrans; [eapply grows_from_code, E2|eapply grows_from_code, E3]).
  destruct cond as [cond|].
  - destruct Hcond as (cv & qc & (Hqc & Hcv & E4) & ->).
    split; [|split; [done|]]; [unfold test_items; items|]. apply grows_to_code. etrans; [exact E1|]. etrans; [eapply grows_from_code, E4|exact E5].
  - destruct Hcond as [-> ->]. split; [|split; [done|]]; [items|]. apply grows_to_code. etrans; [exact E1|]. eapply grows_from_code, E5.
Qed.

End statements.

(** * The trees the generator has bytecodes for *)

Definition binary_typed (op : TokenType) (type : option TplType) : bool :=
  match op with
  | AND | OR => true
  | PLUS | MINUS | STAR | SLASH | PERCENT => match type with Some t => IsSqlValueType t || arithmetic type | None => true end
  | _ => match type with Some t => IsSqlValueType t || type_in small_int type | None => true end
  end.
Definition comparison_typed (left_type type : option TplType) : bool :=
  match type with Some t => if IsSpecificBuiltin t Bool then comparable left_type else true | None => true end.
Definition unary_typed (op : TokenType) (type : option TplType) : bool :=
  match op with MINUS | BIT_NOT => type_in small_int type | _ => true end.
(** The number of parameters has 16 bits in a call. *)
Definition call_typed (func : TExpression) : bool :=
  match GetType func with Some (FunctionType params _) => Z.of_nat (length params) <? 2 ^ 16 - 1 | _ => true end.

(** Operations on integers of 128 bits, the negation of floating-point numbers and calls with 2^16 - 1
    arguments or more have no bytecode; functions are declared in a file only. *)
Fixpoint has_bytecode (e : TExpression) : bool :=
  match e with
  | TBinaryOpExpression _ op l r type => binary_typed op type && has_bytecode l && has_bytecode r
  | TCallExpression Regular func args _ => call_typed func && forallb has_bytecode args
  | TCallExpression Builtin func args _ => builtin_typed func (map GetType args) && forallb has_bytecode args
  | TComparisonOpExpression _ _ l r type => comparison_typed (GetType l) type && has_bytecode l && has_bytecode r
  | TFunctionLiteralExpression _ body _ => statement_has_bytecode body
  | TImplicitCastExpression _ _ input _ => has_bytecode input
  | TIndexExpression _ object index _ => has_bytecode object && has_bytecode index
  | TMemberExpression _ object _ _ => has_bytecode object
  | TUnaryOpExpression _ op input type => unary_typed op type && has_bytecode input
  | _ => true
  end
with statement_has_bytecode (s : TStatement) : bool :=
  match s with
  | TAssignmentStatement _ dest src => has_bytecode dest && has_bytecode src
  | TBlockStatement _ _ statements => forallb statement_has_bytecode statements
  | TDeclarationStatement (TVariableDeclaration _ _ _ (Some init)) => has_bytecode init
  | TDeclarationStatement (TFunctionDeclaration _ _ _) => false
  | TExpressionStatement e => has_bytecode e
  | TForStatement _ init cond next body =>
      match init with Some i => statement_has_bytecode i | None => true end &&
      match cond with Some c => has_bytecode c | None => true end &&
      match next with Some n => statement_has_bytecode n | None => true end && statement_has_bytecode body
  | TIfStatement _ cond then_stmt else_stmt =>
      has_bytecode cond && statement_has_bytecode then_stmt &&
      match else_stmt with Some e => statement_has_bytecode e | None => true end
  | TReturnStatement _ (Some e) => has_bytecode e
  | _ => true
  end.
Definition declaration_has_bytecode (d : TDeclaration) : bool :=
  match d with
  | TFunctionDeclaration _ _ func => has_bytecode func
  | TVariableDeclaration _ _ _ (Some init) => has_bytecode init
  | _ => true
  end.
Definition file_has_bytecode (f : TFile) : bool := let '(mkTFile _ decls) := f in forallb declaration_has_bytecode decls.

Section visitors.
Context `{AlignOps, CppClasses, Catalog}.

Lemma ok_load_element p type : local_ok p -> emits_ok any (load_element p type).
Proof. intros Hp. unfold load_element. ok_step. destruct a; repeat ok_step. Qed.
#[local] Hint Resolve ok_load_element : emits.
Ltac ok_all := cbv beta zeta; repeat first [ok_step | apply ok_if | apply emit_if
  | eapply (ok_bind any); [solve [repeat first [apply emit_if | ok_atom]]|intros _ _] ].

Lemma LookupLocal_ok (f : FunctionInfo TplType) name : local_ok (LookupLocal f name).
Proof. unfold LookupLocal. destruct (LookupLocalInfoByName f name); apply new_LocalVar_ok. Qed.
#[local] Hint Resolve LookupLocal_ok : generator.

Lemma ok_Identifier name type : emits_ok any (VisitIdentifierExpression name type).
Proof.
  unfold VisitIdentifierExpression. ok_step. pose proof (LookupLocal_ok a (string_of name)). ok_step. destruct a0; [ok_all|].
  ok_step. destruct a0; cbn [negb]; ok_all. eapply (ok_bind any); [ok_all|]. intros _ _. ok_all.
Qed.
Lemma ok_ImplicitCast kind input_type type v : emits_ok any v -> emits_ok any (VisitImplicitCastExpression kind input_type type v).
Proof. intros Hv. unfold VisitImplicitCastExpression. destruct kind; try apply ok_undefined; ok_all. Qed.
Lemma ok_ArrayIndex n elem index type v w : emits_ok any v -> emits_ok any w ->
  emits_ok any (VisitArrayIndexExpression n elem index type v w).
Proof.
  intros Hv Hw. unfold VisitArrayIndexExpression. cbv zeta. eapply (ok_bind local_ok); [apply ok_if; ok_step|]. intros arr Harr.
  ok_step. ok_step. eapply (ok_bind any); [|intros _ _; ok_all].
  destruct index; try (ok_all; fail). destruct value; ok_all.
Qed.
Lemma ok_AddressOf type v : emits_ok any v -> emits_ok any (VisitAddressOfExpression type v).
Proof. intros Hv. unfold VisitAddressOfExpression. ok_all. Qed.
Lemma ok_Deref type v : emits_ok any v -> emits_ok any (VisitDerefExpression type v).
Proof. intros Hv. unfold VisitDerefExpression. ok_all. Qed.
Lemma ok_ArithmeticUnary op type v : unary_typed op type = true -> emits_ok any v -> emits_ok any (VisitArithmeticUnaryExpression op type v).
Proof.
  intros Ht Hv. unfold VisitArithmeticUnaryExpression. ok_step. ok_step. eapply (ok_bind (takes 2)).
  - destruct op; try apply ok_undefined; (eapply ok_IntTyped; [..|exact Ht]); [vm_compute; reflexivity|done|vm_compute; reflexivity|done].
  - intros b Hb. ok_all.
Qed.
Lemma ok_LogicalNot type v : emits_ok any v -> emits_ok any (VisitLogicalNotExpression type v).
Proof. intros Hv. unfold VisitLogicalNotExpression. ok_all. Qed.
Lemma ok_Literal value type : emits_ok any (VisitLiteralExpression value type).
Proof. unfold VisitLiteralExpression. ok_step. destruct value; ok_all. Qed.
Lemma ok_LogicalAndOr op type v w : emits_ok any v -> emits_ok any w -> emits_ok any (VisitLogicalAndOrExpression op type v w).
Proof.
  intros Hv Hw. unfold VisitLogicalAndOrExpression. ok_step. ok_step.
  eapply (ok_bind (fun b => exists name, b = code name /\ In name ["JumpIfTrue"; "JumpIfFalse"]%string)).
  - destruct op; try apply ok_undefined; apply ok_ret; eexists; (split; [reflexivity|simpl; tauto]).
  - intros b (name & -> & Hn). eapply ok_ext; [intros s; apply gen_bind_assoc3|]. eapply (ok_bind any); [|intros _ _; ok_all].
    apply (ok_jump_over name _ _ any); [done|apply ValueOf_ok|ok_step].
Qed.
Lemma ok_PrimitiveArithmetic op type v w : match op with
    | PLUS | MINUS | STAR | SLASH | PERCENT => arithmetic type | _ => type_in small_int type end = true ->
  emits_ok any v -> emits_ok any w -> emits_ok any (VisitPrimitiveArithmeticExpression op type v w).
Proof.
  intros Ht Hv Hw. unfold VisitPrimitiveArithmeticExpression. ok_step. ok_step. ok_step. eapply (ok_bind (takes 3)); [|intros b Hb; ok_all].
  destruct op; try apply ok_undefined;
    first [ apply ok_math; [vm_compute; reflexivity|vm_compute; reflexivity|exact Ht]
          | eapply ok_IntTyped; [|by intros|exact Ht]; vm_compute; reflexivity ].
Qed.
Lemma ok_SqlArithmetic op type v w : emits_ok any v -> emits_ok any w -> emits_ok any (VisitSqlArithmeticExpression op type v w).
Proof.
  intros Hv Hw. unfold VisitSqlArithmeticExpression. do 4 ok_step. cbv zeta. eapply (ok_bind (takes 3)); [|intros b Hb; ok_all].
  destruct op; try apply ok_undefined; apply ok_ret; destruct (IsSpecificBuiltin _ _); vm_compute; reflexivity.
Qed.
Lemma ok_Arithmetic op type v w : op <> AND -> op <> OR -> binary_typed op type = true -> emits_ok any v -> emits_ok any w ->
  emits_ok any (VisitArithmeticExpression op type v w).
Proof.
  intros Ha Ho Ht Hv Hw. unfold VisitArithmeticExpression. eapply (ok_bind (fun t => type = Some t)); [by apply ok_the|]. intros t ->.
  destruct (IsSqlValueType t) eqn:Es; [by apply ok_SqlArithmetic|]. apply ok_PrimitiveArithmetic; [|done|done].
  unfold binary_typed in Ht. rewrite Es in Ht. by destruct op.
Qed.
Lemma comparison_name_in op name : comparison_name op = Some name ->
  In name ["GreaterThan"; "GreaterThanEqual"; "Equal"; "LessThan"; "LessThanEqual"; "NotEqual"]%string.
Proof. destruct op; try done; intros [= <-]; simpl; tauto. Qed.
Lemma SQL_COMPARISON_takes name k b : In name ["GreaterThan"; "GreaterThanEqual"; "Equal"; "LessThan"; "LessThanEqual"; "NotEqual"]%string ->
  SQL_COMPARISON_BYTECODE name k = Some b -> takes 3 b.
Proof.
  intros Hn. repeat destruct Hn as [<-|Hn]; try done; destruct k; try done; intros [= <-]; vm_compute; reflexivity.
Qed.
Lemma ok_SqlComparison op left_type type v w : emits_ok any v -> emits_ok any w ->
  emits_ok any (VisitSqlComparisonExpression op left_type type v w).
Proof.
  intros Hv Hw. unfold VisitSqlComparisonExpression. do 4 ok_step.
  eapply ok_bind; [apply ok_the; intros name; apply comparison_name_in|]. intros name Hn.
  eapply (ok_bind (takes 3)); [apply ok_the; intros b; by apply SQL_COMPARISON_takes|]. intros b Hb. ok_all.
Qed.
Lemma ok_PrimitiveComparison op l r type v w : comparable (GetType l) = true -> emits_ok any v -> emits_ok any w ->
  emits_ok any (VisitPrimitiveComparisonExpression op l r type v w).
Proof.
  intros Ht Hv Hw. unfold VisitPrimitiveComparisonExpression. ok_step. destruct (IsLiteralCompareNil _ _ _) as [b|].
  - eapply (ok_bind local_ok); [apply ok_RValue; by destruct b|]. intros input Hi.
    eapply (ok_bind any); [|intros _ _; ok_all]. case_decide; ok_step.
  - ok_step. ok_step. eapply ok_bind; [apply ok_the; intros name; apply comparison_name_in|]. intros name Hn.
    eapply ok_bind; [by apply ok_comparison|]. intros b Hb. ok_all.
Qed.
Lemma ok_ComparisonOp op l r type v w : comparison_typed (GetType l) type = true -> emits_ok any v -> emits_ok any w ->
  emits_ok any (VisitComparisonOpExpression op l r type v w).
Proof.
  intros Ht Hv Hw. unfold VisitComparisonOpExpression. eapply (ok_bind (fun t => type = Some t)); [by apply ok_the|]. intros t ->.
  unfold comparison_typed in Ht. destruct (IsSpecificBuiltin t Bool); cbn [negb]; [by apply ok_PrimitiveComparison|by apply ok_SqlComparison].
Qed.
Lemma ok_Member object_type member type v : emits_ok any v -> emits_ok any (VisitMemberExpression object_type member type v).
Proof.
  intros Hv. unfold VisitMemberExpression. ok_step. ok_step.
  eapply (ok_bind (fun p => local_ok p.1)); [|intros [p fields] Hp; cbn [fst] in Hp; ok_all].
  destruct a0 as [| |b| | | |]; try apply ok_undefined; [|by apply ok_ret]. ok_step.
  destruct b; try apply ok_undefined. by apply ok_ret.
Qed.

Lemma ok_call_params n l : Forall (fun a => emits_ok any (arg_visit a)) l ->
  emits_ok (fun ps => Forall local_ok ps /\ length ps = n) (call_params n l).
Proof.
  intros Hl. revert n. induction Hl as [|a l Hv _ IH]; intros [|n]; cbn [call_params]; try apply ok_undefined; try (by apply ok_ret).
  ok_step. eapply ok_bind; [apply IH|]. intros ps [Hps <-]. apply ok_ret. split; [by constructor|done].
Qed.
Lemma ok_RegularCall func args : call_typed func = true -> Forall (fun a => emits_ok any (arg_visit a)) args ->
  emits_ok any (VisitRegularCallExpression func args).
Proof.
  intros Ht Ha. unfold VisitRegularCallExpression.
  eapply (ok_bind (fun p => GetType func = Some (FunctionType p.1 p.2))).
  { apply ok_the. intros [ps ret]. destruct (GetType func) as [[]|]; try done. by intros [= <- <-]. }
  intros [params ret] Hf. cbn [fst snd] in Hf. unfold call_typed in Ht. rewrite Hf in Ht. bprop.
  eapply (ok_bind (fun l => Forall local_ok l /\ (length l <= 1)%nat)).
  - destruct (IsNilType ret); [apply ok_ret; split; [constructor|simpl; lia]|]. ok_step.
    destruct a; [|ok_step; apply ok_ret; split; [by apply Forall_singleton|simpl; lia]]. ok_step. ok_step.
    eapply (ok_bind any); [destruct a0; ok_all|]. intros _ _. apply ok_ret. split; [by apply Forall_singleton|simpl; lia].
  - intros rp [Hrp Hn]. eapply ok_bind; [by apply ok_call_params|]. intros ps [Hps Hl]. ok_step. ok_step.
    apply ok_call; [rewrite length_app; lia|by apply Forall_app].
Qed.

(** * Statements and declarations *)

Lemma ok_Return ret : on_child (fun p => emits_ok any p.2) ret -> emits_ok any (VisitReturnStatement ret).
Proof.
  intros Hr. unfold VisitReturnStatement. eapply (ok_bind any); [|intros _ _; apply ok_return].
  destruct ret as [[type v]|]; [|by apply ok_ret]. cbn [on_child snd] in Hr. ok_step. ok_step.
  assert (local_ok (GetReturnValueLocal a)) by apply new_LocalVar_ok. ok_all.
Qed.
Lemma ok_Assignment v w : emits_ok any v -> emits_ok any w -> emits_ok any (VisitAssignmentStatement v w).
Proof. intros Hv Hw. unfold VisitAssignmentStatement. ok_all. Qed.
Lemma ok_VariableDeclaration name repr init : on_child (fun p => emits_ok any p.2) init ->
  emits_ok any (VisitVariableDeclaration name repr init).
Proof.
  intros Hi. unfold VisitVariableDeclaration. ok_step. ok_step. destruct init as [[t v]|]; [|ok_all]. cbn [on_child snd] in Hi. ok_all.
Qed.
Lemma ok_gen_all {A} (visit : A -> Gen unit) l : Forall (fun a => emits_ok any (visit a)) l -> emits_ok any (gen_all visit l).
Proof. induction 1 as [|a l Ha _ IH]; cbn [gen_all]; [by apply ok_ret|]. eapply ok_bind; [exact Ha|]. intros _ _. exact IH. Qed.

(** Every visitor of a tree with bytecodes writes well-formed items. *)
Definition local_declaration_has_bytecode (d : TDeclaration) : bool :=
  match d with TFunctionDeclaration _ _ _ => false | _ => declaration_has_bytecode d end.

Lemma ok_visitors :
  (forall e, has_bytecode e = true -> emits_ok any (gen_expr e)) /\
  (forall s, statement_has_bytecode s = true -> emits_ok any (gen_stmt s)) /\
  (forall d, local_declaration_has_bytecode d = true -> emits_ok any (gen_decl d)).
Proof.
  apply typed_tree_ind.
  - intros p _. by apply ok_ret.
  - intros e He _. destruct e; try done; by apply ok_ret.
  - intros p op l r t IHl IHr Ht. cbn [has_bytecode] in Ht. bprop.
    destruct op; cbn [gen_expr]; first [by apply ok_LogicalAndOr; auto | by apply ok_Arithmetic; auto].
  - intros k f args t _ IH Ht. assert (forallb has_bytecode args = true -> Forall (fun a => emits_ok any (arg_visit a)) (map (fun a => mkArgument a (gen_expr a)) args)) as Hargs.
    { intros Ha. apply Forall_map. cbn [arg_visit]. rewrite forallb_forall in Ha. rewrite Forall_forall in *. intros a Hin.
      apply IH; [done|]. by apply Ha, list_elem_of_In. }
    destruct k; cbn [has_bytecode] in Ht; bprop; cbn [gen_expr]; [by apply ok_RegularCall; auto|]. apply ok_BuiltinCall; [auto|]. by rewrite map_map.
  - intros p op l r t IHl IHr Ht. cbn [has_bytecode] in Ht. bprop. apply ok_ComparisonOp; auto.
  - intros r b t IH Ht. by apply IH.
  - intros p n t _. apply ok_Identifier.
  - intros p k e t IH Ht. apply ok_ImplicitCast, IH, Ht.
  - intros p o i t IHo IHi Ht. cbn [has_bytecode] in Ht. bprop. cbn [gen_expr]. destruct (GetType o) as [[]|]; try apply ok_undefined;
      try (by apply ok_ret). apply ok_ArrayIndex; auto.
  - intros p v t _. apply ok_Literal.
  - intros p o m t IHo _ Ht. apply ok_Member, IHo, Ht.
  - intros p op e t IH Ht. cbn [has_bytecode] in Ht. bprop. cbn [gen_expr].
    destruct op; try apply ok_undefined; first [by apply ok_AddressOf; auto | by apply ok_Deref; auto | by apply ok_ArithmeticUnary; auto | by apply ok_LogicalNot; auto].
  - intros p d s IHd IHs Ht. cbn [statement_has_bytecode] in Ht. bprop. apply ok_Assignment; auto.
  - intros p rp ss IH Ht. cbn [statement_has_bytecode] in Ht. apply ok_gen_all. rewrite forallb_forall in Ht. rewrite Forall_forall in *.
    intros s Hs. apply IH; [done|]. by apply Ht, list_elem_of_In.
  - intros d IH Ht. cbn [gen_stmt]. apply IH. destruct d; done.
  - intros e IH Ht. by apply IH.
  - intros p i c n b IHi IHc IHn IHb Ht. cbn [statement_has_bytecode] in Ht. bprop.
    apply ok_ForStatement; [destruct i|destruct c|destruct n|]; cbn [option_map on_child] in *; auto.
  - intros p t i b _ _ _ _. by apply ok_ret.
  - intros p c t e IHc IHt IHe Ht. cbn [statement_has_bytecode] in Ht. bprop. apply ok_IfStatement; [..|destruct e; cbn [option_map on_child] in *]; auto.
  - intros p r IH Ht. apply ok_Return. destruct r; cbn [option_map on_child snd] in *; auto.
  - done.
  - intros p n t _. by apply ok_ret.
  - intros p n t i IH Ht. apply ok_VariableDeclaration. destruct i; cbn [option_map on_child snd] in *; auto.
Qed.

End visitors.
