(* ===== verification/GeneratorTheorems.v ===== *)
(** What the bytecode generator leaves in a module: one well-formed program, in which the code of every
    function is a part that jumps only within itself. *)
From S2P Require Import Prelude BitUtil Buffer Token Ast TreeInduction Layout Types TypedAst Builtins SemaChecking Bytecodes FunctionInfo FunctionInfoSpec BytecodeEmitter BytecodeSpec CTypes Memory VmHandlers VM VmSpec Driver GeneratorState GeneratorBuiltins BytecodeGenerator GeneratorSpec GeneratorEmits GeneratorWellFormed.

(** * Sizes *)

Lemma patch_length sites target : forall c c', patch sites target c = Some c' -> length c' = length c.
Proof.
  induction sites as [|x sites IH]; intros c c'; cbn [patch]; [by intros [= ->]|].
  destruct (store x _ c) as [c1|] eqn:E; [|done]. cbn [mbind option_bind]. intros H%IH. apply length_store in E. lia.
Qed.

Lemma emit_item_length it labels c labels' c' : item_ok it -> emit_item it (labels, c) = Some (labels', c') ->
  Z.of_nat (length c') = Z.of_nat (length c) + item_size it.
Proof.
  intros Hok. destruct it as [i|b cond l|l]; cbn [emit_item].
  - destruct i as [b args|f locals]; [rewrite emit_plain|rewrite emit_call]; (intros [= <- <-]; unfold item_size; rewrite length_app, Nat2Z.inj_add; reflexivity).
  - rewrite emit_jump_head. unfold EmitJumpOperand. intros E. pose proof (length_jump_head b cond). cbn [item_size].
    destruct (IsBound (labels l)); injection E as <- <-; unfold EmitScalarValue; rewrite !length_app, length_le_encode; lia.
  - unfold Bind. destruct (if IsForwardTarget _ then _ else _) as [c1|] eqn:E; [|done]. intros [= <- <-]. cbn [item_size].
    destruct (IsForwardTarget _); [apply patch_length in E; lia|by injection E as ->; lia].
Qed.

Lemma emit_items_length q : Forall item_ok q -> forall labels c labels' c', emit_items q (labels, c) = Some (labels', c') ->
  Z.of_nat (length c') = Z.of_nat (length c) + program_size q.
Proof.
  induction 1 as [|it q Hit _ IH]; intros labels c labels' c'; [intros [= <- <-]; unfold program_size; simpl; lia|].
  rewrite emit_items_cons. destruct (emit_item it (labels, c)) as [[l1 c1]|] eqn:E; [|done]. cbn [mbind option_bind].
  intros E'%IH. apply emit_item_length in E; [|done]. cbn [program_size foldr]. fold (program_size q). lia.
Qed.

Lemma writes_length n n' q c c' : Forall item_ok q -> writes n n' q c c' -> Z.of_nat (length c') = Z.of_nat (length c) + program_size q.
Proof.
  intros Hq [_ Hw]. destruct (Hw no_labels) as (labels' & E & _); [by intros l _|]. by eapply emit_items_length.
Qed.

(** * The functions of a file *)

(** A range of bytes that are those of a part of the program, which jumps only within itself. *)
Definition in_place (pos : Z) (q : list item) (r : Z * Z) : Prop := exists before body after,
  q = before ++ body ++ after /\ (forall l, l ∈ targets_of body -> l ∈ labels_of body) /\
  r = (pos + program_size before, pos + program_size before + program_size body).

Definition function_name (d : TDeclaration) : option string :=
  match d with TFunctionDeclaration _ name _ => Some (string_of name) | _ => None end.
Definition function_names (f : TFile) : list string := let '(mkTFile _ decls) := f in omap function_name decls.

(** The functions some declarations add. *)
Definition adds (decls : list TDeclaration) : spec unit := fun s _ s' q => Forall item_ok q /\ exists new,
  (heads s').1 = (heads s).1 ++ new /\ Forall (fun h => in_place (Z.of_nat (length (bytecode_ s))) q h.2) new /\
  map (fun h => h.1.2) new = omap function_name decls /\
  forall i h, new !! i = Some h -> h.1.1 = wrapu 16 (Z.of_nat (length (gen_functions_ s) + i)).

Section files.
Context `{AlignOps, CppClasses, Catalog}.

Lemma in_place_left pos q q' r : in_place pos q r -> in_place pos (q ++ q') r.
Proof. intros (b & y & a & -> & Hy & ->). exists b, y, (a ++ q'). split; [by rewrite <- !app_assoc|done]. Qed.
Lemma in_place_right pos q q' r : in_place (pos + program_size q) q' r -> in_place pos (q ++ q') r.
Proof.
  intros (b & y & a & -> & Hy & ->). exists (q ++ b), y, a. split; [by rewrite <- !app_assoc|]. split; [done|].
  rewrite program_size_app. f_equal; lia.
Qed.

Lemma NewParameterLocal_head (f : FunctionInfo TplType) t name : head (NewParameterLocal f t name).2 = head f.
Proof. done. Qed.
Lemma new_parameters_head params : forall f f', new_parameters f params = Some f' -> head f' = head f.
Proof.
  induction params as [|[n t] params IH]; intros f f'; cbn [new_parameters]; [by intros [= ->]|].
  destruct (Identifier_ToString n) as [n'|]; [|done]. cbn [mbind option_bind].
  pose proof (NewParameterLocal_head f t n') as Hh. destruct (NewParameterLocal f t n') as [v f1]. intros Hf%IH. by rewrite Hf.
Qed.

(** A function is added without code. *)
Lemma AllocateFunc_inv name params ret s u s' : AllocateFunc name params ret s = Some (u, s') -> exists f,
  gen_functions_ s' = gen_functions_ s ++ [f] /\ bytecode_ s' = bytecode_ s /\ execution_result_ s' = execution_result_ s /\
  head f = (wrapu 16 (Z.of_nat (length (gen_functions_ s))), name, (0, 0)).
Proof.
  unfold AllocateFunc. intros Hr. bstep Hr as fs s1 E. injection E as <- <-. bstep Hr as f s1 E. apply the_inv in E as [Ef ->].
  bstep Hr as [] s1 E. injection E as <-. bstep Hr as m s1 E. injection E as <- <-. injection Hr as _ <-.
  exists f. split; [done|]. split; [done|]. split; [done|]. rewrite (new_parameters_head _ _ _ Ef). by destruct (IsNilType ret).
Qed.

Lemma adds_function p name func : has_bytecode func = true -> gives (gen_decl (TFunctionDeclaration p name func)) (adds [TFunctionDeclaration p name func]).
Proof.
  intros Hb s [] s' Hs Hr n. cbn [gen_decl] in Hr. unfold VisitFunctionDeclaration in Hr.
  bstep Hr as [params ret] s0 E. apply the_inv in E as [_ ->]. bstep Hr as [] s1 E.
  apply AllocateFunc_inv in E as (f & Ef & Ec & Ex & Eh). unfold in_position_scope in Hr.
  bstep Hr as fs s2 E. injection E as <- <-. bstep Hr as start s2 E. injection E as <- <-. bstep Hr as [] s2 Ev.
  bstep Hr as stop s3 E. injection E as <- <-. bstep Hr as fs' s3 E. injection E as <- <-.
  assert (sane s1) as Hs1 by (unfold sane; by rewrite Ex).
  destruct (emits_good _ _ (proj1 ok_visitors func Hb) _ _ _ Hs1 Ev n) as (q & n' & Hw & Hs2 & Hq & _ & [Eh2 _]).
  pose proof (writes_length _ _ _ _ _ Hq Hw) as Hlen. rewrite Ec in Hlen, Hw.
  destruct (decide _) as [El|]; [|done]. bstep Hr as f2 s3 E. unfold GetCurrentFunction in E. bstep E as fs2 s4 E'. injection E' as <- <-.
  apply the_inv in E as [Elast ->]. injection Hr as <-.
  exists q, n'. split; [exact Hw|]. split; [exact Hs2|]. split; [done|].
  destruct (gen_functions_ s2) as [|f2' l] eqn:E2 using rev_ind; [done|]. rewrite last_snoc in Elast. injection Elast as ->. clear IHl.
  unfold heads in Eh2. rewrite Ef, E2, !map_app in Eh2. injection Eh2 as Eh2 _. apply app_inj_tail in Eh2 as [Epre Efl].
  exists [(wrapu 16 (Z.of_nat (length (gen_functions_ s))), string_of name, (GetPosition (bytecode_ s), GetPosition (bytecode_ s2)))].
  unfold heads. cbn [fst set_functions gen_functions_ func_map_]. split_and!.
  - rewrite removelast_last, map_app, Epre. cbn [map]. do 2 f_equal. rewrite Eh in Efl. unfold head in Efl |- *. injection Efl as E1 E3 _.
    cbn [SetBytecodeRange fi_id fi_name bytecode_range_]. by rewrite E1, E3, Ec.
  - constructor; [|constructor]. exists [], q, []. cbn [app snd]. rewrite app_nil_r. split; [done|].
    split; [apply (closed_targets _ _ _ (writes_closed _ _ _ _ _ Hw))|]. unfold GetPosition. change (program_size []) with 0. f_equal; lia.
  - done.
  - intros [|i] h; [|done]. intros [= <-]. cbn [fst]. by rewrite Nat.add_0_r.
Qed.

Lemma adds_declaration d : declaration_has_bytecode d = true -> gives (gen_decl d) (adds [d]).
Proof.
  intros Hb. destruct d as [p name func|p name t|p name repr init]; [by apply adds_function|..];
    (eapply gives_weaken; [by apply emits_good, (proj2 (proj2 ok_visitors))|]); intros s [] s' q (Hq & _ & [E _]);
    (split; [done|]); exists []; rewrite E, app_nil_r; done.
Qed.

Lemma adds_declarations decls : forallb declaration_has_bytecode decls = true -> gives (gen_all gen_decl decls) (adds decls).
Proof.
  induction decls as [|d decls IH]; cbn [forallb gen_all]; intros Hb.
  - eapply gives_weaken; [exact (emits_good _ _ (ok_ret any tt I))|]. intros s [] s' q (Hq & _ & [E _]).
    split; [done|]. exists []. rewrite E, app_nil_r. done.
  - apply andb_true_iff in Hb as [Hd Hds]. intros s [] s2 Hs Hr n. bstep Hr as [] s1 E1.
    destruct (adds_declaration d Hd _ _ _ Hs E1 n) as (q & n1 & Hw & Hs1 & Hq & new & E & Hin & Hnames & Hids).
    destruct (IH Hds _ _ _ Hs1 Hr n1) as (q' & n2 & Hw' & Hs2 & Hq' & new' & E' & Hin' & Hnames' & Hids').
    exists (q ++ q'), n2. split; [by eapply writes_app|]. split; [done|]. split; [by apply Forall_app|].
    exists (new ++ new'). rewrite E', E, <- app_assoc. rewrite (writes_length _ _ _ _ _ Hq Hw) in Hin'.
    assert (length (gen_functions_ s1) = length (gen_functions_ s) + length new)%nat as El.
    { apply (f_equal length) in E. unfold heads in E. cbn [fst] in E. by rewrite length_app, !length_map in E. }
    split_and!; [done|..].
    + apply Forall_app. split; [eapply Forall_impl; [exact Hin|]; intros h; apply in_place_left|].
      eapply Forall_impl; [exact Hin'|]. intros h. apply in_place_right.
    + rewrite map_app, Hnames, Hnames'. cbn [omap list_omap]. by destruct (function_name d).
    + intros i h Hi. apply lookup_app_Some in Hi as [Hi|[Hle Hi]]; [by apply Hids|]. apply Hids' in Hi. rewrite Hi, El. do 2 f_equal. lia.
Qed.

End files.

(** * Theorems *)

(** C3: Compiling a file that uses only types and operators that there are bytecodes for ([file_has_bytecode]: it leaves out, for one, the negation of a
    floating-point number, which the code gives a bytecode of three operands) into less than 2^31 - 1 bytes of code writes one well-formed program: the operands of
    every instruction are of the types its bytecode declares, every jump goes to a label that is bound
    once, and the bytes are the encoding of the program with the labels resolved.  The module lists the
    functions of the file in order, by number; the code of each is a part of the program that jumps only
    within itself, and the interpreter, started where the module says a function begins, runs it. *)
Theorem Compile_well_formed `{AlignOps, CppClasses, Catalog, Runtime, FrameAllocator} root g :
  Compile root = Some g -> file_has_bytecode root = true -> Z.of_nat (length (bytecode_ g)) < 2 ^ 31 - 1 ->
  exists p, program_ok p /\ bytecode_ g = encode (lower (where_bound 0 p) 0 p) /\
  map fi_name (gen_functions_ g) = function_names root /\
  forall i f, gen_functions_ g !! i = Some f -> fi_id f = wrapu 16 (Z.of_nat i) /\
    exists before body after, p = before ++ body ++ after /\ (forall l, l ∈ targets_of body -> l ∈ labels_of body) /\
    bytecode_range_ f = (program_size before, program_size before + program_size body) /\
    forall static frame fuel m, let module := mkModule (bytecode_ g) static (gen_functions_ g) in
      run module p frame fuel (body ++ after) m <> Undefined ->
      Interpret module fuel (AccessBytecodeForFunctionRaw f) frame m = run module p frame fuel (body ++ after) m.
Proof.
  intros Hc Hb Hsz. unfold Compile in Hc. destruct root as [pos decls]. cbn [gen_file] in Hc.
  destruct (gen_all gen_decl decls new_BytecodeGenerator) as [[[] g']|] eqn:Er; [|done]. injection Hc as ->.
  destruct (adds_declarations decls Hb new_BytecodeGenerator _ _ ltac:(done) Er 0%nat) as (p & n' & Hw & _ & Hp & new & Eh & Hin & Hnames & Hids).
  change (bytecode_ new_BytecodeGenerator) with (@nil Z) in *. cbn [fst heads gen_functions_ new_BytecodeGenerator map app length Z.of_nat] in Eh, Hids, Hin.
  pose proof (writes_length _ _ _ _ _ Hp Hw) as Hlen. cbn [length Z.of_nat] in Hlen.
  assert (program_ok p) as Hok.
  { destruct Hw as [Hcl _]. constructor; [done|apply Hcl|apply Hcl|lia]. }
  destruct (writes_items _ _ _ _ _ Hw no_labels) as (labels & Em & _); [by intros l _|].
  assert (bytecode_ g = encode (lower (where_bound 0 p) 0 p)) as Ebytes by (by eapply emitted_bytes).
  exists p. split; [done|]. split; [done|]. subst new. split.
  { rewrite map_map in Hnames. exact Hnames. }
  intros i f Hi. assert (map head (gen_functions_ g) !! i = Some (head f)) as Hi' by (by rewrite list_lookup_fmap, Hi).
  split; [exact (Hids i _ Hi')|]. rewrite Forall_lookup in Hin. destruct (Hin i _ Hi') as (before & body & after & Ep & Ht & Hr).
  exists before, body, after. split; [done|]. split; [done|]. split; [exact Hr|]. intros static frame fuel m module Hn.
  unfold AccessBytecodeForFunctionRaw. cbn [head snd] in Hr. rewrite Hr. cbn [fst].
  apply (run_interpret module 0 p Hok); [|done|exact Hn].
  exists [], []. by rewrite app_nil_r.
Qed.

(** * Examples *)

#[local] Existing Instance sample_align.
Definition sample_classes : CppClasses :=
  {| cpp_sizeof _ := 8; cpp_alignof _ := 8; unordered_map_sizeof := 56; unordered_map_alignof := 8; int128_is_signed := true |}.
Definition sample_catalog : Catalog := {| LookupTableByName _ := None |}.
Definition generator_runtime : Runtime :=
  {| runtime _ _ m := Some m; countLeadingZeros _ _ := 0; countTrailingZeros _ _ := 0 |}.
Definition generator_frames : FrameAllocator := {| frame_address _ _ := 4096; garbage _ := 0 |}.
#[local] Existing Instances sample_classes sample_catalog generator_runtime generator_frames.

Definition sum_source : list Z := bytes "fun sum(n: int32) -> int32 { var s = 0 for (var i = 0; i < n; i = i + 1) { s = s + i } return s }".
Definition sum_file : TFile := match parse_and_check true 1000 sum_source with Some (Some f) => f | _ => mkTFile no_pos [] end.
Lemma sum_compiles : match Compile sum_file with Some g => Z.of_nat (length (bytecode_ g)) <? 2 ^ 31 - 1 | None => false end &&
  file_has_bytecode sum_file && bool_decide (function_names sum_file = ["sum"%string]) = true.
Proof. vm_compute. reflexivity. Qed.
Lemma compiles_inv root names : match Compile root with Some g => Z.of_nat (length (bytecode_ g)) <? 2 ^ 31 - 1 | None => false end &&
  file_has_bytecode root && bool_decide (function_names root = names) = true ->
  exists g, Compile root = Some g /\ file_has_bytecode root = true /\ Z.of_nat (length (bytecode_ g)) < 2 ^ 31 - 1 /\ function_names root = names.
Proof. destruct (Compile root) as [g|]; [|done]. intros Hc. bprop. exists g. by apply bool_decide_eq_true in H0. Qed.
Lemma Compile_well_formed_witness : exists g p, Compile sum_file = Some g /\ program_ok p /\ map fi_name (gen_functions_ g) = ["sum"%string].
Proof.
  destruct (compiles_inv sum_file ["sum"%string] sum_compiles) as (g & Hc & Hb & Hl & En).
  destruct (Compile_well_formed sum_file g Hc Hb Hl) as (p & Hp & _ & Hn & _).
  exists g, p. split; [exact Hc|]. split; [exact Hp|]. rewrite <- En. exact Hn.
Defined.
