(* ===== verification/TplSemantics.v ===== *)
(** What a program of a core of the language means, without bytecode, frames or memory: variables hold
    values of primitive types, a function is run on the values of its arguments.

    The core has the primitive types, variables, literals, arithmetic, comparisons, logical operators,
    calls of functions, blocks, conditionals, loops and returns.  A value is the number its bytes are.
    Where C++ leaves an operation undefined there is no value.  Statements have fuel, calls a depth. *)
From Stdlib Require Import SpecFloat.
From S2P Require Import Prelude Token Ast Types TypedAst CTypes VmHandlers VM GeneratorState.

(** * Values *)

Definition ctype_of (t : TplType) : option ctype :=
  match t with
  | BuiltinType Bool => Some bool_t
  | BuiltinType Int8 => Some int8 | BuiltinType Int16 => Some int16 | BuiltinType Int32 => Some int32 | BuiltinType Int64 => Some int64
  | BuiltinType UInt8 => Some uint8 | BuiltinType UInt16 => Some uint16 | BuiltinType UInt32 => Some uint32 | BuiltinType UInt64 => Some uint64
  | BuiltinType Float32 => Some float_t | BuiltinType Float64 => Some double_t
  | _ => None
  end.

Definition literal_value (v : LiteralValue) (c : ctype) : option Z :=
  match v, c with
  | BoolLiteral b, bool_t => Some (Z.b2z b)
  | IntLiteral n, int_t _ _ => Some n
  | FloatLiteral f, float_t => Some (bits_of_float float_t f)
  | FloatLiteral f, double_t => Some (bits_of_float double_t (float_round double_t f))
  | _, _ => None
  end.
Definition unary_value (op : TokenType) (c : ctype) (x : Z) : option Z :=
  match op, c with
  | MINUS, int_t s n => int_neg s n x
  | BIT_NOT, int_t s n => Some (int_not s n x)
  | BANG, bool_t => of_bool (x =? 0)
  | _, _ => None
  end.
Definition arith_value (op : TokenType) (c : ctype) (x y : Z) : option Z :=
  match op, c with
  | _, bool_t => None
  | PLUS, _ => arith Z.add SFadd c x y
  | MINUS, _ => arith Z.sub SFsub c x y
  | STAR, _ => arith Z.mul SFmul c x y
  | SLASH, int_t s n => int_div Z.quot s n x y
  | SLASH, _ => arith Z.quot SFdiv c x y
  | PERCENT, int_t s n => int_div Z.rem s n x y
  | PERCENT, _ => arith Z.rem SFmod c x y
  | AMPERSAND, int_t _ _ => Some (Z.land x y)
  | BIT_OR, int_t _ _ => Some (Z.lor x y)
  | BIT_XOR, int_t _ _ => Some (Z.lxor x y)
  | BIT_SHL, int_t s n => k ← cast c uint32 y; int_shl s n x k
  | BIT_SHR, int_t s n => k ← cast c uint32 y; int_shr s n x k
  | _, _ => None
  end.
Definition compare_value (op : TokenType) (c : ctype) (x y : Z) : option Z :=
  match op with
  | LESS => of_bool (match compare c x y with Some Lt => true | _ => false end)
  | LESS_EQUAL => of_bool (match compare c x y with Some Lt | Some Eq => true | _ => false end)
  | GREATER => of_bool (match compare c x y with Some Gt => true | _ => false end)
  | GREATER_EQUAL => of_bool (match compare c x y with Some Gt | Some Eq => true | _ => false end)
  | EQUAL_EQUAL => of_bool (match compare c x y with Some Eq => true | _ => false end)
  | BANG_EQUAL => of_bool (match compare c x y with Some Eq => false | _ => true end)
  | _ => None
  end.

(** * Expressions *)

Abbreviation environment := (gmap string Z).
(** What a call of a function gives. *)
Definition calls : Type := string -> list Z -> result (option Z).

(** A value of a type, in the bytes of the type. *)
Definition typed_value (t : option TplType) (v : ctype -> option Z) : result Z :=
  match t ≫= ctype_of with Some c => z ← lift (v c); Ok (wrapu (bits c) z) | None => Undefined end.
Definition callee_name (func : TExpression) : option string :=
  match func with TIdentifierExpression _ name _ => Some (string_of name) | _ => None end.

Fixpoint eval (call : calls) (ρ : environment) (e : TExpression) : result Z :=
  match e with
  | TIdentifierExpression _ name _ => lift (ρ !! string_of name)
  | TLiteralExpression _ v t => typed_value t (literal_value v)
  | TUnaryOpExpression _ op e t => x ← eval call ρ e; typed_value t (fun c => unary_value op c x)
  | TBinaryOpExpression _ AND l r _ => x ← eval call ρ l; if x =? 0 then Ok x else eval call ρ r
  | TBinaryOpExpression _ OR l r _ => x ← eval call ρ l; if x =? 0 then eval call ρ r else Ok x
  | TBinaryOpExpression _ op l r t =>
      x ← eval call ρ l; y ← eval call ρ r; typed_value t (fun c => arith_value op c x y)
  | TComparisonOpExpression _ op l r t =>
      x ← eval call ρ l; y ← eval call ρ r;
      match GetType l ≫= ctype_of with
      | Some c => typed_value t (fun _ => compare_value op c x y)
      | None => Undefined
      end
  | TCallExpression Regular func args _ =>
      vs ← (fix evals args := match args with
                              | [] => Ok []
                              | e :: args' => v ← eval call ρ e; vs ← evals args'; Ok (v :: vs)
                              end) args;
      match callee_name func with Some name => r ← call name vs; lift r | None => Undefined end
  | _ => Undefined
  end.
Fixpoint evals (call : calls) (ρ : environment) (args : list TExpression) : result (list Z) :=
  match args with [] => Ok [] | e :: args' => v ← eval call ρ e; vs ← evals call ρ args'; Ok (v :: vs) end.

(** * Statements *)

Inductive outcome : Type := Normal (ρ : environment) | Returned (v : option Z).

Section statements.
Context (call : calls).

(** The statements of a block, one after the other until one returns. *)
Definition exec_block (exec : environment -> TStatement -> result outcome) : environment -> list TStatement -> result outcome :=
  fix block ρ ss :=
    match ss with
    | [] => Ok (Normal ρ)
    | s :: ss' => o ← exec ρ s; match o with Normal ρ => block ρ ss' | Returned v => Ok (Returned v) end
    end.

(** A loop runs its initialisation, and then itself without one after each iteration. *)
Fixpoint exec (fuel : nat) (ρ : environment) (s : TStatement) {struct fuel} : result outcome :=
  match fuel with
  | O => OutOfFuel
  | S fuel' =>
      match s with
      | TBlockStatement _ _ ss => exec_block (exec fuel') ρ ss
      | TDeclarationStatement (TVariableDeclaration _ name _ None) => Ok (Normal (delete (string_of name) ρ))
      | TDeclarationStatement (TVariableDeclaration _ name _ (Some init)) =>
          v ← eval call ρ init; Ok (Normal (<[string_of name := v]> ρ))
      | TAssignmentStatement _ (TIdentifierExpression _ name _) src =>
          v ← eval call ρ src; Ok (Normal (<[string_of name := v]> ρ))
      | TExpressionStatement (TCallExpression Regular func args _) =>
          vs ← evals call ρ args;
          match callee_name func with Some name => _ ← call name vs; Ok (Normal ρ) | None => Undefined end
      | TIfStatement _ cond then_stmt else_stmt =>
          c ← eval call ρ cond;
          if c =? 0 then match else_stmt with Some s => exec fuel' ρ s | None => Ok (Normal ρ) end
          else exec fuel' ρ then_stmt
      | TForStatement pos (Some init) cond next body =>
          o ← exec fuel' ρ init;
          match o with Normal ρ => exec fuel' ρ (TForStatement pos None cond next body) | Returned v => Ok (Returned v) end
      | TForStatement pos None cond next body =>
          c ← match cond with Some cond => eval call ρ cond | None => Ok 1 end;
          if c =? 0 then Ok (Normal ρ)
          else
            o ← exec_block (exec fuel') ρ (body :: match next with Some s => [s] | None => [] end);
            match o with Normal ρ => exec fuel' ρ (TForStatement pos None cond next body) | Returned v => Ok (Returned v) end
      | TReturnStatement _ (Some e) => v ← eval call ρ e; Ok (Returned (Some v))
      | TReturnStatement _ None => Ok (Returned None)
      | _ => Undefined
      end
  end.

End statements.

(** * Functions *)

Record tpl_function := mkFunction { fn_name : string; fn_params : list (string * TplType); fn_ret : TplType; fn_body : TStatement }.

Definition param_name (p : option Identifier * TplType) : option (string * TplType) :=
  name ← Identifier_ToString p.1; Some (name, p.2).
Definition function_of (d : TDeclaration) : option tpl_function :=
  match d with
  | TFunctionDeclaration _ name (TFunctionLiteralExpression type_repr body _) =>
      match GetType type_repr with
      | Some (FunctionType params ret) => ps ← mapM param_name params; Some (mkFunction (string_of name) ps ret body)
      | _ => None
      end
  | _ => None
  end.
Definition functions_of (f : TFile) : list tpl_function := let '(mkTFile _ decls) := f in omap function_of decls.
Definition find_function (fns : list tpl_function) (name : string) : option tpl_function :=
  List.find (fun f => String.eqb (fn_name f) name) fns.

(** A call at some depth: the body is run with the parameters, and is to return. *)
Fixpoint call_function (fns : list tpl_function) (fuel depth : nat) : calls := fun name args =>
  match depth with
  | O => OutOfFuel
  | S depth' =>
      f ← lift (find_function fns name);
      if decide (length args = length (fn_params f)) then
        o ← exec (call_function fns fuel depth') fuel (list_to_map (zip (map fst (fn_params f)) args)) (fn_body f);
        match o with Returned v => Ok v | Normal _ => Undefined end
      else Undefined
  end.
