(* ===== verification/TplCore.v ===== *)
(** The core of the language that the compiler is proved correct for: which programs are in it.

    A variable has one type and one declaration in its function; it is not called like a temporary of the
    generator.  A function calls itself and functions declared before it.  What [and] and [or] compute
    into a variable does not read the variable in a right operand. *)
From S2P Require Import Prelude Token Ast Types TypedAst SemaChecking CTypes GeneratorState BytecodeGenerator GeneratorWellFormed TplSemantics.

Abbreviation signatures := (gmap string (list TplType * TplType)).
Abbreviation typing := (gmap string TplType).

Definition primitive (t : TplType) : bool := bool_decide (is_Some (ctype_of t)).
Definition has_type (e : TExpression) (t : TplType) : bool := bool_decide (GetType e = Some t).

(** Whether the value of a variable is used. *)
Fixpoint mentions (x : string) (e : TExpression) : bool :=
  match e with
  | TIdentifierExpression _ name _ => String.eqb (string_of name) x
  | TUnaryOpExpression _ _ e _ => mentions x e
  | TBinaryOpExpression _ _ l r _ | TComparisonOpExpression _ _ l r _ => mentions x l || mentions x r
  | TCallExpression _ _ args _ => existsb (mentions x) args
  | _ => false
  end.
(** The value can be computed into the variable. *)
Fixpoint safe_into (x : string) (e : TExpression) : bool :=
  match e with
  | TBinaryOpExpression _ (AND | OR) l r _ => safe_into x l && safe_into x r && negb (mentions x r)
  | _ => true
  end.

Section core.
Context (Σ : signatures).

Definition core_call (func : TExpression) (args : list TExpression) (ret : TplType) : bool :=
  match func with
  | TIdentifierExpression _ name (Some (FunctionType ps ret')) =>
      bool_decide (Σ !! string_of name = Some (map snd ps, ret)) && bool_decide (ret' = ret) &&
      bool_decide (map GetType args = map Some (map snd ps)) && (Z.of_nat (length ps) <? 2 ^ 16 - 1)
  | _ => false
  end.
Definition core_binary (op : TokenType) (t : TplType) : bool :=
  match op with
  | AND | OR => bool_decide (t = BuiltinType Bool)
  | PLUS | MINUS | STAR | SLASH | PERCENT => arithmetic (Some t)
  | AMPERSAND | BIT_OR | BIT_XOR | BIT_SHL | BIT_SHR => type_in small_int (Some t)
  | _ => false
  end.
Definition core_unary (op : TokenType) (t : TplType) : bool :=
  match op with MINUS | BIT_NOT => type_in small_int (Some t) | BANG => bool_decide (t = BuiltinType Bool) | _ => false end.

Fixpoint core_expr (Γ : typing) (e : TExpression) : bool :=
  match e with
  | TIdentifierExpression _ name (Some t) => bool_decide (Γ !! string_of name = Some t) && primitive t
  | TLiteralExpression _ v (Some t) => bool_decide (is_Some (ctype_of t ≫= literal_value v))
  | TUnaryOpExpression _ op x (Some t) => core_expr Γ x && has_type x t && core_unary op t
  | TBinaryOpExpression _ op l r (Some t) => core_expr Γ l && core_expr Γ r && has_type l t && has_type r t && core_binary op t
  | TComparisonOpExpression _ op l r (Some t) =>
      core_expr Γ l && core_expr Γ r && bool_decide (t = BuiltinType Bool) && bool_decide (is_Some (comparison_name op)) &&
      match GetType l with Some tl => primitive tl && has_type r tl | None => false end
  | TCallExpression Regular func args (Some t) => primitive t && core_call func args t && forallb (core_expr Γ) args
  | _ => false
  end.

Definition variable_name_ok (x : string) : bool :=
  negb (String.prefix "tmp" x) && negb (String.eqb x EmptyString) && negb (String.eqb x "hiddenRv").

(** What is declared behind a statement. *)
Fixpoint core_stmt (ret : TplType) (Γ : typing) (s : TStatement) {struct s} : option typing :=
  match s with
  | TBlockStatement _ _ ss =>
      (fix block Γ ss := match ss with [] => Some Γ | s :: ss' => Γ ← core_stmt ret Γ s; block Γ ss' end) Γ ss
  | TDeclarationStatement (TVariableDeclaration _ name repr init) =>
      let x := string_of name in
      t ← match repr, init with Some r, _ => GetType r | None, Some e => GetType e | None, None => None end;
      if primitive t && variable_name_ok x && bool_decide (Γ !! x = None) &&
         match init with Some e => core_expr Γ e && has_type e t && safe_into x e | None => true end
      then Some (<[x := t]> Γ) else None
  | TAssignmentStatement _ (TIdentifierExpression _ name (Some t)) src =>
      let x := string_of name in
      if bool_decide (Γ !! x = Some t) && core_expr Γ src && has_type src t && safe_into x src then Some Γ else None
  | TExpressionStatement (TCallExpression Regular func args _) =>
      match GetType func with
      | Some (FunctionType _ ret') =>
          if (primitive ret' || IsNilType ret') && core_call func args ret' && forallb (core_expr Γ) args then Some Γ else None
      | _ => None
      end
  | TIfStatement _ cond then_stmt else_stmt =>
      if core_expr Γ cond && has_type cond (BuiltinType Bool) then
        Γ ← core_stmt ret Γ then_stmt; match else_stmt with Some s => core_stmt ret Γ s | None => Some Γ end
      else None
  | TForStatement _ init cond next body =>
      Γ ← match init with Some s => core_stmt ret Γ s | None => Some Γ end;
      if match cond with Some c => core_expr Γ c && has_type c (BuiltinType Bool) | None => true end then
        Γ ← core_stmt ret Γ body; match next with Some s => core_stmt ret Γ s | None => Some Γ end
      else None
  | TReturnStatement _ (Some e) => if core_expr Γ e && has_type e ret && primitive ret then Some Γ else None
  | TReturnStatement _ None => if IsNilType ret then Some Γ else None
  | _ => None
  end.

Definition core_function (f : tpl_function) : bool :=
  let names := map fst (fn_params f) in
  forallb variable_name_ok names && bool_decide (NoDup names) && forallb (fun p => primitive p.2) (fn_params f) &&
  (Z.of_nat (length (fn_params f)) <? 2 ^ 16 - 1) && (primitive (fn_ret f) || IsNilType (fn_ret f)) &&
  bool_decide (is_Some (core_stmt (fn_ret f) (list_to_map (fn_params f)) (fn_body f))).
End core.

Definition signature (f : tpl_function) : list TplType * TplType := (map snd (fn_params f), fn_ret f).

(** The functions of a file, each with those before it. *)
Fixpoint core_declarations (Σ : signatures) (decls : list TDeclaration) : bool :=
  match decls with
  | [] => true
  | TStructDeclaration _ _ _ :: decls' => core_declarations Σ decls'
  | d :: decls' =>
      match function_of d with
      | Some f =>
          let Σ' := <[fn_name f := signature f]> Σ in
          bool_decide (Σ !! fn_name f = None) && core_function Σ' f && core_declarations Σ' decls'
      | None => false
      end
  end.
Definition core_file (f : TFile) : bool := let '(mkTFile _ decls) := f in core_declarations ∅ decls.
