(* ===== verification/GeneratorCode.v ===== *)
(** The code of the core of the language, as a relation: which instructions, jumps and labels an expression
    or a statement is translated to, and where its value is.

    The relation leaves out how the generator finds this: result scopes, the emitter, the number of a
    label.  A place is a local of the function with its position in the list of locals. *)
From S2P Require Import Prelude BitUtil Token Ast Layout Types TypedAst SemaChecking Bytecodes FunctionInfo FunctionInfoSpec BytecodeEmitter BytecodeSpec CTypes GeneratorState GeneratorBuiltins BytecodeGenerator GeneratorSpec GeneratorWellFormed TplSemantics TplCore.

Local Open Scope string_scope.
Local Open Scope list_scope.
Local Open Scope Z_scope.

(** * Bytecodes *)

Definition type_name (c : ctype) : string :=
  match c with
  | bool_t => "bool" | float_t => "float" | double_t => "double"
  | int_t true 1 => "int8_t" | int_t true 2 => "int16_t" | int_t true 4 => "int32_t" | int_t true _ => "int64_t"
  | int_t false 1 => "uint8_t" | int_t false 2 => "uint16_t" | int_t false 4 => "uint32_t" | int_t false _ => "uint64_t"
  end.
Definition size_name (n : nat) : string := match n with 1%nat => "1" | 2%nat => "2" | 4%nat => "4" | _ => "8" end.

Definition unary_code (op : TokenType) (c : ctype) : option Z :=
  match op, c with
  | MINUS, int_t _ _ => Some (code (typed "Neg" (type_name c)))
  | BIT_NOT, int_t _ _ => Some (code (typed "BitNeg" (type_name c)))
  | BANG, bool_t => Some (code "Not")
  | _, _ => None
  end.
Definition arith_code (op : TokenType) (c : ctype) : option Z :=
  match op, c with
  | _, bool_t => None
  | PLUS, _ => Some (code (typed "Add" (type_name c)))
  | MINUS, _ => Some (code (typed "Sub" (type_name c)))
  | STAR, _ => Some (code (typed "Mul" (type_name c)))
  | SLASH, _ => Some (code (typed "Div" (type_name c)))
  | PERCENT, _ => Some (code (typed "Rem" (type_name c)))
  | AMPERSAND, int_t _ _ => Some (code (typed "BitAnd" (type_name c)))
  | BIT_OR, int_t _ _ => Some (code (typed "BitOr" (type_name c)))
  | BIT_XOR, int_t _ _ => Some (code (typed "BitXor" (type_name c)))
  | BIT_SHL, int_t _ _ => Some (code (typed "BitShl" (type_name c)))
  | BIT_SHR, int_t _ _ => Some (code (typed "BitShr" (type_name c)))
  | _, _ => None
  end.
Definition compare_code (op : TokenType) (c : ctype) : option Z :=
  name ← comparison_name op; Some (code (typed name (type_name c))).
(** The bytecode that writes a literal, and its immediate. *)
Definition literal_code (v : LiteralValue) (c : ctype) : option (Z * Z) :=
  match v, c with
  | BoolLiteral b, bool_t => Some (code "AssignImm1", wraps 8 (Z.b2z b))
  | IntLiteral n, int_t _ k => Some (code ("AssignImm" +:+ size_name k), wraps (8 * Z.of_nat k) n)
  | FloatLiteral f, float_t => Some (code "AssignImm4F", wrapu 32 (bits_of_float float_t f))
  | FloatLiteral f, double_t => Some (code "AssignImm8F", wrapu 64 (bits_of_float double_t (float_round double_t f)))
  | _, _ => None
  end.
Definition logical_jump (op : TokenType) : option string :=
  match op with AND => Some "JumpIfFalse" | OR => Some "JumpIfTrue" | _ => None end.

(** * Places *)

Definition place : Type := nat * LocalInfo TplType.
Definition in_frame (f : FunctionInfo TplType) (pl : place) : Prop := locals_ f !! pl.1 = Some pl.2.
Definition lookup_place (f : FunctionInfo TplType) (x : string) : option place := list_find (fun l => li_name l = x) (locals_ f).
Definition value_ref (l : LocalInfo TplType) : LocalVar := ValueOf (local_ref l).
Definition by_address (pl : place) : Z := bitfield_ (local_ref pl.2).
Definition by_value (pl : place) : Z := bitfield_ (value_ref pl.2).

Section code.
Context `{AlignOps, CppClasses}.
Context (Σ : signatures) (ids : gmap string Z).

(** The place the value of an expression goes to: the one that is asked for, or a temporary. *)
Inductive dest_place (f : FunctionInfo TplType) (t : TplType) : option place -> place -> FunctionInfo TplType -> Prop :=
| dest_given pl : in_frame f pl -> li_type pl.2 = t -> dest_place f t (Some pl) pl f
| dest_temp l f' : NewLocal f t EmptyString = (local_ref l, f') -> locals_ f' = locals_ f ++ [l] -> li_type l = t ->
    dest_place f t None (length (locals_ f), l) f'.

(** * Expressions *)

Inductive expr_code : FunctionInfo TplType -> option place -> TExpression -> list item -> place -> FunctionInfo TplType -> Prop :=
| code_variable f pos name t pl :
    variable_name_ok (string_of name) = true -> lookup_place f (string_of name) = Some pl -> li_type pl.2 = t ->
    expr_code f None (TIdentifierExpression pos name (Some t)) [] pl f
| code_copy f pos name t c pl d i :
    variable_name_ok (string_of name) = true -> lookup_place f (string_of name) = Some pl -> li_type pl.2 = t -> ctype_of t = Some c -> in_frame f d -> li_type d.2 = t ->
    i = Plain (code ("Assign" +:+ size_name (sizeof c))) [by_address d; by_value pl] \/
    i = Plain (code ("Deref" +:+ size_name (sizeof c))) [by_address d; by_address pl] ->
    expr_code f (Some d) (TIdentifierExpression pos name (Some t)) [Ins i] d f
| code_literal f d pos v t c pl f' b z :
    dest_place f t d pl f' -> ctype_of t = Some c -> literal_code v c = Some (b, z) ->
    expr_code f d (TLiteralExpression pos v (Some t)) [Ins (Plain b [by_address pl; z])] pl f'
| code_unary f d pos op e t c q pl pl1 f1 f2 b :
    dest_place f t d pl f1 -> expr_code f1 None e q pl1 f2 -> GetType e = Some t -> ctype_of t = Some c -> unary_code op c = Some b ->
    expr_code f d (TUnaryOpExpression pos op e (Some t)) (q ++ [Ins (Plain b [by_address pl; by_value pl1])]) pl f2
| code_binary f d pos op l r t c q1 q2 pl pl1 pl2 f1 f2 f3 b :
    dest_place f t d pl f1 -> expr_code f1 None l q1 pl1 f2 -> expr_code f2 None r q2 pl2 f3 ->
    GetType l = Some t -> GetType r = Some t -> ctype_of t = Some c -> arith_code op c = Some b ->
    expr_code f d (TBinaryOpExpression pos op l r (Some t)) (q1 ++ q2 ++ [Ins (Plain b [by_address pl; by_value pl1; by_value pl2])]) pl f3
| code_compare f d pos op l r t c q1 q2 pl pl1 pl2 f1 f2 f3 b :
    dest_place f (BuiltinType Bool) d pl f1 -> expr_code f1 None l q1 pl1 f2 -> expr_code f2 None r q2 pl2 f3 ->
    GetType l = Some t -> GetType r = Some t -> ctype_of t = Some c -> compare_code op c = Some b ->
    expr_code f d (TComparisonOpExpression pos op l r (Some (BuiltinType Bool)))
      (q1 ++ q2 ++ [Ins (Plain b [by_address pl; by_value pl1; by_value pl2])]) pl f3
| code_logical f d pos op l r q1 q2 pl f1 f2 f3 b lab :
    dest_place f (BuiltinType Bool) d pl f1 -> expr_code f1 (Some pl) l q1 pl f2 -> expr_code f2 (Some pl) r q2 pl f3 ->
    GetType l = Some (BuiltinType Bool) -> GetType r = Some (BuiltinType Bool) ->
    mentions (li_name pl.2) r = false -> logical_jump op = Some b ->
    expr_code f d (TBinaryOpExpression pos op l r (Some (BuiltinType Bool)))
      (q1 ++ jmp_if b (value_ref pl.2) lab :: q2 ++ [Lab lab]) pl f3
| code_call f d func name args params t id q pl pls f1 f2 :
    dest_place f t d pl f1 -> args_code f1 args q pls f2 ->
    callee_name func = Some name -> Σ !! name = Some (params, t) -> map GetType args = map Some params -> primitive t = true ->
    ids !! name = Some id ->
    expr_code f d (TCallExpression Regular func args (Some t)) (q ++ [Ins (CallI (wrapu 16 id) (by_address pl :: map by_value pls))]) pl f2
with args_code : FunctionInfo TplType -> list TExpression -> list item -> list place -> FunctionInfo TplType -> Prop :=
| code_no_args f : args_code f [] [] [] f
| code_arg f e args q q' pl pls f1 f2 :
    expr_code f None e q pl f1 -> args_code f1 args q' pls f2 -> args_code f (e :: args) (q ++ q') (pl :: pls) f2.

(** * Statements *)

Context (ret : TplType).

Definition return_place : LocalVar := ValueOf (new_LocalVar 0 Address).
Definition test_code (pl : place) (l : nat) : item := jmp_if "JumpIfFalse" (value_ref pl.2) l.

Inductive stmt_code : FunctionInfo TplType -> TStatement -> list item -> FunctionInfo TplType -> Prop :=
| code_block f pos rpos ss q f' : stmts_code f ss q f' -> stmt_code f (TBlockStatement pos rpos ss) q f'
| code_declare f pos name repr t l f' :
    variable_name_ok (string_of name) = true -> NewLocal f t (string_of name) = (local_ref l, f') -> locals_ f' = locals_ f ++ [l] ->
    li_name l = string_of name -> li_type l = t -> lookup_place f' (string_of name) = Some (length (locals_ f), l) ->
    primitive t = true ->
    stmt_code f (TDeclarationStatement (TVariableDeclaration pos name repr None)) [] f'
| code_define f pos name repr e t l q f1 f2 :
    variable_name_ok (string_of name) = true -> NewLocal f t (string_of name) = (local_ref l, f1) -> locals_ f1 = locals_ f ++ [l] ->
    li_name l = string_of name -> li_type l = t -> lookup_place f1 (string_of name) = Some (length (locals_ f), l) ->
    GetType e = Some t -> primitive t = true ->
    expr_code f1 (Some (length (locals_ f), l)) e q (length (locals_ f), l) f2 ->
    stmt_code f (TDeclarationStatement (TVariableDeclaration pos name repr (Some e))) q f2
| code_assign f pos pos' name t e pl q f' :
    variable_name_ok (string_of name) = true -> lookup_place f (string_of name) = Some pl -> li_type pl.2 = t -> GetType e = Some t ->
    primitive t = true -> expr_code f (Some pl) e q pl f' ->
    stmt_code f (TAssignmentStatement pos (TIdentifierExpression pos' name (Some t)) e) q f'
| code_call_only f func name args params t id q pls f' ty :
    args_code f args q pls f' -> callee_name func = Some name -> Σ !! name = Some (params, t) -> map GetType args = map Some params ->
    IsNilType t = true -> ids !! name = Some id ->
    stmt_code f (TExpressionStatement (TCallExpression Regular func args ty)) (q ++ [Ins (CallI (wrapu 16 id) (map by_value pls))]) f'
| code_call_unused f func name args params t id q pl pls f1 f2 ty :
    dest_place f t None pl f1 -> args_code f1 args q pls f2 -> callee_name func = Some name -> Σ !! name = Some (params, t) ->
    map GetType args = map Some params -> primitive t = true -> ids !! name = Some id ->
    stmt_code f (TExpressionStatement (TCallExpression Regular func args ty))
      (q ++ [Ins (CallI (wrapu 16 id) (by_address pl :: map by_value pls))]) f2
| code_if f pos cond s qc pl qt f1 f2 le lt lend :
    expr_code f None cond qc pl f1 -> GetType cond = Some (BuiltinType Bool) -> stmt_code f1 s qt f2 ->
    stmt_code f (TIfStatement pos cond s None) (qc ++ test_code pl le :: Lab lt :: qt ++ [Lab le; Lab lend]) f2
| code_if_else f pos cond s s' qc pl qt qe f1 f2 f3 le lt lend b :
    expr_code f None cond qc pl f1 -> GetType cond = Some (BuiltinType Bool) -> stmt_code f1 s qt f2 -> IsTerminating s = Some b ->
    stmt_code f2 s' qe f3 ->
    stmt_code f (TIfStatement pos cond s (Some s'))
      (qc ++ test_code pl le :: Lab lt :: qt ++ maybe_jmp b lend ++ Lab le :: qe ++ [Lab lend]) f3
| code_for f pos cond next body qt qb qn f1 f2 f3 lh lb lc :
    condition_code f lb cond qt f1 -> stmt_code f1 body qb f2 -> option_code f2 next qn f3 ->
    stmt_code f (TForStatement pos None cond next body) (Lab lh :: qt ++ qb ++ Lab lc :: qn ++ [jmp lh; Lab lb]) f3
| code_for_init f pos init cond next body qi q f1 f2 :
    stmt_code f init qi f1 -> stmt_code f1 (TForStatement pos None cond next body) q f2 ->
    stmt_code f (TForStatement pos (Some init) cond next body) (qi ++ q) f2
| code_return f pos : IsNilType ret = true -> stmt_code f (TReturnStatement pos None) [Ins (Plain (code "Return") [])] f
| code_return_value f pos e c q pl f' :
    expr_code f None e q pl f' -> GetType e = Some ret -> ctype_of ret = Some c ->
    stmt_code f (TReturnStatement pos (Some e))
      (q ++ [Ins (Plain (code ("Assign" +:+ size_name (sizeof c))) [bitfield_ return_place; by_value pl]); Ins (Plain (code "Return") [])]) f'
with stmts_code : FunctionInfo TplType -> list TStatement -> list item -> FunctionInfo TplType -> Prop :=
| code_no_stmts f : stmts_code f [] [] f
| code_stmt f s ss q q' f1 f2 : stmt_code f s q f1 -> stmts_code f1 ss q' f2 -> stmts_code f (s :: ss) (q ++ q') f2
with option_code : FunctionInfo TplType -> option TStatement -> list item -> FunctionInfo TplType -> Prop :=
| code_none f : option_code f None [] f
| code_some f s q f' : stmt_code f s q f' -> option_code f (Some s) q f'
with condition_code : FunctionInfo TplType -> nat -> option TExpression -> list item -> FunctionInfo TplType -> Prop :=
| code_always f l : condition_code f l None [] f
| code_test f l e q pl f' : expr_code f None e q pl f' -> GetType e = Some (BuiltinType Bool) ->
    condition_code f l (Some e) (q ++ [test_code pl l]) f'.

End code.

Scheme expr_code_min := Minimality for expr_code Sort Prop
  with args_code_min := Minimality for args_code Sort Prop.
Combined Scheme expr_code_ind2 from expr_code_min, args_code_min.
Scheme stmt_code_min := Minimality for stmt_code Sort Prop
  with stmts_code_min := Minimality for stmts_code Sort Prop
  with option_code_min := Minimality for option_code Sort Prop
  with condition_code_min := Minimality for condition_code Sort Prop.
Combined Scheme stmt_code_ind2 from stmt_code_min, stmts_code_min, option_code_min, condition_code_min.

(** * Places stay *)

Lemma lookup_place_in f x pl : lookup_place f x = Some pl -> in_frame f pl /\ li_name pl.2 = x.
Proof. unfold lookup_place. destruct pl as [i l]. intros (? & ? & _)%list_find_Some. done. Qed.

Section places.
Context `{AlignOps, CppClasses}.
Context (Σ : signatures) (ids : gmap string Z).

Definition extends (f f' : FunctionInfo TplType) : Prop := locals_ f `prefix_of` locals_ f'.
#[export] Instance extends_preorder : PreOrder extends.
Proof. split; [intros f; unfold extends; reflexivity|intros f1 f2 f3; unfold extends; by etrans]. Qed.
Lemma in_frame_extends f f' pl : extends f f' -> in_frame f pl -> in_frame f' pl.
Proof. intros [k E] Hin. unfold in_frame. rewrite E. by apply lookup_app_l_Some. Qed.

Lemma dest_place_extends f t d pl f' : dest_place f t d pl f' ->
  extends f f' /\ in_frame f' pl /\ li_type pl.2 = t /\ forall pd, d = Some pd -> pl = pd.
Proof.
  intros [pl' Hin Et|l f0 _ El Et].
  - split; [by exists []; rewrite app_nil_r|]. split; [done|]. split; [done|]. by intros ? [= <-].
  - split; [by exists [l]|]. split; [|done]. unfold in_frame. rewrite El. cbn [fst snd]. by rewrite lookup_app_r, Nat.sub_diag.
Qed.

Record at_place (f' : FunctionInfo TplType) (d : option place) (e : TExpression) (pl : place) : Prop := {
  at_frame : in_frame f' pl;
  at_type : GetType e = Some (li_type pl.2);
  at_dest pd : d = Some pd -> pl = pd
}.
Lemma at_place_extends f f' d e pl : extends f f' -> at_place f d e pl -> at_place f' d e pl.
Proof. intros Hf [? ? ?]. constructor; [by eapply in_frame_extends|done|done]. Qed.

Lemma expr_code_places :
  (forall f d e q pl f', expr_code Σ ids f d e q pl f' -> extends f f' /\ at_place f' d e pl) /\
  (forall f args q pls f', args_code Σ ids f args q pls f' -> extends f f' /\ Forall2 (at_place f' None) args pls).
Proof.
  assert (forall f, extends f f) as Hrefl by (intros f; reflexivity).
  assert (forall f t d pl f1 f' e, dest_place f t d pl f1 -> extends f1 f' -> GetType e = Some t -> extends f f' /\ at_place f' d e pl) as Hdest.
  { intros f t d pl f1 f' e (Hf & Hin & Et & Hd)%dest_place_extends Hf' He. split; [by etrans|].
    constructor; [by eapply in_frame_extends|by rewrite Et|done]. }
  apply expr_code_ind2.
  - intros f pos name t pl _ [Hin _]%lookup_place_in Et. split; [done|]. constructor; [done|by rewrite Et|done].
  - intros f pos name t c pl d i _ _ _ _ Hin Et _. split; [done|]. constructor; [done|by rewrite Et|by intros ? [= <-]].
  - intros f d pos v t c pl f' b z Hd _ _. by eapply Hdest.
  - intros f d pos op e t c q pl pl1 f1 f2 b Hd _ [Hf _] _ _ _. by eapply Hdest.
  - intros f d pos op l r t c q1 q2 pl pl1 pl2 f1 f2 f3 b Hd _ [Hf1 _] _ [Hf2 _] _ _ _ _. eapply Hdest; [done|by etrans|done].
  - intros f d pos op l r t c q1 q2 pl pl1 pl2 f1 f2 f3 b Hd _ [Hf1 _] _ [Hf2 _] _ _ _ _. eapply Hdest; [done|by etrans|done].
  - intros f d pos op l r q1 q2 pl f1 f2 f3 b lab Hd _ [Hf1 _] _ [Hf2 _] _ _ _ _. eapply Hdest; [done|by etrans|done].
  - intros f d func name args params t id q pl pls f1 f2 Hd _ [Hf _] _ _ _ _ _. by eapply Hdest.
  - intros f. split; [done|constructor].
  - intros f e args q q' pl pls f1 f2 _ [Hf1 Hp] _ [Hf2 Hps]. split; [by etrans|]. constructor; [by eapply at_place_extends|done].
Qed.
Lemma expr_code_at f d e q pl f' : expr_code Σ ids f d e q pl f' -> extends f f' /\ at_place f' d e pl.
Proof. apply expr_code_places. Qed.

End places.
