(* ===== verification/GeneratorTranslates.v ===== *)
(** The bytecode generator translates the core of the language as [GeneratorCode] says. *)
From stdpp Require Import pretty.
From S2P Require Import Prelude BitUtil Buffer Token Ast TreeInduction Layout Types TypesSpec TypedAst Builtins SemaChecking Bytecodes FunctionInfo FunctionInfoSpec BytecodeEmitter BytecodeSpec CTypes GeneratorState GeneratorBuiltins BytecodeGenerator GeneratorSpec GeneratorEmits GeneratorWellFormed TplSemantics TplCore GeneratorCode.

(** What a run of a well-formed piece leaves. *)
Lemma ok_run {A} (R : A -> Prop) (m : Gen A) s a s' : emits_ok R m -> sane s -> m s = Some (a, s') -> sane s' /\ R a /\ grows s s'.
Proof. intros [Hm] Hs Hr. destruct (Hm s a s' Hs Hr 0%nat) as (q & n' & _ & Hs' & _ & Ha & Hg). done. Qed.

(** * The core has bytecodes *)

Lemma forallb_impl {A} (f g : A -> bool) l : Forall (fun x => f x = true -> g x = true) l -> forallb f l = true -> forallb g l = true.
Proof. induction 1 as [|x l Hx _ IH]; [done|]. cbn [forallb]. intros [H1 H2]%andb_true_iff. apply andb_true_iff. auto. Qed.

Lemma primitive_small k : primitive (BuiltinType k) = true -> comparable (Some (BuiltinType k)) = true.
Proof. by destruct k. Qed.

Lemma core_call_typed Σ func args t : core_call Σ func args t = true -> call_typed func = true.
Proof. unfold core_call, call_typed. destruct func; try done. cbn [GetType]. destruct type as [[]|]; try done. intros. bprop. by apply Z.ltb_lt. Qed.

Ltac call_typed_in := match goal with H : core_call _ _ _ _ = true |- _ => rewrite (core_call_typed _ _ _ _ H); cbn [andb] end.

Lemma core_has_bytecode Σ Γ e : core_expr Σ Γ e = true -> has_bytecode e = true.
Proof.
  revert e. apply (TExpression_tree_ind (fun e => core_expr Σ Γ e = true -> has_bytecode e = true) (fun _ => True) (fun _ => True)); try done.
  - intros e He Hc. destruct e; done.
  - intros p op l r [t|] IHl IHr; [|done]. cbn [core_expr has_bytecode]. intros Hc. bprop. rewrite IHl, IHr by done. rewrite !andb_true_r.
    unfold core_binary in *. destruct op; try done; cbn [binary_typed]; by apply orb_true_iff; right.
  - intros [] func args [t|] _ IH; try done. cbn [core_expr has_bytecode]. intros Hc. bprop.
    call_typed_in. by eapply forallb_impl.
  - intros p op l r [t|] IHl IHr; [|done]. cbn [core_expr has_bytecode]. intros Hc. bprop. rewrite IHl, IHr by done. rewrite !andb_true_r.
    match goal with H : bool_decide (t = _) = true |- _ => apply bool_decide_eq_true in H as -> end. unfold comparison_typed. cbn. destruct (GetType l) as [tl|]; [|done]. bprop.
    destruct tl as [k| | | | | |]; try done. by apply primitive_small.
  - intros p op e [t|] IH; [|done]. cbn [core_expr has_bytecode]. intros Hc. bprop. rewrite IH by done. rewrite andb_true_r.
    unfold core_unary in *. by destruct op.
Qed.

Lemma core_stmt_has_bytecode Σ ret : forall s Γ Γ', core_stmt Σ ret Γ s = Some Γ' -> statement_has_bytecode s = true.
Proof.
  apply (TStatement_tree_ind (fun _ => True) (fun s => forall Γ Γ', core_stmt Σ ret Γ s = Some Γ' -> statement_has_bytecode s = true)
    (fun d => forall Γ Γ', core_stmt Σ ret Γ (TDeclarationStatement d) = Some Γ' -> statement_has_bytecode (TDeclarationStatement d) = true)); try done.
  - intros p d s _ _ Γ Γ'. cbn [core_stmt statement_has_bytecode]. destruct d; try done. destruct type; [|done].
    destruct (_ && _) eqn:E; [|done]. intros _. bprop. cbn [has_bytecode]. by eapply core_has_bytecode.
  - intros p rp ss IH Γ Γ'. cbn [core_stmt statement_has_bytecode]. revert Γ. induction IH as [|s ss Hs _ IHss]; intros Γ; [done|].
    cbn [forallb]. destruct (core_stmt Σ ret Γ s) as [Γ1|] eqn:E; [|done]. cbn [mbind option_bind]. intros Hc.
    by rewrite (Hs _ _ E), (IHss _ Hc).
  - intros e _ Γ Γ'. cbn [core_stmt statement_has_bytecode]. destruct e; try done. destruct call_kind; try done.
    destruct (GetType e) as [[]|]; try done. destruct (_ && _) eqn:E; [|done]. bprop. intros _. cbn [has_bytecode].
    call_typed_in. eapply forallb_impl; [|eassumption]. apply Forall_forall. intros a _. apply core_has_bytecode.
  - intros p i c n b IHi _ IHn IHb Γ Γ'. cbn [core_stmt statement_has_bytecode].
    assert (match i with Some s => core_stmt Σ ret Γ s | None => Some Γ end = None \/ match i with Some s => statement_has_bytecode s | None => true end = true) as [->| ->]; [|done|].
    { destruct i as [i|]; [|by right]. destruct (core_stmt Σ ret Γ i) eqn:E; [right; by eapply IHi|by left]. }
    destruct (match i with Some s => core_stmt Σ ret Γ s | None => Some Γ end) as [Γ1|]; [|done]. cbn [mbind option_bind andb].
    destruct (match c with Some c => _ | None => true end) eqn:Ec; [|done].
    assert (match c with Some c => has_bytecode c | None => true end = true) as ->.
    { destruct c as [c|]; [|done]. bprop. by eapply core_has_bytecode. }
    cbn [andb]. destruct (core_stmt Σ ret Γ1 b) as [Γ2|] eqn:Eb; [|done]. cbn [mbind option_bind]. rewrite (IHb _ _ Eb), andb_true_r.
    destruct n as [n|]; [|done]. apply IHn.
  - intros p c t e _ IHt IHe Γ Γ'. cbn [core_stmt statement_has_bytecode]. destruct (_ && _) eqn:E; [|done]. bprop.
    match goal with H : core_expr _ _ c = true |- _ => rewrite (core_has_bytecode _ _ _ H) end. cbn [andb]. destruct (core_stmt Σ ret Γ t) as [Γ1|] eqn:Et; [|done]. cbn [mbind option_bind].
    rewrite (IHt _ _ Et). destruct e as [e|]; [|done]. apply IHe.
  - intros p [e|] _ Γ Γ'; [|done]. cbn [core_stmt statement_has_bytecode]. destruct (_ && _) eqn:E; [|done]. bprop. intros _. by eapply core_has_bytecode.
  - intros p n t [e|] _ Γ Γ'; [|done]. cbn [core_stmt statement_has_bytecode]. destruct (match t with Some r => _ | None => _ end) as [t'|]; [|done].
    cbn [mbind option_bind]. destruct (_ && _) eqn:E; [|done]. bprop. intros _. by eapply core_has_bytecode.
Qed.

(** * Frames

    The locals of the core have at most 8 bytes, so a frame has at most 16 for each. *)

Definition max_locals : Z := 2 ^ 26.
Definition is_temp (x : string) : Prop := exists k : Z, x = ("tmp" +:+ pretty k)%string.
(** A local a new function begins with or that is made for a variable or a value. *)
Definition small_type `{CppClasses} `{AlignOps} (t : TplType) : Prop := GetSize t + GetAlignment t <= 16.

Section frames.
Context `{AlignOpsSpec} `{CppClassesSpec}.

Record frame_fine (f : FunctionInfo TplType) : Prop := {
  fine_placed : placed 0 (map local_place (locals_ f)) (frame_size_ f);
  fine_size : 0 <= frame_size_ f <= 16 * Z.of_nat (length (locals_ f));
  fine_locals : Forall (fun l => li_size l = GetSize (li_type l) /\ is_uint 31 (li_offset l)) (locals_ f)
}.
Definition few_locals (f : FunctionInfo TplType) : Prop := Z.of_nat (length (locals_ f)) <= max_locals.

Lemma primitive_ctype t : primitive t = true -> exists c, ctype_of t = Some c.
Proof. unfold primitive. intros [c Hc]%bool_decide_eq_true. by exists c. Qed.
Lemma ctype_size t c : ctype_of t = Some c -> GetSize t = Z.of_nat (sizeof c) /\ GetAlignment t = Z.of_nat (sizeof c).
Proof. destruct t as [k| | | | | |]; try done. destruct k; try done; intros [= <-]; done. Qed.
Lemma primitive_small_type t : primitive t = true -> small_type t.
Proof.
  intros [c Hc]%primitive_ctype. destruct (ctype_size t c Hc) as [Es Ea]. unfold small_type. rewrite Es, Ea.
  destruct t as [k| | | | | |]; try done. destruct k; try done; injection Hc as <-; done.
Qed.
Lemma pointer_small_type t : small_type (PointerType t).
Proof. done. Qed.

Lemma local_size_range t : 0 <= GetSize t.
Proof. apply (GetSize_range t). Qed.

(** The offset of a local is the one its reference has, and no reference is the invalid one. *)
Lemma fine_offset f pl : frame_fine f -> few_locals f -> in_frame f pl -> 0 <= li_offset pl.2 < kInvalidOffset.
Proof.
  intros [Hp Hs Hl] Hf Hin. unfold in_frame in Hin.
  assert (Forall (fun i : Z * (Z * Z) => 0 <= i.2.1) (map local_place (locals_ f))) as Hsz.
  { apply Forall_map. eapply Forall_impl; [exact Hl|]. intros l [E _]. cbn. rewrite E. apply local_size_range. }
  destruct (placed_bounds _ _ _ Hsz Hp) as [_ Hb]. rewrite Forall_map, Forall_lookup in Hb. specialize (Hb _ _ Hin). cbn in Hb.
  rewrite Forall_lookup in Hl. destruct (Hl _ _ Hin) as [E Ho]. pose proof (local_size_range (li_type pl.2)).
  unfold few_locals, max_locals in Hf. change kInvalidOffset with (2 ^ 31 - 1). change (2 ^ 26) with 67108864 in Hf. change (2 ^ 31) with 2147483648. lia.
Qed.

Lemma NewLocal_fine f t n : frame_fine f -> small_type t -> few_locals (NewLocal f t n).2 ->
  exists l f', NewLocal f t n = (local_ref l, f') /\ locals_ f' = locals_ f ++ [l] /\ li_type l = t /\ IsParameter l = false /\
    (if String.eqb n EmptyString then is_temp (li_name l) else li_name l = n) /\ frame_fine f'.
Proof.
  intros [Hp Hs Hl] Ht Hf.
  assert (length (locals_ (NewLocal f t n).2) = S (length (locals_ f))) as Elen.
  { unfold NewLocal. destruct (String.eqb n EmptyString); cbn; rewrite length_app; simpl; lia. }
  unfold few_locals, max_locals in Hf. rewrite Elen in Hf.
  pose proof (frame_step_spec f (NewVar t n) (16 * Z.of_nat (length (locals_ f))) Hp Hs) as Hstep.
  cbn [op_type is_param frame_step] in Hstep. unfold small_type in Ht. destruct (NewLocal f t n) as [v f'] eqn:E.
  change (2 ^ 26) with 67108864 in Hf. change (2 ^ 31) with 2147483648 in Hstep.
  destruct Hstep as (Hp' & Hs' & (l & El & (Et & Es & Ekind & En) & -> & Ho) & _); [lia|]. exists l, f'.
  split; [done|]. split; [done|]. split; [done|]. split; [done|]. split; [done|]. constructor; [done|rewrite El, length_app; cbn [length]; lia|].
  rewrite El. apply Forall_app. split; [done|]. constructor; [|done]. by rewrite Et, Es.
Qed.

(** ** Looking variables up *)

Lemma lookup_place_extend f f' x pl : locals_ f `prefix_of` locals_ f' -> lookup_place f x = Some pl -> lookup_place f' x = Some pl.
Proof. unfold lookup_place. destruct pl as [i l]. intros [k ->] E. by apply list_find_app_l. Qed.

Lemma lookup_place_new f f' l x : locals_ f' = locals_ f ++ [l] -> lookup_place f' x =
  match lookup_place f x with Some pl => Some pl | None => if decide (li_name l = x) then Some (length (locals_ f), l) else None end.
Proof.
  unfold lookup_place. intros ->. destruct (list_find _ (locals_ f)) as [[i l0]|] eqn:E; [by apply list_find_app_l|].
  rewrite list_find_app_r by done. cbn [list_find]. destruct (decide _); [|done]. unfold prod_map. cbn [fmap option_fmap option_map fst snd id]. do 2 f_equal.
Qed.

Lemma LookupLocalInfo_place f x : LookupLocalInfoByName f x = snd <$> lookup_place f x.
Proof.
  unfold LookupLocalInfoByName, lookup_place. induction (locals_ f) as [|l ls IH]; [done|]. cbn [List.find list_find].
  destruct (String.eqb_spec (li_name l) x) as [->|Hn]; [by rewrite decide_True|]. rewrite decide_False by done. rewrite IH.
  by destruct (list_find _ ls) as [[i l']|].
Qed.
Lemma LookupLocal_place f x pl : lookup_place f x = Some pl -> LookupLocal f x = local_ref pl.2.
Proof. intros E. unfold LookupLocal. by rewrite LookupLocalInfo_place, E. Qed.

Lemma temp_not_variable x : is_temp x -> variable_name_ok x = false.
Proof.
  intros [k ->]. unfold variable_name_ok. assert (forall s, String.prefix "tmp" ("tmp" +:+ s) = true) as -> by (intros []; reflexivity). done.
Qed.

(** The variables that are declared are the locals with the names of variables. *)
Record typing_ok (Γ : typing) (f : FunctionInfo TplType) : Prop := {
  typing_names x t : Γ !! x = Some t -> variable_name_ok x = true;
  typing_places x : variable_name_ok x = true ->
    match Γ !! x with Some t => exists pl, lookup_place f x = Some pl /\ li_type pl.2 = t | None => lookup_place f x = None end
}.

Lemma typing_ok_temp Γ f f' l : typing_ok Γ f -> locals_ f' = locals_ f ++ [l] -> is_temp (li_name l) -> typing_ok Γ f'.
Proof.
  intros [Hn Ht] El Hl. split; [done|]. intros x Hx. specialize (Ht x Hx). rewrite (lookup_place_new f f' l x El). destruct (Γ !! x) as [t|].
  - destruct Ht as (pl & -> & Et). by exists pl.
  - rewrite Ht, decide_False; [done|]. intros <-. by rewrite temp_not_variable in Hx.
Qed.
Lemma typing_ok_variable Γ f f' l x t : typing_ok Γ f -> locals_ f' = locals_ f ++ [l] -> li_name l = x -> li_type l = t ->
  variable_name_ok x = true -> Γ !! x = None -> typing_ok (<[x := t]> Γ) f' /\ lookup_place f' x = Some (length (locals_ f), l).
Proof.
  intros [Hnames Ht] El Hn Et Hx Hnew. pose proof (Ht x Hx) as Hl. rewrite Hnew in Hl.
  assert (lookup_place f' x = Some (length (locals_ f), l)) as Ex by (rewrite (lookup_place_new f f' l x El), Hl; by rewrite decide_True).
  split; [|done]. split.
  - intros y ty. destruct (decide (y = x)) as [->|Hne]; [done|]. rewrite lookup_insert_ne by done. apply Hnames.
  - intros y Hy. destruct (decide (y = x)) as [->|Hne].
    + rewrite lookup_insert_eq. by eexists.
    + rewrite lookup_insert_ne by done. specialize (Ht y Hy). rewrite (lookup_place_new f f' l y El).
      destruct (Γ !! y) as [t'|]; [destruct Ht as (pl & -> & ?); by exists pl|]. rewrite Ht, decide_False; [done|congruence].
Qed.

(** An expression mentions declared variables only. *)
Lemma core_mentions Σ Γ x e : core_expr Σ Γ e = true -> mentions x e = true -> is_Some (Γ !! x).
Proof.
  revert e. apply (TExpression_tree_ind (fun e => core_expr Σ Γ e = true -> mentions x e = true -> is_Some (Γ !! x)) (fun _ => True) (fun _ => True)); try done.
  - intros e He Hc. destruct e; done.
  - intros p op l r [t|] IHl IHr; [|done]. cbn [core_expr mentions]. intros Hc Hm. bprop. apply orb_true_iff in Hm as [Hm|Hm]; auto.
  - intros [] func args [t|] _ IH; try done. cbn [core_expr mentions]. intros Hc Hm. bprop. apply existsb_exists in Hm as (a & Ha & Hm).
    rewrite Forall_forall in IH. match goal with Hall : forallb _ _ = true |- _ => rewrite forallb_forall in Hall; eapply IH; [by apply list_elem_of_In|by apply Hall|done] end.
  - intros p op l r [t|] IHl IHr; [|done]. cbn [core_expr mentions]. intros Hc Hm. bprop. apply orb_true_iff in Hm as [Hm|Hm]; auto.
  - intros p n [t|]; [|done]. cbn [core_expr mentions]. intros Hc Hm. bprop. apply String.eqb_eq in Hm as <-.
    match goal with Hb : bool_decide _ = true |- _ => apply bool_decide_eq_true in Hb end. by eexists.
  - intros p op e [t|] IH; [|done]. cbn [core_expr mentions]. intros Hc Hm. bprop. auto.
Qed.
Lemma core_safe Σ Γ x e : Γ !! x = None -> core_expr Σ Γ e = true -> safe_into x e = true.
Proof.
  intros Hx. revert e. apply (TExpression_tree_ind (fun e => core_expr Σ Γ e = true -> safe_into x e = true) (fun _ => True) (fun _ => True)); try done.
  { intros e He Hc. by destruct e. }
  intros p op l r [t|] IHl IHr; [|done]. cbn [core_expr]. intros Hc. bprop.
  assert (mentions x r = false) as Hm. { apply not_true_iff_false. intros Hm. destruct (core_mentions Σ Γ x r) as [? ?]; [done|done|congruence]. }
  destruct op; try done; cbn [safe_into]; by rewrite IHl, IHr, Hm.
Qed.

End frames.

(** * States of the generator *)

Definition small (s : BytecodeGenerator) : Prop := match last (gen_functions_ s) with Some f => few_locals f | None => True end.
Lemma small_grows s s' : grows s s' -> small s' -> small s.
Proof.
  intros [_ Hl]. unfold small. destruct (gen_functions_ s) as [|f l] eqn:E using rev_ind; [done|]. clear IHl.
  apply Forall2_app_inv_l in Hl as (l1 & l2 & _ & H2 & E'). rewrite E'. inversion H2 as [|? f' ? l3 [Hp _] H3]; subst. inversion H3; subst.
  rewrite !last_snoc. unfold few_locals. apply prefix_length in Hp. lia.
Qed.

(** An emission that is an instruction. *)
Lemma emit_writes f i s u s' : emits f i -> emit f s = Some (u, s') ->
  s' = set_bytecode (f (bytecode_ s)) s /\ forall n, writes n n [Ins i] (bytecode_ s) (bytecode_ s').
Proof. intros [_ Hf] [= _ <-]. split; [done|]. intros n. by apply writes_ins, Hf. Qed.
Lemma emit_locals_writes b vs s u s' : takes (length vs) b -> Forall local_ok vs -> emit (Emit b vs) s = Some (u, s') ->
  s' = set_bytecode (Emit b vs (bytecode_ s)) s /\ forall n, writes n n [Ins (Plain b (map bitfield_ vs))] (bytecode_ s) (bytecode_ s').
Proof.
  intros Hb Hv. apply emit_writes, emits_locals; [|done]. unfold takes in Hb. rewrite Hb. f_equal. clear.
  induction vs as [|v vs IH]; [done|]. cbn [length replicate map]. by rewrite IH.
Qed.

Section states.
Context `{AlignOpsSpec} `{CppClassesSpec} `{Catalog}.
Context (Σ : signatures) (ids : gmap string Z).
Context (Hids : forall name sig, Σ !! name = Some sig -> is_Some (ids !! name)).

(** The function [f] is being compiled. *)
Record ready (Γ : typing) (fs : list (FunctionInfo TplType)) (f : FunctionInfo TplType) (s : BytecodeGenerator) : Prop := {
  ready_current : gen_functions_ s = fs ++ [f];
  ready_fine : frame_fine f;
  ready_typing : typing_ok Γ f;
  ready_ids : func_map_ s = ids
}.
Lemma ready_code Γ fs f s c : ready Γ fs f s -> ready Γ fs f (set_bytecode c s).
Proof. by intros [? ? ? ?]. Qed.
Lemma ready_result Γ fs f s r : ready Γ fs f s -> ready Γ fs f (set_result r s).
Proof. by intros [? ? ? ?]. Qed.
Lemma ready_few Γ fs f s : ready Γ fs f s -> small s -> few_locals f.
Proof. intros [E _ _ _]. unfold small. by rewrite E, last_snoc. Qed.

(** The result scope asks for the value in a place, or in any. *)
Definition dest_ref (f : FunctionInfo TplType) (d : option place) (dv : LocalVar) (t : TplType) : Prop :=
  match d with None => dv = invalid_LocalVar | Some pl => dv = local_ref pl.2 /\ in_frame f pl /\ li_type pl.2 = t end.

Lemma local_ref_valid f pl : frame_fine f -> few_locals f -> in_frame f pl -> IsInvalid (local_ref pl.2) = false.
Proof.
  intros Hf Hs Hin. pose proof (fine_offset f pl Hf Hs Hin) as Ho. unfold IsInvalid, local_ref.
  rewrite GetOffset_new; [apply Z.eqb_neq; lia|]. unfold is_uint. change kInvalidOffset with (2 ^ 31 - 1) in Ho. lia.
Qed.
Lemma value_ref_GetOffset f pl : frame_fine f -> in_frame f pl -> GetOffset (local_ref pl.2) = li_offset pl.2.
Proof.
  intros [_ _ Hl] Hin. unfold in_frame in Hin. rewrite Forall_lookup in Hl. destruct (Hl _ _ Hin) as [_ Ho]. by apply GetOffset_new.
Qed.

Lemma NewTemp_spec Γ fs f t s v s' : ready Γ fs f s -> small_type t -> small s' -> NewTemp t s = Some (v, s') ->
  exists l f', v = local_ref l /\ s' = set_functions (fs ++ [f']) s /\ ready Γ fs f' s' /\
    NewLocal f t EmptyString = (local_ref l, f') /\ locals_ f' = locals_ f ++ [l] /\ li_type l = t /\ is_temp (li_name l).
Proof.
  intros [Ec Hf Ht Ei] Hst Hs'. unfold NewTemp, NewLocal_named. rewrite Ec, last_snoc, removelast_last. intros Hr.
  assert (few_locals (NewLocal f t EmptyString).2) as Hfew.
  { destruct (NewLocal f t EmptyString) as [v0 f0]. injection Hr as _ <-. unfold small in Hs'. cbn [gen_functions_ set_functions] in Hs'. by rewrite last_snoc in Hs'. }
  destruct (NewLocal_fine f t EmptyString Hf Hst Hfew) as (l & f' & El & Elocals & Et & _ & En & Hf'). rewrite El in Hr. injection Hr as <- <-.
  exists l, f'. repeat (split; [done|]). split; [|done]. constructor; [done|done| |done]. by eapply typing_ok_temp.
Qed.

Lemma GetOrCreateDestination_spec Γ fs f d dv t s v s' : ready Γ fs f s -> small_type t -> small s' ->
  execution_result_ s = Some (mkResultScope dv RValue) -> dest_ref f d dv t -> GetOrCreateDestination (Some t) s = Some (v, s') ->
  exists pl f', v = local_ref pl.2 /\ bytecode_ s' = bytecode_ s /\ ready Γ fs f' s' /\ execution_result_ s' = Some (mkResultScope v RValue) /\
    dest_place f t d pl f' /\ in_frame f' pl /\ li_type pl.2 = t /\ (is_temp (li_name pl.2) \/ d = Some pl).
Proof.
  intros Hr Ht Hs' Ex Hd. unfold GetOrCreateDestination, HasDestination, GetDestination, GetExecutionResult, gets, the, mret, Gen_ret, mbind, Gen_bind.
  rewrite Ex. cbn [destination_]. destruct d as [pl|].
  - destruct Hd as (-> & Hin & Et). destruct (IsInvalid (local_ref pl.2)) eqn:Ei; cbn [negb].
    + intros Hrun. exfalso. assert (few_locals f) as Hfew.
      { destruct (NewTemp t s) as [[v1 s1]|] eqn:E1; [|done]. pose proof (small_grows s s1) as Hg.
        destruct (ok_run _ _ _ _ _ (ok_NewTemp t) (fun r Er => ltac:(rewrite Ex in Er; injection Er as <-; apply new_LocalVar_ok)) E1) as (_ & _ & Hgr).
        eapply ready_few; [exact Hr|]. apply (small_grows s s1 Hgr).
        unfold SetDestination, GetExecutionResult, gets, the, update, mret, Gen_ret, mbind, Gen_bind in Hrun.
        destruct (execution_result_ s1); [|done]. injection Hrun as _ <-. exact Hs'. }
      by rewrite (local_ref_valid f pl (ready_fine _ _ _ _ Hr) Hfew Hin) in Ei.
    + rewrite Ex. intros [= <- <-]. exists pl, f. split; [done|]. split; [done|]. split; [done|]. split; [done|].
      split; [by constructor|]. split; [done|]. split; [done|]. by right.
  - hnf in Hd. subst dv. change (IsInvalid invalid_LocalVar) with true. cbn [negb].
    destruct (NewTemp t s) as [[v1 s1]|] eqn:E1; [|done].
    unfold SetDestination, GetExecutionResult, gets, the, update, mret, Gen_ret, mbind, Gen_bind.
    destruct (execution_result_ s1) as [r|] eqn:Ex1; [|done]. intros [= <- <-].
    destruct (NewTemp_spec Γ fs f t s v1 s1 Hr Ht Hs' E1) as (l & f' & -> & -> & Hr' & El & Elocals & Et & Htemp).
    cbn [set_functions execution_result_] in Ex1. rewrite Ex in Ex1. injection Ex1 as <-. cbn [kind_].
    exists (length (locals_ f), l), f'. cbn [snd]. split; [done|]. split; [done|]. split; [by apply ready_result|]. split; [done|].
    split; [by constructor|]. split; [|split; [done|by left]]. unfold in_frame. rewrite Elocals. cbn [fst snd].
    rewrite lookup_app_r by lia. by rewrite Nat.sub_diag.
Qed.

(** ** What the visits of an expression leave *)

Definition expr_spec (Γ : typing) (e : TExpression) : spec unit := fun s _ s' q => forall fs f d dv t,
  ready Γ fs f s -> small s' -> execution_result_ s = Some (mkResultScope dv RValue) -> GetType e = Some t -> dest_ref f d dv t ->
  (forall pl, d = Some pl -> safe_into (li_name pl.2) e = true) ->
  exists pl f', ready Γ fs f' s' /\ expr_code Σ ids f d e q pl f' /\ (d = None -> execution_result_ s' = Some (mkResultScope (value_ref pl.2) RValue)).
Definition operand_spec (Γ : typing) (e : TExpression) : spec LocalVar := fun s v s' q => forall fs f,
  ready Γ fs f s -> small s' ->
  exists pl f', ready Γ fs f' s' /\ expr_code Σ ids f None e q pl f' /\ v = value_ref pl.2 /\ execution_result_ s' = execution_result_ s.
Definition into_spec (Γ : typing) (e : TExpression) (dv : LocalVar) : spec unit := fun s _ s' q => forall fs f pl,
  ready Γ fs f s -> small s' -> dv = local_ref pl.2 -> in_frame f pl -> GetType e = Some (li_type pl.2) -> safe_into (li_name pl.2) e = true ->
  exists f' pl', ready Γ fs f' s' /\ expr_code Σ ids f (Some pl) e q pl' f' /\ execution_result_ s' = execution_result_ s.

(** In a scope that asks for a value, what an expression writes is its code. *)
Definition rvalue_scope (s : BytecodeGenerator) : Prop := exists dv, execution_result_ s = Some (mkResultScope dv RValue).
Definition translates (Γ : typing) (e : TExpression) : Prop := forall s s', sane s -> rvalue_scope s -> gen_expr e s = Some (tt, s') -> forall n,
  exists q n', writes n n' q (bytecode_ s) (bytecode_ s') /\ sane s' /\ expr_spec Γ e s tt s' q.
Definition translated (Γ : typing) (e : TExpression) : Prop := core_expr Σ Γ e = true -> translates Γ e.

Lemma in_scope_spec Γ e dv s v s' n : core_expr Σ Γ e = true -> translates Γ e -> local_ok dv -> sane s ->
  in_result_scope RValue dv (gen_expr e) s = Some (v, s') -> exists q n', writes n n' q (bytecode_ s) (bytecode_ s') /\ sane s' /\
  exists s1 r, expr_spec Γ e (set_result (Some (mkResultScope dv RValue)) s) tt s1 q /\ execution_result_ s1 = Some r /\ v = destination_ r /\
    s' = set_result (execution_result_ s) s1.
Proof.
  intros Hc Hg Hd Hs Hr. unfold in_result_scope in Hr. bstep Hr as outer s0 E. injection E as <- <-.
  bstep Hr as [] s1 E. injection E as <-. bstep Hr as [] s2 E2. bstep Hr as d' s3 E3. bstep Hr as [] s4 E4. injection E4 as <-.
  munf Hr. injection Hr as <- <-.
  assert (sane (set_result (Some (mkResultScope dv RValue)) s)) as Hs1 by (by intros r [= <-]).
  destruct (Hg _ _ Hs1 ltac:(by eexists) E2 n) as (q & n' & Hw & Hs2 & Hspec).
  unfold GetDestination in E3. bstep E3 as r s5 E. bstep E as o s6 E0. injection E0 as <- <-. apply the_inv in E as [Ed ->].
  munf E3. injection E3 as <- <-. exists q, n'. split; [exact Hw|]. split; [exact Hs|]. by exists s2, r.
Qed.

Lemma core_type Γ e : core_expr Σ Γ e = true -> exists t, GetType e = Some t /\ primitive t = true.
Proof.
  destruct e; try done; cbn [core_expr GetType].
  all: try (destruct call_kind; try done); destruct type as [t|]; try done; intros Hc; bprop; exists t; (split; [done|]); try done.
  - match goal with Hb : has_type e1 t = true |- _ => clear Hb end. unfold core_binary in *. destruct op; try done;
      try (match goal with Hb : bool_decide _ = true |- _ => apply bool_decide_eq_true in Hb as ->; done end);
      destruct t as [k| | | | | |]; try done; by destruct k.
  - match goal with Hb : bool_decide (t = _) = true |- _ => apply bool_decide_eq_true in Hb as -> end. done.
  - unfold primitive. match goal with Hb : bool_decide _ = true |- _ => apply bool_decide_eq_true in Hb as [z Hz] end.
    destruct (ctype_of t) as [c|]; [|done]. by apply bool_decide_eq_true.
  - unfold core_unary in *. destruct op; try done; try (match goal with Hb : bool_decide _ = true |- _ => apply bool_decide_eq_true in Hb as ->; done end);
      destruct t as [k| | | | | |]; try done; by destruct k.
Qed.

Lemma operand_gives Γ e : core_expr Σ Γ e = true -> translates Γ e ->
  gives (VisitExpressionForRValue (gen_expr e)) (operand_spec Γ e).
Proof.
  intros Hc Hg s v s' Hs Hr n.
  destruct (in_scope_spec Γ e _ _ _ _ n Hc Hg (new_LocalVar_ok _ _) Hs Hr) as (q & n' & Hw & Hs' & s1 & r & Hspec & Ex & -> & ->).
  exists q, n'. split; [exact Hw|]. split; [exact Hs'|]. intros fs f Hready Hsm. destruct (core_type Γ e Hc) as (t & Et & Hpt).
  destruct (Hspec fs f None invalid_LocalVar t) as (pl & f' & Hr' & Hcode & Hres);
    [by apply ready_result|exact Hsm|done|done|done|done|].
  exists pl, f'. split; [by apply ready_result|]. split; [done|]. split; [|done]. rewrite Hres in Ex by done. by injection Ex as <-.
Qed.
Lemma into_gives Γ e dv : core_expr Σ Γ e = true -> translates Γ e -> local_ok dv ->
  gives (VisitExpressionForRValue_into (gen_expr e) dv) (into_spec Γ e dv).
Proof.
  intros Hc Hg Hd s [] s' Hs Hr n. unfold VisitExpressionForRValue_into in Hr. bstep Hr as v s0 Hr0. munf Hr. injection Hr as <-.
  destruct (in_scope_spec Γ e _ _ _ _ n Hc Hg Hd Hs Hr0) as (q & n' & Hw & Hs' & s1 & r & Hspec & Ex & -> & ->).
  exists q, n'. split; [exact Hw|]. split; [exact Hs'|]. intros fs f pl Hready Hsm -> Hin Et Hsafe.
  destruct (Hspec fs f (Some pl) (local_ref pl.2) (li_type pl.2)) as (pl' & f' & Hr' & Hcode & _);
    [by apply ready_result|exact Hsm|done|done|done|by intros ? [= <-]|].
  exists f', pl'. split; [by apply ready_result|]. done.
Qed.

Lemma core_ok Γ e : core_expr Σ Γ e = true -> emits_ok any (gen_expr e).
Proof. intros Hc. by eapply ok_visitors, core_has_bytecode. Qed.

Lemma SetDestination_inv d s u s' r : execution_result_ s = Some r -> SetDestination d s = Some (u, s') ->
  s' = set_result (Some (mkResultScope d (kind_ r))) s.
Proof. intros Ex. unfold SetDestination, GetExecutionResult, gets, the, update, mret, Gen_ret, mbind, Gen_bind. rewrite Ex. by intros [= <-]. Qed.

(** ** Bytecodes by type *)

Lemma GetInt_unary op name t c s b s' : In (op, name) [(MINUS, "Neg"%string); (BIT_NOT, "BitNeg"%string)] -> type_in small_int (Some t) = true ->
  ctype_of t = Some c -> GetIntTypedBytecode (int_base name) (Some t) true s = Some (b, s') -> unary_code op c = Some b /\ takes 2 b /\ s' = s.
Proof.
  intros Hin (k & [= ->] & Hk)%type_in_inv Hc [= <- <-]. repeat destruct Hin as [[= <- <-]|Hin]; try done;
    (destruct k; try done; injection Hc as <-; (split; [|split; [|done]]); vm_compute; reflexivity).
Qed.
Definition bit_ops : list (TokenType * string) :=
  [(AMPERSAND, "BitAnd"); (BIT_OR, "BitOr"); (BIT_XOR, "BitXor"); (BIT_SHL, "BitShl"); (BIT_SHR, "BitShr")]%string.
Lemma GetInt_binary op name t c s b s' : In (op, name) bit_ops -> type_in small_int (Some t) = true ->
  ctype_of t = Some c -> GetIntTypedBytecode (int_base name) (Some t) true s = Some (b, s') -> arith_code op c = Some b /\ takes 3 b /\ s' = s.
Proof.
  intros Hin (k & [= ->] & Hk)%type_in_inv Hc [= <- <-]. repeat destruct Hin as [[= <- <-]|Hin]; try done;
    (destruct k; try done; injection Hc as <-; (split; [|split; [|done]]); vm_compute; reflexivity).
Qed.
Definition math_ops : list (TokenType * string) := [(PLUS, "Add"); (MINUS, "Sub"); (STAR, "Mul"); (SLASH, "Div"); (PERCENT, "Rem")]%string.
Lemma MATH_inv name k s b s' : MATH_BYTECODE name (Some (BuiltinType k)) s = Some (b, s') ->
  b = (if IsIntegral k then int_bytecode (int_base name) true k else float_bytecode (float_base name) k) /\ s' = s.
Proof.
  unfold MATH_BYTECODE. intros Hr. bstep Hr as t s1 E. apply the_inv in E as [[= <-] ->]. cbn [IsIntegerType] in Hr.
  destruct (IsIntegral k); injection Hr as <- <-; done.
Qed.
Lemma MATH_binary op name t c s b s' : In (op, name) math_ops -> arithmetic (Some t) = true ->
  ctype_of t = Some c -> MATH_BYTECODE name (Some t) s = Some (b, s') -> arith_code op c = Some b /\ takes 3 b /\ s' = s.
Proof.
  intros Hin (k & [= ->] & Hk)%type_in_inv Hc [-> ->]%MATH_inv. repeat destruct Hin as [[= <- <-]|Hin]; try done;
    (destruct k; try done; injection Hc as <-; (split; [|split; [|done]]); vm_compute; reflexivity).
Qed.
Lemma COMPARISON_inv name k s b s' : COMPARISON_BYTECODE name (Some (BuiltinType k)) s = Some (b, s') ->
  b = (if IsIntegral k then int_bytecode (int_base name) true k
       else if IsFloatingPoint k then float_bytecode (float_base name) k else code (typed name "bool")) /\ s' = s.
Proof.
  unfold COMPARISON_BYTECODE. intros Hr. bstep Hr as t s1 E. apply the_inv in E as [[= <-] ->]. cbn [IsIntegerType IsFloatType] in Hr.
  destruct (IsIntegral k); [injection Hr as <- <-; done|]. destruct (IsFloatingPoint k); injection Hr as <- <-; done.
Qed.
Lemma COMPARISON_code op name t c s b s' : comparison_name op = Some name -> ctype_of t = Some c ->
  COMPARISON_BYTECODE name (Some t) s = Some (b, s') -> compare_code op c = Some b /\ takes 3 b /\ s' = s.
Proof.
  intros Hn Hc Hr. destruct t as [k| | | | | |]; try done. apply COMPARISON_inv in Hr as [-> ->].
  destruct op; try done; injection Hn as <-;
    (destruct k; try done; injection Hc as <-; (split; [|split; [|done]]); vm_compute; reflexivity).
Qed.

Lemma copy_assign t c dest val s u s' : ctype_of t = Some c -> local_ok dest -> local_ok val -> BuildAssign dest val (Some t) s = Some (u, s') ->
  s' = set_bytecode (bytecode_ s') s /\
  forall n, writes n n [Ins (Plain (code ("Assign" +:+ size_name (sizeof c))) [bitfield_ dest; bitfield_ val])] (bytecode_ s) (bytecode_ s').
Proof.
  intros Hc Hd Hv Hr. unfold BuildAssign in Hr. bstep Hr as t' s1 E. apply the_inv in E as [[= <-] ->]. rewrite (proj1 (ctype_size t c Hc)) in Hr. cbv zeta in Hr.
  assert (exists b, b = code ("Assign" +:+ size_name (sizeof c)) /\ takes 2 b /\ emit (Emit b [dest; val]) s = Some (u, s')) as (b & -> & Hb & Hr').
  { destruct t as [k| | | | | |]; try done. destruct k; try done; injection Hc as <-; eexists; (split; [reflexivity|]); (split; [vm_compute; reflexivity|exact Hr]). }
  apply emit_locals_writes in Hr' as [E Hw]; [|done|by repeat apply Forall_cons_2]. split; [by rewrite E|exact Hw].
Qed.
Lemma copy_deref t c dest ptr s u s' : ctype_of t = Some c -> local_ok dest -> local_ok ptr -> BuildDeref dest ptr (Some t) s = Some (u, s') ->
  s' = set_bytecode (bytecode_ s') s /\
  forall n, writes n n [Ins (Plain (code ("Deref" +:+ size_name (sizeof c))) [bitfield_ dest; bitfield_ ptr])] (bytecode_ s) (bytecode_ s').
Proof.
  intros Hc Hd Hv Hr. unfold BuildDeref in Hr. bstep Hr as t' s1 E. apply the_inv in E as [[= <-] ->]. rewrite (proj1 (ctype_size t c Hc)) in Hr. cbv zeta in Hr.
  assert (exists b, b = code ("Deref" +:+ size_name (sizeof c)) /\ takes 2 b /\ emit (Emit b [dest; ptr]) s = Some (u, s')) as (b & -> & Hb & Hr').
  { destruct t as [k| | | | | |]; try done. destruct k; try done; injection Hc as <-; eexists; (split; [reflexivity|]); (split; [vm_compute; reflexivity|exact Hr]). }
  apply emit_locals_writes in Hr' as [E Hw]; [|done|by repeat apply Forall_cons_2]. split; [by rewrite E|exact Hw].
Qed.

(** ** Identifiers and literals *)

Lemma scope_queries s dv : execution_result_ s = Some (mkResultScope dv RValue) ->
  IsLValue s = Some (false, s) /\ IsRValue s = Some (true, s) /\ HasDestination s = Some (negb (IsInvalid dv), s) /\ GetDestination s = Some (dv, s) /\
  HasExecutionResult s = Some (true, s).
Proof.
  intros Ex. unfold IsLValue, IsRValue, HasDestination, GetDestination, HasExecutionResult, GetExecutionResult, gets, the, mret, Gen_ret, mbind, Gen_bind.
  rewrite Ex. done.
Qed.

End states.

(** * Every expression of the core is translated as [GeneratorCode] says *)

Lemma dest_silent `{AlignOps, CppClasses} type s v s1 : GetOrCreateDestination type s = Some (v, s1) -> bytecode_ s1 = bytecode_ s.
Proof.
  unfold GetOrCreateDestination, HasDestination, GetDestination, GetExecutionResult, NewTemp, NewLocal_named, SetDestination, gets, the, update,
    mret, Gen_ret, mbind, Gen_bind.
  destruct (execution_result_ s) as [r|] eqn:Ex; [|done]. destruct (negb (IsInvalid (destination_ r))).
  - rewrite ?Ex. intros E. by injection E as <- <-.
  - destruct type as [t|]; [|done]. destruct (last (gen_functions_ s)) as [f|]; [|done]. destruct (NewLocal f t EmptyString) as [l f'].
    cbv beta iota delta [GetExecutionResult gets the mret Gen_ret mbind Gen_bind]. cbn [set_functions execution_result_]. rewrite Ex. by intros [= _ <-].
Qed.

(** A result is set in a scope. *)
Lemma SetDestination_run d s u s' : SetDestination d s = Some (u, s') ->
  exists r, execution_result_ s = Some r /\ s' = set_result (Some (mkResultScope d (kind_ r))) s.
Proof.
  unfold SetDestination. intros E. bstep E as r s1 E1. unfold GetExecutionResult in E1. bstep E1 as o s2 E2. injection E2 as <- <-.
  apply the_inv in E1 as [E1 ->]. exists r. split; [done|]. by injection E as <-.
Qed.
Lemma set_result_sane d k s : local_ok d -> sane (set_result (Some (mkResultScope d k)) s).
Proof. by intros Hd ? [= <-]. Qed.

Section expressions.
Context `{AlignOpsSpec} `{CppClassesSpec} `{Catalog}.
Context (Σ : signatures) (ids : gmap string Z).
Context (Hids : forall name sig, Σ !! name = Some sig -> is_Some (ids !! name)).

Lemma local_ref_ok (l : LocalInfo TplType) : local_ok (local_ref l).
Proof. apply new_LocalVar_ok. Qed.

(** What a destination is asked for, before the operands are visited. *)
Lemma dest_run t s dest s1 : sane s -> GetOrCreateDestination (Some t) s = Some (dest, s1) ->
  sane s1 /\ local_ok dest /\ grows s s1 /\ bytecode_ s1 = bytecode_ s.
Proof.
  intros Hs E. destruct (ok_run _ _ _ _ _ (ok_GetOrCreateDestination (Some t)) Hs E) as (? & ? & ?).
  pose proof (dest_silent _ _ _ _ E). done.
Qed.

(** The end of an operation: an instruction, and the place of its result. *)
Lemma emit_result b vs dest s s2 s' : takes (length vs) b -> Forall local_ok vs -> sane s -> local_ok dest ->
  emit (Emit b vs) s = Some (tt, s2) -> SetDestination dest s2 = Some (tt, s') ->
  exists r, execution_result_ s = Some r /\ s' = set_result (Some (mkResultScope dest (kind_ r))) (set_bytecode (bytecode_ s') s) /\ sane s' /\
  forall n, writes n n [Ins (Plain b (map bitfield_ vs))] (bytecode_ s) (bytecode_ s').
Proof.
  intros Hb Hv Hs Hd E1 E2. destruct (emit_locals_writes _ _ _ _ _ Hb Hv E1) as [-> Hw].
  apply SetDestination_run in E2 as (r & Ex & ->). exists r. split; [exact Ex|]. split; [done|]. split; [by apply set_result_sane|exact Hw].
Qed.

Definition result_at (pl : place) (s : BytecodeGenerator) : Prop := execution_result_ s = Some (mkResultScope (value_ref pl.2) RValue).

Lemma operand_run Γ e s v s' n : core_expr Σ Γ e = true -> translates Σ ids Γ e -> sane s -> VisitExpressionForRValue (gen_expr e) s = Some (v, s') ->
  local_ok v /\ sane s' /\ grows s s' /\ execution_result_ s' = execution_result_ s /\
  exists q n', writes n n' q (bytecode_ s) (bytecode_ s') /\ operand_spec Σ ids Γ e s v s' q.
Proof.
  intros Hc He Hs E. destruct (ok_run _ _ _ _ _ (ok_RValue _ (core_ok Σ Γ e Hc)) Hs E) as (Hs' & Hv & Hg).
  destruct (operand_gives Σ ids Γ e Hc He _ _ _ Hs E n) as (q & n' & Hw & _ & Hspec).
  split; [done|]. split; [done|]. split; [done|]. split; [|by exists q, n'].
  unfold VisitExpressionForRValue, in_result_scope in E. bstep E as outer s0 E0. injection E0 as <- <-.
  bstep E as [] s1 E1. bstep E as [] s2 E2. bstep E as d s3 E3. bstep E as [] s4 E4. injection E4 as <-. munf E. by injection E as _ <-.
Qed.

(** An operation of one operand, and one of two. *)
Lemma one_operand Γ e t b n s dest s1 input s2 s3 s' : core_expr Σ Γ e = true -> translates Σ ids Γ e -> small_type t -> takes 2 b -> sane s ->
  GetOrCreateDestination (Some t) s = Some (dest, s1) -> VisitExpressionForRValue (gen_expr e) s1 = Some (input, s2) ->
  emit (Emit b [dest; input]) s2 = Some (tt, s3) -> SetDestination (ValueOf dest) s3 = Some (tt, s') ->
  exists q n', writes n n' (q ++ [Ins (Plain b [bitfield_ dest; bitfield_ input])]) (bytecode_ s) (bytecode_ s') /\ sane s' /\
  forall fs f d dv, ready ids Γ fs f s -> small s' -> execution_result_ s = Some (mkResultScope dv RValue) -> dest_ref f d dv t ->
    exists pl pl1 f1 f2, dest_place f t d pl f1 /\ expr_code Σ ids f1 None e q pl1 f2 /\ dest = local_ref pl.2 /\ input = value_ref pl1.2 /\
      ready ids Γ fs f2 s' /\ result_at pl s'.
Proof.
  intros Hc He Ht Hb Hs E1 E2 E3 E4. destruct (dest_run _ _ _ _ Hs E1) as (Hs1 & Hd & Hg1 & Ec1).
  destruct (operand_run Γ e _ _ _ n Hc He Hs1 E2) as (Hi & Hs2 & Hg2 & Ex2 & q & n' & Hw & Hspec).
  destruct (emit_result b [dest; input] _ _ _ _ Hb ltac:(locals_ok) Hs2 (ValueOf_ok _) E3 E4) as (r & Ex & Es' & Hs' & Hw').
  exists q, n'. split; [rewrite <- Ec1; eapply writes_app; [exact Hw|apply Hw']|]. split; [done|].
  intros fs f d dv Hr Hsm Exs Hdr.
  assert (small s2) as Hsm2 by (rewrite Es' in Hsm; exact Hsm).
  destruct (GetOrCreateDestination_spec ids Γ fs f d dv t s dest s1 Hr Ht (small_grows _ _ Hg2 Hsm2) Exs Hdr E1)
    as (pl & f1 & -> & _ & Hr1 & Ex1 & Hdp & _).
  destruct (Hspec fs f1 Hr1 Hsm2) as (pl1 & f2 & Hr2 & Hcode & -> & _).
  exists pl, pl1, f1, f2. do 4 (split; [done|]). rewrite Es'. split; [by apply ready_result, ready_code|].
  unfold result_at. cbn [set_result execution_result_]. rewrite Ex2, Ex1 in Ex. by injection Ex as <-.
Qed.

Lemma two_operands Γ l r t b n s dest s1 left_ s2 right_ s3 s4 s' : core_expr Σ Γ l = true -> core_expr Σ Γ r = true ->
  translates Σ ids Γ l -> translates Σ ids Γ r -> small_type t -> takes 3 b -> sane s ->
  GetOrCreateDestination (Some t) s = Some (dest, s1) -> VisitExpressionForRValue (gen_expr l) s1 = Some (left_, s2) ->
  VisitExpressionForRValue (gen_expr r) s2 = Some (right_, s3) ->
  emit (Emit b [dest; left_; right_]) s3 = Some (tt, s4) -> SetDestination (ValueOf dest) s4 = Some (tt, s') ->
  exists q1 q2 n', writes n n' (q1 ++ q2 ++ [Ins (Plain b [bitfield_ dest; bitfield_ left_; bitfield_ right_])]) (bytecode_ s) (bytecode_ s') /\ sane s' /\
  forall fs f d dv, ready ids Γ fs f s -> small s' -> execution_result_ s = Some (mkResultScope dv RValue) -> dest_ref f d dv t ->
    exists pl pl1 pl2 f1 f2 f3, dest_place f t d pl f1 /\ expr_code Σ ids f1 None l q1 pl1 f2 /\ expr_code Σ ids f2 None r q2 pl2 f3 /\
      dest = local_ref pl.2 /\ left_ = value_ref pl1.2 /\ right_ = value_ref pl2.2 /\ ready ids Γ fs f3 s' /\ result_at pl s'.
Proof.
  intros Hcl Hcr Hl Hr Ht Hb Hs E1 E2 E3 E4 E5. destruct (dest_run _ _ _ _ Hs E1) as (Hs1 & Hd & Hg1 & Ec1).
  destruct (operand_run Γ l _ _ _ n Hcl Hl Hs1 E2) as (Hi & Hs2 & Hg2 & Ex2 & q1 & n1 & Hw1 & Hspec1).
  destruct (operand_run Γ r _ _ _ n1 Hcr Hr Hs2 E3) as (Hi' & Hs3 & Hg3 & Ex3 & q2 & n2 & Hw2 & Hspec2).
  destruct (emit_result b [dest; left_; right_] _ _ _ _ Hb ltac:(locals_ok) Hs3 (ValueOf_ok _) E4 E5) as (rs & Ex & Es' & Hs' & Hw').
  exists q1, q2, n2. split; [rewrite <- Ec1; eapply writes_app; [exact Hw1|eapply writes_app; [exact Hw2|apply Hw']]|]. split; [done|].
  intros fs f d dv Hrd Hsm Exs Hdr.
  assert (small s3) as Hsm3 by (rewrite Es' in Hsm; exact Hsm). pose proof (small_grows _ _ Hg3 Hsm3) as Hsm2.
  destruct (GetOrCreateDestination_spec ids Γ fs f d dv t s dest s1 Hrd Ht (small_grows _ _ Hg2 Hsm2) Exs Hdr E1)
    as (pl & f1 & -> & _ & Hr1 & Ex1 & Hdp & _).
  destruct (Hspec1 fs f1 Hr1 Hsm2) as (pl1 & f2 & Hr2 & Hcode1 & -> & _).
  destruct (Hspec2 fs f2 Hr2 Hsm3) as (pl2 & f3 & Hr3 & Hcode2 & -> & _).
  exists pl, pl1, pl2, f1, f2, f3. do 6 (split; [done|]). rewrite Es'. split; [by apply ready_result, ready_code|].
  unfold result_at. cbn [set_result execution_result_]. rewrite Ex3, Ex2, Ex1 in Ex. by injection Ex as <-.
Qed.

(** ** Operations *)

Lemma translated_unary Γ pos op e type : translated Σ ids Γ e -> translated Σ ids Γ (TUnaryOpExpression pos op e type).
Proof.
  intros He Hc. pose proof Hc as Hc'. cbn [core_expr] in Hc'. destruct type as [t|]; [|done]. bprop. bprop.
  assert (primitive t = true) as Ht by (destruct (core_type Σ Γ _ Hc) as (t' & [= <-] & Ht); exact Ht).
  destruct (primitive_ctype t Ht) as [c Hct]. pose proof (primitive_small_type t Ht) as Hst.
  intros s s' Hs _ Hr n. cbn [gen_expr] in Hr.
  assert (exists b dest s1 input s2 s3, unary_code op c = Some b /\ takes 2 b /\ GetOrCreateDestination (Some t) s = Some (dest, s1) /\
    VisitExpressionForRValue (gen_expr e) s1 = Some (input, s2) /\ emit (Emit b [dest; input]) s2 = Some (tt, s3) /\
    SetDestination (ValueOf dest) s3 = Some (tt, s')) as (b & dest & s1 & input & s2 & s3 & Hb & Htk & E1 & E2 & E3 & E4).
  { unfold core_unary in *. destruct op; try done.
    - unfold VisitLogicalNotExpression in Hr. bstep Hr as dest s1 E1. bstep Hr as input s2 E2. bstep Hr as [] s3 E3.
      match goal with Hb : bool_decide _ = true |- _ => apply bool_decide_eq_true in Hb as -> end. injection Hct as <-.
      exists (code "Not"), dest, s1, input, s2, s3. split; [done|]. split; [vm_compute; reflexivity|]. done.
    - unfold VisitArithmeticUnaryExpression in Hr. bstep Hr as dest s1 E1. bstep Hr as input s2 E2. bstep Hr as b s3 E3.
      destruct (GetInt_unary BIT_NOT "BitNeg" t c _ _ _ ltac:(by right; left) ltac:(eassumption) Hct E3) as (Hb & Htk & ->).
      bstep Hr as [] s4 E4. by exists b, dest, s1, input, s2, s4.
    - unfold VisitArithmeticUnaryExpression in Hr. bstep Hr as dest s1 E1. bstep Hr as input s2 E2. bstep Hr as b s3 E3.
      destruct (GetInt_unary MINUS "Neg" t c _ _ _ ltac:(by left) ltac:(eassumption) Hct E3) as (Hb & Htk & ->).
      bstep Hr as [] s4 E4. by exists b, dest, s1, input, s2, s4. }
  match goal with Hce : core_expr Σ Γ e = true |- _ =>
    destruct (one_operand Γ e t b n _ _ _ _ _ _ _ Hce (He Hce) Hst Htk Hs E1 E2 E3 E4) as (q & n' & Hw & Hs' & Hspec) end.
  eexists _, n'. split; [exact Hw|]. split; [done|]. intros fs f d dv t0 Hrd Hsm Ex [= <-] Hdr _.
  destruct (Hspec fs f d dv Hrd Hsm Ex Hdr) as (pl & pl1 & f1 & f2 & Hdp & Hcode & -> & -> & Hrd' & Hres).
  exists pl, f2. split; [done|]. split; [|done]. eapply code_unary; try done.
  by match goal with Ht : has_type e t = true |- _ => apply bool_decide_eq_true in Ht end.
Qed.

Lemma translated_compare Γ pos op l r type : translated Σ ids Γ l -> translated Σ ids Γ r ->
  translated Σ ids Γ (TComparisonOpExpression pos op l r type).
Proof.
  intros Hl Hr0 Hc. cbn [core_expr] in Hc. destruct type as [t|]; [|done]. bprop. destruct (GetType l) as [tl|] eqn:Etl; [|done]. bprop.
  repeat match goal with Hb : bool_decide (t = _) = true |- _ => apply bool_decide_eq_true in Hb as -> end.
  match goal with Hb : bool_decide (is_Some _) = true |- _ => apply bool_decide_eq_true in Hb as [name Hname] end.
  match goal with Hb : has_type r tl = true |- _ => apply bool_decide_eq_true in Hb as Etr end.
  match goal with Hp : primitive tl = true |- _ => destruct (primitive_ctype tl Hp) as [c Hct] end.
  intros s s' Hs _ Hr n. cbn [gen_expr] in Hr.
  match goal with Hcl : core_expr Σ Γ l = true, Hcr : core_expr Σ Γ r = true |- _ => rename Hcl into Hcl', Hcr into Hcr' end.
  assert (exists b dest s1 left_ s2 right_ s3 s4, compare_code op c = Some b /\ takes 3 b /\ GetOrCreateDestination (Some (BuiltinType Bool)) s = Some (dest, s1) /\
    VisitExpressionForRValue (gen_expr l) s1 = Some (left_, s2) /\ VisitExpressionForRValue (gen_expr r) s2 = Some (right_, s3) /\
    emit (Emit b [dest; left_; right_]) s3 = Some (tt, s4) /\ SetDestination (ValueOf dest) s4 = Some (tt, s'))
    as (b & dest & s1 & left_ & s2 & right_ & s3 & s4 & Hb & Htk & E1 & E2 & E3 & E4 & E5).
  { unfold VisitComparisonOpExpression, VisitPrimitiveComparisonExpression in Hr. bstep Hr as t0 s0 E0. apply the_inv in E0 as [[= <-] ->].
    change (negb (IsSpecificBuiltin (BuiltinType Bool) Bool)) with false in Hr. cbv iota in Hr. bstep Hr as dest s1 E1.
    assert (forall e, core_expr Σ Γ e = true -> IsNilLiteral e = false) as Hnil.
    { intros e He. destruct e; try done. destruct value; try done. cbn [core_expr] in He. destruct type as [t|]; [|done].
      apply bool_decide_eq_true in He as [z Hz]. destruct (ctype_of t) as [c0|]; [|done]. by destruct c0. }
    rewrite (Hnil l), (Hnil r) in Hr by done. cbn [IsLiteralCompareNil andb] in Hr.
    bstep Hr as left_ s2 E2. bstep Hr as right_ s3 E3. bstep Hr as nm s4 E4. apply the_inv in E4 as [E4 ->]. rewrite Hname in E4. injection E4 as <-.
    bstep Hr as b s4 E4. rewrite Etl in E4. destruct (COMPARISON_code op name tl c _ _ _ Hname Hct E4) as (Hb & Htk & ->).
    bstep Hr as [] s5 E5. by exists b, dest, s1, left_, s2, right_, s3, s5. }
  destruct (two_operands Γ l r (BuiltinType Bool) b n _ _ _ _ _ _ _ _ _ Hcl' Hcr' (Hl Hcl') (Hr0 Hcr') ltac:(done) Htk Hs E1 E2 E3 E4 E5)
    as (q1 & q2 & n' & Hw & Hs' & Hspec).
  eexists _, n'. split; [exact Hw|]. split; [done|]. intros fs f d dv t0 Hrd Hsm Ex [= <-] Hdr _.
  destruct (Hspec fs f d dv Hrd Hsm Ex Hdr) as (pl & pl1 & pl2 & f1 & f2 & f3 & Hdp & Hcode1 & Hcode2 & -> & -> & -> & Hrd' & Hres).
  exists pl, f3. split; [done|]. split; [|done]. by eapply code_compare.
Qed.

Definition is_logical (op : TokenType) : bool := match op with AND | OR => true | _ => false end.

Lemma arithmetic_run op t c l r s s' : is_logical op = false -> core_binary op t = true -> ctype_of t = Some c ->
  VisitArithmeticExpression op (Some t) (gen_expr l) (gen_expr r) s = Some (tt, s') ->
  exists b dest s1 left_ s2 right_ s3 s4, arith_code op c = Some b /\ takes 3 b /\ GetOrCreateDestination (Some t) s = Some (dest, s1) /\
    VisitExpressionForRValue (gen_expr l) s1 = Some (left_, s2) /\ VisitExpressionForRValue (gen_expr r) s2 = Some (right_, s3) /\
    emit (Emit b [dest; left_; right_]) s3 = Some (tt, s4) /\ SetDestination (ValueOf dest) s4 = Some (tt, s').
Proof.
  intros Hop Ht Hct Hr. unfold VisitArithmeticExpression in Hr. bstep Hr as t0 s0 E0. apply the_inv in E0 as [[= <-] ->].
  assert (IsSqlValueType t = false) as Hsql by (destruct t as [k| | | | | |]; try done; by destruct k).
  rewrite Hsql in Hr. unfold VisitPrimitiveArithmeticExpression in Hr. bstep Hr as dest s1 E1. bstep Hr as left_ s2 E2. bstep Hr as right_ s3 E3.
  bstep Hr as b s4 E4. assert (arith_code op c = Some b /\ takes 3 b /\ s4 = s3) as (Hb & Htk & ->).
  { unfold core_binary in Ht. destruct op; try done.
    all: first [ eapply MATH_binary; [|exact Ht|exact Hct|exact E4]; vm_compute; tauto
               | eapply GetInt_binary; [|exact Ht|exact Hct|exact E4]; vm_compute; tauto ]. }
  bstep Hr as [] s5 E5. by exists b, dest, s1, left_, s2, right_, s3, s5.
Qed.

Lemma translated_arithmetic Γ pos op l r type : is_logical op = false -> translated Σ ids Γ l -> translated Σ ids Γ r ->
  translated Σ ids Γ (TBinaryOpExpression pos op l r type).
Proof.
  intros Hop Hl Hr0 Hc. pose proof Hc as Hc'. cbn [core_expr] in Hc'. destruct type as [t|]; [|done]. bprop.
  match goal with Hb : has_type r t = true |- _ => apply bool_decide_eq_true in Hb as Etr end.
  match goal with Hb : has_type l t = true |- _ => apply bool_decide_eq_true in Hb as Etl end.
  assert (primitive t = true) as Ht by (destruct (core_type Σ Γ _ Hc) as (t' & [= <-] & Ht); exact Ht).
  destruct (primitive_ctype t Ht) as [c Hct]. pose proof (primitive_small_type t Ht) as Hst.
  match goal with Hcl : core_expr Σ Γ l = true, Hcr : core_expr Σ Γ r = true |- _ => rename Hcl into Hcl', Hcr into Hcr' end.
  intros s s' Hs _ Hr n.
  assert (VisitArithmeticExpression op (Some t) (gen_expr l) (gen_expr r) s = Some (tt, s')) as Hrun by (cbn [gen_expr] in Hr; by destruct op).
  destruct (arithmetic_run op t c l r s s' Hop ltac:(assumption) Hct Hrun) as (b & dest & s1 & left_ & s2 & right_ & s3 & s4 & Hb & Htk & E1 & E2 & E3 & E4 & E5).
  destruct (two_operands Γ l r t b n _ _ _ _ _ _ _ _ _ Hcl' Hcr' (Hl Hcl') (Hr0 Hcr') Hst Htk Hs E1 E2 E3 E4 E5)
    as (q1 & q2 & n' & Hw & Hs' & Hspec).
  eexists _, n'. split; [exact Hw|]. split; [done|]. intros fs f d dv t0 Hrd Hsm Ex [= <-] Hdr _.
  destruct (Hspec fs f d dv Hrd Hsm Ex Hdr) as (pl & pl1 & pl2 & f1 & f2 & f3 & Hdp & Hcode1 & Hcode2 & -> & -> & -> & Hrd' & Hres).
  exists pl, f3. split; [done|]. split; [|done]. by eapply code_binary.
Qed.

(** ** Variables and literals *)

Lemma translated_identifier Γ pos name type : translated Σ ids Γ (TIdentifierExpression pos name type).
Proof.
  intros Hc. cbn [core_expr] in Hc. destruct type as [t|]; [|done]. bprop.
  match goal with Hb : bool_decide _ = true |- _ => apply bool_decide_eq_true in Hb as HΓ end.
  match goal with Hp : primitive t = true |- _ => destruct (primitive_ctype t Hp) as [c Hct] end.
  intros s s' Hs [dv Ex] Hr n. cbn [gen_expr] in Hr. unfold VisitIdentifierExpression in Hr. cbv zeta in Hr.
  bstep Hr as func s0 E0. unfold GetCurrentFunction in E0. bstep E0 as fs0 s1 E1. injection E1 as <- <-. apply the_inv in E0 as [E0 ->].
  destruct (scope_queries s dv Ex) as (Q1 & _ & Q3 & _ & _). bstep Hr as b s1 E1. rewrite Q1 in E1. injection E1 as <- <-. cbv iota in Hr.
  bstep Hr as b s1 E1. rewrite Q3 in E1. injection E1 as <- <-.
  assert (forall fs f, ready ids Γ fs f s -> func = f /\ variable_name_ok (string_of name) = true /\ exists pl, lookup_place f (string_of name) = Some pl /\ li_type pl.2 = t /\ in_frame f pl) as Hplace.
  { intros fs f [Ec _ Hty _]. rewrite Ec, last_snoc in E0. injection E0 as <-. split; [done|].
    pose proof (typing_names _ _ Hty _ _ HΓ) as Hn. split; [done|]. pose proof (typing_places _ _ Hty _ Hn) as Hp. rewrite HΓ in Hp. destruct Hp as (pl & Hp & Et).
    exists pl. split; [done|]. split; [done|]. by apply lookup_place_in in Hp as [? _]. }
  destruct (IsInvalid dv) eqn:Einv; cbn [negb] in Hr.
  - rewrite (SetDestination_inv _ _ _ _ _ Ex Hr). exists [], n. split; [apply writes_nil|]. split; [by intros r [= <-]; apply ValueOf_ok|].
    intros fs f d dv0 t0 Hrd Hsm Ex0 [= <-] Hdr _. rewrite Ex in Ex0. injection Ex0 as <-. destruct (Hplace fs f Hrd) as (-> & Hn & pl & Hp & Et & _).
    destruct d as [pd|].
    { destruct Hdr as (-> & Hin & _). by rewrite (local_ref_valid f pd (ready_fine _ _ _ _ _ Hrd) (ready_few _ _ _ _ _ Hrd Hsm) Hin) in Einv. }
    exists pl, f. split; [by apply ready_result|]. split; [by constructor|]. intros _.
    unfold set_result. cbn [execution_result_ kind_]. do 2 f_equal. by rewrite (LookupLocal_place _ _ _ Hp).
  - bstep Hr as dest s1 E1. destruct (dest_run _ _ _ _ Hs E1) as (Hs1 & Hd & Hg1 & Ec1).
    bstep Hr as info s2 E2. apply the_inv in E2 as [E2 ->]. bstep Hr as [] s3 E3.
    assert (exists i, (forall n, writes n n [Ins i] (bytecode_ s) (bytecode_ s3)) /\ s3 = set_bytecode (bytecode_ s3) s1 /\
      (i = Plain (code ("Assign" +:+ size_name (sizeof c))) [bitfield_ dest; bitfield_ (ValueOf (LookupLocal func (string_of name)))] \/
       i = Plain (code ("Deref" +:+ size_name (sizeof c))) [bitfield_ dest; bitfield_ (LookupLocal func (string_of name))])) as (i & Hw & Es3 & Hi).
    { assert (local_ok (LookupLocal func (string_of name))) as Hl by (unfold LookupLocal; destruct (LookupLocalInfoByName _ _); apply new_LocalVar_ok).
      rewrite <- Ec1. destruct (IsParameter info).
      - destruct (copy_assign t c _ _ _ _ _ Hct Hd (ValueOf_ok _) E3) as [Es Hw]. eexists. split; [exact Hw|]. split; [done|by left].
      - destruct (copy_deref t c _ _ _ _ _ Hct Hd Hl E3) as [Es Hw]. eexists. split; [exact Hw|]. split; [done|by right]. }
    apply SetDestination_run in Hr as (r & Ex3 & ->).
    exists [Ins i], n. split; [apply Hw|]. split; [by intros ? [= <-]|]. intros fs f d dv0 t0 Hrd Hsm Ex0 [= <-] Hdr _.
    rewrite Ex in Ex0. injection Ex0 as <-. destruct (Hplace fs f Hrd) as (-> & Hn & pl & Hp & Et & Hin).
    assert (small s1) as Hsm1. { rewrite Es3 in Hsm. exact Hsm. }
    destruct d as [pd|]; [|hnf in Hdr; subst dv; done].
    destruct (GetOrCreateDestination_spec ids Γ fs f (Some pd) dv t s dest s1 Hrd ltac:(by eapply primitive_small_type) Hsm1 Ex Hdr E1)
      as (pl0 & f1 & -> & _ & Hr1 & Ex1' & Hdp & Hin1 & Et1 & _). inversion Hdp; subst pl0 f1; subst.
    exists pd, f. split; [apply ready_result; rewrite Es3; by apply ready_code|]. split; [|done].
    rewrite (LookupLocal_place _ _ _ Hp) in Hi. by eapply code_copy.
Qed.

Lemma translated_literal Γ pos v type : translated Σ ids Γ (TLiteralExpression pos v type).
Proof.
  intros Hc. pose proof Hc as Hc'. cbn [core_expr] in Hc'. destruct type as [t|]; [|done]. apply bool_decide_eq_true in Hc' as [z Hz].
  destruct (ctype_of t) as [c|] eqn:Hct; [|done]. cbn [mbind option_bind] in Hz.
  assert (small_type t) as Hst by (apply primitive_small_type; unfold primitive; by rewrite Hct).
  intros s s' Hs _ Hr n. cbn [gen_expr] in Hr. unfold VisitLiteralExpression in Hr. bstep Hr as dest s1 E1.
  destruct (dest_run _ _ _ _ Hs E1) as (Hs1 & Hd & Hg1 & Ec1).
  assert (exists f b z, literal_code v c = Some (b, z) /\ emits f (Plain b [bitfield_ dest; z]) /\
    exists s2, emit f s1 = Some (tt, s2) /\ SetDestination (ValueOf dest) s2 = Some (tt, s')) as (fe & b & k & Hcode & Hem & s2 & E2 & E3).
  { destruct t as [kd| | | | | |]; try done. pose proof (proj1 (ctype_size _ c Hct)) as Esz.
    destruct v as [|b0|i|fl|str]; try (by destruct c).
    - destruct c; try done. bstep Hr as [] s2 E2. eexists _, _, _. split; [reflexivity|]. split; [|by exists s2].
      eapply emits_args with (ts := [Local; Imm1]); [vm_compute; reflexivity|repeat constructor; [apply Hd|apply Hd|apply wraps_range; lia|apply wraps_range; lia]|].
      cbn [map zip_with arg_bytes]. unfold encode_operand. cbn [operand_size]. change 8 with (8 * Z.of_nat 1). by rewrite le_encode_wraps by lia.
    - bstep Hr as t0 s0 E0. apply the_inv in E0 as [[= <-] ->]. rewrite Esz in Hr. bstep Hr as [] s2 E2.
      destruct kd; try done; injection Hct as <-; (eexists _, _, _; split; [reflexivity|]; split; [|by exists s2]); cbn [sizeof];
        (eapply emits_args; [vm_compute; reflexivity
          |repeat (first [apply Forall2_nil_2 | apply Forall2_cons_2]); [apply Hd|apply wraps_range; lia]
          |cbn [map zip_with arg_bytes]; unfold encode_operand; cbn [operand_size]; by rewrite le_encode_wraps by lia]).
    - bstep Hr as t0 s0 E0. apply the_inv in E0 as [[= <-] ->]. rewrite Esz in Hr. bstep Hr as [] s2 E2.
      destruct kd; try done; injection Hct as <-; (eexists _, _, _; split; [reflexivity|]; split; [|by exists s2]); cbn [sizeof];
        (eapply emits_args; [vm_compute; reflexivity
          |repeat (first [apply Forall2_nil_2 | apply Forall2_cons_2]); [apply Hd|apply wrapu_range; lia]
          |reflexivity]). }
  destruct (emit_writes _ _ _ _ _ Hem E2) as [Es2 Hw].
  apply SetDestination_run in E3 as (r & Ex2 & ->).
  exists [Ins (Plain b [bitfield_ dest; k])], n. split; [rewrite <- Ec1; apply Hw|]. split; [intros ? [= <-]; apply ValueOf_ok|].
  intros fs f d dv t0 Hrd Hsm Ex [= <-] Hdr _. assert (small s1) as Hsm1 by (rewrite Es2 in Hsm; exact Hsm).
  destruct (GetOrCreateDestination_spec ids Γ fs f d dv t s dest s1 Hrd Hst Hsm1 Ex Hdr E1) as (pl & f1 & -> & _ & Hr1 & Ex1' & Hdp & _).
  exists pl, f1. split; [apply ready_result; rewrite Es2; by apply ready_code|]. split; [by eapply code_literal|].
  intros _. rewrite Es2 in Ex2. cbn [set_bytecode execution_result_] in Ex2. rewrite Ex1' in Ex2. by injection Ex2 as <-.
Qed.

(** ** Logical operators *)

(** A temporary is no variable, so anything can be computed into it. *)
Lemma safe_temp Γ f x e : typing_ok Γ f -> is_temp x -> core_expr Σ Γ e = true -> safe_into x e = true /\ mentions x e = false.
Proof.
  intros [Hn _] Hx Hc. assert (Γ !! x = None) as HΓ.
  { destruct (Γ !! x) as [t|] eqn:E; [|done]. apply Hn in E. by rewrite temp_not_variable in E. }
  split; [by eapply core_safe|]. apply not_true_iff_false. intros Hm. destruct (core_mentions Σ Γ x e Hc Hm) as [? ?]. congruence.
Qed.

Lemma translated_logical Γ pos op l r type : is_logical op = true -> translated Σ ids Γ l -> translated Σ ids Γ r ->
  translated Σ ids Γ (TBinaryOpExpression pos op l r type).
Proof.
  intros Hop Hl Hr0 Hc. pose proof Hc as Hc'. cbn [core_expr] in Hc'. destruct type as [t|]; [|done]. bprop.
  match goal with Hb : has_type r t = true |- _ => apply bool_decide_eq_true in Hb as Etr end.
  match goal with Hb : has_type l t = true |- _ => apply bool_decide_eq_true in Hb as Etl end.
  assert (t = BuiltinType Bool) as -> by (match goal with Hb : core_binary _ _ = true |- _ => destruct op; try done; by apply bool_decide_eq_true in Hb end).
  match goal with Hcl : core_expr Σ Γ l = true, Hcr : core_expr Σ Γ r = true |- _ => rename Hcl into Hcl', Hcr into Hcr' end.
  assert (exists b, logical_jump op = Some b) as [b Hb] by (destruct op; try done; by eexists).
  intros s s' Hs _ Hr n.
  assert (exists dest s1 s2 lab s3 s4, GetOrCreateDestination (Some (BuiltinType Bool)) s = Some (dest, s1) /\
    VisitExpressionForRValue_into (gen_expr l) dest s1 = Some (tt, s2) /\
    (end_label ← emit_with (EmitConditionalJump (code b) (ValueOf dest) new_Label);
     VisitExpressionForRValue_into (gen_expr r) dest;; emit_opt (Bind end_label)) s2 = Some (lab, s3) /\
    SetDestination (ValueOf dest) s3 = Some (tt, s') /\ s4 = s3) as (dest & s1 & s2 & lab & s3 & s4 & E1 & E2 & E3 & E4 & _).
  { cbn [gen_expr] in Hr. assert (VisitLogicalAndOrExpression op (Some (BuiltinType Bool)) (gen_expr l) (gen_expr r) s = Some (tt, s')) as Hrun by (by destruct op).
    unfold VisitLogicalAndOrExpression in Hrun. bstep Hrun as dest s1 E1. bstep Hrun as [] s2 E2. bstep Hrun as jump s3 E3.
    assert (jump = code b /\ s3 = s2) as [-> ->] by (destruct op; try done; injection Hb as <-; by injection E3 as <- <-).
    rewrite gen_bind_assoc3 in Hrun. bstep Hrun as lab s4 E4. by exists dest, s1, s2, lab, s4, s4. }
  destruct (dest_run _ _ _ _ Hs E1) as (Hs1 & Hd & Hg1 & Ec1).
  destruct (ok_run _ _ _ _ _ (ok_RValue_into _ dest Hd (core_ok Σ Γ l Hcl')) Hs1 E2) as (_ & _ & Hg2).
  destruct (into_gives Σ ids Γ l dest Hcl' (Hl Hcl') Hd _ _ _ Hs1 E2 n) as (q1 & n1 & Hw1 & Hs2 & Hspec1).
  destruct (gives_jump_over b (ValueOf dest) _ _ (into_gives Σ ids Γ r dest Hcr' (Hr0 Hcr') Hd) _ _ _ Hs2 E3 n1)
    as (q2 & n2 & Hw2 & Hs3 & (k & c & [] & sr & qr & -> & Hspec2 & (c' & ->))).
  assert (In b ["JumpIfTrue"; "JumpIfFalse"]%string) as Hbi by (destruct op; try done; injection Hb as <-; vm_compute; tauto).
  destruct (ok_run _ _ _ _ _ (ok_jump_over b (ValueOf dest) _ any Hbi (ValueOf_ok _) (ok_RValue_into _ dest Hd (core_ok Σ Γ r Hcr'))) Hs2 E3) as (_ & _ & Hg3).
  apply SetDestination_run in E4 as (rs & Ex3 & ->). cbn [set_bytecode execution_result_] in Ex3.
  eexists _, n2. split; [rewrite <- Ec1; eapply writes_app; [exact Hw1|exact Hw2]|]. split; [apply set_result_sane, ValueOf_ok|].
  intros fs f d dv t0 Hrd Hsm Ex [= <-] Hdr Hsafe.
  pose proof (small_grows _ _ Hg3 Hsm) as Hsm2. pose proof (small_grows _ _ Hg2 Hsm2) as Hsm1.
  destruct (GetOrCreateDestination_spec ids Γ fs f d dv (BuiltinType Bool) s dest s1 Hrd ltac:(done) Hsm1 Ex Hdr E1) as (pl & f1 & -> & _ & Hr1 & Ex1 & Hdp & Hin & Et & Htd).
  assert (safe_into (li_name pl.2) l = true /\ safe_into (li_name pl.2) r = true /\ mentions (li_name pl.2) r = false) as (Hsl & Hsr & Hmr).
  { destruct Htd as [Htemp|Hpl].
    - destruct (safe_temp Γ f1 _ l (ready_typing _ _ _ _ _ Hr1) Htemp Hcl'), (safe_temp Γ f1 _ r (ready_typing _ _ _ _ _ Hr1) Htemp Hcr'). done.
    - specialize (Hsafe pl Hpl). cbn [safe_into] in Hsafe. assert (safe_into (li_name pl.2) l && safe_into (li_name pl.2) r && negb (mentions (li_name pl.2) r) = true) as Hs3' by (by destruct op).
      bprop. split; [done|]. split; [done|]. done. }
  destruct (Hspec1 fs f1 pl Hr1 Hsm2 eq_refl Hin ltac:(by rewrite Etl, Et) Hsl) as (f2 & pl1 & Hr2 & Hcode1 & Ex2).
  destruct (expr_code_at Σ ids _ _ _ _ _ _ Hcode1) as [Hf2 Hat1]. pose proof (at_dest _ _ _ _ Hat1 _ eq_refl) as ->.
  destruct (Hspec2 fs f2 pl ltac:(by apply ready_code) Hsm eq_refl ltac:(by eapply in_frame_extends) ltac:(by rewrite Etr, Et) Hsr) as (f3 & pl2 & Hr3 & Hcode2 & Ex3').
  destruct (expr_code_at Σ ids _ _ _ _ _ _ Hcode2) as [_ Hat2]. pose proof (at_dest _ _ _ _ Hat2 _ eq_refl) as ->.
  exists pl, f3. split; [by apply ready_result, ready_code|]. split; [|].
  - by eapply code_logical.
  - intros _. rewrite Ex3' in Ex3. cbn [set_bytecode execution_result_] in Ex3. rewrite Ex2, Ex1 in Ex3. by injection Ex3 as <-.
Qed.

(** ** Calls *)

Definition arguments (args : list TExpression) : list argument := map (fun a => mkArgument a (gen_expr a)) args.

Lemma call_params_run Γ args : Forall (translated Σ ids Γ) args -> forallb (core_expr Σ Γ) args = true -> forall s vs s' n, sane s ->
  call_params (length args) (arguments args) s = Some (vs, s') ->
  exists q n', writes n n' q (bytecode_ s) (bytecode_ s') /\ sane s' /\ Forall local_ok vs /\ length vs = length args /\ grows s s' /\
    execution_result_ s' = execution_result_ s /\
  forall fs f, ready ids Γ fs f s -> small s' -> exists pls f', ready ids Γ fs f' s' /\ args_code Σ ids f args q pls f' /\ vs = map (fun pl => value_ref pl.2) pls.
Proof.
  intros Hargs. induction Hargs as [|e args He _ IH]; intros Hc s vs s' n Hs Hr.
  { injection Hr as <- <-. exists [], n. split; [apply writes_nil|]. do 5 (split; [done|]). intros fs f Hrd _. exists [], f. split; [done|]. by split; [constructor|]. }
  cbn [forallb] in Hc. apply andb_true_iff in Hc as [Hce Hca]. cbn [length arguments map call_params arg_visit] in Hr.
  bstep Hr as v s1 E1. bstep Hr as vs' s2 E2. injection Hr as <- <-.
  destruct (operand_run Γ e _ _ _ n Hce (He Hce) Hs E1) as (Hv & Hs1 & Hg1 & Ex1 & q1 & n1 & Hw1 & Hspec1).
  destruct (IH Hca _ _ _ n1 Hs1 E2) as (q2 & n2 & Hw2 & Hs2 & Hvs & Hlen & Hg2 & Ex2 & Hspec2).
  exists (q1 ++ q2), n2. split; [by eapply writes_app|]. split; [done|]. split; [by constructor|]. split; [cbn [length]; by rewrite Hlen|].
  split; [by etrans|]. split; [by rewrite Ex2|]. intros fs f Hrd Hsm.
  destruct (Hspec1 fs f Hrd (small_grows _ _ Hg2 Hsm)) as (pl & f1 & Hrd1 & Hcode1 & -> & _).
  destruct (Hspec2 fs f1 Hrd1 Hsm) as (pls & f2 & Hrd2 & Hcode2 & ->). exists (pl :: pls), f2. split; [done|]. split; [by econstructor|done].
Qed.

(** A call once the place of its result is known. *)
Definition call_run (func : TExpression) (args : list TExpression) (ret_param : list LocalVar) : Gen unit :=
  arg_params ← call_params (length args) (arguments args);
  name ← the (GetFuncName func);
  func_id ← LookupFuncIdByName (string_of name);
  emit (EmitCall func_id (ret_param ++ arg_params)).

Lemma core_call_inv func args ret : core_call Σ func args ret = true -> exists pos name ps,
  func = TIdentifierExpression pos name (Some (FunctionType ps ret)) /\ Σ !! string_of name = Some (map snd ps, ret) /\
  map GetType args = map Some (map snd ps) /\ Z.of_nat (length args) < 2 ^ 16 - 1 /\ length ps = length args.
Proof.
  unfold core_call. destruct func; try done. destruct type as [[]|]; try done. intros Hc. bprop.
  repeat match goal with Hb : bool_decide _ = true |- _ => apply bool_decide_eq_true in Hb end. subst.
  match goal with Hm : map GetType args = _ |- _ => pose proof (f_equal length Hm) as El; rewrite !length_map in El end.
  do 3 eexists. split; [done|]. split; [done|]. split; [done|]. split; lia.
Qed.

Lemma call_gives Γ func args ret ret_param s s' n : core_call Σ func args ret = true -> Forall (translated Σ ids Γ) args ->
  forallb (core_expr Σ Γ) args = true -> Forall local_ok ret_param -> (length ret_param <= 1)%nat -> sane s ->
  call_run func args ret_param s = Some (tt, s') -> exists q n' vs id, let i := Ins (CallI (wrapu 16 id) (map bitfield_ (ret_param ++ vs))) in
  writes n n' (q ++ [i]) (bytecode_ s) (bytecode_ s') /\ sane s' /\ grows s s' /\ execution_result_ s' = execution_result_ s /\
  forall fs f, ready ids Γ fs f s -> small s' -> exists name params pls f', ready ids Γ fs f' s' /\ args_code Σ ids f args q pls f' /\
    vs = map (fun pl => value_ref pl.2) pls /\ callee_name func = Some name /\ Σ !! name = Some (params, ret) /\
    map GetType args = map Some params /\ ids !! name = Some id.
Proof.
  intros Hc Hargs Hca Hp Hlp Hs Hr. destruct (core_call_inv _ _ _ Hc) as (pos & name & ps & -> & HΣ & Hty & Hlen & _).
  unfold call_run in Hr. bstep Hr as vs s1 E1. bstep Hr as name' s2 E2. injection E2 as <- <-. bstep Hr as id s3 E3.
  unfold LookupFuncIdByName in E3. bstep E3 as m s4 E4. injection E4 as <- <-. injection E3 as <- <-.
  destruct (call_params_run Γ args Hargs Hca _ _ _ n Hs E1) as (q & n' & Hw & Hs1 & Hvs & Hlv & Hg & Ex & Hspec).
  assert (Z.of_nat (length (ret_param ++ vs)) < 2 ^ 16) as Hln by (rewrite length_app; lia).
  assert (Forall local_ok (ret_param ++ vs)) as Hpv by (by apply Forall_app).
  destruct (emit_writes _ _ _ _ _ (emits_call _ (ret_param ++ vs) Hln Hpv) Hr) as [-> Hw'].
  eexists q, n', vs, _. cbv zeta. split; [eapply writes_app; [exact Hw|apply Hw']|]. split; [exact Hs1|]. split; [by apply grows_to_code|]. split; [exact Ex|].
  intros fs f Hrd Hsm. destruct (Hspec fs f Hrd Hsm) as (pls & f' & Hrd' & Hcode & ->).
  exists (string_of name), (map snd ps), pls, f'. split; [by apply ready_code|]. do 5 (split; [done|]).
  rewrite (ready_ids _ _ _ _ _ Hrd'). destruct (Hids _ _ HΣ) as [id ->]. done.
Qed.

Lemma map_by_value pls : map bitfield_ (map (fun pl : place => value_ref pl.2) pls) = map by_value pls.
Proof. by rewrite map_map. Qed.

Lemma translated_call Γ kind func args type : Forall (translated Σ ids Γ) args -> translated Σ ids Γ (TCallExpression kind func args type).
Proof.
  intros Hargs Hc. destruct kind; try done. cbn [core_expr] in Hc. destruct type as [t|]; [|done]. bprop.
  match goal with Hp : primitive t = true, Hf : core_call Σ func args t = true, Ha : forallb _ args = true |- _ => rename Hp into Ht, Hf into Hfunc, Ha into Hca end.
  pose proof (core_call_inv _ _ _ Hfunc) as (pos & name & ps & Ef & HΣ & Hty & Hlen & Hlps).
  intros s s' Hs [dv Ex] Hr n. cbn [gen_expr] in Hr. fold (arguments args) in Hr. unfold VisitRegularCallExpression in Hr.
  bstep Hr as pr s0 E0. apply the_inv in E0 as [E0 ->]. rewrite Ef in E0. cbn [GetType] in E0. injection E0 as <-. rewrite Hlps in Hr.
  assert (IsNilType t = false) as Hnil by (destruct t as [k| | | | | |]; try done; by destruct k). rewrite Hnil in Hr.
  bstep Hr as rp s1 E1. bstep E1 as b s2 E2. destruct (scope_queries s dv Ex) as (_ & _ & _ & _ & Q5). rewrite Q5 in E2. injection E2 as <- <-. cbv iota in E1.
  bstep E1 as dest s2 E2. bstep E1 as b s3 E3. bstep E1 as [] s4 E4. injection E1 as <- <-.
  destruct (dest_run _ _ _ _ Hs E2) as (Hs2 & Hd & Hg2 & Ec2).
  assert (s3 = s2) as ->. { unfold IsRValue in E3. bstep E3 as r s5 E5. unfold GetExecutionResult in E5. bstep E5 as o s6 E6. injection E6 as <- <-.
    apply the_inv in E5 as [_ ->]. by injection E3 as _ <-. }
  assert (sane s4 /\ bytecode_ s4 = bytecode_ s2 /\ grows s2 s4) as (Hs4 & Ec4 & Hg4).
  { destruct b; [|by injection E4 as <-]. apply SetDestination_run in E4 as (r & _ & ->). split; [apply set_result_sane, ValueOf_ok|done]. }
  destruct (call_gives Γ func args t [dest] s4 s' n Hfunc Hargs Hca ltac:(locals_ok) ltac:(done) Hs4 Hr)
    as (q & n' & vs & id & Hw & Hs' & Hg & Exs & Hspec).
  eexists _, n'. split; [rewrite <- Ec2, <- Ec4; exact Hw|]. split; [done|].
  intros fs f d dv0 t0 Hrd Hsm Ex0 [= <-] Hdr _. rewrite Ex in Ex0. injection Ex0 as <-.
  pose proof (small_grows _ _ Hg Hsm) as Hsm4. pose proof (small_grows _ _ Hg4 Hsm4) as Hsm2.
  destruct (GetOrCreateDestination_spec ids Γ fs f d dv t s dest s2 Hrd ltac:(by apply primitive_small_type) Hsm2 Ex Hdr E2)
    as (pl & f1 & -> & _ & Hr1 & Ex1 & Hdp & Hin & Et & _).
  destruct (scope_queries s2 _ Ex1) as (_ & Q2 & _). rewrite Q2 in E3. injection E3 as <-.
  rewrite (SetDestination_inv _ _ _ _ _ Ex1 E4) in Hspec, Exs.
  destruct (Hspec fs f1 ltac:(by apply ready_result) Hsm) as (nm & params & pls & f2 & Hrd' & Hcode & -> & Hn & HΣ' & Hty' & Hid).
  exists pl, f2. split; [done|]. split; [|by intros _; rewrite Exs].
  rewrite map_app, map_by_value. by eapply code_call.
Qed.

Lemma translated_core Γ e : translated Σ ids Γ e.
Proof.
  revert e. apply (TExpression_tree_ind (translated Σ ids Γ) (fun _ => True) (fun _ => True)); try done.
  - intros e He Hc. by destruct e.
  - intros pos op l r t Hl Hr. destruct (is_logical op) eqn:E; [by apply translated_logical|by apply translated_arithmetic].
  - intros. by apply translated_call.
  - intros. by apply translated_compare.
  - intros. by apply translated_identifier.
  - intros. by apply translated_literal.
  - intros. by apply translated_unary.
Qed.

End expressions.

(** * Every statement of the core is translated as [GeneratorCode] says *)

(** More variables do not take an expression out of the core. *)
Lemma core_expr_weaken Σ Γ Γ' e : Γ ⊆ Γ' -> core_expr Σ Γ e = true -> core_expr Σ Γ' e = true.
Proof.
  intros HΓ. revert e. apply (TExpression_tree_ind (fun e => core_expr Σ Γ e = true -> core_expr Σ Γ' e = true) (fun _ => True) (fun _ => True)); try done.
  - intros e He Hc. by destruct e.
  - intros p op l r [t|] IHl IHr; [|done]. cbn [core_expr]. intros Hc. bprop. rewrite IHl, IHr by done. by do 3 (apply andb_true_iff; split; [|done]).
  - intros [] func args [t|] _ IH; try done. cbn [core_expr]. intros Hc. bprop. apply andb_true_iff. split; [apply andb_true_iff; by split|by eapply forallb_impl].
  - intros p op l r [t|] IHl IHr; [|done]. cbn [core_expr]. intros Hc. bprop. rewrite IHl, IHr by done. by do 3 (apply andb_true_iff; split; [|done]).
  - intros p n [t|]; [|done]. cbn [core_expr]. intros Hc. bprop. apply andb_true_iff. split; [|done].
    match goal with Hb : bool_decide _ = true |- _ => apply bool_decide_eq_true in Hb end. apply bool_decide_eq_true. by eapply lookup_weaken.
  - intros p op e [t|] IH; [|done]. cbn [core_expr]. intros Hc. bprop. rewrite IH by done. by do 2 (apply andb_true_iff; split; [|done]).
Qed.

(** What a run that is well formed also leaves. *)
Lemma gives_grows {A} (R : A -> Prop) (m : Gen A) (Φ : spec A) : emits_ok R m -> gives m Φ -> gives m (fun s a s' q => Φ s a s' q /\ grows s s').
Proof.
  intros Hok Hm s a s' Hs Hr n. destruct (Hm s a s' Hs Hr n) as (q & n' & Hw & Hs' & HΦ). exists q, n'. split; [done|]. split; [done|]. split; [done|].
  by destruct (ok_run _ _ _ _ _ Hok Hs Hr) as (_ & _ & ?).
Qed.

Section statements.
Context `{AlignOpsSpec} `{CppClassesSpec} `{Catalog}.
Context (Σ : signatures) (ids : gmap string Z).
Context (Hids : forall name sig, Σ !! name = Some sig -> is_Some (ids !! name)).
Context (ret : TplType).

(** A statement is visited without a result scope. *)
Definition stmt_spec (Γ Γ' : typing) (st : TStatement) : spec unit := fun s _ s' q => execution_result_ s = None ->
  execution_result_ s' = None /\ forall fs f, ready ids Γ fs f s -> small s' -> exists f', ready ids Γ' fs f' s' /\ stmt_code Σ ids ret f st q f'.
Definition stmt_translates (Γ Γ' : typing) (st : TStatement) : Prop := gives (gen_stmt st) (fun s u s' q => stmt_spec Γ Γ' st s u s' q /\ grows s s').
Definition stmt_translated (st : TStatement) : Prop := forall Γ Γ', core_stmt Σ ret Γ st = Some Γ' -> stmt_translates Γ Γ' st.

(** It is enough to look at the runs without a scope. *)
Lemma stmt_gives Γ Γ' st : core_stmt Σ ret Γ st = Some Γ' ->
  (forall s s' n, sane s -> execution_result_ s = None -> gen_stmt st s = Some (tt, s') -> exists q n', writes n n' q (bytecode_ s) (bytecode_ s') /\
     execution_result_ s' = None /\ forall fs f, ready ids Γ fs f s -> small s' -> exists f', ready ids Γ' fs f' s' /\ stmt_code Σ ids ret f st q f') ->
  stmt_translates Γ Γ' st.
Proof.
  intros Hc Hm. assert (emits_ok any (gen_stmt st)) as Hok by (by eapply ok_visitors, core_stmt_has_bytecode).
  apply (gives_grows any); [done|]. intros s [] s' Hs Hr n. destruct (ok_run _ _ _ _ _ Hok Hs Hr) as (Hs' & _).
  destruct (execution_result_ s) as [r|] eqn:Ex.
  - destruct Hok as [Hok]. destruct (Hok _ _ _ Hs Hr n) as (q & n' & Hw & _). exists q, n'. split; [done|]. split; [done|].
    intros Ex'. by rewrite Ex in Ex'.
  - destruct (Hm s s' n Hs Ex Hr) as (q & n' & Hw & Ex' & Hspec). exists q, n'. by split; [|split; [|intros _; split]].
Qed.

(** ** Blocks *)

Lemma translated_block pos rpos ss : Forall stmt_translated ss -> stmt_translated (TBlockStatement pos rpos ss).
Proof.
  intros Hss Γ Γ' Hc. apply stmt_gives; [done|]. cbn [core_stmt gen_stmt] in *. intros s s' n Hs Ex Hr.
  assert (exists q n', writes n n' q (bytecode_ s) (bytecode_ s') /\ execution_result_ s' = None /\ grows s s' /\
    forall fs f, ready ids Γ fs f s -> small s' -> exists f', ready ids Γ' fs f' s' /\ stmts_code Σ ids ret f ss q f') as (q & n' & Hw & Ex' & _ & Hspec).
  { revert Γ Hc s n Hs Ex Hr. induction Hss as [|st ss Hst _ IH]; intros Γ Hc s n Hs Ex Hr.
    - injection Hc as <-. injection Hr as <-. exists [], n. split; [apply writes_nil|]. split; [done|]. split; [done|]. intros fs f Hrd _. exists f. by split; [|constructor].
    - destruct (core_stmt Σ ret Γ st) as [Γ1|] eqn:E; [|done]. cbn [mbind option_bind] in Hc. cbn [gen_all] in Hr. bstep Hr as [] s1 E1.
      destruct (Hst Γ Γ1 E _ _ _ Hs E1 n) as (q1 & n1 & Hw1 & Hs1 & Hspec1 & Hg1). destruct (Hspec1 Ex) as [Ex1 Hspec1'].
      destruct (IH Γ1 Hc s1 n1 Hs1 Ex1 Hr) as (q2 & n2 & Hw2 & Ex2 & Hg2 & Hspec2).
      exists (q1 ++ q2), n2. split; [by eapply writes_app|]. split; [done|]. split; [by etrans|]. intros fs f Hrd Hsm.
      destruct (Hspec1' fs f Hrd (small_grows _ _ Hg2 Hsm)) as (f1 & Hrd1 & Hcode1). destruct (Hspec2 fs f1 Hrd1 Hsm) as (f2 & Hrd2 & Hcode2).
      exists f2. split; [done|]. by econstructor. }
  exists q, n'. split; [done|]. split; [done|]. intros fs f Hrd Hsm. destruct (Hspec fs f Hrd Hsm) as (f' & Hrd' & Hcode). exists f'. split; [done|]. by constructor.
Qed.

(** ** Declarations, assignments *)

(** A value that is computed into a variable. *)
Lemma into_run Γ e dv s s' n : core_expr Σ Γ e = true -> local_ok dv -> sane s -> VisitExpressionForRValue_into (gen_expr e) dv s = Some (tt, s') ->
  exists q n', writes n n' q (bytecode_ s) (bytecode_ s') /\ execution_result_ s' = execution_result_ s /\ grows s s' /\ into_spec Σ ids Γ e dv s tt s' q.
Proof.
  intros Hc Hd Hs Hr. destruct (ok_run _ _ _ _ _ (ok_RValue_into _ dv Hd (core_ok Σ Γ e Hc)) Hs Hr) as (_ & _ & Hg).
  destruct (into_gives Σ ids Γ e dv Hc (translated_core Σ ids Hids Γ e Hc) Hd _ _ _ Hs Hr n) as (q & n' & Hw & _ & Hspec).
  exists q, n'. split; [done|]. split; [|done]. unfold VisitExpressionForRValue_into, in_result_scope in Hr. bstep Hr as d s0 E.
  bstep E as outer s1 E1. injection E1 as <- <-. bstep E as [] s2 E2. bstep E as [] s3 E3. bstep E as d' s4 E4. bstep E as [] s5 E5.
  injection E5 as <-. munf E. injection E as <- <-. munf Hr. by injection Hr as <-.
Qed.

Lemma NewLocal_run Γ fs f x t s v s' : ready ids Γ fs f s -> primitive t = true -> variable_name_ok x = true -> Γ !! x = None -> small s' ->
  NewLocal_named t x s = Some (v, s') -> exists l f', v = local_ref l /\ ready ids (<[x := t]> Γ) fs f' s' /\ NewLocal f t x = (local_ref l, f') /\
    locals_ f' = locals_ f ++ [l] /\ li_name l = x /\ li_type l = t /\ lookup_place f' x = Some (length (locals_ f), l).
Proof.
  intros [Ec Hf Hty Ei] Ht Hx HΓ Hsm. unfold NewLocal_named. rewrite Ec, last_snoc, removelast_last. intros Hr.
  assert (few_locals (NewLocal f t x).2) as Hfew.
  { destruct (NewLocal f t x) as [v0 f0]. injection Hr as _ <-. unfold small in Hsm. cbn [gen_functions_ set_functions] in Hsm. by rewrite last_snoc in Hsm. }
  destruct (NewLocal_fine f t x Hf (primitive_small_type t Ht) Hfew) as (l & f' & El & Elocals & Et & _ & En & Hf'). rewrite El in Hr. injection Hr as <- <-.
  assert (li_name l = x) as En'. { destruct (String.eqb_spec x EmptyString) as [->|]; [done|exact En]. }
  destruct (typing_ok_variable Γ f f' l x t Hty Elocals En' Et Hx HΓ) as [Hty' Hlp].
  exists l, f'. split; [done|]. split; [by constructor|]. done.
Qed.

Lemma translated_declaration pos name repr init : stmt_translated (TDeclarationStatement (TVariableDeclaration pos name repr init)).
Proof.
  intros Γ Γ' Hc. apply stmt_gives; [done|]. cbn [core_stmt gen_stmt gen_decl] in *.
  destruct (match repr with Some r => GetType r | None => _ end) as [t|] eqn:Ety; [|done]. cbn [mbind option_bind] in Hc.
  destruct (_ && _) eqn:Econd in Hc; [|done]. injection Hc as <-. bprop.
  match goal with Hp : primitive t = true, Hx : variable_name_ok _ = true, Hb : bool_decide _ = true |- _ =>
    rename Hp into Ht, Hx into Hname; apply bool_decide_eq_true in Hb as HΓ end.
  intros s s' n Hs Ex Hr. unfold VisitVariableDeclaration in Hr. bstep Hr as t' s0 E0. apply the_inv in E0 as [E0 ->].
  assert (t' = t) as ->. { destruct repr as [r|]; [cbn [option_map] in E0; congruence|]. destruct init as [e|]; [|done]. cbn [option_map] in E0. congruence. }
  bstep Hr as local s1 E1. destruct (ok_run _ _ _ _ _ (ok_NewLocal t _) Hs E1) as (Hs1 & Hl & Hg1).
  assert (bytecode_ s1 = bytecode_ s /\ execution_result_ s1 = execution_result_ s) as [Ec1 Ex1].
  { unfold NewLocal_named in E1. destruct (last (gen_functions_ s)) as [f|]; [|done]. destruct (NewLocal f t _). by injection E1 as <- <-. }
  destruct init as [e|]; cbn [option_map] in Hr.
  - bprop. match goal with Hce : core_expr Σ Γ e = true, Hte : has_type e t = true |- _ => rename Hce into Hce'; apply bool_decide_eq_true in Hte as Ete end.
    assert (core_expr Σ (<[string_of name := t]> Γ) e = true) as Hce by (eapply core_expr_weaken; [by apply insert_subseteq|done]).
    destruct (into_run _ e local s1 s' n Hce Hl Hs1 Hr) as (q & n' & Hw & Exs & Hg2 & Hspec).
    exists q, n'. split; [by rewrite <- Ec1|]. split; [by rewrite Exs, Ex1|]. intros fs f Hrd Hsm.
    destruct (NewLocal_run Γ fs f (string_of name) t s local s1 Hrd Ht Hname HΓ (small_grows _ _ Hg2 Hsm) E1) as (l & f1 & -> & Hrd1 & El & Elocals & En & Et & Hlp).
    destruct (Hspec fs f1 (length (locals_ f), l) Hrd1 Hsm eq_refl ltac:(by apply lookup_place_in in Hlp as [? _]) ltac:(by rewrite Ete, <- Et) ltac:(by cbn [snd]; rewrite En))
      as (f2 & pl' & Hrd2 & Hcode & _).
    destruct (expr_code_at Σ ids _ _ _ _ _ _ Hcode) as [_ Hat]. pose proof (at_dest _ _ _ _ Hat _ eq_refl) as ->.
    exists f2. split; [done|]. by eapply code_define.
  - injection Hr as <-. exists [], n. split; [rewrite <- Ec1; apply writes_nil|]. split; [by rewrite Ex1|]. intros fs f Hrd Hsm.
    destruct (NewLocal_run Γ fs f (string_of name) t s local s1 Hrd Ht Hname HΓ Hsm E1) as (l & f1 & -> & Hrd1 & El & Elocals & En & Et & Hlp).
    exists f1. split; [done|]. by eapply code_declare.
Qed.

Lemma translated_assignment pos dest src : stmt_translated (TAssignmentStatement pos dest src).
Proof.
  intros Γ Γ' Hc. apply stmt_gives; [done|]. cbn [core_stmt gen_stmt] in *. destruct dest as [| | | | |pos' name type| | | | | | | | | |]; try done.
  destruct type as [t|]; [|done]. destruct (_ && _) eqn:Econd in Hc; [|done]. injection Hc as <-. bprop.
  match goal with Hb : bool_decide _ = true, Hce : core_expr _ _ _ = true, Hte : has_type src t = true |- _ =>
    apply bool_decide_eq_true in Hb as HΓ; rename Hce into Hce'; apply bool_decide_eq_true in Hte as Ete end.
  intros s s' n Hs Ex Hr. unfold VisitAssignmentStatement in Hr. bstep Hr as dv s1 E1.
  assert (exists f0, last (gen_functions_ s) = Some f0 /\ dv = LookupLocal f0 (string_of name) /\ s1 = s) as (f0 & Ef0 & -> & ->).
  { unfold VisitExpressionForLValue, in_result_scope in E1. bstep E1 as outer s2 E2. injection E2 as <- <-. bstep E1 as [] s3 E3. injection E3 as <-.
    bstep E1 as [] s4 E4. cbn [gen_expr] in E4. unfold VisitIdentifierExpression, GetCurrentFunction in E4. cbv zeta in E4. bstep E4 as f0 s5 E5.
    bstep E5 as fs s6 E6. injection E6 as <- <-. apply the_inv in E5 as [E5 ->]. cbn [gen_functions_ set_result] in E5. exists f0. split; [done|].
    bstep E4 as b s5 E6. injection E6 as <- <-. injection E4 as <-. bstep E1 as d s7 E7. injection E7 as <- <-. bstep E1 as [] s8 E8. injection E8 as <-.
    injection E1 as <- <-. split; [done|]. cbn. by destruct s. }
  assert (local_ok (LookupLocal f0 (string_of name))) as Hd by (unfold LookupLocal; destruct (LookupLocalInfoByName _ _); apply new_LocalVar_ok).
  destruct (into_run Γ src _ s s' n Hce' Hd Hs Hr) as (q & n' & Hw & Exs & Hg & Hspec).
  exists q, n'. split; [done|]. split; [by rewrite Exs|]. intros fs f Hrd Hsm. pose proof Hrd as [Ec _ Hty _]. rewrite Ec, last_snoc in Ef0. injection Ef0 as <-.
  pose proof (typing_names _ _ Hty _ _ HΓ) as Hname. pose proof (typing_places _ _ Hty _ Hname) as Hp. rewrite HΓ in Hp. destruct Hp as (pl & Hp & Et).
  pose proof (lookup_place_in _ _ _ Hp) as [Hin En].
  destruct (Hspec fs f pl Hrd Hsm (LookupLocal_place _ _ _ Hp) Hin ltac:(by rewrite Ete, <- Et) ltac:(by rewrite En)) as (f2 & pl' & Hrd2 & Hcode & _).
  destruct (expr_code_at Σ ids _ _ _ _ _ _ Hcode) as [_ Hat]. pose proof (at_dest _ _ _ _ Hat _ eq_refl) as ->.
  exists f2. split; [done|]. eapply code_assign; try done.
  destruct (core_type Σ Γ src Hce') as (t' & Et' & Ht'). rewrite Ete in Et'. by injection Et' as ->.
Qed.

Lemma translated_return pos e : stmt_translated (TReturnStatement pos e).
Proof.
  intros Γ Γ' Hc. apply stmt_gives; [done|]. cbn [core_stmt gen_stmt] in *. intros s s' n Hs Ex Hr. unfold VisitReturnStatement in Hr.
  pose proof (emits_args (code "Return") [] [] [] ltac:(vm_compute; reflexivity) ltac:(constructor) eq_refl : emits EmitReturn (Plain (code "Return") [])) as Hret.
  destruct e as [e|]; cbn [option_map] in Hr.
  - destruct (_ && _) eqn:Econd in Hc; [|done]. injection Hc as <-. bprop.
    match goal with Hp : primitive ret = true, Hce : core_expr _ _ _ = true, Hte : has_type e ret = true |- _ =>
      rename Hp into Ht, Hce into Hce'; apply bool_decide_eq_true in Hte as Ete end.
    destruct (primitive_ctype ret Ht) as [c Hct].
    bstep Hr as [] s1 E1. bstep E1 as func s2 E2. unfold GetCurrentFunction in E2. bstep E2 as fs0 s3 E3. injection E3 as <- <-. apply the_inv in E2 as [E2 ->].
    cbv zeta in E1. bstep E1 as t s3 E3. rewrite Ete in E3. apply the_inv in E3 as [[= <-] ->].
    assert (IsSqlValueType ret = false /\ IsStructType ret = false) as [Hq1 Hq2] by (destruct ret as [k| | | | | |]; try done; by destruct k).
    rewrite Hq1, Hq2 in E1. bstep E1 as v s2 E3.
    destruct (operand_run Σ ids Γ e _ _ _ n Hce' (translated_core Σ ids Hids Γ e Hce') Hs E3) as (Hv & Hs2 & Hg2 & Ex2 & q & n' & Hw & Hspec).
    rewrite Ete in E1. destruct (copy_assign ret c _ _ _ _ _ Hct (ValueOf_ok _) Hv E1) as [Es1 Hw1].
    destruct (emit_writes _ _ _ _ _ Hret Hr) as [Es' Hw'].
    eexists _, n'. split; [eapply writes_app; [exact Hw|]; eapply (writes_app _ _ _ [_] [_]); [apply Hw1|apply Hw']|].
    split; [rewrite Es', Es1; cbn [set_bytecode execution_result_]; by rewrite Ex2|]. intros fs f Hrd Hsm.
    assert (small s2) as Hsm2 by (rewrite Es', Es1 in Hsm; exact Hsm).
    destruct (Hspec fs f Hrd Hsm2) as (pl & f' & Hrd' & Hcode & -> & _). exists f'. split; [rewrite Es', Es1; by do 2 apply ready_code|].
    by eapply code_return_value.
  - destruct (IsNilType ret) eqn:Enil; [|done]. injection Hc as <-. bstep Hr as [] s1 E1. injection E1 as <-.
    destruct (emit_writes _ _ _ _ _ Hret Hr) as [Es' Hw']. exists [Ins (Plain (code "Return") [])], n. split; [apply Hw'|].
    split; [by rewrite Es'|]. intros fs f Hrd Hsm. exists f. split; [rewrite Es'; by apply ready_code|]. by constructor.
Qed.

Lemma translated_call_statement e : stmt_translated (TExpressionStatement e).
Proof.
  intros Γ Γ' Hc. apply stmt_gives; [done|]. cbn [core_stmt gen_stmt] in *. destruct e as [| |kind func args ty| | | | | | | | | | | | |]; try done.
  destruct kind; try done. destruct (GetType func) as [[| | | | | |ps ret']|] eqn:Ef; try done. destruct (_ && _) eqn:Econd in Hc; [|done]. injection Hc as <-. bprop.
  match goal with Hp : (_ || _) = true, Hf : core_call Σ func args _ = true, Ha : forallb _ args = true |- _ => rename Hp into Ht, Hf into Hfunc, Ha into Hca end.
  pose proof (core_call_inv _ _ _ _ Hfunc) as (pos & name & ps' & Efunc & HΣ & Hty & Hlen & Hlps).
  assert (Forall (translated Σ ids Γ) args) as Hargs by (apply Forall_forall; intros; by apply translated_core).
  intros s s' n Hs Ex Hr. cbn [gen_expr] in Hr. fold (arguments args) in Hr. unfold VisitRegularCallExpression in Hr.
  bstep Hr as pr s0 E0. apply the_inv in E0 as [E0 ->]. rewrite Ef in E0. injection E0 as <-.
  assert (length ps = length args) as Elen. { rewrite Efunc in Ef. by injection Ef as <-. } rewrite Elen in Hr.
  destruct (IsNilType ret') eqn:Enil.
  - bstep Hr as rp s1 E1. injection E1 as <- <-.
    destruct (call_gives Σ ids Hids Γ func args ret' [] s s' n Hfunc Hargs Hca ltac:(constructor) ltac:(cbn; lia) Hs Hr) as (q & n' & vs & id & Hw & Hs' & Hg & Exs & Hspec).
    eexists _, n'. split; [exact Hw|]. split; [by rewrite Exs|]. intros fs f Hrd Hsm.
    destruct (Hspec fs f Hrd Hsm) as (nm & params & pls & f2 & Hrd' & Hcode & -> & Hn & HΣ' & Hty' & Hid).
    exists f2. split; [done|]. cbn [app]. rewrite map_by_value. by eapply code_call_only.
  - rewrite orb_false_r in Ht. bstep Hr as rp s1 E1. bstep E1 as b s2 E2. unfold HasExecutionResult in E2. bstep E2 as r s3 E3. injection E3 as <- <-.
    munf E2. injection E2 as <- <-. rewrite Ex in E1. rewrite bool_decide_false in E1 by (by intros []). bstep E1 as tmp s2 E2. injection E1 as <- <-.
    destruct (ok_run _ _ _ _ _ (ok_NewTemp ret') Hs E2) as (Hs2 & Hd & Hg2).
    assert (bytecode_ s2 = bytecode_ s /\ execution_result_ s2 = execution_result_ s) as [Ec2 Ex2].
    { unfold NewTemp, NewLocal_named in E2. destruct (last (gen_functions_ s)) as [f|]; [|done]. destruct (NewLocal f ret' _). by injection E2 as <- <-. }
    destruct (call_gives Σ ids Hids Γ func args ret' [tmp] s2 s' n Hfunc Hargs Hca ltac:(locals_ok) ltac:(cbn; lia) Hs2 Hr) as (q & n' & vs & id & Hw & Hs' & Hg & Exs & Hspec).
    eexists _, n'. split; [rewrite <- Ec2; exact Hw|]. split; [by rewrite Exs, Ex2|]. intros fs f Hrd Hsm.
    destruct (NewTemp_spec ids Γ fs f ret' s tmp s2 Hrd (primitive_small_type _ Ht) (small_grows _ _ Hg Hsm) E2) as (l & f1 & -> & Es2 & Hrd1 & El & Elocals & Et & _).
    destruct (Hspec fs f1 Hrd1 Hsm) as (nm & params & pls & f2 & Hrd' & Hcode & -> & Hn & HΣ' & Hty' & Hid).
    exists f2. split; [done|]. cbn [app map]. rewrite map_by_value. eapply (code_call_unused Σ ids ret f func nm args params ret' id q (length (locals_ f), l)); try done.
    by apply (dest_temp f ret' l f1).
Qed.

(** ** Conditions, branches and loops *)

(** A condition in an [if] or a loop. *)
Definition condition_spec (Γ : typing) (e : TExpression) : spec LocalVar := fun s v s' q =>
  (operand_spec Σ ids Γ e s v s' q /\ execution_result_ s' = execution_result_ s) /\ grows s s'.
Lemma condition_gives Γ e : core_expr Σ Γ e = true -> gives (VisitExpressionForRValue (gen_expr e)) (condition_spec Γ e).
Proof.
  intros Hc. eapply gives_grows; [by apply ok_RValue, (core_ok Σ Γ)|]. intros s v s' Hs Hr n.
  destruct (operand_run Σ ids Γ e _ _ _ n Hc (translated_core Σ ids Hids Γ e Hc) Hs Hr) as (_ & Hs' & _ & Ex & q & n' & Hw & Hspec). by exists q, n'.
Qed.

Definition none_result (s : BytecodeGenerator) : Prop := execution_result_ s = None.

Lemma translated_if pos cond then_stmt else_stmt : stmt_translated then_stmt -> match else_stmt with Some s => stmt_translated s | None => True end ->
  stmt_translated (TIfStatement pos cond then_stmt else_stmt).
Proof.
  intros Ht He Γ Γ' Hc. apply stmt_gives; [done|]. cbn [core_stmt gen_stmt] in *. destruct (_ && _) eqn:Econd in Hc; [|done]. bprop.
  match goal with Hce : core_expr _ _ _ = true, Hte : has_type cond _ = true |- _ => rename Hce into Hcc; apply bool_decide_eq_true in Hte as Etc end.
  destruct (core_stmt Σ ret Γ then_stmt) as [Γ1|] eqn:Et; [|done]. cbn [mbind option_bind] in Hc.
  intros s s' n Hs Ex Hr.
  destruct (gives_if (IsTerminating then_stmt) (gen_expr cond) (gen_stmt then_stmt) (option_map gen_stmt else_stmt) _ _
    (match else_stmt with Some st => fun s u s' q => stmt_spec Γ1 Γ' st s u s' q /\ grows s s' | None => fun _ _ _ _ => True end)
    (condition_gives Γ cond Hcc) (Ht Γ Γ1 Et)) with (s := s) (a := tt) (s' := s') (n := n)
    as (q & n' & Hw & _ & v & s1 & c1 & s2 & lt & le & lend & qc & qt & rest & [[Hsc Ex1] Hg1] & [Hst Hg2] & Eq & Hrest); [|done|exact Hr|].
  { intros v Ev. destruct else_stmt as [st|]; [|done]. injection Ev as <-. by apply He. }
  destruct (Hst ltac:(by cbn; rewrite Ex1)) as [Ex2 Hst']. destruct else_stmt as [st|]; cbn [option_map] in Hrest.
  - destruct Hrest as (b & c2 & s3 & qe & Eb & -> & [Hse Hg3] & c & ->). destruct (Hse Ex2) as [Ex3 Hse'].
    exists q, n'. split; [done|]. split; [done|]. intros fs f Hrd Hsm.
    pose proof (small_grows _ _ Hg3 Hsm) as Hsm2. pose proof (small_grows _ _ Hg2 Hsm2) as Hsm1.
    destruct (Hsc fs f Hrd Hsm1) as (pl & f1 & Hrd1 & Hcode1 & -> & _).
    destruct (Hst' fs f1 ltac:(by apply ready_code) Hsm2) as (f2 & Hrd2 & Hcode2).
    destruct (Hse' fs f2 ltac:(by apply ready_code) Hsm) as (f3 & Hrd3 & Hcode3).
    exists f3. split; [by apply ready_code|]. rewrite Eq. by eapply code_if_else.
  - destruct Hrest as (-> & c & ->). injection Hc as <-. exists q, n'. split; [done|]. split; [done|]. intros fs f Hrd Hsm.
    pose proof (small_grows _ _ Hg2 Hsm) as Hsm1. destruct (Hsc fs f Hrd Hsm1) as (pl & f1 & Hrd1 & Hcode1 & -> & _).
    destruct (Hst' fs f1 ltac:(by apply ready_code) Hsm) as (f2 & Hrd2 & Hcode2).
    exists f2. split; [by apply ready_code|]. rewrite Eq. by eapply code_if.
Qed.

(** A statement that may be missing. *)
Definition option_spec (Γ Γ' : typing) (o : option TStatement) : spec unit := fun s _ s' q => (execution_result_ s = None ->
  execution_result_ s' = None /\ forall fs f, ready ids Γ fs f s -> small s' -> exists f', ready ids Γ' fs f' s' /\ option_code Σ ids ret f o q f') /\ grows s s'.
Lemma option_gives Γ Γ' o : match o with Some s => stmt_translated s | None => True end ->
  match o with Some s => core_stmt Σ ret Γ s | None => Some Γ end = Some Γ' -> gives (default (mret tt) (option_map gen_stmt o)) (option_spec Γ Γ' o).
Proof.
  intros Ho Hc. destruct o as [st|]; cbn [option_map default].
  - eapply gives_weaken; [by apply Ho|]. intros s [] s' q [Hst Hg]. split; [|done]. intros Ex. destruct (Hst Ex) as [Ex' Hspec]. split; [done|].
    intros fs f Hrd Hsm. destruct (Hspec fs f Hrd Hsm) as (f' & Hrd' & Hcode). exists f'. split; [done|by constructor].
  - injection Hc as <-. apply gives_silent. intros s [] s' Hs [= <-]. split; [done|]. split; [done|]. split; [|done]. intros Ex. split; [done|].
    intros fs f Hrd _. exists f. split; [done|constructor].
Qed.

Lemma translated_for pos init cond next body : match init with Some s => stmt_translated s | None => True end ->
  match next with Some s => stmt_translated s | None => True end -> stmt_translated body -> stmt_translated (TForStatement pos init cond next body).
Proof.
  intros Hi Hn Hb Γ Γ' Hc. apply stmt_gives; [done|]. cbn [core_stmt gen_stmt] in *.
  destruct (match init with Some s => core_stmt Σ ret Γ s | None => Some Γ end) as [Γ0|] eqn:Ei; [|done]. cbn [mbind option_bind] in Hc.
  destruct (match cond with Some c => _ | None => true end) eqn:Ec; [|done].
  destruct (core_stmt Σ ret Γ0 body) as [Γ1|] eqn:Eb; [|done]. cbn [mbind option_bind] in Hc.
  intros s s' n Hs Ex Hr.
  destruct (gives_for (option_map gen_stmt init) (option_map gen_expr cond) (option_map gen_stmt next) (gen_stmt body) (option_spec Γ Γ0 init)
    (match cond with Some e => condition_spec Γ0 e | None => fun _ _ _ _ => True end)
    (fun s u s' q => stmt_spec Γ0 Γ1 body s u s' q /\ grows s s') (option_spec Γ1 Γ' next) (option_gives Γ Γ0 init Hi Ei)) with (s := s) (a := tt) (s' := s') (n := n)
    as (q & n' & Hw & _ & s1 & c1 & s2 & c2 & s3 & c3 & s4 & lh & lb & lc & qi & qt & qb & qn & [Hsi Hg1] & [Hsb Hg3] & [Hsn Hg4] & (c4 & ->) & -> & Hcond);
    [|by apply (Hb Γ0 Γ1)|by apply option_gives|done|exact Hr|].
  { intros v Ev. destruct cond as [e|]; [|done]. injection Ev as <-. bprop. by apply condition_gives. }
  destruct (Hsi Ex) as [Ex1 Hsi'].
  assert (execution_result_ s2 = None /\ forall fs f, ready ids Γ0 fs f s1 -> small s2 -> exists f', ready ids Γ0 fs f' s2 /\ condition_code Σ ids ret f lb cond qt f')
    as [Ex2 Hsc].
  { destruct cond as [e|]; cbn [option_map] in Hcond.
    - destruct Hcond as (v & qc & [[Hspec Ex2] Hg2] & ->). split; [by rewrite Ex2|]. intros fs f Hrd Hsm.
      destruct (Hspec fs f ltac:(by apply ready_code) Hsm) as (pl & f' & Hrd' & Hcode & -> & _). exists f'. split; [done|].
      bprop. eapply code_test; [done|]. by match goal with Hte : has_type e _ = true |- _ => apply bool_decide_eq_true in Hte end.
    - destruct Hcond as [-> ->]. split; [done|]. intros fs f Hrd _. exists f. split; [by apply ready_code|constructor]. }
  assert (small s2 -> small s1) as Hsm21.
  { destruct cond as [e|]; cbn [option_map] in Hcond; [destruct Hcond as (v & qc & [_ Hg2] & _); exact (small_grows _ _ Hg2)|by destruct Hcond as [_ ->]]. }
  destruct (Hsb Ex2) as [Ex3 Hsb']. destruct (Hsn Ex3) as [Ex4 Hsn'].
  exists (qi ++ Lab lh :: qt ++ qb ++ Lab lc :: qn ++ [jmp lh; Lab lb]), n'. split; [done|]. split; [done|]. intros fs f Hrd Hsm.
  pose proof (small_grows _ _ Hg4 Hsm) as Hsm3. pose proof (small_grows _ _ Hg3 Hsm3) as Hsm2.
  destruct (Hsi' fs f Hrd (Hsm21 Hsm2)) as (f1 & Hrd1 & Hcode1). destruct (Hsc fs f1 Hrd1 Hsm2) as (f2 & Hrd2 & Hcode2).
  destruct (Hsb' fs f2 ltac:(by apply ready_code) Hsm3) as (f3 & Hrd3 & Hcode3). destruct (Hsn' fs f3 ltac:(by apply ready_code) Hsm) as (f4 & Hrd4 & Hcode4).
  exists f4. split; [by apply ready_code|]. inversion Hcode1; subst.
  - by eapply code_for.
  - eapply code_for_init; [done|]. by eapply code_for.
Qed.

Lemma translated_statement st : stmt_translated st.
Proof.
  revert st. apply (TStatement_tree_ind (fun _ => True) stmt_translated (fun d => stmt_translated (TDeclarationStatement d))); try done.
  - intros. apply translated_assignment.
  - intros. by apply translated_block.
  - intros. apply translated_call_statement.
  - intros p i c n b Hi _ Hn Hb. apply translated_for; [by destruct i|by destruct n|done].
  - intros p c t e _ Ht He. apply translated_if; [done|by destruct e].
  - intros. apply translated_return.
  - intros. apply translated_declaration.
Qed.

End statements.
