(* ===== verification/GeneratorMachine.v ===== *)
(** What the machine does for the instructions of the core: the handlers of their bytecodes, the places of
    a frame, and steps of a program. *)
From Stdlib Require Import SpecFloat.
From stdpp Require Import pretty.
From S2P Require Import Prelude BitUtil Buffer Token Ast Layout Types TypesSpec TypedAst Bytecodes FunctionInfo FunctionInfoSpec BytecodeEmitter BytecodeSpec CTypes Memory VmHandlers VM VmSpec GeneratorState BytecodeGenerator GeneratorSpec GeneratorWellFormed TplSemantics TplCore GeneratorCode GeneratorTranslates GeneratorEmits.

(** * Handlers *)

(** An instruction that the loop of the interpreter runs with a handler. *)
Definition handled (b : Z) : bool := negb (b =? code "Return") && negb (IsJump b).

Section handlers.
Context `{Runtime}.

(** The operations, by operator and type. *)
Definition unary_effect (op : TokenType) (c : ctype) : Z -> Z -> memory -> option memory :=
  match op with MINUS => OpNeg c | BIT_NOT => OpBitNeg c | _ => OpNot end.
Definition arith_effect (op : TokenType) (c : ctype) : Z -> Z -> Z -> memory -> option memory :=
  match op with
  | PLUS => OpAdd c | MINUS => OpSub c | STAR => OpMul c | SLASH => OpDiv c | PERCENT => OpRem c
  | AMPERSAND => OpBitAnd c | BIT_OR => OpBitOr c | BIT_XOR => OpBitXor c | BIT_SHL => OpBitShl c | _ => OpBitShr c
  end.
Definition compare_effect (op : TokenType) (c : ctype) : Z -> Z -> Z -> memory -> option memory :=
  match op with
  | LESS => OpLessThan c | LESS_EQUAL => OpLessThanEqual c | GREATER => OpGreaterThan c | GREATER_EQUAL => OpGreaterThanEqual c
  | EQUAL_EQUAL => OpEqual c | _ => OpNotEqual c
  end.

Lemma unary_handler op t c b : ctype_of t = Some c -> unary_code op c = Some b ->
  handled b = true /\ exists name, handler_of b = Some (mkHandler name [P; V c] (with2 (unary_effect op c))).
Proof.
  intros Hc Hb. destruct t as [k| | | | | |]; try done. destruct op; try done; destruct k; try done; injection Hc as <-; try done; injection Hb as <-;
    (split; [vm_compute; reflexivity|]); eexists; reflexivity.
Qed.
Lemma arith_handler op t c b : ctype_of t = Some c -> arith_code op c = Some b ->
  handled b = true /\ exists name, handler_of b = Some (mkHandler name [P; V c; V c] (with3 (arith_effect op c))).
Proof.
  intros Hc Hb. destruct t as [k| | | | | |]; try done. destruct op; try done; destruct k; try done; injection Hc as <-; try done; injection Hb as <-;
    (split; [vm_compute; reflexivity|]); eexists; reflexivity.
Qed.
Lemma compare_handler op t c b : ctype_of t = Some c -> compare_code op c = Some b ->
  handled b = true /\ exists name, handler_of b = Some (mkHandler name [P; V c; V c] (with3 (compare_effect op c))).
Proof.
  intros Hc Hb. destruct t as [k| | | | | |]; try done. destruct op; try done; destruct k; try done; injection Hc as <-; try done; injection Hb as <-;
    (split; [vm_compute; reflexivity|]); eexists; reflexivity.
Qed.

(** They write what the operators mean. *)
Lemma unary_writes op c r x v m : unary_value op c x = Some v -> unary_effect op c r x m = write (sizeof c) r v m.
Proof.
  destruct op; try done; cbn [unary_value unary_effect].
  - destruct c; try done. intros [= <-]. done.
  - destruct c; try done. intros [= <-]. done.
  - destruct c; try done. intros Hv. unfold OpNeg, assign. by rewrite Hv.
Qed.
Lemma arith_writes op c b r x y v m : arith_code op c = Some b -> arith_value op c x y = Some v -> arith_effect op c r x y m = write (sizeof c) r v m.
Proof.
  intros Hb. destruct op; try done; cbn [arith_value arith_effect]; destruct c as [|s k| |]; try done; intros Hv;
    unfold OpAdd, OpSub, OpMul, OpDiv, OpRem, OpBitAnd, OpBitOr, OpBitXor, OpBitShl, OpBitShr, assign; by rewrite Hv.
Qed.
Lemma compare_writes op c b r x y v m : compare_code op c = Some b -> compare_value op c x y = Some v -> compare_effect op c r x y m = write 1 r v m.
Proof.
  intros Hb. destruct op; try done; cbn [compare_value compare_effect]; intros Hv;
    unfold OpLessThan, OpLessThanEqual, OpGreaterThan, OpGreaterThanEqual, OpEqual, OpNotEqual, assign; rewrite Hv; done.
Qed.

(** Copies: the bytes of a type are copied as an integer of its size. *)
Lemma assign_handler t c : ctype_of t = Some c -> let b := code ("Assign" +:+ size_name (sizeof c)) in
  handled b = true /\ exists name f, handler_of b = Some (mkHandler name [P; V (int_t true (sizeof c))] (with2 f)) /\
    forall r x m, f r x m = write (sizeof c) r x m.
Proof.
  intros Hc. destruct t as [k| | | | | |]; try done. destruct k; try done; injection Hc as <-; (split; [vm_compute; reflexivity|]);
    cbn [sizeof size_name]; eexists _, (OpAssign _); (split; [reflexivity|]); reflexivity.
Qed.
Lemma deref_handler t c : ctype_of t = Some c -> let b := code ("Deref" +:+ size_name (sizeof c)) in
  handled b = true /\ exists name f, handler_of b = Some (mkHandler name [P; P] (with2 f)) /\
    forall r x m v, load (sizeof c) x m = Some v -> f r x m = write (sizeof c) r v m.
Proof.
  intros Hc. destruct t as [k| | | | | |]; try done. destruct k; try done; injection Hc as <-; (split; [vm_compute; reflexivity|]);
    cbn [sizeof size_name]; eexists _, (OpDeref _); (split; [reflexivity|]); intros r x m v Hl; cbv [OpDeref assign sizeof int8 int16 int32 int64 uint8 uint16 uint32 uint64] in *; by rewrite Hl.
Qed.
(** A literal is written as the bytes of its immediate. *)
Lemma literal_handler v t c b z : ctype_of t = Some c -> literal_code v c = Some (b, z) -> exists x,
  literal_value v c = Some x /\ handled b = true /\ exists name u f, handler_of b = Some (mkHandler name [P; RImm u] (with2 f)) /\
    forall r m, f r (wrapu (bits u) z) m = write (sizeof c) r x m.
Proof.
  intros Hc Hb. destruct t as [k| | | | | |]; try done.
  destruct v; try done; destruct k; try done; injection Hc as <-; try done; injection Hb as <- <-; (eexists; split; [reflexivity|]; split; [vm_compute; reflexivity|]);
    cbn [size_name]; (first [eexists _, _, (OpAssignImm _); split; [reflexivity|]; intros r m; unfold OpAssignImm, assign; cbn [mbind option_bind sizeof bits];
      unfold write; f_equal; try change 8 with (8 * Z.of_nat 1); rewrite ?wrapu_wraps by lia; by rewrite !le_encode_wrapu]).
Qed.

End handlers.

(** * The code of the core is well formed, item by item *)

Lemma takes_item n b args : takes n b -> length args = n -> Forall (is_uint 32) args -> item_ok (Ins (Plain b args)).
Proof.
  unfold takes, item_ok, instr_ok, types_of. intros Hb <- Hall. rewrite Hb. split; [done|]. clear Hb.
  induction Hall; [constructor|]. by constructor.
Qed.
Lemma address_uint pl : is_uint 32 (by_address pl).
Proof. apply new_LocalVar_ok. Qed.
Lemma value_uint pl : is_uint 32 (by_value pl).
Proof. apply ValueOf_ok. Qed.

Lemma values_uint pls : Forall (is_uint 32) (map by_value pls).
Proof. apply Forall_map, Forall_true. apply value_uint. Qed.
Lemma result_item n b pl args : takes (S n) b -> length args = n -> Forall (is_uint 32) args -> item_ok (Ins (Plain b (by_address pl :: args))).
Proof. intros Hb Hl Ha. apply (takes_item (S n)); [done|by cbn [length]; rewrite Hl|]. apply Forall_cons_2; [apply address_uint|done]. Qed.

Lemma unary_takes op t c b : ctype_of t = Some c -> unary_code op c = Some b -> takes 2 b.
Proof.
  intros Hc Hb. destruct t as [k| | | | | |]; try done. destruct op; try done; destruct k; try done; injection Hc as <-; try done; injection Hb as <-;
    (vm_compute; reflexivity).
Qed.
Lemma arith_takes op t c b : ctype_of t = Some c -> arith_code op c = Some b -> takes 3 b.
Proof.
  intros Hc Hb. destruct t as [k| | | | | |]; try done. destruct op; try done; destruct k; try done; injection Hc as <-; try done; injection Hb as <-;
    (vm_compute; reflexivity).
Qed.
Lemma compare_takes op t c b : ctype_of t = Some c -> compare_code op c = Some b -> takes 3 b.
Proof.
  intros Hc Hb. destruct t as [k| | | | | |]; try done. destruct op; try done; destruct k; try done; injection Hc as <-; try done; injection Hb as <-;
    (vm_compute; reflexivity).
Qed.
Lemma copy_takes c : takes 2 (code ("Assign" +:+ size_name (sizeof c))) /\ takes 2 (code ("Deref" +:+ size_name (sizeof c))).
Proof.
  destruct c as [|s n| |]; [split; vm_compute; reflexivity| |split; vm_compute; reflexivity|split; vm_compute; reflexivity].
  unfold size_name. cbn [sizeof]. destruct n as [|[|[|[|[|n]]]]]; (split; vm_compute; reflexivity).
Qed.
Lemma literal_item v t c b z pl : ctype_of t = Some c -> literal_code v c = Some (b, z) -> item_ok (Ins (Plain b [by_address pl; z])).
Proof.
  intros Hc Hb. pose proof (address_uint pl) as Hp. assert (exists ty, GetOperandTypes b = Some [Local; ty] /\ operand_ok ty z) as (ty & Et & Hz).
  { destruct t as [k| | | | | |]; try done. destruct v; try done; destruct k; try done; injection Hc as <-; try done; injection Hb as <- <-;
      (eexists; split; [vm_compute; reflexivity|]); first [apply wraps_range; lia|apply wrapu_range; lia]. }
  unfold item_ok, instr_ok, types_of. rewrite Et. split; [done|].
  change (Forall2 operand_ok [Local; ty] [by_address pl; z]). apply Forall2_cons_2; [exact Hp|]. apply Forall2_cons_2; [exact Hz|constructor].
Qed.
Lemma jmp_item_ok l : item_ok (jmp l).
Proof. split; [vm_compute; reflexivity|constructor]. Qed.
Lemma test_item_ok b (pl : place) l : In b ["JumpIfFalse"; "JumpIfTrue"]%string -> item_ok (jmp_if b (value_ref pl.2) l).
Proof.
  intros Hb. split; [|by constructor; [apply ValueOf_ok|]]. by destruct Hb as [<-|[<-|[]]]; vm_compute.
Qed.

Section items.
Context `{AlignOps, CppClasses}.
Context (Σ : signatures) (ids : gmap string Z).
Context (HΣ : forall name params t, Σ !! name = Some (params, t) -> Z.of_nat (length params) < 2 ^ 16 - 1).

Lemma call_item name params t id args : Σ !! name = Some (params, t) -> (length args <= S (length params))%nat -> Forall (is_uint 32) args ->
  item_ok (Ins (CallI (wrapu 16 id) args)).
Proof.
  intros Hs%HΣ Hl Hall. split; [by apply wrapu_range|]. split; [|done]. unfold is_uint. change (2 ^ 16) with 65536 in *. lia.
Qed.

Lemma expr_code_items :
  (forall f d e q pl f', expr_code Σ ids f d e q pl f' -> Forall item_ok q) /\
  (forall f args q pls f', args_code Σ ids f args q pls f' -> Forall item_ok q /\ length pls = length args).
Proof.
  apply expr_code_ind2.
  - constructor.
  - intros f pos name t c pl d i _ _ _ _ _ _ Hi. apply Forall_singleton. destruct (copy_takes c) as [Ha Hd].
    destruct Hi as [->| ->]; [apply (result_item 1 _ _ [by_value pl] Ha eq_refl), (values_uint [pl])|].
    apply (result_item 1 _ _ [by_address pl] Hd eq_refl), Forall_singleton, address_uint.
  - intros f d pos v t c pl f' b z _ Hc Hl. apply Forall_singleton. by eapply literal_item.
  - intros f d pos op e t c q pl pl1 f1 f2 b _ _ Hq _ Hc Hb. apply Forall_app. split; [done|]. apply Forall_singleton.
    apply (result_item 1 _ _ [by_value pl1] (unary_takes _ _ _ _ Hc Hb) eq_refl), (values_uint [pl1]).
  - intros f d pos op l r t c q1 q2 pl pl1 pl2 f1 f2 f3 b _ _ Hq1 _ Hq2 _ _ Hc Hb. apply Forall_app. split; [done|]. apply Forall_app. split; [done|]. apply Forall_singleton.
    apply (result_item 2 _ _ [by_value pl1; by_value pl2] (arith_takes _ _ _ _ Hc Hb) eq_refl), (values_uint [pl1; pl2]).
  - intros f d pos op l r t c q1 q2 pl pl1 pl2 f1 f2 f3 b _ _ Hq1 _ Hq2 _ _ Hc Hb. apply Forall_app. split; [done|]. apply Forall_app. split; [done|]. apply Forall_singleton.
    apply (result_item 2 _ _ [by_value pl1; by_value pl2] (compare_takes _ _ _ _ Hc Hb) eq_refl), (values_uint [pl1; pl2]).
  - intros f d pos op l r q1 q2 pl f1 f2 f3 b lab _ _ Hq1 _ Hq2 _ _ _ Hj. apply Forall_app. split; [done|]. apply Forall_cons_2.
    + apply test_item_ok. destruct op; try done; injection Hj as <-; simpl; auto.
    + apply Forall_app. split; [done|]. by apply Forall_singleton.
  - intros f d func name args params t id q pl pls f1 f2 _ _ [Hq Hl] _ Hs Hty _ _. apply Forall_app. split; [done|]. apply Forall_singleton.
    apply (f_equal length) in Hty. rewrite !length_map in Hty. eapply call_item; [done|cbn [length]; rewrite length_map; lia|].
    apply Forall_cons_2; [apply address_uint|apply values_uint].
  - done.
  - intros f e args q q' pl pls f1 f2 _ Hq _ [Hq' Hl]. split; [by apply Forall_app|]. cbn [length]. by rewrite Hl.
Qed.

Lemma stmt_code_items ret :
  (forall f s q f', stmt_code Σ ids ret f s q f' -> Forall item_ok q) /\
  (forall f ss q f', stmts_code Σ ids ret f ss q f' -> Forall item_ok q) /\
  (forall f o q f', option_code Σ ids ret f o q f' -> Forall item_ok q) /\
  (forall f l o q f', condition_code Σ ids ret f l o q f' -> Forall item_ok q).
Proof.
  destruct expr_code_items as [He Ha].
  assert (forall pl l, item_ok (test_code pl l)) as Htest by (intros pl l; apply test_item_ok; simpl; auto).
  assert (forall l, item_ok (Lab l)) as Hlab by done. assert (forall b l, Forall item_ok (maybe_jmp b l)) as Hmaybe by (intros [] l; [constructor|apply Forall_singleton, jmp_item_ok]).
  assert (item_ok (Ins (Plain (code "Return") []))) as Hret by (split; [vm_compute; reflexivity|constructor]).
  assert (forall pls, Forall (is_uint 32) (map by_value pls)) as Hvals by apply values_uint.
  assert (forall f args q pls f' name params t id, args_code Σ ids f args q pls f' -> Σ !! name = Some (params, t) -> map GetType args = map Some params ->
    Forall item_ok q /\ item_ok (Ins (CallI (wrapu 16 id) (map by_value pls))) /\ forall pl, item_ok (Ins (CallI (wrapu 16 id) (by_address pl :: map by_value pls)))) as Hcall.
  { intros f args q pls f' name params t id [Hq Hl]%Ha Hs Hty. apply (f_equal length) in Hty. rewrite !length_map in Hty.
    split; [done|]. split; [|intros pl]; (eapply call_item; [exact Hs|cbn [length]; rewrite length_map; lia|]); [done|apply Forall_cons_2; [apply address_uint|done]]. }
  apply stmt_code_ind2; intros; try done;
    repeat match goal with
    | |- Forall _ (_ ++ _) => apply Forall_app_2 | |- Forall _ (_ :: _) => apply Forall_cons_2 | |- Forall _ [] => constructor
    end; try (by eauto using jmp_item_ok); try (by eapply Hcall).
  destruct (copy_takes c) as [Hc _]. eapply (takes_item 2 _ [_; _]); [exact Hc|done|]. apply Forall_cons_2; [apply ValueOf_ok|apply (Hvals [pl])].
Qed.
End items.

(** * A frame while a function of the core runs: the places of its locals, what an instruction does to them, and steps through a program *)

Section frame.
Context `{Runtime, FrameAllocator} `{AlignOpsSpec} `{CppClassesSpec}.
Context (module : BytecodeModule TplType) (p : list item) (Hlabels : NoDup (labels_of p)).
(** The function that runs, with all its locals, and where its frame is. *)
Context (F : FunctionInfo TplType) (Hfine : frame_fine F).
Context (fb : Z) (Hfb : 0 <= fb /\ fb + frame_size_ F <= 2 ^ 63).

Definition the_frame : Frame := mkFrame fb (frame_size_ F).
Definition addr (l : LocalInfo TplType) : Z := fb + li_offset l.
Definition alive (m : memory) : Prop := allocated fb (frame_size_ F) m.
Definition local_area (l : LocalInfo TplType) : Z -> Prop := within (addr l) (li_size l).

Lemma local_sizes : Forall (fun i : Z * (Z * Z) => 0 <= i.2.1) (map local_place (locals_ F)).
Proof.
  apply Forall_map. eapply Forall_impl; [exact (fine_locals _ Hfine)|]. intros l [E _]. cbn. rewrite E. apply local_size_range.
Qed.
Lemma local_bounds pl : in_frame F pl -> 0 <= li_offset pl.2 /\ 0 <= li_size pl.2 /\ li_offset pl.2 + li_size pl.2 <= frame_size_ F.
Proof.
  intros Hin. destruct (placed_bounds _ _ _ local_sizes (fine_placed _ Hfine)) as [_ Hb]. rewrite Forall_map, Forall_lookup in Hb.
  specialize (Hb _ _ Hin). cbn in Hb. pose proof local_sizes as Hs. rewrite Forall_map, Forall_lookup in Hs. specialize (Hs _ _ Hin). cbn in Hs. lia.
Qed.
Lemma local_disjoint i j l l' : locals_ F !! i = Some l -> locals_ F !! j = Some l' -> i <> j ->
  forall x, local_area l x -> ~ local_area l' x.
Proof.
  intros Hi Hj Hne x. unfold local_area, within, addr.
  assert (forall i j l l', locals_ F !! i = Some l -> locals_ F !! j = Some l' -> (i < j)%nat -> li_offset l + li_size l <= li_offset l') as Hd.
  { intros i0 j0 l0 l0' Hi0 Hj0 Hij. apply (placed_disjoint 0 _ _ i0 j0 (local_place l0) (local_place l0') local_sizes (fine_placed _ Hfine)); [..|done].
    - by rewrite list_lookup_fmap, Hi0.
    - by rewrite list_lookup_fmap, Hj0. }
  destruct (Nat.lt_total i j) as [Hij|[Hij|Hij]]; [pose proof (Hd _ _ _ _ Hi Hj Hij); lia|done|pose proof (Hd _ _ _ _ Hj Hi Hij); lia].
Qed.
Lemma local_offset pl : in_frame F pl -> is_uint 31 (li_offset pl.2).
Proof. intros Hin. pose proof (fine_locals _ Hfine) as Hl. rewrite Forall_lookup in Hl. by destruct (Hl _ _ Hin). Qed.
Lemma local_size pl : in_frame F pl -> li_size pl.2 = GetSize (li_type pl.2).
Proof. intros Hin. pose proof (fine_locals _ Hfine) as Hl. rewrite Forall_lookup in Hl. by destruct (Hl _ _ Hin). Qed.
Lemma local_size_of pl t c : in_frame F pl -> li_type pl.2 = t -> ctype_of t = Some c -> li_size pl.2 = Z.of_nat (sizeof c).
Proof. intros Hin <- Hc. rewrite (local_size pl Hin). by apply ctype_size. Qed.
Lemma alive_local pl m : alive m -> in_frame F pl -> allocated (addr pl.2) (li_size pl.2) m.
Proof. intros Ha Hin x Hx. apply Ha. destruct (local_bounds pl Hin) as (? & ? & ?). unfold addr in Hx. lia. Qed.

(** ** Operands *)

(** The value of a place, which has as many bits as the place. *)
Definition holds_value (pl : place) (v : Z) (m : memory) : Prop :=
  load (Z.to_nat (li_size pl.2)) (addr pl.2) m = Some v /\ is_uint (8 * li_size pl.2) v.
Lemma holds_load pl c v m : li_size pl.2 = Z.of_nat (sizeof c) -> holds_value pl v m -> load (sizeof c) (addr pl.2) m = Some v /\ is_uint (bits c) v.
Proof. unfold holds_value, bits. intros -> Hv. by rewrite Nat2Z.id in Hv. Qed.

Lemma decode_address pl : LocalVar_Decode (by_address pl) = local_ref pl.2.
Proof. apply Decode_Encode. Qed.
Lemma decode_value pl : LocalVar_Decode (by_value pl) = value_ref pl.2.
Proof. apply Decode_Encode. Qed.
Lemma offset_value pl : in_frame F pl -> GetOffset (value_ref pl.2) = li_offset pl.2 /\ GetAddressMode (value_ref pl.2) = Value.
Proof.
  intros Hin. pose proof (local_offset pl Hin) as Ho. assert (GetOffset (local_ref pl.2) = li_offset pl.2) as E by (by apply GetOffset_new).
  unfold value_ref, ValueOf. by rewrite E, GetOffset_new, GetAddressMode_new.
Qed.
Lemma offset_address pl : in_frame F pl -> GetOffset (local_ref pl.2) = li_offset pl.2 /\ GetAddressMode (local_ref pl.2) = Address.
Proof. intros Hin. pose proof (local_offset pl Hin) as Ho. unfold local_ref. by rewrite GetOffset_new, GetAddressMode_new. Qed.

Lemma uint64_value x : 0 <= x < 2 ^ 64 -> int_bits 8 (int_value false 8 (wrapu 64 x)) = x.
Proof. intros Hx. unfold int_bits, int_value. change (8 * Z.of_nat 8) with 64. by rewrite !(wrapu_small 64 x Hx). Qed.

Lemma read_address pl m : in_frame F pl -> LocalAt the_frame uint64 (by_address pl) m = Some (addr pl.2).
Proof.
  intros Hin. unfold LocalAt. rewrite decode_address. destruct (offset_address pl Hin) as [Eo Em]. unfold PtrToLocalAt. rewrite Em, Eo.
  rewrite decide_False by done. cbn [the_frame frame_data_]. unfold cast, uint64. f_equal. fold (addr pl.2). destruct (local_bounds pl Hin) as (? & ? & ?).
  apply uint64_value. unfold addr. lia.
Qed.
Lemma read_value pl c v m : in_frame F pl -> li_size pl.2 = Z.of_nat (sizeof c) -> holds_value pl v m -> LocalAt the_frame c (by_value pl) m = Some v.
Proof.
  intros Hin Es Hv. unfold LocalAt. rewrite decode_value. destruct (offset_value pl Hin) as [Eo Em]. unfold PtrToLocalAt. rewrite Em, Eo.
  rewrite decide_True by done. cbn [the_frame frame_data_]. apply (holds_load pl c v m Es Hv).
Qed.

(** ** What a piece of code leaves alone

    A piece of code that was translated with the locals of [f], into the place [d] if one is given: the
    memory outside of the frame, and the locals but [d] and temporaries that came later. *)
Record keeps (f : FunctionInfo TplType) (d : option place) (m m' : memory) : Prop := {
  keeps_outside : same_but (within fb (frame_size_ F)) m m';
  keeps_locals i l : locals_ F !! i = Some l -> (i < length (locals_ f))%nat \/ ~ is_temp (li_name l) -> (forall pd, d = Some pd -> pd.1 <> i) ->
    same_on (addr l) (li_size l) m m'
}.

Lemma keeps_refl f d m : keeps f d m m.
Proof. split; [apply same_but_refl|done]. Qed.
Lemma extends_length f f' : extends f f' -> (length (locals_ f) <= length (locals_ f'))%nat.
Proof. apply prefix_length. Qed.
Lemma keeps_trans f f1 d m1 m2 m3 : keeps f d m1 m2 -> keeps f1 d m2 m3 -> extends f f1 -> keeps f d m1 m3.
Proof.
  intros [Ho1 Hl1] [Ho2 Hl2] Hf. split; [by eapply same_but_trans|]. intros i l Hi Hk Hd x Hx. pose proof (extends_length _ _ Hf).
  assert ((i < length (locals_ f1))%nat \/ ~ is_temp (li_name l)) as Hk' by (destruct Hk; [left; lia|by right]).
  pose proof (Hl2 i l Hi Hk' Hd x Hx) as ->. by apply (Hl1 i l Hi).
Qed.
Lemma keeps_more f d m m' : keeps f None m m' -> keeps f d m m'.
Proof. intros [Ho Hl]. split; [done|]. intros i l Hi Hk _. by apply (Hl i l). Qed.
Lemma keeps_alive f d m m' : keeps f d m m' -> alive m -> alive m'.
Proof. intros [Ho _]. by apply (same_but_allocated _ _ _ _ _ Ho). Qed.
Lemma keeps_value f d m m' pl v : keeps f d m m' -> in_frame F pl -> (pl.1 < length (locals_ f))%nat \/ ~ is_temp (li_name pl.2) ->
  (forall pd, d = Some pd -> pd.1 <> pl.1) -> holds_value pl v m -> holds_value pl v m'.
Proof.
  intros [_ Hl] Hin Hk Hd [Hv Hr]. split; [|done]. rewrite <- Hv. apply same_on_load.
  destruct (local_bounds pl Hin) as (? & ? & ?). rewrite Z2Nat.id by done. destruct pl as [i l]. by apply (Hl i l).
Qed.
Lemma in_frame_index f pl : in_frame f pl -> (pl.1 < length (locals_ f))%nat.
Proof. intros Hin. apply lookup_lt_is_Some. by exists pl.2. Qed.

Lemma NewLocal_temp f t v f' : NewLocal f t EmptyString = (v, f') -> exists l, locals_ f' = locals_ f ++ [l] /\ is_temp (li_name l).
Proof.
  unfold NewLocal, NewLocal_kind. cbn [String.eqb]. intros [= _ <-]. cbn [locals_]. eexists. split; [reflexivity|]. by eexists.
Qed.
(** A write to the place of the result. *)
Lemma dest_keeps f t d pl f1 m m' : dest_place f t d pl f1 -> extends f1 F -> same_but (local_area pl.2) m m' -> keeps f d m m'.
Proof.
  intros Hd Hf Hs. destruct (dest_place_extends _ _ _ _ _ Hd) as (_ & Hin & _ & Hpd). apply (in_frame_extends _ _ _ Hf) in Hin.
  destruct (local_bounds pl Hin) as (? & ? & ?). split.
  - eapply same_but_weaken; [exact Hs|]. intros x Hx. unfold local_area, within, addr in Hx. unfold within. lia.
  - intros i l Hi Hk Hne. eapply same_but_on; [exact Hs|]. intros x Hx. apply (local_disjoint i pl.1 l pl.2 Hi Hin); [|done]. intros ->.
    destruct Hd as [pl' Hin' Et|l' f0 El Elocals Et].
    + by apply (Hne pl').
    + unfold in_frame in Hin. cbn [fst snd] in *. rewrite Hi in Hin. injection Hin as ->. destruct Hk as [Hk|Hk]; [lia|].
      destruct (NewLocal_temp _ _ _ _ El) as (l0 & E0 & Ht). rewrite Elocals in E0. apply app_inj_tail in E0 as [_ ->]. done.
Qed.

(** What is done for a place that is asked for. *)
Lemma dest_keeps_into f t d pl f1 m m' : dest_place f t d pl f1 -> extends f1 F -> keeps f1 (Some pl) m m' -> keeps f d m m'.
Proof.
  intros Hd Hf [Ho Hl]. destruct (dest_place_extends _ _ _ _ _ Hd) as (Hf1 & Hin & _ & Hpd). apply (in_frame_extends _ _ _ Hf) in Hin.
  pose proof (extends_length _ _ Hf1). split; [done|]. intros i l Hi Hk Hne. apply (Hl i l Hi); [destruct Hk; [left; lia|by right]|].
  intros ? [= <-] <-. destruct Hd as [pl' Hin' Et|l' f0 El Elocals Et].
  - by apply (Hne pl').
  - unfold in_frame in Hin. cbn [fst snd] in *. rewrite Hi in Hin. injection Hin as ->. destruct Hk as [Hk|Hk]; [lia|].
    destruct (NewLocal_temp _ _ _ _ El) as (l0 & E0 & Ht). rewrite Elocals in E0. apply app_inj_tail in E0 as [_ ->]. done.
Qed.
Lemma keeps_earlier f f1 d m m' : extends f f1 -> keeps f1 d m m' -> keeps f d m m'.
Proof. intros Hf Hk. eapply keeps_trans; [apply keeps_refl|exact Hk|exact Hf]. Qed.

(** ** Variables *)

(** Variables of the reference semantics have their values in the places of the variables. *)
Definition agrees (P : string -> Prop) (ρ : environment) (m : memory) : Prop := forall x v, P x -> ρ !! x = Some v ->
  variable_name_ok x = true /\ exists pl, lookup_place F x = Some pl /\ holds_value pl v m.
Lemma agrees_weaken (P Q : string -> Prop) ρ m : agrees P ρ m -> (forall x, Q x -> P x) -> agrees Q ρ m.
Proof. intros Ha HPQ x v Hx. apply Ha. auto. Qed.
Lemma agrees_keeps P ρ f d m m' : keeps f d m m' -> agrees P ρ m -> (forall pd, d = Some pd -> in_frame F pd /\ ~ P (li_name pd.2)) -> agrees P ρ m'.
Proof.
  intros Hk Ha Hd x v Hx Hρ. destruct (Ha x v Hx Hρ) as (Hn & pl & Hpl & Hv). split; [done|]. exists pl. split; [done|].
  destruct (lookup_place_in _ _ _ Hpl) as [Hin En]. eapply keeps_value; [exact Hk|done| | |done].
  - right. intros Ht. rewrite En in Ht. by rewrite (temp_not_variable _ Ht) in Hn.
  - intros pd -> Ei. destruct (Hd pd eq_refl) as [Hpd Hnot]. unfold in_frame in Hin, Hpd. rewrite Ei, Hin in Hpd. injection Hpd as E. by rewrite <- E, En in Hnot.
Qed.

(** ** Steps *)

Definition steps (rest : list item) (m : memory) (rest' : list item) (m' : memory) : Prop := exists k n, forall fuel, (k <= fuel)%nat ->
  run module p the_frame (n + fuel) rest m = run module p the_frame fuel rest' m'.

Lemma steps_refl rest m : steps rest m rest m.
Proof. by exists 0%nat, 0%nat. Qed.
Lemma steps_trans r1 m1 r2 m2 r3 m3 : steps r1 m1 r2 m2 -> steps r2 m2 r3 m3 -> steps r1 m1 r3 m3.
Proof.
  intros (k1 & n1 & Hs1) (k2 & n2 & Hs2). exists (max k1 k2), (n1 + n2)%nat. intros fuel Hf. rewrite <- Nat.add_assoc, Hs1, Hs2; [done|lia|lia].
Qed.
Lemma run_label l rest m fuel : run module p the_frame fuel (Lab l :: rest) m = run module p the_frame fuel rest m.
Proof. by destruct fuel. Qed.
Lemma steps_label l rest m : steps (Lab l :: rest) m rest m.
Proof. exists 0%nat, 0%nat. intros fuel _. apply run_label. Qed.
Lemma steps_plain b args rest m m' : handled b = true -> exec_plain module the_frame m b args = Some m' ->
  steps (Ins (Plain b args) :: rest) m rest m'.
Proof.
  intros Hb He. exists 0%nat, 1%nat. intros fuel _. cbn [Nat.add run strip_labels]. unfold handled in Hb. apply andb_true_iff in Hb as [Hr Hj].
  apply negb_true_iff in Hr as ->. apply negb_true_iff in Hj as ->. by rewrite He.
Qed.
Lemma steps_call f args rest m m' k : (forall fuel, (k <= fuel)%nat -> exec_call module (Interpret module fuel) f args the_frame m = Ok m') ->
  steps (Ins (CallI f args) :: rest) m rest m'.
Proof. intros He. exists k, 1%nat. intros fuel Hf. cbn [Nat.add run strip_labels]. by rewrite He. Qed.

Lemma after_label_here l rest : Lab l :: rest `suffix_of` p -> after_label l p = Some rest.
Proof.
  intros [pre E]. rewrite E in Hlabels |- *. clear E. induction pre as [|it pre IH]; cbn [app after_label].
  - by rewrite decide_True.
  - destruct it as [i|b c l'|l']; try apply IH; try exact Hlabels. cbn [labels_of app] in Hlabels.
    change (labels_of ((Lab l' :: pre) ++ Lab l :: rest)) with (l' :: labels_of (pre ++ Lab l :: rest)) in Hlabels. apply NoDup_cons in Hlabels as [Hn Hd].
    rewrite decide_False; [by apply IH|]. intros ->. apply Hn. rewrite labels_of_app. apply elem_of_app. right. left.
Qed.
Lemma steps_jump l rest rest' m : Lab l :: rest' `suffix_of` p -> steps (jmp l :: rest) m rest' m.
Proof.
  intros Hl. exists 0%nat, 1%nat. intros fuel _. unfold jmp. cbn [Nat.add run strip_labels]. rewrite Z.eqb_refl. cbn [lift mbind result_bind rbind].
  by rewrite (after_label_here _ _ Hl).
Qed.
(** A conditional jump, on a value that is a bool. *)
Lemma steps_jump_if b l pl v taken rest rest' m : in_frame F pl -> li_type pl.2 = BuiltinType Bool -> holds_value pl v m ->
  (b, taken) = ("JumpIfFalse"%string, v =? 0) \/ (b, taken) = ("JumpIfTrue"%string, negb (v =? 0)) ->
  (taken = true -> Lab l :: rest' `suffix_of` p) ->
  steps (jmp_if b (value_ref pl.2) l :: rest) m (if taken then rest' else rest) m.
Proof.
  intros Hin Et Hv Hb Hl. exists 0%nat, 1%nat. intros fuel _. unfold jmp_if. cbn [Nat.add run strip_labels]. fold (by_value pl). unfold cond_holds.
  rewrite (read_value pl bool_t v m Hin (local_size_of pl _ bool_t Hin Et eq_refl) Hv).
  cbn [fmap option_fmap option_map mbind option_bind]. destruct Hb as [[= -> ->]|[= -> ->]].
  - change (code "JumpIfFalse" =? code "JumpIfTrue") with false. rewrite Z.eqb_refl. cbn [lift result_bind rbind mbind].
    destruct (v =? 0) eqn:E; cbn [negb]; [rewrite (after_label_here _ _ (Hl eq_refl))|]; done.
  - rewrite Z.eqb_refl. cbn [lift result_bind rbind mbind]. destruct (v =? 0) eqn:E; cbn [negb]; [done|]. by rewrite (after_label_here _ _ (Hl eq_refl)).
Qed.

(** ** Instructions that write the place of a result *)

Lemma write_place pl c v m : in_frame F pl -> li_size pl.2 = Z.of_nat (sizeof c) -> alive m ->
  exists m', write (sizeof c) (addr pl.2) v m = Some m' /\ same_but (local_area pl.2) m m' /\ holds_value pl (wrapu (bits c) v) m'.
Proof.
  intros Hin Es Ha. pose proof (alive_local pl m Ha Hin) as Hal. rewrite Es in Hal. destruct (write_run (sizeof c) (addr pl.2) v m Hal) as (m' & E & Hs & Hl).
  exists m'. split; [done|]. unfold local_area, holds_value. rewrite Es, Nat2Z.id. split; [done|]. split; [done|]. apply wrapu_range. unfold bits. lia.
Qed.

Lemma step_unary op t c b pl pl1 x v rest m : ctype_of t = Some c -> unary_code op c = Some b -> in_frame F pl -> li_type pl.2 = t ->
  in_frame F pl1 -> li_type pl1.2 = t -> alive m -> holds_value pl1 x m -> unary_value op c x = Some v ->
  exists m', steps (Ins (Plain b [by_address pl; by_value pl1]) :: rest) m rest m' /\ same_but (local_area pl.2) m m' /\ holds_value pl (wrapu (bits c) v) m'.
Proof.
  intros Hc Hb Hin Et Hin1 Et1 Ha Hx Hv. destruct (unary_handler op t c b Hc Hb) as (Hh & name & Ehandler).
  destruct (write_place pl c v m Hin (local_size_of _ _ _ Hin Et Hc) Ha) as (m' & Ew & Hs & Hl). exists m'. split; [|done]. apply steps_plain; [done|].
  unfold exec_plain. rewrite Ehandler. cbn [h_reads h_effect mbind option_bind eval_reads eval_read P]. rewrite (read_address pl m Hin).
  rewrite (read_value pl1 c x m Hin1 (local_size_of _ _ _ Hin1 Et1 Hc) Hx). cbn [mbind option_bind with2].
  by rewrite (unary_writes op c _ _ v m Hv).
Qed.
Lemma step_arith op t c b pl pl1 pl2 x y v rest m : ctype_of t = Some c -> arith_code op c = Some b -> in_frame F pl -> li_type pl.2 = t ->
  in_frame F pl1 -> li_type pl1.2 = t -> in_frame F pl2 -> li_type pl2.2 = t -> alive m -> holds_value pl1 x m -> holds_value pl2 y m ->
  arith_value op c x y = Some v ->
  exists m', steps (Ins (Plain b [by_address pl; by_value pl1; by_value pl2]) :: rest) m rest m' /\ same_but (local_area pl.2) m m' /\
    holds_value pl (wrapu (bits c) v) m'.
Proof.
  intros Hc Hb Hin Et Hin1 Et1 Hin2 Et2 Ha Hx Hy Hv. destruct (arith_handler op t c b Hc Hb) as (Hh & name & Ehandler).
  destruct (write_place pl c v m Hin (local_size_of _ _ _ Hin Et Hc) Ha) as (m' & Ew & Hs & Hl). exists m'. split; [|done]. apply steps_plain; [done|].
  unfold exec_plain. rewrite Ehandler. cbn [h_reads h_effect mbind option_bind eval_reads eval_read P]. rewrite (read_address pl m Hin).
  rewrite (read_value pl1 c x m Hin1 (local_size_of _ _ _ Hin1 Et1 Hc) Hx), (read_value pl2 c y m Hin2 (local_size_of _ _ _ Hin2 Et2 Hc) Hy).
  cbn [mbind option_bind with3]. by rewrite (arith_writes op c b _ _ _ v m Hb Hv).
Qed.
Lemma step_compare op t c b pl pl1 pl2 x y v rest m : ctype_of t = Some c -> compare_code op c = Some b -> in_frame F pl ->
  li_type pl.2 = BuiltinType Bool -> in_frame F pl1 -> li_type pl1.2 = t -> in_frame F pl2 -> li_type pl2.2 = t -> alive m ->
  holds_value pl1 x m -> holds_value pl2 y m -> compare_value op c x y = Some v ->
  exists m', steps (Ins (Plain b [by_address pl; by_value pl1; by_value pl2]) :: rest) m rest m' /\ same_but (local_area pl.2) m m' /\
    holds_value pl (wrapu (bits bool_t) v) m'.
Proof.
  intros Hc Hb Hin Et Hin1 Et1 Hin2 Et2 Ha Hx Hy Hv. destruct (compare_handler op t c b Hc Hb) as (Hh & name & Ehandler).
  destruct (write_place pl bool_t v m Hin (local_size_of _ _ bool_t Hin Et eq_refl) Ha) as (m' & Ew & Hs & Hl). exists m'. split; [|done]. apply steps_plain; [done|].
  unfold exec_plain. rewrite Ehandler. cbn [h_reads h_effect mbind option_bind eval_reads eval_read P]. rewrite (read_address pl m Hin).
  rewrite (read_value pl1 c x m Hin1 (local_size_of _ _ _ Hin1 Et1 Hc) Hx), (read_value pl2 c y m Hin2 (local_size_of _ _ _ Hin2 Et2 Hc) Hy).
  cbn [mbind option_bind with3]. by rewrite (compare_writes op c b _ _ _ v m Hb Hv).
Qed.
Lemma step_literal lit t c b z pl rest m : ctype_of t = Some c -> literal_code lit c = Some (b, z) -> in_frame F pl -> li_type pl.2 = t -> alive m ->
  exists x m', literal_value lit c = Some x /\ steps (Ins (Plain b [by_address pl; z]) :: rest) m rest m' /\ same_but (local_area pl.2) m m' /\
    holds_value pl (wrapu (bits c) x) m'.
Proof.
  intros Hc Hb Hin Et Ha. destruct (literal_handler lit t c b z Hc Hb) as (x & Hx & Hh & name & u & f & Ehandler & Hf).
  destruct (write_place pl c x m Hin (local_size_of _ _ _ Hin Et Hc) Ha) as (m' & Ew & Hs & Hl). exists x, m'. split; [done|]. split; [|done]. apply steps_plain; [done|].
  unfold exec_plain. rewrite Ehandler. cbn [h_reads h_effect mbind option_bind eval_reads eval_read P]. rewrite (read_address pl m Hin).
  cbn [mbind option_bind with2]. by rewrite Hf.
Qed.

Lemma step_copy t c pl pl1 v i rest m : ctype_of t = Some c -> in_frame F pl -> li_type pl.2 = t -> in_frame F pl1 -> li_type pl1.2 = t -> alive m ->
  holds_value pl1 v m ->
  i = Plain (code ("Assign" +:+ size_name (sizeof c))) [by_address pl; by_value pl1] \/
  i = Plain (code ("Deref" +:+ size_name (sizeof c))) [by_address pl; by_address pl1] ->
  exists m', steps (Ins i :: rest) m rest m' /\ same_but (local_area pl.2) m m' /\ holds_value pl v m'.
Proof.
  intros Hc Hin Et Hin1 Et1 Ha Hv Hi. pose proof (local_size_of _ _ _ Hin Et Hc) as Es. pose proof (local_size_of _ _ _ Hin1 Et1 Hc) as Es1.
  destruct (write_place pl c v m Hin Es Ha) as (m' & Ew & Hs & Hl).
  assert (wrapu (bits c) v = v) as Ev.
  { apply wrapu_small. apply (holds_load pl1 c v m Es1 Hv). }
  rewrite Ev in Hl. exists m'. split; [|done]. destruct Hi as [->| ->].
  - destruct (assign_handler t c Hc) as (Hh & name & f & Ehandler & Hf). apply steps_plain; [done|]. unfold exec_plain. rewrite Ehandler.
    cbn [h_reads h_effect mbind option_bind eval_reads eval_read P]. rewrite (read_address pl m Hin).
    rewrite (read_value pl1 (int_t true (sizeof c)) v m Hin1 Es1 Hv). cbn [mbind option_bind with2]. by rewrite Hf.
  - destruct (deref_handler t c Hc) as (Hh & name & f & Ehandler & Hf). apply steps_plain; [done|]. unfold exec_plain. rewrite Ehandler.
    cbn [h_reads h_effect mbind option_bind eval_reads eval_read P]. rewrite (read_address pl m Hin), (read_address pl1 m Hin1).
    cbn [mbind option_bind with2]. by rewrite (Hf _ _ _ v (proj1 (holds_load pl1 c v m Es1 Hv))).
Qed.

(** The address of the result is in the first local; the result is written there. *)
Lemma step_return t c pl v ra rest m : ctype_of t = Some c -> in_frame F pl -> li_type pl.2 = t -> holds_value pl v m ->
  load 8 fb m = Some ra -> 0 <= ra -> ra < 2 ^ 64 -> allocated ra (Z.of_nat (sizeof c)) m ->
  exists m', steps (Ins (Plain (code ("Assign" +:+ size_name (sizeof c))) [bitfield_ return_place; by_value pl]) :: rest) m rest m' /\
    same_but (within ra (Z.of_nat (sizeof c))) m m' /\ load (sizeof c) ra m' = Some v.
Proof.
  intros Hc Hin Et Hv Hra Hra0 Hra1 Hal. pose proof (local_size_of _ _ _ Hin Et Hc) as Es.
  assert (wrapu (bits c) v = v) as Ev.
  { apply wrapu_small. apply (holds_load pl c v m Es Hv). }
  destruct (write_run (sizeof c) ra v m Hal) as (m' & Ew & Hs & Hl). fold (bits c) in Hl. rewrite Ev in Hl. exists m'. split; [|done].
  destruct (assign_handler t c Hc) as (Hh & name & f & Ehandler & Hf). apply steps_plain; [done|]. unfold exec_plain. rewrite Ehandler.
  cbn [h_reads h_effect mbind option_bind eval_reads eval_read P].
  assert (LocalAt the_frame uint64 (bitfield_ return_place) m = Some ra) as ->.
  { unfold LocalAt. rewrite Decode_Encode. change (GetAddressMode return_place) with Value. rewrite decide_True by done. unfold PtrToLocalAt.
    change (GetOffset return_place) with 0. cbn [the_frame frame_data_ sizeof uint64]. by rewrite Z.add_0_r. }
  rewrite (read_value pl (int_t true (sizeof c)) v m Hin Es Hv). cbn [mbind option_bind with2]. by rewrite Hf.
Qed.
Lemma run_return rest m fuel : run module p the_frame (S fuel) (Ins (Plain (code "Return") []) :: rest) m = Ok m.
Proof. cbn [run strip_labels]. by rewrite Z.eqb_refl. Qed.

End frame.

(** * Calls between functions of the core: the frame of the callee, the values of its parameters, and what a function promises its callers *)

(** Frames come from memory that is not in use, as long as less than a limit is. *)
Class FrameAllocatorSpec `{FrameAllocator} := {
  memory_limit : Z;
  frame_fresh m n : 0 <= n -> Z.of_nat (size m) + n <= memory_limit ->
    0 <= frame_address m n /\ frame_address m n + n <= 2 ^ 63 /\ unallocated (frame_address m n) n m
}.

(** * What a function promises *)

Definition first_param (t : TplType) : nat := if IsNilType t then 0 else 1.

Record entered (F : FunctionInfo TplType) (t : TplType) (fb ra : Z) (vs : list Z) (m : memory) : Prop := {
  entered_frame : allocated fb (frame_size_ F) m;
  entered_return : IsNilType t = false -> load 8 fb m = Some ra;
  entered_params i v : vs !! i = Some v -> exists l, locals_ F !! (first_param t + i)%nat = Some l /\
    holds_value fb ((first_param t + i)%nat, l) v m
}.

Section calls.
Context `{Runtime} `{FrameAllocatorSpec} `{AlignOpsSpec} `{CppClassesSpec}.
Context (module : BytecodeModule TplType).

Definition return_area (t : TplType) (ra x : Z) : Prop := IsNilType t = false /\ within ra (GetSize t) x.
(** There is room for a result behind [ra], which is not in the frame. *)
Record return_ok (F : FunctionInfo TplType) (t : TplType) (fb ra : Z) (m : memory) : Prop := {
  return_address : 0 <= ra < 2 ^ 64;
  return_allocated : allocated ra (GetSize t) m;
  return_outside x : within ra (GetSize t) x -> ~ within fb (frame_size_ F) x
}.
Definition result_stored (t : TplType) (ra : Z) (r : option Z) (m : memory) : Prop :=
  match r with
  | Some v => IsNilType t = false /\ load (Z.to_nat (GetSize t)) ra m = Some v /\ is_uint (8 * GetSize t) v
  | None => IsNilType t = true
  end.

(** With [need] bytes left, the code of the function computes [r] from [vs]. *)
Definition implements (need : Z) (F : FunctionInfo TplType) (t : TplType) (vs : list Z) (r : option Z) : Prop := forall fb ra m,
  0 <= fb -> fb + frame_size_ F <= 2 ^ 63 -> entered F t fb ra vs m -> (IsNilType t = false -> return_ok F t fb ra m) ->
  Z.of_nat (size m) + need <= memory_limit ->
  exists k m', (forall fuel, (k <= fuel)%nat -> Interpret module fuel (AccessBytecodeForFunctionRaw F) (the_frame F fb) m = Ok m') /\
    same_but (fun x => within fb (frame_size_ F) x \/ return_area t ra x) m m' /\ result_stored t ra r m'.

Record callee (bound : Z) (F : FunctionInfo TplType) (params : list TplType) (t : TplType) : Prop := {
  callee_fine : frame_fine F;
  callee_size : frame_size_ F <= bound;
  callee_params i ty : params !! i = Some ty -> exists l, locals_ F !! (first_param t + i)%nat = Some l /\ li_type l = ty;
  callee_return : IsNilType t = false -> exists l, locals_ F !! 0%nat = Some l /\ li_offset l = 0 /\ li_size l = 8
}.

(** What the calls of a reference program are, the functions of the module compute. *)
Definition calls_ok (Σ : signatures) (ids : gmap string Z) (call : calls) (bound need : Z) : Prop := forall name params t id vs r,
  Σ !! name = Some (params, t) -> ids !! name = Some id -> length vs = length params -> call name vs = Ok r ->
  exists F, GetFuncInfoById module (wrapu 16 id) = Some F /\ callee bound F params t /\ implements need F t vs r.

(** * Passing values *)

Section caller.
Context (F : FunctionInfo TplType) (Hfine : frame_fine F) (fb : Z) (Hfb : 0 <= fb /\ fb + frame_size_ F <= 2 ^ 63).
Context (G : FunctionInfo TplType) (HfineG : frame_fine G) (raw : Z).
Context (Happart : forall x, within fb (frame_size_ F) x -> ~ within raw (frame_size_ G) x).

Definition params_area (k : nat) (x : Z) : Prop := exists j l, (k <= j)%nat /\ locals_ G !! j = Some l /\ local_area raw l x.

Lemma params_area_within k x : params_area k x -> within raw (frame_size_ G) x.
Proof.
  intros (j & l & _ & Hj & Hx). destruct (local_bounds G HfineG (j, l) Hj) as (? & ? & ?). unfold local_area, within, addr in *. cbn [snd] in *. lia.
Qed.
Lemma holds_apart pl v m m' : in_frame F pl -> same_but (within raw (frame_size_ G)) m m' -> holds_value fb pl v m -> holds_value fb pl v m'.
Proof.
  intros Hin Hs [Hv Hr]. split; [|done]. rewrite <- Hv. destruct (local_bounds F Hfine pl Hin) as (? & ? & ?). apply same_on_load. rewrite Z2Nat.id by done.
  eapply same_but_on; [exact Hs|]. intros x Hx. apply Happart. unfold within, addr in *. lia.
Qed.

Lemma pass_values pls : forall vs k m, Forall2 (fun pl v => in_frame F pl /\ holds_value fb pl v m) pls vs ->
  (forall i pl, pls !! i = Some pl -> exists l, locals_ G !! (k + i)%nat = Some l /\ li_size l = li_size pl.2) ->
  allocated raw (frame_size_ G) m ->
  exists m', pass_args (drop k (locals_ G)) (map by_value pls) raw (the_frame F fb) m = Some m' /\ same_but (params_area k) m m' /\
    forall i v, vs !! i = Some v -> exists l, locals_ G !! (k + i)%nat = Some l /\ holds_value raw ((k + i)%nat, l) v m'.
Proof.
  induction pls as [|pl pls IH]; intros vs k m Hvs Hls Ha.
  - inversion Hvs; subst. exists m. split; [done|]. split; [apply same_but_refl|done].
  - inversion Hvs as [|? v ? vs' [Hin Hv] Hvs']; subst. destruct (Hls 0%nat pl eq_refl) as (l & Hl & Es). rewrite Nat.add_0_r in Hl.
    destruct (local_bounds G HfineG (k, l) Hl) as (Hl1 & Hl2 & Hl3). cbn [snd] in *.
    destruct (offset_value F Hfine pl Hin) as [Eo Em].
    assert (PtrToLocalAt (the_frame F fb) (value_ref pl.2) = addr fb pl.2) as Eptr by (unfold PtrToLocalAt; by rewrite Eo).
    destruct Hv as [Hv Hrange]. destruct (copy_run (Z.to_nat (li_size l)) (raw + li_offset l) (addr fb pl.2) m v) as (m1 & Ec & Hs1 & Hl4).
    { rewrite Z2Nat.id by done. intros x Hx. apply Ha. lia. }
    { by rewrite Es. }
    rewrite Z2Nat.id in Hs1 by done.
    assert (same_but (within raw (frame_size_ G)) m m1) as Hs1' by (eapply same_but_weaken; [exact Hs1|]; unfold within; lia).
    destruct (IH vs' (S k) m1) as (m2 & Ep & Hs2 & Hall).
    { eapply Forall2_impl; [exact Hvs'|]. intros pl' v' [Hin' Hv']. split; [done|]. by eapply holds_apart. }
    { intros i pl' Hi. destruct (Hls (S i) pl' Hi) as (l' & Hl' & Es'). exists l'. by rewrite Nat.add_succ_comm. }
    { by eapply same_but_allocated. }
    exists m2. split; [|split].
    + rewrite (drop_S _ _ _ Hl). cbn [map pass_args]. rewrite (decode_value pl), Em. rewrite decide_False by done. rewrite Eptr, Ec. exact Ep.
    + eapply same_but_trans; [eapply same_but_weaken; [exact Hs1|]|eapply same_but_weaken; [exact Hs2|]].
      * intros x Hx. exists k, l. done.
      * intros x (j & l' & Hj & Hx). exists j, l'. split; [lia|done].
    + intros [|i] v'; cbn [lookup list_lookup].
      * intros [= <-]. exists l. rewrite Nat.add_0_r. split; [done|]. split; cbn [snd]; [|by rewrite Es]. rewrite <- Hl4. apply same_on_load.
        rewrite Z2Nat.id by done. eapply same_but_on; [exact Hs2|]. intros x Hx (j & l' & Hj & Hjl & Hx').
        refine (local_disjoint G HfineG raw k j l l' Hl Hjl _ x Hx Hx'). lia.
      * intros Hi. destruct (Hall i v' Hi) as (l' & Hl' & Hh). rewrite <- Nat.add_succ_comm. exists l'. done.
Qed.

(** The address of the place of the result, and the values. *)
Lemma pass_result pl pls vs m : in_frame F pl ->
  Forall2 (fun pl v => in_frame F pl /\ holds_value fb pl v m) pls vs ->
  (exists l, locals_ G !! 0%nat = Some l /\ li_offset l = 0 /\ li_size l = 8) ->
  (forall i pl, pls !! i = Some pl -> exists l, locals_ G !! (1 + i)%nat = Some l /\ li_size l = li_size pl.2) ->
  allocated raw (frame_size_ G) m ->
  exists m', pass_args (locals_ G) (by_address pl :: map by_value pls) raw (the_frame F fb) m = Some m' /\ same_but (within raw (frame_size_ G)) m m' /\
    load 8 raw m' = Some (addr fb pl.2) /\
    forall i v, vs !! i = Some v -> exists l, locals_ G !! (1 + i)%nat = Some l /\ holds_value raw ((1 + i)%nat, l) v m'.
Proof.
  intros Hin Hvs (l & Hl & Eo & Es) Hls Ha. destruct (local_bounds G HfineG (0%nat, l) Hl) as (_ & _ & Hl3). cbn [snd] in Hl3. rewrite Eo, Es in Hl3.
  destruct (offset_address F Hfine pl Hin) as [Ep Em]. destruct (local_bounds F Hfine pl Hin) as (? & ? & ?).
  assert (PtrToLocalAt (the_frame F fb) (local_ref pl.2) = addr fb pl.2) as Eptr by (unfold PtrToLocalAt; by rewrite Ep).
  destruct (write_run 8 raw (addr fb pl.2) m) as (m1 & Ew & Hs1 & Hl1); [intros x Hx; apply Ha; lia|].
  assert (same_but (within raw (frame_size_ G)) m m1) as Hs1' by (eapply same_but_weaken; [exact Hs1|]; unfold within; lia).
  destruct (pass_values pls vs 1 m1) as (m2 & Epa & Hs2 & Hall).
  { eapply Forall2_impl; [exact Hvs|]. intros pl' v' [Hin' Hv']. split; [done|]. by eapply holds_apart. }
  { exact Hls. }
  { by eapply same_but_allocated. }
  exists m2. split; [|split; [|split; [|exact Hall]]].
  - destruct (locals_ G) as [|l0 ls] eqn:EG; [done|]. injection Hl as ->. cbn [pass_args]. rewrite decode_address, Em. rewrite decide_True by done.
    rewrite Es, Eptr, Eo, Z.add_0_r. change (8 <=? 8) with true. cbv iota. rewrite take_ge by (rewrite length_le_encode; lia).
    unfold write in Ew. rewrite Ew. cbn [mbind option_bind]. exact Epa.
  - eapply same_but_trans; [exact Hs1'|]. eapply same_but_weaken; [exact Hs2|]. apply params_area_within.
  - assert (load 8 raw m2 = load 8 raw m1) as ->.
    { apply same_on_load. eapply same_but_on; [exact Hs2|]. intros x Hx (j & l' & Hj & Hjl & Hx').
      refine (local_disjoint G HfineG raw 0 j l l' Hl Hjl _ x _ Hx'); [lia|]. unfold local_area, addr. by rewrite Eo, Es, Z.add_0_r. }
    rewrite Hl1. f_equal. apply wrapu_small. change (8 * Z.of_nat 8) with 64. unfold addr, is_uint. lia.
Qed.

End caller.
End calls.
