(* ===== verification/GeneratorRuns.v ===== *)
(** The code of an expression computes the value of the expression. *)
From stdpp Require Import pretty.
From S2P Require Import Prelude BitUtil Buffer Token Ast Layout Types TypesSpec TypedAst Bytecodes FunctionInfo FunctionInfoSpec BytecodeEmitter BytecodeSpec CTypes Memory VmHandlers VM VmSpec GeneratorState BytecodeGenerator GeneratorSpec GeneratorWellFormed TplSemantics TplCore GeneratorCode GeneratorTranslates GeneratorMachine.

Lemma eval_call call ρ func args t : eval call ρ (TCallExpression Regular func args t) =
  (vs ← evals call ρ args; match callee_name func with Some name => r ← call name vs; lift r | None => Undefined end).
Proof.
  cbn [eval]. assert (forall args, (fix evals args := match args with
                              | [] => Ok []
                              | e :: args' => v ← eval call ρ e; vs ← evals args'; Ok (v :: vs)
                              end) args = evals call ρ args) as ->; [|done].
  clear. induction args as [|e args IH]; [done|]. cbn [evals]. destruct (eval call ρ e); [|done..]. cbn [mbind result_bind rbind]. by rewrite <- IH.
Qed.

Lemma rbind_Ok {A B} (r : result A) (f : A -> result B) b : (a ← r; f a) = Ok b -> exists a, r = Ok a /\ f a = Ok b.
Proof. destruct r; [eauto|done..]. Qed.
Lemma lift_Ok {A} (o : option A) a : lift o = Ok a -> o = Some a.
Proof. destruct o; [by intros [= ->]|done]. Qed.
Lemma typed_value_Ok t c v x : ctype_of t = Some c -> typed_value (Some t) v = Ok x -> exists z, v c = Some z /\ x = wrapu (bits c) z.
Proof. intros Hc. unfold typed_value. cbn [mbind option_bind]. rewrite Hc. intros (z & Hz%lift_Ok & [= <-])%rbind_Ok. by exists z. Qed.

Lemma suffix_right {A} (l1 l2 p : list A) : l1 ++ l2 `suffix_of` p -> l2 `suffix_of` p.
Proof. intros [k ->]. exists (k ++ l1). by rewrite app_assoc. Qed.

Section runs.
Context `{Runtime} `{FrameAllocatorSpec} `{AlignOpsSpec} `{CppClassesSpec}.
Context (module : BytecodeModule TplType) (p : list item) (Hlabels : NoDup (labels_of p)).
Context (F : FunctionInfo TplType) (Hfine : frame_fine F).
Context (fb : Z) (Hfb : 0 <= fb /\ fb + frame_size_ F <= 2 ^ 63).
Context (Σ : signatures) (ids : gmap string Z) (call : calls) (bound need : Z) (Hneed : 0 <= need) (Hcalls : calls_ok module Σ ids call bound need).

Definition room (m : memory) : Prop := Z.of_nat (size m) + bound + need <= memory_limit.
Lemma room_same P m m' : same_but P m m' -> room m -> room m'.
Proof. intros Hs. unfold room. by rewrite (same_but_size _ _ _ Hs). Qed.

(** ** Calls *)

(** From the arguments in the new frame to the end of the call. *)
Lemma exec_callee id args t vs r ra m m2 G : GetFuncInfoById module (wrapu 16 id) = Some G -> frame_fine G -> frame_size_ G <= bound ->
  implements module need G t vs r -> room m ->
  let raw := frame_address m (frame_size_ G) in
  pass_args (locals_ G) args raw (the_frame F fb) (allocate garbage raw (frame_size_ G) m) = Some m2 ->
  same_but (within raw (frame_size_ G)) (allocate garbage raw (frame_size_ G) m) m2 -> entered G t raw ra vs m2 ->
  (IsNilType t = false -> 0 <= ra < 2 ^ 64 /\ allocated ra (GetSize t) m) ->
  exists k m', (forall fuel, (k <= fuel)%nat -> exec_call module (Interpret module fuel) (wrapu 16 id) args (the_frame F fb) m = Ok m') /\
    same_but (return_area t ra) m m' /\ result_stored t ra r m'.
Proof.
  intros Hid HG Hsz Hi Hroom raw Hp Hs He Hra. pose proof (fine_size _ HG) as [HG0 _]. unfold room in Hroom.
  destruct (frame_fresh m (frame_size_ G)) as (Hraw0 & Hraw1 & Hun); [done|lia|]. fold raw in Hraw0, Hraw1, Hun.
  assert (forall x, within ra (GetSize t) x -> IsNilType t = false -> ~ within raw (frame_size_ G) x) as Hout.
  { intros x Hx Hn Hx'. destruct (Hra Hn) as [_ Hal]. destruct (Hal x Hx) as [b Hb]. by rewrite (Hun x Hx') in Hb. }
  destruct (Hi raw ra m2 Hraw0 Hraw1 He) as (k & m3 & Hk & Hs3 & Hr).
  { intros Hn. destruct (Hra Hn) as [Hra1 Hal]. constructor; [done| |by intros x Hx; apply Hout].
    intros x Hx. apply (same_allocated _ _ _ Hs). rewrite allocate_other by (by apply Hout). by apply Hal. }
  { rewrite (same_but_size _ _ _ Hs). pose proof (allocate_size garbage raw (frame_size_ G) m HG0). lia. }
  exists k, (deallocate raw (frame_size_ G) m3). split; [|split].
  - intros fuel Hf. unfold exec_call. rewrite Hid. cbn [lift mbind result_bind rbind]. fold raw. rewrite Hp. cbn [lift mbind result_bind rbind].
    specialize (Hk fuel Hf). unfold the_frame in Hk. by rewrite Hk.
  - eapply deallocate_same; [done|]. eapply same_but_trans; [eapply same_but_weaken; [exact Hs|by left]|]. exact Hs3.
  - unfold result_stored in *. destruct r as [v|]; [|done]. destruct Hr as (Hn & Hl & Hrange). split; [done|]. split; [|done].
    rewrite <- Hl. apply same_on_load. intros x Hx. rewrite deallocate_lookup, bool_decide_false; [done|].
    apply Hout; [|done]. unfold within. pose proof (GetSize_range t). lia.
Qed.

Lemma map_type pls params : Forall2 (fun (pl : place) ty => li_type pl.2 = ty) pls params -> forall i (pl : place), pls !! i = Some pl -> params !! i = Some (li_type pl.2).
Proof. intros Hf i pl Hi. destruct (Forall2_lookup_l _ _ _ _ _ Hf Hi) as (ty & Hty & ->). done. Qed.

(** The frame of a callee. *)
Lemma callee_apart m (G : FunctionInfo TplType) : alive F fb m -> frame_size_ G <= bound -> 0 <= frame_size_ G -> room m ->
  forall x, within fb (frame_size_ F) x -> ~ within (frame_address m (frame_size_ G)) (frame_size_ G) x.
Proof.
  intros Ha Hsz HG0 Hroom x Hx Hx'. unfold room in Hroom. destruct (frame_fresh m (frame_size_ G)) as (_ & _ & Hun); [done|lia|].
  destruct (Ha x Hx) as [b Hb]. by rewrite (Hun x Hx') in Hb.
Qed.
Lemma holds_allocate m raw n pl v : in_frame F pl -> (forall x, within fb (frame_size_ F) x -> ~ within raw n x) -> holds_value fb pl v m ->
  holds_value fb pl v (allocate garbage raw n m).
Proof.
  intros Hin Hd [Hv Hr]. split; [|done]. rewrite <- Hv. destruct (local_bounds F Hfine pl Hin) as (? & ? & ?). apply same_on_load. rewrite Z2Nat.id by done.
  intros x Hx. apply allocate_other, Hd. unfold within, addr in *. lia.
Qed.

Section call.
Context (name : string) (params : list TplType) (t : TplType) (id : Z) (pls : list place) (vs : list Z) (r : option Z) (m : memory).
Context (HΣ : Σ !! name = Some (params, t)) (Hid : ids !! name = Some id) (Hr : call name vs = Ok r).
Context (Hvs : Forall2 (fun pl v => in_frame F pl /\ holds_value fb pl v m) pls vs) (Hty : Forall2 (fun (pl : place) ty => li_type pl.2 = ty) pls params).
Context (Halive : alive F fb m) (Hroom : room m).

Lemma call_callee : exists G, GetFuncInfoById module (wrapu 16 id) = Some G /\ callee bound G params t /\ implements module need G t vs r /\
  forall i pl, pls !! i = Some pl -> exists l, locals_ G !! (first_param t + i)%nat = Some l /\ li_size l = li_size pl.2.
Proof.
  destruct (Hcalls name params t id vs r HΣ Hid) as (G & HG & Hc & Hi); [|done|].
  { pose proof (Forall2_length _ _ _ Hvs). pose proof (Forall2_length _ _ _ Hty). lia. }
  exists G. split; [done|]. split; [done|]. split; [done|]. intros i pl Hpl. destruct (callee_params _ _ _ _ Hc i _ (map_type _ _ Hty i pl Hpl)) as (l & Hl & Et).
  exists l. split; [done|]. pose proof (local_size G (callee_fine _ _ _ _ Hc) (_, l) Hl) as E. cbn [snd] in E. rewrite E, Et.
  destruct (Forall2_lookup_l _ _ _ _ _ Hvs Hpl) as (v & _ & Hin & _). by rewrite (local_size F Hfine pl Hin).
Qed.

Lemma step_call_value pl rest : primitive t = true -> in_frame F pl -> li_type pl.2 = t -> exists v m', r = Some v /\
  steps module p F fb (Ins (CallI (wrapu 16 id) (by_address pl :: map by_value pls)) :: rest) m rest m' /\ same_but (local_area fb pl.2) m m' /\ holds_value fb pl v m'.
Proof.
  intros Ht Hin Et. destruct call_callee as (G & HG & Hc & Hi & Hls). pose proof (callee_fine _ _ _ _ Hc) as HfG. pose proof (callee_size _ _ _ _ Hc) as Hsz.
  pose proof (fine_size _ HfG) as [HG0 _]. assert (IsNilType t = false) as Hnil by (destruct t as [k| | | | | |]; try done; by destruct k).
  assert (first_param t = 1%nat) as Efp by (unfold first_param; by rewrite Hnil). rewrite Efp in Hls.
  pose proof (callee_apart m G Halive Hsz HG0 Hroom) as Hd. set (raw := frame_address m (frame_size_ G)) in *.
  destruct (pass_result F Hfine fb Hfb G HfG raw Hd pl pls vs (allocate garbage raw (frame_size_ G) m)) as (m2 & Ep & Hs & Hra & Hps).
  { done. } { eapply Forall2_impl; [exact Hvs|]. intros pl' v' [? ?]. split; [done|]. by apply holds_allocate. }
  { exact (callee_return _ _ _ _ Hc Hnil). } { exact Hls. } { apply allocate_allocated. }
  destruct (local_bounds F Hfine pl Hin) as (Hb1 & Hb2 & Hb3). pose proof (local_size F Hfine pl Hin) as Esz. rewrite Et in Esz.
  assert (alive F fb m) as Hal by done.
  destruct (exec_callee id (by_address pl :: map by_value pls) t vs r (addr fb pl.2) m m2 G HG HfG Hsz Hi Hroom Ep Hs) as (k & m' & Hk & Hs' & Hres).
  { constructor; [by eapply same_but_allocated, allocate_allocated|done|]. rewrite Efp. exact Hps. }
  { intros _. split; [unfold addr; lia|]. rewrite <- Esz. by apply (alive_local F Hfine fb). }
  unfold result_stored in Hres. destruct r as [v|]; [|by rewrite Hnil in Hres]. exists v, m'. split; [done|]. split; [by eapply steps_call|].
  split; [|rewrite <- Esz in Hres; by split; apply Hres]. eapply same_but_weaken; [exact Hs'|]. intros x [_ Hx]. rewrite <- Esz in Hx. exact Hx.
Qed.

Lemma step_call_only rest : IsNilType t = true -> exists m', r = None /\
  steps module p F fb (Ins (CallI (wrapu 16 id) (map by_value pls)) :: rest) m rest m' /\ same_but (fun _ => False) m m'.
Proof.
  intros Hnil. destruct call_callee as (G & HG & Hc & Hi & Hls). pose proof (callee_fine _ _ _ _ Hc) as HfG. pose proof (callee_size _ _ _ _ Hc) as Hsz.
  pose proof (fine_size _ HfG) as [HG0 _].
  assert (first_param t = 0%nat) as Efp by (unfold first_param; by rewrite Hnil). rewrite Efp in Hls.
  pose proof (callee_apart m G Halive Hsz HG0 Hroom) as Hd. set (raw := frame_address m (frame_size_ G)) in *.
  destruct (pass_values F Hfine fb G HfG raw Hd pls vs 0 (allocate garbage raw (frame_size_ G) m)) as (m2 & Ep & Hs & Hps).
  { eapply Forall2_impl; [exact Hvs|]. intros pl' v' [? ?]. split; [done|]. by apply holds_allocate. }
  { exact Hls. } { apply allocate_allocated. } rewrite drop_0 in Ep.
  assert (same_but (within raw (frame_size_ G)) (allocate garbage raw (frame_size_ G) m) m2) as Hs'.
  { eapply same_but_weaken; [exact Hs|]. by apply params_area_within. }
  destruct (exec_callee id (map by_value pls) t vs r 0 m m2 G HG HfG Hsz Hi Hroom Ep Hs') as (k & m' & Hk & Hs2 & Hres).
  { constructor; [by eapply same_but_allocated, allocate_allocated|by rewrite Hnil|]. rewrite Efp. exact Hps. }
  { by rewrite Hnil. }
  unfold result_stored in Hres. destruct r as [v|]; [by rewrite Hnil in Hres; destruct Hres|]. exists m'. split; [done|]. split; [by eapply steps_call|].
  eapply same_but_weaken; [exact Hs2|]. intros x [Hx _]. congruence.
Qed.

End call.

(** ** Expressions *)

Definition computes f d e q pl f' : Prop := forall ρ v m rest, extends f' F -> eval call ρ e = Ok v -> agrees F fb (fun x => mentions x e = true) ρ m ->
  alive F fb m -> room m -> q ++ rest `suffix_of` p ->
  exists m', steps module p F fb (q ++ rest) m rest m' /\ holds_value fb pl v m' /\ keeps F fb f d m m'.
Definition computes_all f args q pls f' : Prop := forall ρ vs m rest, extends f' F -> evals call ρ args = Ok vs ->
  agrees F fb (fun x => existsb (mentions x) args = true) ρ m -> alive F fb m -> room m -> q ++ rest `suffix_of` p ->
  exists m', steps module p F fb (q ++ rest) m rest m' /\ Forall2 (fun pl v => in_frame F pl /\ holds_value fb pl v m') pls vs /\ keeps F fb f None m m'.

Lemma arguments_typed f args pls params : Forall2 (at_place f None) args pls -> map GetType args = map Some params ->
  Forall2 (fun (pl : place) ty => li_type pl.2 = ty) pls params.
Proof.
  intros Hf. revert params. induction Hf as [|e pl args pls [_ Et _] _ IH]; intros [|ty params]; try done.
  cbn [map]. intros [= E1 E2]. constructor; [congruence|by apply IH].
Qed.

Ltac mentioned := intros z; cbv beta; cbn [mentions existsb]; intros ->; by rewrite ?orb_true_r.

(** Two operands, one after the other. *)
Lemma both_compute f1 l q1 pl1 f2 r q2 pl2 f3 ρ x y m rest : expr_code Σ ids f1 None l q1 pl1 f2 -> expr_code Σ ids f2 None r q2 pl2 f3 ->
  computes f1 None l q1 pl1 f2 -> computes f2 None r q2 pl2 f3 -> extends f3 F -> eval call ρ l = Ok x -> eval call ρ r = Ok y ->
  agrees F fb (fun x => mentions x l || mentions x r = true) ρ m -> alive F fb m -> room m -> q1 ++ q2 ++ rest `suffix_of` p ->
  exists m', steps module p F fb (q1 ++ q2 ++ rest) m rest m' /\ holds_value fb pl1 x m' /\ holds_value fb pl2 y m' /\ keeps F fb f1 None m m'.
Proof.
  intros Hc1 Hc2 IH1 IH2 Hf Hx Hy Ha Hal Hroom Hsuf.
  destruct (expr_code_at _ _ _ _ _ _ _ _ Hc1) as [Hf1 [Hin1 _ _]]. destruct (expr_code_at _ _ _ _ _ _ _ _ Hc2) as [Hf2 _].
  assert (extends f2 F) as Hf2F by (by etrans).
  destruct (IH1 ρ x m (q2 ++ rest) Hf2F Hx) as (m1 & Hs1 & Hh1 & Hk1); [|done..|].
  { eapply agrees_weaken; [exact Ha|]. mentioned. }
  destruct (IH2 ρ y m1 rest Hf Hy) as (m2 & Hs2 & Hh2 & Hk2).
  { eapply agrees_weaken; [by eapply agrees_keeps|]. mentioned. }
  { by eapply keeps_alive. } { eapply room_same; [apply Hk1|done]. } { by eapply suffix_right. }
  exists m2. split; [by eapply steps_trans|]. split; [|split; [done|by eapply keeps_trans]].
  eapply keeps_value; [done|exact Hk2|by eapply in_frame_extends|left; by apply in_frame_index|done|done].
Qed.

Lemma code_computes :
  (forall f d e q pl f', expr_code Σ ids f d e q pl f' -> computes f d e q pl f') /\
  (forall f args q pls f', args_code Σ ids f args q pls f' -> computes_all f args q pls f').
Proof.
  apply expr_code_ind2.
  - intros f pos name t pl Hn Hpl Et ρ v m rest Hf Hv Ha Hal Hroom _. cbn [eval] in Hv. apply lift_Ok in Hv.
    destruct (Ha (string_of name) v) as (_ & pl' & Hpl' & Hh); [by apply String.eqb_refl|done|].
    rewrite (lookup_place_extend _ _ _ _ Hf Hpl) in Hpl'. injection Hpl' as <-. exists m. split; [apply steps_refl|]. split; [done|apply keeps_refl].
  - intros f pos name t c pl d i Hn Hpl Et Hc Hin Etd Hi ρ v m rest Hf Hv Ha Hal Hroom _. cbn [eval] in Hv. apply lift_Ok in Hv.
    destruct (Ha (string_of name) v) as (_ & pl' & Hpl' & Hh); [by apply String.eqb_refl|done|].
    rewrite (lookup_place_extend _ _ _ _ Hf Hpl) in Hpl'. injection Hpl' as <-.
    destruct (lookup_place_in _ _ _ Hpl) as [Hinp _]. apply (in_frame_extends _ _ _ Hf) in Hinp. pose proof (in_frame_extends _ _ _ Hf Hin) as HinF.
    destruct (step_copy module p F Hfine fb Hfb t c d pl v i rest m Hc HinF Etd Hinp Et Hal Hh Hi) as (m' & Hs & Hsb & Hh').
    exists m'. split; [done|]. split; [done|]. refine (dest_keeps F Hfine fb f t (Some d) d f m m' _ Hf Hsb). by constructor.
  - intros f d pos lit t c pl f' b z Hd Hc Hl ρ v m rest Hf Hv Ha Hal Hroom _. cbn [eval] in Hv.
    destruct (dest_place_extends _ _ _ _ _ Hd) as (_ & Hin & Et & _). apply (in_frame_extends _ _ _ Hf) in Hin.
    destruct (step_literal module p F Hfine fb Hfb lit t c b z pl rest m Hc Hl Hin Et Hal) as (x & m' & Hx & Hs & Hsb & Hh).
    apply (typed_value_Ok t c _ _ Hc) in Hv as (z' & Hz & ->). rewrite Hx in Hz. injection Hz as <-.
    exists m'. split; [done|]. split; [done|]. by eapply dest_keeps.
  - intros f d pos op e t c q pl pl1 f1 f2 b Hd Hcode IH Ete Hc Hb ρ v m rest Hf Hv Ha Hal Hroom Hsuf. cbn [eval] in Hv.
    apply rbind_Ok in Hv as (x & Hx & Hv). apply (typed_value_Ok t c _ _ Hc) in Hv as (z & Hz & ->).
    destruct (expr_code_at _ _ _ _ _ _ _ _ Hcode) as [Hf1 [Hin1 Et1 _]]. rewrite Ete in Et1. injection Et1 as Et1.
    destruct (dest_place_extends _ _ _ _ _ Hd) as (Hf0 & Hin & Et & _). assert (extends f1 F) as Hf1F by (by etrans).
    apply (in_frame_extends _ _ _ Hf1F) in Hin. apply (in_frame_extends _ _ _ Hf) in Hin1. rewrite <- app_assoc in Hsuf |- *.
    destruct (IH ρ x m ([Ins (Plain b [by_address pl; by_value pl1])] ++ rest) Hf Hx Ha Hal Hroom Hsuf) as (m1 & Hs1 & Hh1 & Hk1).
    destruct (step_unary module p F Hfine fb Hfb op t c b pl pl1 x z rest m1 Hc Hb Hin Et Hin1 (eq_sym Et1) (keeps_alive _ _ _ _ _ _ Hk1 Hal) Hh1 Hz) as (m2 & Hs2 & Hsb & Hh2).
    exists m2. split; [by eapply steps_trans|]. split; [done|]. eapply keeps_trans; [eapply keeps_earlier; [exact Hf0|by apply keeps_more]|by eapply dest_keeps|done].
  - intros f d pos op l r t c q1 q2 pl pl1 pl2 f1 f2 f3 b Hd Hc1 IH1 Hc2 IH2 El Er Hc Hb ρ v m rest Hf Hv Ha Hal Hroom Hsuf.
    assert (exists x y z, eval call ρ l = Ok x /\ eval call ρ r = Ok y /\ arith_value op c x y = Some z /\ v = wrapu (bits c) z) as (x & y & z & Hx & Hy & Hz & ->).
    { cbn [eval] in Hv. assert ((x ← eval call ρ l; y ← eval call ρ r; typed_value (Some t) (fun c => arith_value op c x y)) = Ok v) as Hv' by (destruct op; try exact Hv; by destruct c).
      apply rbind_Ok in Hv' as (x & Hx & Hv'). apply rbind_Ok in Hv' as (y & Hy & Hv'). apply (typed_value_Ok t c _ _ Hc) in Hv' as (z & Hz & ->). by exists x, y, z. }
    destruct (expr_code_at _ _ _ _ _ _ _ _ Hc1) as [Hf1 [Hin1 Et1 _]]. rewrite El in Et1. injection Et1 as Et1.
    destruct (expr_code_at _ _ _ _ _ _ _ _ Hc2) as [Hf2 [Hin2 Et2 _]]. rewrite Er in Et2. injection Et2 as Et2.
    destruct (dest_place_extends _ _ _ _ _ Hd) as (Hf0 & Hin & Et & _). assert (extends f2 F) as Hf2F by (by etrans). assert (extends f1 F) as Hf1F by (by etrans).
    apply (in_frame_extends _ _ _ Hf1F) in Hin. apply (in_frame_extends _ _ _ Hf2F) in Hin1. apply (in_frame_extends _ _ _ Hf) in Hin2.
    rewrite <- !app_assoc in Hsuf |- *.
    destruct (both_compute _ _ _ _ _ _ _ _ _ ρ x y m ([Ins (Plain b [by_address pl; by_value pl1; by_value pl2])] ++ rest) Hc1 Hc2 IH1 IH2 Hf Hx Hy Ha Hal Hroom Hsuf)
      as (m1 & Hs1 & Hh1 & Hh2 & Hk1).
    destruct (step_arith module p F Hfine fb Hfb op t c b pl pl1 pl2 x y z rest m1 Hc Hb Hin Et Hin1 (eq_sym Et1) Hin2 (eq_sym Et2) (keeps_alive _ _ _ _ _ _ Hk1 Hal) Hh1 Hh2 Hz)
      as (m2 & Hs2 & Hsb & Hh3).
    exists m2. split; [by eapply steps_trans|]. split; [done|]. eapply keeps_trans; [eapply keeps_earlier; [exact Hf0|by apply keeps_more]|by eapply dest_keeps|done].
  - intros f d pos op l r t c q1 q2 pl pl1 pl2 f1 f2 f3 b Hd Hc1 IH1 Hc2 IH2 El Er Hc Hb ρ v m rest Hf Hv Ha Hal Hroom Hsuf.
    cbn [eval] in Hv. apply rbind_Ok in Hv as (x & Hx & Hv). apply rbind_Ok in Hv as (y & Hy & Hv). rewrite El in Hv. cbn [mbind option_bind] in Hv. rewrite Hc in Hv.
    apply (typed_value_Ok (BuiltinType Bool) bool_t (fun _ => compare_value op c x y) v eq_refl) in Hv as (z & Hz & ->).
    destruct (expr_code_at _ _ _ _ _ _ _ _ Hc1) as [Hf1 [Hin1 Et1 _]]. rewrite El in Et1. injection Et1 as Et1.
    destruct (expr_code_at _ _ _ _ _ _ _ _ Hc2) as [Hf2 [Hin2 Et2 _]]. rewrite Er in Et2. injection Et2 as Et2.
    destruct (dest_place_extends _ _ _ _ _ Hd) as (Hf0 & Hin & Et & _). assert (extends f2 F) as Hf2F by (by etrans). assert (extends f1 F) as Hf1F by (by etrans).
    apply (in_frame_extends _ _ _ Hf1F) in Hin. apply (in_frame_extends _ _ _ Hf2F) in Hin1. apply (in_frame_extends _ _ _ Hf) in Hin2.
    rewrite <- !app_assoc in Hsuf |- *.
    destruct (both_compute _ _ _ _ _ _ _ _ _ ρ x y m ([Ins (Plain b [by_address pl; by_value pl1; by_value pl2])] ++ rest) Hc1 Hc2 IH1 IH2 Hf Hx Hy Ha Hal Hroom Hsuf)
      as (m1 & Hs1 & Hh1 & Hh2 & Hk1).
    destruct (step_compare module p F Hfine fb Hfb op t c b pl pl1 pl2 x y z rest m1 Hc Hb Hin Et Hin1 (eq_sym Et1) Hin2 (eq_sym Et2) (keeps_alive _ _ _ _ _ _ Hk1 Hal) Hh1 Hh2 Hz)
      as (m2 & Hs2 & Hsb & Hh3).
    exists m2. split; [by eapply steps_trans|]. split; [done|]. eapply keeps_trans; [eapply keeps_earlier; [exact Hf0|by apply keeps_more]|by eapply dest_keeps|done].
  - intros f d pos op l r q1 q2 pl f1 f2 f3 b lab Hd Hc1 IH1 Hc2 IH2 El Er Hmen Hjump ρ v m rest Hf Hv Ha Hal Hroom Hsuf.
    assert (exists x taken, eval call ρ l = Ok x /\ (if (taken : bool) then v = x else eval call ρ r = Ok v) /\
      ((b, taken) = ("JumpIfFalse"%string, x =? 0) \/ (b, taken) = ("JumpIfTrue"%string, negb (x =? 0)))) as (x & taken & Hx & Hv' & Hb).
    { destruct op; try done; injection Hjump as <-; cbn [eval] in Hv; apply rbind_Ok in Hv as (x & Hx & Hv).
      - exists x, (negb (x =? 0)). split; [done|]. split; [|by right]. destruct (x =? 0); [exact Hv|by injection Hv as <-].
      - exists x, (x =? 0). split; [done|]. split; [|by left]. destruct (x =? 0); [by injection Hv as <-|exact Hv]. }
    destruct (expr_code_at _ _ _ _ _ _ _ _ Hc1) as [Hf1 _]. destruct (expr_code_at _ _ _ _ _ _ _ _ Hc2) as [Hf2 _].
    destruct (dest_place_extends _ _ _ _ _ Hd) as (Hf0 & Hin & Et & _). assert (extends f2 F) as Hf2F by (by etrans). assert (extends f1 F) as Hf1F by (by etrans).
    apply (in_frame_extends _ _ _ Hf1F) in Hin. rewrite <- !app_assoc in Hsuf |- *. cbn [app] in Hsuf |- *. rewrite <- app_assoc in Hsuf |- *. cbn [app] in Hsuf |- *.
    destruct (IH1 ρ x m (jmp_if b (value_ref pl.2) lab :: q2 ++ Lab lab :: rest) Hf2F Hx) as (m1 & Hs1 & Hh1 & Hk1); [|done..|].
    { eapply agrees_weaken; [exact Ha|]. mentioned. }
    assert (Lab lab :: rest `suffix_of` p) as Hlab.
    { eapply suffix_right. eapply (suffix_right [_]). eapply suffix_right. exact Hsuf. }
    pose proof (steps_jump_if module p Hlabels F Hfine fb b lab pl x taken (q2 ++ Lab lab :: rest) rest m1 Hin Et Hh1 Hb (fun _ => Hlab)) as Hsj.
    destruct taken.
    + subst v. exists m1. split; [by eapply steps_trans|]. split; [done|]. by eapply dest_keeps_into.
    + destruct (IH2 ρ v m1 (Lab lab :: rest) Hf Hv') as (m2 & Hs2 & Hh2 & Hk2).
      { eapply agrees_weaken; [eapply (agrees_keeps F Hfine fb (fun z => mentions z r = true)); [exact Hk1| |]|done].
        - eapply agrees_weaken; [exact Ha|]. mentioned.
        - intros ? [= <-]. split; [done|]. by rewrite Hmen. }
      { by eapply keeps_alive. } { eapply room_same; [apply Hk1|done]. } { eapply (suffix_right [_]), suffix_right. exact Hsuf. }
      exists m2. split; [eapply steps_trans; [exact Hs1|]; eapply steps_trans; [exact Hsj|]; eapply steps_trans; [exact Hs2|apply steps_label]|].
      split; [done|]. eapply dest_keeps_into; [exact Hd|done|]. by eapply keeps_trans.
  - intros f d func name args params t id q pl pls f1 f2 Hd Hc IH Hn HΣ Hty Ht Hid ρ v m rest Hf Hv Ha Hal Hroom Hsuf.
    rewrite eval_call in Hv. apply rbind_Ok in Hv as (vs & Hvs & Hv). rewrite Hn in Hv. apply rbind_Ok in Hv as (r & Hr & Hv). apply lift_Ok in Hv as ->.
    destruct (proj2 (expr_code_places Σ ids) _ _ _ _ _ Hc) as [Hf1 Hat]. rewrite <- app_assoc in Hsuf |- *.
    destruct (dest_place_extends _ _ _ _ _ Hd) as (Hf0 & Hin & Et & _). assert (extends f1 F) as Hf1F by (by etrans). apply (in_frame_extends _ _ _ Hf1F) in Hin.
    destruct (IH ρ vs m ([Ins (CallI (wrapu 16 id) (by_address pl :: map by_value pls))] ++ rest) Hf Hvs Ha Hal Hroom Hsuf) as (m1 & Hs1 & Hh1 & Hk1).
    destruct (step_call_value name params t id pls vs (Some v) m1 HΣ Hid Hr Hh1 (arguments_typed _ _ _ _ Hat Hty) (keeps_alive _ _ _ _ _ _ Hk1 Hal)
      (room_same _ _ _ (keeps_outside _ _ _ _ _ _ Hk1) Hroom) pl rest Ht Hin Et) as (v' & m2 & [= <-] & Hs2 & Hsb & Hh2).
    exists m2. split; [by eapply steps_trans|]. split; [done|]. eapply keeps_trans; [eapply keeps_earlier; [exact Hf0|by apply keeps_more]|by eapply dest_keeps|done].
  - intros f ρ vs m rest _ [= <-] _ _ _ _. exists m. split; [apply steps_refl|]. split; [constructor|apply keeps_refl].
  - intros f e args q q' pl pls f1 f2 Hc1 IH1 Hc2 IH2 ρ vs m rest Hf Hv Ha Hal Hroom Hsuf. cbn [evals] in Hv.
    apply rbind_Ok in Hv as (v & Hv1 & Hv). apply rbind_Ok in Hv as (vs' & Hv2 & [= <-]). rewrite <- app_assoc in Hsuf |- *.
    destruct (expr_code_at _ _ _ _ _ _ _ _ Hc1) as [Hf1 [Hin1 _ _]]. destruct (proj2 (expr_code_places Σ ids) _ _ _ _ _ Hc2) as [Hf2 _].
    assert (extends f1 F) as Hf1F by (by etrans). pose proof (in_frame_extends _ _ _ Hf1F Hin1) as Hin1F.
    destruct (IH1 ρ v m (q' ++ rest) Hf1F Hv1) as (m1 & Hs1 & Hh1 & Hk1); [|done..|].
    { eapply agrees_weaken; [exact Ha|]. mentioned. }
    destruct (IH2 ρ vs' m1 rest Hf Hv2) as (m2 & Hs2 & Hh2 & Hk2).
    { eapply agrees_weaken; [by eapply agrees_keeps|]. mentioned. }
    { by eapply keeps_alive. } { eapply room_same; [apply Hk1|done]. } { by eapply suffix_right. }
    exists m2. split; [by eapply steps_trans|]. split; [|by eapply keeps_trans]. constructor; [|done]. split; [done|].
    eapply keeps_value; [done|exact Hk2|done|left; by apply in_frame_index|done|done].
Qed.
Lemma expr_computes f d e q pl f' : expr_code Σ ids f d e q pl f' -> computes f d e q pl f'.
Proof. apply code_computes. Qed.


End runs.

(** * The code of a statement does what the statement does *)

(** ** A statement that is terminating returns *)

Lemma terminating_block (exec1 : environment -> TStatement -> result outcome) ss :
  (forall s ρ ρ', s ∈ ss -> IsTerminating s = Some true -> exec1 ρ s <> Ok (Normal ρ')) ->
  on_last IsTerminating ss = Some true -> forall ρ ρ', exec_block exec1 ρ ss <> Ok (Normal ρ').
Proof.
  intros He Hl. induction ss as [|s ss IH]; [done|]. intros ρ ρ'. cbn [exec_block]. intros ([ρ1|v] & Ho & Hv)%rbind_Ok; [|done].
  destruct ss as [|s' ss].
  - exact (He s ρ ρ1 ltac:(by left) Hl Ho).
  - eapply (IH (fun s0 r r' Hin => He s0 r r' ltac:(by right)) Hl). exact Hv.
Qed.
Lemma terminating_returns call fuel : forall s ρ ρ', IsTerminating s = Some true -> exec call fuel ρ s <> Ok (Normal ρ').
Proof.
  induction fuel as [|fuel IH]; [done|]. intros s ρ ρ'. destruct s as [|pos rpos ss| | | | |pos cond t [e|]|pos [e|]]; try done; cbn [IsTerminating exec]; intros Ht.
  - apply (terminating_block (exec call fuel)); [|done]. intros s r r' _. apply IH.
  - destruct (IsTerminating t) as [[|]|] eqn:Et; try done. cbn [mbind option_bind] in Ht. intros (c & _ & Hv)%rbind_Ok.
    destruct (c =? 0); [exact (IH _ _ _ Ht Hv)|exact (IH _ _ _ Et Hv)].
  - by intros (c & _ & Hv)%rbind_Ok.
Qed.

Section executes.
Context `{Runtime} `{FrameAllocatorSpec} `{AlignOpsSpec} `{CppClassesSpec}.
Context (module : BytecodeModule TplType) (p : list item) (Hlabels : NoDup (labels_of p)).
Context (F : FunctionInfo TplType) (Hfine : frame_fine F).
Context (fb : Z) (Hfb : 0 <= fb /\ fb + frame_size_ F <= 2 ^ 63).
Context (Σ : signatures) (ids : gmap string Z) (call : calls) (bound need : Z) (Hneed : 0 <= need) (Hcalls : calls_ok module Σ ids call bound need).
Context (ret : TplType) (ra : Z).
Context (Hresult : IsNilType ret = false -> exists l, locals_ F !! 0%nat = Some l /\ li_offset l = 0 /\ li_size l = 8 /\ li_name l = "hiddenRv"%string).

Lemma expr_extends f d e q pl f' : expr_code Σ ids f d e q pl f' -> extends f f'.
Proof. intros Hc. apply (expr_code_at _ _ _ _ _ _ _ _ Hc). Qed.
Lemma stmt_code_extends :
  (forall f s q f', stmt_code Σ ids ret f s q f' -> extends f f') /\
  (forall f ss q f', stmts_code Σ ids ret f ss q f' -> extends f f') /\
  (forall f o q f', option_code Σ ids ret f o q f' -> extends f f') /\
  (forall f l o q f', condition_code Σ ids ret f l o q f' -> extends f f').
Proof.
  assert (forall f : FunctionInfo TplType, extends f f) as Hrefl by (intros f; reflexivity).
  assert (forall (f f' : FunctionInfo TplType) l, locals_ f' = locals_ f ++ [l] -> extends f f') as Hnew by (intros f f' l E; exists [l]; exact E).
  assert (forall f1 f2 f3 : FunctionInfo TplType, extends f1 f2 -> extends f2 f3 -> extends f1 f3) as Htrans by (intros f1 f2 f3; apply transitivity).
  pose proof expr_extends as He.
  pose proof (fun f args q pls f' Hc => proj1 (proj2 (expr_code_places Σ ids) f args q pls f' Hc)) as Ha.
  apply stmt_code_ind2; intros; try done; repeat match goal with
    | Hc : expr_code _ _ _ _ _ _ _ _ |- _ => apply He in Hc
    | Hc : args_code _ _ _ _ _ _ _ |- _ => apply Ha in Hc
    | Hc : dest_place _ _ _ _ _ |- _ => apply dest_place_extends in Hc as [Hc _]
    | Hc : locals_ _ = locals_ _ ++ [_] |- _ => apply Hnew in Hc
    end; eauto.
Qed.

(** ** While the function runs *)

Record running (ρ : environment) (m : memory) : Prop := {
  running_alive : alive F fb m;
  running_room : room bound need m;
  running_agrees : agrees F fb (fun _ => True) ρ m;
  running_pointer : IsNilType ret = false -> load 8 fb m = Some ra;
  running_return : IsNilType ret = false -> return_ok F ret fb ra m
}.

Lemma keeps_pointer f d m m' : keeps F fb f d m m' -> (forall pd, d = Some pd -> in_frame F pd /\ variable_name_ok (li_name pd.2) = true) ->
  IsNilType ret = false -> load 8 fb m' = load 8 fb m.
Proof.
  intros [_ Hk] Hd (l & Hl & Eo & Es & En)%Hresult. specialize (Hk 0%nat l Hl). unfold addr in Hk. rewrite Eo, Es, Z.add_0_r in Hk.
  apply same_on_load, Hk.
  - right. rewrite En. by intros [k ?].
  - intros pd -> Ei. destruct (Hd pd eq_refl) as [Hin Hn]. unfold in_frame in Hin. rewrite Ei, Hl in Hin. injection Hin as Hin. by rewrite <- Hin, En in Hn.
Qed.
Lemma running_keeps f ρ m m' : keeps F fb f None m m' -> running ρ m -> running ρ m'.
Proof.
  intros Hk [Hal Hr Ha Hp Hret]. pose proof (keeps_outside _ _ _ _ _ _ Hk) as Hs. split.
  - by eapply keeps_alive.
  - by eapply room_same.
  - by eapply agrees_keeps.
  - intros Hn. rewrite (keeps_pointer _ _ _ _ Hk) by done. auto.
  - intros Hn. destruct (Hret Hn) as [? Hal' ?]. constructor; [done| |done]. by eapply same_but_allocated.
Qed.
(** A variable gets a value. *)
Lemma running_assigned f ρ m m' x pl v : keeps F fb f (Some pl) m m' -> variable_name_ok x = true -> lookup_place F x = Some pl -> holds_value fb pl v m' ->
  running ρ m -> running (<[x := v]> ρ) m'.
Proof.
  intros Hk Hx Hpl Hv [Hal Hr Ha Hp Hret]. pose proof (keeps_outside _ _ _ _ _ _ Hk) as Hs. destruct (lookup_place_in _ _ _ Hpl) as [Hin En]. split.
  - by eapply keeps_alive.
  - by eapply room_same.
  - intros y w _ Hy. destruct (decide (y = x)) as [->|Hne].
    + rewrite lookup_insert_eq in Hy. injection Hy as <-. eauto.
    + rewrite lookup_insert_ne in Hy by done. eapply (agrees_keeps F Hfine fb (fun z => z <> x)); [exact Hk| | |exact Hne|exact Hy].
      * by eapply agrees_weaken.
      * intros ? [= <-]. split; [done|]. rewrite En. auto.
  - intros Hn. rewrite (keeps_pointer _ _ _ _ Hk); [auto| |done]. intros ? [= <-]. by rewrite En.
  - intros Hn. destruct (Hret Hn) as [? Hal' ?]. constructor; [done| |done]. by eapply same_but_allocated.
Qed.
Lemma running_deleted ρ m x : running ρ m -> running (delete x ρ) m.
Proof. intros [? ? Ha ? ?]. split; try done. intros y v _ Hy. apply lookup_delete_Some in Hy as [_ Hy]. by apply Ha. Qed.

(** ** What the code of a statement ends in *)

Definition frame_area : Z -> Prop := within fb (frame_size_ F).
Definition finishes (o : outcome) (code rest : list item) (m : memory) : Prop :=
  match o with
  | Normal ρ' => exists m', steps module p F fb code m rest m' /\ running ρ' m' /\ same_but frame_area m m'
  | Returned v => exists k n m', (forall fuel, (k <= fuel)%nat -> run module p (the_frame F fb) (n + fuel) code m = Ok m') /\
      result_stored ret ra v m' /\ same_but (fun x => frame_area x \/ return_area ret ra x) m m'
  end.

Lemma finishes_after o code code1 rest m m1 : steps module p F fb code m code1 m1 -> same_but frame_area m m1 -> finishes o code1 rest m1 -> finishes o code rest m.
Proof.
  intros Hs Hm. destruct o as [ρ'|v].
  - intros (m' & Hs' & Hr & Hm'). exists m'. split; [by eapply steps_trans|]. split; [done|by eapply same_but_trans].
  - intros (k & n & m' & Hr & Hres & Hm'). destruct Hs as (k1 & n1 & Hs1). exists (max k k1), (n1 + n)%nat, m'. split; [|split; [done|]].
    + intros fuel Hf. rewrite <- Nat.add_assoc, Hs1 by lia. apply Hr. lia.
    + eapply same_but_trans; [|exact Hm']. eapply same_but_weaken; [exact Hm|by left].
Qed.
Lemma finishes_then o code rest1 rest2 m : (forall m', steps module p F fb rest1 m' rest2 m') -> finishes o code rest1 m -> finishes o code rest2 m.
Proof.
  intros Hs. destruct o as [ρ'|v]; [|done]. intros (m' & Hs' & Hr). exists m'. split; [by eapply steps_trans|done].
Qed.
Lemma finishes_returned v code rest1 rest2 m : finishes (Returned v) code rest1 m -> finishes (Returned v) code rest2 m.
Proof. done. Qed.
Lemma finishes_normal ρ' rest m : running ρ' m -> finishes (Normal ρ') rest rest m.
Proof. intros Hr. exists m. split; [apply steps_refl|]. split; [done|apply same_but_refl]. Qed.
(** The code of one statement, then what comes behind it. *)
Lemma finishes_bind o o' code mid rest m : finishes o code mid m ->
  (forall ρ' m', o = Normal ρ' -> running ρ' m' -> finishes o' mid rest m') -> (forall v, o = Returned v -> o' = Returned v) -> finishes o' code rest m.
Proof.
  destruct o as [ρ'|v]; [|by intros Hf _ Hv; rewrite (Hv v eq_refl)].
  intros (m' & Hs & Hr & Hm) Hnext _. eapply finishes_after; [exact Hs|exact Hm|by apply (Hnext ρ')].
Qed.

(** ** Statements *)

Abbreviation runs_expr := (expr_computes module p Hlabels F Hfine fb Hfb Σ ids call bound need Hneed Hcalls).

Lemma assign_runs f e q pl f' x ρ v m rest : expr_code Σ ids f (Some pl) e q pl f' -> extends f' F -> variable_name_ok x = true ->
  lookup_place F x = Some pl -> eval call ρ e = Ok v -> running ρ m -> q ++ rest `suffix_of` p -> finishes (Normal (<[x := v]> ρ)) (q ++ rest) rest m.
Proof.
  intros Hc Hf Hx Hpl Hv Hr Hsuf. destruct (runs_expr _ _ _ _ _ _ Hc ρ v m rest Hf Hv) as (m' & Hs & Hh & Hk).
  { eapply agrees_weaken; [exact (running_agrees _ _ Hr)|done]. } { exact (running_alive _ _ Hr). } { exact (running_room _ _ Hr). } { done. }
  exists m'. split; [done|]. split; [by eapply running_assigned|]. exact (keeps_outside _ _ _ _ _ _ Hk).
Qed.
Lemma value_runs f e q pl f' ρ v m rest : expr_code Σ ids f None e q pl f' -> extends f' F -> eval call ρ e = Ok v -> running ρ m ->
  q ++ rest `suffix_of` p -> exists m', steps module p F fb (q ++ rest) m rest m' /\ holds_value fb pl v m' /\ running ρ m' /\ same_but frame_area m m' /\ in_frame F pl /\ GetType e = Some (li_type pl.2).
Proof.
  intros Hc Hf Hv Hr Hsuf. destruct (runs_expr _ _ _ _ _ _ Hc ρ v m rest Hf Hv) as (m' & Hs & Hh & Hk).
  { eapply agrees_weaken; [exact (running_agrees _ _ Hr)|done]. } { exact (running_alive _ _ Hr). } { exact (running_room _ _ Hr). } { done. }
  exists m'. split; [done|]. split; [done|]. split; [by eapply running_keeps|]. split; [exact (keeps_outside _ _ _ _ _ _ Hk)|].
  destruct (expr_code_at _ _ _ _ _ _ _ _ Hc) as [_ [Hin Et _]]. split; [by eapply in_frame_extends|done].
Qed.
Lemma test_runs f e q pl f' ρ v m l rest target : expr_code Σ ids f None e q pl f' -> GetType e = Some (BuiltinType Bool) -> extends f' F ->
  eval call ρ e = Ok v -> running ρ m -> q ++ test_code pl l :: rest `suffix_of` p -> Lab l :: target `suffix_of` p ->
  exists m', steps module p F fb (q ++ test_code pl l :: rest) m (if v =? 0 then target else rest) m' /\ running ρ m' /\ same_but frame_area m m'.
Proof.
  intros Hc Et Hf Hv Hr Hsuf Hl. destruct (value_runs _ _ _ _ _ _ _ _ _ Hc Hf Hv Hr Hsuf) as (m' & Hs & Hh & Hr' & Hm & Hin & Et').
  exists m'. split; [|done]. rewrite Et in Et'. injection Et' as Et'. eapply steps_trans; [exact Hs|].
  exact (steps_jump_if module p Hlabels F Hfine fb "JumpIfFalse"%string l pl v (v =? 0) rest target m' Hin (eq_sym Et') Hh (or_introl eq_refl) (fun _ => Hl)).
Qed.

Definition stmt_runs (fuel : nat) : Prop := forall s f q f' ρ o m rest, stmt_code Σ ids ret f s q f' -> extends f' F -> exec call fuel ρ s = Ok o ->
  running ρ m -> q ++ rest `suffix_of` p -> finishes o (q ++ rest) rest m.

Lemma block_runs fuel : stmt_runs fuel -> forall ss f q f' ρ o m rest, stmts_code Σ ids ret f ss q f' -> extends f' F ->
  exec_block (exec call fuel) ρ ss = Ok o -> running ρ m -> q ++ rest `suffix_of` p -> finishes o (q ++ rest) rest m.
Proof.
  intros IH ss. induction ss as [|s ss IHss]; intros f q f' ρ o m rest Hc Hf He Hr Hsuf; inversion Hc as [|? ? ? q1 q2 f1 ? Hs Hss]; subst; cbn [exec_block] in He.
  - injection He as <-. by apply finishes_normal.
  - rewrite <- app_assoc in Hsuf |- *. apply rbind_Ok in He as (o1 & Ho1 & He). pose proof (proj1 (proj2 stmt_code_extends) _ _ _ _ Hss) as Hf1.
    eapply finishes_bind; [eapply IH; [exact Hs|by etrans|exact Ho1|exact Hr|exact Hsuf]| |].
    + intros ρ' m' -> Hr'. eapply IHss; [exact Hss|exact Hf|exact He|exact Hr'|by eapply suffix_right].
    + intros v ->. by injection He as <-.
Qed.
Lemma option_block f s q f' : option_code Σ ids ret f s q f' -> stmts_code Σ ids ret f (match s with Some s => [s] | None => [] end) q f'.
Proof.
  inversion 1 as [|? ? ? ? Hs]; subst; [constructor|]. rewrite <- (app_nil_r q). by econstructor; [|constructor].
Qed.

Lemma suffix_skip (it : item) l : it :: l `suffix_of` p -> l `suffix_of` p.
Proof. apply (suffix_right [it]). Qed.
Lemma steps_jump_to l rest rest' m : Lab l :: rest' `suffix_of` p -> steps module p F fb (jmp l :: rest) m (Lab l :: rest') m.
Proof.
  intros Hl. destruct (steps_jump module p Hlabels F fb l rest rest' m Hl) as (k & n & Hs). exists k, n. intros fuel Hf. by rewrite run_label, Hs.
Qed.

(** *** Calls *)

Lemma args_run f args q pls f' ρ vs m rest params : args_code Σ ids f args q pls f' -> extends f' F -> map GetType args = map Some params ->
  evals call ρ args = Ok vs -> running ρ m -> q ++ rest `suffix_of` p ->
  exists m', steps module p F fb (q ++ rest) m rest m' /\ Forall2 (fun pl v => in_frame F pl /\ holds_value fb pl v m') pls vs /\
    running ρ m' /\ same_but frame_area m m' /\ Forall2 (fun (pl : place) ty => li_type pl.2 = ty) pls params.
Proof.
  intros Hc Hf Hty Hv Hr Hsuf.
  destruct (proj2 (code_computes module p Hlabels F Hfine fb Hfb Σ ids call bound need Hneed Hcalls) _ _ _ _ _ Hc ρ vs m rest Hf Hv) as (m' & Hs & Hh & Hk).
  { eapply agrees_weaken; [exact (running_agrees _ _ Hr)|done]. } { exact (running_alive _ _ Hr). } { exact (running_room _ _ Hr). } { done. }
  exists m'. split; [done|]. split; [done|]. split; [by eapply running_keeps|]. split; [exact (keeps_outside _ _ _ _ _ _ Hk)|].
  eapply arguments_typed; [|exact Hty]. apply (proj2 (expr_code_places Σ ids) _ _ _ _ _ Hc).
Qed.
Lemma exec_call_statement fuel ρ func name args ty o : callee_name func = Some name ->
  exec call (S fuel) ρ (TExpressionStatement (TCallExpression Regular func args ty)) = Ok o ->
  exists vs r, evals call ρ args = Ok vs /\ call name vs = Ok r /\ o = Normal ρ.
Proof.
  intros Hn. cbn [exec]. intros (vs & Hvs & He)%rbind_Ok. rewrite Hn in He. apply rbind_Ok in He as (r & Hr & [= <-]). by exists vs, r.
Qed.
Lemma call_only_runs fuel f func name args params t id q pls f' ty ρ o m rest :
  args_code Σ ids f args q pls f' -> callee_name func = Some name -> Σ !! name = Some (params, t) -> map GetType args = map Some params ->
  IsNilType t = true -> ids !! name = Some id -> extends f' F ->
  exec call (S fuel) ρ (TExpressionStatement (TCallExpression Regular func args ty)) = Ok o -> running ρ m ->
  (q ++ [Ins (CallI (wrapu 16 id) (map by_value pls))]) ++ rest `suffix_of` p ->
  finishes o ((q ++ [Ins (CallI (wrapu 16 id) (map by_value pls))]) ++ rest) rest m.
Proof.
  intros Hc Hn HΣ Hty Ht Hid Hf He Hr Hsuf. destruct (exec_call_statement _ _ _ _ _ _ _ Hn He) as (vs & r & Hvs & Hcall & ->).
  rewrite <- app_assoc in Hsuf |- *. destruct (args_run _ _ _ _ _ _ _ _ _ _ Hc Hf Hty Hvs Hr Hsuf) as (m1 & Hs1 & Hh1 & Hr1 & Hm1 & Hpt).
  destruct (step_call_only module p F Hfine fb Σ ids call bound need Hneed Hcalls name params t id pls vs r m1 HΣ Hid Hcall Hh1 Hpt
    (running_alive _ _ Hr1) (running_room _ _ Hr1) rest Ht) as (m2 & _ & Hs2 & Hm2).
  assert (keeps F fb F None m1 m2) as Hk.
  { split; [by eapply same_but_weaken|]. intros i l _ _ _. eapply same_but_on; [exact Hm2|]. by intros x _ []. }
  exists m2. split; [by eapply steps_trans|]. split; [by eapply running_keeps|]. eapply same_but_trans; [exact Hm1|apply Hk].
Qed.
Lemma call_unused_runs fuel f func name args params t id q pl pls f1 f' ty ρ o m rest : dest_place f t None pl f1 ->
  args_code Σ ids f1 args q pls f' -> callee_name func = Some name -> Σ !! name = Some (params, t) -> map GetType args = map Some params ->
  primitive t = true -> ids !! name = Some id -> extends f' F ->
  exec call (S fuel) ρ (TExpressionStatement (TCallExpression Regular func args ty)) = Ok o -> running ρ m ->
  (q ++ [Ins (CallI (wrapu 16 id) (by_address pl :: map by_value pls))]) ++ rest `suffix_of` p ->
  finishes o ((q ++ [Ins (CallI (wrapu 16 id) (by_address pl :: map by_value pls))]) ++ rest) rest m.
Proof.
  intros Hd Hc Hn HΣ Hty Ht Hid Hf He Hr Hsuf. destruct (exec_call_statement _ _ _ _ _ _ _ Hn He) as (vs & r & Hvs & Hcall & ->).
  rewrite <- app_assoc in Hsuf |- *. destruct (args_run _ _ _ _ _ _ _ _ _ _ Hc Hf Hty Hvs Hr Hsuf) as (m1 & Hs1 & Hh1 & Hr1 & Hm1 & Hpt).
  destruct (dest_place_extends _ _ _ _ _ Hd) as (_ & Hin & Et & _). assert (extends f1 F) as Hf1 by (etrans; [apply (proj2 (expr_code_places Σ ids) _ _ _ _ _ Hc)|done]).
  destruct (step_call_value module p F Hfine fb Hfb Σ ids call bound need Hneed Hcalls name params t id pls vs r m1 HΣ Hid Hcall Hh1 Hpt
    (running_alive _ _ Hr1) (running_room _ _ Hr1) pl rest Ht (in_frame_extends _ _ _ Hf1 Hin) Et) as (v & m2 & _ & Hs2 & Hm2 & _).
  pose proof (dest_keeps F Hfine fb _ _ _ _ _ _ _ Hd Hf1 Hm2) as Hk.
  exists m2. split; [by eapply steps_trans|]. split; [by eapply running_keeps|]. eapply same_but_trans; [exact Hm1|apply Hk].
Qed.

(** *** Returns *)

Lemma return_runs m rest : IsNilType ret = true -> finishes (Returned None) ([Ins (Plain (code "Return") [])] ++ rest) rest m.
Proof.
  intros Hn. exists 0%nat, 1%nat, m. split; [intros fuel _; apply run_return|]. split; [done|apply same_but_refl].
Qed.
Lemma return_value_runs f e q pl f' c ρ v m rest : expr_code Σ ids f None e q pl f' -> GetType e = Some ret -> ctype_of ret = Some c -> extends f' F ->
  eval call ρ e = Ok v -> running ρ m ->
  let code := (q ++ [Ins (Plain (code ("Assign" +:+ size_name (sizeof c))) [bitfield_ return_place; by_value pl]); Ins (Plain (code "Return") [])]) ++ rest in
  code `suffix_of` p -> finishes (Returned (Some v)) code rest m.
Proof.
  intros Hc Et Hct Hf Hv Hr code0 Hsuf. unfold code0 in *. clear code0. rewrite <- app_assoc in Hsuf |- *.
  destruct (value_runs _ _ _ _ _ _ _ _ _ Hc Hf Hv Hr Hsuf) as (m1 & Hs1 & Hh1 & Hr1 & Hm1 & Hin & Et').
  rewrite Et in Et'. injection Et' as Et'. eapply finishes_after; [exact Hs1|exact Hm1|].
  destruct (ctype_size ret c Hct) as [Es _].
  assert (IsNilType ret = false) as Hnil by (destruct ret as [k| | | | | |]; try done; by destruct k).
  destruct (running_return _ _ Hr1 Hnil) as [[Hra0 Hra1] Hra2 _]. rewrite Es in Hra2.
  destruct (step_return module p F Hfine fb ret c pl v ra (Ins (Plain (code "Return") []) :: rest) m1 Hct Hin (eq_sym Et') Hh1 (running_pointer _ _ Hr1 Hnil) Hra0 Hra1 Hra2)
    as (m2 & Hs2 & Hm2 & Hl2).
  destruct Hs2 as (k & n & Hs2). exists k, (n + 1)%nat, m2. split; [|split].
  - intros fuel Hf'. cbn [app]. rewrite <- Nat.add_assoc, Hs2 by lia. apply run_return.
  - split; [done|]. rewrite Es, Nat2Z.id. split; [done|]. destruct Hh1 as [_ Hrange]. by rewrite (local_size_of F Hfine pl ret c Hin (eq_sym Et') Hct) in Hrange.
  - eapply same_but_weaken; [exact Hm2|]. intros x Hx. right. split; [done|]. by rewrite Es.
Qed.

(** *** Conditionals *)

Lemma if_runs fuel f pos cond s qc pl qt f1 f2 le lt lend ρ o m rest : stmt_runs fuel ->
  expr_code Σ ids f None cond qc pl f1 -> GetType cond = Some (BuiltinType Bool) -> stmt_code Σ ids ret f1 s qt f2 -> extends f2 F ->
  exec call (S fuel) ρ (TIfStatement pos cond s None) = Ok o -> running ρ m ->
  let code := (qc ++ test_code pl le :: Lab lt :: qt ++ [Lab le; Lab lend]) ++ rest in code `suffix_of` p -> finishes o code rest m.
Proof.
  intros IH Hc Et Hs Hf He Hr code Hsuf. unfold code in *. clear code. pose proof (proj1 stmt_code_extends _ _ _ _ Hs) as Hf1.
  cbn [exec] in He. apply rbind_Ok in He as (c & Hcv & He). repeat (rewrite <- app_assoc in Hsuf |- *; cbn [app] in Hsuf |- *).
  pose proof (suffix_right _ _ _ Hsuf) as Hsuf1. pose proof (suffix_skip _ _ Hsuf1) as Hsuf2. pose proof (suffix_skip _ _ Hsuf2) as Hsuf3.
  pose proof (suffix_right _ _ _ Hsuf3) as Hsuf4. assert (extends f1 F) as Hf1F by (by etrans).
  destruct (test_runs _ _ _ _ _ _ _ _ _ _ _ Hc Et Hf1F Hcv Hr Hsuf Hsuf4) as (m1 & Hs1 & Hr1 & Hm1).
  eapply finishes_after; [exact Hs1|exact Hm1|]. destruct (c =? 0).
  - injection He as <-. eapply finishes_after; [apply steps_label|apply same_but_refl|by apply finishes_normal].
  - eapply finishes_after; [apply steps_label|apply same_but_refl|]. eapply finishes_then; [|by eapply IH].
    intros m'. eapply steps_trans; apply steps_label.
Qed.
Lemma if_else_runs fuel f pos cond s s' qc pl qt qe f1 f2 f3 le lt lend b ρ o m rest : stmt_runs fuel ->
  expr_code Σ ids f None cond qc pl f1 -> GetType cond = Some (BuiltinType Bool) -> stmt_code Σ ids ret f1 s qt f2 -> IsTerminating s = Some b ->
  stmt_code Σ ids ret f2 s' qe f3 -> extends f3 F -> exec call (S fuel) ρ (TIfStatement pos cond s (Some s')) = Ok o -> running ρ m ->
  let code := (qc ++ test_code pl le :: Lab lt :: qt ++ maybe_jmp b lend ++ Lab le :: qe ++ [Lab lend]) ++ rest in
  code `suffix_of` p -> finishes o code rest m.
Proof.
  intros IH Hc Et Hs Hb Hs' Hf He Hr code Hsuf. unfold code in *. clear code.
  pose proof (proj1 stmt_code_extends _ _ _ _ Hs) as Hf1. pose proof (proj1 stmt_code_extends _ _ _ _ Hs') as Hf2.
  cbn [exec] in He. apply rbind_Ok in He as (c & Hcv & He). repeat (rewrite <- app_assoc in Hsuf |- *; cbn [app] in Hsuf |- *).
  pose proof (suffix_right _ _ _ Hsuf) as Hsuf1. pose proof (suffix_skip _ _ Hsuf1) as Hsuf2. pose proof (suffix_skip _ _ Hsuf2) as Hsuf3.
  pose proof (suffix_right _ _ _ (suffix_right _ _ _ Hsuf3)) as Hsuf4. pose proof (suffix_skip _ _ Hsuf4) as Hsuf5. pose proof (suffix_right _ _ _ Hsuf5) as Hsuf6.
  assert (extends f2 F) as Hf2F by (by etrans). assert (extends f1 F) as Hf1F by (by etrans).
  destruct (test_runs _ _ _ _ _ _ _ _ _ _ _ Hc Et Hf1F Hcv Hr Hsuf Hsuf4) as (m1 & Hs1 & Hr1 & Hm1).
  eapply finishes_after; [exact Hs1|exact Hm1|]. destruct (c =? 0).
  - eapply finishes_then; [intros m'; apply (steps_label _ _ _ _ lend)|by eapply IH].
  - eapply finishes_after; [apply steps_label|apply same_but_refl|]. pose proof (IH _ _ _ _ _ _ _ _ Hs Hf2F He Hr1 Hsuf3) as Hfin. destruct b.
    + destruct o as [ρ'|v]; [by apply terminating_returns in He|exact Hfin].
    + eapply finishes_then; [|exact Hfin]. intros m'. by apply steps_jump.
Qed.

(** *** Loops *)

Lemma condition_runs f lb cond q f' ρ c m rest target : condition_code Σ ids ret f lb cond q f' -> extends f' F ->
  match cond with Some cond => eval call ρ cond | None => Ok 1 end = Ok c -> running ρ m -> q ++ rest `suffix_of` p -> Lab lb :: target `suffix_of` p ->
  exists m', steps module p F fb (q ++ rest) m (if c =? 0 then target else rest) m' /\ running ρ m' /\ same_but frame_area m m'.
Proof.
  inversion 1 as [|? ? e q0 pl f0 He Et]; subst; intros Hf Hv Hr Hsuf Hl.
  - injection Hv as <-. exists m. split; [apply steps_refl|]. split; [done|apply same_but_refl].
  - rewrite <- app_assoc in Hsuf |- *. by eapply test_runs.
Qed.
Lemma for_runs fuel f pos cond next body qt qb qn f1 f2 f3 lh lb lc ρ o m rest : stmt_runs fuel ->
  condition_code Σ ids ret f lb cond qt f1 -> stmt_code Σ ids ret f1 body qb f2 -> option_code Σ ids ret f2 next qn f3 -> extends f3 F ->
  exec call (S fuel) ρ (TForStatement pos None cond next body) = Ok o -> running ρ m ->
  let code := (Lab lh :: qt ++ qb ++ Lab lc :: qn ++ [jmp lh; Lab lb]) ++ rest in code `suffix_of` p -> finishes o code rest m.
Proof.
  intros IH Hc Hb Hn Hf He Hr code Hsuf. unfold code in *. clear code. pose proof (code_for Σ ids ret f pos cond next body qt qb qn f1 f2 f3 lh lb lc Hc Hb Hn) as Hloop.
  assert (extends f2 F) as Hf2F by (etrans; [by eapply (proj1 (proj2 (proj2 stmt_code_extends)))|done]).
  assert (extends f1 F) as Hf1F by (etrans; [by eapply (proj1 stmt_code_extends)|done]).
  cbn [exec] in He. apply rbind_Ok in He as (c & Hcv & He). pose proof Hsuf as Hsuf0. cbn [app] in Hsuf |- *. repeat (rewrite <- app_assoc in Hsuf |- *; cbn [app] in Hsuf |- *).
  pose proof (suffix_skip _ _ Hsuf) as Hsuf1. pose proof (suffix_right _ _ _ Hsuf1) as Hsuf2. pose proof (suffix_right _ _ _ Hsuf2) as Hsuf3.
  pose proof (suffix_skip _ _ Hsuf3) as Hsuf4. pose proof (suffix_right _ _ _ Hsuf4) as Hsuf5. pose proof (suffix_skip _ _ Hsuf5) as Hsuf6.
  eapply finishes_after; [apply steps_label|apply same_but_refl|].
  destruct (condition_runs _ _ _ _ _ _ _ _ _ _ Hc Hf1F Hcv Hr Hsuf1 Hsuf6) as (m1 & Hs1 & Hr1 & Hm1). eapply finishes_after; [exact Hs1|exact Hm1|].
  destruct (c =? 0); [injection He as <-; by apply finishes_normal|].
  apply rbind_Ok in He as (o1 & Ho1 & He). cbn [exec_block] in Ho1. apply rbind_Ok in Ho1 as (o2 & Ho2 & Ho1).
  eapply finishes_bind; [by eapply IH| |].
  2: { intros v ->. injection Ho1 as <-. by injection He as <-. }
  intros ρ2 m2 -> Hr2. eapply finishes_after; [apply steps_label|apply same_but_refl|].
  eapply finishes_bind; [eapply block_runs; [exact IH|by apply option_block|exact Hf|exact Ho1|exact Hr2|exact Hsuf4]| |].
  2: { intros v ->. by injection He as <-. }
  intros ρ3 m3 -> Hr3. eapply finishes_after; [apply (steps_jump_to _ _ _ _ Hsuf)|apply same_but_refl|].
  pose proof (IH _ _ _ _ _ _ m3 rest Hloop Hf He Hr3 Hsuf0) as Hfin. cbn [app] in Hfin. repeat (rewrite <- app_assoc in Hfin; cbn [app] in Hfin). exact Hfin.
Qed.
Lemma for_init_runs fuel f pos init cond next body qi q f1 f2 ρ o m rest : stmt_runs fuel ->
  stmt_code Σ ids ret f init qi f1 -> stmt_code Σ ids ret f1 (TForStatement pos None cond next body) q f2 -> extends f2 F ->
  exec call (S fuel) ρ (TForStatement pos (Some init) cond next body) = Ok o -> running ρ m -> (qi ++ q) ++ rest `suffix_of` p -> finishes o ((qi ++ q) ++ rest) rest m.
Proof.
  intros IH Hi Hl Hf He Hr Hsuf. rewrite <- app_assoc in Hsuf |- *. cbn [exec] in He. apply rbind_Ok in He as (o1 & Ho1 & He).
  pose proof (proj1 stmt_code_extends _ _ _ _ Hl) as Hf1.
  eapply finishes_bind; [eapply IH; [exact Hi|by etrans|exact Ho1|exact Hr|exact Hsuf]| |].
  - intros ρ' m' -> Hr'. eapply IH; [exact Hl|exact Hf|exact He|exact Hr'|by eapply suffix_right].
  - intros v ->. by injection He as <-.
Qed.

(** *** All statements *)

Lemma statement_runs fuel : stmt_runs fuel.
Proof.
  induction fuel as [|fuel IH]; [done|]. intros s f q f' ρ o m rest Hc Hf He Hr Hsuf.
  destruct Hc.
  - by eapply block_runs.
  - cbn [exec] in He. injection He as <-. apply finishes_normal. by apply running_deleted.
  - cbn [exec] in He. apply rbind_Ok in He as (v & Hv & [= <-]). eapply assign_runs; [done..| |done|done|done]. eapply lookup_place_extend; [|done].
    etrans; [by eapply expr_extends|done].
  - cbn [exec] in He. apply rbind_Ok in He as (v & Hv & [= <-]). eapply assign_runs; [done..| |done|done|done]. eapply lookup_place_extend; [|done].
    etrans; [by eapply expr_extends|done].
  - by eapply (call_only_runs fuel).
  - by eapply (call_unused_runs fuel).
  - by eapply if_runs.
  - by eapply if_else_runs.
  - by eapply for_runs.
  - by eapply for_init_runs.
  - cbn [exec] in He. injection He as <-. by apply return_runs.
  - cbn [exec] in He. apply rbind_Ok in He as (v & Hv & [= <-]). by eapply return_value_runs.
Qed.

End executes.
