(* ===== verification/GeneratorFunctions.v ===== *)
(** The functions of a file of the core: what the generator makes of each, and where its code is. *)
From S2P Require Import Prelude BitUtil Buffer Token Ast TreeInduction Layout Types TypesSpec TypedAst Builtins SemaChecking Bytecodes FunctionInfo FunctionInfoSpec BytecodeEmitter BytecodeSpec CTypes GeneratorState GeneratorBuiltins BytecodeGenerator GeneratorSpec GeneratorEmits GeneratorWellFormed GeneratorTheorems TplSemantics TplCore GeneratorCode GeneratorTranslates GeneratorMachine.

(** * More functions *)

Section more.
Context `{AlignOpsSpec} `{CppClassesSpec}.
Context (Σ Σ' : signatures) (ids ids' : gmap string Z) (HΣ : Σ ⊆ Σ') (Hids : ids ⊆ ids').

Lemma expr_code_more :
  (forall f d e q pl f', expr_code Σ ids f d e q pl f' -> expr_code Σ' ids' f d e q pl f') /\
  (forall f args q pls f', args_code Σ ids f args q pls f' -> args_code Σ' ids' f args q pls f').
Proof. apply expr_code_ind2; intros; econstructor; eauto using lookup_weaken. Qed.

Lemma stmt_code_more ret :
  (forall f s q f', stmt_code Σ ids ret f s q f' -> stmt_code Σ' ids' ret f s q f') /\
  (forall f ss q f', stmts_code Σ ids ret f ss q f' -> stmts_code Σ' ids' ret f ss q f') /\
  (forall f o q f', option_code Σ ids ret f o q f' -> option_code Σ' ids' ret f o q f') /\
  (forall f l o q f', condition_code Σ ids ret f l o q f' -> condition_code Σ' ids' ret f l o q f').
Proof.
  destruct expr_code_more as [He Ha].
  apply stmt_code_ind2; intros; econstructor; eauto using lookup_weaken.
Qed.
End more.

(** * The frame a function begins with *)

Section entry.
Context `{AlignOpsSpec} `{CppClassesSpec}.

Record entry_frame (fn : tpl_function) (f : FunctionInfo TplType) : Prop := {
  entry_fine : frame_fine f;
  entry_typing : typing_ok (list_to_map (fn_params fn)) f;
  entry_area : parameters_area f = (0, frame_size_ f);
  entry_result : IsNilType (fn_ret fn) = false -> exists l, locals_ f !! 0%nat = Some l /\ li_offset l = 0 /\ li_size l = 8 /\ li_name l = "hiddenRv"%string;
  entry_params : exists hidden ls, locals_ f = hidden ++ ls /\ length hidden = (if IsNilType (fn_ret fn) then 0 else 1)%nat /\
    Forall (fun l => li_name l = "hiddenRv"%string) hidden /\
    Forall2 (fun (param : string * TplType) l => li_name l = param.1 /\ li_type l = param.2) (fn_params fn) ls
}.

Lemma NewParameterLocal_fine f t n : frame_fine f -> small_type t -> few_locals (NewParameterLocal f t n).2 ->
  exists l f', NewParameterLocal f t n = (local_ref l, f') /\ locals_ f' = locals_ f ++ [l] /\ li_type l = t /\ li_name l = n /\ frame_fine f' /\
    parameters_area f' = (params_start_pos_ f, frame_size_ f') /\ head f' = head f.
Proof.
  intros [Hp Hs Hl] Ht Hf.
  assert (length (locals_ (NewParameterLocal f t n).2) = S (length (locals_ f))) as Elen.
  { cbn. rewrite length_app. simpl. lia. }
  unfold few_locals, max_locals in Hf. rewrite Elen in Hf.
  pose proof (frame_step_spec f (NewParam t n) (16 * Z.of_nat (length (locals_ f))) Hp Hs) as Hstep. pose proof (NewParameterLocal_head f t n) as Eh.
  cbn [op_type is_param frame_step] in Hstep. unfold small_type in Ht. destruct (NewParameterLocal f t n) as [v f'] eqn:E.
  change (2 ^ 26) with 67108864 in Hf. change (2 ^ 31) with 2147483648 in Hstep.
  destruct Hstep as (Hp' & Hs' & (l & El & (Et & Es & Ekind & En) & -> & Ho) & Ea & _ & Est); [lia|]. exists l, f'.
  split; [done|]. split; [done|]. split; [done|]. split; [done|]. split; [|split; [|exact Eh]].
  - constructor; [done|rewrite El, length_app; cbn [length]; lia|]. rewrite El. apply Forall_app. split; [done|]. constructor; [|done]. by rewrite Et, Es.
  - unfold parameters_area. by rewrite Ea, Est.
Qed.

Lemma new_parameters_prefix params : forall f f', new_parameters f params = Some f' -> locals_ f `prefix_of` locals_ f'.
Proof.
  induction params as [|[n t] params IH]; intros f f'; cbn [new_parameters]; [by intros [= ->]|].
  destruct (Identifier_ToString n) as [n'|]; [|done]. cbn [mbind option_bind]. intros Hf%IH. etrans; [|exact Hf]. by eexists.
Qed.
Lemma few_locals_prefix (f f' : FunctionInfo TplType) : locals_ f `prefix_of` locals_ f' -> few_locals f' -> few_locals f.
Proof. intros Hp%prefix_length. unfold few_locals. lia. Qed.

Lemma new_parameters_entry params : forall ps f f' Γ, mapM param_name params = Some ps -> new_parameters f params = Some f' ->
  frame_fine f -> typing_ok Γ f -> few_locals f' -> parameters_area f = (0, frame_size_ f) ->
  Forall (fun p => primitive p.2 = true /\ variable_name_ok p.1 = true /\ Γ !! p.1 = None) ps -> NoDup (map fst ps) ->
  frame_fine f' /\ typing_ok (list_to_map ps ∪ Γ) f' /\ parameters_area f' = (0, frame_size_ f') /\
  exists ls, locals_ f' = locals_ f ++ ls /\ Forall2 (fun (p : string * TplType) l => li_name l = p.1 /\ li_type l = p.2) ps ls.
Proof.
  induction params as [|[n t] params IH]; intros ps f f' Γ Hps Hf' Hf HΓ Hfew Ha Hall Hnd; cbn [new_parameters] in Hf'.
  - injection Hf' as <-. injection Hps as <-. assert ((list_to_map [] : typing) ∪ Γ = Γ) as -> by apply (left_id_L ∅ (∪)). split; [done|]. split; [done|]. split; [done|]. exists []. by rewrite app_nil_r.
  - apply mapM_Some in Hps. inversion Hps as [|? [x ty] ? ps' Hx Hps']; subst. apply mapM_Some in Hps'. unfold param_name in Hx. cbn [fst snd] in Hx.
    destruct (Identifier_ToString n) as [x'|]; [|done]. injection Hx as -> ->. cbn [mbind option_bind] in Hf'. cbn [map fst] in Hnd.
    apply Forall_cons in Hall as [(Hp & Hv & Hx) Hall]. apply NoDup_cons in Hnd as [Hnot Hnd].
    assert (few_locals (NewParameterLocal f ty x).2) as Hfew1 by (eapply few_locals_prefix; [eapply new_parameters_prefix; exact Hf'|done]).
    destruct (NewParameterLocal_fine f ty x Hf (primitive_small_type ty Hp) Hfew1) as (l & f1 & El & Elocals & Et & En & Hf1 & Ea & _).
    rewrite El in Hf'. unfold parameters_area in Ha. injection Ha as Ha _. rewrite Ha in Ea.
    destruct (typing_ok_variable Γ f f1 l x ty HΓ Elocals En Et Hv Hx) as [HΓ1 _].
    destruct (IH ps' f1 f' (<[x := ty]> Γ) Hps' Hf' Hf1 HΓ1 Hfew Ea) as (Hff & Htf & Haf & ls & Els & Hls); [|done|].
    { rewrite Forall_forall in Hall |- *. intros [y ty'] Hin. destruct (Hall _ Hin) as (? & ? & ?). split; [done|]. split; [done|]. cbn [fst] in *.
      rewrite lookup_insert_ne; [done|]. intros ->. apply Hnot, list_elem_of_fmap. by exists (y, ty'). }
    split; [done|]. split; [|split; [done|]].
    + assert ((list_to_map ((x, ty) :: ps') : typing) ∪ Γ = list_to_map ps' ∪ <[x := ty]> Γ) as ->; [|exact Htf].
      rewrite <- insert_union_r by (by apply not_elem_of_list_to_map_1). by rewrite insert_union_l.
    + exists (l :: ls). split; [by rewrite Els, Elocals, <- app_assoc|]. by constructor.
Qed.
End entry.

Section allocate.
Context `{AlignOpsSpec} `{CppClassesSpec}.

Lemma empty_fine id name : frame_fine (new_FunctionInfo id name).
Proof. by constructor. Qed.
Lemma hidden_fine id name ret : exists l f, NewParameterLocal (new_FunctionInfo id name) (PointerTo ret) "hiddenRv" = (local_ref l, f) /\
  locals_ f = [l] /\ li_name l = "hiddenRv"%string /\ li_offset l = 0 /\ li_size l = 8 /\ frame_fine f /\ parameters_area f = (0, frame_size_ f).
Proof.
  destruct (NewParameterLocal_fine (new_FunctionInfo id name) (PointerTo ret) "hiddenRv" (empty_fine _ _) (pointer_small_type ret)) as (l & f & E & El & Et & En & Hf & Ea & _).
  { unfold few_locals, max_locals. cbn. lia. }
  exists l, f. split; [done|]. split; [done|]. split; [done|].
  assert (li_offset l = 0 /\ li_size l = 8) as [? ?]; [|done].
  cbn in E. injection E as _ E. rewrite <- E in El. cbn in El. injection El as <-. done.
Qed.

Lemma AllocateFunc_entry name params ret fn s u s' : AllocateFunc name params ret s = Some (u, s') -> mapM param_name params = Some (fn_params fn) ->
  fn_ret fn = ret -> Forall (fun p => primitive p.2 = true /\ variable_name_ok p.1 = true) (fn_params fn) -> NoDup (map fst (fn_params fn)) ->
  exists f, gen_functions_ s' = gen_functions_ s ++ [f] /\ func_map_ s' = <[name := wrapu 16 (Z.of_nat (length (gen_functions_ s)))]> (func_map_ s) /\
    bytecode_ s' = bytecode_ s /\ execution_result_ s' = execution_result_ s /\ (few_locals f -> entry_frame fn f).
Proof.
  unfold AllocateFunc. intros Hr Hps <- Hall Hnd. bstep Hr as fs s1 E. injection E as <- <-. bstep Hr as f s1 E. apply the_inv in E as [Ef ->].
  bstep Hr as [] s1 E. injection E as <-. bstep Hr as m s1 E. injection E as <- <-. injection Hr as _ <-.
  exists f. split; [done|]. split; [done|]. split; [done|]. split; [done|]. intros Hfew.
  assert (Forall (fun p => primitive p.2 = true /\ variable_name_ok p.1 = true /\ (∅ : typing) !! p.1 = None) (fn_params fn)) as Hall' by (eapply Forall_impl; [exact Hall|]; by intros ? []).
  set (id := wrapu 16 _) in Ef. destruct (IsNilType (fn_ret fn)) eqn:En.
  - destruct (new_parameters_entry params (fn_params fn) (new_FunctionInfo id name) f ∅ Hps Ef (empty_fine _ _)) as (Hf & Ht & Ha & ls & El & Hls); [|done..|].
    { split; [done|]. intros x _. done. }
    constructor; [done| |done|by rewrite En|].
    + assert ((list_to_map (fn_params fn) : typing) ∪ ∅ = list_to_map (fn_params fn)) as <- by apply (right_id_L ∅ (∪)). exact Ht.
    + exists [], ls. by rewrite En.
  - destruct (hidden_fine id name (fn_ret fn)) as (l & f1 & E1 & El1 & En1 & Eo & Es & Hf1 & Ha1). rewrite E1 in Ef. cbn [snd] in Ef.
    destruct (new_parameters_entry params (fn_params fn) f1 f ∅ Hps Ef Hf1) as (Hf & Ht & Ha & ls & El & Hls); [|done..|].
    { split; [done|]. intros x Hx. rewrite lookup_empty. unfold lookup_place. rewrite El1. cbn [list_find]. rewrite decide_False; [done|].
      rewrite En1. by intros <-. }
    rewrite El1 in El. constructor; [done| |done| |].
    + assert ((list_to_map (fn_params fn) : typing) ∪ ∅ = list_to_map (fn_params fn)) as <- by apply (right_id_L ∅ (∪)). exact Ht.
    + intros _. exists l. by rewrite El.
    + exists [l], ls. rewrite En. split; [done|]. split; [done|]. split; [by constructor|done].
Qed.
End allocate.

(** * The functions of a file *)

Section files.
Context `{AlignOpsSpec} `{CppClassesSpec} `{Catalog}.

(** The code of the function is a part of [p], which begins at [pos]. *)
Record compiled (Σ : signatures) (ids : gmap string Z) (pos : Z) (p : list item) (fn : tpl_function) (G : FunctionInfo TplType) : Prop := {
  compiled_fine : frame_fine G;
  compiled_code : exists f0 q f' before after, entry_frame fn f0 /\ stmt_code Σ ids (fn_ret fn) f0 (fn_body fn) q f' /\ locals_ G = locals_ f' /\
    parameters_area G = parameters_area f0 /\ p = before ++ q ++ after /\ (bytecode_range_ G).1 = pos + program_size before
}.
Lemma compiled_more Σ Σ' ids ids' pos p fn G : Σ ⊆ Σ' -> ids ⊆ ids' -> compiled Σ ids pos p fn G -> compiled Σ' ids' pos p fn G.
Proof.
  intros HΣ Hids [Hf (f0 & q & f' & before & after & He & Hc & Hrest)]. split; [done|]. exists f0, q, f', before, after. split; [done|]. split; [|done].
  by eapply (stmt_code_more Σ Σ' ids ids' HΣ Hids).
Qed.
Lemma compiled_left Σ ids pos p p' fn G : compiled Σ ids pos p fn G -> compiled Σ ids pos (p ++ p') fn G.
Proof.
  intros [Hf (f0 & q & f' & before & after & He & Hc & El & Ea & -> & Er)]. split; [done|]. exists f0, q, f', before, (after ++ p').
  by rewrite <- !app_assoc.
Qed.
Lemma compiled_right Σ ids pos p p' fn G : compiled Σ ids (pos + program_size p) p' fn G -> compiled Σ ids pos (p ++ p') fn G.
Proof.
  intros [Hf (f0 & q & f' & before & after & He & Hc & El & Ea & -> & Er)]. split; [done|]. exists f0, q, f', (p ++ before), after.
  rewrite <- !app_assoc. do 5 (split; [done|]). rewrite Er, program_size_app. lia.
Qed.

(** The functions so far: their signatures, and their numbers. *)
Record table (Σ : signatures) (fns : list tpl_function) (s : BytecodeGenerator) : Prop := {
  table_length : length (gen_functions_ s) = length fns;
  table_known i fn : fns !! i = Some fn -> Σ !! fn_name fn = Some (signature fn) /\ func_map_ s !! fn_name fn = Some (wrapu 16 (Z.of_nat i));
  table_all x sig : Σ !! x = Some sig -> exists i fn, fns !! i = Some fn /\ fn_name fn = x;
  table_new x : Σ !! x = None -> func_map_ s !! x = None;
  table_params x params t : Σ !! x = Some (params, t) -> Z.of_nat (length params) < 2 ^ 16 - 1
}.
Lemma table_ids Σ fns s x sig : table Σ fns s -> Σ !! x = Some sig -> is_Some (func_map_ s !! x).
Proof. intros Ht Hx. destruct (table_all _ _ _ Ht x sig Hx) as (i & fn & Hi & <-). eexists. by apply (table_known _ _ _ Ht i). Qed.
Lemma table_add Σ fns s s' f fn : table Σ fns s -> Σ !! fn_name fn = None -> Z.of_nat (length (fn_params fn)) < 2 ^ 16 - 1 ->
  gen_functions_ s' = gen_functions_ s ++ [f] -> func_map_ s' = <[fn_name fn := wrapu 16 (Z.of_nat (length (gen_functions_ s)))]> (func_map_ s) ->
  table (<[fn_name fn := signature fn]> Σ) (fns ++ [fn]) s'.
Proof.
  intros [Hl Hk Ha Hn Hp] Hnew Hlen Ef Em. split.
  - rewrite Ef, !length_app, Hl. done.
  - intros i fn' [Hi|[Hle Hi]]%lookup_app_Some.
    + destruct (Hk i fn' Hi) as [Hs Hid]. assert (fn_name fn' <> fn_name fn) as Hne by congruence. rewrite Em, !lookup_insert_ne by congruence. done.
    + apply list_lookup_singleton_Some in Hi as [Hi <-]. rewrite Em, !lookup_insert_eq. split; [done|]. do 3 f_equal. lia.
  - intros x sig Hx. destruct (decide (x = fn_name fn)) as [->|Hne].
    + exists (length fns), fn. by rewrite lookup_app_r, Nat.sub_diag.
    + rewrite lookup_insert_ne in Hx by done. destruct (Ha x sig Hx) as (i & fn' & Hi & <-). exists i, fn'. split; [by apply lookup_app_l_Some|done].
  - intros x [Hx Hne]%lookup_insert_None. rewrite Em, lookup_insert_ne by done. by apply Hn.
  - intros x params t Hx. destruct (decide (x = fn_name fn)) as [->|Hne].
    + rewrite lookup_insert_eq in Hx. injection Hx as <- _. by rewrite length_map.
    + rewrite lookup_insert_ne in Hx by done. by eapply Hp.
Qed.
Lemma table_code Σ fns s s' : table Σ fns s -> length (gen_functions_ s') = length (gen_functions_ s) -> func_map_ s' = func_map_ s -> table Σ fns s'.
Proof. intros [? ? ? ? ?] El Em. by split; rewrite ?El, ?Em. Qed.

Lemma function_of_inv p name func fn : function_of (TFunctionDeclaration p name func) = Some fn -> exists pos repr body ty params, func = TFunctionLiteralExpression repr body ty /\
  GetType repr = Some (FunctionType params (fn_ret fn)) /\ mapM param_name params = Some (fn_params fn) /\ fn_name fn = string_of name /\ fn_body fn = body /\ pos = p.
Proof.
  cbn [function_of]. destruct func; try done. match goal with |- context [TFunctionLiteralExpression ?r ?b ?t] => rename r into repr, b into body, t into ty end.
  destruct (GetType repr) as [[| | | | | |params ret]|] eqn:E; try done.
  destruct (mapM param_name params) as [ps|] eqn:Ep; [|done]. intros [= <-]. by exists p, repr, body, ty, params.
Qed.
Lemma core_function_inv Σ fn : core_function Σ fn = true -> Z.of_nat (length (fn_params fn)) < 2 ^ 16 - 1 /\
  Forall (fun p => primitive p.2 = true /\ variable_name_ok p.1 = true) (fn_params fn) /\ NoDup (map fst (fn_params fn)) /\
  (primitive (fn_ret fn) = true \/ IsNilType (fn_ret fn) = true) /\ exists Γ, core_stmt Σ (fn_ret fn) (list_to_map (fn_params fn)) (fn_body fn) = Some Γ.
Proof.
  unfold core_function. intros Hc. repeat match goal with Hb : _ && _ = true |- _ => apply andb_true_iff in Hb as [? ?] end.
  repeat match goal with Hb : bool_decide _ = true |- _ => apply bool_decide_eq_true in Hb | Hb : (_ <? _) = true |- _ => apply Z.ltb_lt in Hb
    | Hb : _ || _ = true |- _ => apply orb_true_iff in Hb | Hb : forallb _ _ = true |- _ => rewrite forallb_forall in Hb end.
  split; [done|]. split; [|done]. apply Forall_forall. intros p Hp. apply list_elem_of_In in Hp. split; [auto|].
  match goal with Hb : forall x, In x (map fst _) -> _ |- _ => apply Hb, in_map, Hp end.
Qed.

(** A function is compiled. *)
Lemma compile_function Σ fns p name func fn s s' n : function_of (TFunctionDeclaration p name func) = Some fn -> Σ !! fn_name fn = None ->
  core_function (<[fn_name fn := signature fn]> Σ) fn = true -> sane s -> execution_result_ s = None -> table Σ fns s ->
  gen_decl (TFunctionDeclaration p name func) s = Some (tt, s') -> Forall few_locals (gen_functions_ s') ->
  let Σ' := <[fn_name fn := signature fn]> Σ in exists q n' G, writes n n' q (bytecode_ s) (bytecode_ s') /\ execution_result_ s' = None /\
    Forall item_ok q /\ gen_functions_ s' = gen_functions_ s ++ [G] /\ func_map_ s ⊆ func_map_ s' /\ table Σ' (fns ++ [fn]) s' /\
    compiled Σ' (func_map_ s') (Z.of_nat (length (bytecode_ s))) q fn G.
Proof.
  intros Hfn Hnew Hcore Hs Ex Htab Hr Hfew Σ'. destruct (function_of_inv _ _ _ _ Hfn) as (_ & repr & body & ty & params & -> & Ety & Eps & En & Eb & _).
  destruct (core_function_inv _ _ Hcore) as (Hlen & Hall & Hnd & _ & Γ' & Hstmt).
  cbn [gen_decl] in Hr. unfold VisitFunctionDeclaration, literal_type in Hr. rewrite Ety in Hr.
  bstep Hr as pr s0 E. injection E as <- <-. bstep Hr as [] s1 E.
  destruct (AllocateFunc_entry _ _ _ fn _ _ _ E Eps eq_refl Hall Hnd) as (f0 & Ef & Em & Ec & Ex1 & Hentry). rewrite <- En in Em. unfold in_position_scope in Hr.
  bstep Hr as fs s2 E2. injection E2 as <- <-. bstep Hr as start s2 E2. injection E2 as <- <-. bstep Hr as [] s2 Ev. cbn [gen_expr] in Ev. rewrite <- Eb in Ev.
  bstep Hr as stop s3 E3. injection E3 as <- <-. bstep Hr as fs' s3 E3. injection E3 as <- <-.
  destruct (decide _) as [El|]; [|done]. bstep Hr as f2 s3 E3. unfold GetCurrentFunction in E3. bstep E3 as fs2 s4 E4. injection E4 as <- <-.
  apply the_inv in E3 as [Elast ->]. injection Hr as <-. cbn [set_functions gen_functions_ func_map_ bytecode_ execution_result_] in *.
  pose proof (table_add Σ fns s s1 f0 fn Htab Hnew Hlen Ef Em) as Htab1. fold Σ' in Htab1.
  assert (sane s1) as Hs1 by (unfold sane; by rewrite Ex1).
  destruct (translated_statement Σ' (func_map_ s1) (fun x sig => table_ids _ _ _ x sig Htab1) (fn_ret fn) (fn_body fn) _ _ Hstmt _ _ _ Hs1 Ev n)
    as (q & n' & Hw & _ & Hspec & Hg). rewrite <- Ex1 in Ex. destruct (Hspec Ex) as [Ex2 Hspec'].
  pose proof (grows_locals _ _ Hg) as Hgf. rewrite Ef in Hgf. apply Forall2_app_inv_l in Hgf as (l1 & l2 & Hl1 & Hl2 & E2). inversion Hl2 as [|? f2' ? l3 [Hp Ha] Hl3]; subst. inversion Hl3; subst.
  rewrite E2, last_snoc in Elast. injection Elast as ->. rewrite E2, removelast_last in Hfew.
  assert (few_locals f2) as Hfew2 by (apply Forall_app in Hfew as [_ Hfew]; apply Forall_cons_1 in Hfew as [Hfew _]; exact Hfew).
  assert (entry_frame fn f0) as He by (apply Hentry; by eapply few_locals_prefix).
  destruct (Hspec' (gen_functions_ s) f0) as (f' & [Ef2 Hf' _ Em2] & Hcode).
  { constructor; [done|apply He|apply He|done]. } { unfold small. by rewrite E2, last_snoc. }
  rewrite E2 in Ef2. apply app_inj_tail in Ef2 as [-> ->]. rewrite Ec in Hw.
  exists q, n', (SetBytecodeRange f' (GetPosition (bytecode_ s1)) (GetPosition (bytecode_ s2))). rewrite E2, removelast_last, Em2.
  split; [exact Hw|]. split; [exact Ex2|]. split; [exact (proj1 (stmt_code_items Σ' (func_map_ s1) (table_params _ _ _ Htab1) (fn_ret fn)) _ _ _ _ Hcode)|].
  split; [done|]. split; [|split].
  - rewrite Em. apply insert_subseteq. by apply (table_new _ _ _ Htab).
  - eapply table_code; [exact Htab1| |done]. cbn [set_functions gen_functions_]. by rewrite Ef, !length_app.
  - split; [destruct Hf'; by constructor|]. exists f0, q, f', [], []. split; [done|]. split; [done|]. split; [done|]. split; [done|].
    cbn [app]. rewrite app_nil_r. split; [done|]. cbn [SetBytecodeRange bytecode_range_ fst]. unfold GetPosition. rewrite Ec. change (program_size []) with 0. lia.
Qed.

(** The functions before keep their locals, at least. *)
Lemma function_grown p name func s s' : has_bytecode func = true -> sane s -> gen_decl (TFunctionDeclaration p name func) s = Some (tt, s') ->
  sane s' /\ exists fs f, gen_functions_ s' = fs ++ [f] /\ Forall2 grown (gen_functions_ s) fs.
Proof.
  intros Hb Hs Hr. cbn [gen_decl] in Hr. unfold VisitFunctionDeclaration in Hr.
  bstep Hr as [params ret] s0 E. apply the_inv in E as [_ ->]. bstep Hr as [] s1 E.
  apply AllocateFunc_inv in E as (f & Ef & Ec & Ex & Eh). unfold in_position_scope in Hr.
  bstep Hr as fs s2 E. injection E as <- <-. bstep Hr as start s2 E. injection E as <- <-. bstep Hr as [] s2 Ev.
  bstep Hr as stop s3 E. injection E as <- <-. bstep Hr as fs' s3 E. injection E as <- <-.
  assert (sane s1) as Hs1 by (unfold sane; by rewrite Ex).
  destruct (ok_run _ _ _ _ _ (proj1 ok_visitors func Hb) Hs1 Ev) as (Hs2 & _ & Hg).
  destruct (decide _) as [El|]; [|done]. bstep Hr as f2 s3 E. unfold GetCurrentFunction in E. bstep E as fs2 s4 E'. injection E' as <- <-.
  apply the_inv in E as [_ ->]. injection Hr as <-. pose proof (grows_locals _ _ Hg) as Hgf. rewrite Ef in Hgf.
  apply Forall2_app_inv_l in Hgf as (l1 & l2 & Hl1 & Hl2 & E2). inversion Hl2 as [|? f2' ? l3 _ Hl3]; subst. inversion Hl3; subst.
  split; [exact Hs2|]. eexists l1, _. split; [|done]. cbn [set_functions gen_functions_]. by rewrite E2, removelast_last.
Qed.
Lemma core_declarations_cons Σ d decls : core_declarations Σ (d :: decls) = true ->
  (exists p n t, d = TStructDeclaration p n t /\ core_declarations Σ decls = true) \/
  exists p name func fn, d = TFunctionDeclaration p name func /\ function_of d = Some fn /\ Σ !! fn_name fn = None /\
    core_function (<[fn_name fn := signature fn]> Σ) fn = true /\ core_declarations (<[fn_name fn := signature fn]> Σ) decls = true.
Proof.
  destruct d as [p name func|p n t|p n r i]; [|left; by exists p, n, t|done]. cbn [core_declarations].
  destruct (function_of (TFunctionDeclaration p name func)) as [fn|] eqn:E; [|done]. intros Hc.
  apply andb_true_iff in Hc as [Hc Hd]. apply andb_true_iff in Hc as [Hn Hc]. apply bool_decide_eq_true in Hn. right. by exists p, name, func, fn.
Qed.
Lemma core_function_bytecode Σ p name func fn : function_of (TFunctionDeclaration p name func) = Some fn -> core_function Σ fn = true -> has_bytecode func = true.
Proof.
  intros Hfn Hc. destruct (function_of_inv _ _ _ _ Hfn) as (_ & repr & body & ty & params & -> & _ & _ & _ & <- & _).
  destruct (core_function_inv _ _ Hc) as (_ & _ & _ & _ & Γ & Hs). exact (core_stmt_has_bytecode _ _ _ _ _ Hs).
Qed.
Lemma declarations_grown decls : forall Σ s s', core_declarations Σ decls = true -> sane s -> gen_all gen_decl decls s = Some (tt, s') ->
  Forall few_locals (gen_functions_ s') -> Forall few_locals (gen_functions_ s).
Proof.
  induction decls as [|d decls IH]; intros Σ s s' Hc Hs Hr Hfew; [by injection Hr as <-|]. cbn [gen_all] in Hr. bstep Hr as [] s1 E.
  destruct (core_declarations_cons _ _ _ Hc) as [(p & n & t & -> & Hc')|(p & name & func & fn & -> & Hfn & _ & Hcore & Hc')].
  - injection E as <-. by eapply IH.
  - pose proof (core_function_bytecode _ _ _ _ _ Hfn Hcore) as Hb.
    destruct (function_grown _ _ _ _ _ Hb Hs E) as (Hs1 & fs & f & Ef & Hg). specialize (IH _ _ _ Hc' Hs1 Hr Hfew). rewrite Ef in IH.
    apply Forall_app in IH as [IH _]. clear -Hg IH. revert IH. induction Hg as [|f f' l l' [Hp _] _ IHg]; [done|]. intros [Hf Hl]%Forall_cons_1.
    apply Forall_cons_2; [exact (few_locals_prefix _ _ Hp Hf)|auto].
Qed.

Lemma compile_declarations decls : forall Σ fns s s' n, core_declarations Σ decls = true -> execution_result_ s = None -> table Σ fns s ->
  gen_all gen_decl decls s = Some (tt, s') -> Forall few_locals (gen_functions_ s') ->
  exists q n' Σ' Gs, writes n n' q (bytecode_ s) (bytecode_ s') /\ Forall item_ok q /\ gen_functions_ s' = gen_functions_ s ++ Gs /\
    Σ ⊆ Σ' /\ func_map_ s ⊆ func_map_ s' /\ table Σ' (fns ++ omap function_of decls) s' /\
    Forall2 (compiled Σ' (func_map_ s') (Z.of_nat (length (bytecode_ s))) q) (omap function_of decls) Gs.
Proof.
  induction decls as [|d decls IH]; intros Σ fns s s' n Hc Ex Htab Hr Hfew.
  - injection Hr as <-. exists [], n, Σ, []. split; [apply writes_nil|]. change (omap function_of []) with (@nil tpl_function). rewrite !app_nil_r.
    do 4 (split; [done|]). split; [exact Htab|constructor].
  - cbn [gen_all] in Hr. bstep Hr as [] s1 E. assert (sane s) as Hs by (unfold sane; by rewrite Ex).
    destruct (core_declarations_cons _ _ _ Hc) as [(p & nm & t & -> & Hc')|(p & name & func & fn & -> & Hfn & Hnew & Hcore & Hc')].
    + injection E as <-. cbn [omap list_omap function_of]. by eapply IH.
    + pose proof (core_function_bytecode _ _ _ _ _ Hfn Hcore) as Hb.
      destruct (function_grown _ _ _ _ _ Hb Hs E) as (Hs1 & _).
      pose proof (declarations_grown _ _ _ _ Hc' Hs1 Hr Hfew) as Hfew1.
      destruct (compile_function Σ fns p name func fn s s1 n Hfn Hnew Hcore Hs Ex Htab E Hfew1) as (q1 & n1 & G & Hw1 & Ex1 & Hq1 & Ef1 & Hids1 & Htab1 & HG).
      destruct (IH _ _ s1 s' n1 Hc' Ex1 Htab1 Hr Hfew) as (q2 & n2 & Σ2 & Gs & Hw2 & Hq2 & Ef2 & HΣ2 & Hids2 & Htab2 & HGs).
      assert (Σ ⊆ Σ2) as HΣ by (etrans; [by apply insert_subseteq|exact HΣ2]).
      exists (q1 ++ q2), n2, Σ2, (G :: Gs). assert (omap function_of (TFunctionDeclaration p name func :: decls) = fn :: omap function_of decls) as ->.
      { cbn [omap list_omap]. by rewrite Hfn. }
      split; [by eapply writes_app|]. split; [by apply Forall_app|]. split; [by rewrite Ef2, Ef1, <- app_assoc|]. split; [done|]. split; [by etrans|].
      split; [by rewrite <- app_assoc in Htab2|]. rewrite (writes_length _ _ _ _ _ Hq1 Hw1) in HGs. constructor.
      * apply compiled_left. exact (compiled_more _ _ _ _ _ _ _ _ HΣ2 Hids2 HG).
      * eapply Forall2_impl; [exact HGs|]. intros fn' G'. apply compiled_right.
Qed.

End files.
