(* ===== verification/GeneratorCorrect.v ===== *)
(** The compiler of the core is correct: the machine computes what a program means. *)
From S2P Require Import Prelude BitUtil Buffer Token Ast TreeInduction Layout Types TypesSpec TypedAst Builtins SemaChecking Bytecodes FunctionInfo FunctionInfoSpec BytecodeEmitter BytecodeSpec CTypes Memory VmHandlers VM VmSpec Driver GeneratorState GeneratorBuiltins BytecodeGenerator GeneratorSpec GeneratorEmits GeneratorWellFormed GeneratorTheorems TplSemantics TplCore GeneratorCode GeneratorTranslates GeneratorMachine GeneratorRuns GeneratorFunctions.

(** The parameters of a function have different names. *)
Record good_parameters (fn : tpl_function) : Prop := {
  good_names : Forall (fun p => variable_name_ok p.1 = true) (fn_params fn);
  good_once : NoDup (map fst (fn_params fn))
}.

Section entry.
Context `{AlignOpsSpec} `{CppClassesSpec}.

Lemma entry_parameter fn f0 i x ty : entry_frame fn f0 -> fn_params fn !! i = Some (x, ty) ->
  exists l, locals_ f0 !! (first_param (fn_ret fn) + i)%nat = Some l /\ li_name l = x /\ li_type l = ty.
Proof.
  intros He Hi. destruct (entry_params _ _ He) as (hidden & ls & El & Elen & _ & Hls). destruct (Forall2_lookup_l _ _ _ _ _ Hls Hi) as (l & Hl & En & Et).
  exists l. split; [|done]. rewrite El. unfold first_param. rewrite <- Elen. by rewrite lookup_app_r, Nat.add_comm, Nat.add_sub by lia.
Qed.
Lemma entry_lookup fn f0 i x ty l : entry_frame fn f0 -> good_parameters fn -> fn_params fn !! i = Some (x, ty) ->
  locals_ f0 !! (first_param (fn_ret fn) + i)%nat = Some l -> lookup_place f0 x = Some ((first_param (fn_ret fn) + i)%nat, l).
Proof.
  intros He [Hgn Hgo] Hi Hl. destruct (entry_parameter _ _ _ _ _ He Hi) as (l' & Hl' & En & _). rewrite Hl in Hl'. injection Hl' as <-.
  apply list_find_Some. split; [done|]. split; [done|]. intros k lk Hk Hlt Enk.
  destruct (entry_params _ _ He) as (hidden & ls & El & Elen & Hhid & Hls). rewrite El in Hk. unfold first_param in *. rewrite <- Elen in Hlt.
  apply lookup_app_Some in Hk as [Hk|[Hle Hk]].
  - rewrite Forall_lookup in Hhid. rewrite (Hhid _ _ Hk) in Enk. rewrite Forall_lookup in Hgn. specialize (Hgn _ _ Hi). cbn [fst] in Hgn. by rewrite <- Enk in Hgn.
  - destruct (Forall2_lookup_r _ _ _ _ _ Hls Hk) as ([y ty'] & Hy & Ey & _). cbn [fst] in Ey. assert (x = y) as -> by congruence.
    assert (k - length hidden = i)%nat; [|lia]. apply (NoDup_lookup (map fst (fn_params fn)) _ _ y); [done|rewrite list_lookup_fmap, Hy; reflexivity|rewrite list_lookup_fmap, Hi; reflexivity].
Qed.
Lemma entered_agrees fn f0 G fb ra vs m : entry_frame fn f0 -> good_parameters fn -> locals_ f0 `prefix_of` locals_ G ->
  entered G (fn_ret fn) fb ra vs m -> agrees G fb (fun _ => True) (list_to_map (zip (map fst (fn_params fn)) vs)) m.
Proof.
  intros He Hg Hpre [_ _ Hp] x v _ Hx. apply elem_of_list_to_map_2, list_elem_of_lookup in Hx as (i & Hi).
  apply lookup_zip_with_Some in Hi as (x' & v' & [= <- <-] & Hx & Hv). rewrite list_lookup_fmap in Hx.
  destruct (fn_params fn !! i) as [[y ty]|] eqn:Ei; [|done]. injection Hx as ->.
  destruct (entry_parameter _ _ _ _ _ He Ei) as (l & Hl & _). destruct (Hp i v Hv) as (l' & Hl' & Hh). pose proof Hpre as [k Ek].
  assert (l' = l) as ->. { rewrite Ek in Hl'. apply (lookup_app_l_Some _ k) in Hl. congruence. }
  split; [pose proof (good_names _ Hg) as Hgn; rewrite Forall_lookup in Hgn; apply (Hgn _ _ Ei)|].
  exists ((first_param (fn_ret fn) + i)%nat, l). split; [|done]. eapply lookup_place_extend; [exact Hpre|]. by eapply entry_lookup.
Qed.
End entry.

(** * A compiled file *)

Section whole.
Context `{Runtime} `{FrameAllocatorSpec} `{AlignOpsSpec} `{CppClassesSpec}.
Context (module : BytecodeModule TplType) (p : list item) (Hok : program_ok p) (Hcode : code_ module = encode (lower (where_bound 0 p) 0 p)).
Context (Σ : signatures) (ids : gmap string Z) (fns : list tpl_function).
Context (Hcompiled : Forall2 (compiled Σ ids 0 p) fns (functions_ module)) (Hgood : Forall good_parameters fns).
Context (Hknown : forall i fn, fns !! i = Some fn -> Σ !! fn_name fn = Some (signature fn) /\ ids !! fn_name fn = Some (wrapu 16 (Z.of_nat i))).
Context (Hmany : Z.of_nat (length fns) <= 2 ^ 16).
Context (bound : Z) (Hbound : Forall (fun G => frame_size_ G <= bound) (functions_ module)) (Hbound0 : 0 <= bound).

Lemma compiled_extends fn G f0 q f' : locals_ G = locals_ f' -> stmt_code Σ ids (fn_ret fn) f0 (fn_body fn) q f' -> locals_ f0 `prefix_of` locals_ G.
Proof. intros -> Hc. apply (proj1 (stmt_code_extends Σ ids (fn_ret fn)) _ _ _ _ Hc). Qed.

(** The code of a function does what its body does. *)
Lemma body_implements call need fn G fuel vs r : compiled Σ ids 0 p fn G -> good_parameters fn -> 0 <= need -> calls_ok module Σ ids call bound need ->
  exec call fuel (list_to_map (zip (map fst (fn_params fn)) vs)) (fn_body fn) = Ok (Returned r) -> implements module (bound + need) G (fn_ret fn) vs r.
Proof.
  intros [Hfine (f0 & q & f' & before & after & He & Hc & El & _ & Ep & Er)] Hg Hneed Hcalls Hex fb ra m Hfb0 Hfb1 Hent Hret Hroom.
  pose proof (compiled_extends fn G f0 q f' El Hc) as Hpre.
  assert (IsNilType (fn_ret fn) = false -> exists l, locals_ G !! 0%nat = Some l /\ li_offset l = 0 /\ li_size l = 8 /\ li_name l = "hiddenRv"%string) as Hres.
  { intros Hn. destruct (entry_result _ _ He Hn) as (l & Hl & Hrest). exists l. split; [|done]. destruct Hpre as [k ->]. by apply lookup_app_l_Some. }
  assert (q ++ after `suffix_of` p) as Hsuf by (by exists before).
  assert (extends f' G) as Hf' by (unfold extends; by rewrite El).
  pose proof (statement_runs module p (labels_once _ Hok) G Hfine fb (conj Hfb0 Hfb1) Σ ids call bound need Hneed Hcalls (fn_ret fn) ra Hres fuel _ _ _ _ _ _ m after Hc Hf' Hex) as Hrun.
  destruct Hrun as (k & n & m' & Hk & Hresult & Hsame); [|exact Hsuf|].
  { constructor; [apply Hent|unfold room; lia|by eapply entered_agrees|apply Hent|done]. }
  exists (n + k)%nat, m'. split; [|done]. intros fuel' Hfuel'. unfold AccessBytecodeForFunctionRaw. rewrite Er.
  assert (run module p (the_frame G fb) fuel' (q ++ after) m = Ok m') as Erun.
  { replace fuel' with (n + (fuel' - n))%nat by lia. apply Hk. lia. }
  rewrite (run_interpret module 0 p Hok) with (rest := q ++ after); [exact Erun|exists [], []; by rewrite app_nil_r|done|by rewrite Erun].
Qed.

Lemma compiled_callee fn G : compiled Σ ids 0 p fn G -> frame_size_ G <= bound -> callee bound G (map snd (fn_params fn)) (fn_ret fn).
Proof.
  intros [Hfine (f0 & q & f' & before & after & He & Hc & El & _ & Ep & Er)] Hsz. pose proof (compiled_extends fn G f0 q f' El Hc) as [k Ek].
  constructor; [done|done| |].
  - intros i ty Hi. rewrite list_lookup_fmap in Hi. destruct (fn_params fn !! i) as [[x ty']|] eqn:E; [|done]. injection Hi as <-.
    destruct (entry_parameter _ _ _ _ _ He E) as (l & Hl & _ & Et). exists l. split; [|done]. rewrite Ek. by apply lookup_app_l_Some.
  - intros Hn. destruct (entry_result _ _ He Hn) as (l & Hl & Eo & Es & _). exists l. split; [|done]. rewrite Ek. by apply lookup_app_l_Some.
Qed.

Lemma find_function_lookup name fn : find_function fns name = Some fn -> exists i, fns !! i = Some fn /\ fn_name fn = name.
Proof.
  unfold find_function. intros Hf. apply List.find_some in Hf as [Hin Hn]. apply list_elem_of_In, list_elem_of_lookup in Hin as [i Hi].
  exists i. split; [done|]. by apply String.eqb_eq.
Qed.
(** By induction on the depth of calls. *)
Lemma program_calls fuel depth : calls_ok module Σ ids (call_function fns fuel depth) bound (Z.of_nat depth * bound).
Proof.
  induction depth as [|depth IH]; intros name params t id vs r Hs Hid Hlen Hcall; [done|]. cbn [call_function] in Hcall.
  apply rbind_Ok in Hcall as (fn & Hfn & Hcall). apply lift_Ok, find_function_lookup in Hfn as (i & Hi & <-).
  destruct (decide _); [|done]. apply rbind_Ok in Hcall as ([ρ|r'] & Hex & Hcall); [done|]. injection Hcall as ->.
  destruct (Hknown i fn Hi) as [Hs' Hid']. rewrite Hs in Hs'. injection Hs' as -> ->. rewrite Hid in Hid'. injection Hid' as ->.
  destruct (Forall2_lookup_l _ _ _ _ _ Hcompiled Hi) as (G & HG & HcG). exists G. apply lookup_lt_Some in Hi as Hlt.
  rewrite Forall_lookup in Hbound. pose proof (Hbound _ _ HG) as Hsz. rewrite Forall_lookup in Hgood. pose proof (Hgood _ _ Hi) as Hg.
  split; [|split].
  - unfold GetFuncInfoById. rewrite !wrapu_small by (unfold is_uint; change (2 ^ 16) with 65536 in *; rewrite ?wrapu_small by (unfold is_uint; change (2 ^ 16) with 65536 in *; lia); lia). by rewrite Nat2Z.id.
  - by apply compiled_callee.
  - replace (Z.of_nat (S depth) * bound) with (bound + Z.of_nat depth * bound) by lia.
    eapply body_implements; [done|done|lia|exact IH|exact Hex].
Qed.

End whole.

(** * Invoking a function *)

Lemma placed_app_inv at_ l1 l2 stop : placed at_ (l1 ++ l2) stop -> exists mid, placed at_ l1 mid /\ placed mid l2 stop.
Proof.
  revert at_. induction l1 as [|[o [s a]] l1 IH]; intros at_; cbn [app placed]; [by exists at_|]. intros (Ho & Hd & (mid & H1 & H2)%IH). by exists mid.
Qed.
Lemma placed_unique at_ l s s' : placed at_ l s -> placed at_ l s' -> s = s'.
Proof. revert at_. induction l as [|[o [sz a]] l IH]; intros at_; cbn [placed]; [by intros -> ->|]. intros (_ & _ & Hs) (_ & _ & Hs'). by eapply IH. Qed.

(** What a caller prepares: where the result goes, and the values of the parameters, laid out like the
    parameters of the function. *)
Record argument_buffer (f : FunctionInfo TplType) (t : TplType) (args ra : Z) (vs : list Z) (m : memory) : Prop := {
  buffer_allocated : allocated args (params_size_ f) m;
  buffer_result : IsNilType t = false -> load 8 args m = Some ra;
  buffer_values i v : vs !! i = Some v -> exists l, locals_ f !! (first_param t + i)%nat = Some l /\
    load (Z.to_nat (li_size l)) (args + li_offset l) m = Some v /\ is_uint (8 * li_size l) v
}.
(** There is room for a result. *)
Definition result_area `{AlignOps, CppClasses} (t : TplType) (ra : Z) (m : memory) : Prop :=
  IsNilType t = false -> 0 <= ra < 2 ^ 64 /\ allocated ra (GetSize t) m.

Section invoke.
Context `{Runtime} `{FrameAllocatorSpec} `{AlignOpsSpec} `{CppClassesSpec}.

Lemma frame_prefix (f g : FunctionInfo TplType) : frame_fine f -> frame_fine g -> locals_ f `prefix_of` locals_ g -> 0 <= frame_size_ f <= frame_size_ g.
Proof.
  intros Hf Hg [k E]. split; [apply (fine_size _ Hf)|]. pose proof (fine_placed _ Hg) as Hp. rewrite E, map_app in Hp.
  apply placed_app_inv in Hp as (mid & Hp1 & Hp2). rewrite <- (placed_unique _ _ _ _ Hp1 (fine_placed _ Hf)).
  refine (proj1 (placed_bounds mid _ _ _ Hp2)). pose proof (local_sizes g Hg) as Hs. rewrite E, map_app in Hs. by apply Forall_app in Hs as [_ Hs].
Qed.

Lemma copy_run_area n dest src m : allocated dest n m -> allocated src n m -> 0 <= n ->
  exists m', copy_bytes (Z.to_nat n) dest src m = Some m' /\ same_but (within dest n) m m' /\
    forall k off, 0 <= off -> off + Z.of_nat k <= n -> load k (dest + off) m' = load k (src + off) m.
Proof.
  intros Hd Hs Hn. destruct (load_Some (Z.to_nat n) src m) as [v Hv]; [by rewrite Z2Nat.id|].
  destruct (copy_run (Z.to_nat n) dest src m v) as (m' & Ec & Hm & _); [by rewrite Z2Nat.id|done|]. rewrite Z2Nat.id in Hm by done.
  exists m'. split; [done|]. split; [done|]. intros k off Ho Hk. eapply copy_parts; [exact Ec|done|lia].
Qed.

Lemma invoke_implements module Σ ids p fn G id need vs r args ra m : GetFuncInfoById module id = Some G -> compiled Σ ids 0 p fn G ->
  implements module need G (fn_ret fn) vs r -> length vs = length (fn_params fn) -> argument_buffer G (fn_ret fn) args ra vs m -> result_area (fn_ret fn) ra m ->
  Z.of_nat (size m) + frame_size_ G + need <= memory_limit -> 0 <= need ->
  exists k m', (forall fuel, (k <= fuel)%nat -> InvokeFunction module fuel id args m = Ok m') /\
    same_but (return_area (fn_ret fn) ra) m m' /\ result_stored (fn_ret fn) ra r m'.
Proof.
  intros Hid Hcomp Hi Hlen [Hba Hbr Hbv] Hra Hroom Hneed. pose proof Hcomp as [Hfine (f0 & q & f' & before & after & He & Hc & El & Ea & _)].
  pose proof (compiled_extends Σ ids fn G f0 q f' El Hc) as Hpre. pose proof (frame_prefix f0 G (entry_fine _ _ He) Hfine Hpre) as [Hsz0 Hsz].
  rewrite (entry_area _ _ He) in Ea. unfold parameters_area in Ea. injection Ea as Est Esz. rewrite Esz in Hba.
  destruct (frame_fresh m (frame_size_ G)) as (Hraw0 & Hraw1 & Hun); [lia|lia|]. set (raw := frame_address m (frame_size_ G)) in *.
  set (m0 := allocate garbage raw (frame_size_ G) m).
  assert (forall x, is_Some (m !! x) -> ~ within raw (frame_size_ G) x) as Hout by (intros x [b Hb] Hx; by rewrite (Hun x Hx) in Hb).
  assert (forall x, is_Some (m !! x) -> m0 !! x = m !! x) as Hsame0 by (intros x Hx; by apply allocate_other, Hout).
  assert (forall k a, allocated a (Z.of_nat k) m -> load k a m0 = load k a m) as Hload.
  { intros k a Hal. apply same_on_load. intros x Hx. apply Hsame0, Hal, Hx. }
  destruct (copy_run_area (frame_size_ f0) raw args m0) as (m1 & Ec & Hs1 & Hl1); [|intros x Hx; destruct (Hba x Hx) as [b Hb]; exists b; by rewrite Hsame0|done|].
  { intros x Hx. apply (allocate_allocated garbage raw (frame_size_ G) m). lia. }
  assert (same_but (within raw (frame_size_ G)) m0 m1) as Hs1' by (eapply same_but_weaken; [exact Hs1|]; unfold within; lia).
  assert (forall j l, locals_ f0 !! j = Some l -> load (Z.to_nat (li_size l)) (raw + li_offset l) m1 = load (Z.to_nat (li_size l)) (args + li_offset l) m) as Hparam.
  { intros j l Hj. destruct (local_bounds f0 (entry_fine _ _ He) (j, l) Hj) as (Hb1 & Hb2 & Hb3). cbn [snd] in *. rewrite (Hl1 _ _ Hb1) by (rewrite Z2Nat.id; lia).
    apply Hload. rewrite Z2Nat.id by done. intros x Hx. apply Hba. lia. }
  destruct (Hi raw ra m1 Hraw0 Hraw1) as (k & m2 & Hk & Hs2 & Hres).
  - constructor.
    + eapply same_but_allocated; [exact Hs1'|apply allocate_allocated].
    + intros Hn. destruct (entry_result _ _ He Hn) as (l & Hl & Eo & Es & _). specialize (Hparam _ _ Hl). rewrite Eo, Es, !Z.add_0_r in Hparam.
      rewrite <- (Hbr Hn). exact Hparam.
    + intros i v Hv. destruct (Hbv i v Hv) as (l & Hl & Hlv & Hr). exists l. split; [done|]. split; [|done]. cbn [snd]. rewrite <- Hlv.
      destruct (fn_params fn !! i) as [[x ty]|] eqn:Ei.
      * destruct (entry_parameter _ _ _ _ _ He Ei) as (l' & Hl' & _). assert (l' = l) as ->; [|exact (Hparam _ _ Hl')].
        destruct Hpre as [kk Ek]. rewrite Ek in Hl. apply (lookup_app_l_Some _ kk) in Hl'. congruence.
      * apply lookup_ge_None in Ei. apply lookup_lt_Some in Hv. lia.
  - intros Hn. destruct (Hra Hn) as [Hra1 Hra2]. constructor; [done| |].
    + eapply same_but_allocated; [exact Hs1'|]. intros x Hx. rewrite Hsame0; by apply Hra2.
    + intros x Hx. apply Hout, Hra2, Hx.
  - rewrite (same_but_size _ _ _ Hs1). pose proof (allocate_size garbage raw (frame_size_ G) m ltac:(lia)) as Hsz0'. fold m0 in Hsz0'. lia.
  - exists k, (deallocate raw (frame_size_ G) m2). split; [|split].
    + intros fuel Hf. unfold InvokeFunction. rewrite Hid. cbn [lift mbind result_bind rbind]. fold raw. fold m0. rewrite Est, Esz, Z.add_0_r, Ec.
      cbn [lift mbind result_bind rbind]. specialize (Hk fuel Hf). unfold the_frame in Hk. by rewrite Hk.
    + eapply deallocate_same; [done|]. eapply same_but_trans; [eapply same_but_weaken; [exact Hs1'|by left]|exact Hs2].
    + unfold result_stored in *. destruct r as [v|]; [|done]. destruct Hres as (Hn & Hl & Hrange). split; [done|]. split; [|done].
      rewrite <- Hl. apply same_on_load. intros x Hx. rewrite deallocate_lookup, bool_decide_false; [done|]. apply Hout.
      destruct (Hra Hn) as [_ Hal]. apply Hal. pose proof (GetSize_range (fn_ret fn)). lia.
Qed.
End invoke.

(** * Theorems *)

Lemma core_declarations_good decls : forall Σ, core_declarations Σ decls = true -> Forall good_parameters (omap function_of decls).
Proof.
  induction decls as [|d decls IH]; intros Σ Hc; [constructor|]. destruct (core_declarations_cons _ _ _ Hc) as [(p & n & t & -> & Hc')|(p & name & func & fn & -> & Hfn & _ & Hcore & Hc')].
  - by eapply (IH Σ).
  - assert (omap function_of (TFunctionDeclaration p name func :: decls) = fn :: omap function_of decls) as -> by (cbn [omap list_omap]; by rewrite Hfn).
    constructor; [|by eapply IH]. destruct (core_function_inv _ _ Hcore) as (_ & Hall & Hnd & _). constructor; [|done].
    eapply Forall_impl; [exact Hall|]. by intros ? [].
Qed.

(** C1: A file of the core is compiled to bytecode that computes what the reference semantics says: when the
    call of a function has a result [r], with any fuel and depth of calls, then the machine, started with
    the arguments in a buffer, ends for every large enough fuel; the result is where the caller asked for
    it, and every other byte of memory is as it was, frames given back.  The frames of the calls must
    fit into memory; [bound] is the size of the largest. *)
Theorem Compile_correct `{Runtime} `{FrameAllocatorSpec} `{AlignOpsSpec} `{CppClassesSpec} `{Catalog} root g bound i fn f :
  Compile root = Some g -> core_file root = true -> Z.of_nat (length (bytecode_ g)) < 2 ^ 31 - 1 -> Z.of_nat (length (functions_of root)) <= 2 ^ 16 ->
  Forall few_locals (gen_functions_ g) -> Forall (fun G => frame_size_ G <= bound) (gen_functions_ g) ->
  functions_of root !! i = Some fn -> gen_functions_ g !! i = Some f ->
  forall static fuel depth vs r args ra m, call_function (functions_of root) fuel depth (fn_name fn) vs = Ok r ->
  argument_buffer f (fn_ret fn) args ra vs m -> result_area (fn_ret fn) ra m -> Z.of_nat (size m) + (Z.of_nat depth + 1) * bound <= memory_limit ->
  let module := mkModule (bytecode_ g) static (gen_functions_ g) in
  exists k m', (forall fuel', (k <= fuel')%nat -> InvokeFunction module fuel' (Z.of_nat i) args m = Ok m') /\
    same_but (return_area (fn_ret fn) ra) m m' /\ result_stored (fn_ret fn) ra r m'.
Proof.
  intros Hc Hcore Hsz Hmany Hfew Hbound Hi Hf static fuel depth vs r args ra m Hcall Hbuf Hra Hroom module.
  unfold Compile in Hc. destruct root as [pos decls]. cbn [gen_file] in Hc. cbn [core_file functions_of] in *.
  destruct (gen_all gen_decl decls new_BytecodeGenerator) as [[[] g']|] eqn:Er; [|done]. injection Hc as ->.
  destruct (compile_declarations decls ∅ [] new_BytecodeGenerator g 0%nat Hcore eq_refl ltac:(by split) Er Hfew)
    as (p & n' & Σ & Gs & Hw & Hp & EGs & _ & _ & Htab & Hcomp).
  change (bytecode_ new_BytecodeGenerator) with (@nil Z) in *. cbn [gen_functions_ new_BytecodeGenerator app length Z.of_nat] in EGs, Htab, Hcomp. subst Gs.
  pose proof (writes_length _ _ _ _ _ Hp Hw) as Hlen. cbn [length Z.of_nat] in Hlen.
  assert (program_ok p) as Hok by (destruct Hw as [Hcl _]; constructor; [done|apply Hcl|apply Hcl|lia]).
  destruct (writes_items _ _ _ _ _ Hw no_labels) as (labels & Em & _); [by intros l _|].
  assert (code_ module = encode (lower (where_bound 0 p) 0 p)) as Ebytes by (by eapply emitted_bytes).
  pose proof (core_declarations_good _ _ Hcore) as Hgood.
  pose proof (Forall2_lookup_lr _ _ _ _ _ _ Hcomp Hi Hf) as Hcf.
  assert (0 <= frame_size_ f <= bound) as [Hf0 Hfb].
  { split; [apply (fine_size _ (compiled_fine _ _ _ _ _ _ Hcf))|]. rewrite Forall_lookup in Hbound. by eapply Hbound. }
  destruct (table_known _ _ _ Htab i fn Hi) as [Hsig Hid].
  assert (length vs = length (fn_params fn)) as Hlenvs.
  { destruct depth as [|depth]; [done|]. cbn [call_function] in Hcall. apply rbind_Ok in Hcall as (fn' & Hfn' & Hcall).
    apply lift_Ok, find_function_lookup in Hfn' as (j & Hj & En). destruct (decide _) as [E|]; [|done].
    destruct (table_known _ _ _ Htab j fn' Hj) as [Hsig' _]. rewrite En, Hsig in Hsig'. injection Hsig' as E1 _.
    rewrite E, <- (length_map snd (fn_params fn')), <- E1. by rewrite length_map. }
  destruct (program_calls module p Hok Ebytes Σ (func_map_ g) (omap function_of decls) Hcomp Hgood (table_known _ _ _ Htab) Hmany bound Hbound ltac:(lia) fuel depth
    (fn_name fn) (map snd (fn_params fn)) (fn_ret fn) _ vs r Hsig Hid ltac:(by rewrite length_map) Hcall) as (G & HG & _ & Himp).
  assert (wrapu 16 (wrapu 16 (Z.of_nat i)) = Z.of_nat i) as Ei.
  { apply lookup_lt_Some in Hi. assert (is_uint 16 (Z.of_nat i)) as Hu; [|by rewrite !(wrapu_small 16 _ Hu)].
    unfold is_uint. change (2 ^ 16) with 65536 in *. lia. }
  rewrite Ei in HG. assert (G = f) as ->.
  { unfold GetFuncInfoById in HG. rewrite Nat2Z.id in HG. cbn [module functions_] in HG. congruence. }
  eapply (invoke_implements module Σ (func_map_ g) p fn f _ _ vs r args ra m HG Hcf Himp Hlenvs Hbuf Hra); nia.
Qed.

(** * An example *)

Section search.
(** Frames in the first of the blocks of their size in which no byte is in use. *)
Definition block_free (m : memory) (a n : Z) : bool := forallb (fun x => bool_decide (m !! x = None)) (seqZ a n).
Definition free_block (m : memory) (n : Z) : option Z := List.find (fun k => block_free m (k * n) n) (seqZ 0 (Z.of_nat (size m) + 1)).

Lemma block_free_spec m a n : block_free m a n = true -> unallocated a n m.
Proof.
  unfold block_free. rewrite forallb_forall. intros Hf x Hx. specialize (Hf x). rewrite bool_decide_eq_true in Hf. apply Hf, list_elem_of_In, elem_of_seqZ. lia.
Qed.
Lemma block_used m a n : block_free m a n = false -> exists x, a <= x < a + n /\ x ∈ dom m.
Proof.
  intros Hf. destruct (decide (Exists (fun x => is_Some (m !! x)) (seqZ a n))) as [He|Hn].
  - apply Exists_exists in He as (x & Hx%elem_of_seqZ & Hs). exists x. split; [lia|]. by apply elem_of_dom.
  - exfalso. apply not_true_iff_false in Hf. apply Hf. unfold block_free. apply forallb_forall. intros x Hx. apply bool_decide_eq_true, eq_None_not_Some. intros Hs.
    apply Hn, Exists_exists. exists x. split; [by apply list_elem_of_In|done].
Qed.
(** There are more blocks than bytes in use. *)
Lemma free_block_found m n : 0 <= n -> exists k, free_block m n = Some k /\ 0 <= k <= Z.of_nat (size m) /\ unallocated (k * n) n m.
Proof.
  intros Hn. unfold free_block. destruct (List.find _ _) as [k|] eqn:E.
  - apply List.find_some in E as [Hin Hf]. apply list_elem_of_In, elem_of_seqZ in Hin. exists k. split; [done|]. split; [lia|]. by apply block_free_spec.
  - exfalso. assert (exists xs, Forall2 (fun k x => x / n = k /\ x ∈ dom m) (seqZ 0 (Z.of_nat (size m) + 1)) xs) as [xs Hxs].
    { assert (Forall (fun k => exists x, x / n = k /\ x ∈ dom m) (seqZ 0 (Z.of_nat (size m) + 1))) as Hall.
      { apply Forall_forall. intros k Hk. apply list_elem_of_In in Hk. apply (List.find_none _ _ E) in Hk. destruct (block_used _ _ _ Hk) as (x & Hx & Hd).
        exists x. split; [|done]. symmetry. apply (Z.div_unique x n k (x - k * n)); lia. }
      clear E. induction Hall as [|k ks (x & Hx) _ (xs & Hxs)]; [by exists []|]. exists (x :: xs). by constructor. }
    pose proof (Forall2_length _ _ _ Hxs) as Hl. rewrite length_seqZ in Hl.
    assert (NoDup xs) as Hnd.
    { apply (NoDup_fmap_1 (fun x => x / n)). assert ((fun x => x / n) <$> xs = seqZ 0 (Z.of_nat (size m) + 1)) as ->; [|apply NoDup_seqZ].
      clear -Hxs. induction Hxs as [|k x ks xs [<- _] _ IH]; [done|]. by rewrite fmap_cons, IH. }
    assert (list_to_set xs ⊆ dom m) as Hsub.
    { intros x Hx. apply elem_of_list_to_set in Hx. apply list_elem_of_lookup in Hx as [i Hi]. destruct (Forall2_lookup_r _ _ _ _ _ Hxs Hi) as (k & _ & _ & ?). done. }
    apply subseteq_size in Hsub. rewrite size_list_to_set, size_dom in Hsub by done. lia.
Qed.
End search.

#[local] Existing Instances sample_align sample_align_spec sample_classes sample_catalog generator_runtime.
Definition searching_frames : FrameAllocator := {| frame_address m n := default 0 (free_block m n) * n; garbage _ := 0 |}.
#[local] Existing Instance searching_frames.
#[local] Instance searching_frames_spec : FrameAllocatorSpec.
Proof.
  refine {| memory_limit := 2 ^ 20 |}. intros m n Hn Hlim. destruct (free_block_found m n Hn) as (k & E & Hk & Hu). cbn [frame_address searching_frames].
  rewrite E. cbn [default from_option id]. split; [lia|]. split; [|done]. change (2 ^ 20) with 1048576 in Hlim. change (2 ^ 63) with 9223372036854775808. nia.
Defined.
#[local] Instance sample_classes_spec : CppClassesSpec.
Proof. split; [done|by exists 3|by exists 1|done|by exists 7|by exists 3]. Defined.

Definition fib_source : list Z :=
  bytes "fun fib(n: int32) -> int32 { if (n < 2) { return n } return fib(n - 1) + fib(n - 2) }
fun sum(n: int32) -> int32 { var s = 0 for (var i = 0; i < n; i = i + 1) { if (i != 3 and i != 5) { s = s + fib(i) } } return s }".
Definition fib_file : TFile := match parse_and_check true 1000 fib_source with Some (Some f) => f | _ => mkTFile no_pos [] end.

(** A buffer at 0 with the address of the result, 16, and the parameter, 8. *)
Definition fib_memory : memory := list_to_map (zip (seqZ 0 20) [16; 0; 0; 0; 0; 0; 0; 0; 8; 0; 0; 0; 0; 0; 0; 0; 0; 0; 0; 0]).
Definition fib_checks (root : TFile) : option (BytecodeGenerator * tpl_function * FunctionInfo TplType) :=
  g ← Compile root; fn ← functions_of root !! 1%nat; f ← gen_functions_ g !! 1%nat;
  if core_file root && (Z.of_nat (length (bytecode_ g)) <? 2 ^ 31 - 1) && (Z.of_nat (length (functions_of root)) <=? 2 ^ 16) &&
     forallb (fun f => Z.of_nat (length (locals_ f)) <=? max_locals) (gen_functions_ g) && forallb (fun f => frame_size_ f <=? 48) (gen_functions_ g) &&
     match call_function (functions_of root) 100 20 (fn_name fn) [8] with Ok (Some v) => v =? 26 | _ => false end && (params_size_ f =? 12) && bool_decide (fn_ret fn = BuiltinType Int32) &&
     bool_decide ((fun l => (li_offset l, li_size l)) <$> locals_ f !! 1%nat = Some (8, 4))
  then Some (g, fn, f) else None.
Record fib_facts (root : TFile) (g : BytecodeGenerator) (fn : tpl_function) (f : FunctionInfo TplType) : Prop := {
  fib_compiled : Compile root = Some g;
  fib_function : functions_of root !! 1%nat = Some fn;
  fib_info : gen_functions_ g !! 1%nat = Some f;
  fib_core : core_file root = true;
  fib_bytes : Z.of_nat (length (bytecode_ g)) < 2 ^ 31 - 1;
  fib_count : Z.of_nat (length (functions_of root)) <= 2 ^ 16;
  fib_few : Forall few_locals (gen_functions_ g);
  fib_bound : Forall (fun f => frame_size_ f <= 48) (gen_functions_ g);
  fib_result : call_function (functions_of root) 100 20 (fn_name fn) [8] = Ok (Some 26);
  fib_size : params_size_ f = 12;
  fib_return : fn_ret fn = BuiltinType Int32;
  fib_parameter : exists l, locals_ f !! 1%nat = Some l /\ li_offset l = 8 /\ li_size l = 4
}.
Lemma fib_checks_inv root g fn f : fib_checks root = Some (g, fn, f) -> fib_facts root g fn f.
Proof.
  unfold fib_checks. destruct (Compile root) as [g'|] eqn:Eg; [|done]. cbn [mbind option_bind].
  destruct (functions_of root !! 1%nat) as [fn'|] eqn:Efn; [|done]. cbn [mbind option_bind]. destruct (gen_functions_ g' !! 1%nat) as [f'|] eqn:Ef; [|done]. cbn [mbind option_bind].
  destruct (_ && _) eqn:E; [|done]. intros [= -> -> ->]. repeat match goal with Hb : _ && _ = true |- _ => apply andb_true_iff in Hb as [? ?] end.
  repeat match goal with Hb : bool_decide _ = true |- _ => apply bool_decide_eq_true in Hb | Hb : (_ <? _) = true |- _ => apply Z.ltb_lt in Hb
    | Hb : (_ <=? _) = true |- _ => apply Z.leb_le in Hb | Hb : (_ =? _) = true |- _ => apply Z.eqb_eq in Hb end.
  constructor; try done.
  - apply Forall_forall. intros x Hx%list_elem_of_In. match goal with Hb : forallb (fun f => Z.of_nat _ <=? _) _ = true |- _ => rewrite forallb_forall in Hb; apply Z.leb_le, Hb, Hx end.
  - apply Forall_forall. intros x Hx%list_elem_of_In. match goal with Hb : forallb (fun f => _ <=? 48) _ = true |- _ => rewrite forallb_forall in Hb; apply Z.leb_le, Hb, Hx end.
  - destruct (call_function _ _ _ _ _) as [[v|]| |]; try done. match goal with Hb : (v =? 26) = true |- _ => by apply Z.eqb_eq in Hb as -> end.
  - destruct (locals_ f !! 1%nat) as [l|]; [|done]. match goal with Hb : _ <$> Some l = _ |- _ => injection Hb as ? ? end. by exists l.
Qed.
Lemma fib_checked : bool_decide (is_Some (fib_checks fib_file)) = true.
Proof. vm_compute. reflexivity. Qed.
Lemma fib_memory_allocated a n : 0 <= a -> a + n <= 20 -> allocated a n fib_memory.
Proof.
  intros Ha Hn x Hx. assert (forallb (fun x => bool_decide (is_Some (fib_memory !! x))) (seqZ 0 20) = true) as Hall by (vm_compute; reflexivity).
  rewrite forallb_forall in Hall. specialize (Hall x). rewrite bool_decide_eq_true in Hall. apply Hall, list_elem_of_In, elem_of_seqZ. lia.
Qed.
Lemma fib_buffer f : params_size_ f = 12 -> (exists l, locals_ f !! 1%nat = Some l /\ li_offset l = 8 /\ li_size l = 4) ->
  argument_buffer f (BuiltinType Int32) 0 16 [8] fib_memory.
Proof.
  intros Es (l & Hl & Eo & El). constructor.
  - rewrite Es. by apply fib_memory_allocated.
  - intros _. vm_compute. reflexivity.
  - intros [|i] v; [|done]. intros [= <-]. exists l. split; [exact Hl|]. rewrite Eo, El. split; [vm_compute; reflexivity|]. by split.
Qed.
Lemma Compile_correct_witness : exists g k m', Compile fib_file = Some g /\
  (forall fuel, (k <= fuel)%nat -> InvokeFunction (mkModule (bytecode_ g) 0 (gen_functions_ g)) fuel 1 0 fib_memory = Ok m') /\ load 4 16 m' = Some 26.
Proof.
  destruct (bool_decide_eq_true_1 _ fib_checked) as [[[g fn] f] E]. destruct (fib_checks_inv _ _ _ _ E) as [Hc Hfn Hf Hcore Hb Hn Hfew Hbound Hcall Hsz Hret Hp].
  assert (argument_buffer f (fn_ret fn) 0 16 [8] fib_memory) as Hbuf by (rewrite Hret; exact (fib_buffer f Hsz Hp)).
  assert (result_area (fn_ret fn) 16 fib_memory) as Hra.
  { intros _. rewrite Hret. split; [lia|]. by apply fib_memory_allocated. }
  assert (Z.of_nat (size fib_memory) + (Z.of_nat 20 + 1) * 48 <= memory_limit) as Hroom by (vm_compute; discriminate).
  destruct (Compile_correct fib_file g 48 1 fn f Hc Hcore Hb Hn Hfew Hbound Hfn Hf 0 100 20 [8] (Some 26) 0 16 fib_memory Hcall Hbuf Hra Hroom)
    as (k & m' & Hk & _ & Hres).
  exists g, k, m'. split; [exact Hc|]. split; [exact Hk|]. unfold result_stored in Hres. rewrite Hret in Hres. apply Hres.
Defined.

(** ** Outside of the core *)

Definition or_source : list Z := bytes "fun f(n: int32) -> int32 { var x = true x = (n == 3) or x if (x) { return 1 } return 0 }".
Definition scopes_source : list Z :=
  bytes "fun f(n: int32) -> int32 { var s = 0 if (n > 0) { var k = 1 s = s + k } if (n > 0) { var k = 20 s = s + k } return s }".
Definition parsed (source : list Z) : TFile := match parse_and_check true 1000 source with Some (Some f) => f | _ => mkTFile no_pos [] end.
(** What the call of the first function of a source with 8 means, and what the machine stores. *)
Definition meant (source : list Z) : result (option Z) :=
  match functions_of (parsed source) with fn :: _ => call_function (functions_of (parsed source)) 100 20 (fn_name fn) [8] | [] => Undefined end.
Definition stored (source : list Z) : option Z :=
  g ← Compile (parsed source);
  match InvokeFunction (mkModule (bytecode_ g) 0 (gen_functions_ g)) 200 0 0 fib_memory with Ok m => load 4 16 m | _ => None end.

(** Two examples of what the restrictions of the core leave out.  A variable that an [or] is computed into and
    that its right operand reads is overwritten before it is read; of two variables of one name, in two
    blocks, the second is initialised, but its uses read the first. *)
Example outside_of_the_core :
  core_file (parsed or_source) = false /\ meant or_source = Ok (Some 1) /\ stored or_source = Some 0 /\
  core_file (parsed scopes_source) = false /\ meant scopes_source = Ok (Some 21) /\ stored scopes_source = Some 2.
Proof. repeat split; vm_compute; reflexivity. Qed.
